(* ===== verification/_CoqProject ===== *)
-Q . S2P
Prelude.v
Bytes.v
Json.v
IpAddr.v
Hex.v
Wire.v
Topology.v
Provider.v
Convert.v
Digest.v
PortRanges.v
PortHopping.v
Traffic.v
TrafficQueue.v
Credentials.v
Users.v
UsersSpec.v
PortErrors.v
Mutation.v
Manager.v
ManagerSpec.v
Adapter.v
AdapterSpec.v
Fetcher.v
FetcherSpec.v
Ack.v
Lanes.v
LanesSpec.v
Policy.v
Backoff.v
Executor.v
ExecutorSpec.v
EngineApi.v
PendingTraffic.v
Runtime.v
RuntimeTx.v
RuntimeSpec.v
RuntimeApply.v
RuntimeReconcile.v
RuntimeNormalize.v
RuntimeRecovery.v
RuntimeTheorems.v
RuntimeExample.v
RuntimeNode.v
AnalysisConfig.v
AnalysisData.v
Collector.v
Analysis.v
AnalysisBudget.v
AnalysisQueue.v
AnalysisWorld.v
AnalysisSteps.v
AnalysisLedger.v
AnalysisLedgerSteps.v
AnalysisLedgerWorld.v
AnalysisTail.v
AnalysisSpec.v
OutboundAdapter.v
OutboundGraph.v
OutboundGraphSpec.v
OutboundChains.v
OutboundProjection.v
BudgetSpec.v
OutboundExample.v
RuleSet.v
CompileInbound.v
CompileRoute.v
CompileOutbounds.v
CompileDns.v
Compile.v
CompileSpec.v
CompileProjection.v
CompileTheorems.v
CompileExample.v
Nft.v
NftCodec.v
NftSpec.v
NftContract.v
NftNetlink.v
NftExample.v
