(* ===== verification/Prelude.v ===== *)
(** * node-agent-rs: a verification library

    The node agent connects a proxy node to its panel (the "ACP" service).  It fetches
    the node topology and the users, keeps them current through control commands, compiles
    the topology for a proxy engine and runs it there, redirects port ranges for port
    hopping, and reports traffic and traffic analysis.  This library models the agent's
    own logic from the Rust sources under [src/crates/] and proves what it guarantees.
    Every definition is executable unless it is a relation; the examples evaluate them.

    ** The parts and how they interact

    A control command arrives over the session stream and is put into a lane
    ([Lanes]); the lane runs it through the executor ([Executor]), which asks the panel
    for users or a topology ([Fetcher]) and hands the candidate to the topology manager
    ([Manager]).  The manager builds the new topology ([Mutation], over [Topology],
    [Provider] and the conversions of [Convert]) and applies it through the adapter
    ([Adapter]) to the port router ([PortHopping]) and to the node runtime, all or
    nothing.  The port router installs its plan through a backend, on Linux the nftables
    tables of [Nft] over the netlink connection of [NftNetlink].  The compiler ([Compile])
    turns the topology into the configuration of the engine: its outbounds become client
    chains ([OutboundAdapter], [OutboundGraph], [OutboundProjection]), its nodes become
    inbounds, routes and DNS ([CompileInbound], [CompileRoute], [CompileDns], [RuleSet]).
    The runtime ([Runtime], [RuntimeTx]) brings the engine to the candidate by a journaled
    transaction; what retired users have transferred is kept as receipts
    ([PendingTraffic]).  Inside the engine the user registry ([Users], [Credentials])
    authenticates and counts.  The counters are drained, aggregated by hour ([Traffic])
    and streamed to the panel ([TrafficQueue]).  Beside that, the traffic analysis
    ([Analysis], [Collector]) observes flows, samples them by minute and sends batches.

    ** Files, components and sources

    Shared:
    - [Prelude]: results, machine integers, strings, a state and error monad, sums over
      lists and maps, generic lemmas, tactics ([node] hints); [Bytes]: byte strings and
      UTF-8; [Json]: JSON values; [IpAddr]: the address grammar of Rust's library.
    - [Wire]: the messages of [acp-proto/proto/acp.proto] that are used.

    Topology (sources [node-agent/src/topology/], [acp-proto/src/]):
    - [Topology], [Provider]: [topology/mod.rs], [topology/provider.rs]; [Convert]:
      [topology/proto.rs]; [Digest]: [acp-proto/src/digest.rs]; [Hex]: [acp-proto/src/hex.rs].
    - [Mutation], [Manager]: [topology/manager.rs], the pure construction of candidates
      and the manager's operations as a labelled transition system; [ManagerSpec].
    - [Adapter]: [NodeRuntimeTopologyAdapter] of the same file, over the classes
      [PortRouter] and [NodeRuntime]; [AdapterSpec]; [PortErrors]: [porthopping/errors.rs].
    - [PortRanges], [PortHopping]: [porthopping/port_ranges.rs], [plan.rs], [manager.rs].

    Compiler ([node-agent/src/compile.rs], [outbound_adapter.rs], [rule_set.rs]):
    - [OutboundAdapter]: one outbound to one hop; [OutboundGraph], [OutboundGraphSpec]: the
      catalog, its reference graph and the shapes of its actions; [OutboundChains]: what a
      validated catalog compiles to; [OutboundProjection], [BudgetSpec]: what is embedded
      and counted; [OutboundExample].
    - [RuleSet]: planning and validating rule-set resources; [CompileInbound],
      [CompileRoute], [CompileOutbounds], [CompileDns]: the parts of [compile.rs]; [Compile]:
      the whole; [CompileSpec], [CompileProjection] (lemmas), [CompileTheorems] (also the
      redaction of credentials), [CompileExample].

    Port forwarding on Linux ([node-agent/src/porthopping/backend_linux.rs]):
    - [Nft]: markers, inspection, conflicts, desired rules, batches and [apply], over the
      class [NftConnection]; [NftCodec]: markers and redirects are read back as written;
      [NftSpec]: conflicts; [NftContract]: the contract of a backend, against any kernel
      that keeps [NftKernel]; [NftNetlink]: the connection over a socket; [NftExample].

    Control ([node-agent/src/control/], [policy.rs], [backoff.rs]):
    - [Fetcher], [FetcherSpec]: paged listing with retries, the panel as a state machine.
    - [Ack]: the replay cache; [Lanes], [LanesSpec]: lanes, gates and sessions as
      interleaved steps; [Executor], [ExecutorSpec]: every command type; [Policy]; [Backoff].

    Engine and runtime ([shoes-engine/src/users.rs], [node-agent/src/runtime.rs]):
    - [Credentials], [Users], [UsersSpec]: the user registry.
    - [EngineApi]: the engine as a class [EngineOps] with the laws [EngineLaws];
      [PendingTraffic], [Runtime], [RuntimeTx]: the runtime's data and transactions;
      [RuntimeSpec] (what it promises, and how a transaction rolls back), [RuntimeApply],
      [RuntimeReconcile], [RuntimeNormalize], [RuntimeRecovery] (lemmas by operation),
      [RuntimeTheorems]; [RuntimeExample] is an engine that keeps the laws; [RuntimeNode]
      puts the runtime behind the adapter.

    Traffic ([node-agent/src/traffic.rs], [traffic/stream.rs]):
    - [Traffic]: observe, flush, restore; [TrafficQueue]: the queue and the stream as a
      transition system with cancellation at every await.

    Traffic analysis ([node-agent/src/analysis/], [acp-proto/src/analysis.rs]):
    - [AnalysisConfig], [AnalysisData], [Collector]: limits, data, the budget, the minute,
      the queue; [Analysis]: the tasks around them as interleaved steps.
    - [AnalysisBudget], [AnalysisQueue], [AnalysisWorld], [AnalysisSteps]: the budget
      invariant, by part and for every step; [AnalysisLedger], [AnalysisLedgerSteps],
      [AnalysisLedgerWorld]: where the bytes of a user are; [AnalysisTail]: operations in
      flight; [AnalysisSpec]: the theorems and their example.

    ** What the theorems show

    - Compiler: no topology makes it panic; every inbound carries exactly the rules and the
      DNS configuration its route asks for, under the meaning a reference interpreter gives
      to each outbound; what is embedded stays within the limits, and the counters are
      exact; the reference pass accepts exactly the acyclic catalogs of depth at most 128;
      the diagnostic document hides every credential and shows the rest.
    - Forwarding: on Linux the backend keeps the contract of a port hopping backend:
      afterwards the machine's tables forward exactly the plan, or the state is what it was,
      or the error says that it is uncertain; tables of others are never touched; conflicts are
      found exactly on the chains a NAT hook reaches; a batch reported as done was
      acknowledged, message by message; markers and datagrams are read back as written.
    - End to end: what the manager publishes is what the router forwards and the engine
      runs, listener by listener and user by user; a failed command leaves the published
      topology, the router and the engine as they were, or says that they are not.
    - Control: one idempotency key never executes twice at the same time; a success in
      the cache is replayed; every accepted command is answered, in order; lanes come to
      rest; a command that is fenced by a revision and acknowledged as applied has reached it.
    - Fetching: a listing is exactly the concatenation of a complete exchange's pages, and
      ends after at most three attempts of 10,000 calls each.
    - Users: the registry's indexes are consistent, a credential belongs to one user,
      removal revokes it.
    - Traffic: bytes are conserved from the engine's counters to the panel, per identity,
      hour and direction; one finding, a report that is delivered twice.
    - Analysis: the memory budget is exact in every interleaving; nothing is reported that
      no completed operation accounts for; a flow's last bytes are drained before it is
      forgotten; a sealed minute places or counts every row.
    - Codecs: hex and the wire conversions round-trip; the digest's normal form
      identifies exactly the snapshots with the same effective configuration.

    ** Conventions

    - Integers are [Z] with the wrap-around or saturation written out ([wrapping_add64],
      [sat]): plain [+=] on [u64] is that of a release build.  Maps are [gmap], ordered maps are
      iterated in key order, the order of hash maps is a parameter or proved irrelevant.
    - A section under a lock, and a short run of atomic operations, is one step.  What runs
      between two awaits, or between two sections, is interleaved with everything else.
    - Fuel and bounds: paging is bounded by the code's own 10,000 pages and three attempts;
      the eviction loops recurse on the list they consume; the lanes' termination measure
      counts the work left; receipts are bounded by 65,536 keys, the analysis budget by
      64 MiB, 16 MiB, 40,000 targets and 1,024 pending ones.  The passes over outbound
      references have the fuel of the code's depth limit, 128, which is proved enough on
      every accepted catalog; the scan for conflicting chains has one round per chain; a
      datagram is parsed with the fuel of its length, and a receive loop with that of its
      inbox: both are proved enough.
    - Ghost fields (logs of what was queued, finished or owned) are marked as such where
      they are declared and are never read by an operation.

    ** Parameters

    What is not under [src/] is an argument: the panel, the codecs of YAML and JSON and the
    derived serializers, [{:?}] of strings, SHA-256, the parsers and validators of the
    external shoes crate, the data types' encodings of the netlink crates and their sockets,
    the kernel, the lengths of prost's encodings, random jitter and clocks.  The
    transaction of the runtime takes the compiler as an argument ([compile_with_route]), the
    adapter takes its router and runtime as classes, and the engine is [EngineOps] with its
    documented behaviour as [EngineLaws].  Each theorem with such a hypothesis is
    applied to a concrete instance in an example.

    ** Not modelled

    - The engine's listeners and protocol handlers ([shoes-engine/src/lib.rs], [inbound.rs],
      [protocol.rs]): they run the external shoes crate.
    - Loading rule sets: downloads and file snapshots ([RuleSetLoader] of [rule_set.rs]).
    - Port forwarding on other systems: [backend_other.rs] refuses every plan that is not
      empty, [backend_windows.rs] accepts every plan and does nothing.
    - The session loop, shutdown, remote shell, telemetry, logging, configuration files,
      command line and request signing.
    - The stream that sends analysis batches: an RPC loop with a floating-point token bucket.
    - The acknowledgement channel's bound in the lanes, progress reports of the fetcher, and
      the wake-ups of waiting tasks: a waiting task may take its step at any time. *)

From Stdlib Require Import ZArith Lia.
From stdpp Require Export base tactics list gmap strings numbers sorting relations.

#[export] Set Default Goal Selector "!".

(** ** Results: the source's [Result<A, E>] *)

Inductive result (E A : Type) : Type :=
  | Ok (a : A)
  | Err (e : E).
Arguments Ok {E A} a.
Arguments Err {E A} e.

#[export] Instance result_ret {E} : MRet (result E) := fun A a => Ok a.
#[export] Instance result_bind {E} : MBind (result E) :=
  fun A B f r => match r with Ok a => f a | Err e => Err e end.
#[export] Instance result_fmap {E} : FMap (result E) :=
  fun A B f r => match r with Ok a => Ok (f a) | Err e => Err e end.

(** [map_err] of the source. *)
Definition map_err {E E' A} (f : E -> E') (r : result E A) : result E' A :=
  match r with Ok a => Ok a | Err e => Err (f e) end.

(** [Option::ok_or] of the source. *)
Definition ok_or {E A} (e : E) (o : option A) : result E A :=
  match o with Some a => Ok a | None => Err e end.

Definition is_ok {E A} (r : result E A) : bool :=
  match r with Ok _ => true | Err _ => false end.

#[export] Instance result_eq_dec {E A} `{EqDecision E, EqDecision A} :
  EqDecision (result E A).
Proof. solve_decision. Defined.

(** [Result] binds and option tests are inverted by these tactics. *)

Lemma bind_Ok {E A B} (r : result E A) (f : A -> result E B) b :
  r ≫= f = Ok b <-> exists a, r = Ok a /\ f a = Ok b.
Proof. destruct r; cbn; naive_solver. Qed.

Lemma bind_Err {E A B} (r : result E A) (f : A -> result E B) e :
  r ≫= f = Err e <-> r = Err e \/ exists a, r = Ok a /\ f a = Err e.
Proof. destruct r; cbn; naive_solver. Qed.

Lemma map_err_Ok {E E' A} (f : E -> E') (r : result E A) a :
  map_err f r = Ok a <-> r = Ok a.
Proof. destruct r; cbn; naive_solver. Qed.

(** ** Machine integers

    Unsigned integers of the source are [Z]s kept in range; wrapping and
    saturating arithmetic is written out with the width. *)

Definition u16_max : Z := 65535.
Definition u32_max : Z := 4294967295.
Definition u64_max : Z := 18446744073709551615.
Definition i64_max : Z := 9223372036854775807.
Definition i64_min : Z := -9223372036854775808.

Definition is_u16 (z : Z) : Prop := (0 <= z <= u16_max)%Z.
Definition is_u32 (z : Z) : Prop := (0 <= z <= u32_max)%Z.
Definition is_u64 (z : Z) : Prop := (0 <= z <= u64_max)%Z.
Definition is_i64 (z : Z) : Prop := (i64_min <= z <= i64_max)%Z.

(** [u64::wrapping_add] *)
Definition wrapping_add64 (a b : Z) : Z := ((a + b) mod 2 ^ 64)%Z.

Lemma wrapping_add64_range a b : is_u64 (wrapping_add64 a b).
Proof.
  unfold is_u64, wrapping_add64, u64_max.
  pose proof (Z.mod_pos_bound (a + b) (2 ^ 64) ltac:(lia)). lia.
Qed.

Lemma wrapping_add64_small a b :
  (0 <= a + b <= u64_max)%Z -> wrapping_add64 a b = (a + b)%Z.
Proof.
  unfold wrapping_add64, u64_max. intros H. apply Z.mod_small. lia.
Qed.

Lemma wrapping_add64_assoc a b c :
  wrapping_add64 (wrapping_add64 a b) c = wrapping_add64 a (wrapping_add64 b c).
Proof.
  unfold wrapping_add64.
  rewrite Z.add_mod_idemp_l, Z.add_mod_idemp_r by lia. f_equal. lia.
Qed.

Lemma wrapping_add64_comm a b : wrapping_add64 a b = wrapping_add64 b a.
Proof. unfold wrapping_add64. f_equal. lia. Qed.

Lemma wrapping_add64_idemp a b c :
  wrapping_add64 a (wrapping_add64 b c) = wrapping_add64 a (b + c)%Z.
Proof. unfold wrapping_add64. by rewrite Z.add_mod_idemp_r by lia. Qed.

(** [AtomicU64::fetch_sub] and [u64::wrapping_sub] *)
Definition wrapping_sub64 (a b : Z) : Z := ((a - b) mod 2 ^ 64)%Z.

Lemma wrapping_sub64_small a b : (0 <= a - b <= u64_max)%Z -> wrapping_sub64 a b = (a - b)%Z.
Proof. unfold wrapping_sub64, u64_max. intros H. apply Z.mod_small. lia. Qed.

Lemma wrapping_add64_le a b : (0 <= a + b)%Z -> (0 <= wrapping_add64 a b <= a + b)%Z.
Proof.
  unfold wrapping_add64. intros H. split; [by apply Z.mod_pos_bound|]. by apply Z.mod_le.
Qed.

(** [saturating_mul]/[saturating_add] at an upper bound. *)
Definition sat (bound z : Z) : Z := Z.min bound z.

(** ** Strings and bytes

    [String] and byte buffers of the source are byte sequences: Rocq's
    [string]. *)

#[export] Instance string_leb_dec (a b : string) : Decision (String.leb a b = true).
Proof. apply _. Defined.

Definition is_empty (s : string) : bool :=
  match s with EmptyString => true | String _ _ => false end.

Lemma is_empty_spec s : is_empty s = true <-> s = "".
Proof. destruct s; cbn; naive_solver. Qed.

Lemma is_empty_false s : is_empty s = false <-> s <> "".
Proof. destruct s; cbn; naive_solver. Qed.

(** ** Lists *)

(** [iter_mut().find(p)] followed by a write through the reference: the first
    element satisfying [p] is rewritten. *)
Fixpoint update_first {A} (p : A -> bool) (f : A -> A) (l : list A) : list A :=
  match l with
  | [] => []
  | x :: l => if p x then f x :: l else x :: update_first p f l
  end.

(** [iter().find(p)] *)
Fixpoint find_first {A} (p : A -> bool) (l : list A) : option A :=
  match l with
  | [] => None
  | x :: l => if p x then Some x else find_first p l
  end.

(** [iter().position(p)] *)
Fixpoint position {A} (p : A -> bool) (l : list A) : option nat :=
  match l with
  | [] => None
  | x :: l => if p x then Some 0 else S <$> position p l
  end.

(** [Vec::retain] *)
Definition retain {A} (p : A -> bool) (l : list A) : list A :=
  filter (fun x => p x = true) l.

(** Replace the first element satisfying [p], or push at the end. *)
Definition upsert_first {A} (p : A -> bool) (x : A) (l : list A) : list A :=
  match find_first p l with
  | Some _ => update_first p (fun _ => x) l
  | None => l ++ [x]
  end.

Section list_update.
Context {A : Type} (p : A -> bool).
Implicit Types (l : list A) (f : A -> A).

Lemma find_first_Some l x :
  find_first p l = Some x -> p x = true /\ x ∈ l.
Proof. induction l as [|y l IH]; cbn; [done|]. destruct (p y) eqn:?; set_solver. Qed.

Lemma find_first_None l : find_first p l = None <-> forall x, x ∈ l -> p x = false.
Proof.
  induction l as [|y l IH]; cbn; [set_solver|].
  destruct (p y) eqn:E.
  - split; [done|]. intros H. specialize (H y). rewrite E in H. set_solver.
  - rewrite IH. set_solver.
Qed.

Lemma update_first_None l f : find_first p l = None -> update_first p f l = l.
Proof.
  induction l as [|y l IH]; cbn; [done|]. destruct (p y); [done|]. intros; f_equal; auto.
Qed.

Lemma length_update_first l f : length (update_first p f l) = length l.
Proof. induction l as [|y l IH]; cbn; [done|]. destruct (p y); cbn; auto. Qed.

Lemma update_first_position l f i :
  position p l = Some i -> update_first p f l = alter f i l.
Proof.
  revert i. induction l as [|y l IH]; cbn; intros i; [done|].
  destruct (p y); [intros [= <-]; done|].
  destruct (position p l) as [j|]; cbn; [|done].
  intros [= <-]. cbn. f_equal. by apply IH.
Qed.

Lemma position_lookup l i :
  position p l = Some i -> exists x, l !! i = Some x /\ find_first p l = Some x.
Proof.
  revert i. induction l as [|y l IH]; cbn; intros i; [done|].
  destruct (p y) eqn:Hp; [intros [= <-]; eauto|].
  destruct (position p l) as [j|]; cbn; [|done].
  intros [= <-]. cbn. by apply IH.
Qed.

Lemma find_first_position l : find_first p l = None <-> position p l = None.
Proof.
  induction l as [|y l IH]; cbn; [done|]. destruct (p y); [done|].
  rewrite IH. by destruct (position p l).
Qed.

(** A write through the first match leaves the result of a search for a
    predicate the write does not affect. *)
Lemma find_first_update_other (q : A -> bool) f l :
  (forall x, p x = true -> q x = false) ->
  (forall x, p x = true -> q (f x) = false) ->
  find_first q (update_first p f l) = find_first q l.
Proof.
  intros H1 H2. induction l as [|y l IH]; cbn; [done|].
  destruct (p y) eqn:Hp; cbn.
  - by rewrite (H1 y Hp), (H2 y Hp).
  - by rewrite IH.
Qed.

Lemma find_first_update_same f l :
  (forall x, p x = true -> p (f x) = true) ->
  find_first p (update_first p f l) = f <$> find_first p l.
Proof.
  intros Hf. induction l as [|y l IH]; cbn; [done|].
  destruct (p y) eqn:Hp; cbn; [by rewrite Hf|]. by rewrite Hp.
Qed.
End list_update.

Lemma update_first_map {A B} (g : A -> B) (p : A -> bool) (q : B -> bool) f h l :
  (forall x, q (g x) = p x) -> (forall x, g (f x) = h (g x)) ->
  g <$> update_first p f l = update_first q h (g <$> l).
Proof.
  intros Hq Hf. induction l as [|x l IH]; cbn; [done|].
  rewrite Hq. destruct (p x); cbn; by rewrite ?Hf, ?IH.
Qed.

Lemma find_first_map {A B} (g : A -> B) (p : A -> bool) (q : B -> bool) l :
  (forall x, q (g x) = p x) ->
  find_first q (g <$> l) = g <$> find_first p l.
Proof.
  intros Hq. induction l as [|x l IH]; cbn; [done|]. rewrite Hq. by destruct (p x).
Qed.

Lemma retain_map {A B} (g : A -> B) (p : A -> bool) (q : B -> bool) l :
  (forall x, q (g x) = p x) -> g <$> retain p l = retain q (g <$> l).
Proof.
  intros Hq. unfold retain. induction l as [|x l IH]; [done|].
  rewrite fmap_cons, !filter_cons, Hq. case_decide; cbn; by rewrite IH.
Qed.

Lemma elem_of_retain {A} (p : A -> bool) l x : x ∈ retain p l <-> p x = true /\ x ∈ l.
Proof. unfold retain. by rewrite list_elem_of_filter. Qed.

(** ** Stable sorting: [sort_by] and [sort_unstable_by] of the source *)

Section sort_by.
Context {A : Type} (leb : A -> A -> bool).

Fixpoint insert_by (x : A) (l : list A) : list A :=
  match l with
  | [] => [x]
  | y :: l' => if leb x y then x :: l else y :: insert_by x l'
  end.

Definition sort_by (l : list A) : list A := foldr insert_by [] l.

Let R := (fun x y => leb x y = true).

Lemma insert_by_perm x l : insert_by x l ≡ₚ x :: l.
Proof.
  induction l as [|y l IH]; cbn; [done|]. destruct (leb x y); [done|].
  rewrite IH. apply Permutation_swap.
Qed.

Lemma sort_by_perm l : sort_by l ≡ₚ l.
Proof. induction l as [|x l IH]; cbn; [done|]. by rewrite insert_by_perm, IH. Qed.

Lemma elem_of_sort_by x l : x ∈ sort_by l <-> x ∈ l.
Proof. by rewrite sort_by_perm. Qed.

Section sorted.
Hypothesis leb_total : forall x y, leb x y = true \/ leb y x = true.
Hypothesis leb_trans : forall x y z, leb x y = true -> leb y z = true -> leb x z = true.

Lemma insert_by_sorted x l : StronglySorted R l -> StronglySorted R (insert_by x l).
Proof.
  induction 1 as [|y l Hl IH Hy]; cbn; [repeat constructor|].
  destruct (leb x y) eqn:E.
  - constructor; [by constructor|]. constructor; [done|].
    eapply Forall_impl; [apply Hy|]. cbn. intros z. by apply leb_trans.
  - constructor; [done|]. rewrite insert_by_perm. constructor; [|done].
    destruct (leb_total x y); congruence.
Qed.

Lemma sort_by_sorted l : StronglySorted R (sort_by l).
Proof. induction l; cbn; [constructor|]. by apply insert_by_sorted. Qed.

(** Sorting forgets the order the elements arrive in when the comparison
    identifies no two distinct elements of the list. *)
Lemma sort_by_unique l1 l2 :
  l1 ≡ₚ l2 ->
  (forall x y, x ∈ l1 -> y ∈ l1 -> leb x y = true -> leb y x = true -> x = y) ->
  sort_by l1 = sort_by l2.
Proof.
  intros Hp Hanti.
  apply (StronglySorted_unique_strong R).
  - intros x y Hx Hy. rewrite sort_by_perm in Hx, Hy. rewrite <- Hp in Hy. auto.
  - apply sort_by_sorted.
  - apply sort_by_sorted.
  - by rewrite !sort_by_perm.
Qed.
End sorted.

(** Stability: elements the predicate selects keep their order when the
    comparison cannot tell them apart. *)
Lemma insert_by_filter_eq (P : A -> bool) x l :
  P x = true ->
  (forall y, y ∈ l -> P y = true -> leb x y = true) ->
  retain P (insert_by x l) = x :: retain P l.
Proof.
  unfold retain. intros Hx Hl. induction l as [|y l IH]; cbn.
  - rewrite decide_True by done. done.
  - destruct (leb x y) eqn:E.
    + rewrite filter_cons_True by done. done.
    + rewrite !filter_cons. case_decide as Hy.
      * rewrite Hl in E; [done|set_solver|done].
      * apply IH. set_solver.
Qed.

Lemma insert_by_filter_ne (P : A -> bool) x l :
  P x = false -> retain P (insert_by x l) = retain P l.
Proof.
  unfold retain. intros Hx. induction l as [|y l IH]; cbn.
  - rewrite decide_False by congruence. done.
  - destruct (leb x y).
    + rewrite filter_cons_False by congruence. done.
    + rewrite !filter_cons. case_decide; by rewrite ?IH.
Qed.

Lemma sort_by_stable (P : A -> bool) l :
  (forall x y, P x = true -> P y = true -> leb x y = true) ->
  retain P (sort_by l) = retain P l.
Proof.
  intros HP. induction l as [|x l IH]; [done|].
  change (sort_by (x :: l)) with (insert_by x (sort_by l)).
  destruct (P x) eqn:Hx.
  - rewrite insert_by_filter_eq by auto. rewrite IH. unfold retain.
    rewrite filter_cons_True by done. done.
  - rewrite insert_by_filter_ne by done. rewrite IH. unfold retain.
    rewrite filter_cons_False by congruence. done.
Qed.
End sort_by.

(** The byte order of strings ([Ord for str]) is total, transitive and
    antisymmetric. *)
Lemma str_leb_total a b : String.leb a b = true \/ String.leb b a = true.
Proof. destruct (String.leb_total a b); auto. Qed.

Lemma str_leb_trans a b c :
  String.leb a b = true -> String.leb b c = true -> String.leb a c = true.
Proof.
  intros H1 H2. pose proof (transitivity (R := String.le) (x := a) (y := b) (z := c)) as H.
  unfold String.le in H. rewrite H1, H2 in H. specialize (H I I). by apply Is_true_true.
Qed.

Lemma str_leb_antisym a b : String.leb a b = true -> String.leb b a = true -> a = b.
Proof. intros. by apply String.leb_antisym. Qed.

Create HintDb node.
#[export] Hint Resolve str_leb_total str_leb_trans str_leb_antisym wrapping_add64_range : node.
#[export] Hint Resolve sort_by_perm : node.

Lemma insert_by_map {A B} (f : A -> B) (leb : A -> A -> bool) (leb' : B -> B -> bool) x l :
  (forall x y, leb' (f x) (f y) = leb x y) ->
  List.map f (insert_by leb x l) = insert_by leb' (f x) (List.map f l).
Proof.
  intros H. induction l as [|y l IH]; cbn; [done|]. rewrite H.
  destruct (leb x y); cbn; [done|]. by rewrite IH.
Qed.

(** Sorting commutes with a map that preserves the sort key. *)
Lemma sort_by_map {A B} (f : A -> B) (leb : A -> A -> bool) (leb' : B -> B -> bool) l :
  (forall x y, leb' (f x) (f y) = leb x y) ->
  List.map f (sort_by leb l) = sort_by leb' (List.map f l).
Proof.
  intros H. induction l as [|x l IH]; [done|]. cbn.
  unfold sort_by in IH. by rewrite (insert_by_map f leb leb'), IH.
Qed.

(** Sorting by a string key. *)
Section sort_key.
Context {A : Type} (key : A -> string).
Definition key_leb (x y : A) : bool := String.leb (key x) (key y).
Definition sort_by_key (l : list A) : list A := sort_by key_leb l.

Lemma sort_by_key_perm l : sort_by_key l ≡ₚ l.
Proof. apply sort_by_perm. Qed.

Lemma sort_by_key_sorted l : StronglySorted (fun x y => key_leb x y = true) (sort_by_key l).
Proof. apply sort_by_sorted; unfold key_leb; eauto with node. Qed.

(** With distinct keys the sorted list does not depend on the input order. *)
Lemma sort_by_key_unique l1 l2 :
  NoDup (key <$> l1) -> l1 ≡ₚ l2 -> sort_by_key l1 = sort_by_key l2.
Proof.
  intros Hnd Hp. apply sort_by_unique; unfold key_leb; eauto with node.
  intros x y Hx Hy H1 H2. pose proof (str_leb_antisym _ _ H1 H2) as E.
  apply list_elem_of_lookup in Hx as [i Hi], Hy as [j Hj].
  assert (i = j) as ->.
  { eapply NoDup_lookup; [exact Hnd| |]; rewrite list_lookup_fmap;
      [by rewrite Hi|rewrite Hj; cbn; by rewrite E]. }
  congruence.
Qed.
End sort_key.

(** ** Ordered maps: the source's [BTreeMap] *)

(** A [BTreeMap] is iterated in key order. *)
Definition btree_iter {A} (m : gmap string A) : list (string * A) :=
  sort_by_key fst (map_to_list m).

(** [iter.collect::<BTreeMap<_, _>>()]: a later entry replaces an earlier one. *)
Definition collect_map {A} (l : list (string * A)) : gmap string A :=
  foldl (fun m '(k, v) => <[k := v]> m) ∅ l.

Lemma btree_iter_perm {A} (m : gmap string A) : btree_iter m ≡ₚ map_to_list m.
Proof. apply sort_by_key_perm. Qed.

Lemma elem_of_btree_iter {A} (m : gmap string A) k v :
  (k, v) ∈ btree_iter m <-> m !! k = Some v.
Proof. by rewrite btree_iter_perm, elem_of_map_to_list. Qed.

Lemma collect_map_snoc {A} (l : list (string * A)) k v :
  collect_map (l ++ [(k, v)]) = <[k := v]> (collect_map l).
Proof. unfold collect_map. by rewrite foldl_app. Qed.

(** With distinct keys a collected map holds exactly its entries. *)
Lemma lookup_collect_map {A} (l : list (string * A)) k v :
  NoDup l.*1 -> collect_map l !! k = Some v <-> (k, v) ∈ l.
Proof.
  induction l as [|[k' v'] l IH] using rev_ind; intros Hnd; [by cbn; rewrite lookup_empty; set_solver|].
  rewrite fmap_app in Hnd. apply NoDup_app in Hnd as (Hnd & Hx & _).
  rewrite collect_map_snoc. destruct (decide (k = k')) as [->|Hne].
  - rewrite lookup_insert_eq. split.
    + intros [= ->]. set_solver.
    + intros [Hin|Heq%list_elem_of_singleton]%elem_of_app; [|by simplify_eq].
      exfalso. apply (Hx k'); [by apply (list_elem_of_fmap_2 fst _ (k', v))|set_solver].
  - rewrite lookup_insert_ne, IH by done. set_solver.
Qed.

Lemma lookup_collect_map_None {A} (l : list (string * A)) k :
  collect_map l !! k = None <-> k ∉ l.*1.
Proof.
  induction l as [|[k' v'] l IH] using rev_ind; [cbn; rewrite lookup_empty; set_solver|].
  rewrite collect_map_snoc, lookup_insert_None, IH, fmap_app. set_solver.
Qed.

(** ** Comparison chains: [a.cmp(..).then_with(..)] *)

Definition then_with (c d : comparison) : comparison :=
  match c with Eq => d | _ => c end.

(** The laws of [Ord] the standard library's sorts rely on. *)
Class TotalCmp {A} (cmp : A -> A -> comparison) : Prop := {
  cmp_flip x y : cmp y x = CompOpp (cmp x y);
  cmp_eq_l x y z : cmp x y = Eq -> cmp x z = cmp y z;
  cmp_lt_trans x y z : cmp x y = Lt -> cmp y z = Lt -> cmp x z = Lt
}.

#[export] Instance cmp_Z {A} (f : A -> Z) : TotalCmp (fun x y => Z.compare (f x) (f y)).
Proof.
  split; intros.
  - apply Z.compare_antisym.
  - by rewrite (proj1 (Z.compare_eq_iff _ _) H).
  - rewrite Z.compare_lt_iff in *. lia.
Qed.

#[export] Instance cmp_string {A} (f : A -> string) : TotalCmp (fun x y => String.compare (f x) (f y)).
Proof.
  split; intros.
  - apply String.compare_antisym.
  - by rewrite (String.compare_eq_iff _ _ H).
  - assert (String.leb (f x) (f z) = true) as Hle.
    { eapply str_leb_trans; unfold String.leb; [by rewrite H|by rewrite H0]. }
    unfold String.leb in Hle. destruct (String.compare (f x) (f z)) eqn:E; [|done|done].
    apply String.compare_eq_iff in E. rewrite E in H.
    rewrite String.compare_antisym, H0 in H. done.
Qed.

#[export] Instance cmp_then {A} (c d : A -> A -> comparison) :
  TotalCmp c -> TotalCmp d -> TotalCmp (fun x y => then_with (c x y) (d x y)).
Proof.
  intros Hc Hd. split; intros x y.
  - rewrite (cmp_flip (cmp := c) x y), (cmp_flip (cmp := d) x y). by destruct (c x y).
  - intros z. destruct (c x y) eqn:E; cbn; [|done|done]. intros E'.
    by rewrite (cmp_eq_l x y z E), (cmp_eq_l x y z E').
  - intros z. destruct (c x y) eqn:E1; cbn; [|intros _|done].
    + rewrite (cmp_eq_l x y z E1). destruct (c y z); cbn; [|done|done].
      apply (cmp_lt_trans (cmp := d)).
    + destruct (c y z) eqn:E2; cbn; [|intros _|done].
      * intros _. assert (c z y = Eq) as E3 by (by rewrite (cmp_flip (cmp := c) y z), E2).
        assert (c x z = Lt) as ->; [|done].
        rewrite (cmp_flip (cmp := c) z x), (cmp_eq_l z y x E3), (cmp_flip (cmp := c) x y), E1. done.
      * by rewrite (cmp_lt_trans (cmp := c) x y z E1 E2).
Qed.

(** The sorting relation of a comparison. *)
Definition cmp_leb {A} (cmp : A -> A -> comparison) (x y : A) : bool :=
  match cmp x y with Gt => false | _ => true end.

Section cmp_leb.
Context {A : Type} (cmp : A -> A -> comparison) `{!TotalCmp cmp}.

Lemma cmp_leb_total x y : cmp_leb cmp x y = true \/ cmp_leb cmp y x = true.
Proof. unfold cmp_leb. rewrite (cmp_flip x y). destruct (cmp x y); auto. Qed.

Lemma cmp_leb_trans x y z :
  cmp_leb cmp x y = true -> cmp_leb cmp y z = true -> cmp_leb cmp x z = true.
Proof.
  unfold cmp_leb. destruct (cmp x y) eqn:E; [by rewrite (cmp_eq_l x y z E)| |done].
  intros _. destruct (cmp y z) eqn:E'; [|by rewrite (cmp_lt_trans x y z E E')|done].
  assert (cmp z y = Eq) as E3 by (by rewrite (cmp_flip y z), E').
  by rewrite (cmp_flip z x), (cmp_eq_l z y x E3), (cmp_flip x y), E.
Qed.

Lemma cmp_leb_eq x y : cmp_leb cmp x y = true -> cmp_leb cmp y x = true -> cmp x y = Eq.
Proof. unfold cmp_leb. rewrite (cmp_flip x y). by destruct (cmp x y). Qed.
End cmp_leb.

Lemma then_with_Eq c d : then_with c d = Eq <-> c = Eq /\ d = Eq.
Proof. destruct c; cbn; naive_solver. Qed.
#[export] Hint Resolve cmp_leb_total cmp_leb_trans : node.

(** ** Stateful fallible code: [&mut self] methods that return [Result]

    An error keeps the state reached so far, as it does in the source: that a
    failed method changed nothing is a theorem, not a convention. *)

Definition stm (S E A : Type) : Type := S -> S * result E A.

#[export] Instance stm_ret {S E} : MRet (stm S E) := fun A a s => (s, Ok a).

#[export] Instance stm_bind {S E} : MBind (stm S E) := fun A B f m s =>
  match m s with
  | (s, Ok a) => f a s
  | (s, Err e) => (s, Err e)
  end.

Definition get {S E} : stm S E S := fun s => (s, Ok s).
Definition gets {S E A} (f : S -> A) : stm S E A := fun s => (s, Ok (f s)).
Definition modify {S E} (f : S -> S) : stm S E unit := fun s => (f s, Ok tt).
Definition raise {S E A} (e : E) : stm S E A := fun s => (s, Err e).
Definition lift {S E A} (r : result E A) : stm S E A := fun s => (s, r).

(** [for x in l { body(x)? }] *)
Fixpoint for_in {S E A} (l : list A) (body : A -> stm S E unit) : stm S E unit :=
  match l with
  | [] => mret tt
  | x :: l => _ ← body x; for_in l body
  end.

Lemma stm_bind_Ok {S E A B} (m : stm S E A) (f : A -> stm S E B) s s' b :
  (m ≫= f) s = (s', Ok b) <-> exists s1 a, m s = (s1, Ok a) /\ f a s1 = (s', Ok b).
Proof.
  unfold mbind, stm_bind. destruct (m s) as [s1 [a|e]]; [naive_solver|].
  split; [done|]. by intros (? & ? & [= ] & _).
Qed.

Lemma stm_bind_eq {S E A B} (m : stm S E A) (f : A -> stm S E B) s s1 a :
  m s = (s1, Ok a) -> (m ≫= f) s = f a s1.
Proof. unfold mbind, stm_bind. by intros ->. Qed.

Lemma stm_bind_Err {S E A B} (m : stm S E A) (f : A -> stm S E B) s s1 e :
  m s = (s1, Err e) -> (m ≫= f) s = (s1, Err e).
Proof. unfold mbind, stm_bind. by intros ->. Qed.

(** A state predicate kept by each round of a loop is kept by the loop. *)
Lemma for_in_inv {S E A} (P : S -> Prop) (body : A -> stm S E unit) l s s' r :
  (forall x s s' r, x ∈ l -> P s -> body x s = (s', r) -> P s') ->
  P s -> for_in l body s = (s', r) -> P s'.
Proof.
  revert s. induction l as [|x l IH]; cbn; intros s Hb Hs.
  - by intros [= <- <-].
  - unfold mbind, stm_bind. destruct (body x s) as [s1 [[]|e]] eqn:E1.
    + eapply IH; [intros y ????; apply Hb; by right|]. eapply (Hb x); [by left|done|done].
    + intros [= <- <-]. eapply (Hb x); [by left|done|done].
Qed.

(** A check: it reads the state and answers. *)
Definition pure {S E A} (m : stm S E A) : Prop := forall s, (m s).1 = s.

Lemma bind_pure {S E A B} (m : stm S E A) (f : A -> stm S E B) s :
  pure m -> (m ≫= f) s = match (m s).2 with Ok a => f a s | Err e => (s, Err e) end.
Proof.
  intros H. specialize (H s). unfold mbind, stm_bind. destruct (m s) as [s1 [a|e]]; cbn in *; by subst s1.
Qed.

Lemma bind_modify {S E B} g (f : unit -> stm S E B) s : (modify g ≫= f) s = f tt (g s).
Proof. done. Qed.

Lemma pure_lift {S E A} (r : result E A) : pure (S := S) (lift r).
Proof. done. Qed.
Lemma pure_get {S E} : pure (S := S) (E := E) get.
Proof. done. Qed.
Lemma pure_gets {S E A} (f : S -> A) : pure (E := E) (gets f).
Proof. done. Qed.
Lemma pure_ret {S E A} (a : A) : pure (S := S) (E := E) (mret a).
Proof. done. Qed.
Lemma pure_bind {S E A B} (m : stm S E A) (f : A -> stm S E B) :
  pure m -> (forall a, pure (f a)) -> pure (m ≫= f).
Proof. intros Hm Hf s. rewrite bind_pure by done. destruct (m s).2; [apply Hf|done]. Qed.
#[export] Hint Resolve pure_lift pure_get pure_gets pure_ret pure_bind : node.

(** ** Sums over lists and finite maps

    [total f l] and [map_total f m] add up [f] over the elements of a list and the
    values of a map: what a component holds, for the conservation and the budget
    theorems. *)

Open Scope Z_scope.

Definition total {A} (f : A -> Z) (l : list A) : Z := foldr (fun x z => f x + z) 0 l.

Lemma total_cons {A} (f : A -> Z) x l : total f (x :: l) = f x + total f l.
Proof. done. Qed.

Lemma total_app {A} (f : A -> Z) l1 l2 : total f (l1 ++ l2) = total f l1 + total f l2.
Proof. unfold total. induction l1 as [|x l1 IH]; cbn; [done|]. rewrite IH. lia. Qed.

Lemma total_fmap {A B} (f : B -> Z) (g : A -> B) l : total f (g <$> l) = total (fun x => f (g x)) l.
Proof. unfold total. induction l as [|x l IH]; cbn; [done|]. by rewrite IH. Qed.

#[export] Instance total_perm {A} (f : A -> Z) : Proper ((≡ₚ) ==> eq) (total f).
Proof. unfold total. induction 1; cbn; lia. Qed.

Definition map_total `{Countable K} {A} (f : A -> Z) (m : gmap K A) : Z := total (fun kv => f kv.2) (map_to_list m).

Lemma map_total_insert `{Countable K} {A} (f : A -> Z) (m : gmap K A) k x :
  map_total f (<[k := x]> m) = f x + map_total f m - from_option f 0 (m !! k).
Proof.
  unfold map_total. destruct (m !! k) as [y|] eqn:Hy; cbn.
  - rewrite <- (insert_delete_eq m), (map_to_list_insert (delete k m) k x) by apply lookup_delete_eq.
    rewrite <- (insert_id m k y Hy) at 2. rewrite <- (insert_delete_eq m k y), (map_to_list_insert (delete k m) k y) by apply lookup_delete_eq.
    rewrite !total_cons. cbn. lia.
  - rewrite map_to_list_insert, total_cons by done. cbn. lia.
Qed.

Lemma map_total_lookup `{Countable K} {A} (f : A -> Z) (m : gmap K A) k x :
  (forall j y, m !! j = Some y -> 0 <= f y) -> m !! k = Some x -> f x <= map_total f m.
Proof.
  intros Hn Hx. rewrite <- (insert_id m k x Hx), <- (insert_delete_eq m). rewrite map_total_insert, lookup_delete_eq. cbn.
  assert (0 <= map_total f (delete k m)); [|lia]. unfold map_total, total.
  assert (forall kv, kv ∈ map_to_list (delete k m) -> 0 <= f kv.2) as Hl.
  { intros [j y] [_ Hj]%elem_of_map_to_list%lookup_delete_Some. by apply (Hn j). }
  induction (map_to_list (delete k m)) as [|kv l IH]; cbn; [done|].
  pose proof (Hl kv ltac:(by left)). assert (0 <= foldr (fun x0 z => f x0.2 + z) 0 l); [|lia]. apply IH. intros kv' H'. apply Hl. by right.
Qed.

Lemma map_total_nonneg `{Countable K} {A} (f : A -> Z) (m : gmap K A) :
  (forall j y, m !! j = Some y -> 0 <= f y) -> 0 <= map_total f m.
Proof.
  intros Hn. unfold map_total.
  assert (forall kv, kv ∈ map_to_list m -> 0 <= f kv.2) as Hl by (intros [j y] Hj%elem_of_map_to_list; by apply (Hn j)).
  induction (map_to_list m) as [|kv l IH]; [done|]. rewrite total_cons.
  pose proof (Hl kv ltac:(by left)). assert (0 <= total (fun kv => f kv.2) l); [|lia]. apply IH. intros kv' H'. apply Hl. by right.
Qed.

Lemma total_nonneg {A} (f : A -> Z) l : (forall x, x ∈ l -> 0 <= f x) -> 0 <= total f l.
Proof.
  induction l as [|x l IH]; intros Hn; [done|]. rewrite total_cons.
  pose proof (Hn x ltac:(by left)). assert (0 <= total f l); [|lia]. apply IH. intros y Hy. apply Hn. by right.
Qed.

Lemma total_ext {A} (f g : A -> Z) l : (forall x, x ∈ l -> f x = g x) -> total f l = total g l.
Proof.
  induction l as [|x l IH]; intros H; [done|]. rewrite !total_cons, (H x) by (by left). f_equal.
  apply IH. intros y Hy. apply H. by right.
Qed.

Lemma total_const {A} (c : Z) (l : list A) : total (fun _ => c) l = c * Z.of_nat (length l).
Proof. induction l as [|x l IH]; [cbn; lia|]. rewrite total_cons, IH. cbn [length]. lia. Qed.

Lemma total_plus {A} (f g : A -> Z) l : total (fun x => f x + g x) l = total f l + total g l.
Proof. induction l as [|x l IH]; [done|]. rewrite !total_cons, IH. lia. Qed.

Lemma total_lookup {A} (f : A -> Z) l i x :
  (forall y, y ∈ l -> 0 <= f y) -> l !! i = Some x -> f x <= total f l.
Proof.
  intros Hn Hx. rewrite <- (take_drop_middle l i x Hx), total_app, total_cons.
  assert (0 <= total f (take i l)) by (apply total_nonneg; intros y Hy; apply Hn; by eapply elem_of_take in Hy as (? & ? & ?); eapply list_elem_of_lookup_2).
  assert (0 <= total f (drop (S i) l)); [|lia]. apply total_nonneg. intros y Hy. apply Hn.
  apply list_elem_of_lookup in Hy as [j Hj]. rewrite lookup_drop in Hj. by eapply list_elem_of_lookup_2.
Qed.

Lemma map_total_empty `{Countable K} {A} (f : A -> Z) : map_total f (∅ : gmap K A) = 0.
Proof. unfold map_total. by rewrite map_to_list_empty. Qed.

Lemma map_total_delete `{Countable K} {A} (f : A -> Z) (m : gmap K A) k :
  map_total f (delete k m) = map_total f m - from_option f 0 (m !! k).
Proof.
  destruct (m !! k) as [x|] eqn:Hx; cbn.
  - pose proof (map_total_insert f (delete k m) k x) as E. rewrite insert_delete_id, lookup_delete_eq in E by done.
    cbn in E. lia.
  - rewrite delete_id by done. lia.
Qed.

Lemma map_total_update `{Countable K} {A} (f : A -> Z) (m : gmap K A) k x y :
  m !! k = Some x -> map_total f (<[k := y]> m) = map_total f m + (f y - f x).
Proof. intros Hx. rewrite map_total_insert, Hx. cbn. lia. Qed.

Lemma map_total_alter `{Countable K} {A} (f : A -> Z) (g : A -> A) (m : gmap K A) k x :
  m !! k = Some x -> map_total f (alter g k m) = map_total f m + (f (g x) - f x).
Proof.
  intros Hx. assert (alter g k m = <[k := g x]> m) as ->; [|by apply map_total_update].
  apply map_eq. intros j. destruct (decide (j = k)) as [->|Hj].
  - by rewrite lookup_alter_eq, Hx, lookup_insert_eq.
  - by rewrite lookup_alter_ne, lookup_insert_ne.
Qed.

Lemma map_total_const `{Countable K} {A} (c : Z) (m : gmap K A) :
  map_total (fun _ => c) m = c * Z.of_nat (size m).
Proof. unfold map_total. by rewrite total_const, length_map_to_list. Qed.

Lemma map_total_ext `{Countable K} {A} (f g : A -> Z) (m : gmap K A) :
  (forall k x, m !! k = Some x -> f x = g x) -> map_total f m = map_total g m.
Proof. intros E. apply total_ext. intros [k x] Hx%elem_of_map_to_list. by apply (E k). Qed.
