(* ===== verification/Bytes.v ===== *)
(** * Byte strings

    The string routines of Rust's standard library the program uses
    ([str::trim], [str::split], [Vec::join], [u16::to_string],
    [str::parse::<u16>]), with the round trips the components rely on.  Strings
    are UTF-8 byte sequences. *)

From Stdlib Require Import ZArith Lia Ascii.
From S2P Require Import Prelude.

Open Scope Z_scope.

(** ** Characters *)

Definition code (c : ascii) : Z := Z.of_N (N_of_ascii c).
Definition chr (z : Z) : ascii := ascii_of_N (Z.to_N z).

Lemma code_range c : 0 <= code c < 256.
Proof. unfold code. pose proof (N_ascii_bounded c). lia. Qed.

Lemma code_chr z : 0 <= z < 256 -> code (chr z) = z.
Proof. intros. unfold code, chr. rewrite N_ascii_embedding; lia. Qed.

Lemma chr_code c : chr (code c) = c.
Proof. unfold code, chr. by rewrite N2Z.id, ascii_N_embedding. Qed.

(** [u8::is_ascii_digit] *)
Definition is_digit (c : ascii) : bool := (48 <=? code c) && (code c <=? 57).

(** ASCII graphic characters: none of them starts or ends a white-space code. *)
Definition is_plain (c : ascii) : bool := (33 <=? code c) && (code c <=? 126).

(** [u8::is_ascii_whitespace]: space, tab, line feed, form feed, carriage return. *)
Definition is_ascii_whitespace (c : ascii) : bool :=
  (code c =? 32) || (code c =? 9) || (code c =? 10) || (code c =? 12) || (code c =? 13).

Definition chars (s : string) : list ascii := String.list_ascii_of_string s.
Definition of_chars (l : list ascii) : string := String.string_of_list_ascii l.

Lemma of_chars_chars s : of_chars (chars s) = s.
Proof. apply String.string_of_list_ascii_of_string. Qed.

Lemma chars_of_chars l : chars (of_chars l) = l.
Proof. apply String.list_ascii_of_string_of_list_ascii. Qed.

Lemma chars_app a b : chars (a +:+ b) = chars a ++ chars b.
Proof. induction a as [|c a IH]; [done|]. unfold chars in *. cbn. by rewrite <- IH. Qed.

Lemma chars_inj a b : chars a = chars b -> a = b.
Proof. intros H. by rewrite <- (of_chars_chars a), H, of_chars_chars. Qed.

(** ** [str::trim] *)

(** UTF-8 encodings of the characters with the Unicode property [White_Space]. *)
Definition ws_codes : list (list ascii) :=
  (fun z => [chr z]) <$> [9; 10; 11; 12; 13; 32].

Definition ws_wide : list (list ascii) :=
  (List.map chr) <$>
    [ [0xC2; 0x85]; [0xC2; 0xA0]; [0xE1; 0x9A; 0x80];
      [0xE2; 0x80; 0x80]; [0xE2; 0x80; 0x81]; [0xE2; 0x80; 0x82]; [0xE2; 0x80; 0x83];
      [0xE2; 0x80; 0x84]; [0xE2; 0x80; 0x85]; [0xE2; 0x80; 0x86]; [0xE2; 0x80; 0x87];
      [0xE2; 0x80; 0x88]; [0xE2; 0x80; 0x89]; [0xE2; 0x80; 0x8A];
      [0xE2; 0x80; 0xA8]; [0xE2; 0x80; 0xA9]; [0xE2; 0x80; 0xAF];
      [0xE2; 0x81; 0x9F]; [0xE3; 0x80; 0x80] ].

Definition ws_all : list (list ascii) := ws_codes ++ ws_wide.

Fixpoint strip_prefix (p l : list ascii) : option (list ascii) :=
  match p, l with
  | [], _ => Some l
  | a :: p, b :: l => if Ascii.eqb a b then strip_prefix p l else None
  | _, [] => None
  end.

Fixpoint strip_one (codes : list (list ascii)) (l : list ascii) : option (list ascii) :=
  match codes with
  | [] => None
  | c :: codes => match strip_prefix c l with Some r => Some r | None => strip_one codes l end
  end.

(** Every round removes at least one byte: the length is enough fuel. *)
Fixpoint strip_all (fuel : nat) (codes : list (list ascii)) (l : list ascii) : list ascii :=
  match fuel with
  | O => l
  | S fuel => match strip_one codes l with Some r => strip_all fuel codes r | None => l end
  end.

Definition trim_start (l : list ascii) : list ascii := strip_all (length l) ws_all l.
Definition trim_end (l : list ascii) : list ascii :=
  rev (strip_all (length l) ((@rev ascii) <$> ws_all) (rev l)).

Definition trim (s : string) : string := of_chars (trim_end (trim_start (chars s))).

Definition plain (s : string) : Prop := Forall (fun c => is_plain c = true) (chars s).

Definition starts_not_plain (codes : list (list ascii)) : bool :=
  forallb (fun c => match c with [] => false | a :: _ => negb (is_plain a) end) codes.

Lemma strip_one_plain codes l :
  starts_not_plain codes = true ->
  match l with [] => True | a :: _ => is_plain a = true end ->
  strip_one codes l = None.
Proof.
  intros Hc Hl. induction codes as [|c codes IH]; cbn in *; [done|].
  apply andb_prop in Hc as [Hc1 Hc2]. rewrite (IH Hc2).
  destruct c as [|a c]; [done|]. destruct l as [|b l]; cbn; [done|].
  destruct (Ascii.eqb_spec a b) as [->|]; [|done].
  rewrite Hl in Hc1. done.
Qed.

Lemma strip_all_plain fuel codes l :
  starts_not_plain codes = true ->
  match l with [] => True | a :: _ => is_plain a = true end ->
  strip_all fuel codes l = l.
Proof. intros. destruct fuel; cbn; [done|]. by rewrite strip_one_plain. Qed.

(** Trimming is the identity on graphic ASCII. *)
Lemma trim_plain s : plain s -> trim s = s.
Proof.
  unfold plain, trim, trim_start, trim_end. intros H.
  rewrite (strip_all_plain _ ws_all); [|reflexivity|by destruct H].
  rewrite strip_all_plain; [by rewrite rev_involutive, of_chars_chars|reflexivity|].
  apply Forall_rev in H. by destruct H.
Qed.

(** ** [str::split(char)] and [join] *)

Fixpoint split_on (c : ascii) (s : string) : list string :=
  match s with
  | "" => [""]
  | String a s' =>
      if Ascii.eqb a c then "" :: split_on c s'
      else match split_on c s' with
           | x :: xs => String a x :: xs
           | [] => [String a ""]
           end
  end.

Fixpoint join (sep : string) (l : list string) : string :=
  match l with
  | [] => ""
  | [x] => x
  | x :: l => x +:+ sep +:+ join sep l
  end.

Definition free_of (c : ascii) (s : string) : Prop := Forall (fun a => a <> c) (chars s).

Lemma split_on_free c s : free_of c s -> split_on c s = [s].
Proof.
  unfold free_of, chars. induction s as [|a s IH]; cbn; [done|].
  intros H. inv H as [|?? Ha Hs]. destruct (Ascii.eqb_spec a c); [done|]. by rewrite IH.
Qed.

Lemma split_on_app c x s :
  free_of c x -> split_on c (x +:+ String c s) = x :: split_on c s.
Proof.
  unfold free_of, chars. induction x as [|a x IH]; intros H.
  - change ("" +:+ String c s) with (String c s). cbn. by rewrite Ascii.eqb_refl.
  - inv H as [|?? Ha Hs]. change (String a x +:+ String c s) with (String a (x +:+ String c s)).
    cbn. destruct (Ascii.eqb_spec a c); [done|]. by rewrite IH.
Qed.

(** Splitting undoes joining. *)
Lemma split_join c l :
  l <> [] -> Forall (free_of c) l -> split_on c (join (String c "") l) = l.
Proof.
  intros Hne H. induction H as [|x l Hx Hl IH]; [done|].
  destruct l as [|y l]; [by apply split_on_free|].
  change (join (String c "") (x :: y :: l))
    with (x +:+ String c (join (String c "") (y :: l))).
  rewrite split_on_app by done. by rewrite IH.
Qed.

(** ** Decimal *)

Definition digit (z : Z) : ascii := chr (48 + z).

Fixpoint dec_go (fuel : nat) (z : Z) (acc : string) : string :=
  let acc := String (digit (z mod 10)) acc in
  match fuel with
  | O => acc
  | S fuel => if z / 10 =? 0 then acc else dec_go fuel (z / 10) acc
  end.

(** [to_string] on an unsigned integer.  The number of bits bounds the number
    of decimal digits. *)
Definition to_dec (z : Z) : string := dec_go (Z.to_nat (Z.log2 z)) z "".

Fixpoint dec_value (acc : Z) (s : string) : Z :=
  match s with
  | "" => acc
  | String c s => dec_value (acc * 10 + (code c - 48)) s
  end.

Definition all_digits (s : string) : bool := forallb is_digit (chars s).

Lemma code_digit z : 0 <= z < 10 -> code (digit z) = 48 + z.
Proof. intros. unfold digit. rewrite code_chr; lia. Qed.

Lemma is_digit_digit z : 0 <= z < 10 -> is_digit (digit z) = true.
Proof. intros. unfold is_digit. rewrite code_digit by done. lia. Qed.

Lemma dec_go_digits fuel z acc :
  0 <= z -> all_digits acc = true -> all_digits (dec_go fuel z acc) = true.
Proof.
  revert z acc. induction fuel as [|fuel IH]; intros z acc Hz Hacc.
  - unfold all_digits, chars in *. cbn -[Z.modulo Z.div] in *.
    rewrite is_digit_digit, Hacc by (apply Z.mod_pos_bound; lia). done.
  - cbn -[Z.modulo Z.div].
    assert (all_digits (String (digit (z mod 10)) acc) = true).
    { unfold all_digits, chars in *. cbn -[Z.modulo] in *.
      rewrite is_digit_digit, Hacc by (apply Z.mod_pos_bound; lia). done. }
    case_match; [done|]. apply IH; [apply Z.div_pos; lia|done].
Qed.

Lemma to_dec_digits z : 0 <= z -> all_digits (to_dec z) = true.
Proof. intros. by apply dec_go_digits. Qed.

Lemma dec_value_go fuel z acc a :
  0 <= z < 2 ^ (Z.of_nat fuel + 1) -> 0 <= a ->
  exists k, 0 <= k /\ dec_value a (dec_go fuel z acc) = dec_value (a * 10 ^ k + z) acc.
Proof.
  revert z acc. induction fuel as [|fuel IH]; intros z acc Hz Ha.
  - exists 1. split; [lia|]. cbn -[Z.modulo Z.div].
    rewrite code_digit by (apply Z.mod_pos_bound; lia).
    assert (z = 0 \/ z = 1) as [->| ->] by lia; cbn; f_equal; lia.
  - cbn -[Z.modulo Z.div].
    pose proof (Z.mod_pos_bound z 10 ltac:(lia)) as Hm.
    pose proof (Z.div_mod z 10 ltac:(lia)) as Hd.
    destruct (Z.eqb_spec (z / 10) 0) as [H0|H0].
    + exists 1. split; [lia|]. cbn -[Z.modulo Z.div Z.pow].
      rewrite code_digit by lia. f_equal. lia.
    + destruct (IH (z / 10) (String (digit (z mod 10)) acc)) as (k & Hk & E).
      { split; [apply Z.div_pos; lia|].
        apply Z.div_lt_upper_bound; [lia|].
        replace (Z.of_nat (S fuel) + 1) with (Z.succ (Z.of_nat fuel + 1)) in Hz by lia.
        rewrite Z.pow_succ_r in Hz by lia. lia. }
      { done. }
      exists (k + 1). split; [lia|]. rewrite E. cbn -[Z.modulo Z.div Z.pow].
      rewrite code_digit by lia. f_equal. rewrite Z.pow_add_r by lia. lia.
Qed.

(** Printing then reading a natural number returns it. *)
Lemma dec_value_to_dec z : 0 <= z -> dec_value 0 (to_dec z) = z.
Proof.
  intros Hz. unfold to_dec.
  destruct (dec_value_go (Z.to_nat (Z.log2 z)) z "" 0) as (k & Hk & ->).
  - split; [done|]. destruct (decide (z = 0)) as [->|]; [cbn; lia|].
    pose proof (Z.log2_spec z ltac:(lia)). pose proof (Z.log2_nonneg z).
    rewrite Z2Nat.id by lia. replace (Z.log2 z + 1) with (Z.succ (Z.log2 z)) by lia. lia.
  - lia.
  - cbn -[Z.pow]. lia.
Qed.

Lemma dec_go_not_empty fuel z acc : dec_go fuel z acc <> "".
Proof.
  revert z acc. induction fuel as [|fuel IH]; intros z acc; cbn -[Z.modulo Z.div]; [done|].
  case_match; [done|]. apply IH.
Qed.

Lemma to_dec_not_empty z : to_dec z <> "".
Proof. apply dec_go_not_empty. Qed.

Lemma to_dec_inj a b : 0 <= a -> 0 <= b -> to_dec a = to_dec b -> a = b.
Proof.
  intros Ha Hb H. by rewrite <- (dec_value_to_dec a), <- (dec_value_to_dec b), H.
Qed.

Lemma all_digits_Forall s :
  all_digits s = true <-> Forall (fun c => is_digit c = true) (chars s).
Proof. unfold all_digits. by rewrite forallb_forall, List.Forall_forall. Qed.

Lemma all_digits_plain s : all_digits s = true -> plain s.
Proof.
  rewrite all_digits_Forall. unfold plain. intros H. eapply Forall_impl; [apply H|].
  cbn. intros c. unfold is_digit, is_plain. lia.
Qed.

Lemma all_digits_free c s : all_digits s = true -> is_digit c = false -> free_of c s.
Proof.
  rewrite all_digits_Forall. unfold free_of. intros H Hc. eapply Forall_impl; [apply H|].
  cbn. intros a Ha ->. congruence.
Qed.

#[export] Hint Resolve to_dec_digits to_dec_not_empty all_digits_plain : node.

(** [{}] of a signed integer. *)
Definition to_dec_signed (z : Z) : string := if z <? 0 then "-" +:+ to_dec (- z) else to_dec z.

(** [{}] of a boolean. *)
Definition show_bool (b : bool) : string := if b then "true" else "false".

(** ** Strings and numbers of Rust's standard library

    What the topology compiler uses of [str] and of the integer parsers, beyond
    [Bytes.v]. *)

Open Scope Z_scope.

Definition usize_max : Z := u64_max.

(** [str::len]: bytes. *)
Definition str_len (s : string) : Z := Z.of_nat (String.length s).

(** [str::contains(char)] for an ASCII character. *)
Definition contains_char (c : ascii) (s : string) : bool := existsb (Ascii.eqb c) (chars s).

(** [str::matches(char).count()] *)
Definition count_char (c : ascii) (s : string) : Z := Z.of_nat (length (List.filter (Ascii.eqb c) (chars s))).

(** [str::split_once(char)] *)
Fixpoint split_once (c : ascii) (s : string) : option (string * string) :=
  match s with
  | "" => None
  | String a s' =>
      if Ascii.eqb a c then Some ("", s')
      else '(x, y) ← split_once c s'; Some (String a x, y)
  end.

(** [str::starts_with], [str::ends_with] *)
Definition starts_with (prefix s : string) : bool := String.prefix prefix s.

Definition ends_with (suffix s : string) : bool :=
  let n := String.length s in let k := String.length suffix in
  (k <=? n)%nat && String.eqb (String.substring (n - k) k s) suffix.

(** [char::to_ascii_lowercase], [str::to_ascii_lowercase] *)
Definition lower_char (c : ascii) : ascii :=
  if (65 <=? code c) && (code c <=? 90) then chr (code c + 32) else c.
Definition lower (s : string) : string := of_chars (lower_char <$> chars s).

(** [str::eq_ignore_ascii_case] *)
Definition eq_ignore_case (a b : string) : bool := String.eqb (lower a) (lower b).

(** [str::chars().any(char::is_whitespace)]: the encoding of a character is never
    found inside those of others. *)
Fixpoint any_whitespace (l : list ascii) : bool :=
  match strip_one ws_all l with
  | Some _ => true
  | None => match l with [] => false | _ :: l => any_whitespace l end
  end.
Definition has_whitespace (s : string) : bool := any_whitespace (chars s).

(** [u8::is_ascii_hexdigit] *)
Definition is_hexdigit (c : ascii) : bool :=
  is_digit c || ((65 <=? code c) && (code c <=? 70)) || ((97 <=? code c) && (code c <=? 102)).

(** ** [str::parse] on unsigned integers, with the text of its error *)

Fixpoint parse_digits (max value : Z) (l : list ascii) : result string Z :=
  match l with
  | [] => Ok value
  | c :: l =>
      if negb (is_digit c) then Err "invalid digit found in string"
      else
        let value := value * 10 + (code c - 48) in
        if max <? value then Err "number too large to fit in target type" else parse_digits max value l
  end.

Definition parse_uint (max : Z) (s : string) : result string Z :=
  match chars s with
  | [] => Err "cannot parse integer from empty string"
  | [c] => if Ascii.eqb c "+" || Ascii.eqb c "-" then Err "invalid digit found in string" else parse_digits max 0 [c]
  | c :: l => parse_digits max 0 (if Ascii.eqb c "+" then l else c :: l)
  end.

Lemma parse_digits_range max value l n :
  0 <= value <= max -> parse_digits max value l = Ok n -> 0 <= n <= max.
Proof.
  revert value. induction l as [|c l IH]; intros value Hv; cbn; [by intros [= <-]|].
  destruct (is_digit c) eqn:Hd; cbn; [|done].
  destruct (max <? _) eqn:E; [done|]. apply IH. unfold is_digit in Hd. lia.
Qed.

Lemma parse_uint_range max s n : 0 <= max -> parse_uint max s = Ok n -> 0 <= n <= max.
Proof.
  intros Hm. unfold parse_uint. destruct (chars s) as [|c [|d l]]; [done| |].
  - destruct (_ || _); [done|]. apply parse_digits_range. lia.
  - apply parse_digits_range. lia.
Qed.

(** Leading zeros aside, a decimal numeral parses to its value. *)
Lemma parse_digits_value max value s :
  0 <= value -> all_digits s = true -> dec_value value s <= max -> parse_digits max value (chars s) = Ok (dec_value value s).
Proof.
  revert value. induction s as [|c s IH]; intros value Hv; cbn; [done|].
  unfold all_digits, chars in *. cbn. intros [Hc Hs]%andb_prop Hm. rewrite Hc. cbn.
  assert (Hd : 0 <= code c - 48) by (unfold is_digit in Hc; lia).
  assert (Hmono : forall s v, 0 <= v -> forallb is_digit (String.list_ascii_of_string s) = true -> v <= dec_value v s).
  { clear. induction s as [|c s IH]; intros v Hv; cbn; [lia|]. intros [Hc Hs]%andb_prop.
    unfold is_digit in Hc. etransitivity; [|apply IH; [lia|done]]. lia. }
  pose proof (Hmono s (value * 10 + (code c - 48)) ltac:(lia) Hs).
  rewrite (proj2 (Z.ltb_ge _ _)) by lia. apply IH; [lia|done|done].
Qed.

Example parse_uint_examples :
  (parse_uint 255 <$> ["0"; "255"; "256"; "+7"; "+"; "-"; "-1"; ""; "1a"; "007"])
  = [Ok 0; Ok 255; Err "number too large to fit in target type"; Ok 7; Err "invalid digit found in string";
     Err "invalid digit found in string"; Err "invalid digit found in string";
     Err "cannot parse integer from empty string"; Err "invalid digit found in string"; Ok 7].
Proof. vm_compute. reflexivity. Qed.

Example split_examples :
  (split_once "/" "a/b/c" = Some ("a", "b/c")) /\ split_once "/" "abc" = None
  /\ ends_with "_x" "a_x" = true /\ ends_with "a_x" "_x" = false /\ starts_with "https://" "https://a" = true
  /\ has_whitespace "a b" = true /\ has_whitespace "ab" = false.
Proof. vm_compute. repeat split. Qed.

(** ** Formatting *)

(** [format!] on its pieces. *)
Definition fmt (pieces : list string) : string := foldr String.append "" pieces.

(** A text between double quotes. *)
Definition quoted (s : string) : string :=
  let q := String (ascii_of_nat 34) "" in fmt [q; s; q].

(** Two results of the same computation are equal. *)
Ltac same_ok :=
  simplify_eq;
  repeat match goal with
         | H1 : ?x = Ok ?a, H2 : ?x = Ok ?b |- _ => rewrite H1 in H2; injection H2 as <-
         | H1 : ?x = Ok ?a, H2 : ?x = Err ?b |- _ => rewrite H1 in H2; discriminate H2
         end;
  simplify_eq.
