(* ===== verification/Json.v ===== *)
(** * JSON values: [serde_json::Value]

    [serde_json] is built without [preserve_order], so the fields of an object are
    a [BTreeMap]: here the list of its entries in key order.  A floating-point number
    is its IEEE 754 value. *)

From Stdlib Require Import ZArith Lia SpecFloat List.
From S2P Require Import Prelude Bytes.

Open Scope Z_scope.

(** ** [serde_json::Map] *)

Module Map.
Section map.
Context {A : Type}.
Implicit Types (m : list (string * A)) (k : string) (v : A).

Fixpoint get k m : option A :=
  match m with
  | [] => None
  | (k', v) :: m => if String.eqb k k' then Some v else get k m
  end.

Fixpoint insert k v m : list (string * A) :=
  match m with
  | [] => [(k, v)]
  | (k', v') :: m' =>
      match String.compare k k' with
      | Lt => (k, v) :: m
      | Eq => (k, v) :: m'
      | Gt => (k', v') :: insert k v m'
      end
  end.

Definition remove k m : list (string * A) := List.filter (fun kv => negb (String.eqb k kv.1)) m.

Definition keys m : list string := m.*1.

Definition contains_key k m : bool := match get k m with Some _ => true | None => false end.

(** [Map::from_iter] *)
Definition from_iter (l : list (string * A)) : list (string * A) := foldl (fun m kv => insert kv.1 kv.2 m) [] l.

Lemma get_insert_eq k v m : get k (insert k v m) = Some v.
Proof.
  induction m as [|[k' v'] m IH]; cbn; [by rewrite String.eqb_refl|].
  destruct (String.compare k k') eqn:E; cbn; [by rewrite String.eqb_refl..|].
  destruct (String.eqb_spec k k') as [<-|]; [|done].
  pose proof (String.compare_antisym k k) as H. by rewrite E in H.
Qed.

Lemma get_insert_ne k k' v m : k <> k' -> get k (insert k' v m) = get k m.
Proof.
  intros Hne. induction m as [|[k2 v2] m IH]; cbn.
  - destruct (String.eqb_spec k k'); [done|reflexivity].
  - destruct (String.compare k' k2) eqn:E; cbn.
    + apply String.compare_eq_iff in E as ->. destruct (String.eqb_spec k k2); [done|reflexivity].
    + destruct (String.eqb_spec k k'); [done|reflexivity].
    + by rewrite IH.
Qed.

Lemma get_In k v m : get k m = Some v -> In (k, v) m.
Proof.
  induction m as [|[k' v'] m IH]; cbn; [done|].
  destruct (String.eqb_spec k k') as [->|]; [intros [= ->]; by left|auto].
Qed.

Lemma get_None k m : get k m = None <-> ~ In k (keys m).
Proof.
  induction m as [|[k' v'] m IH]; cbn; [naive_solver|].
  destruct (String.eqb_spec k k') as [->|]; naive_solver.
Qed.

Lemma get_remove_eq k m : get k (remove k m) = None.
Proof.
  apply get_None. unfold keys, remove. intros ([k' v] & <- & [_ H]%filter_In)%in_map_iff.
  cbn in H. by rewrite String.eqb_refl in H.
Qed.

Lemma get_remove_ne k k' m : k <> k' -> get k (remove k' m) = get k m.
Proof.
  intros Hne. unfold remove. induction m as [|[k2 v2] m IH]; cbn; [done|].
  destruct (String.eqb_spec k' k2) as [<-|]; cbn.
  - rewrite IH. destruct (String.eqb_spec k k'); [done|reflexivity].
  - by rewrite IH.
Qed.

Lemma In_insert k v m e : In e (insert k v m) -> e = (k, v) \/ In e m.
Proof.
  induction m as [|[k' v'] m IH]; cbn; [naive_solver|].
  destruct (String.compare k k'); cbn; naive_solver.
Qed.
End map.
End Map.

(** ** [serde_json::Number] *)

Module Number.
Inductive t : Type :=
  | PosInt (z : Z)
  | NegInt (z : Z)
  | Float (f : spec_float).

Definition as_u64 (self : t) : option Z := match self with PosInt z => Some z | _ => None end.

Definition as_i64 (self : t) : option Z :=
  match self with
  | PosInt z => if z <=? i64_max then Some z else None
  | NegInt z => Some z
  | Float _ => None
  end.

(** [as_f64().is_some_and(|value| value != 0.0)] *)
Definition nonzero (self : t) : bool :=
  match self with
  | PosInt z | NegInt z => negb (z =? 0)
  | Float (S754_zero _) => false
  | Float _ => true
  end.

(** [PartialEq] *)
Definition eqb (a b : t) : bool :=
  match a, b with
  | PosInt x, PosInt y => x =? y
  | NegInt x, NegInt y => x =? y
  | Float x, Float y => SFeqb x y
  | _, _ => false
  end.

(** [Number::from] of an unsigned integer *)
Definition of_u64 (z : Z) : t := PosInt z.
End Number.

(** ** [serde_json::Value] *)

Module Value.
#[local] Unset Elimination Schemes.
Inductive t : Type :=
  | Null
  | Bool (b : bool)
  | Number (n : Number.t)
  | String (s : string)
  | Array (values : list t)
  | Object (fields : list (string * t)).
#[local] Set Elimination Schemes.

Section induction.
Variable P : t -> Prop.
Hypothesis HNull : P Null.
Hypothesis HBool : forall b, P (Bool b).
Hypothesis HNumber : forall n, P (Number n).
Hypothesis HString : forall s, P (String s).
Hypothesis HArray : forall l, Forall P l -> P (Array l).
Hypothesis HObject : forall m, Forall (fun kv => P kv.2) m -> P (Object m).

Fixpoint t_ind (v : t) : P v :=
  match v with
  | Null => HNull
  | Bool b => HBool b
  | Number n => HNumber n
  | String s => HString s
  | Array l => HArray l ((fix go l : Forall P l :=
      match l with [] => Forall_nil_2 _ | x :: l => Forall_cons_2 _ _ _ (t_ind x) (go l) end) l)
  | Object m => HObject m ((fix go m : Forall (fun kv => P kv.2) m :=
      match m with [] => Forall_nil_2 _ | kv :: m => Forall_cons_2 _ _ _ (t_ind kv.2) (go m) end) m)
  end.
End induction.

Definition fields : Type := list (string * t).

Definition as_object (self : t) : option fields := match self with Object m => Some m | _ => None end.
Definition as_array (self : t) : option (list t) := match self with Array l => Some l | _ => None end.
Definition as_str (self : t) : option string := match self with String s => Some s | _ => None end.
Definition is_null (self : t) : bool := match self with Null => true | _ => false end.

(** [Value::get(&str)] *)
Definition get (k : string) (self : t) : option t :=
  match self with Object m => Map.get k m | _ => None end.

(** [self[k] = v]: [Null] becomes an object; any other value that is not an
    object panics, which is written as no change (no caller has one). *)
Definition set (k : string) (v : t) (self : t) : t :=
  match self with
  | Object m => Object (Map.insert k v m)
  | Null => Object [(k, v)]
  | _ => self
  end.

(** [json!({ .. })] *)
Definition obj (l : list (string * t)) : t := Object (Map.from_iter l).

(** [json!([..])] of strings *)
Definition strings (l : list string) : t := Array (String <$> l).

Definition num (z : Z) : t := Number (Number.of_u64 z).

(** [PartialEq] *)
Fixpoint eqb (a b : t) : bool :=
  match a, b with
  | Null, Null => true
  | Bool x, Bool y => Bool.eqb x y
  | Number x, Number y => Number.eqb x y
  | String x, String y => String.eqb x y
  | Array x, Array y =>
      (fix go x y := match x, y with
                     | [], [] => true
                     | a :: x, b :: y => eqb a b && go x y
                     | _, _ => false
                     end) x y
  | Object x, Object y =>
      (fix go x y := match x, y with
                     | [], [] => true
                     | (k, a) :: x, (k', b) :: y => String.eqb k k' && eqb a b && go x y
                     | _, _ => false
                     end) x y
  | _, _ => false
  end.

(** Whether a value is an object: what [self[k] = v] relies on. *)
Definition is_object (self : t) : bool := match self with Object _ => true | _ => false end.

#[global] Instance eq_dec : EqDecision t.
Proof.
  assert (E : forall a b : Number.t, {a = b} + {a <> b}).
  { intros [x|x|x] [y|y|y]; try (by right); [destruct (decide (x = y)); [left|right]; congruence..|].
    assert ({x = y} + {x <> y}) as [->|]; [|by left|right; congruence].
    decide equality; first [apply Bool.bool_dec|apply Z.eq_dec|apply Pos.eq_dec]. }
  refine (fix go (a b : t) : {a = b} + {a <> b} := _).
  assert (GL : forall x y : list t, {x = y} + {x <> y}).
  { fix gl 1. intros [|a' x] [|b' y]; [by left|by right|by right|].
    destruct (go a' b') as [->|]; [destruct (gl x y) as [->|]; [by left|]|]; right; congruence. }
  assert (GM : forall x y : list (string * t), {x = y} + {x <> y}).
  { fix gm 1. intros [|[k a'] x] [|[k' b'] y]; [by left|by right|by right|].
    destruct (String.string_dec k k') as [->|]; [|right; congruence].
    destruct (go a' b') as [->|]; [destruct (gm x y) as [->|]; [by left|]|]; right; congruence. }
  destruct a as [|x|x|x|x|x], b as [|y|y|y|y|y]; try (by right); try (by left).
  - destruct (Bool.bool_dec x y); [left|right]; congruence.
  - destruct (E x y); [left|right]; congruence.
  - destruct (String.string_dec x y); [left|right]; congruence.
  - destruct (GL x y); [left|right]; congruence.
  - destruct (GM x y); [left|right]; congruence.
Defined.
End Value.

Lemma is_object_set k v x : Value.is_object x = true -> Value.is_object (Value.set k v x) = true.
Proof. by destruct x. Qed.

Lemma is_object_obj l : Value.is_object (Value.obj l) = true.
Proof. done. Qed.

Lemma get_set k v x : Value.is_object x = true -> Value.get k (Value.set k v x) = Some v.
Proof. destruct x; cbn; try done. intros _. apply Map.get_insert_eq. Qed.

Lemma get_set_ne k k' v x : Value.is_object x = true -> k <> k' -> Value.get k (Value.set k' v x) = Value.get k x.
Proof. destruct x; cbn; try done. intros _. apply Map.get_insert_ne. Qed.

#[export] Hint Resolve is_object_set is_object_obj : node.
