(* ===== verification/IpAddr.v ===== *)
(** * IP addresses

    [std::net::IpAddr]: the grammar of [str::parse::<IpAddr>] of Rust's standard
    library ([core::net::parser]) with the address it reads, and [Display].  A
    reader returns what it has read and the input it has not consumed. *)

From Stdlib Require Import ZArith Lia Ascii.
From S2P Require Import Prelude Bytes.

Open Scope Z_scope.

Local Abbreviation reader A := (list ascii -> option (A * list ascii)).

(** An address is its 32 or 128 bits. *)
Module IpAddr.
Inductive t : Type :=
  | V4 (bits : Z)
  | V6 (bits : Z).
#[global] Instance eq_dec : EqDecision t.
Proof. solve_decision. Defined.

Definition is_ipv4 (self : t) : bool := match self with V4 _ => true | V6 _ => false end.
Definition is_ipv6 (self : t) : bool := negb (is_ipv4 self).
End IpAddr.

(** [char::to_digit] *)
Definition to_digit (radix : Z) (c : ascii) : option Z :=
  let z := code c in
  let digit :=
    if (48 <=? z) && (z <=? 57) then Some (z - 48)
    else if (97 <=? z) && (z <=? 122) then Some (z - 87)
    else if (65 <=? z) && (z <=? 90) then Some (z - 55)
    else None in
  match digit with Some d => if d <? radix then Some d else None | None => None end.

(** The loop of [read_number]; a value above [max_value] overflows. *)
Fixpoint read_digits (radix max_value : Z) (max_digits : nat) (value : Z) (count : nat) (l : list ascii)
    : option (nat * Z * list ascii) :=
  match l with
  | [] => Some (count, value, [])
  | c :: l' =>
      match to_digit radix c with
      | None => Some (count, value, l)
      | Some digit =>
          let value := value * radix + digit in
          if (max_value <? value) || (max_digits <? S count)%nat then None
          else read_digits radix max_value max_digits value (S count) l'
      end
  end.

Definition read_number (radix max_value : Z) (max_digits : nat) (allow_zero_prefix : bool) : reader Z := fun l =>
  let has_leading_zero := match l with c :: _ => code c =? 48 | [] => false end in
  match read_digits radix max_value max_digits 0 0 l with
  | None | Some (O, _, _) => None
  | Some (count, value, rest) =>
      if negb allow_zero_prefix && has_leading_zero && (1 <? count)%nat then None else Some (value, rest)
  end.

Definition read_given_char (c : ascii) : reader unit := fun l =>
  match l with a :: l => if Ascii.eqb a c then Some (tt, l) else None | [] => None end.

Definition read_separator {A} (sep : ascii) (index : nat) (inner : reader A) : reader A := fun l =>
  match index with O => inner l | S _ => '(_, l) ← read_given_char sep l; inner l end.

Definition read_octet (index : nat) : reader Z := read_separator "." index (read_number 10 255 3 false).

Definition read_ipv4_addr : reader Z := fun l =>
  '(a, rest) ← read_octet 0 l;
  '(b, rest) ← read_octet 1 rest;
  '(c, rest) ← read_octet 2 rest;
  '(d, rest) ← read_octet 3 rest;
  Some (((a * 256 + b) * 256 + c) * 256 + d, rest).

(** [read_groups] on a slice of [i + remaining] groups: the groups read, and
    whether the last two are an embedded IPv4 address. *)
Fixpoint read_groups (remaining i : nat) (l : list ascii) : list Z * bool * list ascii :=
  match remaining with
  | O => ([], false, l)
  | S remaining' =>
      match (if (0 <? remaining')%nat then read_separator ":" i read_ipv4_addr l else None) with
      | Some (v4, rest) => ([v4 / 65536; v4 mod 65536], true, rest)
      | None =>
          match read_separator ":" i (read_number 16 u16_max 4 true) l with
          | Some (group, rest) =>
              let '(groups, ipv4, rest) := read_groups remaining' (S i) rest in
              (group :: groups, ipv4, rest)
          | None => ([], false, l)
          end
      end
  end.

(** [Ipv6Addr::from(segments)] *)
Definition of_segments (segments : list Z) : Z := foldl (fun bits s => bits * 65536 + s) 0 segments.

Definition read_ipv6_addr : reader Z := fun l =>
  let '(head, head_ipv4, rest) := read_groups 8 0 l in
  let head_size := length head in
  if (head_size =? 8)%nat then Some (of_segments head, rest)
  else if head_ipv4 then None
  else
    '(_, rest) ← read_given_char ":" rest;
    '(_, rest) ← read_given_char ":" rest;
    let '(tail, _, rest) := read_groups (8 - (head_size + 1)) 0 rest in
    Some (of_segments (head ++ replicate (8 - head_size - length tail) 0 ++ tail), rest).

Definition all_read {A} (r : option (A * list ascii)) : option A :=
  match r with Some (a, []) => Some a | _ => None end.

(** [str::parse::<Ipv6Addr>] *)
Definition parse_ipv6_addr (text : string) : option Z := all_read (read_ipv6_addr (chars text)).

(** [str::parse::<IpAddr>]: version 6 is tried where version 4 reads nothing. *)
Definition parse_ip_addr (text : string) : option IpAddr.t :=
  all_read (match read_ipv4_addr (chars text) with
            | Some (bits, rest) => Some (IpAddr.V4 bits, rest)
            | None => '(bits, rest) ← read_ipv6_addr (chars text); Some (IpAddr.V6 bits, rest)
            end).

(** [host.parse::<IpAddr>().is_ok()] *)
Definition is_ip_addr (host : string) : bool := match parse_ip_addr host with Some _ => true | None => false end.

(** ** [Display] *)

Definition show_ipv4 (bits : Z) : string :=
  join "." (to_dec <$> [bits / 2 ^ 24; bits / 2 ^ 16 mod 256; bits / 2 ^ 8 mod 256; bits mod 256]).

(** [{:x}] of a segment *)
Fixpoint hex_go (fuel : nat) (z : Z) (acc : string) : string :=
  let d := z mod 16 in
  let acc := String (chr (if d <? 10 then 48 + d else 87 + d)) acc in
  match fuel with
  | O => acc
  | S fuel => if z / 16 =? 0 then acc else hex_go fuel (z / 16) acc
  end.
Definition to_hex (segment : Z) : string := hex_go 3 segment "".

Definition segments (bits : Z) : list Z :=
  (fun i => bits / 2 ^ (16 * (7 - Z.of_nat i)) mod 65536) <$> seq 0 8.

(** The longest run of zero segments, the first of equals: its start and length. *)
Definition longest_zeroes (l : list Z) : nat * nat :=
  (foldl (fun '(i, current, longest) segment =>
            if segment =? 0 then
              let current : nat * nat := if (current.2 =? 0)%nat then (i, 1%nat) else (current.1, S current.2) in
              (S i, current, if (longest.2 <? current.2)%nat then current else longest)
            else (S i, (0, 0)%nat, longest))
    (0%nat, (0, 0)%nat, (0, 0)%nat) l).2.

Definition fmt_subslice (l : list Z) : string := join ":" (to_hex <$> l).

Definition show_ipv6 (bits : Z) : string :=
  if bits / 2 ^ 32 =? 65535 then "::ffff:" +:+ show_ipv4 (bits mod 2 ^ 32)
  else
    let segments := segments bits in
    let '(start, len) := longest_zeroes segments in
    if (1 <? len)%nat
    then fmt_subslice (take start segments) +:+ "::" +:+ fmt_subslice (drop (start + len) segments)
    else fmt_subslice segments.

Definition show_ip_addr (address : IpAddr.t) : string :=
  match address with IpAddr.V4 bits => show_ipv4 bits | IpAddr.V6 bits => show_ipv6 bits end.

Example shown :
  (fun s => show_ip_addr <$> parse_ip_addr s) <$>
    ["192.168.0.1"; "::"; "::1"; "1::"; "2001:DB8::8:800:200C:417A"; "1:0:0:2:0:0:0:3"; "::ffff:1.2.3.4";
     "1:2:3:4:5:6:7::"; "0:1::1.2.3.4"; "1:0:0:2:0:0:3:4"]
  = Some <$>
    ["192.168.0.1"; "::"; "::1"; "1::"; "2001:db8::8:800:200c:417a"; "1:0:0:2::3"; "::ffff:1.2.3.4";
     "1:2:3:4:5:6:7:0"; "0:1::102:304"; "1::2:0:0:3:4"].
Proof. vm_compute. reflexivity. Qed.

Example ip_addresses :
  forallb is_ip_addr
    ["1.1.1.1"; "0.0.0.0"; "255.255.255.255"; "::"; "::1"; "1::"; "2001:db8::8:800:200c:417a";
     "1:2:3:4:5:6:7:8"; "::ffff:1.2.3.4"; "1:2:3:4:5:6:1.2.3.4"; "1:2:3:4:5:6:7::"] = true.
Proof. reflexivity. Qed.

Example not_ip_addresses :
  existsb is_ip_addr
    [""; "example.com"; "1.1.1"; "1.1.1.256"; "01.1.1.1"; "1.1.1.1."; "1.1.1.1.1"; ":"; ":::"; "1:2"; "12345::";
     "1:2:3:4:5:6:7:8:9"; "1::2::3"; "1:2:3:4:5:6:7:1.2.3.4"; "[::1]"; "g::"; "::1%eth0"] = false.
Proof. reflexivity. Qed.
