(* ===== verification/Hex.v ===== *)
(** * Hexadecimal codec: [crates/acp-proto/src/hex.rs]

    Digests and signatures travel as lowercase hexadecimal. *)

From Stdlib Require Import ZArith Lia Ascii.
From S2P Require Import Prelude Bytes.

Open Scope Z_scope.

Module Hex.

(** [DIGITS[i]] *)
Definition DIGITS : string := "0123456789abcdef".

Definition digit_at (i : Z) : ascii :=
  match String.get (Z.to_nat i) DIGITS with Some c => c | None => "0"%char end.

(** Two digits per byte, high nibble first. *)
Fixpoint encode_chars (bytes : list ascii) : list ascii :=
  match bytes with
  | [] => []
  | b :: bytes =>
      digit_at (Z.shiftr (code b) 4)
        :: digit_at (Z.land (code b) 0x0f) :: encode_chars bytes
  end.

Definition encode (bytes : string) : string := of_chars (encode_chars (chars bytes)).

Definition nibble (byte : ascii) : option Z :=
  let z := code byte in
  if (48 <=? z) && (z <=? 57) then Some (z - 48)
  else if (97 <=? z) && (z <=? 102) then Some (z - 97 + 10)
  else if (65 <=? z) && (z <=? 70) then Some (z - 65 + 10)
  else None.

(** The loop over [as_chunks::<2>().0]: whole pairs only. *)
Fixpoint decode_pairs (l : list ascii) : option (list ascii) :=
  match l with
  | a :: b :: l =>
      hi ← nibble a; lo ← nibble b; out ← decode_pairs l;
      Some (chr (Z.lor (Z.shiftl hi 4) lo) :: out)
  | _ => Some []
  end.

Definition decode (text : string) : option string :=
  if Nat.even (String.length text) then of_chars <$> decode_pairs (chars text) else None.

Lemma nibble_range c z : nibble c = Some z -> 0 <= z < 16.
Proof. unfold nibble. intros. repeat case_match; simplify_eq; lia. Qed.

Lemma nibble_digit_at z : 0 <= z < 16 -> nibble (digit_at z) = Some z.
Proof.
  intros Hz.
  assert (List.In z [0;1;2;3;4;5;6;7;8;9;10;11;12;13;14;15]) as H by (cbn; lia).
  cbn in H. decompose [or] H; subst; try reflexivity. done.
Qed.

Lemma high_nibble c : 0 <= Z.shiftr (code c) 4 < 16.
Proof.
  pose proof (code_range c). rewrite Z.shiftr_div_pow2 by lia.
  split; [apply Z.div_pos; lia|apply Z.div_lt_upper_bound; lia].
Qed.

Lemma low_nibble c : 0 <= Z.land (code c) 0x0f < 16.
Proof.
  change 0x0f with (Z.ones 4). rewrite Z.land_ones by lia. apply Z.mod_pos_bound. lia.
Qed.

Lemma nibbles_byte c :
  chr (Z.lor (Z.shiftl (Z.shiftr (code c) 4) 4) (Z.land (code c) 0x0f)) = c.
Proof.
  change 0x0f with (Z.ones 4).
  rewrite <- (chr_code c) at 3. f_equal.
  rewrite <- Z.ldiff_ones_r by lia. apply Z.bits_inj'. intros n Hn.
  rewrite Z.lor_spec, Z.ldiff_spec, Z.land_spec.
  destruct (Z.testbit (code c) n), (Z.testbit (Z.ones 4) n); done.
Qed.

Lemma decode_pairs_encode l : decode_pairs (encode_chars l) = Some l.
Proof.
  induction l as [|c l IH]; [done|]. cbn [encode_chars decode_pairs].
  rewrite !nibble_digit_at by (apply high_nibble || apply low_nibble).
  cbn. rewrite IH. cbn. by rewrite nibbles_byte.
Qed.

Lemma length_encode_chars l : length (encode_chars l) = (2 * length l)%nat.
Proof. induction l; cbn; lia. Qed.

Lemma string_length_of_chars l : String.length (of_chars l) = length l.
Proof. induction l; cbn; [done|]. unfold of_chars in *. by f_equal. Qed.

Lemma encode_chars_inj l1 l2 : encode_chars l1 = encode_chars l2 -> l1 = l2.
Proof.
  intros H. apply (f_equal decode_pairs) in H. rewrite !decode_pairs_encode in H. congruence.
Qed.

Lemma encode_inj a b : encode a = encode b -> a = b.
Proof.
  unfold encode. intros H. apply (f_equal chars) in H. rewrite !chars_of_chars in H.
  apply encode_chars_inj in H. by rewrite <- (of_chars_chars a), H, of_chars_chars.
Qed.

(** Decoding undoes encoding on every byte string. *)
Theorem decode_encode bytes : decode (encode bytes) = Some bytes.
Proof.
  unfold decode, encode.
  rewrite string_length_of_chars, length_encode_chars, chars_of_chars.
  rewrite decode_pairs_encode. cbn. rewrite of_chars_chars.
  replace (Nat.even _) with true; [done|].
  symmetry. apply Nat.even_spec. by eexists.
Qed.

End Hex.
