(* ===== verification/Wire.v ===== *)
(** * Wire messages: [crates/acp-proto/proto/acp.proto]

    The protobuf messages of the ACP protocol the topology, control and traffic
    components exchange, as the structs the code reads: scalar fields default
    to zero, message fields and [optional] scalars are options, enumerations
    are their [i32] numbers.  The constants of each enumeration follow the
    messages. *)

From Stdlib Require Import ZArith.
From S2P Require Import Prelude.

Module Pb.

Module TrafficAnalysisConfig.
Record t : Type := mk {
  enabled : bool;
  sample_interval_seconds : Z;
  batch_max_entries : Z;
  batch_max_bytes : Z;
  queue_max_bytes : Z;
  queue_max_age_seconds : Z;
  send_bytes_per_second : Z;
  send_burst_bytes : Z;
  send_timeout_millis : Z;
  minute_max_domain_keys : Z;
  max_udp_targets : Z;
  max_udp_targets_per_session : Z;
  memory_max_bytes : Z
}.
#[global] Instance eq_dec : EqDecision t.
Proof. solve_decision. Defined.
End TrafficAnalysisConfig.

Module UserCredential.
Record t : Type := mk {
  user_id : string;
  name : string;
  credential : string;
  status : Z;
  upload_speed_limit_bps : Z;
  download_speed_limit_bps : Z
}.
#[global] Instance eq_dec : EqDecision t.
Proof. solve_decision. Defined.
End UserCredential.

Module NodeTopology.
Record t : Type := mk {
  node_id : string;
  provider_id : string;
  provider_config_version : Z;
  provider_config_json : string;
  users : list UserCredential.t;
  traffic_analysis : option TrafficAnalysisConfig.t
}.
#[global] Instance eq_dec : EqDecision t.
Proof. solve_decision. Defined.
End NodeTopology.

Module OutboundConfig.
Record t : Type := mk {
  type_ : string;
  tag : string;
  options_json : string
}.
#[global] Instance eq_dec : EqDecision t.
Proof. solve_decision. Defined.
End OutboundConfig.

Module DomainResolveOptions.
Record t : Type := mk {
  server : string;
  strategy : string;
  disable_cache : bool;
  rewrite_ttl : option Z;
  client_subnet : string
}.
#[global] Instance eq_dec : EqDecision t.
Proof. solve_decision. Defined.
End DomainResolveOptions.

Module DirectActionOptions.
Record t : Type := mk {
  bind_interface : string;
  inet4_bind_address : string;
  inet6_bind_address : string;
  routing_mark : Z;
  reuse_addr : bool;
  connect_timeout : string;
  tcp_fast_open : bool;
  tcp_multi_path : bool;
  udp_fragment : option bool;
  domain_strategy : string;
  bind_address_no_port : bool;
  protect_path : string;
  netns : string;
  disable_tcp_keep_alive : bool;
  tcp_keep_alive : string;
  tcp_keep_alive_interval : string;
  domain_resolver : option DomainResolveOptions.t;
  network_strategy : string;
  network_type : list string;
  fallback_network_type : list string;
  fallback_delay : string
}.
#[global] Instance eq_dec : EqDecision t.
Proof. solve_decision. Defined.
End DirectActionOptions.

Module RouteActionOptions.
Record t : Type := mk {
  override_address : string;
  override_port : Z;
  network_strategy : string;
  fallback_delay : Z;
  udp_disable_domain_unmapping : bool;
  udp_connect : bool;
  udp_timeout : string;
  tls_fragment : bool;
  tls_fragment_fallback_delay : string;
  tls_record_fragment : bool
}.
#[global] Instance eq_dec : EqDecision t.
Proof. solve_decision. Defined.
End RouteActionOptions.

Module SniffActionOptions.
Record t : Type := mk {
  sniffer : list string;
  timeout : string
}.
#[global] Instance eq_dec : EqDecision t.
Proof. solve_decision. Defined.
End SniffActionOptions.

Module ResolveActionOptions.
Record t : Type := mk {
  server : string;
  strategy : string;
  disable_cache : bool;
  rewrite_ttl : option Z;
  client_subnet : string
}.
#[global] Instance eq_dec : EqDecision t.
Proof. solve_decision. Defined.
End ResolveActionOptions.

Module RouteRule.
Inductive t : Type := mk {
  type_ : string;
  inbound : list string;
  network : list string;
  ip_version : Z;
  domain : list string;
  domain_suffix : list string;
  domain_keyword : list string;
  domain_regex : list string;
  source_ip_cidr : list string;
  ip_cidr : list string;
  source_ip_is_private : option bool;
  ip_is_private : option bool;
  port : list Z;
  port_range : list string;
  source_port_range : list string;
  protocol : list string;
  rule_set : list string;
  invert : bool;
  action : string;
  outbound : string;
  method : string;
  no_drop : bool;
  mode : string;
  rules : list t;
  auth_user : list string;
  client : list string;
  geosite : list string;
  source_geoip : list string;
  geoip : list string;
  source_port : list Z;
  process_name : list string;
  process_path : list string;
  process_path_regex : list string;
  package_name : list string;
  user : list string;
  user_id : list Z;
  clash_mode : string;
  network_type : list string;
  network_is_expensive : option bool;
  network_is_constrained : option bool;
  wifi_ssid : list string;
  wifi_bssid : list string;
  default_interface_address : list string;
  preferred_by : list string;
  rule_set_ip_cidr_match_source : bool;
  route_options : option RouteActionOptions.t;
  direct_options : option DirectActionOptions.t;
  sniff_options : option SniffActionOptions.t;
  resolve_options : option ResolveActionOptions.t
}.
#[global] Instance eq_dec : EqDecision t.
Proof. exact (fix go (x y : t) : Decision (x = y) := ltac:(unfold Decision; decide equality; solve [apply (list_eq_dec (dec := go)) | solve_decision])). Defined.
End RouteRule.

Module HeadlessRule.
Inductive t : Type := mk {
  type_ : string;
  network : list string;
  domain : list string;
  domain_suffix : list string;
  domain_keyword : list string;
  domain_regex : list string;
  source_ip_cidr : list string;
  ip_cidr : list string;
  source_port : list Z;
  source_port_range : list string;
  port : list Z;
  port_range : list string;
  process_name : list string;
  process_path : list string;
  process_path_regex : list string;
  package_name : list string;
  network_type : list string;
  network_is_expensive : option bool;
  network_is_constrained : option bool;
  wifi_ssid : list string;
  wifi_bssid : list string;
  default_interface_address : list string;
  invert : bool;
  mode : string;
  rules : list t
}.
#[global] Instance eq_dec : EqDecision t.
Proof. exact (fix go (x y : t) : Decision (x = y) := ltac:(unfold Decision; decide equality; solve [apply (list_eq_dec (dec := go)) | solve_decision])). Defined.
End HeadlessRule.

Module RouteRuleSet.
Record t : Type := mk {
  type_ : string;
  tag : string;
  format : string;
  path : string;
  url : string;
  download_detour : string;
  update_interval : string;
  rules : list HeadlessRule.t
}.
#[global] Instance eq_dec : EqDecision t.
Proof. solve_decision. Defined.
End RouteRuleSet.

Module GeoIpOptions.
Record t : Type := mk {
  path : string;
  download_url : string;
  download_detour : string
}.
#[global] Instance eq_dec : EqDecision t.
Proof. solve_decision. Defined.
End GeoIpOptions.

Module GeositeOptions.
Record t : Type := mk {
  path : string;
  download_url : string;
  download_detour : string
}.
#[global] Instance eq_dec : EqDecision t.
Proof. solve_decision. Defined.
End GeositeOptions.

Module RouteConfig.
Record t : Type := mk {
  rules : list RouteRule.t;
  rule_sets : list RouteRuleSet.t;
  final_ : string;
  auto_detect_interface : bool;
  default_interface : string;
  default_mark : Z;
  find_process : bool;
  geoip : option GeoIpOptions.t;
  geosite : option GeositeOptions.t;
  override_android_vpn : bool;
  default_domain_resolver : option DomainResolveOptions.t;
  default_network_strategy : string;
  default_network_type : list string;
  default_fallback_network_type : list string;
  default_fallback_delay : string
}.
#[global] Instance eq_dec : EqDecision t.
Proof. solve_decision. Defined.
End RouteConfig.

Module DnsServer.
Record t : Type := mk {
  type_ : string;
  tag : string;
  server : string;
  detour : string
}.
#[global] Instance eq_dec : EqDecision t.
Proof. solve_decision. Defined.
End DnsServer.

Module DnsRule.
Record t : Type := mk {
  inbound : list string;
  domain : list string;
  domain_suffix : list string;
  domain_keyword : list string;
  domain_regex : list string;
  rule_set : list string;
  action : string;
  rcode : string;
  server : string;
  method : string;
  no_drop : bool;
  answer : list string;
  ns : list string;
  extra : list string;
  disable_cache : bool;
  rewrite_ttl : string;
  timeout : string;
  client_subnet : string
}.
#[global] Instance eq_dec : EqDecision t.
Proof. solve_decision. Defined.
End DnsRule.

Module DnsConfig.
Record t : Type := mk {
  rules : list DnsRule.t;
  servers : list DnsServer.t;
  final_ : string
}.
#[global] Instance eq_dec : EqDecision t.
Proof. solve_decision. Defined.
End DnsConfig.

Module TopologySnapshot.
Record t : Type := mk {
  machine_id : string;
  revision : Z;
  nodes : list NodeTopology.t;
  outbounds : list OutboundConfig.t;
  route : option RouteConfig.t;
  dns : option DnsConfig.t
}.
#[global] Instance eq_dec : EqDecision t.
Proof. solve_decision. Defined.
End TopologySnapshot.

Module NodeConfig.
Record t : Type := mk {
  node_id : string;
  provider_id : string;
  provider_config_version : Z;
  provider_config_json : string;
  traffic_analysis : option TrafficAnalysisConfig.t
}.
#[global] Instance eq_dec : EqDecision t.
Proof. solve_decision. Defined.
End NodeConfig.

Module MachineConfig.
Record t : Type := mk {
  machine_id : string;
  revision : Z;
  nodes : list NodeConfig.t;
  outbounds : list OutboundConfig.t;
  route : option RouteConfig.t;
  dns : option DnsConfig.t
}.
#[global] Instance eq_dec : EqDecision t.
Proof. solve_decision. Defined.
End MachineConfig.

Module NodeMutation.
Record t : Type := mk {
  operation : Z;
  node : option NodeTopology.t;
  node_id : string
}.
#[global] Instance eq_dec : EqDecision t.
Proof. solve_decision. Defined.
End NodeMutation.

Module UserMutation.
Record t : Type := mk {
  operation : Z;
  machine_id : string;
  node_id : string;
  user : option UserCredential.t;
  revision : Z;
  kick_existing_connections : bool
}.
#[global] Instance eq_dec : EqDecision t.
Proof. solve_decision. Defined.
End UserMutation.

Module TopologyDelta.
Record t : Type := mk {
  base_revision : Z;
  target_revision : Z;
  node_mutations : list NodeMutation.t;
  user_mutations : list UserMutation.t
}.
#[global] Instance eq_dec : EqDecision t.
Proof. solve_decision. Defined.
End TopologyDelta.

Module TopologyRoutePatch.
Record t : Type := mk {
  machine_id : string;
  revision : Z;
  outbounds : list OutboundConfig.t;
  route : option RouteConfig.t;
  dns : option DnsConfig.t
}.
#[global] Instance eq_dec : EqDecision t.
Proof. solve_decision. Defined.
End TopologyRoutePatch.

Module MaintenanceCommand.
Record t : Type := mk {
  enabled : bool;
  reject_new_connections : bool;
  message : string
}.
#[global] Instance eq_dec : EqDecision t.
Proof. solve_decision. Defined.
End MaintenanceCommand.

Module ListUsersRequest.
Record t : Type := mk {
  machine_id : string;
  session_id : string;
  node_id : string;
  page_size : Z;
  page_token : string
}.
#[global] Instance eq_dec : EqDecision t.
Proof. solve_decision. Defined.
End ListUsersRequest.

Module ListUsersResponse.
Record t : Type := mk {
  users : list UserCredential.t;
  next_page_token : string;
  total_size : Z;
  has_next : bool
}.
#[global] Instance eq_dec : EqDecision t.
Proof. solve_decision. Defined.
End ListUsersResponse.

Module TrafficReport.
Record t : Type := mk {
  machine_id : string;
  node_id : string;
  user_id : string;
  protocol : string;
  uplink_bytes : Z;
  downlink_bytes : Z;
  observed_at_unix : Z
}.
#[global] Instance eq_dec : EqDecision t.
Proof. solve_decision. Defined.
End TrafficReport.

Module ControlAck.
Record t : Type := mk {
  command_id : string;
  machine_id : string;
  node_id : string;
  revision : Z;
  idempotency_key : string;
  status : Z;
  message : string;
  operation_id : string
}.
#[global] Instance eq_dec : EqDecision t.
Proof. solve_decision. Defined.
End ControlAck.
(** ** Enumerations

    A field of an enumeration type is an [i32]; [try_from] recognises the
    numbers the [.proto] file lists. *)

Module MutationOperation.
Inductive t := Unspecified | Upsert | Disable | Delete.
#[global] Instance eq_dec : EqDecision t.
Proof. solve_decision. Defined.
Definition number (x : t) : Z :=
  match x with Unspecified => 0 | Upsert => 1 | Disable => 2 | Delete => 3 end.
Definition try_from (z : Z) : option t :=
  match z with
  | 0 => Some Unspecified | 1 => Some Upsert | 2 => Some Disable | 3 => Some Delete
  | _ => None
  end%Z.
End MutationOperation.

Module UserStatus.
Inductive t := Unspecified | Active | Disabled.
#[global] Instance eq_dec : EqDecision t.
Proof. solve_decision. Defined.
Definition number (x : t) : Z :=
  match x with Unspecified => 0 | Active => 1 | Disabled => 2 end.
Definition try_from (z : Z) : option t :=
  match z with
  | 0 => Some Unspecified | 1 => Some Active | 2 => Some Disabled | _ => None
  end%Z.
End UserStatus.

Module ControlCommandType.
Inductive t :=
  | Unspecified | TopologySnapshot | TopologyDelta | Maintenance | Diagnostics
  | Upgrade | UserMutation | RoutePatch | UserRefresh.
#[global] Instance eq_dec : EqDecision t.
Proof. solve_decision. Defined.
Definition number (x : t) : Z :=
  match x with
  | Unspecified => 0 | TopologySnapshot => 1 | TopologyDelta => 2 | Maintenance => 5
  | Diagnostics => 6 | Upgrade => 7 | UserMutation => 8 | RoutePatch => 9
  | UserRefresh => 10
  end.
Definition try_from (z : Z) : option t :=
  match z with
  | 0 => Some Unspecified | 1 => Some TopologySnapshot | 2 => Some TopologyDelta
  | 5 => Some Maintenance | 6 => Some Diagnostics | 7 => Some Upgrade
  | 8 => Some UserMutation | 9 => Some RoutePatch | 10 => Some UserRefresh
  | _ => None
  end%Z.
End ControlCommandType.

Module ControlAckStatus.
Inductive t := Unspecified | Accepted | Applied | Failed | RolledBack.
#[global] Instance eq_dec : EqDecision t.
Proof. solve_decision. Defined.
Definition number (x : t) : Z :=
  match x with
  | Unspecified => 0 | Accepted => 1 | Applied => 2 | Failed => 3 | RolledBack => 4
  end.
End ControlAckStatus.

(** ** The control command and its [oneof] payload

    The diagnostics and upgrade payloads are never read by the agent; they are
    kept opaque. *)

Module Payload.
Inductive t :=
  | TopologySnapshot (x : TopologySnapshot.t)
  | TopologyDelta (x : TopologyDelta.t)
  | UserMutation (x : UserMutation.t)
  | Maintenance (x : MaintenanceCommand.t)
  | Diagnostics
  | Upgrade
  | TopologyRoutePatch (x : TopologyRoutePatch.t).
End Payload.

Module ControlCommand.
Record t : Type := mk {
  command_id : string;
  machine_id : string;
  node_id : string;
  revision : Z;
  idempotency_key : string;
  type_ : Z;
  legacy_payload : string;
  operation_id : string;
  base_revision : Z;
  payload : option Payload.t
}.
End ControlCommand.

(** ** The configuration service *)

Module GetMachineConfigRequest.
Record t : Type := mk { machine_id : string; session_id : string }.
End GetMachineConfigRequest.

End Pb.
