(* ===== verification/Topology.v ===== *)
(** * Topology model: [crates/node-agent/src/topology/mod.rs]

    The structs of the agent's topology, one module per struct with the
    source's field names ([type] and [final] are Rocq keywords: the source
    itself renames them [kind] and [final_]).  Raw JSON payloads
    ([RawJson]) are their byte string.  Equality is decidable, as the source
    derives [PartialEq]. *)

From Stdlib Require Import ZArith.
From S2P Require Import Prelude Wire.

Module UserCredential.
Record t : Type := mk {
  user_id : string;
  name : string;
  credential : string;
  status : string;
  upload_speed_limit_bps : Z;
  download_speed_limit_bps : Z
}.
#[global] Instance eq_dec : EqDecision t.
Proof. solve_decision. Defined.
End UserCredential.

Module NodeInstance.
Record t : Type := mk {
  node_id : string;
  provider_id : string;
  provider_config_version : Z;
  provider_config : string;
  users : list (UserCredential.t)
}.
#[global] Instance eq_dec : EqDecision t.
Proof. solve_decision. Defined.
End NodeInstance.

Module Outbound.
Record t : Type := mk {
  kind : string;
  tag : string;
  options : string
}.
#[global] Instance eq_dec : EqDecision t.
Proof. solve_decision. Defined.
End Outbound.

Module DomainResolveOptions.
Record t : Type := mk {
  server : string;
  strategy : string;
  disable_cache : bool;
  rewrite_ttl : option Z;
  client_subnet : string
}.
#[global] Instance eq_dec : EqDecision t.
Proof. solve_decision. Defined.
End DomainResolveOptions.

Module DirectActionOptions.
Record t : Type := mk {
  bind_interface : string;
  inet4_bind_address : string;
  inet6_bind_address : string;
  routing_mark : Z;
  reuse_addr : bool;
  connect_timeout : string;
  tcp_fast_open : bool;
  tcp_multi_path : bool;
  udp_fragment : option bool;
  domain_strategy : string;
  bind_address_no_port : bool;
  protect_path : string;
  netns : string;
  disable_tcp_keep_alive : bool;
  tcp_keep_alive : string;
  tcp_keep_alive_interval : string;
  domain_resolver : option (DomainResolveOptions.t);
  network_strategy : string;
  network_type : list string;
  fallback_network_type : list string;
  fallback_delay : string
}.
#[global] Instance eq_dec : EqDecision t.
Proof. solve_decision. Defined.
End DirectActionOptions.

Module RouteActionOptions.
Record t : Type := mk {
  override_address : string;
  override_port : Z;
  network_strategy : string;
  fallback_delay : Z;
  udp_disable_domain_unmapping : bool;
  udp_connect : bool;
  udp_timeout : string;
  tls_fragment : bool;
  tls_fragment_fallback_delay : string;
  tls_record_fragment : bool
}.
#[global] Instance eq_dec : EqDecision t.
Proof. solve_decision. Defined.
End RouteActionOptions.

Module SniffActionOptions.
Record t : Type := mk {
  sniffer : list string;
  timeout : string
}.
#[global] Instance eq_dec : EqDecision t.
Proof. solve_decision. Defined.
End SniffActionOptions.

Module ResolveActionOptions.
Record t : Type := mk {
  server : string;
  strategy : string;
  disable_cache : bool;
  rewrite_ttl : option Z;
  client_subnet : string
}.
#[global] Instance eq_dec : EqDecision t.
Proof. solve_decision. Defined.
End ResolveActionOptions.

Module RouteRule.
Inductive t : Type := mk {
  kind : string;
  inbound : list string;
  network : list string;
  ip_version : Z;
  domain : list string;
  domain_suffix : list string;
  domain_keyword : list string;
  domain_regex : list string;
  source_ip_cidr : list string;
  ip_cidr : list string;
  source_ip_is_private : option bool;
  ip_is_private : option bool;
  port : list Z;
  port_range : list string;
  source_port : list Z;
  source_port_range : list string;
  protocol : list string;
  rule_set : list string;
  invert : bool;
  action : string;
  outbound : string;
  method : string;
  no_drop : bool;
  mode : string;
  rules : list t;
  auth_user : list string;
  client : list string;
  geosite : list string;
  source_geoip : list string;
  geoip : list string;
  process_name : list string;
  process_path : list string;
  process_path_regex : list string;
  package_name : list string;
  user : list string;
  user_id : list Z;
  clash_mode : string;
  network_type : list string;
  network_is_expensive : option bool;
  network_is_constrained : option bool;
  wifi_ssid : list string;
  wifi_bssid : list string;
  default_interface_address : list string;
  preferred_by : list string;
  rule_set_ip_cidr_match_source : bool;
  route_options : option (RouteActionOptions.t);
  direct_options : option (DirectActionOptions.t);
  sniff_options : option (SniffActionOptions.t);
  resolve_options : option (ResolveActionOptions.t)
}.
#[global] Instance eq_dec : EqDecision t.
Proof. exact (fix go (x y : t) : Decision (x = y) := ltac:(unfold Decision; decide equality; solve [apply (list_eq_dec (dec := go)) | solve_decision])). Defined.
End RouteRule.

Module HeadlessRule.
Inductive t : Type := mk {
  kind : string;
  network : list string;
  domain : list string;
  domain_suffix : list string;
  domain_keyword : list string;
  domain_regex : list string;
  source_ip_cidr : list string;
  ip_cidr : list string;
  source_port : list Z;
  source_port_range : list string;
  port : list Z;
  port_range : list string;
  process_name : list string;
  process_path : list string;
  process_path_regex : list string;
  package_name : list string;
  network_type : list string;
  network_is_expensive : option bool;
  network_is_constrained : option bool;
  wifi_ssid : list string;
  wifi_bssid : list string;
  default_interface_address : list string;
  invert : bool;
  mode : string;
  rules : list t
}.
#[global] Instance eq_dec : EqDecision t.
Proof. exact (fix go (x y : t) : Decision (x = y) := ltac:(unfold Decision; decide equality; solve [apply (list_eq_dec (dec := go)) | solve_decision])). Defined.
End HeadlessRule.

Module RouteRuleSet.
Record t : Type := mk {
  kind : string;
  tag : string;
  format : string;
  path : string;
  url : string;
  download_detour : string;
  update_interval : string;
  rules : list (HeadlessRule.t)
}.
#[global] Instance eq_dec : EqDecision t.
Proof. solve_decision. Defined.
End RouteRuleSet.

Module GeoIpOptions.
Record t : Type := mk {
  path : string;
  download_url : string;
  download_detour : string
}.
#[global] Instance eq_dec : EqDecision t.
Proof. solve_decision. Defined.
End GeoIpOptions.

Module GeositeOptions.
Record t : Type := mk {
  path : string;
  download_url : string;
  download_detour : string
}.
#[global] Instance eq_dec : EqDecision t.
Proof. solve_decision. Defined.
End GeositeOptions.

Module Route.
Record t : Type := mk {
  rules : list (RouteRule.t);
  rule_sets : list (RouteRuleSet.t);
  final_ : string;
  auto_detect_interface : bool;
  default_interface : string;
  default_mark : Z;
  find_process : bool;
  geoip : option (GeoIpOptions.t);
  geosite : option (GeositeOptions.t);
  override_android_vpn : bool;
  default_domain_resolver : option (DomainResolveOptions.t);
  default_network_strategy : string;
  default_network_type : list string;
  default_fallback_network_type : list string;
  default_fallback_delay : string
}.
#[global] Instance eq_dec : EqDecision t.
Proof. solve_decision. Defined.
End Route.

Module DnsServer.
Record t : Type := mk {
  kind : string;
  tag : string;
  server : string;
  detour : string
}.
#[global] Instance eq_dec : EqDecision t.
Proof. solve_decision. Defined.
End DnsServer.

Module DnsRule.
Record t : Type := mk {
  inbound : list string;
  domain : list string;
  domain_suffix : list string;
  domain_keyword : list string;
  domain_regex : list string;
  rule_set : list string;
  action : string;
  rcode : string;
  server : string;
  method : string;
  no_drop : bool;
  answer : list string;
  ns : list string;
  extra : list string;
  disable_cache : bool;
  rewrite_ttl : string;
  timeout : string;
  client_subnet : string
}.
#[global] Instance eq_dec : EqDecision t.
Proof. solve_decision. Defined.
End DnsRule.

Module Dns.
Record t : Type := mk {
  rules : list (DnsRule.t);
  servers : list (DnsServer.t);
  final_ : string
}.
#[global] Instance eq_dec : EqDecision t.
Proof. solve_decision. Defined.
End Dns.

Module MachineTopology.
Record t : Type := mk {
  machine_id : string;
  revision : Z;
  nodes : list (NodeInstance.t);
  outbounds : list (Outbound.t);
  route : option (Route.t);
  dns : option (Dns.t);
  snapshot : option (Pb.TopologySnapshot.t)
}.
#[global] Instance eq_dec : EqDecision t.
Proof. solve_decision. Defined.
End MachineTopology.

(** ** Field updates

    [topology.nodes = ..] and the like: one setter per field the source
    assigns. *)

Module MT.
Import MachineTopology.
Definition set_machine_id (x : string) (m : t) : t :=
  mk x (revision m) (nodes m) (outbounds m) (route m) (dns m) (snapshot m).
Definition set_revision (x : Z) (m : t) : t :=
  mk (machine_id m) x (nodes m) (outbounds m) (route m) (dns m) (snapshot m).
Definition set_nodes (x : list NodeInstance.t) (m : t) : t :=
  mk (machine_id m) (revision m) x (outbounds m) (route m) (dns m) (snapshot m).
Definition set_outbounds (x : list Outbound.t) (m : t) : t :=
  mk (machine_id m) (revision m) (nodes m) x (route m) (dns m) (snapshot m).
Definition set_route (x : option Route.t) (m : t) : t :=
  mk (machine_id m) (revision m) (nodes m) (outbounds m) x (dns m) (snapshot m).
Definition set_dns (x : option Dns.t) (m : t) : t :=
  mk (machine_id m) (revision m) (nodes m) (outbounds m) (route m) x (snapshot m).
Definition set_snapshot (x : option Pb.TopologySnapshot.t) (m : t) : t :=
  mk (machine_id m) (revision m) (nodes m) (outbounds m) (route m) (dns m) x.
(** [MachineTopology::default()] *)
Definition default : t := mk "" 0 [] [] None None None.
End MT.

Module SN.
Import Pb.TopologySnapshot.
Definition set_machine_id (x : string) (m : t) : t :=
  mk x (revision m) (nodes m) (outbounds m) (route m) (dns m).
Definition set_revision (x : Z) (m : t) : t :=
  mk (machine_id m) x (nodes m) (outbounds m) (route m) (dns m).
Definition set_nodes (x : list Pb.NodeTopology.t) (m : t) : t :=
  mk (machine_id m) (revision m) x (outbounds m) (route m) (dns m).
(** [TopologySnapshot::default()] *)
Definition default : t := mk "" 0 [] [] None None.
End SN.

Definition node_set_users (us : list UserCredential.t) (n : NodeInstance.t) : NodeInstance.t :=
  NodeInstance.mk (NodeInstance.node_id n) (NodeInstance.provider_id n)
    (NodeInstance.provider_config_version n) (NodeInstance.provider_config n) us.

Definition node_set_node_id (x : string) (n : NodeInstance.t) : NodeInstance.t :=
  NodeInstance.mk x (NodeInstance.provider_id n)
    (NodeInstance.provider_config_version n) (NodeInstance.provider_config n)
    (NodeInstance.users n).

(** [NodeInstance::default()] *)
Definition node_default : NodeInstance.t := NodeInstance.mk "" "" 0 "" [].

Definition pb_node_set_users (us : list Pb.UserCredential.t) (n : Pb.NodeTopology.t) : Pb.NodeTopology.t :=
  Pb.NodeTopology.mk (Pb.NodeTopology.node_id n) (Pb.NodeTopology.provider_id n)
    (Pb.NodeTopology.provider_config_version n) (Pb.NodeTopology.provider_config_json n)
    us (Pb.NodeTopology.traffic_analysis n).

Definition pb_node_set_node_id (x : string) (n : Pb.NodeTopology.t) : Pb.NodeTopology.t :=
  Pb.NodeTopology.mk x (Pb.NodeTopology.provider_id n)
    (Pb.NodeTopology.provider_config_version n) (Pb.NodeTopology.provider_config_json n)
    (Pb.NodeTopology.users n) (Pb.NodeTopology.traffic_analysis n).

(** [pb::NodeTopology::default()] *)
Definition pb_node_default : Pb.NodeTopology.t := Pb.NodeTopology.mk "" "" 0 "" [] None.
