(* ===== verification/Provider.v ===== *)
(** * Provider payloads: [crates/node-agent/src/topology/provider.rs] *)

From Stdlib Require Import ZArith.
From S2P Require Import Prelude.

Definition VLESS_REALITY_VISION_ID : string := "vless-reality-vision@1".
Definition HYSTERIA2_SALAMANDER_ID : string := "hysteria2-salamander@1".
Definition CURRENT_CONFIG_VERSION : Z := 1.

Module OutboundConfig.
Record t : Type := mk {
  kind : string;
  tag : string
}.
#[global] Instance eq_dec : EqDecision t.
Proof. solve_decision. Defined.
End OutboundConfig.

Module RealityHandshake.
Record t : Type := mk {
  server : string;
  server_port : Z
}.
#[global] Instance eq_dec : EqDecision t.
Proof. solve_decision. Defined.
End RealityHandshake.

Module VlessRealityConfig.
Record t : Type := mk {
  enabled : bool;
  handshake : RealityHandshake.t;
  public_key : string;
  private_key : string;
  short_id : list string
}.
#[global] Instance eq_dec : EqDecision t.
Proof. solve_decision. Defined.
End VlessRealityConfig.

Module VlessRealityVisionTlsConfig.
Record t : Type := mk {
  enabled : bool;
  server_name : string;
  reality : VlessRealityConfig.t
}.
#[global] Instance eq_dec : EqDecision t.
Proof. solve_decision. Defined.
End VlessRealityVisionTlsConfig.

Module VlessRealityVisionConfig.
Record t : Type := mk {
  kind : string;
  tag : string;
  listen : string;
  listen_port : Z;
  flow : string;
  tcp_fast_open : bool;
  sniff : bool;
  tls : VlessRealityVisionTlsConfig.t;
  outbounds : list (OutboundConfig.t)
}.
#[global] Instance eq_dec : EqDecision t.
Proof. solve_decision. Defined.
End VlessRealityVisionConfig.

Module Hysteria2ObfsConfig.
Record t : Type := mk {
  kind : string;
  password : string
}.
#[global] Instance eq_dec : EqDecision t.
Proof. solve_decision. Defined.
End Hysteria2ObfsConfig.

Module Hysteria2MasqueradeConfig.
Record t : Type := mk {
  kind : string;
  url : string;
  rewrite_host : bool;
  content : string
}.
#[global] Instance eq_dec : EqDecision t.
Proof. solve_decision. Defined.
End Hysteria2MasqueradeConfig.

Module Hysteria2TlsConfig.
Record t : Type := mk {
  enabled : bool;
  server_name : string;
  insecure : bool;
  certificate_pem : string;
  private_key_pem : string;
  certificate_sha256 : string;
  certificate_public_key_sha256 : string
}.
#[global] Instance eq_dec : EqDecision t.
Proof. solve_decision. Defined.
End Hysteria2TlsConfig.

Module Hysteria2SalamanderConfig.
Record t : Type := mk {
  kind : string;
  tag : string;
  listen : string;
  listen_port : Z;
  port_hopping : string;
  up_mbps : Z;
  down_mbps : Z;
  ignore_client_bandwidth : bool;
  obfs : Hysteria2ObfsConfig.t;
  masquerade : option (Hysteria2MasqueradeConfig.t);
  tls : Hysteria2TlsConfig.t;
  outbounds : list (OutboundConfig.t)
}.
#[global] Instance eq_dec : EqDecision t.
Proof. solve_decision. Defined.
End Hysteria2SalamanderConfig.

(** [impl Default for Hysteria2SalamanderConfig]: every field zero except
    [ignore_client_bandwidth]. *)
Definition Hysteria2SalamanderConfig_default : Hysteria2SalamanderConfig.t := {|
  Hysteria2SalamanderConfig.kind := "";
  Hysteria2SalamanderConfig.tag := "";
  Hysteria2SalamanderConfig.listen := "";
  Hysteria2SalamanderConfig.listen_port := 0;
  Hysteria2SalamanderConfig.port_hopping := "";
  Hysteria2SalamanderConfig.up_mbps := 0;
  Hysteria2SalamanderConfig.down_mbps := 0;
  Hysteria2SalamanderConfig.ignore_client_bandwidth := true;
  Hysteria2SalamanderConfig.obfs := {|
    Hysteria2ObfsConfig.kind := ""; Hysteria2ObfsConfig.password := "" |};
  Hysteria2SalamanderConfig.masquerade := None;
  Hysteria2SalamanderConfig.tls := {|
    Hysteria2TlsConfig.enabled := false;
    Hysteria2TlsConfig.server_name := "";
    Hysteria2TlsConfig.insecure := false;
    Hysteria2TlsConfig.certificate_pem := "";
    Hysteria2TlsConfig.private_key_pem := "";
    Hysteria2TlsConfig.certificate_sha256 := "";
    Hysteria2TlsConfig.certificate_public_key_sha256 := "" |};
  Hysteria2SalamanderConfig.outbounds := []
|}.
