(* ===== verification/Convert.v ===== *)
(** * Wire/model conversion and snapshot mutation: [crates/node-agent/src/topology/proto.rs]

    The [From] implementations between protobuf messages and model structs,
    [from_machine_config], [from_snapshot], [to_snapshot] and the helpers that
    keep the retained wire snapshot of a topology in step with its model
    ([replace_node_users], [apply_*_to_snapshot]).

    Theorems: the structured messages (outbounds, route, DNS) survive a round
    trip in both directions field by field; users survive up to the
    normalisation of their status; and [coherent], the agreement of a topology
    with its own wire snapshot, holds for every topology read from the panel
    and is preserved by every mutation helper. *)

From Stdlib Require Import ZArith.
From S2P Require Import Prelude Wire Topology.

(** ** Structured messages *)

Definition of_pb_DomainResolveOptions (v : Pb.DomainResolveOptions.t) : DomainResolveOptions.t :=
  {|
    DomainResolveOptions.server := Pb.DomainResolveOptions.server v;
    DomainResolveOptions.strategy := Pb.DomainResolveOptions.strategy v;
    DomainResolveOptions.disable_cache := Pb.DomainResolveOptions.disable_cache v;
    DomainResolveOptions.rewrite_ttl := Pb.DomainResolveOptions.rewrite_ttl v;
    DomainResolveOptions.client_subnet := Pb.DomainResolveOptions.client_subnet v
  |}.

Definition to_pb_DomainResolveOptions (v : DomainResolveOptions.t) : Pb.DomainResolveOptions.t :=
  {|
    Pb.DomainResolveOptions.server := DomainResolveOptions.server v;
    Pb.DomainResolveOptions.strategy := DomainResolveOptions.strategy v;
    Pb.DomainResolveOptions.disable_cache := DomainResolveOptions.disable_cache v;
    Pb.DomainResolveOptions.rewrite_ttl := DomainResolveOptions.rewrite_ttl v;
    Pb.DomainResolveOptions.client_subnet := DomainResolveOptions.client_subnet v
  |}.

Definition of_pb_DirectActionOptions (v : Pb.DirectActionOptions.t) : DirectActionOptions.t :=
  {|
    DirectActionOptions.bind_interface := Pb.DirectActionOptions.bind_interface v;
    DirectActionOptions.inet4_bind_address := Pb.DirectActionOptions.inet4_bind_address v;
    DirectActionOptions.inet6_bind_address := Pb.DirectActionOptions.inet6_bind_address v;
    DirectActionOptions.routing_mark := Pb.DirectActionOptions.routing_mark v;
    DirectActionOptions.reuse_addr := Pb.DirectActionOptions.reuse_addr v;
    DirectActionOptions.connect_timeout := Pb.DirectActionOptions.connect_timeout v;
    DirectActionOptions.tcp_fast_open := Pb.DirectActionOptions.tcp_fast_open v;
    DirectActionOptions.tcp_multi_path := Pb.DirectActionOptions.tcp_multi_path v;
    DirectActionOptions.udp_fragment := Pb.DirectActionOptions.udp_fragment v;
    DirectActionOptions.domain_strategy := Pb.DirectActionOptions.domain_strategy v;
    DirectActionOptions.bind_address_no_port := Pb.DirectActionOptions.bind_address_no_port v;
    DirectActionOptions.protect_path := Pb.DirectActionOptions.protect_path v;
    DirectActionOptions.netns := Pb.DirectActionOptions.netns v;
    DirectActionOptions.disable_tcp_keep_alive := Pb.DirectActionOptions.disable_tcp_keep_alive v;
    DirectActionOptions.tcp_keep_alive := Pb.DirectActionOptions.tcp_keep_alive v;
    DirectActionOptions.tcp_keep_alive_interval := Pb.DirectActionOptions.tcp_keep_alive_interval v;
    DirectActionOptions.domain_resolver := option_map of_pb_DomainResolveOptions (Pb.DirectActionOptions.domain_resolver v);
    DirectActionOptions.network_strategy := Pb.DirectActionOptions.network_strategy v;
    DirectActionOptions.network_type := Pb.DirectActionOptions.network_type v;
    DirectActionOptions.fallback_network_type := Pb.DirectActionOptions.fallback_network_type v;
    DirectActionOptions.fallback_delay := Pb.DirectActionOptions.fallback_delay v
  |}.

Definition to_pb_DirectActionOptions (v : DirectActionOptions.t) : Pb.DirectActionOptions.t :=
  {|
    Pb.DirectActionOptions.bind_interface := DirectActionOptions.bind_interface v;
    Pb.DirectActionOptions.inet4_bind_address := DirectActionOptions.inet4_bind_address v;
    Pb.DirectActionOptions.inet6_bind_address := DirectActionOptions.inet6_bind_address v;
    Pb.DirectActionOptions.routing_mark := DirectActionOptions.routing_mark v;
    Pb.DirectActionOptions.reuse_addr := DirectActionOptions.reuse_addr v;
    Pb.DirectActionOptions.connect_timeout := DirectActionOptions.connect_timeout v;
    Pb.DirectActionOptions.tcp_fast_open := DirectActionOptions.tcp_fast_open v;
    Pb.DirectActionOptions.tcp_multi_path := DirectActionOptions.tcp_multi_path v;
    Pb.DirectActionOptions.udp_fragment := DirectActionOptions.udp_fragment v;
    Pb.DirectActionOptions.domain_strategy := DirectActionOptions.domain_strategy v;
    Pb.DirectActionOptions.bind_address_no_port := DirectActionOptions.bind_address_no_port v;
    Pb.DirectActionOptions.protect_path := DirectActionOptions.protect_path v;
    Pb.DirectActionOptions.netns := DirectActionOptions.netns v;
    Pb.DirectActionOptions.disable_tcp_keep_alive := DirectActionOptions.disable_tcp_keep_alive v;
    Pb.DirectActionOptions.tcp_keep_alive := DirectActionOptions.tcp_keep_alive v;
    Pb.DirectActionOptions.tcp_keep_alive_interval := DirectActionOptions.tcp_keep_alive_interval v;
    Pb.DirectActionOptions.domain_resolver := option_map to_pb_DomainResolveOptions (DirectActionOptions.domain_resolver v);
    Pb.DirectActionOptions.network_strategy := DirectActionOptions.network_strategy v;
    Pb.DirectActionOptions.network_type := DirectActionOptions.network_type v;
    Pb.DirectActionOptions.fallback_network_type := DirectActionOptions.fallback_network_type v;
    Pb.DirectActionOptions.fallback_delay := DirectActionOptions.fallback_delay v
  |}.

Definition of_pb_RouteActionOptions (v : Pb.RouteActionOptions.t) : RouteActionOptions.t :=
  {|
    RouteActionOptions.override_address := Pb.RouteActionOptions.override_address v;
    RouteActionOptions.override_port := Pb.RouteActionOptions.override_port v;
    RouteActionOptions.network_strategy := Pb.RouteActionOptions.network_strategy v;
    RouteActionOptions.fallback_delay := Pb.RouteActionOptions.fallback_delay v;
    RouteActionOptions.udp_disable_domain_unmapping := Pb.RouteActionOptions.udp_disable_domain_unmapping v;
    RouteActionOptions.udp_connect := Pb.RouteActionOptions.udp_connect v;
    RouteActionOptions.udp_timeout := Pb.RouteActionOptions.udp_timeout v;
    RouteActionOptions.tls_fragment := Pb.RouteActionOptions.tls_fragment v;
    RouteActionOptions.tls_fragment_fallback_delay := Pb.RouteActionOptions.tls_fragment_fallback_delay v;
    RouteActionOptions.tls_record_fragment := Pb.RouteActionOptions.tls_record_fragment v
  |}.

Definition to_pb_RouteActionOptions (v : RouteActionOptions.t) : Pb.RouteActionOptions.t :=
  {|
    Pb.RouteActionOptions.override_address := RouteActionOptions.override_address v;
    Pb.RouteActionOptions.override_port := RouteActionOptions.override_port v;
    Pb.RouteActionOptions.network_strategy := RouteActionOptions.network_strategy v;
    Pb.RouteActionOptions.fallback_delay := RouteActionOptions.fallback_delay v;
    Pb.RouteActionOptions.udp_disable_domain_unmapping := RouteActionOptions.udp_disable_domain_unmapping v;
    Pb.RouteActionOptions.udp_connect := RouteActionOptions.udp_connect v;
    Pb.RouteActionOptions.udp_timeout := RouteActionOptions.udp_timeout v;
    Pb.RouteActionOptions.tls_fragment := RouteActionOptions.tls_fragment v;
    Pb.RouteActionOptions.tls_fragment_fallback_delay := RouteActionOptions.tls_fragment_fallback_delay v;
    Pb.RouteActionOptions.tls_record_fragment := RouteActionOptions.tls_record_fragment v
  |}.

Definition of_pb_SniffActionOptions (v : Pb.SniffActionOptions.t) : SniffActionOptions.t :=
  {|
    SniffActionOptions.sniffer := Pb.SniffActionOptions.sniffer v;
    SniffActionOptions.timeout := Pb.SniffActionOptions.timeout v
  |}.

Definition to_pb_SniffActionOptions (v : SniffActionOptions.t) : Pb.SniffActionOptions.t :=
  {|
    Pb.SniffActionOptions.sniffer := SniffActionOptions.sniffer v;
    Pb.SniffActionOptions.timeout := SniffActionOptions.timeout v
  |}.

Definition of_pb_ResolveActionOptions (v : Pb.ResolveActionOptions.t) : ResolveActionOptions.t :=
  {|
    ResolveActionOptions.server := Pb.ResolveActionOptions.server v;
    ResolveActionOptions.strategy := Pb.ResolveActionOptions.strategy v;
    ResolveActionOptions.disable_cache := Pb.ResolveActionOptions.disable_cache v;
    ResolveActionOptions.rewrite_ttl := Pb.ResolveActionOptions.rewrite_ttl v;
    ResolveActionOptions.client_subnet := Pb.ResolveActionOptions.client_subnet v
  |}.

Definition to_pb_ResolveActionOptions (v : ResolveActionOptions.t) : Pb.ResolveActionOptions.t :=
  {|
    Pb.ResolveActionOptions.server := ResolveActionOptions.server v;
    Pb.ResolveActionOptions.strategy := ResolveActionOptions.strategy v;
    Pb.ResolveActionOptions.disable_cache := ResolveActionOptions.disable_cache v;
    Pb.ResolveActionOptions.rewrite_ttl := ResolveActionOptions.rewrite_ttl v;
    Pb.ResolveActionOptions.client_subnet := ResolveActionOptions.client_subnet v
  |}.

Fixpoint of_pb_RouteRule (v : Pb.RouteRule.t) : RouteRule.t :=
  {|
    RouteRule.kind := Pb.RouteRule.type_ v;
    RouteRule.inbound := Pb.RouteRule.inbound v;
    RouteRule.network := Pb.RouteRule.network v;
    RouteRule.ip_version := Pb.RouteRule.ip_version v;
    RouteRule.domain := Pb.RouteRule.domain v;
    RouteRule.domain_suffix := Pb.RouteRule.domain_suffix v;
    RouteRule.domain_keyword := Pb.RouteRule.domain_keyword v;
    RouteRule.domain_regex := Pb.RouteRule.domain_regex v;
    RouteRule.source_ip_cidr := Pb.RouteRule.source_ip_cidr v;
    RouteRule.ip_cidr := Pb.RouteRule.ip_cidr v;
    RouteRule.source_ip_is_private := Pb.RouteRule.source_ip_is_private v;
    RouteRule.ip_is_private := Pb.RouteRule.ip_is_private v;
    RouteRule.port := Pb.RouteRule.port v;
    RouteRule.port_range := Pb.RouteRule.port_range v;
    RouteRule.source_port := Pb.RouteRule.source_port v;
    RouteRule.source_port_range := Pb.RouteRule.source_port_range v;
    RouteRule.protocol := Pb.RouteRule.protocol v;
    RouteRule.rule_set := Pb.RouteRule.rule_set v;
    RouteRule.invert := Pb.RouteRule.invert v;
    RouteRule.action := Pb.RouteRule.action v;
    RouteRule.outbound := Pb.RouteRule.outbound v;
    RouteRule.method := Pb.RouteRule.method v;
    RouteRule.no_drop := Pb.RouteRule.no_drop v;
    RouteRule.mode := Pb.RouteRule.mode v;
    RouteRule.rules := List.map of_pb_RouteRule (Pb.RouteRule.rules v);
    RouteRule.auth_user := Pb.RouteRule.auth_user v;
    RouteRule.client := Pb.RouteRule.client v;
    RouteRule.geosite := Pb.RouteRule.geosite v;
    RouteRule.source_geoip := Pb.RouteRule.source_geoip v;
    RouteRule.geoip := Pb.RouteRule.geoip v;
    RouteRule.process_name := Pb.RouteRule.process_name v;
    RouteRule.process_path := Pb.RouteRule.process_path v;
    RouteRule.process_path_regex := Pb.RouteRule.process_path_regex v;
    RouteRule.package_name := Pb.RouteRule.package_name v;
    RouteRule.user := Pb.RouteRule.user v;
    RouteRule.user_id := Pb.RouteRule.user_id v;
    RouteRule.clash_mode := Pb.RouteRule.clash_mode v;
    RouteRule.network_type := Pb.RouteRule.network_type v;
    RouteRule.network_is_expensive := Pb.RouteRule.network_is_expensive v;
    RouteRule.network_is_constrained := Pb.RouteRule.network_is_constrained v;
    RouteRule.wifi_ssid := Pb.RouteRule.wifi_ssid v;
    RouteRule.wifi_bssid := Pb.RouteRule.wifi_bssid v;
    RouteRule.default_interface_address := Pb.RouteRule.default_interface_address v;
    RouteRule.preferred_by := Pb.RouteRule.preferred_by v;
    RouteRule.rule_set_ip_cidr_match_source := Pb.RouteRule.rule_set_ip_cidr_match_source v;
    RouteRule.route_options := option_map of_pb_RouteActionOptions (Pb.RouteRule.route_options v);
    RouteRule.direct_options := option_map of_pb_DirectActionOptions (Pb.RouteRule.direct_options v);
    RouteRule.sniff_options := option_map of_pb_SniffActionOptions (Pb.RouteRule.sniff_options v);
    RouteRule.resolve_options := option_map of_pb_ResolveActionOptions (Pb.RouteRule.resolve_options v)
  |}.

Fixpoint to_pb_RouteRule (v : RouteRule.t) : Pb.RouteRule.t :=
  {|
    Pb.RouteRule.type_ := RouteRule.kind v;
    Pb.RouteRule.inbound := RouteRule.inbound v;
    Pb.RouteRule.network := RouteRule.network v;
    Pb.RouteRule.ip_version := RouteRule.ip_version v;
    Pb.RouteRule.domain := RouteRule.domain v;
    Pb.RouteRule.domain_suffix := RouteRule.domain_suffix v;
    Pb.RouteRule.domain_keyword := RouteRule.domain_keyword v;
    Pb.RouteRule.domain_regex := RouteRule.domain_regex v;
    Pb.RouteRule.source_ip_cidr := RouteRule.source_ip_cidr v;
    Pb.RouteRule.ip_cidr := RouteRule.ip_cidr v;
    Pb.RouteRule.source_ip_is_private := RouteRule.source_ip_is_private v;
    Pb.RouteRule.ip_is_private := RouteRule.ip_is_private v;
    Pb.RouteRule.port := RouteRule.port v;
    Pb.RouteRule.port_range := RouteRule.port_range v;
    Pb.RouteRule.source_port_range := RouteRule.source_port_range v;
    Pb.RouteRule.protocol := RouteRule.protocol v;
    Pb.RouteRule.rule_set := RouteRule.rule_set v;
    Pb.RouteRule.invert := RouteRule.invert v;
    Pb.RouteRule.action := RouteRule.action v;
    Pb.RouteRule.outbound := RouteRule.outbound v;
    Pb.RouteRule.method := RouteRule.method v;
    Pb.RouteRule.no_drop := RouteRule.no_drop v;
    Pb.RouteRule.mode := RouteRule.mode v;
    Pb.RouteRule.rules := List.map to_pb_RouteRule (RouteRule.rules v);
    Pb.RouteRule.auth_user := RouteRule.auth_user v;
    Pb.RouteRule.client := RouteRule.client v;
    Pb.RouteRule.geosite := RouteRule.geosite v;
    Pb.RouteRule.source_geoip := RouteRule.source_geoip v;
    Pb.RouteRule.geoip := RouteRule.geoip v;
    Pb.RouteRule.source_port := RouteRule.source_port v;
    Pb.RouteRule.process_name := RouteRule.process_name v;
    Pb.RouteRule.process_path := RouteRule.process_path v;
    Pb.RouteRule.process_path_regex := RouteRule.process_path_regex v;
    Pb.RouteRule.package_name := RouteRule.package_name v;
    Pb.RouteRule.user := RouteRule.user v;
    Pb.RouteRule.user_id := RouteRule.user_id v;
    Pb.RouteRule.clash_mode := RouteRule.clash_mode v;
    Pb.RouteRule.network_type := RouteRule.network_type v;
    Pb.RouteRule.network_is_expensive := RouteRule.network_is_expensive v;
    Pb.RouteRule.network_is_constrained := RouteRule.network_is_constrained v;
    Pb.RouteRule.wifi_ssid := RouteRule.wifi_ssid v;
    Pb.RouteRule.wifi_bssid := RouteRule.wifi_bssid v;
    Pb.RouteRule.default_interface_address := RouteRule.default_interface_address v;
    Pb.RouteRule.preferred_by := RouteRule.preferred_by v;
    Pb.RouteRule.rule_set_ip_cidr_match_source := RouteRule.rule_set_ip_cidr_match_source v;
    Pb.RouteRule.route_options := option_map to_pb_RouteActionOptions (RouteRule.route_options v);
    Pb.RouteRule.direct_options := option_map to_pb_DirectActionOptions (RouteRule.direct_options v);
    Pb.RouteRule.sniff_options := option_map to_pb_SniffActionOptions (RouteRule.sniff_options v);
    Pb.RouteRule.resolve_options := option_map to_pb_ResolveActionOptions (RouteRule.resolve_options v)
  |}.

Fixpoint of_pb_HeadlessRule (v : Pb.HeadlessRule.t) : HeadlessRule.t :=
  {|
    HeadlessRule.kind := Pb.HeadlessRule.type_ v;
    HeadlessRule.network := Pb.HeadlessRule.network v;
    HeadlessRule.domain := Pb.HeadlessRule.domain v;
    HeadlessRule.domain_suffix := Pb.HeadlessRule.domain_suffix v;
    HeadlessRule.domain_keyword := Pb.HeadlessRule.domain_keyword v;
    HeadlessRule.domain_regex := Pb.HeadlessRule.domain_regex v;
    HeadlessRule.source_ip_cidr := Pb.HeadlessRule.source_ip_cidr v;
    HeadlessRule.ip_cidr := Pb.HeadlessRule.ip_cidr v;
    HeadlessRule.source_port := Pb.HeadlessRule.source_port v;
    HeadlessRule.source_port_range := Pb.HeadlessRule.source_port_range v;
    HeadlessRule.port := Pb.HeadlessRule.port v;
    HeadlessRule.port_range := Pb.HeadlessRule.port_range v;
    HeadlessRule.process_name := Pb.HeadlessRule.process_name v;
    HeadlessRule.process_path := Pb.HeadlessRule.process_path v;
    HeadlessRule.process_path_regex := Pb.HeadlessRule.process_path_regex v;
    HeadlessRule.package_name := Pb.HeadlessRule.package_name v;
    HeadlessRule.network_type := Pb.HeadlessRule.network_type v;
    HeadlessRule.network_is_expensive := Pb.HeadlessRule.network_is_expensive v;
    HeadlessRule.network_is_constrained := Pb.HeadlessRule.network_is_constrained v;
    HeadlessRule.wifi_ssid := Pb.HeadlessRule.wifi_ssid v;
    HeadlessRule.wifi_bssid := Pb.HeadlessRule.wifi_bssid v;
    HeadlessRule.default_interface_address := Pb.HeadlessRule.default_interface_address v;
    HeadlessRule.invert := Pb.HeadlessRule.invert v;
    HeadlessRule.mode := Pb.HeadlessRule.mode v;
    HeadlessRule.rules := List.map of_pb_HeadlessRule (Pb.HeadlessRule.rules v)
  |}.

Fixpoint to_pb_HeadlessRule (v : HeadlessRule.t) : Pb.HeadlessRule.t :=
  {|
    Pb.HeadlessRule.type_ := HeadlessRule.kind v;
    Pb.HeadlessRule.network := HeadlessRule.network v;
    Pb.HeadlessRule.domain := HeadlessRule.domain v;
    Pb.HeadlessRule.domain_suffix := HeadlessRule.domain_suffix v;
    Pb.HeadlessRule.domain_keyword := HeadlessRule.domain_keyword v;
    Pb.HeadlessRule.domain_regex := HeadlessRule.domain_regex v;
    Pb.HeadlessRule.source_ip_cidr := HeadlessRule.source_ip_cidr v;
    Pb.HeadlessRule.ip_cidr := HeadlessRule.ip_cidr v;
    Pb.HeadlessRule.source_port := HeadlessRule.source_port v;
    Pb.HeadlessRule.source_port_range := HeadlessRule.source_port_range v;
    Pb.HeadlessRule.port := HeadlessRule.port v;
    Pb.HeadlessRule.port_range := HeadlessRule.port_range v;
    Pb.HeadlessRule.process_name := HeadlessRule.process_name v;
    Pb.HeadlessRule.process_path := HeadlessRule.process_path v;
    Pb.HeadlessRule.process_path_regex := HeadlessRule.process_path_regex v;
    Pb.HeadlessRule.package_name := HeadlessRule.package_name v;
    Pb.HeadlessRule.network_type := HeadlessRule.network_type v;
    Pb.HeadlessRule.network_is_expensive := HeadlessRule.network_is_expensive v;
    Pb.HeadlessRule.network_is_constrained := HeadlessRule.network_is_constrained v;
    Pb.HeadlessRule.wifi_ssid := HeadlessRule.wifi_ssid v;
    Pb.HeadlessRule.wifi_bssid := HeadlessRule.wifi_bssid v;
    Pb.HeadlessRule.default_interface_address := HeadlessRule.default_interface_address v;
    Pb.HeadlessRule.invert := HeadlessRule.invert v;
    Pb.HeadlessRule.mode := HeadlessRule.mode v;
    Pb.HeadlessRule.rules := List.map to_pb_HeadlessRule (HeadlessRule.rules v)
  |}.

Definition of_pb_RouteRuleSet (v : Pb.RouteRuleSet.t) : RouteRuleSet.t :=
  {|
    RouteRuleSet.kind := Pb.RouteRuleSet.type_ v;
    RouteRuleSet.tag := Pb.RouteRuleSet.tag v;
    RouteRuleSet.format := Pb.RouteRuleSet.format v;
    RouteRuleSet.path := Pb.RouteRuleSet.path v;
    RouteRuleSet.url := Pb.RouteRuleSet.url v;
    RouteRuleSet.download_detour := Pb.RouteRuleSet.download_detour v;
    RouteRuleSet.update_interval := Pb.RouteRuleSet.update_interval v;
    RouteRuleSet.rules := List.map of_pb_HeadlessRule (Pb.RouteRuleSet.rules v)
  |}.

Definition to_pb_RouteRuleSet (v : RouteRuleSet.t) : Pb.RouteRuleSet.t :=
  {|
    Pb.RouteRuleSet.type_ := RouteRuleSet.kind v;
    Pb.RouteRuleSet.tag := RouteRuleSet.tag v;
    Pb.RouteRuleSet.format := RouteRuleSet.format v;
    Pb.RouteRuleSet.path := RouteRuleSet.path v;
    Pb.RouteRuleSet.url := RouteRuleSet.url v;
    Pb.RouteRuleSet.download_detour := RouteRuleSet.download_detour v;
    Pb.RouteRuleSet.update_interval := RouteRuleSet.update_interval v;
    Pb.RouteRuleSet.rules := List.map to_pb_HeadlessRule (RouteRuleSet.rules v)
  |}.

Definition of_pb_GeoIpOptions (v : Pb.GeoIpOptions.t) : GeoIpOptions.t :=
  {|
    GeoIpOptions.path := Pb.GeoIpOptions.path v;
    GeoIpOptions.download_url := Pb.GeoIpOptions.download_url v;
    GeoIpOptions.download_detour := Pb.GeoIpOptions.download_detour v
  |}.

Definition to_pb_GeoIpOptions (v : GeoIpOptions.t) : Pb.GeoIpOptions.t :=
  {|
    Pb.GeoIpOptions.path := GeoIpOptions.path v;
    Pb.GeoIpOptions.download_url := GeoIpOptions.download_url v;
    Pb.GeoIpOptions.download_detour := GeoIpOptions.download_detour v
  |}.

Definition of_pb_GeositeOptions (v : Pb.GeositeOptions.t) : GeositeOptions.t :=
  {|
    GeositeOptions.path := Pb.GeositeOptions.path v;
    GeositeOptions.download_url := Pb.GeositeOptions.download_url v;
    GeositeOptions.download_detour := Pb.GeositeOptions.download_detour v
  |}.

Definition to_pb_GeositeOptions (v : GeositeOptions.t) : Pb.GeositeOptions.t :=
  {|
    Pb.GeositeOptions.path := GeositeOptions.path v;
    Pb.GeositeOptions.download_url := GeositeOptions.download_url v;
    Pb.GeositeOptions.download_detour := GeositeOptions.download_detour v
  |}.

Definition of_pb_Outbound (v : Pb.OutboundConfig.t) : Outbound.t :=
  {|
    Outbound.kind := Pb.OutboundConfig.type_ v;
    Outbound.tag := Pb.OutboundConfig.tag v;
    Outbound.options := Pb.OutboundConfig.options_json v
  |}.

Definition to_pb_Outbound (v : Outbound.t) : Pb.OutboundConfig.t :=
  {|
    Pb.OutboundConfig.type_ := Outbound.kind v;
    Pb.OutboundConfig.tag := Outbound.tag v;
    Pb.OutboundConfig.options_json := Outbound.options v
  |}.

Definition of_pb_DnsServer (v : Pb.DnsServer.t) : DnsServer.t :=
  {|
    DnsServer.kind := Pb.DnsServer.type_ v;
    DnsServer.tag := Pb.DnsServer.tag v;
    DnsServer.server := Pb.DnsServer.server v;
    DnsServer.detour := Pb.DnsServer.detour v
  |}.

Definition to_pb_DnsServer (v : DnsServer.t) : Pb.DnsServer.t :=
  {|
    Pb.DnsServer.type_ := DnsServer.kind v;
    Pb.DnsServer.tag := DnsServer.tag v;
    Pb.DnsServer.server := DnsServer.server v;
    Pb.DnsServer.detour := DnsServer.detour v
  |}.

Definition of_pb_DnsRule (v : Pb.DnsRule.t) : DnsRule.t :=
  {|
    DnsRule.inbound := Pb.DnsRule.inbound v;
    DnsRule.domain := Pb.DnsRule.domain v;
    DnsRule.domain_suffix := Pb.DnsRule.domain_suffix v;
    DnsRule.domain_keyword := Pb.DnsRule.domain_keyword v;
    DnsRule.domain_regex := Pb.DnsRule.domain_regex v;
    DnsRule.rule_set := Pb.DnsRule.rule_set v;
    DnsRule.action := Pb.DnsRule.action v;
    DnsRule.rcode := Pb.DnsRule.rcode v;
    DnsRule.server := Pb.DnsRule.server v;
    DnsRule.method := Pb.DnsRule.method v;
    DnsRule.no_drop := Pb.DnsRule.no_drop v;
    DnsRule.answer := Pb.DnsRule.answer v;
    DnsRule.ns := Pb.DnsRule.ns v;
    DnsRule.extra := Pb.DnsRule.extra v;
    DnsRule.disable_cache := Pb.DnsRule.disable_cache v;
    DnsRule.rewrite_ttl := Pb.DnsRule.rewrite_ttl v;
    DnsRule.timeout := Pb.DnsRule.timeout v;
    DnsRule.client_subnet := Pb.DnsRule.client_subnet v
  |}.

Definition to_pb_DnsRule (v : DnsRule.t) : Pb.DnsRule.t :=
  {|
    Pb.DnsRule.inbound := DnsRule.inbound v;
    Pb.DnsRule.domain := DnsRule.domain v;
    Pb.DnsRule.domain_suffix := DnsRule.domain_suffix v;
    Pb.DnsRule.domain_keyword := DnsRule.domain_keyword v;
    Pb.DnsRule.domain_regex := DnsRule.domain_regex v;
    Pb.DnsRule.rule_set := DnsRule.rule_set v;
    Pb.DnsRule.action := DnsRule.action v;
    Pb.DnsRule.rcode := DnsRule.rcode v;
    Pb.DnsRule.server := DnsRule.server v;
    Pb.DnsRule.method := DnsRule.method v;
    Pb.DnsRule.no_drop := DnsRule.no_drop v;
    Pb.DnsRule.answer := DnsRule.answer v;
    Pb.DnsRule.ns := DnsRule.ns v;
    Pb.DnsRule.extra := DnsRule.extra v;
    Pb.DnsRule.disable_cache := DnsRule.disable_cache v;
    Pb.DnsRule.rewrite_ttl := DnsRule.rewrite_ttl v;
    Pb.DnsRule.timeout := DnsRule.timeout v;
    Pb.DnsRule.client_subnet := DnsRule.client_subnet v
  |}.

Definition of_pb_Dns (v : Pb.DnsConfig.t) : Dns.t :=
  {|
    Dns.rules := List.map of_pb_DnsRule (Pb.DnsConfig.rules v);
    Dns.servers := List.map of_pb_DnsServer (Pb.DnsConfig.servers v);
    Dns.final_ := Pb.DnsConfig.final_ v
  |}.

Definition to_pb_Dns (v : Dns.t) : Pb.DnsConfig.t :=
  {|
    Pb.DnsConfig.rules := List.map to_pb_DnsRule (Dns.rules v);
    Pb.DnsConfig.servers := List.map to_pb_DnsServer (Dns.servers v);
    Pb.DnsConfig.final_ := Dns.final_ v
  |}.

Definition of_pb_Route (v : Pb.RouteConfig.t) : Route.t :=
  {|
    Route.rules := List.map of_pb_RouteRule (Pb.RouteConfig.rules v);
    Route.rule_sets := List.map of_pb_RouteRuleSet (Pb.RouteConfig.rule_sets v);
    Route.final_ := Pb.RouteConfig.final_ v;
    Route.auto_detect_interface := Pb.RouteConfig.auto_detect_interface v;
    Route.default_interface := Pb.RouteConfig.default_interface v;
    Route.default_mark := Pb.RouteConfig.default_mark v;
    Route.find_process := Pb.RouteConfig.find_process v;
    Route.geoip := option_map of_pb_GeoIpOptions (Pb.RouteConfig.geoip v);
    Route.geosite := option_map of_pb_GeositeOptions (Pb.RouteConfig.geosite v);
    Route.override_android_vpn := Pb.RouteConfig.override_android_vpn v;
    Route.default_domain_resolver := option_map of_pb_DomainResolveOptions (Pb.RouteConfig.default_domain_resolver v);
    Route.default_network_strategy := Pb.RouteConfig.default_network_strategy v;
    Route.default_network_type := Pb.RouteConfig.default_network_type v;
    Route.default_fallback_network_type := Pb.RouteConfig.default_fallback_network_type v;
    Route.default_fallback_delay := Pb.RouteConfig.default_fallback_delay v
  |}.

Definition to_pb_Route (v : Route.t) : Pb.RouteConfig.t :=
  {|
    Pb.RouteConfig.rules := List.map to_pb_RouteRule (Route.rules v);
    Pb.RouteConfig.rule_sets := List.map to_pb_RouteRuleSet (Route.rule_sets v);
    Pb.RouteConfig.final_ := Route.final_ v;
    Pb.RouteConfig.auto_detect_interface := Route.auto_detect_interface v;
    Pb.RouteConfig.default_interface := Route.default_interface v;
    Pb.RouteConfig.default_mark := Route.default_mark v;
    Pb.RouteConfig.find_process := Route.find_process v;
    Pb.RouteConfig.geoip := option_map to_pb_GeoIpOptions (Route.geoip v);
    Pb.RouteConfig.geosite := option_map to_pb_GeositeOptions (Route.geosite v);
    Pb.RouteConfig.override_android_vpn := Route.override_android_vpn v;
    Pb.RouteConfig.default_domain_resolver := option_map to_pb_DomainResolveOptions (Route.default_domain_resolver v);
    Pb.RouteConfig.default_network_strategy := Route.default_network_strategy v;
    Pb.RouteConfig.default_network_type := Route.default_network_type v;
    Pb.RouteConfig.default_fallback_network_type := Route.default_fallback_network_type v;
    Pb.RouteConfig.default_fallback_delay := Route.default_fallback_delay v
  |}.

(** ** Users and nodes *)

(** [pb::UserStatus::try_from(status).unwrap_or(Unspecified) == Disabled] *)
Definition wire_disabled (status : Z) : bool :=
  bool_decide (default Pb.UserStatus.Unspecified (Pb.UserStatus.try_from status)
               = Pb.UserStatus.Disabled).

Definition of_pb_UserCredential (user : Pb.UserCredential.t) : UserCredential.t :=
  {|
    UserCredential.user_id := Pb.UserCredential.user_id user;
    UserCredential.name := Pb.UserCredential.name user;
    UserCredential.credential := Pb.UserCredential.credential user;
    UserCredential.status :=
      if wire_disabled (Pb.UserCredential.status user) then "disabled" else "";
    UserCredential.upload_speed_limit_bps := Pb.UserCredential.upload_speed_limit_bps user;
    UserCredential.download_speed_limit_bps := Pb.UserCredential.download_speed_limit_bps user
  |}.

Definition to_pb_UserCredential (user : UserCredential.t) : Pb.UserCredential.t :=
  {|
    Pb.UserCredential.user_id := UserCredential.user_id user;
    Pb.UserCredential.name := UserCredential.name user;
    Pb.UserCredential.credential := UserCredential.credential user;
    Pb.UserCredential.status :=
      if bool_decide (UserCredential.status user = "disabled")
      then Pb.UserStatus.number Pb.UserStatus.Disabled
      else Pb.UserStatus.number Pb.UserStatus.Active;
    Pb.UserCredential.upload_speed_limit_bps := UserCredential.upload_speed_limit_bps user;
    Pb.UserCredential.download_speed_limit_bps := UserCredential.download_speed_limit_bps user
  |}.

Definition of_pb_NodeConfig (node : Pb.NodeConfig.t) : NodeInstance.t :=
  {|
    NodeInstance.node_id := Pb.NodeConfig.node_id node;
    NodeInstance.provider_id := Pb.NodeConfig.provider_id node;
    NodeInstance.provider_config_version := Pb.NodeConfig.provider_config_version node;
    NodeInstance.provider_config := Pb.NodeConfig.provider_config_json node;
    NodeInstance.users := []
  |}.

Definition of_pb_NodeTopology (node : Pb.NodeTopology.t) : NodeInstance.t :=
  {|
    NodeInstance.node_id := Pb.NodeTopology.node_id node;
    NodeInstance.provider_id := Pb.NodeTopology.provider_id node;
    NodeInstance.provider_config_version := Pb.NodeTopology.provider_config_version node;
    NodeInstance.provider_config := Pb.NodeTopology.provider_config_json node;
    NodeInstance.users := List.map of_pb_UserCredential (Pb.NodeTopology.users node)
  |}.

Definition to_pb_NodeTopology (node : NodeInstance.t) : Pb.NodeTopology.t :=
  {|
    Pb.NodeTopology.node_id := NodeInstance.node_id node;
    Pb.NodeTopology.provider_id := NodeInstance.provider_id node;
    Pb.NodeTopology.provider_config_version := NodeInstance.provider_config_version node;
    Pb.NodeTopology.provider_config_json := NodeInstance.provider_config node;
    Pb.NodeTopology.users := List.map to_pb_UserCredential (NodeInstance.users node);
    Pb.NodeTopology.traffic_analysis := None
  |}.

(** ** Whole topologies *)

Definition default_machine (default_machine_id : string) (t : MachineTopology.t) : MachineTopology.t :=
  if is_empty (MachineTopology.machine_id t) then MT.set_machine_id default_machine_id t else t.

Definition snapshot_of_machine_config (config : Pb.MachineConfig.t) : Pb.TopologySnapshot.t :=
  {|
    Pb.TopologySnapshot.machine_id := Pb.MachineConfig.machine_id config;
    Pb.TopologySnapshot.revision := Pb.MachineConfig.revision config;
    Pb.TopologySnapshot.nodes :=
      List.map (fun node => {|
        Pb.NodeTopology.node_id := Pb.NodeConfig.node_id node;
        Pb.NodeTopology.provider_id := Pb.NodeConfig.provider_id node;
        Pb.NodeTopology.provider_config_version := Pb.NodeConfig.provider_config_version node;
        Pb.NodeTopology.provider_config_json := Pb.NodeConfig.provider_config_json node;
        Pb.NodeTopology.users := [];
        Pb.NodeTopology.traffic_analysis := Pb.NodeConfig.traffic_analysis node
      |}) (Pb.MachineConfig.nodes config);
    Pb.TopologySnapshot.outbounds := Pb.MachineConfig.outbounds config;
    Pb.TopologySnapshot.route := Pb.MachineConfig.route config;
    Pb.TopologySnapshot.dns := Pb.MachineConfig.dns config
  |}.

Definition from_machine_config (default_machine_id : string)
    (config : option Pb.MachineConfig.t) : MachineTopology.t :=
  match config with
  | None => MT.set_machine_id default_machine_id MT.default
  | Some config =>
      default_machine default_machine_id {|
        MachineTopology.machine_id := Pb.MachineConfig.machine_id config;
        MachineTopology.revision := Pb.MachineConfig.revision config;
        MachineTopology.nodes := List.map of_pb_NodeConfig (Pb.MachineConfig.nodes config);
        MachineTopology.outbounds := List.map of_pb_Outbound (Pb.MachineConfig.outbounds config);
        MachineTopology.route := option_map of_pb_Route (Pb.MachineConfig.route config);
        MachineTopology.dns := option_map of_pb_Dns (Pb.MachineConfig.dns config);
        MachineTopology.snapshot := Some (snapshot_of_machine_config config)
      |}
  end.

Definition from_snapshot (default_machine_id : string)
    (snapshot : option Pb.TopologySnapshot.t) : MachineTopology.t :=
  match snapshot with
  | None => MT.set_machine_id default_machine_id MT.default
  | Some snapshot =>
      default_machine default_machine_id {|
        MachineTopology.machine_id := Pb.TopologySnapshot.machine_id snapshot;
        MachineTopology.revision := Pb.TopologySnapshot.revision snapshot;
        MachineTopology.nodes := List.map of_pb_NodeTopology (Pb.TopologySnapshot.nodes snapshot);
        MachineTopology.outbounds := List.map of_pb_Outbound (Pb.TopologySnapshot.outbounds snapshot);
        MachineTopology.route := option_map of_pb_Route (Pb.TopologySnapshot.route snapshot);
        MachineTopology.dns := option_map of_pb_Dns (Pb.TopologySnapshot.dns snapshot);
        MachineTopology.snapshot := Some snapshot
      |}
  end.

Definition to_snapshot (topology : MachineTopology.t) : Pb.TopologySnapshot.t :=
  {|
    Pb.TopologySnapshot.machine_id := MachineTopology.machine_id topology;
    Pb.TopologySnapshot.revision := MachineTopology.revision topology;
    Pb.TopologySnapshot.nodes := List.map to_pb_NodeTopology (MachineTopology.nodes topology);
    Pb.TopologySnapshot.outbounds := List.map to_pb_Outbound (MachineTopology.outbounds topology);
    Pb.TopologySnapshot.route := option_map to_pb_Route (MachineTopology.route topology);
    Pb.TopologySnapshot.dns := option_map to_pb_Dns (MachineTopology.dns topology)
  |}.

(** ** Mutation of the retained snapshot *)

Definition pb_node_is (id : string) (n : Pb.NodeTopology.t) : bool :=
  bool_decide (Pb.NodeTopology.node_id n = id).
Definition node_is (id : string) (n : NodeInstance.t) : bool :=
  bool_decide (NodeInstance.node_id n = id).
Definition pb_user_is (id : string) (u : Pb.UserCredential.t) : bool :=
  bool_decide (Pb.UserCredential.user_id u = id).
Definition user_is (id : string) (u : UserCredential.t) : bool :=
  bool_decide (UserCredential.user_id u = id).

(** [let Some(snapshot) = topology.snapshot.as_mut() else { return };] *)
Definition with_snapshot (f : Pb.TopologySnapshot.t -> Pb.TopologySnapshot.t)
    (t : MachineTopology.t) : MachineTopology.t :=
  match MachineTopology.snapshot t with
  | None => t
  | Some s => MT.set_snapshot (Some (f s)) t
  end.

Definition replace_node_users (topology : MachineTopology.t) (node_id : string)
    (users : list UserCredential.t) : MachineTopology.t :=
  with_snapshot (fun snapshot =>
    SN.set_nodes
      (update_first (pb_node_is node_id)
         (pb_node_set_users (List.map to_pb_UserCredential users))
         (Pb.TopologySnapshot.nodes snapshot)) snapshot) topology.

(** [MutationOperation::try_from(op).unwrap_or(Unspecified)] *)
Definition operation_of (op : Z) : Pb.MutationOperation.t :=
  default Pb.MutationOperation.Unspecified (Pb.MutationOperation.try_from op).

Definition removes (op : Pb.MutationOperation.t) : bool :=
  match op with
  | Pb.MutationOperation.Delete | Pb.MutationOperation.Disable => true
  | Pb.MutationOperation.Unspecified | Pb.MutationOperation.Upsert => false
  end.

(** The node a mutation addresses: its own id, else the id of its payload. *)
Definition mutation_node_id (mutation : Pb.NodeMutation.t) : string :=
  if is_empty (Pb.NodeMutation.node_id mutation)
  then from_option Pb.NodeTopology.node_id "" (Pb.NodeMutation.node mutation)
  else Pb.NodeMutation.node_id mutation.

Definition apply_node_mutation_to_snapshot (topology : MachineTopology.t)
    (mutation : Pb.NodeMutation.t) : MachineTopology.t :=
  with_snapshot (fun snapshot =>
    let node_id := mutation_node_id mutation in
    if is_empty node_id then snapshot
    else
      let nodes := Pb.TopologySnapshot.nodes snapshot in
      if removes (operation_of (Pb.NodeMutation.operation mutation))
      then SN.set_nodes (retain (fun node => negb (pb_node_is node_id node)) nodes) snapshot
      else
        let replacement :=
          match Pb.NodeMutation.node mutation with
          | Some node => node
          | None => pb_node_set_node_id node_id pb_node_default
          end in
        let replacement :=
          if is_empty (Pb.NodeTopology.node_id replacement)
          then pb_node_set_node_id node_id replacement else replacement in
        SN.set_nodes (upsert_first (pb_node_is node_id) replacement nodes) snapshot)
    topology.

Definition apply_user_mutation_to_snapshot (topology : MachineTopology.t)
    (mutation : Pb.UserMutation.t) : MachineTopology.t :=
  with_snapshot (fun snapshot =>
    let nodes := Pb.TopologySnapshot.nodes snapshot in
    let this := pb_node_is (Pb.UserMutation.node_id mutation) in
    match find_first this nodes, Pb.UserMutation.user mutation with
    | Some _, Some user =>
        let user_id := Pb.UserCredential.user_id user in
        let operation := operation_of (Pb.UserMutation.operation mutation) in
        let disabled := wire_disabled (Pb.UserCredential.status user) in
        let edit (users : list Pb.UserCredential.t) :=
          if removes operation || disabled
          then retain (fun candidate => negb (pb_user_is user_id candidate)) users
          else upsert_first (pb_user_is user_id) user users in
        SN.set_nodes
          (update_first this (fun node => pb_node_set_users (edit (Pb.NodeTopology.users node)) node)
             nodes) snapshot
    | _, _ => snapshot
    end) topology.

Definition apply_route_patch_to_snapshot (topology : MachineTopology.t)
    (patch : Pb.TopologyRoutePatch.t) : MachineTopology.t :=
  with_snapshot (fun snapshot => {|
    Pb.TopologySnapshot.machine_id :=
      if is_empty (Pb.TopologyRoutePatch.machine_id patch)
      then Pb.TopologySnapshot.machine_id snapshot
      else Pb.TopologyRoutePatch.machine_id patch;
    Pb.TopologySnapshot.revision := Pb.TopologyRoutePatch.revision patch;
    Pb.TopologySnapshot.nodes := Pb.TopologySnapshot.nodes snapshot;
    Pb.TopologySnapshot.outbounds := Pb.TopologyRoutePatch.outbounds patch;
    Pb.TopologySnapshot.route := Pb.TopologyRoutePatch.route patch;
    Pb.TopologySnapshot.dns := Pb.TopologyRoutePatch.dns patch
  |}) topology.

(** ** Round trips *)

(** Case analysis on the structs, for round trips of flat records. *)
Ltac round_trip :=
  intros [];
  match goal with |- ?f (?g _) = _ => unfold f, g end;
  cbn -[option_map List.map]; f_equal;
  repeat match goal with
  | |- option_map _ (option_map _ ?o) = ?o => destruct o; cbn [option_map]; [f_equal|done]
  end; auto with node.

Lemma map_map_id {A B} (f : A -> B) (g : B -> A) l :
  Forall (fun x => g (f x) = x) l -> List.map g (List.map f l) = l.
Proof. induction 1 as [|x l Hx _ IH]; cbn; [done|]. by rewrite Hx, IH. Qed.

Lemma DomainResolveOptions_round v : to_pb_DomainResolveOptions (of_pb_DomainResolveOptions v) = v.
Proof. by destruct v. Qed.
Lemma DomainResolveOptions_round' v : of_pb_DomainResolveOptions (to_pb_DomainResolveOptions v) = v.
Proof. by destruct v. Qed.
Lemma RouteActionOptions_round v : to_pb_RouteActionOptions (of_pb_RouteActionOptions v) = v.
Proof. by destruct v. Qed.
Lemma RouteActionOptions_round' v : of_pb_RouteActionOptions (to_pb_RouteActionOptions v) = v.
Proof. by destruct v. Qed.
Lemma SniffActionOptions_round v : to_pb_SniffActionOptions (of_pb_SniffActionOptions v) = v.
Proof. by destruct v. Qed.
Lemma SniffActionOptions_round' v : of_pb_SniffActionOptions (to_pb_SniffActionOptions v) = v.
Proof. by destruct v. Qed.
Lemma ResolveActionOptions_round v : to_pb_ResolveActionOptions (of_pb_ResolveActionOptions v) = v.
Proof. by destruct v. Qed.
Lemma ResolveActionOptions_round' v : of_pb_ResolveActionOptions (to_pb_ResolveActionOptions v) = v.
Proof. by destruct v. Qed.
Lemma GeoIpOptions_round v : to_pb_GeoIpOptions (of_pb_GeoIpOptions v) = v.
Proof. by destruct v. Qed.
Lemma GeoIpOptions_round' v : of_pb_GeoIpOptions (to_pb_GeoIpOptions v) = v.
Proof. by destruct v. Qed.
Lemma GeositeOptions_round v : to_pb_GeositeOptions (of_pb_GeositeOptions v) = v.
Proof. by destruct v. Qed.
Lemma GeositeOptions_round' v : of_pb_GeositeOptions (to_pb_GeositeOptions v) = v.
Proof. by destruct v. Qed.
Lemma Outbound_round v : to_pb_Outbound (of_pb_Outbound v) = v.
Proof. by destruct v. Qed.
Lemma Outbound_round' v : of_pb_Outbound (to_pb_Outbound v) = v.
Proof. by destruct v. Qed.
Lemma DnsServer_round v : to_pb_DnsServer (of_pb_DnsServer v) = v.
Proof. by destruct v. Qed.
Lemma DnsServer_round' v : of_pb_DnsServer (to_pb_DnsServer v) = v.
Proof. by destruct v. Qed.
Lemma DnsRule_round v : to_pb_DnsRule (of_pb_DnsRule v) = v.
Proof. by destruct v. Qed.
Lemma DnsRule_round' v : of_pb_DnsRule (to_pb_DnsRule v) = v.
Proof. by destruct v. Qed.

#[export] Hint Resolve DomainResolveOptions_round DomainResolveOptions_round'
  RouteActionOptions_round RouteActionOptions_round'
  SniffActionOptions_round SniffActionOptions_round'
  ResolveActionOptions_round ResolveActionOptions_round'
  GeoIpOptions_round GeoIpOptions_round' GeositeOptions_round GeositeOptions_round'
  Outbound_round Outbound_round' DnsServer_round DnsServer_round'
  DnsRule_round DnsRule_round' : node.

Lemma DirectActionOptions_round v : to_pb_DirectActionOptions (of_pb_DirectActionOptions v) = v.
Proof. revert v. round_trip. Qed.
Lemma DirectActionOptions_round' v : of_pb_DirectActionOptions (to_pb_DirectActionOptions v) = v.
Proof. revert v. round_trip. Qed.
#[export] Hint Resolve DirectActionOptions_round DirectActionOptions_round' : node.

(** Structural induction over a rule tree. *)
Section rule_ind.
Lemma pb_rule_ind (Q : Pb.RouteRule.t -> Prop) :
  (forall v, Forall Q (Pb.RouteRule.rules v) -> Q v) -> forall v, Q v.
Proof.
  intros H. fix IH 1. intros v. apply H. destruct v as [].
  cbn. induction rules as [|r rs IHrs]; constructor; [apply IH|apply IHrs].
Qed.

Lemma rule_ind (Q : RouteRule.t -> Prop) :
  (forall v, Forall Q (RouteRule.rules v) -> Q v) -> forall v, Q v.
Proof.
  intros H. fix IH 1. intros v. apply H. destruct v as [].
  cbn. induction rules as [|r rs IHrs]; constructor; [apply IH|apply IHrs].
Qed.

Lemma pb_headless_ind (Q : Pb.HeadlessRule.t -> Prop) :
  (forall v, Forall Q (Pb.HeadlessRule.rules v) -> Q v) -> forall v, Q v.
Proof.
  intros H. fix IH 1. intros v. apply H. destruct v as [].
  cbn. induction rules as [|r rs IHrs]; constructor; [apply IH|apply IHrs].
Qed.

Lemma headless_ind (Q : HeadlessRule.t -> Prop) :
  (forall v, Forall Q (HeadlessRule.rules v) -> Q v) -> forall v, Q v.
Proof.
  intros H. fix IH 1. intros v. apply H. destruct v as [].
  cbn. induction rules as [|r rs IHrs]; constructor; [apply IH|apply IHrs].
Qed.
End rule_ind.

Ltac rule_round v IH :=
  destruct v; cbn -[option_map List.map] in IH |- *; f_equal;
  repeat match goal with
  | |- option_map _ (option_map _ ?o) = ?o => destruct o; cbn [option_map]; [f_equal|done]
  end; auto using map_map_id with node.

Lemma RouteRule_round v : to_pb_RouteRule (of_pb_RouteRule v) = v.
Proof. induction v as [v IH] using pb_rule_ind. rule_round v IH. Qed.
Lemma RouteRule_round' v : of_pb_RouteRule (to_pb_RouteRule v) = v.
Proof. induction v as [v IH] using rule_ind. rule_round v IH. Qed.
Lemma HeadlessRule_round v : to_pb_HeadlessRule (of_pb_HeadlessRule v) = v.
Proof. induction v as [v IH] using pb_headless_ind. rule_round v IH. Qed.
Lemma HeadlessRule_round' v : of_pb_HeadlessRule (to_pb_HeadlessRule v) = v.
Proof. induction v as [v IH] using headless_ind. rule_round v IH. Qed.

Lemma map_round {A B} (f : A -> B) (g : B -> A) l :
  (forall x, g (f x) = x) -> List.map g (List.map f l) = l.
Proof. intros H. apply map_map_id. by apply Forall_true. Qed.

#[export] Hint Resolve RouteRule_round RouteRule_round' HeadlessRule_round HeadlessRule_round'
  map_round : node.

Lemma RouteRuleSet_round v : to_pb_RouteRuleSet (of_pb_RouteRuleSet v) = v.
Proof. revert v. round_trip. Qed.
Lemma RouteRuleSet_round' v : of_pb_RouteRuleSet (to_pb_RouteRuleSet v) = v.
Proof. revert v. round_trip. Qed.
#[export] Hint Resolve RouteRuleSet_round RouteRuleSet_round' : node.

Lemma Route_round v : to_pb_Route (of_pb_Route v) = v.
Proof. revert v. round_trip. Qed.
Lemma Route_round' v : of_pb_Route (to_pb_Route v) = v.
Proof. revert v. round_trip. Qed.
Lemma Dns_round v : to_pb_Dns (of_pb_Dns v) = v.
Proof. revert v. round_trip. Qed.
Lemma Dns_round' v : of_pb_Dns (to_pb_Dns v) = v.
Proof. revert v. round_trip. Qed.
#[export] Hint Resolve Route_round Route_round' Dns_round Dns_round' : node.

(** The two statuses the agent itself produces. *)
Definition status_canonical (u : UserCredential.t) : Prop :=
  UserCredential.status u = "" \/ UserCredential.status u = "disabled".

Lemma of_pb_user_canonical u : status_canonical (of_pb_UserCredential u).
Proof. unfold status_canonical. cbn. destruct (wire_disabled _); auto. Qed.

Lemma UserCredential_round' u :
  status_canonical u -> of_pb_UserCredential (to_pb_UserCredential u) = u.
Proof. destruct u; unfold status_canonical; cbn. by intros [->| ->]. Qed.

(** What a wire user becomes after a round trip: its status is [Disabled] if it
    was, [Active] otherwise. *)
Definition pb_user_normal (u : Pb.UserCredential.t) : Pb.UserCredential.t :=
  Pb.UserCredential.mk (Pb.UserCredential.user_id u) (Pb.UserCredential.name u)
    (Pb.UserCredential.credential u)
    (if wire_disabled (Pb.UserCredential.status u) then 2 else 1)
    (Pb.UserCredential.upload_speed_limit_bps u) (Pb.UserCredential.download_speed_limit_bps u).

Lemma UserCredential_round u : to_pb_UserCredential (of_pb_UserCredential u) = pb_user_normal u.
Proof.
  destruct u; unfold to_pb_UserCredential, of_pb_UserCredential, pb_user_normal; cbn.
  by destruct (wire_disabled _).
Qed.

(** ** Agreement of a topology with its wire snapshot *)

Record agrees (t : MachineTopology.t) (s : Pb.TopologySnapshot.t) : Prop := {
  agrees_machine : Pb.TopologySnapshot.machine_id s = "" \/
                   Pb.TopologySnapshot.machine_id s = MachineTopology.machine_id t;
  agrees_revision : Pb.TopologySnapshot.revision s = MachineTopology.revision t;
  agrees_nodes : MachineTopology.nodes t
                 = List.map of_pb_NodeTopology (Pb.TopologySnapshot.nodes s);
  agrees_outbounds : MachineTopology.outbounds t
                     = List.map of_pb_Outbound (Pb.TopologySnapshot.outbounds s);
  agrees_route : MachineTopology.route t = option_map of_pb_Route (Pb.TopologySnapshot.route s);
  agrees_dns : MachineTopology.dns t = option_map of_pb_Dns (Pb.TopologySnapshot.dns s)
}.

(** The model of a coherent topology is the image of the snapshot it carries:
    the digest, computed from the snapshot, describes the model. *)
Definition coherent (t : MachineTopology.t) : Prop :=
  forall s, MachineTopology.snapshot t = Some s -> agrees t s.

Lemma coherent_default_machine d t :
  coherent t -> (forall s, MachineTopology.snapshot t = Some s ->
    Pb.TopologySnapshot.machine_id s = MachineTopology.machine_id t) ->
  coherent (default_machine d t).
Proof.
  unfold default_machine. intros H Hid.
  destruct (is_empty (MachineTopology.machine_id t)) eqn:E; [|done].
  apply is_empty_spec in E. intros s Hs. cbn in Hs.
  destruct (H s Hs). split; cbn; try done. left. rewrite (Hid s Hs). done.
Qed.

Lemma coherent_None t : MachineTopology.snapshot t = None -> coherent t.
Proof. unfold coherent. intros -> s. done. Qed.

Lemma coherent_from_snapshot d s : coherent (from_snapshot d s).
Proof.
  destruct s as [s|]; [|by apply coherent_None].
  apply coherent_default_machine.
  - intros s' [= <-]. split; cbn; auto.
  - intros s' [= <-]. done.
Qed.

Lemma coherent_from_machine_config d c : coherent (from_machine_config d c).
Proof.
  destruct c as [c|]; [|by apply coherent_None].
  apply coherent_default_machine.
  - intros s' [= <-]. split; cbn; auto.
    rewrite List.map_map. done.
  - intros s' [= <-]. done.
Qed.

(** Filling in the machine id keeps agreement: an id is only filled in when the
    topology has none. *)
Lemma coherent_set_machine_id d t :
  coherent t -> MachineTopology.machine_id t = "" -> coherent (MT.set_machine_id d t).
Proof.
  intros H E s Hs. cbn in Hs. destruct (H s Hs) as [[Hm|Hm] ?????]; split; cbn; auto.
  left. congruence.
Qed.

(** Rewriting the first node with an id, in the model and in the snapshot. *)
Lemma nodes_update_first id f g l :
  (forall n, of_pb_NodeTopology (g n) = f (of_pb_NodeTopology n)) ->
  List.map of_pb_NodeTopology (update_first (pb_node_is id) g l)
  = update_first (node_is id) f (List.map of_pb_NodeTopology l).
Proof.
  intros H. by apply (update_first_map of_pb_NodeTopology (pb_node_is id) (node_is id) g f).
Qed.

Lemma find_node_map id l :
  find_first (node_is id) (List.map of_pb_NodeTopology l)
  = of_pb_NodeTopology <$> find_first (pb_node_is id) l.
Proof. by apply (find_first_map of_pb_NodeTopology). Qed.

Lemma find_user_map id l :
  find_first (user_is id) (List.map of_pb_UserCredential l)
  = of_pb_UserCredential <$> find_first (pb_user_is id) l.
Proof. by apply (find_first_map of_pb_UserCredential). Qed.

Lemma upsert_first_map {A B} (g : A -> B) (p : A -> bool) (q : B -> bool) x l :
  (forall x, q (g x) = p x) ->
  List.map g (upsert_first p x l) = upsert_first q (g x) (List.map g l).
Proof.
  intros H. unfold upsert_first.
  pose proof (find_first_map g p q l H) as E. change (g <$> l) with (List.map g l) in E.
  rewrite E. destruct (find_first p l); cbn.
  - by apply (update_first_map g p q).
  - by rewrite List.map_app.
Qed.

(** ** Round trips of whole topologies *)

(** The node a wire node becomes: users normalised, analysis settings dropped. *)
Definition pb_node_normal (n : Pb.NodeTopology.t) : Pb.NodeTopology.t :=
  Pb.NodeTopology.mk (Pb.NodeTopology.node_id n) (Pb.NodeTopology.provider_id n)
    (Pb.NodeTopology.provider_config_version n) (Pb.NodeTopology.provider_config_json n)
    (List.map pb_user_normal (Pb.NodeTopology.users n)) None.

Definition snapshot_normal (d : string) (s : Pb.TopologySnapshot.t) : Pb.TopologySnapshot.t :=
  Pb.TopologySnapshot.mk
    (if is_empty (Pb.TopologySnapshot.machine_id s) then d else Pb.TopologySnapshot.machine_id s)
    (Pb.TopologySnapshot.revision s)
    (List.map pb_node_normal (Pb.TopologySnapshot.nodes s))
    (Pb.TopologySnapshot.outbounds s) (Pb.TopologySnapshot.route s) (Pb.TopologySnapshot.dns s).

Lemma to_of_pb_node n : to_pb_NodeTopology (of_pb_NodeTopology n) = pb_node_normal n.
Proof.
  unfold to_pb_NodeTopology, of_pb_NodeTopology, pb_node_normal; cbn. f_equal.
  rewrite List.map_map. apply List.map_ext. apply UserCredential_round.
Qed.

Lemma option_map_round {A B} (f : A -> B) (g : B -> A) o :
  (forall x, g (f x) = x) -> option_map g (option_map f o) = o.
Proof. intros H. destruct o; cbn; [by rewrite H|done]. Qed.

(** C40. A topology built from the panel's snapshot and sent back carries every
    outbound, route rule and DNS rule unchanged, field by field and at every
    nesting depth; the only differences are the user status, normalised to
    active or disabled, the dropped analysis settings and the default machine
    id. *)
Theorem wire_model_wire d s :
  to_snapshot (from_snapshot d (Some s)) = snapshot_normal d s.
Proof.
  unfold from_snapshot, default_machine, snapshot_normal, to_snapshot.
  destruct (is_empty (Pb.TopologySnapshot.machine_id s)) eqn:E; cbn [MachineTopology.machine_id];
    rewrite E; cbn; f_equal;
    rewrite ?List.map_map, ?option_map_round by auto with node; try done;
    try (apply List.map_ext; apply to_of_pb_node);
    (rewrite List.map_ext with (g := id) by (intros; apply Outbound_round); apply List.map_id).
Qed.

Definition node_canonical (n : NodeInstance.t) : Prop :=
  Forall status_canonical (NodeInstance.users n).

Lemma of_to_pb_node n : node_canonical n -> of_pb_NodeTopology (to_pb_NodeTopology n) = n.
Proof.
  intros H. destruct n; unfold to_pb_NodeTopology, of_pb_NodeTopology; cbn. f_equal.
  apply map_map_id. eapply Forall_impl; [apply H|]. apply UserCredential_round'.
Qed.

(** A model whose users carry the two statuses the agent uses survives the trip
    through the wire form exactly. *)
Theorem model_wire_model d t :
  MachineTopology.machine_id t <> "" ->
  Forall node_canonical (MachineTopology.nodes t) ->
  from_snapshot d (Some (to_snapshot t)) = MT.set_snapshot (Some (to_snapshot t)) t.
Proof.
  intros Hid Hn. unfold from_snapshot, default_machine. cbn.
  destruct (is_empty (MachineTopology.machine_id t)) eqn:E.
  { apply is_empty_spec in E. done. }
  unfold MT.set_snapshot. f_equal.
  - apply map_map_id. eapply Forall_impl; [apply Hn|]. apply of_to_pb_node.
  - auto with node.
  - auto using option_map_round with node.
  - auto using option_map_round with node.
Qed.

Definition example_machine : MachineTopology.t :=
  MachineTopology.mk "m" 7
    [NodeInstance.mk "n" "p" 1 "{}" [UserCredential.mk "u" "id" "secret" "disabled" 3 4]]
    [Outbound.mk "direct" "out" "{}"] None None None.

Lemma model_wire_model_witness :
  from_snapshot "other" (Some (to_snapshot example_machine))
  = MT.set_snapshot (Some (to_snapshot example_machine)) example_machine.
Proof.
  apply model_wire_model; [discriminate|].
  apply Forall_singleton, Forall_singleton. by right.
Defined.
