(* ===== verification/Digest.v ===== *)
(** * Topology digest: [crates/acp-proto/src/digest.rs]

    [sum] hashes a normal form of the snapshot: revision zeroed, nodes sorted by
    id, analysis settings dropped, each node's users sorted by id.  The protobuf
    encoder (generated by prost) and SHA-256 (the sha2 crate) are parameters.

    [normalize] is characterised exactly: two snapshots with distinct node and
    user ids have the same normal form iff they describe the same configuration
    up to node order, user order, revision and analysis settings. *)

From Stdlib Require Import ZArith.
From Stdlib Require Permutation.
From S2P Require Import Prelude Bytes Hex Wire Topology.

Definition normalize_node (node : Pb.NodeTopology.t) : Pb.NodeTopology.t :=
  Pb.NodeTopology.mk (Pb.NodeTopology.node_id node) (Pb.NodeTopology.provider_id node)
    (Pb.NodeTopology.provider_config_version node) (Pb.NodeTopology.provider_config_json node)
    (sort_by_key Pb.UserCredential.user_id (Pb.NodeTopology.users node)) None.

Definition normalize (snapshot : Pb.TopologySnapshot.t) : Pb.TopologySnapshot.t :=
  let normalized := SN.set_revision 0 snapshot in
  let normalized :=
    SN.set_nodes (sort_by_key Pb.NodeTopology.node_id (Pb.TopologySnapshot.nodes normalized))
      normalized in
  SN.set_nodes (List.map normalize_node (Pb.TopologySnapshot.nodes normalized)) normalized.

Section digest.
Context (encode_to_vec : Pb.TopologySnapshot.t -> string) (sha256 : string -> string).

Definition sum (snapshot : option Pb.TopologySnapshot.t) : string :=
  Hex.encode (sha256 (encode_to_vec (normalize (default SN.default snapshot)))).
End digest.

(** ** What the digest identifies *)

(** The same node up to the order of its users and its analysis settings. *)
Definition same_node (a b : Pb.NodeTopology.t) : Prop :=
  Pb.NodeTopology.node_id a = Pb.NodeTopology.node_id b /\
  Pb.NodeTopology.provider_id a = Pb.NodeTopology.provider_id b /\
  Pb.NodeTopology.provider_config_version a = Pb.NodeTopology.provider_config_version b /\
  Pb.NodeTopology.provider_config_json a = Pb.NodeTopology.provider_config_json b /\
  Pb.NodeTopology.users a ≡ₚ Pb.NodeTopology.users b.

(** The same configuration up to revision and node order. *)
Definition same_config (a b : Pb.TopologySnapshot.t) : Prop :=
  Pb.TopologySnapshot.machine_id a = Pb.TopologySnapshot.machine_id b /\
  Pb.TopologySnapshot.outbounds a = Pb.TopologySnapshot.outbounds b /\
  Pb.TopologySnapshot.route a = Pb.TopologySnapshot.route b /\
  Pb.TopologySnapshot.dns a = Pb.TopologySnapshot.dns b /\
  exists l, Pb.TopologySnapshot.nodes a ≡ₚ l /\ Forall2 same_node l (Pb.TopologySnapshot.nodes b).

(** Node ids distinct, and user ids distinct within each node: what the panel
    guarantees of a snapshot. *)
Definition distinct_ids (s : Pb.TopologySnapshot.t) : Prop :=
  NoDup (Pb.NodeTopology.node_id <$> Pb.TopologySnapshot.nodes s) /\
  Forall (fun n => NoDup (Pb.UserCredential.user_id <$> Pb.NodeTopology.users n))
    (Pb.TopologySnapshot.nodes s).

Lemma normalize_node_id n :
  Pb.NodeTopology.node_id (normalize_node n) = Pb.NodeTopology.node_id n.
Proof. done. Qed.

Lemma normalize_nodes s :
  Pb.TopologySnapshot.nodes (normalize s)
  = sort_by_key Pb.NodeTopology.node_id (List.map normalize_node (Pb.TopologySnapshot.nodes s)).
Proof. unfold normalize. cbn. by apply sort_by_map. Qed.

Lemma normalize_node_same a b :
  NoDup (Pb.UserCredential.user_id <$> Pb.NodeTopology.users a) ->
  same_node a b -> normalize_node a = normalize_node b.
Proof.
  intros Hnd (H1 & H2 & H3 & H4 & H5). unfold normalize_node. rewrite H1, H2, H3, H4. f_equal.
  by apply sort_by_key_unique.
Qed.

Lemma same_node_normalize a b : normalize_node a = normalize_node b -> same_node a b.
Proof.
  unfold normalize_node, same_node. intros [= H1 H2 H3 H4 H5]. repeat split; try done.
  rewrite <- (sort_by_key_perm Pb.UserCredential.user_id (Pb.NodeTopology.users a)).
  rewrite H5. apply sort_by_key_perm.
Qed.

Lemma normalize_same a b : distinct_ids a -> same_config a b -> normalize a = normalize b.
Proof.
  intros [Hnd Hu] (Hm & Ho & Hr & Hd & l & Hp & Hl).
  assert (Pb.TopologySnapshot.nodes (normalize a) = Pb.TopologySnapshot.nodes (normalize b)) as E.
  { rewrite !normalize_nodes. apply sort_by_key_unique.
    - change (List.map normalize_node ?l) with (normalize_node <$> l).
      by rewrite <- list_fmap_compose.
    - assert (List.map normalize_node l
              = List.map normalize_node (Pb.TopologySnapshot.nodes b)) as <-.
      { rewrite Hp in Hu. clear Hp Hnd. induction Hl as [|x y l1 l2 Hxy Hl IH]; cbn; [done|].
        inv Hu. f_equal; [by apply normalize_node_same|auto]. }
      by rewrite Hp. }
  unfold normalize in *. cbn in *. destruct a, b; cbn in *. unfold SN.set_nodes; cbn. congruence.
Qed.

Lemma Forall2_of_map {A B} (f : A -> B) (R : A -> A -> Prop) l1 l2 :
  (forall x y, f x = f y -> R x y) -> List.map f l1 = List.map f l2 -> Forall2 R l1 l2.
Proof.
  intros HR. revert l2. induction l1 as [|x l1 IH]; intros [|y l2]; cbn; try done.
  intros [= H1 H2]. constructor; auto.
Qed.

Lemma Permutation_Forall2 {A} (R : A -> A -> Prop) l1 l2 l3 :
  Forall2 R l1 l2 -> l2 ≡ₚ l3 -> exists l, l1 ≡ₚ l /\ Forall2 R l l3.
Proof.
  intros H Hp. apply Forall2_flip in H.
  destruct (Permutation.Permutation_Forall2 Hp H) as (l & ? & ?%Forall2_flip). by exists l.
Qed.

Lemma same_normalize a b : normalize a = normalize b -> same_config a b.
Proof.
  unfold normalize, same_config. destruct a, b; cbn. unfold SN.set_nodes, SN.set_revision; cbn.
  intros [= -> Hn -> -> ->]. repeat split; try done.
  apply (Forall2_of_map _ same_node) in Hn; [|apply same_node_normalize].
  destruct (Permutation_Forall2 same_node _ _ _ Hn (sort_by_key_perm _ _)) as (l & Hl & Hf).
  exists l. split; [|done]. rewrite <- Hl. symmetry. apply sort_by_key_perm.
Qed.

(** ** Properties *)

(** The normal form the digest hashes identifies exactly the snapshots that
    describe the same configuration: order of nodes and users, the revision
    and the analysis settings are forgotten, and nothing else is. *)
Theorem normalize_iff a b :
  distinct_ids a -> (normalize a = normalize b <-> same_config a b).
Proof. intros Ha. split; [apply same_normalize|by apply normalize_same]. Qed.

(** Two panels that agree on the configuration agree on the digest string,
    whatever the hash and the encoder are. *)
Theorem sum_same encode sha256 a b :
  distinct_ids a -> same_config a b ->
  sum encode sha256 (Some a) = sum encode sha256 (Some b).
Proof. intros Ha H. unfold sum. cbn. by rewrite (normalize_same a b). Qed.

Definition example_user (id : string) (credential : string) : Pb.UserCredential.t :=
  Pb.UserCredential.mk id "" credential 1 0 0.

Definition example_node (id : string) (us : list Pb.UserCredential.t) : Pb.NodeTopology.t :=
  Pb.NodeTopology.mk id "vless-reality-vision@1" 1 "{}" us None.

Definition example_snapshot (rev : Z) (ns : list Pb.NodeTopology.t) : Pb.TopologySnapshot.t :=
  Pb.TopologySnapshot.mk "machine" rev ns [] None None.

Lemma normalize_iff_witness :
  normalize (example_snapshot 7
    [example_node "b" [example_user "y" "2"; example_user "x" "1"]; example_node "a" []])
  = normalize (example_snapshot 9
    [example_node "a" []; example_node "b" [example_user "x" "1"; example_user "y" "2"]]).
Proof.
  apply normalize_iff.
  - split; cbn; repeat constructor; set_solver.
  - repeat split. exists [example_node "a" [];
      example_node "b" [example_user "y" "2"; example_user "x" "1"]].
    split; [apply Permutation_swap|].
    repeat constructor.
Defined.

Lemma sum_same_witness :
  sum (fun s => String.concat "," (List.map Pb.NodeTopology.node_id (Pb.TopologySnapshot.nodes s)))
      (fun x => x)
      (Some (example_snapshot 7 [example_node "b" []; example_node "a" []]))
  = "612c62".
Proof.
  rewrite (sum_same _ _ _ (example_snapshot 9 [example_node "a" []; example_node "b" []])).
  - vm_compute. reflexivity.
  - split; cbn; repeat constructor; set_solver.
  - repeat split. exists [example_node "a" []; example_node "b" []].
    split; [apply Permutation_swap|]. repeat constructor.
Defined.
