(* ===== verification/PortRanges.v ===== *)
(** * Port ranges: [crates/node-agent/src/porthopping/port_ranges.rs]

    Parsing and normalising the panel's comma separated UDP port expression.
    A port is a [Z] in [0, 65535].  Error messages are one constructor per
    format string, carrying the interpolated values.

    Theorems: a parsed expression is in normal form (sorted, disjoint,
    non-adjacent, within 1..65535) and covers exactly the ports its items name;
    the normal form is determined by the set of ports; printing then parsing
    returns the ranges, so normalisation is idempotent. *)

From Stdlib Require Import ZArith Lia Ascii.
From S2P Require Import Prelude Bytes.

Open Scope Z_scope.

Module PortRange.
Record t : Type := mk { start : Z; end_ : Z }.
#[global] Instance eq_dec : EqDecision t.
Proof. solve_decision. Defined.

Definition contains (self : t) (port : Z) : bool :=
  (start self <=? port) && (port <=? end_ self).

(** [impl Display] *)
Definition to_string (self : t) : string :=
  if start self =? end_ self then to_dec (start self)
  else to_dec (start self) +:+ "-" +:+ to_dec (end_ self).

(** The derived lexicographic [Ord]. *)
Definition leb (a b : t) : bool :=
  (start a <? start b) || ((start a =? start b) && (end_ a <=? end_ b)).
End PortRange.

Inductive PortError : Type :=
  | PortRequired
  | PortNotDecimal
  | PortOutOfRange.

Inductive PortRangeError : Type :=
  | EmptyItem
  | InvalidRange (item : string)
  | InvalidBound (item : string) (error : PortError)
  | EndBeforeStart (item : string).

(** [value.parse::<u16>().ok()] on a non-empty string of decimal digits. *)
Definition parse_u16 (value : string) : option Z :=
  let v := dec_value 0 value in if v <=? u16_max then Some v else None.

Definition parse_port (value : string) : result PortError Z :=
  if is_empty value then Err PortRequired
  else if negb (all_digits value) then Err PortNotDecimal
  else match parse_u16 value with
       | Some port => if port =? 0 then Err PortOutOfRange else Ok port
       | None => Err PortOutOfRange
       end.

(** One round of the loop over [expression.split(',')]. *)
Definition parse_item (raw_item : string) : result PortRangeError PortRange.t :=
  let item := trim raw_item in
  if is_empty item then Err EmptyItem
  else
    match split_on "-" item with
    | [b0] =>
        start ← map_err (InvalidBound item) (parse_port (trim b0));
        let end_ := start in
        if end_ <? start then Err (EndBeforeStart item) else Ok (PortRange.mk start end_)
    | [b0; b1] =>
        start ← map_err (InvalidBound item) (parse_port (trim b0));
        end_ ← map_err (InvalidBound item) (parse_port (trim b1));
        if end_ <? start then Err (EndBeforeStart item) else Ok (PortRange.mk start end_)
    | _ => Err (InvalidRange item)
    end.

(** One round of the merging loop; the vector is kept with its last element first. *)
Definition merge_step (merged : list PortRange.t) (current : PortRange.t) : list PortRange.t :=
  match merged with
  | last :: rest =>
      if PortRange.start current <=? PortRange.end_ last + 1
      then PortRange.mk (PortRange.start last)
             (Z.max (PortRange.end_ last) (PortRange.end_ current)) :: rest
      else current :: merged
  | [] => [current]
  end.

Definition merge_port_ranges (ranges : list PortRange.t) : list PortRange.t :=
  rev (foldl merge_step [] (sort_by PortRange.leb ranges)).

Definition parse_port_ranges (expression : string) : result PortRangeError (list PortRange.t) :=
  if is_empty (trim expression) then Ok []
  else
    ranges ← mapM parse_item (split_on "," expression);
    Ok (merge_port_ranges ranges).

Definition print_port_ranges (ranges : list PortRange.t) : string :=
  join "," (PortRange.to_string <$> ranges).

Definition normalize_port_ranges (expression : string) : result PortRangeError string :=
  ranges ← parse_port_ranges expression; Ok (print_port_ranges ranges).

Example parse_example :
  parse_port_ranges " 200-210,100,101-199,300-301,301 "
  = Ok [PortRange.mk 100 210; PortRange.mk 300 301].
Proof. vm_compute. reflexivity. Qed.

Example reject_examples :
  Forall (fun e => is_ok (parse_port_ranges e) = false)
    [","; "1,"; "-1"; "1-"; "1-2-3"; "0"; "65536"; "2-1"; "+1"].
Proof. repeat constructor. Qed.

(** ** Specification *)

(** The ports a list of ranges names. *)
Definition covers (ranges : list PortRange.t) (port : Z) : bool :=
  existsb (fun r => PortRange.contains r port) ranges.

(** Sorted, pairwise disjoint and not adjacent, from [lo] up to 65535. *)
Fixpoint normal_from (lo : Z) (ranges : list PortRange.t) : Prop :=
  match ranges with
  | [] => True
  | r :: rest =>
      (lo <= PortRange.start r <= PortRange.end_ r) /\ PortRange.end_ r <= u16_max /\
      normal_from (PortRange.end_ r + 2) rest
  end.

Definition normal (ranges : list PortRange.t) : Prop := normal_from 1 ranges.

Definition valid (r : PortRange.t) : Prop :=
  1 <= PortRange.start r <= PortRange.end_ r /\ PortRange.end_ r <= u16_max.

Lemma contains_iff r p :
  PortRange.contains r p = true <-> PortRange.start r <= p <= PortRange.end_ r.
Proof. unfold PortRange.contains. rewrite andb_true_iff, !Z.leb_le. done. Qed.

Lemma covers_cons r rs p :
  covers (r :: rs) p = PortRange.contains r p || covers rs p.
Proof. done. Qed.

Lemma covers_true rs p :
  covers rs p = true <-> exists r, r ∈ rs /\ PortRange.start r <= p <= PortRange.end_ r.
Proof.
  unfold covers. rewrite existsb_exists.
  split; intros (r & H1 & H2); exists r; rewrite contains_iff, list_elem_of_In in *; done.
Qed.

Lemma normal_from_weaken lo lo' rs : lo' <= lo -> normal_from lo rs -> normal_from lo' rs.
Proof. destruct rs; cbn; [done|]. intuition lia. Qed.

Lemma normal_from_below lo rs p : normal_from lo rs -> covers rs p = true -> lo <= p <= u16_max.
Proof.
  revert lo. induction rs as [|r rs IH]; intros lo; cbn [normal_from]; [done|].
  intros (H1 & H2 & H3). rewrite covers_cons, orb_true_iff, contains_iff.
  intros [?|Hc]; [lia|]. specialize (IH _ H3 Hc). lia.
Qed.

(** ** Canonicity *)

Lemma normal_from_unique lo rs1 rs2 :
  normal_from lo rs1 -> normal_from lo rs2 ->
  (forall p, covers rs1 p = covers rs2 p) -> rs1 = rs2.
Proof.
  assert (forall r rs lo, normal_from lo (r :: rs) ->
            (forall p, covers ([] : list PortRange.t) p = covers (r :: rs) p) -> False) as Hnil.
  { intros r rs lo' (H1 & _) Hc. specialize (Hc (PortRange.start r)).
    rewrite covers_cons in Hc. cbn in Hc. symmetry in Hc. apply orb_false_iff in Hc as [Hc _].
    enough (PortRange.contains r (PortRange.start r) = true) by congruence.
    apply contains_iff. lia. }
  assert (forall r1 rs1 r2 rs2 lo, normal_from lo (r1 :: rs1) -> normal_from lo (r2 :: rs2) ->
     (forall p, covers (r1 :: rs1) p = covers (r2 :: rs2) p) ->
     PortRange.start r2 <= PortRange.start r1 /\
     (PortRange.start r1 = PortRange.start r2 -> PortRange.end_ r2 <= PortRange.end_ r1)) as Hle.
  { intros r1 l1 r2 l2 lo' (A1 & A2 & A3) (B1 & B2 & B3) Hc. split.
    - assert (covers (r2 :: l2) (PortRange.start r1) = true) as H.
      { rewrite <- Hc, covers_cons, orb_true_iff, contains_iff. lia. }
      rewrite covers_cons, orb_true_iff, contains_iff in H. destruct H as [?|H]; [lia|].
      apply (normal_from_below _ _ _ B3) in H. lia.
    - intros Es. destruct (decide (PortRange.end_ r2 <= PortRange.end_ r1)); [done|].
      assert (covers (r1 :: l1) (PortRange.end_ r1 + 1) = true) as H.
      { rewrite Hc, covers_cons, orb_true_iff, contains_iff. lia. }
      rewrite covers_cons, orb_true_iff, contains_iff in H. destruct H as [?|H]; [lia|].
      apply (normal_from_below _ _ _ A3) in H. lia. }
  revert lo rs2. induction rs1 as [|r1 rs1 IH]; intros lo [|r2 rs2] H1 H2 Hc; [done|..].
  - exfalso. eauto.
  - exfalso. eapply Hnil; [exact H1|]. intros p. by rewrite Hc.
  - destruct (Hle _ _ _ _ _ H1 H2 Hc) as [S1 E1].
    destruct (Hle _ _ _ _ _ H2 H1 (fun p => eq_sym (Hc p))) as [S2 E2].
    assert (r1 = r2) as ->.
    { destruct r1, r2; cbn in *. f_equal; lia. }
    f_equal. apply (IH (PortRange.end_ r2 + 2)).
    + apply H1.
    + apply H2.
    + intros p. specialize (Hc p). rewrite !covers_cons in Hc.
      destruct (PortRange.contains r2 p) eqn:E; [|done]. apply contains_iff in E.
      destruct H1 as (_ & _ & H1), H2 as (_ & _ & H2).
      destruct (covers rs1 p) eqn:C1; [apply (normal_from_below _ _ _ H1) in C1; lia|].
      destruct (covers rs2 p) eqn:C2; [apply (normal_from_below _ _ _ H2) in C2; lia|].
      done.
Qed.

(** ** Merging *)

(** The loop as structural recursion on the remaining ranges. *)
Fixpoint merge_go (last : PortRange.t) (rest : list PortRange.t) : list PortRange.t :=
  match rest with
  | [] => [last]
  | c :: rest =>
      if PortRange.start c <=? PortRange.end_ last + 1
      then merge_go (PortRange.mk (PortRange.start last)
                       (Z.max (PortRange.end_ last) (PortRange.end_ c))) rest
      else last :: merge_go c rest
  end.

Lemma merge_loop_go acc last rest :
  rev (foldl merge_step (last :: acc) rest) = rev acc ++ merge_go last rest.
Proof.
  revert acc last. induction rest as [|c rest IH]; intros acc last; cbn; [done|].
  destruct (_ <=? _); [apply IH|]. rewrite IH. cbn. by rewrite <- app_assoc.
Qed.

Definition starts_from (lo : Z) (rs : list PortRange.t) : Prop :=
  StronglySorted (fun a b => PortRange.leb a b = true) rs /\
  Forall (fun r => lo <= PortRange.start r) rs.

Lemma leb_start a b : PortRange.leb a b = true -> PortRange.start a <= PortRange.start b.
Proof. unfold PortRange.leb. lia. Qed.

Lemma leb_total a b : PortRange.leb a b = true \/ PortRange.leb b a = true.
Proof. unfold PortRange.leb. lia. Qed.

Lemma leb_trans a b c :
  PortRange.leb a b = true -> PortRange.leb b c = true -> PortRange.leb a c = true.
Proof. unfold PortRange.leb. lia. Qed.

Lemma merge_go_normal lo last rest :
  lo <= PortRange.start last <= PortRange.end_ last -> PortRange.end_ last <= u16_max ->
  Forall valid rest -> starts_from (PortRange.start last) rest ->
  normal_from lo (merge_go last rest).
Proof.
  revert lo last. induction rest as [|c rest IH]; intros lo last Hl Hu Hv [Hs Hf]; cbn.
  - done.
  - inv Hv as [|?? Hc Hv']. inv Hs as [|?? Hs' Hc']. inv Hf as [|?? Hf1 Hf2].
    unfold valid in Hc. destruct (Z.leb_spec (PortRange.start c) (PortRange.end_ last + 1)).
    + apply IH; cbn; [lia|lia|done|split; done].
    + split; [done|]. split; [done|]. apply IH; [lia|lia|done|split; [done|]].
      eapply Forall_impl; [apply Hc'|]. intros r. apply leb_start.
Qed.

Lemma merge_go_covers last rest p :
  PortRange.start last <= PortRange.end_ last ->
  Forall valid rest -> starts_from (PortRange.start last) rest ->
  covers (merge_go last rest) p = PortRange.contains last p || covers rest p.
Proof.
  revert last. induction rest as [|c rest IH]; intros last Hl Hv [Hs Hf]; cbn [merge_go]; [done|].
  inv Hv as [|?? Hc Hv']. inv Hs as [|?? Hs' Hc']. inv Hf as [|?? Hf1 Hf2]. unfold valid in Hc.
  destruct (Z.leb_spec (PortRange.start c) (PortRange.end_ last + 1)).
  - rewrite IH by (cbn; first [lia|done|split; done]).
    rewrite covers_cons, orb_assoc. f_equal.
    apply eq_iff_eq_true. rewrite orb_true_iff, !contains_iff. cbn. lia.
  - rewrite !covers_cons, IH; [done|lia|done|split; [done|]].
    eapply Forall_impl; [apply Hc'|]. intros r. apply leb_start.
Qed.

Lemma merge_correct rs :
  Forall valid rs ->
  normal (merge_port_ranges rs) /\ forall p, covers (merge_port_ranges rs) p = covers rs p.
Proof.
  intros Hv. unfold merge_port_ranges.
  pose proof (sort_by_sorted PortRange.leb leb_total leb_trans rs) as Hs.
  pose proof (sort_by_perm PortRange.leb rs) as Hp.
  assert (forall p, covers (sort_by PortRange.leb rs) p = covers rs p) as Hc.
  { intros p. apply eq_iff_eq_true. rewrite !covers_true. by setoid_rewrite Hp. }
  rewrite <- Hp in Hv.
  destruct (sort_by PortRange.leb rs) as [|r l]; [done|].
  cbn [foldl merge_step]. rewrite merge_loop_go. cbn [rev app].
  inv Hv as [|?? Hr Hv']. inv Hs as [|?? Hs' Hr']. unfold valid in Hr.
  assert (starts_from (PortRange.start r) l) as Hsf.
  { split; [done|]. eapply Forall_impl; [apply Hr'|]. intros x. apply leb_start. }
  split.
  - apply merge_go_normal; [lia|lia|done|done].
  - intros p. rewrite merge_go_covers by first [lia|done]. apply Hc.
Qed.

(** ** Parsing *)

Lemma dec_value_nonneg acc s :
  0 <= acc -> all_digits s = true -> 0 <= dec_value acc s.
Proof.
  revert acc. induction s as [|c s IH]; intros acc Ha; cbn; [done|].
  intros [Hc Hs]%andb_prop. apply IH; [|done]. unfold is_digit in Hc. lia.
Qed.

Lemma parse_port_valid v p : parse_port v = Ok p -> 1 <= p <= u16_max.
Proof.
  unfold parse_port, parse_u16. intros. repeat case_match; simplify_eq.
  pose proof (dec_value_nonneg 0 v ltac:(lia)
                ltac:(by destruct (all_digits v))). lia.
Qed.

Lemma parse_item_valid i r : parse_item i = Ok r -> valid r.
Proof.
  unfold parse_item, valid. intros H.
  destruct (is_empty (trim i)); [done|].
  destruct (split_on "-" (trim i)) as [|b0 [|b1 [|]]]; try done;
    repeat (apply bind_Ok in H as (? & ?%map_err_Ok & H));
    repeat match goal with E : parse_port _ = Ok _ |- _ => apply parse_port_valid in E end;
    case_match; simplify_eq; cbn; lia.
Qed.

Lemma mapM_result_Ok {E A B} (f : A -> result E B) l k :
  mapM f l = Ok k <-> Forall2 (fun x y => f x = Ok y) l k.
Proof.
  split.
  - revert k. induction l as [|x l IH]; intros k; cbn; [intros [= <-]; constructor|].
    intros (y & Hy & (ys & Hys & [= <-])%bind_Ok)%bind_Ok. constructor; auto.
  - induction 1 as [|x y l k Hx _ IH]; cbn; [done|]. rewrite Hx. cbn. by rewrite IH.
Qed.

Lemma parse_items_valid l rs : mapM parse_item l = Ok rs -> Forall valid rs.
Proof.
  intros H%mapM_result_Ok. induction H; constructor; eauto using parse_item_valid.
Qed.

(** Printed ranges parse back. *)
Lemma parse_port_to_dec p : 1 <= p <= u16_max -> parse_port (to_dec p) = Ok p.
Proof.
  intros Hp. unfold parse_port, parse_u16.
  rewrite to_dec_digits by lia. rewrite dec_value_to_dec by lia.
  destruct (is_empty (to_dec p)) eqn:E.
  { apply is_empty_spec in E. by apply to_dec_not_empty in E. }
  cbn. destruct (Z.leb_spec p u16_max); [|lia]. destruct (Z.eqb_spec p 0); [lia|done].
Qed.

Lemma plain_app a b : plain a -> plain b -> plain (a +:+ b).
Proof. unfold plain. rewrite chars_app. intros. by apply Forall_app_2. Qed.

Lemma to_dec_plain p : 0 <= p -> plain (to_dec p).
Proof. auto with node. Qed.

Lemma to_string_plain r : valid r -> plain (PortRange.to_string r).
Proof.
  intros Hv. unfold valid in Hv. unfold PortRange.to_string.
  case_match; repeat apply plain_app; try (apply to_dec_plain; lia).
  repeat constructor.
Qed.

Lemma app_not_empty a b : a <> "" -> is_empty (a +:+ b) = false.
Proof. by destruct a. Qed.

Lemma parse_item_to_string r : valid r -> parse_item (PortRange.to_string r) = Ok r.
Proof.
  intros Hv. pose proof Hv as [H1 H2]. unfold parse_item.
  rewrite trim_plain by by apply to_string_plain.
  assert (forall p, 0 <= p -> free_of "-" (to_dec p)) as Hfree.
  { intros p Hp. apply all_digits_free; [auto with node|reflexivity]. }
  unfold PortRange.to_string. destruct r as [a b]; cbn in *.
  destruct (Z.eqb_spec a b) as [<-|Hne].
  - destruct (is_empty (to_dec a)) eqn:E.
    { apply is_empty_spec in E. by apply to_dec_not_empty in E. }
    rewrite split_on_free by (apply Hfree; lia).
    rewrite trim_plain, parse_port_to_dec by first [apply to_dec_plain; lia|lia].
    cbn. destruct (Z.ltb_spec a a); [lia|done].
  - change ("-" +:+ to_dec b) with (String "-" (to_dec b)).
    rewrite app_not_empty by apply to_dec_not_empty.
    rewrite split_on_app, split_on_free by (apply Hfree; lia).
    rewrite !trim_plain, !parse_port_to_dec by first [apply to_dec_plain; lia|lia].
    cbn. destruct (Z.ltb_spec b a); [lia|done].
Qed.

Lemma normal_from_valid lo rs : 1 <= lo -> normal_from lo rs -> Forall valid rs.
Proof.
  revert lo. induction rs as [|r rs IH]; intros lo Hlo; cbn; [constructor|].
  intros (H1 & H2 & H3). constructor; [unfold valid; lia|]. apply (IH (PortRange.end_ r + 2)); [lia|done].
Qed.

Lemma to_string_not_empty r : PortRange.to_string r <> "".
Proof.
  unfold PortRange.to_string. case_match; [apply to_dec_not_empty|].
  apply is_empty_false. apply app_not_empty, to_dec_not_empty.
Qed.

Lemma join_plain rs : Forall valid rs -> plain (print_port_ranges rs).
Proof.
  unfold print_port_ranges. induction 1 as [|r rs Hr Hrs IH]; [constructor|].
  rewrite fmap_cons. destruct rs as [|r' rs]; cbn in *; [by apply to_string_plain|].
  repeat apply plain_app; [by apply to_string_plain|repeat constructor|done].
Qed.

Lemma to_string_free r : valid r -> free_of "," (PortRange.to_string r).
Proof.
  intros Hv. unfold valid in Hv.
  assert (forall p, 0 <= p -> free_of "," (to_dec p)) as Hfree.
  { intros p Hp. apply all_digits_free; [auto with node|reflexivity]. }
  unfold PortRange.to_string, free_of in *. case_match; [apply Hfree; lia|].
  rewrite !chars_app. repeat apply Forall_app_2; try (apply Hfree; lia).
  repeat constructor. done.
Qed.

(** Merging leaves a normal form alone. *)
Lemma merge_normal rs : normal rs -> merge_port_ranges rs = rs.
Proof.
  intros Hn. pose proof (normal_from_valid 1 rs ltac:(lia) Hn) as Hv.
  destruct (merge_correct rs Hv) as [Hn' Hc]. by apply (normal_from_unique 1).
Qed.

Lemma parse_print rs : normal rs -> parse_port_ranges (print_port_ranges rs) = Ok rs.
Proof.
  intros Hn. pose proof (normal_from_valid 1 rs ltac:(lia) Hn) as Hv.
  unfold parse_port_ranges. rewrite trim_plain by by apply join_plain.
  destruct rs as [|r rs]; [done|].
  destruct (is_empty (print_port_ranges (r :: rs))) eqn:E.
  { apply is_empty_spec in E. unfold print_port_ranges in E. rewrite fmap_cons in E.
    destruct rs; cbn in E; [by apply to_string_not_empty in E|].
    pose proof (app_not_empty (PortRange.to_string r)) as Hne.
    apply is_empty_spec in E. rewrite Hne in E by apply to_string_not_empty. done. }
  assert (mapM parse_item (split_on "," (print_port_ranges (r :: rs))) = Ok (r :: rs)) as ->.
  { unfold print_port_ranges. rewrite split_join.
    - apply mapM_result_Ok. clear E Hn.
      induction Hv as [|x l Hx Hl IH]; cbn; constructor; [by apply parse_item_to_string|done].
    - done.
    - apply Forall_fmap. eapply Forall_impl; [apply Hv|]. apply to_string_free. }
  unfold mbind, result_bind. by rewrite merge_normal.
Qed.

Lemma parse_normal expression rs : parse_port_ranges expression = Ok rs -> normal rs.
Proof.
  unfold parse_port_ranges. destruct (is_empty (trim expression)); [by intros [= <-]|].
  intros (items & Hi%parse_items_valid & [= <-])%bind_Ok. by apply merge_correct.
Qed.

(** ** Properties *)

(** An accepted expression is parsed to the normal form of exactly the ports
    its comma separated items name; a blank expression names none. *)
Theorem parse_port_ranges_spec expression rs :
  parse_port_ranges expression = Ok rs ->
  normal rs /\
  ((trim expression = "" /\ rs = []) \/
   exists items, mapM parse_item (split_on "," expression) = Ok items /\
     forall p, covers rs p = covers items p).
Proof.
  intros H. split; [by eapply parse_normal|]. revert H.
  unfold parse_port_ranges. destruct (is_empty (trim expression)) eqn:E.
  - intros [= <-]. left. by apply is_empty_spec in E.
  - intros (items & Hi & [= <-])%bind_Ok. right. exists items. split; [done|].
    by apply merge_correct, (parse_items_valid _ _ Hi).
Qed.

(** Normalising a normalised expression changes nothing, and the normalised
    expression names the ports of the original. *)
Theorem normalize_idempotent expression s :
  normalize_port_ranges expression = Ok s ->
  normalize_port_ranges s = Ok s /\ parse_port_ranges s = parse_port_ranges expression.
Proof.
  unfold normalize_port_ranges. intros (rs & Hrs & [= <-])%bind_Ok.
  rewrite parse_print by by eapply parse_normal. split; [done|congruence].
Qed.

(** Two accepted expressions that name the same ports normalise to the same
    string. *)
Theorem normalize_canonical e1 e2 rs1 rs2 :
  parse_port_ranges e1 = Ok rs1 -> parse_port_ranges e2 = Ok rs2 ->
  (forall p, covers rs1 p = covers rs2 p) ->
  normalize_port_ranges e1 = normalize_port_ranges e2.
Proof.
  intros H1 H2 Hc. unfold normalize_port_ranges. rewrite H1, H2. cbn.
  apply parse_normal in H1, H2. by rewrite (normal_from_unique 1 rs1 rs2).
Qed.

Lemma parse_port_ranges_spec_witness :
  exists items, mapM parse_item ["443"; "1000-1002"] = Ok items /\
    forall p, covers [PortRange.mk 443 443; PortRange.mk 1000 1002] p = covers items p.
Proof.
  destruct (parse_port_ranges_spec "443,1000-1002"
    [PortRange.mk 443 443; PortRange.mk 1000 1002]) as [_ [[_ H]|H]];
    [vm_compute; reflexivity|discriminate H|exact H].
Defined.

Lemma normalize_idempotent_witness :
  normalize_port_ranges "100-210,300-301" = Ok "100-210,300-301".
Proof.
  apply (normalize_idempotent " 200-210,100,101-199,300-301,301 "). vm_compute. reflexivity.
Defined.

Lemma normalize_canonical_witness :
  normalize_port_ranges "5-6, 7" = normalize_port_ranges "7,5,6".
Proof.
  apply (normalize_canonical _ _ [PortRange.mk 5 7] [PortRange.mk 5 7]);
    [vm_compute; reflexivity|vm_compute; reflexivity|reflexivity].
Defined.
