(* ===== verification/PortHopping.v ===== *)
(** * Port hopping: [crates/node-agent/src/porthopping/plan.rs] and [manager.rs]

    [build_plan] compiles a topology to the machine-wide UDP forwarding plan;
    the manager owns the platform backend and closes it exactly once.  The JSON
    decoder (serde_json), SHA-256 and the platform backend are parameters.

    Theorems: an accepted plan is deterministic (no port has two targets),
    never redirects a Hysteria2 listen port, forwards exactly the configured
    ports of each node, and does not depend on the order the panel lists the
    nodes; a closed manager never touches the backend again and a failed close
    can be retried. *)

From Stdlib Require Import ZArith Lia Ascii.
From S2P Require Import Prelude Bytes Hex PortRanges Topology Provider.

Open Scope Z_scope.

Module Redirect.
Record t : Type := mk {
  node_id : string;
  listen_port : Z;
  ports : list PortRange.t
}.
#[global] Instance eq_dec : EqDecision t.
Proof. solve_decision. Defined.
End Redirect.

(** [struct Plan]: its only field is the list of redirects. *)
Record Plan : Type := mkPlan { redirects : list Redirect.t }.

#[export] Instance plan_eq_dec : EqDecision Plan.
Proof. solve_decision. Defined.

(** [Plan::default()] *)
Definition plan_default : Plan := mkPlan [].

Definition plan_is_empty (plan : Plan) : bool :=
  match redirects plan with [] => true | _ => false end.

Definition rule_count (plan : Plan) : nat :=
  sum_list_with (fun r => length (Redirect.ports r)) (redirects plan).

(** The bytes [Plan::digest] feeds to SHA-256. *)
Definition NUL : string := String (chr 0) "".

Definition digest_ports (ports : list PortRange.t) : string :=
  foldr (fun r acc => to_dec (PortRange.start r) +:+ "-" +:+ to_dec (PortRange.end_ r) +:+ "," +:+ acc)
    "" ports.

Definition digest_bytes (plan : Plan) : string :=
  foldr (fun r acc =>
           Redirect.node_id r +:+ NUL +:+ to_dec (Redirect.listen_port r) +:+ NUL
           +:+ digest_ports (Redirect.ports r) +:+ NUL +:+ acc) "" (redirects plan).

Definition plan_digest (sha256 : string -> string) (plan : Plan) : string :=
  Hex.encode (sha256 (digest_bytes plan)).

Definition remove_self_redirects (ranges : list PortRange.t) (listen_port : Z) : list PortRange.t :=
  foldr (fun port_range result =>
    if negb (PortRange.contains port_range listen_port) then port_range :: result
    else
      (if PortRange.start port_range <? listen_port
       then [PortRange.mk (PortRange.start port_range) (listen_port - 1)] else [])
      ++ (if listen_port <? PortRange.end_ port_range
          then [PortRange.mk (listen_port + 1) (PortRange.end_ port_range)] else [])
      ++ result) [] ranges.

(** The first pair, in nested loop order, that intersects. *)
Fixpoint first_overlap_with (first : PortRange.t) (seconds : list PortRange.t) : option PortRange.t :=
  match seconds with
  | [] => None
  | second :: seconds =>
      let start := Z.max (PortRange.start first) (PortRange.start second) in
      let end_ := Z.min (PortRange.end_ first) (PortRange.end_ second) in
      if start <=? end_ then Some (PortRange.mk start end_) else first_overlap_with first seconds
  end.

Fixpoint first_overlap (firsts seconds : list PortRange.t) : option PortRange.t :=
  match firsts with
  | [] => None
  | first :: firsts =>
      match first_overlap_with first seconds with
      | Some r => Some r
      | None => first_overlap firsts seconds
      end
  end.

Section plan.
Context {JsonError : Type}
  (from_slice : string -> result JsonError Hysteria2SalamanderConfig.t).

Inductive PlanError : Type :=
  | DuplicateNodeId (node_id : string)
  | DecodeConfig (node_id : string) (error : JsonError)
  | InvalidPortHopping (node_id : string) (error : PortRangeError)
  | ListenPortRequired (node_id : string)
  | ListenPortConflict (node_id : string) (port_range : PortRange.t)
      (other_node_id : string) (listen_port : Z)
  | HoppingConflict (earlier later : string) (overlap : PortRange.t).

(** [null] surrounded by white space decodes to the default configuration. *)
Definition decode_hysteria_config (bytes : string) : result JsonError Hysteria2SalamanderConfig.t :=
  if bool_decide (retain (fun b => negb (is_ascii_whitespace b)) (chars bytes) = chars "null")
  then Ok Hysteria2SalamanderConfig_default
  else from_slice bytes.

(** The local variables of the loop over the nodes. *)
Record scan : Type := mkScan {
  sc_redirects : list Redirect.t;
  sc_listen_ports : gmap string Z;
  sc_original_hopping : gmap string (list PortRange.t);
  sc_seen_node_ids : gset string
}.

(** One round of the loop. *)
Definition scan_node (st : scan) (node : NodeInstance.t) : result PlanError scan :=
  let node_id := NodeInstance.node_id node in
  if decide (node_id ∈ sc_seen_node_ids st) then Err (DuplicateNodeId node_id)
  else
    let seen := {[node_id]} ∪ sc_seen_node_ids st in
    if negb (bool_decide (NodeInstance.provider_id node = HYSTERIA2_SALAMANDER_ID))
    then Ok (mkScan (sc_redirects st) (sc_listen_ports st) (sc_original_hopping st) seen)
    else
      config ← map_err (DecodeConfig node_id)
                 (decode_hysteria_config (NodeInstance.provider_config node));
      let listen_port := Hysteria2SalamanderConfig.listen_port config in
      let listen_ports :=
        if negb (listen_port =? 0) then <[node_id := listen_port]> (sc_listen_ports st)
        else sc_listen_ports st in
      original ← map_err (InvalidPortHopping node_id)
                   (parse_port_ranges (Hysteria2SalamanderConfig.port_hopping config));
      let original_hopping := <[node_id := original]> (sc_original_hopping st) in
      let ports := remove_self_redirects original listen_port in
      match ports with
      | [] => Ok (mkScan (sc_redirects st) listen_ports original_hopping seen)
      | _ :: _ =>
          if listen_port =? 0 then Err (ListenPortRequired node_id)
          else Ok (mkScan (sc_redirects st ++ [Redirect.mk node_id listen_port ports])
                     listen_ports original_hopping seen)
      end.

Fixpoint scan_nodes (st : scan) (nodes : list NodeInstance.t) : result PlanError scan :=
  match nodes with
  | [] => Ok st
  | node :: nodes => st ← scan_node st node; scan_nodes st nodes
  end.

(** [for .. in l { check(..)? }] *)
Definition for_each {A} (check : A -> result PlanError unit) (l : list A) : result PlanError unit :=
  foldr (fun x acc => _ ← check x; acc) (Ok tt) l.

Definition check_listen_ports (original_hopping : gmap string (list PortRange.t))
    (listen_ports : gmap string Z) : result PlanError unit :=
  for_each (fun '(node_id, ranges) =>
    for_each (fun port_range =>
      for_each (fun '(other_node_id, listen_port) =>
        if negb (bool_decide (node_id = other_node_id))
           && PortRange.contains port_range listen_port
        then Err (ListenPortConflict node_id port_range other_node_id listen_port)
        else Ok tt) (btree_iter listen_ports))
      ranges) (btree_iter original_hopping).

Fixpoint check_overlaps (before : list Redirect.t) (rest : list Redirect.t)
    : result PlanError unit :=
  match rest with
  | [] => Ok tt
  | later :: rest =>
      _ ← for_each (fun earlier =>
            match first_overlap (Redirect.ports earlier) (Redirect.ports later) with
            | Some overlap =>
                Err (HoppingConflict (Redirect.node_id earlier) (Redirect.node_id later) overlap)
            | None => Ok tt
            end) before;
      check_overlaps (before ++ [later]) rest
  end.

Definition build_plan (topology : MachineTopology.t) : result PlanError Plan :=
  st ← scan_nodes (mkScan [] ∅ ∅ ∅) (MachineTopology.nodes topology);
  let redirects := sort_by_key Redirect.node_id (sc_redirects st) in
  _ ← check_listen_ports (sc_original_hopping st) (sc_listen_ports st);
  _ ← check_overlaps [] redirects;
  Ok (mkPlan redirects).
End plan.

Arguments build_plan {JsonError} from_slice topology.

(** ** The manager *)

Section manager.
Context {BackendError : Type}.

(** [struct State] with the backend's own state [B]. *)
Record manager_state (B : Type) : Type := mkManager { backend : B; closed : bool }.
Arguments mkManager {B} backend closed.
Arguments backend {B} _.
Arguments closed {B} _.

Inductive ManagerError : Type :=
  | RouterClosed
  | BackendFailed (error : BackendError).

Context {B : Type} (backend_apply : B -> Plan -> B * result BackendError unit).

Definition manager_apply (state : manager_state B) (desired : Plan)
    : manager_state B * result ManagerError unit :=
  if closed state then (state, Err RouterClosed)
  else
    let '(b, r) := backend_apply (backend state) desired in
    (mkManager b (closed state), map_err BackendFailed r).

Definition manager_reconcile := manager_apply.

Definition manager_close (state : manager_state B)
    : manager_state B * result ManagerError unit :=
  if closed state then (state, Ok tt)
  else
    let '(b, r) := backend_apply (backend state) plan_default in
    match r with
    | Ok _ => (mkManager b true, Ok tt)
    | Err e => (mkManager b (closed state), Err (BackendFailed e))
    end.
End manager.

(** ** Lemmas: ranges *)

Lemma covers_app l1 l2 p : covers (l1 ++ l2) p = covers l1 p || covers l2 p.
Proof. unfold covers. apply existsb_app. Qed.

Lemma covers_remove_self rs lp p :
  covers (remove_self_redirects rs lp) p = covers rs p && negb (p =? lp).
Proof.
  induction rs as [|r rs IH]; [done|].
  change (remove_self_redirects (r :: rs) lp) with
    (if negb (PortRange.contains r lp) then r :: remove_self_redirects rs lp
     else (if PortRange.start r <? lp then [PortRange.mk (PortRange.start r) (lp - 1)] else [])
      ++ (if lp <? PortRange.end_ r then [PortRange.mk (lp + 1) (PortRange.end_ r)] else [])
      ++ remove_self_redirects rs lp).
  rewrite covers_cons.
  destruct (PortRange.contains r lp) eqn:E; cbn [negb]; [rewrite !covers_app|rewrite covers_cons];
    rewrite IH; unfold PortRange.contains in *; apply eq_iff_eq_true;
    destruct (covers rs p); cbn;
    repeat match goal with |- context [if ?b then _ else _] => destruct b eqn:?; cbn end;
    unfold PortRange.contains; cbn; lia.
Qed.

Lemma first_overlap_with_None f l :
  first_overlap_with f l = None <->
  forall p, PortRange.contains f p = true -> covers l p = true -> False.
Proof.
  induction l as [|s l IH]; cbn; [naive_solver|].
  destruct (Z.leb_spec (Z.max (PortRange.start f) (PortRange.start s))
              (Z.min (PortRange.end_ f) (PortRange.end_ s))) as [H|H].
  - split; [done|]. intros Hp. exfalso.
    apply (Hp (Z.max (PortRange.start f) (PortRange.start s))).
    + apply contains_iff. lia.
    + apply orb_true_iff. left. apply contains_iff. lia.
  - rewrite IH. setoid_rewrite orb_true_iff. setoid_rewrite contains_iff.
    split; [|naive_solver]. intros Hp p H1 [H2|H2]; [lia|eauto].
Qed.

Lemma first_overlap_None l r :
  first_overlap l r = None <-> forall p, covers l p = true -> covers r p = true -> False.
Proof.
  induction l as [|f l IH]; cbn; [naive_solver|].
  setoid_rewrite orb_true_iff.
  destruct (first_overlap_with f r) as [o|] eqn:E.
  - split; [done|]. intros Hp. exfalso.
    enough (first_overlap_with f r = None) by congruence.
    apply first_overlap_with_None. naive_solver.
  - rewrite first_overlap_with_None in E. rewrite IH. naive_solver.
Qed.

(** ** Lemmas: the scan over the nodes *)

Section plan_facts.
Context {JsonError : Type}
  (from_slice : string -> result JsonError Hysteria2SalamanderConfig.t).
Implicit Types (n : NodeInstance.t) (st : scan) (t : MachineTopology.t).

Local Abbreviation PlanError := (@PlanError JsonError).
Local Abbreviation hysteria n :=
  (bool_decide (NodeInstance.provider_id n = HYSTERIA2_SALAMANDER_ID)).

(** What the code reads from one node: listen port and hopping ranges. *)
Definition node_hopping n : option (Z * list PortRange.t) :=
  if hysteria n then
    match decode_hysteria_config from_slice (NodeInstance.provider_config n) with
    | Ok config =>
        match parse_port_ranges (Hysteria2SalamanderConfig.port_hopping config) with
        | Ok original => Some (Hysteria2SalamanderConfig.listen_port config, original)
        | Err _ => None
        end
    | Err _ => None
    end
  else None.

Definition redirect_of n : option Redirect.t :=
  '(lp, original) ← node_hopping n;
  match remove_self_redirects original lp with
  | [] => None
  | ports => Some (Redirect.mk (NodeInstance.node_id n) lp ports)
  end.

Definition listen_of n : option (string * Z) :=
  '(lp, _) ← node_hopping n;
  if lp =? 0 then None else Some (NodeInstance.node_id n, lp).

Definition hopping_of n : option (string * list PortRange.t) :=
  '(_, original) ← node_hopping n; Some (NodeInstance.node_id n, original).

(** The node is accepted: it decodes, and forwards only to a real listen port. *)
Definition node_fine n : Prop :=
  hysteria n = true ->
  exists lp original, node_hopping n = Some (lp, original) /\
    (remove_self_redirects original lp <> [] -> lp <> 0).

Definition insert_opt {A} (o : option (string * A)) (m : gmap string A) : gmap string A :=
  match o with Some (k, v) => <[k := v]> m | None => m end.

Definition scan_add st n : scan :=
  mkScan (sc_redirects st ++ option_list (redirect_of n))
    (insert_opt (listen_of n) (sc_listen_ports st))
    (insert_opt (hopping_of n) (sc_original_hopping st))
    ({[NodeInstance.node_id n]} ∪ sc_seen_node_ids st).

Lemma scan_node_Ok st n st' :
  scan_node from_slice st n = Ok st' <->
  NodeInstance.node_id n ∉ sc_seen_node_ids st /\ node_fine n /\ st' = scan_add st n.
Proof.
  unfold scan_node, scan_add, node_fine, redirect_of, listen_of, hopping_of, node_hopping.
  destruct (decide _) as [Hin|Hin]; [naive_solver|].
  destruct (hysteria n) eqn:Hh; cbn [negb].
  2:{ rewrite app_nil_r. cbn. destruct st. naive_solver. }
  destruct (decode_hysteria_config _ _) as [c|e]; cbn; [|naive_solver].
  destruct (parse_port_ranges _) as [o|e]; cbn; [|naive_solver].
  destruct (remove_self_redirects _ _) as [|r rs] eqn:Er; cbn.
  - rewrite app_nil_r. destruct (Hysteria2SalamanderConfig.listen_port c =? 0); naive_solver.
  - destruct (Z.eqb_spec (Hysteria2SalamanderConfig.listen_port c) 0); cbn.
    { split; [done|]. intros (_ & H & _).
      destruct (H eq_refl) as (? & ? & [= <- <-] & Hne). rewrite Er in Hne. by destruct Hne. }
    split; [|naive_solver]. intros [= <-]. split; [done|]. split; [|done].
    intros _. by eexists _, _.
Qed.

Lemma scan_nodes_Ok st ns st' :
  scan_nodes from_slice st ns = Ok st' <->
  NoDup (NodeInstance.node_id <$> ns) /\
  (forall n, n ∈ ns -> NodeInstance.node_id n ∉ sc_seen_node_ids st) /\
  Forall node_fine ns /\ st' = foldl scan_add st ns.
Proof.
  revert st. induction ns as [|n ns IH]; intros st; cbn.
  - split; [intros [= <-]|naive_solver]. repeat split; [constructor|set_solver|done].
  - rewrite bind_Ok. setoid_rewrite scan_node_Ok. rewrite NoDup_cons, Forall_cons.
    split.
    + intros (a & (H1 & H2 & ->) & (H3 & H4 & H5 & H6)%IH).
      repeat split; try done.
      * intros (n' & E & Hn')%list_elem_of_fmap. apply (H4 n' Hn'). cbn. set_solver.
      * intros n' [->|Hn']%elem_of_cons; [done|]. specialize (H4 n' Hn'). cbn in H4. set_solver.
    + intros ((H1 & H2) & H3 & (H4 & H5) & H6). eexists. split.
      * split; [apply H3; set_solver|]. done.
      * apply IH. repeat split; try done. intros n' Hn'. cbn.
        assert (NodeInstance.node_id n' <> NodeInstance.node_id n).
        { intros E. apply H1. rewrite <- E. by apply list_elem_of_fmap_2. }
        specialize (H3 n'). set_solver.
Qed.

Lemma scan_redirects st ns :
  sc_redirects (foldl scan_add st ns) = sc_redirects st ++ omap redirect_of ns.
Proof.
  revert st. induction ns as [|n ns IH]; intros st; cbn; [by rewrite app_nil_r|].
  rewrite IH. cbn. rewrite <- app_assoc. by destruct (redirect_of n).
Qed.

(** Both maps hold exactly the entries of their nodes. *)
Lemma insert_opt_fold {A} (f : NodeInstance.t -> option (string * A)) ns (m : gmap string A) :
  (forall n k v, f n = Some (k, v) -> k = NodeInstance.node_id n) ->
  NoDup (NodeInstance.node_id <$> ns) ->
  forall k v, foldl (fun m n => insert_opt (f n) m) m ns !! k = Some v <->
    (exists n, n ∈ ns /\ f n = Some (k, v)) \/
    ((forall n v', n ∈ ns -> f n <> Some (k, v')) /\ m !! k = Some v).
Proof.
  intros Hf. revert m. induction ns as [|n ns IH]; intros m Hnd k v; cbn.
  - split; [intros; right; set_solver|]. intros [(n & Hn & _)|[_ H]]; [set_solver|done].
  - inv Hnd as [|?? Hn Hnd']. rewrite IH by done. clear IH.
    assert (forall n' v', n' ∈ ns -> f n' = Some (NodeInstance.node_id n, v') -> False) as Hfresh.
    { intros n' v' Hn' E. apply Hf in E. apply Hn. rewrite E. by apply list_elem_of_fmap_2. }
    destruct (f n) as [[k0 v0]|] eqn:E; cbn.
    + pose proof (Hf _ _ _ E) as ->. rewrite lookup_insert_Some.
      set_solver by naive_solver.
    + set_solver by naive_solver.
Qed.

Lemma listen_of_id n k v : listen_of n = Some (k, v) -> k = NodeInstance.node_id n.
Proof. unfold listen_of. destruct (node_hopping n) as [[lp o]|]; cbn; [|done]. case_match; naive_solver. Qed.

Lemma hopping_of_id n k v : hopping_of n = Some (k, v) -> k = NodeInstance.node_id n.
Proof. unfold hopping_of. destruct (node_hopping n) as [[lp o]|]; cbn; naive_solver. Qed.

Lemma redirect_of_id n r : redirect_of n = Some r -> Redirect.node_id r = NodeInstance.node_id n.
Proof. unfold redirect_of. destruct (node_hopping n) as [[lp o]|]; cbn; [|done]. case_match; naive_solver. Qed.

Lemma scan_listen st ns :
  sc_listen_ports (foldl scan_add st ns)
  = foldl (fun m n => insert_opt (listen_of n) m) (sc_listen_ports st) ns.
Proof. revert st. induction ns as [|n ns IH]; intros st; cbn; [done|]. by rewrite IH. Qed.

Lemma scan_hopping st ns :
  sc_original_hopping (foldl scan_add st ns)
  = foldl (fun m n => insert_opt (hopping_of n) m) (sc_original_hopping st) ns.
Proof. revert st. induction ns as [|n ns IH]; intros st; cbn; [done|]. by rewrite IH. Qed.

Lemma for_each_Ok {A} (check : A -> result PlanError unit) l :
  for_each check l = Ok tt <-> forall x, x ∈ l -> check x = Ok tt.
Proof.
  unfold for_each. induction l as [|x l IH]; cbn; [set_solver|].
  rewrite bind_Ok. split.
  - intros ([] & H1 & H2). set_solver.
  - intros H. exists tt. set_solver.
Qed.

Lemma check_listen_ports_Ok hop listen :
  check_listen_ports hop listen = Ok (E := PlanError) tt <->
  forall id ranges r other lp, hop !! id = Some ranges -> r ∈ ranges ->
    listen !! other = Some lp -> id <> other -> PortRange.contains r lp = false.
Proof.
  unfold check_listen_ports. rewrite for_each_Ok. split.
  - intros H id ranges r other lp H1%elem_of_btree_iter H2 H3%elem_of_btree_iter Hne.
    specialize (H _ H1). cbn in H. rewrite for_each_Ok in H. specialize (H _ H2).
    rewrite for_each_Ok in H. specialize (H _ H3). cbn in H.
    rewrite bool_decide_false in H by done. by destruct (PortRange.contains r lp).
  - intros H [id ranges] H1%elem_of_btree_iter. apply for_each_Ok. intros r H2.
    apply for_each_Ok. intros [other lp] H3%elem_of_btree_iter.
    destruct (decide (id = other)) as [->|Hne].
    + rewrite bool_decide_true by done. done.
    + rewrite bool_decide_false, (H id ranges r other lp) by done. done.
Qed.

Definition apart (a b : Redirect.t) : Prop :=
  forall p, covers (Redirect.ports a) p = true -> covers (Redirect.ports b) p = true -> False.

Lemma check_overlaps_Ok before rest :
  check_overlaps before rest = Ok (E := PlanError) tt <->
  (forall a b, a ∈ before -> b ∈ rest -> apart a b) /\ StronglySorted apart rest.
Proof.
  revert before. induction rest as [|b rest IH]; intros before; cbn.
  - split; [|done]. intros _. split; [set_solver|constructor].
  - rewrite bind_Ok, StronglySorted_cons, Forall_forall.
    setoid_rewrite IH. split.
    + intros ([] & H1 & H2 & H3). rewrite for_each_Ok in H1. repeat split; [|set_solver|done].
      intros a b' Ha [->|Hb]%elem_of_cons; [|set_solver].
      specialize (H1 a Ha). cbn in H1.
      destruct (first_overlap _ _) eqn:E; [done|]. by rewrite first_overlap_None in E.
    + intros (H1 & H2 & H3). exists tt. repeat split; [|set_solver|done].
      apply for_each_Ok. intros a Ha. assert (apart a b) as Hab by set_solver. unfold apart in Hab.
      rewrite <- first_overlap_None in Hab. by rewrite Hab.
Qed.

Definition scan0 : scan := mkScan [] ∅ ∅ ∅.

(** What acceptance means, node by node. *)
Lemma build_plan_Ok t plan :
  build_plan from_slice t = Ok plan <->
  NoDup (NodeInstance.node_id <$> MachineTopology.nodes t) /\
  Forall node_fine (MachineTopology.nodes t) /\
  plan = mkPlan (sort_by_key Redirect.node_id (omap redirect_of (MachineTopology.nodes t))) /\
  (forall n m lp lp' original original' r,
     n ∈ MachineTopology.nodes t -> m ∈ MachineTopology.nodes t ->
     NodeInstance.node_id n <> NodeInstance.node_id m ->
     node_hopping n = Some (lp, original) -> node_hopping m = Some (lp', original') -> lp' <> 0 ->
     r ∈ original -> PortRange.contains r lp' = false) /\
  StronglySorted apart (redirects plan).
Proof.
  unfold build_plan. rewrite bind_Ok. split.
  - intros (st & (Hnd & _ & Hfine & ->)%scan_nodes_Ok & H).
    apply bind_Ok in H as ([] & Hl & H). apply bind_Ok in H as ([] & Ho & [= <-]).
    rewrite scan_redirects in *. cbn in *. apply check_overlaps_Ok in Ho as [_ Ho].
    rewrite check_listen_ports_Ok in Hl. repeat split; [done..| |done].
    intros n m lp lp' o o' r Hn Hm Hne E1 E2 Hlp Hr.
    eapply (Hl (NodeInstance.node_id n) o r (NodeInstance.node_id m) lp').
    + rewrite scan_hopping. apply insert_opt_fold; [apply hopping_of_id|done|].
      left. exists n. split; [done|]. unfold hopping_of. by rewrite E1.
    + done.
    + rewrite scan_listen. apply insert_opt_fold; [apply listen_of_id|done|].
      left. exists m. split; [done|]. unfold listen_of. rewrite E2. cbn.
      by apply Z.eqb_neq in Hlp as ->.
    + done.
  - intros (Hnd & Hfine & -> & Hl & Ho).
    exists (foldl scan_add scan0 (MachineTopology.nodes t)). split.
    { apply scan_nodes_Ok. repeat split; [done| |done]. set_solver. }
    apply bind_Ok. exists tt. split.
    + apply check_listen_ports_Ok. intros id ranges r other lp Hh Hr Hlp Hne.
      rewrite scan_hopping in Hh. rewrite scan_listen in Hlp.
      apply insert_opt_fold in Hh as [(n & Hn & En)|[_ Hh]]; [|done|apply hopping_of_id|done].
      apply insert_opt_fold in Hlp as [(m & Hm & Em)|[_ Hlp]]; [|done|apply listen_of_id|done].
      pose proof (hopping_of_id _ _ _ En) as ->. pose proof (listen_of_id _ _ _ Em) as ->.
      unfold hopping_of, listen_of in *.
      destruct (node_hopping n) as [[lpn on]|] eqn:Hhn; [|done]. cbn in En.
      destruct (node_hopping m) as [[lpm om]|] eqn:Hhm; [|done]. cbn in Em.
      destruct (Z.eqb_spec lpm 0); [done|]. simplify_eq. eauto.
    + rewrite scan_redirects. apply bind_Ok. exists tt. split; [|done].
      apply check_overlaps_Ok. split; [set_solver|done].
Qed.
End plan_facts.

(** ** Properties of the plan *)

Section plan_properties.
Context {JsonError : Type}
  (from_slice : string -> result JsonError Hysteria2SalamanderConfig.t).
Implicit Types (t : MachineTopology.t) (n : NodeInstance.t).
Local Abbreviation node_hopping := (node_hopping from_slice).
Local Abbreviation redirect_of := (redirect_of from_slice).

Lemma elem_of_plan t plan r :
  build_plan from_slice t = Ok plan ->
  r ∈ redirects plan <-> exists n, n ∈ MachineTopology.nodes t /\ redirect_of n = Some r.
Proof.
  intros (_ & _ & -> & _)%build_plan_Ok. cbn.
  by rewrite sort_by_key_perm, list_elem_of_omap.
Qed.

Lemma redirect_of_Some n r :
  redirect_of n = Some r <->
  exists lp original, node_hopping n = Some (lp, original) /\
    Redirect.ports r <> [] /\
    r = Redirect.mk (NodeInstance.node_id n) lp (remove_self_redirects original lp).
Proof.
  unfold PortHopping.redirect_of. destruct (node_hopping n) as [[lp o]|]; cbn; [|naive_solver].
  destruct (remove_self_redirects o lp) as [|x l] eqn:E.
  - split; [done|]. intros (? & ? & [= <- <-] & Hne & ->). cbn in Hne. by rewrite E in Hne.
  - split; [intros [= <-]|].
    + exists lp, o. rewrite E. done.
    + intros (? & ? & [= <- <-] & _ & ->). by rewrite E.
Qed.

Lemma remove_self_subset rs lp p :
  covers (remove_self_redirects rs lp) p = true -> covers rs p = true /\ p <> lp.
Proof. rewrite covers_remove_self. intros [? ?%negb_true_iff]%andb_prop. split; [done|lia]. Qed.

Lemma StronglySorted_pair {A} (R : A -> A -> Prop) l x y :
  StronglySorted R l -> x ∈ l -> y ∈ l -> x = y \/ R x y \/ R y x.
Proof.
  induction 1 as [|z l _ IH Hz]; [set_solver|].
  rewrite Forall_forall in Hz. set_solver.
Qed.

(** C39. An accepted plan forwards every UDP port to at most one listener, and a
    Hysteria2 listen port (of any node of the topology) is never redirected:
    traffic addressed to it reaches the listener itself. *)
Theorem build_plan_safe t plan :
  build_plan from_slice t = Ok plan ->
  (forall r1 r2 p, r1 ∈ redirects plan -> r2 ∈ redirects plan ->
     covers (Redirect.ports r1) p = true -> covers (Redirect.ports r2) p = true -> r1 = r2) /\
  (forall r n lp original, r ∈ redirects plan -> n ∈ MachineTopology.nodes t ->
     node_hopping n = Some (lp, original) -> lp <> 0 -> covers (Redirect.ports r) lp = false).
Proof.
  intros Hb. pose proof (fun r => elem_of_plan t plan r Hb) as Hin.
  apply build_plan_Ok in Hb as (Hnd & _ & _ & Hl & Ho). split.
  - intros r1 r2 p H1 H2 C1 C2.
    destruct (StronglySorted_pair _ _ _ _ Ho H1 H2) as [?|[H|H]]; [done|..];
      exfalso; eapply H; eassumption.
  - intros r n lp o (m & Hm & (lpm & om & Em & _ & ->)%redirect_of_Some)%Hin Hn En Hlp. cbn.
    destruct (covers (remove_self_redirects om lpm) lp) eqn:C; [|done]. apply remove_self_subset in C as [C Hne].
    apply covers_true in C as (x & Hx & Hc).
    assert (NodeInstance.node_id m <> NodeInstance.node_id n) as Hid.
    { intros E. apply list_elem_of_lookup in Hm as [i Hi], Hn as [j Hj].
      assert (i = j) as ->.
      { eapply NoDup_lookup; [exact Hnd| |]; rewrite list_lookup_fmap;
          [by rewrite Hi|by rewrite Hj; cbn; rewrite E]. }
      congruence. }
    pose proof (Hl m n lpm lp om o x Hm Hn Hid Em En Hlp Hx) as Hcx.
    assert (PortRange.contains x lp = true) by (by apply contains_iff). congruence.
Qed.

(** Exactly the ports a node's expression names are forwarded to its listener,
    except the listen port itself. *)
Theorem build_plan_forwards t plan n lp original p :
  build_plan from_slice t = Ok plan ->
  n ∈ MachineTopology.nodes t -> node_hopping n = Some (lp, original) ->
  ((exists r, r ∈ redirects plan /\ Redirect.node_id r = NodeInstance.node_id n /\
      Redirect.listen_port r = lp /\ covers (Redirect.ports r) p = true)
   <-> covers original p = true /\ p <> lp).
Proof.
  intros Hb Hn En. pose proof (fun r => elem_of_plan t plan r Hb) as Hin.
  apply build_plan_Ok in Hb as (Hnd & _). split.
  - intros (r & (m & Hm & (lpm & om & Em & _ & ->)%redirect_of_Some)%Hin & Hid & Hlp & C).
    cbn in *. subst lpm.
    assert (m = n) as ->.
    { apply list_elem_of_lookup in Hm as [i Hi], Hn as [j Hj].
      assert (i = j) as ->.
      { eapply NoDup_lookup; [exact Hnd| |]; rewrite list_lookup_fmap;
          [by rewrite Hi|by rewrite Hj; cbn; rewrite Hid]. }
      congruence. }
    rewrite En in Em. simplify_eq. by apply remove_self_subset.
  - intros [C Hne].
    assert (covers (remove_self_redirects original lp) p = true) as C'.
    { rewrite covers_remove_self, C. cbn. by apply negb_true_iff, Z.eqb_neq. }
    exists (Redirect.mk (NodeInstance.node_id n) lp (remove_self_redirects original lp)).
    split; [|done]. apply Hin. exists n. split; [done|]. apply redirect_of_Some.
    exists lp, original. repeat split; [done|]. intros E. cbn in E. by rewrite E in C'.
Qed.

Lemma redirects_NoDup (l : list NodeInstance.t) :
  NoDup (NodeInstance.node_id <$> l) ->
  NoDup (Redirect.node_id <$> omap redirect_of l).
Proof.
  induction l as [|n ns IH]; cbn; [constructor|].
  intros Hnd. inv Hnd as [|?? Hn Hnd']. specialize (IH Hnd').
  destruct (redirect_of n) as [r|] eqn:E; [|done]. cbn. constructor; [|done].
  rewrite (redirect_of_id from_slice n r E).
  intros (r' & Hr' & (n' & Hn' & E')%list_elem_of_omap)%list_elem_of_fmap.
  rewrite (redirect_of_id from_slice n' r' E') in Hr'. apply Hn. rewrite Hr'.
  by apply list_elem_of_fmap_2.
Qed.

(** The plan does not depend on the order in which the panel lists the nodes. *)
Theorem build_plan_order t t' plan :
  MachineTopology.nodes t ≡ₚ MachineTopology.nodes t' ->
  build_plan from_slice t = Ok plan -> build_plan from_slice t' = Ok plan.
Proof.
  intros Hp (Hnd & Hf & -> & Hl & Ho)%build_plan_Ok. apply build_plan_Ok.
  assert (sort_by_key Redirect.node_id (omap redirect_of (MachineTopology.nodes t))
          = sort_by_key Redirect.node_id (omap redirect_of (MachineTopology.nodes t')))
    as <-.
  { apply sort_by_key_unique; [|by rewrite Hp]. by apply redirects_NoDup. }
  split; [by rewrite <- Hp|]. split; [by rewrite <- Hp|]. split; [done|].
  split; [setoid_rewrite <- Hp; exact Hl|done].
Qed.
End plan_properties.

(** ** The plan digest identifies the plan *)

Definition nul_free (s : string) : Prop := free_of (chr 0) s.

Definition plan_wf (plan : Plan) : Prop :=
  Forall (fun r => nul_free (Redirect.node_id r) /\ 0 <= Redirect.listen_port r /\
                   Forall valid (Redirect.ports r)) (redirects plan).

(** A field without the separator, followed by it, splits off uniquely. *)
Lemma sep_split c a b x y :
  free_of c a -> free_of c b -> a +:+ String c x = b +:+ String c y -> a = b /\ x = y.
Proof.
  unfold free_of, chars. revert b.
  induction a as [|d a IH]; intros [|e b] Ha Hb E;
    [change (String c x = String c y) in E
    |change (String c x = String e (b +:+ String c y)) in E
    |change (String d (a +:+ String c x) = String c y) in E
    |change (String d (a +:+ String c x) = String e (b +:+ String c y)) in E];
    simplify_eq; [done| | |].
  - cbn in Hb. inv Hb; done.
  - cbn in Ha. inv Ha; done.
  - cbn in Ha, Hb. inv Ha. inv Hb. destruct (IH b) as [-> ->]; done.
Qed.

Lemma digits_free c z : is_digit c = false -> 0 <= z -> free_of c (to_dec z).
Proof. intros. apply all_digits_free; [auto with node|done]. Qed.

Lemma digits_split c a b x y :
  is_digit c = false -> 0 <= a -> 0 <= b ->
  to_dec a +:+ String c x = to_dec b +:+ String c y -> a = b /\ x = y.
Proof.
  intros Hc Ha Hb E. apply sep_split in E as [E1 E2]; [|by apply digits_free..].
  split; [|done]. by apply to_dec_inj.
Qed.

Lemma digest_ports_nul_free ps : Forall valid ps -> nul_free (digest_ports ps).
Proof.
  unfold nul_free, free_of. induction 1 as [|r ps Hr Hps IH]; cbn -[to_dec]; [constructor|].
  unfold valid in Hr. rewrite !chars_app.
  repeat apply Forall_app_2; try (apply digits_free; [done|lia]); [by repeat constructor| |done].
  by repeat constructor.
Qed.

Lemma digest_ports_inj ps qs :
  Forall valid ps -> Forall valid qs -> digest_ports ps = digest_ports qs -> ps = qs.
Proof.
  intros Hps. revert qs. induction Hps as [|[a b] ps Hr Hps IH]; intros qs Hqs E.
  - destruct Hqs as [|[c d] qs Hq]; [done|]. unfold valid in Hq. cbn -[to_dec] in *.
    exfalso. apply (f_equal chars) in E. rewrite !chars_app in E. cbn -[to_dec] in E.
    by destruct (chars (to_dec c)).
  - destruct Hqs as [|[c d] qs Hq Hqs]; unfold valid in Hr; cbn -[to_dec] in *.
    + exfalso. apply (f_equal chars) in E. rewrite !chars_app in E. cbn -[to_dec] in E.
      by destruct (chars (to_dec a)).
    + unfold valid in Hq. cbn in Hq.
      apply digits_split in E as [-> E]; [|done|lia|lia].
      apply digits_split in E as [-> E]; [|done|lia|lia].
      by rewrite (IH qs).
Qed.

(** Different plans are digested from different bytes: a digest collision would
    be a SHA-256 collision. *)
Theorem digest_bytes_inj p q :
  plan_wf p -> plan_wf q -> digest_bytes p = digest_bytes q -> p = q.
Proof.
  destruct p as [ps], q as [qs]. unfold plan_wf, digest_bytes. cbn -[to_dec].
  intros Hps. revert qs. induction Hps as [|[i lp rs] ps (Hi & Hlp & Hrs) Hps IH]; intros qs Hqs E.
  - destruct Hqs as [|[j lq ss] qs _ _]; [done|]. cbn -[to_dec] in E.
    exfalso. apply (f_equal chars) in E. rewrite chars_app in E. by destruct (chars j).
  - destruct Hqs as [|[j lq ss] qs (Hj & Hlq & Hss) Hqs]; cbn -[to_dec] in *.
    + exfalso. apply (f_equal chars) in E. rewrite chars_app in E. by destruct (chars i).
    + apply sep_split in E as [-> E]; [|done|done].
      apply digits_split in E as [-> E]; [|done..].
      apply sep_split in E as [E1 E]; [|by apply digest_ports_nul_free..].
      apply digest_ports_inj in E1 as ->; [|done..].
      specialize (IH qs Hqs E). by injection IH as ->.
Qed.

(** ** The manager against the contract of a backend *)

(** The contract documented at [trait Backend]: a success installs the desired
    plan; an error that is not a [StateUncertainError] leaves the forwarding
    state as it was. *)
Class BackendContract {B BackendError : Type}
    (backend_apply : B -> Plan -> B * result BackendError unit)
    (uncertain : BackendError -> bool) (installed : B -> Plan) : Prop := {
  backend_ok b desired b' :
    backend_apply b desired = (b', Ok tt) -> installed b' = desired;
  backend_err b desired b' e :
    backend_apply b desired = (b', Err e) -> uncertain e = false -> installed b' = installed b
}.

Section manager_properties.
Context {B BackendError : Type} (backend_apply : B -> Plan -> B * result BackendError unit).
Local Abbreviation apply := (manager_apply backend_apply).
Local Abbreviation close := (manager_close backend_apply).

Inductive manager_call : Type :=
  | CallApply (desired : Plan)
  | CallClose.

Definition manager_step (s : manager_state B) (c : manager_call)
    : manager_state B * result (@ManagerError BackendError) unit :=
  match c with CallApply desired => apply s desired | CallClose => close s end.

(** Serialized calls (the mutex) and their answers. *)
Fixpoint manager_run (s : manager_state B) (cs : list manager_call)
    : manager_state B * list (result (@ManagerError BackendError) unit) :=
  match cs with
  | [] => (s, [])
  | c :: cs =>
      let '(s, r) := manager_step s c in
      let '(s, rs) := manager_run s cs in (s, r :: rs)
  end.

(** What the calls should have left installed: the last plan whose [apply]
    succeeded, nothing after a successful [close]. *)
Fixpoint expected (p : Plan) (cs : list manager_call)
    (rs : list (result (@ManagerError BackendError) unit)) : Plan :=
  match cs, rs with
  | CallApply desired :: cs, Ok _ :: rs => expected desired cs rs
  | CallApply _ :: cs, Err _ :: rs => expected p cs rs
  | CallClose :: cs, Ok _ :: rs => expected plan_default cs rs
  | CallClose :: cs, Err _ :: rs => expected p cs rs
  | _, _ => p
  end.

Definition certain (uncertain : BackendError -> bool) (r : result (@ManagerError BackendError) unit)
    : Prop :=
  match r with Err (BackendFailed e) => uncertain e = false | _ => True end.

Lemma manager_run_closed s cs :
  closed _ s = true ->
  manager_run s cs =
    (s, (fun c => match c with CallApply _ => Err RouterClosed | CallClose => Ok tt end) <$> cs).
Proof.
  intros Hs. induction cs as [|c cs IH]; [done|]. cbn.
  assert (manager_step s c =
    (s, match c with CallApply _ => Err RouterClosed | CallClose => Ok tt end)) as ->.
  { destruct c; cbn; unfold manager_apply, manager_close; by rewrite Hs. }
  by rewrite IH.
Qed.

(** A manager whose [close] succeeded never touches its backend again: every
    later [apply] is refused with [RouterClosedError], every later [close]
    succeeds, and the state stays exactly as [close] left it.  A [close] that
    failed leaves the manager open, so it can be retried. *)
Theorem manager_close_final s s' r cs :
  close s = (s', r) ->
  match r with
  | Ok _ => closed _ s' = true /\
      manager_run s' cs =
        (s', (fun c => match c with CallApply _ => Err RouterClosed | CallClose => Ok tt end) <$> cs)
  | Err _ => closed _ s = false /\ closed _ s' = false
  end.
Proof.
  unfold manager_close. destruct (closed _ s) eqn:Hs.
  - intros [= <- <-]. split; [done|]. by apply manager_run_closed.
  - destruct (backend_apply _ plan_default) as [b [[]|e]]; intros [= <- <-]; [|by cbn].
    split; [done|]. by apply manager_run_closed.
Qed.

Context (uncertain : BackendError -> bool) (installed : B -> Plan)
  `{!BackendContract backend_apply uncertain installed}.

Definition manager_inv (s : manager_state B) : Prop :=
  closed _ s = true -> installed (backend _ s) = plan_default.

Lemma manager_step_inv s c s' r :
  manager_inv s -> manager_step s c = (s', r) -> certain uncertain r ->
  manager_inv s' /\
  installed (backend _ s') = expected (installed (backend _ s)) [c] [r].
Proof.
  unfold manager_inv. intros Hi. destruct c as [desired|]; cbn;
    unfold manager_apply, manager_close; destruct (closed _ s) eqn:Hs.
  - intros [= <- <-] _. cbn. by rewrite Hs.
  - destruct (backend_apply _ desired) as [b [[]|e]] eqn:E; intros [= <- <-]; cbn; intros Hc;
      (split; [congruence|]); eauto using backend_ok, backend_err.
  - intros [= <- <-] _. rewrite Hs. auto.
  - destruct (backend_apply _ plan_default) as [b [[]|e]] eqn:E; intros [= <- <-]; cbn; intros Hc;
      (split; [try congruence; intros _|]); eauto using backend_ok, backend_err.
Qed.

(** Behind any sequence of calls, the forwarding state is the last plan that
    was acknowledged, and is empty once the manager is closed, provided no
    call ended with an uncertain state. *)
Theorem manager_run_installed s cs s' rs :
  manager_inv s -> manager_run s cs = (s', rs) -> Forall (certain uncertain) rs ->
  manager_inv s' /\ installed (backend _ s') = expected (installed (backend _ s)) cs rs.
Proof.
  revert s s' rs. induction cs as [|c cs IH]; intros s s' rs Hi; cbn [manager_run].
  - by intros [= <- <-] _.
  - destruct (manager_step s c) as [s1 r] eqn:E1.
    destruct (manager_run s1 cs) as [s2 rs'] eqn:E2.
    intros [= <- <-] [Hr Hrs]%Forall_cons.
    destruct (manager_step_inv s c s1 r Hi E1 Hr) as [Hi1 V1].
    destruct (IH s1 s2 rs' Hi1 E2 Hrs) as [Hi2 ->]. split; [done|]. rewrite V1.
    by destruct c, r.
Qed.
End manager_properties.

(** ** Witnesses *)

(** Two Hysteria2 nodes; the configuration bytes stand for the decoded
    configuration. *)
Module HoppingExample.
Definition config (lp : Z) (hopping : string) : Hysteria2SalamanderConfig.t :=
  let d := Hysteria2SalamanderConfig_default in
  Hysteria2SalamanderConfig.mk "" "" "" lp hopping 0 0 true
    (Hysteria2SalamanderConfig.obfs d) None (Hysteria2SalamanderConfig.tls d) [].

Definition from_slice (bytes : string) : result unit Hysteria2SalamanderConfig.t :=
  if bool_decide (bytes = "a") then Ok (config 443 "400-450,1000-2000")
  else if bool_decide (bytes = "b") then Ok (config 3000 "3000-4000")
  else Err tt.

Definition a : NodeInstance.t := NodeInstance.mk "a" HYSTERIA2_SALAMANDER_ID 1 "a" [].
Definition b : NodeInstance.t := NodeInstance.mk "b" HYSTERIA2_SALAMANDER_ID 1 "b" [].
Definition topology (ns : list NodeInstance.t) : MachineTopology.t :=
  MachineTopology.mk "m" 1 ns [] None None None.

Definition plan : Plan := mkPlan [
  Redirect.mk "a" 443 [PortRange.mk 400 442; PortRange.mk 444 450; PortRange.mk 1000 2000];
  Redirect.mk "b" 3000 [PortRange.mk 3001 4000]].

(** A backend that refuses plans of more than one redirect. *)
Definition backend_apply (b : Plan) (desired : Plan) : Plan * result unit unit :=
  if (1 <? length (redirects desired))%nat then (b, Err tt) else (desired, Ok tt).

#[local] Instance backend_contract :
  BackendContract backend_apply (fun _ => false) (fun b => b).
Proof.
  split; unfold backend_apply; intros b d; destruct (1 <? _)%nat; naive_solver.
Qed.

Definition small : Plan := mkPlan [Redirect.mk "b" 3000 [PortRange.mk 3001 4000]].

Lemma build_plan_safe_witness :
  build_plan from_slice (topology [b; a]) = Ok plan /\
  covers [PortRange.mk 3001 4000] 443 = false.
Proof.
  assert (build_plan from_slice (topology [b; a]) = Ok plan) as H by (vm_compute; reflexivity).
  split; [exact H|].
  apply (proj2 (build_plan_safe from_slice (topology [b; a]) plan H)
           (Redirect.mk "b" 3000 [PortRange.mk 3001 4000]) a 443
           [PortRange.mk 400 450; PortRange.mk 1000 2000]);
    [set_solver|set_solver|vm_compute; reflexivity|lia].
Defined.

Lemma build_plan_forwards_witness :
  exists r, r ∈ redirects plan /\ Redirect.node_id r = "a" /\
    Redirect.listen_port r = 443 /\ covers (Redirect.ports r) 1500 = true.
Proof.
  apply (build_plan_forwards from_slice (topology [b; a]) plan a 443
           [PortRange.mk 400 450; PortRange.mk 1000 2000]);
    [vm_compute; reflexivity|set_solver|vm_compute; reflexivity|vm_compute; by split].
Defined.

Lemma build_plan_order_witness : build_plan from_slice (topology [a; b]) = Ok plan.
Proof.
  apply (build_plan_order from_slice (topology [b; a])); [|vm_compute; reflexivity].
  cbn. constructor.
Defined.

Lemma plan_is_wf : plan_wf plan.
Proof.
  unfold plan_wf, nul_free, free_of. cbn.
  repeat (constructor; cbn; [split_and!; [|lia|]|]); try by constructor.
  all: repeat (constructor; [first [discriminate|unfold valid; cbn; unfold u16_max; lia]|]).
  all: constructor.
Qed.

Lemma digest_bytes_inj_witness : plan = mkPlan (redirects plan).
Proof.
  apply (digest_bytes_inj plan (mkPlan (redirects plan)) plan_is_wf plan_is_wf).
  vm_compute. reflexivity.
Defined.

Lemma manager_close_final_witness :
  manager_run backend_apply (mkManager _ plan_default true) [CallApply small; CallClose]
  = (mkManager _ plan_default true, [Err RouterClosed; Ok tt]).
Proof.
  apply (manager_close_final backend_apply (mkManager _ small false)
           (mkManager _ plan_default true) (Ok tt) [CallApply small; CallClose]).
  vm_compute. reflexivity.
Defined.

Lemma manager_run_installed_witness :
  manager_inv (fun b => b) (mkManager _ plan_default true).
Proof.
  apply (manager_run_installed backend_apply (fun _ => false) (fun b => b)
           (mkManager _ plan_default false)
           [CallApply small; CallApply plan; CallClose] (mkManager _ plan_default true)
           [Ok tt; Err (BackendFailed tt); Ok tt]);
    [intros H; discriminate H|vm_compute; reflexivity|repeat constructor].
Defined.
End HoppingExample.
