(* ===== verification/Traffic.v ===== *)
(** * Traffic aggregation: [crates/node-agent/src/traffic.rs]

    [Aggregator] merges runtime counter deltas by identity and UTC hour, emits
    the ones that crossed the byte threshold or the age limit, and takes reports
    back when the output queue refuses them.

    A [SystemTime] is a count of nanoseconds since the epoch in the range of a
    64-bit count of seconds; the clock is the argument [now].  The iteration
    order of the [HashMap] and the order an unstable sort leaves equal reports
    in are the two things the code does not fix; [flush_deterministic] shows
    neither can be seen.

    Theorems: bytes are conserved per identity and hour by [observe], [flush]
    and [restore]; a flush emits exactly the counters that are due; reports are
    stamped with a whole minute of the counter's own hour; a flush that is
    taken back leaves every counter as it was up to the minute rounding. *)

From Stdlib Require Import ZArith Lia.
From S2P Require Import Prelude.

Open Scope Z_scope.

(** ** Time *)

Definition nanos : Z := 1000000000.
Definition time_min : Z := i64_min * nanos.
Definition time_max : Z := i64_max * nanos + (nanos - 1).

(** [SystemTime::checked_add] and [checked_sub] with a signed span. *)
Definition checked_time (t : Z) : option Z :=
  if (time_min <=? t) && (t <=? time_max) then Some t else None.

Definition unix_seconds (time : Z) : Z :=
  if 0 <=? time then sat i64_max (time / nanos)
  else
    let duration := - time in
    let seconds := sat i64_max (duration / nanos) in
    if duration mod nanos =? 0 then - seconds
    else Z.max i64_min (Z.max i64_min (- seconds) - 1).

Definition system_time_from_unix (seconds : Z) : Z :=
  default 0 (checked_time (seconds * nanos)).

Definition OBSERVATION_BUCKET_SECONDS : Z := 60.
Definition AGGREGATION_BUCKET_SECONDS : Z := 60 * 60.

(** [i64] multiplication as a release build performs it. *)
Definition wrapping_i64 (z : Z) : Z := (z + 2 ^ 63) mod 2 ^ 64 - 2 ^ 63.

Definition observation_bucket_start (observed_at : Z) : Z :=
  system_time_from_unix
    (wrapping_i64 (unix_seconds observed_at / OBSERVATION_BUCKET_SECONDS
                   * OBSERVATION_BUCKET_SECONDS)).

(** ** Data *)

Module TrafficEvent.
Record t : Type := mk {
  machine_id : string;
  node_id : string;
  user_id : string;
  protocol : string;
  uplink_bytes : Z;
  downlink_bytes : Z;
  observed_at : option Z
}.
End TrafficEvent.

Module Report.
Record t : Type := mk {
  machine_id : string;
  node_id : string;
  user_id : string;
  protocol : string;
  uplink_bytes : Z;
  downlink_bytes : Z;
  observed_at : Z;
  first_observed_at : Z
}.
#[global] Instance eq_dec : EqDecision t.
Proof. solve_decision. Defined.
End Report.

Module CounterKey.
Record t : Type := mk {
  machine_id : string;
  node_id : string;
  user_id : string;
  protocol : string;
  observation_hour : Z
}.
#[global] Instance eq_dec : EqDecision t.
Proof. solve_decision. Defined.
#[global] Instance countable : Countable t.
Proof.
  refine (inj_countable'
    (fun k => (machine_id k, node_id k, user_id k, protocol k, observation_hour k))
    (fun '(m, n, u, p, h) => mk m n u p h) _).
  by intros [].
Defined.
End CounterKey.

Module CounterValue.
Record t : Type := mk {
  uplink : Z;
  downlink : Z;
  first_observed_at : Z;
  last_observed_at : Z
}.
End CounterValue.

Abbreviation counters := (gmap CounterKey.t CounterValue.t).

Record Aggregator : Type := mkAggregator {
  min_report_delta_bytes : Z;
  max_report_delay_seconds : Z;
  state : counters
}.

Definition DEFAULT_REPORT_DELTA_BYTES : Z := 25 * 1024 * 1024.
Definition DEFAULT_MAX_REPORT_DELAY : Z := 30 * 60.

Definition aggregator_new (min_report_delta_bytes : Z) : Aggregator :=
  mkAggregator min_report_delta_bytes DEFAULT_MAX_REPORT_DELAY ∅.

Definition set_max_report_delay_seconds (a : Aggregator) (seconds : Z) : Aggregator :=
  mkAggregator (min_report_delta_bytes a) seconds (state a).

Definition with_state (a : Aggregator) (c : counters) : Aggregator :=
  mkAggregator (min_report_delta_bytes a) (max_report_delay_seconds a) c.

Definition observed_at_unix (r : Report.t) : Z := unix_seconds (Report.observed_at r).

(** ** Operations *)

Definition add_locked (c : counters) (key : CounterKey.t) (uplink downlink : Z)
    (first_observed_at observed_at : Z) : counters :=
  let value := default (CounterValue.mk 0 0 first_observed_at observed_at) (c !! key) in
  <[key := CounterValue.mk
             (wrapping_add64 (CounterValue.uplink value) uplink)
             (wrapping_add64 (CounterValue.downlink value) downlink)
             (Z.min (CounterValue.first_observed_at value) first_observed_at)
             (Z.max (CounterValue.last_observed_at value) observed_at)]> c.

Definition observe (now : Z) (a : Aggregator) (event : TrafficEvent.t) : Aggregator :=
  let observed_at := default now (TrafficEvent.observed_at event) in
  let key := CounterKey.mk (TrafficEvent.machine_id event) (TrafficEvent.node_id event)
               (TrafficEvent.user_id event) (TrafficEvent.protocol event)
               (unix_seconds observed_at / AGGREGATION_BUCKET_SECONDS) in
  with_state a (add_locked (state a) key (TrafficEvent.uplink_bytes event)
                  (TrafficEvent.downlink_bytes event) observed_at observed_at).

(** The counter a report is taken back into. *)
Definition report_key (r : Report.t) : CounterKey.t :=
  CounterKey.mk (Report.machine_id r) (Report.node_id r) (Report.user_id r)
    (Report.protocol r) (unix_seconds (Report.observed_at r) / AGGREGATION_BUCKET_SECONDS).

Definition restore_one (c : counters) (report : Report.t) : counters :=
  if (Report.uplink_bytes report =? 0) && (Report.downlink_bytes report =? 0) then c
  else add_locked c (report_key report) (Report.uplink_bytes report)
         (Report.downlink_bytes report) (Report.first_observed_at report)
         (Report.observed_at report).

Definition restore (a : Aggregator) (reports : list Report.t) : Aggregator :=
  with_state a (fold_left restore_one reports (state a)).

Definition should_report (a : Aggregator) (value : CounterValue.t) (now : Z) : bool :=
  let total := wrapping_add64 (CounterValue.uplink value) (CounterValue.downlink value) in
  if total =? 0 then false
  else if (min_report_delta_bytes a =? 0) || (min_report_delta_bytes a <=? total) then true
  else if max_report_delay_seconds a <=? 0 then false
  else
    match checked_time (CounterValue.first_observed_at value + max_report_delay_seconds a * nanos) with
    | Some deadline => deadline <=? now
    | None => false
    end.

Definition is_zero (value : CounterValue.t) : bool :=
  (CounterValue.uplink value =? 0) && (CounterValue.downlink value =? 0).

(** The predicate given to [extract_if]. *)
Definition extracted (a : Aggregator) (force : bool) (now : Z) (value : CounterValue.t) : bool :=
  is_zero value || force || should_report a value now.

Definition report_of (key : CounterKey.t) (value : CounterValue.t) : Report.t := {|
  Report.machine_id := CounterKey.machine_id key;
  Report.node_id := CounterKey.node_id key;
  Report.user_id := CounterKey.user_id key;
  Report.protocol := CounterKey.protocol key;
  Report.uplink_bytes := CounterValue.uplink value;
  Report.downlink_bytes := CounterValue.downlink value;
  Report.observed_at := observation_bucket_start (CounterValue.last_observed_at value);
  Report.first_observed_at := CounterValue.first_observed_at value
|}.

(** The loop over the extracted entries, in the order the map yields them. *)
Definition emit (a : Aggregator) (force : bool) (now : Z)
    (entries : list (CounterKey.t * CounterValue.t)) : list Report.t :=
  omap (fun '(key, value) =>
    if extracted a force now value
    then if is_zero value then None else Some (report_of key value)
    else None) entries.

Definition report_cmp (l r : Report.t) : comparison :=
  then_with (Z.compare (Report.first_observed_at l) (Report.first_observed_at r))
 (then_with (Z.compare (Report.observed_at l) (Report.observed_at r))
 (then_with (String.compare (Report.machine_id l) (Report.machine_id r))
 (then_with (String.compare (Report.node_id l) (Report.node_id r))
 (then_with (String.compare (Report.user_id l) (Report.user_id r))
            (String.compare (Report.protocol l) (Report.protocol r)))))).

Definition flush_inner (a : Aggregator) (force : bool) (now : Z) : Aggregator * list Report.t :=
  (with_state a (filter (fun '(_, value) => extracted a force now value = false) (state a)),
   sort_by (cmp_leb report_cmp) (emit a force now (map_to_list (state a)))).

Definition flush (a : Aggregator) (now : Z) : Aggregator * list Report.t := flush_inner a false now.
Definition flush_all (a : Aggregator) (now : Z) : Aggregator * list Report.t := flush_inner a true now.

(** ** Lemmas: time *)

(** The earliest whole minute of the range; times before it lie 292 billion
    years before the epoch. *)
Definition first_minute : Z := -9223372036854775800.

Definition sane (t : Z) : Prop := first_minute * nanos <= t <= time_max.

Definition minute (t : Z) : Z := t / nanos / 60 * 60.

Lemma unix_seconds_floor t : sane t -> unix_seconds t = t / nanos.
Proof.
  unfold sane, unix_seconds, sat, time_max, first_minute, nanos, i64_max, i64_min. intros H.
  Z.to_euclidean_division_equations.
  destruct (Z.leb_spec 0 t); [lia|]. destruct (Z.eqb_spec r0 0); lia.
Qed.

Lemma sane_seconds t : sane t -> first_minute <= t / nanos <= i64_max.
Proof.
  unfold sane, time_max, first_minute, nanos, i64_max. intros H.
  Z.to_euclidean_division_equations. lia.
Qed.

Lemma bucket_start t : sane t -> observation_bucket_start t = minute t * nanos.
Proof.
  intros H. unfold observation_bucket_start. rewrite unix_seconds_floor by done.
  pose proof (sane_seconds t H) as Hs. unfold minute, OBSERVATION_BUCKET_SECONDS.
  assert (first_minute <= t / nanos / 60 * 60 <= i64_max) as Hm.
  { unfold first_minute, i64_max in *. Z.to_euclidean_division_equations. lia. }
  unfold wrapping_i64. rewrite Z.mod_small by (unfold first_minute, i64_max in *; lia).
  rewrite Z.add_simpl_r. unfold system_time_from_unix, checked_time.
  replace (_ && _) with true; [done|]. symmetry. apply andb_true_iff.
  unfold first_minute, time_min, time_max, nanos, i64_max, i64_min in *. lia.
Qed.

Lemma sane_bucket t : sane t -> sane (minute t * nanos).
Proof.
  intros H. pose proof (sane_seconds t H). unfold sane, minute, time_max, first_minute, nanos, i64_max in *.
  Z.to_euclidean_division_equations. lia.
Qed.

Lemma bucket_seconds t : sane t -> unix_seconds (minute t * nanos) = minute t.
Proof. intros H. rewrite unix_seconds_floor by (by apply sane_bucket). by apply Z.div_mul. Qed.

Lemma minute_hour t : minute t / 3600 = t / nanos / 3600.
Proof. unfold minute. Z.to_euclidean_division_equations. lia. Qed.

Lemma sane_max a b : sane a -> sane b -> sane (Z.max a b).
Proof. unfold sane. lia. Qed.

(** ** The invariant of the counters *)

Definition value_ok (k : CounterKey.t) (v : CounterValue.t) : Prop :=
  sane (CounterValue.last_observed_at v) /\
  CounterValue.last_observed_at v / nanos / 3600 = CounterKey.observation_hour k /\
  is_u64 (CounterValue.uplink v) /\ is_u64 (CounterValue.downlink v).

Definition counters_ok (c : counters) : Prop := map_Forall value_ok c.

Definition event_ok (now : Z) (e : TrafficEvent.t) : Prop :=
  sane (default now (TrafficEvent.observed_at e)) /\
  is_u64 (TrafficEvent.uplink_bytes e) /\ is_u64 (TrafficEvent.downlink_bytes e).

Definition report_ok (r : Report.t) : Prop :=
  sane (Report.observed_at r) /\ is_u64 (Report.uplink_bytes r) /\ is_u64 (Report.downlink_bytes r).

Lemma hour_max a b h : a / nanos / 3600 = h -> b / nanos / 3600 = h -> Z.max a b / nanos / 3600 = h.
Proof. intros. by destruct (Z.max_spec a b) as [[_ ->]|[_ ->]]. Qed.

Lemma add_locked_ok c k u d f o :
  counters_ok c -> sane o -> o / nanos / 3600 = CounterKey.observation_hour k ->
  counters_ok (add_locked c k u d f o).
Proof.
  intros Hc Ho Hk. unfold add_locked. apply map_Forall_insert_2; [|done].
  unfold value_ok; cbn. destruct (c !! k) as [v|] eqn:E; cbn.
  - destruct (Hc k v E) as (H1 & H2 & _). split; [by apply sane_max|].
    split; [by apply hour_max|]. split; apply wrapping_add64_range.
  - rewrite Z.max_id. split; [done|]. split; [done|]. split; apply wrapping_add64_range.
Qed.

Lemma observe_ok now a e : counters_ok (state a) -> event_ok now e -> counters_ok (state (observe now a e)).
Proof.
  intros Hc (Ht & _). unfold observe. cbn. apply add_locked_ok; [done|done|]. cbn.
  by rewrite unix_seconds_floor.
Qed.

Lemma restore_one_ok c r : counters_ok c -> report_ok r -> counters_ok (restore_one c r).
Proof.
  intros Hc (Ht & _). unfold restore_one. destruct (_ && _); [done|].
  apply add_locked_ok; [done|done|]. cbn. by rewrite unix_seconds_floor.
Qed.

Lemma restore_ok a rs : counters_ok (state a) -> Forall report_ok rs -> counters_ok (state (restore a rs)).
Proof.
  intros Hc Hr. unfold restore. cbn. revert Hc. generalize (state a).
  induction Hr; cbn; eauto using restore_one_ok.
Qed.

Lemma filter_ok (P : CounterKey.t * CounterValue.t -> Prop) `{!forall x, Decision (P x)} c :
  counters_ok c -> counters_ok (filter P c).
Proof. intros Hc k v [Hk _]%map_lookup_filter_Some. exact (Hc k v Hk). Qed.

Lemma elem_of_emit a force now l r :
  r ∈ emit a force now l <->
  exists k v, (k, v) ∈ l /\ is_zero v = false /\ extracted a force now v = true /\ r = report_of k v.
Proof.
  unfold emit. rewrite list_elem_of_omap. split.
  - intros ([k v] & Hin & H). destruct (extracted _ _ _ _) eqn:E, (is_zero v) eqn:Z; simplify_eq. eauto 10.
  - intros (k & v & Hin & Z & E & ->). exists (k, v). by rewrite E, Z.
Qed.

Lemma elem_of_flush a force now r :
  r ∈ (flush_inner a force now).2 <->
  exists k v, state a !! k = Some v /\ is_zero v = false /\ extracted a force now v = true /\
    r = report_of k v.
Proof.
  cbn. rewrite elem_of_sort_by, elem_of_emit. by setoid_rewrite elem_of_map_to_list.
Qed.

Lemma report_of_key k v : value_ok k v -> report_key (report_of k v) = k.
Proof.
  intros (Hs & Hh & _). destruct k as [m n u p h]. unfold report_key, report_of; cbn in *. f_equal.
  rewrite bucket_start, bucket_seconds by done. unfold AGGREGATION_BUCKET_SECONDS.
  change (60 * 60) with 3600. by rewrite minute_hour.
Qed.

Lemma report_of_ok k v : value_ok k v -> report_ok (report_of k v).
Proof.
  intros (Hs & _ & Hu & Hd). unfold report_ok. cbn. rewrite bucket_start by done.
  auto using sane_bucket.
Qed.

Lemma flush_ok a force now :
  counters_ok (state a) ->
  counters_ok (state (flush_inner a force now).1) /\ Forall report_ok (flush_inner a force now).2.
Proof.
  intros Hc. split; [by apply filter_ok|]. apply Forall_forall.
  intros r (k & v & Hk & _ & _ & ->)%elem_of_flush. by apply report_of_ok, Hc.
Qed.

(** ** Byte accounting *)

Inductive direction : Type := Up | Down.

Definition pick (d : direction) (up down : Z) : Z := match d with Up => up | Down => down end.

(** Bytes a set of counters holds for a key, bytes a batch of reports carries. *)
Definition held (d : direction) (c : counters) (k : CounterKey.t) : Z :=
  from_option (fun v => pick d (CounterValue.uplink v) (CounterValue.downlink v)) 0 (c !! k).

Definition carries (d : direction) (k : CounterKey.t) (r : Report.t) : Z :=
  if decide (report_key r = k) then pick d (Report.uplink_bytes r) (Report.downlink_bytes r) else 0.

Definition carried (d : direction) (k : CounterKey.t) (rs : list Report.t) : Z :=
  foldr (fun r acc => carries d k r + acc) 0 rs.

(** Equality of byte counts as 64-bit counters see it. *)
Definition same_bytes (a b : Z) : Prop := a mod 2 ^ 64 = b mod 2 ^ 64.

#[export] Instance same_bytes_equiv : Equivalence same_bytes.
Proof. split; unfold same_bytes; [intros ?|intros ???|intros ?????]; congruence. Qed.

#[export] Instance same_bytes_add : Proper (same_bytes ==> same_bytes ==> same_bytes) Z.add.
Proof.
  intros a a' Ha b b' Hb. unfold same_bytes in *.
  rewrite (Z.add_mod a b), (Z.add_mod a' b'), Ha, Hb by lia. done.
Qed.

Lemma wrapping_same a b : same_bytes (wrapping_add64 a b) (a + b).
Proof. unfold same_bytes, wrapping_add64. by rewrite Z.mod_mod by lia. Qed.

Lemma carried_app d k l1 l2 : carried d k (l1 ++ l2) = carried d k l1 + carried d k l2.
Proof. unfold carried. induction l1; cbn; lia. Qed.

Lemma carried_perm d k l1 l2 : l1 ≡ₚ l2 -> carried d k l1 = carried d k l2.
Proof. unfold carried. induction 1; cbn; lia. Qed.

Lemma held_add d c k u w f o k' :
  same_bytes (held d (add_locked c k u w f o) k')
             (held d c k' + if decide (k = k') then pick d u w else 0).
Proof.
  unfold held, add_locked. cbv zeta. destruct (decide (k = k')) as [<-|Hk].
  - rewrite lookup_insert_eq. cbn. destruct d; cbn; rewrite wrapping_same;
      by destruct (c !! k).
  - rewrite lookup_insert_ne by done. by rewrite Z.add_0_r.
Qed.

Lemma held_restore_one d c r k : same_bytes (held d (restore_one c r) k) (held d c k + carries d k r).
Proof.
  unfold restore_one, carries. destruct (_ && _) eqn:E; [|apply held_add].
  assert (pick d (Report.uplink_bytes r) (Report.downlink_bytes r) = 0) as -> by (destruct d; cbn; lia).
  destruct (decide _); by rewrite Z.add_0_r.
Qed.

Lemma held_restore d a rs k :
  same_bytes (held d (state (restore a rs)) k) (held d (state a) k + carried d k rs).
Proof.
  unfold restore. cbn. generalize (state a) as c.
  induction rs as [|r rs IH]; intros c; cbn; [by rewrite Z.add_0_r|].
  rewrite IH, held_restore_one. by rewrite Z.add_assoc.
Qed.

Lemma held_observe d now a e k :
  same_bytes (held d (state (observe now a e)) k)
    (held d (state a) k +
     if decide (CounterKey.mk (TrafficEvent.machine_id e) (TrafficEvent.node_id e)
                  (TrafficEvent.user_id e) (TrafficEvent.protocol e)
                  (unix_seconds (default now (TrafficEvent.observed_at e)) / AGGREGATION_BUCKET_SECONDS) = k)
     then pick d (TrafficEvent.uplink_bytes e) (TrafficEvent.downlink_bytes e) else 0).
Proof. apply held_add. Qed.

Definition taken (d : direction) (a : Aggregator) (force : bool) (now : Z) (v : CounterValue.t) : Z :=
  if extracted a force now v then pick d (CounterValue.uplink v) (CounterValue.downlink v) else 0.

Lemma is_zero_pick d v :
  is_zero v = true -> pick d (CounterValue.uplink v) (CounterValue.downlink v) = 0.
Proof. unfold is_zero. intros [H1 H2]%andb_prop. destruct d; cbn; lia. Qed.

Lemma emit_cons a force now k v l :
  emit a force now ((k, v) :: l) =
    (if extracted a force now v then if is_zero v then [] else [report_of k v] else [])
    ++ emit a force now l.
Proof. unfold emit. cbn. by destruct (extracted _ _ _ _), (is_zero v). Qed.

Lemma emit_filter a force now l :
  emit a force now (filter (fun '(_, w) => extracted a force now w = true) l) = emit a force now l.
Proof.
  induction l as [|[k v] l IH]; [done|]. rewrite filter_cons, emit_cons. case_decide as D.
  - by rewrite emit_cons, IH.
  - apply not_true_is_false in D. by rewrite D.
Qed.

Lemma carried_emit d a force now c k :
  counters_ok c ->
  carried d k (emit a force now (map_to_list c)) = from_option (taken d a force now) 0 (c !! k).
Proof.
  induction c as [|i v c Hi IH] using map_ind; intros Hok; [by rewrite map_to_list_empty|].
  apply map_Forall_insert in Hok as [Hv Hok]; [|done]. specialize (IH Hok).
  assert (emit a force now (map_to_list (<[i:=v]> c)) ≡ₚ
          emit a force now ((i, v) :: map_to_list c)) as Hp.
  { unfold emit. by rewrite map_to_list_insert. }
  rewrite (carried_perm _ _ _ _ Hp).
  rewrite emit_cons, carried_app, IH.
  destruct (decide (i = k)) as [<-|Hne].
  - rewrite Hi, lookup_insert_eq. cbn. unfold taken.
    destruct (extracted _ _ _ v); [|done]. destruct (is_zero v) eqn:Z.
    + cbn. by rewrite is_zero_pick.
    + cbn. unfold carries. rewrite report_of_key, decide_True by done. cbn. lia.
  - rewrite lookup_insert_ne by done.
    destruct (extracted _ _ _ v), (is_zero v); try done. cbn. unfold carries.
    by rewrite report_of_key, decide_False by done.
Qed.

Lemma held_flush d a force now k :
  counters_ok (state a) ->
  held d (state a) k = held d (state (flush_inner a force now).1) k
                       + carried d k (flush_inner a force now).2.
Proof.
  intros Hok. unfold flush_inner. cbn [fst snd with_state state].
  rewrite (carried_perm _ _ _ _ (sort_by_perm _ _)), carried_emit by done.
  unfold held. rewrite map_lookup_filter. destruct (state a !! k) as [v|]; [|done]. cbn.
  unfold taken. destruct (extracted a force now v); case_guard; try done; cbn; lia.
Qed.

(** ** Properties *)

Inductive traffic_op : Type :=
  | Observe (now : Z) (event : TrafficEvent.t)
  | Flush (force : bool) (now : Z)
  | Restore (reports : list Report.t).

Definition traffic_step (a : Aggregator) (op : traffic_op) : Aggregator * list Report.t :=
  match op with
  | Observe now event => (observe now a event, [])
  | Flush force now => flush_inner a force now
  | Restore reports => (restore a reports, [])
  end.

Fixpoint traffic_run (a : Aggregator) (ops : list traffic_op) : Aggregator * list Report.t :=
  match ops with
  | [] => (a, [])
  | op :: ops =>
      let '(a, out) := traffic_step a op in
      let '(a, outs) := traffic_run a ops in (a, out ++ outs)
  end.

Definition op_ok (op : traffic_op) : Prop :=
  match op with
  | Observe now event => event_ok now event
  | Flush _ _ => True
  | Restore reports => Forall report_ok reports
  end.

(** The bytes an operation brings in for a key. *)
Definition brings (d : direction) (k : CounterKey.t) (op : traffic_op) : Z :=
  match op with
  | Observe now e =>
      if decide (CounterKey.mk (TrafficEvent.machine_id e) (TrafficEvent.node_id e)
                   (TrafficEvent.user_id e) (TrafficEvent.protocol e)
                   (unix_seconds (default now (TrafficEvent.observed_at e)) / AGGREGATION_BUCKET_SECONDS)
                 = k)
      then pick d (TrafficEvent.uplink_bytes e) (TrafficEvent.downlink_bytes e) else 0
  | Flush _ _ => 0
  | Restore reports => carried d k reports
  end.

Lemma traffic_step_conserves d k a op a' out :
  counters_ok (state a) -> op_ok op -> traffic_step a op = (a', out) ->
  counters_ok (state a') /\ Forall report_ok out /\
  same_bytes (held d (state a) k + brings d k op) (held d (state a') k + carried d k out).
Proof.
  intros Hok Hop. destruct op as [now e|force now|rs]; cbn [traffic_step brings op_ok] in *.
  - intros [= <- <-]. split; [by apply observe_ok|]. split; [constructor|].
    rewrite held_observe. cbn. by rewrite Z.add_0_r.
  - intros E. pose proof (flush_ok a force now Hok) as [H1 H2].
    pose proof (held_flush d a force now k Hok) as H3. rewrite E in *. cbn in *.
    split; [done|]. split; [done|]. by rewrite Z.add_0_r, H3.
  - intros [= <- <-]. split; [by apply restore_ok|]. split; [constructor|].
    rewrite held_restore. cbn. by rewrite Z.add_0_r.
Qed.

(** Nothing is lost and nothing is invented: over any sequence of operations,
    for every identity, hour and direction, what was held plus what came in is
    what is still held plus what was handed out, as 64-bit counters. *)
Theorem traffic_conserved d k a ops a' out :
  counters_ok (state a) -> Forall op_ok ops -> traffic_run a ops = (a', out) ->
  counters_ok (state a') /\ Forall report_ok out /\
  same_bytes (held d (state a) k + foldr (fun op acc => brings d k op + acc) 0 ops)
             (held d (state a') k + carried d k out).
Proof.
  intros Hok Hops. revert a a' out Hok.
  induction Hops as [|op ops Hop Hops IH]; cbn [traffic_run foldr]; intros a a' out Hok.
  - intros [= <- <-]. split; [done|split; [constructor|done]].
  - destruct (traffic_step a op) as [a1 out1] eqn:E1.
    destruct (traffic_run a1 ops) as [a2 out2] eqn:E2. intros [= <- <-].
    destruct (traffic_step_conserves d k a op a1 out1 Hok Hop E1) as (H1 & R1 & C1).
    destruct (IH a1 a2 out2 H1 E2) as (H2 & R2 & C2).
    split; [done|]. split; [by apply Forall_app_2|].
    rewrite Z.add_assoc, C1, carried_app.
    rewrite <- Z.add_assoc, (Z.add_comm (carried _ _ _)), Z.add_assoc, C2.
    by rewrite <- Z.add_assoc, (Z.add_comm (carried _ _ out2)).
Qed.

(** When a counter is due, in unbounded arithmetic. *)
Definition due (a : Aggregator) (force : bool) (now : Z) (v : CounterValue.t) : Prop :=
  let total := CounterValue.uplink v + CounterValue.downlink v in
  force = true \/ min_report_delta_bytes a <= total \/
  (0 < max_report_delay_seconds a /\
   CounterValue.first_observed_at v + max_report_delay_seconds a * nanos <= Z.min now time_max).

Lemma extracted_due a force now v :
  is_u64 (CounterValue.uplink v) -> is_u64 (CounterValue.downlink v) ->
  CounterValue.uplink v + CounterValue.downlink v <= u64_max ->
  0 <= min_report_delta_bytes a -> time_min <= CounterValue.first_observed_at v ->
  is_zero v = false ->
  extracted a force now v = true <-> due a force now v.
Proof.
  unfold is_u64, u64_max, is_zero. intros Hu Hd Ht Hm Hf Hz.
  assert (0 < CounterValue.uplink v + CounterValue.downlink v) as Hp.
  { apply andb_false_iff in Hz as [Hz%Z.eqb_neq|Hz%Z.eqb_neq]; lia. }
  unfold extracted, is_zero, due, should_report, wrapping_add64, checked_time. rewrite Hz. cbn.
  rewrite Z.mod_small by lia. destruct force; [by split; auto|]. cbn.
  destruct (Z.eqb_spec (CounterValue.uplink v + CounterValue.downlink v) 0); [lia|].
  destruct (Z.eqb_spec (min_report_delta_bytes a) 0); cbn; [split; [right; left; lia|done]|].
  destruct (Z.leb_spec (min_report_delta_bytes a) (CounterValue.uplink v + CounterValue.downlink v));
    [split; auto|].
  destruct (Z.leb_spec (max_report_delay_seconds a) 0); [split; [done|intros [?|[?|?]]; try done; lia]|].
  set (deadline := CounterValue.first_observed_at v + max_report_delay_seconds a * nanos).
  destruct (Z.leb_spec time_min deadline) as [_|Hlow];
    [|exfalso; unfold deadline, time_min, nanos in *; lia].
  destruct (Z.leb_spec deadline time_max) as [Hhigh|Hhigh]; cbn; rewrite ?Z.leb_le;
    (split; [intros; right; right; lia|intros [?|[?|?]]; [done|lia|lia]]).
Qed.

(** A flush reports exactly the non-zero counters that are due, each in full;
    a counter that is not due stays untouched, and nothing due is left. *)
Theorem flush_exact a force now a' reports :
  counters_ok (state a) -> 0 <= min_report_delta_bytes a ->
  map_Forall (fun _ v => time_min <= CounterValue.first_observed_at v /\
                CounterValue.uplink v + CounterValue.downlink v <= u64_max) (state a) ->
  flush_inner a force now = (a', reports) ->
  (forall r, r ∈ reports <->
     exists k v, state a !! k = Some v /\ is_zero v = false /\ due a force now v /\ r = report_of k v) /\
  (forall k v, state a' !! k = Some v <->
     state a !! k = Some v /\ is_zero v = false /\ ~ due a force now v).
Proof.
  intros Hok Hmin Hsmall E.
  assert (forall k v, state a !! k = Some v -> is_zero v = false ->
            extracted a force now v = true <-> due a force now v) as Hdue.
  { intros k v Hk Hz. destruct (Hok k v Hk) as (_ & _ & Hu & Hd).
    destruct (Hsmall k v Hk). by apply extracted_due. }
  split.
  - intros r. pose proof (elem_of_flush a force now r) as H. rewrite E in H. rewrite H.
    split; intros (k & v & Hk & Hz & Hx & ->); exists k, v; by rewrite ?Hdue in * by eauto.
  - intros k v. injection E as <- _. cbn. rewrite map_lookup_filter_Some. split.
    + intros [Hk Hx]. destruct (is_zero v) eqn:Hz.
      { unfold extracted in Hx. by rewrite Hz in Hx. }
      split; [done|]. split; [done|]. rewrite <- (Hdue k v Hk Hz). congruence.
    + intros (Hk & Hz & Hx). split; [done|]. apply not_true_is_false.
      by rewrite (Hdue k v Hk Hz).
Qed.

(** [flush_all] leaves no counter behind. *)
Theorem flush_all_empties a now : state (flush_all a now).1 = ∅.
Proof.
  cbn. apply map_empty. intros k. rewrite map_lookup_filter.
  destruct (state a !! k) as [v|]; [|done]. cbn. case_guard as H; [|done].
  exfalso. unfold extracted in H. rewrite orb_true_r in H. done.
Qed.

Lemma report_cmp_Eq l r :
  report_cmp l r = Eq ->
  report_key l = report_key r /\ Report.first_observed_at l = Report.first_observed_at r.
Proof.
  unfold report_cmp, report_key. rewrite !then_with_Eq, !Z.compare_eq_iff.
  intros (-> & -> & ->%String.compare_eq_iff & ->%String.compare_eq_iff &
          ->%String.compare_eq_iff & ->%String.compare_eq_iff). done.
Qed.

#[local] Instance report_cmp_total : TotalCmp report_cmp.
Proof. unfold report_cmp. apply _. Qed.

(** A batch sorted by the comparison of the code is the batch of [flush_inner],
    whatever order the map yields its entries in and wherever the unstable sort
    puts reports it cannot tell apart. *)
Theorem flush_deterministic a force now entries reports :
  counters_ok (state a) ->
  entries ≡ₚ map_to_list (state a) ->
  reports ≡ₚ emit a force now entries ->
  StronglySorted (fun x y => cmp_leb report_cmp x y = true) reports ->
  reports = (flush_inner a force now).2.
Proof.
  intros Hok Hen Hr Hs. cbn.
  assert (reports ≡ₚ emit a force now (map_to_list (state a))) as Hp.
  { rewrite Hr. unfold emit. by rewrite Hen. }
  apply (StronglySorted_unique_strong (fun x y => cmp_leb report_cmp x y = true)).
  - intros x y Hx Hy H1 H2. rewrite sort_by_perm in Hy. rewrite Hp in Hx.
    apply elem_of_emit in Hx as (k & v & Hk & _ & _ & ->), Hy as (k' & v' & Hk' & _ & _ & ->).
    apply elem_of_map_to_list in Hk, Hk'.
    destruct (report_cmp_Eq _ _ (cmp_leb_eq report_cmp _ _ H1 H2)) as [Hkey _].
    rewrite !report_of_key in Hkey by eauto.
    congruence.
  - done.
  - apply sort_by_sorted; eauto using cmp_leb_total, cmp_leb_trans with typeclass_instances.
  - by rewrite sort_by_perm.
Qed.

(** A report is stamped with a whole minute, the one of its counter's last
    observation, inside the UTC hour the counter collected. *)
Theorem flush_stamps a force now r :
  counters_ok (state a) -> r ∈ (flush_inner a force now).2 ->
  exists k v, state a !! k = Some v /\ report_key r = k /\
    observed_at_unix r mod 60 = 0 /\
    observed_at_unix r / 3600 = CounterKey.observation_hour k /\
    0 <= CounterValue.last_observed_at v / nanos - observed_at_unix r < 60.
Proof.
  intros Hok (k & v & Hk & _ & _ & ->)%elem_of_flush. exists k, v.
  pose proof (Hok k v Hk) as Hv. destruct Hv as (Hs & Hh & _).
  split; [done|]. split; [by apply report_of_key, Hok|].
  unfold observed_at_unix. cbn. rewrite bucket_start, bucket_seconds by done.
  rewrite minute_hour. split; [apply Z.mod_mul; lia|]. split; [done|].
  unfold minute. Z.to_euclidean_division_equations. lia.
Qed.

Lemma fold_restore_other rs c k :
  Forall (fun r => report_key r <> k) rs -> fold_left restore_one rs c !! k = c !! k.
Proof.
  intros H. revert c. induction H as [|r rs Hr _ IH]; intros c; [done|]. cbn. rewrite IH.
  unfold restore_one. destruct (_ && _); [done|]. unfold add_locked. cbv zeta.
  by rewrite lookup_insert_ne.
Qed.

Lemma wrapping_add64_0 z : is_u64 z -> wrapping_add64 0 z = z.
Proof. unfold is_u64, u64_max, wrapping_add64. intros. apply Z.mod_small. lia. Qed.

Lemma restore_report_of c k v :
  value_ok k v -> is_zero v = false -> c !! k = None ->
  restore_one c (report_of k v) =
    <[k := CounterValue.mk (CounterValue.uplink v) (CounterValue.downlink v)
             (CounterValue.first_observed_at v)
             (observation_bucket_start (CounterValue.last_observed_at v))]> c.
Proof.
  intros Hv Hz Hc. unfold restore_one. rewrite (report_of_key k v Hv). cbn.
  unfold is_zero in Hz. rewrite Hz. unfold add_locked. rewrite Hc. cbn.
  destruct Hv as (_ & _ & Hu & Hd). by rewrite !wrapping_add64_0, Z.min_id, Z.max_id by done.
Qed.

Lemma fold_restore_flushed a force now l c k :
  NoDup l.*1 -> Forall (fun '(k, v) => value_ok k v /\ c !! k = None) l ->
  forall v, (k, v) ∈ l -> is_zero v = false -> extracted a force now v = true ->
  forall rs, rs ≡ₚ emit a force now l ->
  fold_left restore_one rs c !! k =
    Some (CounterValue.mk (CounterValue.uplink v) (CounterValue.downlink v)
            (CounterValue.first_observed_at v)
            (observation_bucket_start (CounterValue.last_observed_at v))).
Proof.
  intros Hnd Hok v Hin Hz Hx rs Hrs.
  assert (NoDup (report_key <$> rs)) as Hkeys.
  { rewrite Hrs. clear Hin Hrs rs Hx Hz v. induction l as [|[k' v'] l IH]; [constructor|].
    apply Forall_cons in Hok as [[Hv' _] Hok]. cbn in Hnd. apply NoDup_cons in Hnd as [Hk' Hnd].
    rewrite emit_cons. destruct (extracted _ _ _ v'), (is_zero v') eqn:Z'; cbn; eauto.
    constructor; [|eauto]. rewrite report_of_key by done.
    intros (r & E & (k2 & v2 & H2 & _ & _ & ->)%elem_of_emit)%list_elem_of_fmap.
    rewrite Forall_forall in Hok. destruct (Hok _ H2) as [Hv2 _].
    rewrite report_of_key in E by done. subst k2. apply Hk'. by apply list_elem_of_fmap_2 with (f := fst) in H2. }
  rewrite Forall_forall in Hok. destruct (Hok _ Hin) as [Hv Hc].
  assert (report_of k v ∈ rs) as (l1 & l2 & ->)%list_elem_of_split.
  { rewrite Hrs. apply elem_of_emit. eauto 10. }
  rewrite fmap_app, fmap_cons, report_of_key in Hkeys by done.
  apply NoDup_app in Hkeys as (_ & H12 & [H2 _]%NoDup_cons).
  rewrite fold_left_app. cbn. rewrite fold_restore_other.
  - rewrite restore_report_of; [by rewrite lookup_insert_eq|exact Hv|exact Hz|].
    rewrite fold_restore_other; [done|].
    apply Forall_forall. intros r Hr E. apply (H12 (report_key r));
      [by apply list_elem_of_fmap_2|rewrite E; by left].
  - apply Forall_forall. intros r Hr E. apply H2. rewrite <- E. by apply list_elem_of_fmap_2.
Qed.

(** Taking a whole flush back (the queue was full) restores every counter: the
    bytes and the age of the oldest observation exactly, the time of the last
    one up to its minute.  Counters without bytes are the only ones dropped. *)
Theorem flush_restore a force now k :
  counters_ok (state a) ->
  let '(a', reports) := flush_inner a force now in
  state (restore a' reports) !! k =
    match state a !! k with
    | Some v =>
        if is_zero v then None
        else if extracted a force now v
        then Some (CounterValue.mk (CounterValue.uplink v) (CounterValue.downlink v)
                     (CounterValue.first_observed_at v) (minute (CounterValue.last_observed_at v) * nanos))
        else Some v
    | None => None
    end.
Proof.
  intros Hok. unfold flush_inner, restore. cbn [state with_state].
  set (c' := filter _ (state a)). set (reports := sort_by _ _).
  assert (forall r, r ∈ reports <-> _) as Hr by exact (elem_of_flush a force now).
  assert (forall i w, state a !! i = Some w -> extracted a force now w = true -> c' !! i = None) as Hc'.
  { intros i w Hi Hx. unfold c'. apply map_lookup_filter_None. right. intros w' Hi'.
    rewrite Hi in Hi'. injection Hi' as <-. congruence. }
  destruct (state a !! k) as [v|] eqn:Hk.
  - destruct (is_zero v) eqn:Hz; [|destruct (extracted a force now v) eqn:Hx].
    + rewrite fold_restore_other.
      * apply (Hc' k v Hk). unfold extracted. by rewrite Hz.
      * apply Forall_forall. intros r (i & w & Hi & Hzw & _ & ->)%Hr E.
        rewrite report_of_key in E by eauto. congruence.
    + rewrite <- bucket_start by (by apply (Hok k v Hk)).
      apply (fold_restore_flushed a force now
               (filter (fun '(_, w) => extracted a force now w = true) (map_to_list (state a)))).
      * apply NoDup_fmap_fst; [|apply NoDup_filter, NoDup_map_to_list].
        intros i w1 w2 [_ H1%elem_of_map_to_list]%list_elem_of_filter
          [_ H2%elem_of_map_to_list]%list_elem_of_filter. congruence.
      * apply Forall_forall. intros [i w] [Hx' Hi%elem_of_map_to_list]%list_elem_of_filter. eauto.
      * apply list_elem_of_filter. split; [done|]. by apply elem_of_map_to_list.
      * done.
      * done.
      * unfold reports. rewrite sort_by_perm. by rewrite emit_filter.
    + rewrite fold_restore_other.
      * unfold c'. apply map_lookup_filter_Some. done.
      * apply Forall_forall. intros r (i & w & Hi & _ & Hxw & ->)%Hr E.
        rewrite report_of_key in E by eauto. congruence.
  - rewrite fold_restore_other.
    + unfold c'. apply map_lookup_filter_None. by left.
    + apply Forall_forall. intros r (i & w & Hi & _ & _ & ->)%Hr E.
      rewrite report_of_key in E by eauto. congruence.
Qed.

(** ** Witnesses *)

Module TrafficExample.
Definition event (u : string) (up : Z) (at_ : Z) : TrafficEvent.t :=
  TrafficEvent.mk "m" "n" u "hysteria2" up 1 (Some (at_ * nanos)).

(** Alice crosses a threshold of 100 bytes, Bob does not. *)
Definition a : Aggregator :=
  observe 0 (observe 0 (observe 0 (aggregator_new 100) (event "bob" 5 3601)) (event "alice" 90 3700))
    (event "alice" 80 3790).

Definition key (u : string) : CounterKey.t := CounterKey.mk "m" "n" u "hysteria2" 1.

Definition alice : Report.t :=
  Report.mk "m" "n" "alice" "hysteria2" 170 2 (3780 * nanos) (3700 * nanos).

Lemma event_fine now u up at_ : is_u64 up -> 0 <= at_ <= 1000000 -> event_ok now (event u up at_).
Proof.
  intros Hu Ha. unfold event_ok, event.
  cbn [TrafficEvent.observed_at TrafficEvent.uplink_bytes TrafficEvent.downlink_bytes default from_option id].
  unfold id, sane, is_u64, u64_max, first_minute, time_max, i64_max, nanos in *. lia.
Qed.

Lemma a_ok : counters_ok (state a).
Proof.
  repeat apply observe_ok;
    try (apply event_fine; unfold is_u64, u64_max; lia). apply map_Forall_empty.
Qed.

Lemma traffic_conserved_witness :
  same_bytes 170 (0 + carried Up (key "alice") [alice]).
Proof.
  pose proof (traffic_conserved Up (key "alice") (aggregator_new 100)
    [Observe 0 (event "bob" 5 3601); Observe 0 (event "alice" 90 3700);
     Observe 0 (event "alice" 80 3790); Flush false (3800 * nanos)]
    (flush_inner a false (3800 * nanos)).1 [alice]) as H.
  apply H.
  - apply map_Forall_empty.
  - repeat (constructor; [first [exact I|apply event_fine; unfold is_u64, u64_max; lia]|]).
    constructor.
  - vm_compute. reflexivity.
Defined.

Lemma a_small :
  map_Forall (fun _ v => time_min <= CounterValue.first_observed_at v /\
    CounterValue.uplink v + CounterValue.downlink v <= u64_max) (state a).
Proof.
  apply map_Forall_to_list.
  assert (map_to_list (state a) ≡ₚ
    [(key "alice", CounterValue.mk 170 2 (3700 * nanos) (3790 * nanos));
     (key "bob", CounterValue.mk 5 1 (3601 * nanos) (3601 * nanos))]) as ->.
  { vm_compute. first [reflexivity|apply Permutation_swap]. }
  repeat (constructor; [unfold time_min, i64_min, nanos, u64_max; cbn; lia|]). constructor.
Qed.

Lemma flush_exact_witness :
  state (flush_inner a false (3800 * nanos)).1 !! key "bob"
  = Some (CounterValue.mk 5 1 (3601 * nanos) (3601 * nanos)).
Proof.
  apply (flush_exact a false (3800 * nanos) (flush_inner a false (3800 * nanos)).1 [alice]).
  - exact a_ok.
  - vm_compute. discriminate.
  - exact a_small.
  - vm_compute. reflexivity.
  - split; [vm_compute; reflexivity|]. split; [reflexivity|].
    unfold due. vm_compute. intuition discriminate.
Defined.

Lemma flush_deterministic_witness : [alice] = (flush_inner a false (3800 * nanos)).2.
Proof.
  apply (flush_deterministic a false (3800 * nanos) (map_to_list (state a)) [alice]).
  - exact a_ok.
  - reflexivity.
  - vm_compute. reflexivity.
  - repeat constructor.
Defined.

Lemma flush_stamps_witness : observed_at_unix alice mod 60 = 0 /\ observed_at_unix alice / 3600 = 1.
Proof.
  assert (alice ∈ (flush_inner a false (3800 * nanos)).2) as Hin.
  { vm_compute. constructor. }
  destruct (flush_stamps a false (3800 * nanos) alice a_ok Hin) as (k & v & _ & Hk & Hm & Hh & _).
  split; [exact Hm|]. rewrite Hh, <- Hk. vm_compute. reflexivity.
Defined.

Lemma flush_restore_witness :
  state (restore (flush_inner a true 0).1 (flush_inner a true 0).2) !! key "alice"
  = Some (CounterValue.mk 170 2 (3700 * nanos) (3780 * nanos)).
Proof.
  pose proof (flush_restore a true 0 (key "alice") a_ok) as H. vm_compute in H. vm_compute. exact H.
Defined.
End TrafficExample.
