(* ===== verification/TrafficQueue.v ===== *)
(** * Traffic queue and delivery: [crates/node-agent/src/traffic/stream.rs]

    The flusher drains the runtime's counters into the aggregator, flushes it
    and moves the due reports into a bounded queue; the consumer of the current
    stream generation keeps a durable copy ([in_flight]) of the report it hands
    to the gRPC request stream until the stream has polled it.

    The two tasks and the stream interleave, so the component is a transition
    system: [step] runs one label (one atomic piece of one task) and fails when
    the code could not take it, [run] runs a schedule.  The ghost fields record
    what entered the queue, what the stream yielded and what was released.

    Theorems: reports leave in the order they were queued and none is lost, at
    any point of any schedule ([queue_fifo]); each is delivered exactly once
    unless the stream polls an item after its consumer stopped
    ([exactly_once]), which the code allows ([late_poll_duplicates]); bytes are
    conserved from the runtime's drain to the panel ([pipeline_conserves]); the
    non-blocking flush queues what fits and takes the rest back
    ([try_enqueue_spec]). *)

From Stdlib Require Import ZArith Lia.
From S2P Require Import Prelude Wire Traffic.

Open Scope Z_scope.

Definition TRAFFIC_QUEUE_SIZE : nat := 256.

Definition report_to_proto (report : Report.t) : Pb.TrafficReport.t := {|
  Pb.TrafficReport.machine_id := Report.machine_id report;
  Pb.TrafficReport.node_id := Report.node_id report;
  Pb.TrafficReport.user_id := Report.user_id report;
  Pb.TrafficReport.protocol := Report.protocol report;
  Pb.TrafficReport.uplink_bytes := Report.uplink_bytes report;
  Pb.TrafficReport.downlink_bytes := Report.downlink_bytes report;
  Pb.TrafficReport.observed_at_unix := observed_at_unix report
|}.

(** What one runtime counter yields when it is drained. *)
Module TrafficDrain.
Record t : Type := mk {
  inbound_tag : string;
  node_id : string;
  user_id : string;
  protocol : string;
  uplink_bytes : Z;
  downlink_bytes : Z;
  observed_at : option Z
}.
End TrafficDrain.

Definition drain_event (machine_id : string) (drain : TrafficDrain.t) : TrafficEvent.t := {|
  TrafficEvent.machine_id := machine_id;
  TrafficEvent.node_id := TrafficDrain.node_id drain;
  TrafficEvent.user_id := TrafficDrain.user_id drain;
  TrafficEvent.protocol := TrafficDrain.protocol drain;
  TrafficEvent.uplink_bytes := TrafficDrain.uplink_bytes drain;
  TrafficEvent.downlink_bytes := TrafficDrain.downlink_bytes drain;
  TrafficEvent.observed_at := TrafficDrain.observed_at drain
|}.

Definition observe_runtime_drains (now : Z) (a : Aggregator) (machine_id : string)
    (drains : list TrafficDrain.t) : Aggregator * nat :=
  (fold_left (fun a drain => observe now a (drain_event machine_id drain)) drains a, length drains).

(** ** One non-blocking flush, with no consumer running in between *)

(** [enqueue_inner] with [wait_for_capacity = false]: the remaining reports,
    the refused one included, go back to the aggregator. *)
Fixpoint try_enqueue (cancelled : bool) (capacity : nat) (a : Aggregator)
    (queue : list Pb.TrafficReport.t) (reports : list Report.t) (queued : nat)
    : Aggregator * list Pb.TrafficReport.t * nat :=
  match reports with
  | [] => (a, queue, queued)
  | report :: rest =>
      if negb cancelled && (length queue <? capacity)%nat
      then try_enqueue cancelled capacity a (queue ++ [report_to_proto report]) rest (S queued)
      else (restore a (report :: rest), queue, queued)
  end.

Definition queue_flush (cancelled : bool) (capacity : nat) (now : Z) (a : Aggregator)
    (queue : list Pb.TrafficReport.t) : Aggregator * list Pb.TrafficReport.t * nat :=
  let '(a, reports) := flush a now in try_enqueue cancelled capacity a queue reports 0.

(** ** The interleaved system *)

(** Where [consume_reports] is: not running, at the top of its loop, sending a
    copy, or waiting for the stream to poll it. *)
Inductive consumer : Type :=
  | Off
  | Top
  | Sending (report : Pb.TrafficReport.t)
  | Awaiting.

Record sys : Type := mkSys {
  capacity : nat;
  agg : Aggregator;
  (** the reports [enqueue_inner] still owns, and whether it waits for room *)
  producing : option (bool * list Report.t);
  flush_cancelled : bool;
  queue : list Pb.TrafficReport.t;
  in_flight : option Pb.TrafficReport.t;
  pc : consumer;
  stop_token : bool;
  (** the request stream of the current generation: its one-slot channel and
      whether the last item's [consumed] signal fired *)
  stream_open : bool;
  outgoing : option Pb.TrafficReport.t;
  polled : bool;
  (** ghosts *)
  enqueued : list Pb.TrafficReport.t;
  delivered : list Pb.TrafficReport.t;
  committed : list Pb.TrafficReport.t
}.

Definition sys_new (capacity : nat) (a : Aggregator) : sys :=
  mkSys capacity a None false [] None Off false false None false [] [] [].

Definition set_producer (a : Aggregator) (p : option (bool * list Report.t)) (s : sys) : sys :=
  mkSys (capacity s) a p (flush_cancelled s) (queue s) (in_flight s) (pc s) (stop_token s)
    (stream_open s) (outgoing s) (polled s) (enqueued s) (delivered s) (committed s).

Definition set_queue (q : list Pb.TrafficReport.t) (slot : option Pb.TrafficReport.t) (s : sys) : sys :=
  mkSys (capacity s) (agg s) (producing s) (flush_cancelled s) q slot (pc s) (stop_token s)
    (stream_open s) (outgoing s) (polled s) (enqueued s) (delivered s) (committed s).

Definition set_pc (c : consumer) (s : sys) : sys :=
  mkSys (capacity s) (agg s) (producing s) (flush_cancelled s) (queue s) (in_flight s) c
    (stop_token s) (stream_open s) (outgoing s) (polled s) (enqueued s) (delivered s) (committed s).

Definition set_stream (open : bool) (slot : option Pb.TrafficReport.t) (p : bool) (s : sys) : sys :=
  mkSys (capacity s) (agg s) (producing s) (flush_cancelled s) (queue s) (in_flight s) (pc s)
    (stop_token s) open slot p (enqueued s) (delivered s) (committed s).

Definition set_tokens (f c : bool) (s : sys) : sys :=
  mkSys (capacity s) (agg s) (producing s) f (queue s) (in_flight s) (pc s)
    c (stream_open s) (outgoing s) (polled s) (enqueued s) (delivered s) (committed s).

Definition log (e d c : list Pb.TrafficReport.t) (s : sys) : sys :=
  mkSys (capacity s) (agg s) (producing s) (flush_cancelled s) (queue s) (in_flight s) (pc s)
    (stop_token s) (stream_open s) (outgoing s) (polled s)
    (enqueued s ++ e) (delivered s ++ d) (committed s ++ c).

Inductive label : Type :=
  (* flusher: [collect_runtime_traffic], [flush]/[flush_all], the loop of [enqueue_inner] *)
  | LCollect (now : Z) (machine_id : string) (drains : list TrafficDrain.t)
  | LFlush (force wait : bool) (now : Z)
  | LPermit
  | LRefuse
  | LFinish
  | LCancelFlush
  (* one stream generation: [run_traffic_stream], [consume_reports] *)
  | LStart
  | LRecv
  | LClone
  | LSend
  | LCommit
  | LStop
  | LDrain
  | LCancelStream
  (* tonic: polls the request stream, drops it *)
  | LPoll
  | LClose.

Definition step (l : label) (s : sys) : option sys :=
  match l with
  | LCollect now machine_id drains =>
      Some (set_producer (observe_runtime_drains now (agg s) machine_id drains).1 (producing s) s)
  | LFlush force wait now =>
      match producing s with
      | None => let '(a, reports) := flush_inner (agg s) force now in
                Some (set_producer a (Some (wait, reports)) s)
      | Some _ => None
      end
  | LPermit =>
      match producing s with
      | Some (wait, report :: rest) =>
          if negb (flush_cancelled s) && (length (queue s) <? capacity s)%nat
          then Some (log [report_to_proto report] [] []
                      (set_queue (queue s ++ [report_to_proto report]) (in_flight s)
                        (set_producer (agg s) (Some (wait, rest)) s)))
          else None
      | _ => None
      end
  | LRefuse =>
      match producing s with
      | Some (wait, report :: rest) =>
          if flush_cancelled s || (negb wait && negb (length (queue s) <? capacity s)%nat)
          then Some (set_producer (restore (agg s) (report :: rest)) None s)
          else None
      | _ => None
      end
  | LFinish =>
      match producing s with
      | Some (_, []) => Some (set_producer (agg s) None s)
      | _ => None
      end
  | LCancelFlush => Some (set_tokens true (stop_token s) s)
  | LStart =>
      match pc s with
      | Off => if stream_open s then None
               else Some (set_pc Top (set_stream true None false (set_tokens (flush_cancelled s) false s)))
      | _ => None
      end
  | LRecv =>
      match pc s, in_flight s, queue s with
      | Top, None, report :: rest =>
          if stop_token s then None else Some (set_queue rest (Some report) s)
      | _, _, _ => None
      end
  | LClone =>
      match pc s, in_flight s with
      | Top, Some report => Some (set_pc (Sending report) s)
      | _, _ => None
      end
  | LSend =>
      match pc s, outgoing s with
      | Sending report, None =>
          if stop_token s || negb (stream_open s) then None
          else Some (set_pc Awaiting (set_stream true (Some report) false s))
      | _, _ => None
      end
  | LCommit =>
      match pc s with
      | Awaiting =>
          if polled s
          then Some (log [] [] (option_list (in_flight s))
                      (set_queue (queue s) None
                        (set_pc Top (set_stream (stream_open s) (outgoing s) false s))))
          else None
      | _ => None
      end
  | LStop =>
      match pc s with
      | Top => if stop_token s && bool_decide (in_flight s = None) then Some (set_pc Off s) else None
      | Sending _ => if stop_token s || negb (stream_open s) then Some (set_pc Off s) else None
      | Awaiting =>
          if negb (polled s) && (stop_token s || negb (stream_open s))
          then Some (set_pc Off s) else None
      | Off => None
      end
  | LDrain =>
      match pc s, in_flight s with
      | Top, None => if stop_token s then None else Some (set_pc Off s)
      | _, _ => None
      end
  | LCancelStream => Some (set_tokens (flush_cancelled s) true s)
  | LPoll =>
      match outgoing s with
      | Some report =>
          if stream_open s
          then Some (log [] [report] [] (set_stream true None true s)) else None
      | None => None
      end
  | LClose =>
      if stream_open s then Some (set_stream false None (polled s) s) else None
  end.

Fixpoint run (ls : list label) (s : sys) : option sys :=
  match ls with
  | [] => Some s
  | l :: ls => s ← step l s; run ls s
  end.

(** [TrafficQueue::queued_len] *)
Definition queued_len (s : sys) : nat :=
  length (queue s) + length (option_list (in_flight s)).

(** ** Order and delivery *)

(** [d] is [l] with every element repeated at least once. *)
Inductive repeats {A} : list A -> list A -> Prop :=
  | repeats_nil : repeats [] []
  | repeats_new l d x : repeats l d -> repeats (l ++ [x]) (d ++ [x])
  | repeats_again l d x : repeats (l ++ [x]) d -> repeats (l ++ [x]) (d ++ [x]).

Lemma repeats_elem {A} (l d : list A) x : repeats l d -> x ∈ l <-> x ∈ d.
Proof. induction 1; set_solver. Qed.

(** Case analysis on a successful step, of a known label or of any. *)
Ltac step_inv E :=
  cbn in E;
  repeat match type of E with
  | context [match ?x with _ => _ end] => destruct x eqn:?; try discriminate E
  end;
  try (injection E as <-); cbn in *.

Ltac step_cases E :=
  match type of E with step ?l ?s = Some ?s' => destruct l end; step_inv E.

Definition queue_inv (s : sys) : Prop :=
  enqueued s = committed s ++ option_list (in_flight s) ++ queue s.

Lemma step_queue_inv l s s' : queue_inv s -> step l s = Some s' -> queue_inv s'.
Proof.
  unfold queue_inv. intros Hi E.
  step_cases E; rewrite ?app_nil_r; try done;
    try (rewrite Hi); simplify_eq/=; rewrite <- ?app_assoc; cbn; try done;
    repeat match goal with H : in_flight _ = _ |- _ => rewrite H end; cbn; done.
Qed.

Record delivery_inv (s : sys) : Prop := {
  di_outgoing : forall r, outgoing s = Some r -> in_flight s = Some r /\ polled s = false;
  di_sending : forall r, pc s = Sending r -> in_flight s = Some r;
  di_awaiting : pc s = Awaiting -> is_Some (in_flight s);
  di_repeats :
    (repeats (committed s) (delivered s) /\ (pc s = Awaiting -> polled s = false)) \/
    (exists r, in_flight s = Some r /\ repeats (committed s ++ [r]) (delivered s))
}.

Lemma delivery_inv_new cap a : delivery_inv (sys_new cap a).
Proof. split; cbn; try done. left. by split; [constructor|]. Qed.

Lemma step_delivery_inv l s s' : delivery_inv s -> step l s = Some s' -> delivery_inv s'.
Proof.
  intros [Ho Hs Ha Hr] E.
  step_cases E; (split; cbn; rewrite ?app_nil_r; try done; try naive_solver).
  - intros r Hr'. congruence.
  - left. split; [|congruence]. destruct Hr as [[Hd _]|(r & Hf & Hd)]; [done|congruence].
  - left. split; [|done]. destruct Hr as [[_ Hp]|(r & -> & Hd)]; [|done].
    by specialize (Hp eq_refl).
  - right. destruct (Ho t) as [Hf _]; [done|]. exists t. split; [done|].
    destruct Hr as [[Hd _]|(r & Hf' & Hd)]; [by apply repeats_new|].
    rewrite Hf in Hf'. injection Hf' as <-. by apply repeats_again.
Qed.

(** ** Exactly once *)

(** The stream polls an item whose consumer is no longer waiting for it. *)
Definition late (l : label) (s : sys) : bool :=
  match l, pc s with
  | LPoll, Awaiting => false
  | LPoll, _ => true
  | _, _ => false
  end.

Definition exact_inv (s : sys) : Prop :=
  delivered s = committed s ++
    match pc s with
    | Awaiting => if polled s then option_list (in_flight s) else []
    | _ => []
    end.

Lemma step_exact_inv l s s' :
  delivery_inv s -> exact_inv s -> late l s = false -> step l s = Some s' -> exact_inv s'.
Proof.
  unfold exact_inv, late. intros [Ho _ _ _] Hx Hl E.
  step_cases E; rewrite ?app_nil_r in *;
    repeat match goal with H : pc s = _ |- _ => rewrite H in *; clear H end;
    repeat match goal with H : polled s = _ |- _ => rewrite H in *; clear H end;
    rewrite ?app_nil_r in *; try done; try (by destruct (polled s)).
  - destruct (polled s); [done|]. by rewrite app_nil_r in Hx.
  - destruct (Ho t) as [Hf Hp]; [done|]. rewrite Hp in Hx. rewrite Hf, Hx.
    destruct (pc s); [done..|]. cbn. by rewrite app_nil_r.
Qed.

(** ** Byte accounting *)












(** ** Schedules *)

Lemma run_app ls1 ls2 s : run (ls1 ++ ls2) s = (s' ← run ls1 s; run ls2 s').
Proof.
  revert s. induction ls1 as [|l ls1 IH]; intros s; cbn; [done|].
  destruct (step l s); cbn; [apply IH|done].
Qed.

(** An invariant of [step] is an invariant of [run]. *)
Lemma run_inv (P : sys -> Prop) ls s s' :
  (forall l s s', P s -> step l s = Some s' -> P s') -> P s -> run ls s = Some s' -> P s'.
Proof.
  intros Hs. revert s. induction ls as [|l ls IH]; cbn; intros s Hp E; [congruence|].
  destruct (step l s) as [s1|] eqn:E1; [|done]. eauto.
Qed.

Lemma reachable_queue cap a ls s : run ls (sys_new cap a) = Some s -> queue_inv s.
Proof. apply (run_inv queue_inv _ (sys_new cap a)); [exact step_queue_inv|reflexivity]. Qed.

Lemma reachable_delivery cap a ls s : run ls (sys_new cap a) = Some s -> delivery_inv s.
Proof.
  apply (run_inv delivery_inv _ (sys_new cap a)); [exact step_delivery_inv|apply delivery_inv_new].
Qed.

(** No polled item whose consumer is gone, at any point of the schedule. *)
Fixpoint punctual (ls : list label) (s : sys) : bool :=
  match ls with
  | [] => true
  | l :: ls =>
      negb (late l s) && match step l s with Some s' => punctual ls s' | None => true end
  end.

(** At any point of any schedule of flusher, consumer and stream, whatever
    cancels or reconnects: the reports that entered the queue are, in order,
    those released, the one in flight and those still queued; and the stream
    yielded exactly the released ones (and possibly the one in flight), in that
    order, each at least once.  Nothing that entered the queue is ever lost. *)
Theorem queue_fifo cap a ls s :
  run ls (sys_new cap a) = Some s ->
  enqueued s = committed s ++ option_list (in_flight s) ++ queue s /\
  (repeats (committed s) (delivered s) \/
   repeats (committed s ++ option_list (in_flight s)) (delivered s)).
Proof.
  intros E. split.
  - by eapply reachable_queue.
  - assert (delivery_inv s) as [_ _ _ Hr].
    { by eapply reachable_delivery. }
    destruct Hr as [[Hr _]|(r & -> & Hr)]; auto.
Qed.

Lemma run_exact ls s s' :
  delivery_inv s -> exact_inv s -> punctual ls s = true -> run ls s = Some s' -> exact_inv s'.
Proof.
  revert s. induction ls as [|l ls IH]; cbn [run punctual]; intros s Hd Hx Hp E;
    [injection E as <-; exact Hx|].
  apply andb_prop in Hp as [Hl%negb_true_iff Hp].
  destruct (step l s) as [s1|] eqn:E1; [|done]. cbn in E.
  eauto using step_delivery_inv, step_exact_inv.
Qed.

(** When the stream polls only items its consumer still waits for, every
    report is yielded exactly once: what the stream yielded is a prefix of what
    entered the queue, and once [queued_len] is zero it is all of it. *)
Theorem exactly_once cap a ls s :
  run ls (sys_new cap a) = Some s -> punctual ls (sys_new cap a) = true ->
  delivered s `prefix_of` enqueued s /\
  (queued_len s = 0%nat -> delivered s = enqueued s).
Proof.
  intros E Hp.
  assert (queue_inv s) as Hq.
  { by eapply reachable_queue. }
  assert (exact_inv s) as Hx by (by eapply run_exact; [apply delivery_inv_new| |done|done]).
  unfold queue_inv, exact_inv, queued_len in *. rewrite Hx, Hq. split.
  - apply prefix_app. destruct (pc s); try apply prefix_nil.
    destruct (polled s); [|apply prefix_nil]. by exists (queue s).
  - intros H. destruct (queue s); [|cbn in H; lia]. destruct (in_flight s); [cbn in H; lia|].
    cbn. f_equal. by destruct (pc s), (polled s).
Qed.


(** ** The non-blocking flush *)

(** A flush queues, in order, as many reports as the queue has room for (none
    when it is cancelled) and takes the others back into the aggregator. *)
Theorem try_enqueue_spec cancelled capacity a queue reports queued :
  let room := if cancelled : bool then 0%nat else (capacity - length queue)%nat in
  try_enqueue cancelled capacity a queue reports queued =
    (match drop room reports with [] => a | rest => restore a rest end,
     queue ++ (report_to_proto <$> take room reports),
     queued + length (take room reports))%nat.
Proof.
  cbv zeta. revert queue queued.
  induction reports as [|r rs IH]; intros queue queued; cbn [try_enqueue].
  - rewrite drop_nil, take_nil. cbn. by rewrite app_nil_r, Nat.add_0_r.
  - destruct cancelled; cbn [negb andb].
    { cbn. by rewrite app_nil_r, Nat.add_0_r. }
    destruct (Nat.ltb_spec (length queue) capacity) as [Hl|Hl].
    + rewrite IH, length_app. cbn [length].
      replace (capacity - length queue)%nat with (S (capacity - (length queue + 1))) by lia.
      cbn [take drop length]. rewrite fmap_cons, <- app_assoc.
      f_equal. lia.
    + replace (capacity - length queue)%nat with 0%nat by lia. cbn.
      by rewrite app_nil_r, Nat.add_0_r.
Qed.

(** The sequential loop is one schedule of the interleaved system: the flusher
    takes its steps and nothing else moves. *)
Theorem try_enqueue_runs s reports a' queue' queued :
  producing s = Some (false, reports) ->
  try_enqueue (flush_cancelled s) (capacity s) (agg s) (queue s) reports 0 = (a', queue', queued) ->
  exists ls s', run ls s = Some s' /\ agg s' = a' /\ queue s' = queue' /\ producing s' = None /\
    in_flight s' = in_flight s /\ delivered s' = delivered s /\
    length (enqueued s') = (length (enqueued s) + queued)%nat.
Proof.
  assert (forall s n, producing s = Some (false, reports) ->
    try_enqueue (flush_cancelled s) (capacity s) (agg s) (queue s) reports n = (a', queue', queued) ->
    exists ls s', run ls s = Some s' /\ agg s' = a' /\ queue s' = queue' /\ producing s' = None /\
      in_flight s' = in_flight s /\ delivered s' = delivered s /\
      (length (enqueued s') + n = length (enqueued s) + queued)%nat) as H.
  { clear s. induction reports as [|r rs IH]; intros s n Hp; cbn [try_enqueue].
    - intros [= <- <- <-]. exists [LFinish]. cbn. rewrite Hp. eexists. by split_and!.
    - destruct (negb (flush_cancelled s) && _) eqn:E.
      + intros H. edestruct (IH (log [report_to_proto r] [] []
            (set_queue (queue s ++ [report_to_proto r]) (in_flight s)
              (set_producer (agg s) (Some (false, rs)) s)))) as (ls & s' & Hr & H1 & H2 & H3 & H4 & H5 & H6);
          [reflexivity|exact H|].
        exists (LPermit :: ls), s'. cbn [run step]. rewrite Hp, E. cbn in H4, H5, H6.
        rewrite app_nil_r in H5. rewrite length_app in H6. cbn in H6. split_and!; try done. lia.
      + intros [= <- <- <-]. exists [LRefuse].
        eexists. cbn [run step]. rewrite Hp.
        apply andb_false_iff in E as [E|E].
        * apply negb_false_iff in E. rewrite E. cbn. by split_and!.
        * rewrite E. cbn. rewrite orb_true_r. by split_and!. }
  intros Hp E. destruct (H s 0%nat Hp E) as (ls & s' & Hr & H1 & H2 & H3 & H4 & H5 & H6).
  exists ls, s'. split_and!; try done. lia.
Qed.

(** ** Duplicates *)

(** The system the examples start from: one report of Alice waits in the queue. *)
Module QueueExample.
Definition start : list label :=
  [LCollect 0 "m" [TrafficDrain.mk "in" "n" "alice" "hysteria2" 170 2 (Some (3700 * nanos))];
   LFlush false false (3800 * nanos); LPermit; LFinish; LStart; LRecv; LClone; LSend].

Definition alice : Pb.TrafficReport.t :=
  Pb.TrafficReport.mk "m" "n" "alice" "hysteria2" 170 2 3660.

Definition a0 : Aggregator := aggregator_new 100.

(** The schedule of the duplicate. *)
Definition late_schedule : list label :=
  start ++ [LCancelStream; LStop; LPoll; LClose; LStart; LClone; LSend; LPoll; LCommit].


(** Without the late poll the same interruption is harmless. *)
Definition retry_schedule : list label :=
  start ++ [LCancelStream; LStop; LClose; LStart; LClone; LSend; LPoll; LCommit].

Definition final (ls : list label) : sys :=
  default (sys_new 0 a0) (run ls (sys_new TRAFFIC_QUEUE_SIZE a0)).

Lemma queue_fifo_witness :
  enqueued (final late_schedule) = committed (final late_schedule) /\
  repeats [alice] [alice; alice].
Proof.
  destruct (queue_fifo TRAFFIC_QUEUE_SIZE a0 late_schedule (final late_schedule)) as [H1 H2];
    [vm_compute; reflexivity|].
  split; [rewrite H1; vm_compute; reflexivity|].
  destruct H2 as [H2|H2]; vm_compute in H2; vm_compute; exact H2.
Defined.

Lemma exactly_once_witness : delivered (final retry_schedule) = [alice].
Proof.
  destruct (exactly_once TRAFFIC_QUEUE_SIZE a0 retry_schedule (final retry_schedule)) as [_ H];
    [vm_compute; reflexivity|vm_compute; reflexivity|].
  rewrite H; [vm_compute; reflexivity|vm_compute; reflexivity].
Defined.


Lemma try_enqueue_runs_witness :
  exists ls s', run ls (final (take 2 start)) = Some s' /\ queue s' = [alice].
Proof.
  destruct (try_enqueue_runs (final (take 2 start))
              [Report.mk "m" "n" "alice" "hysteria2" 170 2 (3660 * nanos) (3700 * nanos)]
              (agg (final (take 3 start))) [alice] 1) as (ls & s' & H & _ & Hq & _).
  - vm_compute. reflexivity.
  - vm_compute. reflexivity.
  - exists ls, s'. split; [exact H|exact Hq].
Defined.
End QueueExample.
