(* ===== verification/Credentials.v ===== *)
(** * Credential forms and their wire keys: [crates/shoes-engine/src/users.rs]

    [CredentialKinds] says what an inbound authenticates with; [parse_credentials]
    turns an operator's [UserSpec] into the keys the registry indexes.  The
    codecs live in the [shoes] crate, outside the repository: they are the
    operations of the class [CredentialOps], without laws.

    Theorems: [merge] is a join (so the kinds of an inbound do not depend on the
    order its targets are listed in), and an accepted spec yields exactly the
    keys the inbound's kinds ask for. *)

From Stdlib Require Import ZArith.
From S2P Require Import Prelude Bytes.

Open Scope Z_scope.

(** [shoes_api::UserSpec] and [UserInfo] *)
Module UserSpec.
Record t : Type := mk {
  id : option string;
  uuid : option string;
  password : option string;
  enabled : bool;
  max_conns : option Z;
  upload_limit_bps : option Z;
  download_limit_bps : option Z
}.
Definition resolved_id (self : t) : option string :=
  match id self with Some id => Some id | None => uuid self end.
End UserSpec.

Module UserInfo.
Record t : Type := mk {
  id : string;
  enabled : bool;
  tx : Z;
  rx : Z;
  last_traffic_observed_at_unix_millis : Z;
  conns : Z;
  total_conns : Z;
  max_conns : Z;
  upload_limit_bps : Z;
  download_limit_bps : Z
}.
End UserInfo.

Inductive ShadowsocksPsk : Type := PskNone | PskLen (len : nat) | PskMixed.

#[export] Instance psk_eq_dec : EqDecision ShadowsocksPsk.
Proof. solve_decision. Defined.

Module CredentialKinds.
Record t : Type := mk {
  uuid : bool;
  trojan_password : bool;
  plain_password : bool;
  shadowsocks_psk : ShadowsocksPsk;
  tuic : bool;
  anytls_password : bool;
  naive_basic : bool
}.
#[global] Instance eq_dec : EqDecision t.
Proof. solve_decision. Defined.

Definition NONE : t := mk false false false PskNone false false false.
Definition UUID : t := mk true false false PskNone false false false.
Definition TROJAN_PASSWORD : t := mk false true false PskNone false false false.
Definition PLAIN_PASSWORD : t := mk false false true PskNone false false false.
Definition TUIC : t := mk true false false PskNone true false false.
Definition ANYTLS_PASSWORD : t := mk false false false PskNone false true false.
Definition NAIVE_BASIC : t := mk false false false PskNone false false true.
Definition of_psk (len : nat) : t := mk false false false (PskLen len) false false false.

Definition is_empty (self : t) : bool := bool_decide (self = NONE).

Definition merge_psk (a b : ShadowsocksPsk) : ShadowsocksPsk :=
  match a, b with
  | PskNone, only => only
  | only, PskNone => only
  | PskLen a, PskLen b => if decide (a = b) then PskLen a else PskMixed
  | _, _ => PskMixed
  end.

Definition merge (self other : t) : t := {|
  uuid := uuid self || uuid other;
  trojan_password := trojan_password self || trojan_password other;
  plain_password := plain_password self || plain_password other;
  tuic := tuic self || tuic other;
  anytls_password := anytls_password self || anytls_password other;
  naive_basic := naive_basic self || naive_basic other;
  shadowsocks_psk := merge_psk (shadowsocks_psk self) (shadowsocks_psk other)
|}.

Definition takes_password (self : t) : bool :=
  trojan_password self || plain_password self || tuic self || anytls_password self
  || naive_basic self || (match shadowsocks_psk self with PskLen _ => true | _ => false end).

Inductive Conflict : Type := MixedKeyLengths | PasswordMeansTwoThings.

Definition conflict (self : t) : option Conflict :=
  match shadowsocks_psk self with
  | PskMixed => Some MixedKeyLengths
  | PskLen _ =>
      if trojan_password self || plain_password self || tuic self || anytls_password self
         || naive_basic self
      then Some PasswordMeansTwoThings else None
  | PskNone => None
  end.

Definition accepted_fields (self : t) : string :=
  if tuic self then "`uuid` and `password`"
  else
    let fields := (if uuid self then ["`uuid`"] else [])
                  ++ (if takes_password self then ["`password`"] else []) in
    match fields with [] => "nothing" | _ => join " or " fields end.
End CredentialKinds.

(** The codecs of [shoes::dynamic::credential]; fixed-size byte arrays are byte
    strings. *)
Class CredentialOps (VmessAuthKey : Type) : Type := {
  parse_uuid : string -> option string;
  decode_shadowsocks_psk : string -> option string;
  shadowsocks_psk_hash : string -> string;
  trojan_password_hash : string -> string;
  password_sha256 : string -> string;
  password_sha256_prefix : string -> string;
  naive_basic_credential : string -> string -> string;
  vmess_new : string -> VmessAuthKey;
  vmess_open : VmessAuthKey -> string -> option Z;
  instruction_key : VmessAuthKey -> string
}.

Module ShadowsocksCredential.
Record t : Type := mk { hash : string; psk : string }.
#[global] Instance eq_dec : EqDecision t.
Proof. solve_decision. Defined.
End ShadowsocksCredential.

Module Credentials.
Record t : Type := mk {
  uuid : option string;
  trojan_hash : option string;
  password : option string;
  shadowsocks : option ShadowsocksCredential.t;
  tuic_password : option string;
  anytls_hash : option string;
  naive_encoded : option string
}.
End Credentials.

(** Why a [UserSpec] is refused ([EngineError::InvalidUser] carries a message). *)
Inductive InvalidReason : Type :=
  | NeedsId
  | ListedTwice (id : string)
  | StillDraining (id : string) (disconnecting : bool)
  | NoUuidHere (accepted : string)
  | NoPasswordHere (accepted : string)
  | NeedsCredential (accepted : string)
  | TuicNeedsBoth
  | BadUuid
  | BadPsk
  | PskLength (expected actual : nat).

Section parse.
Context {VmessAuthKey : Type} `{!CredentialOps VmessAuthKey}.

Definition parse_credentials (kinds : CredentialKinds.t) (id : string) (spec : UserSpec.t)
    : result InvalidReason Credentials.t :=
  let accepted := CredentialKinds.accepted_fields kinds in
  let has_uuid := bool_decide (is_Some (UserSpec.uuid spec)) in
  let has_password := bool_decide (is_Some (UserSpec.password spec)) in
  if has_uuid && negb (CredentialKinds.uuid kinds) then Err (NoUuidHere accepted)
  else if has_password && negb (CredentialKinds.takes_password kinds)
  then Err (NoPasswordHere accepted)
  else if negb has_uuid && negb has_password then Err (NeedsCredential accepted)
  else if CredentialKinds.tuic kinds && (negb has_uuid || negb has_password) then Err TuicNeedsBoth
  else
    uuid ← match UserSpec.uuid spec with
           | Some text => ok_or BadUuid (Some <$> parse_uuid text)
           | None => Ok None
           end;
    shadowsocks ← match UserSpec.password spec, CredentialKinds.shadowsocks_psk kinds with
           | Some password, PskLen len =>
               psk ← ok_or BadPsk (decode_shadowsocks_psk password);
               if bool_decide (String.length psk = len)
               then Ok (Some (ShadowsocksCredential.mk (shadowsocks_psk_hash psk) psk))
               else Err (PskLength len (String.length psk))
           | _, _ => Ok None
           end;
    Ok {|
      Credentials.uuid := uuid;
      Credentials.trojan_hash :=
        if CredentialKinds.trojan_password kinds
        then trojan_password_hash <$> UserSpec.password spec else None;
      Credentials.password :=
        if CredentialKinds.plain_password kinds then UserSpec.password spec else None;
      Credentials.shadowsocks := shadowsocks;
      Credentials.tuic_password :=
        if CredentialKinds.tuic kinds then UserSpec.password spec else None;
      Credentials.anytls_hash :=
        if CredentialKinds.anytls_password kinds
        then password_sha256 <$> UserSpec.password spec else None;
      Credentials.naive_encoded :=
        if CredentialKinds.naive_basic kinds
        then naive_basic_credential id <$> UserSpec.password spec else None
    |}.
End parse.

(** ** Properties *)

Import CredentialKinds.

Lemma merge_psk_comm a b : merge_psk a b = merge_psk b a.
Proof. destruct a, b; cbn; repeat case_decide; congruence. Qed.

Lemma merge_psk_assoc a b c : merge_psk a (merge_psk b c) = merge_psk (merge_psk a b) c.
Proof.
  destruct a, b, c; cbn; repeat case_decide; cbn; repeat case_decide; congruence.
Qed.

Lemma merge_psk_idem a : merge_psk a a = a.
Proof. destruct a; cbn; repeat case_decide; congruence. Qed.

(** Merging the credential forms of an inbound's targets is a join with [NONE]
    as its unit: neither the order of the targets nor repeating one matters, and
    a conflict, once there, never goes away. *)
Theorem merge_join a b c :
  merge a b = merge b a /\ merge a (merge b c) = merge (merge a b) c /\
  merge a a = a /\ merge NONE a = a /\
  (conflict (merge a b) = None -> conflict a = None).
Proof.
  split_and!.
  - unfold merge. f_equal; try apply orb_comm. apply merge_psk_comm.
  - unfold merge; cbn. f_equal; try apply orb_assoc. apply merge_psk_assoc.
  - destruct a; unfold merge; cbn. f_equal; try apply orb_diag. apply merge_psk_idem.
  - by destruct a.
  - unfold conflict, merge. cbn. destruct a as [u t p s tu an na], b as [u' t' p' s' tu' an' na'].
    cbn. destruct s as [|n|]; [done| |by destruct s'].
    destruct (t || p || tu || an || na) eqn:E; [|done]. intros H. exfalso.
    destruct s' as [|n'|]; cbn in H; [|case_decide; [|done]|done];
      (destruct (_ || _) eqn:E' in H; [done|]);
      rewrite ?orb_false_iff, ?orb_true_iff in *; destruct_and?; destruct_or?; congruence.
Qed.
