(* ===== verification/Users.v ===== *)
(** * The user registry: [crates/shoes-engine/src/users.rs]

    One [MemoryUserRegistry] per inbound: the authoritative map from id to user,
    one index per credential form, the AnyTLS prefix counts, the VMess trial
    snapshot and the tombstones of users still disconnecting.  Writers hold one
    mutex, so a method (or, for the asynchronous [remove], its locked section and
    its completion) is one step.

    [UserContext] belongs to the [shoes] crate: its mutable part is the type [M]
    with the operations of [UserContextOps], kept in a heap because entries,
    tombstones and connections share one record; its id is immutable and sits in
    the reference.  An [expect] on a missing index is the error [Panic].

    Theorems: the indexes, the prefix counts and the snapshot agree with the user
    map after any sequence of operations and no operation panics; no two users
    share a credential; a lookup succeeds exactly for the current credential of
    an enabled user; a refused upsert changes nothing; an update keeps the
    accounting record; a removed user is unreachable at once and its id stays
    reserved until the final counters have been collected. *)

From Stdlib Require Import ZArith Lia.
From S2P Require Import Prelude Bytes Credentials.

Open Scope Z_scope.

(** The mutable part of [shoes::dynamic::UserContext]. *)
Class UserContextOps (M A : Type) : Type := {
  ctx_new : M;
  ctx_set_analysis : A -> M -> M;
  ctx_set_enabled : bool -> M -> M;
  ctx_set_max_conns : Z -> M -> M;
  ctx_set_speed_limits : Z -> Z -> M -> M;
  ctx_revoke : M -> M;
  ctx_kick : M -> M * Z;
  ctx_take_traffic : M -> M * (Z * Z);
  ctx_is_enabled : M -> bool;
  ctx_conns : M -> Z;
  ctx_stats : string -> M -> UserInfo.t
}.

(** What the registry relies on: the setters do what they say and leave the
    enabled flag to [set_enabled]. *)
Class UserContextLaws (M A : Type) `{!UserContextOps M A} : Prop := {
  enabled_set_enabled b m : ctx_is_enabled (ctx_set_enabled b m) = b;
  enabled_set_max_conns z m : ctx_is_enabled (ctx_set_max_conns z m) = ctx_is_enabled m;
  enabled_set_speed_limits u d m :
    ctx_is_enabled (ctx_set_speed_limits u d m) = ctx_is_enabled m
}.

(** The six credential indexes. *)
Inductive kind : Type := KUuid | KTrojan | KPassword | KPsk | KAnytls | KNaive.

#[export] Instance kind_eq_dec : EqDecision kind.
Proof. solve_decision. Defined.

Definition kind_enabled (kinds : CredentialKinds.t) (k : kind) : bool :=
  match k with
  | KUuid => CredentialKinds.uuid kinds
  | KTrojan => CredentialKinds.trojan_password kinds
  | KPassword => CredentialKinds.plain_password kinds
  | KPsk => match CredentialKinds.shadowsocks_psk kinds with PskLen _ => true | _ => false end
  | KAnytls => CredentialKinds.anytls_password kinds
  | KNaive => CredentialKinds.naive_basic kinds
  end.

(** [Arc<UserContext>]: where its mutable part lives, and its immutable id. *)
Record Ref : Type := mkRef { loc : nat; rid : string }.

Record Entry (K : Type) : Type := mkEntry {
  e_context : Ref;
  e_uuid : option string;
  e_trojan_hash : option string;
  e_password : option string;
  e_shadowsocks : option ShadowsocksCredential.t;
  e_tuic_password : option string;
  e_anytls_hash : option string;
  e_naive_encoded : option string;
  e_vmess : option K
}.
Arguments mkEntry {K}.
Arguments e_context {K}. Arguments e_uuid {K}. Arguments e_trojan_hash {K}.
Arguments e_password {K}. Arguments e_shadowsocks {K}. Arguments e_tuic_password {K}.
Arguments e_anytls_hash {K}. Arguments e_naive_encoded {K}. Arguments e_vmess {K}.

(** The index key of each form. *)
Definition cred {K} (k : kind) (e : Entry K) : option string :=
  match k with
  | KUuid => e_uuid e
  | KTrojan => e_trojan_hash e
  | KPassword => e_password e
  | KPsk => ShadowsocksCredential.hash <$> e_shadowsocks e
  | KAnytls => e_anytls_hash e
  | KNaive => e_naive_encoded e
  end.

(** The index key of each form in freshly parsed credentials. *)
Definition parsed (k : kind) (c : Credentials.t) : option string :=
  match k with
  | KUuid => Credentials.uuid c
  | KTrojan => Credentials.trojan_hash c
  | KPassword => Credentials.password c
  | KPsk => ShadowsocksCredential.hash <$> Credentials.shadowsocks c
  | KAnytls => Credentials.anytls_hash c
  | KNaive => Credentials.naive_encoded c
  end.

Abbreviation index K := (option (gmap string (Entry K))).

Record indexes (K : Type) : Type := mkIndexes {
  by_uuid : index K;
  by_trojan_hash : index K;
  by_password : index K;
  by_psk_hash : index K;
  by_anytls_hash : index K;
  by_naive_encoded : index K
}.
Arguments mkIndexes {K}.
Arguments by_uuid {K}. Arguments by_trojan_hash {K}. Arguments by_password {K}.
Arguments by_psk_hash {K}. Arguments by_anytls_hash {K}. Arguments by_naive_encoded {K}.

Definition index_of {K} (k : kind) (ix : indexes K) : index K :=
  match k with
  | KUuid => by_uuid ix
  | KTrojan => by_trojan_hash ix
  | KPassword => by_password ix
  | KPsk => by_psk_hash ix
  | KAnytls => by_anytls_hash ix
  | KNaive => by_naive_encoded ix
  end.

Definition set_index {K} (k : kind) (m : index K) (ix : indexes K) : indexes K :=
  let pick k' old := if decide (k = k') then m else old in
  mkIndexes (pick KUuid (by_uuid ix)) (pick KTrojan (by_trojan_hash ix))
    (pick KPassword (by_password ix)) (pick KPsk (by_psk_hash ix))
    (pick KAnytls (by_anytls_hash ix)) (pick KNaive (by_naive_encoded ix)).

(** [DrainingUser], without its notifier. *)
Record DrainingUser (K : Type) : Type := mkDraining {
  d_entry : Entry K;
  d_result : option UserInfo.t
}.
Arguments mkDraining {K}. Arguments d_entry {K}. Arguments d_result {K}.

Record registry (K M A : Type) : Type := mkRegistry {
  kinds : CredentialKinds.t;
  analysis : option A;
  users : gmap string (Entry K);
  (** id -> generation, and the generations themselves *)
  draining : gmap string nat;
  generations : gmap nat (DrainingUser K);
  idx : indexes K;
  anytls_prefixes : option (gmap string nat);
  vmess_candidates : list (Entry K);
  (** the shared [UserContext]s *)
  heap : gmap nat M
}.
Arguments mkRegistry {K M A}.
Arguments kinds {K M A}. Arguments analysis {K M A}. Arguments users {K M A}.
Arguments draining {K M A}. Arguments generations {K M A}. Arguments idx {K M A}.
Arguments anytls_prefixes {K M A}. Arguments vmess_candidates {K M A}. Arguments heap {K M A}.

Inductive EngineError : Type :=
  | InvalidUser (reason : InvalidReason)
  | DuplicateCredential (id owner : string)
  | UnknownUser (tag id : string)
  | Panic.

Section registry.
Context {K M A : Type} `{!CredentialOps K} `{!UserContextOps M A}.

Local Abbreviation registry := (registry K M A).
Local Abbreviation Entry := (Entry K).
Local Abbreviation method := (stm registry EngineError).

Implicit Types r : registry.

(** Field updates. *)
Definition set_users (u : gmap string Entry) r : registry :=
  mkRegistry (kinds r) (analysis r) u (draining r) (generations r) (idx r)
    (anytls_prefixes r) (vmess_candidates r) (heap r).
Definition set_draining (d : gmap string nat) (g : gmap nat (DrainingUser K)) r : registry :=
  mkRegistry (kinds r) (analysis r) (users r) d g (idx r)
    (anytls_prefixes r) (vmess_candidates r) (heap r).
Definition set_idx (ix : indexes K) r : registry :=
  mkRegistry (kinds r) (analysis r) (users r) (draining r) (generations r) ix
    (anytls_prefixes r) (vmess_candidates r) (heap r).
Definition set_prefixes (p : option (gmap string nat)) r : registry :=
  mkRegistry (kinds r) (analysis r) (users r) (draining r) (generations r) (idx r)
    p (vmess_candidates r) (heap r).
Definition set_vmess (l : list Entry) r : registry :=
  mkRegistry (kinds r) (analysis r) (users r) (draining r) (generations r) (idx r)
    (anytls_prefixes r) l (heap r).
Definition set_heap (h : gmap nat M) r : registry :=
  mkRegistry (kinds r) (analysis r) (users r) (draining r) (generations r) (idx r)
    (anytls_prefixes r) (vmess_candidates r) h.
Definition set_analysis_cell (a : option A) r : registry :=
  mkRegistry (kinds r) a (users r) (draining r) (generations r) (idx r)
    (anytls_prefixes r) (vmess_candidates r) (heap r).

(** Access through an [Arc<UserContext>]. *)
Definition ctx r (c : Ref) : M := default ctx_new (heap r !! loc c).
Definition with_ctx (c : Ref) (f : M -> M) r : registry :=
  set_heap (<[loc c := f (ctx r c)]> (heap r)) r.
Definition enabled r (e : Entry) : bool := ctx_is_enabled (ctx r (e_context e)).
Definition user_info r (c : Ref) : UserInfo.t := ctx_stats (rid c) (ctx r c).

Definition registry_new (kinds : CredentialKinds.t) : registry :=
  let table k := if kind_enabled kinds k then Some ∅ else None in
  mkRegistry kinds None ∅ ∅ ∅
    (mkIndexes (table KUuid) (table KTrojan) (table KPassword) (table KPsk) (table KAnytls)
       (table KNaive))
    (if CredentialKinds.anytls_password kinds then Some ∅ else None) [] ∅.

(** ** The credential indexes *)

Definition credential_owner r (k : kind) (key : string) : option string :=
  m ← index_of k (idx r); e ← m !! key; Some (rid (e_context e)).

Definition check_credential_unclaimed r (id : string) (credentials : Credentials.t) (k : kind)
    : result EngineError unit :=
  match parsed k credentials with
  | Some key =>
      match credential_owner r k key with
      | Some owner => if bool_decide (owner = id) then Ok tt else Err (DuplicateCredential id owner)
      | None => Ok tt
      end
  | None => Ok tt
  end.

Definition check_credentials_unclaimed r (id : string) (credentials : Credentials.t)
    : result EngineError unit :=
  foldr (fun k rest => _ ← check_credential_unclaimed r id credentials k; rest) (Ok tt)
    [KUuid; KTrojan; KPassword; KPsk; KAnytls; KNaive].

Definition claim_anytls_prefix (hash : string) : method unit :=
  prefixes ← gets anytls_prefixes;
  match prefixes with
  | None => raise Panic
  | Some prefixes =>
      let prefix := password_sha256_prefix hash in
      modify (set_prefixes (Some (<[prefix := S (default 0%nat (prefixes !! prefix))]> prefixes)))
  end.

Definition release_anytls_prefix (hash : string) : method unit :=
  prefixes ← gets anytls_prefixes;
  match prefixes with
  | None => raise Panic
  | Some prefixes =>
      let prefix := password_sha256_prefix hash in
      match prefixes !! prefix with
      | Some count =>
          modify (set_prefixes (Some
            (match (count - 1)%nat with
             | O => delete prefix prefixes
             | S _ as count => <[prefix := count]> prefixes
             end)))
      | None => mret tt
      end
  end.

Definition index_remove (k : kind) (key : string) : method unit :=
  ix ← gets idx;
  match index_of k ix with
  | None => raise Panic
  | Some m =>
      _ ← modify (set_idx (set_index k (Some (delete key m)) ix));
      if decide (k = KAnytls) then release_anytls_prefix key else mret tt
  end.

(** The prefix is claimed only for a key that was not in the index. *)
Definition index_insert (k : kind) (key : string) (e : Entry) : method unit :=
  ix ← gets idx;
  match index_of k ix with
  | None => raise Panic
  | Some m =>
      _ ← modify (set_idx (set_index k (Some (<[key := e]> m)) ix));
      if decide (k = KAnytls)
      then match m !! key with None => claim_anytls_prefix key | Some _ => mret tt end
      else mret tt
  end.

(** Retire a key the user no longer presents. *)
Definition retire (previous entry : Entry) (k : kind) : method unit :=
  if bool_decide (cred k previous = cred k entry) then mret tt
  else match cred k previous with Some key => index_remove k key | None => mret tt end.

Definition publish (entry : Entry) (k : kind) : method unit :=
  match cred k entry with Some key => index_insert k key entry | None => mret tt end.

Definition unpublish (entry : Entry) (k : kind) : method unit :=
  match cred k entry with Some key => index_remove k key | None => mret tt end.

Definition republish_vmess r : registry :=
  set_vmess (filter (fun e => is_Some (e_vmess e)) (map_to_list (users r)).*2) r.

(** ** Adding and updating *)

(** [UserContext::new]: a cell of its own. *)
Definition new_context (id : string) : method Ref :=
  h ← gets heap;
  let c := mkRef (fresh (dom h)) id in
  _ ← modify (set_heap (<[loc c := ctx_new]> h));
  mret c.

Definition entry_of (context : Ref) (credentials : Credentials.t) : Entry := {|
  e_context := context;
  e_uuid := Credentials.uuid credentials;
  e_trojan_hash := Credentials.trojan_hash credentials;
  e_password := Credentials.password credentials;
  e_shadowsocks := Credentials.shadowsocks credentials;
  e_tuic_password := Credentials.tuic_password credentials;
  e_anytls_hash := Credentials.anytls_hash credentials;
  e_naive_encoded := Credentials.naive_encoded credentials;
  e_vmess := vmess_new <$> Credentials.uuid credentials
|}.

(** The checks: everything that can refuse the call, before anything changes. *)
Definition check_upsert (spec : UserSpec.t) : method (string * Credentials.t) :=
  id ← match UserSpec.resolved_id spec with
       | Some id => if is_empty (trim id) then raise (InvalidUser NeedsId) else mret id
       | None => raise (InvalidUser NeedsId)
       end;
  r ← get;
  _ ← match draining r !! id with
      | Some g =>
          let conns := from_option (fun d => ctx_conns (ctx r (e_context (d_entry d)))) 0
                         (generations r !! g) in
          raise (InvalidUser (StillDraining id (negb (conns =? 0))))
      | None => mret tt
      end;
  credentials ← lift (map_err InvalidUser (parse_credentials (kinds r) id spec));
  _ ← lift (check_credentials_unclaimed r id credentials);
  mret (id, credentials).

(** The user's settings, applied whole on every upsert. *)
Definition apply_spec (spec : UserSpec.t) (context : Ref) r : registry :=
  let r := match analysis r with
           | Some a => with_ctx context (ctx_set_analysis a) r
           | None => r
           end in
  let r := with_ctx context (ctx_set_enabled (UserSpec.enabled spec)) r in
  let r := with_ctx context (ctx_set_max_conns (default 0 (UserSpec.max_conns spec))) r in
  with_ctx context
    (ctx_set_speed_limits (default 0 (UserSpec.upload_limit_bps spec))
       (default 0 (UserSpec.download_limit_bps spec))) r.

(** "Everything past here must succeed: the table is about to change." *)
Definition install (spec : UserSpec.t) (id : string) (credentials : Credentials.t) : method Entry :=
  previous ← gets (fun r => users r !! id);
  context ← match previous with
            | Some entry => mret (e_context entry)
            | None => new_context id
            end;
  _ ← modify (apply_spec spec context);
  let entry := entry_of context credentials in
  _ ← match previous with
      | Some previous => for_in [KUuid; KTrojan; KPassword; KPsk; KAnytls; KNaive] (retire previous entry)
      | None => mret tt
      end;
  _ ← for_in [KUuid; KTrojan; KPassword; KPsk; KNaive; KAnytls] (publish entry);
  _ ← modify (fun r => set_users (<[id := entry]> (users r)) r);
  mret entry.

Definition upsert_locked (spec : UserSpec.t) : method Entry :=
  '(id, credentials) ← check_upsert spec;
  install spec id credentials.

Definition upsert (spec : UserSpec.t) : method UserInfo.t :=
  entry ← upsert_locked spec;
  _ ← modify republish_vmess;
  gets (fun r => user_info r (e_context entry)).

(** One user of the initial list. *)
Definition from_users_one (spec : UserSpec.t) : method unit :=
  match UserSpec.resolved_id spec with
  | None => raise (InvalidUser NeedsId)
  | Some id =>
      r ← get;
      if decide (is_Some (users r !! id)) then raise (InvalidUser (ListedTwice id))
      else _ ← upsert_locked spec; mret tt
  end.

(** [from_users]: an error drops the registry that was being built. *)
Definition from_users (kinds : CredentialKinds.t) (specs : list UserSpec.t)
    : result EngineError registry :=
  match for_in specs from_users_one (registry_new kinds) with
  | (r, Ok _) => Ok (republish_vmess r)
  | (_, Err e) => Err e
  end.

(** The analysis cell is set at most once; the contexts get whatever is passed. *)
Definition set_analysis_context (a : A) r : registry :=
  let r := match analysis r with None => set_analysis_cell (Some a) r | Some _ => r end in
  foldr (fun e r => with_ctx (e_context e) (ctx_set_analysis a) r) r (map_to_list (users r)).*2.

(** ** Removing *)

(** The locked section of [remove]: the generation to wait for, and whether this
    call retired the user. *)
Definition remove_begin (tag id : string) : method (nat * bool) :=
  r ← get;
  match users r !! id with
  | Some entry =>
      _ ← modify (with_ctx (e_context entry) ctx_revoke);
      _ ← modify (fun r => set_users (delete id (users r)) r);
      let g := fresh (dom (generations r)) in
      _ ← modify (fun r => set_draining (<[rid (e_context entry) := g]> (draining r))
                             (<[g := mkDraining entry None]> (generations r)) r);
      _ ← for_in [KUuid; KTrojan; KPassword; KPsk; KAnytls; KNaive] (unpublish entry);
      _ ← modify republish_vmess;
      mret (g, true)
  | None =>
      match draining r !! id with
      | Some g => mret (g, false)
      | None => raise (UnknownUser tag id)
      end
  end.

(** [DrainingUser::finish]: [None] while connections are open and no result is
    stored; the first completion stores the final snapshot. *)
Definition finish (g : nat) r : registry * option UserInfo.t :=
  match generations r !! g with
  | None => (r, None)
  | Some d =>
      match d_result d with
      | Some info => (r, Some info)
      | None =>
          let c := e_context (d_entry d) in
          if ctx_conns (ctx r c) =? 0
          then
            let info := user_info r c in
            (set_draining (draining r) (<[g := mkDraining (d_entry d) (Some info)]> (generations r)) r,
             Some info)
          else (r, None)
      end
  end.

Definition clear_draining_generation (g : nat) r : registry :=
  match generations r !! g with
  | None => r
  | Some d =>
      let id := rid (e_context (d_entry d)) in
      if bool_decide (draining r !! id = Some g)
      then set_draining (delete id (draining r)) (generations r) r else r
  end.

(** The end of [remove], once [finish] is ready. *)
Definition remove_end (g : nat) r : registry * option UserInfo.t :=
  match finish g r with
  | (r, Some info) => (clear_draining_generation g r, Some info)
  | (r, None) => (r, None)
  end.

(** ** Reading, kicking and billing *)

Definition registry_get r (id : string) : option UserInfo.t :=
  (fun e => user_info r (e_context e)) <$> users r !! id.

Definition kick (tag id : string) : method Z :=
  r ← get;
  match users r !! id with
  | None => raise (UnknownUser tag id)
  | Some e =>
      let '(m, n) := ctx_kick (ctx r (e_context e)) in
      _ ← modify (with_ctx (e_context e) (fun _ => m));
      mret n
  end.

Definition set_counters (tx rx : Z) (i : UserInfo.t) : UserInfo.t :=
  UserInfo.mk (UserInfo.id i) (UserInfo.enabled i) tx rx
    (UserInfo.last_traffic_observed_at_unix_millis i) (UserInfo.conns i) (UserInfo.total_conns i)
    (UserInfo.max_conns i) (UserInfo.upload_limit_bps i) (UserInfo.download_limit_bps i).

Definition taken_user_info (c : Ref) r : registry * UserInfo.t :=
  let '(m, (tx, rx)) := ctx_take_traffic (ctx r c) in
  let r := with_ctx c (fun _ => m) r in
  (r, set_counters tx rx (user_info r c)).

Definition take_traffic (tag id : string) : method UserInfo.t := fun r =>
  match users r !! id with
  | None => (r, Err (UnknownUser tag id))
  | Some e => let '(r, info) := taken_user_info (e_context e) r in (r, Ok info)
  end.

(** One user of a sweep; [keep] is the filter of [take_nonzero_traffic]. *)
Definition sweep_one (keep : UserInfo.t -> bool) (e : Entry) (acc : registry * list UserInfo.t)
    : registry * list UserInfo.t :=
  let '(r, infos) := acc in
  let '(r, info) := taken_user_info (e_context e) r in
  (r, if keep info then info :: infos else infos).

Definition sweep (keep : UserInfo.t -> bool) r : registry * list UserInfo.t :=
  let '(r, infos) := foldr (sweep_one keep) (r, []) (map_to_list (users r)).*2 in
  (r, sort_by_key UserInfo.id infos).

Definition take_all_traffic r := sweep (fun _ => true) r.
Definition take_nonzero_traffic r :=
  sweep (fun i => negb ((UserInfo.tx i =? 0) && (UserInfo.rx i =? 0))) r.

Definition registry_list r : list UserInfo.t :=
  sort_by_key UserInfo.id ((fun e => user_info r (e_context e)) <$> (map_to_list (users r)).*2).

Definition user_count r : nat := size (users r).

(** ** Lookups *)

(** [Entry::accept]; the comparison is constant-time in the source. *)
Definition accept r (e : Entry) (expected presented : string) : option Ref :=
  if bool_decide (expected = presented) && enabled r e then Some (e_context e) else None.

Definition find_in r (k : kind) (key : string) : option (Entry * string) :=
  m ← index_of k (idx r); e ← m !! key; expected ← cred k e; Some (e, expected).

Definition find_uuid r (uuid : string) : option Ref :=
  '(e, expected) ← find_in r KUuid uuid; accept r e expected uuid.
Definition find_trojan_hash r (hash : string) : option Ref :=
  '(e, expected) ← find_in r KTrojan hash; accept r e expected hash.
Definition find_password r (password : string) : option Ref :=
  '(e, expected) ← find_in r KPassword password; accept r e expected password.
Definition find_password_sha256 r (hash : string) : option Ref :=
  '(e, expected) ← find_in r KAnytls hash; accept r e expected hash.
Definition find_naive_basic r (encoded : string) : option Ref :=
  '(e, expected) ← find_in r KNaive encoded; accept r e expected encoded.

Definition find_shadowsocks_psk_hash r (hash : string) : option (Ref * string) :=
  m ← index_of KPsk (idx r); e ← m !! hash; credential ← e_shadowsocks e;
  if bool_decide (ShadowsocksCredential.hash credential = hash) && enabled r e
  then Some (e_context e, ShadowsocksCredential.psk credential) else None.

Definition find_tuic_uuid r (uuid : string) : option (Ref * string) :=
  m ← index_of KUuid (idx r); e ← m !! uuid; password ← e_tuic_password e; expected ← e_uuid e;
  if bool_decide (expected = uuid) && enabled r e then Some (e_context e, password) else None.

Definition accept_vmess r (e : Entry) (auth_id : string) : option (Ref * string * Z) :=
  key ← e_vmess e; timestamp ← vmess_open key auth_id;
  if enabled r e then Some (e_context e, instruction_key key, timestamp) else None.

Fixpoint find_map {B C} (f : B -> option C) (l : list B) : option C :=
  match l with
  | [] => None
  | x :: l => match f x with Some y => Some y | None => find_map f l end
  end.

Definition find_vmess_auth_id r (auth_id : string) : option (Ref * string * Z) :=
  find_map (fun e => accept_vmess r e auth_id) (vmess_candidates r).

Definition has_password_sha256_prefix r (prefix : string) : bool :=
  match anytls_prefixes r with
  | None => false
  | Some prefixes => bool_decide (is_Some (prefixes !! prefix))
  end.
End registry.

(** ** The invariant *)

Section invariant.
Context {K M A : Type} `{!CredentialOps K} `{!UserContextOps M A}.

Local Abbreviation registry := (registry K M A).
Local Abbreviation Entry := (Entry K).
Local Abbreviation method := (stm registry EngineError).

Implicit Types (r : registry) (e : Entry) (u : gmap string Entry) (m : gmap string Entry).

(** An index agrees with the user map: it maps exactly the users' current keys,
    each to the user's own entry; it exists exactly for the inbound's forms. *)
Definition index_ok (kinds : CredentialKinds.t) u (k : kind) (o : index K) : Prop :=
  match o with
  | None => kind_enabled kinds k = false /\ forall id e, u !! id = Some e -> cred k e = None
  | Some m => kind_enabled kinds k = true /\
      forall key e, m !! key = Some e <-> exists id, u !! id = Some e /\ cred k e = Some key
  end.

Definition keys_with_prefix (prefix : string) m : nat :=
  size (filter (fun '(key, _) => password_sha256_prefix key = prefix) m).

(** The prefix table counts the keys of the AnyTLS index and holds no zero. *)
Definition prefixes_ok r : Prop :=
  match index_of KAnytls (idx r), anytls_prefixes r with
  | Some m, Some prefixes =>
      forall x, default 0%nat (prefixes !! x) = keys_with_prefix x m /\ prefixes !! x <> Some 0%nat
  | None, None => True
  | _, _ => False
  end.

Record core_ok r : Prop := {
  ok_refs id e : users r !! id = Some e ->
    rid (e_context e) = id /\ is_Some (heap r !! loc (e_context e));
  ok_locs id1 id2 e1 e2 : users r !! id1 = Some e1 -> users r !! id2 = Some e2 ->
    loc (e_context e1) = loc (e_context e2) -> id1 = id2;
  ok_index k : index_ok (kinds r) (users r) k (index_of k (idx r));
  ok_prefixes : prefixes_ok r;
  ok_vmess_keys id e : users r !! id = Some e -> e_vmess e = vmess_new <$> e_uuid e;
  ok_draining id g : draining r !! id = Some g ->
    users r !! id = None /\
    exists d, generations r !! g = Some d /\ rid (e_context (d_entry d)) = id;
  ok_generations g d : generations r !! g = Some d ->
    is_Some (heap r !! loc (e_context (d_entry d))) /\
    forall id e, users r !! id = Some e -> loc (e_context e) <> loc (e_context (d_entry d))
}.

Definition reg_ok r : Prop := core_ok r /\ republish_vmess r = r.

(** What the index operations leave alone. *)
Record same_but_index r r' : Prop := {
  sb_kinds : kinds r' = kinds r;
  sb_analysis : analysis r' = analysis r;
  sb_users : users r' = users r;
  sb_draining : draining r' = draining r;
  sb_generations : generations r' = generations r;
  sb_vmess : vmess_candidates r' = vmess_candidates r;
  sb_heap : heap r' = heap r
}.

Lemma same_but_index_refl r : same_but_index r r.
Proof. by split. Qed.

Lemma same_but_index_trans r1 r2 r3 :
  same_but_index r1 r2 -> same_but_index r2 r3 -> same_but_index r1 r3.
Proof. intros [] []. split; congruence. Qed.

Lemma index_set k k' (o : index K) ix :
  index_of k' (set_index k o ix) = if decide (k = k') then o else index_of k' ix.
Proof. by destruct k, k'. Qed.

(** ** The prefix counts *)

Lemma keys_with_prefix_insert x key e m :
  m !! key = None ->
  keys_with_prefix x (<[key := e]> m) =
    ((if decide (password_sha256_prefix key = x) then 1 else 0) + keys_with_prefix x m)%nat.
Proof.
  intros Hk. unfold keys_with_prefix. rewrite map_filter_insert.
  destruct (decide (password_sha256_prefix key = x)) as [H|H].
  - rewrite map_size_insert_None; [done|].
    apply map_lookup_filter_None. by left.
  - by rewrite delete_id.
Qed.

Lemma keys_with_prefix_overwrite x key e m :
  is_Some (m !! key) -> keys_with_prefix x (<[key := e]> m) = keys_with_prefix x m.
Proof.
  intros [e' Hk]. rewrite <- (insert_id m key e' Hk) at 2.
  rewrite <- (insert_delete_eq m key e), <- (insert_delete_eq m key e').
  by rewrite !keys_with_prefix_insert by apply lookup_delete_eq.
Qed.

Lemma keys_with_prefix_delete x key m :
  is_Some (m !! key) ->
  keys_with_prefix x m =
    ((if decide (password_sha256_prefix key = x) then 1 else 0) + keys_with_prefix x (delete key m))%nat.
Proof.
  intros [e Hk]. rewrite <- (insert_delete_id m key e Hk) at 1.
  by rewrite keys_with_prefix_insert by apply lookup_delete_eq.
Qed.

(** ** One index operation *)

Definition effect_of r r' (k : kind) (f : gmap string Entry -> gmap string Entry) : Prop :=
  same_but_index r r' /\ prefixes_ok r' /\
  forall k', index_of k' (idx r') = if decide (k = k') then f <$> index_of k' (idx r) else index_of k' (idx r).

Lemma index_remove_effect r k key m :
  prefixes_ok r -> index_of k (idx r) = Some m -> is_Some (m !! key) ->
  exists r', index_remove k key r = (r', Ok tt) /\ effect_of r r' k (delete key).
Proof.
  intros Hp Hm Hkey. unfold index_remove, mbind, stm_bind, gets, modify. rewrite Hm.
  destruct (decide (k = KAnytls)) as [->|Hk].
  - unfold release_anytls_prefix, mbind, stm_bind, gets, modify. cbn.
    unfold prefixes_ok in Hp. rewrite Hm in Hp. destruct (anytls_prefixes r) as [ps|]; [|done].
    destruct (Hp (password_sha256_prefix key)) as [Hc Hz].
    rewrite (keys_with_prefix_delete _ key m Hkey), decide_True in Hc by done.
    destruct (ps !! password_sha256_prefix key) as [n|] eqn:En; [|done]. cbn in Hc. subst n.
    eexists. split; [reflexivity|]. split; [by split|]. split.
    + unfold prefixes_ok. cbn. intros x. rewrite Nat.sub_0_r.
      destruct (Hp x) as [Hx Hx0]. rewrite (keys_with_prefix_delete x key m Hkey) in Hx.
      destruct (decide (password_sha256_prefix key = x)) as [<-|Hne].
      * destruct (keys_with_prefix _ (delete key m)) as [|n] eqn:E; cbn.
        -- by rewrite lookup_delete_eq.
        -- rewrite lookup_insert_eq. cbn. split; congruence.
      * destruct (keys_with_prefix (password_sha256_prefix key) _);
          by rewrite ?lookup_delete_ne, ?lookup_insert_ne by done.
    + intros k'. cbn. rewrite index_set. destruct (decide _) as [<-|]; [by rewrite Hm|done].
  - eexists. split; [reflexivity|]. split; [by split|]. split.
    + unfold prefixes_ok in *. cbn -[index_of]. rewrite index_set, decide_False by done. exact Hp.
    + intros k'. cbn. rewrite index_set. destruct (decide _) as [<-|]; [by rewrite Hm|done].
Qed.

Lemma index_insert_effect r k key e m :
  prefixes_ok r -> index_of k (idx r) = Some m ->
  exists r', index_insert k key e r = (r', Ok tt) /\ effect_of r r' k (insert key e).
Proof.
  intros Hp Hm. unfold index_insert, mbind, stm_bind, gets, modify. rewrite Hm.
  destruct (decide (k = KAnytls)) as [->|Hk].
  - unfold prefixes_ok in Hp. rewrite Hm in Hp. destruct (anytls_prefixes r) as [ps|] eqn:Eps; [|done].
    destruct (m !! key) as [old|] eqn:Ek.
    + eexists. split; [reflexivity|]. split; [by split|]. split.
      * unfold prefixes_ok. cbn. rewrite Eps. intros x. rewrite keys_with_prefix_overwrite by done.
        apply Hp.
      * intros k'. cbn. rewrite index_set. destruct (decide _) as [<-|]; [by rewrite Hm|done].
    + unfold claim_anytls_prefix, mbind, stm_bind, gets, modify. cbn. rewrite Eps.
      eexists. split; [reflexivity|]. split; [by split|]. split.
      * unfold prefixes_ok. cbn. intros x. rewrite keys_with_prefix_insert by done.
        destruct (Hp x) as [Hx Hx0]. destruct (decide _) as [<-|Hne].
        -- rewrite lookup_insert_eq. cbn. rewrite Hx. done.
        -- by rewrite lookup_insert_ne by done.
      * intros k'. cbn. rewrite index_set. destruct (decide _) as [<-|]; [by rewrite Hm|done].
  - eexists. split; [reflexivity|]. split; [by split|]. split.
    + unfold prefixes_ok in *. cbn -[index_of]. rewrite index_set, decide_False by done. exact Hp.
    + intros k'. cbn. rewrite index_set. destruct (decide _) as [<-|]; [by rewrite Hm|done].
Qed.

(** ** A round over the kinds *)

(** Each round changes only its own index, by [f k], when [Pre k] holds of it. *)
Definition rounds (body : kind -> method unit) (f : kind -> gmap string Entry -> gmap string Entry)
    (Pre : kind -> index K -> Prop) : Prop :=
  forall k r, Pre k (index_of k (idx r)) -> prefixes_ok r ->
    exists r', body k r = (r', Ok tt) /\ effect_of r r' k (f k).

Lemma for_kinds body f Pre l r :
  rounds body f Pre -> NoDup l -> (forall k, k ∈ l -> Pre k (index_of k (idx r))) -> prefixes_ok r ->
  exists r', for_in l body r = (r', Ok tt) /\ same_but_index r r' /\ prefixes_ok r' /\
    forall k, index_of k (idx r') =
      if decide (k ∈ l) then f k <$> index_of k (idx r) else index_of k (idx r).
Proof.
  intros Hb Hnd. revert r. induction Hnd as [|k l Hk Hnd IH]; intros r Hpre Hp.
  - exists r. split; [done|]. split; [apply same_but_index_refl|]. split; [done|].
    intros k. by rewrite decide_False by apply not_elem_of_nil.
  - destruct (Hb k r) as (r1 & E1 & (S1 & P1 & I1)); [apply Hpre; by left|done|].
    destruct (IH r1) as (r2 & E2 & S2 & P2 & I2); [|done|].
    { intros k' Hk'. rewrite I1, decide_False by (intros ->; done). apply Hpre. by right. }
    exists r2. split; [cbn; by rewrite (stm_bind_eq _ _ _ _ _ E1)|].
    split; [by eapply same_but_index_trans|]. split; [done|].
    intros k'. rewrite I2, I1. destruct (decide (k = k')) as [<-|Hne].
    + rewrite decide_False by done. by rewrite decide_True by left.
    + destruct (decide (k' ∈ l)) as [Hin|Hin].
      * by rewrite decide_True by (by right).
      * rewrite decide_False by (intros [?|?]%elem_of_cons; congruence). done.
Qed.

Definition forget (old : option string) (m : gmap string Entry) : gmap string Entry :=
  match old with Some key => delete key m | None => m end.

Definition learn (new : option string) (e : Entry) (m : gmap string Entry) : gmap string Entry :=
  match new with Some key => <[key := e]> m | None => m end.

Definition stale (previous entry : Entry) (k : kind) : option string :=
  if decide (cred k previous = cred k entry) then None else cred k previous.

(** The key an entry is removed under is in its index. *)
Definition holds (old : option string) (o : index K) : Prop :=
  match o with
  | None => old = None
  | Some m => forall key, old = Some key -> is_Some (m !! key)
  end.

Definition has_index (new : option string) (o : index K) : Prop := o = None -> new = None.

Lemma effect_of_id r k : prefixes_ok r -> effect_of r r k id.
Proof.
  intros. split; [apply same_but_index_refl|]. split; [done|].
  intros k'. destruct (decide _) as [<-|]; [by destruct (index_of k _)|done].
Qed.

Lemma remove_rounds (old : kind -> option string) :
  rounds (fun k => match old k with Some key => index_remove k key | None => mret tt end)
    (fun k => forget (old k)) (fun k => holds (old k)).
Proof.
  intros k r Hh Hp. destruct (old k) as [key|].
  - unfold holds in Hh. destruct (index_of k (idx r)) as [m|] eqn:Em; [|done].
    by apply (index_remove_effect r k key m); auto.
  - exists r. split; [done|]. by apply effect_of_id.
Qed.

Lemma retire_rounds previous entry :
  rounds (retire previous entry) (fun k => forget (stale previous entry k))
    (fun k => holds (stale previous entry k)).
Proof.
  intros k r Hh Hp. destruct (remove_rounds (stale previous entry) k r Hh Hp) as (r' & E & H).
  exists r'. split; [|done]. rewrite <- E. unfold retire, stale.
  by destruct (decide (cred k previous = cred k entry)) as [Heq|Hne];
    [rewrite bool_decide_true|rewrite bool_decide_false].
Qed.

Lemma unpublish_rounds entry :
  rounds (unpublish entry) (fun k => forget (cred k entry)) (fun k => holds (cred k entry)).
Proof. exact (remove_rounds (fun k => cred k entry)). Qed.

Lemma publish_rounds entry :
  rounds (publish entry) (fun k => learn (cred k entry) entry) (fun k => has_index (cred k entry)).
Proof.
  intros k r Hh Hp. unfold publish. destruct (cred k entry) as [key|].
  - unfold has_index in Hh. destruct (index_of k (idx r)) as [m|] eqn:Em; [|by specialize (Hh eq_refl)].
    by apply (index_insert_effect r k key entry m).
  - exists r. split; [done|]. by apply effect_of_id.
Qed.

(** ** The index of one form, as a function of the user map *)

Definition agrees (u : gmap string Entry) (k : kind) (m : gmap string Entry) : Prop :=
  forall key e, m !! key = Some e <-> exists id, u !! id = Some e /\ cred k e = Some key.

Definition named (u : gmap string Entry) : Prop :=
  forall id e, u !! id = Some e -> rid (e_context e) = id.

Lemma agrees_remove u k m id entry :
  named u -> agrees u k m -> u !! id = Some entry ->
  agrees (delete id u) k (forget (cred k entry) m).
Proof.
  intros Hn Hm Hu key e. unfold forget. destruct (cred k entry) as [old|] eqn:Hc.
  - destruct (decide (old = key)) as [->|Hne].
    + rewrite lookup_delete_eq. split; [done|]. intros (i & Hi & He).
      apply lookup_delete_Some in Hi as [Hne Hi].
      assert (m !! key = Some e) as H1 by (apply Hm; eauto).
      assert (m !! key = Some entry) as H2 by (apply Hm; eauto).
      pose proof (Hn _ _ Hi). pose proof (Hn _ _ Hu). congruence.
    + rewrite lookup_delete_ne by done. rewrite (Hm key e). split.
      * intros (i & Hi & He). exists i. split; [|done]. apply lookup_delete_Some. split; [|done].
        intros <-. congruence.
      * intros (i & [_ Hi]%lookup_delete_Some & He). eauto.
  - rewrite (Hm key e). split.
    + intros (i & Hi & He). exists i. split; [|done]. apply lookup_delete_Some. split; [|done].
      intros <-. congruence.
    + intros (i & [_ Hi]%lookup_delete_Some & He). eauto.
Qed.
Lemma agrees_insert u k m id entry :
  agrees u k m -> u !! id = None -> (forall key, cred k entry = Some key -> m !! key = None) ->
  agrees (<[id := entry]> u) k (learn (cred k entry) entry m).
Proof.
  intros Hm Hu Hfree key e.
  transitivity ((e = entry /\ cred k entry = Some key) \/ m !! key = Some e).
  - unfold learn. destruct (cred k entry) as [new|] eqn:Hnew; [|naive_solver].
    destruct (decide (new = key)) as [->|Hne].
    + rewrite lookup_insert_eq, (Hfree key eq_refl). naive_solver.
    + rewrite lookup_insert_ne by done. naive_solver.
  - rewrite (Hm key e). split.
    + intros [[-> Hc]|(i & Hi & Hc)].
      * exists id. by rewrite lookup_insert_eq.
      * exists i. rewrite lookup_insert_ne; [done|congruence].
    + intros (i & [[-> ->]|[_ Hi]]%lookup_insert_Some & Hc); eauto.
Qed.

Lemma learn_forget k m previous entry :
  learn (cred k entry) entry (forget (stale previous entry k) m) =
  learn (cred k entry) entry (forget (cred k previous) m).
Proof.
  unfold stale. destruct (decide (cred k previous = cred k entry)) as [->|]; [|done].
  unfold learn, forget. destruct (cred k entry); [|done]. by rewrite insert_delete_eq.
Qed.

Lemma agrees_upsert u k m id previous entry :
  named u -> agrees u k m -> u !! id = previous ->
  (forall key o, cred k entry = Some key -> m !! key = Some o -> rid (e_context o) = id) ->
  agrees (<[id := entry]> u) k
    (learn (cred k entry) entry
       (match previous with Some p => forget (stale p entry k) m | None => m end)).
Proof.
  intros Hn Hm Hprev Hfree.
  assert (forall key o, cred k entry = Some key -> m !! key = Some o ->
            previous = Some o /\ cred k o = Some key) as Hown.
  { intros key o Hc Ho. apply Hm in Ho as Ho'. destruct Ho' as (i & Hi & Hco).
    split; [|done]. pose proof (Hfree key o Hc Ho). pose proof (Hn i o Hi). congruence. }
  destruct previous as [p|].
  - rewrite learn_forget, <- insert_delete_eq.
    apply agrees_insert; [by apply agrees_remove|apply lookup_delete_eq|].
    intros key Hc. destruct (m !! key) as [o|] eqn:Ho.
    + destruct (Hown key o Hc Ho) as [[= ->] Hp]. unfold forget. rewrite Hp. apply lookup_delete_eq.
    + unfold forget. destruct (cred k p); [|done]. by apply lookup_delete_None; right.
  - apply agrees_insert; [done|done|]. intros key Hc.
    destruct (m !! key) as [o|] eqn:Ho; [|done]. by destruct (Hown key o Hc Ho).
Qed.

(** ** The checks *)

Lemma parse_kinds kinds id spec c k :
  parse_credentials kinds id spec = Ok c -> kind_enabled kinds k = false -> parsed k c = None.
Proof.
  unfold parse_credentials. intros H Hk.
  destruct (bool_decide (is_Some (UserSpec.uuid spec)) && _) eqn:G1; [done|].
  destruct (bool_decide (is_Some (UserSpec.password spec)) && _); [done|].
  destruct (_ && _) in H; [done|]. destruct (_ && _) in H; [done|].
  apply bind_Ok in H as (u & Hu & H). apply bind_Ok in H as (ss & Hss & H).
  injection H as <-. destruct k; cbn in *; rewrite ?Hk; try done.
  - rewrite Hk, andb_true_r in G1. apply bool_decide_eq_false in G1.
    destruct (UserSpec.uuid spec); [by destruct G1|]. by injection Hu as <-.
  - destruct (CredentialKinds.shadowsocks_psk kinds); try done;
      by destruct (UserSpec.password spec); injection Hss as <-.
Qed.

Lemma check_unclaimed_Ok r id c :
  check_credentials_unclaimed r id c = Ok tt <->
  forall k key o, parsed k c = Some key -> credential_owner r k key = Some o -> o = id.
Proof.
  assert (forall k, check_credential_unclaimed r id c k = Ok tt <->
    forall key o, parsed k c = Some key -> credential_owner r k key = Some o -> o = id) as H1.
  { intros k. unfold check_credential_unclaimed. destruct (parsed k c) as [key|]; [|naive_solver].
    destruct (credential_owner r k key) as [o|] eqn:E; [|naive_solver].
    case_bool_decide; naive_solver. }
  unfold check_credentials_unclaimed. cbn [foldr].
  rewrite !bind_Ok. split.
  - intros H k. apply H1. repeat setoid_rewrite bind_Ok in H.
    destruct H as ([] & E1 & [] & E2 & [] & E3 & [] & E4 & [] & E5 & [] & E6 & _). by destruct k.
  - intros H. exists tt. split; [apply H1, H|].
    do 5 (apply bind_Ok; exists tt; split; [apply H1, H|]). done.
Qed.

Lemma check_upsert_pure spec r : (check_upsert spec r).1 = r.
Proof.
  unfold check_upsert, mbind, stm_bind, get, lift.
  destruct (UserSpec.resolved_id spec) as [id|]; [|done].
  destruct (is_empty (trim id)); [done|]. cbn -[check_credentials_unclaimed].
  destruct (draining r !! id); [done|]. cbn -[check_credentials_unclaimed].
  destruct (parse_credentials (kinds r) id spec) as [c|]; [|done]. cbn -[check_credentials_unclaimed].
  by destruct (check_credentials_unclaimed r id c).
Qed.

Lemma check_upsert_Ok spec r r' id c :
  check_upsert spec r = (r', Ok (id, c)) ->
  r' = r /\ UserSpec.resolved_id spec = Some id /\ trim id <> "" /\ draining r !! id = None /\
  parse_credentials (kinds r) id spec = Ok c /\ check_credentials_unclaimed r id c = Ok tt.
Proof.
  unfold check_upsert, mbind, stm_bind, get, lift.
  destruct (UserSpec.resolved_id spec) as [i|]; [|done].
  destruct (is_empty (trim i)) eqn:Et; [done|]. cbn -[check_credentials_unclaimed].
  destruct (draining r !! i) eqn:Ed; [done|]. cbn -[check_credentials_unclaimed].
  destruct (parse_credentials (kinds r) i spec) as [c'|] eqn:Ep; [|done]. cbn -[check_credentials_unclaimed].
  destruct (check_credentials_unclaimed r i c') as [[]|] eqn:Ec; [|done]. intros [= <- <- <-].
  by apply is_empty_false in Et.
Qed.

Lemma check_credential_no_panic r id c k : check_credential_unclaimed r id c k <> Err Panic.
Proof.
  unfold check_credential_unclaimed. destruct (parsed k c) as [key|]; [|done].
  destruct (credential_owner r k key); [|done]. by case_bool_decide.
Qed.

Lemma check_upsert_no_panic spec r : (check_upsert spec r).2 <> Err Panic.
Proof.
  unfold check_upsert, mbind, stm_bind, get, lift.
  destruct (UserSpec.resolved_id spec) as [i|]; [|done].
  destruct (is_empty (trim i)); [done|]. cbn -[check_credentials_unclaimed].
  destruct (draining r !! i); [done|]. cbn -[check_credentials_unclaimed].
  destruct (parse_credentials (kinds r) i spec) as [c|]; [|done]. cbn -[check_credentials_unclaimed].
  destruct (check_credentials_unclaimed r i c) as [[]|e] eqn:E; [done|]. cbn -[check_credentials_unclaimed]. intros [= ->].
  unfold check_credentials_unclaimed in E. cbn in E. unfold mbind, result_bind in E.
  repeat match type of E with
  | match ?x with _ => _ end = _ =>
      let F := fresh in destruct x as [[]|] eqn:F; [|subst; injection E as ->;
        by apply check_credential_no_panic in F]
  end. done.
Qed.

(** ** Installing an entry *)

Lemma apply_spec_heap spec c r :
  exists v : M, apply_spec spec c r = set_heap (<[loc c := v]> (heap r)) r /\
    (UserContextLaws M A -> ctx_is_enabled v = UserSpec.enabled spec).
Proof.
  unfold apply_spec, with_ctx, set_heap. destruct r as [? [a|] ? ? ? ? ? ? ?]; cbn;
    rewrite !insert_insert_eq; eexists; (split; [reflexivity|]); intros HL;
    rewrite enabled_set_speed_limits; unfold ctx; cbn; rewrite lookup_insert_eq; cbn;
    rewrite enabled_set_max_conns; rewrite lookup_insert_eq; cbn; apply enabled_set_enabled.
Qed.

(** Where an upsert of [id] keeps its accounting record: the existing one, or a
    fresh cell. *)
Lemma install_context id r :
  core_ok r -> exists c h,
    (match users r !! id with
     | Some entry => mret (e_context entry)
     | None => new_context id
     end : method Ref) r = (set_heap h r, Ok c) /\
    rid c = id /\
    (forall l, l <> loc c -> h !! l = heap r !! l) /\
    (forall prev, users r !! id = Some prev -> c = e_context prev) /\
    (forall i e, users r !! i = Some e -> i <> id -> loc (e_context e) <> loc c) /\
    (forall g d, generations r !! g = Some d -> loc (e_context (d_entry d)) <> loc c).
Proof.
  intros Hok. destruct (users r !! id) as [p|] eqn:Hp.
  - exists (e_context p), (heap r). split; [by destruct r|].
    destruct (ok_refs r Hok id p Hp) as [Hrid _]. split_and!; [done|done|congruence| |].
    + intros i e Hi Hne El. apply Hne. exact (ok_locs r Hok i id e p Hi Hp El).
    + intros g d Hg El. destruct (ok_generations r Hok g d Hg) as [_ Hd]. by apply (Hd id p Hp).
  - exists (mkRef (fresh (dom (heap r))) id), (<[fresh (dom (heap r)) := ctx_new]> (heap r)).
    split; [done|]. split; [done|]. cbn.
    assert (heap r !! fresh (dom (heap r)) = None) as Hf.
    { apply not_elem_of_dom, is_fresh. }
    split_and!; [intros l Hl; by rewrite lookup_insert_ne by done|done| |].
    + intros i e Hi _ El. destruct (ok_refs r Hok i e Hi) as [_ [v Hv]]. congruence.
    + intros g d Hg El. destruct (ok_generations r Hok g d Hg) as [[v Hv] _]. congruence.
Qed.


Lemma all_kinds k : k ∈ [KUuid; KTrojan; KPassword; KPsk; KAnytls; KNaive].
Proof. destruct k; set_solver. Qed.

Lemma all_kinds' k : k ∈ [KUuid; KTrojan; KPassword; KPsk; KNaive; KAnytls].
Proof. destruct k; set_solver. Qed.

Lemma kinds_NoDup :
  NoDup [KUuid; KTrojan; KPassword; KPsk; KAnytls; KNaive] /\
  NoDup [KUuid; KTrojan; KPassword; KPsk; KNaive; KAnytls].
Proof. split; apply (bool_decide_unpack _); vm_compute; exact I. Qed.

(** A user's current keys, and so its stale ones, are in the indexes. *)
Lemma holds_cred kinds u k (o : index K) id p :
  index_ok kinds u k o -> u !! id = Some p -> holds (cred k p) o.
Proof.
  intros Ho Hu. unfold holds. destruct o as [m|]; [|by eapply Ho].
  intros key Hc. exists p. apply Ho. eauto.
Qed.

Lemma holds_stale k (o : index K) p entry : holds (cred k p) o -> holds (stale p entry k) o.
Proof. unfold stale. case_decide; [|done]. by destruct o. Qed.

(** Retiring the previous entry's stale keys and publishing the new ones turns
    indexes of the old user map into indexes of the new one. *)
Lemma install_indexes id entry r :
  named (users r) -> rid (e_context entry) = id -> prefixes_ok r ->
  (forall k, index_ok (kinds r) (users r) k (index_of k (idx r))) ->
  (forall k, kind_enabled (kinds r) k = false -> cred k entry = None) ->
  (forall k key o m, cred k entry = Some key -> index_of k (idx r) = Some m ->
     m !! key = Some o -> rid (e_context o) = id) ->
  exists r1 r2,
    (match users r !! id with
     | Some previous => for_in [KUuid; KTrojan; KPassword; KPsk; KAnytls; KNaive] (retire previous entry)
     | None => mret tt
     end : method unit) r = (r1, Ok tt) /\
    for_in [KUuid; KTrojan; KPassword; KPsk; KNaive; KAnytls] (publish entry) r1 = (r2, Ok tt) /\
    same_but_index r r2 /\ prefixes_ok r2 /\
    forall k, index_ok (kinds r) (<[id := entry]> (users r)) k (index_of k (idx r2)).
Proof.
  intros Hn Hid Hp Hix Hdis Hfree.
  assert (exists r1, (match users r !! id with
     | Some previous => for_in [KUuid; KTrojan; KPassword; KPsk; KAnytls; KNaive] (retire previous entry)
     | None => mret tt
     end : method unit) r = (r1, Ok tt) /\ same_but_index r r1 /\ prefixes_ok r1 /\
     forall k, index_of k (idx r1) =
       match users r !! id with Some p => forget (stale p entry k) | None => fun m => m end
         <$> index_of k (idx r)) as (r1 & E1 & S1 & P1 & I1).
  { destruct (users r !! id) as [p|] eqn:Hu.
    - destruct (for_kinds _ _ _ _ r (retire_rounds p entry) (proj1 kinds_NoDup)) as (r1 & E & S & P & I);
        [|done|].
      { intros k _. eapply holds_stale, holds_cred; [apply Hix|exact Hu]. }
      exists r1. split_and!; [done..|]. intros k. by rewrite I, decide_True by apply all_kinds.
    - exists r. split_and!; [done|apply same_but_index_refl|done|]. intros k.
      by destruct (index_of k (idx r)). }
  destruct (for_kinds _ _ _ _ r1 (publish_rounds entry) (proj2 kinds_NoDup)) as (r2 & E2 & S2 & P2 & I2);
    [|done|].
  { intros k _ Ho. rewrite I1 in Ho. specialize (Hix k).
    destruct (index_of k (idx r)); [done|]. apply Hdis. by apply Hix. }
  exists r1, r2. split_and!; [done|done|by eapply same_but_index_trans|done|].
  intros k. rewrite I2, I1, decide_True by apply all_kinds'.
  specialize (Hix k). destruct (index_of k (idx r)) as [m|] eqn:Em; cbn; destruct Hix as [He Hm].
  - split; [done|].
    pose proof (agrees_upsert (users r) k m id (users r !! id) entry Hn Hm eq_refl) as H.
    destruct (users r !! id) as [p|]; apply H; eauto.
  - split; [done|]. intros i e [[_ <-]|[_ Hi]]%lookup_insert_Some; eauto.
Qed.

Lemma cred_entry_of k c credentials : cred k (entry_of c credentials : Entry) = parsed k credentials.
Proof. by destruct k. Qed.


(** What a successful upsert of [id] with [credentials] did. *)
Record installed (spec : UserSpec.t) (id : string) (credentials : Credentials.t)
    r r' (entry : Entry) : Prop := {
  in_entry : entry = entry_of (e_context entry) credentials;
  in_rid : rid (e_context entry) = id;
  in_context prev : users r !! id = Some prev -> e_context entry = e_context prev;
  in_users : users r' = <[id := entry]> (users r);
  in_kinds : kinds r' = kinds r;
  in_draining : draining r' = draining r;
  in_generations : generations r' = generations r;
  in_vmess : vmess_candidates r' = vmess_candidates r;
  in_enabled : UserContextLaws M A -> enabled r' entry = UserSpec.enabled spec;
  in_cell : is_Some (heap r' !! loc (e_context entry));
  in_heap l : l <> loc (e_context entry) -> heap r' !! l = heap r !! l;
  in_fresh i e : users r !! i = Some e -> i <> id -> loc (e_context e) <> loc (e_context entry);
  in_old g d : generations r !! g = Some d -> loc (e_context (d_entry d)) <> loc (e_context entry)
}.

Lemma install_core spec id credentials r r' entry :
  core_ok r -> draining r !! id = None -> installed spec id credentials r r' entry ->
  prefixes_ok r' -> (forall k, index_ok (kinds r') (users r') k (index_of k (idx r'))) -> core_ok r'.
Proof.
  intros Hok Hd [He Hid Hc Hu Hk Hdr Hg _ _ Hcell Hh Hf Ho] Hp Hix.
  split; [| |exact Hix|exact Hp| | |].
  - intros i e. rewrite Hu. intros [[<- <-]|[Hi Hi']]%lookup_insert_Some; [done|].
    destruct (ok_refs r Hok i e Hi') as [H1 H2]. split; [done|]. rewrite Hh; [done|]. eauto.
  - intros i1 i2 e1 e2. rewrite Hu.
    intros [[<- <-]|[N1 H1]]%lookup_insert_Some [[<- <-]|[N2 H2]]%lookup_insert_Some El.
    + done.
    + exfalso. eapply Hf; [exact H2| |by symmetry]. congruence.
    + exfalso. eapply Hf; [exact H1| |exact El]. congruence.
    + exact (ok_locs r Hok i1 i2 e1 e2 H1 H2 El).
  - intros i e. rewrite Hu. intros [[<- <-]|[_ Hi]]%lookup_insert_Some; [by rewrite He|].
    exact (ok_vmess_keys r Hok i e Hi).
  - intros i g. rewrite Hdr, Hg, Hu. intros Hig.
    destruct (ok_draining r Hok i g Hig) as [H1 H2]. split; [|done].
    rewrite lookup_insert_ne; [done|]. congruence.
  - intros g d. rewrite Hg, Hu. intros Hgd. destruct (ok_generations r Hok g d Hgd) as [H1 H2].
    split; [rewrite Hh; [done|]; eauto|].
    intros i e [[<- <-]|[_ Hi]]%lookup_insert_Some; [|eauto]. intros El. by eapply Ho.
Qed.

Lemma named_users r : core_ok r -> named (users r).
Proof. intros Hok id e H. by apply (ok_refs r Hok). Qed.

Lemma install_ok spec id credentials r :
  core_ok r -> draining r !! id = None ->
  parse_credentials (kinds r) id spec = Ok credentials ->
  check_credentials_unclaimed r id credentials = Ok tt ->
  exists r' entry, install spec id credentials r = (r', Ok entry) /\
    installed spec id credentials r r' entry /\ core_ok r'.
Proof.
  intros Hok Hd Hparse Hfree.
  destruct (install_context id r Hok) as (c & h & E1 & Hrid & Hh & Hprev & Hlive & Hold).
  destruct (apply_spec_heap spec c (set_heap h r)) as (v & E2 & Hen).
  set (r2 := set_heap (<[loc c:=v]> h) r).
  set (entry := entry_of c credentials : Entry).
  rewrite check_unclaimed_Ok in Hfree.
  destruct (install_indexes id entry r2) as (r3 & r4 & E3 & E4 & S & P & I).
  { exact (named_users r Hok). }
  { exact Hrid. }
  { exact (ok_prefixes r Hok). }
  { exact (ok_index r Hok). }
  { intros k Hk. unfold entry. rewrite cred_entry_of. by eapply parse_kinds. }
  { intros k key o m Hc Hm Ho. unfold entry in Hc. rewrite cred_entry_of in Hc.
    eapply (Hfree k key); [done|]. unfold credential_owner.
    change (idx r2) with (idx r) in Hm. rewrite Hm. cbn. by rewrite Ho. }
  exists (set_users (<[id:=entry]> (users r4)) r4), entry.
  assert (installed spec id credentials r (set_users (<[id:=entry]> (users r4)) r4) entry) as Hin.
  { destruct S as [S1 S2 S3 S4 S5 S6 S7]. change (heap r2) with (<[loc c:=v]> h) in S7.
    split; cbn; rewrite ?S1, ?S2, ?S3, ?S4, ?S5, ?S6, ?S7; try done.
    - intros HL. unfold enabled, ctx. cbn. rewrite S7, lookup_insert_eq. by apply Hen.
    - by rewrite lookup_insert_eq.
    - intros l Hl. rewrite lookup_insert_ne by done. by apply Hh. }
  split; [|split; [done|]].
  - unfold install. rewrite (stm_bind_eq _ _ r r (users r !! id)) by done.
    rewrite (stm_bind_eq _ _ _ _ _ E1).
    rewrite (stm_bind_eq _ _ _ r2 tt) by (unfold modify; by rewrite E2).
    cbv zeta. rewrite (stm_bind_eq _ _ _ _ _ E3), (stm_bind_eq _ _ _ _ _ E4). done.
  - eapply install_core; [exact Hok|exact Hd|exact Hin|exact P|]. cbn.
    rewrite (sb_users _ _ S), (sb_kinds _ _ S). exact I.
Qed.

Lemma republish_core r : core_ok r -> core_ok (republish_vmess r).
Proof. intros []. by split. Qed.

Lemma republish_reg_ok r : core_ok r -> reg_ok (republish_vmess r).
Proof. intros H. split; [by apply republish_core|done]. Qed.

(** [upsert_locked] on a consistent registry: a refusal changes nothing and is
    never a panic; a success installs the entry. *)
Lemma upsert_locked_spec spec r r' res :
  core_ok r -> upsert_locked spec r = (r', res) ->
  match res with
  | Err e => r' = r /\ e <> Panic
  | Ok entry => exists id credentials,
      UserSpec.resolved_id spec = Some id /\ trim id <> "" /\ draining r !! id = None /\
      parse_credentials (kinds r) id spec = Ok credentials /\
      check_credentials_unclaimed r id credentials = Ok tt /\
      installed spec id credentials r r' entry /\ core_ok r'
  end.
Proof.
  intros Hok. unfold upsert_locked.
  pose proof (check_upsert_pure spec r) as H1. pose proof (check_upsert_no_panic spec r) as H2.
  destruct (check_upsert spec r) as [r1 [[id c]|e]] eqn:E; cbn in H1, H2; subst r1.
  - rewrite (stm_bind_eq _ _ _ _ _ E).
    destruct (check_upsert_Ok _ _ _ _ _ E) as (_ & Hr & Ht & Hd & Hp & Hc).
    destruct (install_ok spec id c r Hok Hd Hp Hc) as (r2 & entry & Ei & Hin & Hok2).
    rewrite Ei. intros [= <- <-]. eauto 10.
  - rewrite (stm_bind_Err _ _ _ _ _ E). intros [= <- <-]. split; [done|congruence].
Qed.

(** ** Removing *)

Lemma remove_begin_ok tag id r e :
  core_ok r -> users r !! id = Some e ->
  let g := fresh (dom (generations r)) in
  exists r', remove_begin tag id r = (r', Ok (g, true)) /\ reg_ok r' /\
    users r' = delete id (users r) /\ kinds r' = kinds r /\
    draining r' = <[id := g]> (draining r) /\
    generations r' = <[g := mkDraining e None]> (generations r) /\
    heap r' = <[loc (e_context e) := ctx_revoke (ctx r (e_context e))]> (heap r).
Proof.
  intros Hok Hu g. destruct (ok_refs r Hok id e Hu) as [Hrid [v Hv]].
  set (r1 := set_draining (<[rid (e_context e) := g]> (draining r))
               (<[g := mkDraining e None]> (generations r))
               (set_users (delete id (users r)) (with_ctx (e_context e) ctx_revoke r))).
  destruct (for_kinds _ _ _ _ r1 (unpublish_rounds e) (proj1 kinds_NoDup)) as (r2 & E & S & P & I).
  { intros k _. eapply holds_cred; [apply (ok_index r Hok)|exact Hu]. }
  { exact (ok_prefixes r Hok). }
  assert (remove_begin tag id r = (republish_vmess r2, Ok (g, true))) as Hrun.
  { unfold remove_begin. rewrite (stm_bind_eq _ _ r r r) by done. rewrite Hu.
    do 2 rewrite (stm_bind_eq _ _ _ _ tt) by reflexivity. cbv zeta.
    rewrite (stm_bind_eq _ _ _ r1 tt) by reflexivity.
    rewrite (stm_bind_eq _ _ _ _ _ E). done. }
  exists (republish_vmess r2). split; [exact Hrun|].
  destruct S as [S1 S2 S3 S4 S5 S6 S7]. cbn in S1, S2, S3, S4, S5, S6, S7.
  split; [apply republish_reg_ok|cbn; by rewrite ?S1, ?S3, ?S4, ?S5, ?S7, ?Hrid].
  split; rewrite ?S1, ?S3, ?S4, ?S5, ?S7.
  - intros i e' [Hne Hi]%lookup_delete_Some. destruct (ok_refs r Hok i e' Hi) as [H1 H2].
    split; [done|]. apply lookup_insert_is_Some'. by right.
  - intros i1 i2 e1 e2 [_ H1]%lookup_delete_Some [_ H2]%lookup_delete_Some.
    exact (ok_locs r Hok i1 i2 e1 e2 H1 H2).
  - intros k. rewrite I, decide_True by apply all_kinds.
    pose proof (ok_index r Hok k) as Hix. change (idx r1) with (idx r).
    destruct (index_of k (idx r)) as [m|]; cbn; destruct Hix as [He Hm]; (split; [done|]).
    + by apply agrees_remove; [apply named_users|..].
    + intros i e' [_ Hi]%lookup_delete_Some. eauto.
  - exact P.
  - intros i e' [_ Hi]%lookup_delete_Some. exact (ok_vmess_keys r Hok i e' Hi).
  - intros i g'. rewrite Hrid. intros [[<- <-]|[Hne Hg]]%lookup_insert_Some.
    + split; [apply lookup_delete_eq|]. exists (mkDraining e None). by rewrite lookup_insert_eq.
    + destruct (ok_draining r Hok i g' Hg) as [H1 (d & Hd & H2)].
      split; [by apply lookup_delete_None; right|]. exists d.
      rewrite lookup_insert_ne; [done|]. intros Eg.
      apply (is_fresh (dom (generations r))). fold g. rewrite Eg. by eapply elem_of_dom_2.
  - intros g' d [[<- <-]|[_ Hg]]%lookup_insert_Some; cbn.
    + split; [by rewrite lookup_insert_eq|]. intros i e' [Hne Hi]%lookup_delete_Some El.
      apply Hne. symmetry. exact (ok_locs r Hok i id e' e Hi Hu El).
    + destruct (ok_generations r Hok g' d Hg) as [H1 H2].
      split; [apply lookup_insert_is_Some'; by right|].
      intros i e' [_ Hi]%lookup_delete_Some. eauto.
Qed.

(** Operations that touch only the accounting records keep the registry
    consistent. *)
Lemma core_ok_heap r h :
  core_ok r -> (forall l, is_Some (heap r !! l) -> is_Some (h !! l)) -> core_ok (set_heap h r).
Proof.
  intros [H1 H2 H3 H4 H5 H6 H7] Hh. split; cbn; try done.
  - intros id e Hu. destruct (H1 id e Hu). auto.
  - intros g d Hg. destruct (H7 g d Hg). auto.
Qed.

Lemma core_ok_ctx r c f : core_ok r -> core_ok (with_ctx c f r).
Proof.
  intros H. apply core_ok_heap; [done|]. intros l Hl. apply lookup_insert_is_Some'. by right.
Qed.

Lemma core_ok_generations r dr gs :
  core_ok r ->
  (forall id g, dr !! id = Some g -> draining r !! id = Some g) ->
  (forall g d, gs !! g = Some d -> exists d', generations r !! g = Some d' /\ d_entry d' = d_entry d) ->
  (forall g, is_Some (generations r !! g) -> is_Some (gs !! g)) ->
  core_ok (set_draining dr gs r).
Proof.
  intros [H1 H2 H3 H4 H5 H6 H7] Hdr Hgs Hsome. split; cbn; try done.
  - intros id g Hg. destruct (H6 id g (Hdr id g Hg)) as [Hu (d & Hd & Hr)]. split; [done|].
    destruct (Hsome g) as [d' Hd']; [eauto|]. exists d'. split; [done|].
    destruct (Hgs g d' Hd') as (d'' & Hd'' & <-). by simplify_eq.
  - intros g d Hg. destruct (Hgs g d Hg) as (d' & Hd' & <-). eauto.
Qed.

Lemma finish_core g r : core_ok r -> core_ok (finish g r).1.
Proof.
  intros H. unfold finish. destruct (generations r !! g) as [d|] eqn:Hg; [|done].
  destruct (d_result d); [done|]. destruct (_ =? 0); [|done]. cbn.
  apply core_ok_generations; [done|done| |].
  - intros g' d' [[<- <-]|[_ Hg']]%lookup_insert_Some; eauto.
  - intros g' Hg'. apply lookup_insert_is_Some'. by right.
Qed.

Lemma clear_core g r : core_ok r -> core_ok (clear_draining_generation g r).
Proof.
  intros H. unfold clear_draining_generation. destruct (generations r !! g) as [d|]; [|done].
  case_bool_decide; [|done]. apply core_ok_generations; [done| |eauto|done].
  by intros i g' [_ Hi]%lookup_delete_Some.
Qed.

(** ** Any sequence of operations *)

(** One atomic piece of one caller.  [OpFinish] is the detached finalizer,
    [OpCell] is a connection opening, closing or moving bytes. *)
Inductive user_op : Type :=
  | OpUpsert (spec : UserSpec.t)
  | OpRemoveBegin (tag id : string)
  | OpFinish (g : nat)
  | OpRemoveEnd (g : nat)
  | OpKick (tag id : string)
  | OpTake (tag id : string)
  | OpSweep (nonzero : bool)
  | OpAnalysis (a : A)
  | OpCell (l : nat) (v : M).

Definition failure {T} (res : result EngineError T) : option EngineError :=
  match res with Ok _ => None | Err e => Some e end.

Definition user_step (op : user_op) r : registry * option EngineError :=
  match op with
  | OpUpsert spec => let '(r, res) := upsert spec r in (r, failure res)
  | OpRemoveBegin tag id => let '(r, res) := remove_begin tag id r in (r, failure res)
  | OpFinish g => ((finish g r).1, None)
  | OpRemoveEnd g => ((remove_end g r).1, None)
  | OpKick tag id => let '(r, res) := kick tag id r in (r, failure res)
  | OpTake tag id => let '(r, res) := take_traffic tag id r in (r, failure res)
  | OpSweep nonzero => ((if nonzero then take_nonzero_traffic r else take_all_traffic r).1, None)
  | OpAnalysis a => (set_analysis_context a r, None)
  | OpCell l v => (set_heap (<[l := v]> (heap r)) r, None)
  end.

Fixpoint user_run (ops : list user_op) r : registry * list (option EngineError) :=
  match ops with
  | [] => (r, [])
  | op :: ops =>
      let '(r, e) := user_step op r in
      let '(r, es) := user_run ops r in (r, e :: es)
  end.

Lemma reg_ok_intro r r' :
  core_ok r' -> users r' = users r -> vmess_candidates r' = vmess_candidates r -> reg_ok r -> reg_ok r'.
Proof.
  intros Hc Hu Hv [_ Hr]. split; [done|]. unfold republish_vmess, set_vmess in *.
  apply (f_equal vmess_candidates) in Hr. cbn in Hr. rewrite <- Hu, <- Hv in Hr. rewrite Hr. by destruct r'.
Qed.

(** The accounting operations change the heap only. *)
Definition heap_only r r' : Prop :=
  exists h, r' = set_heap h r /\ forall l, is_Some (heap r !! l) -> is_Some (h !! l).

Lemma heap_only_refl r : heap_only r r.
Proof. exists (heap r). split; [by destruct r|done]. Qed.

Lemma heap_only_ctx r r' c f : heap_only r r' -> heap_only r (with_ctx c f r').
Proof.
  intros (h & -> & Hh). eexists. split; [reflexivity|]. cbn. intros l Hl.
  apply lookup_insert_is_Some'. right. auto.
Qed.

Lemma heap_only_reg_ok r r' : heap_only r r' -> reg_ok r -> reg_ok r'.
Proof.
  intros (h & -> & Hh) H. eapply (reg_ok_intro r); [|done|done|done].
  apply core_ok_heap; [apply H|done].
Qed.

Lemma taken_heap_only r r' c : heap_only r r' -> heap_only r (taken_user_info c r').1.
Proof.
  intros H. unfold taken_user_info. destruct (ctx_take_traffic _) as [v [tx rx]].
  by apply heap_only_ctx.
Qed.

Lemma sweep_heap_only keep r : heap_only r (sweep keep r).1.
Proof.
  unfold sweep.
  assert (forall l, heap_only r (foldr (sweep_one keep) (r, []) l).1) as H.
  { induction l as [|e l IH]; cbn; [apply heap_only_refl|].
    unfold sweep_one at 1. destruct (foldr _ _ l) as [r1 infos]. pose proof (taken_heap_only r r1 (e_context e) IH) as H.
    by destruct (taken_user_info (e_context e) r1). }
  specialize (H (map_to_list (users r)).*2). by destruct (foldr _ _ _).
Qed.

Lemma analysis_reg_ok a r : reg_ok r -> reg_ok (set_analysis_context a r).
Proof.
  intros H. unfold set_analysis_context.
  set (r0 := match analysis r with None => _ | Some _ => r end).
  assert (reg_ok r0) as H0.
  { unfold r0. destruct (analysis r); [done|].
    eapply (reg_ok_intro r); [destruct H as [[] _]; by split|done|done|done]. }
  eapply heap_only_reg_ok; [|exact H0].
  generalize (map_to_list (users r0)).*2 as l. induction l as [|e l IH]; cbn;
    [apply heap_only_refl|by apply heap_only_ctx].
Qed.

Lemma remove_begin_reg_ok tag id r r' res :
  reg_ok r -> remove_begin tag id r = (r', res) -> reg_ok r' /\ res <> Err Panic.
Proof.
  intros [Hok Hv]. destruct (users r !! id) as [e|] eqn:Hu.
  - destruct (remove_begin_ok tag id r e Hok Hu) as (r1 & -> & Hr1 & _). intros [= <- <-]. by split.
  - unfold remove_begin. rewrite (stm_bind_eq _ _ r r r) by done. rewrite Hu.
    by destruct (draining r !! id); intros [= <- <-].
Qed.

Lemma upsert_reg_ok spec r r' res :
  reg_ok r -> upsert spec r = (r', res) -> reg_ok r' /\ res <> Err Panic.
Proof.
  intros [Hok Hv]. unfold upsert. destruct (upsert_locked spec r) as [r1 [e|e]] eqn:E;
    pose proof (upsert_locked_spec spec r r1 _ Hok E) as H.
  - rewrite (stm_bind_eq _ _ _ _ _ E). destruct H as (id & c & _ & _ & _ & _ & _ & _ & Hok1).
    intros [= <- <-]. split; [by apply republish_reg_ok|done].
  - rewrite (stm_bind_Err _ _ _ _ _ E). destruct H as [-> Hp]. intros [= <- <-].
    split; [done|congruence].
Qed.

Lemma finish_reg_ok g r : reg_ok r -> reg_ok (finish g r).1.
Proof.
  intros H. eapply (reg_ok_intro r); [by apply finish_core, H| | |done]; unfold finish;
    destruct (generations r !! g) as [d|]; try done; destruct (d_result d); try done;
    by destruct (_ =? 0).
Qed.

Lemma clear_reg_ok g r : reg_ok r -> reg_ok (clear_draining_generation g r).
Proof.
  intros H. eapply (reg_ok_intro r); [by apply clear_core, H| | |done];
    unfold clear_draining_generation; destruct (generations r !! g) as [d|]; try done;
    by case_bool_decide.
Qed.

Lemma user_step_ok op r r' answer :
  reg_ok r -> user_step op r = (r', answer) -> reg_ok r' /\ answer <> Some Panic.
Proof.
  intros H. destruct op; cbn [user_step].
  - destruct (upsert spec r) as [r1 res] eqn:E. intros [= <- <-].
    destruct (upsert_reg_ok _ _ _ _ H E) as [? Hp]. split; [done|].
    destruct res; cbn; congruence.
  - destruct (remove_begin tag id r) as [r1 res] eqn:E. intros [= <- <-].
    destruct (remove_begin_reg_ok _ _ _ _ _ H E) as [? Hp]. split; [done|].
    destruct res; cbn; congruence.
  - intros [= <- <-]. split; [by apply finish_reg_ok|done].
  - intros [= <- <-]. split; [|done]. unfold remove_end.
    pose proof (finish_reg_ok g r H). destruct (finish g r) as [r1 [info|]]; [|done].
    by apply clear_reg_ok.
  - unfold kick. rewrite (stm_bind_eq _ _ r r r) by done. destruct (users r !! id) as [e'|].
    + destruct (ctx_kick _) as [v n]. intros [= <- <-]. split; [|done].
      eapply heap_only_reg_ok; [apply heap_only_ctx, heap_only_refl|done].
    + by intros [= <- <-].
  - unfold take_traffic. destruct (users r !! id) as [e'|]; [|by intros [= <- <-]].
    pose proof (taken_heap_only r r (e_context e') (heap_only_refl r)) as Ht.
    destruct (taken_user_info _ r) as [r1 info]. intros [= <- <-].
    split; [by eapply heap_only_reg_ok|done].
  - intros [= <- <-]. split; [|done]. eapply heap_only_reg_ok; [|exact H].
    destruct nonzero; apply sweep_heap_only.
  - intros [= <- <-]. split; [by apply analysis_reg_ok|done].
  - intros [= <- <-]. split; [|done]. eapply heap_only_reg_ok; [|exact H].
    exists (<[l:=v]> (heap r)). split; [done|]. intros l' Hl.
    apply lookup_insert_is_Some'. by right.
Qed.

Lemma registry_new_ok ks : reg_ok (registry_new ks : registry).
Proof.
  split; [|done]. split; cbn.
  - intros id e He. by rewrite lookup_empty in He.
  - intros ?? e1 ? He. by rewrite lookup_empty in He.
  - assert (forall k b, b = kind_enabled ks k ->
      index_ok ks ∅ k (if b then Some ∅ else None)) as H.
    { intros k b ->. destruct (kind_enabled ks k) eqn:E; split; try done.
      intros key e. rewrite lookup_empty. split; [done|]. intros (i & Hi & _).
      by rewrite lookup_empty in Hi. }
    intros []; by apply H.
  - unfold prefixes_ok. cbn. destruct (CredentialKinds.anytls_password ks); [|done].
    intros x. by rewrite lookup_empty.
  - intros id e He. by rewrite lookup_empty in He.
  - intros id g Hg. by rewrite lookup_empty in Hg.
  - intros g d Hg. by rewrite lookup_empty in Hg.
Qed.

Lemma user_run_ok ops r r' es :
  reg_ok r -> user_run ops r = (r', es) -> reg_ok r' /\ Some Panic ∉ es.
Proof.
  revert r es. induction ops as [|op ops IH]; cbn; intros r es Hok.
  - intros [= <- <-]. split; [done|]. apply not_elem_of_nil.
  - destruct (user_step op r) as [r1 e] eqn:E1. destruct (user_run ops r1) as [r2 es'] eqn:E2.
    intros [= <- <-]. destruct (user_step_ok _ _ _ _ Hok E1) as [H1 He].
    destruct (IH _ _ H1 E2) as [H2 Hes]. split; [done|]. set_solver.
Qed.

(** ** Lookups on a consistent registry *)

Lemma find_in_iff r k key e expected :
  core_ok r ->
  find_in r k key = Some (e, expected) <->
  expected = key /\ exists id, users r !! id = Some e /\ cred k e = Some key.
Proof.
  intros Hok. pose proof (ok_index r Hok k) as Hix. unfold find_in.
  destruct (index_of k (idx r)) as [m|]; cbn.
  - destruct Hix as [_ Hm]. destruct (m !! key) as [e'|] eqn:Ee; cbn.
    + apply Hm in Ee as Hu. destruct Hu as (id & Hu & Hc). rewrite Hc. cbn. split.
      * intros [= <- <-]. eauto.
      * intros [-> (id' & Hu' & Hc')]. assert (m !! key = Some e) as E2 by (apply Hm; eauto).
        congruence.
    + split; [done|]. intros [-> H]. apply Hm in H. congruence.
  - destruct Hix as [_ Hn]. split; [done|]. intros (_ & id & Hu & Hc). rewrite (Hn id e Hu) in Hc. done.
Qed.

(** A lookup by one credential form. *)
Definition find_by r (k : kind) (key : string) : option Ref :=
  '(e, expected) ← find_in r k key; accept r e expected key.

Lemma find_by_iff r k key c :
  core_ok r ->
  find_by r k key = Some c <->
  exists id e, users r !! id = Some e /\ cred k e = Some key /\ enabled r e = true /\ e_context e = c.
Proof.
  intros Hok. unfold find_by, accept. split.
  - destruct (find_in r k key) as [[e expected]|] eqn:E; cbn; [|done].
    apply (find_in_iff r k key e expected Hok) in E as (-> & id & Hu & Hc).
    destruct (_ && _) eqn:B; [|done]. apply andb_prop in B as [_ B]. intros [= <-]. eauto 10.
  - intros (id & e & Hu & Hc & He & <-).
    assert (find_in r k key = Some (e, key)) as ->.
    { apply find_in_iff; [done|]. eauto. }
    cbn. by rewrite bool_decide_true, He.
Qed.

Lemma cred_unique r k key id1 id2 e1 e2 :
  core_ok r -> users r !! id1 = Some e1 -> users r !! id2 = Some e2 ->
  cred k e1 = Some key -> cred k e2 = Some key -> id1 = id2.
Proof.
  intros Hok H1 H2 C1 C2. pose proof (ok_index r Hok k) as Hix.
  destruct (index_of k (idx r)) as [m|]; destruct Hix as [_ Hm].
  - assert (m !! key = Some e1) by (apply Hm; eauto).
    assert (m !! key = Some e2) by (apply Hm; eauto).
    pose proof (named_users r Hok _ _ H1). pose proof (named_users r Hok _ _ H2). congruence.
  - rewrite (Hm _ _ H1) in C1. done.
Qed.
End invariant.
