(* ===== verification/UsersSpec.v ===== *)
(** * What the user registry promises

    The theorems about [Users.v], stated for every registry reachable from a
    fresh one by any sequence of operations and connection events, with an
    executable instance of the external codecs and accounting records for the
    witnesses. *)

From Stdlib Require Import ZArith Lia.
From S2P Require Import Prelude Bytes Credentials Users.

Open Scope Z_scope.

Section spec.
Context {K M A : Type} `{!CredentialOps K} `{!UserContextOps M A}.

Local Abbreviation registry := (registry K M A).
Local Abbreviation Entry := (Entry K).

Implicit Types (r : registry) (e : Entry).

Definition reachable r : Prop :=
  exists ks ops answers, user_run ops (registry_new ks) = (r, answers).

Lemma reachable_ok r : reachable r -> reg_ok r.
Proof. intros (ks & ops & es & H). by eapply user_run_ok; [apply registry_new_ok|]. Qed.

(** C38. Whatever operations run, in whatever order, with connections opening and
    closing in between: every credential index maps exactly the current keys of
    the current users, the prefix table counts the AnyTLS keys, the VMess snapshot
    is the uuid-bearing users, a draining id is not a live one, and no [expect]
    fails. *)
Theorem registry_consistent ks ops r answers :
  user_run ops (registry_new ks : registry) = (r, answers) ->
  reg_ok r /\ Some Panic ∉ answers.
Proof. intros H. eapply user_run_ok; [apply registry_new_ok|exact H]. Qed.

(** No credential, of any form, belongs to two users. *)
Theorem credential_unique r k key id1 id2 e1 e2 :
  reachable r -> users r !! id1 = Some e1 -> users r !! id2 = Some e2 ->
  cred k e1 = Some key -> cred k e2 = Some key -> id1 = id2.
Proof. intros [Hok _]%reachable_ok. by apply (cred_unique r k key). Qed.

(** The user that holds [key] as its current credential of form [k]. *)
Definition holder r (k : kind) (key : string) e : Prop :=
  exists id, users r !! id = Some e /\ cred k e = Some key /\ enabled r e = true.

(** Each lookup succeeds exactly for the current credential of an enabled user,
    and hands out that user's own record: a rotated, removed or suspended
    credential is indistinguishable from an unknown one. *)
Theorem lookup_exact r key c :
  reachable r ->
  (find_uuid r key = Some c <-> exists e, holder r KUuid key e /\ c = e_context e) /\
  (find_trojan_hash r key = Some c <-> exists e, holder r KTrojan key e /\ c = e_context e) /\
  (find_password r key = Some c <-> exists e, holder r KPassword key e /\ c = e_context e) /\
  (find_password_sha256 r key = Some c <-> exists e, holder r KAnytls key e /\ c = e_context e) /\
  (find_naive_basic r key = Some c <-> exists e, holder r KNaive key e /\ c = e_context e).
Proof.
  intros [Hok _]%reachable_ok.
  assert (forall k, find_by r k key = Some c <-> exists e, holder r k key e /\ c = e_context e) as H.
  { intros k. rewrite find_by_iff by done. unfold holder. naive_solver. }
  split_and!; apply H.
Qed.

Lemma find_psk_find_in r key :
  find_shadowsocks_psk_hash r key =
    ('(e, _) ← find_in r KPsk key; credential ← e_shadowsocks e;
     if bool_decide (ShadowsocksCredential.hash credential = key) && enabled r e
     then Some (e_context e, ShadowsocksCredential.psk credential) else None).
Proof.
  unfold find_shadowsocks_psk_hash, find_in. destruct (index_of KPsk (idx r)) as [m|]; [|done]. cbn.
  destruct (m !! key) as [e|]; [|done]. cbn. destruct e as [? ? ? ? [] ? ? ? ?]; cbn; done.
Qed.

Lemma find_tuic_find_in r key :
  find_tuic_uuid r key =
    ('(e, expected) ← find_in r KUuid key; password ← e_tuic_password e;
     if bool_decide (expected = key) && enabled r e then Some (e_context e, password) else None).
Proof.
  unfold find_tuic_uuid, find_in. destruct (index_of KUuid (idx r)) as [m|]; [|done]. cbn.
  destruct (m !! key) as [e|]; [|done]. cbn. destruct e as [? [] ? ? ? [] ? ? ?]; cbn; done.
Qed.

(** A lookup that goes on from the entry it found. *)
Lemma find_in_bind {B} r k key (f : Entry * string -> option B) b :
  core_ok r ->
  (find_in r k key ≫= f = Some b) <->
  exists id e, users r !! id = Some e /\ cred k e = Some key /\ f (e, key) = Some b.
Proof.
  intros Hok. split.
  - destruct (find_in r k key) as [[e expected]|] eqn:E; cbn; [|done].
    apply (find_in_iff r k key e expected Hok) in E as (-> & id & Hu & Hc). eauto 10.
  - intros (id & e & Hu & Hc & Hf).
    assert (find_in r k key = Some (e, key)) as -> by (apply find_in_iff; eauto). done.
Qed.

(** The two lookups that also hand out key material return the holder's own. *)
Theorem lookup_secret r key c secret :
  reachable r ->
  (find_shadowsocks_psk_hash r key = Some (c, secret) <->
     exists e, holder r KPsk key e /\ c = e_context e /\
       e_shadowsocks e = Some (ShadowsocksCredential.mk key secret)) /\
  (find_tuic_uuid r key = Some (c, secret) <->
     exists e, holder r KUuid key e /\ c = e_context e /\ e_tuic_password e = Some secret).
Proof.
  intros [Hok _]%reachable_ok. rewrite find_psk_find_in, find_tuic_find_in, !find_in_bind by done.
  unfold holder. split; split.
  - intros (id & e & Hu & Hc & H). destruct (e_shadowsocks e) as [[h psk]|] eqn:Es; [|done].
    cbn in H. destruct (bool_decide _ && _) eqn:B; [|done].
    apply andb_prop in B as [->%bool_decide_eq_true B]. injection H as <- <-.
    exists e. split; [by exists id|done].
  - intros (e & (id & Hu & Hc & He) & -> & Hs). exists id, e. split; [done|]. split; [done|].
    rewrite Hs. cbn. by rewrite bool_decide_true, He.
  - intros (id & e & Hu & Hc & H). destruct (e_tuic_password e) as [p|] eqn:Ep; [|done].
    cbn in H. destruct (bool_decide _ && _) eqn:B; [|done].
    apply andb_prop in B as [_ B]. injection H as <- <-. exists e. split; [by exists id|done].
  - intros (e & (id & Hu & Hc & He) & -> & Hs). exists id, e. split; [done|]. split; [done|].
    rewrite Hs. cbn. by rewrite bool_decide_true, He.
Qed.

(** The 8-byte prefix probe answers for every user with an AnyTLS password,
    suspended or not. *)
Theorem prefix_exact r prefix :
  reachable r ->
  has_password_sha256_prefix r prefix = true <->
  exists id e hash, users r !! id = Some e /\ e_anytls_hash e = Some hash /\
    password_sha256_prefix hash = prefix.
Proof.
  intros [Hok _]%reachable_ok. pose proof (ok_prefixes r Hok) as Hp.
  pose proof (ok_index r Hok KAnytls) as Hix. unfold prefixes_ok, has_password_sha256_prefix in *.
  destruct (index_of KAnytls (idx r)) as [m|] eqn:Em, (anytls_prefixes r) as [ps|]; try done.
  - destruct Hix as [_ Hm], (Hp prefix) as [Hc Hz]. rewrite bool_decide_eq_true.
    transitivity (exists key e, m !! key = Some e /\ password_sha256_prefix key = prefix).
    + unfold keys_with_prefix in Hc. split.
      * intros [n Hn]. rewrite Hn in Hc, Hz. cbn in Hc.
        destruct (map_choose_or_empty (filter (fun '(key, _) => password_sha256_prefix key = prefix) m))
          as [(key & e & He)|He]; [|rewrite He in Hc; by subst n].
        apply map_lookup_filter_Some in He as [He Hk]. eauto.
      * intros (key & e & He & Hk). destruct (ps !! prefix) as [n|]; [done|]. cbn in Hc.
        symmetry in Hc. apply map_size_empty_inv in Hc. exfalso.
        assert (filter (fun '(key, _) => password_sha256_prefix key = prefix) m !! key = Some e) as Hf
          by (by apply map_lookup_filter_Some). by rewrite Hc, lookup_empty in Hf.
    + split.
      * intros (key & e & He & Hk). apply Hm in He as (id & Hu & Hcr). eauto 10.
      * intros (id & e & h & Hu & Hh & Hk). exists h, e. split; [|done]. apply Hm. eauto.
  - destruct Hix as [_ Hn]. split; [done|]. intros (id & e & h & Hu & Hh & _).
    pose proof (Hn id e Hu) as Hn'. cbn in Hn'. congruence.
Qed.

(** A VMess auth id is recognised exactly when some enabled user's key opens it,
    and the answer is such a user with its own instruction key. *)
Theorem vmess_sound_complete r auth_id :
  reachable r ->
  (forall c ik ts, find_vmess_auth_id r auth_id = Some (c, ik, ts) ->
     exists id e uuid, users r !! id = Some e /\ e_uuid e = Some uuid /\ enabled r e = true /\
       c = e_context e /\ vmess_open (vmess_new uuid) auth_id = Some ts /\
       ik = instruction_key (vmess_new uuid)) /\
  (forall id e uuid ts, users r !! id = Some e -> e_uuid e = Some uuid -> enabled r e = true ->
     vmess_open (vmess_new uuid) auth_id = Some ts -> is_Some (find_vmess_auth_id r auth_id)).
Proof.
  intros [Hok Hv]%reachable_ok. apply (f_equal vmess_candidates) in Hv. cbn in Hv.
  assert (forall e, e ∈ vmess_candidates r <-> is_Some (e_vmess e) /\ exists id, users r !! id = Some e) as Hin.
  { intros e. rewrite <- Hv, list_elem_of_filter, list_elem_of_fmap. split.
    - intros (He & [i e'] & -> & Hi%elem_of_map_to_list). eauto.
    - intros (He & i & Hi). split; [done|]. exists (i, e). split; [done|]. by apply elem_of_map_to_list. }
  unfold find_vmess_auth_id. split.
  - intros c ik ts H.
    assert (exists e, e ∈ vmess_candidates r /\ accept_vmess r e auth_id = Some (c, ik, ts)) as (e & He & Ha).
    { clear Hv Hin. induction (vmess_candidates r) as [|e l IH]; [done|]. cbn in H.
      destruct (accept_vmess r e auth_id) eqn:Ea; [exists e; split; [by left|congruence]|].
      destruct (IH H) as (e' & ? & ?). exists e'. split; [by right|done]. }
    apply Hin in He as (_ & id & Hu). pose proof (ok_vmess_keys r Hok id e Hu) as Hk.
    unfold accept_vmess in Ha. rewrite Hk in Ha. destruct (e_uuid e) as [uuid|] eqn:Eu; [|done].
    cbn in Ha. destruct (vmess_open _ _) as [t|] eqn:Eo; [|done]. cbn in Ha.
    destruct (enabled r e) eqn:En; [|done]. injection Ha as <- <- <-. eauto 10.
  - intros id e uuid ts Hu Hc He Ho. pose proof (ok_vmess_keys r Hok id e Hu) as Hk.
    assert (e ∈ vmess_candidates r) as Hine by (apply Hin; rewrite Hk, Hc; eauto).
    clear Hv Hin. induction (vmess_candidates r) as [|e' l IH]; [by apply elem_of_nil in Hine|].
    cbn. destruct (accept_vmess r e' auth_id) eqn:Ea; [done|].
    apply elem_of_cons in Hine as [<-|Hine]; [|auto].
    unfold accept_vmess in Ea. rewrite Hk, Hc in Ea. cbn in Ea. by rewrite Ho, He in Ea.
Qed.

(** A refused upsert changes nothing at all. *)
Theorem upsert_refused spec r r' reason :
  reachable r -> upsert spec r = (r', Err reason) -> r' = r.
Proof.
  intros [Hok _]%reachable_ok. unfold upsert. destruct (upsert_locked spec r) as [r1 [e|e]] eqn:E;
    pose proof (upsert_locked_spec spec r r1 _ Hok E) as H.
  - by rewrite (stm_bind_eq _ _ _ _ _ E).
  - rewrite (stm_bind_Err _ _ _ _ _ E). destruct H as [-> _]. by intros [= <- <-].
Qed.

Lemma upsert_success spec r r' info :
  reg_ok r -> upsert spec r = (r', Ok info) ->
  exists r1 id credentials e, r' = republish_vmess r1 /\ core_ok r1 /\
    UserSpec.resolved_id spec = Some id /\ draining r !! id = None /\
    parse_credentials (kinds r) id spec = Ok credentials /\
    check_credentials_unclaimed r id credentials = Ok tt /\
    installed spec id credentials r r1 e /\ info = user_info r' (e_context e).
Proof.
  intros [Hok _]. unfold upsert. destruct (upsert_locked spec r) as [r1 [e|e]] eqn:E;
    pose proof (upsert_locked_spec spec r r1 _ Hok E) as H.
  - rewrite (stm_bind_eq _ _ _ _ _ E). destruct H as (id & c & Hr & _ & Hd & Hp & Hc & Hin & Hok1).
    intros [= <- <-]. exists r1, id, c, e. eauto 10.
  - by rewrite (stm_bind_Err _ _ _ _ _ E).
Qed.

(** A successful upsert replaces exactly that user's entry: it carries the
    credentials the spec asks for and the requested enabled flag, every other
    user and every other accounting record is untouched, and an update keeps the
    user's own accounting record. *)
Theorem upsert_installs `{!UserContextLaws M A} spec r r' info :
  reachable r -> upsert spec r = (r', Ok info) ->
  exists id credentials e,
    UserSpec.resolved_id spec = Some id /\
    parse_credentials (kinds r) id spec = Ok credentials /\
    users r' = <[id := e]> (users r) /\
    (forall k, cred k e = parsed k credentials) /\
    enabled r' e = UserSpec.enabled spec /\
    (forall previous, users r !! id = Some previous -> e_context e = e_context previous) /\
    (forall i e', users r !! i = Some e' -> i <> id -> ctx r' (e_context e') = ctx r (e_context e')).
Proof.
  intros Hr%reachable_ok H.
  destruct (upsert_success _ _ _ _ Hr H) as (r1 & id & c & e & -> & _ & Hid & _ & Hp & _ & Hin & _).
  exists id, c, e. split; [done|]. split; [done|].
  destruct Hin as [He _ Hctx Hus _ _ _ _ Hen _ Hheap Hfresh _]. split_and!.
  - exact Hus.
  - intros k. rewrite He. apply cred_entry_of.
  - by apply Hen.
  - exact Hctx.
  - intros i e' Hi Hne. unfold ctx. cbn. rewrite Hheap; [done|]. eauto.
Qed.

(** A rotated credential dies: after an update that no longer presents [key], no
    lookup of that form finds anyone under it. *)
Theorem upsert_rotates spec r r' info id previous k key :
  reachable r -> upsert spec r = (r', Ok info) ->
  UserSpec.resolved_id spec = Some id -> users r !! id = Some previous ->
  cred k previous = Some key ->
  (forall e, users r' !! id = Some e -> cred k e <> Some key) ->
  find_by r' k key = None.
Proof.
  intros Hr%reachable_ok H Hid Hu Hc Hgone.
  destruct (upsert_success _ _ _ _ Hr H) as (r1 & id' & c & e & -> & Hok1 & Hid' & _ & _ & _ & Hin & _).
  rewrite Hid in Hid'. injection Hid' as <-.
  destruct (find_by _ k key) as [ref|] eqn:E; [|done]. exfalso.
  apply find_by_iff in E as (i & e' & Hi & Hc' & _); [|by apply republish_core].
  destruct (decide (i = id)) as [->|Hne]; [by eapply Hgone|].
  apply Hne. assert (users r !! i = Some e') as Hi'.
  { revert Hi. cbn. rewrite (in_users _ _ _ _ _ _ Hin). by rewrite lookup_insert_ne. }
  eapply (cred_unique r k key i id e' previous); [apply Hr|done..].
Qed.

(** Removal takes effect at once: no lookup reaches the user any more, the id is
    refused to a new user until the final counters have been collected, and two
    generations of one id never coexist. *)
Theorem remove_revokes tag id r r' g :
  reachable r -> remove_begin tag id r = (r', Ok (g, true)) ->
  (forall k key c, find_by r' k key = Some c -> rid c <> id) /\
  draining r' !! id = Some g /\ users r' !! id = None /\
  (forall spec r2 res, UserSpec.resolved_id spec = Some id -> upsert spec r' = (r2, res) ->
     r2 = r' /\ exists reason, res = Err (InvalidUser reason)).
Proof.
  intros Hr%reachable_ok H. assert (Hr' := proj1 (remove_begin_reg_ok _ _ _ _ _ Hr H)).
  destruct (users r !! id) as [e|] eqn:Hu.
  - destruct (remove_begin_ok tag id r e (proj1 Hr) Hu) as (r1 & E & _ & Hus & _ & Hdr & _).
    rewrite H in E. injection E as <- ->. split_and!.
    + intros k key c (i & e' & Hi & _ & _ & <-)%find_by_iff; [|apply Hr'].
      rewrite (named_users r' (proj1 Hr') i e' Hi). rewrite Hus in Hi.
      by apply lookup_delete_Some in Hi as [? _].
    + by rewrite Hdr, lookup_insert_eq.
    + by rewrite Hus, lookup_delete_eq.
    + intros spec r2 res Hid Hup. assert (draining r' !! id = Some (fresh (dom (generations r)))) as Hd
        by (by rewrite Hdr, lookup_insert_eq).
      revert Hup. unfold upsert, upsert_locked, check_upsert, mbind, stm_bind, get. rewrite Hid.
      destruct (is_empty (trim id)); cbn; [intros [= <- <-]; eauto|].
      rewrite Hd. cbn. intros [= <- <-]. eauto.
  - unfold remove_begin in H. rewrite (stm_bind_eq _ _ r r r) in H by done. rewrite Hu in H.
    by destruct (draining r !! id).
Qed.

(** Collecting a removal frees the id, and only the id of that generation: a
    finalizer of an older generation leaves a newer tombstone in place.  The
    result, once computed, is what every later collection returns. *)
Theorem remove_collects g r r' info :
  reachable r -> remove_end g r = (r', Some info) ->
  (forall id, draining r' !! id =
     if decide (draining r !! id = Some g) then None else draining r !! id) /\
  users r' = users r /\ (remove_end g r').2 = Some info.
Proof.
  intros [Hok _]%reachable_ok. unfold remove_end. destruct (finish g r) as [r1 o] eqn:E.
  destruct o as [i|]; [|done]. intros [= <- ->].
  assert (draining r1 = draining r /\ users r1 = users r /\
    exists d, generations r !! g = Some d /\
      exists d1, generations r1 !! g = Some d1 /\ d_result d1 = Some info /\ d_entry d1 = d_entry d)
    as (Hd & Hu & d & Hg & d1 & Hg1 & Hres & He).
  { unfold finish in E. destruct (generations r !! g) as [d|] eqn:Hg; [|done].
    destruct (d_result d) as [i|] eqn:Hres; [injection E as <- ->; eauto 10|].
    destruct (_ =? 0); [|done]. injection E as <- <-. cbn. split; [done|]. split; [done|].
    exists d. split; [done|]. eexists. by rewrite lookup_insert_eq. }
  unfold clear_draining_generation. rewrite Hg1, He, Hd.
  set (id0 := rid (e_context (d_entry d))).
  assert (forall id, draining r !! id = Some g -> id = id0) as Hid.
  { intros id Hi. destruct (ok_draining r Hok id g Hi) as (_ & d' & Hg' & <-). by simplify_eq. }
  split; [|split].
  - intros id. case_bool_decide as B; cbn.
    + destruct (decide (id = id0)) as [->|Hne].
      * by rewrite lookup_delete_eq, decide_True.
      * rewrite lookup_delete_ne by done. case_decide as D; [|done]. by apply Hid in D.
    + rewrite Hd. case_decide as D; [|done]. by rewrite (Hid id D) in D.
  - by case_bool_decide.
  - assert (forall r2, generations r2 = generations r1 -> (finish g r2).2 = Some info) as Hf.
    { intros r2 H2. unfold finish. by rewrite H2, Hg1, Hres. }
    case_bool_decide; (match goal with |- context [finish g ?r2] =>
      pose proof (Hf r2 eq_refl) as H3; destruct (finish g r2) as [r3 [i|]]; cbn in H3 |- *; congruence end).
Qed.

(** ** Billing sweeps *)

(** What taking a user's counters reports, and what it leaves. *)
Definition taken_info r e : UserInfo.t :=
  let '(v, (tx, rx)) := ctx_take_traffic (ctx r (e_context e)) in
  set_counters tx rx (ctx_stats (rid (e_context e)) v).

Definition taken_cell r e : M := (ctx_take_traffic (ctx r (e_context e))).1.

Definition cell_of e : nat := loc (e_context e).

Lemma sweep_loop keep r l :
  NoDup (cell_of <$> l) ->
  let '(r', infos) := foldr (sweep_one keep) (r, []) l in
  infos = filter (fun i => keep i = true) (taken_info r <$> l) /\
  users r' = users r /\
  (forall e, e ∈ l -> ctx r' (e_context e) = taken_cell r e) /\
  (forall c, loc c ∉ (cell_of <$> l) -> ctx r' c = ctx r c).
Proof.
  induction l as [|e l IH]; cbn [foldr]; intros Hnd.
  - split_and!; [done|done| |done]. intros e He. by apply elem_of_nil in He.
  - cbn in Hnd. apply NoDup_cons in Hnd as [He Hnd]. specialize (IH Hnd). unfold sweep_one at 1.
    destruct (foldr _ _ l) as [r1 infos]. destruct IH as (-> & Hu & Hin & Hout).
    unfold taken_user_info. rewrite (Hout _ He).
    assert (taken_info r e = (let '(v, (tx, rx)) := ctx_take_traffic (ctx r (e_context e)) in
      set_counters tx rx (user_info (with_ctx (e_context e) (fun _ => v) r1) (e_context e)))) as Hinfo.
    { unfold taken_info, user_info. destruct (ctx_take_traffic _) as [v [tx rx]].
      unfold with_ctx, ctx. cbn. by rewrite lookup_insert_eq. }
    pose proof (eq_refl (taken_cell r e)) as Hcell. unfold taken_cell in Hcell at 2.
    destruct (ctx_take_traffic (ctx r (e_context e))) as [v [tx rx]]. cbn in Hcell.
    rewrite fmap_cons, filter_cons, Hinfo. split_and!.
    + case_decide as D; [by rewrite D|]. apply not_true_is_false in D. by rewrite D.
    + done.
    + intros e' [->|He']%elem_of_cons.
      * rewrite Hcell. unfold ctx at 1. cbn. by rewrite lookup_insert_eq.
      * rewrite <- (Hin e' He'). unfold ctx at 1. cbn. rewrite lookup_insert_ne; [done|].
        intros El. apply He. unfold cell_of at 1. rewrite El.
        by apply (list_elem_of_fmap_2 cell_of).
    + intros c [Hc1 Hc2]%not_elem_of_cons. rewrite <- (Hout c Hc2). unfold ctx at 1. cbn.
      by rewrite lookup_insert_ne by done.
Qed.

(** A billing sweep takes every user's counters exactly once: the report lists,
    in id order, what each user's record yielded (the non-zero ones for
    [take_nonzero_traffic]), and each record is left as [take_traffic] leaves it. *)
Theorem sweep_exact keep r r' infos :
  reachable r -> sweep keep r = (r', infos) ->
  infos = sort_by_key UserInfo.id
            (filter (fun i => keep i = true) (taken_info r <$> (map_to_list (users r)).*2)) /\
  users r' = users r /\
  (forall id e, users r !! id = Some e -> ctx r' (e_context e) = taken_cell r e).
Proof.
  intros [Hok _]%reachable_ok. unfold sweep.
  assert (NoDup (cell_of <$> (map_to_list (users r)).*2)) as Hnd.
  { rewrite <- list_fmap_compose. apply NoDup_fmap_2_strong; [|apply NoDup_map_to_list].
    intros [i1 e1] [i2 e2] H1%elem_of_map_to_list H2%elem_of_map_to_list El. cbn in El.
    pose proof (ok_locs r Hok i1 i2 e1 e2 H1 H2 El). subst. congruence. }
  pose proof (sweep_loop keep r _ Hnd) as H. destruct (foldr _ _ _) as [r1 infos1].
  destruct H as (-> & Hu & Hin & _). intros [= <- <-]. split_and!; [done|done|].
  intros id e He. apply Hin. apply list_elem_of_fmap. exists (id, e).
  split; [done|]. by apply elem_of_map_to_list.
Qed.

(** ** Building a registry from an initial list *)

Lemma from_users_one_Ok spec r r' :
  core_ok r -> from_users_one spec r = (r', Ok tt) ->
  core_ok r' /\ exists id e, UserSpec.resolved_id spec = Some id /\ users r !! id = None /\
    users r' = <[id := e]> (users r).
Proof.
  intros Hok. unfold from_users_one. destruct (UserSpec.resolved_id spec) as [id|] eqn:Hid; [|done].
  rewrite (stm_bind_eq _ _ r r r) by done. destruct (decide _) as [|Hn]; [done|].
  intros (r1 & e & H & Hr)%stm_bind_Ok. injection Hr as <-.
  destruct (upsert_locked_spec spec r r1 _ Hok H) as (id' & c & Hid' & _ & _ & _ & _ & Hin & Hok1).
  split; [done|]. exists id, e. split; [done|]. split; [by apply eq_None_not_Some|].
  rewrite Hid in Hid'. injection Hid' as <-. exact (in_users _ _ _ _ _ _ Hin).
Qed.

Lemma from_users_loop specs r r' :
  core_ok r -> for_in specs from_users_one r = (r', Ok tt) ->
  core_ok r' /\ exists ids, mapM UserSpec.resolved_id specs = Some ids /\ NoDup ids /\
    (forall id, id ∈ ids -> users r !! id = None) /\
    forall id, is_Some (users r' !! id) <-> id ∈ ids \/ is_Some (users r !! id).
Proof.
  revert r. induction specs as [|spec specs IH]; cbn [for_in]; intros r Hok.
  - intros [= <-]. split; [done|]. exists []. split_and!; [done|constructor|set_solver|set_solver].
  - intros (r1 & [] & H1 & H2)%stm_bind_Ok.
    destruct (from_users_one_Ok _ _ _ Hok H1) as (Hok1 & id & e & Hid & Hnone & Hus).
    destruct (IH r1 Hok1 H2) as (Hok2 & ids & Hm & Hnd & Hfresh & Hdom). split; [done|].
    exists (id :: ids). cbn. rewrite Hid, Hm. cbn. split_and!.
    + done.
    + constructor; [|done]. intros Hin. specialize (Hfresh id Hin).
      by rewrite Hus, lookup_insert_eq in Hfresh.
    + intros i [->|Hi]%elem_of_cons; [done|]. specialize (Hfresh i Hi). rewrite Hus in Hfresh.
      by apply lookup_insert_None in Hfresh as [? _].
    + intros i. rewrite Hdom, Hus, lookup_insert_is_Some', elem_of_cons. naive_solver.
Qed.

(** A registry built from an initial list is consistent and holds exactly the
    listed users, each once: a list that repeats an id is refused. *)
Theorem from_users_exact ks specs r :
  from_users ks specs = Ok r ->
  reg_ok r /\ exists ids, mapM UserSpec.resolved_id specs = Some ids /\ NoDup ids /\
    forall id, is_Some (users r !! id) <-> id ∈ ids.
Proof.
  unfold from_users. destruct (for_in specs from_users_one (registry_new ks)) as [r1 [[]|]] eqn:E; [|done].
  intros [= <-]. destruct (from_users_loop _ _ _ (proj1 (registry_new_ok ks)) E) as (Hok & ids & H1 & H2 & _ & H3).
  split; [by apply republish_reg_ok|]. exists ids. split; [done|]. split; [done|]. intros id.
  cbn. rewrite H3. cbn. rewrite lookup_empty. split; [intros [?|[? [=]]]; done|auto].
Qed.
End spec.

(** ** Witnesses *)

(** Readable stand-ins for the external codecs and accounting records. *)
Module RegistryExample.

Record cell : Type := mkCell { on : bool; open : Z; up : Z; down : Z }.

#[local] Instance codecs : CredentialOps string := {
  parse_uuid text := if is_empty text then None else Some ("uuid:" +:+ text);
  decode_shadowsocks_psk text := Some text;
  shadowsocks_psk_hash psk := "psk:" +:+ psk;
  trojan_password_hash pw := "trojan:" +:+ pw;
  password_sha256 pw := "anytls:" +:+ pw;
  password_sha256_prefix hash := String.substring 0 8 hash;
  naive_basic_credential id pw := id +:+ ":" +:+ pw;
  vmess_new uuid := uuid;
  vmess_open uuid auth_id := if bool_decide (auth_id = "auth " +:+ uuid) then Some 7 else None;
  instruction_key uuid := "key " +:+ uuid
}.

#[local] Instance cells : UserContextOps cell unit := {
  ctx_new := mkCell true 0 0 0;
  ctx_set_analysis _ c := c;
  ctx_set_enabled b c := mkCell b (open c) (up c) (down c);
  ctx_set_max_conns _ c := c;
  ctx_set_speed_limits _ _ c := c;
  ctx_revoke c := c;
  ctx_kick c := (c, open c);
  ctx_take_traffic c := (mkCell (on c) (open c) 0 0, (up c, down c));
  ctx_is_enabled c := on c;
  ctx_conns c := open c;
  ctx_stats id c := UserInfo.mk id (on c) (up c) (down c) 0 (open c) 0 0 0 0
}.

#[local] Instance cells_laws : UserContextLaws cell unit.
Proof. by split. Qed.

Abbreviation reg := (registry string cell unit).

Definition spec (id : string) (uuid password : option string) (enabled : bool) : UserSpec.t :=
  UserSpec.mk (Some id) uuid password enabled None None None.

(** An inbound that speaks VLESS/VMess and AnyTLS. *)
Definition ks : CredentialKinds.t := CredentialKinds.mk true false false PskNone false true false.

Definition run (ops : list (user_op (M:=cell) (A:=unit))) : reg := (user_run ops (registry_new ks)).1.

Definition ops : list (user_op (M:=cell) (A:=unit)) :=
  [OpUpsert (spec "alice" (Some "a") (Some "secret") true);
   OpUpsert (spec "bob" (Some "b") None true);
   OpCell 0 (mkCell true 1 100 50)].

Definition r0 : reg := run ops.

Lemma r0_reachable : reachable r0.
Proof. exists ks, ops, (user_run ops (registry_new ks : reg)).2. unfold r0, run. by destruct (user_run _ _). Qed.

Definition alice : Entry string :=
  mkEntry (mkRef 0 "alice") (Some "uuid:a") None None None None (Some "anytls:secret") None (Some "uuid:a").

Definition bob : Entry string :=
  mkEntry (mkRef 1 "bob") (Some "uuid:b") None None None None None None (Some "uuid:b").

Lemma registry_consistent_witness : Some Panic ∉ (user_run ops (registry_new ks : reg)).2.
Proof.
  apply (registry_consistent ks ops (user_run ops (registry_new ks : reg)).1
           (user_run ops (registry_new ks : reg)).2).
  by destruct (user_run ops (registry_new ks)).
Defined.

Lemma credential_unique_witness : "alice" = "alice".
Proof.
  apply (credential_unique r0 KUuid "uuid:a" "alice" "alice" alice alice r0_reachable);
    vm_compute; reflexivity.
Defined.

Lemma lookup_exact_witness : find_uuid r0 "uuid:a" = Some (mkRef 0 "alice").
Proof.
  apply (lookup_exact r0 "uuid:a" (mkRef 0 "alice") r0_reachable).
  exists alice. split; [|reflexivity]. exists "alice". vm_compute. repeat split.
Defined.

Lemma lookup_secret_witness : find_tuic_uuid r0 "uuid:b" <> Some (mkRef 1 "bob", "x").
Proof.
  intros H. apply (lookup_secret r0 "uuid:b" (mkRef 1 "bob") "x" r0_reachable) in H.
  destruct H as (e & (id & Hu & Hc & _) & _ & Hp).
  assert (id = "bob") as ->.
  { apply (cred_unique r0 KUuid "uuid:b" id "bob" e bob (proj1 (reachable_ok r0 r0_reachable)) Hu);
      [vm_compute; reflexivity|exact Hc|vm_compute; reflexivity]. }
  assert (users r0 !! "bob" = Some bob) as Hb by (vm_compute; reflexivity).
  rewrite Hb in Hu. injection Hu as <-. discriminate Hp.
Defined.

Lemma prefix_exact_witness : has_password_sha256_prefix r0 "anytls:s" = true.
Proof.
  apply (prefix_exact r0 "anytls:s" r0_reachable). exists "alice", alice, "anytls:secret".
  vm_compute. repeat split.
Defined.

Lemma vmess_sound_complete_witness : is_Some (find_vmess_auth_id r0 "auth uuid:b").
Proof.
  apply (proj2 (vmess_sound_complete r0 "auth uuid:b" r0_reachable) "bob" bob "uuid:b" 7);
    vm_compute; reflexivity.
Defined.

(** Bob asks for Alice's uuid. *)
Lemma upsert_refused_witness : (upsert (spec "bob" (Some "a") None true) r0).1 = r0.
Proof.
  apply (upsert_refused (spec "bob" (Some "a") None true) r0
           (upsert (spec "bob" (Some "a") None true) r0).1
           (DuplicateCredential "bob" "alice") r0_reachable).
  vm_compute. reflexivity.
Defined.

Definition rotated : reg := (upsert (spec "alice" (Some "a2") None true) r0).1.

Lemma upsert_installs_witness :
  exists e, users rotated = <["alice" := e]> (users r0) /\ e_context e = mkRef 0 "alice".
Proof.
  destruct (upsert_installs (spec "alice" (Some "a2") None true) r0 rotated
              (UserInfo.mk "alice" true 100 50 0 1 0 0 0 0) r0_reachable)
    as (id & c & e & Hid & _ & Hu & _ & _ & Hctx & _); [vm_compute; reflexivity|].
  injection Hid as <-. exists e. split; [exact Hu|].
  rewrite (Hctx alice); vm_compute; reflexivity.
Defined.

Lemma upsert_rotates_witness : find_by rotated KUuid "uuid:a" = None.
Proof.
  apply (upsert_rotates (spec "alice" (Some "a2") None true) r0 rotated
           (UserInfo.mk "alice" true 100 50 0 1 0 0 0 0) "alice" alice KUuid "uuid:a" r0_reachable);
    [vm_compute; reflexivity..|].
  intros e He. vm_compute in He. injection He as <-. discriminate.
Defined.

Definition removed : reg := (remove_begin "in" "alice" r0).1.

Lemma remove_revokes_witness :
  users removed !! "alice" = None /\
  (upsert (spec "alice" (Some "a3") None true) removed).1 = removed.
Proof.
  destruct (remove_revokes "in" "alice" r0 removed 0 r0_reachable) as (_ & _ & Hu & Hup);
    [vm_compute; reflexivity|].
  split; [exact Hu|].
  apply (Hup (spec "alice" (Some "a3") None true) _ (upsert (spec "alice" (Some "a3") None true) removed).2);
    [reflexivity|by destruct (upsert (spec "alice" (Some "a3") None true) removed)].
Defined.

Definition drained : reg := run (ops ++ [OpRemoveBegin "in" "alice"; OpCell 0 (mkCell true 0 100 50)]).

Lemma remove_collects_witness :
  draining (remove_end 0 drained).1 !! "alice" = None.
Proof.
  assert (reachable drained) as Hr.
  { eexists ks, _, _. unfold drained, run. apply surjective_pairing. }
  destruct (remove_collects 0 drained (remove_end 0 drained).1
              (UserInfo.mk "alice" true 100 50 0 0 0 0 0 0) Hr) as (Hd & _);
    [vm_compute; reflexivity|].
  rewrite Hd. vm_compute. reflexivity.
Defined.

Lemma sweep_exact_witness :
  (take_nonzero_traffic r0).2 = [UserInfo.mk "alice" true 100 50 0 1 0 0 0 0] /\
  ctx (take_nonzero_traffic r0).1 (mkRef 0 "alice") = mkCell true 1 0 0.
Proof.
  destruct (sweep_exact (fun i => negb ((UserInfo.tx i =? 0) && (UserInfo.rx i =? 0))) r0
              (take_nonzero_traffic r0).1 (take_nonzero_traffic r0).2 r0_reachable)
    as (Hi & _ & Hc); [apply surjective_pairing|].
  split; [rewrite Hi; vm_compute; reflexivity|].
  apply (Hc "alice" alice). vm_compute. reflexivity.
Defined.

Lemma from_users_exact_witness :
  exists r : reg, from_users ks [spec "alice" (Some "a") None true; spec "bob" (Some "b") None true] = Ok r /\
    is_Some (users r !! "alice").
Proof.
  destruct (from_users ks [spec "alice" (Some "a") None true; spec "bob" (Some "b") None true] : result _ reg)
    as [r|e] eqn:E; [|vm_compute in E; discriminate E].
  exists r. split; [reflexivity|].
  destruct (from_users_exact ks _ r E) as (_ & ids & Hm & _ & H).
  apply H. vm_compute in Hm. injection Hm as <-. apply elem_of_cons. left. reflexivity.
Defined.
End RegistryExample.
