(* ===== verification/PortErrors.v ===== *)
(** * Forwarding error classes: [crates/node-agent/src/porthopping/errors.rs]

    A boxed error with its chain of sources.  Errors of other types (netlink,
    I/O) are [OtherError], of which the classification only uses the text and the
    source.

    Theorem: a class is recognised through any wrapping, and wrapping alone never
    changes the class. *)

From S2P Require Import Prelude Bytes.

(** [impl fmt::Display]: the text of an error. *)
Class Display (E : Type) : Type := display : E -> string.

Inductive BoxError : Type :=
  | CapabilityError (platform capability reason : string) (source : option BoxError)
  | StateUncertainError (source : option BoxError)
  | OperationError (message : string) (source : option BoxError)
  | RouterClosedError
  | OtherError (message : string) (source : option BoxError).

(** [Error::source] *)
Definition error_source (e : BoxError) : option BoxError :=
  match e with
  | CapabilityError _ _ _ source | StateUncertainError source
  | OperationError _ source | OtherError _ source => source
  | RouterClosedError => None
  end.

Fixpoint show (e : BoxError) : string :=
  match e with
  | CapabilityError platform capability reason source =>
      let message := "port hopping forwarding capability is unavailable"
        +:+ (if is_empty platform then "" else " on " +:+ platform)
        +:+ (if is_empty capability then "" else ": " +:+ capability) in
      let reason := if is_empty reason
                    then match source with Some source => show source | None => "" end
                    else reason in
      if is_empty reason then message else message +:+ " (" +:+ reason +:+ ")"
  | StateUncertainError (Some source) => show source
  | StateUncertainError None => "port hopping forwarding state is uncertain"
  | OperationError message (Some source) => message +:+ ": " +:+ show source
  | OperationError message None => message
  | RouterClosedError => "port hopping router is closed"
  | OtherError message _ => message
  end.

#[export] Instance BoxError_display : Display BoxError := show.

(** [error.is::<T>()] *)
Definition is_capability (e : BoxError) : bool :=
  match e with CapabilityError _ _ _ _ => true | _ => false end.
Definition is_uncertain (e : BoxError) : bool :=
  match e with StateUncertainError _ => true | _ => false end.
Definition is_closed (e : BoxError) : bool :=
  match e with RouterClosedError => true | _ => false end.

Fixpoint error_chain_contains (isa : BoxError -> bool) (e : BoxError) : bool :=
  isa e ||
  match e with
  | CapabilityError _ _ _ (Some source) | StateUncertainError (Some source)
  | OperationError _ (Some source) | OtherError _ (Some source) => error_chain_contains isa source
  | _ => false
  end.

Definition is_capability_unsupported : BoxError -> bool := error_chain_contains is_capability.
Definition is_state_uncertain : BoxError -> bool := error_chain_contains is_uncertain.
Definition is_router_closed : BoxError -> bool := error_chain_contains is_closed.

(** The chain of sources. *)
Inductive source_of : BoxError -> BoxError -> Prop :=
  | source_here e : source_of e e
  | source_next e s inner : error_source e = Some s -> source_of inner s -> source_of inner e.

Lemma contains_step isa e :
  error_chain_contains isa e = isa e || from_option (error_chain_contains isa) false (error_source e).
Proof. by destruct e as [? ? ? []|[]|? []| |? []]. Qed.

(** Classification walks the whole chain: a class is found exactly when some error
    of the chain has it, so wrapping an error with context never hides an
    uncertain state, and never invents one. *)
Theorem chain_exact isa e :
  error_chain_contains isa e = true <-> exists inner, source_of inner e /\ isa inner = true.
Proof.
  split.
  - revert e. fix IH 1. intros e. rewrite contains_step, orb_true_iff. intros [H|H].
    + exists e. split; [constructor|done].
    + destruct e as [? ? ? [s|]|[s|]|? [s|]| |? [s|]]; cbn in H; try done;
        destruct (IH s H) as (inner & Hs & Hi); exists inner; (split; [by econstructor|done]).
  - intros (inner & Hs & Hi). induction Hs as [e|e s inner Hsrc _ IH]; rewrite contains_step.
    + by rewrite Hi.
    + rewrite Hsrc. cbn. rewrite IH by done. apply orb_true_r.
Qed.
