(* ===== verification/Mutation.v ===== *)
(** * Candidate construction: the pure half of [crates/node-agent/src/topology/manager.rs]

    Topology errors and their classification, the mutations that build a
    candidate from the published topology, the comparison of user lists, the
    users whose connections a publication must close, and the classification
    of a failed reload.  [Manager] drives these from the state machine.

    Theorems: a mutation and its snapshot counterpart keep a topology coherent;
    [compare_node_users] reports no change exactly when the two lists are the
    same users; the users to close are exactly those active before whose
    credential is no longer authorised. *)

From Stdlib Require Import ZArith Lia.
From S2P Require Import Prelude Bytes Wire Topology Convert.

Open Scope Z_scope.

(** ** Errors *)

Inductive TopologyErrorKind : Type :=
  | StaleRevision
  | RevisionMismatch
  | UsersChangedDuringRefresh
  | InvalidMutation
  | Runtime.

#[export] Instance TopologyErrorKind_eq_dec : EqDecision TopologyErrorKind.
Proof. solve_decision. Defined.

Module TopologyError.
Record t : Type := mk {
  kind : TopologyErrorKind;
  message : string;
  rolled_back : bool;
  running : bool;
  rollback_stage : bool
}.

Definition new (kind : TopologyErrorKind) (message : string) : t :=
  mk kind message false true false.

Definition runtime (message : string) (rolled_back : bool) : t :=
  mk Runtime message rolled_back true rolled_back.

Definition runtime_state (message : string) (rolled_back running : bool) : t :=
  mk Runtime message rolled_back running rolled_back.

Definition revision_recovery_required (self : t) : bool :=
  match kind self with
  | StaleRevision | RevisionMismatch => true
  | UsersChangedDuringRefresh | InvalidMutation | Runtime => false
  end.

Definition with_rollback_stage (self : t) : t :=
  mk (kind self) (message self) (rolled_back self) (running self) true.

(** [TopologyError { message, ..error }] *)
Definition set_message (m : string) (self : t) : t :=
  mk (kind self) m (rolled_back self) (running self) (rollback_stage self).
End TopologyError.

(** ** Mutations *)

Definition apply_node_mutation (topology : MachineTopology.t) (mutation : Pb.NodeMutation.t)
    : MachineTopology.t :=
  let node_id := mutation_node_id mutation in
  if is_empty node_id then topology
  else
    let nodes := MachineTopology.nodes topology in
    if removes (operation_of (Pb.NodeMutation.operation mutation))
    then MT.set_nodes (retain (fun node => negb (node_is node_id node)) nodes) topology
    else
      let replacement :=
        from_option of_pb_NodeTopology node_default (Pb.NodeMutation.node mutation) in
      let replacement :=
        if is_empty (NodeInstance.node_id replacement)
        then node_set_node_id node_id replacement else replacement in
      MT.set_nodes (upsert_first (node_is node_id) replacement nodes) topology.

Definition invalid_mutation (message : string) : TopologyError.t :=
  TopologyError.new InvalidMutation message.

(** The edit of one node's user list. *)
Definition edit_users (operation : Pb.MutationOperation.t) (user : Pb.UserCredential.t)
    (users : list UserCredential.t) : list UserCredential.t :=
  let user_id := Pb.UserCredential.user_id user in
  let replacement := of_pb_UserCredential user in
  if removes operation || bool_decide (UserCredential.status replacement = "disabled")
  then retain (fun candidate => negb (user_is user_id candidate)) users
  else upsert_first (user_is user_id) replacement users.

Definition apply_user_mutation (topology : MachineTopology.t) (mutation : Pb.UserMutation.t)
    : result TopologyError.t MachineTopology.t :=
  let node_id := Pb.UserMutation.node_id mutation in
  if is_empty node_id then Err (invalid_mutation "user mutation requires node_id")
  else
    user ← ok_or (invalid_mutation "user mutation requires user.user_id")
             (Pb.UserMutation.user mutation);
    if is_empty (Pb.UserCredential.user_id user)
    then Err (invalid_mutation "user mutation requires user.user_id")
    else
      let nodes := MachineTopology.nodes topology in
      match find_first (node_is node_id) nodes with
      | None =>
          Err (invalid_mutation ("node " +:+ node_id +:+ " not found for user mutation"))
      | Some _ =>
          let operation := operation_of (Pb.UserMutation.operation mutation) in
          Ok (MT.set_nodes
                (update_first (node_is node_id)
                   (fun node => node_set_users (edit_users operation user (NodeInstance.users node)) node)
                   nodes) topology)
      end.

(** ** Comparing user lists *)

Module UserRefreshChanges.
Record t : Type := mk { added : nat; updated : nat; deleted : nat; applied : bool }.
Definition default : t := mk 0 0 0 false.
Definition add_added (c : t) : t := mk (S (added c)) (updated c) (deleted c) (applied c).
Definition add_updated (c : t) : t := mk (added c) (S (updated c)) (deleted c) (applied c).
Definition add_deleted (c : t) : t := mk (added c) (updated c) (S (deleted c)) (applied c).
Definition set_applied (b : bool) (c : t) : t := mk (added c) (updated c) (deleted c) b.
(** [added == 0 && updated == 0 && deleted == 0] *)
Definition unchanged (c : t) : bool :=
  Nat.eqb (added c) 0 && Nat.eqb (updated c) 0 && Nat.eqb (deleted c) 0.
End UserRefreshChanges.

(** One insertion of [index_node_users]: an empty or repeated id is refused. *)
Definition index_one (source : string) (indexed : gmap string UserCredential.t)
    (user : UserCredential.t) : result TopologyError.t (gmap string UserCredential.t) :=
  let user_id := UserCredential.user_id user in
  if is_empty user_id
  then Err (invalid_mutation (source +:+ " user list contains an empty user_id"))
  else
    match indexed !! user_id with
    | Some _ =>
        Err (invalid_mutation (source +:+ " user list contains duplicate user_id " +:+ user_id))
    | None => Ok (<[user_id := user]> indexed)
    end.

Fixpoint index_from (source : string) (indexed : gmap string UserCredential.t)
    (users : list UserCredential.t) : result TopologyError.t (gmap string UserCredential.t) :=
  match users with
  | [] => Ok indexed
  | user :: users => indexed ← index_one source indexed user; index_from source indexed users
  end.

Definition index_node_users (users : list UserCredential.t) (source : string)
    : result TopologyError.t (gmap string UserCredential.t) :=
  index_from source ∅ users.

(** The two counting loops. *)
Definition count_desired (current : gmap string UserCredential.t) (changes : UserRefreshChanges.t)
    (entry : string * UserCredential.t) : UserRefreshChanges.t :=
  match current !! entry.1 with
  | None => UserRefreshChanges.add_added changes
  | Some current_user =>
      if bool_decide (current_user = entry.2) then changes
      else UserRefreshChanges.add_updated changes
  end.

Definition count_deleted (desired : gmap string UserCredential.t) (changes : UserRefreshChanges.t)
    (entry : string * UserCredential.t) : UserRefreshChanges.t :=
  match desired !! entry.1 with
  | Some _ => changes
  | None => UserRefreshChanges.add_deleted changes
  end.

Definition compare_node_users (current desired : list UserCredential.t)
    : result TopologyError.t UserRefreshChanges.t :=
  current ← index_node_users current "current";
  desired ← index_node_users desired "desired";
  let changes := foldl (count_desired current) UserRefreshChanges.default (btree_iter desired) in
  Ok (foldl (count_deleted desired) changes (btree_iter current)).

(** ** Users to close after a publication *)

Definition active (user : UserCredential.t) : bool :=
  negb (is_empty (UserCredential.user_id user))
  && negb (bool_decide (UserCredential.status user = "disabled")).

Definition stale_credential_user_ids (current desired : list UserCredential.t) : list string :=
  let desired_active :=
    collect_map (List.map (fun user => (UserCredential.user_id user, user)) (retain active desired)) in
  List.map UserCredential.user_id
    (retain (fun user =>
       match desired_active !! UserCredential.user_id user with
       | None => true
       | Some desired =>
           negb (bool_decide (UserCredential.credential desired = UserCredential.credential user))
       end) (retain active current)).

Definition stale_credential_topology_users (current desired : MachineTopology.t)
    : gmap string (list string) :=
  let desired_by_node :=
    collect_map (List.map (fun node => (NodeInstance.node_id node, NodeInstance.users node))
                   (MachineTopology.nodes desired)) in
  collect_map
    (omap (fun node =>
       let desired := default [] (desired_by_node !! NodeInstance.node_id node) in
       match stale_credential_user_ids (NodeInstance.users node) desired with
       | [] => None
       | stale => Some (NodeInstance.node_id node, stale)
       end) (MachineTopology.nodes current)).

Definition topology_authorizes_user (topology : MachineTopology.t) (node_id user_id : string) : bool :=
  match find_first (node_is node_id) (MachineTopology.nodes topology) with
  | None => false
  | Some node =>
      existsb (fun user => user_is user_id user
                           && negb (bool_decide (UserCredential.status user = "disabled")))
        (NodeInstance.users node)
  end.

Definition topology_user_count (topology : MachineTopology.t) : nat :=
  list_sum (List.map (fun node => length (NodeInstance.users node)) (MachineTopology.nodes topology)).

(** ** Reload results *)

Inductive ReloadOutcome : Type := Succeeded | FailedUnchanged | FailedRolledBack | FailedStopped.

Inductive ReloadStage : Type :=
  | PullConfiguration
  | PullUsers
  | BuildConfiguration
  | ConfigurePortHopping
  | StartInstance
  | Rollback
  | Completed.

#[export] Instance ReloadOutcome_eq_dec : EqDecision ReloadOutcome.
Proof. solve_decision. Defined.
#[export] Instance ReloadStage_eq_dec : EqDecision ReloadStage.
Proof. solve_decision. Defined.

Definition stage_as_str (stage : ReloadStage) : string :=
  match stage with
  | PullConfiguration => "pull_configuration"
  | PullUsers => "pull_users"
  | BuildConfiguration => "build_configuration"
  | ConfigurePortHopping => "configure_port_hopping"
  | StartInstance => "start_instance"
  | Rollback => "rollback"
  | Completed => "completed"
  end.

Module TopologyReloadResult.
Record t : Type := mk {
  outcome : ReloadOutcome;
  stage : ReloadStage;
  message : string;
  topology_revision : Z;
  config_sha256 : string;
  loaded_user_count : nat
}.
End TopologyReloadResult.

(** A result that carries no configuration. *)
Definition failed_result (outcome : ReloadOutcome) (stage : ReloadStage) (message : string)
    : TopologyReloadResult.t :=
  TopologyReloadResult.mk outcome stage message 0 "" 0.

Definition reload_failure (stage : ReloadStage) (error : TopologyError.t) : TopologyReloadResult.t :=
  let '(outcome, stage) :=
    if TopologyError.rolled_back error then (FailedRolledBack, Rollback)
    else if TopologyError.running error
    then (FailedUnchanged, if TopologyError.rollback_stage error then Rollback else stage)
    else (FailedStopped, if TopologyError.rollback_stage error then Rollback else stage) in
  failed_result outcome stage (TopologyError.message error).

Definition append_warning_summary (message : string) (warnings : list string) : string :=
  match warnings with
  | [] => message
  | _ => message +:+ "; warnings: " +:+ join " | " warnings
  end.

(** ** Coherence *)

(** Editing the nodes of the model and of the snapshot in step. *)
Lemma coherent_edit_nodes f g t :
  (forall l, List.map of_pb_NodeTopology (g l) = f (List.map of_pb_NodeTopology l)) ->
  coherent t ->
  coherent (with_snapshot (fun s => SN.set_nodes (g (Pb.TopologySnapshot.nodes s)) s)
              (MT.set_nodes (f (MachineTopology.nodes t)) t)).
Proof.
  intros Hfg H. destruct t as [m r ns os rt d [s|]]; [|by apply coherent_None].
  intros s' [= <-]. destruct (H s eq_refl) as [????? Hd]. cbn in *. split; cbn; try done.
  rewrite Hfg. congruence.
Qed.

(** The same, when the snapshot's edit is found in another form. *)
Lemma coherent_edit_nodes' f g t t' :
  (forall l, List.map of_pb_NodeTopology (g l) = f (List.map of_pb_NodeTopology l)) ->
  t' = with_snapshot (fun s => SN.set_nodes (g (Pb.TopologySnapshot.nodes s)) s)
         (MT.set_nodes (f (MachineTopology.nodes t)) t) ->
  coherent t -> coherent t'.
Proof. intros Hfg -> H. by apply coherent_edit_nodes. Qed.

Lemma with_snapshot_ext h1 h2 t :
  (forall s, MachineTopology.snapshot t = Some s -> h1 s = h2 s) -> with_snapshot h1 t = with_snapshot h2 t.
Proof.
  intros H. unfold with_snapshot. destruct (MachineTopology.snapshot t); [|done]. by rewrite H.
Qed.

Lemma of_pb_set_node_id x n :
  of_pb_NodeTopology (pb_node_set_node_id x n) = node_set_node_id x (of_pb_NodeTopology n).
Proof. done. Qed.

Lemma set_nodes_same t : MT.set_nodes (MachineTopology.nodes t) t = t.
Proof. by destruct t. Qed.

Lemma node_mutation_coherent t m :
  coherent t -> coherent (apply_node_mutation_to_snapshot (apply_node_mutation t m) m).
Proof.
  unfold apply_node_mutation, apply_node_mutation_to_snapshot.
  destruct (is_empty (mutation_node_id m)) eqn:Eid.
  { unfold with_snapshot. destruct t as [? ? ? ? ? ? [s|]]; exact id. }
  destruct (removes _).
  - apply coherent_edit_nodes' with
      (f := retain (fun n => negb (node_is (mutation_node_id m) n)))
      (g := retain (fun n => negb (pb_node_is (mutation_node_id m) n))); [|done].
    intros l. by apply (retain_map of_pb_NodeTopology).
  - set (id := mutation_node_id m).
    set (pb := match Pb.NodeMutation.node m with
               | Some node => node | None => pb_node_set_node_id id pb_node_default end).
    set (pb' := if is_empty (Pb.NodeTopology.node_id pb) then pb_node_set_node_id id pb else pb).
    apply coherent_edit_nodes' with (g := upsert_first (pb_node_is id) pb')
      (f := upsert_first (node_is id) (of_pb_NodeTopology pb')).
    + intros l. by apply upsert_first_map.
    + assert (of_pb_NodeTopology pb' =
          let r := from_option of_pb_NodeTopology node_default (Pb.NodeMutation.node m) in
          if is_empty (NodeInstance.node_id r) then node_set_node_id id r else r) as ->; [|done].
      unfold pb', pb. destruct (Pb.NodeMutation.node m) as [n|]; cbn.
      * by destruct (is_empty (Pb.NodeTopology.node_id n)).
      * subst id. by rewrite Eid.
Qed.

(** A disabled wire user is a disabled model user. *)
Lemma status_disabled u :
  bool_decide (UserCredential.status (of_pb_UserCredential u) = "disabled")
  = wire_disabled (Pb.UserCredential.status u).
Proof. unfold of_pb_UserCredential. cbn. by destruct (wire_disabled _). Qed.

Lemma edit_users_map operation user l :
  List.map of_pb_UserCredential
    (if removes operation || wire_disabled (Pb.UserCredential.status user)
     then retain (fun c => negb (pb_user_is (Pb.UserCredential.user_id user) c)) l
     else upsert_first (pb_user_is (Pb.UserCredential.user_id user)) user l)
  = edit_users operation user (List.map of_pb_UserCredential l).
Proof.
  unfold edit_users. rewrite status_disabled. destruct (_ || _).
  - by apply (retain_map of_pb_UserCredential).
  - by apply upsert_first_map.
Qed.

Lemma apply_user_mutation_Ok t m t' :
  apply_user_mutation t m = Ok t' ->
  exists user, Pb.UserMutation.user m = Some user /\ Pb.UserCredential.user_id user <> "" /\
    Pb.UserMutation.node_id m <> "" /\
    is_Some (find_first (node_is (Pb.UserMutation.node_id m)) (MachineTopology.nodes t)) /\
    t' = MT.set_nodes (update_first (node_is (Pb.UserMutation.node_id m))
           (fun node => node_set_users (edit_users (operation_of (Pb.UserMutation.operation m)) user
                          (NodeInstance.users node)) node) (MachineTopology.nodes t)) t.
Proof.
  unfold apply_user_mutation. destruct (is_empty (Pb.UserMutation.node_id m)) eqn:En; [done|].
  rewrite bind_Ok. intros (user & Hu & H). exists user.
  destruct (Pb.UserMutation.user m); [|done]. injection Hu as ->.
  destruct (is_empty (Pb.UserCredential.user_id user)) eqn:Eu; [done|].
  destruct (find_first _ _) eqn:Ef; [|done]. injection H as <-.
  apply is_empty_false in En, Eu. eauto 10.
Qed.

Lemma user_mutation_coherent t m t' :
  apply_user_mutation t m = Ok t' -> coherent t -> coherent (apply_user_mutation_to_snapshot t' m).
Proof.
  intros (user & Hu & _ & _ & Hsome & ->)%apply_user_mutation_Ok. intros H.
  set (id := Pb.UserMutation.node_id m) in *. set (op := operation_of (Pb.UserMutation.operation m)) in *.
  eapply coherent_edit_nodes' with (t := t)
    (f := update_first (node_is id) (fun node => node_set_users (edit_users op user (NodeInstance.users node)) node))
    (g := update_first (pb_node_is id) (fun node => pb_node_set_users
            (if removes op || wire_disabled (Pb.UserCredential.status user)
             then retain (fun c => negb (pb_user_is (Pb.UserCredential.user_id user) c)) (Pb.NodeTopology.users node)
             else upsert_first (pb_user_is (Pb.UserCredential.user_id user)) user (Pb.NodeTopology.users node)) node));
    [| |done].
  - intros l. apply nodes_update_first. intros n. unfold of_pb_NodeTopology at 1. cbn.
    by rewrite edit_users_map.
  - unfold apply_user_mutation_to_snapshot. apply with_snapshot_ext. intros s Hs. cbn in Hs.
    destruct (H s Hs) as [_ _ Hn _ _ _]. fold id. rewrite Hu. rewrite Hn, find_node_map in Hsome.
    destruct (find_first (pb_node_is id) (Pb.TopologySnapshot.nodes s)); [done|].
    by destruct Hsome.
Qed.

(** The revision is written to the model and to the snapshot. *)
Definition set_revisions (revision : Z) (t : MachineTopology.t) : MachineTopology.t :=
  with_snapshot (SN.set_revision revision) (MT.set_revision revision t).

Lemma set_revisions_coherent r t : coherent t -> coherent (set_revisions r t).
Proof.
  intros H. destruct t as [m rv ns os rt d [s|]]; [|by apply coherent_None].
  intros s' [= <-]. destruct (H s eq_refl). by split.
Qed.

Lemma of_to_pb_users users :
  Forall status_canonical users ->
  List.map of_pb_UserCredential (List.map to_pb_UserCredential users) = users.
Proof.
  induction 1 as [|u users Hu _ IH]; [done|]. cbn. rewrite IH. f_equal. by apply UserCredential_round'.
Qed.

(** The users of one node replaced, in the model and in the snapshot. *)
Lemma replace_users_coherent t id users :
  Forall status_canonical users -> coherent t ->
  coherent (MT.set_nodes (update_first (node_is id) (node_set_users users) (MachineTopology.nodes t))
              (replace_node_users t id users)).
Proof.
  intros Hc H.
  eapply coherent_edit_nodes' with (t := t) (f := update_first (node_is id) (node_set_users users))
    (g := update_first (pb_node_is id) (pb_node_set_users (List.map to_pb_UserCredential users)));
    [| |done].
  - intros l. apply nodes_update_first. intros n. unfold of_pb_NodeTopology at 1. cbn.
    by rewrite of_to_pb_users.
  - unfold replace_node_users, with_snapshot. by destruct t as [? ? ? ? ? ? [s|]].
Qed.

(** ** User comparison *)

Abbreviation user_ids users := (UserCredential.user_id <$> users).

(** What [index_node_users] requires of a list. *)
Definition ids_valid (users : list UserCredential.t) : Prop :=
  NoDup (user_ids users) /\ "" ∉ user_ids users.

Definition keyed (users : list UserCredential.t) : list (string * UserCredential.t) :=
  (fun user => (UserCredential.user_id user, user)) <$> users.

Lemma keyed_keys users : (keyed users).*1 = user_ids users.
Proof. unfold keyed. rewrite <- list_fmap_compose. done. Qed.

Lemma index_from_Ok source m users m' :
  index_from source m users = Ok m' <->
  ids_valid users /\ (forall id, id ∈ user_ids users -> m !! id = None) /\
  m' = foldl (fun m '(k, v) => <[k := v]> m) m (keyed users).
Proof.
  unfold ids_valid. revert m. induction users as [|u users IH]; intros m.
  { cbn. split; [intros [= <-]; split_and!; set_solver by constructor|]. by intros (_ & _ & ->). }
  change (index_from source m (u :: users))
    with (indexed ← index_one source m u; index_from source indexed users).
  rewrite bind_Ok. setoid_rewrite IH. unfold index_one. cbn. rewrite NoDup_cons.
  destruct (is_empty (UserCredential.user_id u)) eqn:Eu.
  { apply is_empty_spec in Eu. rewrite Eu. split; [by intros (? & [=] & _)|]. intros ((_ & H) & _). set_solver. }
  apply is_empty_false in Eu.
  destruct (m !! UserCredential.user_id u) eqn:Em.
  { split; [by intros (? & [=] & _)|]. intros (_ & H & _).
    specialize (H (UserCredential.user_id u)). set_solver. }
  split.
  - intros (? & [= <-] & (Hnd & Hne) & Hm & ->). split_and!; [|done| | |done].
    + intros Hin. specialize (Hm _ Hin). by rewrite lookup_insert_eq in Hm.
    + set_solver.
    + intros id [->|Hin]%elem_of_cons; [done|].
      specialize (Hm _ Hin). by apply lookup_insert_None in Hm as [? _].
  - intros (((Hn & Hnd) & Hne) & Hm & ->). eexists. split; [done|]. split_and!; [done|set_solver| |done].
    intros id Hin. rewrite lookup_insert_None. split; [set_solver|congruence].
Qed.

Lemma index_node_users_Ok source users m :
  index_node_users users source = Ok m <-> ids_valid users /\ m = collect_map (keyed users).
Proof.
  unfold index_node_users. rewrite index_from_Ok. split; [by intros (? & _ & ?)|].
  intros [? ?]. split_and!; [done| |done]. intros. apply lookup_empty.
Qed.

Lemma map_to_list_collect {A} (l : list (string * A)) :
  NoDup l.*1 -> map_to_list (collect_map l) ≡ₚ l.
Proof.
  intros H. apply NoDup_Permutation; [apply NoDup_map_to_list|by eapply NoDup_fmap_1|].
  intros [k v]. rewrite elem_of_map_to_list. by apply lookup_collect_map.
Qed.

Lemma length_filter_fmap {A B} (f : A -> B) (P : B -> Prop) (Q : A -> Prop)
    `{forall x, Decision (P x), forall x, Decision (Q x)} l :
  (forall x, x ∈ l -> P (f x) <-> Q x) -> length (filter P (f <$> l)) = length (filter Q l).
Proof.
  induction l as [|x l IH]; intros HPQ; [done|]. rewrite fmap_cons, !filter_cons.
  specialize (IH ltac:(set_solver)). pose proof (HPQ x ltac:(set_solver)).
  destruct (decide (P (f x))), (decide (Q x)); cbn; naive_solver.
Qed.

(** The counting loops count. *)
Lemma count_desired_loop current l c :
  foldl (count_desired current) c l =
  UserRefreshChanges.mk
    (UserRefreshChanges.added c + length (filter (fun e => current !! e.1 = None) l))
    (UserRefreshChanges.updated c
     + length (filter (fun e => is_Some (current !! e.1) /\ current !! e.1 <> Some e.2) l))
    (UserRefreshChanges.deleted c) (UserRefreshChanges.applied c).
Proof.
  revert c. induction l as [|[k v] l IH]; intros c; cbn -[filter].
  { destruct c; cbn. by rewrite !Nat.add_0_r. }
  rewrite IH, !filter_cons. unfold count_desired. cbn [fst snd].
  destruct (current !! k) as [u|] eqn:E; cbn.
  - rewrite (decide_False (P := Some u = None)) by done. destruct (decide (u = v)) as [->|Hne].
    + rewrite bool_decide_true by done. rewrite decide_False by naive_solver. done.
    + rewrite bool_decide_false by done. rewrite decide_True by naive_solver. cbn. f_equal. lia.
  - rewrite decide_True by done. rewrite decide_False by (intros [[? ?] _]; done). cbn. f_equal. lia.
Qed.

Lemma count_deleted_loop desired l c :
  foldl (count_deleted desired) c l =
  UserRefreshChanges.mk (UserRefreshChanges.added c) (UserRefreshChanges.updated c)
    (UserRefreshChanges.deleted c + length (filter (fun e => desired !! e.1 = None) l))
    (UserRefreshChanges.applied c).
Proof.
  revert c. induction l as [|[k v] l IH]; intros c; cbn -[filter].
  { destruct c; cbn. by rewrite !Nat.add_0_r. }
  rewrite IH, !filter_cons. unfold count_deleted. cbn [fst snd].
  destruct (desired !! k) as [u|] eqn:E; cbn.
  - by rewrite decide_False.
  - rewrite decide_True by done. cbn. f_equal. lia.
Qed.

Lemma keyed_iter users :
  ids_valid users -> btree_iter (collect_map (keyed users)) ≡ₚ keyed users.
Proof. intros [H _]. rewrite btree_iter_perm. apply map_to_list_collect. by rewrite keyed_keys. Qed.

Lemma lookup_keyed_None users id : collect_map (keyed users) !! id = None <-> id ∉ user_ids users.
Proof. by rewrite lookup_collect_map_None, keyed_keys. Qed.

Lemma lookup_keyed users u :
  ids_valid users ->
  collect_map (keyed users) !! UserCredential.user_id u = Some u <-> u ∈ users.
Proof.
  intros [H _]. rewrite lookup_collect_map by (by rewrite keyed_keys). unfold keyed.
  rewrite list_elem_of_fmap. naive_solver.
Qed.

(** The three counts, by membership. *)
Definition membership_counts (current desired : list UserCredential.t) : UserRefreshChanges.t :=
  UserRefreshChanges.mk
    (length (filter (fun u => UserCredential.user_id u ∉ user_ids current) desired))
    (length (filter (fun u => UserCredential.user_id u ∈ user_ids current /\ u ∉ current) desired))
    (length (filter (fun u => UserCredential.user_id u ∉ user_ids desired) current)) false.

Lemma count_loops current desired :
  ids_valid current -> ids_valid desired ->
  let c := collect_map (keyed current) in let d := collect_map (keyed desired) in
  foldl (count_deleted d) (foldl (count_desired c) UserRefreshChanges.default (btree_iter d)) (btree_iter c)
  = membership_counts current desired.
Proof.
  intros Hc Hd. cbn zeta. rewrite count_desired_loop, count_deleted_loop.
  cbn [UserRefreshChanges.added UserRefreshChanges.updated UserRefreshChanges.deleted
       UserRefreshChanges.applied UserRefreshChanges.default Nat.add].
  rewrite !(keyed_iter current), !(keyed_iter desired) by done. unfold keyed, membership_counts.
  f_equal; apply length_filter_fmap; intros u _; cbn [fst snd].
  - apply lookup_keyed_None.
  - rewrite (lookup_keyed current) by done. rewrite <- not_eq_None_Some, lookup_keyed_None.
    destruct (decide (UserCredential.user_id u ∈ user_ids current)); naive_solver.
  - apply lookup_keyed_None.
Qed.

Lemma compare_counts current desired changes :
  compare_node_users current desired = Ok changes <->
  ids_valid current /\ ids_valid desired /\ changes = membership_counts current desired.
Proof.
  unfold compare_node_users. rewrite bind_Ok. setoid_rewrite bind_Ok.
  setoid_rewrite index_node_users_Ok. split.
  - intros (? & [Hc ->] & ? & [Hd ->] & [= <-]). by rewrite count_loops.
  - intros (Hc & Hd & ->). eexists. split; [done|]. eexists. split; [done|]. by rewrite count_loops.
Qed.

Lemma filter_length_0 {A} (P : A -> Prop) `{forall x, Decision (P x)} (l : list A) :
  length (filter P l) = 0%nat <-> forall x, x ∈ l -> ~ P x.
Proof.
  split.
  - intros E%nil_length_inv x Hx Hp. assert (x ∈ filter P l) as Hin by by apply list_elem_of_filter.
    rewrite E in Hin. set_solver.
  - intros H0. apply length_zero_iff_nil. apply elem_of_nil_inv. intros x [Hp Hx]%list_elem_of_filter.
    by apply (H0 x).
Qed.

(** Two entries of a valid list with the same id are the same entry. *)
Lemma ids_valid_inj users u v :
  ids_valid users -> u ∈ users -> v ∈ users ->
  UserCredential.user_id u = UserCredential.user_id v -> u = v.
Proof.
  intros H Hu Hv E. apply (lookup_keyed users) in Hu, Hv; [|done..]. rewrite E, Hv in Hu. congruence.
Qed.

Lemma unchanged_perm current desired changes :
  compare_node_users current desired = Ok changes ->
  UserRefreshChanges.unchanged changes = true <-> current ≡ₚ desired.
Proof.
  intros (Hc & Hd & ->)%compare_counts.
  unfold UserRefreshChanges.unchanged, membership_counts. cbn -[filter].
  rewrite !andb_true_iff, !Nat.eqb_eq, !filter_length_0. split.
  - intros [[Ha Hu] Hdel].
    apply NoDup_Permutation; [eapply NoDup_fmap_1, Hc|eapply NoDup_fmap_1, Hd|].
    assert (forall u, u ∈ desired -> u ∈ current) as Hsub.
    { intros u Hin. specialize (Ha u Hin). specialize (Hu u Hin).
      destruct (decide (u ∈ current)); [done|]. destruct (decide (UserCredential.user_id u ∈ user_ids current)); naive_solver. }
    intros u. split; [|by apply Hsub]. intros Hin.
    destruct (decide (UserCredential.user_id u ∈ user_ids desired)) as [(v & E & Hv)%list_elem_of_fmap|Hn];
      [|by destruct (Hdel u Hin)].
    by rewrite (ids_valid_inj current u v Hc Hin (Hsub v Hv) E).
  - intros Hp. split_and!; intros u Hin.
    + rewrite Hp. pose proof (list_elem_of_fmap_2 UserCredential.user_id _ _ Hin). naive_solver.
    + rewrite Hp. naive_solver.
    + rewrite <- Hp. pose proof (list_elem_of_fmap_2 UserCredential.user_id _ _ Hin). naive_solver.
Qed.

(** Comparing the published users of a node with the desired ones fails exactly
    on a list with an empty or repeated id; it reports how many ids are new, how
    many changed and how many disappeared, whatever the order of the lists; and
    it reports no change exactly when the lists hold the same users, in which
    case a refresh leaves the data plane alone. *)
Theorem compare_exact current desired :
  (is_ok (compare_node_users current desired) = true <-> ids_valid current /\ ids_valid desired) /\
  (forall changes, compare_node_users current desired = Ok changes ->
     changes = membership_counts current desired /\
     (UserRefreshChanges.unchanged changes = true <-> current ≡ₚ desired)).
Proof.
  split.
  { split.
    - destruct (compare_node_users current desired) as [c|] eqn:E; [|done]. apply compare_counts in E. naive_solver.
    - intros [Hc Hd]. by rewrite (proj2 (compare_counts current desired _) (conj Hc (conj Hd eq_refl))). }
  intros changes H. split; [|by apply unchanged_perm].
  by apply compare_counts in H as (_ & _ & H).
Qed.

(** ** Stale users *)

(** [t] authorises [user_id] on [node_id] with exactly this credential. *)
Definition authorises (t : MachineTopology.t) (node_id user_id credential : string) : Prop :=
  exists n u, n ∈ MachineTopology.nodes t /\ NodeInstance.node_id n = node_id /\
    u ∈ NodeInstance.users n /\ UserCredential.user_id u = user_id /\ active u = true /\
    UserCredential.credential u = credential.

(** Node ids distinct, and user ids distinct within each node. *)
Definition distinct (t : MachineTopology.t) : Prop :=
  NoDup (NodeInstance.node_id <$> MachineTopology.nodes t) /\
  Forall (fun n => NoDup (user_ids (NodeInstance.users n))) (MachineTopology.nodes t).

Lemma stale_ids_spec current desired id :
  NoDup (user_ids desired) ->
  id ∈ stale_credential_user_ids current desired <->
  exists u, u ∈ current /\ UserCredential.user_id u = id /\ active u = true /\
    ~ exists d, d ∈ desired /\ UserCredential.user_id d = id /\ active d = true /\
        UserCredential.credential d = UserCredential.credential u.
Proof.
  intros Hnd. unfold stale_credential_user_ids.
  set (m := collect_map _).
  assert (forall i d, m !! i = Some d <-> d ∈ desired /\ UserCredential.user_id d = i /\ active d = true) as Hm.
  { intros i d. unfold m. change (List.map _ (retain active desired)) with (keyed (retain active desired)).
    rewrite lookup_collect_map.
    - unfold keyed. rewrite list_elem_of_fmap. setoid_rewrite elem_of_retain. naive_solver.
    - rewrite keyed_keys. unfold retain. eapply sublist_NoDup; [exact Hnd|].
      apply fmap_sublist, sublist_filter. }
  rewrite list_elem_of_fmap. setoid_rewrite elem_of_retain. setoid_rewrite elem_of_retain. split.
  - intros (u & -> & Hs & Ha & Hu). exists u. split_and!; [done..|].
    intros (d & Hd & Hid & Had & Hcr). rewrite (proj2 (Hm _ d)) in Hs by done.
    by rewrite bool_decide_true in Hs.
  - intros (u & Hu & Hid & Ha & Hn). exists u. split; [done|]. split; [|done].
    destruct (m !! UserCredential.user_id u) as [d|] eqn:E; [|done].
    apply Hm in E as (? & ? & ?). rewrite bool_decide_false; [done|]. intros Hcr. apply Hn. exists d.
    split_and!; congruence.
Qed.

Lemma stale_keys_NoDup (f : NodeInstance.t -> list string) l :
  NoDup (NodeInstance.node_id <$> l) ->
  NoDup (omap (fun n => match f n with [] => None | stale => Some (NodeInstance.node_id n, stale) end) l).*1.
Proof.
  induction l as [|n l IH]; [constructor|]. cbn. intros [Hn Hnd]%NoDup_cons.
  specialize (IH Hnd). destruct (f n) as [|i ids0]; [done|]. cbn. constructor; [|done].
  intros ([id ids] & E & (m & Hm & Hf)%list_elem_of_omap)%list_elem_of_fmap. cbn in E.
  destruct (f m); [done|]. injection Hf as <- <-. rewrite E in Hn. apply Hn. by apply list_elem_of_fmap_2.
Qed.

(** A publication closes the connections of a user exactly when the old topology
    authorised it on that node and the new one no longer authorises that very
    credential there: a removed node, a removed or disabled user, a rotated
    credential. *)
Theorem stale_users_exact current desired node_id user_id :
  distinct current -> distinct desired ->
  (exists ids, stale_credential_topology_users current desired !! node_id = Some ids /\ user_id ∈ ids) <->
  exists credential, authorises current node_id user_id credential /\
    ~ authorises desired node_id user_id credential.
Proof.
  intros [Hnc Huc] [Hnd Hud]. unfold stale_credential_topology_users.
  set (by_node := collect_map (List.map _ (MachineTopology.nodes desired))).
  assert (forall id us, by_node !! id = Some us <->
    exists n, n ∈ MachineTopology.nodes desired /\ NodeInstance.node_id n = id /\ us = NodeInstance.users n) as Hby.
  { intros id us. unfold by_node. rewrite lookup_collect_map.
    - rewrite list_elem_of_fmap. naive_solver.
    - rewrite <- list_fmap_compose. exact Hnd. }
  setoid_rewrite lookup_collect_map; [|by apply stale_keys_NoDup].
  setoid_rewrite list_elem_of_omap.
  assert (forall n, NoDup (user_ids (default [] (by_node !! NodeInstance.node_id n)))) as Hnd'.
  { intros n. destruct (by_node !! _) as [us|] eqn:E; [|constructor].
    apply Hby in E as (d & Hd & _ & ->). rewrite Forall_forall in Hud. by apply Hud. }
  assert (forall n u, NodeInstance.node_id n = node_id -> UserCredential.user_id u = user_id ->
    (exists d, d ∈ default [] (by_node !! NodeInstance.node_id n) /\ UserCredential.user_id d = user_id /\
       active d = true /\ UserCredential.credential d = UserCredential.credential u) <->
    authorises desired node_id user_id (UserCredential.credential u)) as Hauth.
  { intros n u Hn Hu. unfold authorises. rewrite Hn. split.
    - intros (d & Hd & ? & ? & ?). destruct (by_node !! node_id) as [us|] eqn:E; [|set_solver].
      apply Hby in E as (m & Hm & Hid & ->). exists m, d. naive_solver.
    - intros (m & d & Hm & Hid & Hd & ? & ? & ?). exists d.
      rewrite (proj2 (Hby node_id (NodeInstance.users m))) by eauto. done. }
  split.
  - intros (ids & (n & Hn & Hf) & Hin).
    destruct (stale_credential_user_ids _ _) as [|i l] eqn:Es; [done|]. injection Hf as Hid <-.
    rewrite <- Es in Hin. apply stale_ids_spec in Hin as (u & Hu & Hui & Ha & Hno); [|apply Hnd'].
    exists (UserCredential.credential u). split; [by exists n, u|]. by rewrite <- (Hauth n u).
  - intros (credential & (n & u & Hn & Hid & Hu & Hui & Ha & <-) & Hno).
    assert (user_id ∈ stale_credential_user_ids (NodeInstance.users n)
              (default [] (by_node !! NodeInstance.node_id n))) as Hin.
    { apply stale_ids_spec; [apply Hnd'|]. exists u. split_and!; [done..|]. by rewrite (Hauth n u). }
    eexists. split; [|exact Hin]. exists n. split; [done|].
    destruct (stale_credential_user_ids _ _); [set_solver|]. by rewrite Hid.
Qed.
