(* ===== verification/Manager.v ===== *)
(** * The topology manager: the state machine of [crates/node-agent/src/topology/manager.rs]

    One machine's published topology, the optimistic revision fences, and the
    publish-after-success boundary around the data plane.  The data plane is the
    interface [TopologyRuntime] (the trait of the same name); [Adapter] is its
    production implementation.

    Every mutating operation holds the async [operation] lock from its first
    check to its publication, so it is one step, taken when the lock is granted;
    panel fetches run outside the lock and are represented by the publication
    token captured before them.  [reload_from] and [refresh] run in owned tasks:
    a caller that disappears does not interrupt a step.

    Theorems: a failed operation leaves the published topology alone; the
    published revision never goes back; model, wire snapshot and data plane stay
    in agreement; a fetch that another publication overtook is never applied;
    after a stop nothing changes any more. *)

From Stdlib Require Import ZArith Lia.
From S2P Require Import Prelude Bytes Hex Wire Topology Convert Digest Mutation.

Open Scope Z_scope.

(** ** The data plane *)

Module ReloadStatus.
Record t : Type := mk { running : bool; rolled_back : bool }.
End ReloadStatus.

(** [trait TopologyRuntime], over the runtime's own state [R]; [Cfg] is
    [RuntimeConfig]. *)
Class TopologyRuntime (R Cfg : Type) : Type := {
  rt_apply : MachineTopology.t -> stm R TopologyError.t unit;
  rt_close_user_connections : string -> string -> R -> R * Z;
  rt_current_config : R -> string;
  rt_warnings : R -> list string;
  rt_reconcile_current : MachineTopology.t -> stm R TopologyError.t unit;
  rt_begin_close : R -> R;
  rt_close : stm R TopologyError.t unit;
  rt_prepare_reload : MachineTopology.t -> stm R TopologyError.t Cfg;
  rt_configure_reload : MachineTopology.t -> stm R TopologyError.t unit;
  rt_reload_prepared : MachineTopology.t -> Cfg -> stm R TopologyError.t ReloadStatus.t
}.

(** What an implementation promises: the topology it last accepted changes only
    by a successful [apply], reconciliation or reload. *)
Class TopologyRuntimeLaws (R Cfg : Type) `{!TopologyRuntime R Cfg} : Type := {
  rt_active : R -> MachineTopology.t;
  active_apply t r r' res : rt_apply t r = (r', res) ->
    rt_active r' = match res with Ok _ => t | Err _ => rt_active r end;
  active_close_user n u r : rt_active (rt_close_user_connections n u r).1 = rt_active r;
  active_reconcile t r r' res : rt_reconcile_current t r = (r', res) ->
    rt_active r' = match res with Ok _ => t | Err _ => rt_active r end;
  active_begin_close r : rt_active (rt_begin_close r) = rt_active r;
  active_close r : rt_active (rt_close r).1 = rt_active r;
  active_prepare t r : rt_active (rt_prepare_reload t r).1 = rt_active r;
  active_configure t r : rt_active (rt_configure_reload t r).1 = rt_active r;
  active_reload t c r r' res : rt_reload_prepared t c r = (r', res) ->
    rt_active r' = match res with
                   | Ok status => if ReloadStatus.running status then t else rt_active r
                   | Err _ => rt_active r
                   end
}.

(** ** State *)

(** [TopologyManager]: [PublishedTopology], the runtime behind its mutexes, the
    two cancellation tokens and the once-only close result. *)
Record manager (R : Type) : Type := mkManager {
  topology : MachineTopology.t;
  generation : Z;
  runtime : R;
  operations_cancelled : bool;
  cancelled_sessions : gset nat;
  close_result : option (result TopologyError.t unit)
}.
Arguments mkManager {R}. Arguments topology {R}. Arguments generation {R}. Arguments runtime {R}.
Arguments operations_cancelled {R}. Arguments cancelled_sessions {R}. Arguments close_result {R}.

(** A panel session's cancellation token, if the manager handle is bound to one. *)
Abbreviation session := (option nat).

Inductive UserRefreshRevision : Type :=
  | NoRevision
  | AdvanceTo (target : Z)
  | Fence (base target : Z).

Definition refresh_target (revision : UserRefreshRevision) : Z :=
  match revision with
  | NoRevision => 0
  | AdvanceTo target | Fence _ target => target
  end.

Module UserRefreshRequest.
Record t : Type := mk {
  node_id : string;
  users : list UserCredential.t;
  expected_current : option (list UserCredential.t);
  revision : UserRefreshRevision
}.
End UserRefreshRequest.

(** How the fetch of a reload ended; a failure carries the stage last reported. *)
Inductive fetch : Type :=
  | Fetched (candidate : MachineTopology.t)
  | FetchFailed (stage : ReloadStage) (error : string)
  | FetchCancelled (stage : ReloadStage).

Section manager.
Context {R Cfg : Type} `{!TopologyRuntime R Cfg}.
Context (machine_id : string) (sha256 : string -> string).

Local Abbreviation manager := (manager R).
Local Abbreviation method := (stm manager TopologyError.t).
Implicit Types s : manager.

Definition manager_new (r : R) : manager := mkManager MT.default 0 r false ∅ None.

Definition set_runtime (r : R) s : manager :=
  mkManager (topology s) (generation s) r (operations_cancelled s) (cancelled_sessions s) (close_result s).
Definition set_published (t : MachineTopology.t) (g : Z) s : manager :=
  mkManager t g (runtime s) (operations_cancelled s) (cancelled_sessions s) (close_result s).
Definition set_stopped s : manager :=
  mkManager (topology s) (generation s) (runtime s) true (cancelled_sessions s) (close_result s).
Definition cancel_session (n : nat) s : manager :=
  mkManager (topology s) (generation s) (runtime s) (operations_cancelled s)
    ({[n]} ∪ cancelled_sessions s) (close_result s).
Definition set_close_result (r : result TopologyError.t unit) s : manager :=
  mkManager (topology s) (generation s) (runtime s) (operations_cancelled s) (cancelled_sessions s) (Some r).

(** A call into the data plane. *)
Definition on_runtime {A} (m : stm R TopologyError.t A) : method A := fun s =>
  let '(r, res) := m (runtime s) in (set_runtime r s, res).

(** ** Publication *)

Definition publish {E} (t : MachineTopology.t) : stm manager E unit :=
  modify (fun s => set_published t (wrapping_add64 (generation s) 1) s).

Definition publication_token s : Z := generation s.

Definition current_revision s : option Z :=
  if is_empty (MachineTopology.machine_id (topology s)) then None
  else Some (MachineTopology.revision (topology s)).

Definition current_digest (encode : Pb.TopologySnapshot.t -> string) s : option string :=
  option_map (fun snapshot => sum encode sha256 (Some snapshot)) (MachineTopology.snapshot (topology s)).

Definition stopped_error : TopologyError.t :=
  TopologyError.runtime "topology operations are stopped" false.

Definition ensure_operations_running : method unit :=
  s ← get; if operations_cancelled s then raise stopped_error else mret tt.

Definition session_cancelled (cancellation : session) s : bool :=
  match cancellation with
  | Some n => bool_decide (n ∈ cancelled_sessions s)
  | None => false
  end.

(** Admission, when the operation lock is granted. *)
Definition begin_operation (cancellation : session) : method unit :=
  _ ← ensure_operations_running;
  s ← get;
  if session_cancelled cancellation s
  then raise (TopologyError.runtime "control command execution canceled" false)
  else mret tt.

Definition current_config : method string :=
  _ ← ensure_operations_running;
  config ← gets (fun s => rt_current_config (runtime s));
  if is_empty config
  then raise (TopologyError.new Runtime "shoes runtime has no active configuration")
  else mret config.

Definition reconcile_current (cancellation : session) : method unit :=
  _ ← begin_operation cancellation;
  current ← gets topology;
  if is_empty (MachineTopology.machine_id current) then mret tt
  else on_runtime (rt_reconcile_current current).

Definition stop_operations s : manager :=
  let s := set_stopped s in set_runtime (rt_begin_close (runtime s)) s.

Definition close : method unit := fun s =>
  let s := stop_operations s in
  match close_result s with
  | Some r => (s, r)
  | None =>
      let '(r, res) := rt_close (runtime s) in
      (set_close_result res (set_runtime r s), res)
  end.

(** ** Revision fences *)

Definition guard_revision (incoming : Z) : method unit :=
  if incoming =? 0
  then raise (TopologyError.new RevisionMismatch
                "topology revision mismatch: incoming revision is zero")
  else
    current ← gets (fun s => MachineTopology.revision (topology s));
    if incoming <? current
    then raise (TopologyError.new StaleRevision
                  ("stale revision: incoming=" +:+ to_dec incoming +:+ " current=" +:+ to_dec current))
    else mret tt.

Definition guard_authoritative_revision (incoming : Z) : method unit :=
  current ← gets topology;
  if is_empty (MachineTopology.machine_id current)
     || (MachineTopology.revision current =? 0)
     || (MachineTopology.revision current <=? incoming)
  then mret tt
  else raise (TopologyError.new StaleRevision
                ("stale authoritative topology: incoming=" +:+ to_dec incoming +:+ " current="
                 +:+ to_dec (MachineTopology.revision current))).

Definition guard_revision_fence (base target : Z) : method unit :=
  if (base =? 0) || (target =? 0)
  then raise (TopologyError.new RevisionMismatch
                ("topology revision mismatch: base=" +:+ to_dec base +:+ " target=" +:+ to_dec target))
  else
    current ← gets (fun s => MachineTopology.revision (topology s));
    if negb (base =? current)
    then raise (TopologyError.new RevisionMismatch
                  ("topology revision mismatch: base=" +:+ to_dec base +:+ " current=" +:+ to_dec current
                   +:+ " target=" +:+ to_dec target))
    else if target <? base
    then raise (TopologyError.new StaleRevision
                  ("stale revision: incoming=" +:+ to_dec target +:+ " current=" +:+ to_dec current))
    else mret tt.

(** ** Applying a candidate *)

Definition close_user {E} (node_id user_id : string) : stm manager E unit :=
  modify (fun s => set_runtime (rt_close_user_connections node_id user_id (runtime s)).1 s).

Definition publish_and_close_stale_users {E} (t : MachineTopology.t) : stm manager E unit :=
  current ← gets topology;
  let stale_users := stale_credential_topology_users current t in
  _ ← publish t;
  for_in (btree_iter stale_users) (fun '(node_id, user_ids) =>
    for_in user_ids (close_user node_id)).

Definition applied_message (t : MachineTopology.t) : string :=
  "shoes configuration applied: topology revision=" +:+ to_dec (MachineTopology.revision t)
  +:+ ", nodes=" +:+ to_dec (Z.of_nat (length (MachineTopology.nodes t)))
  +:+ ", users=" +:+ to_dec (Z.of_nat (topology_user_count t)).

Definition apply (t : MachineTopology.t) : method string :=
  let t := default_machine machine_id t in
  _ ← on_runtime (rt_apply t);
  _ ← publish_and_close_stale_users t;
  warnings ← gets (fun s => rt_warnings (runtime s));
  mret (append_warning_summary (applied_message t) warnings).

Definition close_explicitly_requested_users (mutations : list Pb.UserMutation.t) : method unit :=
  for_in mutations (fun mutation =>
    if negb (Pb.UserMutation.kick_existing_connections mutation) then mret tt
    else
      match Pb.UserMutation.user mutation with
      | None => mret tt
      | Some user =>
          let node_id := Pb.UserMutation.node_id mutation in
          let user_id := Pb.UserCredential.user_id user in
          if is_empty node_id || is_empty user_id then mret tt
          else
            current ← gets topology;
            if topology_authorizes_user current node_id user_id then close_user node_id user_id
            else mret tt
      end).

Definition apply_initial (cancellation : session) (t : MachineTopology.t) : method string :=
  _ ← begin_operation cancellation;
  _ ← guard_authoritative_revision (MachineTopology.revision t);
  apply t.

(** The compare-and-swap of a panel fetch. *)
Definition guard_token (expected : Z) (message : Z -> string) : method unit :=
  current ← gets publication_token;
  if current =? expected then mret tt
  else raise (TopologyError.new StaleRevision (message current)).

Definition apply_authoritative_if_unchanged (cancellation : session) (t : MachineTopology.t)
    (expected : Z) : method string :=
  _ ← begin_operation cancellation;
  _ ← guard_authoritative_revision (MachineTopology.revision t);
  _ ← guard_token expected (fun current =>
        "authoritative topology changed during fetch: expected_generation=" +:+ to_dec expected
        +:+ " current_generation=" +:+ to_dec current);
  apply t.

Definition apply_snapshot (cancellation : session) (snapshot : option Pb.TopologySnapshot.t)
    : method string :=
  _ ← begin_operation cancellation;
  snapshot ← lift (ok_or (invalid_mutation "topology_snapshot payload is required") snapshot);
  _ ← guard_revision (Pb.TopologySnapshot.revision snapshot);
  apply (from_snapshot machine_id (Some snapshot)).

(** The candidate of a delta: node mutations, then user mutations, in order. *)
Fixpoint apply_user_mutations (mutations : list Pb.UserMutation.t) (next : MachineTopology.t)
    : result TopologyError.t MachineTopology.t :=
  match mutations with
  | [] => Ok next
  | mutation :: mutations =>
      next ← Mutation.apply_user_mutation next mutation;
      apply_user_mutations mutations (apply_user_mutation_to_snapshot next mutation)
  end.

Definition delta_candidate (current : MachineTopology.t) (delta : Pb.TopologyDelta.t)
    : result TopologyError.t MachineTopology.t :=
  let next := default_machine machine_id current in
  let next := foldl (fun next mutation =>
                apply_node_mutation_to_snapshot (apply_node_mutation next mutation) mutation)
                next (Pb.TopologyDelta.node_mutations delta) in
  next ← apply_user_mutations (Pb.TopologyDelta.user_mutations delta) next;
  Ok (set_revisions (Pb.TopologyDelta.target_revision delta) next).

Definition apply_delta (cancellation : session) (delta : option Pb.TopologyDelta.t) : method string :=
  _ ← begin_operation cancellation;
  delta ← lift (ok_or (invalid_mutation "topology_delta payload is required") delta);
  _ ← guard_revision_fence (Pb.TopologyDelta.base_revision delta) (Pb.TopologyDelta.target_revision delta);
  current ← gets topology;
  next ← lift (delta_candidate current delta);
  message ← apply next;
  _ ← close_explicitly_requested_users (Pb.TopologyDelta.user_mutations delta);
  mret message.

Definition route_candidate (current : MachineTopology.t) (patch : Pb.TopologyRoutePatch.t)
    : MachineTopology.t :=
  let next := default_machine machine_id current in
  let next := if is_empty (Pb.TopologyRoutePatch.machine_id patch) then next
              else MT.set_machine_id (Pb.TopologyRoutePatch.machine_id patch) next in
  let next := MT.set_outbounds (List.map of_pb_Outbound (Pb.TopologyRoutePatch.outbounds patch)) next in
  let next := MT.set_route (option_map of_pb_Route (Pb.TopologyRoutePatch.route patch)) next in
  let next := MT.set_dns (option_map of_pb_Dns (Pb.TopologyRoutePatch.dns patch)) next in
  let next := apply_route_patch_to_snapshot next patch in
  MT.set_revision (Pb.TopologyRoutePatch.revision patch) next.

Definition apply_route_patch (cancellation : session) (patch : option Pb.TopologyRoutePatch.t)
    (base_revision : Z) : method string :=
  _ ← begin_operation cancellation;
  patch ← lift (ok_or (invalid_mutation "topology_route_patch payload is required") patch);
  _ ← guard_revision_fence base_revision (Pb.TopologyRoutePatch.revision patch);
  current ← gets topology;
  apply (route_candidate current patch).

Definition user_candidate (current : MachineTopology.t) (mutation : Pb.UserMutation.t)
    : result TopologyError.t MachineTopology.t :=
  next ← Mutation.apply_user_mutation (default_machine machine_id current) mutation;
  Ok (set_revisions (Pb.UserMutation.revision mutation) (apply_user_mutation_to_snapshot next mutation)).

Definition apply_user_mutation (cancellation : session) (mutation : option Pb.UserMutation.t)
    (base_revision : Z) : method string :=
  _ ← begin_operation cancellation;
  mutation ← lift (ok_or (invalid_mutation "user_mutation payload is required") mutation);
  _ ← guard_revision_fence base_revision (Pb.UserMutation.revision mutation);
  current ← gets topology;
  next ← lift (user_candidate current mutation);
  message ← apply next;
  _ ← close_explicitly_requested_users [mutation];
  mret message.

(** ** Refreshing the users of one node *)

(** The check that the users have not changed under the fetch. *)
Definition guard_expected_users (node_id : string) (expected : option (list UserCredential.t))
    (current_users : list UserCredential.t) : result TopologyError.t unit :=
  match expected with
  | None => Ok tt
  | Some expected =>
      changes ← compare_node_users expected current_users;
      if UserRefreshChanges.unchanged changes then Ok tt
      else Err (TopologyError.new UsersChangedDuringRefresh
                  ("node users changed during refresh: node=" +:+ node_id))
  end.

(** A refresh that changes no user only advances the revision. *)
Definition advance_revision (target : Z) : method unit :=
  modify (fun s =>
    if (0 <? target) && (MachineTopology.revision (topology s) <? target)
    then set_published (set_revisions target (topology s)) (wrapping_add64 (generation s) 1) s
    else s).

Definition refresh_candidate (current : MachineTopology.t) (node_id : string)
    (users : list UserCredential.t) (target : Z) : MachineTopology.t :=
  let next := if MachineTopology.revision current <? target then set_revisions target current
              else current in
  let next := replace_node_users next node_id users in
  MT.set_nodes (update_first (node_is node_id) (node_set_users users) (MachineTopology.nodes next)) next.

Definition refresh_owned (cancellation : session) (request : UserRefreshRequest.t)
    : method UserRefreshChanges.t :=
  let node_id := UserRefreshRequest.node_id request in
  let users := UserRefreshRequest.users request in
  let target := refresh_target (UserRefreshRequest.revision request) in
  _ ← begin_operation cancellation;
  _ ← if is_empty node_id then raise (invalid_mutation "user refresh requires node_id") else mret tt;
  _ ← match UserRefreshRequest.revision request with
      | Fence base target => guard_revision_fence base target
      | NoRevision | AdvanceTo _ => mret tt
      end;
  current ← gets topology;
  node ← lift (ok_or (invalid_mutation ("node " +:+ node_id +:+ " not found for user refresh"))
                (find_first (node_is node_id) (MachineTopology.nodes current)));
  _ ← lift (guard_expected_users node_id (UserRefreshRequest.expected_current request)
              (NodeInstance.users node));
  changes ← lift (compare_node_users (NodeInstance.users node) users);
  if UserRefreshChanges.unchanged changes
  then _ ← advance_revision target; mret changes
  else
    _ ← (fun s =>
           let '(s, res) := apply (refresh_candidate current node_id users target) s in
           (s, map_err (fun error => TopologyError.set_message
                 ("apply refreshed users for node " +:+ node_id +:+ ": " +:+ TopologyError.message error)
                 error) res));
    mret (UserRefreshChanges.set_applied true changes).

Definition refresh_node_users (cancellation : session) (node_id : string)
    (users : list UserCredential.t) : method UserRefreshChanges.t :=
  refresh_owned cancellation (UserRefreshRequest.mk node_id users None NoRevision).

Definition refresh_node_users_if_current_at_revision (cancellation : session) (node_id : string)
    (users expected_current : list UserCredential.t) (target_revision : Z)
    : method UserRefreshChanges.t :=
  refresh_owned cancellation
    (UserRefreshRequest.mk node_id users (Some expected_current) (AdvanceTo target_revision)).

Definition refresh_node_users_if_current_at_revision_fence (cancellation : session)
    (node_id : string) (users expected_current : list UserCredential.t)
    (base_revision target_revision : Z) : method UserRefreshChanges.t :=
  refresh_owned cancellation
    (UserRefreshRequest.mk node_id users (Some expected_current) (Fence base_revision target_revision)).

(** A page of the published users: [offset] is a [u64], [limit] a [usize]. *)
Definition loaded_users_page (node_id : string) (offset limit : Z)
    : method (Z * list UserCredential.t) :=
  _ ← ensure_operations_running;
  current ← gets topology;
  match find_first (node_is node_id) (MachineTopology.nodes current) with
  | None => raise (invalid_mutation ("node " +:+ node_id +:+ " not found in loaded topology"))
  | Some node =>
      let total := Z.of_nat (length (NodeInstance.users node)) in
      let start := Z.min offset total in
      let finish := Z.min (sat u64_max (start + limit)) total in
      mret (total, take (Z.to_nat (finish - start)) (drop (Z.to_nat start) (NodeInstance.users node)))
  end.

Definition loaded_users (node_id : string) : method (list UserCredential.t) :=
  page ← loaded_users_page node_id 0 u64_max; mret page.2.

(** ** Forced reload *)

Abbreviation reload_method := (stm manager TopologyReloadResult.t).

(** [if let Err(error) = .. { return reload_failure(stage, error) }] *)
Definition at_stage {A} (stage : ReloadStage) (m : method A) : reload_method A := fun s =>
  let '(s, res) := m s in (s, map_err (reload_failure stage) res).

(** Before the fetch: the baseline token. *)
Definition reload_begin : reload_method Z :=
  _ ← at_stage PullConfiguration ensure_operations_running;
  gets publication_token.

Definition no_instance : TopologyReloadResult.t :=
  failed_result FailedStopped StartInstance
    "forced reload completed without a running shoes instance".

(** After the fetch: fences, preparation, the reload itself and publication. *)
Definition reload_commit (cancellation : session) (baseline : Z) (candidate : MachineTopology.t)
    : reload_method TopologyReloadResult.t :=
  let candidate := default_machine machine_id candidate in
  _ ← at_stage BuildConfiguration (begin_operation cancellation);
  _ ← at_stage BuildConfiguration (guard_token baseline (fun _ =>
        "topology changed while fetching reload configuration; retry reload"));
  _ ← at_stage BuildConfiguration
        (guard_authoritative_revision (MachineTopology.revision candidate));
  prepared ← at_stage BuildConfiguration (on_runtime (rt_prepare_reload candidate));
  _ ← at_stage ConfigurePortHopping (on_runtime (rt_configure_reload candidate));
  status ← at_stage StartInstance (on_runtime (rt_reload_prepared candidate prepared));
  if negb (ReloadStatus.running status) then raise no_instance
  else
    _ ← publish_and_close_stale_users candidate;
    r ← gets runtime;
    mret {|
      TopologyReloadResult.outcome := Succeeded;
      TopologyReloadResult.stage := Completed;
      TopologyReloadResult.message := append_warning_summary
        "shoes reloaded with fresh panel configuration and users" (rt_warnings r);
      TopologyReloadResult.topology_revision := MachineTopology.revision candidate;
      TopologyReloadResult.config_sha256 := Hex.encode (sha256 (rt_current_config r));
      TopologyReloadResult.loaded_user_count := topology_user_count candidate
    |}.

Definition reload_end (cancellation : session) (baseline : Z) (fetched : fetch)
    : reload_method TopologyReloadResult.t :=
  match fetched with
  | FetchCancelled stage => raise (reload_failure stage stopped_error)
  | FetchFailed stage error =>
      raise (failed_result FailedUnchanged stage ("reload data from panel: " +:+ error))
  | Fetched candidate => reload_commit cancellation baseline candidate
  end.

(** ** Schedules *)

(** One atomic step of some caller; a fetch carries the token captured when it
    began. *)
Inductive manager_op : Type :=
  | OpInitial (cancellation : session) (t : MachineTopology.t)
  | OpAuthoritative (cancellation : session) (t : MachineTopology.t) (expected : Z)
  | OpSnapshot (cancellation : session) (snapshot : option Pb.TopologySnapshot.t)
  | OpDelta (cancellation : session) (delta : option Pb.TopologyDelta.t)
  | OpRoutePatch (cancellation : session) (patch : option Pb.TopologyRoutePatch.t) (base : Z)
  | OpUser (cancellation : session) (mutation : option Pb.UserMutation.t) (base : Z)
  | OpRefresh (cancellation : session) (request : UserRefreshRequest.t)
  | OpReload (cancellation : session) (baseline : Z) (fetched : fetch)
  | OpReconcile (cancellation : session)
  | OpCancelSession (n : nat)
  | OpStop
  | OpClose.

(** The state after an operation and whether it succeeded. *)
Definition ran {E A} (out : manager * result E A) : manager * bool := (out.1, is_ok out.2).

Definition manager_step (op : manager_op) s : manager * bool :=
  match op with
  | OpInitial c t => ran (apply_initial c t s)
  | OpAuthoritative c t expected => ran (apply_authoritative_if_unchanged c t expected s)
  | OpSnapshot c snapshot => ran (apply_snapshot c snapshot s)
  | OpDelta c delta => ran (apply_delta c delta s)
  | OpRoutePatch c patch base => ran (apply_route_patch c patch base s)
  | OpUser c mutation base => ran (apply_user_mutation c mutation base s)
  | OpRefresh c request => ran (refresh_owned c request s)
  | OpReload c baseline fetched => ran (reload_end c baseline fetched s)
  | OpReconcile c => ran (reconcile_current c s)
  | OpCancelSession n => (cancel_session n s, true)
  | OpStop => (stop_operations s, true)
  | OpClose => ran (close s)
  end.

Fixpoint manager_run (ops : list manager_op) s : manager :=
  match ops with
  | [] => s
  | op :: ops => manager_run ops (manager_step op s).1
  end.
End manager.

(** ** Reasoning about methods *)

(** Chaining two effects, field by field. *)
Ltac chain := solve [
  congruence | auto
  | intros ?; match goal with
    | H1 : is_Some ?a -> ?b = ?a, H2 : is_Some ?b -> ?c = ?b |- ?c = ?a =>
        rewrite H2; [by apply H1|by rewrite H1]
    end
  | set_solver ].

Section theory.
Context {R Cfg : Type} `{!TopologyRuntime R Cfg} `{!TopologyRuntimeLaws R Cfg}.
Context (machine_id : string).

Local Abbreviation manager := (manager R).
Local Abbreviation method := (stm manager TopologyError.t).
Implicit Types s : manager.

Lemma pure_ensure : pure (S := manager) ensure_operations_running.
Proof. intros s. unfold ensure_operations_running, mbind, stm_bind, get. cbn. by destruct (operations_cancelled s). Qed.

Lemma pure_begin c : pure (S := manager) (begin_operation c).
Proof.
  intros s. unfold begin_operation. rewrite bind_pure by apply pure_ensure.
  destruct (ensure_operations_running s).2; [|done]. unfold mbind, stm_bind, get. cbn.
  by destruct (session_cancelled c s).
Qed.

Lemma pure_authoritative z : pure (S := manager) (guard_authoritative_revision z).
Proof. intros s. unfold guard_authoritative_revision, mbind, stm_bind, gets. by destruct (_ || _). Qed.

Lemma pure_revision z : pure (S := manager) (guard_revision z).
Proof.
  intros s. unfold guard_revision. destruct (z =? 0); [done|].
  unfold mbind, stm_bind, gets. by destruct (_ <? _).
Qed.

Lemma pure_fence b t : pure (S := manager) (guard_revision_fence b t).
Proof.
  intros s. unfold guard_revision_fence. destruct (_ || _); [done|].
  unfold mbind, stm_bind, gets. destruct (negb _); [done|]. by destruct (_ <? _).
Qed.

Lemma pure_token t f : pure (S := manager) (guard_token t f).
Proof. intros s. unfold guard_token, mbind, stm_bind, gets. by destruct (_ =? _). Qed.

Lemma pure_stage {A} stage (m : method A) : pure m -> pure (at_stage stage m).
Proof. intros H s. specialize (H s). unfold at_stage. by destruct (m s). Qed.
Hint Resolve pure_ensure pure_begin pure_lift pure_gets pure_authoritative pure_revision pure_fence
  pure_token pure_stage : node.

(** What a passed check says. *)
Lemma begin_Ok c s :
  (begin_operation c s).2 = Ok tt <->
  operations_cancelled s = false /\ session_cancelled c s = false.
Proof.
  unfold begin_operation, ensure_operations_running, mbind, stm_bind, get. cbn.
  destruct (operations_cancelled s); cbn; [naive_solver|].
  destruct (session_cancelled c s); cbn; naive_solver.
Qed.

Lemma fence_Ok b t s :
  (guard_revision_fence b t s).2 = Ok tt <->
  b <> 0 /\ b = MachineTopology.revision (topology s) /\ b <= t /\ t <> 0.
Proof.
  unfold guard_revision_fence. destruct (Z.eqb_spec b 0), (Z.eqb_spec t 0); cbn; try naive_solver lia.
  unfold mbind, stm_bind, gets. cbn. destruct (Z.eqb_spec b (MachineTopology.revision (topology s))); cbn;
    [|naive_solver]. destruct (Z.ltb_spec t b); cbn; naive_solver lia.
Qed.

Lemma revision_Ok z s :
  (guard_revision z s).2 = Ok tt <-> z <> 0 /\ MachineTopology.revision (topology s) <= z.
Proof.
  unfold guard_revision. destruct (Z.eqb_spec z 0); cbn; [naive_solver|].
  unfold mbind, stm_bind, gets. cbn. destruct (Z.ltb_spec z (MachineTopology.revision (topology s))); cbn; naive_solver lia.
Qed.

Lemma authoritative_Ok z s :
  (guard_authoritative_revision z s).2 = Ok tt <->
  MachineTopology.machine_id (topology s) = "" \/ MachineTopology.revision (topology s) = 0 \/
  MachineTopology.revision (topology s) <= z.
Proof.
  unfold guard_authoritative_revision, mbind, stm_bind, gets. cbn.
  destruct (is_empty _) eqn:E; cbn; [apply is_empty_spec in E; naive_solver|].
  apply is_empty_false in E. destruct (Z.eqb_spec (MachineTopology.revision (topology s)) 0); cbn; [naive_solver|].
  destruct (Z.leb_spec (MachineTopology.revision (topology s)) z); cbn; naive_solver lia.
Qed.

Lemma token_Ok t f s : (guard_token t f s).2 = Ok tt <-> generation s = t.
Proof.
  unfold guard_token, mbind, stm_bind, gets, publication_token. cbn.
  destruct (Z.eqb_spec (generation s) t); cbn; naive_solver.
Qed.

(** ** What an operation does to the published topology *)

(** Nothing is published, and the data plane still holds what it held. *)
Record quiet s s' : Prop := {
  quiet_topology : topology s' = topology s;
  quiet_generation : generation s' = generation s;
  quiet_active : rt_active (runtime s') = rt_active (runtime s);
  quiet_cancelled : operations_cancelled s = true -> operations_cancelled s' = true;
  quiet_sessions : cancelled_sessions s ⊆ cancelled_sessions s';
  quiet_closed : is_Some (close_result s) -> close_result s' = close_result s
}.

Lemma quiet_refl s : quiet s s.
Proof. by split. Qed.

Lemma quiet_trans s1 s2 s3 : quiet s1 s2 -> quiet s2 s3 -> quiet s1 s3.
Proof. intros [] []. split; chain. Qed.

Lemma quiet_runtime r s : rt_active r = rt_active (runtime s) -> quiet s (set_runtime r s).
Proof. by split. Qed.
Hint Resolve quiet_refl quiet_trans quiet_runtime : node.

(** [t] is published, and is what the data plane holds up to [active]. *)
Record publishes (t active : MachineTopology.t) s s' : Prop := {
  pub_topology : topology s' = t;
  pub_generation : generation s' = wrapping_add64 (generation s) 1;
  pub_active : rt_active (runtime s') = active;
  pub_cancelled : operations_cancelled s = true -> operations_cancelled s' = true;
  pub_sessions : cancelled_sessions s ⊆ cancelled_sessions s';
  pub_closed : is_Some (close_result s) -> close_result s' = close_result s
}.

Lemma publishes_quiet t a s s1 s2 : publishes t a s s1 -> quiet s1 s2 -> publishes t a s s2.
Proof. intros [] []. split; chain. Qed.

(** A method that only talks to the data plane, and always answers. *)
Definition talks {E A} (m : stm manager E A) : Prop :=
  forall s, exists s' a, m s = (s', Ok a) /\ quiet s s'.

Lemma talks_ret {E A} (a : A) : talks (mret a : stm manager E A).
Proof. intros s. exists s, a. by split; [|apply quiet_refl]. Qed.

Lemma talks_bind {E A B} (m : stm manager E A) (f : A -> stm manager E B) :
  talks m -> (forall a, talks (f a)) -> talks (m ≫= f).
Proof.
  intros Hm Hf s. destruct (Hm s) as (s1 & a & E1 & Q1). destruct (Hf a s1) as (s2 & b & E2 & Q2).
  exists s2, b. rewrite (stm_bind_eq _ _ _ _ _ E1). eauto with node.
Qed.

Lemma talks_for {E A} (l : list A) (body : A -> stm manager E unit) :
  (forall x, talks (body x)) -> talks (for_in l body).
Proof. intros H. induction l; cbn; [apply talks_ret|by apply talks_bind]. Qed.

Lemma talks_close_user {E} n u : talks (close_user (E := E) n u).
Proof. intros s. eexists _, _. split; [done|]. apply quiet_runtime, active_close_user. Qed.

Lemma talks_gets {E A} (f : manager -> A) : talks (gets (E := E) f).
Proof. intros s. eexists _, _. split; [done|]. apply quiet_refl. Qed.
Hint Resolve talks_ret talks_close_user talks_for talks_gets : node.

Lemma talks_explicit ms : talks (close_explicitly_requested_users ms).
Proof.
  apply talks_for. intros m. cbn zeta beta. destruct (negb (Pb.UserMutation.kick_existing_connections m)); [apply talks_ret|].
  destruct (Pb.UserMutation.user m) as [u|]; [|apply talks_ret].
  destruct (is_empty (Pb.UserMutation.node_id m) || is_empty (Pb.UserCredential.user_id u)); [apply talks_ret|].
  apply talks_bind; [apply talks_gets|].
  intros t. destruct (topology_authorizes_user _ _ _); auto with node.
Qed.

Lemma publish_stale_spec {E} t s :
  exists s', publish_and_close_stale_users (E := E) t s = (s', Ok tt) /\
    publishes t (rt_active (runtime s)) s s'.
Proof.
  unfold publish_and_close_stale_users. rewrite bind_pure by apply pure_gets. cbn [gets snd].
  unfold publish. rewrite bind_modify.
  destruct (talks_for (E := E) (btree_iter (stale_credential_topology_users (topology s) t))
    (fun '(node_id, user_ids) => for_in user_ids (close_user node_id))
    ltac:(intros []; auto with node) (set_published t (wrapping_add64 (generation s) 1) s))
    as (s' & [] & E1 & Q). exists s'. split; [exact E1|].
  eapply publishes_quiet; [|exact Q]. by split.
Qed.

Abbreviation filled t := (default_machine machine_id t).

Lemma apply_cases t s :
  (exists s' e, apply machine_id t s = (s', Err e) /\ quiet s s') \/
  (exists s' m, apply machine_id t s = (s', Ok m) /\ publishes (filled t) (filled t) s s').
Proof.
  unfold apply. destruct (rt_apply (filled t) (runtime s)) as [r [[]|e]] eqn:Er.
  - right. assert (on_runtime (rt_apply (filled t)) s = (set_runtime r s, Ok tt)) as E1.
    { unfold on_runtime. by rewrite Er. }
    rewrite (stm_bind_eq _ _ _ _ _ E1).
    destruct (publish_stale_spec (E := TopologyError.t) (filled t) (set_runtime r s)) as (s2 & E2 & P).
    rewrite (stm_bind_eq _ _ _ _ _ E2). eexists s2, _. split; [done|].
    destruct P. split; try done. pose proof (active_apply _ _ _ _ Er). cbn in *. congruence.
  - left. eexists _, e. split; [unfold mbind, stm_bind, on_runtime; by rewrite Er|].
    apply quiet_runtime. by apply (active_apply _ _ _ _ Er).
Qed.

(** The common end of the mutating operations. *)
Definition applied (t : MachineTopology.t) (mutations : list Pb.UserMutation.t) : method string :=
  message ← apply machine_id t;
  _ ← close_explicitly_requested_users mutations;
  mret message.

Lemma applied_nil t s : applied t [] s = apply machine_id t s.
Proof. unfold applied, mbind, stm_bind. destruct (apply machine_id t s) as [s1 [m|e]]; done. Qed.

Lemma applied_cases t ms s :
  (exists s' e, applied t ms s = (s', Err e) /\ quiet s s') \/
  (exists s' m, applied t ms s = (s', Ok m) /\ publishes (filled t) (filled t) s s').
Proof.
  unfold applied. destruct (apply_cases t s) as [(s1 & e & E & Q)|(s1 & m & E & P)].
  - left. exists s1, e. by rewrite (stm_bind_Err _ _ _ _ _ E).
  - right. rewrite (stm_bind_eq _ _ _ _ _ E). destruct (talks_explicit ms s1) as (s2 & [] & E2 & Q).
    rewrite (stm_bind_eq _ _ _ _ _ E2). eexists s2, m. split; [done|]. by eapply publishes_quiet.
Qed.
End theory.
