(* ===== verification/ManagerSpec.v ===== *)
(** * What the topology manager guarantees

    Over any schedule of the operations of [Manager], against any data plane that
    keeps its [TopologyRuntimeLaws]. *)

From Stdlib Require Import ZArith Lia.
From S2P Require Import Prelude Bytes Hex Wire Topology Convert Digest Mutation Manager.

Open Scope Z_scope.

#[local] Hint Resolve pure_ensure pure_begin pure_lift pure_gets pure_authoritative pure_revision
  pure_fence pure_token pure_stage quiet_refl quiet_trans quiet_runtime : node.

(** ** Candidates *)

Lemma default_machine_coherent d t : coherent t -> coherent (default_machine d t).
Proof.
  unfold default_machine. intros H. destruct (is_empty _) eqn:E; [|done].
  apply coherent_set_machine_id; [done|by apply is_empty_spec].
Qed.

Lemma default_machine_revision d t :
  MachineTopology.revision (default_machine d t) = MachineTopology.revision t.
Proof. unfold default_machine. by destruct (is_empty _). Qed.

Lemma default_machine_named d t :
  d <> "" -> MachineTopology.machine_id (default_machine d t) <> "".
Proof.
  unfold default_machine. intros H. destruct (is_empty _) eqn:E; [done|]. by apply is_empty_false in E.
Qed.

Lemma set_revisions_revision r t : MachineTopology.revision (set_revisions r t) = r.
Proof. by destruct t as [? ? ? ? ? ? []]. Qed.

Lemma apply_user_mutations_coherent ms t t' :
  apply_user_mutations ms t = Ok t' -> coherent t -> coherent t'.
Proof.
  revert t. induction ms as [|m ms IH]; intros t; [by intros [= <-]|].
  cbn. rewrite bind_Ok. intros (t1 & E1 & E2) H. eapply IH; [exact E2|]. by eapply user_mutation_coherent.
Qed.

Section spec.
Context {R Cfg : Type} `{!TopologyRuntime R Cfg} `{!TopologyRuntimeLaws R Cfg}.
Context (machine_id : string) (sha256 : string -> string).

Local Abbreviation manager := (manager R).
Local Abbreviation manager_step := (manager_step machine_id sha256).
Local Abbreviation manager_run := (manager_run machine_id sha256).
Local Abbreviation filled t := (default_machine machine_id t).
Implicit Types s : manager.

Lemma delta_candidate_Ok t d t' :
  delta_candidate machine_id t d = Ok t' -> coherent t ->
  coherent t' /\ MachineTopology.revision t' = Pb.TopologyDelta.target_revision d.
Proof.
  unfold delta_candidate. rewrite bind_Ok. intros (t1 & E & Heq) H. injection Heq as <-. split; [|by rewrite set_revisions_revision].
  apply set_revisions_coherent. eapply apply_user_mutations_coherent; [exact E|]. clear E.
  assert (coherent (filled t)) as H0 by by apply default_machine_coherent.
  revert H0. generalize (filled t). induction (Pb.TopologyDelta.node_mutations d) as [|m ms IH]; cbn; [done|].
  intros t0 H0. apply IH. by apply node_mutation_coherent.
Qed.

Lemma user_candidate_Ok t m t' :
  user_candidate machine_id t m = Ok t' -> coherent t ->
  coherent t' /\ MachineTopology.revision t' = Pb.UserMutation.revision m.
Proof.
  unfold user_candidate. rewrite bind_Ok. intros (t1 & E & Heq) H. injection Heq as <-.
  split; [|by rewrite set_revisions_revision]. apply set_revisions_coherent.
  eapply user_mutation_coherent; [exact E|]. by apply default_machine_coherent.
Qed.

Lemma route_candidate_ok t p :
  coherent t ->
  coherent (route_candidate machine_id t p) /\
  MachineTopology.revision (route_candidate machine_id t p) = Pb.TopologyRoutePatch.revision p.
Proof.
  intros H%(default_machine_coherent machine_id). unfold route_candidate. split; [|done].
  revert H. generalize (filled t). intros [mid r ns os rt d sn] H.
  destruct (is_empty (Pb.TopologyRoutePatch.machine_id p)) eqn:E; (destruct sn as [sn|]; [|by apply coherent_None]);
    destruct (H sn eq_refl); intros sn' Hsn; cbn in Hsn; rewrite E in Hsn; injection Hsn as <-;
    split; cbn in *; auto.
Qed.

Lemma refresh_candidate_ok t id users target :
  coherent t -> Forall status_canonical users ->
  coherent (refresh_candidate t id users target) /\
  MachineTopology.revision (refresh_candidate t id users target) = Z.max (MachineTopology.revision t) target.
Proof.
  intros H Hc. unfold refresh_candidate.
  set (next := if MachineTopology.revision t <? target then set_revisions target t else t).
  assert (coherent next /\ MachineTopology.revision next = Z.max (MachineTopology.revision t) target) as [Hn Hr].
  { unfold next. destruct (Z.ltb_spec (MachineTopology.revision t) target).
    - split; [by apply set_revisions_coherent|]. rewrite set_revisions_revision. lia.
    - split; [done|lia]. }
  assert (MachineTopology.nodes (replace_node_users next id users) = MachineTopology.nodes next) as ->.
  { unfold replace_node_users, with_snapshot. by destruct next as [? ? ? ? ? ? []]. }
  split; [by apply replace_users_coherent|]. rewrite <- Hr.
  unfold replace_node_users, with_snapshot. by destruct next as [? ? ? ? ? ? []].
Qed.

(** ** One step *)

(** Equal up to the panel's revision number. *)
Definition same_but_revision (t1 t2 : MachineTopology.t) : Prop := set_revisions 0 t1 = set_revisions 0 t2.

Record state_ok s : Prop := {
  ok_coherent : coherent (topology s);
  ok_generation : is_u64 (generation s);
  ok_revision : 0 <= MachineTopology.revision (topology s);
  ok_blank : MachineTopology.machine_id (topology s) = "" -> topology s = MT.default;
  ok_active : same_but_revision (topology s) (rt_active (runtime s))
}.

(** What the panel session hands to an operation: revisions are unsigned, a full
    topology comes from [from_machine_config] or [from_snapshot], users come from
    the wire. *)
Definition topology_ok (t : MachineTopology.t) : Prop := coherent t /\ 0 <= MachineTopology.revision t.

Definition op_ok (op : manager_op) : Prop :=
  match op with
  | OpInitial _ t | OpAuthoritative _ t _ | OpReload _ _ (Fetched t) => topology_ok t
  | OpSnapshot _ (Some snapshot) => 0 <= Pb.TopologySnapshot.revision snapshot
  | OpRefresh _ request => Forall status_canonical (UserRefreshRequest.users request)
  | _ => True
  end.

(** An operation either publishes nothing, or succeeds and publishes one
    acceptable topology; a reconciliation republishes the current one to the
    data plane. *)
Inductive attempt s : manager * bool -> Prop :=
  | attempt_quiet s' b : quiet s s' -> attempt s (s', b)
  | attempt_publish s' t active :
      publishes t active s s' -> coherent t ->
      MachineTopology.revision (topology s) <= MachineTopology.revision t ->
      (machine_id <> "" -> MachineTopology.machine_id t <> "") ->
      same_but_revision t active ->
      attempt s (s', true)
  | attempt_reconcile s' :
      quiet s (set_runtime (runtime s) s') -> rt_active (runtime s') = topology s -> attempt s (s', true).

Definition candidate_ok s (t : MachineTopology.t) : Prop :=
  coherent t /\ MachineTopology.revision (topology s) <= MachineTopology.revision t.

Lemma attempt_filled s s' t :
  candidate_ok s t -> publishes (filled t) (filled t) s s' -> attempt s (s', true).
Proof.
  intros [Hc Hr] P. eapply attempt_publish; [exact P|by apply default_machine_coherent| | |done].
  - by rewrite default_machine_revision.
  - apply default_machine_named.
Qed.

Lemma attempt_applied s t ms : candidate_ok s t -> attempt s (ran (applied machine_id t ms s)).
Proof.
  intros H. destruct (applied_cases machine_id t ms s) as [(s' & e & E & Q)|(s' & m & E & P)]; rewrite E.
  - by apply attempt_quiet.
  - by eapply attempt_filled.
Qed.

Lemma attempt_apply s t : candidate_ok s t -> attempt s (ran (apply machine_id t s)).
Proof. rewrite <- applied_nil. apply attempt_applied. Qed.

Lemma attempt_bind {E A B} (m : stm manager E A) (f : A -> stm manager E B) s :
  pure m -> (forall a, (m s).2 = Ok a -> attempt s (ran (f a s))) -> attempt s (ran ((m ≫= f) s)).
Proof.
  intros Hp H. rewrite bind_pure by done. destruct (m s).2 as [a|e]; [by apply H|].
  apply attempt_quiet, quiet_refl.
Qed.

(** Run the checks of an operation one by one. *)
Ltac checks := repeat (apply attempt_bind; [by auto with node|intros []]).

Lemma attempt_after s s1 out : quiet s s1 -> attempt s1 out -> attempt s out.
Proof.
  intros Q [s' b Q'|s' t a P Hc Hr Hm Ha|s' Q' Ha].
  - apply attempt_quiet. by eapply quiet_trans.
  - eapply attempt_publish; [|exact Hc| |exact Hm|exact Ha]; destruct P, Q.
    + split; chain.
    + congruence.
  - apply attempt_reconcile; [|destruct Q; congruence]. destruct Q, Q'. cbn in *.
    split; cbn; chain.
Qed.

(** A step that only prepares the data plane. *)
Lemma attempt_prepare {A B} stage (m : stm R TopologyError.t A) (f : A -> stm manager TopologyReloadResult.t B) s :
  rt_active (m (runtime s)).1 = rt_active (runtime s) ->
  (forall s1 a, topology s1 = topology s -> generation s1 = generation s -> attempt s1 (ran (f a s1))) ->
  attempt s (ran ((at_stage stage (on_runtime m) ≫= f) s)).
Proof.
  intros Ha Hf. unfold at_stage, on_runtime. unfold mbind, stm_bind.
  destruct (m (runtime s)) as [r [a|e]]; cbn in *.
  - eapply attempt_after; [by apply quiet_runtime|]. by apply Hf.
  - by apply attempt_quiet, quiet_runtime.
Qed.

Lemma attempt_stage {A B} stage (m : stm manager TopologyError.t A)
    (f : A -> stm manager TopologyReloadResult.t B) s :
  pure m -> (forall a, (m s).2 = Ok a -> attempt s (ran (f a s))) ->
  attempt s (ran ((at_stage stage m ≫= f) s)).
Proof.
  intros Hp H. apply attempt_bind; [by apply pure_stage|].
  intros a Ha. apply H. unfold at_stage in Ha.
  destruct (m s) as [s1 [b|e]]; cbn in *; congruence.
Qed.

Lemma authoritative_candidate c t s :
  state_ok s -> topology_ok t ->
  (guard_authoritative_revision (MachineTopology.revision t) s).2 = Ok c -> candidate_ok s t.
Proof.
  intros Hs [Hc Hr] H. destruct c. apply authoritative_Ok in H. split; [done|].
  destruct Hs as [_ _ H0 Hb _]. destruct H as [H|[H|H]]; [by rewrite (Hb H)|lia|done].
Qed.

Lemma lift_Ok {E A} (r : result E A) s a : (lift r s).2 = Ok a -> r = Ok a.
Proof. done. Qed.

Lemma reload_attempt c baseline t s :
  state_ok s -> topology_ok t -> attempt s (ran (reload_commit machine_id sha256 c baseline t s)).
Proof.
  intros Hs Ht. unfold reload_commit.
  do 2 (apply attempt_stage; [by auto with node|intros _ _]).
  apply attempt_stage; [by auto with node|]. rewrite default_machine_revision. intros u Hu.
  apply (authoritative_candidate u t s Hs Ht) in Hu as Hcand.
  apply attempt_prepare; [apply active_prepare|]. intros s1 prepared Ht1 Hg1.
  apply attempt_prepare; [apply active_configure|]. intros s2 [] Ht2 Hg2.
  unfold at_stage, on_runtime. unfold mbind at 1, stm_bind at 1.
  destruct (rt_reload_prepared _ _ (runtime s2)) as [r [status|e]] eqn:E; pose proof (active_reload _ _ _ _ _ E) as Ha.
  2:{ by apply attempt_quiet, quiet_runtime. }
  cbn [map_err]. cbn in Ha. destruct (ReloadStatus.running status); cbn [negb].
  2:{ by apply attempt_quiet, quiet_runtime. }
  destruct (publish_stale_spec (E := TopologyReloadResult.t) (filled t) (set_runtime r s2)) as (s3 & E3 & P).
  rewrite (stm_bind_eq _ _ _ _ _ E3). apply attempt_filled with (t := t).
  - destruct Hcand. split; [done|]. by rewrite Ht2, Ht1.
  - destruct P. split; try done. by transitivity (rt_active (runtime (set_runtime r s2))).
Qed.

Lemma same_but_revision_set r t a :
  same_but_revision t a -> same_but_revision (set_revisions r t) a.
Proof. unfold same_but_revision. intros <-. by destruct t as [? ? ? ? ? ? []]. Qed.

Lemma set_revisions_machine r t : MachineTopology.machine_id (set_revisions r t) = MachineTopology.machine_id t.
Proof. by destruct t as [? ? ? ? ? ? []]. Qed.

(** [map_err] on the error of a call changes neither the state nor the outcome. *)
Lemma attempt_map_err {E E' A B} (m : stm manager E A) (h : E -> E') (f : A -> stm manager E' B) s :
  attempt s (ran (m s)) -> (forall a, talks (f a)) ->
  attempt s (ran (((fun s => let '(s, r) := m s in (s, map_err h r)) ≫= f) s)).
Proof.
  intros H Hf. unfold mbind, stm_bind. destruct (m s) as [s1 [a|e]]; cbn in *.
  - destruct (Hf a s1) as (s2 & b & -> & Q). change (attempt s (s2, true)).
    inversion H as [? ? Q1|? t act P Hc Hr Hm Ha|? Q1 Ha]; subst.
    + apply attempt_quiet. by eapply quiet_trans.
    + eapply attempt_publish; [by eapply publishes_quiet|done..].
    + apply attempt_reconcile; [|destruct Q; congruence]. destruct Q, Q1. cbn in *.
      split; cbn; chain.
  - inversion H; subst. by apply attempt_quiet.
Qed.

Lemma refresh_attempt c request s :
  state_ok s -> Forall status_canonical (UserRefreshRequest.users request) ->
  attempt s (ran (refresh_owned machine_id c request s)).
Proof.
  intros Hs Hu. unfold refresh_owned. apply attempt_bind; [by auto with node|intros [] _].
  apply attempt_bind; [by destruct (is_empty _)|intros [] _].
  apply attempt_bind; [destruct (UserRefreshRequest.revision request); by auto with node|intros [] _].
  apply attempt_bind; [by auto with node|]. intros t Ht. injection Ht as <-.
  apply attempt_bind; [by auto with node|]. intros node Hnode.
  apply attempt_bind; [by auto with node|]. intros [] _.
  apply attempt_bind; [by auto with node|]. intros changes _.
  destruct (UserRefreshChanges.unchanged changes).
  - unfold advance_revision. rewrite bind_modify. set (target := refresh_target _).
    destruct (Z.ltb_spec 0 target), (Z.ltb_spec (MachineTopology.revision (topology s)) target); cbn [andb];
      try by apply attempt_quiet, quiet_refl.
    apply attempt_publish with (t := set_revisions target (topology s)) (active := rt_active (runtime s));
      [by split| | | |].
    + apply set_revisions_coherent, Hs.
    + rewrite set_revisions_revision. lia.
    + intros _. rewrite set_revisions_machine. intros E%(ok_blank s Hs). cbn in Hnode. by rewrite E in Hnode.
    + apply same_but_revision_set, Hs.
  - apply attempt_map_err; [|intros _; apply talks_ret]. apply attempt_apply.
    destruct (refresh_candidate_ok (topology s) (UserRefreshRequest.node_id request)
                (UserRefreshRequest.users request) (refresh_target (UserRefreshRequest.revision request))
                (ok_coherent s Hs) Hu) as [Hc Hr].
    split; [done|]. rewrite Hr. lia.
Qed.

(** The session an operation is admitted under; [None] for an operation that
    never reaches the published topology. *)
Definition op_session (op : manager_op) : option session :=
  match op with
  | OpInitial c _ | OpAuthoritative c _ _ | OpSnapshot c _ | OpDelta c _ | OpRoutePatch c _ _
  | OpUser c _ _ | OpRefresh c _ | OpReconcile c | OpReload c _ (Fetched _) => Some c
  | OpReload _ _ _ | OpCancelSession _ | OpStop | OpClose => None
  end.

Lemma control_quiet op s : op_session op = None -> quiet s (manager_step op s).1.
Proof.
  destruct op as [| | | | | | |c b [t|stage e|stage]|c|n| |]; try done; intros _; cbn [Manager.manager_step];
    try apply quiet_refl.
  - split; try done. cbn. set_solver.
  - split; try done. apply active_begin_close.
  - unfold close. change (close_result (stop_operations s)) with (close_result s).
    destruct (close_result s) as [res|] eqn:Ec.
    + split; try done. apply active_begin_close.
    + pose proof (active_close (runtime (stop_operations s))) as Ha.
      destruct (rt_close _) as [r res]. split; try done.
      * cbn in *. rewrite Ha. apply active_begin_close.
      * rewrite Ec. by intros [? [=]].
Qed.

Lemma attempt_control op s : op_session op = None -> attempt s (manager_step op s).
Proof. intros H%(control_quiet op s). destruct (manager_step op s). by apply attempt_quiet. Qed.

Lemma step_attempt op s :
  state_ok s -> op_ok op -> attempt s (manager_step op s).
Proof.
  intros Hs Hop. destruct (op_session op) as [c0|] eqn:Hsess; [|by apply attempt_control].
  destruct op as [c t|c t tok|c sn|c d|c p b|c m b|c req|c b [t|?|?]|c|n| |]; try done; clear Hsess c0;
    cbn [Manager.manager_step].
  - apply attempt_bind; [by auto with node|intros [] _]. apply attempt_bind; [by auto with node|].
    intros u Hu. by apply attempt_apply, (authoritative_candidate u).
  - apply attempt_bind; [by auto with node|intros [] _]. apply attempt_bind; [by auto with node|].
    intros u Hu. apply attempt_bind; [by auto with node|intros [] _].
    by apply attempt_apply, (authoritative_candidate u).
  - apply attempt_bind; [by auto with node|intros [] _]. apply attempt_bind; [by auto with node|].
    intros sn' Hsn. destruct sn as [sn0|]; [|done]. injection Hsn as ->.
    apply attempt_bind; [by auto with node|]. intros [] [_ Hr]%revision_Ok. apply attempt_apply.
    split; [apply coherent_from_snapshot|]. unfold from_snapshot. by rewrite default_machine_revision.
  - apply attempt_bind; [by auto with node|intros [] _]. apply attempt_bind; [by auto with node|].
    intros d' _. apply attempt_bind; [by auto with node|]. intros [] (_ & Hb' & Hle & _)%fence_Ok.
    apply attempt_bind; [by auto with node|]. intros t Ht. injection Ht as <-.
    apply attempt_bind; [by auto with node|]. intros next [Hc Hr]%lift_Ok%delta_candidate_Ok; [|apply Hs].
    apply (attempt_applied s next (Pb.TopologyDelta.user_mutations d')). split; [done|lia].
  - apply attempt_bind; [by auto with node|intros [] _]. apply attempt_bind; [by auto with node|].
    intros p' _. apply attempt_bind; [by auto with node|]. intros [] (_ & Hb' & Hle & _)%fence_Ok.
    apply attempt_bind; [by auto with node|]. intros t Ht. injection Ht as <-.
    destruct (route_candidate_ok (topology s) p' (ok_coherent s Hs)) as [Hc Hr].
    apply attempt_apply. split; [done|lia].
  - apply attempt_bind; [by auto with node|intros [] _]. apply attempt_bind; [by auto with node|].
    intros m' _. apply attempt_bind; [by auto with node|]. intros [] (_ & Hb' & Hle & _)%fence_Ok.
    apply attempt_bind; [by auto with node|]. intros t Ht. injection Ht as <-.
    apply attempt_bind; [by auto with node|]. intros next [Hc Hr]%lift_Ok%user_candidate_Ok; [|apply Hs].
    apply (attempt_applied s next [m']). split; [done|lia].
  - by apply refresh_attempt.
  - by apply reload_attempt.
  - apply attempt_bind; [by auto with node|intros [] _]. apply attempt_bind; [by auto with node|].
    intros t Ht. injection Ht as <-. destruct (is_empty _); [by apply attempt_quiet, quiet_refl|].
    unfold on_runtime. destruct (rt_reconcile_current _ _) as [r res] eqn:E.
    pose proof (active_reconcile _ _ _ _ E) as Ha. destruct res as [[]|e].
    + by apply attempt_reconcile.
    + by apply attempt_quiet, quiet_runtime.
Qed.

(** ** Schedules *)

Lemma attempt_ok s s' b :
  machine_id <> "" -> state_ok s -> attempt s (s', b) -> state_ok s'.
Proof.
  intros Hid [Hc Hg Hr Hb Ha] H. inversion H as [? ? Q|? t a P Hc' Hr' Hm' Ha'|? Q Ha']; subst.
  - destruct Q as [Ht Hg' Ha' _ _ _]. split; by rewrite ?Ha', ?Ht, ?Hg'.
  - destruct P as [Ht Hg' Ha'' _ _ _]. split; rewrite ?Ht, ?Hg', ?Ha''; try done.
    + apply wrapping_add64_range.
    + lia.
    + by intros ?%Hm'.
  - destruct Q as [Ht Hg' _ _ _ _]. cbn in *. split; by rewrite ?Ha', ?Ht, ?Hg'.
Qed.

Lemma new_ok r : rt_active r = MT.default -> state_ok (manager_new r).
Proof. intros Hr. split; cbn; try done. by rewrite Hr. Qed.

Lemma run_ok ops s : machine_id <> "" -> Forall op_ok ops -> state_ok s -> state_ok (manager_run ops s).
Proof.
  intros Hid. revert s. induction ops as [|op ops IH]; intros s; [done|]. intros [Ho Hos]%Forall_cons Hs.
  cbn. apply IH; [done|]. pose proof (step_attempt op s Hs Ho) as H.
  destruct (manager_step op s) as [s' b]. by eapply attempt_ok.
Qed.

Lemma run_ind (P : manager -> manager -> Prop) ops s :
  machine_id <> "" -> Forall op_ok ops -> state_ok s ->
  (forall s, P s s) -> (forall s1 s2 s3, P s1 s2 -> P s2 s3 -> P s1 s3) ->
  (forall op s, op_ok op -> state_ok s -> P s (manager_step op s).1) ->
  P s (manager_run ops s).
Proof.
  intros Hid Hops Hs Hrefl Htrans Hstep. revert s Hs.
  induction Hops as [|op ops Ho Hos IH]; intros s Hs; [apply Hrefl|].
  cbn. eapply Htrans; [by apply (Hstep op)|]. apply IH.
  pose proof (step_attempt op s Hs Ho). destruct (manager_step op s). by eapply attempt_ok.
Qed.

(** The states of a manager that started on a fresh data plane. *)
Definition reachable s : Prop :=
  exists r ops, rt_active r = MT.default /\ Forall op_ok ops /\ s = manager_run ops (manager_new r).

(** C35. At any point of any schedule, the published model is the image of the wire
    snapshot it carries (so the digest reported to the panel describes what is
    published), and the data plane holds the published topology up to its
    revision number. *)
Theorem manager_consistent s :
  machine_id <> "" -> reachable s ->
  coherent (topology s) /\ is_u64 (generation s) /\
  same_but_revision (topology s) (rt_active (runtime s)).
Proof.
  intros Hid (r & ops & Hr & Ho & ->).
  destruct (run_ok ops (manager_new r) Hid Ho (new_ok r Hr)). done.
Qed.

Lemma reachable_state_ok s : machine_id <> "" -> reachable s -> state_ok s.
Proof. intros Hid (r & ops & Hr & Ho & ->). apply run_ok; [done..|by apply new_ok]. Qed.

(** A failed operation, whichever check or data plane step refuses it, leaves the
    published topology, the publication token and the data plane's topology as
    they were. *)
Theorem failure_publishes_nothing op s s' :
  machine_id <> "" -> reachable s -> op_ok op -> manager_step op s = (s', false) ->
  topology s' = topology s /\ generation s' = generation s /\
  rt_active (runtime s') = rt_active (runtime s).
Proof.
  intros Hid Hs%reachable_state_ok Ho E; [|done]. pose proof (step_attempt op s Hs Ho) as H.
  rewrite E in H. inversion H as [? ? []| |]; subst. done.
Qed.

Lemma run_revision ops s :
  machine_id <> "" -> state_ok s -> Forall op_ok ops ->
  MachineTopology.revision (topology s) <= MachineTopology.revision (topology (manager_run ops s)).
Proof.
  intros Hid Hs Ho.
  apply (run_ind (fun s1 s2 => MachineTopology.revision (topology s1) <= MachineTopology.revision (topology s2)));
    [done..|lia| |].
  - intros s1 s2 s3 ? ?. lia.
  - intros op s1 Hop Hs1. pose proof (step_attempt op s1 Hs1 Hop) as H.
    destruct (manager_step op s1) as [s2 b]. cbn.
    inversion H as [? ? [Ht _ _ _ _ _]|? t a [Ht _ _ _ _ _] ? Hr|? [Ht _ _ _ _ _] ?]; subst.
    + rewrite Ht. lia.
    + lia.
    + cbn in Ht. rewrite Ht. lia.
Qed.

(** The published revision never goes back. *)
Theorem revision_monotone ops s :
  machine_id <> "" -> reachable s -> Forall op_ok ops ->
  MachineTopology.revision (topology s) <= MachineTopology.revision (topology (manager_run ops s)).
Proof. intros Hid Hs%reachable_state_ok Ho; [|done]. by apply run_revision. Qed.

(** ** Publication tokens *)

(** How many of the operations published. *)
Fixpoint publications (ops : list manager_op) s : nat :=
  match ops with
  | [] => 0
  | op :: ops =>
      let s' := (manager_step op s).1 in
      (if decide (generation s' = generation s) then 0 else 1) + publications ops s'
  end%nat.

Lemma wrapping_succ_ne g : is_u64 g -> wrapping_add64 g 1 <> g.
Proof.
  unfold is_u64, wrapping_add64, u64_max. intros H.
  destruct (decide (g = 18446744073709551615)) as [->|Hn]; [done|]. rewrite Z.mod_small; lia.
Qed.

Lemma step_generation op s :
  state_ok s -> op_ok op ->
  let s' := (manager_step op s).1 in
  (generation s' = generation s /\ topology s' = topology s) \/
  (generation s' = wrapping_add64 (generation s) 1 /\ generation s' <> generation s).
Proof.
  intros Hs Ho. pose proof (step_attempt op s Hs Ho) as H.
  destruct (manager_step op s) as [s' b]. cbn zeta. cbn [fst].
  inversion H as [? ? []|? t a [_ Hg _ _ _ _] ? Hr|? [] ?]; subst; [by left| |by left].
  right. rewrite Hg. split; [done|]. apply wrapping_succ_ne, Hs.
Qed.

Lemma run_generation ops s :
  machine_id <> "" -> state_ok s -> Forall op_ok ops ->
  generation (manager_run ops s) = wrapping_add64 (generation s) (Z.of_nat (publications ops s)) /\
  (publications ops s = 0%nat -> topology (manager_run ops s) = topology s).
Proof.
  intros Hid Hs Ho. revert s Hs. induction Ho as [|op ops Hop Ho IH]; intros s Hs; cbn [Manager.manager_run publications].
  { split; [|done]. pose proof (ok_generation s Hs) as [??]. rewrite wrapping_add64_small; lia. }
  pose proof (step_generation op s Hs Hop) as Hg.
  assert (state_ok (manager_step op s).1) as Hs'.
  { pose proof (step_attempt op s Hs Hop). destruct (manager_step op s). by eapply attempt_ok. }
  destruct (IH _ Hs') as [-> IHt]. destruct Hg as [[Hg Ht]|[Hg Hne]].
  - rewrite decide_True by done. rewrite Hg. split; [done|]. intros E. by rewrite IHt.
  - rewrite decide_False by done. rewrite Hg, wrapping_add64_assoc, wrapping_add64_idemp. split; [|done].
    f_equal. lia.
Qed.

(** The checks a successful operation has passed. *)
Lemma passed {E A B} (m : stm manager E A) (f : A -> stm manager E B) s s' :
  pure m -> ran ((m ≫= f) s) = (s', true) -> exists a, (m s).2 = Ok a /\ ran (f a s) = (s', true).
Proof.
  intros Hp. rewrite bind_pure by done. destruct (m s).2 as [a|e]; [by exists a|]. done.
Qed.

Lemma passed_stage {A} stage (m : stm manager TopologyError.t A) s a :
  (at_stage stage m s).2 = Ok a -> (m s).2 = Ok a.
Proof. unfold at_stage. destruct (m s) as [s1 [b|e]]; cbn; congruence. Qed.

Lemma token_checked op c t expected s s' :
  op = OpAuthoritative c t expected \/ op = OpReload c expected (Fetched t) ->
  manager_step op s = (s', true) -> generation s = expected.
Proof.
  intros [-> | ->] H; cbn [Manager.manager_step reload_end] in H.
  - apply passed in H as (_ & _ & H); [|by auto with node].
    apply passed in H as (_ & _ & H); [|by auto with node].
    apply passed in H as ([] & Ht%token_Ok & _); [done|by auto with node].
  - apply passed in H as (_ & _ & H); [|by auto with node].
    apply passed in H as ([] & Ht%passed_stage%token_Ok & _); [done|by auto with node].
Qed.

(** A panel fetch is a compare-and-swap: as long as fewer than 2^64 topologies are
    published during the fetch, an authoritative topology or a reload is applied
    only when none was, that is only on top of the very topology that was
    published when the fetch began.  A revision comparison alone would not do:
    one panel update publishes several topologies of the same revision. *)
Theorem fetch_not_overtaken ops s op c t s' :
  machine_id <> "" -> reachable s -> Forall op_ok ops ->
  Z.of_nat (publications ops s) < 2 ^ 64 ->
  op = OpAuthoritative c t (generation s) \/ op = OpReload c (generation s) (Fetched t) ->
  manager_step op (manager_run ops s) = (s', true) ->
  publications ops s = 0%nat /\ topology (manager_run ops s) = topology s.
Proof.
  intros Hid Hs%reachable_state_ok Ho Hlt Hop Hstep; [|done].
  destruct (run_generation ops s Hid Hs Ho) as [Hg Ht].
  apply (token_checked op c t (generation s)) in Hstep; [|done]. rewrite Hstep in Hg.
  assert (publications ops s = 0%nat) as E0; [|by auto].
  pose proof (ok_generation s Hs) as Hr. unfold is_u64, u64_max in Hr. unfold wrapping_add64 in Hg.
  pose proof (Z.div_mod (generation s + Z.of_nat (publications ops s)) (2 ^ 64) ltac:(lia)).
  nia.
Qed.

(** ** Shutting down *)

Lemma refused op c s :
  op_session op = Some c ->
  operations_cancelled s = true \/ session_cancelled c s = true ->
  manager_step op s = (s, false).
Proof.
  intros Hc Hx.
  assert (exists e, (begin_operation c s).2 = Err e) as [e He].
  { destruct ((begin_operation c s).2) as [[]|e] eqn:E; [|by exists e]. apply begin_Ok in E. naive_solver congruence. }
  assert (forall A (f : unit -> stm manager TopologyError.t A),
    ran ((_ ← begin_operation c; f tt) s) = (s, false)) as Hr.
  { intros A f. rewrite bind_pure by auto with node. by rewrite He. }
  destruct op as [c' t|c' t tok|c' sn|c' d|c' p b|c' m b|c' req|c' b [t|?|?]|c'|n| |]; try done;
    injection Hc as ->; cbn [Manager.manager_step]; try apply (Hr _ (fun _ => _)).
  unfold reload_end, reload_commit. rewrite bind_pure by auto with node.
  unfold at_stage. destruct (begin_operation c s) as [s1 r]. cbn in He. by subst r.
Qed.

(** Once operations are stopped, or for a session that is cancelled, no operation
    gets past admission: every one of them fails and changes nothing at all, in
    the manager or in the data plane. *)
Theorem not_admitted op c s :
  op_session op = Some c ->
  operations_cancelled s = true \/ session_cancelled c s = true ->
  manager_step op s = (s, false).
Proof. apply refused. Qed.

Lemma stopped_quiet op s : operations_cancelled s = true -> quiet s (manager_step op s).1.
Proof.
  intros Hx. destruct (op_session op) as [c|] eqn:E; [|by apply control_quiet].
  rewrite (refused op c s); auto with node.
Qed.

Lemma stopped_run_quiet ops s : operations_cancelled s = true -> quiet s (manager_run ops s).
Proof.
  revert s. induction ops as [|op ops IH]; intros s Hx; [apply quiet_refl|].
  pose proof (stopped_quiet op s Hx) as Q. eapply quiet_trans; [exact Q|]. by apply IH, Q.
Qed.

(** After [stop_operations] (and so after [close]) the published topology is final,
    whatever was queued or arrives later; and a close runs once: every later close
    returns the first one's answer. *)
Theorem stopped_is_final ops s :
  let s1 := stop_operations s in
  (topology (manager_run ops s1) = topology s /\ generation (manager_run ops s1) = generation s) /\
  (forall s2 res, close s = (s2, res) ->
     (close (manager_run ops s2)).2 = res /\ topology (manager_run ops s2) = topology s).
Proof.
  cbn zeta. split.
  - by destruct (stopped_run_quiet ops (stop_operations s) eq_refl).
  - intros s2 res H.
    assert (operations_cancelled s2 = true /\ close_result s2 = Some res /\ topology s2 = topology s) as (Hx & Hr & Ht).
    { unfold close in H. change (close_result (stop_operations s)) with (close_result s) in H.
      destruct (close_result s) as [r|] eqn:E; [by injection H as <- <-|].
      destruct (rt_close _) as [r res']. by injection H as <- <-. }
    destruct (stopped_run_quiet ops s2 Hx) as [Ht' _ _ _ _ Hc]. rewrite Ht', Ht. split; [|done].
    unfold close. change (close_result (stop_operations (manager_run ops s2))) with (close_result (manager_run ops s2)).
    by rewrite Hc, Hr.
Qed.

(** ** What a successful command does *)

Lemma passed_Ok {E A B} (m : stm manager E A) (f : A -> stm manager E B) s s' b :
  pure m -> (m ≫= f) s = (s', Ok b) -> exists a, (m s).2 = Ok a /\ f a s = (s', Ok b).
Proof. intros Hp. rewrite bind_pure by done. destruct (m s).2 as [a|e]; [by exists a|]. done. Qed.

(** Consume the checks in [H] one by one. *)
Ltac pass H := apply passed_Ok in H as (? & ? & H); [|by auto with node].

Lemma applied_Ok t ms s s' m :
  applied machine_id t ms s = (s', Ok m) -> topology s' = filled t /\ rt_active (runtime s') = filled t.
Proof.
  destruct (applied_cases machine_id t ms s) as [(s1 & e & -> & _)|(s1 & m1 & -> & P)]; [done|].
  intros [= <- _]. by destruct P.
Qed.

(** The data plane holds exactly what is published. *)
Definition in_step s (t : MachineTopology.t) : Prop := topology s = t /\ rt_active (runtime s) = t.

Lemma snapshot_published c sn s s' m :
  apply_snapshot machine_id c (Some sn) s = (s', Ok m) ->
  Pb.TopologySnapshot.revision sn <> 0 /\
  MachineTopology.revision (topology s) <= Pb.TopologySnapshot.revision sn /\
  in_step s' (filled (from_snapshot machine_id (Some sn))).
Proof.
  intros H. pass H. pass H. injection H1 as <-.
  apply passed_Ok in H as ([] & [Hz Hr]%revision_Ok & H); [|by auto with node].
  rewrite <- applied_nil in H. by apply applied_Ok in H.
Qed.

Lemma delta_published c d s s' m :
  apply_delta machine_id c (Some d) s = (s', Ok m) ->
  MachineTopology.revision (topology s) = Pb.TopologyDelta.base_revision d /\
  Pb.TopologyDelta.base_revision d <= Pb.TopologyDelta.target_revision d /\
  exists next, delta_candidate machine_id (topology s) d = Ok next /\ in_step s' (filled next).
Proof.
  intros H. pass H. pass H. injection H1 as <-.
  apply passed_Ok in H as ([] & (_ & Hb & Hle & _)%fence_Ok & H); [|by auto with node].
  pass H. injection H1 as <-. apply passed_Ok in H as (next & Hn%lift_Ok & H); [|by auto with node].
  split; [done|]. split; [done|]. exists next. split; [done|].
  by apply (applied_Ok next (Pb.TopologyDelta.user_mutations d)) in H.
Qed.

Lemma route_published c p b s s' m :
  apply_route_patch machine_id c (Some p) b s = (s', Ok m) ->
  MachineTopology.revision (topology s) = b /\ b <= Pb.TopologyRoutePatch.revision p /\
  in_step s' (filled (route_candidate machine_id (topology s) p)).
Proof.
  intros H. pass H. pass H. injection H1 as <-.
  apply passed_Ok in H as ([] & (_ & Hb & Hle & _)%fence_Ok & H); [|by auto with node].
  pass H. injection H1 as <-. rewrite <- applied_nil in H. by apply applied_Ok in H.
Qed.

Lemma user_published c mu b s s' m :
  apply_user_mutation machine_id c (Some mu) b s = (s', Ok m) ->
  MachineTopology.revision (topology s) = b /\ b <= Pb.UserMutation.revision mu /\
  exists next, user_candidate machine_id (topology s) mu = Ok next /\ in_step s' (filled next).
Proof.
  intros H. pass H. pass H. injection H1 as <-.
  apply passed_Ok in H as ([] & (_ & Hb & Hle & _)%fence_Ok & H); [|by auto with node].
  pass H. injection H1 as <-. apply passed_Ok in H as (next & Hn%lift_Ok & H); [|by auto with node].
  split; [done|]. split; [done|]. exists next. split; [done|]. by apply (applied_Ok next [mu]) in H.
Qed.

(** A command that succeeds publishes exactly the candidate built from the
    topology it was addressed to, in the manager and in the data plane: a
    snapshot replaces everything and must not be older than what is published;
    a partial command must name the published revision as its base. *)
Theorem commands_exact c s s' m :
  (forall snapshot, apply_snapshot machine_id c (Some snapshot) s = (s', Ok m) ->
     Pb.TopologySnapshot.revision snapshot <> 0 /\
     MachineTopology.revision (topology s) <= Pb.TopologySnapshot.revision snapshot /\
     in_step s' (filled (from_snapshot machine_id (Some snapshot)))) /\
  (forall delta, apply_delta machine_id c (Some delta) s = (s', Ok m) ->
     MachineTopology.revision (topology s) = Pb.TopologyDelta.base_revision delta /\
     Pb.TopologyDelta.base_revision delta <= Pb.TopologyDelta.target_revision delta /\
     exists next, delta_candidate machine_id (topology s) delta = Ok next /\ in_step s' (filled next)) /\
  (forall patch base, apply_route_patch machine_id c (Some patch) base s = (s', Ok m) ->
     MachineTopology.revision (topology s) = base /\ base <= Pb.TopologyRoutePatch.revision patch /\
     in_step s' (filled (route_candidate machine_id (topology s) patch))) /\
  (forall mutation base, apply_user_mutation machine_id c (Some mutation) base s = (s', Ok m) ->
     MachineTopology.revision (topology s) = base /\ base <= Pb.UserMutation.revision mutation /\
     exists next, user_candidate machine_id (topology s) mutation = Ok next /\ in_step s' (filled next)).
Proof.
  split_and!; [intros sn|intros d|intros p b|intros mu b];
    [apply snapshot_published|apply delta_published|apply route_published|apply user_published].
Qed.

(** ** Connections closed *)

Definition close_users (n : string) (us : list string) (r : R) : R :=
  foldl (fun r u => (rt_close_user_connections n u r).1) r us.
Definition close_all (stale : list (string * list string)) (r : R) : R :=
  foldl (fun r '(n, us) => close_users n us r) r stale.

Lemma for_close_user {E} n us s :
  for_in us (close_user (E := E) n) s = (set_runtime (close_users n us (runtime s)) s, Ok tt).
Proof.
  revert s. induction us as [|u us IH]; intros s; [by destruct s|].
  change (for_in (u :: us) (close_user (E := E) n) s)
    with (for_in us (close_user (E := E) n) (set_runtime (rt_close_user_connections n u (runtime s)).1 s)).
  by rewrite IH.
Qed.

Lemma for_close_all {E} stale s :
  for_in stale (fun '(n, us) => for_in us (close_user (E := E) n)) s
  = (set_runtime (close_all stale (runtime s)) s, Ok tt).
Proof.
  revert s. induction stale as [|[n us] stale IH]; intros s; [by destruct s|].
  cbn [for_in]. rewrite (stm_bind_eq _ _ _ _ _ (for_close_user n us s)), IH. done.
Qed.

(** [apply] in one equation. *)
Lemma apply_eq t s :
  apply machine_id t s =
  match rt_apply (filled t) (runtime s) with
  | (r, Ok _) =>
      let r := close_all (btree_iter (stale_credential_topology_users (topology s) (filled t))) r in
      (set_runtime r (set_published (filled t) (wrapping_add64 (generation s) 1) s),
       Ok (append_warning_summary (applied_message (filled t)) (rt_warnings r)))
  | (r, Err e) => (set_runtime r s, Err e)
  end.
Proof.
  unfold apply, publish_and_close_stale_users, publish, on_runtime. unfold mbind at 1, stm_bind at 1.
  destruct (rt_apply (filled t) (runtime s)) as [r [[]|e]]; [|done].
  unfold mbind at 1, stm_bind at 1. rewrite bind_pure by apply pure_gets. cbn [gets snd].
  rewrite bind_modify, for_close_all. done.
Qed.

(** The users a list of mutations asks to kick, as far as [t] still authorises
    them. *)
Definition kicked (t : MachineTopology.t) (mutations : list Pb.UserMutation.t) : list (string * list string) :=
  omap (fun m =>
    match Pb.UserMutation.user m with
    | Some user =>
        let n := Pb.UserMutation.node_id m in let u := Pb.UserCredential.user_id user in
        if Pb.UserMutation.kick_existing_connections m && negb (is_empty n || is_empty u)
           && topology_authorizes_user t n u
        then Some (n, [u]) else None
    | None => None
    end) mutations.

(** A publication closes, after the data plane has accepted the candidate, the
    connections of exactly the users whose credential it no longer authorises,
    in node order; a command then closes those it explicitly asks to kick. *)
Theorem publication_closes t ms s s' m :
  (apply machine_id t s = (s', Ok m) ->
   exists r, rt_apply (filled t) (runtime s) = (r, Ok tt) /\
     runtime s' = close_all (btree_iter (stale_credential_topology_users (topology s) (filled t))) r) /\
  (close_explicitly_requested_users ms s
   = (set_runtime (close_all (kicked (topology s) ms) (runtime s)) s, Ok tt)).
Proof.
  split.
  - rewrite apply_eq. destruct (rt_apply (filled t) (runtime s)) as [r [[]|e]]; [|done].
    intros [= <- _]. by exists r.
  - unfold close_explicitly_requested_users. revert s. induction ms as [|mu ms IH]; intros s; [by destruct s|].
    cbn [for_in kicked omap list_omap]. unfold kicked in IH.
    set (body := fun mutation : Pb.UserMutation.t => _) in IH |- *.
    assert (body mu s = (set_runtime (close_all (kicked (topology s) [mu]) (runtime s)) s, Ok tt)) as E.
    { unfold body, kicked. cbn [omap list_omap]. destruct (Pb.UserMutation.kick_existing_connections mu); cbn [negb andb].
      2:{ destruct (Pb.UserMutation.user mu); by destruct s. }
      destruct (Pb.UserMutation.user mu) as [u|]; [|by destruct s]. cbn zeta.
      destruct (is_empty _ || is_empty _); cbn [negb andb]; [by destruct s|].
      unfold mbind, stm_bind, gets. cbn. destruct (topology_authorizes_user _ _ _); [done|by destruct s]. }
    rewrite (stm_bind_eq _ _ _ _ _ E), IH. unfold kicked. cbn [omap list_omap].
    by destruct (match Pb.UserMutation.user mu with Some _ => _ | None => _ end).
Qed.

(** ** Refreshing users *)

(** A user refresh that succeeds was computed against the node's published users
    (and against the expected ones, when the caller names them).  Without a
    change it does not touch the data plane and at most advances the revision;
    with one, it publishes the candidate that replaces that node's users. *)
Theorem refresh_exact c request s s' changes :
  refresh_owned machine_id c request s = (s', Ok changes) ->
  let id := UserRefreshRequest.node_id request in
  let users := UserRefreshRequest.users request in
  let target := refresh_target (UserRefreshRequest.revision request) in
  exists node found,
    find_first (node_is id) (MachineTopology.nodes (topology s)) = Some node /\
    compare_node_users (NodeInstance.users node) users = Ok found /\
    (forall expected, UserRefreshRequest.expected_current request = Some expected ->
       expected ≡ₚ NodeInstance.users node) /\
    if UserRefreshChanges.unchanged found
    then changes = found /\ runtime s' = runtime s /\
      topology s' = (if (0 <? target) && (MachineTopology.revision (topology s) <? target)
                     then set_revisions target (topology s) else topology s)
    else changes = UserRefreshChanges.set_applied true found /\
      in_step s' (filled (refresh_candidate (topology s) id users target)).
Proof.
  intros H. cbn zeta. unfold refresh_owned in H. cbn zeta in H. pass H.
  apply passed_Ok in H as (? & ? & H); [|by destruct (is_empty _)].
  apply passed_Ok in H as (? & ? & H); [|destruct (UserRefreshRequest.revision request); by auto with node].
  pass H. injection H3 as <-. apply passed_Ok in H as (node & Hnode%lift_Ok & H); [|by auto with node].
  apply passed_Ok in H as ([] & Hexp%lift_Ok & H); [|by auto with node].
  apply passed_Ok in H as (found & Hfound%lift_Ok & H); [|by auto with node].
  exists node, found. split; [destruct (find_first _ _); [by injection Hnode as ->|done]|]. split; [done|]. split.
  { intros expected He. rewrite He in Hexp. cbn in Hexp.
    apply bind_Ok in Hexp as (ch & Hch & Hun). destruct (UserRefreshChanges.unchanged ch) eqn:E; [|done].
    apply compare_counts in Hch as Hch'. by apply (unchanged_perm _ _ _ Hch). }
  destruct (UserRefreshChanges.unchanged found).
  - unfold advance_revision in H. rewrite bind_modify in H. injection H as <- <-.
    by destruct (_ && _).
  - apply stm_bind_Ok in H as (s1 & m & H1' & H2'). injection H2' as <- <-. split; [done|].
    destruct (apply machine_id _ s) as [s2 [m2|e]] eqn:E; cbn in H1'; [|done]. injection H1' as <- <-.
    rewrite <- applied_nil in E. by apply applied_Ok in E.
Qed.

(** A successful refresh leaves at least its target revision published. *)
Lemma refresh_reaches c request s s' changes :
  state_ok s -> Forall status_canonical (UserRefreshRequest.users request) ->
  refresh_owned machine_id c request s = (s', Ok changes) ->
  refresh_target (UserRefreshRequest.revision request) <= MachineTopology.revision (topology s').
Proof.
  intros Hs Hu H. unfold refresh_owned in H. cbn zeta in H. pass H.
  apply passed_Ok in H as (? & ? & H); [|by destruct (is_empty _)].
  apply passed_Ok in H as (? & ? & H); [|destruct (UserRefreshRequest.revision request); by auto with node].
  do 4 pass H. injection H3 as <-. set (target := refresh_target _) in *.
  destruct (UserRefreshChanges.unchanged _).
  - unfold advance_revision in H. rewrite bind_modify in H. injection H as <- _.
    pose proof (ok_revision s Hs). destruct (Z.ltb_spec 0 target), (Z.ltb_spec (MachineTopology.revision (topology s)) target);
      cbn [andb]; cbn; rewrite ?set_revisions_revision; lia.
  - apply stm_bind_Ok in H as (s1 & m & H1' & H2'). injection H2' as <- _.
    destruct (apply machine_id _ s) as [s2 [m2|e]] eqn:E; cbn in H1'; [|done]. injection H1' as <- <-.
    rewrite <- applied_nil in E. apply applied_Ok in E as [-> _]. rewrite default_machine_revision.
    destruct (refresh_candidate_ok (topology s) (UserRefreshRequest.node_id request)
      (UserRefreshRequest.users request) target (ok_coherent s Hs) Hu) as [_ ->]. lia.
Qed.

(** ** Reloading *)

(** A reload that reports success has published exactly the fetched topology on
    the baseline it was prepared against, reports that topology's revision and
    user count, and the digest of the configuration that is really running. *)
Theorem reload_exact c baseline fetched s s' res :
  reload_end machine_id sha256 c baseline fetched s = (s', Ok res) ->
  exists t, fetched = Fetched t /\ generation s = baseline /\
    in_step s' (filled t) /\
    TopologyReloadResult.outcome res = Succeeded /\
    TopologyReloadResult.topology_revision res = MachineTopology.revision t /\
    TopologyReloadResult.loaded_user_count res = topology_user_count t /\
    TopologyReloadResult.config_sha256 res = Hex.encode (sha256 (rt_current_config (runtime s'))).
Proof.
  destruct fetched as [t|stage e|stage]; [|done..]. cbn [reload_end]. unfold reload_commit. cbn zeta. intros H.
  exists t. split; [done|]. pass H. apply passed_Ok in H as ([] & Ht%passed_stage%token_Ok & H); [|by auto with node].
  split; [done|]. pass H.
  apply stm_bind_Ok in H as (s1 & prepared & _ & H).
  apply stm_bind_Ok in H as (s2 & [] & _ & H).
  apply stm_bind_Ok in H as (s3 & status & H3 & H).
  destruct (ReloadStatus.running status) eqn:Er; [|done]. cbn [negb] in H.
  apply stm_bind_Ok in H as (s4 & [] & H4 & H). injection H as <- <-. cbn.
  destruct (publish_stale_spec (E := TopologyReloadResult.t) (filled t) s3) as (s5 & E5 & P).
  rewrite E5 in H4. injection H4 as ->. destruct P as [Ht' _ Ha _ _ _].
  unfold at_stage, on_runtime in H3. destruct (rt_reload_prepared _ _ _) as [r [st|e]] eqn:E; [|done].
  injection H3 as <- ->. pose proof (active_reload _ _ _ _ _ E) as Ha'. cbn in Ha'. rewrite Er in Ha'.
  split; [split; [done|by rewrite Ha]|]. rewrite default_machine_revision. split_and!; [done..| |done].
  unfold default_machine. by destruct (is_empty _).
Qed.

Definition is_failure (res : TopologyReloadResult.t) : Prop :=
  TopologyReloadResult.outcome res <> Succeeded /\
  TopologyReloadResult.topology_revision res = 0 /\ TopologyReloadResult.config_sha256 res = "".

Lemma reload_failure_fails stage e : is_failure (reload_failure stage e).
Proof. unfold reload_failure. by destruct (TopologyError.rolled_back e), (TopologyError.running e). Qed.

(** A method of a reload all of whose errors are failures that publish nothing. *)
Definition fails_safe {A} (m : stm manager TopologyReloadResult.t A) : Prop := forall s s' res,
  m s = (s', Err res) -> topology s' = topology s /\ generation s' = generation s /\ is_failure res.

Lemma fails_safe_stage {A} stage (m : stm manager TopologyError.t A) :
  (forall s, topology (m s).1 = topology s /\ generation (m s).1 = generation s) -> fails_safe (at_stage stage m).
Proof.
  intros Hm s s' res. unfold at_stage. specialize (Hm s). destruct (m s) as [s1 [a|e]]; [done|].
  intros [= <- <-]. destruct Hm. split_and!; [done..|]. apply reload_failure_fails.
Qed.

Lemma fails_safe_bind {A B} (m : stm manager TopologyReloadResult.t A) (f : A -> stm manager TopologyReloadResult.t B) s s' res :
  fails_safe m -> (forall s, topology (m s).1 = topology s /\ generation (m s).1 = generation s) ->
  (forall s1 a, f a s1 = (s', Err res) ->
     topology s' = topology s1 /\ generation s' = generation s1 /\ is_failure res) ->
  (m ≫= f) s = (s', Err res) ->
  topology s' = topology s /\ generation s' = generation s /\ is_failure res.
Proof.
  intros Hm Hk Hf. unfold mbind, stm_bind. specialize (Hk s). destruct (m s) as [s1 [a|e]] eqn:E.
  - intros (H1 & H2 & H3)%Hf. destruct Hk as [<- <-]. done.
  - intros [= <- <-]. by apply Hm in E.
Qed.

(** A reload that reports anything but success has published nothing; whatever
    the data plane's error, the reported outcome is a failure whose class is the
    error's: rolled back, unchanged, or stopped. *)
Theorem reload_failed c baseline fetched s s' res :
  reload_end machine_id sha256 c baseline fetched s = (s', Err res) ->
  topology s' = topology s /\ generation s' = generation s /\ is_failure res.
Proof.
  assert (forall A (m : stm manager TopologyError.t A), pure m -> forall s,
    topology (m s).1 = topology s /\ generation (m s).1 = generation s) as Hp by (intros A m H0 s0; by rewrite H0).
  assert (forall A (m : stm R TopologyError.t A) s, topology (on_runtime m s).1 = topology s /\
    generation (on_runtime m s).1 = generation s) as Hr.
  { intros A m s0. unfold on_runtime. by destruct (m (runtime s0)). }
  assert (forall A stage (m : stm manager TopologyError.t A), (forall s,
    topology (m s).1 = topology s /\ generation (m s).1 = generation s) -> forall s,
    topology (at_stage stage m s).1 = topology s /\ generation (at_stage stage m s).1 = generation s) as Hst.
  { intros A stage m H0 s0. specialize (H0 s0). unfold at_stage. by destruct (m s0). }
  destruct fetched as [t|stage e|stage]; cbn [reload_end].
  2:{ by intros [= <- <-]. }
  2:{ intros [= <- <-]. split; [done|]. split; [done|]. apply reload_failure_fails. }
  unfold reload_commit. cbn zeta.
  do 6 (apply fails_safe_bind; [apply fails_safe_stage; auto with node|apply Hst; auto with node|intros ? ?]).
  destruct (negb _); [by intros [= <- <-]|].
  intros H. destruct (publish_stale_spec (E := TopologyReloadResult.t) (filled t) s5) as (s6 & E & _).
  rewrite (stm_bind_eq _ _ _ _ _ E) in H. done.
Qed.

(** ** Reading pages of users *)

(** A page of the loaded users, for any 64-bit offset and limit, is that slice of
    the published list with the total; nothing is read out of range. *)
Theorem loaded_page_exact id offset limit s node :
  operations_cancelled s = false ->
  find_first (node_is id) (MachineTopology.nodes (topology s)) = Some node ->
  Z.of_nat (length (NodeInstance.users node)) <= u64_max -> is_u64 offset -> is_u64 limit ->
  loaded_users_page id offset limit s
  = (s, Ok (Z.of_nat (length (NodeInstance.users node)),
            take (Z.to_nat limit) (drop (Z.to_nat offset) (NodeInstance.users node)))).
Proof.
  intros Hx Hn Hlen [Ho _] [Hl _]. unfold loaded_users_page, ensure_operations_running.
  unfold mbind, stm_bind, get, gets. cbn. rewrite Hx. cbn. rewrite Hn.
  set (users := NodeInstance.users node) in *. set (n := length users) in *.
  unfold mret, stm_ret. do 3 f_equal.
  unfold sat. destruct (Z.le_gt_cases offset (Z.of_nat n)) as [H|H].
  - rewrite (Z.min_l offset) by lia.
    destruct (Z.le_gt_cases (offset + limit) (Z.of_nat n)) as [H'|H'].
    + rewrite (Z.min_r u64_max), Z.min_l by lia. f_equal. lia.
    + rewrite (Z.min_r _ (Z.of_nat n)) by lia.
      rewrite !take_ge; [done|rewrite length_drop; fold n; lia..].
  - rewrite (Z.min_r offset), Z.min_r by lia. rewrite !drop_ge by (fold n; lia). by rewrite !take_nil.
Qed.
End spec.

(** ** Witnesses *)

(** A data plane that refuses nodes called "bad", and logs whose connections it
    closed. *)
Module ManagerExample.

Record plane : Type := mkPlane { active : MachineTopology.t; kicks : list (string * string) }.

Definition refuses (t : MachineTopology.t) : bool :=
  existsb (node_is "bad") (MachineTopology.nodes t).

Definition accept (t : MachineTopology.t) : stm plane TopologyError.t unit := fun r =>
  if refuses t then (r, Err (TopologyError.runtime "bad node" false)) else (mkPlane t (kicks r), Ok tt).

#[local] Instance plane_runtime : TopologyRuntime plane unit := {
  rt_apply := accept;
  rt_close_user_connections n u r := (mkPlane (active r) (kicks r ++ [(n, u)]), 1);
  rt_current_config r := "config";
  rt_warnings _ := [];
  rt_reconcile_current := accept;
  rt_begin_close r := r;
  rt_close := mret tt;
  rt_prepare_reload _ := mret tt;
  rt_configure_reload _ := mret tt;
  rt_reload_prepared t _ := _ ← accept t; mret (ReloadStatus.mk true false)
}.

#[local] Instance plane_laws : TopologyRuntimeLaws plane unit.
Proof.
  refine {| rt_active := active |}; try done.
  - intros t r r' res. cbn. unfold accept. destruct (refuses t); by intros [= <- <-].
  - intros t r r' res. cbn. unfold accept. destruct (refuses t); by intros [= <- <-].
  - intros t [] r r' res. cbn. unfold accept, mbind, stm_bind. destruct (refuses t); by intros [= <- <-].
Defined.

Definition user (id credential : string) : UserCredential.t := UserCredential.mk id id credential "" 0 0.
Definition pb_user (id credential : string) : Pb.UserCredential.t := to_pb_UserCredential (user id credential).
Definition pb_node (id : string) (us : list Pb.UserCredential.t) : Pb.NodeTopology.t :=
  Pb.NodeTopology.mk id "vless" 1 "{}" us None.
Definition snapshot (revision : Z) (ns : list Pb.NodeTopology.t) : Pb.TopologySnapshot.t :=
  Pb.TopologySnapshot.mk "m" revision ns [] None None.
Definition machine (revision : Z) (ns : list Pb.NodeTopology.t) : MachineTopology.t :=
  from_snapshot "m" (Some (snapshot revision ns)).

Definition old : MachineTopology.t := machine 4 [pb_node "n" [pb_user "u" "1"; pb_user "v" "1"]].
Definition new : MachineTopology.t := machine 5 [pb_node "n" [pb_user "u" "2"; pb_user "v" "1"]].

Definition md (s : string) : string := s.
Definition r0 : plane := mkPlane MT.default [].
Definition run (ops : list manager_op) (s : manager plane) : manager plane := manager_run "m" md ops s.
Definition s1 : manager plane := run [OpInitial None old] (manager_new r0).
Definition rotate : Pb.TopologyDelta.t := Pb.TopologyDelta.mk 4 5 []
  [Pb.UserMutation.mk 1 "m" "n" (Some (pb_user "u" "2")) 5 false].
Definition add_bad : Pb.TopologyDelta.t := Pb.TopologyDelta.mk 4 5
  [Pb.NodeMutation.mk 1 (Some (pb_node "bad" [])) ""] [].
Definition request : UserRefreshRequest.t :=
  UserRefreshRequest.mk "n" [user "v" "1"] None (AdvanceTo 6).

Lemma machine_ok revision ns : 0 <= revision -> topology_ok (machine revision ns).
Proof. split; [apply coherent_from_snapshot|]. unfold machine, from_snapshot. by rewrite default_machine_revision. Qed.

Lemma s1_reachable : reachable "m" md s1.
Proof.
  exists r0, [OpInitial None old]. split; [done|]. split; [|done]. constructor; [|done]. by apply machine_ok.
Qed.

Lemma stale_users_exact_witness :
  exists ids, stale_credential_topology_users old new !! "n" = Some ids /\ "u" ∈ ids.
Proof.
  apply (stale_users_exact old new "n" "u").
  - split; [apply (bool_decide_unpack _); vm_compute; exact I|].
    apply (bool_decide_unpack _). vm_compute. exact I.
  - split; [apply (bool_decide_unpack _); vm_compute; exact I|].
    apply (bool_decide_unpack _). vm_compute. exact I.
  - exists "1". split.
    + eexists _, (user "u" "1"). split_and!; [by left|done|by left|done..].
    + intros (n & u & Hn & _ & Hu & Hid & _ & Hc). apply list_elem_of_singleton in Hn. subst n.
      cbn in Hu. rewrite !elem_of_cons in Hu. destruct Hu as [->|[->|Hu]]; [done|done|by apply elem_of_nil in Hu].
Defined.

Lemma manager_consistent_witness : same_but_revision (topology s1) (rt_active (runtime s1)).
Proof. apply (manager_consistent "m" md s1); [done|apply s1_reachable]. Defined.

Lemma failure_publishes_nothing_witness :
  topology (manager_step "m" md (OpDelta None (Some add_bad)) s1).1 = topology s1.
Proof.
  apply (failure_publishes_nothing "m" md (OpDelta None (Some add_bad)) s1);
    [done|apply s1_reachable|done|vm_compute; reflexivity].
Defined.

Lemma revision_monotone_witness : 4 <= MachineTopology.revision (topology (run [OpDelta None (Some rotate)] s1)).
Proof.
  apply (revision_monotone "m" md [OpDelta None (Some rotate)] s1);
    [done|apply s1_reachable|by repeat constructor].
Defined.

(** Nothing was published during the fetch: the reload goes through. *)
Lemma fetch_not_overtaken_witness : topology (run [OpReconcile None] s1) = topology s1.
Proof.
  apply (fetch_not_overtaken "m" md [OpReconcile None] s1 (OpReload None 1 (Fetched new)) None new
    (manager_step "m" md (OpReload None 1 (Fetched new)) (run [OpReconcile None] s1)).1);
    [done|apply s1_reachable|by repeat constructor|vm_compute; reflexivity|right; reflexivity|vm_compute; reflexivity].
Defined.

Lemma not_admitted_witness :
  manager_step "m" md (OpDelta (Some 0%nat) (Some rotate)) (run [OpCancelSession 0] s1)
  = (run [OpCancelSession 0] s1, false).
Proof. apply (not_admitted "m" md _ (Some 0%nat)); [reflexivity|right; vm_compute; reflexivity]. Defined.

Lemma refresh_exact_witness :
  exists node found, find_first (node_is "n") (MachineTopology.nodes (topology s1)) = Some node /\
    compare_node_users (NodeInstance.users node) [user "v" "1"] = Ok found.
Proof.
  destruct (refresh_exact "m" None request s1 (refresh_owned "m" None request s1).1
    (UserRefreshChanges.mk 0 0 1 true)) as (node & found & Hn & Hc & _); [vm_compute; reflexivity|].
  exists node, found. split; [exact Hn|exact Hc].
Defined.

Definition reloaded := reload_end "m" md None 1 (Fetched new) s1.

Lemma reload_exact_witness : topology reloaded.1 = new.
Proof.
  destruct reloaded as [s2 [res|e]] eqn:E; [|vm_compute in E; discriminate E].
  destruct (reload_exact "m" md None 1 (Fetched new) s1 s2 res E) as (t & Ht & _ & [Hs _] & _).
  injection Ht as <-. exact Hs.
Defined.

(** The same reload, prepared against an older publication. *)
Definition late := reload_end "m" md None 0 (Fetched new) s1.

Lemma reload_failed_witness : topology late.1 = topology s1.
Proof.
  destruct late as [s2 [res|e]] eqn:E; [vm_compute in E; discriminate E|].
  apply (reload_failed "m" md None 0 (Fetched new) s1 s2 e E).
Defined.

Lemma loaded_page_exact_witness :
  (loaded_users_page "n" 1 u64_max s1).2 = Ok (2, [user "v" "1"]).
Proof.
  rewrite (loaded_page_exact "n" 1 u64_max s1 (of_pb_NodeTopology (pb_node "n" [pb_user "u" "1"; pb_user "v" "1"])));
    [|reflexivity|reflexivity|discriminate|split; discriminate|split; discriminate].
  cbn [snd]. rewrite take_ge; [reflexivity|]. apply Nat2Z.inj_le. rewrite Z2Nat.id; [|discriminate]. discriminate.
Defined.
End ManagerExample.
