(* ===== verification/Adapter.v ===== *)
(** * The topology adapter: [NodeRuntimeTopologyAdapter] of [crates/node-agent/src/topology/manager.rs]

    One transaction over two planes: the forwarding plan of the port router and
    the configuration of the shoes runtime.  Every operation holds the adapter's
    own [operation] lock and runs in an owned task, so it is one step.

    The route compiler ([crates/node-agent/src/compile.rs]) is the parameter
    [compile_with_route]; the shoes runtime is the interface [NodeRuntime]; the
    port router is the interface [PortRouter], which the manager of
    [PortHopping] implements.

    Theorems: a successful operation leaves both planes on the candidate; a
    failed one whose error does not say that the rollback is incomplete leaves
    both planes on the previous topology; and the adapter implements the
    [TopologyRuntime] interface that the theorems of [ManagerSpec] rely on. *)

From Stdlib Require Import ZArith Lia.
From S2P Require Import Prelude Bytes PortRanges Topology Provider PortHopping PortErrors Mutation Manager.

Open Scope Z_scope.

(** ** The two planes *)

Module RuntimeError.
Record t : Type := mk {
  operation : string;
  rollback : option string;
  rolled_back : bool;
  state_unchanged : bool;
  running : bool
}.

Definition external (operation : string) (rolled_back state_unchanged running : bool) : t :=
  mk operation None rolled_back state_unchanged running.

Definition unchanged (operation : string) (running : bool) : t := mk operation None false true running.

Definition failed (operation : string) (rollback : list string)
    (rolled_back state_unchanged running : bool) : t :=
  mk operation (match rollback with [] => None | _ => Some (join "; " rollback) end)
    rolled_back state_unchanged running.

Definition to_string (self : t) : string :=
  operation self +:+
  match rollback self with
  | Some rollback => "; rollback failed: " +:+ rollback
  | None => if rolled_back self then "; previous runtime state restored" else ""
  end.
End RuntimeError.

Module RuntimeHealthSnapshot.
Record t : Type := mk { running : bool; failure : option string }.
End RuntimeHealthSnapshot.

(** [trait NodeRuntime]: what the adapter uses of it. *)
Class NodeRuntime (N Cfg : Type) : Type := {
  nr_traffic_analysis_disabled : N -> bool;
  nr_apply_config : Cfg -> stm N RuntimeError.t unit;
  nr_reload_config : Cfg -> stm N RuntimeError.t ReloadStatus.t;
  nr_current_config : N -> string;
  nr_begin_close : N -> N;
  nr_close : stm N RuntimeError.t unit;
  nr_health : N -> option RuntimeHealthSnapshot.t;
  nr_close_user_connections : string -> string -> N -> N * Z
}.

(** [trait PortRouter] *)
Class PortRouter (P : Type) : Type := {
  pr_reconcile : Plan -> stm P BoxError unit;
  pr_close : stm P BoxError unit
}.

(** The port-hopping manager is the production router. *)
Section manager_router.
Context {B : Type} (backend_apply : B -> Plan -> B * result BoxError unit).

Definition router_error (e : @ManagerError BoxError) : BoxError :=
  match e with RouterClosed => RouterClosedError | BackendFailed e => e end.

Definition manager_router : PortRouter (manager_state B) := {|
  pr_reconcile desired := fun s =>
    let '(s, r) := manager_reconcile backend_apply s desired in (s, map_err router_error r);
  pr_close := fun s =>
    let '(s, r) := manager_close backend_apply s in (s, map_err router_error r)
|}.
End manager_router.

(** ** State *)

Record PreparedReload (Cfg : Type) : Type := mkPrepared {
  candidate : MachineTopology.t;
  desired_plan : Plan;
  previous_plan : Plan;
  previous_config : option Cfg;
  previous_had_topology : bool;
  pr_warnings : list string;
  configured : bool
}.
Arguments mkPrepared {Cfg}. Arguments candidate {Cfg}. Arguments desired_plan {Cfg}.
Arguments previous_plan {Cfg}. Arguments previous_config {Cfg}.
Arguments previous_had_topology {Cfg}. Arguments pr_warnings {Cfg}. Arguments configured {Cfg}.

(** [AdapterInner] with its [AdapterState]. *)
Record adapter (N P Cfg : Type) : Type := mkAdapter {
  node_runtime : N;
  router : P;
  closing : bool;
  active_topology : MachineTopology.t;
  active_plan : Plan;
  active_warnings : list string;
  pending_reload : option (PreparedReload Cfg)
}.
Arguments mkAdapter {N P Cfg}. Arguments node_runtime {N P Cfg}. Arguments router {N P Cfg}.
Arguments closing {N P Cfg}. Arguments active_topology {N P Cfg}. Arguments active_plan {N P Cfg}.
Arguments active_warnings {N P Cfg}. Arguments pending_reload {N P Cfg}.

Inductive RuntimeFailureMode : Type := OrdinaryApply | ForcedReload.

Module RuntimeFailureState.
Record t : Type := mk { operation : string; rolled_back : bool; unchanged : bool; running : bool }.
Definition from (error : RuntimeError.t) : t :=
  mk (RuntimeError.to_string error) (RuntimeError.rolled_back error)
    (RuntimeError.state_unchanged error) (RuntimeError.running error).
End RuntimeFailureState.

Module CompileOutput.
Record t (Cfg : Type) : Type := mk { runtime : Cfg; warnings : list string }.
Arguments mk {Cfg}. Arguments runtime {Cfg}. Arguments warnings {Cfg}.
End CompileOutput.

(** [{:?}] of an optional text without characters to escape. *)
Definition quote : string := String (Ascii.ascii_of_nat 34) "".
Definition debug_option (o : option string) : string :=
  match o with Some s => "Some(" +:+ quote +:+ s +:+ quote +:+ ")" | None => "None" end.

Definition is_some {A} (o : option A) : bool := match o with Some _ => true | None => false end.

Section adapter.
Context {N P Cfg : Type} `{!NodeRuntime N Cfg} `{!PortRouter P}.
Context {CompileError JsonError : Type} `{!Display CompileError} `{!Display (@PlanError JsonError)}.
Context (from_slice : string -> result JsonError Hysteria2SalamanderConfig.t).
Context (compile_with_route :
  MachineTopology.t -> option Route.t -> result CompileError (CompileOutput.t Cfg)).

Local Abbreviation adapter := (adapter N P Cfg).
Local Abbreviation method := (stm adapter TopologyError.t).
Local Abbreviation failing := (adapter -> adapter * TopologyError.t).
Implicit Types a : adapter.

Definition adapter_new (n : N) (p : P) : adapter := mkAdapter n p false MT.default plan_default [] None.

Definition set_node_runtime (n : N) a : adapter :=
  mkAdapter n (router a) (closing a) (active_topology a) (active_plan a) (active_warnings a) (pending_reload a).
Definition set_router (p : P) a : adapter :=
  mkAdapter (node_runtime a) p (closing a) (active_topology a) (active_plan a) (active_warnings a) (pending_reload a).
Definition set_closing a : adapter :=
  mkAdapter (node_runtime a) (router a) true (active_topology a) (active_plan a) (active_warnings a) (pending_reload a).
Definition set_active (t : MachineTopology.t) (plan : Plan) (warnings : list string) a : adapter :=
  mkAdapter (node_runtime a) (router a) (closing a) t plan warnings (pending_reload a).
Definition set_pending (p : option (PreparedReload Cfg)) a : adapter :=
  mkAdapter (node_runtime a) (router a) (closing a) (active_topology a) (active_plan a) (active_warnings a) p.

(** Calls into the two planes, with the plane's own error. *)
Definition on_node {A} (m : stm N RuntimeError.t A) : stm adapter RuntimeError.t A := fun a =>
  let '(n, r) := m (node_runtime a) in (set_node_runtime n a, r).
Definition on_router {A} (m : stm P BoxError A) : stm adapter BoxError A := fun a =>
  let '(p, r) := m (router a) in (set_router p a, r).
Definition reconcile_ports (plan : Plan) : stm adapter BoxError unit := on_router (pr_reconcile plan).
Definition close_ports : stm adapter BoxError unit := on_router pr_close.

(** [if let Err(error) = m { return Err(handler(error).await) }] *)
Definition or_fail {E A} (m : stm adapter E A) (handler : E -> failing) : method A := fun a =>
  match m a with
  | (a, Ok x) => (a, Ok x)
  | (a, Err e) => let '(a, error) := handler e a in (a, Err error)
  end.

(** [return Err(handler().await)] *)
Definition fail_with {A} (handler : failing) : method A := fun a =>
  let '(a, error) := handler a in (a, Err error).

(** ** Compiling *)

(** Top-level sniff actions are removed when traffic analysis is disabled. *)
Definition route_set_rules (rules : list RouteRule.t) (route : Route.t) : Route.t :=
  Route.mk rules (Route.rule_sets route) (Route.final_ route) (Route.auto_detect_interface route)
    (Route.default_interface route) (Route.default_mark route) (Route.find_process route)
    (Route.geoip route) (Route.geosite route) (Route.override_android_vpn route)
    (Route.default_domain_resolver route) (Route.default_network_strategy route)
    (Route.default_network_type route) (Route.default_fallback_network_type route)
    (Route.default_fallback_delay route).

Definition is_sniff (rule : RouteRule.t) : bool := bool_decide (RouteRule.action rule = "sniff").

Definition effective_route (route : option Route.t) : option Route.t :=
  match route with
  | Some r =>
      if existsb is_sniff (Route.rules r)
      then Some (route_set_rules (retain (fun rule => negb (is_sniff rule)) (Route.rules r)) r)
      else route
  | None => None
  end.

Definition compile_with_local_overrides (topology : MachineTopology.t) (disable_traffic_analysis : bool)
    : result CompileError (CompileOutput.t Cfg) :=
  if negb disable_traffic_analysis
  then compile_with_route topology (MachineTopology.route topology)
  else compile_with_route topology (effective_route (MachineTopology.route topology)).

Definition compile_for (what : string) (topology : MachineTopology.t) : method (CompileOutput.t Cfg) :=
  a ← get;
  lift (map_err (fun error => TopologyError.runtime (what +:+ display error) false)
          (compile_with_local_overrides topology (nr_traffic_analysis_disabled (node_runtime a)))).

Definition plan_for (what : string) (topology : MachineTopology.t) : method Plan :=
  lift (map_err (fun error => TopologyError.runtime (what +:+ display error) false)
          (build_plan from_slice topology)).

(** The plan and configuration to go back to. *)
Definition previous_state : method (Plan * option Cfg * bool) :=
  a ← get;
  plan ← plan_for "build previous port hopping forwarding configuration: " (active_topology a);
  let had_topology := negb (is_empty (MachineTopology.machine_id (active_topology a))) in
  config ← if had_topology
           then
             output ← compile_for "compile previous shoes configuration for rollback: " (active_topology a);
             mret (Some (CompileOutput.runtime output))
           else mret None;
  mret (plan, config, had_topology).

(** ** Failure handling *)

(** The forwarding plan went wrong: restore the previous one when the state is
    uncertain. *)
Definition restore_ports (message : string) (previous_plan : Plan) (previous_had_topology : bool)
    : failing := fun a =>
  match reconcile_ports previous_plan a with
  | (a, Ok _) =>
      (a, if previous_had_topology
          then TopologyError.runtime_state (message +:+ "; previous forwarding state restored") true true
          else TopologyError.runtime message false)
  | (a, Err rollback) =>
      (a, TopologyError.with_rollback_stage (TopologyError.runtime_state
            (message +:+ "; rollback incomplete: restore previous port hopping forwarding state: "
             +:+ show rollback) false true))
  end.

Definition port_configuration_failure (previous_plan : Plan) (previous_had_topology : bool)
    (error : BoxError) : failing := fun a =>
  let message := "configure port hopping forwarding: " +:+ show error in
  if negb (is_state_uncertain error) then (a, TopologyError.runtime message false)
  else restore_ports message previous_plan previous_had_topology a.

Definition prepared_reload_protocol_failure (message : string) (pending : PreparedReload Cfg)
    : failing := fun a =>
  if negb (configured pending) then (a, TopologyError.runtime message false)
  else restore_ports message (previous_plan pending) (previous_had_topology pending) a.

(** The runtime failed: restore the forwarding plan, then the configuration unless
    the runtime is known to be intact. *)
Definition runtime_transaction_failure_parts (failure : RuntimeFailureState.t)
    (port_hopping : Plan) (config : option Cfg) (had_topology : bool) (mode : RuntimeFailureMode)
    : failing := fun a =>
  let '(a, ports) := reconcile_ports port_hopping a in
  let rollback_errors :=
    match ports with
    | Ok _ => []
    | Err error => ["restore previous port hopping forwarding state: " +:+ show error]
    end in
  let rolled_back := RuntimeFailureState.rolled_back failure in
  let unchanged := RuntimeFailureState.unchanged failure in
  let closing_with_intact_runtime := closing a && (unchanged || rolled_back) in
  let mode_restores :=
    match mode with OrdinaryApply => true | ForcedReload => negb (rolled_back || unchanged) end in
  let '(a, rollback_errors, restored_runtime, running) :=
    match config with
    | Some config =>
        if negb closing_with_intact_runtime && mode_restores
        then
          match on_node (nr_apply_config config) a with
          | (a, Ok _) => (a, rollback_errors, true, true)
          | (a, Err error) =>
              (a, rollback_errors ++ ["restore previous shoes configuration: " +:+ RuntimeError.to_string error],
               false, false)
          end
        else (a, rollback_errors, false, RuntimeFailureState.running failure)
    | None => (a, rollback_errors, false, RuntimeFailureState.running failure)
    end in
  let runtime_restored :=
    restored_runtime || rolled_back
    || (match mode with OrdinaryApply => true | ForcedReload => false end && unchanged) in
  let complete := match rollback_errors with [] => true | _ => false end in
  let restored := complete && had_topology && running && runtime_restored in
  let message := "start/apply shoes runtime: " +:+ RuntimeFailureState.operation failure +:+
    (if negb complete then "; rollback incomplete: " +:+ join "; " rollback_errors
     else if restored then "; previous topology restored" else "") in
  let error := TopologyError.runtime_state message restored running in
  (a, if negb complete || restored then TopologyError.with_rollback_stage error else error).

Definition runtime_transaction_failure (previous_plan : Plan) (previous_config : option Cfg)
    (previous_had_topology : bool) (mode : RuntimeFailureMode) (error : RuntimeError.t) : failing :=
  runtime_transaction_failure_parts (RuntimeFailureState.from error) previous_plan previous_config
    previous_had_topology mode.

(** ** Operations *)

Definition adapter_begin_close a : adapter :=
  let a := set_closing a in set_node_runtime (nr_begin_close (node_runtime a)) a.

Definition adapter_apply (topology : MachineTopology.t) : method unit :=
  output ← compile_for "compile topology: " topology;
  desired_plan ← plan_for "build port hopping forwarding configuration: " topology;
  '(previous_plan, previous_config, previous_had_topology) ← previous_state;
  _ ← or_fail (reconcile_ports desired_plan)
        (port_configuration_failure previous_plan previous_had_topology);
  _ ← or_fail (on_node (nr_apply_config (CompileOutput.runtime output)))
        (runtime_transaction_failure previous_plan previous_config previous_had_topology OrdinaryApply);
  modify (fun a => set_pending None (set_active topology desired_plan (CompileOutput.warnings output) a)).

(** Recovery of a dead listener: the published topology is reloaded, and the
    runtime must be healthy afterwards. *)
Definition recover (topology : MachineTopology.t) (failures : list string) (failure : string)
    : method (list string) :=
  recovery ← compile_for ("compile current topology to recover " +:+ failure +:+ ": ") topology;
  ((fun a =>
    match on_node (nr_reload_config (CompileOutput.runtime recovery)) a with
    | (a, Ok _) =>
        (a, Ok (match nr_health (node_runtime a) with
                | Some after =>
                    if is_some (RuntimeHealthSnapshot.failure after) || negb (RuntimeHealthSnapshot.running after)
                    then failures ++ ["runtime still unhealthy after recovery of " +:+ failure +:+ ": "
                                      +:+ debug_option (RuntimeHealthSnapshot.failure after)]
                    else failures
                | None => failures ++ ["runtime health unavailable after recovery of " +:+ failure]
                end))
    | (a, Err error) =>
        (a, Ok (failures ++ ["recover stopped shoes listener (" +:+ failure +:+ "): "
                             +:+ RuntimeError.to_string error]))
    end) : method (list string)).

Definition adapter_reconcile_current (current : MachineTopology.t) : method unit :=
  plan ← plan_for "build current port hopping forwarding state: " current;
  failures ← (fun a =>
    match reconcile_ports plan a with
    | (a, Ok _) => (a, Ok [])
    | (a, Err error) =>
        (a, Ok ["reconcile current port hopping forwarding state: " +:+ show error])
    end);
  a ← get;
  failures ← match from_option RuntimeHealthSnapshot.failure None (nr_health (node_runtime a)) with
             | Some failure => recover current failures failure
             | None => mret failures
             end;
  match failures with
  | [] => modify (fun a => set_active current plan (active_warnings a) a)
  | _ =>
      a ← get;
      let running := from_option RuntimeHealthSnapshot.running false (nr_health (node_runtime a)) in
      raise (TopologyError.runtime_state (join "; " failures) false running)
  end.

Definition adapter_close : method unit := fun a =>
  let a := adapter_begin_close a in
  let '(a, ports) := close_ports a in
  let a := match ports with
           | Ok _ => set_pending None (set_active (active_topology a) plan_default (active_warnings a) a)
           | Err _ => a
           end in
  let '(a, runtime) := on_node nr_close a in
  match ports, runtime with
  | Ok _, Ok _ => (a, Ok tt)
  | _, _ =>
      let running := match runtime with Err e => RuntimeError.running e | Ok _ => false end in
      let messages :=
        (match ports with Err e => ["close port hopping forwarding: " +:+ show e] | Ok _ => [] end)
        ++ (match runtime with Err e => ["close shoes runtime: " +:+ RuntimeError.to_string e] | Ok _ => [] end) in
      (a, Err (TopologyError.runtime_state (join "; " messages) false running))
  end.

Definition adapter_prepare_reload (topology : MachineTopology.t) : method Cfg :=
  output ← compile_for "compile topology: " topology;
  desired_plan ← plan_for "build port hopping forwarding configuration: " topology;
  a ← get;
  if from_option configured false (pending_reload a)
  then raise (TopologyError.runtime "a configured forced reload transaction is already pending" false)
  else
    _ ← modify (set_pending None);
    '(previous_plan, previous_config, previous_had_topology) ← previous_state;
    _ ← modify (set_pending (Some (mkPrepared topology desired_plan previous_plan previous_config
                  previous_had_topology (CompileOutput.warnings output) false)));
    mret (CompileOutput.runtime output).

Definition no_transaction : TopologyError.t :=
  TopologyError.runtime "forced reload has no prepared transaction" false.

Definition set_configured (p : PreparedReload Cfg) : PreparedReload Cfg :=
  mkPrepared (candidate p) (desired_plan p) (previous_plan p) (previous_config p)
    (previous_had_topology p) (pr_warnings p) true.

Definition adapter_configure_reload (topology : MachineTopology.t) : method unit :=
  a ← get;
  pending ← lift (ok_or no_transaction (pending_reload a));
  if negb (bool_decide (candidate pending = topology))
  then
    _ ← modify (set_pending None);
    raise (TopologyError.runtime "forced reload candidate changed after preparation" false)
  else
    _ ← or_fail (reconcile_ports (desired_plan pending)) (fun error a =>
          port_configuration_failure (previous_plan pending) (previous_had_topology pending) error
            (set_pending None a));
    a ← get;
    pending ← lift (ok_or (TopologyError.runtime "forced reload transaction disappeared" false)
                      (pending_reload a));
    modify (set_pending (Some (set_configured pending))).

(** [Ok(_)] without a running instance is handled like a runtime error. *)
Definition not_running : RuntimeFailureState.t :=
  RuntimeFailureState.mk "forced reload completed without a running shoes instance" false false false.

Definition adapter_reload_prepared (topology : MachineTopology.t) (prepared : Cfg)
    : method ReloadStatus.t :=
  a ← get;
  pending ← lift (ok_or no_transaction (pending_reload a));
  _ ← modify (set_pending None);
  if negb (bool_decide (candidate pending = topology))
  then fail_with (prepared_reload_protocol_failure
         "forced reload candidate changed after port configuration" pending)
  else if negb (configured pending)
  then raise (TopologyError.runtime "forced reload port hopping was not configured" false)
  else
    status ← or_fail (on_node (nr_reload_config prepared))
               (runtime_transaction_failure (previous_plan pending) (previous_config pending)
                  (previous_had_topology pending) ForcedReload);
    if negb (ReloadStatus.running status)
    then fail_with (runtime_transaction_failure_parts not_running (previous_plan pending)
           (previous_config pending) (previous_had_topology pending) ForcedReload)
    else
      _ ← modify (set_active topology (desired_plan pending) (pr_warnings pending));
      mret status.

Definition adapter_close_user_connections (node_id user_id : string) a : adapter * Z :=
  let '(n, closed) := nr_close_user_connections node_id user_id (node_runtime a) in
  (set_node_runtime n a, closed).

(** The adapter is the production [TopologyRuntime]. *)
#[export] Instance adapter_runtime : TopologyRuntime adapter Cfg := {|
  rt_apply := adapter_apply;
  rt_close_user_connections := adapter_close_user_connections;
  rt_current_config a := nr_current_config (node_runtime a);
  rt_warnings := active_warnings;
  rt_reconcile_current := adapter_reconcile_current;
  rt_begin_close := adapter_begin_close;
  rt_close := adapter_close;
  rt_prepare_reload := adapter_prepare_reload;
  rt_configure_reload := adapter_configure_reload;
  rt_reload_prepared := adapter_reload_prepared
|}.
End adapter.
