(* ===== verification/AdapterSpec.v ===== *)
(** * What the topology adapter guarantees

    The two planes are used through their contracts: [NodeRuntimeLaws], what
    [RuntimeError] documents, and [PortRouterLaws], what the trait [Backend]
    documents and the manager of [PortHopping] passes on. *)

From Stdlib Require Import ZArith Lia.
From S2P Require Import Prelude Bytes PortRanges Topology Provider Convert PortHopping PortErrors.
From S2P Require Import Mutation Manager ManagerSpec Adapter.

Open Scope Z_scope.

(** What the runtime serves: a success serves the given configuration; an error
    that reports a rollback or an unchanged state still serves what it did. *)
Class NodeRuntimeLaws (N Cfg : Type) `{!NodeRuntime N Cfg} : Type := {
  nr_serves : N -> Cfg -> Prop;
  serves_apply c n n' res : nr_apply_config c n = (n', res) ->
    match res with
    | Ok _ => nr_serves n' c
    | Err e => RuntimeError.rolled_back e || RuntimeError.state_unchanged e = true ->
        forall c0, nr_serves n c0 -> nr_serves n' c0
    end;
  serves_reload c n n' res : nr_reload_config c n = (n', res) ->
    match res with
    | Ok status => ReloadStatus.running status = true -> nr_serves n' c
    | Err e => RuntimeError.rolled_back e || RuntimeError.state_unchanged e = true ->
        forall c0, nr_serves n c0 -> nr_serves n' c0
    end;
  (** the process policy is no part of a configuration *)
  policy_apply c n :
    nr_traffic_analysis_disabled (nr_apply_config c n).1 = nr_traffic_analysis_disabled n;
  policy_reload c n :
    nr_traffic_analysis_disabled (nr_reload_config c n).1 = nr_traffic_analysis_disabled n;
  (** closing connections is no part of it either *)
  serves_close_user node user n c :
    nr_serves n c -> nr_serves (nr_close_user_connections node user n).1 c;
  policy_close_user node user n :
    nr_traffic_analysis_disabled (nr_close_user_connections node user n).1 = nr_traffic_analysis_disabled n
}.

Class PortRouterLaws (P : Type) `{!PortRouter P} : Type := {
  pr_installed : P -> Plan;
  installed_reconcile plan p p' res : pr_reconcile plan p = (p', res) ->
    match res with
    | Ok _ => pr_installed p' = plan
    | Err e => is_state_uncertain e = false -> pr_installed p' = pr_installed p
    end
}.

(** The port-hopping manager keeps the contract of its backend. *)
Section manager_router.
Context {B : Type} (backend_apply : B -> Plan -> B * result BoxError unit) (installed : B -> Plan)
  `{!BackendContract backend_apply is_state_uncertain installed}.
#[local] Instance the_router : PortRouter (manager_state B) := manager_router backend_apply.

Definition manager_router_laws : PortRouterLaws (manager_state B).
Proof.
  refine {| pr_installed s := installed (backend _ s) |}.
  intros plan s s' res. cbn. unfold manager_reconcile, manager_apply.
  destruct (closed _ s); [by intros [= <- <-]|].
  destruct (backend_apply (backend B s) plan) as [b [[]|e]] eqn:E; intros [= <- <-]; cbn.
  - eapply backend_ok, E.
  - intros He. by eapply backend_err.
Defined.
End manager_router.

Section spec.
Context {N P Cfg : Type} `{!NodeRuntime N Cfg} `{!PortRouter P}.
Context {CompileError JsonError : Type} `{!Display CompileError} `{!Display (@PlanError JsonError)}.
Context (from_slice : string -> result JsonError Hysteria2SalamanderConfig.t).
Context (compile_with_route :
  MachineTopology.t -> option Route.t -> result CompileError (CompileOutput.t Cfg)).

Local Abbreviation adapter := (adapter N P Cfg).
Local Abbreviation apply := (adapter_apply from_slice compile_with_route).
Local Abbreviation prepare := (adapter_prepare_reload from_slice compile_with_route).
Local Abbreviation reconcile := (adapter_reconcile_current from_slice compile_with_route).
Local Abbreviation compile := (compile_with_local_overrides compile_with_route).
Implicit Types a : adapter.

(** ** The published topology of the adapter *)

(** A method that leaves [active_topology] alone, in every outcome. *)
Definition keeps {E A} (m : stm adapter E A) : Prop :=
  forall a, active_topology (m a).1 = active_topology a.

Lemma keeps_bind {E A B} (m : stm adapter E A) (f : A -> stm adapter E B) :
  keeps m -> (forall x, keeps (f x)) -> keeps (m ≫= f).
Proof.
  intros Hm Hf a. specialize (Hm a). unfold mbind, stm_bind. destruct (m a) as [a1 [x|e]]; cbn in *; [|done].
  by rewrite Hf.
Qed.

Lemma keeps_node {A} (m : stm N RuntimeError.t A) : keeps (on_node m).
Proof. intros a. unfold on_node. by destruct (m (node_runtime a)). Qed.
Lemma keeps_router {A} (m : stm P BoxError A) : keeps (on_router m).
Proof. intros a. unfold on_router. by destruct (m (router a)). Qed.
Lemma keeps_reconcile plan : keeps (reconcile_ports plan).
Proof. apply keeps_router. Qed.
Lemma keeps_pure {E A} (f : adapter -> result E A) : keeps (fun a => (a, f a)).
Proof. done. Qed.
Lemma keeps_pending {E} p : keeps (modify (set_pending p) : stm adapter E unit).
Proof. done. Qed.

Definition handler_keeps (h : adapter -> adapter * TopologyError.t) : Prop :=
  forall a, active_topology (h a).1 = active_topology a.

Lemma keeps_or_fail {E A} (m : stm adapter E A) h :
  keeps m -> (forall e, handler_keeps (h e)) -> keeps (or_fail m h).
Proof.
  intros Hm Hh a. specialize (Hm a). unfold or_fail. destruct (m a) as [a1 [x|e]]; cbn in *; [done|].
  specialize (Hh e a1). destruct (h e a1). cbn in *. congruence.
Qed.

Lemma keeps_fail_with {A} h : handler_keeps h -> keeps (fail_with (A := A) h).
Proof. intros H a. specialize (H a). unfold fail_with. by destruct (h a). Qed.

Lemma restore_keeps msg plan had : handler_keeps (restore_ports (N := N) (Cfg := Cfg) msg plan had).
Proof.
  intros a. unfold restore_ports. pose proof (keeps_router (pr_reconcile plan) a) as H.
  unfold reconcile_ports. by destruct (on_router (pr_reconcile plan) a) as [a1 [[]|e]].
Qed.

Lemma port_failure_keeps plan had e : handler_keeps (port_configuration_failure plan had e).
Proof. intros a. unfold port_configuration_failure. destruct (negb _); [done|]. apply restore_keeps. Qed.

Lemma protocol_failure_keeps msg p : handler_keeps (prepared_reload_protocol_failure msg p).
Proof. intros a. unfold prepared_reload_protocol_failure. destruct (negb _); [done|]. apply restore_keeps. Qed.

Lemma runtime_failure_keeps f plan config had mode :
  handler_keeps (runtime_transaction_failure_parts f plan config had mode).
Proof.
  intros a. unfold runtime_transaction_failure_parts, reconcile_ports.
  pose proof (keeps_router (pr_reconcile plan) a) as H1.
  destruct (on_router (pr_reconcile plan) a) as [a1 ports]. cbn in H1.
  destruct config as [c|]; [|done]. destruct (_ && _); [|done].
  pose proof (keeps_node (nr_apply_config c) a1) as H2.
  destruct (on_node (nr_apply_config c) a1) as [a2 [[]|e]]; cbn in *; congruence.
Qed.
Hint Resolve keeps_bind keeps_node keeps_router keeps_reconcile keeps_pending keeps_or_fail keeps_fail_with restore_keeps
  port_failure_keeps protocol_failure_keeps runtime_failure_keeps : node.

Lemma keeps_compile what t : keeps (compile_for compile_with_route what t).
Proof. done. Qed.
Lemma keeps_plan what t : keeps (plan_for from_slice what t : stm adapter _ _).
Proof. done. Qed.

Lemma keeps_previous : keeps (previous_state from_slice compile_with_route).
Proof.
  apply keeps_bind; [done|]. intros a. apply keeps_bind; [done|]. intros plan.
  apply keeps_bind; [|done]. destruct (negb _); [|done]. by apply keeps_bind.
Qed.
Hint Resolve keeps_compile keeps_plan keeps_previous : node.

(** A method that, when it succeeds (with an answer [g] accepts), makes [t] the
    published topology, and leaves it alone otherwise. *)
Definition lands {A} (g : A -> bool) (t : MachineTopology.t) (m : stm adapter TopologyError.t A) : Prop :=
  forall a a' res, m a = (a', res) ->
    active_topology a' = match res with Ok x => if g x then t else active_topology a | Err _ => active_topology a end.

Lemma lands_bind {A B} g t (m : stm adapter TopologyError.t A) (f : A -> stm adapter TopologyError.t B) :
  keeps m -> (forall x, lands g t (f x)) -> lands g t (m ≫= f).
Proof.
  intros Hm Hf a a' res. specialize (Hm a). unfold mbind, stm_bind. destruct (m a) as [a1 [x|e]]; cbn in *.
  - intros H%Hf. rewrite H, Hm. done.
  - by intros [= <- <-].
Qed.

Lemma keeps_lands {A} g t (m : stm adapter TopologyError.t A) :
  keeps m -> (forall a a' x, m a = (a', Ok x) -> g x = false) -> lands g t m.
Proof.
  intros Hm Hno a a' res E. specialize (Hm a). rewrite E in Hm. cbn in Hm.
  destruct res as [x|e]; [|done]. by rewrite (Hno _ _ _ E).
Qed.

Lemma apply_lands t : lands (fun _ => true) t (apply t).
Proof.
  unfold adapter_apply. apply lands_bind; [auto with node|]. intros out.
  apply lands_bind; [auto with node|]. intros desired. apply lands_bind; [auto with node|].
  intros [[prev config] had]. apply lands_bind; [apply keeps_or_fail; auto with node|intros []].
  apply lands_bind; [|by intros [] a a' res [= <- <-]].
  apply keeps_or_fail; [auto with node|]. intros e. apply runtime_failure_keeps.
Qed.

Lemma recover_keeps t fs failure : keeps (recover compile_with_route t fs failure).
Proof.
  apply keeps_bind; [auto with node|]. intros out a.
  pose proof (keeps_node (nr_reload_config (CompileOutput.runtime out)) a) as H.
  by destruct (on_node _ a) as [a1 [st|e]].
Qed.

Lemma reconcile_lands t : lands (fun _ => true) t (reconcile t).
Proof.
  unfold adapter_reconcile_current. apply lands_bind; [auto with node|]. intros plan.
  apply lands_bind.
  { intros a. pose proof (keeps_router (pr_reconcile plan) a) as H. unfold reconcile_ports.
    by destruct (on_router _ a) as [a1 [[]|e]]. }
  intros fs. apply lands_bind; [done|]. intros a0. apply lands_bind.
  { destruct (from_option _ _ _); [apply recover_keeps|done]. }
  intros [|f fs']; [by intros a a' res [= <- <-]|].
  apply lands_bind; [done|]. by intros a1 a a' res [= <- <-].
Qed.

Lemma close_keeps : keeps (adapter_close (N := N) (P := P) (Cfg := Cfg)).
Proof.
  intros a. unfold adapter_close, close_ports.
  pose proof (keeps_router pr_close (adapter_begin_close a)) as H1.
  destruct (on_router pr_close (adapter_begin_close a)) as [a1 ports]. cbn in H1.
  set (a2 := match ports with Ok _ => _ | Err _ => a1 end).
  pose proof (keeps_node nr_close a2) as H2.
  assert (active_topology a2 = active_topology a1) as E by by unfold a2; destruct ports.
  destruct (on_node nr_close a2) as [a3 [[]|e]]; cbn in *; destruct ports as [[]|]; cbn; congruence.
Qed.

Lemma prepare_keeps t : keeps (prepare t).
Proof.
  unfold adapter_prepare_reload. apply keeps_bind; [auto with node|]. intros out.
  apply keeps_bind; [auto with node|]. intros plan. apply keeps_bind; [done|]. intros a0.
  destruct (from_option _ _ _); [done|]. apply keeps_bind; [done|]. intros _.
  apply keeps_bind; [auto with node|]. by intros [[? ?] ?].
Qed.

Lemma configure_keeps t : keeps (adapter_configure_reload (N := N) (Cfg := Cfg) t).
Proof.
  unfold adapter_configure_reload. apply keeps_bind; [done|]. intros a0. apply keeps_bind; [done|]. intros p.
  destruct (negb _); [done|]. apply keeps_bind.
  { apply keeps_or_fail; [apply keeps_router|]. intros e a. by rewrite port_failure_keeps. }
  intros []. apply keeps_bind; [done|]. intros a1. by apply keeps_bind.
Qed.

Lemma reload_lands t c : lands ReloadStatus.running t (adapter_reload_prepared t c).
Proof.
  unfold adapter_reload_prepared. apply lands_bind; [done|]. intros a0. apply lands_bind; [done|]. intros p.
  apply lands_bind; [done|]. intros _. destruct (negb (bool_decide _)).
  { apply keeps_lands; [auto with node|]. intros a a' x. unfold fail_with. by destruct (prepared_reload_protocol_failure _ _ a). }
  destruct (negb (configured p)); [by intros a a' res [= <- <-]|].
  apply lands_bind. { apply keeps_or_fail; [auto with node|]. intros e. apply runtime_failure_keeps. }
  intros st. destruct (ReloadStatus.running st) eqn:Er; cbn [negb].
  - intros a a' res [= <- <-]. cbn. by rewrite Er.
  - apply keeps_lands; [auto with node|]. intros a a' x. unfold fail_with.
    by destruct (runtime_transaction_failure_parts _ _ _ _ _ a).
Qed.

(** The adapter implements the interface of the topology manager: every theorem
    of [ManagerSpec] holds of the production data plane. *)
#[export] Instance adapter_laws :
  @TopologyRuntimeLaws adapter Cfg (adapter_runtime from_slice compile_with_route).
Proof.
  refine {| rt_active := active_topology |}; cbn.
  - intros t a a' res E. by rewrite (apply_lands t _ _ _ E).
  - intros n u a. unfold adapter_close_user_connections. by destruct (nr_close_user_connections _ _ _).
  - intros t a a' res E. by rewrite (reconcile_lands t _ _ _ E).
  - done.
  - apply close_keeps.
  - intros t a. apply prepare_keeps.
  - intros t a. apply configure_keeps.
  - intros t c a a' res E. apply (reload_lands t c _ _ _ E).
Defined.
End spec.

(** ** Transactions *)

Section transactions.
Context {N P Cfg : Type} `{!NodeRuntime N Cfg} `{!PortRouter P}.
Context `{!NodeRuntimeLaws N Cfg} `{!PortRouterLaws P}.
Context {CompileError JsonError : Type} `{!Display CompileError} `{!Display (@PlanError JsonError)}.
Context (from_slice : string -> result JsonError Hysteria2SalamanderConfig.t).
Context (compile_with_route :
  MachineTopology.t -> option Route.t -> result CompileError (CompileOutput.t Cfg)).

Local Abbreviation adapter := (adapter N P Cfg).
Local Abbreviation apply := (adapter_apply from_slice compile_with_route).
Local Abbreviation prepare := (adapter_prepare_reload from_slice compile_with_route).
Local Abbreviation compile := (compile_with_local_overrides compile_with_route).
Implicit Types a : adapter.

Definition policy a : bool := nr_traffic_analysis_disabled (node_runtime a).

(** The runtime serves [t] (an empty topology asks for nothing). *)
Definition serves_topology (t : MachineTopology.t) a : Prop :=
  MachineTopology.machine_id t <> "" ->
  exists output, compile t (policy a) = Ok output /\
    nr_serves (node_runtime a) (CompileOutput.runtime output).

(** Both planes carry [t]. *)
Definition carries (t : MachineTopology.t) (plan : Plan) a : Prop :=
  build_plan from_slice t = Ok plan /\ pr_installed (router a) = plan /\ serves_topology t a.

(** The adapter's own record is what both planes carry. *)
Definition healthy a : Prop := carries (active_topology a) (active_plan a) a.

(** An error that says nothing of an incomplete rollback. *)
Definition clean (e : TopologyError.t) : bool :=
  TopologyError.rolled_back e || negb (TopologyError.rollback_stage e).

(** What every step keeps: the adapter's record and the process policy. *)
Record same_record a a' : Prop := {
  same_topology : active_topology a' = active_topology a;
  same_plan : active_plan a' = active_plan a;
  same_policy : policy a' = policy a
}.

Lemma same_record_trans a1 a2 a3 : same_record a1 a2 -> same_record a2 a3 -> same_record a1 a3.
Proof. intros [] []. split; congruence. Qed.

Lemma router_step plan a a' res :
  reconcile_ports plan a = (a', res) ->
  same_record a a' /\ node_runtime a' = node_runtime a /\ pending_reload a' = pending_reload a /\
  match res with
  | Ok _ => pr_installed (router a') = plan
  | Err e => is_state_uncertain e = false -> pr_installed (router a') = pr_installed (router a)
  end.
Proof.
  unfold reconcile_ports, on_router. destruct (pr_reconcile plan (router a)) as [p r] eqn:E.
  intros [= <- <-]. split; [by split|]. split; [done|]. split; [done|]. by apply installed_reconcile in E.
Qed.

Lemma restore_spec msg plan had a a' e :
  restore_ports msg plan had a = (a', e) ->
  same_record a a' /\ node_runtime a' = node_runtime a /\
  (clean e = true -> pr_installed (router a') = plan).
Proof.
  unfold restore_ports. destruct (reconcile_ports plan a) as [a1 [[]|err]] eqn:E;
    apply router_step in E as (Hs & Hn & _ & Hi); intros [= <- <-]; by destruct had.
Qed.

Lemma port_failure_spec plan had err a a' e :
  port_configuration_failure plan had err a = (a', e) ->
  (is_state_uncertain err = false -> pr_installed (router a) = plan) ->
  same_record a a' /\ node_runtime a' = node_runtime a /\
  (clean e = true -> pr_installed (router a') = plan).
Proof.
  unfold port_configuration_failure. destruct (is_state_uncertain err); cbn [negb].
  - intros H _. by eapply restore_spec.
  - intros [= <- <-] H. split; [by split|]. auto.
Qed.

(** After a runtime failure: a clean error means that the previous plan is
    installed and the previous configuration is served. *)
Lemma runtime_failure_spec f plan config (had : bool) mode a a' e :
  runtime_transaction_failure_parts f plan config had mode a = (a', e) ->
  (forall c, config = Some c ->
     RuntimeFailureState.rolled_back f || RuntimeFailureState.unchanged f = true ->
     nr_serves (node_runtime a) c) ->
  same_record a a' /\
  (clean e = true -> pr_installed (router a') = plan /\
     (forall c, config = Some c -> nr_serves (node_runtime a') c)).
Proof.
  unfold runtime_transaction_failure_parts. intros H Hserve.
  destruct (reconcile_ports plan a) as [a1 ports] eqn:E1. apply router_step in E1 as (Hs1 & Hn1 & _ & Hi1).
  set (intact := RuntimeFailureState.unchanged f || RuntimeFailureState.rolled_back f) in H.
  assert (intact = true -> forall c, config = Some c -> nr_serves (node_runtime a1) c) as Hintact.
  { intros Hx c Hc. rewrite Hn1. apply Hserve; [done|]. by rewrite orb_comm. }
  assert (forall errors : list string,
    match ports with Ok _ => [] | Err error => ["restore previous port hopping forwarding state: " +:+ show error] end
      = errors -> errors = [] -> pr_installed (router a1) = plan) as Hports.
  { intros errors <-. by destruct ports. }
  destruct config as [c|].
  - destruct (_ && match mode with OrdinaryApply => true | _ => _ end) eqn:Erestore in H.
    + unfold on_node in H. destruct (nr_apply_config c (node_runtime a1)) as [n r] eqn:E2.
      pose proof (policy_apply c (node_runtime a1)) as Hpol. rewrite E2 in Hpol. cbn in Hpol.
      assert (same_record a (set_node_runtime n a1)) as Hs2.
      { destruct Hs1. split; try done. unfold policy in *. cbn. congruence. }
      apply serves_apply in E2. destruct r as [[]|err]; injection H as <- <-; (split; [done|]).
      * intros Hcl. split; [|by intros c' [= <-]]. destruct ports as [[]|perr]; [done|]. by destruct had.
      * intros Hcl. exfalso. unfold clean in Hcl. by destruct ports as [[]|perr].
    + injection H as <- <-. split; [done|]. intros Hcl. split.
      * destruct ports as [[]|perr]; [done|]. by destruct had.
      * apply Hintact. unfold intact. destruct (RuntimeFailureState.unchanged f), (RuntimeFailureState.rolled_back f),
          (closing a1), mode; done.
  - injection H as <- <-. split; [done|]. intros Hcl. split; [|done].
    destruct ports as [[]|perr]; [done|]. by destruct had.
Qed.

(** ** Ordinary apply *)

Lemma compile_for_Ok what t a out :
  (compile_for compile_with_route what t a).2 = Ok out <-> compile t (policy a) = Ok out.
Proof.
  unfold compile_for, mbind, stm_bind, get, lift. cbn. apply map_err_Ok.
Qed.

Lemma plan_for_Ok what t a plan :
  (plan_for from_slice what t a).2 = Ok plan <-> build_plan from_slice t = Ok plan.
Proof. apply map_err_Ok. Qed.

Lemma pure_compile what t : pure (compile_for (N := N) (P := P) compile_with_route what t).
Proof. done. Qed.
Lemma pure_plan what t : pure (S := adapter) (plan_for from_slice what t).
Proof. done. Qed.
Hint Resolve pure_compile pure_plan : node.

Lemma pure_previous : pure (S := adapter) (previous_state from_slice compile_with_route).
Proof.
  apply pure_bind; [done|]. intros a. apply pure_bind; [done|]. intros plan.
  apply pure_bind; [|done]. destruct (negb _); [|done]. by apply pure_bind.
Qed.
Hint Resolve pure_previous : node.

(** [config] is what the recorded topology compiles to. *)
Definition recorded (config : option Cfg) a : Prop :=
  MachineTopology.machine_id (active_topology a) <> "" ->
  exists out, compile (active_topology a) (policy a) = Ok out /\ config = Some (CompileOutput.runtime out).

Lemma recorded_serves config a c :
  healthy a -> recorded config a -> (MachineTopology.machine_id (active_topology a) = "" -> config = None) ->
  config = Some c -> nr_serves (node_runtime a) c.
Proof.
  intros (_ & _ & Hs) Hrec Hnone Hc. destruct (decide (MachineTopology.machine_id (active_topology a) = "")) as [E|E].
  - by rewrite Hnone in Hc.
  - destruct (Hs E) as (out & Ho & Hn), (Hrec E) as (out' & Ho' & Hx). rewrite Ho in Ho'. injection Ho' as <-. congruence.
Qed.

(** What the rollback target of a healthy adapter is. *)
Lemma previous_Ok a plan config had :
  healthy a -> (previous_state from_slice compile_with_route a).2 = Ok (plan, config, had) ->
  plan = active_plan a /\ recorded config a /\
  (MachineTopology.machine_id (active_topology a) = "" -> config = None).
Proof.
  intros (Hp & Hi & Hs). unfold previous_state. rewrite bind_pure by done. cbn [get snd].
  rewrite bind_pure by auto with node. destruct (plan_for _ _ _ a).2 as [p|] eqn:Ep; [|done].
  apply plan_for_Ok in Ep. rewrite Ep in Hp. injection Hp as ->.
  destruct (is_empty (MachineTopology.machine_id (active_topology a))) eqn:E; cbn [negb].
  - apply is_empty_spec in E. intros [= <- <- _]. by split_and!; [|intros Hne|].
  - apply is_empty_false in E. destruct (Hs E) as (out & Hc & Hn).
    rewrite bind_pure by (apply pure_bind; [auto with node|done]).
    rewrite bind_pure by auto with node.
    destruct (compile_for _ _ _ a).2 as [out'|] eqn:Ec; [|done]. apply compile_for_Ok in Ec.
    cbn. intros [= <- <- _]. split; [done|]. split; [|done]. intros _. by exists out'.
Qed.

(** The planes after a failed step of a healthy adapter. *)
Lemma healthy_restored a a' config :
  healthy a -> same_record a a' -> pr_installed (router a') = active_plan a ->
  recorded config a -> (forall c, config = Some c -> nr_serves (node_runtime a') c) ->
  healthy a'.
Proof.
  intros (Hp & Hi & Hs) [Ht Hpl Hpol] Hi' Hconf Hn. split_and!; rewrite ?Ht, ?Hpl; [done..|].
  unfold serves_topology. rewrite Hpol. intros Hid. destruct (Hconf Hid) as (out & Hc & Hx).
  exists out. split; [done|]. by apply Hn.
Qed.

Lemma healthy_kept a a' :
  healthy a -> same_record a a' -> router a' = router a -> node_runtime a' = node_runtime a -> healthy a'.
Proof.
  intros (Hp & Hi & Hs) [Ht Hpl Hpol] Hr Hn. split_and!; rewrite ?Ht, ?Hpl, ?Hr; [done..|].
  unfold serves_topology. by rewrite Hpol, Hn.
Qed.

(** What an outcome of a transaction from [a] to [t] must be: on success the new
    topology is in the record and on both planes; on failure the old record is
    kept, and unless the error says that the rollback is incomplete both planes
    still carry, or carry again, the old topology. *)
Definition all_or_nothing {A} (t : MachineTopology.t) a (out : adapter * result TopologyError.t A) : Prop :=
  match out.2 with
  | Ok _ => active_topology out.1 = t /\ healthy out.1
  | Err e => active_topology out.1 = active_topology a /\ (clean e = true -> healthy out.1)
  end.

Lemma apply_outcome t a a' res :
  healthy a -> apply t a = (a', res) -> all_or_nothing t a (a', res).
Proof.
  intros Hh. unfold adapter_apply.
  rewrite bind_pure by auto with node. destruct (compile_for _ _ t a).2 as [out|e] eqn:Ec; [|by intros [= <- <-]].
  apply compile_for_Ok in Ec.
  rewrite bind_pure by auto with node. destruct (plan_for _ _ t a).2 as [desired|e] eqn:Ep; [|by intros [= <- <-]].
  apply plan_for_Ok in Ep.
  rewrite bind_pure by auto with node.
  destruct (previous_state _ _ a).2 as [[[prev config] had]|e] eqn:Eprev; [|by intros [= <- <-]].
  apply previous_Ok in Eprev as (-> & Hconf & Hnone); [|done].
  unfold mbind at 1, stm_bind at 1, or_fail at 1.
  destruct (reconcile_ports desired a) as [a1 [[]|perr]] eqn:E1; apply router_step in E1 as (Hs1 & Hn1 & Hpend & Hi1).
  2:{ destruct (port_configuration_failure _ _ perr a1) as [a2 err] eqn:E2. intros [= <- <-].
      apply port_failure_spec in E2 as (Hs2 & Hn2 & Hi2).
      2:{ intros Hu. rewrite Hi1 by done. apply Hh. }
      pose proof (same_record_trans _ _ _ Hs1 Hs2) as Hs. split; [apply Hs|]. intros Hcl.
      apply (healthy_restored a a2 config Hh Hs); [by apply Hi2|exact Hconf|].
      intros c Hc. rewrite Hn2, Hn1. by apply (recorded_serves config a). }
  unfold mbind at 1, stm_bind at 1, or_fail at 1, on_node.
  destruct (nr_apply_config (CompileOutput.runtime out) (node_runtime a1)) as [n r] eqn:E2.
  pose proof (policy_apply (CompileOutput.runtime out) (node_runtime a1)) as Hpol. rewrite E2 in Hpol. cbn in Hpol.
  apply serves_apply in E2.
  assert (same_record a (set_node_runtime n a1)) as Hs2.
  { destruct Hs1. split; try done. unfold policy in *. cbn. congruence. }
  destruct r as [[]|err].
  - intros [= <- <-]. cbn. split; [done|]. split_and!; [done|exact Hi1|].
    intros _. exists out. split; [|exact E2]. destruct Hs2 as [_ _ Hp]. cbn. unfold policy in *. cbn in *. congruence.
  - unfold runtime_transaction_failure.
    destruct (runtime_transaction_failure_parts _ _ _ _ _ (set_node_runtime n a1)) as [a3 e] eqn:E3.
    intros [= <- <-]. apply runtime_failure_spec in E3 as [Hs3 Hi3].
    2:{ cbn. intros c Hc Hint. apply E2; [done|]. rewrite Hn1. by apply (recorded_serves config a). }
    pose proof (same_record_trans _ _ _ Hs2 Hs3) as Hs. split; [apply Hs|]. intros Hcl.
    destruct (Hi3 Hcl) as [Hr Hn]. by apply (healthy_restored a a3 config Hh Hs).
Qed.


(** ** Forced reload *)

(** The calls of [TopologyManager::reload_from_owned] between fetch and
    publication. *)
Definition forced_reload (t : MachineTopology.t) : stm adapter TopologyError.t ReloadStatus.t :=
  prepared ← prepare t;
  _ ← adapter_configure_reload t;
  adapter_reload_prepared t prepared.

Definition prepared_for (t : MachineTopology.t) a (plan : Plan) (out : CompileOutput.t Cfg)
    (p : PreparedReload Cfg) : Prop :=
  candidate p = t /\ desired_plan p = plan /\ previous_plan p = active_plan a /\
  recorded (previous_config p) a /\
  (MachineTopology.machine_id (active_topology a) = "" -> previous_config p = None).

Lemma prepare_spec t a a' res :
  healthy a -> from_option configured false (pending_reload a) = false -> prepare t a = (a', res) ->
  same_record a a' /\ node_runtime a' = node_runtime a /\ router a' = router a /\
  match res with
  | Ok cfg => exists out plan p, compile t (policy a) = Ok out /\ cfg = CompileOutput.runtime out /\
      build_plan from_slice t = Ok plan /\ pending_reload a' = Some p /\ prepared_for t a plan out p
  | Err _ => True
  end.
Proof.
  intros Hh Hpend. unfold adapter_prepare_reload.
  rewrite bind_pure by auto with node. destruct (compile_for _ _ t a).2 as [out|e] eqn:Ec; [|by intros [= <- <-]].
  apply compile_for_Ok in Ec.
  rewrite bind_pure by auto with node. destruct (plan_for _ _ t a).2 as [desired|e] eqn:Ep; [|by intros [= <- <-]].
  apply plan_for_Ok in Ep.
  rewrite bind_pure by done. cbn [get snd]. rewrite Hpend, bind_modify.
  rewrite bind_pure by auto with node.
  destruct (previous_state _ _ (set_pending None a)).2 as [[[prev config] had]|e] eqn:Eprev; [|by intros [= <- <-]].
  apply (previous_Ok (set_pending None a)) in Eprev as (-> & Hconf & Hnone); [|exact Hh].
  rewrite bind_modify. intros [= <- <-]. split; [by split|]. split; [done|]. split; [done|].
  eexists out, desired, _. split; [done|]. split; [done|]. split; [done|]. split; [done|].
  by split_and!.
Qed.

(** In the middle of a reload of [t] that began in the healthy state [a]. *)
Record staged (t : MachineTopology.t) a (plan : Plan) (out : CompileOutput.t Cfg) a' (p : PreparedReload Cfg)
    : Prop := {
  st_healthy : healthy a;
  st_record : same_record a a';
  st_node : node_runtime a' = node_runtime a;
  st_compile : compile t (policy a) = Ok out;
  st_plan : build_plan from_slice t = Ok plan;
  st_pending : pending_reload a' = Some p;
  st_prepared : prepared_for t a plan out p
}.

(** The rollback target of a staged reload brings the adapter back. *)
Lemma staged_back t a plan out a' p a2 :
  staged t a plan out a' p -> same_record a a2 -> pr_installed (router a2) = previous_plan p ->
  (forall c, previous_config p = Some c -> nr_serves (node_runtime a2) c) -> healthy a2.
Proof.
  intros [Hh _ _ _ _ _ (_ & _ & Hprev & Hconf & _)] Hs Hi Hn.
  apply (healthy_restored a a2 (previous_config p) Hh Hs); [by rewrite Hi|done|done].
Qed.

Lemma staged_serves t a plan out a' p c :
  staged t a plan out a' p -> previous_config p = Some c -> nr_serves (node_runtime a) c.
Proof. intros [Hh _ _ _ _ _ (_ & _ & _ & Hconf & Hnone)] Hx. by apply (recorded_serves (previous_config p) a). Qed.

(** The same rollback target, looked at through [set_configured]. *)
Lemma staged_configured t a plan out a' p :
  staged t a plan out a' p ->
  staged t a plan out (set_pending (Some (set_configured p)) a') (set_configured p).
Proof. intros [? [] ? ? ? ? ?]. by split; [|split|..]. Qed.

Lemma configure_staged t a plan out a' p :
  staged t a plan out a' p -> pr_installed (router a') = active_plan a ->
  match adapter_configure_reload t a' with
  | (a1, Ok _) => staged t a plan out a1 (set_configured p) /\ pr_installed (router a1) = plan
  | (a1, Err e) => active_topology a1 = active_topology a /\ (clean e = true -> healthy a1)
  end.
Proof.
  intros Hst Hinst. destruct (st_prepared _ _ _ _ _ _ Hst) as (Hcand & Hdes & Hprev & _).
  unfold adapter_configure_reload.
  rewrite bind_pure by done. cbn [get snd]. rewrite bind_pure by done.
  rewrite (st_pending _ _ _ _ _ _ Hst). cbn [lift ok_or snd]. rewrite bool_decide_true by done. cbn [negb].
  unfold mbind at 1, stm_bind at 1, or_fail at 1.
  rewrite Hdes. destruct (reconcile_ports plan a') as [a1 [[]|perr]] eqn:E1;
    apply router_step in E1 as (Hs1 & Hn1 & Hpd1 & Hi1);
    pose proof (same_record_trans _ _ _ (st_record _ _ _ _ _ _ Hst) Hs1) as Hs01.
  - rewrite bind_pure by done. cbn [get snd]. rewrite bind_pure by done.
    rewrite Hpd1, (st_pending _ _ _ _ _ _ Hst). cbn [lift ok_or snd modify]. split; [|done].
    apply staged_configured. destruct Hst. split; try done; congruence.
  - destruct (port_configuration_failure _ _ perr (set_pending None a1)) as [a2 err] eqn:E2.
    apply port_failure_spec in E2 as (Hs2 & Hn2 & Hi2).
    2:{ cbn. intros Hu. rewrite Hi1 by done. congruence. }
    assert (same_record a (set_pending None a1)) as Hs01' by (destruct Hs01; by split).
    pose proof (same_record_trans _ _ _ Hs01' Hs2) as Hs. split; [apply Hs|]. intros Hcl.
    apply (staged_back _ _ _ _ _ _ a2 Hst); [done|by apply Hi2|].
    intros c Hx. rewrite Hn2. cbn. rewrite Hn1, (st_node _ _ _ _ _ _ Hst). by eapply staged_serves.
Qed.

(** A runtime failure of a staged reload. *)
Lemma reload_failure_staged t a plan out a' p f n aE e :
  staged t a plan out a' p -> same_record a (set_node_runtime n (set_pending None a')) ->
  runtime_transaction_failure_parts f (previous_plan p) (previous_config p) (previous_had_topology p)
    ForcedReload (set_node_runtime n (set_pending None a')) = (aE, e) ->
  (RuntimeFailureState.rolled_back f || RuntimeFailureState.unchanged f = true ->
     forall c, nr_serves (node_runtime a) c -> nr_serves n c) ->
  active_topology aE = active_topology a /\ (clean e = true -> healthy aE).
Proof.
  intros Hst Hs3 E3 Hint. apply runtime_failure_spec in E3 as [HsE HiE].
  2:{ intros c Hx Hy. cbn [node_runtime set_node_runtime]. apply Hint; [done|]. by eapply staged_serves. }
  pose proof (same_record_trans _ _ _ Hs3 HsE) as HsaE. split; [apply HsaE|]. intros Hcl.
  destruct (HiE Hcl) as [Hr Hx]. by apply (staged_back _ _ _ _ _ _ aE Hst).
Qed.

Lemma reload_staged t a plan out a' p :
  staged t a plan out a' p -> configured p = true -> pr_installed (router a') = plan ->
  all_or_nothing t a (adapter_reload_prepared t (CompileOutput.runtime out) a').
Proof.
  intros Hst Hcf Hinst. destruct (st_prepared _ _ _ _ _ _ Hst) as (Hcand & Hdes & _).
  unfold adapter_reload_prepared. rewrite bind_pure by done. cbn [get snd].
  rewrite bind_pure by done. rewrite (st_pending _ _ _ _ _ _ Hst). cbn [lift ok_or snd].
  rewrite bind_modify, bool_decide_true, Hcf by done. cbn [negb].
  unfold mbind at 1, stm_bind at 1, or_fail at 1, on_node.
  change (node_runtime (set_pending None a')) with (node_runtime a').
  destruct (nr_reload_config _ (node_runtime a')) as [n r] eqn:E2.
  pose proof (policy_reload (CompileOutput.runtime out) (node_runtime a')) as Hpol. rewrite E2 in Hpol. cbn [fst] in Hpol.
  apply serves_reload in E2. pose proof (st_node _ _ _ _ _ _ Hst) as Hnode.
  assert (same_record a (set_node_runtime n (set_pending None a'))) as Hs3.
  { destruct (st_record _ _ _ _ _ _ Hst). split; try done. unfold policy in *.
    cbn [node_runtime set_node_runtime]. congruence. }
  destruct r as [status|err].
  - destruct (ReloadStatus.running status) eqn:Erun; cbn [negb].
    + split; [done|]. rewrite Hdes. split; [apply Hst|]. split; [done|]. intros _. exists out.
      split; [|by apply E2]. rewrite <- (st_compile _ _ _ _ _ _ Hst). f_equal. apply Hs3.
    + unfold fail_with. destruct (runtime_transaction_failure_parts not_running _ _ _ _ _) as [aE eE] eqn:E3.
      by apply (reload_failure_staged _ _ _ _ _ _ _ _ _ _ Hst Hs3 E3).
  - unfold runtime_transaction_failure.
    destruct (runtime_transaction_failure_parts (RuntimeFailureState.from err) _ _ _ _ _) as [aE eE] eqn:E3.
    apply (reload_failure_staged _ _ _ _ _ _ _ _ _ _ Hst Hs3 E3). intros Hx. rewrite <- Hnode. by apply E2.
Qed.

(** A reload is all or nothing over both planes too, from its preparation to its
    last step. *)
Theorem reload_all_or_nothing t a :
  healthy a -> from_option configured false (pending_reload a) = false ->
  all_or_nothing t a (forced_reload t a).
Proof.
  intros Hh Hpend. unfold forced_reload, mbind, stm_bind.
  destruct (prepare t a) as [a0 [cfg|e]] eqn:E0;
    destruct (prepare_spec t a a0 _ Hh Hpend E0) as (Hs0 & Hn0 & Hr0 & Hp0).
  - destruct Hp0 as (out & plan & p & Hc & -> & Hplan & Hpd & Hprep).
    assert (staged t a plan out a0 p) as Hst by done.
    pose proof (configure_staged _ _ _ _ _ _ Hst) as Hcf. rewrite Hr0 in Hcf.
    specialize (Hcf ltac:(apply Hh)).
    destruct (adapter_configure_reload t a0) as [a1 [[]|e]]; [|done].
    destruct Hcf as [Hst1 Hi1]. by apply (reload_staged _ _ _ _ _ _ Hst1).
  - split; [apply Hs0|]. intros _. by apply (healthy_kept a a0).
Qed.

(** ** The manager over the adapter *)

#[local] Instance runtime_of_adapter : TopologyRuntime adapter Cfg := adapter_runtime from_slice compile_with_route.

Lemma close_user_healthy node u a :
  healthy a -> let a' := (adapter_close_user_connections node u a).1 in
  healthy a' /\ active_topology a' = active_topology a.
Proof.
  intros (Hp & Hi & Hs). unfold adapter_close_user_connections.
  pose proof (serves_close_user node u (node_runtime a)) as Hserve.
  pose proof (policy_close_user node u (node_runtime a)) as Hpol.
  destruct (nr_close_user_connections node u (node_runtime a)) as [n z]. cbn in *. split; [|done].
  split_and!; [done..|]. intros Hid. destruct (Hs Hid) as (out & Hc & Hn). exists out. unfold policy in *. cbn.
  rewrite Hpol. split; [done|by apply Hserve].
Qed.

Lemma close_users_healthy node us a :
  healthy a -> healthy (close_users (Cfg := Cfg) node us a) /\
    active_topology (close_users (Cfg := Cfg) node us a) = active_topology a.
Proof.
  unfold close_users. revert a. induction us as [|u us IH]; intros a Hh; [done|]. cbn.
  destruct (close_user_healthy node u a Hh) as [Hh' <-]. by apply IH.
Qed.

Lemma close_all_healthy stale a :
  healthy a -> healthy (close_all (Cfg := Cfg) stale a) /\
    active_topology (close_all (Cfg := Cfg) stale a) = active_topology a.
Proof.
  unfold close_all. revert a. induction stale as [|[node us] stale IH]; intros a Hh; [done|]. cbn.
  destruct (close_users_healthy node us a Hh) as [Hh' <-]. by apply IH.
Qed.

Lemma publication_outcome machine_id t (s : manager adapter) s' res :
  healthy (runtime s) -> Manager.apply machine_id t s = (s', res) ->
  match res with
  | Ok _ => topology s' = default_machine machine_id t /\ active_topology (runtime s') = topology s' /\
      healthy (runtime s')
  | Err e => topology s' = topology s /\ (clean e = true -> healthy (runtime s'))
  end.
Proof.
  intros Hh. rewrite apply_eq. change (rt_apply ?x) with (apply x).
  destruct (apply (default_machine machine_id t) (runtime s)) as [a1 [[]|e]] eqn:E;
    destruct (apply_outcome _ _ _ _ Hh E) as [Ht Hh1]; intros [= <- <-]; [|done].
  cbn -[close_all]. destruct (close_all_healthy
    (btree_iter (stale_credential_topology_users (topology s) (default_machine machine_id t))) a1 Hh1) as [Hh2 Ha].
  split; [done|]. split; [by rewrite Ha|done].
Qed.

(** The manager's publication, down to both planes: an accepted candidate is what
    the manager publishes, what the adapter records, what the port router has
    installed and what the shoes runtime serves; a refused one leaves the
    manager's topology published, and carried by both planes unless the error
    says that the rollback is incomplete. *)
Theorem published_is_carried machine_id t (s : manager adapter) s' res :
  healthy (runtime s) -> Manager.apply machine_id t s = (s', res) ->
  match res with
  | Ok _ => topology s' = default_machine machine_id t /\ active_topology (runtime s') = topology s' /\
      healthy (runtime s')
  | Err e => topology s' = topology s /\ (clean e = true -> healthy (runtime s'))
  end.
Proof. apply publication_outcome. Qed.
End transactions.

(** ** Witnesses *)

(** A runtime that refuses the configuration "bad" without touching anything, the
    port-hopping manager over a backend that always succeeds, and a compiler that
    names a topology by its node ids. *)
Module AdapterExample.

Record node : Type := mkNode { serving : option string }.

Definition serve {A} (x : A) (c : string) : stm node RuntimeError.t A := fun n =>
  if bool_decide (c = "bad") then (n, Err (RuntimeError.unchanged "refused" true)) else (mkNode (Some c), Ok x).

#[local] Instance node_runtime : NodeRuntime node string := {
  nr_traffic_analysis_disabled _ := false;
  nr_apply_config c := serve tt c;
  nr_reload_config c := serve (ReloadStatus.mk true false) c;
  nr_current_config n := default "" (serving n);
  nr_begin_close n := n;
  nr_close := mret tt;
  nr_health n := Some (RuntimeHealthSnapshot.mk true None);
  nr_close_user_connections _ _ n := (n, 0)
}.

#[local] Instance node_laws : NodeRuntimeLaws node string.
Proof.
  refine {| nr_serves n c := serving n = Some c |}; try done; intros c n.
  - intros n' res. cbn. unfold serve. destruct (bool_decide _); by intros [= <- <-].
  - intros n' res. cbn. unfold serve. destruct (bool_decide _); by intros [= <- <-].
Defined.

Definition backend_apply (b : Plan) (desired : Plan) : Plan * result BoxError unit := (desired, Ok tt).

#[local] Instance backend_contract : BackendContract backend_apply is_state_uncertain id.
Proof. split; [by intros b d b' [= <-]|done]. Qed.

#[local] Instance router : PortRouter (manager_state Plan) := manager_router backend_apply.
#[local] Instance router_laws : PortRouterLaws (manager_state Plan) := manager_router_laws backend_apply id.

#[local] Instance show_unit : Display unit := fun _ => "error".
#[local] Instance show_plan : Display (@PlanError unit) := fun _ => "plan".

Definition from_slice (bytes : string) : result unit Hysteria2SalamanderConfig.t := Err tt.
Definition compile (t : MachineTopology.t) (r : option Route.t) : result unit (CompileOutput.t string) :=
  Ok (CompileOutput.mk (join "," (NodeInstance.node_id <$> MachineTopology.nodes t)) []).

Definition topology_of (id : string) : MachineTopology.t :=
  MachineTopology.mk "m" 1 [NodeInstance.mk id "vless" 1 "{}" []] [] None None None.

Abbreviation state := (adapter node (manager_state Plan) string).
Definition a0 : state := adapter_new (mkNode None) (PortHopping.mkManager Plan plan_default false).
Definition apply := adapter_apply (N := node) (P := manager_state Plan) from_slice compile.
Definition a1 : state := (apply (topology_of "first") a0).1.

Lemma a0_healthy : healthy from_slice compile a0.
Proof. split; [reflexivity|]. split; [reflexivity|]. intros H. by destruct H. Qed.

Lemma a1_healthy : healthy from_slice compile a1.
Proof.
  split; [vm_compute; reflexivity|]. split; [vm_compute; reflexivity|]. intros _.
  eexists. split; [vm_compute; reflexivity|vm_compute; reflexivity].
Qed.


Lemma reload_all_or_nothing_witness :
  healthy from_slice compile (forced_reload from_slice compile (topology_of "second") a1).1.
Proof.
  pose proof (reload_all_or_nothing from_slice compile (topology_of "second") a1 a1_healthy eq_refl) as H.
  unfold all_or_nothing in H.
  destruct (forced_reload from_slice compile (topology_of "second") a1) as [a2 [st|e]] eqn:E;
    [apply H|vm_compute in E; discriminate E].
Defined.

Definition mgr : Manager.manager state := Manager.set_runtime a1 (manager_new (R := state) a1).

Lemma published_is_carried_witness :
  let s := (Manager.apply (TopologyRuntime0 := adapter_runtime from_slice compile) "m" (topology_of "second") mgr).1 in
  healthy from_slice compile (Manager.runtime s).
Proof.
  pose proof (published_is_carried from_slice compile "m" (topology_of "second") mgr) as H.
  destruct (Manager.apply (TopologyRuntime0 := adapter_runtime from_slice compile) "m" (topology_of "second") mgr)
    as [s [m|e]] eqn:E; [|vm_compute in E; discriminate E].
  apply (H s (Ok m) a1_healthy E).
Defined.
End AdapterExample.
