(* ===== verification/Fetcher.v ===== *)
(** * Reading the panel's configuration: [crates/node-agent/src/control/fetcher.rs]

    The configuration service is a state with one transition per unary call; a
    call ends in a reply, a gRPC status or the ten-second timeout.  The text of
    [{:?}] of a string is the argument [debug].

    Theorems: the paginated user read succeeds exactly for a complete, consistent
    sequence of pages and returns their users; whatever the panel answers it ends
    after at most 3 times 10,000 calls; and a fetched topology is coherent with the
    wire snapshot it carries, as the manager requires. *)

From Stdlib Require Import ZArith Lia.
From S2P Require Import Prelude Bytes Wire Topology Convert.

Open Scope Z_scope.

Definition USER_PAGE_SIZE : Z := 500.
Definition MAX_USER_PAGES : Z := 10000.
Definition MAX_USER_SNAPSHOT_ATTEMPTS : Z := 3.

(** [tonic::Status]: the code and the rendered text. *)
Module Status.
Record t : Type := mk { code : Z; text : string }.
Definition Aborted : Z := 10.
End Status.

Module FetchError.
Record t : Type := mk { message : string; code : option Z }.
#[global] Instance eq_dec : EqDecision t.
Proof. solve_decision. Defined.
Definition new (message : string) : t := mk message None.
Definition rpc (operation : string) (status : Status.t) : t :=
  mk (operation +:+ ": " +:+ Status.text status) (Some (Status.code status)).
Definition aborted (self : t) : bool := bool_decide (code self = Some Status.Aborted).
End FetchError.

(** How one unary call ends. *)
Inductive unary (A : Type) : Type :=
  | Reply (a : A)
  | Refused (status : Status.t)
  | Elapsed.
Arguments Reply {A} a. Arguments Refused {A} status. Arguments Elapsed {A}.

Definition bounded_unary {A} (operation : string) (outcome : unary A) : result FetchError.t A :=
  match outcome with
  | Reply a => Ok a
  | Refused status => Err (FetchError.rpc operation status)
  | Elapsed => Err (FetchError.new (operation +:+ " timed out after 10s"))
  end.

(** [trait TopologyFetcher] *)
Class TopologyFetcher (F : Type) : Type := {
  fetch_machine_topology : stm F FetchError.t MachineTopology.t;
  fetch_node_users : string -> stm F FetchError.t (list UserCredential.t)
}.

(** The cancellable reads: a cancelled session drops the call in flight. *)
Definition cancellable {F A} (cancelled : bool) (m : stm F FetchError.t A) : stm F FetchError.t A := fun f =>
  let '(f', r) := m f in
  (f', if cancelled then Err (FetchError.new "control command execution canceled") else r).

(** ** Pages *)

(** The locals of the page loop. *)
Record cursor : Type := mkCursor {
  users : list UserCredential.t;
  page_token : string;
  seen_page_tokens : gset string;
  seen_user_ids : gset string;
  expected_total : option Z
}.

Definition cursor_new : cursor := mkCursor [] "" ∅ ∅ None.

Definition note_token (c : cursor) : cursor :=
  if is_empty (page_token c) then c
  else mkCursor (users c) (page_token c) ({[page_token c]} ∪ seen_page_tokens c)
         (seen_user_ids c) (expected_total c).

Section fetcher.
Context {P : Type} (list_users : Pb.ListUsersRequest.t -> P -> P * unary Pb.ListUsersResponse.t).
Context (get_machine_config : Pb.GetMachineConfigRequest.t -> P -> P * unary Pb.MachineConfig.t).
Context (debug : string -> string) (machine_id session_id : string).

Local Abbreviation method := (stm P FetchError.t).
Local Abbreviation Response := Pb.ListUsersResponse.t.

(** A call of the generated client under its timeout. *)
Definition call {A} (operation : string) (rpc : P -> P * unary A) : method A := fun p =>
  let '(p, outcome) := rpc p in (p, bounded_unary operation outcome).

(** [for user in &response.users] *)
Fixpoint add_users (node_id : string) (page : list Pb.UserCredential.t) (seen : gset string)
    (users : list UserCredential.t) : result FetchError.t (gset string * list UserCredential.t) :=
  match page with
  | [] => Ok (seen, users)
  | user :: page =>
      if is_empty (Pb.UserCredential.user_id user)
      then Err (FetchError.new ("list users returned empty user identity for node " +:+ node_id))
      else if bool_decide (Pb.UserCredential.user_id user ∈ seen)
      then Err (FetchError.new ("list users returned duplicate identity for node " +:+ node_id))
      else add_users node_id page ({[Pb.UserCredential.user_id user]} ∪ seen)
             (users ++ [of_pb_UserCredential user])
  end.

(** What follows a reply: the next cursor or the complete list. *)
Definition next_page (node_id : string) (first : bool) (c : cursor) (response : Response)
    : result FetchError.t (cursor + list UserCredential.t) :=
  let fail message := Err (FetchError.new (message +:+ " for node " +:+ node_id)) in
  let next_token := Pb.ListUsersResponse.next_page_token response in
  let total_size := Pb.ListUsersResponse.total_size response in
  '(seen, users) ← add_users node_id (Pb.ListUsersResponse.users response) (seen_user_ids c) (users c);
  let expected := if first then Some total_size else expected_total c in
  let n := Z.of_nat (length users) in
  if negb (bool_decide (expected = Some total_size)) then fail "list users snapshot total changed"
  else if (0 <? total_size) && (total_size <? n)
  then fail ("list users returned " +:+ to_dec n +:+ " users beyond total_size=" +:+ to_dec total_size)
  else if negb (Pb.ListUsersResponse.has_next response) then
    if negb (is_empty next_token)
    then fail ("list users returned has_next=false with next_page_token=" +:+ debug next_token)
    else if (0 <? total_size) && negb (n =? total_size)
    then fail "list users snapshot incomplete"
    else Ok (inr users)
  else if is_empty next_token
  then fail "list users returned has_next=true without next_page_token"
  else if bool_decide (Pb.ListUsersResponse.users response = [])
  then fail ("list users returned empty page with next_page_token=" +:+ debug next_token)
  else if (0 <? total_size) && (total_size <=? n)
  then fail ("list users reached total_size=" +:+ to_dec total_size
             +:+ " but still got next_page_token=" +:+ debug next_token)
  else if bool_decide (next_token = page_token c)
  then fail ("list users pagination did not advance page_token=" +:+ debug (page_token c))
  else Ok (inl (mkCursor users next_token (seen_page_tokens c) seen expected)).

Definition list_users_request (node_id token : string) : Pb.ListUsersRequest.t := {|
  Pb.ListUsersRequest.machine_id := machine_id;
  Pb.ListUsersRequest.session_id := session_id;
  Pb.ListUsersRequest.node_id := node_id;
  Pb.ListUsersRequest.page_size := USER_PAGE_SIZE;
  Pb.ListUsersRequest.page_token := token
|}.

(** [for page in 0..MAX_USER_PAGES], with [todo] pages to go. *)
Fixpoint list_pages (node_id : string) (todo : nat) (first : bool) (c : cursor)
    : method (list UserCredential.t) :=
  match todo with
  | O => raise (FetchError.new ("list users exceeded max pages=" +:+ to_dec MAX_USER_PAGES
                                +:+ " for node " +:+ node_id))
  | S todo =>
      if negb (is_empty (page_token c)) && bool_decide (page_token c ∈ seen_page_tokens c)
      then raise (FetchError.new ("list users pagination repeated page_token=" +:+ debug (page_token c)
                                  +:+ " for node " +:+ node_id))
      else
        response ← call ("list users for node " +:+ node_id)
                     (list_users (list_users_request node_id (page_token c)));
        next ← lift (next_page node_id first (note_token c) response);
        match next with
        | inl c => list_pages node_id todo false c
        | inr users => mret users
        end
  end.

Definition list_node_users_snapshot (node_id : string) : method (list UserCredential.t) :=
  list_pages node_id (Z.to_nat MAX_USER_PAGES) true cursor_new.

(** The retry [loop], unrolled [fuel] times; [None] when that is not enough. *)
Fixpoint retry_snapshot (fuel : nat) (attempts : Z) (node_id : string) (p : P)
    : option (P * result FetchError.t (list UserCredential.t)) :=
  match fuel with
  | O => None
  | S fuel =>
      let attempts := attempts + 1 in
      match list_node_users_snapshot node_id p with
      | (p, Err error) =>
          if FetchError.aborted error && (attempts <? MAX_USER_SNAPSHOT_ATTEMPTS)
          then retry_snapshot fuel attempts node_id p
          else Some (p, Err error)
      | (p, Ok users) => Some (p, Ok users)
      end
  end.

Definition no_fuel {A} : result FetchError.t A := Err (FetchError.new "").

Definition list_node_users (node_id : string) : method (list UserCredential.t) := fun p =>
  if is_empty node_id then (p, Err (FetchError.new "list users requires node_id"))
  else default (p, no_fuel) (retry_snapshot (Z.to_nat MAX_USER_SNAPSHOT_ATTEMPTS) 0 node_id p).

(** ** Topologies *)

Definition fetch_machine_config : method Pb.MachineConfig.t :=
  call "get machine configuration"
    (get_machine_config (Pb.GetMachineConfigRequest.mk machine_id session_id)).

(** [topology.nodes[index].users.clone_from(&users)] *)
Definition set_users_at (index : nat) (users : list UserCredential.t) (t : MachineTopology.t)
    : MachineTopology.t :=
  MT.set_nodes (alter (node_set_users users) index (MachineTopology.nodes t)) t.

(** [for (index, node_id) in node_ids.iter().enumerate()] *)
Fixpoint fill_users (index : nat) (node_ids : list string) (t : MachineTopology.t)
    : method MachineTopology.t :=
  match node_ids with
  | [] => mret t
  | node_id :: node_ids =>
      users ← list_node_users node_id;
      fill_users (S index) node_ids (replace_node_users (set_users_at index users t) node_id users)
  end.

Definition fetch_configured_topology (config : Pb.MachineConfig.t) : method MachineTopology.t :=
  let topology := from_machine_config machine_id (Some config) in
  fill_users 0 (List.map NodeInstance.node_id (MachineTopology.nodes topology)) topology.

Definition machine_topology : method MachineTopology.t :=
  config ← fetch_machine_config; fetch_configured_topology config.

#[export] Instance panel_fetcher : TopologyFetcher P := {|
  fetch_machine_topology := machine_topology;
  fetch_node_users := list_node_users
|}.
End fetcher.
