(* ===== verification/FetcherSpec.v ===== *)
(** * Reading the panel's configuration: the contract

    Reference: a complete sequence of pages.  The user read accepts exactly those
    and returns their users ([users_exact]); it always ends
    ([fetch_terminates]); a fetched topology is coherent and carries the fetched
    users of every node ([fetched_exact]). *)

From Stdlib Require Import ZArith Lia.
From S2P Require Import Prelude Bytes Wire Topology Convert Mutation Fetcher.

Open Scope Z_scope.

Local Abbreviation Response := Pb.ListUsersResponse.t.
Local Abbreviation total_size := Pb.ListUsersResponse.total_size.
Local Abbreviation has_next := Pb.ListUsersResponse.has_next.
Local Abbreviation next_page_token := Pb.ListUsersResponse.next_page_token.

(** ** The reference: complete sequences of pages *)

Definition wire_users (rs : list Response) : list Pb.UserCredential.t :=
  concat (List.map Pb.ListUsersResponse.users rs).

Definition wire_ids (us : list Pb.UserCredential.t) : list string := List.map Pb.UserCredential.user_id us.

(** A page that announces another one. *)
Definition continues (r : Response) : Prop :=
  has_next r = true /\ next_page_token r <> "" /\ Pb.ListUsersResponse.users r <> [].

(** The pages [pre] and then [last] are one consistent snapshot. *)
Record complete (pre : list Response) (last : Response) : Prop := {
  cp_count : Z.of_nat (length pre) < MAX_USER_PAGES;
  cp_continues : Forall continues pre;
  cp_tokens : NoDup (List.map next_page_token pre);
  cp_ends : has_next last = false /\ next_page_token last = "";
  cp_ids : NoDup (wire_ids (wire_users (pre ++ [last])));
  cp_named : Forall (fun id => id <> "") (wire_ids (wire_users (pre ++ [last])));
  cp_totals : Forall (fun r => total_size r = total_size last) pre;
  cp_size : 0 < total_size last ->
    Z.of_nat (length (wire_users (pre ++ [last]))) = total_size last /\
    (pre <> [] -> Pb.ListUsersResponse.users last <> [])
}.

Section spec.
Context {P : Type} (list_users : Pb.ListUsersRequest.t -> P -> P * unary Pb.ListUsersResponse.t).
Context (get_machine_config : Pb.GetMachineConfigRequest.t -> P -> P * unary Pb.MachineConfig.t).
Context (debug : string -> string) (machine_id session_id : string).

Local Abbreviation request := (list_users_request machine_id session_id).
Local Abbreviation list_pages := (list_pages list_users debug machine_id session_id).
Local Abbreviation next_page := (next_page debug).
Local Abbreviation snapshot := (list_node_users_snapshot list_users debug machine_id session_id).

(** The panel answers the requests for [token] and its successors with these pages. *)
Inductive exchange (node_id : string) : string -> P -> list Response -> P -> Prop :=
  | exchange_nil token p : exchange node_id token p [] p
  | exchange_cons token p r p1 rs p2 :
      list_users (request node_id token) p = (p1, Reply r) ->
      exchange node_id (next_page_token r) p1 rs p2 ->
      exchange node_id token p (r :: rs) p2.

(** ** One page *)

Lemma add_users_exact node_id page seen us seen' us' :
  add_users node_id page seen us = Ok (seen', us') <->
  NoDup (wire_ids page) /\ Forall (fun id => id <> "") (wire_ids page) /\
  Forall (fun id => id ∉ seen) (wire_ids page) /\
  seen' = list_to_set (wire_ids page) ∪ seen /\ us' = us ++ List.map of_pb_UserCredential page.
Proof.
  revert seen us. induction page as [|u page IH]; intros seen us; cbn [add_users wire_ids List.map].
  { rewrite app_nil_r. cbn. split; [intros [= <- <-]|intros (_ & _ & _ & -> & ->)].
    - split_and!; [constructor..|set_solver|done].
    - do 2 f_equal. set_solver. }
  fold (wire_ids page). set (id := Pb.UserCredential.user_id u).
  destruct (is_empty id) eqn:E1.
  { apply is_empty_spec in E1. split; [done|]. intros (_ & H & _). by inversion H. }
  apply is_empty_false in E1. case_bool_decide as E2.
  { split; [done|]. intros (_ & _ & H & _). by inversion H. }
  rewrite IH, NoDup_cons, !Forall_cons, <- app_assoc. cbn [app]. split.
  - intros (H1 & H2 & H3 & -> & ->). rewrite Forall_forall in H3. split_and!; try done.
    + intros H%H3. set_solver.
    + apply Forall_forall. intros x Hx%H3. set_solver.
    + cbn. set_solver.
  - intros ([Hn H1] & [_ H2] & [_ H3] & -> & ->). rewrite Forall_forall in H3. split_and!; try done.
    + apply Forall_forall. intros x Hx. specialize (H3 x Hx). set_solver.
    + cbn. set_solver.
Qed.

(** What a reply must satisfy given the cursor. *)
Record fits (first : bool) (c : cursor) (r : Response) : Prop := {
  ft_ids : NoDup (wire_ids (Pb.ListUsersResponse.users r));
  ft_named : Forall (fun id => id <> "") (wire_ids (Pb.ListUsersResponse.users r));
  ft_fresh : Forall (fun id => id ∉ seen_user_ids c) (wire_ids (Pb.ListUsersResponse.users r));
  ft_total : first = true \/ expected_total c = Some (total_size r)
}.

Definition grown (c : cursor) (r : Response) : list UserCredential.t :=
  users c ++ List.map of_pb_UserCredential (Pb.ListUsersResponse.users r).

Definition advanced (c : cursor) (r : Response) : cursor :=
  mkCursor (grown c r) (next_page_token r) (seen_page_tokens c)
    (list_to_set (wire_ids (Pb.ListUsersResponse.users r)) ∪ seen_user_ids c) (Some (total_size r)).

Lemma expected_decide (first : bool) (e : option Z) t :
  (if first then Some t else e) = Some t <-> first = true \/ e = Some t.
Proof. destruct first; naive_solver. Qed.

Ltac page_case :=
  repeat match goal with
  | |- context [negb (bool_decide ?p)] => destruct (bool_decide_reflect p); cbn [negb]
  | |- context [bool_decide ?p] => destruct (bool_decide_reflect p)
  | |- context [(?a <? ?b)%Z] => destruct (Z.ltb_spec a b); cbn [andb]
  | |- context [(?a <=? ?b)%Z] => destruct (Z.leb_spec a b)
  | |- context [(?a =? ?b)%Z] => destruct (Z.eqb_spec a b); cbn [negb]
  | |- context [is_empty ?s] => let E := fresh "E" in destruct (is_empty s) eqn:E;
      [apply is_empty_spec in E|apply is_empty_false in E]; cbn [negb]
  end.

Lemma fits_users node_id first c r :
  fits first c r ->
  add_users node_id (Pb.ListUsersResponse.users r) (seen_user_ids c) (users c)
  = Ok (list_to_set (wire_ids (Pb.ListUsersResponse.users r)) ∪ seen_user_ids c, grown c r).
Proof. intros []. by apply add_users_exact. Qed.

Lemma users_fit node_id first c r res :
  add_users node_id (Pb.ListUsersResponse.users r) (seen_user_ids c) (users c) = Ok res ->
  (if first : bool then Some (total_size r) else expected_total c) = Some (total_size r) -> fits first c r.
Proof. destruct res. intros (?&?&?&_)%add_users_exact ?%expected_decide. by constructor. Qed.

Lemma next_page_more node_id first c r c' :
  next_page node_id first c r = Ok (inl c') <->
  fits first c r /\ continues r /\ next_page_token r <> page_token c /\
  (0 < total_size r -> Z.of_nat (length (grown c r)) < total_size r) /\ c' = advanced c r.
Proof.
  unfold next_page, continues. split.
  - intros ([seen us] & Ea & H)%bind_Ok. pose proof (proj1 (add_users_exact _ _ _ _ _ _) Ea) as (_&_&_& -> & ->).
    fold (grown c r) in *. revert H. page_case; try done; destruct (has_next r) eqn:Eh; cbn [negb]; try done;
      page_case; try done; cbn [andb negb]; try done; intros [= <-];
      (split_and!; [by eapply users_fit|done|done|done|done|lia|by rewrite e]).
  - intros (Hf & (Eh & Ht & Hu) & Hp & Hn & ->). rewrite (fits_users node_id first c r Hf). cbn.
    destruct Hf as [_ _ _ He%expected_decide]. rewrite He, Eh. page_case; try done; try lia; cbn; try done; lia.
Qed.

Lemma next_page_done node_id first c r us :
  next_page node_id first c r = Ok (inr us) <->
  fits first c r /\ has_next r = false /\ next_page_token r = "" /\
  (0 < total_size r -> Z.of_nat (length (grown c r)) = total_size r) /\ us = grown c r.
Proof.
  unfold next_page. split.
  - intros ([seen us'] & Ea & H)%bind_Ok. pose proof (proj1 (add_users_exact _ _ _ _ _ _) Ea) as (_&_&_& -> & ->).
    fold (grown c r) in *. revert H. page_case; try done; destruct (has_next r) eqn:Eh; cbn [negb]; try done;
      page_case; try done; cbn [andb negb]; try done; intros [= <-];
      (split_and!; [by eapply users_fit|done|done|lia|done]).
  - intros (Hf & Eh & Ht & Hn & ->). rewrite (fits_users node_id first c r Hf). cbn.
    destruct Hf as [_ _ _ He%expected_decide]. rewrite He, Eh, Ht. page_case; try done; try lia; cbn; try done; lia.
Qed.
(** ** The page loop *)

Definition fresh_token (c : cursor) : Prop := page_token c = "" \/ page_token c ∉ seen_page_tokens c.

Lemma list_pages_S node_id todo first c p p' us :
  list_pages node_id (S todo) first c p = (p', Ok us) <->
  fresh_token c /\ exists p1 r, list_users (request node_id (page_token c)) p = (p1, Reply r) /\
    (p1 = p' /\ next_page node_id first (note_token c) r = Ok (inr us) \/
     exists c', next_page node_id first (note_token c) r = Ok (inl c') /\
       list_pages node_id todo false c' p1 = (p', Ok us)).
Proof.
  cbn [Fetcher.list_pages]. unfold fresh_token.
  destruct (is_empty (page_token c)) eqn:E; cbn [negb andb].
  2: case_bool_decide as Hs.
  2: { apply is_empty_false in E. split; [done|]. intros ([?|?] & _); done. }
  all: rewrite stm_bind_Ok; unfold call.
  all: split;
    [intros (p1 & r & H1 & H2); split; [try (left; by apply is_empty_spec); by right|]
    |intros (_ & p1 & r & H1 & H2); exists p1, r; rewrite H1; split; [done|]].
  1,3: destruct (list_users _ p) as [q [r'|st|]]; cbn in H1; [injection H1 as -> ->|done..].
  1,2: exists p1, r; split; [done|]; apply stm_bind_Ok in H2 as (p2 & n & [= <- H2] & H3);
    destruct n as [c'|us']; [right; eauto|left; injection H3 as -> ->; auto].
  all: destruct H2 as [[-> H2]|(c' & H2 & H3)]; apply stm_bind_Ok; eexists _, _; unfold lift; by rewrite H2.
Qed.

Lemma Forall_fresh_union (l1 l2 : list string) (X : gset string) :
  Forall (fun x => x ∉ list_to_set l1 ∪ X) l2
  <-> (forall x, x ∈ l1 -> x ∉ l2) /\ Forall (fun x => x ∉ X) l2.
Proof.
  rewrite !Forall_forall. setoid_rewrite not_elem_of_union. setoid_rewrite elem_of_list_to_set. split.
  - intros H. split; [intros x H1 H2; by destruct (H x H2)|intros x H2; by destruct (H x H2)].
  - intros [H1 H2] x Hx. split; [intros Hx'; by apply (H1 x)|by apply H2].
Qed.

Lemma Forall_fresh_insert y (l : list string) (X : gset string) :
  Forall (fun x => x ∉ {[y]} ∪ X) l <-> y ∉ l /\ Forall (fun x => x ∉ X) l.
Proof.
  rewrite !Forall_forall. setoid_rewrite not_elem_of_union. setoid_rewrite elem_of_singleton.
  split; [|naive_solver]. intros H. split; [intros Hy; by destruct (H y Hy)|intros x Hx; by apply H].
Qed.

(** The pages accepted from a cursor on. *)
Record accepted (todo : nat) (first : bool) (c : cursor) (pre : list Response) (last : Response) : Prop := {
  ac_count : (length pre < todo)%nat;
  ac_continues : Forall continues pre;
  ac_tokens : NoDup (List.map next_page_token pre);
  ac_fresh : Forall (fun t => t ∉ seen_page_tokens (note_token c)) (List.map next_page_token pre);
  ac_token : fresh_token c;
  ac_ends : has_next last = false /\ next_page_token last = "";
  ac_ids : NoDup (wire_ids (wire_users (pre ++ [last])));
  ac_named : Forall (fun id => id <> "") (wire_ids (wire_users (pre ++ [last])));
  ac_new : Forall (fun id => id ∉ seen_user_ids c) (wire_ids (wire_users (pre ++ [last])));
  ac_totals : Forall (fun r => total_size r = total_size last) pre;
  ac_total : first = true \/ expected_total c = Some (total_size last);
  ac_size : 0 < total_size last ->
    Z.of_nat (length (users c)) + Z.of_nat (length (wire_users (pre ++ [last]))) = total_size last /\
    (pre <> [] -> Pb.ListUsersResponse.users last <> [])
}.

Lemma wire_users_one r : wire_users [r] = Pb.ListUsersResponse.users r.
Proof. unfold wire_users. cbn. apply app_nil_r. Qed.
Lemma wire_users_cons r rs : wire_users (r :: rs) = Pb.ListUsersResponse.users r ++ wire_users rs.
Proof. done. Qed.
Lemma wire_ids_app a b : wire_ids (a ++ b) = wire_ids a ++ wire_ids b.
Proof. apply List.map_app. Qed.

Lemma note_token_users c : users (note_token c) = users c.
Proof. unfold note_token. by destruct is_empty. Qed.
Lemma note_token_ids c : seen_user_ids (note_token c) = seen_user_ids c.
Proof. unfold note_token. by destruct is_empty. Qed.
Lemma note_token_total c : expected_total (note_token c) = expected_total c.
Proof. unfold note_token. by destruct is_empty. Qed.
Lemma note_token_token c : page_token (note_token c) = page_token c.
Proof. unfold note_token. by destruct is_empty. Qed.
Lemma note_token_seen c :
  page_token c <> "" -> seen_page_tokens (note_token c) = {[page_token c]} ∪ seen_page_tokens c.
Proof. unfold note_token. destruct is_empty eqn:E; [|done]. by apply is_empty_spec in E. Qed.

Lemma grown_length c r :
  length (grown (note_token c) r) = (length (users c) + length (Pb.ListUsersResponse.users r))%nat.
Proof. unfold grown. by rewrite note_token_users, length_app, List.length_map. Qed.

Lemma accepted_one todo first c r :
  accepted (S todo) first c [] r <->
  fresh_token c /\ fits first (note_token c) r /\ has_next r = false /\ next_page_token r = "" /\
  (0 < total_size r -> Z.of_nat (length (grown (note_token c) r)) = total_size r).
Proof.
  rewrite grown_length. split.
  - intros [_ _ _ _ Ht [Eh En] Hi Hn Hw _ He Hs]. cbn [app] in *. rewrite wire_users_one in *.
    split_and!; [done| |done|done|lia].
    constructor; rewrite ?note_token_ids, ?note_token_total; done.
  - intros (Ht & [Hi Hn Hw He] & Eh & En & Hs). rewrite ?note_token_ids, ?note_token_total in *.
    constructor; cbn [app List.map length]; rewrite ?wire_users_one;
      first [done|lia|by constructor|idtac].
    intros Hpos. split; [lia|done].
Qed.
Lemma accepted_more todo first c r pre last :
  accepted (S todo) first c (r :: pre) last <->
  fresh_token c /\ fits first (note_token c) r /\ continues r /\ next_page_token r <> page_token c /\
  (0 < total_size r -> Z.of_nat (length (grown (note_token c) r)) < total_size r) /\
  accepted todo false (advanced (note_token c) r) pre last.
Proof.
  rewrite grown_length. set (c' := advanced (note_token c) r).
  assert (next_page_token r <> "" -> seen_page_tokens (note_token c')
    = {[next_page_token r]} ∪ seen_page_tokens (note_token c)) as Hseen by exact (note_token_seen c').
  assert (page_token c <> "" -> seen_page_tokens (note_token c) = {[page_token c]} ∪ seen_page_tokens c)
    as Hseen0 by apply note_token_seen.
  split.
  - intros [Hc Hco Hnd Hf Ht He Hi Hn Hw Hto Ha Hs]. cbn [app] in *.
    rewrite wire_users_cons, wire_ids_app, ?Forall_app in *.
    apply NoDup_app in Hi as (Hi1 & Hi12 & Hi2). destruct Hn as [Hn1 Hn2], Hw as [Hw1 Hw2].
    apply Forall_cons in Hco as [Hr Hco], Hto as [Hto1 Hto]. cbn [List.map] in Hnd, Hf.
    apply NoDup_cons in Hnd as [Hr' Hnd]. apply Forall_cons in Hf as [Hf1 Hf].
    destruct Hr as (Hr1 & Hr2 & Hr3).
    rewrite length_app in Hs. specialize (Hseen Hr2).
    split_and!; try done.
    + constructor; rewrite ?note_token_ids, ?note_token_total; try done. by rewrite Hto1.
    + intros E. destruct (decide (page_token c = "")) as [E0|E0]; [by rewrite E in Hr2|].
      rewrite Hseen0, E in Hf1 by done. set_solver.
    + intros Hpos. rewrite Hto1 in *. destruct (Hs Hpos) as [Hs1 Hs2].
      specialize (Hs2 ltac:(done)). unfold wire_users in Hs1.
      rewrite List.map_app, concat_app, length_app in Hs1. cbn in Hs1. rewrite app_nil_r in Hs1.
      destruct (Pb.ListUsersResponse.users last); [done|cbn in Hs1; lia].
    + constructor; try done.
      * cbn in Hc. lia.
      * rewrite Hseen. by apply Forall_fresh_insert.
      * by right.
      * cbn. rewrite note_token_ids. by apply Forall_fresh_union.
      * right. cbn. by rewrite Hto1.
      * intros Hpos. destruct (Hs Hpos) as [Hs1 Hs2]. split; [|intros _; by apply Hs2].
        cbn. rewrite grown_length. lia.
  - intros (Ht & [Hi1 Hn1 Hw1 Ha] & (Hr1 & Hr2 & Hr3) & Hne & Hlt & [Hc Hco Hnd Hf Hf' He Hi Hn Hw Hto Ha' Hs]).
    rewrite ?note_token_ids, ?note_token_total in *. specialize (Hseen Hr2).
    destruct Ha' as [Ha'|Ha']; [done|]. cbn in Ha'. injection Ha' as Ha'.
    cbn [seen_user_ids advanced c'] in Hw. rewrite note_token_ids in Hw.
    apply Forall_fresh_union in Hw as [Hw Hw']. rewrite Hseen in Hf. apply Forall_fresh_insert in Hf as [Hf0 Hf].
    constructor; cbn [app List.map]; rewrite ?wire_users_cons, ?wire_ids_app, ?Forall_app, ?Forall_cons, ?NoDup_cons; try done.
    + cbn. lia.
    + split; [|done]. destruct Hf' as [Hf'|Hf']; [done|exact Hf'].
    + by apply NoDup_app.
    + by rewrite <- Ha'.
    + intros Hpos. destruct (Hs Hpos) as [Hs1 Hs2]. cbn in Hs1. rewrite grown_length in Hs1.
      rewrite length_app. split; [lia|]. intros _ Hnil.
      destruct pre as [|r1 pre]; [|by apply Hs2].
      cbn [app] in Hs1. rewrite wire_users_one, Hnil in Hs1. rewrite Ha' in Hlt. cbn in Hs1. specialize (Hlt Hpos). lia.
Qed.
Lemma list_pages_exact node_id todo first c p p' us :
  list_pages node_id todo first c p = (p', Ok us) <->
  exists pre last, exchange node_id (page_token c) p (pre ++ [last]) p' /\
    accepted todo first c pre last /\
    us = users c ++ List.map of_pb_UserCredential (wire_users (pre ++ [last])).
Proof.
  revert first c p. induction todo as [|todo IH]; intros first c p.
  { split; [done|]. intros (pre & last & _ & [Hc] & _). lia. }
  rewrite list_pages_S. split.
  - intros (Ht & p1 & r & E & [[-> (Hf & Eh & En & Hs & ->)%next_page_done]
      |(c' & (Hf & Hc & Hne & Hlt & ->)%next_page_more & H)]).
    + exists [], r. cbn [app]. rewrite wire_users_one. split_and!.
      * econstructor; [exact E|constructor].
      * by apply accepted_one.
      * unfold grown. by rewrite note_token_users.
    + apply IH in H as (pre & last & Hx & Ha & ->). exists (r :: pre), last. split_and!.
      * econstructor; [exact E|exact Hx].
      * apply accepted_more. by rewrite note_token_token in Hne.
      * cbn [app users advanced]. unfold grown. rewrite note_token_users, wire_users_cons, List.map_app.
        by rewrite app_assoc.
  - intros ([|r pre] & last & Hx & Ha & ->); cbn [app] in Hx; inversion Hx as [|? ? ? p1 ? ? E Hx']; subst.
    + apply accepted_one in Ha as (Ht & Hf & Eh & En & Hs). inversion Hx'; subst.
      split; [done|]. exists p', last. split; [done|]. left. split; [done|].
      apply next_page_done. split_and!; try done. unfold grown. cbn [app].
      by rewrite note_token_users, wire_users_one.
    + apply accepted_more in Ha as (Ht & Hf & Hc & Hne & Hlt & Ha).
      split; [done|]. exists p1, r. split; [done|]. right. eexists. split.
      * apply next_page_more. rewrite note_token_token. done.
      * apply IH. exists pre, last. split_and!; [exact Hx'|done|].
        cbn [app users advanced]. unfold grown. rewrite note_token_users, wire_users_cons, List.map_app.
        by rewrite app_assoc.
Qed.

Lemma accepted_complete pre last :
  accepted (Z.to_nat MAX_USER_PAGES) true cursor_new pre last <-> complete pre last.
Proof.
  split.
  - intros []. cbn in *. constructor; try done. lia.
  - intros []. constructor; try done; try (by left).
    + lia.
    + apply Forall_forall. intros t _. cbn. set_solver.
    + apply Forall_forall. intros t _. cbn. set_solver.
Qed.

Lemma snapshot_complete node_id p p' us :
  snapshot node_id p = (p', Ok us) <->
  exists pre last, exchange node_id "" p (pre ++ [last]) p' /\ complete pre last /\
    us = List.map of_pb_UserCredential (wire_users (pre ++ [last])).
Proof.
  unfold list_node_users_snapshot. rewrite list_pages_exact. cbn [users cursor_new page_token app].
  by setoid_rewrite accepted_complete.
Qed.
(** ** Retries *)

Local Abbreviation retry := (retry_snapshot list_users debug machine_id session_id).
Local Abbreviation node_users := (list_node_users list_users debug machine_id session_id).

(** [k] snapshots in a row that the panel aborted. *)
Inductive aborts (node_id : string) : nat -> P -> P -> Prop :=
  | aborts_none p : aborts node_id 0 p p
  | aborts_more k p p1 p2 error :
      snapshot node_id p = (p1, Err error) -> FetchError.aborted error = true ->
      aborts node_id k p1 p2 -> aborts node_id (S k) p p2.

Lemma retry_runs fuel attempts node_id p :
  (3 <= fuel + attempts)%nat -> (attempts < 3)%nat ->
  exists k p1 p' r, retry fuel (Z.of_nat attempts) node_id p = Some (p', r) /\
    (k + attempts < 3)%nat /\ aborts node_id k p p1 /\ snapshot node_id p1 = (p', r).
Proof.
  revert attempts p. induction fuel as [|fuel IH]; intros attempts p Hf Ha; [lia|]. cbn [retry_snapshot].
  destruct (snapshot node_id p) as [p1 [us|e]] eqn:E.
  { exists 0%nat, p, p1, (Ok us). split_and!; [done|lia|constructor|done]. }
  destruct (FetchError.aborted e) eqn:Ea; cbn [andb].
  2: { exists 0%nat, p, p1, (Err e). split_and!; [done|lia|constructor|done]. }
  destruct (Z.of_nat attempts + 1 <? MAX_USER_SNAPSHOT_ATTEMPTS) eqn:El;
    unfold MAX_USER_SNAPSHOT_ATTEMPTS in *.
  - destruct (IH (S attempts) p1) as (k & p2 & p' & r & H1 & H2 & H3 & H4); [lia..|].
    exists (S k), p2, p', r. replace (Z.of_nat attempts + 1) with (Z.of_nat (S attempts)) by lia.
    split_and!; [done|lia|by econstructor|done].
  - exists 0%nat, p, p1, (Err e). split_and!; [done|lia|constructor|done].
Qed.

Lemma retry_succeeds fuel attempts node_id k p p1 p' us :
  aborts node_id k p p1 -> snapshot node_id p1 = (p', Ok us) ->
  (k + attempts < 3)%nat -> (3 <= fuel + attempts)%nat ->
  retry fuel (Z.of_nat attempts) node_id p = Some (p', Ok us).
Proof.
  intros H. revert fuel attempts. induction H as [p|k p p1 p2 e E Ea H IH]; intros [|fuel] attempts Hs Hk Hf;
    cbn [retry_snapshot]; try lia.
  - by rewrite Hs.
  - rewrite E, Ea. cbn [andb]. rewrite (proj2 (Z.ltb_lt _ _)) by (unfold MAX_USER_SNAPSHOT_ATTEMPTS; lia).
    replace (Z.of_nat attempts + 1) with (Z.of_nat (S attempts)) by lia. apply IH; [done|lia..].
Qed.

Lemma retry_mono fuel fuel' attempts node_id p x :
  retry fuel attempts node_id p = Some x -> (fuel <= fuel')%nat -> retry fuel' attempts node_id p = Some x.
Proof.
  revert fuel' attempts p. induction fuel as [|fuel IH]; intros [|fuel'] attempts p; try done; [lia|].
  cbn [retry_snapshot]. destruct (snapshot node_id p) as [p1 [us|e]]; [done|].
  destruct (_ && _); [|done]. intros H Hf. apply IH; [done|lia].
Qed.

Lemma node_users_retry node_id p :
  node_id <> "" ->
  exists r, retry 3 0 node_id p = Some r /\ node_users node_id p = r.
Proof.
  intros Hn. destruct (retry_runs 3 0 node_id p) as (k & p1 & p' & r & H & _); [lia..|].
  exists (p', r). split; [done|]. unfold list_node_users.
  destruct (is_empty node_id) eqn:E; [by apply is_empty_spec in E|].
  change (Z.to_nat MAX_USER_SNAPSHOT_ATTEMPTS) with 3%nat. change (Z.of_nat 0) with 0 in H. by rewrite H.
Qed.

(** C32. A user list is returned exactly when, after at most two aborted snapshots,
    the panel serves a complete sequence of pages: then it is the list of all
    their users, in order.  No partial list and none mixed from two snapshots is
    ever returned. *)
Theorem users_exact node_id p p' us :
  node_id <> "" ->
  node_users node_id p = (p', Ok us) <->
  exists k p1 pre last, (k < 3)%nat /\ aborts node_id k p p1 /\
    exchange node_id "" p1 (pre ++ [last]) p' /\ complete pre last /\
    us = List.map of_pb_UserCredential (wire_users (pre ++ [last])).
Proof.
  intros Hn. destruct (node_users_retry node_id p Hn) as (r & Hr & ->). split.
  - intros ->. destruct (retry_runs 3 0 node_id p) as (k & p1 & p2 & r & H & Hk & Ha & Hs); [lia..|].
    change (Z.of_nat 0) with 0 in H. rewrite H in Hr. injection Hr as -> ->.
    apply snapshot_complete in Hs as (pre & last & Hx & Hc & ->). exists k, p1, pre, last. split_and!; [lia|done..].
  - intros (k & p1 & pre & last & Hk & Ha & Hx & Hc & ->).
    assert (snapshot node_id p1 = (p', Ok (List.map of_pb_UserCredential (wire_users (pre ++ [last]))))) as Hs
      by (apply snapshot_complete; eauto).
    pose proof (retry_succeeds 3 0 _ k _ _ _ _ Ha Hs ltac:(lia) ltac:(lia)) as H.
    change (Z.of_nat 0) with 0 in H. rewrite H in Hr. by injection Hr.
Qed.

(** ** Termination *)

(** [n] calls of [ListUsers], whatever they are answered. *)
Inductive calls : nat -> P -> P -> Prop :=
  | calls_none p : calls 0 p p
  | calls_more n p p1 p2 req outcome :
      list_users req p = (p1, outcome) -> calls n p1 p2 -> calls (S n) p p2.

Lemma calls_app n m p p1 p2 : calls n p p1 -> calls m p1 p2 -> calls (n + m) p p2.
Proof. induction 1; [done|]. intros. econstructor; eauto. Qed.

Lemma list_pages_calls node_id todo first c p p' r :
  list_pages node_id todo first c p = (p', r) -> exists n, (n <= todo)%nat /\ calls n p p'.
Proof.
  revert first c p. induction todo as [|todo IH]; intros first c p.
  { intros [= <- _]. exists 0%nat. split; [done|constructor]. }
  cbn [Fetcher.list_pages]. destruct (negb _ && _).
  { intros [= <- _]. exists 0%nat. split; [lia|constructor]. }
  unfold mbind, stm_bind, call, lift.
  destruct (list_users _ p) as [p1 outcome] eqn:E.
  destruct (bounded_unary _ outcome) as [resp|e].
  2: { intros [= <- _]. exists 1%nat. split; [lia|]. econstructor; [done|constructor]. }
  destruct (next_page node_id first (note_token c) resp) as [[c'|us]|e].
  - intros (n & Hn & Hc)%IH. exists (S n). split; [lia|]. by econstructor.
  - intros [= <- _]. exists 1%nat. split; [lia|]. econstructor; [done|constructor].
  - intros [= <- _]. exists 1%nat. split; [lia|]. econstructor; [done|constructor].
Qed.

Lemma aborts_calls node_id k p p1 :
  aborts node_id k p p1 -> exists n, (n <= k * Z.to_nat MAX_USER_PAGES)%nat /\ calls n p p1.
Proof.
  induction 1 as [p|k p p1 p2 e E Ea H (n & Hn & Hc)]; [exists 0%nat; split; [lia|constructor]|].
  apply list_pages_calls in E as (m & Hm & Hc'). exists (m + n)%nat. split; [lia|]. by eapply calls_app.
Qed.

(** C33. The user read of a node always ends, whatever the panel answers: three
    rounds of the retry loop are enough, more change nothing, and at most 30,000
    calls are made. *)
Theorem fetch_terminates node_id p :
  node_id <> "" ->
  exists p' r n, (forall fuel, (3 <= fuel)%nat -> retry fuel 0 node_id p = Some (p', r)) /\
    node_users node_id p = (p', r) /\ calls n p p' /\ (n <= 3 * Z.to_nat MAX_USER_PAGES)%nat.
Proof.
  intros Hn. destruct (retry_runs 3 0 node_id p) as (k & p1 & p' & r & H & Hk & Ha & Hs); [lia..|].
  destruct (node_users_retry node_id p Hn) as (r' & Hr & E).
  change (Z.of_nat 0) with 0 in H. rewrite H in Hr. injection Hr as <-.
  apply aborts_calls in Ha as (n & Hn1 & Hc). apply list_pages_calls in Hs as (m & Hm & Hc').
  exists p', r, (n + m)%nat. split_and!; [|done|by eapply calls_app|nia].
  intros fuel Hf. by eapply retry_mono.
Qed.
(** ** Whole topologies *)

Lemma node_users_canonical node_id p p' us :
  node_users node_id p = (p', Ok us) -> Forall status_canonical us.
Proof.
  intros E. destruct (decide (node_id = "")) as [->|Hn]; [done|].
  destruct (node_users_retry node_id p Hn) as (r & Hr & E'). rewrite E in E'. subst r.
  destruct (retry_runs 3 0 node_id p) as (k & p1 & p2 & r & H & _ & _ & Hs); [lia..|].
  change (Z.of_nat 0) with 0 in H. rewrite H in Hr. injection Hr as -> ->.
  apply snapshot_complete in Hs as (pre & last & _ & _ & ->).
  apply Forall_forall. intros u (w & -> & _)%list_elem_of_fmap. apply of_pb_user_canonical.
Qed.

(** The user lists read for these nodes, one after the other. *)
Inductive served : list string -> P -> list (list UserCredential.t) -> P -> Prop :=
  | served_nil p : served [] p [] p
  | served_cons id ids p p1 us uss p2 :
      node_users id p = (p1, Ok us) -> served ids p1 uss p2 -> served (id :: ids) p (us :: uss) p2.

Lemma alter_middle {A} (f : A -> A) (l k : list A) x :
  alter f (length l) (l ++ x :: k) = l ++ f x :: k.
Proof. induction l as [|y l IH]; cbn; [done|by rewrite IH]. Qed.

Lemma update_first_middle {A} (q : A -> bool) f (l k : list A) x :
  (forall y, y ∈ l -> q y = false) -> q x = true -> update_first q f (l ++ x :: k) = l ++ f x :: k.
Proof.
  induction l as [|y l IH]; cbn; intros Hl Hx; [by rewrite Hx|].
  rewrite (Hl y) by by left. rewrite IH; [done| |done]. intros z Hz. apply Hl. by right.
Qed.

Lemma set_users_coherent t ok node todo us :
  MachineTopology.nodes t = ok ++ node :: todo ->
  NoDup (List.map NodeInstance.node_id (MachineTopology.nodes t)) ->
  Forall status_canonical us -> coherent t ->
  coherent (replace_node_users (set_users_at (length ok) us t) (NodeInstance.node_id node) us).
Proof.
  intros Hn Hd Hu Hc. pose proof (replace_users_coherent t (NodeInstance.node_id node) us Hu Hc) as H.
  rewrite Hn in H, Hd. rewrite update_first_middle in H.
  - unfold set_users_at. rewrite Hn, alter_middle.
    unfold replace_node_users, with_snapshot in *. destruct t as [? ? ? ? ? ? [sn|]]; exact H.
  - intros y Hy. apply bool_decide_eq_false. intros E.
    rewrite List.map_app in Hd. apply NoDup_app in Hd as (_ & Hd & _). apply (Hd (NodeInstance.node_id y)).
    + apply list_elem_of_fmap. by exists y.
    + rewrite E. by left.
  - by apply bool_decide_eq_true.
Qed.

Lemma fill_exact todo ok t p p' t' :
  MachineTopology.nodes t = ok ++ todo ->
  NoDup (List.map NodeInstance.node_id (MachineTopology.nodes t)) -> coherent t ->
  fill_users list_users debug machine_id session_id (length ok)
    (List.map NodeInstance.node_id todo) t p = (p', Ok t') ->
  exists uss sn, served (List.map NodeInstance.node_id todo) p uss p' /\ coherent t' /\
    t' = MT.set_snapshot sn (MT.set_nodes (ok ++ zip_with node_set_users uss todo) t).
Proof.
  revert ok t p. induction todo as [|node todo IH]; intros ok t p Hn Hd Hc; cbn [List.map fill_users].
  - intros [= <- <-]. exists [], (MachineTopology.snapshot t). split_and!; [constructor|done|].
    cbn [zip_with]. rewrite <- Hn. by destruct t.
  - intros (p1 & us & E1 & E2)%stm_bind_Ok. pose proof (node_users_canonical _ _ _ _ E1) as Hu.
    pose proof (set_users_coherent t ok node todo us Hn Hd Hu Hc) as Hc1.
    set (t1 := replace_node_users _ _ _) in *.
    assert (MachineTopology.nodes t1 = (ok ++ [node_set_users us node]) ++ todo) as Hn1.
    { transitivity (MachineTopology.nodes (set_users_at (length ok) us t)).
      - subst t1. unfold replace_node_users, with_snapshot. by destruct (set_users_at _ _ _) as [? ? ? ? ? ? [|]].
      - cbn. by rewrite Hn, alter_middle, <- app_assoc. }
    destruct (IH (ok ++ [node_set_users us node]) t1 p1) as (uss & sn & Hs & Hc2 & ->); [done| |done| |].
    + rewrite Hn1. rewrite Hn in Hd. rewrite !List.map_app in *. cbn. by rewrite <- app_assoc.
    + rewrite length_app. cbn. rewrite Nat.add_1_r. exact E2.
    + exists (us :: uss), sn. split_and!; [by econstructor|done|].
      cbn [zip_with]. rewrite <- app_assoc. cbn. subst t1.
      unfold replace_node_users, with_snapshot, set_users_at. by destruct t as [? ? ? ? ? ? [|]].
Qed.

Definition config_nodes (config : Pb.MachineConfig.t) : list NodeInstance.t :=
  List.map of_pb_NodeConfig (Pb.MachineConfig.nodes config).

Lemma config_topology_nodes config :
  MachineTopology.nodes (from_machine_config machine_id (Some config)) = config_nodes config.
Proof. unfold from_machine_config, default_machine. by destruct (is_empty _). Qed.

(** A topology is fetched only when every node's users were read completely: it
    is the panel's configuration with those users on each node, and the wire
    snapshot it carries describes it, as the manager requires of what it applies. *)
Theorem fetched_exact config p p' t :
  NoDup (List.map Pb.NodeConfig.node_id (Pb.MachineConfig.nodes config)) ->
  fetch_configured_topology list_users debug machine_id session_id config p = (p', Ok t) ->
  exists uss sn, served (List.map Pb.NodeConfig.node_id (Pb.MachineConfig.nodes config)) p uss p' /\
    coherent t /\
    t = MT.set_snapshot sn (MT.set_nodes (zip_with node_set_users uss (config_nodes config))
          (from_machine_config machine_id (Some config))).
Proof.
  intros Hd H. unfold fetch_configured_topology in H.
  assert (List.map NodeInstance.node_id (config_nodes config)
    = List.map Pb.NodeConfig.node_id (Pb.MachineConfig.nodes config)) as Hids
    by (unfold config_nodes; by rewrite List.map_map).
  rewrite <- Hids in *. rewrite <- (config_topology_nodes config) in Hd, Hids |- *.
  by apply (fill_exact _ [] _ p p' t); [done|done|apply coherent_from_machine_config|].
Qed.
End spec.

(** ** Witnesses *)

(** A panel whose snapshot is aborted once and then served in two pages; the
    state counts the calls. *)
Module FetcherExample.

Definition user (id : string) : Pb.UserCredential.t := Pb.UserCredential.mk id "name" "secret" 1 0 0.

Definition list_users (req : Pb.ListUsersRequest.t) (p : nat) : nat * unary Pb.ListUsersResponse.t :=
  (S p,
   match p with
   | 0%nat => Refused {| Status.code := Status.Aborted; Status.text := "membership changed" |}
   | S _ =>
       if is_empty (Pb.ListUsersRequest.page_token req)
       then Reply (Pb.ListUsersResponse.mk [user "a"] "t" 2 true)
       else Reply (Pb.ListUsersResponse.mk [user "b"] "" 2 false)
   end).

Definition config : Pb.MachineConfig.t :=
  Pb.MachineConfig.mk "m" 7 [Pb.NodeConfig.mk "n" "p" 1 "{}" None; Pb.NodeConfig.mk "k" "p" 1 "{}" None]
    [] None None.

Definition users : list UserCredential.t := List.map of_pb_UserCredential [user "a"; user "b"].

Lemma users_exact_witness :
  exists k p1 pre last, (k < 3)%nat /\ aborts list_users id "m" "s" "n" k 0%nat p1 /\
    exchange list_users "m" "s" "n" "" p1 (pre ++ [last]) 3%nat /\ complete pre last /\
    users = List.map of_pb_UserCredential (wire_users (pre ++ [last])).
Proof. apply (users_exact list_users id "m" "s" "n" 0%nat 3%nat users); [done|vm_compute; done]. Defined.

Lemma fetch_terminates_witness :
  exists p' r n, (forall fuel, (3 <= fuel)%nat -> retry_snapshot list_users id "m" "s" fuel 0 "n" 0%nat = Some (p', r)) /\
    list_node_users list_users id "m" "s" "n" 0%nat = (p', r) /\ calls list_users n 0%nat p' /\
    (n <= 3 * Z.to_nat MAX_USER_PAGES)%nat.
Proof. apply (fetch_terminates list_users id "m" "s" "n" 0%nat). done. Defined.

Definition fetched : nat * result FetchError.t MachineTopology.t :=
  fetch_configured_topology list_users id "m" "s" config 0%nat.

Lemma fetched_exact_witness :
  exists t, fetched = (5%nat, Ok t) /\
  exists uss sn, served list_users id "m" "s" ["n"; "k"] 0%nat uss 5%nat /\ coherent t /\
    t = MT.set_snapshot sn (MT.set_nodes (zip_with node_set_users uss (config_nodes config))
          (from_machine_config "m" (Some config))).
Proof.
  destruct fetched as [p' [t|e]] eqn:E; [|by vm_compute in E].
  assert (p' = 5%nat) as -> by (apply (f_equal fst) in E; cbn [fst] in E; rewrite <- E; by vm_compute).
  exists t. split; [done|].
  apply (fetched_exact list_users id "m" "s" config 0%nat 5%nat t); [|exact E].
  cbn. repeat constructor; set_solver.
Defined.
End FetcherExample.
