(* ===== verification/Ack.v ===== *)
(** * The acknowledgement cache: [crates/node-agent/src/control/ack.rs]

    The FIFO-bounded replay cache for control commands.  The execution gates of
    the same file are part of the lanes ([Lanes.v]), where they are shared.

    Theorems: the cache is the list of the last [capacity] first successes
    ([complete_refines]); a retried command replays its cached acknowledgement
    with the new transport ids, and failures are never cached ([execute_exact]). *)

From Stdlib Require Import ZArith Lia.
From S2P Require Import Prelude.

Open Scope Z_scope.

Definition DEFAULT_ACK_STORE_CAPACITY : nat := 512.

Module AckStatus.
Inductive t : Type := Accepted | Applied | Failed | RolledBack.
#[global] Instance eq_dec : EqDecision t.
Proof. solve_decision. Defined.
(** Results that are not cached, so that the panel can retry. *)
Definition retryable (status : t) : bool :=
  match status with Failed | RolledBack => true | Accepted | Applied => false end.
End AckStatus.

Module Command.
Record t : Type := mk {
  command_id : string;
  operation_id : string;
  machine_id : string;
  node_id : string;
  revision : Z;
  idempotency_key : string;
  command_type : string;
  payload : string
}.
End Command.

Module Ack.
Record t : Type := mk {
  command_id : string;
  operation_id : string;
  machine_id : string;
  node_id : string;
  revision : Z;
  idempotency_key : string;
  status : AckStatus.t;
  message : string
}.
#[global] Instance eq_dec : EqDecision t.
Proof. solve_decision. Defined.
Definition default : t := mk "" "" "" "" 0 "" AckStatus.Accepted "".
(** [Ack { status, message, ..Ack::default() }] *)
Definition result (status : AckStatus.t) (message : string) : t := mk "" "" "" "" 0 "" status message.
(** [ack.command_id.clone_from(..); ack.operation_id.clone_from(..)] *)
Definition set_transport (command : Command.t) (self : t) : t :=
  mk (Command.command_id command) (Command.operation_id command) (machine_id self) (node_id self)
    (revision self) (idempotency_key self) (status self) (message self).
(** The whole envelope of the command. *)
Definition set_envelope (command : Command.t) (self : t) : t :=
  mk (Command.command_id command) (Command.operation_id command) (Command.machine_id command)
    (Command.node_id command) (Command.revision command) (Command.idempotency_key command)
    (status self) (message self).
End Ack.

Inductive ExecuteError : Type := KeyRequired.

(** [State], without the execution gates. *)
Record store : Type := mkStore { seen : gmap string Ack.t; order : list string }.

Definition with_capacity : store := mkStore ∅ [].

Section store.
Context (capacity : nat).

Local Abbreviation method := (stm store ExecuteError).
Implicit Types s : store.

Definition require_key (command : Command.t) : method unit :=
  if is_empty (Command.idempotency_key command) then raise KeyRequired else mret tt.

Definition replay (command : Command.t) : method (option Ack.t) :=
  _ ← require_key command;
  s ← get;
  mret (Ack.set_transport command <$> seen s !! Command.idempotency_key command).

(** [while state.order.len() > self.capacity { .. }] *)
Fixpoint evict (order : list string) (seen : gmap string Ack.t) : store :=
  match order with
  | [] => mkStore seen []
  | oldest :: rest =>
      if (capacity <? length order)%nat then evict rest (delete oldest seen) else mkStore seen order
  end.

(** [if !state.seen.contains_key(..) { .. }] *)
Definition remember (key : string) (ack : Ack.t) s : store :=
  match seen s !! key with
  | Some _ => s
  | None => evict (order s ++ [key]) (<[key := ack]> (seen s))
  end.

Definition complete (command : Command.t) (ack : Ack.t) : method Ack.t :=
  _ ← require_key command;
  let ack := Ack.set_envelope command ack in
  _ ← if AckStatus.retryable (Ack.status ack) then mret tt
      else modify (remember (Command.idempotency_key command) ack);
  mret ack.

Definition execute (command : Command.t) (run : Command.t -> Ack.t) : method (Ack.t * bool) :=
  cached ← replay command;
  match cached with
  | Some ack => mret (ack, true)
  | None => ack ← complete command (run command); mret (ack, false)
  end.

(** ** The abstract cache: the entries in order of completion *)

Definition entries : Type := list (string * Ack.t).

Definition represents s (es : entries) : Prop :=
  order s = es.*1 /\ NoDup es.*1 /\ (length es <= capacity)%nat /\ seen s = list_to_map es.

Definition push (key : string) (ack : Ack.t) (es : entries) : entries :=
  let es := es ++ [(key, ack)] in drop (length es - capacity) es.

Lemma represents_new : represents with_capacity [].
Proof. split_and!; [done|constructor|cbn; lia|done]. Qed.

Lemma lookup_entries es (key : string) : key ∈ es.*1 <-> is_Some ((list_to_map es : gmap string Ack.t) !! key).
Proof.
  rewrite <- not_eq_None_Some. split; intros H.
  - by intros E%not_elem_of_list_to_map.
  - destruct (decide (key ∈ es.*1)) as [|Hn]; [done|]. by apply not_elem_of_list_to_map_1 in Hn.
Qed.

Lemma evict_entries (es : entries) :
  NoDup es.*1 -> evict es.*1 (list_to_map es)
  = mkStore (list_to_map (drop (length es - capacity) es)) (drop (length es - capacity) es).*1.
Proof.
  induction es as [|[k a] es IH]; [done|]. cbn [fmap list_fmap fst evict]. intros [Hk Hd]%NoDup_cons.
  cbn [length]. rewrite length_fmap. destruct (Nat.ltb_spec capacity (S (length es))) as [Hl|Hl].
  - cbn [list_to_map foldr]. rewrite delete_insert_eq, delete_id by by apply not_elem_of_list_to_map_1.
    rewrite IH by done. by rewrite Nat.sub_succ_l by lia.
  - replace (S (length es) - capacity)%nat with 0%nat by lia. done.
Qed.

Lemma list_to_map_snoc_fresh (es : entries) k a :
  k ∉ es.*1 -> (list_to_map (es ++ [(k, a)]) : gmap string Ack.t) = <[k := a]> (list_to_map es).
Proof.
  induction es as [|[k' a'] es IH]; [done|]. intros [Hne Hk]%not_elem_of_cons. cbn [app list_to_map foldr].
  rewrite insert_insert_ne by done. f_equal. by apply IH.
Qed.

Lemma NoDup_skip {A} n (l : list A) : NoDup l -> NoDup (drop n l).
Proof. rewrite <- (take_drop n l) at 1. by intros (_ & _ & ?)%NoDup_app. Qed.

Lemma push_keys key ack es : (push key ack es).*1 = drop (length es + 1 - capacity) (es.*1 ++ [key]).
Proof. unfold push. rewrite fmap_drop, length_app, fmap_app. done. Qed.

Lemma remember_represents s es key ack :
  represents s es ->
  represents (remember key ack s) (if decide (key ∈ es.*1) then es else push key ack es).
Proof.
  intros (Ho & Hd & Hl & Hs). unfold remember.
  case_decide as Hk; pose proof (lookup_entries es key) as Hi; rewrite <- Hs in Hi.
  - apply Hi in Hk as [a ->]. done.
  - destruct (seen s !! key) as [a|] eqn:E; [by destruct Hk; apply Hi|].
    rewrite Hs, Ho, <- list_to_map_snoc_fresh by done.
    assert (NoDup (es ++ [(key, ack)]).*1) as Hd'.
    { rewrite fmap_app. apply NoDup_app. split_and!; [done| |apply NoDup_singleton].
      intros x Hx ->%list_elem_of_singleton. done. }
    replace (es.*1 ++ [key]) with ((es ++ [(key, ack)]).*1) by (by rewrite fmap_app).
    rewrite evict_entries by done. unfold push. split_and!; [done| | |done].
    + rewrite fmap_drop. by apply NoDup_skip.
    + rewrite length_drop. lia.
Qed.

(** [complete] over the abstract cache: the acknowledgement gets the command's
    envelope; a success enters the cache unless its key is there already, pushing
    out the oldest entries beyond the capacity; a failure leaves it alone. *)
Theorem complete_refines s es command ack :
  represents s es -> Command.idempotency_key command <> "" ->
  let stamped := Ack.set_envelope command ack in
  let es' := if AckStatus.retryable (Ack.status ack) then es
             else if decide (Command.idempotency_key command ∈ es.*1) then es
             else push (Command.idempotency_key command) stamped es in
  exists s', complete command ack s = (s', Ok stamped) /\ represents s' es'.
Proof.
  intros H Hk%is_empty_false. cbn zeta. unfold complete, require_key. rewrite Hk.
  change (Ack.status (Ack.set_envelope command ack)) with (Ack.status ack).
  destruct (AckStatus.retryable (Ack.status ack)); [by exists s|].
  eexists. split; [reflexivity|]. by apply remember_represents.
Qed.

Lemma push_newest key ack es : (0 < capacity)%nat -> (key, ack) ∈ push key ack es.
Proof.
  intros Hc. unfold push. rewrite length_app, drop_app_le by (cbn; lia).
  apply elem_of_app. right. by left.
Qed.

Lemma execute_cached s es command run ack :
  represents s es -> Command.idempotency_key command <> "" ->
  (Command.idempotency_key command, ack) ∈ es ->
  execute command run s = (s, Ok (Ack.set_transport command ack, true)).
Proof.
  intros (_ & Hd & _ & Hs) Hk%is_empty_false Hin. unfold execute, replay, require_key. rewrite Hk.
  apply (elem_of_list_to_map_1 _ _ _ Hd) in Hin. unfold mbind, stm_bind, get, mret, stm_ret. cbn.
  by rewrite Hs, Hin.
Qed.

(** [execute]: a command without a key is refused; a cached key is replayed
    without running the command, with only the transport ids of the new delivery;
    any other command runs once, and if it succeeded a second delivery with that
    key is a replay, while after a failure it would run again. *)
Theorem execute_exact s es command run :
  (0 < capacity)%nat -> represents s es ->
  let key := Command.idempotency_key command in
  let ack := Ack.set_envelope command (run command) in
  (key = "" -> execute command run s = (s, Err KeyRequired)) /\
  (forall cached, key <> "" -> (key, cached) ∈ es ->
     execute command run s = (s, Ok (Ack.set_transport command cached, true))) /\
  (key <> "" -> key ∉ es.*1 ->
     exists s', execute command run s = (s', Ok (ack, false)) /\
       (AckStatus.retryable (Ack.status ack) = true -> s' = s) /\
       (AckStatus.retryable (Ack.status ack) = false -> forall command' run',
          Command.idempotency_key command' = key ->
          execute command' run' s' = (s', Ok (Ack.set_transport command' ack, true)))).
Proof.
  intros Hc H key ack. split_and!.
  - intros Hk. unfold execute, replay, require_key. fold key. by rewrite Hk.
  - intros cached Hk. by apply execute_cached.
  - intros Hk Hn. pose proof (proj2 (is_empty_false _) Hk) as Hk'.
    assert (execute command run s = (if AckStatus.retryable (Ack.status ack) then s else remember key ack s,
      Ok (ack, false))) as ->.
    { unfold execute, replay, complete, require_key. fold key. rewrite Hk'.
      unfold mbind, stm_bind, get, mret, stm_ret. cbn -[remember]. destruct H as (_ & _ & _ & ->).
      fold key. rewrite not_elem_of_list_to_map_1 by done. cbn -[remember].
      fold key. by destruct (AckStatus.retryable (Ack.status (run command))). }
    eexists. split; [reflexivity|].
    destruct (AckStatus.retryable (Ack.status ack)); [done|]. split; [done|].
    intros _ command' run' Hk2. pose proof (remember_represents s es key ack H) as H'.
    rewrite decide_False in H' by done.
    eapply execute_cached; [exact H'|by rewrite Hk2|rewrite Hk2; by apply push_newest].
Qed.
End store.

(** ** Witnesses *)

Module AckExample.
Definition command (id key : string) : Command.t := Command.mk id "op" "m" "n" 3 key "" "".
Definition applied (c : Command.t) : Ack.t := Ack.result AckStatus.Applied "done".
Definition one : entries := [("k", Ack.set_envelope (command "c1" "k") (applied (command "c1" "k")))].

Lemma one_ok : represents 2 (remember 2 "k" (Ack.set_envelope (command "c1" "k") (applied (command "c1" "k"))) with_capacity) one.
Proof. apply (remember_represents 2 with_capacity []). apply represents_new. Qed.

Lemma complete_refines_witness :
  exists s', complete 2 (command "c2" "j") (applied (command "c2" "j"))
      (remember 2 "k" (Ack.set_envelope (command "c1" "k") (applied (command "c1" "k"))) with_capacity)
    = (s', Ok (Ack.set_envelope (command "c2" "j") (applied (command "c2" "j")))) /\
    represents 2 s' (push 2 "j" (Ack.set_envelope (command "c2" "j") (applied (command "c2" "j"))) one).
Proof. apply (complete_refines 2 _ one (command "c2" "j")); [apply one_ok|done]. Defined.

Lemma execute_exact_witness :
  execute 2 (command "c2" "k") applied
    (remember 2 "k" (Ack.set_envelope (command "c1" "k") (applied (command "c1" "k"))) with_capacity)
  = (remember 2 "k" (Ack.set_envelope (command "c1" "k") (applied (command "c1" "k"))) with_capacity,
     Ok (Ack.mk "c2" "op" "m" "n" 3 "k" AckStatus.Applied "done", true)).
Proof.
  destruct (execute_exact 2 _ one (command "c2" "k") applied ltac:(lia) one_ok) as (_ & H & _).
  apply (H (Ack.set_envelope (command "c1" "k") (applied (command "c1" "k")))); [done|by left].
Defined.
End AckExample.
