(* ===== verification/Lanes.v ===== *)
(** * The control lanes: [crates/node-agent/src/control/worker.rs] with the
    execution gates of [ack.rs]

    Every panel session has a regular and a refresh lane, each a task that takes
    commands one by one; sessions overlap when the panel reconnects, and all share
    one acknowledgement cache.  [step] is one step of one task: a lane step ends at
    each await or lock of the source's loop, so the lanes interleave freely.

    The execution gates are reference counted: a lane holds a strong reference
    from [execution_gate] until it drops the permit, the registry holds weak ones
    (an upgrade succeeds while some lane has a strong reference), and the lane that
    drops the last one runs the destructor as a step of its own.

    The executor is the environment: [Finish] gives its outcome, panics included.
    The bounded output channel only delays a send. *)

From Stdlib Require Import ZArith Lia.
From S2P Require Import Prelude Wire Ack.

Open Scope Z_scope.

Definition MAX_QUEUED_CONTROL_COMMANDS : nat := 256.
Definition MAX_QUEUED_USER_REFRESH_COMMANDS : nat := 256.

Module TerminalResult.
Record t : Type := mk { status : AckStatus.t; message : string }.
Definition applied (message : string) : t := mk AckStatus.Applied message.
Definition failed (message : string) : t := mk AckStatus.Failed message.
End TerminalResult.

Local Abbreviation ControlCommand := Pb.ControlCommand.t.

(** ** Commands and acknowledgements *)

Definition ack_command_from_proto (command : ControlCommand) : Command.t :=
  Command.mk (Pb.ControlCommand.command_id command) (Pb.ControlCommand.operation_id command)
    (Pb.ControlCommand.machine_id command) (Pb.ControlCommand.node_id command)
    (Pb.ControlCommand.revision command) (Pb.ControlCommand.idempotency_key command) "" "".

Definition proto_ack_status (status : AckStatus.t) : Z :=
  Pb.ControlAckStatus.number
    match status with
    | AckStatus.Accepted => Pb.ControlAckStatus.Accepted
    | AckStatus.Applied => Pb.ControlAckStatus.Applied
    | AckStatus.Failed => Pb.ControlAckStatus.Failed
    | AckStatus.RolledBack => Pb.ControlAckStatus.RolledBack
    end.

Definition proto_ack (command : ControlCommand) (status : AckStatus.t) (message : string) : Pb.ControlAck.t := {|
  Pb.ControlAck.command_id := Pb.ControlCommand.command_id command;
  Pb.ControlAck.machine_id := Pb.ControlCommand.machine_id command;
  Pb.ControlAck.node_id := Pb.ControlCommand.node_id command;
  Pb.ControlAck.revision := Pb.ControlCommand.revision command;
  Pb.ControlAck.idempotency_key := Pb.ControlCommand.idempotency_key command;
  Pb.ControlAck.status := proto_ack_status status;
  Pb.ControlAck.message := message;
  Pb.ControlAck.operation_id := Pb.ControlCommand.operation_id command
|}.

Definition uses_refresh_lane (command_type : Z) : bool :=
  command_type =? Pb.ControlCommandType.number Pb.ControlCommandType.UserRefresh.

(** How the executor's task ended; a panic carries its payload when it is text. *)
Inductive joined : Type :=
  | Returned (result : TerminalResult.t)
  | Panicked (payload : option string)
  | TaskFailed (error : string).

Definition panic_message (payload : option string) : string :=
  match payload with Some message => message | None => "non-string panic payload" end.

Definition terminal_result (outcome : joined) : TerminalResult.t :=
  let result := match outcome with
    | Returned result => result
    | Panicked payload =>
        TerminalResult.failed ("control command execution panicked: " +:+ panic_message payload)
    | TaskFailed error => TerminalResult.failed ("control command execution task failed: " +:+ error)
    end in
  match TerminalResult.status result with
  | AckStatus.Accepted => TerminalResult.failed "control command completed without a terminal result"
  | _ => result
  end.

(** ** State *)

(** [ExecutionGate]: its key and its identity. *)
Record gate : Type := mkGate { gate_key : string; gate_id : nat }.
#[export] Instance gate_eq_dec : EqDecision gate.
Proof. solve_decision. Defined.

(** An acknowledgement on its way: the command it answers, status, message. *)
Record reply : Type := mkReply { reply_to : ControlCommand; reply_status : AckStatus.t; reply_message : string }.

(** Where a lane is in its loop.  [after] is what follows the drop of the permit:
    an acknowledgement to send, or the end of the loop. *)
Inductive lane_pc : Type :=
  | Ready
  | Waiting (command : ControlCommand) (g : gate)
  | Granted (command : ControlCommand) (execution : option gate)
  | Executing (command : ControlCommand) (execution : option gate)
  | Executed (command : ControlCommand) (execution : option gate) (result : TerminalResult.t)
  | Unlocking (g : gate) (after : option reply)
  | Releasing (g : gate) (after : option reply)
  | Destroying (g : gate) (after : option reply)
  | Sending (r : reply)
  | Stopped.

Record lane : Type := mkLane { queue : list ControlCommand; pc : lane_pc }.

(** A session: its cancellation token, the acknowledgements sent, and the
    submission under way, with whether it was acknowledged as accepted. *)
Record session : Type := mkSession {
  cancelled : bool;
  output : list reply;
  submitting : option (ControlCommand * bool)
}.

(** A lane is named by its session and whether it is the refresh lane. *)
Definition lane_id : Type := nat * bool.

(** [successes] is a history variable: every success completed, with its
    acknowledgement. *)
Record sys : Type := mkSys {
  cache : store;
  executions : gmap string gate;
  next_gate : nat;
  lanes : gmap lane_id lane;
  sessions : gmap nat session;
  successes : entries
}.

Definition sys_new : sys := mkSys with_capacity ∅ 0 ∅ ∅ [].

Implicit Types s : sys.

Definition set_cache c s : sys :=
  mkSys c (executions s) (next_gate s) (lanes s) (sessions s) (successes s).
Definition set_executions e s : sys :=
  mkSys (cache s) e (next_gate s) (lanes s) (sessions s) (successes s).
Definition set_next_gate n s : sys :=
  mkSys (cache s) (executions s) n (lanes s) (sessions s) (successes s).
Definition set_lane i l s : sys :=
  mkSys (cache s) (executions s) (next_gate s) (<[i := l]> (lanes s)) (sessions s) (successes s).
Definition set_session n x s : sys :=
  mkSys (cache s) (executions s) (next_gate s) (lanes s) (<[n := x]> (sessions s)) (successes s).
Definition add_success e s : sys :=
  mkSys (cache s) (executions s) (next_gate s) (lanes s) (sessions s) (successes s ++ [e]).

Definition is_cancelled n s : bool := from_option cancelled true (sessions s !! n).

(** ** Execution gates *)

(** The part a lane has in a gate: a strong reference, the lock too, or, after
    the last reference is gone, the destructor. *)
Inductive part : Type := Shared | Locked | Dying.
#[export] Instance part_eq_dec : EqDecision part.
Proof. solve_decision. Defined.

Definition hold (p : lane_pc) : option (part * gate) :=
  match p with
  | Waiting _ g | Releasing g _ => Some (Shared, g)
  | Granted _ (Some g) | Executing _ (Some g) | Executed _ (Some g) _ | Unlocking g _ => Some (Locked, g)
  | Destroying g _ => Some (Dying, g)
  | Granted _ None | Executing _ None | Executed _ None _ | Ready | Sending _ | Stopped => None
  end.

Definition strong (g : gate) (p : lane_pc) : Prop := hold p = Some (Shared, g) \/ hold p = Some (Locked, g).
#[export] Instance strong_dec g p : Decision (strong g p).
Proof. unfold strong. apply _. Defined.

(** [Weak::upgrade] succeeds. *)
Definition alive (g : gate) s : bool := bool_decide (map_Exists (fun _ l => strong g (pc l)) (lanes s)).
Definition unlocked (g : gate) s : bool :=
  bool_decide (map_Forall (fun _ l => hold (pc l) <> Some (Locked, g)) (lanes s)).

Definition execution_gate (key : string) s : sys * gate :=
  let fresh :=
    let g := mkGate key (next_gate s) in
    (set_executions (<[key := g]> (executions s)) (set_next_gate (S (next_gate s)) s), g) in
  match executions s !! key with
  | Some g => if alive g s then (s, g) else fresh
  | None => fresh
  end.

(** [Drop for ExecutionGate] *)
Definition drop_gate (g : gate) s : sys :=
  match executions s !! gate_key g with
  | Some g' => if decide (g' = g) then set_executions (delete (gate_key g) (executions s)) s else s
  | None => s
  end.

Definition goto (after : option reply) : lane_pc :=
  match after with Some r => Sending r | None => Stopped end.

(** [drop(execution)] *)
Definition drop_execution (execution : option gate) (after : option reply) : lane_pc :=
  match execution with Some g => Unlocking g after | None => goto after end.

(** ** Steps *)

Section step.
Context (capacity : nat).

Definition set_pc i (l : lane) (p : lane_pc) s : sys := set_lane i (mkLane (queue l) p) s.

(** One command from the queue, and the gate of its key. *)
Definition take_command i (l : lane) s : option sys :=
  if is_cancelled i.1 s then Some (set_pc i l Stopped s)
  else match queue l with
  | [] => None
  | command :: rest =>
      let key := Pb.ControlCommand.idempotency_key command in
      if is_empty key then Some (set_lane i (mkLane rest (Granted command None)) s)
      else let '(s, g) := execution_gate key s in Some (set_lane i (mkLane rest (Waiting command g)) s)
  end.

Definition lock_gate i (l : lane) (command : ControlCommand) (g : gate) s : option sys :=
  if is_cancelled i.1 s then Some (set_pc i l (Releasing g None) s)
  else if unlocked g s then Some (set_pc i l (Granted command (Some g)) s) else None.

(** The cancellation check, then the cache. *)
Definition look_up i (l : lane) (command : ControlCommand) (execution : option gate) s : sys :=
  if is_cancelled i.1 s then set_pc i l (drop_execution execution None) s
  else
    let generic := ack_command_from_proto command in
    match (replay generic (cache s)).2 with
    | Ok (Some cached) =>
        if is_empty (Command.idempotency_key generic) then set_pc i l (Executing command execution) s
        else set_pc i l (drop_execution execution
               (Some (mkReply command (Ack.status cached) (Ack.message cached)))) s
    | Ok None | Err _ => set_pc i l (Executing command execution) s
    end.

(** The terminal result enters the cache before the gate is released. *)
Definition complete_command i (l : lane) (command : ControlCommand) (execution : option gate)
    (result : TerminalResult.t) s : sys :=
  let generic := ack_command_from_proto command in
  let ack := Ack.result (TerminalResult.status result) (TerminalResult.message result) in
  let answer a := drop_execution execution (Some (mkReply command (Ack.status a) (Ack.message a))) in
  if is_empty (Command.idempotency_key generic) then set_pc i l (answer ack) s
  else
    match complete capacity generic ack (cache s) with
    | (c, Ok a) =>
        let s := set_pc i l (answer a) (set_cache c s) in
        if AckStatus.retryable (Ack.status a) then s
        else add_success (Command.idempotency_key generic, a) s
    | (c, Err _) => set_pc i l (answer (Ack.result AckStatus.Failed "idempotency key is required")) (set_cache c s)
    end.

(** The strong reference goes; the last one runs the destructor. *)
Definition release i (l : lane) (g : gate) (after : option reply) s : sys :=
  let dropped := set_pc i l (goto after) s in
  if alive g dropped then dropped else set_pc i l (Destroying g after) s.

Definition send_lane_ack i (l : lane) (r : reply) s : option sys :=
  x ← sessions s !! i.1;
  if cancelled x then Some (set_pc i l Stopped s)
  else Some (set_pc i l Ready (set_session i.1 (mkSession false (output x ++ [r]) (submitting x)) s)).

Definition lane_step i (l : lane) (outcome : option joined) s : option sys :=
  match pc l, outcome with
  | Ready, None => take_command i l s
  | Waiting command g, None => lock_gate i l command g s
  | Granted command execution, None => Some (look_up i l command execution s)
  | Executing command execution, Some outcome =>
      Some (set_pc i l (Executed command execution (terminal_result outcome)) s)
  | Executed command execution result, None => Some (complete_command i l command execution result s)
  | Unlocking g after, None => Some (set_pc i l (Releasing g after) s)
  | Releasing g after, None => Some (release i l g after s)
  | Destroying g after, None => Some (set_pc i l (goto after) (drop_gate g s))
  | Sending r, None => send_lane_ack i l r s
  | _, _ => None
  end.

(** [submit], first phase: the cancellation check and, on the regular lane, a
    place in the queue. *)
Definition submit n (command : ControlCommand) s : option sys :=
  x ← sessions s !! n;
  l ← lanes s !! (n, false);
  match submitting x with
  | Some _ => None
  | None =>
      if cancelled x then Some s
      else if uses_refresh_lane (Pb.ControlCommand.type_ command)
              || (length (queue l) <? MAX_QUEUED_CONTROL_COMMANDS)%nat
      then Some (set_session n (mkSession false (output x) (Some (command, false))) s)
      else None
  end.

(** [send_ack] of a submission; a cancelled session drops it. *)
Definition submission_ack n (r : reply) (next : option (ControlCommand * bool)) s : option sys :=
  x ← sessions s !! n;
  if cancelled x then Some (set_session n (mkSession true (output x) None) s)
  else Some (set_session n (mkSession false (output x ++ [r]) next) s).

Definition submission_done n s : option sys :=
  x ← sessions s !! n; Some (set_session n (mkSession (cancelled x) (output x) None) s).

Definition enqueue n (command : ControlCommand) s : option sys :=
  let refresh := uses_refresh_lane (Pb.ControlCommand.type_ command) in
  let i := (n, refresh) in
  l ← lanes s !! i;
  let queued := submission_done n (set_lane i (mkLane (queue l ++ [command]) (pc l)) s) in
  if refresh then
    match pc l with
    | Stopped => submission_ack n (mkReply command AckStatus.Failed "control command worker is closed") None s
    | _ =>
        if (length (queue l) <? MAX_QUEUED_USER_REFRESH_COMMANDS)%nat then queued
        else submission_ack n (mkReply command AckStatus.Failed "user refresh queue is full") None s
    end
  else queued.

Definition submit_step n s : option sys :=
  x ← sessions s !! n;
  match submitting x with
  | None => None
  | Some (command, false) =>
      submission_ack n (mkReply command AckStatus.Accepted "accepted for execution") (Some (command, true)) s
  | Some (command, true) => enqueue n command s
  end.

Definition spawn n s : option sys :=
  match sessions s !! n with
  | Some _ => None
  | None =>
      Some (set_lane (n, false) (mkLane [] Ready) (set_lane (n, true) (mkLane [] Ready)
             (set_session n (mkSession false [] None) s)))
  end.

Definition cancel n s : option sys :=
  x ← sessions s !! n; Some (set_session n (mkSession true (output x) (submitting x)) s).

Inductive event : Type :=
  | EvSpawn (n : nat)
  | EvCancel (n : nat)
  | EvSubmit (n : nat) (command : ControlCommand)
  | EvSubmitStep (n : nat)
  | EvLane (i : lane_id) (outcome : option joined).

Definition step (e : event) s : option sys :=
  match e with
  | EvSpawn n => spawn n s
  | EvCancel n => cancel n s
  | EvSubmit n command => submit n command s
  | EvSubmitStep n => submit_step n s
  | EvLane i outcome => l ← lanes s !! i; lane_step i l outcome s
  end.

Fixpoint run (es : list event) s : option sys :=
  match es with
  | [] => Some s
  | e :: es => s ← step e s; run es s
  end.

Definition reachable s : Prop := exists es, run es sys_new = Some s.
End step.
