(* ===== verification/LanesSpec.v ===== *)
(** * The control lanes: their guarantees

    For every schedule of any number of overlapping sessions: no two lanes execute
    commands of one idempotency key at the same time ([mutual_exclusion]); a key
    succeeds at most once among any [capacity + 1] consecutive successes
    ([success_once]); the cache holds exactly the last successes; the gate registry
    is bounded by the lanes at work ([registry_bounded]); and every accepted
    command of a live session gets exactly one terminal acknowledgement or is still
    on its way ([every_command_answered]). *)

From Stdlib Require Import ZArith Lia.
From S2P Require Import Prelude Wire Ack Lanes.

Open Scope Z_scope.

(** ** Gates

    The invariant of the registry, over what each lane holds. *)

Local Abbreviation holds := (lane_id -> option (part * gate)).

Definition is_strong (p : part) : Prop := p = Shared \/ p = Locked.

Record gates_ok (ex : gmap string gate) (next : nat) (H : holds) : Prop := {
  go_strong i p g : H i = Some (p, g) -> is_strong p -> ex !! gate_key g = Some g;
  go_fresh i p g : H i = Some (p, g) -> (gate_id g < next)%nat;
  go_dying i j p g : H i = Some (Dying, g) -> H j = Some (p, g) -> p = Dying;
  go_locked i j g : H i = Some (Locked, g) -> H j = Some (Locked, g) -> i = j;
  go_entry k g : ex !! k = Some g -> gate_key g = k /\ exists i p, H i = Some (p, g)
}.

Definition upd (i : lane_id) (x : option (part * gate)) (H : holds) : holds := fun j => if decide (i = j) then x else H j.

Lemma upd_same i x H : upd i x H i = x.
Proof. unfold upd. by rewrite decide_True. Qed.
Lemma upd_other i j x H : i <> j -> upd i x H j = H j.
Proof. intros. unfold upd. by rewrite decide_False. Qed.

Lemma upd_inv i x H j y : upd i x H j = y -> i = j /\ x = y \/ i <> j /\ H j = y.
Proof. unfold upd. case_decide; auto. Qed.

Ltac upd_cases :=
  repeat match goal with
  | E : upd _ _ _ _ = _ |- _ => apply upd_inv in E as [[<- E]|[? E]]; first [discriminate E|injection E; clear E; intros; subst|idtac]
  end.

(** A lane without a part takes a reference to the live gate of a key. *)
Lemma gates_share ex next H i g j p :
  gates_ok ex next H -> H i = None -> H j = Some (p, g) -> is_strong p ->
  gates_ok ex next (upd i (Some (Shared, g)) H).
Proof.
  intros [G1 G2 G3 G4 G5] Hi Hj Hp. constructor.
  - intros k q g' E Hq. upd_cases; eauto.
  - intros k q g' E. upd_cases; eauto.
  - intros k k' q g' E E'. upd_cases; eauto. pose proof (G3 _ _ _ _ E Hj) as ->. by destruct Hp.
  - intros k k' g' E E'. upd_cases; eauto.
  - intros k g' E. destruct (G5 k g' E) as (Hk & l & q & Hl). split; [done|].
    destruct (decide (i = l)) as [->|Hne]; [congruence|]. exists l, q. by rewrite upd_other.
Qed.

(** It creates a gate when the key has none that is alive. *)
Lemma gates_create ex next H i key :
  gates_ok ex next H -> H i = None ->
  (forall j p g, H j = Some (p, g) -> is_strong p -> gate_key g <> key) ->
  gates_ok (<[key := mkGate key next]> ex) (S next) (upd i (Some (Shared, mkGate key next)) H).
Proof.
  intros [G1 G2 G3 G4 G5] Hi Hno. constructor.
  - intros k q g' E Hq. upd_cases; [by rewrite lookup_insert_eq|].
    rewrite lookup_insert_ne; [by eapply G1|]. intros Ek. by eapply Hno.
  - intros k q g' E. upd_cases; [cbn; lia|]. apply G2 in E. lia.
  - intros k k' q g' E E'. upd_cases; eauto. apply G2 in E. cbn in E. lia.
  - intros k k' g' E E'. upd_cases; eauto.
  - intros k g' E. destruct (decide (key = k)) as [<-|Hne].
    + rewrite lookup_insert_eq in E. injection E as <-. split; [done|]. exists i, Shared. by rewrite upd_same.
    + rewrite lookup_insert_ne in E by done. destruct (G5 k g' E) as (Hk & l & q & Hl). split; [done|].
      destruct (decide (i = l)) as [->|Hne']; [congruence|]. exists l, q. by rewrite upd_other.
Qed.

(** A lane changes its part in its gate, keeping a strong reference. *)
Lemma gates_keep ex next H i g p p' :
  gates_ok ex next H -> H i = Some (p, g) -> is_strong p -> is_strong p' ->
  (p' = Locked -> forall j, H j = Some (Locked, g) -> i = j) ->
  gates_ok ex next (upd i (Some (p', g)) H).
Proof.
  intros [G1 G2 G3 G4 G5] Hi Hp Hp' Hl. constructor.
  - intros k q g' E Hq. upd_cases; eauto.
  - intros k q g' E. upd_cases; eauto.
  - intros k k' q g' E E'. upd_cases; eauto; try (by destruct Hp').
    pose proof (G3 _ _ _ _ E Hi) as ->. by destruct Hp.
  - intros k k' g' E E'. upd_cases; eauto. symmetry. eauto.
  - intros k g' E. destruct (G5 k g' E) as (Hk & l & q & Hl'). split; [done|].
    destruct (decide (i = l)) as [->|Hne]; [exists l, p'; rewrite upd_same; congruence|].
    exists l, q. by rewrite upd_other.
Qed.

(** It gives up its reference while another lane has one. *)
Lemma gates_leave ex next H i g p j q :
  gates_ok ex next H -> H i = Some (p, g) -> i <> j -> H j = Some (q, g) -> gates_ok ex next (upd i None H).
Proof.
  intros [G1 G2 G3 G4 G5] Hi Hij Hj. constructor.
  - intros k q' g' E Hq. upd_cases; eauto.
  - intros k q' g' E. upd_cases; eauto.
  - intros k k' q' g' E E'. upd_cases; eauto.
  - intros k k' g' E E'. upd_cases; eauto.
  - intros k g' E. destruct (G5 k g' E) as (Hk & l & q' & Hl). split; [done|].
    destruct (decide (i = l)) as [->|Hne]; [|exists l, q'; by rewrite upd_other].
    exists j, q. rewrite upd_other by done. congruence.
Qed.

(** Or it was the last, and the destructor is due. *)
Lemma gates_die ex next H i g p :
  gates_ok ex next H -> H i = Some (p, g) ->
  (forall j q, i <> j -> H j = Some (q, g) -> ~ is_strong q) ->
  gates_ok ex next (upd i (Some (Dying, g)) H).
Proof.
  intros [G1 G2 G3 G4 G5] Hi Hno. constructor.
  - intros k q g' E Hq. upd_cases; eauto. by destruct Hq.
  - intros k q g' E. upd_cases; eauto.
  - intros k k' q g' E E'. upd_cases; eauto. destruct q; [..|done];
      edestruct Hno; try done; unfold is_strong; eauto.
  - intros k k' g' E E'. upd_cases; eauto.
  - intros k g' E. destruct (G5 k g' E) as (Hk & l & q & Hl). split; [done|].
    destruct (decide (i = l)) as [->|Hne]; [exists l, Dying; rewrite upd_same; congruence|].
    exists l, q. by rewrite upd_other.
Qed.

(** The destructor removes the entry of its own gate only. *)
Lemma gates_destroy ex next H i g :
  gates_ok ex next H -> H i = Some (Dying, g) ->
  gates_ok (if decide (ex !! gate_key g = Some g) then delete (gate_key g) ex else ex) next (upd i None H).
Proof.
  intros [G1 G2 G3 G4 G5] Hi. constructor.
  - intros k q g' E Hq. upd_cases. case_decide as Hg; [|eauto].
    rewrite lookup_delete_ne; [eauto|]. intros Ek. pose proof (G1 _ _ _ E Hq) as E'. rewrite <- Ek, Hg in E'.
    injection E' as <-. pose proof (G3 _ _ _ _ Hi E) as ->. by destruct Hq.
  - intros k q g' E. upd_cases; eauto.
  - intros k k' q g' E E'. upd_cases; eauto.
  - intros k k' g' E E'. upd_cases; eauto.
  - intros k g' E. assert (ex !! k = Some g' /\ g' <> g) as [E' Hne].
    { case_decide as Hg.
      - apply lookup_delete_Some in E as [Hk E]. split; [done|]. intros ->. by destruct (G5 _ _ E).
      - split; [done|]. intros ->. destruct (G5 _ _ E) as [<- _]. done. }
    destruct (G5 k g' E') as (Hk & l & q & Hl). split; [done|].
    exists l, q. rewrite upd_other; [done|]. congruence.
Qed.

Lemma gates_ext ex next H H' : (forall i, H i = H' i) -> gates_ok ex next H -> gates_ok ex next H'.
Proof.
  intros E [G1 G2 G3 G4 G5]. constructor; try setoid_rewrite <- E; try done.
Qed.

(** ** Gates of the system *)

Definition holds_of s : holds := fun i => l ← lanes s !! i; hold (pc l).

(** The gate a lane uses is the one of its command's key. *)
Definition execution_ok (command : Pb.ControlCommand.t) (execution : option gate) : Prop :=
  match execution with
  | Some g => gate_key g = Pb.ControlCommand.idempotency_key command
  | None => Pb.ControlCommand.idempotency_key command = ""
  end.

Definition pc_ok (p : lane_pc) : Prop :=
  match p with
  | Waiting command g => execution_ok command (Some g)
  | Granted command execution | Executing command execution | Executed command execution _ =>
      execution_ok command execution
  | _ => True
  end.

Definition sys_gates s : Prop :=
  gates_ok (executions s) (next_gate s) (holds_of s) /\ map_Forall (fun _ l => pc_ok (pc l)) (lanes s).

Lemma holds_set_lane i l s j : holds_of (set_lane i l s) j = upd i (hold (pc l)) (holds_of s) j.
Proof.
  unfold holds_of, upd. cbn. case_decide as E.
  - by rewrite E, lookup_insert_eq.
  - by rewrite lookup_insert_ne.
Qed.

Lemma holds_lane i l s : lanes s !! i = Some l -> holds_of s i = hold (pc l).
Proof. unfold holds_of. by intros ->. Qed.

Lemma holds_Some i p g s :
  holds_of s i = Some (p, g) <-> exists l, lanes s !! i = Some l /\ hold (pc l) = Some (p, g).
Proof. unfold holds_of. destruct (lanes s !! i) as [l|]; cbn; naive_solver. Qed.

Lemma alive_spec g s :
  alive g s = true <-> exists j p, holds_of s j = Some (p, g) /\ is_strong p.
Proof.
  unfold alive. rewrite bool_decide_eq_true. split.
  - intros (j & l & Hl & [H|H]); exists j; eexists; (split; [apply holds_Some; by eauto|unfold is_strong; auto]).
  - intros (j & p & (l & Hl & H)%holds_Some & Hp). exists j, l. split; [done|].
    unfold strong. by destruct Hp as [-> | ->]; auto.
Qed.

Lemma unlocked_spec g s : unlocked g s = true <-> forall j, holds_of s j <> Some (Locked, g).
Proof.
  unfold unlocked. rewrite bool_decide_eq_true. split.
  - intros H j (l & Hl & E)%holds_Some. by apply (H j l).
  - intros H j l Hl E. apply (H j). apply holds_Some. eauto.
Qed.

(** A lane moves to another point with these gates. *)
Lemma gates_move ex next i l s :
  gates_ok ex next (upd i (hold (pc l)) (holds_of s)) -> pc_ok (pc l) ->
  map_Forall (fun _ l => pc_ok (pc l)) (lanes s) ->
  gates_ok ex next (holds_of (set_lane i l s)) /\ map_Forall (fun _ l => pc_ok (pc l)) (lanes (set_lane i l s)).
Proof.
  intros H Hp Hs. split.
  - eapply gates_ext; [|exact H]. intros j. symmetry. apply holds_set_lane.
  - by apply map_Forall_insert_2.
Qed.

(** A move that changes nothing for the gates. *)
Lemma gates_stay i l p s q :
  sys_gates s -> lanes s !! i = Some l -> hold p = hold (pc l) -> pc_ok p ->
  sys_gates (set_lane i (mkLane q p) s).
Proof.
  intros [Hg Hs] Hl Hh Hp. apply gates_move; [|done..]. cbn [pc]. rewrite Hh.
  eapply gates_ext; [|exact Hg]. intros j. unfold upd. case_decide as E; [subst j|done]. by apply holds_lane.
Qed.

Lemma sys_gates_other s s' :
  executions s' = executions s -> next_gate s' = next_gate s -> lanes s' = lanes s -> sys_gates s -> sys_gates s'.
Proof. unfold sys_gates, holds_of. by intros -> -> ->. Qed.

Lemma goto_hold after : hold (goto after) = None.
Proof. by destruct after. Qed.
Lemma goto_ok after : pc_ok (goto after).
Proof. by destruct after. Qed.
Lemma drop_execution_hold execution after c :
  hold (drop_execution execution after) = hold (Granted c execution).
Proof. destruct execution; [done|]. apply goto_hold. Qed.
Lemma drop_execution_ok execution after : pc_ok (drop_execution execution after).
Proof. destruct execution; [done|]. apply goto_ok. Qed.

Lemma take_gates i l s s' :
  sys_gates s -> lanes s !! i = Some l -> pc l = Ready -> take_command i l s = Some s' -> sys_gates s'.
Proof.
  intros Hs Hl Hp. unfold take_command. destruct (is_cancelled _ _).
  { intros [= <-]. apply (gates_stay i l); [done|done|by rewrite Hp|done]. }
  destruct (queue l) as [|c rest]; [done|]. destruct (is_empty _) eqn:Ek.
  { intros [= <-]. apply (gates_stay i l); [done|done|by rewrite Hp|]. by apply is_empty_spec. }
  set (key := Pb.ControlCommand.idempotency_key c) in *.
  assert (holds_of s i = None) as Hi by by rewrite (holds_lane i l s Hl), Hp.
  assert (exists g s1, execution_gate key s = (s1, g) /\ gate_key g = key /\ lanes s1 = lanes s /\
    gates_ok (executions s1) (next_gate s1) (upd i (Some (Shared, g)) (holds_of s))) as (g & s1 & -> & Hg & Hl1 & H1).
  { destruct Hs as [Hg Hs]. unfold execution_gate.
    assert ((forall g, executions s !! key = Some g -> alive g s = false) -> forall j p g,
      holds_of s j = Some (p, g) -> is_strong p -> gate_key g <> key) as Hno.
    { intros Hd j p g Hj Hp' <-. pose proof (go_strong _ _ _ Hg _ _ _ Hj Hp') as E.
      apply Hd in E. by rewrite (proj2 (alive_spec g s)) in E by eauto. }
    destruct (executions s !! key) as [g|] eqn:E.
    - destruct (alive g s) eqn:Ea.
      + exists g, s. destruct (go_entry _ _ _ Hg _ _ E) as [Hk _]. split_and!; try done.
        apply alive_spec in Ea as (j & p & Hj & Hp'). by eapply gates_share.
      + eexists _, _. split_and!; [done..|]. apply gates_create; [done|done|].
        apply Hno. by intros g' [= <-].
    - eexists _, _. split_and!; [done..|]. apply gates_create; [done|done|]. by apply Hno. }
  intros [= <-]. apply gates_move; [|done|by rewrite Hl1; apply Hs].
  eapply gates_ext; [|exact H1]. intros j. unfold upd, holds_of. by rewrite Hl1.
Qed.

Lemma lock_gates i l c g s s' :
  sys_gates s -> lanes s !! i = Some l -> pc l = Waiting c g -> lock_gate i l c g s = Some s' -> sys_gates s'.
Proof.
  intros Hs Hl Hp. unfold lock_gate. destruct (is_cancelled _ _).
  { intros [= <-]. apply (gates_stay i l); [done|done|by rewrite Hp|done]. }
  destruct (unlocked g s) eqn:E; [|done]. intros [= <-].
  pose proof (holds_lane i l s Hl) as Hi. rewrite Hp in Hi. cbn in Hi.
  pose proof (proj2 Hs i l Hl) as Hc. cbn beta in Hc. rewrite Hp in Hc.
  apply gates_move; [|exact Hc|apply Hs].
  eapply gates_keep; [apply Hs|exact Hi|by left|by right|].
  intros _ j Hj. by apply unlocked_spec in Hj.
Qed.

Lemma release_gates i l g after s :
  sys_gates s -> lanes s !! i = Some l -> pc l = Releasing g after -> sys_gates (release i l g after s).
Proof.
  intros Hs Hl Hp. unfold release, set_pc.
  pose proof (holds_lane i l s Hl) as Hi. rewrite Hp in Hi. cbn in Hi.
  destruct (alive g _) eqn:E.
  - apply gates_move; [|apply goto_ok|apply Hs]. cbn [pc]. rewrite goto_hold.
    apply alive_spec in E as (j & q & Hj & Hq). rewrite holds_set_lane in Hj. cbn [pc] in Hj.
    rewrite goto_hold in Hj. apply upd_inv in Hj as [[_ Hj]|[Hne Hj]]; [done|].
    eapply gates_leave; [apply Hs|exact Hi|exact Hne|exact Hj].
  - apply gates_move; [|done|apply Hs]. eapply gates_die; [apply Hs|exact Hi|].
    intros j q Hne Hj Hq. rewrite (proj2 (alive_spec g _)) in E; [done|].
    exists j, q. split; [|done]. rewrite holds_set_lane. by rewrite upd_other.
Qed.

Lemma destroy_gates i l g after s :
  sys_gates s -> lanes s !! i = Some l -> pc l = Destroying g after ->
  sys_gates (set_pc i l (goto after) (drop_gate g s)).
Proof.
  intros [Hg Hs] Hl Hp. pose proof (holds_lane i l s Hl) as Hi. rewrite Hp in Hi. cbn in Hi.
  pose proof (gates_destroy _ _ _ _ _ Hg Hi) as H.
  assert (lanes (drop_gate g s) = lanes s /\ next_gate (drop_gate g s) = next_gate s /\ executions (drop_gate g s)
    = if decide (executions s !! gate_key g = Some g) then delete (gate_key g) (executions s) else executions s)
    as (E1 & E2 & E3).
  { unfold drop_gate. destruct (executions s !! gate_key g) as [g'|]; [|by rewrite decide_False].
    destruct (decide (g' = g)) as [->|Hne]; [by rewrite decide_True|]. rewrite decide_False; [done|congruence]. }
  apply (gates_move (executions (drop_gate g s)) (next_gate (drop_gate g s)) i (mkLane (queue l) (goto after)) (drop_gate g s));
    [|apply goto_ok|by rewrite E1].
  cbn [pc]. rewrite goto_hold, E2, E3.
  eapply gates_ext; [|exact H]. intros j. unfold upd, holds_of. by rewrite E1.
Qed.

Lemma look_up_gates i l c ex s :
  sys_gates s -> lanes s !! i = Some l -> pc l = Granted c ex -> sys_gates (look_up i l c ex s).
Proof.
  intros Hs Hl Hp. pose proof (proj2 Hs i l Hl) as Hc. cbn beta in Hc. rewrite Hp in Hc.
  assert (forall after, sys_gates (set_pc i l (drop_execution ex after) s)) as Hd.
  { intros after. apply (gates_stay i l); [done|done| |apply drop_execution_ok].
    by rewrite (drop_execution_hold ex after c), Hp. }
  assert (sys_gates (set_pc i l (Executing c ex) s)) as He by (apply (gates_stay i l); [done|done|by rewrite Hp|done]).
  unfold look_up. destruct (is_cancelled _ _); [done|].
  destruct (_.2) as [[a|]|]; [|done..]. by destruct (is_empty _).
Qed.

Lemma complete_gates capacity i l c ex r s :
  sys_gates s -> lanes s !! i = Some l -> pc l = Executed c ex r -> sys_gates (complete_command capacity i l c ex r s).
Proof.
  intros Hs Hl Hp.
  assert (forall x after, sys_gates (set_pc i l (drop_execution ex after) (set_cache x s))) as Hd.
  { intros x after. apply (gates_stay i l); [by eapply sys_gates_other|done| |apply drop_execution_ok].
    by rewrite (drop_execution_hold ex after c), Hp. }
  unfold complete_command. destruct (is_empty _).
  { specialize (Hd (cache s)). by destruct s. }
  destruct (complete _ _ _ _) as [x [a|e]]; [|done].
  destruct (AckStatus.retryable _); [done|]. by eapply sys_gates_other; [..|apply (Hd x)].
Qed.

Lemma send_gates i l r s s' :
  sys_gates s -> lanes s !! i = Some l -> pc l = Sending r -> send_lane_ack i l r s = Some s' -> sys_gates s'.
Proof.
  intros Hs Hl Hp. unfold send_lane_ack. destruct (sessions s !! i.1) as [x|]; cbn; [|done].
  destruct (cancelled x); intros [= <-].
  - apply (gates_stay i l); [done|done|by rewrite Hp|done].
  - apply (gates_stay i l); [by eapply sys_gates_other|done|by rewrite Hp|done].
Qed.

Lemma lane_step_gates capacity i l o s s' :
  sys_gates s -> lanes s !! i = Some l -> lane_step capacity i l o s = Some s' -> sys_gates s'.
Proof.
  intros Hs Hl. unfold lane_step. pose proof (proj2 Hs i l Hl) as Hc. cbn beta in Hc.
  destruct (pc l) as [|c g|c ex|c ex|c ex r|g a|g a|g a|r|] eqn:Hp; destruct o as [o|]; try done.
  - by apply take_gates.
  - by apply lock_gates.
  - intros [= <-]. by apply look_up_gates.
  - intros [= <-]. apply (gates_stay i l); [done|done|by rewrite Hp|done].
  - intros [= <-]. by apply complete_gates.
  - intros [= <-]. pose proof (holds_lane i l s Hl) as Hi. rewrite Hp in Hi. apply gates_move; [|done|apply Hs].
    by eapply gates_keep; [apply Hs|exact Hi|right|left|].
  - intros [= <-]. by apply release_gates.
  - intros [= <-]. by apply destroy_gates.
  - by apply send_gates.
Qed.

(** ** Sessions and lanes *)

Definition lanes_ok s : Prop := forall i, is_Some (lanes s !! i) <-> is_Some (sessions s !! i.1).

Lemma lanes_ok_lane i l l0 s : lanes_ok s -> lanes s !! i = Some l0 -> lanes_ok (set_lane i l s).
Proof.
  intros H Hl j. cbn. destruct (decide (i = j)) as [<-|Hne].
  - rewrite lookup_insert_eq. split; [intros _; apply H; eauto|eauto].
  - by rewrite lookup_insert_ne.
Qed.

Lemma lanes_ok_session n x x0 s : lanes_ok s -> sessions s !! n = Some x0 -> lanes_ok (set_session n x s).
Proof.
  intros H Hx j. cbn. destruct (decide (n = j.1)) as [->|Hne].
  - rewrite lookup_insert_eq. split; [eauto|intros _; apply H; eauto].
  - by rewrite lookup_insert_ne.
Qed.

Lemma lanes_ok_other s s' :
  lanes s' = lanes s -> sessions s' = sessions s -> lanes_ok s -> lanes_ok s'.
Proof. unfold lanes_ok. by intros -> ->. Qed.

(** What a step does to one lane, seen from the others. *)
Lemma lane_step_frame capacity i l o s s' :
  lane_step capacity i l o s = Some s' ->
  exists l' x, lanes s' = <[i := l']> (lanes s) /\
    (sessions s' = sessions s \/ sessions s !! i.1 = Some x /\ cancelled x = false /\
       exists r, pc l = Sending r /\ pc l' = Ready /\
         sessions s' = <[i.1 := mkSession false (output x ++ [r]) (submitting x)]> (sessions s)).
Proof.
  unfold lane_step, set_pc.
  destruct (pc l) as [|c g|c ex|c ex|c ex r|g a|g a|g a|r|] eqn:Hp; destruct o as [o|]; try done.
  - unfold take_command. destruct (is_cancelled _ _); [intros [= <-]; eexists _, (mkSession true [] None); by eauto|].
    destruct (queue l) as [|c rest]; [done|]. destruct (is_empty _).
    { intros [= <-]. eexists _, (mkSession true [] None). eauto. }
    unfold execution_gate. destruct (executions s !! _) as [g|]; [destruct (alive g s)|];
      intros [= <-]; eexists _, (mkSession true [] None); by eauto.
  - unfold lock_gate. destruct (is_cancelled _ _); [|destruct (unlocked g s); [|done]];
      intros [= <-]; eexists _, (mkSession true [] None); by eauto.
  - intros [= <-]. unfold look_up. destruct (is_cancelled _ _); [|destruct (_.2) as [[a|]|]; [destruct (is_empty _)|..]];
      eexists _, (mkSession true [] None); by eauto.
  - intros [= <-]. eexists _, (mkSession true [] None). by eauto.
  - intros [= <-]. unfold complete_command. destruct (is_empty _); [|destruct (complete _ _ _ _) as [x [a|e]];
      [destruct (AckStatus.retryable _)|]]; eexists _, (mkSession true [] None); by eauto.
  - intros [= <-]. eexists _, (mkSession true [] None). by eauto.
  - intros [= <-]. unfold release. destruct (alive g _); eexists _, (mkSession true [] None); by eauto.
  - intros [= <-]. unfold drop_gate. destruct (executions s !! _) as [g'|]; [destruct (decide _)|];
      eexists _, (mkSession true [] None); by eauto.
  - unfold send_lane_ack. destruct (sessions s !! i.1) as [x|] eqn:Ex; cbn; [|done].
    destruct (cancelled x) eqn:Ec; intros [= <-].
    + eexists _, (mkSession true [] None). by eauto.
    + eexists _, x. split; [done|]. right. split_and!; [done..|]. exists r. done.
Qed.

(** ** The cache *)

Definition executing (p : lane_pc) : option Pb.ControlCommand.t :=
  match p with Executing c _ | Executed c _ _ => Some c | _ => None end.

Local Abbreviation key c := (Pb.ControlCommand.idempotency_key c).

Lemma executing_locked p c :
  executing p = Some c -> pc_ok p -> key c <> "" -> exists g, hold p = Some (Locked, g) /\ gate_key g = key c.
Proof.
  destruct p as [| | |c' ex|c' ex r| | | | |]; try done; intros [= ->] Hc Hk; destruct ex as [g|]; try done;
    by exists g.
Qed.

Lemma exclusive s i j l l' c c' :
  sys_gates s -> lanes s !! i = Some l -> lanes s !! j = Some l' ->
  executing (pc l) = Some c -> executing (pc l') = Some c' -> key c <> "" -> key c' = key c -> i = j.
Proof.
  intros [Hg Hs] Hl Hl' He He' Hk Hk'.
  destruct (executing_locked _ _ He (Hs i l Hl) Hk) as (g & Hh & Ek).
  destruct (executing_locked _ _ He' (Hs j l' Hl')) as (g' & Hh' & Ek'); [congruence|].
  rewrite <- (holds_lane i l s Hl) in Hh. rewrite <- (holds_lane j l' s Hl') in Hh'.
  pose proof (go_strong _ _ _ Hg _ _ _ Hh (or_intror eq_refl)) as E.
  pose proof (go_strong _ _ _ Hg _ _ _ Hh' (or_intror eq_refl)) as E'.
  rewrite Ek', Hk', <- Ek, E in E'. injection E' as <-. by eapply go_locked.
Qed.

Lemma elem_skip {A} n (l : list A) x : x ∈ drop n l -> x ∈ l.
Proof. intros H. rewrite <- (take_drop n l). apply elem_of_app. by right. Qed.

Section cache.
Context (capacity : nat).

Definition recent (es : entries) : entries := drop (length es - capacity) es.

Record cache_ok s : Prop := {
  ca_cache : represents capacity (cache s) (recent (successes s));
  ca_unseen i l c : lanes s !! i = Some l -> executing (pc l) = Some c -> key c <> "" ->
    key c ∉ (recent (successes s)).*1;
  ca_window k : NoDup (take (S capacity) (drop k (successes s))).*1
}.

Lemma cache_stay s s' :
  cache_ok s -> cache s' = cache s -> successes s' = successes s ->
  (forall i l' c, lanes s' !! i = Some l' -> executing (pc l') = Some c -> key c <> "" ->
     key c ∉ (recent (successes s)).*1) ->
  cache_ok s'.
Proof. intros [C1 C2 C3] E1 E2 H. constructor; rewrite ?E1, ?E2; try done. Qed.

(** A lane moves and starts no execution. *)
Lemma cache_lane s s' i l l' :
  cache_ok s -> cache s' = cache s -> successes s' = successes s -> lanes s' = <[i := l']> (lanes s) ->
  lanes s !! i = Some l -> (forall c, executing (pc l') = Some c -> executing (pc l) = Some c) -> cache_ok s'.
Proof.
  intros C E1 E2 E3 Hl He. eapply cache_stay; try done. intros j l2 c Hj Hc.
  rewrite E3 in Hj. apply lookup_insert_Some in Hj as [[<- <-]|[_ Hj]]; eapply ca_unseen; eauto.
Qed.

Lemma recent_snoc es e : push capacity e.1 e.2 (recent es) = recent (es ++ [e]).
Proof.
  unfold push, recent. destruct e as [k a]. cbn [fst snd].
  rewrite <- (drop_app_le (es) [(k, a)]) by lia. rewrite drop_drop. f_equal.
  rewrite length_drop, length_app. cbn. lia.
Qed.

Lemma window_snoc es (e : string * Ack.t) k :
  (forall k, NoDup (take (S capacity) (drop k es)).*1) -> e.1 ∉ (recent es).*1 ->
  NoDup (take (S capacity) (drop k (es ++ [e]))).*1.
Proof.
  intros Hw Hn. destruct (Nat.le_gt_cases (k + S capacity) (length es)) as [Hk|Hk].
  { rewrite drop_app_le by lia. rewrite take_app_le by (rewrite length_drop; lia). apply Hw. }
  destruct (Nat.le_gt_cases k (length es)) as [Hk'|Hk'].
  2: { rewrite drop_ge by (rewrite length_app; cbn; lia). rewrite take_nil. constructor. }
  rewrite drop_app_le by lia. rewrite take_ge by (rewrite length_app, length_drop; cbn; lia).
  rewrite fmap_app. apply NoDup_app. split_and!.
  - specialize (Hw k). by rewrite take_ge in Hw by (rewrite length_drop; lia).
  - intros x Hx ->%list_elem_of_singleton. apply Hn. unfold recent.
    replace k with ((length es - capacity) + (k - (length es - capacity)))%nat in Hx by lia.
    rewrite <- drop_drop, fmap_drop in Hx. by eapply elem_skip.
  - apply NoDup_singleton.
Qed.
Lemma goto_executing after : executing (goto after) = None.
Proof. by destruct after. Qed.
Lemma drop_executing ex after : executing (drop_execution ex after) = None.
Proof. destruct ex; [done|]. apply goto_executing. Qed.

Lemma replay_unseen s c (c0 := ack_command_from_proto c) :
  cache_ok s -> key c <> "" ->
  (replay c0 (cache s)).2 = Ok None -> key c ∉ (recent (successes s)).*1.
Proof.
  intros [(_ & _ & _ & Hs) _ _] Hk%is_empty_false. unfold replay, require_key.
  change (Command.idempotency_key c0) with (key c). rewrite Hk. cbn. intros [= E].
  change (Command.idempotency_key c0) with (key c) in E.
  destruct (seen (cache s) !! key c) eqn:E'; [done|]. rewrite Hs in E'.
  intros [a Ha]%lookup_entries. congruence.
Qed.

Lemma look_up_cache i l c ex s :
  cache_ok s -> lanes s !! i = Some l -> pc l = Granted c ex -> cache_ok (look_up i l c ex s).
Proof.
  intros Hs Hl Hp.
  assert (forall after, cache_ok (set_pc i l (drop_execution ex after) s)) as Hd.
  { intros after. eapply cache_lane; try done. intros c' E. cbn [pc] in E. by rewrite drop_executing in E. }
  assert ((key c <> "" -> key c ∉ (recent (successes s)).*1) -> cache_ok (set_pc i l (Executing c ex) s)) as He.
  { intros Hn. eapply cache_stay; try done. intros j l' c' Hj Hc. cbn in Hj.
    apply lookup_insert_Some in Hj as [[<- <-]|[_ Hj]]; [|by eapply ca_unseen].
    by injection Hc as <-. }
  unfold look_up. destruct (is_cancelled _ _); [done|]. destruct (_.2) as [[a|]|e] eqn:E.
  - destruct (is_empty _) eqn:Ek; [|done]. apply He. by apply is_empty_spec in Ek.
  - apply He. intros Hk. by apply replay_unseen.
  - apply He. intros Hk%is_empty_false. unfold replay, require_key in E.
    change (Command.idempotency_key (ack_command_from_proto c)) with (key c) in E. by rewrite Hk in E.
Qed.

Lemma recent_snoc_keys es e x : x ∈ (recent (es ++ [e])).*1 -> x ∈ (recent es).*1 \/ x = e.1.
Proof.
  rewrite <- recent_snoc, push_keys. intros H%elem_skip. apply elem_of_app in H as [H|H]; [by left|].
  right. by apply list_elem_of_singleton in H.
Qed.

Lemma complete_cache i l c ex r s :
  sys_gates s -> cache_ok s -> lanes s !! i = Some l -> pc l = Executed c ex r ->
  cache_ok (complete_command capacity i l c ex r s).
Proof.
  intros Hg Hs Hl Hp.
  assert (forall s1 after, cache s1 = cache s -> successes s1 = successes s -> lanes s1 = lanes s ->
    cache_ok (set_pc i l (drop_execution ex after) s1)) as Hd.
  { intros s1 after E1 E2 E3. apply (cache_lane s _ i l (mkLane (queue l) (drop_execution ex after))); try done.
    - cbn. by rewrite E3.
    - intros c' E. cbn [pc] in E. by rewrite drop_executing in E. }
  unfold complete_command, complete, require_key.
  change (Command.idempotency_key (ack_command_from_proto c)) with (key c).
  destruct (is_empty (key c)) eqn:Ek; [by apply Hd|]. apply is_empty_false in Ek.
  set (a := Ack.set_envelope _ _). set (status := TerminalResult.status r).
  change (Ack.status a) with status.
  destruct (AckStatus.retryable status) eqn:Er.
  { unfold mbind, stm_bind, mret, stm_ret. cbn -[set_pc]. change (AckStatus.retryable _) with (AckStatus.retryable status). rewrite Er. by apply Hd. }
  unfold mbind, stm_bind, mret, stm_ret, modify. cbn -[set_pc remember].
  change (AckStatus.retryable _) with (AckStatus.retryable status). rewrite Er.
  assert (key c ∉ (recent (successes s)).*1) as Hn by (eapply (ca_unseen s Hs i l); [done|by rewrite Hp|done]).
  assert (forall k, NoDup (take (S capacity) (drop k (successes s ++ [(key c, a)]))).*1) as Hw.
  { intros k. apply window_snoc; [apply (ca_window s Hs)|exact Hn]. }
  constructor; [| |exact Hw].
  - pose proof (remember_represents _ _ _ (key c) a (ca_cache s Hs)) as H. rewrite decide_False in H by done.
    pose proof (recent_snoc (successes s) (key c, a)) as E. cbn [fst snd] in E. rewrite E in H. exact H.
  - intros j l' c' Hj Hc Hk Hin. cbn in Hj, Hin. apply recent_snoc_keys in Hin as [Hin|Hin].
    + apply lookup_insert_Some in Hj as [[<- <-]|[_ Hj]]; [cbn in Hc; by rewrite drop_executing in Hc|].
      by eapply (ca_unseen s Hs).
    + apply lookup_insert_Some in Hj as [[<- <-]|[Hne Hj]]; [cbn in Hc; by rewrite drop_executing in Hc|].
      apply Hne. eapply (exclusive s i j l l' c c'); try done. by rewrite Hp.
Qed.

Lemma lane_step_cache i l o s s' :
  sys_gates s -> cache_ok s -> lanes s !! i = Some l -> lane_step capacity i l o s = Some s' -> cache_ok s'.
Proof.
  intros Hg Hs Hl. unfold lane_step.
  assert (forall s1 l', cache s1 = cache s -> successes s1 = successes s -> lanes s1 = <[i := l']> (lanes s) ->
    (forall c, executing (pc l') = Some c -> executing (pc l) = Some c) -> cache_ok s1) as Hmove.
  { intros s1 l' E1 E2 E3. by eapply cache_lane. }
  destruct (pc l) as [|c g|c ex|c ex|c ex r|g a|g a|g a|r|] eqn:Hp; destruct o as [o|]; try done.
  - unfold take_command. destruct (is_cancelled _ _); [intros [= <-]; by eapply Hmove|].
    destruct (queue l) as [|c rest]; [done|]. destruct (is_empty _); [intros [= <-]; by eapply Hmove|].
    unfold execution_gate. destruct (executions s !! _) as [g|]; [destruct (alive g s)|];
      intros [= <-]; by eapply Hmove.
  - unfold lock_gate. destruct (is_cancelled _ _); [|destruct (unlocked g s); [|done]]; intros [= <-]; by eapply Hmove.
  - intros [= <-]. by apply look_up_cache.
  - intros [= <-]. by eapply Hmove.
  - intros [= <-]. by apply complete_cache.
  - intros [= <-]. by eapply Hmove.
  - intros [= <-]. unfold release. destruct (alive g _); (eapply Hmove; [done..|]); cbn [pc]; [|done].
    intros c. by rewrite goto_executing.
  - intros [= <-]. unfold drop_gate.
    destruct (executions s !! _) as [g'|]; [destruct (decide _)|];
      (eapply Hmove; [done..|]); cbn [pc]; intros c; by rewrite goto_executing.
  - unfold send_lane_ack. destruct (sessions s !! i.1) as [x|]; cbn; [|done].
    destruct (cancelled x); intros [= <-]; by eapply Hmove.
Qed.
End cache.

(** ** Terminal statuses

    The executor's outcome is made terminal before it is cached or sent. *)

Definition is_terminal (status : AckStatus.t) : bool :=
  match status with AckStatus.Accepted => false | _ => true end.

Definition after_ok (after : option reply) : Prop :=
  match after with Some r => is_terminal (reply_status r) = true | None => True end.

Definition reply_ok (p : lane_pc) : Prop :=
  match p with
  | Executed _ _ result => is_terminal (TerminalResult.status result) = true
  | Unlocking _ after | Releasing _ after | Destroying _ after => after_ok after
  | Sending r => is_terminal (reply_status r) = true
  | _ => True
  end.

Record replies_ok s : Prop := {
  ro_lanes : map_Forall (fun _ l => reply_ok (pc l)) (lanes s);
  ro_cache : map_Forall (fun _ a => is_terminal (Ack.status a) = true) (seen (cache s))
}.

Lemma terminal_result_terminal o : is_terminal (TerminalResult.status (terminal_result o)) = true.
Proof.
  unfold terminal_result. destruct o as [[[] m]|p|e]; done.
Qed.

Lemma evict_Forall (P : Ack.t -> Prop) capacity order m :
  map_Forall (fun _ a => P a) m -> map_Forall (fun _ a => P a) (seen (evict capacity order m)).
Proof.
  revert m. induction order as [|k order IH]; intros m H; [done|]. cbn [evict].
  destruct (_ <? _)%nat; [|done]. apply IH. by apply map_Forall_delete.
Qed.

Lemma remember_Forall (P : Ack.t -> Prop) capacity k a c :
  map_Forall (fun _ a => P a) (seen c) -> P a -> map_Forall (fun _ a => P a) (seen (remember capacity k a c)).
Proof.
  intros H Ha. unfold remember. destruct (seen c !! k); [done|]. apply evict_Forall. by apply map_Forall_insert_2.
Qed.

Lemma replies_lane s s' i l :
  replies_ok s -> cache s' = cache s -> lanes s' = <[i := l]> (lanes s) -> reply_ok (pc l) -> replies_ok s'.
Proof.
  intros [H1 H2] E1 E2 Hl. constructor; rewrite ?E1, ?E2; [|done]. by apply map_Forall_insert_2.
Qed.

Lemma goto_reply after : after_ok after -> reply_ok (goto after).
Proof. by destruct after. Qed.
Lemma drop_reply ex after : after_ok after -> reply_ok (drop_execution ex after).
Proof. destruct ex; [done|]. apply goto_reply. Qed.

Lemma look_up_replies i l c ex s : replies_ok s -> replies_ok (look_up i l c ex s).
Proof.
  intros H. assert (forall p, reply_ok p -> replies_ok (set_pc i l p s)) as Hp.
  { intros p Hp. by eapply (replies_lane s _ i (mkLane (queue l) p)). }
  unfold look_up. destruct (is_cancelled _ _); [apply Hp; by apply drop_reply|].
  destruct (_.2) as [[a|]|e] eqn:E; [|by apply Hp..].
  destruct (is_empty _) eqn:Ek; [by apply Hp|]. apply Hp, drop_reply. cbn.
  unfold replay, require_key in E. rewrite Ek in E. cbn in E. injection E as E.
  apply fmap_Some in E as (a0 & Ha & ->). by apply (ro_cache s H) in Ha.
Qed.

Lemma complete_replies capacity i l c ex r s :
  replies_ok s -> lanes s !! i = Some l -> pc l = Executed c ex r -> replies_ok (complete_command capacity i l c ex r s).
Proof.
  intros H Hl Hp. pose proof (ro_lanes s H i l Hl) as Hr. cbn beta in Hr. rewrite Hp in Hr. cbn in Hr.
  assert (forall p, reply_ok p -> replies_ok (set_pc i l p s)) as Hd.
  { intros p Hpc. by apply (replies_lane s _ i (mkLane (queue l) p)). }
  unfold complete_command, complete, require_key.
  destruct (is_empty _) eqn:Ek; [by apply Hd, drop_reply|].
  unfold mbind, stm_bind, mret, stm_ret, modify. cbn [Ack.status Ack.set_envelope Ack.result].
  destruct (AckStatus.retryable _) eqn:Er; cbn -[set_pc remember]; rewrite Er.
  { destruct s. by apply Hd, drop_reply. }
  destruct H as [H1 H2]. constructor; cbn -[remember].
  - apply map_Forall_insert_2; [by apply drop_reply|done].
  - by apply remember_Forall.
Qed.

Lemma lane_step_replies capacity i l o s s' :
  replies_ok s -> lanes s !! i = Some l -> lane_step capacity i l o s = Some s' -> replies_ok s'.
Proof.
  intros Hs Hl. pose proof (ro_lanes s Hs i l Hl) as Hr. cbn beta in Hr. revert Hr. unfold lane_step.
  assert (forall s1 l', cache s1 = cache s -> lanes s1 = <[i := l']> (lanes s) -> reply_ok (pc l') ->
    replies_ok s1) as Hmove by (intros s1 l' E1 E3 ?; by eapply replies_lane).
  destruct (pc l) as [|c g|c ex|c ex|c ex r|g a|g a|g a|r|] eqn:Hp; destruct o as [o|]; try done; intros Hr.
  - unfold take_command. destruct (is_cancelled _ _); [intros [= <-]; by eapply Hmove|].
    destruct (queue l) as [|c rest]; [done|]. destruct (is_empty _); [intros [= <-]; by eapply Hmove|].
    unfold execution_gate. destruct (executions s !! _) as [g|]; [destruct (alive g s)|];
      intros [= <-]; by eapply Hmove.
  - unfold lock_gate. destruct (is_cancelled _ _); [|destruct (unlocked g s); [|done]]; intros [= <-]; by eapply Hmove.
  - intros [= <-]. by apply look_up_replies.
  - intros [= <-]. eapply Hmove; [done..|]. apply terminal_result_terminal.
  - intros [= <-]. by apply complete_replies.
  - intros [= <-]. by eapply Hmove.
  - intros [= <-]. unfold release. destruct (alive g _); (eapply Hmove; [done..|]); [by apply goto_reply|done].
  - intros [= <-]. unfold drop_gate.
    destruct (executions s !! _) as [g'|]; [destruct (decide _)|]; (eapply Hmove; [done..|]); by apply goto_reply.
  - unfold send_lane_ack. destruct (sessions s !! i.1) as [x|]; cbn; [|done].
    destruct (cancelled x); intros [= <-]; by eapply Hmove.
Qed.

(** ** Every command is answered *)

Local Abbreviation Cmd := Pb.ControlCommand.t.

Definition cnt (P : Cmd -> bool) (l : list Cmd) : nat := length (List.filter P l).

Lemma cnt_app P l k : cnt P (l ++ k) = (cnt P l + cnt P k)%nat.
Proof. unfold cnt. by rewrite List.filter_app, length_app. Qed.
Lemma cnt_cons P c l : cnt P (c :: l) = (cnt P [c] + cnt P l)%nat.
Proof. exact (cnt_app P [c] l). Qed.
Lemma cnt_nil P : cnt P [] = 0%nat.
Proof. done. Qed.

(** The commands a session acknowledged as accepted, those answered for good, and
    those on their way in a lane or in a submission. *)
Definition replies_to (good : AckStatus.t -> bool) (rs : list reply) : list Cmd :=
  List.map reply_to (List.filter (fun r => good (reply_status r)) rs).
Definition accepted x : list Cmd := replies_to (fun status => negb (is_terminal status)) (output x).
Definition answered x : list Cmd := replies_to is_terminal (output x).
Definition submitted x : list Cmd := match submitting x with Some (c, true) => [c] | _ => [] end.

Definition after_flight (after : option reply) : list Cmd := match after with Some r => [reply_to r] | None => [] end.
Definition in_flight (p : lane_pc) : list Cmd :=
  match p with
  | Ready | Stopped => []
  | Waiting c _ | Granted c _ | Executing c _ | Executed c _ _ => [c]
  | Unlocking _ after | Releasing _ after | Destroying _ after => after_flight after
  | Sending r => [reply_to r]
  end.
Definition in_lane (l : lane) : list Cmd := queue l ++ in_flight (pc l).

Lemma replies_to_snoc good rs r :
  replies_to good (rs ++ [r]) = replies_to good rs ++ (if good (reply_status r) then [reply_to r] else []).
Proof. unfold replies_to. rewrite List.filter_app, List.map_app. cbn. by destruct (good _). Qed.

(** A lane that has not been told to stop. *)
Definition live (p : lane_pc) : Prop :=
  match p with
  | Stopped | Unlocking _ None | Releasing _ None | Destroying _ None => False
  | _ => True
  end.

Definition balanced s n x : Prop :=
  exists l l', lanes s !! (n, false) = Some l /\ lanes s !! (n, true) = Some l' /\ live (pc l) /\ live (pc l') /\
  forall P, cnt P (accepted x) = (cnt P (answered x) + cnt P (submitted x) + cnt P (in_lane l) + cnt P (in_lane l'))%nat.

Definition answers_ok s : Prop :=
  forall n x, sessions s !! n = Some x -> cancelled x = false -> balanced s n x.

Lemma goto_live r : live (goto (Some r)) /\ in_flight (goto (Some r)) = [reply_to r].
Proof. done. Qed.
Lemma drop_live ex r : live (drop_execution ex (Some r)) /\ in_flight (drop_execution ex (Some r)) = [reply_to r].
Proof. by destruct ex. Qed.

(** In a live session a lane step keeps its commands, or sends the terminal
    acknowledgement of one of them. *)
Definition flows i (l : lane) s s' : Prop :=
  exists l', lanes s' = <[i := l']> (lanes s) /\ live (pc l') /\
  ((sessions s' = sessions s /\ (forall P, cnt P (in_lane l') = cnt P (in_lane l))) \/
   exists x r, sessions s !! i.1 = Some x /\ is_terminal (reply_status r) = true /\
     sessions s' = <[i.1 := mkSession false (output x ++ [r]) (submitting x)]> (sessions s) /\
     forall P, cnt P (in_lane l) = (cnt P [reply_to r] + cnt P (in_lane l'))%nat).

Lemma flow_same i l q p s s' :
  lanes s' = <[i := mkLane q p]> (lanes s) -> sessions s' = sessions s -> live p ->
  (forall P, cnt P (q ++ in_flight p) = cnt P (in_lane l)) -> flows i l s s'.
Proof. intros E1 E2 Hp Hc. exists (mkLane q p). split_and!; [done..|]. by left. Qed.

Lemma flow_pc i l p s s' :
  lanes s' = <[i := mkLane (queue l) p]> (lanes s) -> sessions s' = sessions s -> live p ->
  in_flight p = in_flight (pc l) -> flows i l s s'.
Proof. intros E1 E2 Hp Hc. eapply flow_same; [done..|]. intros P. unfold in_lane. by rewrite Hc. Qed.

Lemma lane_step_flows capacity i l o s s' x :
  sessions s !! i.1 = Some x -> cancelled x = false -> lanes s !! i = Some l -> live (pc l) -> reply_ok (pc l) ->
  lane_step capacity i l o s = Some s' -> flows i l s s'.
Proof.
  intros Hx Hc Hl. assert (is_cancelled i.1 s = false) as Hcan by (unfold is_cancelled; by rewrite Hx).
  unfold lane_step.
  destruct (pc l) as [|c g|c ex|c ex|c ex r|g a|g a|g a|r|] eqn:Hp; destruct o as [o|]; try done; intros Hv Hr.
  - unfold take_command. rewrite Hcan. destruct (queue l) as [|c rest] eqn:Hq; [done|].
    assert (forall P, cnt P (rest ++ [c]) = cnt P (in_lane l)) as Hm.
    { intros P. unfold in_lane. rewrite Hq, Hp. cbn [in_flight]. rewrite app_nil_r, cnt_app, (cnt_cons P c rest). lia. }
    destruct (is_empty _); [intros [= <-]; by eapply flow_same|].
    unfold execution_gate. destruct (executions s !! _) as [g|]; [destruct (alive g s)|];
      intros [= <-]; by eapply flow_same.
  - unfold lock_gate. rewrite Hcan. destruct (unlocked g s); [|done]. intros [= <-].
    eapply flow_pc; [done..|]. by rewrite Hp.
  - intros [= <-]. unfold look_up. rewrite Hcan.
    destruct (_.2) as [[a|]|]; [destruct (is_empty _)|..]; (eapply flow_pc; [done|done|..]);
      rewrite ?Hp; try done; apply drop_live.
  - intros [= <-]. eapply flow_pc; [done..|]. by rewrite Hp.
  - intros [= <-]. unfold complete_command.
    destruct (is_empty _); [|destruct (complete _ _ _ _) as [y [a|e]]; [destruct (AckStatus.retryable _)|]];
      (eapply flow_pc; [done|done|apply drop_live|]); rewrite Hp; apply drop_live.
  - intros [= <-]. destruct a as [r|]; [|done]. eapply flow_pc; [done..|]. by rewrite Hp.
  - intros [= <-]. destruct a as [r|]; [|done]. unfold release.
    destruct (alive g _); (eapply flow_pc; [done..|]); by rewrite Hp.
  - intros [= <-]. destruct a as [r|]; [|done].
    unfold drop_gate. destruct (executions s !! _) as [g'|]; [destruct (decide _)|];
      (eapply flow_pc; [done..|]); by rewrite Hp.
  - unfold send_lane_ack. rewrite Hx. cbn. rewrite Hc. intros [= <-].
    eexists (mkLane (queue l) Ready). split_and!; [done..|]. right. exists x, r. split_and!; [done..|].
    intros P. unfold in_lane. rewrite Hp. cbn [in_flight pc queue]. rewrite app_nil_r, cnt_app. lia.
Qed.

(** The other lanes and sessions do not notice. *)
Lemma balanced_lane s s' n x i l' :
  lanes s' = <[i := l']> (lanes s) -> i.1 <> n -> balanced s n x -> balanced s' n x.
Proof.
  intros E Hne (l & l2 & H1 & H2 & H3). exists l, l2. rewrite E, !lookup_insert_ne; [done|..]; by intros ->.
Qed.

Lemma lane_step_answers capacity i l o s s' :
  replies_ok s -> answers_ok s -> lanes_ok s -> lanes s !! i = Some l ->
  lane_step capacity i l o s = Some s' -> answers_ok s'.
Proof.
  intros Hr Ha Hlo Hl E n x Hx Hc.
  destruct (lane_step_frame _ _ _ _ _ _ E) as (l1 & x1 & El & Es).
  destruct (decide (i.1 = n)) as [<-|Hne].
  2: { eapply balanced_lane; [exact El|done|]. apply Ha; [|done].
       destruct Es as [Es|(_ & _ & r & _ & _ & Es)]; rewrite Es in Hx; [done|]. by rewrite lookup_insert_ne in Hx. }
  assert (exists x0, sessions s !! i.1 = Some x0 /\ cancelled x0 = false) as (x0 & Hx0 & Hc0).
  { destruct Es as [Es|(H1 & H2 & _)]; [|by exists x1]. rewrite Es in Hx. by exists x. }
  destruct (Ha i.1 x0 Hx0 Hc0) as (la & lb & Ha1 & Hb1 & Hva & Hvb & Hsum).
  assert (live (pc l)) as Hv. { destruct i as [n []]; cbn in *; congruence. }
  destruct (lane_step_flows _ _ _ _ _ _ _ Hx0 Hc0 Hl Hv (ro_lanes s Hr i l Hl) E) as (l' & El' & Hv' & Hf).
  assert (forall P, cnt P (accepted x) = (cnt P (answered x) + cnt P (submitted x)
    + cnt P (in_lane la) + cnt P (in_lane lb) + cnt P (in_lane l') - cnt P (in_lane l))%nat) as Hsum'.
  { destruct Hf as [[Es' Hf]|(x2 & r & Hx2 & Hrt & Es' & Hf)]; intros P; rewrite Es' in Hx.
    - rewrite Hx0 in Hx. injection Hx as <-. rewrite Hf, Hsum. lia.
    - rewrite Hx0 in Hx2. injection Hx2 as <-. rewrite lookup_insert_eq in Hx. injection Hx as <-.
      unfold accepted, answered, submitted in *. cbn [output submitting]. rewrite !replies_to_snoc, Hrt.
      cbn [negb]. rewrite app_nil_r, cnt_app, Hsum, Hf. lia. }
  destruct i as [n []]; cbn [fst] in *.
  - rewrite Hl in Hb1. injection Hb1 as <-. exists la, l'. rewrite El', lookup_insert_eq, lookup_insert_ne by done.
    split_and!; try done. intros P. rewrite Hsum'. lia.
  - rewrite Hl in Ha1. injection Ha1 as <-. exists l', lb. rewrite El', lookup_insert_eq, lookup_insert_ne by done.
    split_and!; try done. intros P. rewrite Hsum'. lia.
Qed.

(** ** The whole invariant *)

Section runs.
Context (capacity : nat).

Record sys_ok s : Prop := {
  so_gates : sys_gates s;
  so_lanes : lanes_ok s;
  so_cache : cache_ok capacity s;
  so_replies : replies_ok s;
  so_answers : answers_ok s
}.

Lemma sys_ok_new : sys_ok sys_new.
Proof.
  constructor.
  - split; [|apply map_Forall_empty]. constructor; try done.
  - intros i. cbn. rewrite !lookup_empty. split; intros [? [=]].
  - constructor; cbn.
    + apply represents_new.
    + intros i l c Hl. done.
    + intros k. rewrite drop_nil. constructor.
  - constructor; cbn; apply map_Forall_empty.
  - intros n x Hx. done.
Qed.

Lemma lane_step_ok i l o s s' :
  sys_ok s -> lanes s !! i = Some l -> lane_step capacity i l o s = Some s' -> sys_ok s'.
Proof.
  intros [Hg Hlo Hc Hr Ha] Hl E. constructor.
  - by eapply lane_step_gates.
  - destruct (lane_step_frame _ _ _ _ _ _ E) as (l' & x & El & Es).
    pose proof (lanes_ok_lane i l' l s Hlo Hl) as H.
    destruct Es as [Es|(Hx & _ & r & _ & _ & Es)].
    + by apply (lanes_ok_other (set_lane i l' s)).
    + apply (lanes_ok_other (set_session i.1 (mkSession false (output x ++ [r]) (submitting x)) (set_lane i l' s)));
        [exact El|exact Es|]. by eapply lanes_ok_session.
  - by eapply lane_step_cache.
  - by eapply lane_step_replies.
  - by eapply lane_step_answers.
Qed.

(** A step of a session that only touches the session. *)
Lemma session_step_ok n x x0 s :
  sys_ok s -> sessions s !! n = Some x0 ->
  (cancelled x = false -> cancelled x0 = false /\ forall P,
     (cnt P (accepted x) + (cnt P (answered x0) + cnt P (submitted x0))
      = cnt P (accepted x0) + (cnt P (answered x) + cnt P (submitted x)))%nat) ->
  sys_ok (set_session n x s).
Proof.
  intros [Hg Hlo Hc Hr Ha] Hx Hb. constructor.
  - by eapply sys_gates_other.
  - by eapply lanes_ok_session.
  - eapply cache_stay; [exact Hc|done|done|]. intros i l c Hi. by apply (ca_unseen _ s Hc i l c).
  - by destruct Hr.
  - intros m y Hy Hcy. cbn in Hy. apply lookup_insert_Some in Hy as [[<- <-]|[Hne Hy]]; [|by apply Ha].
    destruct (Hb Hcy) as [Hc0 Hs]. destruct (Ha n x0 Hx Hc0) as (l & l' & H1 & H2 & H3 & H4 & H5).
    exists l, l'. split_and!; try done. intros P. specialize (Hs P). specialize (H5 P). lia.
Qed.

Lemma new_lane_gates i s : lanes s !! i = None -> sys_gates s -> sys_gates (set_lane i (mkLane [] Ready) s).
Proof.
  intros Hi [Hg Hs]. apply gates_move; [|done..]. eapply gates_ext; [|exact Hg].
  intros j. unfold upd. case_decide as E; [subst j|done]. unfold holds_of. by rewrite Hi.
Qed.

Lemma spawn_ok n s s' : sys_ok s -> spawn n s = Some s' -> sys_ok s'.
Proof.
  intros [Hg Hlo Hc Hr Ha]. unfold spawn. destruct (sessions s !! n) as [x|] eqn:Hn; [done|]. intros [= <-].
  assert (forall b, lanes s !! (n, b) = None) as Hl.
  { intros b. apply eq_None_not_Some. intros H%Hlo. cbn in H. rewrite Hn in H. by destruct H. }
  constructor.
  - apply new_lane_gates; [by cbn; rewrite lookup_insert_ne|]. apply new_lane_gates; [apply Hl|].
    by eapply sys_gates_other.
  - intros [m b]. cbn. destruct (decide (m = n)) as [->|Hne].
    + rewrite lookup_insert_eq. destruct b.
      * rewrite lookup_insert_ne, lookup_insert_eq by done. by split; eauto.
      * rewrite lookup_insert_eq. by split; eauto.
    + rewrite !lookup_insert_ne by congruence. apply (Hlo (m, b)).
  - eapply cache_stay; try done. intros i l' c Hi He Hk. cbn in Hi.
    apply lookup_insert_Some in Hi as [[_ <-]|[_ Hi]]; [done|].
    apply lookup_insert_Some in Hi as [[_ <-]|[_ Hi]]; [done|]. by eapply ca_unseen.
  - destruct Hr as [H1 H2]. constructor; [|done]. apply map_Forall_insert_2; [done|]. by apply map_Forall_insert_2.
  - intros m y Hy Hcy. cbn in Hy. apply lookup_insert_Some in Hy as [[<- <-]|[Hne Hy]].
    + exists (mkLane [] Ready), (mkLane [] Ready). cbn.
      rewrite lookup_insert_eq, lookup_insert_ne, lookup_insert_eq by done. done.
    + destruct (Ha m y Hy Hcy) as (l & l' & H1 & H2 & H3). exists l, l'. cbn.
      rewrite !lookup_insert_ne by congruence. done.
Qed.

Lemma submission_ack_ok n r next x0 s s' :
  sys_ok s -> sessions s !! n = Some x0 -> submission_ack n r next s = Some s' ->
  (forall P, (cnt P (if is_terminal (reply_status r) then [] else [reply_to r]) + cnt P (submitted x0)
     = cnt P (if is_terminal (reply_status r) then [reply_to r] else [])
       + cnt P (submitted (mkSession false [] next)))%nat) ->
  sys_ok s'.
Proof.
  intros Hs Hx. unfold submission_ack. rewrite Hx. cbn. destruct (cancelled x0) eqn:Ec; intros [= <-] Hb.
  - by eapply session_step_ok.
  - eapply session_step_ok; [done..|]. intros _. split; [done|]. intros P. specialize (Hb P).
    unfold accepted, answered, submitted in *. cbn [output submitting] in *. rewrite !replies_to_snoc, !cnt_app.
    destruct (is_terminal (reply_status r)); cbn [negb] in *; rewrite ?cnt_nil in *; lia.
Qed.

Lemma enqueue_queued_ok n c i l x0 s s' :
  sys_ok s -> sessions s !! n = Some x0 -> submitting x0 = Some (c, true) -> i.1 = n ->
  lanes s !! i = Some l -> submission_done n (set_lane i (mkLane (queue l ++ [c]) (pc l)) s) = Some s' -> sys_ok s'.
Proof.
  intros [Hg Hlo Hc Hr Ha] Hx Hsub Hin Hl. unfold submission_done. cbn. rewrite Hx. cbn. intros [= <-].
  constructor.
  - apply (sys_gates_other (set_lane i (mkLane (queue l ++ [c]) (pc l)) s)); [done..|].
    apply (gates_stay i l); [done..|]. by apply (proj2 Hg i l).
  - eapply lanes_ok_session; [|exact Hx]. by eapply lanes_ok_lane.
  - by eapply (cache_lane _ s _ i l).
  - eapply (replies_lane s _ i); try done. by apply (ro_lanes s Hr i l).
  - intros m y Hy Hcy. cbn in Hy. apply lookup_insert_Some in Hy as [[<- <-]|[Hne Hy]].
    + destruct (Ha n x0 Hx Hcy) as (la & lb & H1 & H2 & H3 & H4 & H5).
      assert (forall P, cnt P (in_lane (mkLane (queue l ++ [c]) (pc l))) = (cnt P (in_lane l) + cnt P [c])%nat) as Hq.
      { intros P. unfold in_lane. cbn [queue pc]. rewrite !cnt_app. lia. }
      unfold balanced. unfold submitted in *. rewrite Hsub in H5. cbn [lanes set_session set_lane submitting].
      destruct i as [n' []]; cbn in Hin; subst n'.
      * rewrite Hl in H2. injection H2 as <-. exists la, (mkLane (queue l ++ [c]) (pc l)).
        rewrite lookup_insert_eq, lookup_insert_ne by done. split_and!; try done.
        intros P. specialize (H5 P). rewrite Hq. unfold accepted, answered in *. cbn [output]. rewrite cnt_nil. lia.
      * rewrite Hl in H1. injection H1 as <-. exists (mkLane (queue l ++ [c]) (pc l)), lb.
        rewrite lookup_insert_eq, lookup_insert_ne by done. split_and!; try done.
        intros P. specialize (H5 P). rewrite Hq. unfold accepted, answered in *. cbn [output]. rewrite cnt_nil. lia.
    + apply (balanced_lane s _ m y i (mkLane (queue l ++ [c]) (pc l))); [done|congruence|]. by apply Ha.
Qed.

Lemma submit_step_ok n s s' : sys_ok s -> submit_step n s = Some s' -> sys_ok s'.
Proof.
  intros Hs. unfold submit_step. destruct (sessions s !! n) as [x|] eqn:Hx; cbn; [|done].
  destruct (submitting x) as [[c []]|] eqn:Hsub; [| |done].
  2: { intros E. eapply submission_ack_ok; [done|exact Hx|exact E|].
       intros P. unfold submitted. rewrite Hsub.
    cbn [is_terminal reply_status reply_to submitting]. rewrite ?cnt_nil. lia. }
  unfold enqueue. destruct (lanes s !! _) as [l|] eqn:Hl; cbn [mbind option_bind]; [|done].
  assert (forall m s', submission_ack n (mkReply c AckStatus.Failed m) None s = Some s' -> sys_ok s') as Hf.
  { intros m s1 E. eapply submission_ack_ok; [done|exact Hx|exact E|].
    intros P. unfold submitted. rewrite Hsub.
    cbn [is_terminal reply_status reply_to submitting]. rewrite ?cnt_nil. lia. }
  pose proof (fun s1 => enqueue_queued_ok n c (n, uses_refresh_lane (Pb.ControlCommand.type_ c)) l x s s1 Hs Hx Hsub eq_refl Hl) as Hq.
  destruct (uses_refresh_lane _); [|by apply Hq].
  destruct (pc l); try (by apply Hf);
    (destruct (length (queue l) <? MAX_QUEUED_USER_REFRESH_COMMANDS)%nat; [by apply Hq|by apply Hf]).
Qed.

Lemma step_ok e s s' : sys_ok s -> step capacity e s = Some s' -> sys_ok s'.
Proof.
  intros Hs. destruct e as [n|n|n c|n|i o]; cbn [step].
  - by apply spawn_ok.
  - unfold cancel. destruct (sessions s !! n) as [x|] eqn:Hx; cbn; [|done]. intros [= <-].
    by eapply session_step_ok.
  - unfold submit. destruct (sessions s !! n) as [x|] eqn:Hx; cbn; [|done].
    destruct (lanes s !! _) as [l|]; cbn; [|done]. destruct (submitting x) eqn:Hsub; [done|].
    destruct (cancelled x) eqn:Ec; [by intros [= <-]|]. destruct (_ || _); [|done]. intros [= <-].
    eapply session_step_ok; [done|exact Hx|]. intros _. split; [done|].
    intros P. unfold submitted. rewrite Hsub. cbn [submitting]. unfold accepted, answered. cbn [output]. lia.
  - by apply submit_step_ok.
  - destruct (lanes s !! i) as [l|] eqn:Hl; cbn; [|done]. by apply lane_step_ok.
Qed.

Lemma lanes_reachable_ok s : reachable capacity s -> sys_ok s.
Proof.
  intros [es H]. revert H. generalize sys_ok_new. generalize sys_new.
  induction es as [|e es IH]; intros s0 H0; cbn [run].
  - by intros [= <-].
  - destruct (step capacity e s0) as [s1|] eqn:E; cbn; [|done]. intros H. eapply IH; [|exact H].
    by eapply step_ok.
Qed.
(** ** Guarantees *)

(** C28. Two lanes never execute commands of the same idempotency key at the same time,
    across lanes and overlapping sessions, whatever the schedule. *)
Theorem mutual_exclusion s i j l l' c c' :
  reachable capacity s -> lanes s !! i = Some l -> lanes s !! j = Some l' ->
  executing (pc l) = Some c -> executing (pc l') = Some c' -> key c <> "" -> key c' = key c -> i = j.
Proof. intros H%lanes_reachable_ok. by apply exclusive, so_gates. Qed.

(** C29. A command that succeeded is not executed again while it is remembered: among
    any [capacity + 1] consecutive successes no idempotency key appears twice, no
    key being executed is in the cache, and the cache answers exactly with the last
    [capacity] successes. *)
Theorem success_once s :
  reachable capacity s ->
  (forall k, NoDup (take (S capacity) (drop k (successes s))).*1) /\
  represents capacity (cache s) (drop (length (successes s) - capacity) (successes s)) /\
  (forall i l c, lanes s !! i = Some l -> executing (pc l) = Some c -> key c <> "" -> seen (cache s) !! key c = None).
Proof.
  intros H%lanes_reachable_ok. destruct (so_cache s H) as [C1 C2 C3]. split_and!; [done|done|].
  intros i l c Hl He Hk. destruct C1 as (_ & _ & _ & ->). apply not_elem_of_list_to_map_1. by eapply C2.
Qed.

(** The registry of execution gates holds no more than the work under way: each
    entry belongs to a lane that waits for, holds or is just dropping that gate, so
    the registry is empty when no lane is at work. *)
Theorem registry_bounded s :
  reachable capacity s ->
  (forall k g, executions s !! k = Some g -> gate_key g = k /\
     exists i l p, lanes s !! i = Some l /\ hold (pc l) = Some (p, g)) /\
  (map_Forall (fun _ l => pc l = Ready \/ pc l = Stopped) (lanes s) -> executions s = ∅).
Proof.
  intros H%lanes_reachable_ok. destruct (so_gates s H) as [[_ _ _ _ G5] _].
  assert (forall k g, executions s !! k = Some g -> gate_key g = k /\
     exists i l p, lanes s !! i = Some l /\ hold (pc l) = Some (p, g)) as He.
  { intros k g E. destruct (G5 k g E) as (Hk & i & p & (l & Hl & Hh)%holds_Some). split; [done|]. eauto. }
  split; [done|]. intros Hidle. apply map_empty. intros k. apply eq_None_not_Some. intros [g E].
  destruct (He k g E) as (_ & i & l & p & Hl & Hh). by destruct (Hidle i l Hl) as [E'|E']; rewrite E' in Hh.
Qed.

(** In a session that is not cancelled, every command acknowledged as accepted has
    exactly one terminal acknowledgement (never a second "accepted"), or is still
    in its submission or in one of the two lanes, as often as it was accepted. *)
Theorem every_command_answered s n x :
  reachable capacity s -> sessions s !! n = Some x -> cancelled x = false ->
  exists l l', lanes s !! (n, false) = Some l /\ lanes s !! (n, true) = Some l' /\
  forall P, cnt P (accepted x) = (cnt P (answered x) + cnt P (submitted x) + cnt P (in_lane l) + cnt P (in_lane l'))%nat.
Proof.
  intros H%lanes_reachable_ok Hx Hc. destruct (so_answers s H n x Hx Hc) as (l & l' & H1 & H2 & _ & _ & H5). eauto.
Qed.

(** ** Draining *)

Definition rank (p : lane_pc) : nat :=
  match p with
  | Waiting _ _ => 9 | Granted _ _ => 8 | Executing _ _ => 7 | Executed _ _ _ => 6 | Unlocking _ _ => 5
  | Releasing _ _ => 4 | Destroying _ _ => 3 | Sending _ => 2 | Ready => 1 | Stopped => 0
  end.
Definition lane_work (l : lane) : nat := 10 * length (queue l) + rank (pc l).
Definition work s : nat := map_fold (fun _ l n => (lane_work l + n)%nat) 0%nat (lanes s).

(** Nothing to do: stopped, or waiting for commands. *)
Definition idle s (i : lane_id) (l : lane) : bool :=
  match pc l with
  | Stopped => true
  | Ready => negb (is_cancelled i.1 s) && bool_decide (queue l = [])
  | _ => false
  end.

Lemma work_insert (m : gmap lane_id lane) i l l' :
  m !! i = Some l -> (lane_work l' < lane_work l)%nat ->
  (map_fold (fun _ l n => (lane_work l + n)%nat) 0%nat (<[i := l']> m)
   < map_fold (fun _ l n => (lane_work l + n)%nat) 0%nat m)%nat.
Proof.
  intros Hi Hlt. rewrite <- insert_delete_eq.
  rewrite map_fold_insert_L by (try (intros; lia); apply lookup_delete_eq).
  rewrite (map_fold_delete_L _ _ i l m) by (try (intros; lia); done). lia.
Qed.

Lemma goto_rank after : (rank (goto after) <= 2)%nat.
Proof. destruct after; cbn; lia. Qed.
Lemma drop_rank ex after : (rank (drop_execution ex after) <= 5)%nat.
Proof. destruct ex; [cbn; lia|]. cbn. pose proof (goto_rank after). lia. Qed.

Lemma lane_step_work i l o s s' :
  lanes s !! i = Some l -> lane_step capacity i l o s = Some s' -> (work s' < work s)%nat.
Proof.
  intros Hl E. destruct (lane_step_frame _ _ _ _ _ _ E) as (l1 & x & El & _).
  assert (exists l', lanes s' = <[i := l']> (lanes s) /\ (lane_work l' < lane_work l)%nat) as (l' & El' & Hw).
  2: { unfold work. rewrite El'. by eapply work_insert. }
  clear l1 x El. revert E. unfold lane_step, set_pc, lane_work.
  destruct (pc l) as [|c g|c ex|c ex|c ex r|g a|g a|g a|r|] eqn:Hp; destruct o as [o|]; try done.
  - unfold take_command, set_pc.
    destruct (is_cancelled _ _); [intros [= <-]; eexists; split; [done|cbn; lia]|].
    destruct (queue l) as [|c rest]; [done|].
    destruct (is_empty _); [intros [= <-]; eexists; split; [done|cbn; lia]|].
    unfold execution_gate. destruct (executions s !! _) as [g|]; [destruct (alive g s)|];
      intros [= <-]; eexists; (split; [done|cbn; lia]).
  - unfold lock_gate, set_pc. destruct (is_cancelled _ _); [|destruct (unlocked g s); [|done]];
      intros [= <-]; eexists; (split; [done|cbn; lia]).
  - intros [= <-]. unfold look_up, set_pc.
    pose proof (drop_rank ex).
    destruct (is_cancelled _ _); [|destruct (_.2) as [[a|]|]; [destruct (is_empty _)|..]];
      eexists; (split; [done|cbn [queue pc rank]; try match goal with |- context [drop_execution ex ?a] => specialize (H a) end; lia]).
  - intros [= <-]. eexists. split; [done|cbn; lia].
  - intros [= <-]. unfold complete_command, set_pc. pose proof (drop_rank ex).
    destruct (is_empty _); [|destruct (complete _ _ _ _) as [y [a|e]]; [destruct (AckStatus.retryable _)|]];
      eexists; (split; [done|cbn [queue pc rank]; match goal with |- context [drop_execution ex ?a] => specialize (H a) end; lia]).
  - intros [= <-]. eexists. split; [done|cbn; lia].
  - intros [= <-]. unfold release, set_pc. pose proof (goto_rank a).
    destruct (alive g _); eexists; (split; [done|cbn [queue pc rank]; lia]).
  - intros [= <-]. pose proof (goto_rank a). unfold drop_gate. destruct (executions s !! _) as [g'|]; [destruct (decide _)|];
      eexists; (split; [done|cbn [queue pc rank]; lia]).
  - unfold send_lane_ack, set_pc. destruct (sessions s !! i.1) as [x|] eqn:Ex; cbn; [|done].
    destruct (cancelled x) eqn:Ec; intros [= <-]; eexists; (split; [done|cbn; lia]).
Qed.

Lemma locked_steps s i l g :
  hold (pc l) = Some (Locked, g) -> exists o s', lane_step capacity i l o s = Some s'.
Proof.
  unfold lane_step. destruct (pc l) as [| |c ex|c ex|c ex r|g' a| | | |]; try done; intros _.
  - by exists None; eexists.
  - by exists (Some (TaskFailed "")); eexists.
  - by exists None; eexists.
  - by exists None; eexists.
Qed.

Lemma lane_progress s i l :
  sys_ok s -> lanes s !! i = Some l -> idle s i l = false ->
  exists (j : lane_id) l' o s', lanes s !! j = Some l' /\ lane_step capacity j l' o s = Some s'.
Proof.
  intros Hs Hl Hi. destruct (pc l) as [|c g|c ex|c ex|c ex r|g a|g a|g a|r|] eqn:Hp.
  2: { destruct (is_cancelled i.1 s) eqn:Ec.
       { exists i, l, None. unfold lane_step. rewrite Hp. unfold lock_gate. rewrite Ec. by eexists. }
       destruct (unlocked g s) eqn:Eu.
       { exists i, l, None. unfold lane_step. rewrite Hp. unfold lock_gate. rewrite Ec, Eu. by eexists. }
       unfold unlocked in Eu. apply bool_decide_eq_false in Eu. apply map_not_Forall in Eu as (j & l' & Hj & Hh); [|tc_solve].
       apply dec_stable in Hh. destruct (locked_steps s j l' g Hh) as (o & s' & E). by exists j, l', o, s'. }
  all: exists i, l.
  - exists None. unfold lane_step. rewrite Hp. unfold take_command. unfold idle in Hi. rewrite Hp in Hi.
    destruct (is_cancelled _ _); [by eexists|]. cbn in Hi. apply bool_decide_eq_false in Hi.
    destruct (queue l) as [|c rest]; [done|]. destruct (is_empty _); [by eexists|].
    destruct (execution_gate _ _). by eexists.
  - exists None. unfold lane_step. rewrite Hp. by eexists.
  - exists (Some (TaskFailed "")). unfold lane_step. rewrite Hp. by eexists.
  - exists None. unfold lane_step. rewrite Hp. by eexists.
  - exists None. unfold lane_step. rewrite Hp. by eexists.
  - exists None. unfold lane_step. rewrite Hp. by eexists.
  - exists None. unfold lane_step. rewrite Hp. by eexists.
  - exists None. unfold lane_step. rewrite Hp. unfold send_lane_ack.
    destruct (proj1 (so_lanes s Hs i) (mk_is_Some _ _ Hl)) as [x ->]. cbn. destruct (cancelled x); by eexists.
  - unfold idle in Hi. by rewrite Hp in Hi.
Qed.

Definition is_lane_event (e : event) : bool := match e with EvLane _ _ => true | _ => false end.

Lemma lane_run_work es s s' :
  Forall (fun e => is_lane_event e = true) es -> run capacity es s = Some s' -> (length es + work s' <= work s)%nat.
Proof.
  revert s. induction es as [|e es IH]; intros s; cbn [run length].
  - by intros _ [= <-].
  - intros [He Hes]%Forall_cons. destruct (step capacity e s) as [s1|] eqn:E; cbn; [|done].
    intros H. apply IH in H; [|done]. destruct e as [| | | |i o]; try done. cbn in E.
    destruct (lanes s !! i) as [l|] eqn:Hl; cbn in E; [|done]. apply lane_step_work in E; [lia|done].
Qed.

(** C31. The lanes always finish what they have: they take at most [work s] steps
    without new commands, and as long as one of them has something to do, one of
    them can go on, so every schedule can be extended until all are idle, no lock
    or gate being waited for in vain. *)
Theorem lanes_drain s :
  reachable capacity s ->
  (forall es s', Forall (fun e => is_lane_event e = true) es -> run capacity es s = Some s' ->
     (length es <= work s)%nat) /\
  exists es s', Forall (fun e => is_lane_event e = true) es /\ run capacity es s = Some s' /\
    forall i l, lanes s' !! i = Some l -> idle s' i l = true.
Proof.
  intros H%lanes_reachable_ok. split; [intros es s' He E; apply lane_run_work in E; [lia|done]|].
  remember (work s) as n eqn:En. revert s H En. induction n as [n IH] using lt_wf_ind. intros s Hs ->.
  destruct (decide (map_Forall (fun i l => idle s i l = true) (lanes s))) as [Hd|Hd].
  { exists [], s. split_and!; [constructor|done|exact Hd]. }
  apply map_not_Forall in Hd as (i & l & Hl & Hi); [|tc_solve]. apply not_true_is_false in Hi.
  destruct (lane_progress s i l Hs Hl Hi) as (j & l' & o & s1 & Hj & E).
  destruct (IH (work s1)) with (s := s1) as (es & s2 & He & Hr & Hd); [by eapply lane_step_work|by eapply lane_step_ok|done|].
  exists (EvLane j o :: es), s2. split_and!; [by constructor| |done].
  cbn [run step]. rewrite Hj. cbn [mbind option_bind]. by rewrite E.
Qed.
End runs.

(** ** Witnesses

    A session is cancelled while it executes a command; the reconnected session
    delivers it again, waits for the gate and replays the result. *)
Module LanesExample.

Definition command (id : string) : Pb.ControlCommand.t := Pb.ControlCommand.mk id "m" "n" 1 "k" 8 "" "op" 0 None.

Definition first : list event :=
  [EvSpawn 0; EvSubmit 0 (command "c1"); EvSubmitStep 0; EvSubmitStep 0;
   EvLane (0%nat, false) None; EvLane (0%nat, false) None; EvLane (0%nat, false) None].

Definition second : list event :=
  first ++
  [EvCancel 0; EvSpawn 1; EvSubmit 1 (command "c2"); EvSubmitStep 1; EvSubmitStep 1; EvLane (1%nat, false) None;
   EvLane (0%nat, false) (Some (Returned (TerminalResult.applied "done"))); EvLane (0%nat, false) None;
   EvLane (0%nat, false) None; EvLane (1%nat, false) None; EvLane (1%nat, false) None; EvLane (1%nat, false) None].

Definition after (es : list event) : sys := default sys_new (run 2 es sys_new).

Lemma first_reached : run 2 first sys_new = Some (after first).
Proof. vm_compute. reflexivity. Qed.
Lemma second_reached : run 2 second sys_new = Some (after second).
Proof. vm_compute. reflexivity. Qed.

Definition at_lane (i : lane_id) (s : sys) : lane := default (mkLane [] Ready) (lanes s !! i).

Lemma mutual_exclusion_witness :
  let l := at_lane (0%nat, false) (after first) in
  executing (pc l) = Some (command "c1") /\ ((0%nat, false) : lane_id) = (0%nat, false).
Proof.
  split; [vm_compute; reflexivity|].
  apply (mutual_exclusion 2 (after first) (0%nat, false) (0%nat, false)
    (at_lane (0%nat, false) (after first)) (at_lane (0%nat, false) (after first)) (command "c1") (command "c1"));
    [by exists first; apply first_reached|vm_compute; reflexivity..|done|done].
Defined.

Lemma success_once_witness :
  (successes (after second)).*1 = ["k"] /\
  (forall k, NoDup (take 3 (drop k (successes (after second)))).*1) /\
  represents 2 (cache (after second)) (drop (length (successes (after second)) - 2) (successes (after second))) /\
  (forall i l c, lanes (after second) !! i = Some l -> executing (pc l) = Some c ->
     Pb.ControlCommand.idempotency_key c <> "" ->
     seen (cache (after second)) !! Pb.ControlCommand.idempotency_key c = None).
Proof.
  split; [vm_compute; reflexivity|]. apply (success_once 2 (after second)). exists second. apply second_reached.
Defined.

Lemma registry_bounded_witness :
  (forall k g, executions (after second) !! k = Some g -> gate_key g = k /\
     exists i l p, lanes (after second) !! i = Some l /\ hold (pc l) = Some (p, g)) /\
  (map_Forall (fun _ l => pc l = Ready \/ pc l = Stopped) (lanes (after second)) -> executions (after second) = ∅).
Proof. apply (registry_bounded 2 (after second)). exists second. apply second_reached. Defined.

Lemma every_command_answered_witness :
  exists l l', lanes (after second) !! (1%nat, false) = Some l /\ lanes (after second) !! (1%nat, true) = Some l' /\
  forall P, cnt P (accepted (default (mkSession true [] None) (sessions (after second) !! 1%nat)))
    = (cnt P (answered (default (mkSession true [] None) (sessions (after second) !! 1%nat)))
       + cnt P (submitted (default (mkSession true [] None) (sessions (after second) !! 1%nat)))
       + cnt P (in_lane l) + cnt P (in_lane l'))%nat.
Proof.
  apply (every_command_answered 2 (after second) 1%nat);
    [exists second; apply second_reached|vm_compute; reflexivity..].
Defined.

Lemma lanes_drain_witness :
  (forall es s', Forall (fun e => is_lane_event e = true) es -> run 2 es (after second) = Some s' ->
     (length es <= work (after second))%nat) /\
  exists es s', Forall (fun e => is_lane_event e = true) es /\ run 2 es (after second) = Some s' /\
    forall i l, lanes s' !! i = Some l -> idle s' i l = true.
Proof. apply (lanes_drain 2 (after second)). exists second. apply second_reached. Defined.
End LanesExample.
