(* ===== verification/Policy.v ===== *)
(** * Policy commands: [crates/node-agent/src/policy.rs]

    The maintenance flag and the commands that are only acknowledged.  The JSON
    decoder of the legacy payload is a parameter. *)

From Stdlib Require Import ZArith Lia.
From S2P Require Import Prelude Bytes Wire.

Open Scope Z_scope.

(** The names prost gives to the enumeration's values. *)
Definition as_str_name (kind : Pb.ControlCommandType.t) : string :=
  match kind with
  | Pb.ControlCommandType.Unspecified => "CONTROL_COMMAND_TYPE_UNSPECIFIED"
  | Pb.ControlCommandType.TopologySnapshot => "CONTROL_COMMAND_TYPE_TOPOLOGY_SNAPSHOT"
  | Pb.ControlCommandType.TopologyDelta => "CONTROL_COMMAND_TYPE_TOPOLOGY_DELTA"
  | Pb.ControlCommandType.Maintenance => "CONTROL_COMMAND_TYPE_MAINTENANCE"
  | Pb.ControlCommandType.Diagnostics => "CONTROL_COMMAND_TYPE_DIAGNOSTICS"
  | Pb.ControlCommandType.Upgrade => "CONTROL_COMMAND_TYPE_UPGRADE"
  | Pb.ControlCommandType.UserMutation => "CONTROL_COMMAND_TYPE_USER_MUTATION"
  | Pb.ControlCommandType.RoutePatch => "CONTROL_COMMAND_TYPE_ROUTE_PATCH"
  | Pb.ControlCommandType.UserRefresh => "CONTROL_COMMAND_TYPE_USER_REFRESH"
  end.

Section policy.
Context (from_slice : string -> result string bool).

Definition decode_legacy_maintenance (payload : string) : result string bool :=
  if is_empty payload then Err "payload is required" else from_slice payload.

(** [PolicyState::apply], over the maintenance flag. *)
Definition policy_apply (command : Pb.ControlCommand.t) : stm bool string string :=
  match Pb.ControlCommandType.try_from (Pb.ControlCommand.type_ command) with
  | Some Pb.ControlCommandType.Diagnostics => mret "diagnostics command accepted"
  | Some Pb.ControlCommandType.Maintenance =>
      enabled ← match Pb.ControlCommand.payload command with
                | Some (Pb.Payload.Maintenance payload) => mret (Pb.MaintenanceCommand.enabled payload)
                | _ => lift (decode_legacy_maintenance (Pb.ControlCommand.legacy_payload command))
                end;
      _ ← modify (fun _ => enabled);
      mret ("maintenance mode set to " +:+ show_bool enabled)
  | known =>
      raise ("unsupported control command type "
             +:+ match known with
                 | Some kind => as_str_name kind
                 | None => to_dec_signed (Pb.ControlCommand.type_ command)
                 end)
  end.

(** A policy command changes the flag exactly when it is a maintenance command
    whose setting can be read, and then to that setting; a failed one changes
    nothing. *)
Theorem policy_exact command flag flag' res :
  policy_apply command flag = (flag', res) ->
  flag' = flag \/
  Pb.ControlCommandType.try_from (Pb.ControlCommand.type_ command) = Some Pb.ControlCommandType.Maintenance /\
  res = Ok ("maintenance mode set to " +:+ show_bool flag') /\
  match Pb.ControlCommand.payload command with
  | Some (Pb.Payload.Maintenance payload) => flag' = Pb.MaintenanceCommand.enabled payload
  | _ => Pb.ControlCommand.legacy_payload command <> "" /\
         from_slice (Pb.ControlCommand.legacy_payload command) = Ok flag'
  end.
Proof.
  unfold policy_apply. destruct (Pb.ControlCommandType.try_from _) as [[]|]; try (intros [= <- _]; by left).
  destruct (Pb.ControlCommand.payload command) as [[]|];
    try (unfold mbind, stm_bind, mret, stm_ret, modify, lift, decode_legacy_maintenance; cbn;
         destruct (is_empty _) eqn:E; [intros [= <- _]; by left|]; apply is_empty_false in E;
         destruct (from_slice _) as [b|e]; intros [= <- <-]; [by right|by left]).
  intros [= <- <-]. by right.
Qed.
End policy.
