(* ===== verification/Backoff.v ===== *)
(** * Reconnect delays: [crates/node-agent/src/backoff.rs]

    A [Duration] is a number of nanoseconds up to [DURATION_MAX].  The random
    source is a function of its exclusive bound.

    Theorem: the n-th delay lies between half and the whole of
    [min (initial * 2^n) max]. *)

From Stdlib Require Import ZArith Lia.
From S2P Require Import Prelude.

Open Scope Z_scope.

(** [u64::MAX] seconds and 999,999,999 nanoseconds. *)
Definition DURATION_MAX : Z := u64_max * 1000000000 + 999999999.

Module ExponentialBackoff.
Record t : Type := mk { initial : Z; max : Z; current : Z }.

Definition new (initial max : Z) : t := mk initial max 0.
Definition reset (self : t) : t := mk (initial self) (max self) 0.

(** [Duration::saturating_mul(2)] *)
Definition double (d : Z) : Z := sat DURATION_MAX (2 * d).

Definition advance (self : t) : t :=
  mk (initial self) (max self)
    (if current self =? 0 then initial self else Z.min (double (current self)) (max self)).

(** [random_range(0..bound)] is [random bound]. *)
Definition next_delay (random : Z -> Z) (self : t) : t * Z :=
  let self := advance self in
  let half := current self / 2 in
  if half =? 0 then (self, current self)
  else
    let jitter_bound := if half <=? u64_max then half else u64_max in
    if jitter_bound =? 0 then (self, current self) else (self, half + random jitter_bound).

(** The delays of a run of failed attempts. *)
Fixpoint delays (randoms : list (Z -> Z)) (self : t) : list Z :=
  match randoms with
  | [] => []
  | random :: randoms => let '(self, d) := next_delay random self in d :: delays randoms self
  end.
End ExponentialBackoff.
Import ExponentialBackoff.

(** [random_range] stays below its bound. *)
Definition in_range (random : Z -> Z) : Prop := forall b, 0 < b -> 0 <= random b < b.

(** The deterministic part of the n-th delay. *)
Definition base_delay (initial max : Z) (n : nat) : Z :=
  if decide (n = 0%nat) then initial else Z.min (initial * 2 ^ Z.of_nat n) max.

Lemma next_delay_bounds random self :
  in_range random -> 0 <= current (advance self) <= DURATION_MAX ->
  let '(self', d) := next_delay random self in
  self' = advance self /\ current self' / 2 <= d <= current self' /\ (2 <= current self' -> d < current self').
Proof.
  intros Hr Hc. unfold next_delay. cbv zeta. generalize dependent (advance self). intros s' Hc.
  remember (current s') as c eqn:Ec.
  pose proof (Z.div_mod c 2 ltac:(lia)) as Hd. pose proof (Z.mod_pos_bound c 2 ltac:(lia)) as Hm.
  destruct (Z.eqb_spec (c / 2) 0) as [E|E]; [rewrite <- Ec; split_and!; [done|lia..]|].
  destruct (Z.leb_spec (c / 2) u64_max).
  - destruct (Z.eqb_spec (c / 2) 0); [done|]. pose proof (Hr (c / 2) ltac:(lia)).
    rewrite <- Ec. split_and!; [done|lia..].
  - destruct (Z.eqb_spec u64_max 0); [done|]. pose proof (Hr u64_max ltac:(unfold u64_max; lia)).
    rewrite <- Ec. split_and!; [done|lia..].
Qed.

Lemma advance_base initial max n c :
  0 < initial -> 0 < max <= DURATION_MAX ->
  c = (if decide (n = 0%nat) then 0 else base_delay initial max (n - 1)) ->
  current (advance (mk initial max c)) = base_delay initial max n.
Proof.
  intros Hi Hm ->. unfold advance, base_delay, double, sat. cbn [ExponentialBackoff.current ExponentialBackoff.initial ExponentialBackoff.max].
  destruct n as [|[|n]]; [done| |].
  - rewrite !(decide_False (P := (1%nat = 0%nat))), (decide_True (P := (1 - 1)%nat = 0%nat)) by lia.
    destruct (Z.eqb_spec initial 0); [lia|]. change (2 ^ Z.of_nat 1) with 2. lia.
  - rewrite !decide_False by lia. replace (S (S n) - 1)%nat with (S n) by lia.
    rewrite (Nat2Z.inj_succ (S n)), Z.pow_succ_r by lia.
    assert (0 < initial * 2 ^ Z.of_nat (S n)) by (apply Z.mul_pos_pos; [lia|apply Z.pow_pos_nonneg; lia]).
    set (x := initial * 2 ^ Z.of_nat (S n)) in *. replace (initial * (2 * 2 ^ Z.of_nat (S n))) with (2 * x) by lia.
    destruct (Z.eqb_spec (Z.min x max) 0); lia.
Qed.

Lemma delays_from rs initial max n c i d :
  0 < initial <= DURATION_MAX -> 0 < max <= DURATION_MAX -> Forall in_range rs ->
  c = (if decide (n = 0%nat) then 0 else base_delay initial max (n - 1)) ->
  delays rs (mk initial max c) !! i = Some d ->
  let base := base_delay initial max (n + i) in base / 2 <= d <= base /\ (2 <= base -> d < base).
Proof.
  intros Hi Hm Hr. revert n c i. induction Hr as [|r rs Hr Hrs IH]; intros n c i Hc; [done|].
  pose proof (advance_base initial max n c ltac:(lia) Hm Hc) as Ha.
  assert (0 <= base_delay initial max n <= DURATION_MAX) as Hb.
  { unfold base_delay. case_decide; [lia|].
    pose proof (Z.pow_nonneg 2 (Z.of_nat n) ltac:(lia)). nia. }
  pose proof (next_delay_bounds r (mk initial max c) Hr ltac:(by rewrite Ha)) as Hn.
  cbn [delays]. destruct (next_delay r (mk initial max c)) as [self' d'] eqn:E.
  destruct Hn as (-> & H1 & H2). rewrite Ha in *.
  destruct i as [|i]; cbn [lookup list_lookup].
  - intros [= <-]. rewrite Nat.add_0_r. done.
  - intros H. replace (n + S i)%nat with (S n + i)%nat by lia.
    replace (advance (mk initial max c)) with (mk initial max (base_delay initial max n)) in H
      by (rewrite <- Ha; done).
    eapply (IH (S n)); [|exact H]. by rewrite decide_False, Nat.sub_1_r by lia.
Qed.

(** The n-th reconnect delay is jittered between half and the whole of
    [initial * 2^n] capped at [max] (the first is [initial]); the jitter never
    feeds back into the growth, and nothing overflows. *)
Theorem delays_bounded rs initial max n d :
  0 < initial <= DURATION_MAX -> 0 < max <= DURATION_MAX -> Forall in_range rs ->
  delays rs (new initial max) !! n = Some d ->
  let base := base_delay initial max n in
  base / 2 <= d <= base /\ (2 <= base -> d < base) /\ 0 <= d <= DURATION_MAX.
Proof.
  intros Hi Hm Hr H. destruct (delays_from rs initial max 0 0 n d Hi Hm Hr eq_refl H) as [H1 H2].
  cbn [Nat.add] in *. cbv zeta. split_and!; try done; try lia.
  - assert (0 <= base_delay initial max n / 2); [|lia]. apply Z.div_pos; [|lia].
    unfold base_delay. case_decide; [lia|]. pose proof (Z.pow_nonneg 2 (Z.of_nat n) ltac:(lia)). nia.
  - assert (base_delay initial max n <= DURATION_MAX); [|lia]. unfold base_delay. case_decide; lia.
Qed.

Lemma delays_bounded_witness :
  let base := base_delay 1000000000 30000000000 5 in
  base = 30000000000 /\ base / 2 <= 15000000007 <= base /\
  (2 <= base -> 15000000007 < base) /\ 0 <= 15000000007 <= DURATION_MAX.
Proof.
  split; [done|]. apply (delays_bounded (replicate 6 (fun b => Z.min 7 (b - 1)))); [done..| |vm_compute; done].
  apply Forall_replicate. intros b Hb. lia.
Defined.
