(* ===== verification/Executor.v ===== *)
(** * Executing control commands: [TopologyCommandExecutor] in
    [crates/node-agent/src/control/worker.rs]

    The executor over the topology manager, the panel reads and the policy flag.
    It takes the manager's lock for each operation only, so other tasks run in
    between: [schedule] lists, for each such point, the manager operations they
    perform there, session cancellations included.

    Theorems ([ExecutorSpec.v]): an execution is a schedule of manager
    operations, so every property of the manager holds of it; a command reported
    as applied has its revision published; any other outcome leaves the published
    topology as it was, or as the panel reported it when the command's revision
    was stale. *)

From Stdlib Require Import ZArith Lia.
From S2P Require Import Prelude Bytes Wire Topology Convert Ack Lanes Policy Fetcher Mutation Manager.

Open Scope Z_scope.

Definition MAX_USER_REFRESH_ATTEMPTS : nat := 3.

(** ** Failures *)

Module ApplyFailure.
Record t : Type := mk { message : string; revision_recovery : bool; rolled_back : bool }.
Definition plain (message : string) : t := mk message false false.
Definition revision (message : string) : t := mk message true false.
(** [impl From<TopologyError>] *)
Definition from (error : TopologyError.t) : t :=
  mk (TopologyError.message error) (TopologyError.revision_recovery_required error)
    (TopologyError.rolled_back error).
End ApplyFailure.

(** ** Commands *)

Definition revision_fenced_command (command_type : Z) : bool :=
  match Pb.ControlCommandType.try_from command_type with
  | Some (Pb.ControlCommandType.TopologyDelta | Pb.ControlCommandType.RoutePatch
          | Pb.ControlCommandType.UserMutation | Pb.ControlCommandType.UserRefresh) => true
  | _ => false
  end.

Definition delta_set_base (base : Z) (d : Pb.TopologyDelta.t) : Pb.TopologyDelta.t := {|
  Pb.TopologyDelta.base_revision := base;
  Pb.TopologyDelta.target_revision := Pb.TopologyDelta.target_revision d;
  Pb.TopologyDelta.node_mutations := Pb.TopologyDelta.node_mutations d;
  Pb.TopologyDelta.user_mutations := Pb.TopologyDelta.user_mutations d
|}.

Definition rebase_control_command (command : Pb.ControlCommand.t) (base_revision : Z) : Pb.ControlCommand.t := {|
  Pb.ControlCommand.command_id := Pb.ControlCommand.command_id command;
  Pb.ControlCommand.machine_id := Pb.ControlCommand.machine_id command;
  Pb.ControlCommand.node_id := Pb.ControlCommand.node_id command;
  Pb.ControlCommand.revision := Pb.ControlCommand.revision command;
  Pb.ControlCommand.idempotency_key := Pb.ControlCommand.idempotency_key command;
  Pb.ControlCommand.type_ := Pb.ControlCommand.type_ command;
  Pb.ControlCommand.legacy_payload := Pb.ControlCommand.legacy_payload command;
  Pb.ControlCommand.operation_id := Pb.ControlCommand.operation_id command;
  Pb.ControlCommand.base_revision := base_revision;
  Pb.ControlCommand.payload :=
    match Pb.ControlCommand.payload command with
    | Some (Pb.Payload.TopologyDelta d) => Some (Pb.Payload.TopologyDelta (delta_set_base base_revision d))
    | payload => payload
    end
|}.

Definition dash_if_empty (value : string) : string := if is_empty value then "-" else value.

(** ** State *)

Record world (R F : Type) : Type := mkWorld {
  mgr : manager R;
  panel : F;
  maintenance : bool;
  schedule : list (list manager_op)
}.
Arguments mkWorld {R F}. Arguments mgr {R F}. Arguments panel {R F}.
Arguments maintenance {R F}. Arguments schedule {R F}.

Section executor.
Context {R Cfg F : Type} `{!TopologyRuntime R Cfg} `{!TopologyFetcher F}.
Context (machine_id : string) (sha256 : string -> string) (from_slice : string -> result string bool).

Local Abbreviation world := (world R F).
Local Abbreviation method := (stm world ApplyFailure.t).
Local Abbreviation ControlCommand := Pb.ControlCommand.t.
Implicit Types w : world.

(** The other tasks run. *)
Definition pause : method unit := modify (fun w =>
  match schedule w with
  | [] => w
  | ops :: rest => mkWorld (manager_run machine_id sha256 ops (mgr w)) (panel w) (maintenance w) rest
  end).

(** A call of the manager, its result as a value. *)
Definition ask {A} (m : stm (manager R) TopologyError.t A) : method (result TopologyError.t A) :=
  _ ← pause;
  ((fun w => let '(s, r) := m (mgr w) in (mkWorld s (panel w) (maintenance w) (schedule w), Ok r))
   : method (result TopologyError.t A)).

(** [manager.operation(..).await.map_err(f)?] *)
Definition on_manager {A} (f : TopologyError.t -> ApplyFailure.t) (m : stm (manager R) TopologyError.t A) : method A :=
  r ← ask m; lift (map_err f r).

Definition read {A} (f : manager R -> A) : method A := _ ← pause; gets (fun w => f (mgr w)).

Definition cancelled_error : ApplyFailure.t := ApplyFailure.plain "control command execution canceled".

Definition ensure_active (cancellation : session) : method unit :=
  cancelled ← read (session_cancelled cancellation);
  if cancelled : bool then raise cancelled_error else mret tt.

(** A cancellable panel read, during which the other tasks run. *)
Definition fetching {A} (cancellation : session) (f : FetchError.t -> ApplyFailure.t)
    (m : stm F FetchError.t A) : method A :=
  _ ← pause;
  ((fun w =>
      let '(p, r) := cancellable (session_cancelled cancellation (mgr w)) m (panel w) in
      (mkWorld (mgr w) p (maintenance w) (schedule w), map_err f r)) : method A).

(** ** Resynchronisation *)

Definition fetch_resync (cancellation : session) : method (MachineTopology.t * Z) :=
  expected ← read publication_token;
  topology ← fetching cancellation
    (fun error => ApplyFailure.plain ("revision resync fetch: " +:+ FetchError.message error)) fetch_machine_topology;
  _ ← ensure_active cancellation;
  mret (topology, expected).

Definition apply_resync (cancellation : session) (fetched : MachineTopology.t * Z) : method (string * Z) :=
  message ← on_manager
    (fun error => ApplyFailure.mk ("revision resync apply: " +:+ TopologyError.message error) false
                    (TopologyError.rolled_back error))
    (apply_authoritative_if_unchanged machine_id cancellation fetched.1 fetched.2);
  current ← read current_revision;
  revision ← lift (ok_or (ApplyFailure.plain "revision resync returned an unversioned topology")
                     (match current with Some 0 => None | current => current end));
  mret ("resynced: " +:+ message, revision).

Definition resync (cancellation : session) : method (string * Z) :=
  fetched ← fetch_resync cancellation; apply_resync cancellation fetched.

(** [map_err] of a part that ran. *)
Definition with_error {A} (f : ApplyFailure.t -> ApplyFailure.t) (m : method A) : method A := fun w =>
  let '(w, r) := m w in (w, map_err f r).

Definition recover_refresh_revision (command : ControlCommand) (cause : TopologyError.t)
    (cancellation : session) : method string :=
  let after error := ApplyFailure.plain ("user refresh revision resync failed after "
    +:+ TopologyError.message cause +:+ ": " +:+ ApplyFailure.message error) in
  fetched ← with_error after (fetch_resync cancellation);
  if MachineTopology.revision fetched.1 <? Pb.ControlCommand.revision command
  then raise (ApplyFailure.plain ("user refresh cannot be replayed from an older authoritative snapshot: snapshot="
         +:+ to_dec (MachineTopology.revision fetched.1) +:+ " target="
         +:+ to_dec (Pb.ControlCommand.revision command)))
  else
    applied ← with_error after (apply_resync cancellation fetched);
    mret ("user refresh revision mismatch, " +:+ applied.1).

(** ** User refresh *)

Definition refresh_prefix (command : ControlCommand) : string :=
  "user refresh failed: command_id=" +:+ Pb.ControlCommand.command_id command
  +:+ " node=" +:+ dash_if_empty (Pb.ControlCommand.node_id command) +:+ ": ".

Definition refresh_message (changes : UserRefreshChanges.t) : string :=
  "user refresh applied: added=" +:+ to_dec (Z.of_nat (UserRefreshChanges.added changes))
  +:+ " updated=" +:+ to_dec (Z.of_nat (UserRefreshChanges.updated changes))
  +:+ " deleted=" +:+ to_dec (Z.of_nat (UserRefreshChanges.deleted changes))
  +:+ " applied=" +:+ show_bool (UserRefreshChanges.applied changes).

(** [for _ in 0..MAX_USER_REFRESH_ATTEMPTS] *)
Fixpoint refresh_attempts (attempts : nat) (command : ControlCommand) (cancellation : session) : method string :=
  let node_id := Pb.ControlCommand.node_id command in
  match attempts with
  | O => raise (ApplyFailure.plain ("refresh users for node " +:+ node_id +:+ " did not stabilize after "
           +:+ to_dec (Z.of_nat MAX_USER_REFRESH_ATTEMPTS) +:+ " attempts: node users changed during refresh"))
  | S attempts =>
      current ← on_manager ApplyFailure.from (loaded_users node_id);
      desired ← fetching cancellation
        (fun error => ApplyFailure.plain (refresh_prefix command +:+ "fetch users: " +:+ FetchError.message error))
        (fetch_node_users node_id);
      _ ← ensure_active cancellation;
      outcome ← ask (refresh_node_users_if_current_at_revision_fence machine_id cancellation node_id desired current
                       (Pb.ControlCommand.base_revision command) (Pb.ControlCommand.revision command));
      match outcome with
      | Ok changes => mret (refresh_message changes)
      | Err error =>
          if bool_decide (TopologyError.kind error = UsersChangedDuringRefresh)
          then refresh_attempts attempts command cancellation
          else if TopologyError.revision_recovery_required error
          then recover_refresh_revision command error cancellation
          else raise (ApplyFailure.mk (refresh_prefix command +:+ TopologyError.message error) false
                        (TopologyError.rolled_back error))
      end
  end.

Definition execute_refresh (command : ControlCommand) (cancellation : session) : method string :=
  fence ← ask (guard_revision_fence (Pb.ControlCommand.base_revision command) (Pb.ControlCommand.revision command));
  match fence with
  | Err error =>
      if TopologyError.revision_recovery_required error
      then recover_refresh_revision command error cancellation
      else raise (ApplyFailure.from error)
  | Ok _ => refresh_attempts MAX_USER_REFRESH_ATTEMPTS command cancellation
  end.

(** ** One command *)

Definition mismatch (command : ControlCommand) (what : string) (revision : Z) : ApplyFailure.t :=
  ApplyFailure.revision ("topology revision mismatch: command revision="
    +:+ to_dec (Pb.ControlCommand.revision command) +:+ " " +:+ what +:+ " revision=" +:+ to_dec revision).

Definition delta_mismatch (command : ControlCommand) (base target : Z) : ApplyFailure.t :=
  ApplyFailure.revision ("topology revision mismatch: command base="
    +:+ to_dec (Pb.ControlCommand.base_revision command) +:+ " target="
    +:+ to_dec (Pb.ControlCommand.revision command) +:+ " delta base=" +:+ to_dec base
    +:+ " target=" +:+ to_dec target).

(** [self.policy.apply(command)] *)
Definition run_policy (command : ControlCommand) : method string := fun w =>
  let '(flag, r) := policy_apply from_slice command (maintenance w) in
  (mkWorld (mgr w) (panel w) flag (schedule w), map_err ApplyFailure.plain r).

Definition apply_command (command : ControlCommand) (cancellation : session) : method string :=
  _ ← ensure_active cancellation;
  let revision := Pb.ControlCommand.revision command in
  let base := Pb.ControlCommand.base_revision command in
  match Pb.ControlCommandType.try_from (Pb.ControlCommand.type_ command) with
  | None => raise (ApplyFailure.plain ("unsupported control command type "
              +:+ to_dec_signed (Pb.ControlCommand.type_ command)))
  | Some Pb.ControlCommandType.TopologySnapshot =>
      match Pb.ControlCommand.payload command with
      | Some (Pb.Payload.TopologySnapshot snapshot) =>
          if negb (revision =? Pb.TopologySnapshot.revision snapshot)
          then raise (mismatch command "snapshot" (Pb.TopologySnapshot.revision snapshot))
          else on_manager ApplyFailure.from (apply_snapshot machine_id cancellation (Some snapshot))
      | _ => raise (mismatch command "snapshot" 0)
      end
  | Some Pb.ControlCommandType.TopologyDelta =>
      match Pb.ControlCommand.payload command with
      | Some (Pb.Payload.TopologyDelta delta) =>
          if negb ((base =? Pb.TopologyDelta.base_revision delta)
                   && (revision =? Pb.TopologyDelta.target_revision delta))
          then raise (delta_mismatch command (Pb.TopologyDelta.base_revision delta)
                        (Pb.TopologyDelta.target_revision delta))
          else on_manager ApplyFailure.from (apply_delta machine_id cancellation (Some delta))
      | _ => raise (delta_mismatch command 0 0)
      end
  | Some Pb.ControlCommandType.RoutePatch =>
      match Pb.ControlCommand.payload command with
      | Some (Pb.Payload.TopologyRoutePatch patch) =>
          if negb (revision =? Pb.TopologyRoutePatch.revision patch)
          then raise (mismatch command "route patch" (Pb.TopologyRoutePatch.revision patch))
          else on_manager ApplyFailure.from (apply_route_patch machine_id cancellation (Some patch) base)
      | _ => raise (mismatch command "route patch" 0)
      end
  | Some Pb.ControlCommandType.UserMutation =>
      match Pb.ControlCommand.payload command with
      | Some (Pb.Payload.UserMutation mutation) =>
          if negb (revision =? Pb.UserMutation.revision mutation)
          then raise (mismatch command "user mutation" (Pb.UserMutation.revision mutation))
          else on_manager ApplyFailure.from (apply_user_mutation machine_id cancellation (Some mutation) base)
      | _ => raise (mismatch command "user mutation" 0)
      end
  | Some Pb.ControlCommandType.UserRefresh => execute_refresh command cancellation
  | Some _ => run_policy command
  end.

Definition apply_with_recovery (command : ControlCommand) (cancellation : session) : method string := fun w =>
  match apply_command command cancellation w with
  | (w, Ok message) => (w, Ok message)
  | (w, Err error) =>
      if negb (ApplyFailure.revision_recovery error) then (w, Err error)
      else
        (let cause := ApplyFailure.message error in
         resynced ← with_error (fun resync => ApplyFailure.plain ("revision resync failed after " +:+ cause
                                  +:+ ": " +:+ ApplyFailure.message resync)) (resync cancellation);
         let '(resync_message, current_revision) := resynced in
         if negb (revision_fenced_command (Pb.ControlCommand.type_ command))
            || (Pb.ControlCommand.revision command <? current_revision)
         then mret ("revision mismatch, " +:+ resync_message)
         else
           _ ← ensure_active cancellation;
           replayed ← with_error (fun error => ApplyFailure.mk ("revision resync replay from base "
                          +:+ to_dec current_revision +:+ " to target "
                          +:+ to_dec (Pb.ControlCommand.revision command) +:+ ": " +:+ ApplyFailure.message error)
                          (ApplyFailure.revision_recovery error) (ApplyFailure.rolled_back error))
                        (apply_command (rebase_control_command command current_revision) cancellation);
           mret ("revision mismatch, " +:+ resync_message +:+ "; replayed: " +:+ replayed)) w
  end.

(** [execute_regular]: what the lane acknowledges. *)
Definition execute_regular (command : ControlCommand) (cancellation : session) w : world * TerminalResult.t :=
  match apply_with_recovery command cancellation w with
  | (w, Ok message) => (w, TerminalResult.applied message)
  | (w, Err error) =>
      (w, TerminalResult.mk (if ApplyFailure.rolled_back error then AckStatus.RolledBack else AckStatus.Failed)
            (ApplyFailure.message error))
  end.

(** [sync_initial], outside any panel session. *)
Definition sync_initial : method string :=
  expected ← read publication_token;
  topology ← fetching None
    (fun error => ApplyFailure.plain ("initial topology fetch: " +:+ FetchError.message error)) fetch_machine_topology;
  on_manager (fun error => ApplyFailure.plain ("initial topology apply: " +:+ TopologyError.message error))
    (apply_authoritative_if_unchanged machine_id None topology expected).
End executor.
