(* ===== verification/ExecutorSpec.v ===== *)
(** * What executing a control command guarantees

    The executor is a client of the manager: its execution, interleaved with the
    other tasks at every await, is one schedule of manager operations. *)

From Stdlib Require Import ZArith Lia.
From S2P Require Import Prelude Bytes Wire Topology Convert Ack Lanes Policy Fetcher FetcherSpec.
From S2P Require Import Mutation Manager ManagerSpec Executor.

Open Scope Z_scope.

(** What the executor expects of the panel reads: what the manager requires of
    topologies and user lists. *)
Class TopologyFetcherLaws (F : Type) `{!TopologyFetcher F} : Prop := {
  fetched_topology_ok f f' t : fetch_machine_topology f = (f', Ok t) -> topology_ok t;
  fetched_users_ok id f f' us : fetch_node_users id f = (f', Ok us) -> Forall status_canonical us
}.

(** A panel whose configurations name each node once keeps them. *)
Section panel.
Context {P : Type} (list_users : Pb.ListUsersRequest.t -> P -> P * unary Pb.ListUsersResponse.t).
Context (get_machine_config : Pb.GetMachineConfigRequest.t -> P -> P * unary Pb.MachineConfig.t).
Context (debug : string -> string) (machine_id session_id : string).
Context (distinct_nodes : forall req p p' config, get_machine_config req p = (p', Reply config) ->
  NoDup (List.map Pb.NodeConfig.node_id (Pb.MachineConfig.nodes config)) /\
  0 <= Pb.MachineConfig.revision config).

Lemma panel_fetcher_laws :
  @TopologyFetcherLaws P (panel_fetcher list_users get_machine_config debug machine_id session_id).
Proof.
  split.
  - intros p p' t (p1 & config & E1 & E2)%stm_bind_Ok.
    unfold fetch_machine_config, call in E1.
    destruct (get_machine_config _ p) as [p2 [c|st|]] eqn:E; [|done..]. injection E1 as -> ->.
    destruct (distinct_nodes _ _ _ _ E) as [Hd Hr].
    unfold fetch_configured_topology in E2.
    assert (List.map NodeInstance.node_id (config_nodes config)
      = List.map Pb.NodeConfig.node_id (Pb.MachineConfig.nodes config)) as Hids
      by (unfold config_nodes; by rewrite List.map_map).
    rewrite <- Hids, <- (config_topology_nodes machine_id config) in Hd.
    eapply (fill_exact _ _ _ _ _ []) in E2 as (uss & sn & _ & Hc & ->);
      [split; [done|]|done|done|apply coherent_from_machine_config].
    cbn. unfold default_machine. by destruct (is_empty _).
  - intros id p p' us. apply node_users_canonical.
Qed.
End panel.

Section spec.
Context {R Cfg F : Type} `{!TopologyRuntime R Cfg} `{!TopologyRuntimeLaws R Cfg}.
Context `{!TopologyFetcher F} `{!TopologyFetcherLaws F}.
Context (machine_id : string) (sha256 : string -> string) (from_slice : string -> result string bool).
Context (named : machine_id <> "").

Local Abbreviation world := (world R F).
Local Abbreviation method := (stm world ApplyFailure.t).
Local Abbreviation manager_run := (manager_run machine_id sha256).
Local Abbreviation manager_step := (manager_step machine_id sha256).
Implicit Types w : world.
Implicit Types s : manager R.

(** The other tasks only perform acceptable operations. *)
Record world_ok w : Prop := {
  wo_manager : state_ok (mgr w);
  wo_schedule : Forall (Forall op_ok) (schedule w)
}.

(** From one manager state to another by a schedule of its operations. *)
Definition steps s s' : Prop := exists ops, Forall op_ok ops /\ s' = manager_run ops s.

Lemma steps_refl s : steps s s.
Proof. by exists []. Qed.

Lemma manager_run_app ops ops' s : manager_run (ops ++ ops') s = manager_run ops' (manager_run ops s).
Proof. revert s. induction ops as [|op ops IH]; intros s; [done|]. cbn. apply IH. Qed.

Lemma steps_trans s1 s2 s3 : steps s1 s2 -> steps s2 s3 -> steps s1 s3.
Proof.
  intros (ops & H & ->) (ops' & H' & ->). exists (ops ++ ops'). rewrite manager_run_app.
  split; [|done]. by apply Forall_app.
Qed.

Lemma steps_one op s s' : op_ok op -> (manager_step op s).1 = s' -> steps s s'.
Proof. intros Ho <-. exists [op]. split; [by constructor|done]. Qed.

Lemma steps_ok s s' : state_ok s -> steps s s' -> state_ok s'.
Proof. intros Hs (ops & Ho & ->). by apply run_ok. Qed.

Lemma steps_revision s s' :
  state_ok s -> steps s s' -> MachineTopology.revision (topology s) <= MachineTopology.revision (topology s').
Proof. intros Hs (ops & Ho & ->). by apply run_revision. Qed.

(** From a state where [P] holds, [m] performs a schedule, after which its result
    satisfies [Q]. *)
Definition performs {A} (P : manager R -> Prop) (m : method A) (Q : A -> manager R -> Prop) : Prop := forall w w' r,
  P (mgr w) -> world_ok w -> m w = (w', r) ->
  world_ok w' /\ steps (mgr w) (mgr w') /\ (forall a, r = Ok a -> Q a (mgr w')).

Local Abbreviation always := (fun _ => True).

(** What survives the steps of other tasks. *)
Definition lasting (K : manager R -> Prop) : Prop := forall s s', state_ok s -> steps s s' -> K s -> K s'.

Lemma lasting_always : lasting always.
Proof. done. Qed.
Lemma lasting_revision z : lasting (fun s => z <= MachineTopology.revision (topology s)).
Proof. intros s s' Hs Hst H. pose proof (steps_revision s s' Hs Hst). lia. Qed.

Lemma performs_bind {A B} P (m : method A) (f : A -> method B) Q Q' :
  performs P m Q -> (forall a, performs (Q a) (f a) Q') -> performs P (m ≫= f) Q'.
Proof.
  intros Hm Hf w w' r HP Hw. unfold mbind, stm_bind. destruct (m w) as [w1 [a|e]] eqn:E.
  - destruct (Hm w w1 _ HP Hw E) as (Hw1 & Hs1 & Hq). intros E'.
    destruct (Hf a w1 w' r (Hq a eq_refl) Hw1 E') as (Hw2 & Hs2 & Hq'). split_and!; [done|by eapply steps_trans|done].
  - intros [= <- <-]. destruct (Hm w w1 _ HP Hw E) as (Hw1 & Hs1 & _). by split_and!.
Qed.

Lemma performs_weaken {A} (P P' : manager R -> Prop) (m : method A) (Q Q' : A -> manager R -> Prop) :
  performs P m Q -> (forall s, P' s -> P s) -> (forall a s, Q a s -> Q' a s) -> performs P' m Q'.
Proof. intros H HP HQ w w' r Hp Hw E. destruct (H w w' r (HP _ Hp) Hw E) as (? & ? & ?). split_and!; eauto. Qed.

Lemma performs_keep {A} K (m : method A) (Q : A -> manager R -> Prop) :
  lasting K -> performs always m Q -> performs K m (fun a s => Q a s /\ K s).
Proof.
  intros HK H w w' r Hk Hw E. destruct (H w w' r I Hw E) as (Hw' & Hst & HQ). split_and!; [done..|].
  intros a Ea. split; [by apply HQ|]. eapply HK; [apply Hw|done|done].
Qed.

(** A part whose result alone matters to what follows. *)
Lemma performs_then {A B} K (m : method A) (f : A -> method B) (Q : A -> Prop) Q' :
  lasting K -> performs always m (fun a _ => Q a) -> (forall a, Q a -> performs K (f a) Q') ->
  performs K (m ≫= f) Q'.
Proof.
  intros HK Hm Hf. eapply performs_bind; [by apply performs_keep|].
  intros a w w' r [Ha Hk]. by apply Hf.
Qed.

Lemma performs_ret {A} P (a : A) (Q : A -> manager R -> Prop) : (forall s, P s -> Q a s) -> performs P (mret a) Q.
Proof. intros H w w' r HP Hw [= <- <-]. split_and!; [done|apply steps_refl|]. intros ? [= <-]. by apply H. Qed.

Lemma performs_raise {A} P e (Q : A -> manager R -> Prop) : performs P (raise e) Q.
Proof. intros w w' r HP Hw [= <- <-]. split_and!; [done|apply steps_refl|done]. Qed.

Lemma performs_lift {A} P (r : result _ A) (Q : A -> manager R -> Prop) :
  (forall a s, P s -> r = Ok a -> Q a s) -> performs P (lift r) Q.
Proof. intros H w w' r' HP Hw [= <- <-]. split_and!; [done|apply steps_refl|]. intros a E. by apply H. Qed.

Lemma performs_error {A} P f (m : method A) Q : performs P m Q -> performs P (with_error f m) Q.
Proof.
  intros H w w' r HP Hw. unfold with_error. destruct (m w) as [w1 [a|e]] eqn:E; intros [= <- <-];
    destruct (H w w1 _ HP Hw E) as (? & ? & HQ); by split_and!.
Qed.

Lemma performs_pause : performs always (pause machine_id sha256) (fun _ _ => True).
Proof.
  intros w w' r _ [Hs Hops] [= <- <-]. destruct (schedule w) as [|ops rest] eqn:E.
  { split_and!; [by constructor; rewrite ?E|apply steps_refl|done]. }
  apply Forall_cons in Hops as [Ho Hrest].
  assert (steps (mgr w) (manager_run ops (mgr w))) as Hst by by exists ops.
  split_and!; [|done|done]. constructor; [by eapply steps_ok|done].
Qed.

(** A manager call that is a schedule. *)
Definition scheduled {A} (m : stm (manager R) TopologyError.t A) (Q : A -> manager R -> Prop) : Prop :=
  forall s s' r, state_ok s -> m s = (s', r) -> steps s s' /\ forall a, r = Ok a -> Q a s'.

Lemma performs_ask {A} (m : stm (manager R) TopologyError.t A) Q :
  scheduled m Q -> performs always (ask machine_id sha256 m) (fun r s => forall a, r = Ok a -> Q a s).
Proof.
  intros H. unfold ask. eapply performs_bind; [apply performs_pause|].
  intros [] w w' r _ [Hs Ho]. destruct (m (mgr w)) as [s r'] eqn:E. intros [= <- <-].
  destruct (H _ _ _ Hs E) as [Hst HQ]. split_and!; [constructor; [exact (steps_ok _ _ Hs Hst)|exact Ho]|exact Hst|].
  intros ? [= <-]. exact HQ.
Qed.

Lemma performs_manager {A} f (m : stm (manager R) TopologyError.t A) Q :
  scheduled m Q -> performs always (on_manager machine_id sha256 f m) Q.
Proof.
  intros H. unfold on_manager. eapply performs_bind; [by apply performs_ask|].
  intros r. apply performs_lift. intros a s HQ E. destruct r as [b|e]; cbn in E; [|done].
  injection E as <-. by apply HQ.
Qed.

(** An operation of the manager, as one step of its schedule. *)
Lemma scheduled_op {A} (m : stm (manager R) TopologyError.t A) op (Q : A -> manager R -> Prop) :
  op_ok op -> (forall s, manager_step op s = ran (m s)) ->
  (forall s s' a, state_ok s -> m s = (s', Ok a) -> Q a s') -> scheduled m Q.
Proof.
  intros Ho Hm HQ s s' r Hs E. split.
  - eapply steps_one; [exact Ho|]. by rewrite Hm, E.
  - intros a ->. by eapply HQ.
Qed.

(** A reading call. *)
Lemma scheduled_pure {A} (m : stm (manager R) TopologyError.t A) : pure m -> scheduled m (fun _ _ => True).
Proof.
  intros Hp s s' r _ E. specialize (Hp s). rewrite E in Hp. cbn in Hp. subst s'. split; [apply steps_refl|done].
Qed.

Lemma performs_read {A} (f : manager R -> A) :
  performs always (read machine_id sha256 f) (fun a s => a = f s).
Proof.
  unfold read. eapply performs_bind; [apply performs_pause|].
  intros [] w w' r _ Hw [= <- <-]. split_and!; [done|apply steps_refl|]. by intros a [= <-].
Qed.

Lemma performs_active c : performs always (ensure_active machine_id sha256 c) (fun _ _ => True).
Proof.
  unfold ensure_active. eapply performs_bind; [apply performs_read|].
  intros []; [apply performs_raise|by apply performs_ret].
Qed.

(** A panel read leaves the manager to the other tasks. *)
Lemma performs_fetch {A} c f (m : stm F FetchError.t A) (Q : A -> Prop) :
  (forall p p' a, m p = (p', Ok a) -> Q a) ->
  performs always (fetching machine_id sha256 c f m) (fun a _ => Q a).
Proof.
  intros H. unfold fetching. eapply performs_bind; [apply performs_pause|].
  intros [] w w' r _ [Hs Ho]. unfold cancellable. destruct (m (panel w)) as [p r'] eqn:E. intros [= <- <-].
  split_and!; [by constructor|apply steps_refl|]. intros a Ea.
  destruct (session_cancelled c (mgr w)); [done|]. destruct r' as [b|e]; [|done]. injection Ea as <-. by eapply H.
Qed.

(** ** The parts of the executor *)

Local Abbreviation revision_of s := (MachineTopology.revision (topology s)).
Local Abbreviation reaches z := (fun s => z <= MachineTopology.revision (topology s)).

Lemma fetch_resync_performs c :
  performs always (fetch_resync machine_id sha256 c) (fun fetched _ => topology_ok fetched.1).
Proof.
  unfold fetch_resync. eapply performs_then with (Q := always);
    [apply lasting_always|eapply performs_weaken; [apply performs_read|done..]|]. intros expected _.
  eapply performs_then; [apply lasting_always|apply performs_fetch; intros p p' t; apply fetched_topology_ok|].
  intros t Ht. eapply performs_then with (Q := always); [apply lasting_always|apply performs_active|].
  intros _ _. by apply performs_ret.
Qed.

Lemma authoritative_scheduled c t e :
  topology_ok t -> scheduled (apply_authoritative_if_unchanged machine_id c t e)
    (fun _ s => revision_of s = MachineTopology.revision t).
Proof.
  intros Ht. apply (scheduled_op _ (OpAuthoritative c t e)); [done|done|].
  intros s s' m _ H. unfold apply_authoritative_if_unchanged in H.
  do 3 (apply passed_Ok in H as (? & _ & H); [|by auto using pure_begin, pure_authoritative, pure_token]).
  rewrite <- applied_nil in H. apply applied_Ok in H as [-> _]. apply default_machine_revision.
Qed.

Lemma apply_resync_performs c fetched :
  topology_ok fetched.1 ->
  performs always (apply_resync machine_id sha256 c fetched)
    (fun applied s => MachineTopology.revision fetched.1 <= revision_of s /\ applied.2 <= revision_of s).
Proof.
  intros Ht. unfold apply_resync. eapply performs_bind; [apply performs_manager; by apply authoritative_scheduled|].
  intros message.
  eapply performs_bind.
  { eapply performs_weaken with (P := reaches (MachineTopology.revision fetched.1));
      [apply performs_keep; [apply lasting_revision|apply performs_read]|by intros s ->|].
    intros a s H. exact H. }
  intros current. eapply performs_bind.
  { apply performs_lift with (Q := fun z s => MachineTopology.revision fetched.1 <= revision_of s /\ z <= revision_of s).
    intros z s [-> Hr] E. split; [done|]. unfold current_revision in E.
    destruct (is_empty _); [done|]. destruct (revision_of s); cbn in E; [done|injection E as <-; lia..]. }
  intros z. by apply performs_ret.
Qed.

Lemma resync_performs c :
  performs always (resync machine_id sha256 c) (fun resynced s => resynced.2 <= revision_of s).
Proof.
  unfold resync. eapply performs_then; [apply lasting_always|apply fetch_resync_performs|]. intros fetched Ht.
  eapply performs_weaken; [by apply apply_resync_performs|done|]. by intros a s [_ H].
Qed.

Lemma recover_performs command cause c :
  performs always (recover_refresh_revision machine_id sha256 command cause c)
    (fun _ => reaches (Pb.ControlCommand.revision command)).
Proof.
  unfold recover_refresh_revision. eapply performs_then; [apply lasting_always|apply performs_error, fetch_resync_performs|].
  intros fetched Ht. destruct (Z.ltb_spec (MachineTopology.revision fetched.1) (Pb.ControlCommand.revision command)) as [Hlt|Hge];
    [apply performs_raise|].
  eapply performs_bind; [apply performs_error; by apply apply_resync_performs|].
  intros a. apply performs_ret. intros s [H _]. lia.
Qed.
Lemma refresh_scheduled c id users expected base target :
  Forall status_canonical users ->
  scheduled (refresh_node_users_if_current_at_revision_fence machine_id c id users expected base target)
    (fun _ s => target <= revision_of s).
Proof.
  intros Hu. unfold refresh_node_users_if_current_at_revision_fence. set (request := UserRefreshRequest.mk _ _ _ _).
  apply (scheduled_op _ (OpRefresh c request)); [done|done|].
  intros s s' changes Hs E. by apply (refresh_reaches machine_id c request s s' changes).
Qed.

Lemma pure_loaded_users id : pure (loaded_users (R := R) id).
Proof.
  unfold loaded_users, loaded_users_page. apply pure_bind; [|done].
  apply pure_bind; [apply pure_ensure|intros _]. apply pure_bind; [done|]. intros t. by destruct (find_first _ _).
Qed.

Lemma refresh_attempts_performs n command c :
  performs always (refresh_attempts machine_id sha256 n command c)
    (fun _ => reaches (Pb.ControlCommand.revision command)).
Proof.
  induction n as [|n IH]; cbn [refresh_attempts]; [apply performs_raise|].
  eapply performs_then with (Q := always);
    [apply lasting_always|apply performs_manager, scheduled_pure, pure_loaded_users|]. intros current _.
  eapply performs_then; [apply lasting_always|apply performs_fetch; intros p p' us; apply fetched_users_ok|].
  intros desired Hd. eapply performs_then with (Q := always); [apply lasting_always|apply performs_active|]. intros _ _.
  eapply performs_bind; [apply performs_ask; by apply refresh_scheduled|]. intros [changes|error].
  - apply performs_ret. intros s H. by apply (H changes).
  - destruct (bool_decide _); [eapply performs_weaken; [exact IH|done|done]|].
    destruct (TopologyError.revision_recovery_required error); [|apply performs_raise].
    eapply performs_weaken; [apply recover_performs|done|done].
Qed.

Lemma execute_refresh_performs command c :
  performs always (execute_refresh machine_id sha256 command c)
    (fun _ => reaches (Pb.ControlCommand.revision command)).
Proof.
  unfold execute_refresh. eapply performs_bind; [apply performs_ask, scheduled_pure, pure_fence|]. intros [[]|error].
  - eapply performs_weaken; [apply refresh_attempts_performs|done|done].
  - destruct (TopologyError.revision_recovery_required error); [|apply performs_raise].
    eapply performs_weaken; [apply recover_performs|done|done].
Qed.

(** Revisions on the wire are unsigned. *)
Definition command_ok (command : Pb.ControlCommand.t) : Prop :=
  match Pb.ControlCommand.payload command with
  | Some (Pb.Payload.TopologySnapshot snapshot) => 0 <= Pb.TopologySnapshot.revision snapshot
  | _ => True
  end.

Lemma run_policy_performs command Q :
  (forall a s, Q a s) -> performs always (run_policy (R := R) (F := F) from_slice command) Q.
Proof.
  intros HQ w w' r _ [Hs Ho]. unfold run_policy. destruct (policy_apply _ _ _) as [flag r']. intros [= <- <-].
  split_and!; [by constructor|apply steps_refl|]. intros a _. apply HQ.
Qed.

(** What a fenced command has reached when it succeeds. *)
Definition fenced_reaches (command : Pb.ControlCommand.t) s : Prop :=
  revision_fenced_command (Pb.ControlCommand.type_ command) = true -> Pb.ControlCommand.revision command <= revision_of s.

Lemma filled_revision t : MachineTopology.revision (default_machine machine_id t) = MachineTopology.revision t.
Proof. apply default_machine_revision. Qed.

Lemma apply_command_performs command c :
  command_ok command ->
  performs always (apply_command machine_id sha256 from_slice command c) (fun _ => fenced_reaches command).
Proof.
  intros Hok. unfold apply_command, fenced_reaches, revision_fenced_command.
  eapply performs_then with (Q := always); [apply lasting_always|apply performs_active|]. intros _ _.
  destruct (Pb.ControlCommandType.try_from _) as [[]|]; try apply performs_raise;
    try (apply run_policy_performs; by intros a s E).
  - destruct (Pb.ControlCommand.payload command) as [[sn|d|m|m| | |p]|] eqn:Ep; try apply performs_raise.
    destruct (negb _); [apply performs_raise|]. apply performs_manager.
    apply (scheduled_op _ (OpSnapshot c (Some sn))); [by unfold command_ok in Hok; rewrite Ep in Hok|done|done].
  - destruct (Pb.ControlCommand.payload command) as [[sn|d|m|m| | |p]|]; try apply performs_raise.
    destruct (Z.eqb_spec (Pb.ControlCommand.base_revision command) (Pb.TopologyDelta.base_revision d)) as [Eb|],
      (Z.eqb_spec (Pb.ControlCommand.revision command) (Pb.TopologyDelta.target_revision d)) as [Er|];
      cbn [andb negb]; try apply performs_raise. apply performs_manager.
    apply (scheduled_op _ (OpDelta c (Some d))); [done|done|].
    intros s s' a Hs (_ & _ & next & Hn & -> & _)%delta_published _.
    apply delta_candidate_Ok in Hn as [_ Hr]; [|apply Hs]. rewrite filled_revision. lia.
  - destruct (Pb.ControlCommand.payload command) as [[sn|d|m|m| | |p]|]; try apply performs_raise.
    destruct (Z.eqb_spec (Pb.ControlCommand.revision command) (Pb.UserMutation.revision m)) as [Er|];
      cbn [negb]; [|apply performs_raise]. apply performs_manager.
    apply (scheduled_op _ (OpUser c (Some m) (Pb.ControlCommand.base_revision command))); [done|done|].
    intros s s' a Hs (_ & _ & next & Hn & -> & _)%user_published _.
    apply user_candidate_Ok in Hn as [_ Hr]; [|apply Hs]. rewrite filled_revision. lia.
  - destruct (Pb.ControlCommand.payload command) as [[sn|d|m|m| | |p]|]; try apply performs_raise.
    destruct (Z.eqb_spec (Pb.ControlCommand.revision command) (Pb.TopologyRoutePatch.revision p)) as [Er|];
      cbn [negb]; [|apply performs_raise]. apply performs_manager.
    apply (scheduled_op _ (OpRoutePatch c (Some p) (Pb.ControlCommand.base_revision command))); [done|done|].
    intros s s' a Hs (_ & _ & -> & _)%route_published _.
    destruct (route_candidate_ok machine_id (topology s) p (ok_coherent s Hs)) as [_ Hr]. rewrite filled_revision. lia.
  - eapply performs_weaken; [apply execute_refresh_performs|done|]. by intros a s H _.
Qed.

Lemma rebase_ok command base : command_ok command -> command_ok (rebase_control_command command base).
Proof. unfold command_ok. cbn. by destruct (Pb.ControlCommand.payload command) as [[]|]. Qed.

Lemma recovery_performs command c :
  command_ok command ->
  performs always (apply_with_recovery machine_id sha256 from_slice command c) (fun _ => fenced_reaches command).
Proof.
  intros Hok w w' r _ Hw. unfold apply_with_recovery.
  destruct (apply_command _ _ _ command c w) as [w1 [m|error]] eqn:E.
  - intros [= <- <-]. by eapply apply_command_performs.
  - destruct (apply_command_performs command c Hok w w1 _ I Hw E) as (Hw1 & Hs1 & _).
    destruct (negb (ApplyFailure.revision_recovery error)).
    { intros [= <- <-]. by split_and!. }
    assert (forall f, performs always
      (resynced ← with_error f (resync machine_id sha256 c);
       let '(resync_message, current_revision) := resynced in
         if negb (revision_fenced_command (Pb.ControlCommand.type_ command))
            || (Pb.ControlCommand.revision command <? current_revision)
         then mret ("revision mismatch, " +:+ resync_message)
         else
           _ ← ensure_active machine_id sha256 c;
           replayed ← with_error (fun error => ApplyFailure.mk ("revision resync replay from base "
                          +:+ to_dec current_revision +:+ " to target "
                          +:+ to_dec (Pb.ControlCommand.revision command) +:+ ": " +:+ ApplyFailure.message error)
                          (ApplyFailure.revision_recovery error) (ApplyFailure.rolled_back error))
                        (apply_command machine_id sha256 from_slice (rebase_control_command command current_revision) c);
           mret ("revision mismatch, " +:+ resync_message +:+ "; replayed: " +:+ replayed))
      (fun _ => fenced_reaches command)) as H.
    { intros f. eapply performs_bind; [apply performs_error, resync_performs|]. intros [message current].
      destruct (negb (revision_fenced_command _)) eqn:Ef; cbn [orb].
      { apply performs_ret. intros s _ E'. rewrite E' in Ef. done. }
      destruct (Z.ltb_spec (Pb.ControlCommand.revision command) current).
      { apply performs_ret. intros s Hc E'. cbn in Hc. lia. }
      eapply performs_weaken with (P := always); [|done|intros a s H'; exact H'].
      eapply performs_then with (Q := always); [apply lasting_always|apply performs_active|]. intros _ _.
      eapply performs_bind; [apply performs_error, apply_command_performs; by apply rebase_ok|].
      intros replayed. by apply performs_ret. }
    intros E2. destruct (H _ w1 w' r I Hw1 E2) as (Hw2 & Hs2 & HQ). split_and!; [done|by eapply steps_trans|done].
Qed.


(** C30. A partial command acknowledged as applied is not lost: whatever recovery and
    interleaving took place, the published revision is at least the command's. *)
Theorem applied_reaches command c w w' outcome :
  world_ok w -> command_ok command ->
  execute_regular machine_id sha256 from_slice command c w = (w', outcome) ->
  TerminalResult.status outcome = AckStatus.Applied ->
  revision_fenced_command (Pb.ControlCommand.type_ command) = true ->
  Pb.ControlCommand.revision command <= MachineTopology.revision (topology (mgr w')).
Proof.
  intros Hw Hok. unfold execute_regular.
  destruct (apply_with_recovery _ _ _ command c w) as [w1 r] eqn:E.
  destruct (recovery_performs command c Hok w w1 r I Hw E) as (_ & _ & HQ).
  destruct r as [m|error]; intros [= <- <-]; cbn [TerminalResult.status TerminalResult.applied].
  - intros _ Hf. by apply (HQ m eq_refl Hf).
  - by destruct (ApplyFailure.rolled_back error).
Qed.
(** ** Failed commands

    Without other tasks, until the command's own operation succeeds the published
    topology stays, or is the one read from the panel. *)

Definition settled s s' : Prop :=
  topology s' = topology s \/
  exists p p' t, fetch_machine_topology p = (p', Ok t) /\ topology s' = default_machine machine_id t.

Lemma settled_trans s1 s2 s3 : settled s1 s2 -> settled s2 s3 -> settled s1 s3.
Proof. intros H12 [E|H]; [|by right]. destruct H12 as [E'|(p & p' & t & Ef & Et)]; [left; congruence|]. right. exists p, p', t. by rewrite E. Qed.

Definition alone w : Prop := world_ok w /\ schedule w = [].

(** [m] leaves the publication settled; it does so when it fails. *)
Definition settles {A} (m : method A) (Q : A -> Prop) : Prop := forall w w' r,
  alone w -> m w = (w', r) -> alone w' /\ settled (mgr w) (mgr w') /\ forall a, r = Ok a -> Q a.
Definition fails_settled {A} (m : method A) : Prop := forall w w' e,
  alone w -> m w = (w', Err e) -> alone w' /\ settled (mgr w) (mgr w').

Lemma settles_fails {A} (m : method A) Q : settles m Q -> fails_settled m.
Proof. intros H w w' e Hw E. by destruct (H w w' _ Hw E) as (? & ? & _). Qed.

Lemma settles_bind {A B} (m : method A) (f : A -> method B) Q Q' :
  settles m Q -> (forall a, Q a -> settles (f a) Q') -> settles (m ≫= f) Q'.
Proof.
  intros Hm Hf w w' r Hw. unfold mbind, stm_bind. destruct (m w) as [w1 [a|e]] eqn:E;
    destruct (Hm w w1 _ Hw E) as (Hw1 & Hs1 & Hq).
  - intros E'. destruct (Hf a (Hq a eq_refl) w1 w' r Hw1 E') as (Hw2 & Hs2 & Hq').
    split_and!; [done|by eapply settled_trans|done].
  - intros [= <- <-]. by split_and!.
Qed.

Lemma fails_bind {A B} (m : method A) (f : A -> method B) Q :
  settles m Q -> (forall a, Q a -> fails_settled (f a)) -> fails_settled (m ≫= f).
Proof.
  intros Hm Hf w w' e Hw. unfold mbind, stm_bind. destruct (m w) as [w1 [a|e']] eqn:E;
    destruct (Hm w w1 _ Hw E) as (Hw1 & Hs1 & Hq).
  - intros E'. destruct (Hf a (Hq a eq_refl) w1 w' e Hw1 E') as (Hw2 & Hs2). split; [done|by eapply settled_trans].
  - intros [= <- <-]. done.
Qed.

Lemma settles_ret {A} (a : A) (Q : A -> Prop) : Q a -> settles (mret a) Q.
Proof. intros H w w' r Hw [= <- <-]. split_and!; [done|by left|]. by intros ? [= <-]. Qed.
Lemma settles_raise {A} e (Q : A -> Prop) : settles (raise e) Q.
Proof. intros w w' r Hw [= <- <-]. split_and!; [done|by left|done]. Qed.
Lemma settles_lift {A} (r : result _ A) : settles (lift r) (fun _ => True).
Proof. intros w w' r' Hw [= <- <-]. split_and!; [done|by left|done]. Qed.

Lemma settles_error {A} f (m : method A) Q : settles m Q -> settles (with_error f m) Q.
Proof.
  intros H w w' r Hw. unfold with_error. destruct (m w) as [w1 [a|e]] eqn:E; intros [= <- <-];
    destruct (H w w1 _ Hw E) as (? & ? & HQ); by split_and!.
Qed.
Lemma fails_error {A} f (m : method A) : fails_settled m -> fails_settled (with_error f m).
Proof.
  intros H w w' e Hw. unfold with_error. destruct (m w) as [w1 [a|e']] eqn:E; [done|]. intros [= <- <-]. by eapply H.
Qed.

Lemma alone_pause w : alone w -> pause machine_id sha256 w = (w, Ok tt).
Proof. intros [_ Hs]. unfold pause, modify. by rewrite Hs. Qed.

Lemma settles_read {A} (f : manager R -> A) : settles (read machine_id sha256 f) (fun _ => True).
Proof.
  intros w w' r Hw. unfold read. rewrite (stm_bind_eq _ _ _ _ _ (alone_pause w Hw)). intros [= <- <-].
  split_and!; [done|by left|done].
Qed.

Lemma settles_active c : settles (ensure_active machine_id sha256 c) (fun _ => True).
Proof.
  unfold ensure_active. eapply settles_bind; [apply settles_read|]. intros [] _; [apply settles_raise|by apply settles_ret].
Qed.

Lemma settles_fetch {A} c f (m : stm F FetchError.t A) (Q : A -> Prop) :
  (forall p p' a, m p = (p', Ok a) -> Q a) -> settles (fetching machine_id sha256 c f m) Q.
Proof.
  intros H w w' r Hw. unfold fetching. rewrite (stm_bind_eq _ _ _ _ _ (alone_pause w Hw)). unfold cancellable.
  destruct (m (panel w)) as [p r'] eqn:E. intros [= <- <-]. destruct Hw as [[Hs Ho] Hn].
  split_and!; [by split|by left|]. intros a Ea.
  destruct (session_cancelled c (mgr w)); [done|]. destruct r' as [b|e]; [|done]. injection Ea as <-. by eapply H.
Qed.

(** A manager operation whose successes are settled too. *)
Lemma settles_op {A} f (m : stm (manager R) TopologyError.t A) op :
  op_ok op -> (forall s, manager_step op s = ran (m s)) ->
  (forall s s' a, m s = (s', Ok a) -> settled s s') -> settles (on_manager machine_id sha256 f m) (fun _ => True).
Proof.
  intros Ho Hm Hok w w' r Hw. unfold on_manager, ask.
  unfold mbind at 1, stm_bind at 1. rewrite (stm_bind_eq _ _ _ _ _ (alone_pause w Hw)).
  destruct Hw as [[Hs Hsc] Hn]. destruct (m (mgr w)) as [s r'] eqn:E. intros [= <- <-].
  pose proof (steps_one op (mgr w) s Ho ltac:(by rewrite Hm, E)) as Hst.
  split_and!; [split; [constructor; [by eapply steps_ok|done]|done]| |done].
  destruct r' as [a|e]; [by eapply Hok|]. left. pose proof (step_attempt machine_id sha256 op _ Hs Ho) as Ha.
  rewrite Hm, E in Ha. by inversion Ha as [? ? [Ht _ _ _ _ _]| |]; subst.
Qed.

Lemma fails_op {A} f (m : stm (manager R) TopologyError.t A) op :
  op_ok op -> (forall s, manager_step op s = ran (m s)) -> fails_settled (on_manager machine_id sha256 f m).
Proof.
  intros Ho Hm w w' e Hw. unfold on_manager, ask.
  unfold mbind at 1, stm_bind at 1. rewrite (stm_bind_eq _ _ _ _ _ (alone_pause w Hw)).
  destruct Hw as [[Hs Hsc] Hn]. destruct (m (mgr w)) as [s r'] eqn:E. intros [= <- Er].
  destruct r' as [a|e']; [done|].
  pose proof (steps_one op (mgr w) s Ho ltac:(by rewrite Hm, E)) as Hst.
  split; [split; [constructor; [by eapply steps_ok|done]|done]|].
  left. pose proof (step_attempt machine_id sha256 op _ Hs Ho) as Ha.
  rewrite Hm, E in Ha. by inversion Ha as [? ? [Ht _ _ _ _ _]| |]; subst.
Qed.

Lemma settles_pure {A} f (m : stm (manager R) TopologyError.t A) :
  pure m -> settles (on_manager machine_id sha256 f m) (fun _ => True).
Proof.
  intros Hp w w' r Hw. unfold on_manager, ask.
  unfold mbind at 1, stm_bind at 1. rewrite (stm_bind_eq _ _ _ _ _ (alone_pause w Hw)).
  specialize (Hp (mgr w)). destruct (m (mgr w)) as [s r'] eqn:E. cbn in Hp. subst s. intros [= <- <-].
  destruct Hw as [[Hs Hsc] Hn]. split_and!; [by split|by left|done].
Qed.
Definition from_panel (t : MachineTopology.t) : Prop :=
  topology_ok t /\ exists p p', fetch_machine_topology p = (p', Ok t).

Lemma fetch_resync_settles c : settles (fetch_resync machine_id sha256 c) (fun fetched => from_panel fetched.1).
Proof.
  unfold fetch_resync. eapply settles_bind; [apply settles_read|]. intros expected _.
  eapply settles_bind with (Q := from_panel).
  { apply settles_fetch. intros p p' t E. split; [by eapply fetched_topology_ok|eauto]. }
  intros t Ht. eapply settles_bind; [apply settles_active|]. intros _ _. by apply settles_ret.
Qed.

Lemma apply_resync_settles c fetched :
  from_panel fetched.1 -> settles (apply_resync machine_id sha256 c fetched) (fun _ => True).
Proof.
  intros [Ht (p & p' & E)]. unfold apply_resync. eapply settles_bind.
  { apply (settles_op _ _ (OpAuthoritative c fetched.1 fetched.2)); [done|done|].
    intros s s' m H. right. exists p, p', fetched.1. split; [done|]. unfold apply_authoritative_if_unchanged in H.
    do 3 (apply passed_Ok in H as (? & _ & H); [|by auto using pure_begin, pure_authoritative, pure_token]).
    rewrite <- applied_nil in H. by apply applied_Ok in H as [-> _]. }
  intros m _. eapply settles_bind; [apply settles_read|]. intros current _.
  eapply settles_bind; [apply settles_lift|]. intros z _. by apply settles_ret.
Qed.

Lemma resync_settles c : settles (resync machine_id sha256 c) (fun _ => True).
Proof. unfold resync. eapply settles_bind; [apply fetch_resync_settles|]. intros f Hf. by apply apply_resync_settles. Qed.

Lemma recover_settles command cause c :
  settles (recover_refresh_revision machine_id sha256 command cause c) (fun _ => True).
Proof.
  unfold recover_refresh_revision. eapply settles_bind; [apply settles_error, fetch_resync_settles|].
  intros f Hf. destruct (_ <? _); [apply settles_raise|].
  eapply settles_bind; [by apply settles_error, apply_resync_settles|]. intros a _. by apply settles_ret.
Qed.

(** An operation asked for, when only its failure leads further. *)
Lemma fails_ask {A B} (m : stm (manager R) TopologyError.t A) op (f : A -> method B) (g : TopologyError.t -> method B) :
  op_ok op -> (forall s, manager_step op s = ran (m s)) ->
  (forall a w e, (f a w).2 <> Err e) ->
  (forall e, fails_settled (g e)) ->
  fails_settled (r ← ask machine_id sha256 m; match r with Ok a => f a | Err e => g e end).
Proof.
  intros Ho Hm Hf Hg w w' e Hw. unfold ask. unfold mbind at 1, stm_bind at 1.
  rewrite (stm_bind_eq _ _ _ _ _ (alone_pause w Hw)).
  destruct Hw as [[Hs Hsc] Hn]. destruct (m (mgr w)) as [s r'] eqn:E.
  pose proof (steps_one op (mgr w) s Ho ltac:(by rewrite Hm, E)) as Hst.
  set (w1 := mkWorld s (panel w) (maintenance w) (schedule w)).
  destruct r' as [a|e'].
  - intros Ef. destruct (Hf a w1 e). by rewrite Ef.
  - intros Eg. destruct (Hg e' w1 w' e) as [Hw' Hst'].
    { split; [constructor; [by eapply steps_ok|done]|done]. }
    { exact Eg. }
    split; [done|]. eapply settled_trans; [|exact Hst']. left.
    pose proof (step_attempt machine_id sha256 op _ Hs Ho) as Ha.
    rewrite Hm, E in Ha. by inversion Ha as [? ? [Ht _ _ _ _ _]| |]; subst.
Qed.

Lemma refresh_attempts_settles n command c : fails_settled (refresh_attempts machine_id sha256 n command c).
Proof.
  induction n as [|n IH]; cbn [refresh_attempts]; [eapply settles_fails, (settles_raise _ (fun _ => True))|].
  eapply fails_bind; [apply settles_pure, pure_loaded_users|]. intros current _.
  eapply fails_bind; [apply settles_fetch; intros p p' us; apply fetched_users_ok|]. intros desired Hd.
  eapply fails_bind; [apply settles_active|]. intros _ _.
  apply (fails_ask _ (OpRefresh c (UserRefreshRequest.mk (Pb.ControlCommand.node_id command) desired (Some current)
    (Fence (Pb.ControlCommand.base_revision command) (Pb.ControlCommand.revision command))))); [done|done|done|].
  intros e. destruct (bool_decide _); [exact IH|].
  destruct (TopologyError.revision_recovery_required e); [eapply settles_fails, recover_settles|].
  eapply settles_fails, (settles_raise _ (fun _ => True)).
Qed.

Lemma execute_refresh_settles command c : fails_settled (execute_refresh machine_id sha256 command c).
Proof.
  unfold execute_refresh. eapply fails_bind with (Q := fun _ => True).
  - intros w w' r Hw. unfold ask. rewrite (stm_bind_eq _ _ _ _ _ (alone_pause w Hw)).
    pose proof (pure_fence (Pb.ControlCommand.base_revision command) (Pb.ControlCommand.revision command) (mgr w)) as Hp.
    destruct (guard_revision_fence _ _ (mgr w)) as [s r'] eqn:E. cbn in Hp. subst s. intros [= <- <-].
    destruct Hw as [[Hs Hsc] Hn]. split_and!; [by split|by left|done].
  - intros [[]|e] _; [apply refresh_attempts_settles|].
    destruct (TopologyError.revision_recovery_required e); [eapply settles_fails, recover_settles|].
    eapply settles_fails, (settles_raise _ (fun _ => True)).
Qed.

Lemma fails_raise {A} e : fails_settled (A := A) (raise e).
Proof. eapply settles_fails, (settles_raise _ (fun _ => True)). Qed.

Lemma run_policy_settles command : fails_settled (run_policy (R := R) (F := F) from_slice command).
Proof.
  intros w w' e Hw. unfold run_policy. destruct (policy_apply _ _ _) as [flag r']. intros [= <- _].
  destruct Hw as [[Hs Hsc] Hn]. split; [by split|by left].
Qed.

Lemma apply_command_settles command c :
  command_ok command -> fails_settled (apply_command machine_id sha256 from_slice command c).
Proof.
  intros Hok. unfold apply_command. eapply fails_bind; [apply settles_active|]. intros _ _.
  destruct (Pb.ControlCommandType.try_from _) as [[]|]; try apply fails_raise; try apply run_policy_settles;
    try apply execute_refresh_settles;
    destruct (Pb.ControlCommand.payload command) as [[sn|d|m|m| | |p]|] eqn:Ep; try apply fails_raise;
    (destruct (negb _); [apply fails_raise|]).
  - apply (fails_op _ _ (OpSnapshot c (Some sn))); [by unfold command_ok in Hok; rewrite Ep in Hok|done].
  - by apply (fails_op _ _ (OpDelta c (Some d))).
  - by apply (fails_op _ _ (OpUser c (Some m) (Pb.ControlCommand.base_revision command))).
  - by apply (fails_op _ _ (OpRoutePatch c (Some p) (Pb.ControlCommand.base_revision command))).
Qed.

Lemma recovery_settles command c :
  command_ok command -> fails_settled (apply_with_recovery machine_id sha256 from_slice command c).
Proof.
  intros Hok w w' e Hw. unfold apply_with_recovery.
  destruct (apply_command _ _ _ command c w) as [w1 [m|error]] eqn:E; [done|].
  destruct (apply_command_settles command c Hok w w1 _ Hw E) as (Hw1 & Hs1).
  destruct (negb (ApplyFailure.revision_recovery error)); [by intros [= <- _]|].
  match goal with |- ?m w1 = _ -> _ => assert (fails_settled m) as H end.
  { eapply fails_bind; [apply settles_error, resync_settles|]. intros [message current] _.
    destruct (_ || _); [eapply settles_fails; by apply (settles_ret _ (fun _ => True))|].
    eapply fails_bind; [apply settles_active|]. intros _ _.
    intros w2 w3 e3 Hw2 E3.
    unfold mbind, stm_bind in E3. destruct (with_error _ _ w2) as [w4 [r|e4]] eqn:E4; [done|].
    injection E3 as <- <-. eapply fails_error; [apply apply_command_settles; by apply rebase_ok|exact Hw2|exact E4]. }
  intros E2. destruct (H w1 w' e Hw1 E2) as (Hw2 & Hs2). split; [done|by eapply settled_trans].
Qed.

(** A command that is not applied changes nothing: with no other task running, the
    published topology is the one before, or the panel's authoritative topology
    that the recovery of a stale revision fetched. *)
Theorem failed_keeps command c w w' outcome :
  world_ok w -> schedule w = [] -> command_ok command ->
  execute_regular machine_id sha256 from_slice command c w = (w', outcome) ->
  TerminalResult.status outcome <> AckStatus.Applied ->
  topology (mgr w') = topology (mgr w) \/
  exists p p' t, fetch_machine_topology p = (p', Ok t) /\ topology (mgr w') = default_machine machine_id t.
Proof.
  intros Hw Hn Hok. unfold execute_regular.
  destruct (apply_with_recovery _ _ _ command c w) as [w1 [m|e]] eqn:E; intros [= <- <-]; [done|]. intros _.
  by destruct (recovery_settles command c Hok w w1 e (conj Hw Hn) E) as (_ & Hs).
Qed.
End spec.

(** ** Witnesses

    A delta that another lane overtakes between its admission and its operation,
    and is recovered from the panel; and one the data plane refuses. *)
Module ExecutorExample.
Import ManagerExample.

#[local] Existing Instance ManagerExample.plane_runtime.
#[local] Existing Instance ManagerExample.plane_laws.

Definition authoritative : MachineTopology.t := machine 7 [pb_node "n" [pb_user "u" "3"]].

#[local] Instance panel_source : TopologyFetcher unit := {
  fetch_machine_topology := mret authoritative;
  fetch_node_users _ := mret [user "u" "3"]
}.

#[local] Instance panel_source_laws : TopologyFetcherLaws unit.
Proof.
  split.
  - intros [] [] t [= <-]. by apply machine_ok.
  - intros id [] [] us [= <-]. repeat constructor.
Qed.

Definition no_json (s : string) : result string bool := Err s.

Definition delta_command (d : Pb.TopologyDelta.t) : Pb.ControlCommand.t :=
  Pb.ControlCommand.mk "c" "m" "n" (Pb.TopologyDelta.target_revision d) "k" 2 "" "op" (Pb.TopologyDelta.base_revision d)
    (Some (Pb.Payload.TopologyDelta d)).

Definition overtaking : list manager_op := [OpSnapshot None (Some (snapshot 6 [pb_node "n" []]))].

Definition world0 (others : list (list manager_op)) : world plane unit := mkWorld s1 tt false others.
Definition execute (others : list (list manager_op)) (d : Pb.TopologyDelta.t) : world plane unit * TerminalResult.t :=
  execute_regular "m" md no_json (delta_command d) None (world0 others).

Lemma world0_ok others : Forall (Forall op_ok) others -> world_ok (world0 others).
Proof. intros Ho. split; [|done]. apply (reachable_state_ok "m" md); [done|apply s1_reachable]. Qed.

Lemma overtaking_ok : Forall (Forall op_ok) [[]; overtaking].
Proof. repeat constructor; done. Qed.


Lemma applied_reaches_witness :
  5 <= MachineTopology.revision (topology (mgr (execute [[]; overtaking] rotate).1)).
Proof.
  apply (applied_reaches "m" md no_json ltac:(done) (delta_command rotate) None (world0 [[]; overtaking])
    (execute [[]; overtaking] rotate).1 (execute [[]; overtaking] rotate).2);
    [apply world0_ok, overtaking_ok|exact I| |vm_compute; reflexivity|vm_compute; reflexivity].
  unfold execute. by destruct (execute_regular _ _ _ _ _ _).
Defined.

Lemma failed_keeps_witness :
  TerminalResult.status (execute [] add_bad).2 = AckStatus.Failed /\
  (topology (mgr (execute [] add_bad).1) = topology s1 \/
   exists p p' t, fetch_machine_topology (F := unit) p = (p', Ok t) /\
     topology (mgr (execute [] add_bad).1) = default_machine "m" t).
Proof.
  split; [vm_compute; reflexivity|].
  apply (failed_keeps "m" md no_json ltac:(done) (delta_command add_bad) None (world0 [])
    (execute [] add_bad).1 (execute [] add_bad).2);
    [apply world0_ok; constructor|done|exact I| |].
  - unfold execute. by destruct (execute_regular _ _ _ _ _ _).
  - vm_compute. done.
Defined.
End ExecutorExample.
