(* ===== verification/EngineApi.v ===== *)
(** * The engine's interface: [crates/shoes-api/src/lib.rs] and the methods of
    [Engine] in [crates/shoes-engine/src/lib.rs] that the runtime calls

    The runtime ([Runtime.v], [RuntimeTx.v]) is a client of the engine: it sees
    the operations of the class [EngineOps] and the errors of [EngineError].
    JSON and YAML values are those of serde, used through [ValueOps] and
    [YamlOps]. *)

From Stdlib Require Import ZArith.
From S2P Require Import Prelude Credentials.

Open Scope Z_scope.

(** [serde_json::Value]: what the runtime does with one. *)
Class ValueOps (V : Type) : Type := {
  value_eq_dec : EqDecision V;
  value_bool : bool -> V;
  as_object : V -> option (gmap string V);
  of_object : gmap string V -> V
}.
#[export] Existing Instance value_eq_dec.

(** [serde_yaml::Value] *)
Class YamlOps (Y : Type) : Type := {
  yaml_from_slice : string -> result string Y;
  yaml_to_string : Y -> result string string;
  yaml_bool : bool -> Y;
  yaml_is_bool : bool -> Y -> bool;
  yaml_get : string -> Y -> option Y;
  yaml_is_mapping : Y -> bool;
  yaml_insert : string -> Y -> Y -> Y;
  yaml_as_sequence : Y -> option (list Y);
  yaml_of_sequence : list Y -> Y
}.

Module InboundSpec.
Record t (V : Type) : Type := mk {
  tag : string;
  config : V;
  users : option (list UserSpec.t)
}.
Arguments mk {V}. Arguments tag {V}. Arguments config {V}. Arguments users {V}.

Definition set_tag {V} (tag : string) (self : t V) : t V := mk tag (config self) (users self).
Definition set_config {V} (config : V) (self : t V) : t V := mk (tag self) config (users self).
End InboundSpec.

Module InboundInfo.
Record t : Type := mk {
  tag : string;
  protocol : string;
  transport : string;
  bind : list string;
  listeners : nat;
  revision : Z;
  users : option nat
}.
End InboundInfo.

(** An [io::Error] is its text. *)
Module EngineError.
Inductive t : Type :=
  | InvalidConfig (msg : string)
  | DuplicateTag (tag : string)
  | UnknownTag (tag : string)
  | InvalidUser (msg : string)
  | DuplicateCredential (id owner : string)
  | UnknownUser (tag id : string)
  | AddressInUse (address tag : string)
  | Io (e : string)
  | Unsupported (msg : string)
  | ReloadRequired (msg : string).

Definition to_string (self : t) : string :=
  match self with
  | InvalidConfig msg => "invalid inbound config: " +:+ msg
  | DuplicateTag tag => "inbound tag already registered: " +:+ tag
  | UnknownTag tag => "no such inbound tag: " +:+ tag
  | InvalidUser msg => "invalid user: " +:+ msg
  | DuplicateCredential id owner =>
      "cannot add user " +:+ id +:+ ": that credential already belongs to user " +:+ owner
  | UnknownUser tag id => "no such user on inbound " +:+ tag +:+ ": " +:+ id
  | AddressInUse address tag => "address " +:+ address +:+ " is already used by inbound " +:+ tag
  | Io e => e
  | Unsupported msg => "unsupported: " +:+ msg
  | ReloadRequired msg => "inbound must be replaced: " +:+ msg
  end.
End EngineError.

(** [impl Engine]; [E] is the engine, [L] an [InboundReplayLease]. *)
Class EngineOps (E L V : Type) : Type := {
  eng_traffic_analysis_disabled : E -> bool;
  eng_list_inbounds : E -> list InboundInfo.t;
  eng_get_inbound : string -> E -> option InboundInfo.t;
  eng_failed_listener_tags : E -> list string;
  eng_preserve_inbound_replay : string -> E -> result EngineError.t L;
  eng_validate_inbound : InboundSpec.t V -> stm E EngineError.t unit;
  eng_validate_urltest_probe_dns : option V -> stm E EngineError.t unit;
  eng_configure_urltest_probe_dns : option V -> stm E EngineError.t unit;
  eng_rotate_dns_client_generation : E -> E;
  eng_commit_client_chain_group_generation : E -> E;
  eng_add_inbound : InboundSpec.t V -> stm E EngineError.t InboundInfo.t;
  eng_add_inbound_with_replay : InboundSpec.t V -> L -> stm E EngineError.t InboundInfo.t;
  eng_update_inbound : InboundSpec.t V -> stm E EngineError.t InboundInfo.t;
  eng_remove_inbound_hard : string -> stm E EngineError.t InboundInfo.t;
  eng_add_user : string -> UserSpec.t -> stm E EngineError.t UserInfo.t;
  eng_remove_user : string -> string -> stm E EngineError.t UserInfo.t;
  eng_kick_user : string -> string -> stm E EngineError.t Z;
  eng_list_users : string -> E -> result EngineError.t (list UserInfo.t);
  eng_take_user_traffic : string -> string -> stm E EngineError.t UserInfo.t;
  eng_take_nonzero_inbound_traffic : string -> stm E EngineError.t (list UserInfo.t)
}.
