(* ===== verification/PendingTraffic.v ===== *)
(** * Receipts of retired users: [PendingTraffic] of [crates/node-agent/src/runtime.rs]

    The final counters of users whose registry entry is gone, kept until the next
    drain.  A key is reserved before its counter is taken, so a receipt always has
    its place; within a key every observation hour has an entry of its own.

    Theorem: a drain returns every byte the receipts brought, and forgets them, as
    long as no sum exceeds 64 bits.  That the keys stay within the limit is part of
    the runtime's invariant ([RuntimeTheorems.v]). *)

From Stdlib Require Import ZArith Lia.
From S2P Require Import Bytes Traffic TrafficQueue Prelude.

Open Scope Z_scope.

Definition MAX_PENDING_TRAFFIC_KEYS : nat := Z.to_nat 65536.

Module TrafficDrainKey.
Record t : Type := mk { inbound_tag : string; node_id : string; protocol : string; user_id : string }.
#[global] Instance eq_dec : EqDecision t.
Proof. solve_decision. Defined.
#[global] Instance countable : Countable t.
Proof.
  refine (inj_countable'
    (fun k => (inbound_tag k, node_id k, protocol k, user_id k)) (fun '(i, n, p, u) => mk i n p u) _).
  by intros [].
Defined.

Definition from (value : TrafficDrain.t) : t :=
  mk (TrafficDrain.inbound_tag value) (TrafficDrain.node_id value)
    (TrafficDrain.protocol value) (TrafficDrain.user_id value).

(** the derived [Ord] *)
Definition compare (x y : t) : comparison :=
  then_with (String.compare (inbound_tag x) (inbound_tag y))
    (then_with (String.compare (node_id x) (node_id y))
      (then_with (String.compare (protocol x) (protocol y)) (String.compare (user_id x) (user_id y)))).
End TrafficDrainKey.

(** [TrafficDrainEntries]: the receipts of an identity by observation hour. *)
Abbreviation entries := (gmap TrafficDrainKey.t (gmap (option Z) TrafficDrain.t)).

Definition observation_hour (drain : TrafficDrain.t) : option Z :=
  (fun observed_at => observed_at / (60 * 60 * nanos)) <$> TrafficDrain.observed_at drain.

Definition is_zero (drain : TrafficDrain.t) : bool :=
  (TrafficDrain.uplink_bytes drain =? 0) && (TrafficDrain.downlink_bytes drain =? 0).

(** The receipt of an hour that has one already. *)
Definition add_drain (existing drain : TrafficDrain.t) : TrafficDrain.t :=
  TrafficDrain.mk (TrafficDrain.inbound_tag existing) (TrafficDrain.node_id existing)
    (TrafficDrain.user_id existing) (TrafficDrain.protocol existing)
    (sat u64_max (TrafficDrain.uplink_bytes existing + TrafficDrain.uplink_bytes drain))
    (sat u64_max (TrafficDrain.downlink_bytes existing + TrafficDrain.downlink_bytes drain))
    (match TrafficDrain.observed_at existing, TrafficDrain.observed_at drain with
     | Some x, Some y => Some (Z.max x y)
     | Some x, None => Some x
     | None, y => y
     end).

Definition merge_traffic_entry (m : entries) (drain : TrafficDrain.t) : entries :=
  if is_zero drain then m
  else
    let key := TrafficDrainKey.from drain in
    let hour := observation_hour drain in
    let hours := default ∅ (m !! key) in
    <[key := match hours !! hour with
             | Some existing => <[hour := add_drain existing drain]> hours
             | None => <[hour := drain]> hours
             end]> m.

(** [into_values().flat_map(BTreeMap::into_values)]: by key, then by hour, the
    receipts of no hour first. *)
Definition hour_compare (x y : option Z) : comparison :=
  match x, y with
  | None, None => Eq
  | None, Some _ => Lt
  | Some _, None => Gt
  | Some x, Some y => Z.compare x y
  end.

Definition hour_values (hours : gmap (option Z) TrafficDrain.t) : list TrafficDrain.t :=
  (sort_by (fun x y => cmp_leb hour_compare x.1 y.1) (map_to_list hours)).*2.

Definition values (m : entries) : list TrafficDrain.t :=
  flat_map (fun kv => hour_values kv.2)
    (sort_by (fun x y => cmp_leb TrafficDrainKey.compare x.1 y.1) (map_to_list m)).

Module PendingTraffic.
Record t : Type := mk {
  entries_of : entries;
  reserved : gset TrafficDrainKey.t;
  max_keys : nat
}.

Definition new (max_keys : nat) : t := mk ∅ ∅ max_keys.

Definition full_error (self : t) : string :=
  "pending traffic key limit " +:+ to_dec (Z.of_nat (max_keys self))
  +:+ " is full; drain traffic before changing users or inbounds".

(** Whether the caller owns the reservation. *)
Definition reserve (key : TrafficDrainKey.t) : stm t string bool := fun self =>
  if bool_decide (is_Some (entries_of self !! key)) then (self, Ok false)
  else if bool_decide (key ∈ reserved self)
  then (self, Err ("traffic key for inbound " +:+ TrafficDrainKey.inbound_tag key +:+ " user "
                   +:+ TrafficDrainKey.user_id key +:+ " is already reserved"))
  else if (max_keys self <=? size (entries_of self) + size (reserved self))%nat
  then (self, Err (full_error self))
  else (mk (entries_of self) ({[key]} ∪ reserved self) (max_keys self), Ok true).

Definition release (key : TrafficDrainKey.t) (self : t) : t :=
  mk (entries_of self) (reserved self ∖ {[key]}) (max_keys self).

(** [None] is the failed assertion. *)
Definition merge_reserved (drain : TrafficDrain.t) (owns_reservation : bool) (self : t) : option t :=
  let key := TrafficDrainKey.from drain in
  if owns_reservation && negb (bool_decide (key ∈ reserved self)) then None
  else
    let self := if owns_reservation then release key self else self in
    Some (mk (merge_traffic_entry (entries_of self) drain) (reserved self) (max_keys self)).

Definition drain (self : t) : t * list TrafficDrain.t :=
  (mk ∅ (reserved self) (max_keys self), values (entries_of self)).
End PendingTraffic.

(** ** No byte is lost *)

Section totals.
Context (bytes : TrafficDrain.t -> Z).

(** What the entries hold. *)
Definition held (m : entries) : Z := map_total (map_total bytes) m.

Lemma held_values (m : entries) : total bytes (values m) = held m.
Proof.
  unfold values, held, map_total at 1.
  assert (forall l : list (TrafficDrainKey.t * gmap (option Z) TrafficDrain.t),
    total bytes (flat_map (fun kv => hour_values kv.2) l) = total (fun kv => map_total bytes kv.2) l) as Hl.
  { induction l as [|kv l IH]; [done|]. cbn [flat_map]. rewrite total_app, IH, total_cons. f_equal.
    unfold hour_values, map_total. rewrite total_fmap. by rewrite (sort_by_perm _ (map_to_list kv.2)). }
  rewrite Hl. by rewrite (sort_by_perm _ (map_to_list m)).
Qed.

Definition nonneg (m : entries) : Prop :=
  forall k hours, m !! k = Some hours -> forall h x, hours !! h = Some x -> 0 <= bytes x.

Hypothesis Hadd : forall x y, bytes (add_drain x y) = sat u64_max (bytes x + bytes y).
Hypothesis Hzero : forall x, is_zero x = true -> bytes x = 0.

Lemma held_merge m d :
  nonneg m -> 0 <= bytes d -> held m + bytes d <= u64_max ->
  held (merge_traffic_entry m d) = held m + bytes d /\ nonneg (merge_traffic_entry m d).
Proof.
  intros Hn Hd Hmax. unfold merge_traffic_entry. destruct (is_zero d) eqn:Hz; [by rewrite Hzero, Z.add_0_r|].
  set (key := TrafficDrainKey.from d). set (hour := observation_hour d). set (hours := default ∅ (m !! key)).
  assert (forall h x, hours !! h = Some x -> 0 <= bytes x) as Hnh.
  { intros h x. unfold hours. destruct (m !! key) as [hs|] eqn:Hk; [by apply (Hn key)|]. cbn. by rewrite lookup_empty. }
  assert (map_total bytes hours <= held m) as Hle.
  { unfold hours, held. destruct (m !! key) as [hs|] eqn:Hk; cbn.
    - apply (map_total_lookup (map_total bytes) m key hs); [|done]. intros k hs' Hk'. apply map_total_nonneg. by apply (Hn k).
    - apply map_total_nonneg. intros k hs' Hk'. apply map_total_nonneg. by apply (Hn k). }
  set (hours' := match hours !! hour with Some existing => _ | None => _ end).
  assert (map_total bytes hours' = map_total bytes hours + bytes d /\ forall h x, hours' !! h = Some x -> 0 <= bytes x) as [Ht Hn'].
  { unfold hours'. destruct (hours !! hour) as [ex|] eqn:Hh; rewrite map_total_insert, Hh; cbn.
    - pose proof (map_total_lookup bytes hours hour ex Hnh Hh). rewrite Hadd. unfold sat. split; [lia|].
      intros h x. destruct (decide (h = hour)) as [->|Hne]; [|rewrite lookup_insert_ne by done; apply Hnh].
      rewrite lookup_insert_eq. intros [= <-]. rewrite Hadd. unfold sat. pose proof (Hnh _ _ Hh). unfold u64_max. lia.
    - split; [lia|]. intros h x. destruct (decide (h = hour)) as [->|Hne]; [|rewrite lookup_insert_ne by done; apply Hnh].
      rewrite lookup_insert_eq. by intros [= <-]. }
  split.
  - unfold held. rewrite map_total_insert, Ht. unfold hours. destruct (m !! key) as [hs|]; cbn; [lia|].
    change (map_total bytes ∅) with 0. lia.
  - intros k hs. destruct (decide (k = key)) as [->|Hne]; [|rewrite lookup_insert_ne by done; apply Hn].
    rewrite lookup_insert_eq. by intros [= <-].
Qed.

Lemma held_merges ds m :
  nonneg m -> Forall (fun d => 0 <= bytes d) ds -> held m + total bytes ds <= u64_max ->
  held (foldl merge_traffic_entry m ds) = held m + total bytes ds.
Proof.
  revert m. induction ds as [|d ds IH]; intros m Hn Hall; cbn [foldl]; [cbn; lia|].
  rewrite total_cons. intros Hmax. apply Forall_cons in Hall as [Hd Hall].
  assert (0 <= total bytes ds) as Hpos.
  { clear -Hall. induction Hall; [done|]. rewrite total_cons. lia. }
  destruct (held_merge m d Hn Hd) as [He Hn']; [lia|]. rewrite IH, He; [lia|done|done|lia].
Qed.
End totals.

(** No byte of a retired user is lost: a drain of the pending receipts returns
    exactly the upload and the download the receipts brought, by whatever identities
    and hours they were merged, and leaves none behind. *)
Theorem receipts_conserved p ds p' drained :
  PendingTraffic.entries_of p = foldl merge_traffic_entry ∅ ds ->
  Forall (fun d => 0 <= TrafficDrain.uplink_bytes d /\ 0 <= TrafficDrain.downlink_bytes d) ds ->
  total TrafficDrain.uplink_bytes ds <= u64_max -> total TrafficDrain.downlink_bytes ds <= u64_max ->
  PendingTraffic.drain p = (p', drained) ->
  total TrafficDrain.uplink_bytes drained = total TrafficDrain.uplink_bytes ds /\
  total TrafficDrain.downlink_bytes drained = total TrafficDrain.downlink_bytes ds /\
  PendingTraffic.entries_of p' = ∅.
Proof.
  intros He Hall Hu Hd [= <- <-]. rewrite He, !held_values. apply Forall_and in Hall as [Hall1 Hall2].
  assert (forall x, is_zero x = true -> TrafficDrain.uplink_bytes x = 0 /\ TrafficDrain.downlink_bytes x = 0) as Hz.
  { intros x. unfold is_zero. rewrite andb_true_iff, !Z.eqb_eq. done. }
  split_and!; [| |done]; (rewrite held_merges; [done|done|by apply Hz|by intros k hs; rewrite lookup_empty|done|done]).
Qed.
