(* ===== verification/Runtime.v ===== *)
(** * The shoes runtime: its data, [crates/node-agent/src/runtime.rs]

    The candidate configuration ([RuntimeConfig]), its normal form and the
    difference of two normal forms.  The undo journal, the runtime's state and the
    transactions over them are in [RuntimeTx.v].

    The loader of rule sets ([crates/node-agent/src/rule_set.rs]) is the interface
    [RuleSetOps]; the engine is the interface of [EngineApi.v]. *)

From Stdlib Require Import ZArith Lia.
From S2P Require Import Prelude Bytes Traffic TrafficQueue Credentials Manager Adapter EngineApi PendingTraffic.

Open Scope Z_scope.

(** [RuleSetLoader], a [RuleSetResource] and the [PreparedRuleSets] it yields. *)
Class RuleSetOps (L Res Prep V : Type) : Type := {
  rs_is_remote : Res -> bool;
  rs_update_interval : Res -> Z;
  rs_prepare : list Res -> bool -> stm L string Prep;
  rs_digest : Prep -> string;
  rs_rewrite : Prep -> V -> V;
  rs_commit : Prep -> L -> L
}.

(** A Rust panic unwinds through every [?]. *)
Inductive exn (E : Type) : Type :=
  | Fail (e : E)
  | Panic (message : string).
Arguments Fail {E}. Arguments Panic {E}.

Definition map_exn {E E'} (f : E -> E') (x : exn E) : exn E' :=
  match x with Fail e => Fail (f e) | Panic message => Panic message end.

(** [map_err(f)] *)
Definition with_fail {S E E' A} (f : E -> E') (m : stm S (exn E) A) : stm S (exn E') A := fun s =>
  let '(s, r) := m s in (s, map_err (map_exn f) r).

(** A failure handled on the spot. *)
Definition catch {S E E' A} (m : stm S (exn E) A) (handle : E -> result (exn E') A) : stm S (exn E') A := fun s =>
  match m s with
  | (s, Ok a) => (s, Ok a)
  | (s, Err (Fail e)) => (s, handle e)
  | (s, Err (Panic message)) => (s, Err (Panic message))
  end.

(** [expect] *)
Definition expect {S E A} (message : string) (o : option A) : stm S (exn E) A :=
  lift (ok_or (Panic message) o).

(** ** Configurations *)

Section config.
Context {V Y Res : Type} `{!ValueOps V} `{!YamlOps Y}.

Record CompiledInbound : Type := mkCompiled {
  node_id : string;
  protocol : string;
  spec : InboundSpec.t V
}.

(** Digests are byte strings. *)
Record RuntimeConfig : Type := mkConfig {
  inbounds : list CompiledInbound;
  rule_sets : list Res;
  diagnostic_yaml : string;
  dns_client_fingerprint : string;
  urltest_probe_dns : option V
}.

Definition spec_tag (c : CompiledInbound) : string := InboundSpec.tag (spec c).

Definition set_inbound_config (f : V -> V) (c : CompiledInbound) : CompiledInbound :=
  mkCompiled (node_id c) (protocol c)
    (InboundSpec.set_config (f (InboundSpec.config (spec c))) (spec c)).

(** *** [disable_runtime_sniff] *)

Definition no_sniff (config : V) : V :=
  match as_object config with
  | Some m => of_object (<["sniff" := value_bool false]> m)
  | None => config
  end.

(** One inbound of the diagnostic document, and whether it changed. *)
Definition no_sniff_diagnostic (inbound : Y) : Y * bool :=
  match yaml_get "config" inbound with
  | Some config =>
      if yaml_is_mapping config then
        match yaml_get "sniff" config with
        | Some sniff =>
            if yaml_is_bool false sniff then (inbound, false)
            else (yaml_insert "config" (yaml_insert "sniff" (yaml_bool false) config) inbound, true)
        | None => (yaml_insert "config" (yaml_insert "sniff" (yaml_bool false) config) inbound, true)
        end
      else (inbound, false)
  | None => (inbound, false)
  end.

Definition disable_diagnostic_sniff (diagnostic : string) : result string string :=
  if is_empty diagnostic then Ok diagnostic
  else
    document ← map_err (fun error => "decode diagnostic YAML: " +:+ error) (yaml_from_slice diagnostic);
    match yaml_get "inbounds" document ≫= yaml_as_sequence with
    | Some inbounds =>
        let results := no_sniff_diagnostic <$> inbounds in
        if existsb snd results
        then map_err (fun error => "encode diagnostic YAML: " +:+ error)
               (yaml_to_string (yaml_insert "inbounds" (yaml_of_sequence results.*1) document))
        else Ok diagnostic
    | None => Ok diagnostic
    end.

Definition disable_runtime_sniff (config : RuntimeConfig) : result string RuntimeConfig :=
  diagnostic ← disable_diagnostic_sniff (diagnostic_yaml config);
  Ok (mkConfig (set_inbound_config no_sniff <$> inbounds config) (rule_sets config) diagnostic
        (dns_client_fingerprint config) (urltest_probe_dns config)).

(** *** [normalize] *)

Record NormalizedInbound : Type := mkInbound {
  compiled : CompiledInbound;
  users : gmap string UserSpec.t;
  dynamic_users : bool
}.

Record NormalizedConfig : Type := mkNormalized {
  tags : gmap string NormalizedInbound;
  rule_set_digest : string;
  client_fingerprint : string;
  probe_dns : option V;
  diagnostic : string
}.

(** [[0; 32]] *)
Definition zero_digest : string := of_chars (replicate 32 (Ascii.ascii_of_nat 0)).

Definition default_config : NormalizedConfig := mkNormalized ∅ zero_digest zero_digest None "".

Definition inbound_tag (i : NormalizedInbound) : string := spec_tag (compiled i).

Definition normalize_user (tag : string) (acc : result string (gmap string UserSpec.t)) (user : UserSpec.t)
    : result string (gmap string UserSpec.t) :=
  users ← acc;
  match UserSpec.resolved_id user with
  | Some id =>
      if is_empty (trim id) then Err ("inbound " +:+ tag +:+ " contains a user with no id")
      else match users !! id with
           | Some _ => Err ("inbound " +:+ tag +:+ " lists user " +:+ id +:+ " twice")
           | None => Ok (<[id := user]> users)
           end
  | None => Err ("inbound " +:+ tag +:+ " contains a user with no id")
  end.

Definition normalize_inbound (c : CompiledInbound) : result string NormalizedInbound :=
  let tag := trim (spec_tag c) in
  if is_empty tag then Err "inbound tag is required"
  else if is_empty (trim (node_id c)) then Err ("inbound " +:+ tag +:+ " has no node_id")
  else if is_empty (trim (protocol c)) then Err ("inbound " +:+ tag +:+ " has no protocol label")
  else
    users ← foldl (normalize_user tag) (Ok ∅) (default [] (InboundSpec.users (spec c)));
    Ok (mkInbound (mkCompiled (node_id c) (protocol c) (InboundSpec.set_tag tag (spec c))) users
          (bool_decide (is_Some (InboundSpec.users (spec c))))).

Definition normalize_one (acc : result string (gmap string NormalizedInbound)) (c : CompiledInbound)
    : result string (gmap string NormalizedInbound) :=
  m ← acc;
  i ← normalize_inbound c;
  match m !! inbound_tag i with
  | Some _ => Err ("inbound tag " +:+ inbound_tag i +:+ " is listed twice")
  | None => Ok (<[inbound_tag i := i]> m)
  end.

Definition normalize (config : RuntimeConfig) : result string NormalizedConfig :=
  m ← foldl normalize_one (Ok ∅) (inbounds config);
  Ok (mkNormalized m zero_digest (dns_client_fingerprint config) (urltest_probe_dns config)
        (diagnostic_yaml config)).

Definition set_rule_set_digest (digest : string) (c : NormalizedConfig) : NormalizedConfig :=
  mkNormalized (tags c) digest (client_fingerprint c) (probe_dns c) (diagnostic c).

(** *** [diff_configs] *)

Record UserDelta : Type := mkUserDelta { delta_id : string; added : bool; credential_changed : bool }.

Record InboundDelta : Type := mkDelta {
  delta_tag : string;
  config_changed : bool;
  user_mode_changed : bool;
  removed_users : list string;
  upsert_users : list UserDelta
}.

Record ConfigDiff : Type := mkDiff {
  diff_removed : list string;
  diff_added : list string;
  diff_changed : list InboundDelta
}.

Definition same_user (x y : UserSpec.t) : bool :=
  bool_decide (UserSpec.id x = UserSpec.id y) && bool_decide (UserSpec.uuid x = UserSpec.uuid y)
  && bool_decide (UserSpec.password x = UserSpec.password y)
  && bool_decide (UserSpec.enabled x = UserSpec.enabled y)
  && bool_decide (UserSpec.max_conns x = UserSpec.max_conns y)
  && bool_decide (UserSpec.upload_limit_bps x = UserSpec.upload_limit_bps y)
  && bool_decide (UserSpec.download_limit_bps x = UserSpec.download_limit_bps y).

Definition user_credential_changed (x y : UserSpec.t) : bool :=
  negb (bool_decide (UserSpec.uuid x = UserSpec.uuid y))
  || negb (bool_decide (UserSpec.password x = UserSpec.password y)).

Definition user_delta (before : gmap string UserSpec.t) (kv : string * UserSpec.t) : option UserDelta :=
  let '(id, user) := kv in
  match before !! id with
  | None => Some (mkUserDelta id true false)
  | Some old =>
      if same_user old user then None
      else Some (mkUserDelta id false (user_credential_changed old user))
  end.

Definition missing_in {A B} (m : gmap string B) (kv : string * A) : bool :=
  negb (bool_decide (is_Some (m !! kv.1))).

Definition diff_inbound (rule_sets_changed : bool) (tag : string) (before after : NormalizedInbound)
    : option InboundDelta :=
  let user_mode_changed := negb (Bool.eqb (dynamic_users before) (dynamic_users after)) in
  let removed_users := (List.filter (missing_in (users after)) (btree_iter (users before))).*1 in
  let upsert_users := omap (user_delta (users before)) (btree_iter (users after)) in
  let config_changed := rule_sets_changed
    || negb (bool_decide (InboundSpec.config (spec (compiled before))
                          = InboundSpec.config (spec (compiled after)))) in
  if config_changed || user_mode_changed || negb (bool_decide (removed_users = []))
     || negb (match upsert_users with [] => true | _ => false end)
  then Some (mkDelta tag config_changed user_mode_changed removed_users upsert_users)
  else None.

Definition diff_configs (current desired : NormalizedConfig) : ConfigDiff :=
  let rule_sets_changed := negb (bool_decide (rule_set_digest current = rule_set_digest desired)) in
  mkDiff
    (List.filter (missing_in (tags desired)) (btree_iter (tags current))).*1
    (List.filter (missing_in (tags current)) (btree_iter (tags desired))).*1
    (omap (fun '(tag, before) =>
       after ← tags desired !! tag; diff_inbound rule_sets_changed tag before after)
       (btree_iter (tags current))).

(** *** What the engine is given *)

Definition update_spec (i : NormalizedInbound) : InboundSpec.t V :=
  InboundSpec.mk (inbound_tag i) (InboundSpec.config (spec (compiled i))) None.

Definition traffic_observed_at (info : UserInfo.t) : option Z :=
  let millis := UserInfo.last_traffic_observed_at_unix_millis info in
  if millis =? 0 then None else Some (default 0 (checked_time (millis * 1000000))).

Definition traffic_drain (i : NormalizedInbound) (info : UserInfo.t) : TrafficDrain.t :=
  TrafficDrain.mk (inbound_tag i) (node_id (compiled i)) (UserInfo.id info) (protocol (compiled i))
    (UserInfo.rx info) (UserInfo.tx info) (traffic_observed_at info).

Definition traffic_key (i : NormalizedInbound) (user_id : string) : TrafficDrainKey.t :=
  TrafficDrainKey.mk (inbound_tag i) (node_id (compiled i)) (protocol (compiled i)) user_id.

(** A tag that was never published is accounted under its own name. *)
Definition uncommitted_accounting_owner (published : option NormalizedInbound)
    (candidate : NormalizedInbound) : NormalizedInbound :=
  match published with
  | Some published => published
  | None =>
      mkInbound (mkCompiled (inbound_tag candidate) (protocol (compiled candidate))
                   (spec (compiled candidate)))
        (users candidate) (dynamic_users candidate)
  end.
End config.
Arguments CompiledInbound : clear implicits.
Arguments RuntimeConfig : clear implicits.
Arguments NormalizedInbound : clear implicits.
Arguments NormalizedConfig : clear implicits.
