(* ===== verification/RuntimeTx.v ===== *)
(** * The shoes runtime: its transactions, [ShoesRuntime] of [crates/node-agent/src/runtime.rs]

    Every mutating method holds the [apply] mutex, so it is one step over the
    runtime's state and the engine; what other tasks do while [apply_external_owned]
    prepares rule sets (begin closing, drain, disconnect a user) is the field
    [others].  A Rust panic is [Panic]: the task ends and the caller sees
    [join_error].

    Theorems: [RuntimeTheorems.v]. *)

From Stdlib Require Import ZArith Lia.
From S2P Require Import Prelude Bytes Traffic TrafficQueue Credentials Manager Adapter EngineApi PendingTraffic Runtime.

Open Scope Z_scope.

(** Counts of one node. *)
Module ConnectionStats.
Record t : Type := mk { active_connections : Z; online_users : Z }.
Definition default : t := mk 0 0.
End ConnectionStats.

(** ** Failures *)

Module StepFailure.
Record t : Type := mk { operation : string; rollback : list string; changed : bool; restored : bool }.
Definition unchanged (operation : string) : t := mk operation [] false true.
Definition describe (failure : t) : string :=
  match rollback failure with
  | [] => operation failure
  | errors => operation failure +:+ "; local rollback failed: " +:+ join "; " errors
  end.
End StepFailure.

Module UserRemovalFailure.
Record t : Type := mk { message : string; changed : bool; missing : bool }.
End UserRemovalFailure.

Section runtime.
Context {E L V Y Res Ld Prep : Type}.
Context `{!ValueOps V} `{!YamlOps Y} `{!EngineOps E L V} `{!RuleSetOps Ld Res Prep V}.

Local Abbreviation CompiledInbound := (CompiledInbound V).
Local Abbreviation RuntimeConfig := (RuntimeConfig V Res).
Local Abbreviation NormalizedInbound := (NormalizedInbound V).
Local Abbreviation NormalizedConfig := (NormalizedConfig V).

(** [live] is what the engine runs, [accounting] whose traffic it is. *)
Record RetiringInbound : Type := mkRetiring { live_of : NormalizedInbound; accounting_of : NormalizedInbound }.

(** [current = None]: a rollback failed, the engine must be reconciled from
    [recovery] before another candidate. *)
Record AppliedState : Type := mkApplied {
  current : option NormalizedConfig;
  recovery : option NormalizedConfig;
  recovery_live : gmap string RetiringInbound;
  committed : bool;
  closed : bool
}.

Definition applied_default : AppliedState := mkApplied (Some default_config) None ∅ false false.

(** [RuleSetWatcherState]: the watcher's token, cancelled or not. *)
Record watcher : Type := mkWatcher { w_generation : Z; w_cancel : option bool }.

(** What does not take the configuration lock. *)
Inductive quick_op : Type :=
  | QBeginClose
  | QDrain
  | QCloseUser (node_id user_id : string).

Record runtime : Type := mkRuntime {
  engine : E;
  loader : Ld;
  closing : bool;
  rule_set_watcher : watcher;
  state : AppliedState;
  recovery_replay : gmap string L;
  pending_traffic : PendingTraffic.t;
  others : list (list quick_op)
}.

Implicit Types rt : runtime.

Definition from_engine (e : E) (ld : Ld) (others : list (list quick_op)) : runtime :=
  mkRuntime e ld false (mkWatcher 0 None) applied_default ∅
    (PendingTraffic.new MAX_PENDING_TRAFFIC_KEYS) others.

Definition set_engine e rt := mkRuntime e (loader rt) (closing rt) (rule_set_watcher rt) (state rt)
  (recovery_replay rt) (pending_traffic rt) (others rt).
Definition set_loader ld rt := mkRuntime (engine rt) ld (closing rt) (rule_set_watcher rt) (state rt)
  (recovery_replay rt) (pending_traffic rt) (others rt).
Definition set_closing rt := mkRuntime (engine rt) (loader rt) true (rule_set_watcher rt) (state rt)
  (recovery_replay rt) (pending_traffic rt) (others rt).
Definition set_watcher w rt := mkRuntime (engine rt) (loader rt) (closing rt) w (state rt)
  (recovery_replay rt) (pending_traffic rt) (others rt).
Definition set_state s rt := mkRuntime (engine rt) (loader rt) (closing rt) (rule_set_watcher rt) s
  (recovery_replay rt) (pending_traffic rt) (others rt).
Definition set_replay m rt := mkRuntime (engine rt) (loader rt) (closing rt) (rule_set_watcher rt) (state rt)
  m (pending_traffic rt) (others rt).
Definition set_pending_traffic p rt := mkRuntime (engine rt) (loader rt) (closing rt) (rule_set_watcher rt)
  (state rt) (recovery_replay rt) p (others rt).
Definition set_others l rt := mkRuntime (engine rt) (loader rt) (closing rt) (rule_set_watcher rt) (state rt)
  (recovery_replay rt) (pending_traffic rt) l.

(** A method that fails with [F], or panics. *)
Local Abbreviation method F := (stm runtime (exn F)).

(** A call of the engine, its result as a value. *)
Definition ask_engine {F A} (m : stm E EngineError.t A) : method F (result EngineError.t A) := fun rt =>
  let '(e, r) := m (engine rt) in (set_engine e rt, Ok r).

(** [engine.operation(..).map_err(f)?] *)
Definition on_engine {F A} (f : EngineError.t -> F) (m : stm E EngineError.t A) : method F A :=
  r ← ask_engine m; lift (map_err (fun e => Fail (f e)) r).

Definition read_engine {F A} (f : E -> A) : method F A := gets (fun rt => f (engine rt)).
Definition modify_engine {F} (f : E -> E) : method F unit := modify (fun rt => set_engine (f (engine rt)) rt).

(** [!engine.list_inbounds().is_empty()] *)
Definition running rt : bool := match eng_list_inbounds (engine rt) with [] => false | _ => true end.

(** [RuntimeError::unchanged(operation, !engine.list_inbounds().is_empty())] *)
Definition fail_unchanged {A} (operation : string) : method RuntimeError.t A := fun rt =>
  (rt, Err (Fail (RuntimeError.unchanged operation (running rt)))).

(** ** Traffic receipts *)

(** The reservation of a key, and whether it is owned. *)
Definition reserve_traffic (inbound : NormalizedInbound) (user_id : string) : method string bool := fun rt =>
  let '(p, r) := PendingTraffic.reserve (traffic_key inbound user_id) (pending_traffic rt) in
  (set_pending_traffic p rt, map_err Fail r).

(** [Drop for PendingTrafficReservation] *)
Definition drop_reservation (inbound : NormalizedInbound) (user_id : string) (owns : bool) rt : runtime :=
  if owns then
    set_pending_traffic (PendingTraffic.release (traffic_key inbound user_id) (pending_traffic rt)) rt
  else rt.

(** [queue_traffic]: [PendingTrafficReservation::commit] with its assertions. *)
Definition queue_traffic {F} (inbound : NormalizedInbound) (user_id : string) (owns : bool)
    (info : UserInfo.t) : method F unit := fun rt =>
  let drain := traffic_drain inbound info in
  if decide (traffic_key inbound user_id = TrafficDrainKey.from drain) then
    match PendingTraffic.merge_reserved drain owns (pending_traffic rt) with
    | Some p => (set_pending_traffic p rt, Ok tt)
    | None => (rt, Err (Panic "traffic reservation disappeared before its receipt committed"))
    end
  else (rt, Err (Panic "traffic receipt metadata differs from its reservation")).

Definition remove_user_with_retry (tag user_id : string) : method UserRemovalFailure.t UserInfo.t :=
  removed ← ask_engine (eng_remove_user tag user_id);
  match removed with
  | Ok info => mret info
  | Err (EngineError.Io e) =>
      on_engine (fun retry => UserRemovalFailure.mk
        ("user removal finalizer failed: " +:+ e +:+ "; retry final receipt: "
         +:+ EngineError.to_string retry) true false)
        (eng_remove_user tag user_id)
  | Err error =>
      raise (Fail (UserRemovalFailure.mk (EngineError.to_string error) false
        (match error with EngineError.UnknownUser _ _ => true | _ => false end)))
  end.

(** A receipt collected: the key reserved, the counters taken by [take], the
    receipt committed, or the reservation dropped. *)
Definition collect {F} (inbound : NormalizedInbound) (user_id : string) (refused : string -> F)
    (take : method F UserInfo.t) : method F unit :=
  owns ← with_fail refused (reserve_traffic inbound user_id);
  ((fun rt =>
      match take rt with
      | (rt, Ok info) => queue_traffic inbound user_id owns info rt
      | (rt, Err x) => (drop_reservation inbound user_id owns rt, Err x)
      end) : method F unit).

(** One user retired. *)
Definition retire_user {F} (inbound : NormalizedInbound) (tag user_id : string)
    (refused : string -> F) (failed : UserRemovalFailure.t -> F) : method F unit :=
  collect inbound user_id refused (with_fail failed (remove_user_with_retry tag user_id)).

(** [restore_users]: the last removed first. *)
Fixpoint restore_users_from (tag : string) (users : list UserSpec.t) rt : runtime * list string :=
  match users with
  | [] => (rt, [])
  | user :: rest =>
      let id := default "<unknown>" (UserSpec.resolved_id user) in
      let '(e, r) := eng_add_user tag user (engine rt) in
      let '(rt, errors) := restore_users_from tag rest (set_engine e rt) in
      (rt, match r with
           | Ok _ => errors
           | Err error => ("restore user " +:+ id +:+ " on " +:+ tag +:+ ": " +:+ EngineError.to_string error)
                          :: errors
           end)
  end.
Definition restore_users (tag : string) (users : list UserSpec.t) rt : runtime * list string :=
  restore_users_from tag (rev users) rt.

(** ** Stopping a listener *)

(** A failure inside [stop_inbound_with_owners]: what was removed comes back. *)
Definition fail_restoring {A} (tag : string) (removed : list UserSpec.t)
    (operation : string) (uncertain : bool) : method StepFailure.t A := fun rt =>
  let '(rt, rollback) := restore_users tag removed rt in
  (rt, Err (Fail (StepFailure.mk operation rollback
         (uncertain || negb (match removed with [] => true | _ => false end))
         (negb uncertain && match rollback with [] => true | _ => false end)))).

(** [for live_user in live_users] *)
Fixpoint retire_users (tag : string) (registry accounting : NormalizedInbound)
    (live_users : list UserInfo.t) (removed : list UserSpec.t) : method StepFailure.t (list UserSpec.t) :=
  match live_users with
  | [] => mret removed
  | live_user :: rest =>
      let id := UserInfo.id live_user in
      match users registry !! id with
      | None =>
          fail_restoring tag removed ("cannot remove inbound " +:+ tag +:+ ": live user " +:+ id
                                      +:+ " is absent from AppliedState") false
      | Some spec => fun rt =>
          match retire_user accounting tag id
                  (fun error => ("reserve final traffic for user " +:+ id +:+ " while stopping inbound "
                                 +:+ tag +:+ ": " +:+ error, false))
                  (fun error => ("remove user " +:+ id +:+ " before stopping inbound " +:+ tag +:+ ": "
                                 +:+ UserRemovalFailure.message error, UserRemovalFailure.changed error)) rt with
          | (rt, Ok tt) => retire_users tag registry accounting rest (removed ++ [spec]) rt
          | (rt, Err (Fail (operation, uncertain))) => fail_restoring tag removed operation uncertain rt
          | (rt, Err (Panic message)) => (rt, Err (Panic message))
          end
      end
  end.

Definition stop_inbound_with_owners (listener registry accounting : NormalizedInbound)
    : method StepFailure.t unit :=
  let tag := inbound_tag listener in
  listed ← read_engine (eng_list_users tag);
  live_users ← match listed with
    | Ok users => mret users
    | Err (EngineError.Unsupported _) => mret []
    | Err error => raise (Fail (StepFailure.unchanged ("list users before removing inbound " +:+ tag +:+ ": "
                                                       +:+ EngineError.to_string error)))
    end;
  removed ← retire_users tag registry accounting live_users [];
  stopped ← ask_engine (eng_remove_inbound_hard tag);
  match stopped with
  | Ok _ => mret tt
  | Err error => fail_restoring tag removed ("remove inbound " +:+ tag +:+ ": " +:+ EngineError.to_string error) false
  end.

Definition stop_inbound (inbound : NormalizedInbound) : method StepFailure.t unit :=
  stop_inbound_with_owners inbound inbound inbound.

(** ** Replacing a listener *)

Definition start (inbound : NormalizedInbound) (replay : L) : stm E EngineError.t InboundInfo.t :=
  eng_add_inbound_with_replay (spec (compiled inbound)) replay.

Definition replace_inbound_with_replay_owners (current registry accounting new : NormalizedInbound)
    (replay : L) : method StepFailure.t unit :=
  _ ← stop_inbound_with_owners current registry accounting;
  started ← ask_engine (start new replay);
  match started with
  | Ok _ => mret tt
  | Err operation =>
      let operation := "start replacement inbound " +:+ inbound_tag new +:+ ": "
                       +:+ EngineError.to_string operation in
      restored ← ask_engine (start current replay);
      match restored with
      | Ok _ => raise (Fail (StepFailure.mk operation [] true true))
      | Err rollback =>
          raise (Fail (StepFailure.mk operation
            ["restore inbound " +:+ inbound_tag current +:+ ": " +:+ EngineError.to_string rollback] true false))
      end
  end.

Definition replace_inbound (old new : NormalizedInbound) : method StepFailure.t unit :=
  replay ← on_engine (fun error => StepFailure.unchanged ("preserve replay state for inbound "
               +:+ inbound_tag old +:+ ": " +:+ EngineError.to_string error))
             (fun e => (e, eng_preserve_inbound_replay (inbound_tag old) e));
  replace_inbound_with_replay_owners old old old new replay.

(** ** The undo journal *)

Inductive Undo : Type :=
  | AddInbound (inbound : NormalizedInbound) (replay : L)
  | RemoveInbound (live accounting : NormalizedInbound)
  | RestoreHotConfig (current previous : NormalizedInbound) (replay : L)
  | AddUser (inbound : NormalizedInbound) (user : UserSpec.t)
  | RemoveUser (live accounting : NormalizedInbound) (user_id : string)
  | RestoreUser (inbound : NormalizedInbound) (user : UserSpec.t) (kick : bool).

(** The transaction's state: the journal, oldest entry first, and the runtime. *)
Local Abbreviation transaction := (list Undo * runtime)%type.
Local Abbreviation step := (stm transaction (exn StepFailure.t)).

Definition during {A} (m : method StepFailure.t A) : step A := fun '(journal, rt) =>
  let '(rt, r) := m rt in ((journal, rt), r).

Definition journal (u : Undo) : step unit := modify (fun '(journal, rt) => (journal ++ [u], rt)).

(** [Err((StepFailure::unchanged(..), journal))] *)
Definition unchanged_step {A} (what : string) (error : string) : step A :=
  raise (Fail (StepFailure.unchanged (what +:+ ": " +:+ error))).

(** An engine call whose failure leaves the engine alone. *)
Definition try_step {A} (what : string) (m : stm E EngineError.t A) : step A :=
  r ← during (ask_engine m);
  match r with
  | Ok a => mret a
  | Err error => unchanged_step what (EngineError.to_string error)
  end.

Definition preserve (what tag : string) : step L :=
  try_step (what +:+ tag) (fun e => (e, eng_preserve_inbound_replay tag e)).

(** ** [execute_apply] *)

Definition remove_old (current : NormalizedConfig) (tag : string) : step unit :=
  old ← expect "diff tag exists" (tags current !! tag);
  replay ← preserve "preserve replay state for inbound " tag;
  _ ← during (stop_inbound old);
  journal (AddInbound old replay).

(** A listener to be replaced. *)
Record replacement : Type := mkReplacement {
  r_tag : string; r_old : NormalizedInbound; r_new : NormalizedInbound; r_replay : L
}.

(** The first loop over the changed inbounds: in place, or to be replaced. *)
Fixpoint classify (current desired : NormalizedConfig) (deltas : list InboundDelta)
    (replacements : list replacement) : step (list replacement) :=
  match deltas with
  | [] => mret replacements
  | delta :: rest =>
      let tag := delta_tag delta in
      old ← expect "diff tag exists" (tags current !! tag);
      new ← expect "diff tag exists" (tags desired !! tag);
      replacements ←
        if user_mode_changed delta then
          replay ← preserve "preserve replay state before replacing inbound " tag;
          mret (replacements ++ [mkReplacement tag old new replay])
        else if config_changed delta then
          replay ← preserve "preserve replay state before updating inbound " tag;
          updated ← during (ask_engine (eng_update_inbound (update_spec new)));
          match updated with
          | Ok _ => _ ← journal (RestoreHotConfig new old replay); mret replacements
          | Err (EngineError.ReloadRequired _) => mret (replacements ++ [mkReplacement tag old new replay])
          | Err error => unchanged_step ("update inbound " +:+ tag) (EngineError.to_string error)
          end
        else mret replacements;
      classify current desired rest replacements
  end.

Definition stop_replaced (r : replacement) : step unit :=
  _ ← during (stop_inbound (r_old r));
  journal (AddInbound (r_old r) (r_replay r)).

Definition start_replacement (r : replacement) : step unit :=
  _ ← try_step ("start replacement inbound " +:+ r_tag r) (start (r_new r) (r_replay r));
  journal (RemoveInbound (r_new r) (r_old r)).

Definition remove_old_user (tag : string) (old : NormalizedInbound) (id : string) : step unit :=
  old_user ← expect "diff user exists" (users old !! id);
  _ ← during (retire_user old tag id
        (fun error => StepFailure.unchanged ("reserve final traffic for user " +:+ id +:+ " on "
                                             +:+ tag +:+ ": " +:+ error))
        (fun error => StepFailure.mk ("remove user " +:+ id +:+ " from " +:+ tag +:+ ": "
                                      +:+ UserRemovalFailure.message error) []
                        (UserRemovalFailure.changed error) (negb (UserRemovalFailure.changed error))));
  journal (AddUser old old_user).

Definition upsert_user (tag : string) (old new : NormalizedInbound) (change : UserDelta) : step unit :=
  let id := delta_id change in
  new_user ← expect "diff user exists" (users new !! id);
  _ ← try_step ("upsert user " +:+ id +:+ " on " +:+ tag) (eng_add_user tag new_user);
  _ ← if added change then journal (RemoveUser new old id)
      else
        old_user ← expect "updated user existed" (users old !! id);
        journal (RestoreUser old old_user (credential_changed change));
  if credential_changed change then
    _ ← try_step ("kick stale sessions for user " +:+ id +:+ " on " +:+ tag) (eng_kick_user tag id); mret tt
  else mret tt.

(** The second loop: users of the listeners that stayed live. *)
Definition reconcile_users (current desired : NormalizedConfig) (replaced : list string)
    (delta : InboundDelta) : step unit :=
  let tag := delta_tag delta in
  if bool_decide (tag ∈ replaced) then mret tt
  else
    old ← expect "diff tag exists" (tags current !! tag);
    new ← expect "diff tag exists" (tags desired !! tag);
    _ ← for_in (removed_users delta) (remove_old_user tag old);
    for_in (upsert_users delta) (upsert_user tag old new).

Definition add_new (desired : NormalizedConfig) (tag : string) : step unit :=
  new ← expect "diff tag exists" (tags desired !! tag);
  _ ← try_step ("add inbound " +:+ tag) (eng_add_inbound (spec (compiled new)));
  journal (RemoveInbound new (uncommitted_accounting_owner None new)).

(** One inbound of [flush_changed_traffic_metadata]. *)
Definition flush_metadata_user (tag : string) (old : NormalizedInbound) (user : UserInfo.t)
    : method StepFailure.t unit :=
  let id := UserInfo.id user in
  collect old id
    (fun error => StepFailure.unchanged ("reserve old traffic for user " +:+ id
       +:+ " before changing ownership metadata for inbound " +:+ tag +:+ ": " +:+ error))
    (on_engine (fun error => StepFailure.unchanged ("take old traffic for user " +:+ id
       +:+ " before changing ownership metadata for inbound " +:+ tag +:+ ": "
       +:+ EngineError.to_string error)) (eng_take_user_traffic tag id)).

Definition flush_metadata_inbound (desired : NormalizedConfig) (replaced : list string)
    (kv : string * NormalizedInbound) : method StepFailure.t unit :=
  let '(tag, old) := kv in
  if bool_decide (tag ∈ replaced) then mret tt
  else
    match tags desired !! tag with
    | None => mret tt
    | Some new =>
        if bool_decide (node_id (compiled old) = node_id (compiled new))
           && bool_decide (protocol (compiled old) = protocol (compiled new))
        then mret tt
        else
          listed ← read_engine (eng_list_users tag);
          match listed with
          | Ok users => for_in users (flush_metadata_user tag old)
          | Err (EngineError.Unsupported _) => mret tt
          | Err error => raise (Fail (StepFailure.unchanged
              ("list users before changing ownership metadata for inbound " +:+ tag +:+ ": "
               +:+ EngineError.to_string error)))
          end
    end.

Definition flush_changed_traffic_metadata (previous desired : NormalizedConfig) (replaced : list string)
    : method StepFailure.t unit :=
  for_in (btree_iter (tags previous)) (flush_metadata_inbound desired replaced).

(** ** [execute_full_reload] *)

Fixpoint stop_all (olds : list (string * NormalizedInbound)) (replay_by_tag : gmap string L)
    : step (gmap string L) :=
  match olds with
  | [] => mret replay_by_tag
  | (tag, old) :: rest =>
      replay ← preserve "preserve replay state for inbound " tag;
      _ ← during (stop_inbound old);
      _ ← journal (AddInbound old replay);
      stop_all rest (<[tag := replay]> replay_by_tag)
  end.

Definition start_candidate (current : NormalizedConfig) (replay_by_tag : gmap string L)
    (kv : string * NormalizedInbound) : step unit :=
  let '(tag, candidate) := kv in
  _ ← try_step ("start full-reload candidate inbound " +:+ tag)
        (match replay_by_tag !! tag with
         | Some replay => start candidate replay
         | None => eng_add_inbound (spec (compiled candidate))
         end);
  journal (RemoveInbound candidate (uncommitted_accounting_owner (tags current !! tag) candidate)).

Definition execute_full_reload (current desired : NormalizedConfig) : step unit :=
  replay_by_tag ← stop_all (btree_iter (tags current)) ∅;
  for_in (btree_iter (tags desired)) (start_candidate current replay_by_tag).

Definition execute_apply (current desired : NormalizedConfig) (force_config_reload : bool) : step unit :=
  if force_config_reload then execute_full_reload current desired
  else
    let diff := diff_configs current desired in
    _ ← for_in (diff_removed diff) (remove_old current);
    replacements ← classify current desired (diff_changed diff) [];
    _ ← for_in replacements stop_replaced;
    _ ← for_in replacements start_replacement;
    let replaced := r_tag <$> replacements in
    _ ← for_in (diff_changed diff) (reconcile_users current desired replaced);
    _ ← for_in (diff_added diff) (add_new desired);
    during (flush_changed_traffic_metadata current desired replaced).

(** ** Rolling back *)

Local Abbreviation owners := (gmap string RetiringInbound).

Definition published (i : NormalizedInbound) : RetiringInbound := mkRetiring i i.

(** One entry undone; with it, the owners of the listeners it leaves running. *)
Definition undo (u : Undo) (recovery_live : owners) : method string owners :=
  match u with
  | AddInbound inbound replay =>
      let tag := inbound_tag inbound in
      _ ← on_engine (fun error => "restore inbound " +:+ tag +:+ ": " +:+ EngineError.to_string error)
            (start inbound replay);
      mret (<[tag := published inbound]> recovery_live)
  | RemoveInbound live accounting =>
      _ ← with_fail (fun failure => "remove candidate: " +:+ StepFailure.describe failure)
            (stop_inbound_with_owners live live accounting);
      mret (delete (inbound_tag live) recovery_live)
  | RestoreHotConfig current previous replay =>
      _ ← with_fail StepFailure.describe
            (replace_inbound_with_replay_owners current previous previous previous replay);
      mret (<[inbound_tag previous := published previous]> recovery_live)
  | AddUser inbound user =>
      let tag := inbound_tag inbound in
      let id := default "<unknown>" (UserSpec.resolved_id user) in
      _ ← on_engine (fun error => "restore user " +:+ id +:+ " on " +:+ tag +:+ ": " +:+ EngineError.to_string error)
            (eng_add_user tag user);
      mret recovery_live
  | RemoveUser live accounting user_id =>
      let tag := inbound_tag live in
      _ ← retire_user accounting tag user_id
            (fun error => "reserve candidate user " +:+ user_id +:+ " traffic on " +:+ tag +:+ ": " +:+ error)
            (fun error => "remove candidate user " +:+ user_id +:+ " from " +:+ tag +:+ ": "
                          +:+ UserRemovalFailure.message error);
      mret recovery_live
  | RestoreUser inbound user kick =>
      let tag := inbound_tag inbound in
      let id := default "<unknown>" (UserSpec.resolved_id user) in
      _ ← on_engine (fun error => "restore user " +:+ id +:+ " on " +:+ tag +:+ ": " +:+ EngineError.to_string error)
            (eng_add_user tag user);
      if kick then
        _ ← on_engine (fun error => "kick candidate sessions for " +:+ id +:+ " on " +:+ tag +:+ ": "
                                    +:+ EngineError.to_string error)
              (eng_kick_user tag id);
        mret recovery_live
      else mret recovery_live
  end.

(** The listener a failed undo may leave behind. *)
Definition survivor (u : Undo) : option RetiringInbound :=
  match u with
  | AddInbound _ _ | AddUser _ _ | RestoreUser _ _ _ => None
  | RemoveInbound live accounting | RemoveUser live accounting _ => Some (mkRetiring live accounting)
  | RestoreHotConfig current previous _ => Some (mkRetiring current previous)
  end.

Definition note_survivor (u : Undo) (e : E) (recovery_live : owners) : owners :=
  match survivor u with
  | Some inbound =>
      let tag := inbound_tag (live_of inbound) in
      match eng_get_inbound tag e with
      | Some _ => <[tag := inbound]> recovery_live
      | None => recovery_live
      end
  | None => recovery_live
  end.

(** [while let Some(undo) = journal.pop()]: [popped] is the journal, last entry first. *)
Fixpoint rollback_from {F} (popped : list Undo) (errors : list string) (recovery_live : owners)
    : method F (list string * owners) := fun rt =>
  match popped with
  | [] => (rt, Ok (errors, match errors with [] => ∅ | _ => recovery_live end))
  | u :: rest =>
      match undo u recovery_live rt with
      | (rt, Ok recovery_live) => rollback_from rest errors recovery_live rt
      | (rt, Err (Fail error)) =>
          rollback_from rest (errors ++ [error]) (note_survivor u (engine rt) recovery_live) rt
      | (rt, Err (Panic message)) => (rt, Err (Panic message))
      end
  end.

Definition rollback_journal {F} (journal : list Undo) : method F (list string * owners) :=
  rollback_from (rev journal) [] ∅.

(** [DnsReloadContext] *)
Record dns_reload : Type := mkDns { client_rotated : bool; full_reload : bool }.

(** One inbound of the refresh after a rollback: the errors it adds. *)
Definition refresh_rolled_back {F} (inbound : NormalizedInbound) : method F (list string) :=
  let tag := inbound_tag inbound in
  updated ← ask_engine (eng_update_inbound (update_spec inbound));
  match updated with
  | Ok _ => mret []
  | Err (EngineError.ReloadRequired _) =>
      catch (_ ← replace_inbound inbound inbound; mret [])
        (fun failure => Ok ["rebuild rollback DNS state for " +:+ tag +:+ ": " +:+ StepFailure.describe failure])
  | Err error => mret ["refresh rollback DNS state for " +:+ tag +:+ ": " +:+ EngineError.to_string error]
  end.

Fixpoint refresh_all {F} (inbounds : list NormalizedInbound) (rollback : list string)
    : method F (list string) :=
  match inbounds with
  | [] => mret rollback
  | inbound :: rest => errors ← refresh_rolled_back inbound; refresh_all rest (rollback ++ errors)
  end.

Definition inbound_values (c : NormalizedConfig) : list NormalizedInbound := (btree_iter (tags c)).*2.

Definition no_inbounds (c : NormalizedConfig) : bool := bool_decide (tags c = ∅).

(** What is left of the previous configuration. *)
Definition known_state (previous : NormalizedConfig) s : AppliedState :=
  mkApplied (Some previous) None ∅ (committed s) (closed s).
Definition unknown_state (previous : NormalizedConfig) (recovery_live : owners) s : AppliedState :=
  mkApplied None (Some previous) recovery_live (committed s) (closed s).

Definition finish_failed_transaction {A} (previous : NormalizedConfig) (previous_replay : gmap string L)
    (failure : StepFailure.t) (entries : list Undo) (dns : dns_reload) : method RuntimeError.t A :=
  let restoration_attempted := full_reload dns || StepFailure.changed failure
    || negb (match entries with [] => true | _ => false end) in
  let had_previous_topology := negb (no_inbounds previous) in
  rollback ←
    if full_reload dns then
      _ ← modify_engine eng_rotate_dns_client_generation;
      restored ← ask_engine (eng_configure_urltest_probe_dns (probe_dns previous));
      mret (StepFailure.rollback failure ++
            match restored with
            | Ok _ => []
            | Err error => ["restore generation-global URLTest probe DNS: " +:+ EngineError.to_string error]
            end)
    else mret (StepFailure.rollback failure);
  '(journal_errors, recovery_live) ← rollback_journal entries;
  let rollback := rollback ++ journal_errors in
  rollback ←
    if client_rotated dns && StepFailure.restored failure && match rollback with [] => true | _ => false end
    then refresh_all (inbound_values previous) rollback
    else mret rollback;
  let fully_restored := StepFailure.restored failure && match rollback with [] => true | _ => false end in
  let rolled_back := fully_restored && restoration_attempted && had_previous_topology in
  let state_unchanged := fully_restored && negb restoration_attempted in
  _ ← modify (fun rt => set_state
        (if fully_restored then known_state previous (state rt)
         else unknown_state previous recovery_live (state rt)) rt);
  _ ← if fully_restored then
        _ ← modify (set_replay ∅); modify_engine eng_commit_client_chain_group_generation
      else modify (set_replay previous_replay);
  raise (Fail (RuntimeError.failed (StepFailure.operation failure) rollback rolled_back state_unchanged
                 fully_restored)).

(** ** Recovery *)

Definition publish_recovery_live {F} (recovery_live : owners) : method F unit :=
  modify (fun rt => set_state (mkApplied (current (state rt)) (recovery (state rt)) recovery_live
                                 (committed (state rt)) (closed (state rt))) rt).

(** The ids to retire before a listener is stopped: those listed and, for a known
    dynamic listener, those configured, whose final receipt may be outstanding. *)
Definition ids_to_retire (known : option RetiringInbound) (listed : list UserInfo.t) : gset string :=
  list_to_set (UserInfo.id <$> listed) ∪
  match known with
  | Some inbound =>
      if dynamic_users (live_of inbound)
      then dom (users (live_of inbound)) ∪ dom (users (accounting_of inbound)) else ∅
  | None => ∅
  end.

(** A [BTreeSet] is iterated in order. *)
Definition btree_set_iter (s : gset string) : list string := sort_by_key id (elements s).

Definition force_retire (tag : string) (known : option RetiringInbound) (user_id : string) : method string unit :=
  inbound ← expect "an untracked inbound with users was rejected above" known;
  catch
    (retire_user (accounting_of inbound) tag user_id
       (fun error => ("reserve final traffic for user " +:+ user_id +:+ " while stopping " +:+ tag
                      +:+ ": " +:+ error, false))
       (fun error => ("remove user " +:+ user_id +:+ " while stopping " +:+ tag +:+ ": "
                      +:+ UserRemovalFailure.message error,
                      UserRemovalFailure.missing error && negb (UserRemovalFailure.changed error))))
    (fun '(message, collected) => if collected : bool then Ok tt else Err (Fail message)).

Definition force_stop_tag (tag : string) (known : option RetiringInbound) : method string unit :=
  listed ← read_engine (eng_list_users tag);
  _ ← match listed with
      | Ok users =>
          let ids := ids_to_retire known users in
          if bool_decide (known = None) && negb (bool_decide (ids = ∅))
          then raise (Fail ("cannot safely stop untracked inbound " +:+ tag
                            +:+ ": traffic ownership metadata is unavailable"))
          else for_in (btree_set_iter ids) (force_retire tag known)
      | Err (EngineError.Unsupported _) => mret tt
      | Err error => raise (Fail ("list users while stopping " +:+ tag +:+ ": " +:+ EngineError.to_string error))
      end;
  _ ← on_engine (fun error => "remove inbound " +:+ tag +:+ ": " +:+ EngineError.to_string error)
        (eng_remove_inbound_hard tag);
  mret tt.

(** The owners of what the engine runs: those kept, then the recovery configuration's. *)
Definition owners_of (recovery : NormalizedConfig) (live : list InboundInfo.t) (kept : owners) : owners :=
  let live_tags := InboundInfo.tag <$> live in
  foldl (fun m tag =>
      match m !! tag, tags recovery !! tag with
      | None, Some inbound => <[tag := published inbound]> m
      | _, _ => m
      end)
    (filter (fun kv => kv.1 ∈ live_tags) kept) live_tags.

Fixpoint stop_live {F} (live : list InboundInfo.t) (recovery_live : owners) (errors : list string)
    : method F (owners * list string) := fun rt =>
  match live with
  | [] => (rt, Ok (recovery_live, errors))
  | info :: rest =>
      let tag := InboundInfo.tag info in
      match force_stop_tag tag (recovery_live !! tag) rt with
      | (rt, Ok _) =>
          let recovery_live := delete tag recovery_live in
          (_ ← publish_recovery_live recovery_live; stop_live rest recovery_live errors) rt
      | (rt, Err (Fail error)) => stop_live rest recovery_live (errors ++ [error]) rt
      | (rt, Err (Panic message)) => (rt, Err (Panic message))
      end
  end.

(** [RuntimeError::failed(operation, rollback, false, false, running)] *)
Definition fail_indeterminate {A} (operation : string) (errors : list string) (is_running : runtime -> bool)
    : method RuntimeError.t A := fun rt =>
  (rt, Err (Fail (RuntimeError.failed operation errors false false (is_running rt)))).

Fixpoint rebuild (inbounds : list NormalizedInbound) (replay : gmap string L) (recovery_live : owners)
    : method RuntimeError.t unit :=
  match inbounds with
  | [] => mret tt
  | inbound :: rest =>
      let tag := inbound_tag inbound in
      match replay !! tag with
      | None => fail_indeterminate ("restore recovery inbound " +:+ tag
                  +:+ ": replay namespace was not retained") [] (fun _ => false)
      | Some lease =>
          started ← ask_engine (start inbound lease);
          match started with
          | Err error => fail_indeterminate ("restore recovery inbound " +:+ tag +:+ ": "
                           +:+ EngineError.to_string error) [] running
          | Ok _ =>
              let recovery_live := <[tag := published inbound]> recovery_live in
              _ ← publish_recovery_live recovery_live;
              rebuild rest replay recovery_live
          end
      end
  end.

Definition recover_if_needed : method RuntimeError.t unit :=
  s ← gets state;
  match current s with
  | Some _ => mret tt
  | None =>
      let target := default default_config (recovery s) in
      replay ← gets recovery_replay;
      live ← read_engine eng_list_inbounds;
      let recovery_live := owners_of target live (recovery_live s) in
      _ ← publish_recovery_live recovery_live;
      '(recovery_live, errors) ← stop_live live recovery_live [];
      _ ← if bool_decide (errors = []) then mret tt
          else fail_indeterminate "clean up an indeterminate runtime before recovery" errors running;
      _ ← modify_engine eng_rotate_dns_client_generation;
      configured ← ask_engine (eng_configure_urltest_probe_dns (probe_dns target));
      _ ← match configured with
          | Ok _ => mret tt
          | Err error => fail_indeterminate ("restore generation-global URLTest probe DNS: "
                           +:+ EngineError.to_string error) [] (fun _ => false)
          end;
      _ ← rebuild (inbound_values target) replay recovery_live;
      _ ← modify (fun rt => set_state (known_state target (state rt)) rt);
      _ ← modify (set_replay ∅);
      modify_engine eng_commit_client_chain_group_generation
  end.

(** ** One transaction *)

Fixpoint capture_replay_state (config : NormalizedConfig) (inbound_tags : list string) (replay : gmap string L)
    : method RuntimeError.t (gmap string L) :=
  match inbound_tags with
  | [] => mret replay
  | tag :: rest =>
      lease ← on_engine (fun error => RuntimeError.unchanged ("preserve replay state for inbound " +:+ tag
                  +:+ ": " +:+ EngineError.to_string error) (negb (no_inbounds config)))
                (fun e => (e, eng_preserve_inbound_replay tag e));
      capture_replay_state config rest (<[tag := lease]> replay)
  end.

(** [RuntimeError::unchanged] for a refusal of the engine. *)
Definition preflight (what : string) (m : stm E EngineError.t unit) : method RuntimeError.t unit :=
  r ← ask_engine m;
  match r with
  | Ok _ => mret tt
  | Err error => fail_unchanged (what +:+ ": " +:+ EngineError.to_string error)
  end.

(** The candidate in normal form, with its prepared rule sets. *)
Definition desired_config (sniff_disabled : bool) (prepared : Prep) (config : RuntimeConfig)
    : result string NormalizedConfig :=
  config ← if sniff_disabled
           then map_err (fun error => "disable runtime sniff: " +:+ error) (disable_runtime_sniff config)
           else Ok config;
  let rewrite := rs_rewrite prepared in
  let config := match rule_sets config with
    | [] => config
    | _ => mkConfig (set_inbound_config rewrite <$> inbounds config) (rule_sets config)
             (diagnostic_yaml config) (dns_client_fingerprint config) (rewrite <$> urltest_probe_dns config)
    end in
  desired ← map_err (fun error => "normalize runtime config: " +:+ error) (normalize config);
  Ok (set_rule_set_digest (rs_digest prepared) desired).

(** What the configuration of the probe resolver leads to. *)
Definition run_transaction (previous desired : NormalizedConfig) (dns : dns_reload) (configure : bool)
    : stm transaction (exn StepFailure.t) unit :=
  _ ← if configure
      then try_step "configure generation-global URLTest probe DNS"
             (eng_configure_urltest_probe_dns (probe_dns desired))
      else mret tt;
  execute_apply previous desired (full_reload dns).

Definition apply_transaction_locked (config : RuntimeConfig) (prepared : Prep) (force_reload : bool)
    : method RuntimeError.t unit :=
  closing ← gets closing;
  s ← gets state;
  _ ← if closing || closed s : bool then fail_unchanged "runtime is closed" else mret tt;
  sniff_disabled ← read_engine eng_traffic_analysis_disabled;
  desired ← match desired_config sniff_disabled prepared config with
            | Ok desired => mret desired
            | Err error => fail_unchanged error
            end;
  _ ← recover_if_needed;
  s ← gets state;
  previous ← expect "recovery publishes a known state" (current s);
  _ ← for_in (inbound_values desired) (fun inbound =>
        preflight ("validate inbound " +:+ inbound_tag inbound) (eng_validate_inbound (spec (compiled inbound))));
  _ ← preflight "validate generation-global URLTest probe DNS"
        (eng_validate_urltest_probe_dns (probe_dns desired));
  previous_replay ← capture_replay_state previous (btree_iter (tags previous)).*1 ∅;
  let full := force_reload
    || negb (bool_decide (client_fingerprint previous = client_fingerprint desired))
    || negb (bool_decide (rule_set_digest previous = rule_set_digest desired)) in
  let dns := mkDns (full && committed s) full in
  _ ← if client_rotated dns then modify_engine eng_rotate_dns_client_generation else mret tt;
  ((fun rt =>
      match run_transaction previous desired dns (full || negb (committed s)) ([], rt) with
      | ((_, rt), Ok _) =>
          (_ ← modify (fun rt => set_state (mkApplied (Some desired) None ∅ true (closed (state rt))) rt);
           _ ← modify (set_replay ∅);
           _ ← modify_engine eng_commit_client_chain_group_generation;
           modify (fun rt => set_loader (rs_commit prepared (loader rt)) rt)) rt
      | ((entries, rt), Err (Fail failure)) =>
          finish_failed_transaction previous previous_replay failure entries dns rt
      | ((_, rt), Err (Panic message)) => (rt, Err (Panic message))
      end) : method RuntimeError.t unit).

(** ** Draining and connections *)

(** The counters of one inbound; a refusal is logged and loses nothing. *)
Definition drain_inbound (kv : string * NormalizedInbound) (acc : E * entries) : E * entries :=
  let '(e, drained) := acc in
  match eng_take_nonzero_inbound_traffic kv.1 e with
  | (e, Ok users) =>
      (e, foldl (fun m info => merge_traffic_entry m (traffic_drain kv.2 info)) drained users)
  | (e, Err _) => (e, drained)
  end.

Definition drain_traffic_owned rt : runtime * list TrafficDrain.t :=
  let '(p, receipts) := PendingTraffic.drain (pending_traffic rt) in
  let rt := set_pending_traffic p rt in
  let drained := foldl merge_traffic_entry ∅ receipts in
  let '(e, drained) :=
    match current (state rt) with
    | Some c => foldl (fun acc kv => drain_inbound kv acc) (engine rt, drained) (btree_iter (tags c))
    | None => (engine rt, drained)
    end in
  (set_engine e rt, values drained).

(** The tags of a node, in order. *)
Definition node_tags (c : NormalizedConfig) (node : string) : list string :=
  (List.filter (fun kv => bool_decide (node_id (compiled kv.2) = node)) (btree_iter (tags c))).*1.

Definition close_user_on (user_id : string) (acc : E * Z) (tag : string) : E * Z :=
  let '(e, closed) := acc in
  match eng_kick_user tag user_id e with
  | (e, Ok count) => (e, sat u64_max (closed + count))
  | (e, Err _) => (e, closed)
  end.

Definition close_user_connections_owned (node user_id : string) rt : runtime * Z :=
  if is_empty node || is_empty user_id then (rt, 0)
  else
    let inbound_tags := match current (state rt) with Some c => node_tags c node | None => [] end in
    let '(e, closed) := foldl (close_user_on user_id) (engine rt, 0) inbound_tags in
    (set_engine e rt, closed).

(** One registry's users added to the counts. *)
Definition count_user (acc : Z * gset string) (user : UserInfo.t) : Z * gset string :=
  let '(active, online) := acc in
  (sat u64_max (active + UserInfo.conns user),
   if 0 <? UserInfo.conns user then {[UserInfo.id user]} ∪ online else online).

Definition stats_of (acc : Z * gset string) : ConnectionStats.t :=
  ConnectionStats.mk acc.1 (Z.of_nat (size acc.2)).

Definition connection_stats_owned (node : string) rt : ConnectionStats.t :=
  if is_empty node then ConnectionStats.default
  else
    match current (state rt) with
    | None => ConnectionStats.default
    | Some c =>
        stats_of (foldl (fun acc tag =>
          match eng_list_users tag (engine rt) with
          | Ok users => foldl count_user acc users
          | Err _ => acc
          end) (0, ∅) (node_tags c node))
    end.

(** A registry that is gone makes the whole sample unavailable. *)
Definition telemetry_connection_stats (node : string) rt : option ConnectionStats.t :=
  if is_empty node || closing rt then None
  else
    c ← current (state rt);
    stats_of <$> foldl (fun acc tag =>
      acc ← acc;
      match eng_list_users tag (engine rt) with
      | Ok users => Some (foldl count_user acc users)
      | Err _ => None
      end) (Some (0, ∅)) (node_tags c node).

(** [health_snapshot], with every lock free. *)
Definition health_snapshot rt : option RuntimeHealthSnapshot.t :=
  let s := state rt in
  if closed s || closing rt || negb (committed s)
  then Some (RuntimeHealthSnapshot.mk false None)
  else
    match current s with
    | None => Some (RuntimeHealthSnapshot.mk false (Some "committed shoes runtime lost after failed recovery"))
    | Some c =>
        let missing := List.filter (fun tag =>
            match eng_get_inbound tag (engine rt) with Some _ => false | None => true end)
          (btree_iter (tags c)).*1 in
        let failed := eng_failed_listener_tags (engine rt) in
        Some (RuntimeHealthSnapshot.mk true
          (match missing, failed with
           | _ :: _, _ => Some ("committed inbound(s) missing: " +:+ join ", " missing)
           | [], _ :: _ => Some ("listener stopped for inbound(s): " +:+ join ", " failed)
           | [], [] => None
           end))
    end.

Definition current_config rt : string :=
  match current (state rt) with Some c => diagnostic c | None => "" end.

(** ** Closing *)

(** The rule-set watcher's generation ends. *)
Definition retire_watcher (cancel : option bool) rt : runtime :=
  set_watcher (mkWatcher (wrapping_add64 (w_generation (rule_set_watcher rt)) 1) cancel) rt.

Definition cancel_rule_set_watcher_locked rt : runtime := retire_watcher None rt.

Definition minimum (l : list Z) : option Z :=
  match l with [] => None | x :: l => Some (foldl Z.min x l) end.

Definition install_rule_set_watcher_locked (config : RuntimeConfig) rt : runtime :=
  match minimum (rs_update_interval <$> List.filter rs_is_remote (rule_sets config)) with
  | None => retire_watcher None rt
  | Some interval => if interval =? 0 then retire_watcher None rt else retire_watcher (Some false) rt
  end.

(** The token is a child of [closing]. *)
Definition rule_set_watcher_is_active (generation : Z) rt : bool :=
  (w_generation (rule_set_watcher rt) =? generation)
  && match w_cancel (rule_set_watcher rt) with
     | Some cancelled => negb (cancelled || closing rt)
     | None => false
     end.

Definition closed_state (clean : bool) (known : option NormalizedConfig) s : AppliedState :=
  if clean then mkApplied (Some default_config) None ∅ false true
  else mkApplied None known (recovery_live s) (committed s) true.

Fixpoint close_live {F} (live : list InboundInfo.t) (known : option NormalizedConfig) (kept : owners)
    (errors : list string) : method F (list string) := fun rt =>
  match live with
  | [] => (rt, Ok errors)
  | info :: rest =>
      let tag := InboundInfo.tag info in
      let inbound := match kept !! tag with
        | Some inbound => Some inbound
        | None => c ← known; i ← tags c !! tag; Some (published i)
        end in
      match force_stop_tag tag inbound rt with
      | (rt, Ok _) => close_live rest known kept errors rt
      | (rt, Err (Fail error)) => close_live rest known kept (errors ++ [error]) rt
      | (rt, Err (Panic message)) => (rt, Err (Panic message))
      end
  end.

Definition close_owned : method RuntimeError.t unit :=
  _ ← modify set_closing;
  _ ← modify cancel_rule_set_watcher_locked;
  s ← gets state;
  live ← read_engine eng_list_inbounds;
  if closed s && match live with [] => true | _ => false end
  then
    _ ← modify (fun rt => set_state (mkApplied (Some default_config) None ∅ false (closed (state rt))) rt);
    modify (set_replay ∅)
  else
    let known := match current s with Some c => Some c | None => recovery s end in
    errors ← close_live live known (recovery_live s) [];
    let clean := match errors with [] => true | _ => false end in
    _ ← modify (fun rt => set_state (closed_state clean known (state rt)) rt);
    if clean then modify (set_replay ∅)
    else fail_indeterminate "close shoes runtime" errors running.

Definition begin_close rt : runtime := set_closing rt.

(** ** Applying *)

Definition run_quick (op : quick_op) rt : runtime :=
  match op with
  | QBeginClose => begin_close rt
  | QDrain => (drain_traffic_owned rt).1
  | QCloseUser node user_id => (close_user_connections_owned node user_id rt).1
  end.

(** The other tasks, while rule sets are prepared. *)
Definition others_run rt : runtime :=
  match others rt with
  | [] => rt
  | ops :: rest => foldl (fun rt op => run_quick op rt) (set_others rest rt) ops
  end.

Definition prepare_rule_sets (config : RuntimeConfig) (cancelled : bool) : method RuntimeError.t Prep := fun rt =>
  let '(ld, r) := rs_prepare (rule_sets config) cancelled (loader rt) in
  let rt := set_loader ld rt in
  match r with
  | Ok prepared => (rt, Ok prepared)
  | Err error => fail_unchanged ("prepare route rule-set resources: " +:+ error) rt
  end.

Definition apply_external_owned (config : RuntimeConfig) (force_reload : bool) : method RuntimeError.t unit :=
  closing ← gets closing;
  _ ← if closing : bool then fail_unchanged "runtime is closed" else mret tt;
  prepared ← prepare_rule_sets config closing;
  _ ← modify others_run;
  _ ← apply_transaction_locked config prepared force_reload;
  modify (fun rt =>
    if existsb rs_is_remote (rule_sets config) then install_rule_set_watcher_locked config rt
    else cancel_rule_set_watcher_locked rt).

(** One refresh of the watcher; [None]: its generation is over. *)
Definition refresh_rule_sets_owned (generation : Z) (config : RuntimeConfig) rt
    : runtime * option (result (exn RuntimeError.t) unit) :=
  if negb (rule_set_watcher_is_active generation rt) || closed (state rt) then (rt, None)
  else
    let '(rt, prepared) := prepare_rule_sets config (closing rt) rt in
    let rt := others_run rt in
    if negb (rule_set_watcher_is_active generation rt) || closed (state rt) then (rt, None)
    else
      match prepared with
      | Ok prepared => let '(rt, r) := apply_transaction_locked config prepared false rt in (rt, Some r)
      | Err x => (rt, Some (Err x))
      end.

(** ** [impl NodeRuntime for ShoesRuntime] *)

(** [join_error] *)
Definition joined {A} (operation : string) (m : method RuntimeError.t A) : stm runtime RuntimeError.t A := fun rt =>
  match m rt with
  | (rt, Ok a) => (rt, Ok a)
  | (rt, Err (Fail e)) => (rt, Err e)
  | (rt, Err (Panic message)) =>
      (rt, Err (RuntimeError.failed (operation +:+ " task failed: " +:+ message) [] false false (running rt)))
  end.

Definition shoes_runtime : NodeRuntime runtime RuntimeConfig := {|
  nr_traffic_analysis_disabled rt := eng_traffic_analysis_disabled (engine rt);
  nr_apply_config config := joined "apply runtime config" (apply_external_owned config false);
  nr_reload_config config :=
    (_ ← joined "reload runtime config" (apply_external_owned config true); mret (ReloadStatus.mk true false));
  nr_current_config := current_config;
  nr_begin_close := begin_close;
  nr_close := joined "close runtime" close_owned;
  nr_health := health_snapshot;
  nr_close_user_connections node user_id := close_user_connections_owned node user_id
|}.
End runtime.
