(* ===== verification/RuntimeSpec.v ===== *)
(** * What the shoes runtime guarantees

    The engine is used through the contract [EngineLaws]: what the methods of
    [Engine] document.  Its view [live] is what is served: per tag the
    configuration and, for a dynamic listener, the users. *)

From Stdlib Require Import ZArith Lia.
From S2P Require Import Prelude Bytes Traffic TrafficQueue Credentials Manager Adapter EngineApi PendingTraffic Runtime RuntimeTx.

Open Scope Z_scope.

(** The users of a specification by id. *)
Definition users_of (specs : list UserSpec.t) : gmap string UserSpec.t :=
  collect_map (omap (fun u => (fun id => (id, u)) <$> UserSpec.resolved_id u) specs).

Abbreviation cell V := (V * option (gmap string UserSpec.t))%type.
Abbreviation view V := (gmap string (cell V)).

Definition spec_cell {V} (spec : InboundSpec.t V) : cell V :=
  (InboundSpec.config spec, users_of <$> InboundSpec.users spec).

(** A change of a listener's users. *)
Definition with_users {V} (f : gmap string UserSpec.t -> gmap string UserSpec.t) (c : cell V) : cell V :=
  (c.1, f <$> c.2).

(** A failure leaves the engine as it was; only the removal of a user may have
    happened when its finalizer's outcome is lost ([Io]). *)
Class EngineLaws (E L V : Type) `{!EngineOps E L V} : Type := {
  live : E -> view V;
  becomes e e' (v : view V) : Prop :=
    live e' = v /\ eng_traffic_analysis_disabled e' = eng_traffic_analysis_disabled e;
  started spec e e' (r : result EngineError.t InboundInfo.t) : Prop :=
    match r with
    | Ok _ => live e !! InboundSpec.tag spec = None /\
        becomes e e' (<[InboundSpec.tag spec := spec_cell spec]> (live e))
    | Err _ => becomes e e' (live e)
    end;
  law_add spec e e' r : eng_add_inbound spec e = (e', r) -> started spec e e' r;
  law_add_replay spec lease e e' r : eng_add_inbound_with_replay spec lease e = (e', r) -> started spec e e' r;
  law_update spec e e' r : eng_update_inbound spec e = (e', r) ->
    match r with
    | Ok _ => exists c, live e !! InboundSpec.tag spec = Some c /\
        becomes e e' (<[InboundSpec.tag spec := (InboundSpec.config spec, c.2)]> (live e))
    | Err _ => becomes e e' (live e)
    end;
  law_remove tag e e' r : eng_remove_inbound_hard tag e = (e', r) ->
    becomes e e' (match r with Ok _ => delete tag (live e) | Err _ => live e end);
  law_add_user tag user e e' r : eng_add_user tag user e = (e', r) ->
    match r with
    | Ok _ => exists id c us, UserSpec.resolved_id user = Some id /\ live e !! tag = Some (c, Some us) /\
        becomes e e' (<[tag := (c, Some (<[id := user]> us))]> (live e))
    | Err _ => becomes e e' (live e)
    end;
  law_remove_user tag id e e' r : eng_remove_user tag id e = (e', r) ->
    match r with
    | Ok info => UserInfo.id info = id /\ exists c us, live e !! tag = Some (c, Some us) /\
        becomes e e' (<[tag := (c, Some (delete id us))]> (live e))
    | Err (EngineError.Io _) =>
        becomes e e' (live e) \/ exists c us, live e !! tag = Some (c, Some us) /\
        becomes e e' (<[tag := (c, Some (delete id us))]> (live e))
    | Err _ => becomes e e' (live e)
    end;
  law_kick tag id e e' r : eng_kick_user tag id e = (e', r) -> becomes e e' (live e);
  law_take tag id e e' r : eng_take_user_traffic tag id e = (e', r) ->
    becomes e e' (live e) /\ forall info, r = Ok info -> UserInfo.id info = id;
  law_sweep tag e e' r : eng_take_nonzero_inbound_traffic tag e = (e', r) -> becomes e e' (live e);
  law_validate spec e e' r : eng_validate_inbound spec e = (e', r) -> becomes e e' (live e);
  law_validate_dns dns e e' r : eng_validate_urltest_probe_dns dns e = (e', r) -> becomes e e' (live e);
  law_configure_dns dns e e' r : eng_configure_urltest_probe_dns dns e = (e', r) -> becomes e e' (live e);
  law_rotate e : becomes e (eng_rotate_dns_client_generation e) (live e);
  law_commit e : becomes e (eng_commit_client_chain_group_generation e) (live e);
  law_list e tag : is_Some (live e !! tag) <-> tag ∈ InboundInfo.tag <$> eng_list_inbounds e
}.

Section spec.
Context {E L V Y Res Ld Prep : Type}.
Context `{!ValueOps V} `{!YamlOps Y} `{!EngineOps E L V} `{!EngineLaws E L V} `{!RuleSetOps Ld Res Prep V}.

Local Abbreviation NormalizedInbound := (NormalizedInbound V).
Local Abbreviation NormalizedConfig := (NormalizedConfig V).
Local Abbreviation runtime := (runtime (E := E) (L := L) (V := V) (Ld := Ld)).
Local Abbreviation Undo := (Undo (L := L) (V := V)).
Local Abbreviation method F := (stm runtime (exn F)).
Local Abbreviation cell := (cell V).
Local Abbreviation view := (view V).
Implicit Types rt : runtime.
Implicit Types v : view.

(** ** What a configuration asks for *)

Definition image (i : NormalizedInbound) : cell :=
  (InboundSpec.config (spec (compiled i)), if dynamic_users i then Some (users i) else None).
Definition image_config (c : NormalizedConfig) : view := image <$> tags c.

(** What [normalize] guarantees of an inbound. *)
Record inbound_ok (i : NormalizedInbound) : Prop := {
  io_cell : spec_cell (spec (compiled i)) = image i;
  io_ids id u : users i !! id = Some u -> UserSpec.resolved_id u = Some id;
  io_static : dynamic_users i = false -> users i = ∅
}.
Record config_ok (c : NormalizedConfig) : Prop := {
  co_inbound tag i : tags c !! tag = Some i -> inbound_ok i /\ inbound_tag i = tag
}.

(** ** Methods over the served view *)

(** The receipts kept are within the limit and none is half done. *)
Record receipts_ok (p : PendingTraffic.t) : Prop := {
  ro_size : (size (PendingTraffic.entries_of p) <= PendingTraffic.max_keys p)%nat;
  ro_reserved : PendingTraffic.reserved p = ∅
}.

(** What a transaction's inner methods leave alone. *)
Record framed rt rt' : Prop := {
  fr_state : state rt' = state rt;
  fr_loader : loader rt' = loader rt;
  fr_closing : closing rt' = closing rt;
  fr_watcher : rule_set_watcher rt' = rule_set_watcher rt;
  fr_replay : recovery_replay rt' = recovery_replay rt;
  fr_others : others rt' = others rt;
  fr_policy : eng_traffic_analysis_disabled (engine rt') = eng_traffic_analysis_disabled (engine rt);
  fr_limit : PendingTraffic.max_keys (pending_traffic rt') = PendingTraffic.max_keys (pending_traffic rt)
}.

Lemma framed_refl rt : framed rt rt.
Proof. by split. Qed.
Lemma framed_trans rt1 rt2 rt3 : framed rt1 rt2 -> framed rt2 rt3 -> framed rt1 rt3.
Proof. intros [] []. split; congruence. Qed.

Abbreviation served rt := (live (engine rt)).

(** From a view where [P] holds, [m] succeeds with [Q] or fails with [X], and
    never panics; [K] is what it keeps of the receipts. *)
Definition triple_at (K : PendingTraffic.t -> Prop) {F A} (P : view -> Prop) (m : method F A)
    (Q : A -> view -> Prop) (X : F -> view -> Prop) : Prop :=
  forall rt rt' r, P (served rt) -> K (pending_traffic rt) -> m rt = (rt', r) ->
  framed rt rt' /\ K (pending_traffic rt') /\
  match r with
  | Ok a => Q a (served rt')
  | Err (Fail f) => X f (served rt')
  | Err (Panic _) => False
  end.

Section rules.
Context {K : PendingTraffic.t -> Prop}.

Lemma triple_weaken {F A} (P P' : view -> Prop) (m : method F A) (Q Q' : A -> view -> Prop) (X X' : F -> view -> Prop) :
  triple_at K P m Q X -> (forall v, P' v -> P v) -> (forall a v, Q a v -> Q' a v) -> (forall f v, X f v -> X' f v) ->
  triple_at K P' m Q' X'.
Proof.
  intros H HP HQ HX rt rt' r Hp Hr Ex. destruct (H rt rt' r (HP _ Hp) Hr Ex) as (Hf & Hr' & Hc).
  split_and!; [done|done|]. destruct r as [a|[f|m']]; auto.
Qed.

Lemma triple_pre {F A} (P P' : view -> Prop) (m : method F A) (Q : A -> view -> Prop) (X : F -> view -> Prop) :
  triple_at K P m Q X -> (forall v, P' v -> P v) -> triple_at K P' m Q X.
Proof. intros H HP. by eapply triple_weaken. Qed.

Lemma triple_post {F A} (P : view -> Prop) (m : method F A) (Q Q' : A -> view -> Prop) (X : F -> view -> Prop) :
  triple_at K P m Q X -> (forall a v, Q a v -> Q' a v) -> triple_at K P m Q' X.
Proof. intros H HQ. by eapply triple_weaken. Qed.

Lemma triple_ret {F A} (P : view -> Prop) (a : A) (Q : A -> view -> Prop) (X : F -> view -> Prop) :
  (forall v, P v -> Q a v) -> triple_at K P (mret a) Q X.
Proof. intros H rt rt' r Hp Hr [= <- <-]. split_and!; [apply framed_refl|done|auto]. Qed.

Lemma triple_raise {F A} (P : view -> Prop) (f : F) (Q : A -> view -> Prop) (X : F -> view -> Prop) :
  (forall v, P v -> X f v) -> triple_at K P (raise (Fail f)) Q X.
Proof. intros H rt rt' r Hp Hr [= <- <-]. split_and!; [apply framed_refl|done|auto]. Qed.

Lemma triple_bind {F A B} (P : view -> Prop) (m : method F A) (k : A -> method F B)
    (Q : A -> view -> Prop) (Q' : B -> view -> Prop) (X : F -> view -> Prop) :
  triple_at K P m Q X -> (forall a, triple_at K (Q a) (k a) Q' X) -> triple_at K P (m ≫= k) Q' X.
Proof.
  intros Hm Hk rt rt' r Hp Hr. unfold mbind, stm_bind.
  destruct (m rt) as [rt1 [a|[f|msg]]] eqn:H1e; destruct (Hm _ _ _ Hp Hr H1e) as (Hf1 & Hr1 & H1).
  - intros E2. destruct (Hk a _ _ _ H1 Hr1 E2) as (Hf2 & Hr2 & H2).
    split_and!; [by eapply framed_trans|done|done].
  - intros [= <- <-]. done.
  - done.
Qed.

Lemma triple_then {F A B} (P : view -> Prop) (m : method F A) (b : B) (Q : view -> Prop) (X : F -> view -> Prop) :
  triple_at K P m (fun _ => Q) X -> triple_at K P (_ ← m; mret b) (fun _ => Q) X.
Proof. intros H. eapply triple_bind; [exact H|]. intros a. by apply triple_ret. Qed.

(** An engine call, by its law. *)
Lemma triple_ask {F A} (P : view -> Prop) (m : stm E EngineError.t A) (Q : result EngineError.t A -> view -> Prop)
    (X : F -> view -> Prop) :
  (forall e e' r, P (live e) -> m e = (e', r) -> becomes e e' (live e') /\ Q r (live e')) ->
  triple_at K P (ask_engine m) Q X.
Proof.
  intros Hm rt rt' r Hp Hr. unfold ask_engine. destruct (m (engine rt)) as [e x] eqn:Ex. intros [= <- <-].
  destruct (Hm _ _ _ Hp Ex) as [[_ Hd] Hq]. split_and!; [by split|done|done].
Qed.

Lemma triple_read {F A} (P : view -> Prop) (f : E -> A) (X : F -> view -> Prop) :
  triple_at K P (read_engine f) (fun _ v => P v) X.
Proof. intros rt rt' r H Hr [= <- <-]. split_and!; [apply framed_refl|done|done]. Qed.

Lemma triple_with_fail {F F' A} (g : F -> F') P (m : method F A) (Q : A -> view -> Prop) (X : F' -> view -> Prop) :
  triple_at K P m Q (fun f => X (g f)) -> triple_at K P (with_fail g m) Q X.
Proof.
  intros H rt rt' r Hp Hr. unfold with_fail. destruct (m rt) as [rt1 r1] eqn:Ex. intros [= <- <-].
  destruct (H _ _ _ Hp Hr Ex) as (Hf & Hr1 & Hc). split_and!; [done|done|]. by destruct r1 as [a|[f|msg]].
Qed.

Lemma triple_expect {F A} (P : view -> Prop) msg (o : option A) a (Q : A -> view -> Prop) (X : F -> view -> Prop) :
  o = Some a -> (forall v, P v -> Q a v) -> triple_at K P (expect msg o) Q X.
Proof. intros -> H rt rt' r Hp Hr [= <- <-]. split_and!; [apply framed_refl|done|auto]. Qed.

Lemma triple_on_engine {F A} (P : view -> Prop) (g : EngineError.t -> F) (m : stm E EngineError.t A)
    (Q : A -> view -> Prop) (X : F -> view -> Prop) :
  triple_at K P (ask_engine m) (fun r v => match r with Ok a => Q a v | Err e => X (g e) v end) X ->
  triple_at K P (on_engine g m) Q X.
Proof.
  intros H. eapply triple_bind; [exact H|]. intros [a|e]; [by apply triple_ret|].
  intros rt rt' r Hp Hr [= <- <-]. split_and!; [apply framed_refl|done|done].
Qed.

Lemma for_in_triple {F A} (I : list A -> view -> Prop) (l : list A) (body : A -> method F unit) (X : F -> view -> Prop) :
  (forall x rest, triple_at K (I (x :: rest)) (body x) (fun _ => I rest) X) ->
  triple_at K (I l) (for_in l body) (fun _ => I []) X.
Proof.
  intros Hb. induction l as [|x l IH]; cbn [for_in]; [by apply triple_ret|].
  eapply triple_bind; [apply Hb|]. intros []. exact IH.
Qed.
End rules.

Local Abbreviation triple := (triple_at receipts_ok).

(** ** Users *)

(** User [id] of [tag] gone. *)
Definition without_user (tag id : string) v v' : Prop :=
  exists c us, v !! tag = Some (c, Some us) /\ v' = <[tag := (c, Some (delete id us))]> v.

Lemma remove_user_triple {K} tag id v0 :
  triple_at K (eq v0) (remove_user_with_retry tag id)
    (fun info v => UserInfo.id info = id /\ without_user tag id v0 v)
    (fun f v => UserRemovalFailure.changed f = false -> v = v0).
Proof.
  eapply triple_bind.
  { apply (triple_ask _ _ (fun r v => match r with
      | Ok info => UserInfo.id info = id /\ without_user tag id v0 v
      | Err (EngineError.Io _) => v = v0 \/ without_user tag id v0 v
      | Err _ => v = v0 end)).
    intros e e' r -> H%law_remove_user. destruct r as [info|err].
    - destruct H as (Hi & c & us & Hl & Hb & Hd). rewrite Hb. split; [done|]. split; [done|]. by exists c, us.
    - destruct err; try (destruct H as [Hb Hd]; by rewrite Hb).
      destruct H as [[Hb Hd]|(c & us & Hl & Hb & Hd)]; rewrite Hb; [split; [done|by left]|].
      split; [done|]. right. by exists c, us. }
  intros [info|err]; [by apply triple_ret|].
  destruct err as [| | | | | | |ioe| |]; try (apply triple_raise; intros v Hv _; exact Hv).
  apply triple_on_engine, triple_ask. intros e0 e' r Hv H%law_remove_user.
  destruct r as [info|err].
  2:{ split; [|done]. destruct err; try (by destruct H as [Hb Hd]; rewrite Hb).
      by destruct H as [[Hb Hd]|(c & us & Hl & Hb & Hd)]; rewrite Hb. }
  destruct H as (Hi & c & us & Hl & Hb & Hd). rewrite Hb. split; [done|]. split; [done|].
  destruct Hv as [Hv|(c0 & us0 & Hl0 & Hv)].
  - rewrite Hv in *. by exists c, us.
  - rewrite Hv in *. rewrite lookup_insert_eq in Hl. injection Hl as <- <-. exists c0, us0. split; [done|].
    by rewrite insert_insert_eq, delete_delete_eq.
Qed.

Lemma size_insert_reserved (m : entries) key x :
  (size (<[key := x]> m) <= S (size m))%nat.
Proof. destruct (m !! key) eqn:H; [rewrite map_size_insert_Some by eauto|rewrite map_size_insert_None by done]; lia. Qed.

Lemma merge_size (m : entries) drain :
  (size (merge_traffic_entry m drain) <=
   (if bool_decide (is_Some (m !! TrafficDrainKey.from drain)) then 0 else 1) + size m)%nat.
Proof.
  unfold merge_traffic_entry. destruct (is_zero drain); [lia|].
  case_bool_decide as H; [rewrite map_size_insert_Some by done; lia|].
  rewrite map_size_insert_None by (by apply eq_None_not_Some). lia.
Qed.

Lemma key_of_drain inbound info :
  TrafficDrainKey.from (traffic_drain inbound info) = traffic_key (V := V) inbound (UserInfo.id info).
Proof. done. Qed.

(** A receipt always finds its place, and no reservation outlives it. *)
Lemma collect_triple {F} inbound id refused (take : method F UserInfo.t) v0 (Q : view -> Prop) (X : F -> view -> Prop) :
  (forall K, triple_at K (eq v0) take (fun info v => UserInfo.id info = id /\ Q v) X) ->
  (forall error, X (refused error) v0) ->
  triple (eq v0) (collect inbound id refused take) (fun _ => Q) X.
Proof.
  intros Ht Hx rt rt' r Hv [Hs Hr]. unfold collect, mbind, stm_bind, with_fail, reserve_traffic, PendingTraffic.reserve.
  set (key := traffic_key inbound id). set (p := pending_traffic rt) in *.
  case_bool_decide as Hk; cbn [map_err].
  { destruct (take (set_pending_traffic p rt)) as [rt1 r1] eqn:Et.
    destruct (Ht (eq p) (set_pending_traffic p rt) _ _ Hv eq_refl Et) as (Hf & Hp & H1).
    assert (framed rt rt1) as Hf1 by (destruct Hf; split; done).
    destruct r1 as [info|[f|msg]].
    - destruct H1 as [Hi HQ]. unfold queue_traffic. rewrite key_of_drain, Hi, decide_True by done.
      unfold PendingTraffic.merge_reserved. cbn [andb]. intros [= <- <-]. rewrite <- Hp.
      split_and!; [destruct Hf1; split; cbn; congruence| |done].
      split; cbn; [|done]. pose proof (merge_size (PendingTraffic.entries_of p) (traffic_drain inbound info)) as Hm.
      rewrite key_of_drain, Hi, bool_decide_eq_true_2 in Hm by done. lia.
    - intros [= <- <-]. cbn. rewrite <- Hp. done.
    - done. }
  rewrite bool_decide_eq_false_2 by (rewrite Hr; set_solver).
  destruct (PendingTraffic.max_keys p <=? _)%nat eqn:Hm; cbn [map_err map_exn].
  { intros [= <- <-]. split_and!; [by split|by split|cbn; rewrite <- Hv; apply Hx]. }
  apply Nat.leb_gt in Hm. rewrite Hr, size_empty in Hm.
  set (p1 := PendingTraffic.mk _ _ _).
  destruct (take (set_pending_traffic p1 rt)) as [rt1 r1] eqn:Et.
  destruct (Ht (eq p1) (set_pending_traffic p1 rt) _ _ Hv eq_refl Et) as (Hf & Hp & H1).
  assert (framed rt rt1) as Hf1 by (destruct Hf; split; done).
  assert (({[key]} ∪ PendingTraffic.reserved p) ∖ {[key]} = ∅) as Hempty by (rewrite Hr; set_solver).
  destruct r1 as [info|[f|msg]].
  - destruct H1 as [Hi HQ]. unfold queue_traffic. rewrite key_of_drain, Hi, decide_True by done.
    unfold PendingTraffic.merge_reserved. rewrite key_of_drain, Hi, <- Hp.
    rewrite bool_decide_eq_true_2 by (cbn; set_solver). cbn [andb negb].
    intros [= <- <-]. split_and!; [destruct Hf1; split; cbn; first [done|congruence]| |done].
    split; cbn; [|done].
    pose proof (merge_size (PendingTraffic.entries_of p) (traffic_drain inbound info)) as Hms.
    destruct (bool_decide _) in Hms; lia.
  - intros [= <- <-]. cbn [drop_reservation].
    split_and!; [destruct Hf1; split; cbn; first [done|congruence|by rewrite <- Hp]| |done].
    rewrite <- Hp. split; cbn; [lia|done].
  - done.
Qed.

Lemma retire_user_triple {F} inbound tag id refused failed v0 (X : F -> view -> Prop) :
  (forall error, X (refused error) v0) ->
  (forall f v, (UserRemovalFailure.changed f = false -> v = v0) -> X (failed f) v) ->
  triple (eq v0) (retire_user inbound tag id refused failed) (fun _ => without_user tag id v0) X.
Proof.
  intros H1 H2. apply collect_triple; [|done]. intros K. apply triple_with_fail.
  eapply triple_weaken; [apply remove_user_triple|done|done|]. cbn. intros f v H. by apply H2.
Qed.

(** ** Stopping a listener *)

Section stop.
Context (tag : string) (registry : NormalizedInbound) (v0 : view).

(** The registry lists the users the listener has. *)
Definition knows_users : Prop := forall c us id spec,
  v0 !! tag = Some (c, Some us) -> users registry !! id = Some spec ->
  us !! id = Some spec /\ UserSpec.resolved_id spec = Some id.

(** [usr] is [us] but for some of the users in [specs]. *)
Definition near (us : gmap string UserSpec.t) (specs : list UserSpec.t) (usr : gmap string UserSpec.t) : Prop :=
  (forall spec, spec ∈ specs -> exists id, UserSpec.resolved_id spec = Some id /\ us !! id = Some spec) /\
  (forall id, usr !! id = us !! id \/ exists spec, spec ∈ specs /\ UserSpec.resolved_id spec = Some id).

Definition restorable (specs : list UserSpec.t) v : Prop :=
  (v = v0 /\ specs = []) \/
  exists c us usr, v0 !! tag = Some (c, Some us) /\ v = <[tag := (c, Some usr)]> v0 /\ near us specs usr.

Lemma restorable_nil v : restorable [] v -> v = v0.
Proof.
  intros [[-> _]|(c & us & usr & Hl & -> & _ & Hn)]; [done|].
  assert (usr = us) as -> by (apply map_eq; intros id; by destruct (Hn id) as [?|(? & ?%not_elem_of_nil & _)]).
  by rewrite insert_id.
Qed.

Lemma restore_users_from_spec specs rt rt' errors :
  restore_users_from tag specs rt = (rt', errors) ->
  framed rt rt' /\ pending_traffic rt' = pending_traffic rt /\
  (errors = [] -> restorable specs (served rt) -> served rt' = v0).
Proof.
  revert rt rt' errors. induction specs as [|spec specs IH]; intros rt rt' errors; cbn [restore_users_from].
  { intros [= <- <-]. split_and!; [apply framed_refl|done|by intros _ ?%restorable_nil]. }
  destruct (eng_add_user tag spec (engine rt)) as [e r] eqn:Ea.
  destruct (restore_users_from tag specs (set_engine e rt)) as [rt1 errs] eqn:Er.
  apply law_add_user in Ea. apply IH in Er as (Hf & Hp & Hs).
  assert (framed rt (set_engine e rt)) as Hf0.
  { split; try done. by destruct r; [destruct Ea as (? & ? & ? & _ & _ & _ & Hd)|destruct Ea as [_ Hd]]. }
  intros H. assert (rt1 = rt') as <- by (by destruct r; injection H).
  split_and!; [by eapply framed_trans|done|]. intros -> Hr.
  destruct r as [info|err]; [|done]. injection H as ->. apply Hs; [done|]. cbn [engine set_engine].
  destruct Ea as (id & c & us1 & Hid & Hl & Hb & _). rewrite Hb. right.
  destruct Hr as [[_ [=]]|(c0 & us & usr & Hl0 & Hv & Hn1 & Hn2)].
  rewrite Hv, lookup_insert_eq in Hl. injection Hl as <- <-. exists c0, us, (<[id := spec]> usr).
  split_and!; [done|by rewrite Hv, insert_insert_eq|]. split; [intros s Hs'; apply Hn1; by right|].
  intros id'. destruct (decide (id' = id)) as [->|Hne].
  - left. rewrite lookup_insert_eq. destruct (Hn1 spec) as (i & Hi & Hu); [by left|]. congruence.
  - rewrite lookup_insert_ne by done. destruct (Hn2 id') as [?|(s & Hs' & Hr)]; [by left|].
    apply elem_of_cons in Hs' as [->|Hs']; [congruence|]. right. by exists s.
Qed.

(** Users retired so far; what follows can still bring them back. *)
Definition retiring (removed : list UserSpec.t) v : Prop :=
  delete tag v = delete tag v0 /\ (knows_users -> restorable removed v).

Definition undone (f : StepFailure.t) v : Prop := knows_users -> StepFailure.restored f = true -> v = v0.

Lemma near_rev us specs usr : near us specs usr -> near us (rev specs) usr.
Proof.
  intros [H1 H2]. split.
  - intros s Hs. apply H1. by rewrite (Permutation_rev specs).
  - intros id. destruct (H2 id) as [?|(s & Hs & ?)]; [by left|]. right. exists s. split; [|done].
    by rewrite <- (Permutation_rev specs).
Qed.

Lemma restorable_rev specs v : restorable specs v -> restorable (rev specs) v.
Proof.
  intros [[-> ->]|(c & us & usr & Hl & Hv & Hn)]; [by left|].
  right. exists c, us, usr. split_and!; [done|done|by apply near_rev].
Qed.

Lemma fail_restoring_triple {A} removed operation uncertain (Q : A -> view -> Prop) :
  triple (fun v => uncertain = false -> retiring removed v) (fail_restoring tag removed operation uncertain)
    Q undone.
Proof.
  intros rt rt' r Hv Hr. unfold fail_restoring, restore_users.
  destruct (restore_users_from tag (rev removed) rt) as [rt1 rollback] eqn:Ex. intros [= <- <-].
  apply restore_users_from_spec in Ex as (Hf & Hp & Hs). split_and!; [done|by rewrite Hp|].
  intros Hk. cbn. intros [Hu Hb]%andb_true_iff. destruct rollback; [|done].
  apply Hs; [done|]. apply restorable_rev, Hv; [by destruct uncertain|done].
Qed.

Lemma retire_users_triple accounting live_users removed :
  triple (retiring removed) (retire_users tag registry accounting live_users removed) retiring undone.
Proof.
  revert removed. induction live_users as [|u rest IH]; intros removed; cbn [retire_users].
  { by apply triple_ret. }
  destruct (users registry !! UserInfo.id u) as [spec|] eqn:Hspec.
  2:{ eapply triple_pre; [apply fail_restoring_triple|by intros v Hv _]. }
  intros rt rt' r Hv Hr.
  match goal with |- context [retire_user ?i ?t ?id ?f ?g] =>
    pose proof (retire_user_triple i t id f g (served rt)
      (fun x v => x.2 = false -> v = served rt) ltac:(done) ltac:(done)) as Ht;
    destruct (retire_user i t id f g rt) as [rt1 [[]|[[op unc]|msg]]] eqn:Ex
  end; destruct (Ht _ _ _ eq_refl Hr Ex) as (Hf1 & Hr1 & H1).
  - intros Erest. destruct (IH (removed ++ [spec]) rt1 rt' r) as (Hf2 & Hr2 & H2); [|done|done|].
    2:{ split_and!; [by eapply framed_trans|done|done]. }
    destruct Hv as [Hd Hv]. destruct H1 as (c & us & Hl & Hu). split; [by rewrite Hu, delete_insert_eq|].
    intros Hk. right. destruct (Hv Hk) as [[Hv0 ->]|(c0 & us0 & usr & Hl0 & Hv0 & Hn1 & Hn2)].
    + rewrite Hv0 in Hl, Hu. destruct (Hk _ _ _ _ Hl Hspec) as [Hin Hid].
      exists c, us, (delete (UserInfo.id u) us). split_and!; [done|done|]. split.
      * intros s ->%list_elem_of_singleton. by exists (UserInfo.id u).
      * intros id. destruct (decide (id = UserInfo.id u)) as [->|Hne].
        -- right. exists spec. split; [by left|done].
        -- left. by rewrite lookup_delete_ne.
    + rewrite Hv0, lookup_insert_eq in Hl. injection Hl as <- <-.
      destruct (Hk _ _ _ _ Hl0 Hspec) as [Hin Hid].
      exists c0, us0, (delete (UserInfo.id u) usr).
      split_and!; [done|by rewrite Hu, Hv0, insert_insert_eq|]. split.
      * intros s [Hs| ->%list_elem_of_singleton]%elem_of_app; [by apply Hn1|by exists (UserInfo.id u)].
      * intros id. destruct (decide (id = UserInfo.id u)) as [->|Hne].
        -- right. exists spec. split; [apply elem_of_app; right; by left|done].
        -- rewrite lookup_delete_ne by done. destruct (Hn2 id) as [?|(s & Hs & ?)]; [by left|].
           right. exists s. split; [apply elem_of_app; by left|done].
  - intros Erest. destruct (fail_restoring_triple removed op unc retiring rt1 rt' r) as (Hf2 & Hr2 & H2); [|done|done|].
    2:{ split_and!; [by eapply framed_trans|done|done]. }
    intros Hu. cbn in H1. by rewrite (H1 Hu).
  - done.
Qed.
End stop.

Lemma knows_image registry v0 :
  inbound_ok registry -> v0 !! inbound_tag registry = Some (image registry) ->
  knows_users (inbound_tag registry) registry v0.
Proof.
  intros Ho Hv c us id spec Hl Hu. rewrite Hv in Hl. unfold image in Hl.
  destruct (dynamic_users registry); [|done]. injection Hl as <- <-. split; [done|by apply (io_ids _ Ho)].
Qed.

(** A listener stopped is gone; when its owner listed its users, a failure that
    reports everything restored changed nothing. *)
Lemma stop_triple listener registry accounting v0 :
  triple (eq v0) (stop_inbound_with_owners listener registry accounting)
    (fun _ v => v = delete (inbound_tag listener) v0) (undone (inbound_tag listener) registry v0).
Proof.
  unfold stop_inbound_with_owners. set (tag := inbound_tag listener).
  eapply triple_bind; [apply triple_read|]. intros listed.
  apply (triple_bind _ _ _ (fun _ => eq v0)).
  { destruct listed as [us|err]; [by apply triple_ret|].
    destruct err; first [by apply triple_ret|apply triple_raise; by intros v <- ? ?]. }
  intros live_users. apply (triple_bind _ _ _ (retiring tag registry v0)).
  { eapply triple_weaken; [apply retire_users_triple| |done|done].
    intros v <-. split; [done|]. intros _. by left. }
  intros removed. apply (triple_bind _ _ _ (fun r v => match r with
      | Ok _ => v = delete tag v0 | Err _ => retiring tag registry v0 removed v end)).
  { apply triple_ask.
    intros e e' r [Hd Hr] [Hb Hp]%law_remove. split; [by split|]. rewrite Hb. destruct r; [done|by split]. }
  intros [info|err]; [by apply triple_ret|].
  eapply triple_pre; [apply fail_restoring_triple|by intros v Hv _].
Qed.
End spec.

(** ** The shoes runtime: undoing a failed transaction

    Each journal entry names the change of the served view that undoes a step;
    a rollback without errors performs them all ([rollback_triple]). *)

Open Scope Z_scope.

Lemma alter_at `{Countable K} {A} (f : A -> A) (m : gmap K A) k x :
  m !! k = Some x -> alter f k m = <[k := f x]> m.
Proof.
  intros H0. apply map_eq. intros i. destruct (decide (i = k)) as [->|Hne].
  - by rewrite lookup_alter_eq, lookup_insert_eq, H0.
  - by rewrite lookup_alter_ne, lookup_insert_ne by done.
Qed.

Section rollback.
Context {E L V Y Res Ld Prep : Type}.
Context `{!ValueOps V} `{!YamlOps Y} `{!EngineOps E L V} `{!EngineLaws E L V} `{!RuleSetOps Ld Res Prep V}.

Local Abbreviation NormalizedInbound := (NormalizedInbound V).
Local Abbreviation NormalizedConfig := (NormalizedConfig V).
Local Abbreviation runtime := (runtime (E := E) (L := L) (V := V) (Ld := Ld)).
Local Abbreviation Undo := (Undo (L := L) (V := V)).
Local Abbreviation method F := (stm runtime (exn F)).
Local Abbreviation view := (view V).
Local Abbreviation triple := (triple_at (Ld := Ld) receipts_ok).
Implicit Types rt : runtime.
Implicit Types v : view.

(** ** Starting and replacing *)

Lemma start_triple {F} {K} (i : NormalizedInbound) (replay : L) v0 (X : F -> view -> Prop) :
  inbound_ok i ->
  triple_at (Ld := Ld) K (eq v0) (ask_engine (start i replay))
    (fun r v => match r with
      | Ok _ => v0 !! inbound_tag i = None /\ v = <[inbound_tag i := image i]> v0
      | Err _ => v = v0 end) X.
Proof.
  intros Hi. apply triple_ask. intros e e' r -> H%law_add_replay. destruct r as [info|err].
  - destruct H as (Hn & Hb & Hp). rewrite (io_cell _ Hi) in Hb. split; [by split|]. by split.
  - destruct H as [Hb Hp]. by split; [split|].
Qed.

Lemma add_triple {F} {K} (i : NormalizedInbound) v0 (X : F -> view -> Prop) :
  inbound_ok i ->
  triple_at (Ld := Ld) K (eq v0) (ask_engine (eng_add_inbound (spec (compiled i))))
    (fun r v => match r with
      | Ok _ => v0 !! inbound_tag i = None /\ v = <[inbound_tag i := image i]> v0
      | Err _ => v = v0 end) X.
Proof.
  intros Hi. apply triple_ask. intros e e' r -> H%law_add. destruct r as [info|err].
  - destruct H as (Hn & Hb & Hp). rewrite (io_cell _ Hi) in Hb. split; [by split|]. by split.
  - destruct H as [Hb Hp]. by split; [split|].
Qed.

Lemma update_triple {F} {K} (i : NormalizedInbound) v0 (X : F -> view -> Prop) :
  triple_at (Ld := Ld) K (eq v0) (ask_engine (eng_update_inbound (update_spec i)))
    (fun r v => match r with
      | Ok _ => exists c, v0 !! inbound_tag i = Some c /\
          v = <[inbound_tag i := (InboundSpec.config (spec (compiled i)), c.2)]> v0
      | Err _ => v = v0 end) X.
Proof.
  apply triple_ask. intros e e' r -> H%law_update. destruct r as [info|err].
  - destruct H as (c & Hc & Hb & Hp). split; [by split|]. by exists c.
  - destruct H as [Hb Hp]. by split; [split|].
Qed.

Lemma replace_triple current registry accounting new replay v0 :
  inbound_ok new -> inbound_tag current = inbound_tag new ->
  triple (eq v0) (replace_inbound_with_replay_owners current registry accounting new replay)
    (fun _ v => v = <[inbound_tag new := image new]> v0) (fun _ _ => True).
Proof.
  intros Hn Ht. unfold replace_inbound_with_replay_owners.
  apply (triple_bind _ _ _ (fun _ v => v = delete (inbound_tag new) v0)).
  { eapply triple_weaken; [apply stop_triple|done| |done]. intros _ v ->. by rewrite Ht. }
  intros _. eapply triple_bind.
  { eapply triple_pre; [apply (start_triple new replay (delete (inbound_tag new) v0)); done|by intros v ->]. }
  intros [info|err]; [apply triple_ret; intros v [_ ->]; by rewrite insert_delete_eq|].
  apply (triple_bind _ _ _ (fun _ _ => True)); [|intros [info|err']; by apply triple_raise].
  intros rt rt' r _ Hr. unfold ask_engine, start.
  destruct (eng_add_inbound_with_replay _ _ (engine rt)) as [e x] eqn:Ex. intros [= <- <-].
  apply law_add_replay in Ex. split_and!; [|done|done]. split; try done.
  destruct x; [by destruct Ex as (_ & _ & Hp)|by destruct Ex as [_ Hp]].
Qed.

(** ** Undoing *)

Definition id_of (user : UserSpec.t) : string := default "" (UserSpec.resolved_id user).

Definition undo_view (u : Undo) v : view :=
  match u with
  | AddInbound i _ => <[inbound_tag i := image i]> v
  | RemoveInbound live _ => delete (inbound_tag live) v
  | RestoreHotConfig _ previous _ => <[inbound_tag previous := image previous]> v
  | AddUser i user | RestoreUser i user _ => alter (with_users (insert (id_of user) user)) (inbound_tag i) v
  | RemoveUser live _ id => alter (with_users (delete id)) (inbound_tag live) v
  end.

Definition undo_ok (u : Undo) : Prop :=
  match u with
  | AddInbound i _ => inbound_ok i
  | RestoreHotConfig current previous _ => inbound_ok previous /\ inbound_tag current = inbound_tag previous
  | AddUser _ user | RestoreUser _ user _ => is_Some (UserSpec.resolved_id user)
  | RemoveInbound _ _ | RemoveUser _ _ _ => True
  end.

Lemma add_user_triple {F} {K} tag user v0 (X : F -> view -> Prop) :
  triple_at (Ld := Ld) K (eq v0) (ask_engine (eng_add_user tag user))
    (fun r v => match r with
      | Ok _ => is_Some (v0 !! tag) /\ v = alter (with_users (insert (id_of user) user)) tag v0
      | Err _ => v = v0 end) X.
Proof.
  apply triple_ask. intros e e' r -> H%law_add_user. destruct r as [info|err].
  - destruct H as (id & c & us & Hid & Hl & Hb & Hp). split; [by split|]. rewrite Hl. split; [by eexists|].
    unfold id_of. by rewrite Hb, Hid, (alter_at _ _ _ _ Hl).
  - destruct H as [Hb Hp]. by split; [split|].
Qed.

Lemma undo_triple u owners v0 :
  undo_ok u -> triple (eq v0) (undo u owners) (fun _ v => v = undo_view u v0) (fun _ _ => True).
Proof.
  intros Hok. destruct u as [i replay|live accounting|current previous replay|i user|live accounting id|i user kick];
    cbn [undo undo_view undo_ok] in *.
  - apply triple_then.
    apply triple_on_engine. eapply triple_post; [apply start_triple, Hok|].
    by intros [a|e] v; [intros [_ ->]|].
  - apply triple_then.
    apply triple_with_fail. by eapply triple_weaken; [apply stop_triple| | |].
  - destruct Hok as [Hp Ht]. apply triple_then.
    apply triple_with_fail. by apply replace_triple.
  - apply triple_then.
    apply triple_on_engine. eapply triple_post; [apply add_user_triple|].
    by intros [a|e] v; [intros [_ ->]|].
  - apply triple_then.
    eapply triple_weaken; [apply (retire_user_triple _ _ _ _ _ v0 (fun _ _ => True)); done|done| |done].
    intros [] v (c & us & Hl & ->). by rewrite (alter_at _ _ _ _ Hl).
  - apply (triple_bind _ _ _ (fun _ v => v = alter (with_users (insert (id_of user) user)) (inbound_tag i) v0)).
    { apply triple_on_engine. eapply triple_post; [apply add_user_triple|].
      by intros [a|e] v; [intros [_ ->]|]. }
    intros _. destruct kick; [|by apply triple_ret].
    apply triple_then.
    apply triple_on_engine, triple_ask. intros e e' r Hv [Hb Hp]%law_kick.
    split; [by split|]. destruct r; [by rewrite Hb|done].
Qed.

Definition rewind (popped : list Undo) v : view := foldl (fun v u => undo_view u v) v popped.

Lemma rollback_triple {F} popped errors owners v0 (X : F -> view -> Prop) :
  Forall undo_ok popped ->
  triple (eq v0) (rollback_from popped errors owners)
    (fun res v => res.1 = [] -> errors = [] /\ v = rewind popped v0) X.
Proof.
  intros Hok. revert errors owners v0. induction Hok as [|u popped Hu Hok IH]; intros errors owners v0.
  { intros rt rt' r Hv Hr [= <- <-]. split_and!; [apply framed_refl|done|]. by intros. }
  intros rt rt' r Hv Hr. cbn [rollback_from].
  destruct (undo u owners rt) as [rt1 [ow|[e|msg]]] eqn:Ex;
    destruct (undo_triple u owners v0 Hu _ _ _ Hv Hr Ex) as (Hf1 & Hr1 & H1).
  - intros H. destruct (IH _ _ (undo_view u v0) _ _ _ (eq_sym H1) Hr1 H) as (Hf2 & Hr2 & H2).
    split_and!; [by eapply framed_trans|done|done].
  - intros H. destruct (IH _ _ _ _ _ _ eq_refl Hr1 H) as (Hf2 & Hr2 & H2).
    split_and!; [by eapply framed_trans|done|]. destruct r as [res|[f|m]]; [|done|done].
    intros Hn. destruct (H2 Hn) as [Hx _]. by destruct errors.
  - done.
Qed.
End rollback.
