(* ===== verification/RuntimeApply.v ===== *)
(** * The shoes runtime: what [diff_configs] finds

    A tag is removed, added or changed exactly as the two configurations say, the
    two user loops lead from the old users to the new ones ([users_reconciled]),
    and a tag that is not listed asks for the same as before ([unchanged_image]). *)

From Stdlib Require Import ZArith Lia.
From S2P Require Import Prelude Bytes Traffic TrafficQueue Credentials Manager Adapter EngineApi PendingTraffic Runtime RuntimeTx.
From S2P Require Import RuntimeSpec.

Open Scope Z_scope.

(** ** Differences of configurations *)

Lemma btree_iter_NoDup {A} (m : gmap string A) : NoDup (btree_iter m).*1.
Proof. rewrite btree_iter_perm. apply NoDup_fst_map_to_list. Qed.

Lemma elem_of_filter_bool {A} (p : A -> bool) x (l : list A) : x ∈ List.filter p l <-> x ∈ l /\ p x = true.
Proof. rewrite !list_elem_of_In. apply filter_In. Qed.

Lemma NoDup_filter_fst {A} (p : string * A -> bool) (l : list (string * A)) :
  NoDup l.*1 -> NoDup (List.filter p l).*1.
Proof.
  induction l as [|[k x] l IH]; cbn; [done|]. intros [Hk Hl]%NoDup_cons. destruct (p (k, x)); [|auto].
  cbn. apply NoDup_cons. split; [|auto]. intros ([k' x'] & -> & [Hx _]%elem_of_filter_bool)%list_elem_of_fmap.
  apply Hk. by apply (list_elem_of_fmap_2 fst _ (k', x')).
Qed.

(** The keys an [omap] keeps are among the keys there were. *)
Lemma NoDup_omap_key {A B} (f : A -> option B) (k : A -> string) (k' : B -> string) (l : list A) :
  (forall x y, f x = Some y -> k' y = k x) -> NoDup (k <$> l) -> NoDup (k' <$> omap f l).
Proof.
  intros Hf. induction l as [|x l IH]; cbn; [done|]. intros [Hk Hl]%NoDup_cons.
  destruct (f x) as [y|] eqn:Hy; [|auto]. cbn. apply NoDup_cons. split; [|auto].
  rewrite (Hf _ _ Hy). intros (y' & E & Hy')%list_elem_of_fmap. apply list_elem_of_omap in Hy' as (x' & Hx' & Hfx).
  apply Hk. rewrite E, (Hf _ _ Hfx). by apply list_elem_of_fmap_2.
Qed.

Lemma same_user_eq x y : same_user x y = true -> x = y.
Proof.
  unfold same_user. rewrite !andb_true_iff, !bool_decide_eq_true. destruct x, y; cbn. naive_solver.
Qed.

(** Users deleted, then written: the second loop over a changed inbound. *)
Definition delete_ids (ids : list string) (us : gmap string UserSpec.t) : gmap string UserSpec.t :=
  foldl (fun us id => delete id us) us ids.
Definition upsert_all (new : gmap string UserSpec.t) (ids : list string) (us : gmap string UserSpec.t)
    : gmap string UserSpec.t :=
  foldl (fun us id => match new !! id with Some u => <[id := u]> us | None => us end) us ids.

Lemma lookup_delete_ids ids us id :
  delete_ids ids us !! id = if decide (id ∈ ids) then None else us !! id.
Proof.
  unfold delete_ids. revert us. induction ids as [|x ids IH]; intros us; cbn [foldl].
  { by rewrite decide_False by apply not_elem_of_nil. }
  rewrite IH. destruct (decide (id ∈ ids)) as [Hin|Hin].
  - by rewrite decide_True by (by right).
  - destruct (decide (id = x)) as [->|Hne].
    + by rewrite lookup_delete_eq, decide_True by (by left).
    + rewrite lookup_delete_ne by done. rewrite decide_False; [done|]. by intros [?|?]%elem_of_cons.
Qed.

Lemma lookup_upsert_all new ids us id :
  upsert_all new ids us !! id = if decide (id ∈ ids /\ is_Some (new !! id)) then new !! id else us !! id.
Proof.
  unfold upsert_all. revert us. induction ids as [|x ids IH]; intros us; cbn [foldl].
  { rewrite decide_False; [done|]. by intros [?%not_elem_of_nil _]. }
  rewrite IH. destruct (decide (id ∈ ids /\ is_Some (new !! id))) as [[Hin Hn]|Hin].
  - rewrite decide_True; [done|]. split; [by right|done].
  - destruct (new !! x) as [u|] eqn:Hx.
    + destruct (decide (id = x)) as [->|Hne].
      * rewrite lookup_insert_eq, decide_True; [done|]. split; [by left|by rewrite Hx].
      * rewrite lookup_insert_ne by done. rewrite decide_False; [done|].
        intros [[?|?]%elem_of_cons Hn]; [done|]. by apply Hin.
    + rewrite decide_False; [done|]. intros [[->|?]%elem_of_cons Hn]; [by rewrite Hx in Hn; destruct Hn|by apply Hin].
Qed.

(** The same, change by change. *)
Definition upsert (new : gmap string UserSpec.t) (us : gmap string UserSpec.t) (d : UserDelta) : gmap string UserSpec.t :=
  match new !! delta_id d with Some u => <[delta_id d := u]> us | None => us end.

Lemma upsert_all_fmap new ds us : upsert_all new (delta_id <$> ds) us = foldl (upsert new) us ds.
Proof. unfold upsert_all. by rewrite foldl_fmap. Qed.

Section diff.
Context {V : Type} `{!ValueOps V}.
Local Abbreviation NormalizedInbound := (NormalizedInbound V).
Implicit Types before after : NormalizedInbound.

Definition removed_ids before after : list string :=
  (List.filter (missing_in (users after)) (btree_iter (users before))).*1.
Definition upserts before after : list UserDelta :=
  omap (user_delta (users before)) (btree_iter (users after)).

Lemma removed_ids_spec before after id :
  id ∈ removed_ids before after <-> is_Some (users before !! id) /\ users after !! id = None.
Proof.
  unfold removed_ids. rewrite list_elem_of_fmap. split.
  - intros ([k u] & -> & [Hin Hm]%elem_of_filter_bool). apply elem_of_btree_iter in Hin. cbn in *.
    split; [by exists u|]. unfold missing_in in Hm. apply negb_true_iff, bool_decide_eq_false in Hm.
    by apply eq_None_not_Some.
  - intros [[u Hu] Ha]. exists (id, u). split; [done|]. apply elem_of_filter_bool.
    split; [by apply elem_of_btree_iter|]. unfold missing_in. cbn. rewrite Ha.
    by rewrite bool_decide_eq_false_2 by (by intros []).
Qed.

Lemma upserts_spec before after d :
  d ∈ upserts before after <->
  exists u, users after !! delta_id d = Some u /\ user_delta (users before) (delta_id d, u) = Some d.
Proof.
  unfold upserts. rewrite list_elem_of_omap. split.
  - intros ([k u] & Hin%elem_of_btree_iter & Hd). assert (delta_id d = k) as ->; [|by exists u].
    unfold user_delta in Hd. destruct (users before !! k) as [old|]; [destruct (same_user old u)|]; by simplify_eq.
  - intros (u & Hu & Hd). exists (delta_id d, u). split; [by apply elem_of_btree_iter|done].
Qed.

Lemma user_delta_id (us : gmap string UserSpec.t) (kv : string * UserSpec.t) d : user_delta us kv = Some d -> delta_id d = kv.1.
Proof. destruct kv as [k u]. unfold user_delta. destruct (us !! k); [destruct (same_user _ _)|]; by intros [= <-]. Qed.

Lemma upserts_NoDup before after : NoDup (delta_id <$> upserts before after).
Proof.
  apply (NoDup_omap_key _ fst); [intros x y; apply user_delta_id|apply btree_iter_NoDup].
Qed.

(** The two loops lead from the old users to the new ones. *)
Lemma users_reconciled before after :
  upsert_all (users after) (delta_id <$> upserts before after)
    (delete_ids (removed_ids before after) (users before)) = users after.
Proof.
  apply map_eq. intros id. rewrite lookup_upsert_all, lookup_delete_ids.
  destruct (decide (_ /\ _)) as [?|Hn]; [done|].
  destruct (decide (id ∈ removed_ids before after)) as [Hr|Hr].
  { by apply removed_ids_spec in Hr as [_ ->]. }
  destruct (users after !! id) as [u|] eqn:Ha.
  - destruct (user_delta (users before) (id, u)) as [d|] eqn:Hd.
    + exfalso. apply Hn. pose proof (user_delta_id _ _ _ Hd) as Hid. cbn in Hid. subst id. split; [|done].
      apply list_elem_of_fmap_2, upserts_spec. by exists u.
    + unfold user_delta in Hd. destruct (users before !! id) as [old|]; [|done].
      destruct (same_user old u) eqn:Hs; [|done]. by apply same_user_eq in Hs as ->.
  - destruct (users before !! id) as [u|] eqn:Hb; [|done]. exfalso. apply Hr, removed_ids_spec. by rewrite Hb.
Qed.

Lemma users_unchanged before after :
  removed_ids before after = [] -> upserts before after = [] -> users before = users after.
Proof. intros Hr Hu. pose proof (users_reconciled before after) as H. by rewrite Hr, Hu in H. Qed.

(** ** Changed inbounds *)

Record changes (sets : bool) before after (d : InboundDelta) : Prop := {
  ch_config : config_changed d = sets || negb (bool_decide
      (InboundSpec.config (spec (compiled before)) = InboundSpec.config (spec (compiled after))));
  ch_mode : user_mode_changed d = negb (Bool.eqb (dynamic_users before) (dynamic_users after));
  ch_removed : removed_users d = removed_ids before after;
  ch_upserts : upsert_users d = upserts before after
}.

Lemma diff_inbound_Some sets tag before after d :
  diff_inbound sets tag before after = Some d -> delta_tag d = tag /\ changes sets before after d.
Proof. unfold diff_inbound. destruct (_ || _); [|done]. by intros [= <-]. Qed.

Lemma diff_inbound_None sets tag before after :
  diff_inbound sets tag before after = None -> image before = image after.
Proof.
  unfold diff_inbound. fold (removed_ids before after) (upserts before after).
  destruct (_ || _) eqn:Ho; [done|]. intros _.
  apply orb_false_iff in Ho as [Ho Hu]. apply orb_false_iff in Ho as [Ho Hr]. apply orb_false_iff in Ho as [Hc Hm].
  apply orb_false_iff in Hc as [_ Hc]. apply negb_false_iff, bool_decide_eq_true in Hc.
  apply negb_false_iff, eqb_prop in Hm. apply negb_false_iff, bool_decide_eq_true in Hr.
  assert (upserts before after = []) as Hu' by (by destruct (upserts before after)).
  unfold image. by rewrite Hc, Hm, (users_unchanged _ _ Hr Hu').
Qed.

Context (current desired : NormalizedConfig V).
Local Abbreviation diff := (diff_configs current desired).
Definition sets_changed : bool := negb (bool_decide (rule_set_digest current = rule_set_digest desired)).

Lemma removed_spec tag : tag ∈ diff_removed diff <-> is_Some (tags current !! tag) /\ tags desired !! tag = None.
Proof.
  cbn. rewrite list_elem_of_fmap. split.
  - intros ([k i] & -> & [Hin Hm]%elem_of_filter_bool). apply elem_of_btree_iter in Hin. cbn in *.
    split; [by exists i|]. unfold missing_in in Hm. apply negb_true_iff, bool_decide_eq_false in Hm.
    by apply eq_None_not_Some.
  - intros [[i Hi] Ha]. exists (tag, i). split; [done|]. apply elem_of_filter_bool.
    split; [by apply elem_of_btree_iter|]. unfold missing_in. cbn. rewrite Ha.
    by rewrite bool_decide_eq_false_2 by (by intros []).
Qed.

Lemma added_spec tag : tag ∈ diff_added diff <-> is_Some (tags desired !! tag) /\ tags current !! tag = None.
Proof.
  cbn. rewrite list_elem_of_fmap. split.
  - intros ([k i] & -> & [Hin Hm]%elem_of_filter_bool). apply elem_of_btree_iter in Hin. cbn in *.
    split; [by exists i|]. unfold missing_in in Hm. apply negb_true_iff, bool_decide_eq_false in Hm.
    by apply eq_None_not_Some.
  - intros [[i Hi] Ha]. exists (tag, i). split; [done|]. apply elem_of_filter_bool.
    split; [by apply elem_of_btree_iter|]. unfold missing_in. cbn. rewrite Ha.
    by rewrite bool_decide_eq_false_2 by (by intros []).
Qed.

Definition delta_of (kv : string * NormalizedInbound) : option InboundDelta :=
  after ← tags desired !! kv.1; diff_inbound sets_changed kv.1 kv.2 after.

Lemma diff_changed_eq : diff_changed diff = omap delta_of (btree_iter (tags current)).
Proof. cbn. by apply list_omap_ext, Forall_Forall2_diag, Forall_forall; intros [tag before] _. Qed.

Lemma delta_of_tag kv d : delta_of kv = Some d -> delta_tag d = kv.1.
Proof. unfold delta_of. destruct (tags desired !! kv.1); [|done]. by intros [H _]%diff_inbound_Some. Qed.

Lemma changed_NoDup : NoDup (delta_tag <$> diff_changed diff).
Proof. rewrite diff_changed_eq. apply (NoDup_omap_key _ fst); [apply delta_of_tag|apply btree_iter_NoDup]. Qed.

Lemma changed_spec d :
  d ∈ diff_changed diff -> exists before after,
    tags current !! delta_tag d = Some before /\ tags desired !! delta_tag d = Some after /\
    changes sets_changed before after d.
Proof.
  rewrite diff_changed_eq, list_elem_of_omap. intros ([tag before] & Hin%elem_of_btree_iter & Hd).
  pose proof (delta_of_tag _ _ Hd) as Ht. cbn in Ht. subst tag. unfold delta_of in Hd. cbn in Hd.
  destruct (tags desired !! delta_tag d) as [after|] eqn:Ha; [|done]. cbn in Hd.
  apply diff_inbound_Some in Hd as [_ Hc]. by exists before, after.
Qed.

Lemma unchanged_image tag before after :
  tags current !! tag = Some before -> tags desired !! tag = Some after ->
  tag ∉ delta_tag <$> diff_changed diff -> image before = image after.
Proof.
  intros Hb Ha Hn. destruct (diff_inbound sets_changed tag before after) as [d|] eqn:Hd.
  - exfalso. apply Hn. apply diff_inbound_Some in Hd as Ht. destruct Ht as [<- _].
    apply list_elem_of_fmap_2. rewrite diff_changed_eq. apply list_elem_of_omap.
    exists (delta_tag d, before). split; [by apply elem_of_btree_iter|]. unfold delta_of. cbn. by rewrite Ha.
  - by eapply diff_inbound_None.
Qed.
End diff.

(** ** The shoes runtime: one transaction over the engine

    [execute_apply] takes the served view from the image of the current
    configuration to that of the desired one, and at every point of it the journal
    leads back ([Good]); a failure that reports a local restoration keeps that
    ([Broken]). *)

Open Scope Z_scope.

Section apply.
Context {E L V Y Res Ld Prep : Type}.
Context `{!ValueOps V} `{!YamlOps Y} `{!EngineOps E L V} `{!EngineLaws E L V} `{!RuleSetOps Ld Res Prep V}.

Local Abbreviation NormalizedInbound := (NormalizedInbound V).
Local Abbreviation NormalizedConfig := (NormalizedConfig V).
Local Abbreviation runtime := (runtime (E := E) (L := L) (V := V) (Ld := Ld)).
Local Abbreviation Undo := (Undo (L := L) (V := V)).
Local Abbreviation method F := (stm runtime (exn F)).
Local Abbreviation step := (stm (list Undo * runtime) (exn StepFailure.t)).
Local Abbreviation view := (view V).
Local Abbreviation triple := (triple_at (Ld := Ld) receipts_ok).
Local Abbreviation served rt := (live (engine rt)).
Implicit Types rt : runtime.
Implicit Types v : view.
Implicit Types j : list Undo.

(** The view the transaction started from. *)
Context (v_start : view).

Definition Good j v : Prop := Forall undo_ok j /\ rewind (rev j) v = v_start.
Definition Broken (f : StepFailure.t) j v : Prop :=
  Forall undo_ok j /\ (StepFailure.restored f = true -> rewind (rev j) v = v_start).

(** From a good state where [P] holds, a step leads to a good one where [Q] holds,
    or fails with the journal intact. *)
Definition advances {A} (P : view -> Prop) (m : step A) (Q : A -> view -> Prop) : Prop := forall j rt j' rt' r,
  Good j (served rt) -> P (served rt) -> receipts_ok (pending_traffic rt) -> m (j, rt) = ((j', rt'), r) ->
  framed rt rt' /\ receipts_ok (pending_traffic rt') /\
  match r with
  | Ok a => Good j' (served rt') /\ Q a (served rt')
  | Err (Fail f) => Broken f j' (served rt')
  | Err (Panic _) => False
  end.

Lemma advances_weaken {A} (P P' : view -> Prop) (m : step A) (Q Q' : A -> view -> Prop) :
  advances P m Q -> (forall v, P' v -> P v) -> (forall a v, Q a v -> Q' a v) -> advances P' m Q'.
Proof.
  intros H HP HQ j rt j' rt' r Hg Hp Hr Ex. destruct (H j rt j' rt' r Hg (HP _ Hp) Hr Ex) as (Hf & Hr' & Hc).
  split_and!; [done|done|]. destruct r as [a|[f|m']]; [|done|done]. destruct Hc. auto.
Qed.

Lemma advances_ret {A} (P : view -> Prop) (a : A) (Q : A -> view -> Prop) :
  (forall v, P v -> Q a v) -> advances P (mret a) Q.
Proof. intros H j rt j' rt' r Hg Hp Hr [= <- <- <-]. split_and!; [apply framed_refl|done|done|auto]. Qed.

Lemma advances_bind {A B} (P : view -> Prop) (m : step A) (k : A -> step B) (Q : A -> view -> Prop) (Q' : B -> view -> Prop) :
  advances P m Q -> (forall a, advances (Q a) (k a) Q') -> advances P (m ≫= k) Q'.
Proof.
  intros Hm Hk j rt j' rt' r Hg Hp Hr. unfold mbind, stm_bind.
  destruct (m (j, rt)) as [[j1 rt1] [a|[f|msg]]] eqn:H1e; destruct (Hm _ _ _ _ _ Hg Hp Hr H1e) as (Hf1 & Hr1 & H1).
  - destruct H1 as [Hg1 Hq1]. intros E2. destruct (Hk a _ _ _ _ _ Hg1 Hq1 Hr1 E2) as (Hf2 & Hr2 & H2).
    split_and!; [by eapply framed_trans|done|done].
  - intros [= <- <- <-]. done.
  - done.
Qed.

Lemma advances_found {A B} (P : view -> Prop) msg (o : option A) a (k : A -> step B) (Q : B -> view -> Prop) :
  o = Some a -> advances P (k a) Q -> advances P (expect msg o ≫= k) Q.
Proof. intros -> H. exact H. Qed.

(** A failure of the engine that changed nothing. *)
Lemma advances_unchanged {A} (P : view -> Prop) what error (Q : A -> view -> Prop) :
  advances P (unchanged_step what error) Q.
Proof.
  intros j rt j' rt' r [Hok Hg] Hp Hr [= <- <- <-]. split_and!; [apply framed_refl|done|].
  split; [done|by intros _].
Qed.

(** A method that leaves the served view alone. *)
Lemma advances_quiet {A} (P : view -> Prop) (m : method StepFailure.t A) (Q : A -> view -> Prop) :
  (forall v0, P v0 -> triple (eq v0) m (fun a v => v = v0 /\ Q a v) (fun f v => StepFailure.restored f = true -> v = v0)) ->
  advances P (during m) Q.
Proof.
  intros Hm j rt j' rt' r [Hok Hg] Hp Hr. unfold during. destruct (m rt) as [rt1 r1] eqn:Ex. intros [= <- <- <-].
  destruct (Hm _ Hp _ _ _ eq_refl Hr Ex) as (Hf & Hr1 & H1). split_and!; [done|done|].
  destruct r1 as [a|[f|msg]]; [|split; [done|]|done].
  - destruct H1 as [H1 Hq]. split; [split; [done|by rewrite H1]|done].
  - intros Hrest. by rewrite (H1 Hrest).
Qed.

(** A change followed by the journal entry that undoes it. *)
Lemma advances_change {A} v0 (m : step A) (entry : A -> option Undo) (k : A -> step unit) (Q : view -> Prop) :
  (forall j rt j' rt' r, served rt = v0 -> receipts_ok (pending_traffic rt) -> m (j, rt) = ((j', rt'), r) ->
     framed rt rt' /\ receipts_ok (pending_traffic rt') /\ j' = j /\
     match r with
     | Ok a => exists u, entry a = Some u /\ undo_ok u /\ undo_view u (served rt') = v0 /\ Q (served rt')
     | Err (Fail f) => StepFailure.restored f = true -> served rt' = v0
     | Err (Panic _) => False
     end) ->
  (forall a u, entry a = Some u -> k a = journal u) ->
  advances (eq v0) (m ≫= k) (fun _ => Q).
Proof.
  intros Hm Hk j rt j' rt' r [Hok Hg] Hv Hr. unfold mbind, stm_bind.
  destruct (m (j, rt)) as [[j1 rt1] r1] eqn:Ex.
  destruct (Hm _ _ _ _ _ (eq_sym Hv) Hr Ex) as (Hf1 & Hr1 & -> & H1).
  destruct r1 as [a|[f|msg]]; [|intros [= <- <- <-]|done].
  - destruct H1 as (u & Hu & Huok & Hundo & Hq). rewrite (Hk _ _ Hu). intros [= <- <- <-].
    split; [done|]. split; [done|]. split; [|done]. split; [apply Forall_app; by repeat constructor|].
    rewrite rev_app_distr. cbn [rev app rewind foldl]. by rewrite Hundo, Hv.
  - split; [done|]. split; [done|]. split; [done|]. intros Hrest. by rewrite (H1 Hrest), Hv.
Qed.

(** A method followed by its journal entry. *)
Lemma advances_during v0 (m : method StepFailure.t unit) u (Q : view -> Prop) :
  undo_ok u ->
  triple (eq v0) m (fun _ v => undo_view u v = v0 /\ Q v) (fun f v => StepFailure.restored f = true -> v = v0) ->
  advances (eq v0) (_ ← during m; journal u) (fun _ => Q).
Proof.
  intros Hu Hm. apply (advances_change v0 _ (fun _ => Some u)); [|by intros a u' [= <-]].
  intros j rt j' rt' r Hv Hr. unfold during. destruct (m rt) as [rt1 r1] eqn:Ex. intros [= <- <- <-].
  destruct (Hm _ _ _ (eq_sym Hv) Hr Ex) as (Hf & Hr1 & H1). split_and!; [done|done|done|].
  destruct r1 as [a|[f|msg]]; [|done|done]. destruct H1. by exists u.
Qed.

Lemma advances_assoc {A B C} (P : view -> Prop) (m : step A) (k : A -> step B) (k' : B -> step C) (Q : C -> view -> Prop) :
  advances P ((m ≫= k) ≫= k') Q -> advances P (m ≫= fun a => k a ≫= k') Q.
Proof.
  intros H j rt j' rt' r Hg Hp Hr Ex. apply (H j rt); [done|done|done|]. revert Ex.
  unfold mbind, stm_bind. by destruct (m (j, rt)) as [s1 [a|x]].
Qed.

Lemma advances_assoc_r {A B C} (P : view -> Prop) (m : step A) (k : A -> step B) (k' : B -> step C) (Q : C -> view -> Prop) :
  advances P (m ≫= fun a => k a ≫= k') Q -> advances P ((m ≫= k) ≫= k') Q.
Proof.
  intros H j rt j' rt' r Hg Hp Hr Ex. apply (H j rt); [done|done|done|]. revert Ex.
  unfold mbind, stm_bind. by destruct (m (j, rt)) as [s1 [a|x]].
Qed.

(** An engine call whose refusal the transaction can survive. *)
Lemma advances_ask {A B} v0 (m : stm E EngineError.t A) u (R : view -> Prop)
    (k : result EngineError.t A -> step B) (k' : A -> step B) (Q : B -> view -> Prop) :
  undo_ok u ->
  triple (eq v0) (ask_engine m) (fun r v => match r with
    | Ok _ => undo_view u v = v0 /\ R v | Err _ => v = v0 end) (fun (_ : StepFailure.t) _ => True) ->
  (forall a, k (Ok a) = (_ ← journal u; k' a)) -> (forall a, advances R (k' a) Q) ->
  (forall error, advances (eq v0) (k (Err error)) Q) ->
  advances (eq v0) (during (ask_engine m) ≫= k) Q.
Proof.
  intros Hu Hm Hk Hok Herr j rt j' rt' r Hg Hv Hr. unfold during, mbind at 1, stm_bind at 1.
  destruct (ask_engine m rt) as [rt1 r1] eqn:Ex. destruct (Hm _ _ _ Hv Hr Ex) as (Hf & Hr1 & H1).
  destruct r1 as [[a|err]|x]; [| |by unfold ask_engine in Ex; destruct (m (engine rt))].
  - destruct H1 as [Hundo HR]. rewrite Hk. destruct Hg as [Hj Hg]. unfold mbind, stm_bind, journal, modify.
    assert (Good (j ++ [u]) (served rt1)) as Hg1.
    { split; [apply Forall_app; by repeat constructor|].
      rewrite rev_app_distr. cbn [rev app rewind foldl]. by rewrite Hundo, Hv. }
    intros H. destruct (Hok a _ _ _ _ _ Hg1 HR Hr1 H) as (Hf2 & Hr2 & H2).
    split; [by eapply framed_trans|done].
  - intros H. destruct (Herr err _ _ _ _ _ ltac:(rewrite H1, Hv; exact Hg) (eq_sym H1) Hr1 H) as (Hf2 & Hr2 & H2).
    split; [by eapply framed_trans|done].
Qed.

Lemma advances_try {A} v0 what (m : stm E EngineError.t A) u (Q : view -> Prop) :
  undo_ok u ->
  triple (eq v0) (ask_engine m) (fun r v => match r with
    | Ok _ => undo_view u v = v0 /\ Q v | Err _ => v = v0 end) (fun (_ : StepFailure.t) _ => True) ->
  advances (eq v0) (_ ← try_step what m; journal u) (fun _ => Q).
Proof.
  intros Hu Hm. apply advances_assoc_r. unfold try_step.
  eapply (advances_ask _ _ u Q _ (fun _ => mret tt)); [done|exact Hm|done| |].
  - intros a. by apply advances_ret.
  - intros err. apply (advances_bind _ _ _ (fun _ _ => False)); [apply advances_unchanged|].
    intros a j rt j' rt' r Hg [].
Qed.

(** A loop whose rounds act on an abstract state. *)
Lemma advances_fold {X S} (st : S -> view) (f : S -> X -> S) (l : list X) (body : X -> step unit) s0 :
  (forall pre x rest, l = pre ++ x :: rest ->
     advances (eq (st (foldl f s0 pre))) (body x) (fun _ v => v = st (f (foldl f s0 pre) x))) ->
  advances (eq (st s0)) (for_in l body) (fun _ v => v = st (foldl f s0 l)).
Proof.
  intros Hb. assert (forall done todo, l = done ++ todo ->
    advances (eq (st (foldl f s0 done))) (for_in todo body) (fun _ v => v = st (foldl f s0 l))) as H.
  { intros done todo. revert done. induction todo as [|x todo IH]; intros done ->; cbn [for_in].
    - apply advances_ret. rewrite app_nil_r. by intros v <-.
    - eapply advances_bind; [by eapply Hb|]. intros [].
      eapply advances_weaken; [apply (IH (done ++ [x])); by rewrite <- app_assoc| |done].
      intros v ->. by rewrite foldl_app. }
  by apply (H [] l).
Qed.

Lemma advances_eq {A} (P : view -> Prop) (m : step A) (Q : A -> view -> Prop) :
  (forall v0, P v0 -> advances (eq v0) m Q) -> advances P m Q.
Proof. intros H j rt j' rt' r Hg Hp Hr. by apply (H _ Hp). Qed.

(** An engine call that leaves the served view alone, whatever it answers. *)
Lemma advances_try_quiet {A} (P : view -> Prop) what (m : stm E EngineError.t A) :
  (forall e e' r, m e = (e', r) -> becomes e e' (live e)) -> advances P (try_step what m) (fun _ => P).
Proof.
  intros Hm. unfold try_step. apply (advances_bind _ _ _ (fun _ => P)); [|intros [a|err]].
  - apply advances_quiet. intros v0 Hp. apply (triple_ask _ _ (fun r v => v = v0 /\ P v)).
    intros e e' r -> [Hb Hd]%Hm. rewrite Hb. done.
  - by apply advances_ret.
  - apply advances_unchanged.
Qed.

Lemma advances_preserve (P : view -> Prop) what tag : advances P (preserve what tag) (fun _ => P).
Proof. apply advances_try_quiet. by intros e e' r [= <- _]. Qed.

(** A loop over distinct tags, each of which it takes from [before] to [after]. *)
Lemma advances_phase {X} (k : X -> string) (before after : string -> option (cell V)) (l : list X) (body : X -> step unit) :
  NoDup (k <$> l) ->
  (forall x v0, x ∈ l -> v0 !! k x = before (k x) ->
     advances (eq v0) (body x) (fun _ v => v = partial_alter (fun _ => after (k x)) (k x) v0)) ->
  advances (fun v => forall tag, v !! tag = before tag) (for_in l body)
    (fun _ v => forall tag, v !! tag = if decide (tag ∈ k <$> l) then after tag else before tag).
Proof.
  revert before. induction l as [|x l IH]; intros before; cbn [for_in fmap list_fmap].
  { intros _ _. apply advances_ret. intros v Hv tag. by rewrite decide_False by apply not_elem_of_nil. }
  intros [Hx Hl]%NoDup_cons Hb.
  set (mid := fun tag => if decide (tag = k x) then after tag else before tag).
  apply (advances_bind _ _ _ (fun _ v => forall tag, v !! tag = mid tag)).
  - apply advances_eq. intros v0 Hv. eapply advances_weaken; [apply (Hb x v0); [by left|done]|done|].
    intros _ v -> tag. unfold mid. destruct (decide (tag = k x)) as [->|Hne];
      [by rewrite lookup_partial_alter_eq|by rewrite lookup_partial_alter_ne].
  - intros _. eapply advances_weaken; [apply (IH mid); [done|]|done|].
    + intros y v0 Hy Hv. apply Hb; [by right|]. rewrite Hv. unfold mid. rewrite decide_False; [done|].
      intros E0. apply Hx. rewrite <- E0. by apply list_elem_of_fmap_2.
    + cbn. intros _ v Hv tag. rewrite Hv. unfold mid.
      destruct (decide (tag ∈ k <$> l)) as [Hin|Hin]; [by rewrite decide_True by (by right)|].
      destruct (decide (tag = k x)) as [->|Hne]; [by rewrite decide_True by (by left)|].
      rewrite decide_False; [done|]. by intros [?|?]%elem_of_cons.
Qed.
End apply.
