(* ===== verification/RuntimeReconcile.v ===== *)
(** * The shoes runtime: a candidate applied

    [execute_apply], in place or as a full reload, leads from the image of the
    current configuration to that of the desired one ([execute_apply_advances]). *)

From Stdlib Require Import ZArith Lia.
From S2P Require Import Prelude Bytes Traffic TrafficQueue Credentials Manager Adapter EngineApi PendingTraffic Runtime RuntimeTx.
From S2P Require Import RuntimeSpec RuntimeApply.

Open Scope Z_scope.

Section reconcile.
Context {E L V Y Res Ld Prep : Type}.
Context `{!ValueOps V} `{!YamlOps Y} `{!EngineOps E L V} `{!EngineLaws E L V} `{!RuleSetOps Ld Res Prep V}.

Local Abbreviation NormalizedInbound := (NormalizedInbound V).
Local Abbreviation NormalizedConfig := (NormalizedConfig V).
Local Abbreviation runtime := (runtime (E := E) (L := L) (V := V) (Ld := Ld)).
Local Abbreviation step := (stm (list (Undo (L := L) (V := V)) * runtime) (exn StepFailure.t)).
Local Abbreviation view := (view V).
Local Abbreviation triple := (triple_at (Ld := Ld) receipts_ok).
Implicit Types v : view.
Implicit Types i old new : NormalizedInbound.

Context (v_start : view).
Local Abbreviation advances := (advances (Ld := Ld) (L := L) v_start).

(** ** One listener *)

Lemma stop_image old v0 :
  inbound_ok old -> v0 !! inbound_tag old = Some (image old) ->
  triple (eq v0) (stop_inbound old) (fun _ v => v = delete (inbound_tag old) v0)
    (fun f v => StepFailure.restored f = true -> v = v0).
Proof.
  intros Ho Hv. eapply triple_weaken; [apply stop_triple|done|done|]. intros f v Hf. by apply Hf, knows_image.
Qed.

(** An old listener stopped, with the entry that brings it back. *)
Lemma stop_advances old replay v0 :
  inbound_ok old -> v0 !! inbound_tag old = Some (image old) ->
  advances (eq v0) (_ ← during (stop_inbound old); journal (AddInbound old replay))
    (fun _ v => v = delete (inbound_tag old) v0).
Proof.
  intros Ho Hv. apply advances_during; [done|]. eapply triple_post; [by apply stop_image|].
  intros _ v ->. split; [|done]. cbn. by apply insert_delete_id.
Qed.

(** A new listener started, by any of the engine's ways, with the entry that stops it. *)
Lemma start_advances new what accounting (m : stm E EngineError.t InboundInfo.t) v0 :
  inbound_ok new ->
  triple (eq v0) (ask_engine m) (fun r v => match r with
      | Ok _ => v0 !! inbound_tag new = None /\ v = <[inbound_tag new := image new]> v0
      | Err _ => v = v0 end) (fun (_ : StepFailure.t) _ => True) ->
  advances (eq v0) (_ ← try_step what m; journal (RemoveInbound new accounting))
    (fun _ v => v = <[inbound_tag new := image new]> v0).
Proof.
  intros Ho Hm. apply advances_try; [done|]. eapply triple_post; [exact Hm|].
  intros [a|e] v; [|done]. intros [Hn ->]. split; [|done]. cbn. by apply delete_insert_id.
Qed.

Context (current desired : NormalizedConfig).
Context (Hcurrent : config_ok current) (Hdesired : config_ok desired).

Lemma current_ok tag old : tags current !! tag = Some old -> inbound_ok old /\ inbound_tag old = tag.
Proof. apply (co_inbound _ Hcurrent). Qed.
Lemma desired_ok tag new : tags desired !! tag = Some new -> inbound_ok new /\ inbound_tag new = tag.
Proof. apply (co_inbound _ Hdesired). Qed.

(** ** The full reload *)

Lemma elem_btree_tags {A} (m : gmap string A) tag : tag ∈ (btree_iter m).*1 <-> is_Some (m !! tag).
Proof.
  rewrite list_elem_of_fmap. split.
  - intros ([k x] & -> & H%elem_of_btree_iter). by exists x.
  - intros [x H]. exists (tag, x). split; [done|by apply elem_of_btree_iter].
Qed.

Lemma stop_all_advances olds replay_by_tag :
  NoDup olds.*1 -> (forall tag old, (tag, old) ∈ olds -> tags current !! tag = Some old) ->
  advances (fun v => forall tag, v !! tag = if decide (tag ∈ olds.*1) then image <$> tags current !! tag else None)
    (stop_all olds replay_by_tag) (fun _ v => v = ∅).
Proof.
  revert replay_by_tag. induction olds as [|[tag old] olds IH]; intros replay_by_tag Hnd Hin; cbn [stop_all].
  { apply advances_ret. intros v Hv. apply map_eq. intros tag. rewrite Hv, lookup_empty.
    by rewrite decide_False by apply not_elem_of_nil. }
  cbn in Hnd. apply NoDup_cons in Hnd as [Hx Hnd]. assert (tags current !! tag = Some old) as Ht by (apply Hin; by left).
  destruct (current_ok _ _ Ht) as [Ho Htag].
  eapply advances_bind; [apply advances_preserve|]. intros replay.
  apply advances_eq. intros v0 Hv. apply advances_assoc. eapply advances_bind.
  { apply stop_advances; [done|]. rewrite Htag, Hv, Ht. cbn. by rewrite decide_True by (by left). }
  cbn. intros _. eapply advances_weaken; [apply (IH (<[tag := replay]> replay_by_tag) Hnd)| |done].
  { intros tag' old' H. apply Hin. by right. }
  intros v -> tag'. rewrite Htag. destruct (decide (tag' = tag)) as [->|Hne].
  - rewrite lookup_delete_eq. by rewrite decide_False.
  - rewrite lookup_delete_ne, Hv by done. cbn.
    destruct (decide (tag' ∈ olds.*1)) as [Hi|Hi]; [by rewrite decide_True by (by right)|].
    rewrite decide_False; [done|]. by intros [?|?]%elem_of_cons.
Qed.

Lemma full_reload_advances :
  advances (eq (image_config current)) (execute_full_reload current desired) (fun _ v => v = image_config desired).
Proof.
  unfold execute_full_reload. apply (advances_bind _ _ _ _ (fun _ v => v = ∅)).
  { eapply advances_weaken; [apply (stop_all_advances (btree_iter (tags current)) ∅)| |done].
    - apply btree_iter_NoDup.
    - by intros tag old H%elem_of_btree_iter.
    - intros v <- tag. unfold image_config. rewrite lookup_fmap. case_decide as Hi; [done|].
      rewrite elem_btree_tags in Hi. apply eq_None_not_Some in Hi. by rewrite Hi. }
  intros replay_by_tag.
  eapply advances_weaken; [apply (advances_phase _ fst (fun _ => None)
    (fun tag => image <$> tags desired !! tag) (btree_iter (tags desired)))| |].
  - apply btree_iter_NoDup.
  - intros [tag new] v0 Hin%elem_of_btree_iter Hv. cbn in *. destruct (desired_ok _ _ Hin) as [Ho Ht].
    eapply advances_weaken; [apply (start_advances new _ _ _ v0 Ho)|done|].
    + destruct (replay_by_tag !! tag); [by apply start_triple|by apply add_triple].
    + intros _ v ->. by rewrite Hin, Ht.
  - by intros v -> tag.
  - cbn. intros _ v Hv. apply map_eq. intros tag. rewrite Hv. unfold image_config. rewrite lookup_fmap.
    case_decide as Hi; [done|]. rewrite elem_btree_tags in Hi. apply eq_None_not_Some in Hi. by rewrite Hi.
Qed.

(** ** In place: removed tags, and the changed ones classified *)

Local Abbreviation diff := (diff_configs current desired).

Lemma remove_old_advances tag v0 :
  tag ∈ diff_removed diff -> v0 !! tag = image <$> tags current !! tag ->
  advances (eq v0) (remove_old current tag) (fun _ v => v = delete tag v0).
Proof.
  intros [[old Ho] _]%removed_spec Hv. destruct (current_ok _ _ Ho) as [Hok <-].
  unfold remove_old. rewrite Ho in Hv. eapply advances_found; [done|].
  eapply advances_bind; [apply advances_preserve|]. intros replay. by apply stop_advances.
Qed.

(** The cell of a changed tag once it runs the new configuration with the old users. *)
Definition hot tag : option (cell V) :=
  match tags current !! tag, tags desired !! tag with
  | Some old, Some new => Some (InboundSpec.config (spec (compiled new)), (image old).2)
  | _, _ => None
  end.

Record chosen (seen : list string) (r : replacement (L := L) (V := V)) : Prop := {
  ch_old : tags current !! r_tag r = Some (r_old r);
  ch_new : tags desired !! r_tag r = Some (r_new r);
  ch_seen : r_tag r ∈ seen
}.

Section classify.
Context (before : string -> option (cell V)).
Hypothesis Hbefore : forall tag old, tags current !! tag = Some old -> is_Some (tags desired !! tag) -> before tag = Some (image old).

(** After the deltas [seen], of which [reps] are to be replaced. *)
Record classified (seen : list string) (reps : list (replacement (L := L) (V := V))) v : Prop := {
  cl_NoDup : NoDup (r_tag <$> reps);
  cl_chosen : Forall (chosen seen) reps;
  cl_view tag : v !! tag = if decide (tag ∈ seen /\ tag ∉ r_tag <$> reps) then hot tag else before tag;
  cl_mode d : d ∈ diff_changed diff -> delta_tag d ∈ seen -> delta_tag d ∉ r_tag <$> reps -> user_mode_changed d = false
}.

Lemma chosen_weaken seen tag r : chosen seen r -> chosen (seen ++ [tag]) r.
Proof. intros [H1 H2 H3]. split; [done|done|]. apply elem_of_app. by left. Qed.

Lemma reps_seen seen reps v tag : classified seen reps v -> tag ∈ r_tag <$> reps -> tag ∈ seen.
Proof.
  intros Hc (r & -> & Hr)%list_elem_of_fmap. pose proof (cl_chosen _ _ _ Hc) as H.
  rewrite Forall_forall in H. by destruct (H _ Hr).
Qed.

(** A delta set aside for a replacement. *)
Lemma classified_replace seen reps v tag old new replay :
  classified seen reps v -> tag ∉ seen -> tags current !! tag = Some old -> tags desired !! tag = Some new ->
  classified (seen ++ [tag]) (reps ++ [mkReplacement tag old new replay]) v.
Proof.
  intros Hc Hn Ho Hd. pose proof (reps_seen _ _ _ tag Hc) as Hin. split.
  - rewrite fmap_app. apply NoDup_app. split; [apply Hc|]. split; [|apply NoDup_singleton].
    cbn. intros t Ht ->%list_elem_of_singleton. auto.
  - apply Forall_app. split; [eapply Forall_impl; [apply Hc|apply chosen_weaken]|].
    constructor; [|done]. split; [done|done|]. apply elem_of_app. right. by left.
  - intros t. rewrite (cl_view _ _ _ Hc). rewrite fmap_app. cbn.
    destruct (decide (t = tag)) as [->|Hne].
    + rewrite !decide_False; [done| |]; intros [H1 H2]; [|done]. apply H2, elem_of_app. right. by left.
    + apply decide_ext. rewrite !not_elem_of_app, elem_of_app, list_elem_of_singleton. naive_solver.
  - intros d Hd' Hs Hr. rewrite fmap_app, not_elem_of_app in Hr. destruct Hr as [Hr1 Hr2].
    apply elem_of_app in Hs as [Hs|Hs%list_elem_of_singleton]; [by apply (cl_mode _ _ _ Hc)|].
    exfalso. apply Hr2. cbn. rewrite Hs. by left.
Qed.

(** A delta whose listener stays, its cell [hot]. *)
Lemma classified_stay seen reps v d :
  classified seen reps v -> d ∈ diff_changed diff -> delta_tag d ∉ seen -> user_mode_changed d = false ->
  classified (seen ++ [delta_tag d]) reps (partial_alter (fun _ => hot (delta_tag d)) (delta_tag d) v).
Proof.
  intros Hc Hd Hn Hm. pose proof (reps_seen _ _ _ (delta_tag d) Hc) as Hin. split.
  - apply Hc.
  - eapply Forall_impl; [apply Hc|apply chosen_weaken].
  - intros t. destruct (decide (t = delta_tag d)) as [->|Hne].
    + rewrite lookup_partial_alter_eq, decide_True; [done|]. split; [apply elem_of_app; right; by left|auto].
    + rewrite lookup_partial_alter_ne, (cl_view _ _ _ Hc) by done.
      apply decide_ext. rewrite elem_of_app, list_elem_of_singleton. naive_solver.
  - intros d' Hd' [Hs|Hs%list_elem_of_singleton]%elem_of_app Hr; [by apply (cl_mode _ _ _ Hc)|].
    assert (d' = d) as ->; [|done].
    destruct (changed_spec _ _ _ Hd) as (b & a & Hb & Ha & [H1 H2 H3 H4]).
    destruct (changed_spec _ _ _ Hd') as (b' & a' & Hb' & Ha' & [H1' H2' H3' H4']).
    rewrite Hs in Hb', Ha'. rewrite Hb in Hb'. rewrite Ha in Ha'. simplify_eq.
    destruct d, d'. cbn in *. congruence.
Qed.

Lemma update_hot v0 tag old new replay error_k :
  tags current !! tag = Some old -> tags desired !! tag = Some new -> v0 !! tag = Some (image old) ->
  forall (reps : list (replacement (L := L) (V := V))) (Q : list replacement -> view -> Prop),
  Q reps (partial_alter (fun _ => hot tag) tag v0) ->
  (forall error, advances (eq v0) (error_k error) Q) ->
  advances (eq v0)
    (updated ← during (ask_engine (eng_update_inbound (update_spec new)));
     match updated with
     | Ok _ => _ ← journal (RestoreHotConfig new old replay); mret reps
     | Err error => error_k error
     end) Q.
Proof.
  intros Ho Hd Hv reps Q HQ Herr. destruct (current_ok _ _ Ho) as [Hok Ht], (desired_ok _ _ Hd) as [Hok' Ht'].
  eapply (advances_ask _ _ _ (RestoreHotConfig new old replay)
    (fun v => v = partial_alter (fun _ => hot tag) tag v0) _ (fun _ => mret reps)).
  - split; [done|congruence].
  - eapply triple_post; [apply update_triple|]. intros [info|err] v; [|done].
    rewrite Ht'. intros (c & Hc & ->). rewrite Hv in Hc. injection Hc as <-. cbn [undo_view]. rewrite Ht. split.
    + rewrite insert_insert_eq. by apply insert_id.
    + unfold hot. by rewrite Ho, Hd.
  - done.
  - intros info. by apply advances_ret; intros v ->.
  - exact Herr.
Qed.

Lemma classify_advances seen deltas reps :
  (forall d, d ∈ deltas -> d ∈ diff_changed diff) -> NoDup (seen ++ (delta_tag <$> deltas)) ->
  advances (classified seen reps) (classify current desired deltas reps)
    (fun reps' => classified (seen ++ (delta_tag <$> deltas)) reps').
Proof.
  revert seen reps. induction deltas as [|d deltas IH]; intros seen reps Hin Hnd; cbn [classify fmap list_fmap].
  { apply advances_ret. by rewrite app_nil_r. }
  assert (d ∈ diff_changed diff) as Hd by (apply Hin; by left).
  destruct (changed_spec _ _ _ Hd) as (old & new & Ho & Hn & Hch).
  cbn in Hnd. rewrite (cons_middle (delta_tag d) seen), app_assoc in Hnd |- *.
  assert (delta_tag d ∉ seen) as Hseen.
  { intros H. apply NoDup_app in Hnd as [(_ & Hns & _)%NoDup_app _]. apply (Hns _ H). by left. }
  assert (forall v, classified seen reps v -> v !! delta_tag d = Some (image old)) as Hv.
  { intros v Hc. rewrite (cl_view _ _ _ Hc), decide_False by naive_solver. apply Hbefore; [done|by rewrite Hn]. }
  eapply advances_found; [done|]. eapply advances_found; [done|].
  eapply advances_bind; [|intros reps'; apply (IH (seen ++ [delta_tag d]) reps'); [|exact Hnd]; intros d' H; apply Hin; by right].
  assert (forall replay, advances (classified seen reps)
    (mret (reps ++ [mkReplacement (delta_tag d) old new replay])) (classified (seen ++ [delta_tag d]))) as Hset.
  { intros replay. apply advances_ret. intros v Hc. by apply classified_replace. }
  destruct (user_mode_changed d) eqn:Hm; [|destruct (config_changed d) eqn:Hcfg].
  - eapply advances_bind; [apply advances_preserve|]. intros replay. apply Hset.
  - eapply advances_bind; [apply advances_preserve|]. intros replay. apply advances_eq. intros v0 Hc.
    apply (update_hot v0 (delta_tag d) old new replay (fun error => match error with
      | EngineError.ReloadRequired _ => mret (reps ++ [mkReplacement (delta_tag d) old new replay])
      | error => unchanged_step ("update inbound " +:+ delta_tag d) (EngineError.to_string error) end) Ho Hn); [by apply Hv| |].
    + by apply classified_stay.
    + intros error. eapply (advances_weaken _ (classified seen reps)); [|by intros v <-|done].
      destruct error; try apply advances_unchanged. apply Hset.
  - apply advances_ret. intros v Hc. apply (classified_stay _ _ _ _ Hc) in Hd as Hc'; [|done|done].
    rewrite partial_alter_id in Hc'; [done|]. rewrite (Hv _ Hc). unfold hot. rewrite Ho, Hn.
    rewrite (ch_config _ _ _ _ Hch) in Hcfg. apply orb_false_iff in Hcfg as [_ Hcfg].
    apply negb_false_iff, bool_decide_eq_true in Hcfg. by rewrite <- Hcfg.
Qed.
End classify.

(** ** The users of a listener that stays *)

Section users.
Context (tag : string) (old new : NormalizedInbound) (c : V) (v0 : view).
Hypothesis Hold : inbound_ok old.
Hypothesis Hnew : inbound_ok new.
Hypothesis Htag : inbound_tag old = tag.
Hypothesis Htag' : inbound_tag new = tag.

(** The listener with the users [us]. *)
Definition with_registry (us : gmap string UserSpec.t) : view := <[tag := (c, Some us)]> v0.

Lemma alter_registry f us : alter (with_users f) tag (with_registry us) = with_registry (f us).
Proof. unfold with_registry. by rewrite (alter_at _ _ _ (c, Some us)), insert_insert_eq by apply lookup_insert_eq. Qed.

Lemma remove_user_advances us id user :
  users old !! id = Some user -> us !! id = Some user ->
  advances (eq (with_registry us)) (remove_old_user tag old id) (fun _ v => v = with_registry (delete id us)).
Proof.
  intros Hu Hus. eapply advances_found; [done|]. pose proof (io_ids _ Hold _ _ Hu) as Hid.
  apply advances_during; [cbn; by rewrite Hid|].
  eapply triple_post.
  { apply retire_user_triple; [done|]. intros f v Hf. cbn. intros H%negb_true_iff. auto. }
  cbn [undo_view]. intros _ v (c' & us' & Hl & ->). unfold with_registry in Hl. rewrite lookup_insert_eq in Hl.
  injection Hl as <- <-. fold (with_registry us). assert (<[tag := (c, Some (delete id us))]> (with_registry us) = with_registry (delete id us)) as ->
    by apply insert_insert_eq.
  rewrite Htag, alter_registry. unfold id_of. rewrite Hid. cbn [default]. by rewrite insert_delete_id.
Qed.

Lemma upsert_user_advances us d user :
  d ∈ upserts old new -> users new !! delta_id d = Some user -> us !! delta_id d = users old !! delta_id d ->
  advances (eq (with_registry us)) (upsert_user tag old new d) (fun _ v => v = with_registry (<[delta_id d := user]> us)).
Proof.
  intros (u & Hu & Hdelta)%upserts_spec Hnu Hus. rewrite Hnu in Hu. injection Hu as <-.
  pose proof (io_ids _ Hnew _ _ Hnu) as Hid.
  eapply advances_found; [done|]. apply advances_assoc.
  apply (advances_bind _ _ _ _ (fun _ v => v = with_registry (<[delta_id d := user]> us))).
  - pose (entry := match users old !! delta_id d with
      | None => RemoveUser new old (delta_id d)
      | Some u => RestoreUser old u (credential_changed d) end : Undo (L := L) (V := V)).
    assert ((fun _ : UserInfo.t => if added d then journal (RemoveUser new old (delta_id d))
       else old_user ← expect "updated user existed" (users old !! delta_id d);
            journal (RestoreUser old old_user (credential_changed d)))
      = (fun _ => journal (E := E) (Ld := Ld) entry)) as ->.
    { unfold entry. unfold user_delta in Hdelta. destruct (users old !! delta_id d) as [u|].
      - destruct (same_user u user); [done|]. injection Hdelta as <-. done.
      - injection Hdelta as <-. done. }
    apply advances_try.
    + unfold entry. destruct (users old !! delta_id d) as [u|] eqn:Ho; [|done]. cbn. by rewrite (io_ids _ Hold _ _ Ho).
    + eapply triple_post; [apply add_user_triple|]. intros [info|err] v; [|done]. intros [_ ->].
      unfold id_of. rewrite Hid. cbn [default]. rewrite alter_registry. split; [|done].
      unfold entry. destruct (users old !! delta_id d) as [u|] eqn:Ho; cbn [undo_view].
      * rewrite Htag, alter_registry. unfold id_of. rewrite (io_ids _ Hold _ _ Ho). cbn [default].
        by rewrite insert_insert_eq, insert_id.
      * rewrite Htag', alter_registry. by rewrite delete_insert_id.
  - intros _. destruct (credential_changed d); [|by apply advances_ret].
    eapply advances_bind; [apply advances_try_quiet; by intros e e' r H%law_kick|].
    intros n. by apply advances_ret.
Qed.
End users.

Lemma reconcile_advances replaced d v0 :
  d ∈ diff_changed diff -> delta_tag d ∉ replaced -> user_mode_changed d = false -> v0 !! delta_tag d = hot (delta_tag d) ->
  advances (eq v0) (reconcile_users current desired replaced d)
    (fun _ v => v = partial_alter (fun _ => image <$> tags desired !! delta_tag d) (delta_tag d) v0).
Proof.
  intros (old & new & Ho & Hn & Hch)%changed_spec Hrep Hmode Hv.
  destruct (current_ok _ _ Ho) as [Hok Ht], (desired_ok _ _ Hn) as [Hok' Ht'].
  rewrite (ch_mode _ _ _ _ Hch) in Hmode. apply negb_false_iff, eqb_prop in Hmode.
  unfold reconcile_users. rewrite bool_decide_eq_false_2 by done.
  eapply advances_found; [done|]. eapply advances_found; [done|].
  rewrite (ch_removed _ _ _ _ Hch), (ch_upserts _ _ _ _ Hch).
  unfold hot in Hv. rewrite Ho, Hn in Hv. rewrite Hn. cbn [fmap option_fmap option_map].
  unfold image in Hv |- *. cbn [snd] in Hv. destruct (dynamic_users old) eqn:Hdyn; rewrite <- Hmode.
  2:{ pose proof (io_static _ Hok Hdyn) as Hs. pose proof (io_static _ Hok' (eq_sym Hmode)) as Hs'.
      assert (removed_ids old new = []) as ->.
      { destruct (removed_ids old new) as [|x l] eqn:Hr; [done|]. exfalso.
        assert (x ∈ removed_ids old new) as [[u Hu] _]%removed_ids_spec by (rewrite Hr; by left).
        by rewrite Hs, lookup_empty in Hu. }
      assert (upserts old new = []) as ->.
      { destruct (upserts old new) as [|x l] eqn:Hr; [done|]. exfalso.
        assert (x ∈ upserts old new) as (u & Hu & _)%upserts_spec by (rewrite Hr; by left).
        by rewrite Hs', lookup_empty in Hu. }
      apply advances_ret. intros v <-. symmetry. by apply partial_alter_id. }
  set (cfg := InboundSpec.config (spec (compiled new))) in *. set (tag := delta_tag d) in *.
  assert (with_registry tag cfg v0 (users old) = v0) as Hstart by (by apply insert_id).
  rewrite <- Hstart at 1.
  apply (advances_bind _ _ _ _ (fun _ v => v = with_registry tag cfg v0 (delete_ids (removed_ids old new) (users old)))).
  - apply (advances_fold _ (with_registry tag cfg v0) (fun us id => delete id us)). intros pre id rest Hsplit.
    assert (id ∉ pre) as Hpre.
    { pose proof (NoDup_filter_fst (missing_in (users new)) _ (btree_iter_NoDup (users old))) as Hnd.
      fold (removed_ids old new) in Hnd. rewrite Hsplit in Hnd. apply NoDup_app in Hnd as (_ & Hd & _).
      intros H. apply (Hd _ H). by left. }
    assert (id ∈ removed_ids old new) as [[user Hu] _]%removed_ids_spec
      by (rewrite Hsplit; apply elem_of_app; right; by left).
    apply (remove_user_advances tag old cfg v0 Hok Ht _ id user Hu).
    change (foldl _ (users old) pre) with (delete_ids pre (users old)).
    by rewrite lookup_delete_ids, decide_False.
  - intros _.
    eapply advances_weaken; [apply (advances_fold _ (with_registry tag cfg v0) (upsert (users new))
      (upserts old new) _ (delete_ids (removed_ids old new) (users old)))|by intros v ->|].
    + intros pre x rest Hsplit.
      assert (x ∈ upserts old new) as Hx by (rewrite Hsplit; apply elem_of_app; right; by left).
      assert (delta_id x ∉ delta_id <$> pre) as Hpre.
      { pose proof (upserts_NoDup old new) as Hnd. rewrite Hsplit, fmap_app in Hnd.
        apply NoDup_app in Hnd as (_ & Hd & _). intros H. apply (Hd _ H). by left. }
      apply upserts_spec in Hx as Hx'. destruct Hx' as (user & Hu & _). unfold upsert at 2. rewrite Hu.
      apply (upsert_user_advances tag old new cfg v0 Hok Hok' Ht Ht' _ x user Hx Hu).
      rewrite <- upsert_all_fmap, lookup_upsert_all, decide_False by (by intros [? _]).
      rewrite lookup_delete_ids, decide_False; [done|].
      intros [_ H]%removed_ids_spec. by rewrite Hu in H.
    + cbn. intros _ v ->. by rewrite <- upsert_all_fmap, users_reconciled.
Qed.

(** ** Ownership metadata *)

Local Abbreviation keeps v0 := (fun (f : StepFailure.t) v => StepFailure.restored f = true -> v = v0).

Lemma flush_user_quiet tag old user v0 :
  triple (eq v0) (flush_metadata_user tag old user) (fun _ v => v0 = v) (keeps v0).
Proof.
  apply collect_triple; [|done]. intros K. apply triple_on_engine, triple_ask.
  intros e e' r -> [[Hb Hd] Hid]%law_take. rewrite Hb. split; [done|].
  destruct r as [info|err]; [|done]. split; [by apply Hid|done].
Qed.

Lemma flush_quiet replaced v0 :
  triple (eq v0) (flush_changed_traffic_metadata current desired replaced) (fun _ v => v0 = v) (keeps v0).
Proof.
  apply (for_in_triple (fun _ => eq v0)). intros [tag old] _. unfold flush_metadata_inbound.
  case_bool_decide; [by apply triple_ret|]. destruct (tags desired !! tag) as [new|]; [|by apply triple_ret].
  destruct (_ && _); [by apply triple_ret|].
  eapply triple_bind; [apply triple_read|]. intros [listed|err].
  - apply (for_in_triple (fun _ => eq v0)). intros user _. apply flush_user_quiet.
  - destruct err; first [by apply triple_ret|by apply triple_raise; intros v <-].
Qed.

(** ** [execute_apply] *)

Lemma replaced_advances before seen reps :
  (forall tag old, tags current !! tag = Some old -> is_Some (tags desired !! tag) -> before tag = Some (image old)) ->
  advances (classified before seen reps)
    (_ ← for_in reps stop_replaced; for_in reps start_replacement)
    (fun _ v => forall tag, v !! tag = if decide (tag ∈ r_tag <$> reps) then image <$> tags desired !! tag
       else if decide (tag ∈ seen) then hot tag else before tag).
Proof.
  intros Hbefore. apply advances_eq. intros v0 Hc. pose proof (cl_chosen _ _ _ _ Hc) as Hch. rewrite Forall_forall in Hch.
  set (cell3 tag := if decide (tag ∈ seen /\ tag ∉ r_tag <$> reps) then hot tag else before tag).
  eapply advances_bind; [|intros []].
  - eapply advances_weaken; [apply (advances_phase _ r_tag cell3 (fun _ => None) reps)|intros v <-; apply Hc|done].
    + apply Hc.
    + intros r v1 Hr Hv. destruct (Hch _ Hr) as [Ho Hn _]. destruct (current_ok _ _ Ho) as [Hok Ht].
      rewrite <- Ht. apply stop_advances; [done|]. rewrite Ht, Hv. unfold cell3.
      rewrite decide_False by (intros [_ H]; by apply H, list_elem_of_fmap_2). apply Hbefore; [done|by rewrite Hn].
  - eapply advances_weaken; [apply (advances_phase _ r_tag (fun tag => if decide (tag ∈ r_tag <$> reps) then None else cell3 tag)
      (fun tag => image <$> tags desired !! tag) reps)|done|].
    + apply Hc.
    + intros r v1 Hr _. destruct (Hch _ Hr) as [_ Hn _]. destruct (desired_ok _ _ Hn) as [Hok Ht].
      rewrite Hn, <- Ht. apply start_advances; [done|]. by apply start_triple.
    + cbn. intros _ v Hv tag. rewrite Hv. unfold cell3. case_decide as Hin; [done|].
      apply decide_ext. naive_solver.
Qed.

Lemma in_place_advances :
  advances (eq (image_config current)) (execute_apply current desired false) (fun _ v => v = image_config desired).
Proof.
  unfold execute_apply. set (cells tag := image <$> tags current !! tag).
  set (cells1 tag := if decide (tag ∈ diff_removed diff) then None else cells tag).
  assert (forall tag old, tags current !! tag = Some old -> is_Some (tags desired !! tag) -> cells1 tag = Some (image old)) as Hb.
  { intros tag old Ho Hs. unfold cells1, cells. rewrite decide_False, Ho; [done|].
    intros [_ Hn]%removed_spec. rewrite Hn in Hs. by destruct Hs. }
  apply (advances_bind _ _ _ _ (fun _ => classified cells1 [] [])).
  { eapply advances_weaken; [apply (advances_phase _ (fun tag => tag) cells (fun _ => None))| |].
    - rewrite list_fmap_id. apply NoDup_filter_fst, btree_iter_NoDup.
    - intros tag v0 Hin Hv. by apply remove_old_advances.
    - intros v <- tag. apply lookup_fmap.
    - cbn. intros _ v Hv. split; [constructor|done| |by intros d _ ?%not_elem_of_nil].
      intros tag. rewrite Hv, list_fmap_id. rewrite (decide_False (P := _ /\ _)); [done|]. by intros [?%not_elem_of_nil _]. }
  intros _. eapply advances_bind; [by apply (classify_advances cells1 Hb [] _ []); [|apply changed_NoDup]|].
  intros reps. cbn [app]. set (seen := delta_tag <$> diff_changed diff).
  set (replaced := r_tag <$> reps).
  set (cells4 tag := if decide (tag ∈ replaced) then image <$> tags desired !! tag
       else if decide (tag ∈ seen) then hot tag else cells1 tag).
  apply advances_assoc.
  apply (advances_bind _ _ _ _ (fun _ v => (forall tag, v !! tag = cells4 tag) /\
    (forall tag, tag ∈ replaced -> tag ∈ seen) /\
    forall d, d ∈ diff_changed diff -> delta_tag d ∉ replaced -> user_mode_changed d = false)).
  { apply advances_eq. intros v0 Hc. eapply advances_weaken; [apply (replaced_advances cells1 seen reps Hb)|by intros v <-|].
    cbn. intros _ v Hv. split; [done|]. split; [intros tag; by eapply reps_seen|].
    intros d Hd Hr. apply (cl_mode _ _ _ _ Hc); [done|by apply list_elem_of_fmap_2|done]. }
  intros []. apply advances_eq. intros v0 (Hv4 & Hseen & Hmode).
  eapply advances_bind; [eapply advances_weaken;
    [apply (advances_phase _ delta_tag cells4 (fun tag => image <$> tags desired !! tag) (diff_changed diff))|by intros v <-|done]|].
  { apply changed_NoDup. }
  { intros d v1 Hd Hv. unfold cells4 in Hv. destruct (decide (delta_tag d ∈ replaced)) as [Hin|Hin].
    - unfold reconcile_users. rewrite bool_decide_eq_true_2 by done. apply advances_ret. intros v <-.
      symmetry. by apply partial_alter_id.
    - rewrite decide_True in Hv by (by apply list_elem_of_fmap_2). apply reconcile_advances; [done|done|by apply Hmode|done]. }
  intros []. eapply advances_bind; [apply (advances_phase _ (fun tag => tag) _ (fun tag => image <$> tags desired !! tag) (diff_added diff))|].
  { rewrite list_fmap_id. apply NoDup_filter_fst, btree_iter_NoDup. }
  { intros tag v1 [[new Hn] Ho]%added_spec Hv. destruct (desired_ok _ _ Hn) as [Hok Ht]. rewrite Hn.
    eapply advances_found; [done|]. rewrite <- Ht. apply start_advances; [done|]. by apply add_triple. }
  intros []. apply advances_quiet. intros v1 Hv1.
  eapply triple_post; [apply flush_quiet|]. intros [] v <-. split; [done|].
  apply map_eq. intros tag. rewrite Hv1, list_fmap_id. unfold image_config. rewrite lookup_fmap.
  case_decide as Hadd; [done|]. case_decide as Hchanged; [done|].
  unfold cells4. rewrite decide_False by auto. rewrite decide_False by done. unfold cells1, cells.
  rewrite added_spec in Hadd. case_decide as Hrem; rewrite removed_spec in Hrem; [by destruct Hrem as [_ ->]|].
  destruct (tags current !! tag) as [old|] eqn:Ho, (tags desired !! tag) as [new|] eqn:Hn; cbn.
  - f_equal. by eapply unchanged_image.
  - exfalso. by apply Hrem.
  - exfalso. by apply Hadd.
  - done.
Qed.

Lemma execute_apply_advances force :
  advances (eq (image_config current)) (execute_apply current desired force) (fun _ v => v = image_config desired).
Proof. destruct force; [apply full_reload_advances|apply in_place_advances]. Qed.
End reconcile.
