(* ===== verification/RuntimeNormalize.v ===== *)
(** * The shoes runtime: normal forms

    [normalize] yields configurations that are well formed ([normalize_ok]): every
    inbound is filed under its trimmed tag, its users under their ids, and the
    engine, started from the specification, serves exactly them. *)

From Stdlib Require Import ZArith Lia.
From S2P Require Import Prelude Bytes Traffic TrafficQueue Credentials Manager Adapter EngineApi PendingTraffic Runtime RuntimeTx.
From S2P Require Import RuntimeSpec.

Open Scope Z_scope.

Section normalize.
Context {V Y Res Prep Ld : Type} `{!ValueOps V} `{!YamlOps Y} `{!RuleSetOps Ld Res Prep V}.
Local Abbreviation NormalizedConfig := (NormalizedConfig V).
Local Abbreviation NormalizedInbound := (NormalizedInbound V).

(** The registry [normalize] builds while no id repeats. *)
Lemma normalize_users_spec tag specs us0 us :
  foldl (normalize_user tag) (Ok us0) specs = Ok us ->
  us = foldl (fun m '(k, v) => <[k := v]> m) us0 (omap (fun u => (fun id => (id, u)) <$> UserSpec.resolved_id u) specs) /\
  ((forall id u, us0 !! id = Some u -> UserSpec.resolved_id u = Some id) ->
   forall id u, us !! id = Some u -> UserSpec.resolved_id u = Some id).
Proof.
  revert us0. induction specs as [|u specs IH]; intros us0; cbn [foldl]; [by intros [= <-]|].
  assert (forall e l, foldl (normalize_user tag) (Err e) l = Err e) as Herr by (intros e l; by induction l).
  destruct (normalize_user tag (Ok us0) u) as [us1|e] eqn:Hu; [|by rewrite Herr].
  unfold normalize_user in Hu. cbn in Hu. destruct (UserSpec.resolved_id u) as [id|] eqn:Hid; [|done].
  destruct (is_empty (trim id)); [done|]. destruct (us0 !! id) eqn:Hnew; [done|]. injection Hu as <-.
  intros H. destruct (IH _ H) as [He Hids]. cbn. rewrite Hid. split; [exact He|].
  intros H0. apply Hids. intros id' u'. destruct (decide (id' = id)) as [->|Hne].
  - rewrite lookup_insert_eq. by intros [= <-].
  - rewrite lookup_insert_ne by done. apply H0.
Qed.

Lemma normalize_inbound_ok c i : normalize_inbound c = Ok i -> inbound_ok (V := V) i /\ inbound_tag i = trim (spec_tag c).
Proof.
  unfold normalize_inbound. repeat (case_match; [done|]).
  destruct (foldl _ _ _) as [us|e] eqn:Hu; cbn; [|done]. intros [= <-].
  apply normalize_users_spec in Hu as [Hus Hids].
  assert (us = users_of (default [] (InboundSpec.users (spec c)))) as Hof by done.
  split; [|done]. split; cbn.
  - unfold spec_cell, image. cbn. f_equal. destruct (InboundSpec.users (spec c)) as [specs|]; cbn in *.
    + by rewrite Hof.
    + done.
  - apply Hids. intros id u. by rewrite lookup_empty.
  - intros Hs%bool_decide_eq_false. destruct (InboundSpec.users (spec c)); [by destruct Hs|]. done.
Qed.

Lemma normalize_all_ok (l : list (CompiledInbound V)) m0 m :
  foldl normalize_one (Ok m0) l = Ok m ->
  (forall tag i, m0 !! tag = Some i -> inbound_ok i /\ inbound_tag i = tag) ->
  forall tag i, m !! tag = Some i -> inbound_ok i /\ inbound_tag i = tag.
Proof.
  assert (forall e l', foldl (normalize_one (V := V)) (Err e) l' = Err e) as Herr by (intros e l'; by induction l').
  revert m0. induction l as [|c l IH]; intros m0; cbn [foldl]; [by intros [= <-]|].
  destruct (normalize_one (Ok m0) c) as [m1|e] eqn:H1; [|by rewrite Herr].
  intros Hm H0. apply (IH _ Hm). unfold normalize_one in H1. cbn in H1.
  destruct (normalize_inbound c) as [i|e] eqn:Hi; cbn in H1; [|done].
  destruct (m0 !! inbound_tag i); [done|]. injection H1 as <-.
  apply normalize_inbound_ok in Hi as [Hok _].
  intros tag i'. destruct (decide (tag = inbound_tag i)) as [->|Hne].
  - rewrite lookup_insert_eq. by intros [= <-].
  - rewrite lookup_insert_ne by done. apply H0.
Qed.

Lemma normalize_ok (config : RuntimeConfig V Res) c : normalize config = Ok c -> config_ok c.
Proof.
  unfold normalize. destruct (foldl _ _ _) as [m|e] eqn:Hm; cbn; [|done]. intros [= <-].
  split. cbn. eapply normalize_all_ok; [exact Hm|]. intros tag i. by rewrite lookup_empty.
Qed.

Lemma desired_config_ok sniff_disabled (prepared : Prep) (config : RuntimeConfig V Res) c :
  desired_config (Y := Y) (Ld := Ld) sniff_disabled prepared config = Ok c -> config_ok c.
Proof.
  unfold desired_config. destruct (if sniff_disabled then _ else _) as [config'|e]; cbn; [|done].
  destruct (normalize _) as [d|e] eqn:Hn; cbn; [|done]. intros [= <-]. apply normalize_ok in Hn. by destruct Hn.
Qed.

(** The tags filed are those of the inbounds, each once. *)
Lemma normalize_all_exact (l : list (CompiledInbound V)) m0 m :
  foldl normalize_one (Ok m0) l = Ok m ->
  NoDup ((fun c => trim (spec_tag c)) <$> l) /\
  (forall c, c ∈ l -> m0 !! trim (spec_tag c) = None) /\
  forall tag i, m !! tag = Some i <->
    m0 !! tag = Some i \/ exists c, c ∈ l /\ tag = trim (spec_tag c) /\ normalize_inbound c = Ok i.
Proof.
  assert (forall e l', foldl (normalize_one (V := V)) (Err e) l' = Err e) as Herr by (intros e l'; by induction l').
  revert m0. induction l as [|c l IH]; intros m0; cbn [foldl].
  { intros [= <-]. split_and!; [constructor|by intros c ?%not_elem_of_nil|]. intros tag i. split; [by left|].
    intros [H|(c & ?%not_elem_of_nil & _)]; done. }
  destruct (normalize_one (Ok m0) c) as [m1|e] eqn:H1; [|by rewrite Herr].
  intros Hm. unfold normalize_one in H1. cbn in H1.
  destruct (normalize_inbound c) as [i|e] eqn:Hi; cbn in H1; [|done].
  destruct (m0 !! inbound_tag i) eqn:Hnew; [done|]. injection H1 as <-.
  apply normalize_inbound_ok in Hi as Hi'. destruct Hi' as [_ Ht]. rewrite Ht in *.
  destruct (IH _ Hm) as (Hnd & Hfresh & Hm').
  split_and!.
  - cbn. apply NoDup_cons. split; [|done]. intros (c' & E & Hc')%list_elem_of_fmap.
    apply Hfresh in Hc'. by rewrite <- E, lookup_insert_eq in Hc'.
  - intros c' [->|Hc']%elem_of_cons; [done|]. apply Hfresh in Hc'. by apply lookup_insert_None in Hc' as [? _].
  - intros tag i'. rewrite Hm'. destruct (decide (tag = trim (spec_tag c))) as [->|Hne].
    + rewrite lookup_insert_eq, Hnew. split.
      * intros [[= <-]|(c' & Hc' & E & _)]; [right; exists c; split; [by left|done]|].
        apply Hfresh in Hc'. by rewrite <- E, lookup_insert_eq in Hc'.
      * intros [?|(c' & [->|Hc']%elem_of_cons & E & Hn)]; [done|left; congruence|].
        apply Hfresh in Hc'. by rewrite <- E, lookup_insert_eq in Hc'.
    + rewrite lookup_insert_ne by done. split.
      * intros [?|(c' & Hc' & E & Hn)]; [by left|]. right. exists c'. split; [by right|done].
      * intros [?|(c' & [->|Hc']%elem_of_cons & E & Hn)]; [by left|done|]. right. by exists c'.
Qed.

(** Normal forms are well formed and lose nothing: every inbound of the candidate
    is filed, once, under its trimmed tag, with its users under their own ids, so that
    what the engine is started with is what the configuration lists; a tag or a user
    listed twice is refused. *)
Theorem normal_form (config : RuntimeConfig V Res) c :
  normalize config = Ok c ->
  config_ok c /\ NoDup ((fun i => trim (spec_tag i)) <$> inbounds config) /\
  forall tag i, tags c !! tag = Some i <->
    exists i', i' ∈ inbounds config /\ tag = trim (spec_tag i') /\ normalize_inbound i' = Ok i.
Proof.
  intros Hn. split; [by eapply normalize_ok|]. unfold normalize in Hn.
  destruct (foldl _ _ _) as [m|e] eqn:Hm; cbn in Hn; [|done]. injection Hn as <-. cbn.
  destruct (normalize_all_exact _ _ _ Hm) as (Hnd & _ & Hm'). split; [done|]. intros tag i. rewrite Hm', lookup_empty.
  split; [by intros [?|?]|by right].
Qed.
End normalize.
