(* ===== verification/RuntimeRecovery.v ===== *)
(** * The shoes runtime: its methods over the applied state

    The invariant [runtime_ok] ties the applied state to what the engine serves;
    every method keeps it and none panics.  A transaction serves the desired
    configuration, or reports truthfully whether the previous one is back; recovery
    makes the state known again. *)

From Stdlib Require Import ZArith Lia.
From S2P Require Import Prelude Bytes Traffic TrafficQueue Credentials Manager Adapter EngineApi PendingTraffic Runtime RuntimeTx.
From S2P Require Import RuntimeSpec RuntimeApply RuntimeReconcile.

Open Scope Z_scope.

Section laws.
Context {E L V Y Res Ld Prep : Type}.
Context `{!ValueOps V} `{!YamlOps Y} `{!EngineOps E L V} `{!EngineLaws E L V} `{!RuleSetOps Ld Res Prep V}.

Local Abbreviation NormalizedInbound := (NormalizedInbound V).
Local Abbreviation NormalizedConfig := (NormalizedConfig V).
Local Abbreviation runtime := (runtime (E := E) (L := L) (V := V) (Ld := Ld)).
Local Abbreviation Undo := (Undo (L := L) (V := V)).
Local Abbreviation method F := (stm runtime (exn F)).
Local Abbreviation view := (view V).
Local Abbreviation triple := (triple_at (Ld := Ld) receipts_ok).
Local Abbreviation served rt := (live (engine rt)).
Implicit Types rt : runtime.
Implicit Types v : view.

(** ** Assertions about the whole runtime *)

Definition runs {F A} (P : runtime -> Prop) (m : method F A) (Q : A -> runtime -> Prop) (X : F -> runtime -> Prop) : Prop :=
  forall rt rt' r, P rt -> m rt = (rt', r) ->
  match r with
  | Ok a => Q a rt'
  | Err (Fail f) => X f rt'
  | Err (Panic _) => False
  end.

Lemma runs_weaken {F A} (P P' : runtime -> Prop) (m : method F A) (Q Q' : A -> runtime -> Prop) (X X' : F -> runtime -> Prop) :
  runs P m Q X -> (forall rt, P' rt -> P rt) -> (forall a rt, Q a rt -> Q' a rt) -> (forall f rt, X f rt -> X' f rt) ->
  runs P' m Q' X'.
Proof. intros H HP HQ HX rt rt' r Hp Ex. specialize (H rt rt' r (HP _ Hp) Ex). destruct r as [a|[f|m']]; auto. Qed.

Lemma runs_bind {F A B} (P : runtime -> Prop) (m : method F A) (k : A -> method F B)
    (Q : A -> runtime -> Prop) (Q' : B -> runtime -> Prop) (X : F -> runtime -> Prop) :
  runs P m Q X -> (forall a, runs (Q a) (k a) Q' X) -> runs P (m ≫= k) Q' X.
Proof.
  intros Hm Hk rt rt' r Hp. unfold mbind, stm_bind.
  destruct (m rt) as [rt1 [a|[f|msg]]] eqn:H1; specialize (Hm _ _ _ Hp H1); cbn in Hm; [|by intros [= <- <-]|done].
  intros H2. by eapply Hk.
Qed.

Lemma runs_ret {F A} (P : runtime -> Prop) (a : A) (Q : A -> runtime -> Prop) (X : F -> runtime -> Prop) :
  (forall rt, P rt -> Q a rt) -> runs P (mret a) Q X.
Proof. intros H rt rt' r Hp [= <- <-]. auto. Qed.

Lemma runs_raise {F A} (P : runtime -> Prop) (f : F) (Q : A -> runtime -> Prop) (X : F -> runtime -> Prop) :
  (forall rt, P rt -> X f rt) -> runs P (raise (Fail f)) Q X.
Proof. intros H rt rt' r Hp [= <- <-]. auto. Qed.

Lemma runs_modify {F} (P Q : runtime -> Prop) g (X : F -> runtime -> Prop) :
  (forall rt, P rt -> Q (g rt)) -> runs P (modify g) (fun _ => Q) X.
Proof. intros H rt rt' r Hp [= <- <-]. by apply H. Qed.

Lemma runs_gets {F A} (P : runtime -> Prop) (f : runtime -> A) (X : F -> runtime -> Prop) :
  runs P (gets f) (fun a rt => a = f rt /\ P rt) X.
Proof. intros rt rt' r Hp [= <- <-]. done. Qed.

Lemma runs_pre {F A} (P : runtime -> Prop) (m : method F A) (Q : A -> runtime -> Prop) (X : F -> runtime -> Prop) :
  (forall rt0, P rt0 -> runs (eq rt0) m Q X) -> runs P m Q X.
Proof. intros H rt rt' r Hp. by apply (H rt Hp). Qed.

(** [rt] differs from [rt0] in what the transaction's inner methods change; its
    view satisfies [P]. *)
Definition At rt0 (P : view -> Prop) rt : Prop :=
  framed rt0 rt /\ receipts_ok (pending_traffic rt) /\ P (served rt).

Lemma At_weaken rt0 (P Q : view -> Prop) rt : At rt0 P rt -> (forall v, P v -> Q v) -> At rt0 Q rt.
Proof. intros (Hf & Hr & Hp) H. split_and!; auto. Qed.

Lemma runs_triple {F A} rt0 (P : view -> Prop) (m : method F A) (Q : A -> view -> Prop) (X : F -> view -> Prop) :
  triple P m Q X -> runs (At rt0 P) m (fun a => At rt0 (Q a)) (fun f => At rt0 (X f)).
Proof.
  intros H rt rt' r (Hf & Hr & Hp) Ex. destruct (H _ _ _ Hp Hr Ex) as (Hf' & Hr' & Hc).
  pose proof (framed_trans _ _ _ Hf Hf') as Hf2. destruct r as [a|[f|m']]; [by split|by split|done].
Qed.

(** A method that cannot fail. *)
Lemma runs_triple_ok {F A} rt0 (P : view -> Prop) (m : method F A) (Q : A -> view -> Prop) (X : F -> runtime -> Prop) :
  triple P m Q (fun _ _ => False) -> runs (At rt0 P) m (fun a => At rt0 (Q a)) X.
Proof. intros H. eapply runs_weaken; [by apply runs_triple|done|done|]. by intros f rt (_ & _ & ?). Qed.

(** The parts a method may set. *)
Lemma At_state rt0 (P : view -> Prop) s rt : At rt0 P rt -> At (set_state s rt0) P (set_state s rt).
Proof. intros ([] & Hr & Hp). split_and!; [by split|done|done]. Qed.
Lemma At_replay rt0 (P : view -> Prop) m rt : At rt0 P rt -> At (set_replay m rt0) P (set_replay m rt).
Proof. intros ([] & Hr & Hp). split_and!; [by split|done|done]. Qed.

Lemma At_engine rt0 (P : view -> Prop) (f : E -> E) rt :
  (forall e, becomes e (f e) (live e)) -> At rt0 P rt -> At rt0 P (set_engine (f (engine rt)) rt).
Proof.
  intros Hf ([] & Hr & Hp). destruct (Hf (engine rt)) as [Hv Hd]. split_and!; [split; cbn; try done; congruence|done|].
  cbn. by rewrite Hv.
Qed.

Lemma runs_modify_engine {F} rt0 (P : view -> Prop) (f : E -> E) (X : F -> runtime -> Prop) :
  (forall e, becomes e (f e) (live e)) -> runs (At rt0 P) (modify_engine f) (fun _ => At rt0 P) X.
Proof. intros H. apply runs_modify. intros rt. by apply At_engine. Qed.

Lemma runs_set_state {F} rt0 (P : view -> Prop) (f : AppliedState -> AppliedState) (X : F -> runtime -> Prop) :
  runs (At rt0 P) (modify (fun rt => set_state (f (state rt)) rt)) (fun _ => At (set_state (f (state rt0)) rt0) P) X.
Proof. apply runs_modify. intros rt H. rewrite (fr_state _ _ (proj1 H)). by apply At_state. Qed.

Lemma runs_set_replay {F} rt0 (P : view -> Prop) m (X : F -> runtime -> Prop) :
  runs (At rt0 P) (modify (set_replay m)) (fun _ => At (set_replay m rt0) P) X.
Proof. apply runs_modify. intros rt H. by apply At_replay. Qed.

(** ** A failed transaction *)

Lemma triple_catch {K} {F F' A} (P : view -> Prop) (m : method F A) (h : F -> result (exn F') A)
    (Q : A -> view -> Prop) (X : F' -> view -> Prop) :
  triple_at (Ld := Ld) K P m Q (fun f v => match h f with Ok a => Q a v | Err (Fail f') => X f' v | Err (Panic _) => False end) ->
  triple_at K P (catch m h) Q X.
Proof.
  intros H rt rt' r Hp Hr. unfold catch. destruct (m rt) as [rt1 r1] eqn:Ex.
  destruct (H _ _ _ Hp Hr Ex) as (Hf & Hk & H1). destruct r1 as [a|[f|msg]]; [|intros [= <- <-]|done].
  - by intros [= <- <-].
  - done.
Qed.

(** An inbound of the served configuration refreshed. *)
Lemma refresh_one_triple {F} i v0 (X : F -> view -> Prop) :
  inbound_ok i ->
  triple (eq v0) (refresh_rolled_back i)
    (fun errors v => errors = [] -> v0 !! inbound_tag i = Some (image i) -> v = v0) X.
Proof.
  intros Hok. eapply triple_bind; [apply update_triple|]. cbn. intros [info|err].
  { apply triple_ret. intros v (c & Hc & ->) _ Hv. rewrite Hv in Hc. injection Hc as <-. by apply insert_id. }
  destruct err; try (by apply triple_ret; intros v -> _).
  apply triple_catch. apply (triple_bind _ _ _ (fun _ v => v0 !! inbound_tag i = Some (image i) -> v = v0));
    [|intros []; apply triple_ret; auto].
  unfold replace_inbound. apply (triple_bind _ _ _ (fun _ => eq v0)).
  { apply triple_on_engine, triple_ask. intros e e' r Hb [= <- <-]. split; [done|].
    by destruct (eng_preserve_inbound_replay _ _). }
  intros replay. eapply triple_weaken; [by apply (replace_triple i i i i replay v0)|done| |done].
  intros [] v -> Hv. by apply insert_id.
Qed.

Lemma triple_eq {K} {F A} (P : view -> Prop) (m : method F A) (Q : A -> view -> Prop) (X : F -> view -> Prop) :
  (forall v0, P v0 -> triple_at (Ld := Ld) K (eq v0) m Q X) -> triple_at K P m Q X.
Proof. intros H rt rt' r Hp Hr Ex. by apply (H _ Hp rt rt' r). Qed.

Lemma refresh_all_triple {F} (c : NormalizedConfig) inbounds rollback (X : F -> view -> Prop) :
  (forall i, i ∈ inbounds -> inbound_ok i /\ image_config c !! inbound_tag i = Some (image i)) ->
  triple (fun v => rollback = [] -> v = image_config c) (refresh_all inbounds rollback)
    (fun errors v => errors = [] -> v = image_config c) X.
Proof.
  revert rollback. induction inbounds as [|i inbounds IH]; intros rollback Hin; cbn [refresh_all].
  { by apply triple_ret. }
  destruct (Hin i) as [Hok Hi]; [by left|].
  apply (triple_bind _ _ _ (fun errors v => rollback ++ errors = [] -> v = image_config c)).
  - apply triple_eq. intros v0 Hv0. eapply triple_post; [by apply (refresh_one_triple i v0)|].
    cbn. intros errors v Hv [-> ->]%app_nil. specialize (Hv0 eq_refl). subst v0. by apply Hv.
  - intros errors. apply IH. intros i' H. apply Hin. by right.
Qed.

Lemma values_ok (c : NormalizedConfig) (i : NormalizedInbound) :
  config_ok c -> i ∈ inbound_values c -> inbound_ok i /\ image_config c !! inbound_tag i = Some (image i).
Proof.
  intros Hc ([tag i'] & -> & Hin%elem_of_btree_iter)%list_elem_of_fmap.
  destruct (co_inbound _ Hc _ _ Hin) as [Hok <-]. split; [done|]. unfold image_config. rewrite lookup_fmap. cbn. by rewrite Hin.
Qed.

(** How a failed transaction leaves the applied state. *)
Definition settled (previous : NormalizedConfig) rt0 (e : RuntimeError.t) rt : Prop :=
  (exists m, At (set_replay m (set_state (known_state previous (state rt0)) rt0)) (eq (image_config previous)) rt) \/
  (RuntimeError.rolled_back e = false /\ RuntimeError.state_unchanged e = false /\
   exists m owners, At (set_replay m (set_state (unknown_state previous owners (state rt0)) rt0)) (fun _ => True) rt).

Lemma finish_failed_runs {A} previous previous_replay failure entries dns rt0 :
  config_ok previous -> Forall undo_ok entries ->
  runs (At rt0 (fun v => StepFailure.restored failure = true -> rewind (rev entries) v = image_config previous))
    (finish_failed_transaction (A := A) previous previous_replay failure entries dns)
    (fun _ _ => False) (settled previous rt0).
Proof.
  intros Hok Hundo. unfold finish_failed_transaction.
  set (P0 v := StepFailure.restored failure = true -> rewind (rev entries) v = image_config previous).
  apply (runs_bind _ _ _ (fun _ => At rt0 P0)).
  { destruct (full_reload dns); [|by apply runs_ret].
    eapply runs_bind; [by apply runs_modify_engine, law_rotate|]. intros [].
    apply (runs_bind _ _ _ (fun _ => At rt0 P0)); [|intros r; by apply runs_ret].
    apply (runs_triple_ok _ _ _ (fun _ => P0)), triple_ask. intros e e' r Hp [Hb Hd]%law_configure_dns. by rewrite Hb. }
  intros rollback0.
  apply (runs_bind _ _ _ (fun res => At rt0 (fun v => StepFailure.restored failure = true -> res.1 = [] -> v = image_config previous))).
  { apply (runs_triple_ok _ _ _ (fun res v => StepFailure.restored failure = true -> res.1 = [] -> v = image_config previous)).
    apply triple_eq. intros v0 Hv0. eapply triple_post; [apply rollback_triple; by apply Forall_rev|].
    cbn. intros res v Hres Hrest [_ ->]%Hres. by apply Hv0. }
  intros [journal_errors recovery_live]. cbn [fst].
  apply (runs_bind _ _ _ (fun rollback => At rt0 (fun v => StepFailure.restored failure = true -> rollback = [] -> v = image_config previous))).
  { destruct (_ && _) eqn:Hc.
    - apply andb_true_iff in Hc as [[_ Hrest]%andb_true_iff Hroll].
      eapply runs_weaken; [apply (runs_triple_ok rt0 (fun v => rollback0 ++ journal_errors = [] -> v = image_config previous) _
        (fun rollback v => rollback = [] -> v = image_config previous) (settled previous rt0))| | |done].
      + apply refresh_all_triple. intros i. by apply values_ok.
      + intros rt H. eapply At_weaken; [exact H|]. cbn. intros v Hv [_ Hj]%app_nil. auto.
      + intros rollback rt H. eapply At_weaken; [exact H|]. cbn. auto.
    - apply runs_ret. intros rt H. eapply At_weaken; [exact H|]. cbn. intros v Hv Hrest [_ Hj]%app_nil. auto. }
  intros rollback. destruct (StepFailure.restored failure && _) eqn:Hfull.
  - apply andb_true_iff in Hfull as [Hrest Hroll]. assert (rollback = []) as -> by (by destruct rollback).
    eapply runs_bind; [apply (runs_set_state _ _ (known_state previous))|]. intros [].
    apply (runs_bind _ _ _ (fun _ => At (set_replay ∅ (set_state (known_state previous (state rt0)) rt0)) (eq (image_config previous)))).
    + eapply runs_bind; [apply runs_set_replay|]. intros []. eapply runs_weaken; [by apply runs_modify_engine, law_commit|done| |].
      * intros [] rt H. eapply At_weaken; [exact H|]. cbn. intros v Hv. symmetry. auto.
      * by intros f rt H.
    + intros []. apply runs_raise. intros rt H. left. by exists ∅.
  - eapply runs_bind; [apply (runs_set_state _ _ (unknown_state previous recovery_live))|]. intros [].
    eapply runs_bind; [apply runs_set_replay|]. intros []. apply runs_raise. intros rt H. right.
    split; [done|]. split; [done|]. exists previous_replay, recovery_live. by eapply At_weaken.
Qed.
End laws.

(** ** The shoes runtime: forced stops, recovery and closing

    A forced stop collects what the registry can still account for and removes the
    listener.  Recovery stops everything an indeterminate runtime still runs and
    rebuilds the recovery configuration; closing stops everything for good. *)

Open Scope Z_scope.

Section recovery.
Context {E L V Y Res Ld Prep : Type}.
Context `{!ValueOps V} `{!YamlOps Y} `{!EngineOps E L V} `{!EngineLaws E L V} `{!RuleSetOps Ld Res Prep V}.

Local Abbreviation NormalizedInbound := (NormalizedInbound V).
Local Abbreviation NormalizedConfig := (NormalizedConfig V).
Local Abbreviation runtime := (runtime (E := E) (L := L) (V := V) (Ld := Ld)).
Local Abbreviation method F := (stm runtime (exn F)).
Local Abbreviation view := (view V).
Local Abbreviation owners := (gmap string (RetiringInbound (V := V))).
Local Abbreviation triple := (triple_at (Ld := Ld) receipts_ok).
Local Abbreviation served rt := (live (engine rt)).
Implicit Types rt : runtime.
Implicit Types v : view.
Implicit Types known : option (RetiringInbound (V := V)).

(** ** A forced stop *)

(** Only [tag] differs from [v0]. *)
Definition apart (tag : string) v0 v : Prop := delete tag v = delete tag v0.

Lemma force_retire_triple tag known user_id v0 :
  is_Some known ->
  triple (apart tag v0) (force_retire tag known user_id) (fun _ => apart tag v0) (fun _ _ => True).
Proof.
  intros [inbound ->]. apply triple_eq. intros v1 Hv1.
  apply (triple_bind _ _ _ (fun i v => v1 = v)); [by eapply triple_expect|]. intros i. apply triple_catch.
  eapply triple_weaken; [apply (retire_user_triple _ _ _ _ _ v1 (fun (f : string * bool) v => f.2 = true -> v = v1))|done| |].
  - done.
  - cbn. intros f v Hf [_ Hc%negb_true_iff]%andb_true_iff. auto.
  - cbn. intros _ v (c & us & _ & ->). unfold apart. by rewrite delete_insert_eq.
  - cbn. intros [message []] v Hv; [|done]. by rewrite Hv.
Qed.

Lemma force_stop_triple tag known v0 :
  triple (eq v0) (force_stop_tag tag known) (fun _ v => v = delete tag v0) (fun _ _ => True).
Proof.
  unfold force_stop_tag. eapply triple_bind; [apply triple_read|]. intros listed.
  apply (triple_bind _ _ _ (fun _ => apart tag v0)).
  - eapply (triple_pre (apart tag v0)); [|by intros v <-]. destruct listed as [users|err].
    + destruct known as [inbound|].
      * apply (for_in_triple (fun _ => apart tag v0)). intros id rest. by apply force_retire_triple.
      * rewrite bool_decide_eq_true_2 by done. cbn [andb].
        case_bool_decide as Hids; cbn [negb]; [|by apply triple_raise]. rewrite Hids. by apply triple_ret.
    + destruct err; first [by apply triple_ret|by apply triple_raise].
  - intros []. apply (triple_bind _ _ _ (fun _ v => v = delete tag v0)); [|intros a; by apply triple_ret].
    apply triple_on_engine, triple_ask. intros e e' r Hv [Hb Hd]%law_remove. rewrite Hb. split; [done|].
    by destruct r.
Qed.

(** ** Recovery *)

Definition with_owners (o : owners) s : AppliedState :=
  mkApplied (current s) (recovery s) o (committed s) (closed s).

(** A recovery under way: only the published owners of the applied state move. *)
Definition Recovering rt0 (P : view -> Prop) rt : Prop := exists o, At (set_state (with_owners o (state rt0)) rt0) P rt.

Lemma Recovering_weaken rt0 (P Q : view -> Prop) rt : Recovering rt0 P rt -> (forall v, P v -> Q v) -> Recovering rt0 Q rt.
Proof. intros [o H] HPQ. exists o. by eapply At_weaken. Qed.

Lemma runs_recovering {F A} rt0 (P : view -> Prop) (m : method F A) (Q : A -> view -> Prop) (X : F -> view -> Prop) :
  triple P m Q X -> runs (Recovering rt0 P) m (fun a => Recovering rt0 (Q a)) (fun f => Recovering rt0 (X f)).
Proof.
  intros H rt rt' r [o Ho] Ex. pose proof (runs_triple _ _ _ _ _ H _ _ _ Ho Ex) as H1.
  destruct r as [a|[f|m']]; [by exists o|by exists o|done].
Qed.

(** A method that cannot fail. *)
Lemma runs_recovering_ok {F A} rt0 (P : view -> Prop) (m : method F A) (Q : A -> view -> Prop) (X : F -> runtime -> Prop) :
  triple P m Q (fun _ _ => False) -> runs (Recovering rt0 P) m (fun a => Recovering rt0 (Q a)) X.
Proof. intros H rt rt' r [o Ho] Ex. pose proof (runs_triple_ok _ _ _ _ X H _ _ _ Ho Ex) as H1. destruct r as [a|[f|m']]; [by exists o|done|done]. Qed.

Lemma runs_publish {F} rt0 (P : view -> Prop) o (X : F -> runtime -> Prop) :
  runs (Recovering rt0 P) (publish_recovery_live o) (fun _ => Recovering rt0 P) X.
Proof.
  apply runs_modify. intros rt [o' H]. exists o. rewrite (fr_state _ _ (proj1 H)). by apply (At_state _ _ (with_owners o (state rt0))) in H.
Qed.

(** What the loops over the engine's listing leave. *)
Definition only (listed : list InboundInfo.t) (errors : list string) v : Prop :=
  errors = [] -> forall tag, is_Some (v !! tag) -> tag ∈ InboundInfo.tag <$> listed.

Lemma only_nil v : only [] [] v -> v = ∅.
Proof.
  intros H. apply map_eq. intros tag. rewrite lookup_empty. apply eq_None_not_Some. intros Hs.
  by apply (H eq_refl) in Hs as ?%not_elem_of_nil.
Qed.

Lemma only_delete info listed errors v : only (info :: listed) errors v -> only listed errors (delete (InboundInfo.tag info) v).
Proof.
  intros H He tag [c Hc]. apply lookup_delete_Some in Hc as [Hne Hc].
  assert (is_Some (v !! tag)) as [->|Hin]%(H He)%elem_of_cons by (by exists c); done.
Qed.

Lemma recovering_now rt0 (P : view -> Prop) rt : Recovering rt0 P rt -> Recovering rt0 (eq (served rt)) rt /\ P (served rt).
Proof. intros (o & Hf & Hr & Hp). split; [by exists o|done]. Qed.

Lemma stop_live_runs {F} rt0 listed o errors (X : F -> runtime -> Prop) :
  runs (Recovering rt0 (only listed errors)) (stop_live listed o errors)
    (fun res => Recovering rt0 (only [] res.2)) X.
Proof.
  revert o errors. induction listed as [|info listed IH]; intros o errors; cbn [stop_live].
  { intros rt rt' r H [= <- <-]. exact H. }
  intros rt rt' r H. destruct (recovering_now _ _ _ H) as [Hnow Honly].
  destruct (force_stop_tag _ _ rt) as [rt1 [[]|[error|msg]]] eqn:Ex;
    pose proof (runs_recovering rt0 _ _ _ _ (force_stop_triple _ _ (served rt)) _ _ _ Hnow Ex) as H1; [| |done].
  - assert (runs (Recovering rt0 (only listed errors))
      (_ ← publish_recovery_live (delete (InboundInfo.tag info) o); stop_live listed (delete (InboundInfo.tag info) o) errors)
      (fun res => Recovering rt0 (only [] res.2)) X) as Hrest.
    { eapply runs_bind; [apply runs_publish|intros []; apply IH]. }
    apply Hrest. eapply Recovering_weaken; [exact H1|]. intros v ->. by apply only_delete.
  - apply IH. eapply Recovering_weaken; [exact H1|]. by intros v _ [_ ?]%app_nil.
Qed.

(** An error that claims nothing of the previous state. *)
Definition claims (e : RuntimeError.t) : bool := RuntimeError.rolled_back e || RuntimeError.state_unchanged e.

Lemma runs_indeterminate {A} (P : runtime -> Prop) operation errors is_running (Q : A -> runtime -> Prop) :
  runs P (fail_indeterminate operation errors is_running) Q (fun e rt => claims e = false /\ P rt).
Proof. intros rt rt' r Hp [= <- <-]. done. Qed.

Local Abbreviation indeterminate rt0 := (fun e rt => claims e = false /\ Recovering rt0 (fun _ => True) rt).

Lemma rebuild_runs target inbounds replay o rt0 :
  NoDup (inbound_tag <$> inbounds) ->
  (forall i, i ∈ inbounds -> inbound_ok i /\ image_config target !! inbound_tag i = Some (image i)) ->
  runs (Recovering rt0 (fun v => forall tag, v !! tag =
         if decide (tag ∈ inbound_tag <$> inbounds) then None else image_config target !! tag))
    (rebuild inbounds replay o) (fun _ => Recovering rt0 (eq (image_config target))) (indeterminate rt0).
Proof.
  revert o. induction inbounds as [|i inbounds IH]; intros o Hnd Hin; cbn [rebuild].
  { apply runs_ret. intros rt H. eapply Recovering_weaken; [exact H|]. intros v Hv. apply map_eq. intros tag.
    rewrite Hv. by rewrite decide_False by apply not_elem_of_nil. }
  destruct (Hin i) as [Hok Hi]; [by left|]. cbn in Hnd. apply NoDup_cons in Hnd as [Hn Hnd].
  destruct (replay !! inbound_tag i) as [lease|].
  2:{ intros rt rt' r H [= <- <-]. split; [done|]. by eapply Recovering_weaken. }
  set (P v := forall tag, v !! tag = if decide (tag ∈ inbound_tag <$> inbounds) then None else image_config target !! tag).
  apply (runs_bind _ _ _ (fun r => Recovering rt0 (fun v => match r with Ok _ => P v | Err _ => True end))).
  { apply (runs_recovering_ok _ _ _ (fun r v => match r with Ok _ => P v | Err _ => True end)), triple_eq. intros v0 Hv0.
    eapply triple_post; [by apply (start_triple i lease v0 (fun _ _ => False))|].
    intros [info|err] v; [|done]. intros [_ ->] tag. destruct (decide (tag = inbound_tag i)) as [->|Hne].
    + by rewrite lookup_insert_eq, decide_False.
    + rewrite lookup_insert_ne, Hv0 by done. apply decide_ext. cbn. rewrite elem_of_cons. naive_solver. }
  intros [info|err].
  - eapply runs_bind; [apply runs_publish|]. intros []. apply IH; [done|]. intros i' H. apply Hin. by right.
  - apply runs_indeterminate.
Qed.

Lemma values_NoDup (c : NormalizedConfig) : config_ok c -> NoDup (inbound_tag <$> inbound_values c).
Proof.
  intros Hc. pose proof (btree_iter_NoDup (tags c)) as Hnd. unfold inbound_values.
  assert (inbound_tag <$> (btree_iter (tags c)).*2 = (btree_iter (tags c)).*1) as ->; [|done].
  rewrite <- list_fmap_compose. apply list_fmap_ext. intros k [tag i] H%list_elem_of_lookup_2%elem_of_btree_iter.
  cbn. by destruct (co_inbound _ Hc _ _ H).
Qed.

Lemma lookup_values (c : NormalizedConfig) tag :
  config_ok c -> tag ∉ inbound_tag <$> inbound_values c -> image_config c !! tag = None.
Proof.
  intros Hc Hn. unfold image_config. rewrite lookup_fmap. destruct (tags c !! tag) as [i|] eqn:Ht; [|done].
  exfalso. apply Hn. destruct (co_inbound _ Hc _ _ Ht) as [_ <-]. apply list_elem_of_fmap_2.
  apply list_elem_of_fmap. exists (inbound_tag i, i). split; [done|by apply elem_of_btree_iter].
Qed.

Definition recovery_target s : NormalizedConfig := default default_config (recovery s).

Lemma recover_runs rt0 :
  receipts_ok (pending_traffic rt0) -> current (state rt0) = None -> config_ok (recovery_target (state rt0)) ->
  runs (eq rt0) recover_if_needed
    (fun _ => At (set_replay ∅ (set_state (known_state (recovery_target (state rt0)) (state rt0)) rt0))
                 (eq (image_config (recovery_target (state rt0)))))
    (indeterminate rt0).
Proof.
  intros Hr Hnone Hok. unfold recover_if_needed. set (target := recovery_target (state rt0)) in *.
  eapply runs_bind; [apply runs_gets|]. intros s. apply runs_pre. intros rt1 [-> <-]. rewrite Hnone.
  eapply runs_bind; [apply runs_gets|]. intros replay.
  eapply runs_bind; [apply (runs_gets _ (fun rt => eng_list_inbounds (engine rt)))|]. intros listed.
  apply runs_pre. intros rt1 (Hl & _ & <-).
  fold (recovery_target (state rt0)). fold target. set (owned := owners_of _ _ _).
  assert (Recovering rt0 (only listed []) rt0) as Hstart.
  { exists (recovery_live (state rt0)). split_and!; [by destruct rt0 as [????[]???]|done|].
    intros _ tag Hs. subst listed. by apply law_list. }
  apply (runs_bind _ _ _ (fun _ => Recovering rt0 (only listed []))).
  { intros rt rt' r <- Ex. by apply (runs_publish rt0 (only listed []) owned (indeterminate rt0) rt0 rt' r). }
  intros []. eapply runs_bind; [apply stop_live_runs|]. intros [o errors]. cbn [snd].
  apply (runs_bind _ _ _ (fun _ => Recovering rt0 (eq ∅))).
  { case_bool_decide as He.
    - apply runs_ret. intros rt H. eapply Recovering_weaken; [exact H|]. cbn. subst errors. by intros v ->%only_nil.
    - intros rt rt' r H [= <- <-]. split; [done|]. by eapply Recovering_weaken. }
  intros []. apply (runs_bind _ _ _ (fun _ => Recovering rt0 (eq ∅))).
  { apply runs_modify. intros rt [o' H]. exists o'. by apply At_engine; [apply law_rotate|]. }
  intros []. apply (runs_bind _ _ _ (fun _ => Recovering rt0 (eq ∅))).
  { apply (runs_recovering_ok _ _ _ (fun _ => eq ∅)), triple_ask.
    intros e e' r Hv [Hb Hd]%law_configure_dns. by rewrite Hb. }
  intros configured. apply (runs_bind _ _ _ (fun _ => Recovering rt0 (eq ∅))).
  { destruct configured; [by apply runs_ret|]. intros rt rt' r H [= <- <-]. split; [done|]. by eapply Recovering_weaken. }
  intros []. apply (runs_bind _ _ _ (fun _ => Recovering rt0 (eq (image_config target)))).
  { eapply runs_weaken; [apply (rebuild_runs target _ _ _ rt0); [by apply values_NoDup|intros i; by apply values_ok]| |done|done].
    intros rt H. eapply Recovering_weaken; [exact H|]. cbn. intros v <- tag. rewrite lookup_empty.
    case_decide as Hin; [done|]. symmetry. by apply lookup_values. }
  intros []. eapply runs_bind.
  { apply (runs_modify _ (At (set_state (known_state target (state rt0)) rt0) (eq (image_config target)))).
    intros rt [o' H]. rewrite (fr_state _ _ (proj1 H)). by apply (At_state _ _ (known_state target (state rt0))) in H. }
  intros []. eapply runs_bind; [apply runs_set_replay|]. intros [].
  by apply runs_modify_engine, law_commit.
Qed.

(** ** The invariant *)

Record runtime_ok rt : Prop := {
  rk_receipts : receipts_ok (pending_traffic rt);
  rk_current c : current (state rt) = Some c -> config_ok c /\ served rt = image_config c;
  rk_recovery c : recovery (state rt) = Some c -> config_ok c
}.

Lemma default_config_ok : config_ok (V := V) default_config.
Proof. split. intros tag i. cbn. by rewrite lookup_empty. Qed.

Lemma image_default : image_config (V := V) default_config = ∅.
Proof. apply fmap_empty. Qed.

Lemma recovery_target_ok rt : runtime_ok rt -> config_ok (recovery_target (state rt)).
Proof.
  intros H. unfold recovery_target. destruct (recovery (state rt)) as [c|] eqn:Hc; [by apply (rk_recovery _ H)|apply default_config_ok].
Qed.

(** The state is known, and this is it. *)
Lemma known_ok rt0 previous m rt :
  config_ok previous -> At (set_replay m (set_state (known_state previous (state rt0)) rt0)) (eq (image_config previous)) rt ->
  runtime_ok rt.
Proof.
  intros Hok ([Hs _ _ _ _ _ _ _] & Hr & Hv). split; [done| |]; rewrite Hs; cbn; [|done]. intros c [= <-]. by split.
Qed.

Lemma unknown_ok rt0 previous owners m rt (P : view -> Prop) :
  config_ok previous -> At (set_replay m (set_state (unknown_state previous owners (state rt0)) rt0)) P rt -> runtime_ok rt.
Proof. intros Hok ([Hs _ _ _ _ _ _ _] & Hr & _). split; [done| |]; rewrite Hs; cbn; [done|]. by intros c [= <-]. Qed.

Lemma recovering_ok rt0 rt (P : view -> Prop) :
  runtime_ok rt0 -> current (state rt0) = None -> Recovering rt0 P rt -> runtime_ok rt /\ current (state rt) = None.
Proof.
  intros Hok Hn (o & [Hs _ _ _ _ _ _ _] & Hr & _). rewrite Hs. split; [|done].
  split; [done| |]; rewrite Hs; cbn; [by rewrite Hn|apply (rk_recovery _ Hok)].
Qed.

(** ** Closing *)

Lemma close_live_triple {F} listed (configured : option NormalizedConfig) (kept : owners) errors (X : F -> view -> Prop) :
  triple (only listed errors) (close_live listed configured kept errors) (fun errors' => only [] errors') X.
Proof.
  revert errors. induction listed as [|info listed IH]; intros errors; cbn [close_live].
  { intros rt rt' r H Hr [= <- <-]. split_and!; [apply framed_refl|done|done]. }
  intros rt rt' r H Hr. destruct (force_stop_tag _ _ rt) as [rt1 [[]|[error|msg]]] eqn:Ex;
    destruct (force_stop_triple _ _ _ _ _ _ eq_refl Hr Ex) as (Hf & Hr1 & H1); [| |done]; intros Erest.
  - destruct (IH errors rt1 rt' r) as (Hf' & Hr' & H'); [|done|done|].
    + rewrite H1. by apply only_delete.
    + split_and!; [by eapply framed_trans|done|done].
  - destruct (IH (errors ++ [error]) rt1 rt' r) as (Hf' & Hr' & H'); [by intros [_ ?]%app_nil|done|done|].
    split_and!; [by eapply framed_trans|done|done].
Qed.

(** Closed: the engine serves nothing, or what could not be stopped is not forgotten. *)
Definition closed_ok rt : Prop := runtime_ok rt /\ closing rt = true /\ closed (state rt) = true.

Lemma close_owned_runs :
  runs runtime_ok close_owned
    (fun _ rt => closed_ok rt /\ served rt = ∅ /\ current (state rt) = Some default_config)
    (fun e rt => closed_ok rt /\ claims e = false /\ current (state rt) = None).
Proof.
  unfold close_owned.
  apply (runs_bind _ _ _ (fun _ rt => runtime_ok rt /\ closing rt = true)); [apply runs_modify; intros rt []; by split|]. intros [].
  apply (runs_bind _ _ _ (fun _ rt => runtime_ok rt /\ closing rt = true)); [apply runs_modify; intros rt [[] ?]; by split|]. intros [].
  eapply runs_bind; [apply runs_gets|]. intros s.
  eapply runs_bind; [apply (runs_gets _ (fun rt => eng_list_inbounds (engine rt)))|]. intros listed.
  apply runs_pre. intros rt0 (Hl & -> & Hok & Hclosing).
  assert (only listed [] (served rt0)) as Honly by (intros _ tag Hs; subst listed; by apply law_list).
  destruct (closed (state rt0) && _) eqn:Hc.
  - apply andb_true_iff in Hc as [Hc Hnil]. assert (listed = []) as -> by (by destruct listed).
    apply only_nil in Honly.
    intros rt rt' r <- [= <- <-]. split_and!; [split_and!| |]; try done. split; [apply Hok| |done].
    cbn. intros c [= <-]. split; [apply default_config_ok|by rewrite image_default].
  - clear Hc Hl. set (known := match current (state rt0) with Some c => Some c | None => recovery (state rt0) end).
    assert (forall c, known = Some c -> config_ok c) as Hknown.
    { intros c. unfold known. destruct (current (state rt0)) as [c'|] eqn:Hcur; [|apply (rk_recovery _ Hok)].
      intros [= <-]. by apply (rk_current _ Hok). }
    apply (runs_bind _ _ _ (fun errors => At rt0 (only [] errors))).
    { eapply runs_weaken; [apply (runs_triple_ok rt0 (only listed []) _ (fun errors => only [] errors)
        (fun e rt => closed_ok rt /\ claims e = false /\ current (state rt) = None)), close_live_triple| |done|done].
      intros rt <-. split_and!; [apply framed_refl|apply Hok|exact Honly]. }
    intros errors. eapply runs_bind; [apply (runs_set_state _ _ (closed_state (match errors with [] => true | _ => false end) known))|].
    intros []. destruct errors as [|error errors].
    + apply runs_modify. intros rt ([Hs _ Hcl _ _ _ _ _] & Hr & Hv%only_nil).
      split_and!; [split_and!| |]; cbn; try done; [|by rewrite Hcl|by rewrite Hs|by rewrite Hs].
      split; cbn; [done| |by rewrite Hs]. rewrite Hs. intros c [= <-]. split; [apply default_config_ok|by rewrite image_default].
    + intros rt rt' r ([Hs _ Hcl _ _ _ _ _] & Hr & _) [= <- <-]. rewrite Hs.
      split_and!; [split_and!| |]; cbn; try done; [|cbn in Hcl; congruence|by rewrite Hs].
      split; [done| |]; rewrite Hs; cbn; [done|exact Hknown].
Qed.
End recovery.
