(* ===== verification/RuntimeTheorems.v ===== *)
(** * The shoes runtime: what applying a configuration guarantees

    A success serves exactly the candidate in normal form; a failure that reports
    a rollback or an unchanged state still serves the previous configuration; any
    outcome keeps [runtime_ok], and nothing panics. *)

From Stdlib Require Import ZArith Lia.
From S2P Require Import Prelude Bytes Traffic TrafficQueue Credentials Manager Adapter EngineApi PendingTraffic Runtime RuntimeTx.
From S2P Require Import RuntimeSpec RuntimeApply RuntimeReconcile RuntimeNormalize RuntimeRecovery.

Open Scope Z_scope.

Section applied.
Context {E L V Y Res Ld Prep : Type}.
Context `{!ValueOps V} `{!YamlOps Y} `{!EngineOps E L V} `{!EngineLaws E L V} `{!RuleSetOps Ld Res Prep V}.

Local Abbreviation RuntimeConfig := (RuntimeConfig V Res).
Local Abbreviation NormalizedInbound := (NormalizedInbound V).
Local Abbreviation NormalizedConfig := (NormalizedConfig V).
Local Abbreviation runtime := (runtime (E := E) (L := L) (V := V) (Ld := Ld)).
Local Abbreviation method F := (stm runtime (exn F)).
Local Abbreviation view := (view V).
Local Abbreviation triple := (triple_at (Ld := Ld) receipts_ok).
Local Abbreviation served rt := (live (engine rt)).
Local Abbreviation disabled rt := (eng_traffic_analysis_disabled (engine rt)).
Implicit Types rt : runtime.
Implicit Types v : view.

(** What applying a configuration leaves alone. *)
Record kept rt rt' : Prop := {
  kp_closing : closing rt' = closing rt;
  kp_watcher : rule_set_watcher rt' = rule_set_watcher rt;
  kp_others : others rt' = others rt;
  kp_policy : disabled rt' = disabled rt;
  kp_limit : PendingTraffic.max_keys (pending_traffic rt') = PendingTraffic.max_keys (pending_traffic rt);
  kp_closed : closed (state rt') = closed (state rt)
}.

Lemma kept_refl rt : kept rt rt.
Proof. by split. Qed.
Lemma kept_trans rt1 rt2 rt3 : kept rt1 rt2 -> kept rt2 rt3 -> kept rt1 rt3.
Proof. intros [] []. split; congruence. Qed.

Lemma framed_kept rt0 m s rt : closed s = closed (state rt0) -> framed (set_replay m (set_state s rt0)) rt -> kept rt0 rt.
Proof. intros Hc [Hs ???????]. split; try done. by rewrite Hs. Qed.

Lemma At_kept rt0 (P : view -> Prop) rt : At rt0 P rt -> kept rt0 rt.
Proof. intros [[Hs ???????] _]. split; try done. by rewrite Hs. Qed.

(** ** One transaction *)

(** A failure: a claim of the previous state is true. *)
Definition refused rt0 (e : RuntimeError.t) rt : Prop :=
  runtime_ok rt /\ kept rt0 rt /\
  (claims e = true -> forall c, current (state rt0) = Some c -> current (state rt) = Some c).

(** A success: the candidate is in force. *)
Definition in_force (config : RuntimeConfig) rt0 rt : Prop :=
  runtime_ok rt /\ kept rt0 rt /\ committed (state rt) = true /\
  exists prepared desired, desired_config (Y := Y) (Ld := Ld) (disabled rt0) prepared config = Ok desired /\
    current (state rt) = Some desired.

(** [previous] is known and served. *)
Definition Known previous rt0 rt : Prop :=
  runtime_ok rt /\ kept rt0 rt /\ current (state rt) = Some previous /\
  forall c, current (state rt0) = Some c -> previous = c.

Lemma At_ok previous rt0 rt1 rt :
  Known previous rt0 rt1 -> At rt1 (eq (image_config previous)) rt -> Known previous rt0 rt.
Proof.
  intros (Hok & Hk & Hcur & Hp) Ha. pose proof Ha as (Hf & Hr & Hv). pose proof (fr_state _ _ Hf) as Hs.
  split_and!; [|by eapply kept_trans, At_kept|by rewrite Hs|done].
  split; [done| |]; rewrite Hs; [|apply (rk_recovery _ Hok)].
  intros c Hc. rewrite Hcur in Hc. injection Hc as <-. split; [by apply (rk_current _ Hok)|done].
Qed.

Lemma Known_At previous rt0 rt : Known previous rt0 rt -> At rt (eq (image_config previous)) rt.
Proof. intros (Hok & _ & Hcur & _). split_and!; [apply framed_refl|apply Hok|symmetry; by apply (rk_current _ Hok)]. Qed.

Lemma Known_refused previous rt0 e rt : Known previous rt0 rt -> refused rt0 e rt.
Proof. intros (Hok & Hk & Hcur & Hp). split_and!; [done|done|]. intros _ c Hc. by rewrite <- (Hp _ Hc). Qed.

Lemma settled_refused previous rt0 rt1 e rt : Known previous rt0 rt1 -> settled previous rt1 e rt -> refused rt0 e rt.
Proof.
  intros (Hok & Hk & Hcur & Hp) Hs. pose proof (proj1 (rk_current _ Hok _ Hcur)) as Hprev.
  destruct Hs as [[m Ha]|(H1 & H2 & m & o & Ha)].
  - split_and!; [by eapply known_ok|by eapply kept_trans, framed_kept; [| |apply Ha]|].
    intros _ c Hc. rewrite (fr_state _ _ (proj1 Ha)). cbn. by rewrite (Hp _ Hc).
  - split_and!; [by eapply unknown_ok|by eapply kept_trans, framed_kept; [| |apply Ha]|].
    unfold claims. by rewrite H1, H2.
Qed.

(** Recovery, when it is needed. *)
Lemma recovered_runs rt0 :
  runtime_ok rt0 -> runs (eq rt0) recover_if_needed (fun _ rt => exists previous, Known previous rt0 rt) (refused rt0).
Proof.
  intros Hok. destruct (current (state rt0)) as [c|] eqn:Hc.
  - intros rt rt' r <-. unfold recover_if_needed, mbind, stm_bind, gets. rewrite Hc. intros [= <- <-].
    exists c. split_and!; [done|apply kept_refl|done|]. rewrite Hc. by intros c' [= <-].
  - eapply runs_weaken; [apply recover_runs; [apply Hok|done|by apply recovery_target_ok]|done| |].
    + cbn. intros _ rt Ha. exists (recovery_target (state rt0)).
      split_and!; [eapply known_ok; [|exact Ha]; by apply recovery_target_ok|by eapply framed_kept; [|apply Ha]| |by rewrite Hc].
      by rewrite (fr_state _ _ (proj1 Ha)).
    + cbn. intros e rt [He Hrec]. pose proof (recovering_ok _ _ _ Hok Hc Hrec) as [Hok' _].
      destruct Hrec as (o & [Hs ???????] & _). split_and!; [done| |by rewrite He].
      split; try done. by rewrite Hs.
Qed.

(** What leaves the served view alone. *)
Lemma quiet_runs {A} previous rt0 (m : method RuntimeError.t A) :
  (forall v0, triple (eq v0) m (fun _ => eq v0) (fun _ => eq v0)) ->
  runs (Known previous rt0) m (fun _ => Known previous rt0) (refused rt0).
Proof.
  intros Hm. apply runs_pre. intros rt1 Hk. pose proof (Known_At _ _ _ Hk) as Ha.
  eapply runs_weaken; [apply (runs_triple rt1), Hm|by intros rt <-| |].
  - intros a rt H. by eapply At_ok.
  - intros e rt H. eapply Known_refused. by eapply At_ok.
Qed.

Lemma fail_unchanged_triple {A} operation (P : view -> Prop) (Q : A -> view -> Prop) :
  triple P (fail_unchanged operation) Q (fun _ => P).
Proof. intros rt rt' r Hp Hr [= <- <-]. split_and!; [apply framed_refl|done|done]. Qed.

Lemma preflight_quiet what (m : stm E EngineError.t unit) v0 :
  (forall e e' r, m e = (e', r) -> becomes e e' (live e)) ->
  triple (eq v0) (preflight what m) (fun _ => eq v0) (fun _ => eq v0).
Proof.
  intros Hm. unfold preflight. apply (triple_bind _ _ _ (fun _ => eq v0)).
  - apply triple_ask. intros e e' r -> [Hb Hd]%Hm. by rewrite Hb.
  - intros [a|err]; [by apply triple_ret|apply fail_unchanged_triple].
Qed.

Lemma capture_quiet c inbound_tags replay v0 :
  triple (eq v0) (capture_replay_state c inbound_tags replay) (fun _ => eq v0) (fun _ => eq v0).
Proof.
  revert replay. induction inbound_tags as [|tag rest IH]; intros replay; cbn [capture_replay_state]; [by apply triple_ret|].
  apply (triple_bind _ _ _ (fun _ => eq v0)); [|intros lease; apply IH].
  apply triple_on_engine, triple_ask. intros e e' r Hv [= <- <-]. split; [done|].
  by destruct (eng_preserve_inbound_replay tag e).
Qed.

Lemma transaction_advances previous desired dns configure :
  config_ok previous -> config_ok desired ->
  advances (Ld := Ld) (image_config previous) (eq (image_config previous))
    (run_transaction previous desired dns configure) (fun _ v => v = image_config desired).
Proof.
  intros Hp Hd. eapply (advances_bind _ _ _ _ (fun _ => eq (image_config previous))).
  - destruct configure; [|by apply advances_ret]. apply advances_try_quiet. by intros e e' r H%law_configure_dns.
  - intros _. by apply execute_apply_advances.
Qed.

(** From a known state, the transaction itself. *)
Definition commit_or_finish previous desired dns configure replay (prepared : Prep) : method RuntimeError.t unit := fun rt =>
  match run_transaction previous desired dns configure ([], rt) with
  | ((_, rt), Ok _) =>
      (_ ← modify (fun rt => set_state (mkApplied (Some desired) None ∅ true (closed (state rt))) rt);
       _ ← modify (set_replay ∅);
       _ ← modify_engine eng_commit_client_chain_group_generation;
       modify (fun rt => set_loader (rs_commit prepared (loader rt)) rt)) rt
  | ((entries, rt), Err (Fail failure)) => finish_failed_transaction previous replay failure entries dns rt
  | ((_, rt), Err (Panic message)) => (rt, Err (Panic message))
  end.

Lemma commit_runs config rt0 previous desired dns configure replay prepared :
  desired_config (Y := Y) (Ld := Ld) (disabled rt0) prepared config = Ok desired ->
  runs (Known previous rt0) (commit_or_finish previous desired dns configure replay prepared)
    (fun _ => in_force config rt0) (refused rt0).
Proof.
  intros Hdes rt rt' r Hk. pose proof (desired_config_ok _ _ _ _ Hdes) as Hd.
  pose proof Hk as (Hok & Hkept & Hcur & _). destruct (rk_current _ Hok _ Hcur) as [Hp Hv].
  unfold commit_or_finish. destruct (run_transaction _ _ _ _ ([], rt)) as [[j rt1] res] eqn:Ex.
  assert (Good (image_config previous) (L := L) [] (served rt)) as Hgood by (by split).
  destruct (transaction_advances _ _ _ _ Hp Hd _ _ _ _ _ Hgood (eq_sym Hv) (rk_receipts _ Hok) Ex) as (Hf & Hr & H1).
  destruct res as [[]|[failure|msg]]; [|intros Efin|done].
  - destruct H1 as [_ H1]. cbn. intros [= <- <-].
    pose proof (law_commit (engine rt1)) as [Hvc Hdc].
    assert (kept rt rt1) as Hkept1 by (by apply (At_kept rt (fun _ => True))).
    pose proof (kept_trans _ _ _ Hkept Hkept1) as [].
    split_and!; [|split; cbn; try done; congruence|done|by exists prepared, desired].
    split; cbn; [done| |done]. intros c [= <-]. split; [done|by rewrite Hvc].
  - destruct H1 as [Hundo Hrest].
    pose proof (finish_failed_runs (A := unit) previous replay failure j dns rt Hp Hundo rt1 rt' r) as Hfin.
    specialize (Hfin ltac:(by split_and!) Efin). destruct r as [[]|[e|msg]]; [done| |done].
    by eapply settled_refused.
Qed.

Lemma transaction_runs config rt0 prepared force :
  runtime_ok rt0 ->
  runs (eq rt0) (apply_transaction_locked (Y := Y) config prepared force) (fun _ => in_force config rt0) (refused rt0).
Proof.
  intros Hok. unfold apply_transaction_locked.
  assert (forall e rt, rt0 = rt -> refused rt0 e rt) as Hsame.
  { intros e rt <-. split_and!; [done|apply kept_refl|auto]. }
  eapply runs_bind; [apply runs_gets|]. intros is_closing. apply runs_pre. intros rt [-> <-].
  eapply runs_bind; [apply runs_gets|]. intros s. apply runs_pre. intros rt [-> <-].
  apply (runs_bind _ _ _ (fun _ => eq rt0)).
  { destruct (_ || _); [|by apply runs_ret]. intros rt rt' r <- [= <- <-]. by apply Hsame. }
  intros []. eapply runs_bind; [apply (runs_gets _ (fun rt => disabled rt))|]. intros sniff. apply runs_pre. intros rt [-> <-].
  destruct (desired_config (disabled rt0) prepared config) as [desired|error] eqn:Hdes.
  2:{ intros rt rt' r <- [= <- <-]. by apply Hsame. }
  pose proof (desired_config_ok _ _ _ _ Hdes) as Hd.
  apply (runs_bind _ _ _ (fun d rt => d = desired /\ rt0 = rt)); [by apply runs_ret|]. intros d. apply runs_pre. intros rt [-> <-].
  eapply runs_bind; [by apply recovered_runs|]. intros []. apply runs_pre. intros rt1 [previous Hk].
  eapply runs_bind; [apply runs_gets|]. intros s. apply runs_pre. intros rt2 [-> <-].
  pose proof Hk as (Hok1 & Hkept & Hcur & _). rewrite Hcur.
  apply (runs_bind _ _ _ (fun c rt => c = previous /\ Known previous rt0 rt)).
  { intros rt rt' r <- [= <- <-]. done. }
  intros c. apply runs_pre. intros rt2 [-> Hk2].
  apply (runs_bind _ _ _ (fun _ => Known previous rt0)).
  { apply (runs_weaken (Known previous rt0) _ _ (fun _ => Known previous rt0) _ (refused rt0)); [|by intros rt <-|done|done].
    apply quiet_runs. intros v0.
    apply (for_in_triple (fun _ => eq v0)). intros i rest. apply preflight_quiet. intros e e' r. apply law_validate. }
  intros []. eapply runs_bind; [apply quiet_runs; intros v0; apply preflight_quiet; intros e e' r; apply law_validate_dns|].
  intros []. eapply runs_bind; [apply quiet_runs; intros v0; apply capture_quiet|].
  intros replay. apply (runs_bind _ _ _ (fun _ => Known previous rt0)); [|intros []; by apply commit_runs].
  apply quiet_runs. intros v0. destruct (client_rotated _); [|by apply triple_ret].
  intros rt rt' r Hv Hr [= <- <-]. destruct (law_rotate (engine rt)) as [Hb Hdis].
  split_and!; [by split|done|cbn; by rewrite Hb].
Qed.

(** ** The whole operation *)

(** What needs no lock changes neither the applied state nor what is served. *)
Record untouched rt rt' : Prop := {
  ut_state : state rt' = state rt;
  ut_served : served rt' = served rt;
  ut_policy : disabled rt' = disabled rt;
  ut_receipts : receipts_ok (pending_traffic rt) -> receipts_ok (pending_traffic rt')
}.

Lemma untouched_refl rt : untouched rt rt.
Proof. by split. Qed.
Lemma untouched_trans rt1 rt2 rt3 : untouched rt1 rt2 -> untouched rt2 rt3 -> untouched rt1 rt3.
Proof. intros [] []. split; try congruence. auto. Qed.

Lemma untouched_ok rt rt' : untouched rt rt' -> runtime_ok rt -> runtime_ok rt'.
Proof.
  intros [Hs Hv _ Hr] Hok. split; [apply Hr, Hok| |]; rewrite Hs; [rewrite Hv; apply (rk_current _ Hok)|apply (rk_recovery _ Hok)].
Qed.

(** A fold over the engine that keeps what is served. *)
Lemma fold_engine_quiet {X B} (f : E * B -> X -> E * B) (l : list X) e b :
  (forall e b x, becomes e (f (e, b) x).1 (live e)) -> becomes e (foldl f (e, b) l).1 (live e).
Proof.
  intros Hf. revert e b. induction l as [|x l IH]; intros e b; [done|]. cbn.
  destruct (f (e, b) x) as [e1 b1] eqn:Ex. pose proof (Hf e b x) as [Hb Hd]. rewrite Ex in Hb, Hd. cbn in Hb, Hd.
  destruct (IH e1 b1) as [Hb1 Hd1]. split; congruence.
Qed.

Lemma untouched_drain rt : untouched rt (drain_traffic_owned rt).1.
Proof.
  unfold drain_traffic_owned, PendingTraffic.drain. set (d0 := foldl merge_traffic_entry ∅ _).
  assert (receipts_ok (pending_traffic rt) -> receipts_ok (PendingTraffic.mk ∅ (PendingTraffic.reserved (pending_traffic rt))
    (PendingTraffic.max_keys (pending_traffic rt)))) as Hr.
  { intros [_ Hr]. split; cbn; [rewrite map_size_empty; lia|done]. }
  destruct (current (state (set_pending_traffic _ rt))) as [c|]; cbn.
  - match goal with |- context [foldl ?f (engine rt, d0) ?l] =>
      assert (becomes (engine rt) (foldl f (engine rt, d0) l).1 (live (engine rt))) as [Hb Hd];
      [apply fold_engine_quiet|destruct (foldl f (engine rt, d0) l) as [e d]; by split]
    end.
    intros e b kv. unfold drain_inbound.
    destruct (eng_take_nonzero_inbound_traffic kv.1 e) as [e' [us|err]] eqn:Ex; by apply law_sweep in Ex.
  - by split.
Qed.

Lemma untouched_close_user node user_id rt : untouched rt (close_user_connections_owned node user_id rt).1.
Proof.
  unfold close_user_connections_owned. destruct (_ || _); [apply untouched_refl|].
  set (l := match current (state rt) with Some c => node_tags c node | None => [] end).
  assert (becomes (engine rt) (foldl (close_user_on user_id) (engine rt, 0) l).1 (live (engine rt))) as [Hb Hd].
  { apply fold_engine_quiet. intros e b tag. unfold close_user_on.
    destruct (eng_kick_user tag user_id e) as [e' [n|err]] eqn:Ex; by apply law_kick in Ex. }
  revert Hb Hd. destruct (foldl _ _ _) as [e d]. intros Hb Hd. by split.
Qed.

Lemma untouched_others rt : untouched rt (others_run rt).
Proof.
  unfold others_run. destruct (others rt) as [|ops rest]; [apply untouched_refl|].
  apply (untouched_trans _ (set_others rest rt)); [by split|]. generalize (set_others rest rt). clear.
  induction ops as [|op ops IH]; intros rt; [apply untouched_refl|]. cbn.
  apply (untouched_trans _ (run_quick op rt)); [|apply IH].
  destruct op; [by split|apply untouched_drain|apply untouched_close_user].
Qed.

(** The candidate in force, or a refusal that tells the truth. *)
Definition outcome (config : RuntimeConfig) rt (r : result RuntimeError.t unit) rt' : Prop :=
  runtime_ok rt' /\ disabled rt' = disabled rt /\
  match r with
  | Ok _ => committed (state rt') = true /\ exists prepared desired,
      desired_config (Y := Y) (Ld := Ld) (disabled rt) prepared config = Ok desired /\
      current (state rt') = Some desired
  | Err e => claims e = true -> forall c, current (state rt) = Some c -> current (state rt') = Some c
  end.

Lemma outcome_untouched config rt rt1 r rt' : untouched rt rt1 -> outcome config rt1 r rt' -> outcome config rt r rt'.
Proof. intros [Hs _ Hp _] (H1 & H2 & H3). unfold outcome. rewrite Hp, Hs in *. by split_and!. Qed.

Lemma outcome_same config rt e rt' : runtime_ok rt -> untouched rt rt' -> outcome config rt (Err e) rt'.
Proof. intros Hok Hu. split_and!; [by eapply untouched_ok|apply Hu|]. intros _ c. by rewrite (ut_state _ _ Hu). Qed.

Lemma outcome_watcher config rt r w rt' : outcome config rt r rt' -> outcome config rt r (set_watcher w rt').
Proof. intros ([] & Hp & Hr). split; [by split|]. by split. Qed.

Lemma external_runs config force rt :
  runtime_ok rt ->
  runs (eq rt) (apply_external_owned (Y := Y) config force)
    (fun _ => outcome config rt (Ok tt)) (fun e => outcome config rt (Err e)).
Proof.
  intros Hok. unfold apply_external_owned.
  set (P rt' := runtime_ok rt' /\ untouched rt rt').
  eapply runs_bind; [apply runs_gets|]. intros is_closing. apply runs_pre. intros rt1 [-> <-].
  apply (runs_bind _ _ _ (fun _ => P)).
  { destruct (closing rt).
    - intros rt' rt'' r <- [= <- <-]. by apply outcome_same; [|apply untouched_refl].
    - apply runs_ret. intros rt' <-. by split; [|apply untouched_refl]. }
  intros []. apply (runs_bind _ _ _ (fun _ => P)).
  { intros rt1 rt' r [Hok1 Hu1]. unfold prepare_rule_sets.
    destruct (rs_prepare _ _ (loader rt1)) as [ld [prepared|error]]; intros [= <- <-];
      assert (untouched rt (set_loader ld rt1)) as Hu by (by apply (untouched_trans _ _ _ Hu1)).
    - split; [by eapply untouched_ok|done].
    - by apply outcome_same. }
  intros prepared. apply (runs_bind _ _ _ (fun _ => P)).
  { apply runs_modify. intros rt1 [Hok1 Hu1]. pose proof (untouched_others rt1) as Ho.
    split; [by eapply untouched_ok|by eapply untouched_trans]. }
  intros []. apply (runs_bind _ _ _ (fun _ => outcome config rt (Ok tt))).
  { apply runs_pre. intros rt1 [Hok1 Hu1]. eapply runs_weaken; [by apply (transaction_runs config rt1)|done| |].
    - cbn. intros [] rt' (Hok' & Hk & Hc & prep & d & Hd & Hcur). eapply outcome_untouched; [exact Hu1|].
      split_and!; [done|apply Hk|done|by exists prep, d].
    - cbn. intros e rt' (Hok' & Hk & Hc). eapply outcome_untouched; [exact Hu1|].
      split_and!; [done|apply Hk|done].
  }
  intros []. apply runs_modify. intros rt' Hout.
  destruct (existsb _ _); unfold install_rule_set_watcher_locked; repeat case_match; by apply outcome_watcher.
Qed.
End applied.

(** ** The shoes runtime: its theorems

    What a reachable runtime serves, what the answers of its operations mean, and
    that none of its assertions fails. *)

Open Scope Z_scope.

Section theorems.
Context {E L V Y Res Ld Prep : Type}.
Context `{!ValueOps V} `{!YamlOps Y} `{!EngineOps E L V} `{!EngineLaws E L V} `{!RuleSetOps Ld Res Prep V}.

Local Abbreviation RuntimeConfig := (RuntimeConfig V Res).
Local Abbreviation NormalizedConfig := (NormalizedConfig V).
Local Abbreviation runtime := (runtime (E := E) (L := L) (V := V) (Ld := Ld)).
Local Abbreviation served rt := (live (engine rt)).
Local Abbreviation disabled rt := (eng_traffic_analysis_disabled (engine rt)).
Local Abbreviation apply := (apply_external_owned (Y := Y)).
Implicit Types rt : runtime.

(** ** Reachable runtimes *)

(** One operation of the runtime, or one refresh of its watcher, from start to end. *)
Inductive step : runtime -> runtime -> Prop :=
  | step_apply config force rt rt' r : apply config force rt = (rt', r) -> step rt rt'
  | step_refresh generation config rt rt' r :
      refresh_rule_sets_owned (Y := Y) generation config rt = (rt', r) -> step rt rt'
  | step_close rt rt' r : close_owned rt = (rt', r) -> step rt rt'
  | step_quick op rt : step rt (run_quick op rt).

Inductive reachable : runtime -> Prop :=
  | reachable_start e ld ops : eng_list_inbounds e = [] -> reachable (from_engine e ld ops)
  | reachable_step rt rt' : reachable rt -> step rt rt' -> reachable rt'.

Lemma from_engine_ok e ld ops : eng_list_inbounds e = [] -> runtime_ok (from_engine e ld ops : runtime).
Proof.
  intros He. split; [split; [apply Nat.le_0_l|done]| |done]. intros c [= <-]. split; [apply default_config_ok|].
  rewrite image_default. apply only_nil. intros _ tag Hs. cbn in Hs. by rewrite law_list, He in Hs.
Qed.

Lemma apply_ok config force rt rt' r : runtime_ok rt -> apply config force rt = (rt', r) -> runtime_ok rt'.
Proof.
  intros Hok Ex. pose proof (external_runs config force rt Hok _ _ _ eq_refl Ex) as H.
  destruct r as [[]|[e|msg]]; [apply H|apply H|done].
Qed.

Lemma close_ok rt rt' r : runtime_ok rt -> close_owned rt = (rt', r) -> runtime_ok rt'.
Proof.
  intros Hok Ex. pose proof (close_owned_runs _ _ _ Hok Ex) as H. destruct r as [[]|[e|msg]]; [apply H|apply H|done].
Qed.

Lemma quick_ok op rt : runtime_ok rt -> runtime_ok (run_quick op rt).
Proof.
  apply untouched_ok. destruct op; [by split|apply untouched_drain|apply untouched_close_user].
Qed.

Lemma prepare_untouched config cancelled rt : untouched rt (prepare_rule_sets (Res := Res) config cancelled rt).1.
Proof. unfold prepare_rule_sets. by destruct (rs_prepare _ _ (loader rt)) as [ld [prepared|error]]. Qed.

Lemma refresh_ok generation config rt rt' r :
  runtime_ok rt -> refresh_rule_sets_owned (Y := Y) generation config rt = (rt', r) -> runtime_ok rt'.
Proof.
  intros Hok. unfold refresh_rule_sets_owned. destruct (_ || _); [by intros [= <- <-]|].
  pose proof (prepare_untouched config (closing rt) rt) as Hp.
  destruct (prepare_rule_sets config (closing rt) rt) as [rt1 prepared]. cbn in Hp.
  pose proof (untouched_ok _ _ (untouched_trans _ _ _ Hp (untouched_others rt1)) Hok) as Hok1.
  destruct (_ || _); [by intros [= <- <-]|]. destruct prepared as [prepared|x]; [|by intros [= <- <-]].
  destruct (apply_transaction_locked config prepared false (others_run rt1)) as [rt2 r2] eqn:Ex. intros [= <- <-].
  pose proof (transaction_runs config _ prepared false Hok1 _ _ _ eq_refl Ex) as H.
  destruct r2 as [[]|[e|msg]]; [apply H|apply H|done].
Qed.

Lemma reachable_runtime_ok rt : reachable rt -> runtime_ok rt.
Proof.
  induction 1 as [e ld ops He|rt rt' _ IH Hs]; [by apply from_engine_ok|].
  destruct Hs; [by eapply apply_ok|by eapply refresh_ok|by eapply close_ok|by apply quick_ok].
Qed.

(** C25. Whatever sequence of operations, refreshes and closings led to it, succeeded
    or failed: a runtime whose applied state is known has the engine serve exactly
    that configuration, tag by tag and user by user; its pending receipts are within
    the limit and no reservation is left open. *)
Theorem reachable_serves_current rt :
  reachable rt ->
  (forall c, current (state rt) = Some c -> served rt = image_config c) /\
  (size (PendingTraffic.entries_of (pending_traffic rt)) <= PendingTraffic.max_keys (pending_traffic rt))%nat /\
  PendingTraffic.reserved (pending_traffic rt) = ∅.
Proof.
  intros H%reachable_runtime_ok. destruct (rk_receipts _ H). split; [|done].
  intros c Hc. by apply (rk_current _ H).
Qed.

(** ** What the answers mean *)

(** C19. A configuration accepted is a configuration served: its normal form becomes
    the current one and the engine runs exactly its inbounds, each with its
    configuration and users, whether it was changed in place or reloaded. *)
Theorem applied_is_served config force rt rt' :
  runtime_ok rt -> apply config force rt = (rt', Ok tt) ->
  committed (state rt') = true /\ exists prepared desired,
    desired_config (Y := Y) (Ld := Ld) (disabled rt) prepared config = Ok desired /\
    current (state rt') = Some desired /\ served rt' = image_config desired.
Proof.
  intros Hok Ex. destruct (external_runs config force rt Hok _ _ _ eq_refl Ex) as (Hok' & _ & Hc & prepared & desired & Hd & Hcur).
  split; [done|]. exists prepared, desired. split; [done|]. split; [done|]. by apply (rk_current _ Hok').
Qed.


(** C26. No [expect] and no assertion of the runtime fails, whatever the engine
    answers: the tags and users of a difference exist, a reserved receipt finds its
    place, a user retired by force has an owner. *)
Theorem runtime_never_panics config force rt message :
  runtime_ok rt ->
  (apply config force rt).2 <> Err (Panic message) /\ (close_owned rt).2 <> Err (Panic message) /\
  (recover_if_needed rt).2 <> Err (Panic message).
Proof.
  intros Hok. split_and!.
  - destruct (apply config force rt) as [rt' r] eqn:Ex. pose proof (external_runs config force rt Hok _ _ _ eq_refl Ex) as H.
    by destruct r as [[]|[e|msg]].
  - destruct (close_owned rt) as [rt' r] eqn:Ex. pose proof (close_owned_runs _ _ _ Hok Ex) as H.
    by destruct r as [[]|[e|msg]].
  - destruct (recover_if_needed rt) as [rt' r] eqn:Ex. pose proof (recovered_runs _ Hok _ _ _ eq_refl Ex) as H.
    by destruct r as [[]|[e|msg]].
Qed.

(** Recovery: after a rollback that failed nothing is known of the engine, and a
    recovery that succeeds has it serve exactly the last known configuration again,
    whatever it was running; one that fails leaves the target to a later attempt. *)
Theorem recovery_restores rt rt' r :
  runtime_ok rt -> current (state rt) = None -> recover_if_needed rt = (rt', r) ->
  match r with
  | Ok _ => current (state rt') = Some (recovery_target (state rt)) /\
      served rt' = image_config (recovery_target (state rt))
  | Err _ => current (state rt') = None /\ recovery_target (state rt') = recovery_target (state rt)
  end.
Proof.
  intros Hok Hn Ex. pose proof (recover_runs rt (rk_receipts _ Hok) Hn (recovery_target_ok _ Hok) _ _ _ eq_refl Ex) as H.
  destruct r as [[]|[e|msg]]; [| |done].
  - destruct H as (Hf & _ & Hv). by rewrite (fr_state _ _ Hf).
  - destruct H as (_ & o & Hf & _). rewrite (fr_state _ _ Hf). by split.
Qed.

(** Closing is for good: once it has begun every candidate is refused and nothing
    changes; a closing that succeeds leaves the engine serving nothing, one that
    fails never publishes the runtime as empty. *)
Theorem close_is_final rt rt' r config force :
  runtime_ok rt -> close_owned rt = (rt', r) ->
  apply config force rt' = (rt', Err (Fail (RuntimeError.unchanged "runtime is closed" (running rt')))) /\
  match r with Ok _ => served rt' = ∅ | Err _ => current (state rt') = None end.
Proof.
  intros Hok Ex. pose proof (close_owned_runs _ _ _ Hok Ex) as H.
  destruct r as [[]|[e|msg]]; [| |done]; destruct H as ((_ & Hcl & _) & Hv & H); (split; [|done]);
    unfold apply_external_owned, mbind, stm_bind, gets; by rewrite Hcl.
Qed.

(** ** Receipts *)

Lemma remove_with_retry_info tag id rt rt' info :
  remove_user_with_retry tag id rt = (rt', Ok info) ->
  pending_traffic rt' = pending_traffic rt /\ exists e, eng_remove_user tag id e = (engine rt', Ok info).
Proof.
  unfold remove_user_with_retry, on_engine, mbind, stm_bind, ask_engine.
  destruct (eng_remove_user tag id (engine rt)) as [e1 [info1|err]] eqn:E1; cbn.
  - intros [= <- <-]. split; [done|]. by exists (engine rt).
  - destruct err; try done. cbn. destruct (eng_remove_user tag id e1) as [e2 [info2|err]] eqn:E2; cbn; [|done].
    intros [= <- <-]. split; [done|]. by exists e1.
Qed.

(** A user retired leaves a receipt: when retiring succeeds, the final counters the
    engine answered are merged into the pending receipts, under the identity they are
    accounted to. *)
Theorem retired_traffic_kept {F} inbound tag id (refused : string -> F) failed rt rt' :
  receipts_ok (pending_traffic rt) ->
  retire_user inbound tag id refused failed rt = (rt', Ok tt) ->
  exists info e, eng_remove_user tag id e = (engine rt', Ok info) /\ UserInfo.id info = id /\
    PendingTraffic.entries_of (pending_traffic rt') =
      merge_traffic_entry (PendingTraffic.entries_of (pending_traffic rt)) (traffic_drain inbound info).
Proof.
  intros [_ Hres]. unfold retire_user, collect, mbind, stm_bind, with_fail, reserve_traffic, PendingTraffic.reserve.
  set (key := traffic_key inbound id). set (p := pending_traffic rt) in *.
  assert (forall p1 owns rt1 info,
    PendingTraffic.entries_of p1 = PendingTraffic.entries_of p ->
    remove_user_with_retry tag id (set_pending_traffic p1 rt) = (rt1, Ok info) ->
    queue_traffic (F := F) inbound id owns info rt1 = (rt', Ok tt) ->
    exists info e, eng_remove_user tag id e = (engine rt', Ok info) /\ UserInfo.id info = id /\
      PendingTraffic.entries_of (pending_traffic rt') =
        merge_traffic_entry (PendingTraffic.entries_of p) (traffic_drain inbound info)) as Hcommit.
  { intros p1 owns rt1 info Hp1 [Hp [e He]]%remove_with_retry_info. unfold queue_traffic.
    case_decide as Hk; [|done]. unfold PendingTraffic.merge_reserved.
    destruct (_ && _); [done|]. intros [= <-]. exists info, e. split; [done|].
    split; [by rewrite key_of_drain in Hk; injection Hk|]. cbn in Hp |- *.
    rewrite Hp. destruct owns; cbn; by rewrite Hp1. }
  case_bool_decide as Hk; cbn [map_err].
  - destruct (remove_user_with_retry tag id (set_pending_traffic p rt)) as [rt1 [info|x]] eqn:Ex; cbn [map_err]; [|done].
    by apply (Hcommit p).
  - case_bool_decide; [by cbn|]. destruct (_ <=? _)%nat; [by cbn|]. cbn [map_err].
    destruct (remove_user_with_retry tag id _) as [rt1 [info|x]] eqn:Ex; cbn [map_err]; [|done].
    intros Hq. by eapply Hcommit; [|exact Ex|exact Hq].
Qed.
End theorems.
