(* ===== verification/RuntimeExample.v ===== *)
(** * The shoes runtime: a small engine

    An engine over text configurations that keeps [EngineLaws]: a configuration
    "bad" cannot be started, and one that begins with "cold" has to be replaced.
    The theorems of the runtime are applied to it at concrete runtimes. *)

From Stdlib Require Import ZArith Lia.
From S2P Require Import Bytes Traffic TrafficQueue Credentials Prelude.
From S2P Require Import Manager Adapter EngineApi PendingTraffic Runtime RuntimeTx RuntimeSpec RuntimeNormalize.
From S2P Require Import RuntimeRecovery RuntimeTheorems.

Open Scope Z_scope.

Module RuntimeExample.

#[export] Instance text_ops : ValueOps string := {
  value_bool b := if b then "true" else "false";
  as_object _ := None;
  of_object _ := "{}"
}.

#[export] Instance no_yaml : YamlOps unit := {
  yaml_from_slice _ := Err "yaml";
  yaml_to_string _ := Err "yaml";
  yaml_bool _ := tt;
  yaml_is_bool _ _ := false;
  yaml_get _ _ := None;
  yaml_is_mapping _ := false;
  yaml_insert _ _ _ := tt;
  yaml_as_sequence _ := None;
  yaml_of_sequence _ := tt
}.

#[export] Instance no_rule_sets : RuleSetOps unit unit unit string := {
  rs_is_remote _ := false;
  rs_update_interval _ := 0;
  rs_prepare _ _ ld := (ld, Ok tt);
  rs_digest _ := zero_digest;
  rs_rewrite _ config := config;
  rs_commit _ ld := ld
}.

(** The engine is what it runs. *)
Abbreviation engine_t := (view string).

Definition info_of (tag : string) (c : cell string) : InboundInfo.t :=
  InboundInfo.mk tag "text" "tcp" [] 1 0 (size <$> c.2).

Definition user_info (id : string) : UserInfo.t := UserInfo.mk id true 7 5 0 0 0 0 0 0.

Definition start_text (spec : InboundSpec.t string) : stm engine_t EngineError.t InboundInfo.t := fun e =>
  match e !! InboundSpec.tag spec with
  | Some _ => (e, Err (EngineError.DuplicateTag (InboundSpec.tag spec)))
  | None =>
      if bool_decide (InboundSpec.config spec = "bad") then (e, Err (EngineError.InvalidConfig "bad"))
      else (<[InboundSpec.tag spec := spec_cell spec]> e, Ok (info_of (InboundSpec.tag spec) (spec_cell spec)))
  end.

(** An operation on the users of a listener. *)
Definition on_users (tag : string) (e : engine_t)
    (k : string -> gmap string UserSpec.t -> engine_t * result EngineError.t UserInfo.t)
    : engine_t * result EngineError.t UserInfo.t :=
  match e !! tag with
  | Some (c, Some us) => k c us
  | Some (_, None) => (e, Err (EngineError.Unsupported tag))
  | None => (e, Err (EngineError.UnknownTag tag))
  end.

#[export] Instance text_engine : EngineOps engine_t unit string := {
  eng_traffic_analysis_disabled _ := false;
  eng_list_inbounds e := (fun kv => info_of kv.1 kv.2) <$> map_to_list e;
  eng_get_inbound tag e := info_of tag <$> e !! tag;
  eng_failed_listener_tags _ := [];
  eng_preserve_inbound_replay _ _ := Ok tt;
  eng_validate_inbound _ e := (e, Ok tt);
  eng_validate_urltest_probe_dns _ e := (e, Ok tt);
  eng_configure_urltest_probe_dns _ e := (e, Ok tt);
  eng_rotate_dns_client_generation e := e;
  eng_commit_client_chain_group_generation e := e;
  eng_add_inbound := start_text;
  eng_add_inbound_with_replay spec _ := start_text spec;
  eng_update_inbound spec e :=
    match e !! InboundSpec.tag spec with
    | None => (e, Err (EngineError.UnknownTag (InboundSpec.tag spec)))
    | Some c =>
        if String.prefix "cold" (InboundSpec.config spec) then (e, Err (EngineError.ReloadRequired "cold"))
        else (<[InboundSpec.tag spec := (InboundSpec.config spec, c.2)]> e, Ok (info_of (InboundSpec.tag spec) c))
    end;
  eng_remove_inbound_hard tag e :=
    match e !! tag with
    | Some c => (delete tag e, Ok (info_of tag c))
    | None => (e, Err (EngineError.UnknownTag tag))
    end;
  eng_add_user tag user e := on_users tag e (fun c us =>
    match UserSpec.resolved_id user with
    | Some id => (<[tag := (c, Some (<[id := user]> us))]> e, Ok (user_info id))
    | None => (e, Err (EngineError.InvalidUser "no id"))
    end);
  eng_remove_user tag id e := on_users tag e (fun c us =>
    match us !! id with
    | Some _ => (<[tag := (c, Some (delete id us))]> e, Ok (user_info id))
    | None => (e, Err (EngineError.UnknownUser tag id))
    end);
  eng_kick_user _ _ e := (e, Ok 0);
  eng_list_users tag e :=
    match e !! tag with
    | Some (_, Some us) => Ok ((fun kv => user_info kv.1) <$> map_to_list us)
    | Some (_, None) => Err (EngineError.Unsupported tag)
    | None => Err (EngineError.UnknownTag tag)
    end;
  eng_take_user_traffic tag id e := (e, Ok (user_info id));
  eng_take_nonzero_inbound_traffic _ e := (e, Ok [])
}.

Lemma start_text_law spec (e e' : engine_t) r :
  start_text spec e = (e', r) ->
  match r with
  | Ok _ => e !! InboundSpec.tag spec = None /\ e' = <[InboundSpec.tag spec := spec_cell spec]> e
  | Err _ => e' = e
  end.
Proof.
  unfold start_text. destruct (e !! InboundSpec.tag spec); [by intros [= <- <-]|].
  case_bool_decide; by intros [= <- <-].
Qed.

#[export] Instance text_laws : EngineLaws engine_t unit string.
Proof.
  refine {| live e := e |}; cbn.
  - intros spec e e' r H%start_text_law. destruct r; [destruct H|]; by split_and!.
  - intros spec _ e e' r H%start_text_law. destruct r; [destruct H|]; by split_and!.
  - intros spec e e' r. destruct (e !! InboundSpec.tag spec) as [c|]; [|by intros [= <- <-]].
    destruct (String.prefix _ _); intros [= <- <-]; [done|]. by exists c.
  - intros tag e e' r. by destruct (e !! tag); intros [= <- <-].
  - intros tag user e e' r. unfold on_users. destruct (e !! tag) as [[c [us|]]|]; [|by intros [= <- <-]..].
    destruct (UserSpec.resolved_id user) as [id|]; intros [= <- <-]; [|done]. by exists id, c, us.
  - intros tag id e e' r. unfold on_users. destruct (e !! tag) as [[c [us|]]|]; [|by intros [= <- <-]..].
    destruct (us !! id); intros [= <- <-]; [|done]. split; [done|]. by exists c, us.
  - by intros _ _ e e' r [= <- _].
  - intros tag id e e' r [= <- <-]. split; [done|]. by intros info [= <-].
  - by intros _ e e' r [= <- _].
  - by intros _ e e' r [= <- _].
  - by intros _ e e' r [= <- _].
  - by intros _ e e' r [= <- _].
  - done.
  - done.
  - intros e tag. rewrite <- list_fmap_compose, list_elem_of_fmap. split.
    + intros [c Hc]. exists (tag, c). split; [done|by apply elem_of_map_to_list].
    + intros ([t c] & -> & H%elem_of_map_to_list). by exists c.
Defined.

(** ** Concrete runtimes *)

Definition user (id : string) : UserSpec.t := UserSpec.mk (Some id) None None true None None None.
Definition inbound (tag config : string) (users : option (list UserSpec.t)) : CompiledInbound string :=
  mkCompiled "node-1" "vless" (InboundSpec.mk tag config users).
Definition config_of (inbounds : list (CompiledInbound string)) : RuntimeConfig string unit :=
  mkConfig inbounds [] "" "" None.

Definition first : RuntimeConfig string unit :=
  config_of [inbound "a" "hot-1" (Some [user "u1"; user "u2"]); inbound "b" "cold-1" (Some [user "u1"]);
             inbound "old" "static" None].
(** One listener updated in place, one replaced, one removed, one added. *)
Definition second : RuntimeConfig string unit :=
  config_of [inbound "a" "hot-2" (Some [user "u2"; user "u3"]); inbound "b" "cold-2" (Some [user "u1"]);
             inbound "c" "hot-1" None].
(** The same, but the new listener cannot be started. *)
Definition broken : RuntimeConfig string unit :=
  config_of [inbound "a" "hot-2" (Some [user "u2"; user "u3"]); inbound "b" "cold-2" (Some [user "u1"]);
             inbound "c" "bad" None].

Definition normal (config : RuntimeConfig string unit) : NormalizedConfig string :=
  match normalize config with Ok c => c | Err _ => default_config end.

Abbreviation runtime_t := (runtime (E := engine_t) (L := unit) (V := string) (Ld := unit)).
Definition apply config force : stm runtime_t (exn RuntimeError.t) unit := apply_external_owned (Y := unit) config force.

Definition rt0 : runtime_t := from_engine ∅ tt [].
Definition rt1 : runtime_t := (apply first false rt0).1.
Definition rt2 : runtime_t := (apply second false rt1).1.

Lemma pair_eq {A B} (x : A * B) b : x.2 = b -> x = (x.1, b).
Proof. destruct x. by intros <-. Qed.

Lemma rt0_reachable : reachable (Y := unit) (Res := unit) (Prep := unit) rt0.
Proof. by apply reachable_start. Qed.

Lemma rt1_reachable : reachable (Y := unit) (Res := unit) (Prep := unit) rt1.
Proof. eapply reachable_step; [apply rt0_reachable|]. eapply step_apply. apply surjective_pairing. Qed.

Lemma rt1_ok : runtime_ok rt1.
Proof. apply (reachable_runtime_ok (Y := unit) (Res := unit) (Prep := unit)), rt1_reachable. Qed.

(** What [rt1] has applied. *)
Definition applied1 : NormalizedConfig string := default default_config (current (state rt1)).

Lemma rt1_current : current (state rt1) = Some applied1.
Proof.
  assert (is_some (current (state rt1)) = true) as H by (vm_compute; reflexivity).
  unfold applied1. destruct (current (state rt1)); [reflexivity|discriminate H].
Qed.

Lemma reachable_serves_current_witness : live (engine rt1) = image_config applied1.
Proof.
  exact (proj1 (reachable_serves_current (Y := unit) (Res := unit) (Prep := unit) rt1 rt1_reachable)
    applied1 rt1_current).
Defined.

Lemma normal_form_witness : config_ok (normal first).
Proof. apply (normal_form first (normal first)). vm_compute. reflexivity. Defined.

(** The second configuration is accepted, in place. *)
Lemma applied_is_served_witness : exists prepared desired,
  desired_config (Y := unit) (Ld := unit) (Prep := unit) false prepared second = Ok desired /\
  current (state rt2) = Some desired /\ live (engine rt2) = image_config desired.
Proof.
  exact (proj2 (applied_is_served (Y := unit) second false rt1 rt2 rt1_ok
    (pair_eq _ _ ltac:(vm_compute; reflexivity)))).
Defined.



Lemma runtime_never_panics_witness : (apply broken true rt1).2 <> Err (Panic "diff tag exists").
Proof. apply (runtime_never_panics (Y := unit) broken true rt1 "diff tag exists" rt1_ok). Defined.

Definition rt_closed : runtime_t := (close_owned rt1).1.
Lemma close_is_final_witness : live (engine rt_closed) = ∅.
Proof.
  assert ((close_owned rt1).2 = Ok tt) as Hr by (vm_compute; reflexivity).
  destruct (close_is_final (Y := unit) (Res := unit) (Prep := unit) rt1 rt_closed (Ok tt) first false rt1_ok
    (pair_eq _ _ Hr)) as [_ H]. exact H.
Defined.

(** A runtime after a rollback that failed: listener "a" runs neither configuration. *)
Definition lost : runtime_t :=
  mkRuntime (<["a" := ("hot-9", Some {["u9" := user "u9"]})]> ∅) tt false (mkWatcher 0 None)
    (mkApplied None (Some (normal first)) ∅ true false)
    (<["a" := tt]> (<["b" := tt]> {["old" := tt]})) (PendingTraffic.new 8) [].

Lemma normal_ok config : config_ok (normal config).
Proof.
  unfold normal. destruct (normalize config) as [c|e] eqn:Hn; [by eapply RuntimeNormalize.normalize_ok|apply default_config_ok].
Qed.

Lemma lost_ok : runtime_ok lost.
Proof. split; [split; [apply Nat.le_0_l|done]|done|]. cbn -[normal]. intros c [= <-]. apply normal_ok. Qed.

Definition recovered : runtime_t := (recover_if_needed lost).1.
Lemma recovery_restores_witness : live (engine recovered) = image_config (normal first).
Proof.
  assert ((recover_if_needed lost).2 = Ok tt) as Hr by (vm_compute; reflexivity).
  destruct (recovery_restores lost recovered (Ok tt) lost_ok eq_refl (pair_eq _ _ Hr)) as [_ H]. exact H.
Defined.

(** ** Receipts *)

Definition owner : NormalizedInbound string :=
  mkInbound (inbound "a" "hot-1" (Some [user "u1"])) {["u1" := user "u1"]} true.
Definition retired : runtime_t := (retire_user owner "a" "u1" id (fun _ => "") rt1).1.

Lemma retired_traffic_kept_witness : exists info e,
  eng_remove_user "a" "u1" e = (engine retired, Ok info) /\ UserInfo.id info = "u1" /\
  PendingTraffic.entries_of (pending_traffic retired) =
    merge_traffic_entry (PendingTraffic.entries_of (pending_traffic rt1)) (traffic_drain owner info).
Proof.
  assert ((retire_user owner "a" "u1" id (fun _ => "") rt1).2 = Ok tt) as Hr by (vm_compute; reflexivity).
  exact (retired_traffic_kept owner "a" "u1" id (fun _ => "") rt1 retired (rk_receipts _ rt1_ok) (pair_eq _ _ Hr)).
Defined.

Definition receipt (user : string) (up down hour : Z) : TrafficDrain.t :=
  TrafficDrain.mk "a" "node-1" user "vless" up down (Some (hour * 3600 * nanos)).
Definition brought : list TrafficDrain.t :=
  [receipt "u1" 5 7 1; receipt "u2" 1 0 1; receipt "u1" 10 20 1; receipt "u1" 3 4 2].

Lemma receipts_conserved_witness :
  let p := PendingTraffic.mk (foldl merge_traffic_entry ∅ brought) ∅ 8 in
  total TrafficDrain.uplink_bytes (PendingTraffic.drain p).2 = 19 /\
  total TrafficDrain.downlink_bytes (PendingTraffic.drain p).2 = 31.
Proof.
  intros p. pose proof (receipts_conserved p brought _ _ eq_refl
    ltac:(repeat constructor; cbn; lia) ltac:(vm_compute; discriminate) ltac:(vm_compute; discriminate)
    (surjective_pairing (PendingTraffic.drain p))) as (Hu & Hd & _).
  split; [exact Hu|exact Hd].
Defined.
End RuntimeExample.
