(* ===== verification/RuntimeNode.v ===== *)
(** * The shoes runtime behind the topology adapter

    The well-formed runtimes are a [NodeRuntime] that keeps the adapter's contract
    ([NodeRuntimeLaws]), so the adapter's and the manager's theorems hold of the
    engine itself: what the manager publishes is what the engine runs.

    [NodeExample] puts the manager and the adapter over the engine of
    [RuntimeExample.v]. *)

From Stdlib Require Import ZArith Lia.
From S2P Require Import Prelude Bytes PortRanges Topology Provider Convert PortHopping PortErrors Traffic TrafficQueue Credentials.
From S2P Require Import Mutation Manager ManagerSpec Adapter AdapterSpec.
From S2P Require Import EngineApi PendingTraffic Runtime RuntimeTx RuntimeSpec RuntimeReconcile.
From S2P Require Import RuntimeRecovery RuntimeTheorems RuntimeExample.

Open Scope Z_scope.

Section node.
Context {E L V Y Res Ld Prep : Type}.
Context `{!ValueOps V} `{!YamlOps Y} `{!EngineOps E L V} `{!EngineLaws E L V} `{!RuleSetOps Ld Res Prep V}.

Local Abbreviation RuntimeConfig := (RuntimeConfig V Res).
Local Abbreviation runtime := (runtime (E := E) (L := L) (V := V) (Ld := Ld)).
Local Abbreviation disabled rt := (eng_traffic_analysis_disabled (engine rt)).
Local Abbreviation raw := (shoes_runtime (E := E) (L := L) (V := V) (Y := Y) (Res := Res) (Ld := Ld) (Prep := Prep)).

Definition node : Type := {rt : runtime | runtime_ok rt}.
Implicit Types n : node.
Implicit Types rt : runtime.

(** An operation that keeps runtimes well formed. *)
Definition restrict {F A} (m : stm runtime F A)
    (H : forall rt rt' r, runtime_ok rt -> m rt = (rt', r) -> runtime_ok rt') : stm node F A :=
  fun n => (exist _ (m (`n)).1 (H _ _ _ (proj2_sig n) (surjective_pairing _)), (m (`n)).2).

Lemma restrict_eq {F A} (m : stm runtime F A) H n n' r : restrict m H n = (n', r) -> m (`n) = (`n', r).
Proof. intros [= <- <-]. cbn. apply surjective_pairing. Qed.

Lemma joined_ok {A} operation (m : stm runtime (exn RuntimeError.t) A) :
  (forall rt rt' r, runtime_ok rt -> m rt = (rt', r) -> runtime_ok rt') ->
  forall rt rt' r, runtime_ok rt -> joined operation m rt = (rt', r) -> runtime_ok rt'.
Proof.
  intros H rt rt' r Hok. unfold joined. destruct (m rt) as [rt1 r1] eqn:Ex. pose proof (H _ _ _ Hok Ex).
  destruct r1 as [a|[e|msg]]; by intros [= <- <-].
Qed.

Lemma nr_apply_ok config rt rt' r :
  runtime_ok rt -> nr_apply_config (NodeRuntime := raw) config rt = (rt', r) -> runtime_ok rt'.
Proof. apply joined_ok. intros rt1 rt1' r1. apply apply_ok. Qed.

Lemma nr_reload_ok config rt rt' r :
  runtime_ok rt -> nr_reload_config (NodeRuntime := raw) config rt = (rt', r) -> runtime_ok rt'.
Proof.
  intros Hok. cbn. unfold mbind, stm_bind. destruct (joined _ _ rt) as [rt1 r1] eqn:Ex.
  apply joined_ok in Ex; [|intros rt2 rt2' r2; apply apply_ok|done]. destruct r1; by intros [= <- <-].
Qed.

Lemma nr_close_ok rt rt' r : runtime_ok rt -> nr_close (NodeRuntime := raw) rt = (rt', r) -> runtime_ok rt'.
Proof. apply joined_ok. intros rt1 rt1' r1. apply close_ok. Qed.

Lemma close_user_ok node_id user_id rt : runtime_ok rt -> runtime_ok (close_user_connections_owned node_id user_id rt).1.
Proof. apply (quick_ok (QCloseUser node_id user_id)). Qed.

#[export] Instance well_formed_runtime : NodeRuntime node RuntimeConfig := {|
  nr_traffic_analysis_disabled n := nr_traffic_analysis_disabled (NodeRuntime := raw) (`n);
  nr_apply_config config := restrict (nr_apply_config (NodeRuntime := raw) config) (nr_apply_ok config);
  nr_reload_config config := restrict (nr_reload_config (NodeRuntime := raw) config) (nr_reload_ok config);
  nr_current_config n := nr_current_config (NodeRuntime := raw) (`n);
  nr_begin_close n := exist _ (nr_begin_close (NodeRuntime := raw) (`n)) (quick_ok QBeginClose _ (proj2_sig n));
  nr_close := restrict (nr_close (NodeRuntime := raw)) nr_close_ok;
  nr_health n := nr_health (NodeRuntime := raw) (`n);
  nr_close_user_connections node_id user_id n :=
    (exist _ (close_user_connections_owned node_id user_id (`n)).1 (close_user_ok node_id user_id _ (proj2_sig n)),
     (close_user_connections_owned node_id user_id (`n)).2)
|}.

(** [n] serves [config]: its normal form, with some rule sets, is current. *)
Definition serves_config n (config : RuntimeConfig) : Prop := exists prepared desired,
  desired_config (Y := Y) (Ld := Ld) (disabled (`n)) prepared config = Ok desired /\
  current (state (`n)) = Some desired.

Lemma serves_transfer n n' c :
  disabled (`n') = disabled (`n) -> (forall d, current (state (`n)) = Some d -> current (state (`n')) = Some d) ->
  serves_config n c -> serves_config n' c.
Proof. intros Hp H (prep & d & Hd & Hc). exists prep, d. rewrite Hp. split; [done|auto]. Qed.

(** The adapter's contract, for applies and reloads alike. *)
Lemma joined_outcome operation config force n n' r :
  joined operation (apply_external_owned (Y := Y) config force) (`n) = (`n', r) ->
  disabled (`n') = disabled (`n) /\
  match r with
  | Ok _ => serves_config n' config
  | Err e => claims e = true -> forall c, serves_config n c -> serves_config n' c
  end.
Proof.
  unfold joined. destruct (apply_external_owned config force (`n)) as [rt1 r1] eqn:Ex.
  pose proof (external_runs config force _ (proj2_sig n) _ _ _ eq_refl Ex) as H.
  destruct r1 as [[]|[e|msg]]; [| |done]; destruct H as (_ & Hp & H); intros [= E1 <-]; rewrite E1 in *; (split; [done|]).
  - destruct H as (_ & prep & d & Hd & Hc). exists prep, d. by rewrite Hp.
  - intros Hcl c. apply serves_transfer; auto.
Qed.

Lemma node_apply_outcome config n n' r :
  nr_apply_config config n = (n', r) ->
  disabled (`n') = disabled (`n) /\
  match r with
  | Ok _ => serves_config n' config
  | Err e => claims e = true -> forall c, serves_config n c -> serves_config n' c
  end.
Proof. intros Ex%restrict_eq. cbn in Ex. by apply joined_outcome in Ex. Qed.

Lemma node_reload_outcome config n n' r :
  nr_reload_config config n = (n', r) ->
  disabled (`n') = disabled (`n) /\
  match r with
  | Ok _ => serves_config n' config
  | Err e => claims e = true -> forall c, serves_config n c -> serves_config n' c
  end.
Proof.
  intros Ex%restrict_eq. cbn in Ex. unfold mbind, stm_bind in Ex.
  destruct (joined _ _ (`n)) as [rt1 [[]|e]] eqn:H1; injection Ex as -> <-; by apply joined_outcome in H1.
Qed.

#[export] Instance well_formed_laws : NodeRuntimeLaws node RuntimeConfig.
Proof.
  refine {| nr_serves := serves_config |}.
  - intros c n n' res [_ H]%node_apply_outcome. exact H.
  - intros c n n' res [_ H]%node_reload_outcome. by destruct res.
  - intros c n. destruct (nr_apply_config c n) as [n' r] eqn:Ex. by apply node_apply_outcome in Ex as [H _].
  - intros c n. destruct (nr_reload_config c n) as [n' r] eqn:Ex. by apply node_reload_outcome in Ex as [H _].
  - intros node_id user_id n c. pose proof (untouched_close_user node_id user_id (`n)) as [Hs _ Hp _].
    apply serves_transfer; [done|]. cbn. by rewrite Hs.
  - intros node_id user_id n. apply (untouched_close_user node_id user_id (`n)).
Defined.

(** ** From the manager down to the engine *)

Context {P : Type} `{!PortRouter P} `{!PortRouterLaws P}.
Context {CompileError JsonError : Type} `{!Display CompileError} `{!Display (@PlanError JsonError)}.
Context (from_slice : string -> result JsonError Hysteria2SalamanderConfig.t).
Context (compile_with_route :
  MachineTopology.t -> option Route.t -> result CompileError (CompileOutput.t RuntimeConfig)).
#[local] Instance topology_runtime : TopologyRuntime (adapter node P RuntimeConfig) RuntimeConfig :=
  adapter_runtime from_slice compile_with_route.

(** The engine below an adapter. *)
Definition engine_of (a : adapter node P RuntimeConfig) : E := engine (proj1_sig (node_runtime a)).

(** C12. What the manager publishes is what the engine runs: an accepted topology is
    compiled, normalised and served listener by listener and user by user; a refused
    one leaves the engine serving what the recorded topology asks for, unless the
    error says that the rollback is incomplete. *)
Theorem published_is_served machine_id t (s : manager (adapter node P RuntimeConfig)) s' res :
  healthy from_slice compile_with_route (Manager.runtime s) ->
  Manager.apply machine_id t s = (s', res) -> match res with Ok _ => True | Err e => clean e = true end ->
  MachineTopology.machine_id (active_topology (Manager.runtime s')) <> "" ->
  exists output prepared desired,
    compile_with_local_overrides compile_with_route (active_topology (Manager.runtime s')) (policy (Manager.runtime s')) = Ok output /\
    desired_config (Y := Y) (Ld := Ld) (policy (Manager.runtime s')) prepared (CompileOutput.runtime output) = Ok desired /\
    live (engine_of (Manager.runtime s')) = image_config desired.
Proof.
  intros Hh Ex Hres Hid. pose proof (publication_outcome from_slice compile_with_route machine_id t s s' res Hh Ex) as H.
  assert (healthy from_slice compile_with_route (Manager.runtime s')) as (_ & _ & Hserve).
  { destruct res as [m|e]; [apply H|]. by apply H. }
  destruct (Hserve Hid) as (out & Hc & prep & d & Hd & Hcur).
  exists out, prep, d. split; [done|]. split; [done|]. by apply (rk_current _ (proj2_sig (node_runtime (Manager.runtime s')))).
Qed.
End node.

Module NodeExample.
Import RuntimeExample.

#[local] Existing Instances AdapterExample.router AdapterExample.router_laws AdapterExample.show_unit AdapterExample.show_plan.

Abbreviation node_t := (node (E := engine_t) (L := unit) (V := string) (Ld := unit)).
Abbreviation adapter_t := (adapter node_t (manager_state Plan) (RuntimeConfig string unit)).

(** Every topology asks for the first configuration. *)
Definition compile (t : MachineTopology.t) (r : option Route.t)
    : result unit (CompileOutput.t (RuntimeConfig string unit)) := Ok (CompileOutput.mk first []).

Definition n0 : node_t := exist _ rt0 (from_engine_ok (∅ : engine_t) tt [] eq_refl).
Definition a0 : adapter_t := adapter_new n0 (PortHopping.mkManager Plan plan_default false).
#[local] Instance node_runtime_t : NodeRuntime node_t (RuntimeConfig string unit) := well_formed_runtime (Y := unit) (Prep := unit).
#[local] Instance node_laws_t : NodeRuntimeLaws node_t (RuntimeConfig string unit) := well_formed_laws (Y := unit) (Prep := unit).
#[local] Instance runtime_t : TopologyRuntime adapter_t (RuntimeConfig string unit) :=
  adapter_runtime AdapterExample.from_slice compile.
Definition mgr : Manager.manager adapter_t := Manager.set_runtime a0 (manager_new (R := adapter_t) a0).

Lemma healthy_start : healthy AdapterExample.from_slice compile a0.
Proof. split; [reflexivity|]. split; [reflexivity|]. intros H. by destruct H. Qed.

Definition out := Manager.apply (TopologyRuntime0 := runtime_t) "m" (AdapterExample.topology_of "first") mgr.

Lemma published_is_served_witness : exists output prepared desired,
  compile_with_local_overrides compile (active_topology (Manager.runtime out.1)) (policy (Manager.runtime out.1)) = Ok output /\
  desired_config (Y := unit) (Ld := unit) (Prep := unit) (policy (Manager.runtime out.1)) prepared (CompileOutput.runtime output) = Ok desired /\
  live (engine_of (Manager.runtime out.1)) = image_config desired.
Proof.
  assert (match out.2 with Ok _ => True | Err e => clean e = true end) as Hr by (vm_compute; exact I).
  assert (MachineTopology.machine_id (active_topology (Manager.runtime out.1)) <> "") as Hid by (vm_compute; discriminate).
  exact (published_is_served AdapterExample.from_slice compile "m" (AdapterExample.topology_of "first") mgr out.1 out.2
    healthy_start (surjective_pairing out) Hr Hid).
Defined.
End NodeExample.
