(* ===== verification/AnalysisConfig.v ===== *)
(** * Traffic analysis limits: [crates/acp-proto/src/analysis.rs]

    Omitted (zero) fields take defaults, explicit values are clamped.

    Theorem: every limit of a normalised configuration is within its bounds, and
    normalising again changes nothing. *)

From Stdlib Require Import ZArith Lia.
From S2P Require Import Prelude Wire.

Open Scope Z_scope.

Local Abbreviation Config := Pb.TrafficAnalysisConfig.t.

Definition default_config (enabled : bool) : Config :=
  Pb.TrafficAnalysisConfig.mk enabled 5 1024 (256 * 1024) (16 * 1024 * 1024) 20 (256 * 1024) (512 * 1024)
    1000 20000 40000 64 (64 * 1024 * 1024).

(** [Ord::clamp] *)
Definition clamp (value low high : Z) : Z :=
  if value <? low then low else if high <? value then high else value.

Definition bound (value fallback low high : Z) : Z :=
  if value =? 0 then fallback else clamp value low high.

Definition normalize_config (config : option Config) : Config :=
  match config with
  | None => default_config false
  | Some c =>
      let out := default_config (Pb.TrafficAnalysisConfig.enabled c) in
      let batch_max_bytes :=
        bound (Pb.TrafficAnalysisConfig.batch_max_bytes c) (Pb.TrafficAnalysisConfig.batch_max_bytes out)
          1024 (256 * 1024) in
      Pb.TrafficAnalysisConfig.mk
        (Pb.TrafficAnalysisConfig.enabled out)
        (bound (Pb.TrafficAnalysisConfig.sample_interval_seconds c)
           (Pb.TrafficAnalysisConfig.sample_interval_seconds out) 1 10)
        (bound (Pb.TrafficAnalysisConfig.batch_max_entries c)
           (Pb.TrafficAnalysisConfig.batch_max_entries out) 1 1024)
        batch_max_bytes
        (bound (Pb.TrafficAnalysisConfig.queue_max_bytes c)
           (Pb.TrafficAnalysisConfig.queue_max_bytes out) (256 * 1024) (16 * 1024 * 1024))
        (bound (Pb.TrafficAnalysisConfig.queue_max_age_seconds c)
           (Pb.TrafficAnalysisConfig.queue_max_age_seconds out) 1 20)
        (bound (Pb.TrafficAnalysisConfig.send_bytes_per_second c)
           (Pb.TrafficAnalysisConfig.send_bytes_per_second out) 1024 (16 * 1024 * 1024))
        (bound (Pb.TrafficAnalysisConfig.send_burst_bytes c)
           (Pb.TrafficAnalysisConfig.send_burst_bytes out) batch_max_bytes (16 * 1024 * 1024))
        (bound (Pb.TrafficAnalysisConfig.send_timeout_millis c)
           (Pb.TrafficAnalysisConfig.send_timeout_millis out) 100 5000)
        (bound (Pb.TrafficAnalysisConfig.minute_max_domain_keys c)
           (Pb.TrafficAnalysisConfig.minute_max_domain_keys out) 1 20000)
        (bound (Pb.TrafficAnalysisConfig.max_udp_targets c)
           (Pb.TrafficAnalysisConfig.max_udp_targets out) 1 40000)
        (bound (Pb.TrafficAnalysisConfig.max_udp_targets_per_session c)
           (Pb.TrafficAnalysisConfig.max_udp_targets_per_session out) 1 64)
        (bound (Pb.TrafficAnalysisConfig.memory_max_bytes c)
           (Pb.TrafficAnalysisConfig.memory_max_bytes out) (1024 * 1024) (64 * 1024 * 1024))
  end.

(** ** Bounds *)

Record bounded (c : Config) : Prop := {
  b_entries : 1 <= Pb.TrafficAnalysisConfig.batch_max_entries c <= 1024;
  b_batch : 1024 <= Pb.TrafficAnalysisConfig.batch_max_bytes c <= 256 * 1024;
  b_queue : 256 * 1024 <= Pb.TrafficAnalysisConfig.queue_max_bytes c <= 16 * 1024 * 1024;
  b_age : 1 <= Pb.TrafficAnalysisConfig.queue_max_age_seconds c <= 20;
  b_interval : 1 <= Pb.TrafficAnalysisConfig.sample_interval_seconds c <= 10;
  b_rate : 1024 <= Pb.TrafficAnalysisConfig.send_bytes_per_second c <= 16 * 1024 * 1024;
  b_burst : Pb.TrafficAnalysisConfig.batch_max_bytes c <= Pb.TrafficAnalysisConfig.send_burst_bytes c <= 16 * 1024 * 1024;
  b_timeout : 100 <= Pb.TrafficAnalysisConfig.send_timeout_millis c <= 5000;
  b_domains : 1 <= Pb.TrafficAnalysisConfig.minute_max_domain_keys c <= 20000;
  b_targets : 1 <= Pb.TrafficAnalysisConfig.max_udp_targets c <= 40000;
  b_session : 1 <= Pb.TrafficAnalysisConfig.max_udp_targets_per_session c <= 64;
  b_memory : 1024 * 1024 <= Pb.TrafficAnalysisConfig.memory_max_bytes c <= 64 * 1024 * 1024
}.

Lemma bound_range value fallback low high :
  low <= high -> low <= fallback <= high -> low <= bound value fallback low high <= high.
Proof.
  intros. unfold bound, clamp. destruct (value =? 0); [lia|].
  destruct (Z.ltb_spec value low); [lia|]. destruct (Z.ltb_spec high value); lia.
Qed.

Lemma bound_id value fallback low high : low <= value <= high -> 0 < low -> bound value fallback low high = value.
Proof.
  intros. unfold bound, clamp. destruct (Z.eqb_spec value 0); [lia|].
  destruct (Z.ltb_spec value low); [lia|]. destruct (Z.ltb_spec high value); lia.
Qed.

Lemma default_bounded enabled : bounded (default_config enabled).
Proof. by constructor; cbn. Qed.

Lemma normalize_bounded c : bounded (normalize_config c).
Proof.
  destruct c as [c|]; [|apply default_bounded]. cbn -[bound].
  pose proof (bound_range (Pb.TrafficAnalysisConfig.batch_max_bytes c) (256 * 1024) 1024 (256 * 1024)).
  constructor; cbn -[bound Z.mul]; (apply bound_range || idtac); lia.
Qed.

(** Every limit of a normalised configuration is within its bounds, whatever the panel
    sent or left out; a burst always covers a whole batch; normalising again changes
    nothing. *)
Theorem normalize_config_bounded c :
  bounded (normalize_config c) /\ normalize_config (Some (normalize_config c)) = normalize_config c.
Proof.
  pose proof (normalize_bounded c) as H. split; [done|]. destruct H, (normalize_config c); cbn in *.
  unfold normalize_config. cbn -[bound Z.mul]. rewrite !bound_id by lia. done.
Qed.
