(* ===== verification/AnalysisData.v ===== *)
(** * Traffic analysis: data, [crates/node-agent/src/analysis/collector.rs]

    Targets, the metadata of a flow, its counters, the rows of one minute and the
    batches they are sent in, with the helper functions over them.  The prost
    encoder of the messages is not part of the repository: its lengths are
    arguments of the functions that use them.

    The collector itself is in [Collector.v], the tasks that share it in
    [Analysis.v]. *)

From Stdlib Require Import ZArith Lia Ascii.
From S2P Require Import Prelude Bytes IpAddr.

Open Scope Z_scope.

Definition FLOW_COST : Z := 1024.
Definition TARGET_COST : Z := 1024.
Definition USER_COST : Z := 1536.
Definition DOMAIN_COST : Z := 4096.
Definition UNKNOWN : string := "unknown".
Definition PENDING_PACKETS : Z := 8.
Definition PENDING_BYTES : Z := 64 * 1024.
(** An [Instant] and a [Duration] are counts of nanoseconds. *)
Definition PENDING_AGE : Z := 300 * 1000000.
Definition MAX_PENDING_TARGETS : Z := 1024.
Definition REASONS : list string :=
  ["queue_full"; "expired"; "session_reset"; "send_failed"; "budget"; "target_limit"; "domain_limit"; "invalid_metadata"].

(** ** Strings *)

Definition str_len (s : string) : Z := Z.of_nat (String.length s).

Fixpoint drop_while (p : ascii -> bool) (l : list ascii) : list ascii :=
  match l with [] => [] | c :: l' => if p c then drop_while p l' else l end.

(** [str::trim_ascii] *)
Definition trim_ascii (s : string) : string :=
  of_chars (rev (drop_while is_ascii_whitespace (rev (drop_while is_ascii_whitespace (chars s))))).

Definition to_ascii_lowercase (c : ascii) : ascii :=
  if (65 <=? code c) && (code c <=? 90) then chr (code c + 32) else c.

(** [str::eq_ignore_ascii_case] *)
Definition eq_ignore_ascii_case (a b : string) : bool :=
  bool_decide (to_ascii_lowercase <$> chars a = to_ascii_lowercase <$> chars b).

(** ** Targets and metadata *)

Module Target.
Record t : Type := mk { host : string; port : Z }.
#[global] Instance eq_dec : EqDecision t.
Proof. solve_decision. Defined.
#[global] Instance countable : Countable t.
Proof. refine (inj_countable' (fun t => (host t, port t)) (fun '(h, p) => mk h p) _). by intros []. Defined.
End Target.

Definition valid_observation_string (value : string) : bool :=
  (str_len value <=? 253) && negb (existsb (fun c => code c =? 0) (chars value)).

Definition valid_target (target : Target.t) : bool :=
  negb (is_empty (Target.host target)) && negb (Target.port target =? 0)
  && valid_observation_string (Target.host target).

(** [strip_prefix('[')] and then [strip_suffix(']')] *)
Definition strip_brackets (host : string) : option string :=
  rest ← strip_prefix ["["%char] (chars host);
  inner ← strip_prefix ["]"%char] (rev rest);
  Some (of_chars (rev inner)).

Definition has_destination_domain (target : Target.t) : bool :=
  let host := default (Target.host target) (strip_brackets (Target.host target)) in
  negb (is_empty (Target.host target)) && negb (is_ip_addr host).

Module Metadata.
Record t : Type := mk {
  node_id : string;
  user_id : string;
  proxy_protocol : string;
  network : string;
  domain : string;
  app_protocol : string;
  ech_present : bool;
  destination : option Target.t;
  sniff_destination : option Target.t
}.
Definition set_app_protocol (p : string) (m : t) : t :=
  mk (node_id m) (user_id m) (proxy_protocol m) (network m) (domain m) p (ech_present m) (destination m)
    (sniff_destination m).
End Metadata.

Definition is_udp (meta : Metadata.t) : bool := bool_decide (Metadata.network meta = "udp").

Definition web_protocol (protocol : string) : option string :=
  find_first (fun web => eq_ignore_ascii_case (trim_ascii protocol) web) ["http"; "tls"; "quic"].

(** The target the flow was sniffed at before it was registered. *)
Definition initial_web (meta : Metadata.t) (target : Target.t) : bool :=
  bool_decide (Metadata.sniff_destination meta = Some target)
  && match web_protocol (Metadata.app_protocol meta) with Some _ => true | None => false end.

Module UserKey.
Record t : Type := mk { node : string; user : string; proxy : string; network : string }.
#[global] Instance eq_dec : EqDecision t.
Proof. solve_decision. Defined.
#[global] Instance countable : Countable t.
Proof.
  refine (inj_countable' (fun k => (node k, user k, proxy k, network k)) (fun '(n, u, p, w) => mk n u p w) _).
  by intros [].
Defined.
Definition from (meta : Metadata.t) : t :=
  mk (Metadata.node_id meta) (Metadata.user_id meta) (Metadata.proxy_protocol meta) (Metadata.network meta).
End UserKey.

(** ** Counters of a flow *)

Module Counters.
Record t : Type := mk { up : Z; down : Z }.
Definition zero : t := mk 0 0.
Definition add (u d : Z) (c : t) : t := mk (wrapping_add64 (up c) u) (wrapping_add64 (down c) d).
End Counters.

Module Classification.
Record t : Type := mk { domain : string; app : string; ech_present : bool }.
End Classification.

Module TargetState.
Record t : Type := mk {
  counters : Counters.t;
  started : bool;
  observed : bool;
  classification : option Classification.t
}.
Definition fresh (classification : option Classification.t) : t := mk Counters.zero false false classification.
(** What sampling leaves. *)
Definition drain (s : t) : t := mk Counters.zero false (observed s) (classification s).
End TargetState.

Module PendingCounters.
Record t : Type := mk { up : Z; down : Z; packets : Z; since : Z }.
Definition fresh (now : Z) : t := mk 0 0 0 now.

(** [since.elapsed() <= PENDING_AGE]; [Instant::elapsed] saturates at zero. *)
Definition recent (now : Z) (p : t) : bool := Z.max 0 (now - since p) <=? PENDING_AGE.

Definition record (now u d : Z) (p : t) : t :=
  if negb (recent now p) || (PENDING_PACKETS <=? packets p) then p
  else
    let remaining := Z.max 0 (PENDING_BYTES - (up p + down p)) in
    let accepted_up := Z.min u remaining in
    mk (up p + accepted_up) (down p + Z.min d (remaining - accepted_up)) (packets p + 1) (since p).
End PendingCounters.

Module PacketState.
Record t : Type := mk {
  retired : bool;
  targets : gmap Target.t TargetState.t;
  pending : gmap Target.t PendingCounters.t;
  unknown : Counters.t;
  unknown_identified : Counters.t
}.
Definition empty : t := mk false ∅ ∅ Counters.zero Counters.zero.
Definition set_targets (m : gmap Target.t TargetState.t) (p : t) : t :=
  mk (retired p) m (pending p) (unknown p) (unknown_identified p).
Definition set_pending (m : gmap Target.t PendingCounters.t) (p : t) : t :=
  mk (retired p) (targets p) m (unknown p) (unknown_identified p).
Definition set_unknown (u i : Counters.t) (p : t) : t :=
  mk (retired p) (targets p) (pending p) u i.
(** What [Collector::retire] leaves. *)
Definition retire (p : t) : t := mk true ∅ ∅ (unknown p) (unknown_identified p).
End PacketState.

(** [owner] is a ghost: the user the counters belong to. *)
Module FlowState.
Record t : Type := mk {
  epoch : Z;
  counters : Counters.t;
  started : bool;
  packets : PacketState.t;
  owner : UserKey.t
}.
Definition new (epoch : Z) (started : bool) (owner : UserKey.t) : t :=
  mk epoch Counters.zero started PacketState.empty owner.
Definition set_counters (c : Counters.t) (s : t) : t := mk (epoch s) c (started s) (packets s) (owner s).
Definition set_started (b : bool) (s : t) : t := mk (epoch s) (counters s) b (packets s) (owner s).
Definition set_packets (p : PacketState.t) (s : t) : t := mk (epoch s) (counters s) (started s) p (owner s).
End FlowState.

(** ** Rows, batches and the minute being filled *)

Module UserMinute.
Record t : Type := mk {
  user_id : string;
  minute_at_unix : Z;
  proxy_protocol : string;
  network : string;
  uplink_bytes : Z;
  downlink_bytes : Z;
  identified_uplink_bytes : Z;
  identified_downlink_bytes : Z;
  started_sessions : Z;
  node_id : string
}.
Definition add (up down started : Z) (r : t) : t :=
  mk (user_id r) (minute_at_unix r) (proxy_protocol r) (network r)
    (wrapping_add64 (uplink_bytes r) up) (wrapping_add64 (downlink_bytes r) down)
    (identified_uplink_bytes r) (identified_downlink_bytes r)
    (wrapping_add64 (started_sessions r) started) (node_id r).
Definition add_identified (up down : Z) (r : t) : t :=
  mk (user_id r) (minute_at_unix r) (proxy_protocol r) (network r) (uplink_bytes r) (downlink_bytes r)
    (wrapping_add64 (identified_uplink_bytes r) up) (wrapping_add64 (identified_downlink_bytes r) down)
    (started_sessions r) (node_id r).
(** The empty row of a user. *)
Definition empty (minute : Z) (k : UserKey.t) : t :=
  mk (UserKey.user k) minute (UserKey.proxy k) (UserKey.network k) 0 0 0 0 0 (UserKey.node k).
(** The user a row is about. *)
Definition key (r : t) : UserKey.t := UserKey.mk (node_id r) (user_id r) (proxy_protocol r) (network r).
End UserMinute.

Module DomainMinute.
Record t : Type := mk {
  user_id : string;
  minute_at_unix : Z;
  proxy_protocol : string;
  network : string;
  domain : string;
  app_protocol : string;
  uplink_bytes : Z;
  downlink_bytes : Z;
  target_sessions : Z;
  node_id : string;
  ech_present : bool;
  destination_domain : string
}.
Definition add (up down started : Z) (r : t) : t :=
  mk (user_id r) (minute_at_unix r) (proxy_protocol r) (network r) (domain r) (app_protocol r)
    (wrapping_add64 (uplink_bytes r) up) (wrapping_add64 (downlink_bytes r) down)
    (wrapping_add64 (target_sessions r) started) (node_id r) (ech_present r) (destination_domain r).
(** The user a row is about. *)
Definition user (r : t) : UserKey.t := UserKey.mk (node_id r) (user_id r) (proxy_protocol r) (network r).
End DomainMinute.

Module Batch.
Record t : Type := mk {
  agent_instance_id : string;
  epoch : Z;
  sequence : Z;
  generated_at_unix : Z;
  user_minutes : list UserMinute.t;
  domain_minutes : list DomainMinute.t
}.
Definition push_user (row : UserMinute.t) (b : t) : t :=
  mk (agent_instance_id b) (epoch b) (sequence b) (generated_at_unix b) (user_minutes b ++ [row]) (domain_minutes b).
Definition push_domain (row : DomainMinute.t) (b : t) : t :=
  mk (agent_instance_id b) (epoch b) (sequence b) (generated_at_unix b) (user_minutes b) (domain_minutes b ++ [row]).
End Batch.

Definition entries (batch : Batch.t) : Z :=
  Z.of_nat (length (Batch.user_minutes batch)) + Z.of_nat (length (Batch.domain_minutes batch)).

Module DomainKey.
Record t : Type := mk {
  user : UserKey.t;
  domain : string;
  destination : string;
  app : string;
  ech_present : bool
}.
#[global] Instance eq_dec : EqDecision t.
Proof. solve_decision. Defined.
#[global] Instance countable : Countable t.
Proof.
  refine (inj_countable' (fun k => (user k, domain k, destination k, app k, ech_present k))
    (fun '(u, d, t, a, e) => mk u d t a e) _).
  by intros [].
Defined.
Definition unknown (user : UserKey.t) : t := mk user "" "" UNKNOWN false.
Definition has_domain (k : t) : bool := negb (is_empty (domain k)) || negb (is_empty (destination k)).
Definition row (minute : Z) (k : t) : DomainMinute.t :=
  DomainMinute.mk (UserKey.user (user k)) minute (UserKey.proxy (user k)) (UserKey.network (user k))
    (domain k) (app k) 0 0 0 (UserKey.node (user k)) (ech_present k) (destination k).
End DomainKey.

(** The key a flow's traffic to [target] is filed under. *)
Definition identity (meta : Metadata.t) (target : option Target.t) (packet : bool) : DomainKey.t :=
  let sniffed := negb packet
    || (match target with Some t => valid_target t | None => false end
        && bool_decide (target = Metadata.sniff_destination meta)) in
  let destination :=
    match target with Some t => if has_destination_domain t then Target.host t else "" | None => "" end in
  if sniffed
  then DomainKey.mk (UserKey.from meta) (Metadata.domain meta) destination
         (if is_empty (Metadata.app_protocol meta) then UNKNOWN else Metadata.app_protocol meta)
         (Metadata.ech_present meta)
  else DomainKey.mk (UserKey.from meta) "" destination UNKNOWN false.

(** The stack of evictable rows has its last pushed key first. *)
Module MinuteBucket.
Record t : Type := mk {
  minute : Z;
  users : gmap UserKey.t UserMinute.t;
  domains : gmap DomainKey.t DomainMinute.t;
  known : list DomainKey.t;
  cost : Z
}.
Definition new (minute : Z) : t := mk minute ∅ ∅ [] 0.
Definition set_users (m : gmap UserKey.t UserMinute.t) (b : t) : t := mk (minute b) m (domains b) (known b) (cost b).
Definition set_domains (m : gmap DomainKey.t DomainMinute.t) (b : t) : t := mk (minute b) (users b) m (known b) (cost b).
Definition set_known (l : list DomainKey.t) (b : t) : t := mk (minute b) (users b) (domains b) l (cost b).
Definition set_cost (z : Z) (b : t) : t := mk (minute b) (users b) (domains b) (known b) z.
Definition entries (b : t) : Z := Z.of_nat (size (users b)) + Z.of_nat (size (domains b)).
End MinuteBucket.

Module QueuedBatch.
Record t : Type := mk {
  message : Batch.t;
  ready_at : Z;
  expires_at : Z;
  cost : Z;
  completed : bool
}.
Definition complete (b : t) : t := mk (message b) (ready_at b) (expires_at b) (cost b) true.
End QueuedBatch.
