(* ===== verification/Collector.v ===== *)
(** * Traffic analysis: the collector, [crates/node-agent/src/analysis/collector.rs]

    The budget, the drop counters, the minute being filled and the queue of
    batches.  Every operation here is one update of the counters, or runs
    under the [inner] lock; the tasks that interleave are in [Analysis.v].  Where the
    code updates two counters one after the other, here both change in one step.

    The order a [HashMap] is iterated in is not fixed by the code: [hash_users],
    [hash_domains] and [hash_targets] stand for it.  Lengths of encoded messages
    are those of prost.

    Theorems: [AnalysisSpec.v]. *)

From Stdlib Require Import ZArith Lia.
From S2P Require Import Prelude Bytes Wire AnalysisConfig AnalysisData.

Open Scope Z_scope.

Local Abbreviation Config := Pb.TrafficAnalysisConfig.t.
Local Abbreviation batch_max_entries := Pb.TrafficAnalysisConfig.batch_max_entries.
Local Abbreviation batch_max_bytes := Pb.TrafficAnalysisConfig.batch_max_bytes.
Local Abbreviation queue_max_bytes := Pb.TrafficAnalysisConfig.queue_max_bytes.
Local Abbreviation queue_max_age_seconds := Pb.TrafficAnalysisConfig.queue_max_age_seconds.
Local Abbreviation minute_max_domain_keys := Pb.TrafficAnalysisConfig.minute_max_domain_keys.
Local Abbreviation max_udp_targets := Pb.TrafficAnalysisConfig.max_udp_targets.
Local Abbreviation memory_max_bytes := Pb.TrafficAnalysisConfig.memory_max_bytes.

(** Iteration orders, encoded lengths and readings. *)
Class AnalysisEnv : Type := {
  hash_users : gmap UserKey.t UserMinute.t -> list (UserKey.t * UserMinute.t);
  hash_users_perm m : hash_users m ≡ₚ map_to_list m;
  hash_domains : gmap DomainKey.t DomainMinute.t -> list (DomainKey.t * DomainMinute.t);
  hash_domains_perm m : hash_domains m ≡ₚ map_to_list m;
  hash_targets : gmap Target.t TargetState.t -> list (Target.t * TargetState.t);
  hash_targets_perm m : hash_targets m ≡ₚ map_to_list m;
  user_row_len : UserMinute.t -> Z;
  domain_row_len : DomainMinute.t -> Z;
  encoded_len : Batch.t -> Z;
  encoded_len_nonneg m : 0 <= encoded_len m;
  (** The clocks and the random number [enqueue] reads for the batch of this number. *)
  instant_now : Z -> Z;
  unix_now : Z -> Z;
  random : Z -> Z
}.

(** ** State *)

Module Budget.
Record t : Type := mk { memory : Z; targets : Z; pending_targets : Z; pending_memory : Z }.
Definition zero : t := mk 0 0 0 0.
Definition set_memory (z : Z) (b : t) : t := mk z (targets b) (pending_targets b) (pending_memory b).
Definition set_targets (z : Z) (b : t) : t := mk (memory b) z (pending_targets b) (pending_memory b).
Definition set_pending_targets (z : Z) (b : t) : t := mk (memory b) (targets b) z (pending_memory b).
Definition set_pending_memory (z : Z) (b : t) : t := mk (memory b) (targets b) (pending_targets b) z.
End Budget.

Module Stats.
Record t : Type := mk {
  limited_events : Z;
  dropped_batches : Z;
  dropped_entries : Z;
  sent : Z;
  send_failures : Z;
  last_sample : Z;
  last_send : Z;
  drops : list Z
}.
Definition zero : t := mk 0 0 0 0 0 0 0 (replicate 8 0).
Definition add_limited (s : t) : t :=
  mk (wrapping_add64 (limited_events s) 1) (dropped_batches s) (dropped_entries s) (sent s) (send_failures s)
    (last_sample s) (last_send s) (drops s).
Definition add_dropped (batches entries : Z) (s : t) : t :=
  mk (limited_events s) (wrapping_add64 (dropped_batches s) batches) (wrapping_add64 (dropped_entries s) entries)
    (sent s) (send_failures s) (last_sample s) (last_send s) (drops s).
Definition add_failure (s : t) : t :=
  mk (limited_events s) (dropped_batches s) (dropped_entries s) (sent s) (wrapping_add64 (send_failures s) 1)
    (last_sample s) (last_send s) (drops s).
Definition add_sent (now : Z) (s : t) : t :=
  mk (limited_events s) (dropped_batches s) (dropped_entries s) (wrapping_add64 (sent s) 1) (send_failures s)
    (last_sample s) now (drops s).
Definition set_last_sample (now : Z) (s : t) : t :=
  mk (limited_events s) (dropped_batches s) (dropped_entries s) (sent s) (send_failures s) now (last_send s) (drops s).
(** [Collector::reason] *)
Definition reason (r : string) (s : t) : t :=
  match position (fun x => bool_decide (x = r)) REASONS with
  | Some i =>
      mk (limited_events s) (dropped_batches s) (dropped_entries s) (sent s) (send_failures s) (last_sample s)
        (last_send s) (alter (fun z => wrapping_add64 z 1) i (drops s))
  | None => s
  end.
(** [Collector::limited] *)
Definition limited (r : string) (s : t) : t := reason r (add_limited s).
End Stats.

(** A flow is its index in the heap of [Analysis.v]. *)
Module Inner.
Record t : Type := mk {
  epoch : Z;
  sequence : Z;
  next_flow : Z;
  session_open : bool;
  configured : bool;
  flows : gmap Z N;
  bucket : option MinuteBucket.t;
  queue : list QueuedBatch.t;
  queue_bytes : Z
}.
Definition zero : t := mk 0 0 0 false false ∅ None [] 0.
Definition set_session (e : Z) (open conf : bool) (i : t) : t :=
  mk e (sequence i) (next_flow i) open conf (flows i) (bucket i) (queue i) (queue_bytes i).
Definition set_sequence (z : Z) (i : t) : t :=
  mk (epoch i) z (next_flow i) (session_open i) (configured i) (flows i) (bucket i) (queue i) (queue_bytes i).
Definition set_flows (next : Z) (m : gmap Z N) (i : t) : t :=
  mk (epoch i) (sequence i) next (session_open i) (configured i) m (bucket i) (queue i) (queue_bytes i).
Definition set_bucket (b : option MinuteBucket.t) (i : t) : t :=
  mk (epoch i) (sequence i) (next_flow i) (session_open i) (configured i) (flows i) b (queue i) (queue_bytes i).
Definition set_queue (q : list QueuedBatch.t) (bytes : Z) (i : t) : t :=
  mk (epoch i) (sequence i) (next_flow i) (session_open i) (configured i) (flows i) (bucket i) q bytes.
End Inner.

(** [log] is a ghost: every batch that was ever queued. *)
Record Collector : Type := mkCollector {
  instance : string;
  inner : Inner.t;
  registrations : list N;
  active : Z;
  limits : Config;
  budget : Budget.t;
  stats : Stats.t;
  log : list Batch.t
}.

Definition set_inner (f : Inner.t -> Inner.t) (c : Collector) : Collector :=
  mkCollector (instance c) (f (inner c)) (registrations c) (active c) (limits c) (budget c) (stats c) (log c).
Definition set_registrations (l : list N) (c : Collector) : Collector :=
  mkCollector (instance c) (inner c) l (active c) (limits c) (budget c) (stats c) (log c).
Definition set_active (z : Z) (c : Collector) : Collector :=
  mkCollector (instance c) (inner c) (registrations c) z (limits c) (budget c) (stats c) (log c).
Definition set_limits (l : Config) (c : Collector) : Collector :=
  mkCollector (instance c) (inner c) (registrations c) (active c) l (budget c) (stats c) (log c).
Definition set_budget (f : Budget.t -> Budget.t) (c : Collector) : Collector :=
  mkCollector (instance c) (inner c) (registrations c) (active c) (limits c) (f (budget c)) (stats c) (log c).
Definition set_stats (f : Stats.t -> Stats.t) (c : Collector) : Collector :=
  mkCollector (instance c) (inner c) (registrations c) (active c) (limits c) (budget c) (f (stats c)) (log c).
Definition note_queued (m : Batch.t) (c : Collector) : Collector :=
  mkCollector (instance c) (inner c) (registrations c) (active c) (limits c) (budget c) (stats c) (log c ++ [m]).

(** [instance.chars().take(128)] for an instance id of ASCII characters. *)
Definition collector_new (instance : string) : Collector :=
  mkCollector (of_chars (take 128 (chars instance))) Inner.zero [] 0 (default_config false) Budget.zero Stats.zero [].

(** ** The budget *)

(** [fetch_update] with [checked_add] and a limit. *)
Definition charge (limit bytes current : Z) : option Z :=
  if (current + bytes <=? u64_max) && (current + bytes <=? limit) then Some (current + bytes) else None.

Definition reserve (bytes : Z) (c : Collector) : Collector * bool :=
  match charge (memory_max_bytes (limits c)) bytes (Budget.memory (budget c)) with
  | Some next => (set_budget (Budget.set_memory next) c, true)
  | None => (c, false)
  end.

Definition release (bytes : Z) (c : Collector) : Collector :=
  set_budget (fun b => Budget.set_memory (wrapping_sub64 (Budget.memory b) bytes) b) c.

(** [pending_memory.fetch_sub(bytes)] *)
Definition uncharge_pending (bytes : Z) (c : Collector) : Collector :=
  set_budget (fun b => Budget.set_pending_memory (wrapping_sub64 (Budget.pending_memory b) bytes) b) c.

Definition pending_limit (c : Collector) : Z := Z.min (memory_max_bytes (limits c) / 4) (16 * 1024 * 1024).

Definition reserve_pending (bytes : Z) (c : Collector) : Collector * bool :=
  match charge (pending_limit c) bytes (Budget.pending_memory (budget c)) with
  | None => (c, false)
  | Some next =>
      let '(c, ok) := reserve bytes (set_budget (Budget.set_pending_memory next) c) in
      if ok then (c, true) else (uncharge_pending bytes c, false)
  end.

Definition release_pending (bytes : Z) (c : Collector) : Collector := release bytes (uncharge_pending bytes c).

Definition reserve_pending_target (config : Config) (c : Collector) : Collector * bool :=
  if Budget.pending_targets (budget c) <? Z.min (max_udp_targets config) MAX_PENDING_TARGETS then
    let c := set_budget (fun b => Budget.set_pending_targets (Budget.pending_targets b + 1) b) c in
    let '(c, ok) := reserve_pending TARGET_COST c in
    if ok then (c, true)
    else
      (set_stats (Stats.limited "budget")
         (set_budget (fun b => Budget.set_pending_targets (wrapping_sub64 (Budget.pending_targets b) 1) b) c), false)
  else (set_stats (Stats.limited "target_limit") c, false).

(** The destructors of [PendingReservation] and [TargetReservation]. *)
Definition drop_pending_target (c : Collector) : Collector :=
  release_pending TARGET_COST
    (set_budget (fun b => Budget.set_pending_targets (wrapping_sub64 (Budget.pending_targets b) 1) b) c).

Definition drop_target (c : Collector) : Collector :=
  release TARGET_COST (set_budget (fun b => Budget.set_targets (wrapping_sub64 (Budget.targets b) 1) b) c).

Definition reserve_target (config : Config) (c : Collector) : Collector * bool :=
  if Budget.targets (budget c) <? max_udp_targets config then
    let c := set_budget (fun b => Budget.set_targets (Budget.targets b + 1) b) c in
    let '(c, ok) := reserve TARGET_COST c in
    if ok then (c, true)
    else
      (set_stats (Stats.limited "budget")
         (set_budget (fun b => Budget.set_targets (wrapping_sub64 (Budget.targets b) 1) b) c), false)
  else (set_stats (Stats.limited "target_limit") c, false).

(** ** The minute being filled *)

Definition new_domain (key : DomainKey.t) (b : MinuteBucket.t) : MinuteBucket.t :=
  MinuteBucket.set_cost (MinuteBucket.cost b + DOMAIN_COST)
    (MinuteBucket.set_domains
       (<[key := DomainKey.row (MinuteBucket.minute b) key]> (MinuteBucket.domains b)) b).

Definition domains_full (c : Collector) (b : MinuteBucket.t) : bool :=
  minute_max_domain_keys (limits c) <=? Z.of_nat (size (MinuteBucket.domains b)).

(** The loop of [ensure_unknown]: take rows off the stack until one is still there,
    and hand its bytes to the unknown row of its user and its place to [key]. *)
Fixpoint evict (key : DomainKey.t) (known : list DomainKey.t) (b : MinuteBucket.t) : MinuteBucket.t * bool :=
  match known with
  | [] => (MinuteBucket.set_known [] b, false)
  | old_key :: known =>
      match MinuteBucket.domains b !! old_key with
      | None => evict key known b
      | Some old =>
          let rest := delete old_key (MinuteBucket.domains b) in
          let merged := alter (DomainMinute.add (DomainMinute.uplink_bytes old) (DomainMinute.downlink_bytes old)
                                 (DomainMinute.target_sessions old))
                          (DomainKey.unknown (DomainKey.user old_key)) rest in
          let b := MinuteBucket.set_known known (MinuteBucket.set_domains merged b) in
          (new_domain key (MinuteBucket.set_cost (MinuteBucket.cost b - DOMAIN_COST) b), true)
      end
  end.

Definition ensure_unknown (user : UserKey.t) (cb : Collector * MinuteBucket.t) : Collector * MinuteBucket.t * bool :=
  let '(c, b) := cb in
  let key := DomainKey.unknown user in
  if bool_decide (is_Some (MinuteBucket.domains b !! key)) then (c, b, true)
  else
    let full := domains_full c b in
    let '(c, ok) := if full then (c, false) else reserve DOMAIN_COST c in
    if ok then (c, new_domain key b, true)
    else
      let c := set_stats (Stats.reason (if full then "domain_limit" else "budget")) c in
      let '(b, evicted) := evict key (MinuteBucket.known b) b in
      (if evicted then set_stats Stats.add_limited c else c, b, evicted).

Definition add_to_row (key : DomainKey.t) (up down started : Z) (b : MinuteBucket.t) : MinuteBucket.t :=
  MinuteBucket.set_domains (alter (DomainMinute.add up down started) key (MinuteBucket.domains b)) b.

Definition add_domain (key : DomainKey.t) (up down started : Z) (cb : Collector * MinuteBucket.t)
    : Collector * MinuteBucket.t :=
  let '(c, b) := cb in
  if (up =? 0) && (down =? 0) && (started =? 0) then (c, b)
  else
    let present (k : DomainKey.t) (b : MinuteBucket.t) := bool_decide (is_Some (MinuteBucket.domains b !! k)) in
    let '(c, b, key) :=
      if negb (present key b)
         && (DomainKey.has_domain key || negb (bool_decide (DomainKey.app key = UNKNOWN)) || DomainKey.ech_present key)
      then
        let full := domains_full c b in
        let '(c, ok) := if full then (c, false) else reserve DOMAIN_COST c in
        if ok then (c, MinuteBucket.set_known (key :: MinuteBucket.known b) (new_domain key b), key)
        else (set_stats (Stats.limited (if full then "domain_limit" else "budget")) c, b,
              DomainKey.unknown (DomainKey.user key))
      else (c, b, key) in
    let '(c, b, found) :=
      if present key b then (c, b, true) else ensure_unknown (DomainKey.user key) (c, b) in
    if found then (c, add_to_row key up down started b)
    else (set_stats (Stats.add_dropped 0 1) c, b).

(** ** Batches *)

Section batches.
Context {Env : AnalysisEnv}.

Definition second : Z := 1000 * 1000000.

Definition new_message (now_unix : Z) (c : Collector) : Collector * Batch.t :=
  let sequence := wrapping_add64 (Inner.sequence (inner c)) 1 in
  (set_inner (Inner.set_sequence sequence) c,
   Batch.mk (instance c) (Inner.epoch (inner c)) sequence now_unix [] []).

Definition batch_cost (message : Batch.t) : Z := encoded_len message * 2 + entries message * 512 + 256.

(** The batch as it is queued, with its window of sending. *)
Definition queued (now_unix : Z) (message : Batch.t) (c : Collector) : QueuedBatch.t :=
  let n := Batch.sequence message in
  let elapsed := Z.max 0 (unix_now n - now_unix) * second in
  let age := queue_max_age_seconds (limits c) * second in
  let jitter := (random n mod 10001) * 1000000 in
  let expires_at := instant_now n + Z.max 0 (age - elapsed) in
  QueuedBatch.mk message (Z.min (instant_now n + Z.max 0 (jitter - elapsed)) expires_at) expires_at
    (batch_cost message) false.

Definition enqueue (now_unix : Z) (message : Batch.t) (c : Collector) : Collector :=
  if entries message =? 0 then c
  else
    let refuse (reason : string) (c : Collector) :=
      set_stats (fun s => Stats.reason reason (Stats.add_dropped 1 (entries message) s)) c in
    let cost := batch_cost message in
    if batch_max_bytes (limits c) <? encoded_len message then refuse "budget" c
    else if queue_max_bytes (limits c) <? sat u64_max (Inner.queue_bytes (inner c) + cost) then refuse "queue_full" c
    else
      let '(c, ok) := reserve cost c in
      if ok
      then set_inner (fun i => Inner.set_queue (Inner.queue i ++ [queued now_unix message c])
                                 (Inner.queue_bytes i + cost) i) (note_queued message c)
      else refuse "budget" c.

(** One turn of the loops of [seal]: the message under construction and its size. *)
Definition place (now_unix row_len : Z) (push : Batch.t -> Batch.t) (st : Collector * Batch.t * Z)
    : Collector * Batch.t * Z :=
  let '(c, message, size) := st in
  let row_size := row_len + 8 in
  let '(c, message, size) :=
    if (batch_max_entries (limits c) <=? entries message) || (batch_max_bytes (limits c) <? size + row_size)
    then
      let '(c, message) := new_message now_unix (enqueue now_unix message c) in (c, message, encoded_len message)
    else (c, message, size) in
  (c, push message, size + row_size).

Definition place_user (now_unix : Z) (st : Collector * Batch.t * Z) (row : UserMinute.t) : Collector * Batch.t * Z :=
  place now_unix (user_row_len row) (Batch.push_user row) st.

Definition idle_row (row : DomainMinute.t) : bool :=
  (DomainMinute.uplink_bytes row =? 0) && (DomainMinute.downlink_bytes row =? 0)
  && (DomainMinute.target_sessions row =? 0).

Definition place_domain (now_unix : Z) (st : Collector * Batch.t * Z) (row : DomainMinute.t)
    : Collector * Batch.t * Z :=
  if idle_row row then st else place now_unix (domain_row_len row) (Batch.push_domain row) st.

Definition seal (now_unix : Z) (b : MinuteBucket.t) (c : Collector) : Collector :=
  let '(c, message) := new_message now_unix c in
  let st := foldl (place_user now_unix) (c, message, encoded_len message) (hash_users (MinuteBucket.users b)).*2 in
  let '(c, message, _) := foldl (place_domain now_unix) st (hash_domains (MinuteBucket.domains b)).*2 in
  release (MinuteBucket.cost b) (enqueue now_unix message c).

(** [drop_batch] on a batch that may be completed already. *)
Definition drop_batch (reason : string) (b : QueuedBatch.t) (c : Collector) : Collector :=
  if QueuedBatch.completed b then c
  else
    let reason := if bool_decide (reason ∈ REASONS) then reason else "send_failed" in
    set_stats (fun s =>
      let s := Stats.reason reason (Stats.add_dropped 1 (entries (QueuedBatch.message b)) s) in
      if bool_decide (reason = "send_failed") then Stats.add_failure s else s) c.

(** [complete]; the batch is completed either way. *)
Definition complete (sent : bool) (unix : Z) (b : QueuedBatch.t) (c : Collector) : Collector :=
  if negb sent then drop_batch "send_failed" b c
  else if QueuedBatch.completed b then c
  else set_stats (Stats.add_sent unix) c.

(** The destructor of [QueuedBatch]: a batch nobody completed is a dropped one. *)
Definition free_batch (b : QueuedBatch.t) (c : Collector) : Collector :=
  release (QueuedBatch.cost b) (drop_batch "session_reset" b c).

Definition discard_buffered (c : Collector) : Collector :=
  let c :=
    match Inner.bucket (inner c) with
    | None => c
    | Some bucket =>
        let c := set_inner (Inner.set_bucket None) c in
        let c := set_stats (Stats.add_dropped 0 (MinuteBucket.entries bucket)) c in
        let c := if 0 <? MinuteBucket.entries bucket then set_stats (Stats.reason "session_reset") c else c in
        release (MinuteBucket.cost bucket) c
    end in
  set_inner (Inner.set_queue [] 0) (foldl (fun c b => free_batch b c) c (Inner.queue (inner c))).

Definition begin_session (c : Collector) : Collector :=
  let c := set_active 0 c in
  let epoch := Z.max 1 (wrapping_add64 (Inner.epoch (inner c)) 1) in
  discard_buffered (set_inner (Inner.set_session epoch true false) c).

(** The locked section of [next]: expired batches go, the first one that is ready
    is handed out.  [now n] is the clock when [n] batches are left. *)
Fixpoint next_ready (now : nat -> Z) (queue : list QueuedBatch.t) (c : Collector)
    : Collector * option QueuedBatch.t :=
  match queue with
  | [] => (set_inner (fun i => Inner.set_queue [] (Inner.queue_bytes i) i) c, None)
  | b :: rest =>
      let at' := now (length queue) in
      let pop := set_inner (fun i => Inner.set_queue rest (wrapping_sub64 (Inner.queue_bytes i) (QueuedBatch.cost b)) i) in
      if QueuedBatch.expires_at b <=? at'
      then next_ready now rest (release (QueuedBatch.cost b) (drop_batch "expired" b (pop c)))
      else if at' <? QueuedBatch.ready_at b
      then (set_inner (fun i => Inner.set_queue queue (Inner.queue_bytes i) i) c, None)
      else (pop c, Some b)
  end.

Definition next (now : nat -> Z) (epoch : Z) (c : Collector) : Collector * option QueuedBatch.t :=
  if negb (active c =? epoch) || (epoch =? 0) then (c, None)
  else next_ready now (Inner.queue (inner c)) c.

(** [adopt_registrations] *)
Definition adopt_one (i : Inner.t) (flow : N) : Inner.t :=
  let next := wrapping_add64 (Inner.next_flow i) 1 in
  Inner.set_flows next (<[next := flow]> (Inner.flows i)) i.

Definition adopt_registrations (c : Collector) : Collector :=
  set_registrations [] (set_inner (fun i => foldl adopt_one i (registrations c)) c).
End batches.

(** ** Status and the sampling schedule *)

Module Status.
Record t : Type := mk {
  enabled : bool;
  epoch : Z;
  tracked_connections : Z;
  udp_targets : Z;
  buffered_domain_keys : Z;
  queue_bytes : Z;
  queued_batches : Z;
  sent_batches : Z;
  dropped_batches : Z;
  dropped_entries : Z;
  limited_events : Z;
  last_send_at_unix : Z;
  send_failures : Z;
  last_sample_at_unix : Z;
  memory_bytes : Z;
  dropped_by_reason : list (string * Z)
}.
End Status.

(** [status_locked] *)
Definition status (c : Collector) : Status.t :=
  let i := inner c in
  let s := stats c in
  Status.mk (negb (active c =? 0)) (Inner.epoch i)
    (Z.of_nat (size (Inner.flows i)) + Z.of_nat (length (registrations c)))
    (Budget.targets (budget c))
    (match Inner.bucket i with Some b => Z.of_nat (size (MinuteBucket.domains b)) | None => 0 end)
    (Inner.queue_bytes i) (Z.of_nat (length (Inner.queue i)))
    (Stats.sent s) (Stats.dropped_batches s) (Stats.dropped_entries s) (Stats.limited_events s)
    (Stats.last_send s) (Stats.send_failures s) (Stats.last_sample s) (Budget.memory (budget c))
    (zip REASONS (Stats.drops s)).

(** [run_sampling]: how many milliseconds it sleeps at the wall-clock time [now_millis]. *)
Definition sampling_delay (now_millis : Z) (c : Collector) : Z :=
  Z.min (Pb.TrafficAnalysisConfig.sample_interval_seconds (limits c) * 1000) (60 * 1000 - now_millis mod 60000).
