(* ===== verification/Analysis.v ===== *)
(** * Traffic analysis: the tasks around the collector,
    [crates/node-agent/src/analysis/collector.rs] and [analysis/mod.rs]

    The forwarding tasks call the methods of [Flow], the session owner begins,
    pauses and configures, the sampler fills rows, the stream takes batches.  They
    share the collector, the flows and their states through reference counts, so
    flows and states live in heaps and a call in progress is a thread: it ends a
    step at every load of the flow's state and every section under the flow's own
    lock.  [configure] and [sample] hold the [inner] lock over their loop and visit
    one flow per step, the other tasks run in between; the sampler reads whether a
    flow is finished one step before it drains it.

    What the core holds of a flow is part of the heap: its references, the tokens
    that are neither finished nor cancelled, and the storage it has reserved.  A
    flow is freed when nothing refers to it any more. *)

From Stdlib Require Import ZArith Lia.
From S2P Require Import Prelude Bytes Wire AnalysisConfig AnalysisData Collector.

Open Scope Z_scope.

Local Abbreviation Config := Pb.TrafficAnalysisConfig.t.
Local Abbreviation max_udp_targets := Pb.TrafficAnalysisConfig.max_udp_targets.
Local Abbreviation max_udp_targets_per_session := Pb.TrafficAnalysisConfig.max_udp_targets_per_session.
Local Abbreviation memory_max_bytes := Pb.TrafficAnalysisConfig.memory_max_bytes.

(** [owners], [pending_held] and [storage_held] are what the core holds: references,
    pending storage and promoted storage. *)
Module Flow.
Record t : Type := mk {
  meta : Metadata.t;
  state : option N;
  closed : bool;
  inflight : Z;
  web_seen : bool;
  cost : Z;
  owners : nat;
  pending_held : Z;
  storage_held : Z
}.
Definition set_state (s : option N) (f : t) : t :=
  mk (meta f) s (closed f) (inflight f) (web_seen f) (cost f) (owners f) (pending_held f) (storage_held f).
Definition close (f : t) : t :=
  mk (meta f) (state f) true (inflight f) (web_seen f) (cost f) (owners f) (pending_held f) (storage_held f).
Definition set_inflight (z : Z) (f : t) : t :=
  mk (meta f) (state f) (closed f) z (web_seen f) (cost f) (owners f) (pending_held f) (storage_held f).
Definition enter (f : t) : t := set_inflight (wrapping_add64 (inflight f) 1) f.
Definition leave (f : t) : t := set_inflight (wrapping_sub64 (inflight f) 1) f.
Definition see_web (f : t) : t :=
  mk (meta f) (state f) (closed f) (inflight f) true (cost f) (owners f) (pending_held f) (storage_held f).
Definition set_owners (n : nat) (f : t) : t :=
  mk (meta f) (state f) (closed f) (inflight f) (web_seen f) (cost f) n (pending_held f) (storage_held f).
Definition hold (pending storage : Z) (f : t) : t :=
  mk (meta f) (state f) (closed f) (inflight f) (web_seen f) (cost f) (owners f)
    (pending_held f + pending) (storage_held f + storage).
(** Whether the flow is charged to the pending budget. *)
Definition unseen (f : t) : bool := is_udp (meta f) && negb (web_seen f).
Definition finished (f : t) : bool := closed f && (inflight f =? 0).
End Flow.

(** ** Recording, under the lock of the flow's state

    The view of such a section: the collector's counters, the flow and the state. *)

Definition view : Type := Collector * Flow.t * FlowState.t.

Definition mark_web_seen (v : view) : view :=
  let '(c, f, s) := v in
  if Flow.web_seen f then v
  else (uncharge_pending (Flow.cost f) c, Flow.see_web f, FlowState.set_started true s).

Definition record_web_packet (up down : Z) (target : TargetState.t) (v : view) : view * TargetState.t :=
  if (up =? 0) && (down =? 0) then (v, target)
  else
    let '(c, f, s) := v in
    let s := FlowState.set_counters (Counters.add up down (FlowState.counters s)) s in
    let started := TargetState.started target || negb (TargetState.observed target) in
    let target := TargetState.mk (Counters.add up down (TargetState.counters target)) started true
                    (TargetState.classification target) in
    (mark_web_seen (c, f, s), target).

Definition on_packets (g : PacketState.t -> PacketState.t) (v : view) : view :=
  let '(c, f, s) := v in (c, f, FlowState.set_packets (g (FlowState.packets s)) s).
Definition on_collector (g : Collector -> Collector) (v : view) : view :=
  let '(c, f, s) := v in (g c, f, s).
Definition packets_of (v : view) : PacketState.t := FlowState.packets v.2.
Definition collector_of (v : view) : Collector := v.1.1.

Definition record_unknown_web (up down : Z) (identified : bool) (v : view) : view :=
  if (up =? 0) && (down =? 0) then v
  else
    let '(c, f, s) := v in
    let s := FlowState.set_counters (Counters.add up down (FlowState.counters s)) s in
    on_packets (fun p =>
      PacketState.set_unknown (Counters.add up down (PacketState.unknown p))
        (if identified then Counters.add up down (PacketState.unknown_identified p)
         else PacketState.unknown_identified p) p)
      (mark_web_seen (c, f, s)).

Definition drop_pending_targets (n : nat) (c : Collector) : Collector := Nat.iter n drop_pending_target c.
Definition drop_targets (n : nat) (c : Collector) : Collector := Nat.iter n drop_target c.

Definition expire_pending (now : Z) (v : view) : view :=
  let pending := PacketState.pending (packets_of v) in
  let kept := filter (fun kv => PendingCounters.recent now kv.2 = true) pending in
  on_collector (drop_pending_targets (size pending - size kept)) (on_packets (PacketState.set_pending kept) v).

Definition fenced (v : view) : bool :=
  PacketState.retired (packets_of v) || negb (active (collector_of v) =? FlowState.epoch v.2).

(** A target sniffed before registration gets its state with its first packet. *)
Definition admit_initial (target : Target.t) (v : view) : view :=
  let '(c, f, s) := v in
  let targets := PacketState.targets (FlowState.packets s) in
  if initial_web (Flow.meta f) target && negb (bool_decide (is_Some (targets !! target))) then
    if max_udp_targets_per_session (limits c) <=? Z.of_nat (size targets)
    then on_collector (set_stats (Stats.limited "target_limit")) v
    else
      let '(c, ok) := reserve_target (limits c) c in
      if ok
      then on_packets (fun p => PacketState.set_targets (<[target := TargetState.fresh None]> (PacketState.targets p)) p)
             (c, f, s)
      else (c, f, s)
  else v.

Definition record_pending (now : Z) (target : Target.t) (up down : Z) (v : view) : view :=
  let v := expire_pending now v in
  let count (v : view) :=
    on_packets (fun p =>
      PacketState.set_pending (alter (PendingCounters.record now up down) target (PacketState.pending p)) p) v in
  let '(c, f, s) := v in
  let pending := PacketState.pending (FlowState.packets s) in
  if bool_decide (is_Some (pending !! target)) then count v
  else if max_udp_targets_per_session (limits c) <=? Z.of_nat (size pending)
  then on_collector (set_stats (Stats.limited "target_limit")) v
  else
    let '(c, ok) := reserve_pending_target (limits c) c in
    if ok
    then count (on_packets (fun p => PacketState.set_pending (<[target := PendingCounters.fresh now]> (PacketState.pending p)) p)
                  (c, f, s))
    else (c, f, s).

Definition record_packet (now : Z) (target : option Target.t) (up down : Z) (known_web : option bool) (v : view) : view :=
  if (up =? 0) && (down =? 0) then v
  else if fenced v then v
  else
    match target with
    | None => v
    | Some t =>
        if negb (valid_target t) then
          if valid_observation_string (Target.host t) then v
          else on_collector (set_stats (Stats.limited "invalid_metadata")) v
        else
          let meta := Flow.meta v.1.2 in
          let v := admit_initial t v in
          match PacketState.targets (packets_of v) !! t with
          | Some state =>
              let '(v, state) := record_web_packet up down state v in
              on_packets (fun p => PacketState.set_targets (<[t := state]> (PacketState.targets p)) p) v
          | None =>
              match initial_web meta t, known_web with
              | false, None => record_pending now t up down v
              | initial, _ =>
                  record_unknown_web up down
                    (default false known_web || has_destination_domain t
                     || (initial && negb (is_empty (Metadata.domain meta)))) v
              end
          end
    end.

(** ** Classification of a target, under the same lock *)

Definition promote_pending_unknown (now : Z) (pending : option PendingCounters.t) (identified : bool) (v : view) : view :=
  match pending with
  | Some p =>
      if PendingCounters.recent now p
      then record_unknown_web (PendingCounters.up p) (PendingCounters.down p) identified v
      else v
  | None => v
  end.

Definition take_pending (target : Target.t) (v : view) : view * option PendingCounters.t :=
  (on_packets (fun p => PacketState.set_pending (delete target (PacketState.pending p)) p) v,
   PacketState.pending (packets_of v) !! target).

(** The removed entry gives its reservation back when the caller is done. *)
Definition drop_taken (pending : option PendingCounters.t) (v : view) : view :=
  match pending with Some _ => on_collector drop_pending_target v | None => v end.

Definition classify_web (now : Z) (target : Target.t) (domain : option string) (web : string) (ech_present : bool)
    (pending : option PendingCounters.t) (v : view) : view :=
  let identified := negb (is_empty (default "" domain)) || has_destination_domain target in
  let '(c, f, s) := v in
  if max_udp_targets_per_session (limits c) <=? Z.of_nat (size (PacketState.targets (FlowState.packets s)))
  then promote_pending_unknown now pending identified (on_collector (set_stats (Stats.limited "target_limit")) v)
  else
    let '(c, ok) := reserve_target (limits c) c in
    if negb ok then promote_pending_unknown now pending identified (c, f, s)
    else
      let state := TargetState.fresh (Some (Classification.mk (default "" domain) web ech_present)) in
      let '(v, state) :=
        match pending with
        | Some p =>
            if PendingCounters.recent now p
            then record_web_packet (PendingCounters.up p) (PendingCounters.down p) state (c, f, s)
            else (c, f, s, state)
        | None => (c, f, s, state)
        end in
      on_packets (fun p => PacketState.set_targets (<[target := state]> (PacketState.targets p)) p) v.

Definition classify_locked (now : Z) (target : Target.t) (domain : option string) (app_protocol : string)
    (ech_present : bool) (v : view) : view :=
  if fenced v then v
  else if bool_decide (is_Some (PacketState.targets (packets_of v) !! target)) || initial_web (Flow.meta v.1.2) target
  then v
  else
    let '(v, pending) := take_pending target v in
    drop_taken pending
      match web_protocol app_protocol with
      | None => v
      | Some web => classify_web now target domain web ech_present pending v
      end.

Definition discard_locked (target : Target.t) (v : view) : view :=
  let '(v, pending) := take_pending target v in drop_taken pending v.

(** [retire]: the targets and their reservations go to the caller. *)
Definition retire (c : Collector) (s : FlowState.t) : Collector * FlowState.t * gmap Target.t TargetState.t :=
  let p := FlowState.packets s in
  (drop_pending_targets (size (PacketState.pending p)) c,
   FlowState.set_packets (PacketState.retire p) s, PacketState.targets p).

(** ** Registration *)

(** The bounded fields of the metadata. *)
Definition bounded_fields (m : Metadata.t) : list (string * Z) :=
  [(Metadata.node_id m, 128); (Metadata.user_id m, 128); (Metadata.proxy_protocol m, 64); (Metadata.network m, 16);
   (Metadata.domain m, 253); (Metadata.app_protocol m, 64)].

Definition host_len (target : option Target.t) : Z :=
  match target with Some t => str_len (Target.host t) | None => 0 end.

Definition invalid_host (target : option Target.t) : bool :=
  match target with Some t => negb (valid_observation_string (Target.host t)) | None => false end.

Definition flow_cost (m : Metadata.t) : Z :=
  FLOW_COST + foldr (fun kv z => str_len kv.1 + z) 0 (bounded_fields m)
  + host_len (Metadata.destination m) + host_len (Metadata.sniff_destination m).

(** [register_at_epoch]: the metadata the new flow keeps. *)
Definition register_at_epoch (expected : Z) (metadata : Metadata.t) (c : Collector) : Collector * option Metadata.t :=
  let web := web_protocol (Metadata.app_protocol metadata) in
  if negb (is_udp metadata) && match web with None => true | Some _ => false end then (c, None)
  else
    let metadata := match web with Some web => Metadata.set_app_protocol web metadata | None => metadata end in
    if (expected =? 0) || negb (expected =? active c) || is_empty (Metadata.user_id metadata)
       || is_empty (Metadata.node_id metadata)
    then (c, None)
    else if existsb (fun kv => kv.2 <? str_len kv.1) (bounded_fields metadata)
            || negb (valid_observation_string (Metadata.domain metadata))
            || invalid_host (Metadata.destination metadata) || invalid_host (Metadata.sniff_destination metadata)
    then (set_stats (Stats.limited "invalid_metadata") c, None)
    else
      let '(c, ok) :=
        if is_udp metadata then reserve_pending (flow_cost metadata) c else reserve (flow_cost metadata) c in
      if ok then (c, Some metadata) else (set_stats (Stats.limited "budget") c, None).

(** ** Filling the minute from one flow *)

(** [TargetSample] *)
Module Sample.
Record t : Type := mk {
  target : Target.t;
  classification : option Classification.t;
  up : Z;
  down : Z;
  started : Z
}.
End Sample.

Definition flag (b : bool) : Z := if b then 1 else 0.

(** What draining a flow yields. *)
Module Drained.
Record t : Type := mk {
  up : Z;
  down : Z;
  started : Z;
  samples : list Sample.t;
  unknown : Counters.t;
  unknown_identified : Counters.t
}.
Definition nonzero (d : t) : bool := negb ((up d =? 0) && (down d =? 0) && (started d =? 0)).
End Drained.

Section aggregation.
Context {Env : AnalysisEnv}.

Definition sample_of (kv : Target.t * TargetState.t) : option Sample.t :=
  let '(target, s) := kv in
  let '(up, down) := (Counters.up (TargetState.counters s), Counters.down (TargetState.counters s)) in
  let started := flag (TargetState.started s) in
  if (up =? 0) && (down =? 0) && (started =? 0) then None
  else Some (Sample.mk target (TargetState.classification s) up down started).

Definition drain_flow (now : Z) (v : view) : view * Drained.t :=
  let udp := is_udp (Flow.meta v.1.2) in
  let '(up, down) := (Counters.up (FlowState.counters v.2), Counters.down (FlowState.counters v.2)) in
  let started := flag (FlowState.started v.2) in
  let v := (v.1, FlowState.set_started false (FlowState.set_counters Counters.zero v.2)) in
  if udp then
    let v := expire_pending now v in
    let p := packets_of v in
    (on_packets (fun p => PacketState.set_unknown Counters.zero Counters.zero
                   (PacketState.set_targets (TargetState.drain <$> PacketState.targets p) p)) v,
     Drained.mk up down started (omap sample_of (hash_targets (PacketState.targets p)))
       (PacketState.unknown p) (PacketState.unknown_identified p))
  else (v, Drained.mk up down started [] Counters.zero Counters.zero).

Definition sample_key (meta : Metadata.t) (s : Sample.t) : DomainKey.t :=
  let key := identity meta (Some (Sample.target s)) true in
  match Sample.classification s with
  | Some c =>
      DomainKey.mk (DomainKey.user key) (Classification.domain c) (DomainKey.destination key)
        (Classification.app c) (Classification.ech_present c)
  | None => key
  end.

(** The row of the user, created with an unknown row beside it. *)
Definition ensure_user (user : UserKey.t) (nonzero : bool) (cb : Collector * MinuteBucket.t) : Collector * MinuteBucket.t :=
  let '(c, b) := cb in
  if bool_decide (is_Some (MinuteBucket.users b !! user)) || negb nonzero then (c, b)
  else
    let '(c, ok) := reserve USER_COST c in
    if ok then
      (ensure_unknown user
        (c, MinuteBucket.set_cost (MinuteBucket.cost b + USER_COST)
              (MinuteBucket.set_users (<[user := UserMinute.empty (MinuteBucket.minute b) user]> (MinuteBucket.users b)) b))).1
    else (c, b).

Definition on_user (user : UserKey.t) (g : UserMinute.t -> UserMinute.t) (b : MinuteBucket.t) : MinuteBucket.t :=
  MinuteBucket.set_users (alter g user (MinuteBucket.users b)) b.

(** The rows of a flow's targets, and the bytes with a domain among them. *)
Definition place_sample (meta : Metadata.t) (retained : bool) (acc : Collector * MinuteBucket.t * Counters.t)
    (s : Sample.t) : Collector * MinuteBucket.t * Counters.t :=
  let '(c, b, identified) := acc in
  let key := sample_key meta s in
  let identified :=
    if DomainKey.has_domain key then Counters.add (Sample.up s) (Sample.down s) identified else identified in
  let '(c, b) :=
    if retained then add_domain key (Sample.up s) (Sample.down s) (Sample.started s) (c, b) else (c, b) in
  (c, b, identified).

Definition place_domains (meta : Metadata.t) (d : Drained.t) (retained : bool) (cb : Collector * MinuteBucket.t)
    : Collector * MinuteBucket.t * Counters.t :=
  let user := UserKey.from meta in
  if is_udp meta then
    let '(c, b, identified) := foldl (place_sample meta retained) (cb, Counters.zero) (Drained.samples d) in
    let identified :=
      Counters.add (Counters.up (Drained.unknown_identified d)) (Counters.down (Drained.unknown_identified d))
        identified in
    let '(c, b) :=
      if retained
      then add_domain (DomainKey.unknown user) (Counters.up (Drained.unknown d)) (Counters.down (Drained.unknown d)) 0 (c, b)
      else (c, b) in
    (c, b, identified)
  else if Drained.nonzero d then
    let key := identity meta (Metadata.destination meta) false in
    let identified :=
      if DomainKey.has_domain key then Counters.add (Drained.up d) (Drained.down d) Counters.zero else Counters.zero in
    let '(c, b) :=
      if retained then add_domain key (Drained.up d) (Drained.down d) (Drained.started d) cb else cb in
    (c, b, identified)
  else (cb, Counters.zero).

Definition aggregate (meta : Metadata.t) (d : Drained.t) (cb : Collector * MinuteBucket.t) : Collector * MinuteBucket.t :=
  let user := UserKey.from meta in
  let '(c, b) := ensure_user user (Drained.nonzero d) cb in
  let retained := bool_decide (is_Some (MinuteBucket.users b !! user)) in
  let '(c, b) :=
    if retained then (c, on_user user (UserMinute.add (Drained.up d) (Drained.down d) (Drained.started d)) b)
    else if Drained.nonzero d then (set_stats (fun s => Stats.reason "budget" (Stats.add_dropped 0 1 s)) c, b)
    else (c, b) in
  let '(c, b, identified) := place_domains meta d retained (c, b) in
  (c, on_user user (UserMinute.add_identified (Counters.up identified) (Counters.down identified)) b).
End aggregation.

(** ** Calls in progress *)

Inductive thread : Type :=
  (** [begin_token] has counted itself *)
  | TBegin (f : N)
  (** [finish_observation] and [done_packet_batch], before the state is loaded *)
  | TFinish (f : N) (epoch up down : Z) (target : option Target.t) (known_web : option bool)
  | TBatch (f : N) (epoch : Z) (packets : list (Target.t * Z * Z))
  (** the state is loaded: TCP counters, packets still to record, the end *)
  | TAdd (f s : N) (up down : Z)
  | TRecord (f s : N) (packets : list (option Target.t * Z * Z)) (known_web : option bool)
  | TLeave (f : N)
  | TClassify (f : N) (epoch : Z) (target : Target.t) (domain : option string) (app_protocol : string) (ech_present : bool)
  | TClassifyIn (f s : N) (target : Target.t) (domain : option string) (app_protocol : string) (ech_present : bool)
  | TDiscard (f : N) (epoch : Z) (target : Target.t)
  | TDiscardIn (f s : N) (target : Target.t)
  (** [try_reserve_flow_storage], before and after the reservation *)
  | TReserve (f : N) (bytes : Z) (require_active pending : bool)
  | TReserved (f : N) (bytes : Z) (require_active pending : bool).

Definition thread_flow (t : thread) : N :=
  match t with
  | TBegin f | TFinish f _ _ _ _ _ | TBatch f _ _ | TAdd f _ _ _ | TRecord f _ _ _ | TLeave f
  | TClassify f _ _ _ _ _ | TClassifyIn f _ _ _ _ _ | TDiscard f _ _ | TDiscardIn f _ _
  | TReserve f _ _ _ | TReserved f _ _ _ => f
  end.

(** Who holds the [inner] lock over several steps. *)
Inductive worker : Type :=
  | WIdle
  | WConfigure (epoch : Z) (todo : gset Z)
  | WSample (epoch now_unix : Z) (bucket : MinuteBucket.t) (todo : gset Z) (at' : option (Z * N * bool)).

(** [finished] is a ghost: the bytes of every operation that was completed under a
    token, with the token's epoch and the flow's user. *)
Record World : Type := mkWorld {
  col : Collector;
  flow_heap : gmap N Flow.t;
  states : gmap N FlowState.t;
  next_id : N;
  threads : gmap N thread;
  tokens : list (N * Z);
  popped : gmap N QueuedBatch.t;
  work : worker;
  finished : list (Z * UserKey.t * Z * Z)
}.

Definition set_col (c : Collector) (w : World) : World :=
  mkWorld c (flow_heap w) (states w) (next_id w) (threads w) (tokens w) (popped w) (work w) (finished w).
Definition set_flow_heap (m : gmap N Flow.t) (w : World) : World :=
  mkWorld (col w) m (states w) (next_id w) (threads w) (tokens w) (popped w) (work w) (finished w).
Definition set_states (m : gmap N FlowState.t) (w : World) : World :=
  mkWorld (col w) (flow_heap w) m (next_id w) (threads w) (tokens w) (popped w) (work w) (finished w).
Definition set_threads (m : gmap N thread) (w : World) : World :=
  mkWorld (col w) (flow_heap w) (states w) (next_id w) m (tokens w) (popped w) (work w) (finished w).
Definition set_tokens (l : list (N * Z)) (w : World) : World :=
  mkWorld (col w) (flow_heap w) (states w) (next_id w) (threads w) l (popped w) (work w) (finished w).
Definition set_popped (m : gmap N QueuedBatch.t) (w : World) : World :=
  mkWorld (col w) (flow_heap w) (states w) (next_id w) (threads w) (tokens w) m (work w) (finished w).
Definition set_work (k : worker) (w : World) : World :=
  mkWorld (col w) (flow_heap w) (states w) (next_id w) (threads w) (tokens w) (popped w) k (finished w).
Definition set_finished (l : list (Z * UserKey.t * Z * Z)) (w : World) : World :=
  mkWorld (col w) (flow_heap w) (states w) (next_id w) (threads w) (tokens w) (popped w) (work w) l.
(** A fresh index for whatever is allocated next. *)
Definition fresh_id (w : World) : N * World :=
  (next_id w, mkWorld (col w) (flow_heap w) (states w) (next_id w + 1) (threads w) (tokens w) (popped w) (work w)
                (finished w)).

Definition world_new (instance : string) : World :=
  mkWorld (collector_new instance) ∅ ∅ 0 ∅ [] ∅ WIdle [].

Definition spawn (t : thread) (w : World) : World :=
  let '(i, w) := fresh_id w in set_threads (<[i := t]> (threads w)) w.

Definition update_flow (f : N) (g : Flow.t -> Flow.t) (w : World) : World :=
  set_flow_heap (alter g f (flow_heap w)) w.

(** A section under the lock of state [s] of flow [f]. *)
Definition in_view (f s : N) (g : view -> view) (w : World) : option World :=
  flow ← flow_heap w !! f;
  state ← states w !! s;
  let '(c, flow, state) := g (col w, flow, state) in
  Some (set_col c (set_flow_heap (<[f := flow]> (flow_heap w)) (set_states (<[s := state]> (states w)) w))).

(** ** A step of a call *)

(** [self.state.load()] filtered by the token's epoch. *)
Definition load_state (f : N) (epoch : Z) (w : World) : option N :=
  flow ← flow_heap w !! f;
  s ← Flow.state flow;
  state ← states w !! s;
  if FlowState.epoch state =? epoch then Some s else None.

(** The conditions of [begin_token], in the order they are read. *)
Definition admits (f : N) (w : World) : option Z :=
  flow ← flow_heap w !! f;
  let epoch := match Flow.state flow ≫= (states w !!.) with Some s => FlowState.epoch s | None => 0 end in
  if Flow.closed flow || (epoch =? 0) || negb (epoch =? active (col w)) then None else Some epoch.

Definition eligible (require_active : bool) (f : N) (w : World) : bool :=
  match flow_heap w !! f with
  | Some flow =>
      negb (Flow.closed flow) && match Flow.state flow with Some _ => true | None => false end
      && (negb require_active || negb (active (col w) =? 0))
  | None => false
  end.

(** [classify_target] before the state is loaded: whether it goes on, with the
    trimmed protocol. *)
Definition classify_check (epoch : Z) (meta : Metadata.t) (target : Target.t) (domain : option string)
    (app_protocol : string) (c : Collector) : Collector * option string :=
  let app_protocol := trim_ascii app_protocol in
  if (epoch =? 0) || negb (is_udp meta) then (c, None)
  else if negb (valid_target target)
          || match domain with Some d => negb (valid_observation_string d) | None => false end
          || (64 <? str_len app_protocol)
  then (set_stats (Stats.limited "invalid_metadata") c, None)
  else if is_empty app_protocol || eq_ignore_ascii_case app_protocol UNKNOWN then (c, None)
  else (c, Some app_protocol).

(** The world after the step, and what is left of the call. *)
Definition thread_step (now : Z) (t : thread) (w : World) : option (World * option thread) :=
  match t with
  | TBegin f =>
      Some match admits f w with
           | Some epoch => (set_tokens ((f, epoch) :: tokens w) w, None)
           | None => (update_flow f Flow.leave w, None)
           end
  | TFinish f epoch up down target known_web =>
      flow ← flow_heap w !! f;
      Some (w, Some match load_state f epoch w with
                    | Some s =>
                        if negb (active (col w) =? epoch) then TLeave f
                        else if is_udp (Flow.meta flow) then TRecord f s [(target, up, down)] known_web
                        else TAdd f s up down
                    | None => TLeave f
                    end)
  | TBatch f epoch packets =>
      Some (w, Some match load_state f epoch w with
                    | Some s => TRecord f s ((fun '(t, up, down) => (Some t, up, down)) <$> packets) None
                    | None => TLeave f
                    end)
  | TAdd f s up down =>
      w ← in_view f s (fun v =>
            (v.1, FlowState.set_counters (Counters.add up down (FlowState.counters v.2)) v.2)) w;
      Some (w, Some (TLeave f))
  | TRecord f s [] known_web => Some (w, Some (TLeave f))
  | TRecord f s ((target, up, down) :: packets) known_web =>
      w ← in_view f s (record_packet now target up down known_web) w;
      Some (w, Some (TRecord f s packets known_web))
  | TLeave f => Some (update_flow f Flow.leave w, None)
  | TClassify f epoch target domain app_protocol ech_present =>
      flow ← flow_heap w !! f;
      let '(c, app) := classify_check epoch (Flow.meta flow) target domain app_protocol (col w) in
      let w := set_col c w in
      Some (w, app ← app; s ← load_state f epoch w; Some (TClassifyIn f s target domain app ech_present))
  | TClassifyIn f s target domain app_protocol ech_present =>
      w ← in_view f s (classify_locked now target domain app_protocol ech_present) w; Some (w, None)
  | TDiscard f epoch target => Some (w, (fun s => TDiscardIn f s target) <$> load_state f epoch w)
  | TDiscardIn f s target => w ← in_view f s (discard_locked target) w; Some (w, None)
  | TReserve f bytes require_active pending =>
      if eligible require_active f w then
        let '(c, ok) := if pending : bool then reserve_pending bytes (col w) else reserve bytes (col w) in
        Some (if ok then (set_col c w, Some (TReserved f bytes require_active pending))
              else (set_col (set_stats (Stats.limited "budget") c) w, None))
      else Some (w, None)
  | TReserved f bytes require_active pending =>
      Some (if eligible require_active f w
            then (update_flow f (if pending : bool then Flow.hold bytes 0 else Flow.hold 0 bytes) w, None)
            else (set_col ((if pending : bool then release_pending bytes else release bytes) (col w)) w, None))
  end.

(** ** Registration and release of a flow *)

Definition register (expected : Z) (metadata : Metadata.t) (w : World) : World :=
  match register_at_epoch expected metadata (col w) with
  | (c, None) => set_col c w
  | (c, Some meta) =>
      let '(f, w) := fresh_id (set_col c w) in
      let '(s, w) := fresh_id w in
      let tcp := negb (is_udp meta) in
      let state := FlowState.new (active c) tcp (UserKey.from meta) in
      let flow := Flow.mk meta (Some s) false 0 tcp (flow_cost meta) 1 0 0 in
      set_col (set_registrations (registrations c ++ [f]) c)
        (set_states (<[s := state]> (states w)) (set_flow_heap (<[f := flow]> (flow_heap w)) w))
  end.

(** Nothing refers to the flow: no owner, no token, no call, no registry, and the
    core has given back what it reserved. *)
Definition unreferenced (f : N) (flow : Flow.t) (w : World) : bool :=
  (Flow.owners flow =? 0)%nat && (Flow.pending_held flow =? 0) && (Flow.storage_held flow =? 0)
  && forallb (fun k => negb (k.1 =? f)%N) (tokens w)
  && forallb (fun kt => negb (thread_flow kt.2 =? f)%N) (map_to_list (threads w))
  && forallb (fun k => negb (k =? f)%N) (registrations (col w))
  && forallb (fun kf => negb (kf.2 =? f)%N) (map_to_list (Inner.flows (inner (col w)))).

(** The destructor of [Flow], and of the state it still has. *)
Definition free_flow (f : N) (flow : Flow.t) (w : World) : World :=
  let c := if Flow.unseen flow then release_pending (Flow.cost flow) (col w) else release (Flow.cost flow) (col w) in
  let w := set_flow_heap (delete f (flow_heap w)) w in
  match Flow.state flow ≫= (fun s => (s,.) <$> states w !! s) with
  | Some (s, state) =>
      let '(c, state, targets) := retire c state in
      set_col (drop_targets (size targets) c) (set_states (<[s := state]> (states w)) w)
  | None => set_col c w
  end.

(** ** The session owner *)

Definition clear_pending (w : World) (f : N) : World :=
  match flow_heap w !! f with
  | Some flow =>
      if is_udp (Flow.meta flow) then
        match Flow.state flow ≫= (fun s => (s,.) <$> states w !! s) with
        | Some (s, state) =>
            let p := FlowState.packets state in
            set_col (drop_pending_targets (size (PacketState.pending p)) (col w))
              (set_states (<[s := FlowState.set_packets (PacketState.set_pending ∅ p) state]> (states w)) w)
        | None => w
        end
      else w
  | None => w
  end.

Definition registered (c : Collector) : list N := (map_to_list (Inner.flows (inner c))).*2.

Definition pause (epoch : Z) (w : World) : World :=
  let c := col w in
  if negb (Inner.epoch (inner c) =? epoch) then w
  else
    let i := inner c in
    let c := set_active 0 (set_inner (Inner.set_session (Inner.epoch i) false (Inner.configured i)) c) in
    let c := discard_buffered (adopt_registrations c) in
    foldl clear_pending (set_col c w) (registered c).

Definition configure_start (epoch : Z) (config : option Config) (w : World) : World :=
  let i := inner (col w) in
  if negb (Inner.epoch i =? epoch) || negb (Inner.session_open i) || Inner.configured i then w
  else
    let c := set_inner (Inner.set_session (Inner.epoch i) (Inner.session_open i) true) (col w) in
    let c := set_limits (normalize_config config) (adopt_registrations (set_active 0 c)) in
    set_work (WConfigure epoch (dom (Inner.flows (inner c)))) (set_col c w).

(** Detach the flow from its state. *)
Definition retire_flow (f : N) (w : World) : World * gmap Target.t TargetState.t :=
  match flow_heap w !! f with
  | Some flow =>
      let w := update_flow f (Flow.set_state None) w in
      match Flow.state flow ≫= (fun s => (s,.) <$> states w !! s) with
      | Some (s, state) =>
          let '(c, state, targets) := retire (col w) state in
          (set_col c (set_states (<[s := state]> (states w)) w), targets)
      | None => (w, ∅)
      end
  | None => (w, ∅)
  end.

(** The loop that moves the targets to the new state. *)
Definition keep_target (acc : Collector * gmap Target.t TargetState.t) (kv : Target.t * TargetState.t)
    : Collector * gmap Target.t TargetState.t :=
  let '(c, kept) := acc in
  if (max_udp_targets_per_session (limits c) <=? Z.of_nat (size kept))
     || (max_udp_targets (limits c) <? Budget.targets (budget c))
  then (drop_target (set_stats (Stats.limited "target_limit") c), kept)
  else (c, <[kv.1 := TargetState.drain kv.2]> kept).

Definition unregister (key : Z) (w : World) : World :=
  set_col (set_inner (fun i => Inner.set_flows (Inner.next_flow i) (delete key (Inner.flows i)) i) (col w)) w.

Section steps.
Context {Env : AnalysisEnv}.

Definition configure_flow (key : Z) (epoch : Z) (w : World) : option World :=
  f ← Inner.flows (inner (col w)) !! key;
  flow ← flow_heap w !! f;
  let enabled := Pb.TrafficAnalysisConfig.enabled (limits (col w)) in
  let '(w, old_targets) := retire_flow f w in
  let c := col w in
  Some (
    if negb enabled || Flow.closed flow || (memory_max_bytes (limits c) <? Budget.memory (budget c)) then
      let c := if enabled && negb (Flow.closed flow) then set_stats (Stats.limited "budget") c else c in
      unregister key (set_col (drop_targets (size old_targets) c) w)
    else
      let '(c, kept) := foldl keep_target (c, ∅) (hash_targets old_targets) in
      let '(s, w) := fresh_id (set_col c w) in
      let state := FlowState.set_packets (PacketState.set_targets kept PacketState.empty)
                     (FlowState.new epoch false (UserKey.from (Flow.meta flow))) in
      update_flow f (Flow.set_state (Some s)) (set_states (<[s := state]> (states w)) w)).

Definition configure_end (epoch : Z) (w : World) : World :=
  let enabled := Pb.TrafficAnalysisConfig.enabled (limits (col w)) in
  set_work WIdle (set_col (set_active (if enabled then epoch else 0) (col w)) w).

(** ** The sampler *)

(** With the analysis inactive, only finished flows are forgotten. *)
Definition forget_finished (w : World) (kf : Z * N) : World :=
  match flow_heap w !! kf.2 with
  | Some flow =>
      if Flow.finished flow then
        let '(w, targets) := retire_flow kf.2 w in
        unregister kf.1 (set_col (drop_targets (size targets) (col w)) w)
      else w
  | None => w
  end.

Definition minute_of (now_unix : Z) : Z := now_unix / 60 * 60.

Definition sample_start (now_unix : Z) (w : World) : World :=
  let c := set_stats (Stats.set_last_sample now_unix) (adopt_registrations (col w)) in
  let epoch := active c in
  if epoch =? 0 then foldl forget_finished (set_col c w) (map_to_list (Inner.flows (inner c)))
  else
    let minute := minute_of now_unix in
    let bucket := Inner.bucket (inner c) in
    let c := set_inner (Inner.set_bucket None) c in
    let '(c, bucket) :=
      match bucket with
      | Some b => if MinuteBucket.minute b <? minute then (seal now_unix b c, MinuteBucket.new minute) else (c, b)
      | None => (c, MinuteBucket.new minute)
      end in
    set_work (WSample epoch now_unix bucket (dom (Inner.flows (inner c))) None) (set_col c w).

(** The sampler looks at a flow: its state and whether it is finished. *)
Definition sample_flow (key epoch now_unix : Z) (bucket : MinuteBucket.t) (todo : gset Z) (w : World) : option World :=
  f ← Inner.flows (inner (col w)) !! key;
  flow ← flow_heap w !! f;
  Some match load_state f epoch w with
       | Some s => set_work (WSample epoch now_unix bucket (todo ∖ {[key]}) (Some (key, s, Flow.finished flow))) w
       | None => set_work (WSample epoch now_unix bucket (todo ∖ {[key]}) None) w
       end.

Definition sample_drain (now epoch now_unix : Z) (bucket : MinuteBucket.t) (todo : gset Z)
    (key : Z) (s : N) (finished : bool) (w : World) : option World :=
  f ← Inner.flows (inner (col w)) !! key;
  flow ← flow_heap w !! f;
  state ← states w !! s;
  let '(c, _, state, drained) := drain_flow now (col w, flow, state) in
  let '(c, bucket) := aggregate (Flow.meta flow) drained (c, bucket) in
  let w := set_work (WSample epoch now_unix bucket todo None) (set_states (<[s := state]> (states w)) (set_col c w)) in
  Some (
    if finished : bool then
      let '(w, targets) := retire_flow f w in
      unregister key (set_col (drop_targets (size targets) (col w)) w)
    else w).

Definition sample_end (bucket : MinuteBucket.t) (w : World) : World :=
  set_work WIdle (set_col (set_inner (Inner.set_bucket (Some bucket)) (col w)) w).
End steps.

(** ** One step of the system *)

Inductive label : Type :=
  | LRegister (expected : Z) (metadata : Metadata.t)
  | LClone (f : N) | LRelinquish (f : N) | LFree (f : N) | LClose (f : N)
  | LBegin (f : N)
  | LFinish (f : N) (epoch up down : Z) (target : option Target.t) (known_web : option bool)
  | LBatch (f : N) (epoch : Z) (packets : list (Target.t * Z * Z))
  | LCancel (f : N) (epoch : Z)
  | LClassify (f : N) (epoch : Z) (target : Target.t) (domain : option string) (app_protocol : string) (ech_present : bool)
  | LDiscard (f : N) (epoch : Z) (target : Target.t)
  | LReserve (f : N) (bytes : Z) (require_active pending : bool)
  | LReleasePending (f : N) (bytes : Z) | LPromote (f : N) (bytes : Z) | LRelease (f : N) (bytes : Z)
  | LThread (i : N) (now : Z)
  | LBeginSession | LPause (epoch : Z)
  | LConfigure (epoch : Z) (config : option Config) | LConfigureFlow (key : Z) | LConfigureEnd
  | LSample (now_unix : Z) | LSampleFlow (key : Z) | LSampleDrain (now : Z) | LSampleEnd
  | LNext (epoch : Z) (now : nat -> Z)
  | LComplete (i : N) (sent : bool) (unix : Z) | LDropBatch (i : N) (reason : string) | LFreeBatch (i : N).

(** The first token of this epoch is used up. *)
Fixpoint take_token (f : N) (epoch : Z) (tokens : list (N * Z)) : option (list (N * Z)) :=
  match tokens with
  | [] => None
  | k :: rest => if bool_decide (k = (f, epoch)) then Some rest else cons k <$> take_token f epoch rest
  end.

Definition u64 (z : Z) : bool := (0 <=? z) && (z <=? u64_max).

Definition idle (w : World) : option unit := match work w with WIdle => Some tt | _ => None end.

(** A flow the core has a reference to. *)
Definition owned (f : N) (w : World) : option Flow.t :=
  flow ← flow_heap w !! f; if (0 <? Flow.owners flow)%nat then Some flow else None.

Definition guard (b : bool) : option unit := if b then Some tt else None.

Definition with_popped (i : N) (g : QueuedBatch.t -> Collector -> Collector) (after : QueuedBatch.t -> option QueuedBatch.t)
    (w : World) : option World :=
  b ← popped w !! i;
  Some (set_popped (partial_alter (fun _ => after b) i (popped w)) (set_col (g b (col w)) w)).

Section system.
Context {Env : AnalysisEnv}.

Definition step (l : label) (w : World) : option World :=
  match l with
  | LRegister expected metadata => Some (register expected metadata w)
  | LClone f => flow ← owned f w; Some (update_flow f (Flow.set_owners (S (Flow.owners flow))) w)
  | LRelinquish f => flow ← owned f w; Some (update_flow f (Flow.set_owners (pred (Flow.owners flow))) w)
  | LFree f => flow ← flow_heap w !! f; _ ← guard (unreferenced f flow w); Some (free_flow f flow w)
  | LClose f => _ ← owned f w; Some (update_flow f Flow.close w)
  | LBegin f => _ ← owned f w; Some (spawn (TBegin f) (update_flow f Flow.enter w))
  | LFinish f epoch up down target known_web =>
      flow ← flow_heap w !! f;
      _ ← guard (u64 up && u64 down);
      rest ← take_token f epoch (tokens w);
      Some (spawn (TFinish f epoch up down target known_web)
              (set_finished ((epoch, UserKey.from (Flow.meta flow), up, down) :: finished w) (set_tokens rest w)))
  | LBatch f epoch packets =>
      flow ← flow_heap w !! f;
      _ ← guard (forallb (fun '(_, up, down) => u64 up && u64 down) packets);
      rest ← take_token f epoch (tokens w);
      Some (spawn (TBatch f epoch packets)
              (set_finished
                 (((fun '(_, up, down) => (epoch, UserKey.from (Flow.meta flow), up, down)) <$> packets) ++ finished w)
                 (set_tokens rest w)))
  | LCancel f epoch =>
      rest ← take_token f epoch (tokens w); Some (update_flow f Flow.leave (set_tokens rest w))
  | LClassify f epoch target domain app_protocol ech_present =>
      _ ← owned f w; Some (spawn (TClassify f epoch target domain app_protocol ech_present) w)
  | LDiscard f epoch target => _ ← owned f w; Some (spawn (TDiscard f epoch target) w)
  | LReserve f bytes require_active pending =>
      _ ← owned f w; _ ← guard (u64 bytes); Some (spawn (TReserve f bytes require_active pending) w)
  | LReleasePending f bytes =>
      flow ← flow_heap w !! f; _ ← guard ((0 <=? bytes) && (bytes <=? Flow.pending_held flow));
      Some (set_col (release_pending bytes (col w)) (update_flow f (Flow.hold (- bytes) 0) w))
  | LPromote f bytes =>
      flow ← flow_heap w !! f; _ ← guard ((0 <=? bytes) && (bytes <=? Flow.pending_held flow));
      Some (set_col (uncharge_pending bytes (col w)) (update_flow f (Flow.hold (- bytes) bytes) w))
  | LRelease f bytes =>
      flow ← flow_heap w !! f; _ ← guard ((0 <=? bytes) && (bytes <=? Flow.storage_held flow));
      Some (set_col (release bytes (col w)) (update_flow f (Flow.hold 0 (- bytes)) w))
  | LThread i now =>
      t ← threads w !! i;
      '(w, rest) ← thread_step now t w;
      Some (set_threads (partial_alter (fun _ => rest) i (threads w)) w)
  | LBeginSession => _ ← idle w; Some (set_col (begin_session (col w)) w)
  | LPause epoch => _ ← idle w; Some (pause epoch w)
  | LConfigure epoch config => _ ← idle w; Some (configure_start epoch config w)
  | LConfigureFlow key =>
      match work w with
      | WConfigure epoch todo =>
          _ ← guard (bool_decide (key ∈ todo));
          configure_flow key epoch (set_work (WConfigure epoch (todo ∖ {[key]})) w)
      | _ => None
      end
  | LConfigureEnd =>
      match work w with
      | WConfigure epoch todo => _ ← guard (bool_decide (todo = ∅)); Some (configure_end epoch w)
      | _ => None
      end
  | LSample now_unix => _ ← idle w; Some (sample_start now_unix w)
  | LSampleFlow key =>
      match work w with
      | WSample epoch now_unix bucket todo None =>
          _ ← guard (bool_decide (key ∈ todo)); sample_flow key epoch now_unix bucket todo w
      | _ => None
      end
  | LSampleDrain now =>
      match work w with
      | WSample epoch now_unix bucket todo (Some (key, s, finished)) =>
          sample_drain now epoch now_unix bucket todo key s finished w
      | _ => None
      end
  | LSampleEnd =>
      match work w with
      | WSample epoch now_unix bucket todo None => _ ← guard (bool_decide (todo = ∅)); Some (sample_end bucket w)
      | _ => None
      end
  | LNext epoch now =>
      _ ← idle w;
      let '(c, batch) := next now epoch (col w) in
      Some match batch with
           | Some b => let '(i, w) := fresh_id (set_col c w) in set_popped (<[i := b]> (popped w)) w
           | None => set_col c w
           end
  | LComplete i sent unix => with_popped i (complete sent unix) (fun b => Some (QueuedBatch.complete b)) w
  | LDropBatch i reason => with_popped i (drop_batch reason) (fun b => Some (QueuedBatch.complete b)) w
  | LFreeBatch i => with_popped i free_batch (fun _ => None) w
  end.

Fixpoint run (ls : list label) (w : World) : option World :=
  match ls with
  | [] => Some w
  | l :: ls => w ← step l w; run ls w
  end.

Definition reachable (w : World) : Prop := exists instance ls, run ls (world_new instance) = Some w.
End system.
