(* ===== verification/AnalysisBudget.v ===== *)
(** * Traffic analysis: the budget of the parts

    What a flow, a state or a row costs, and that every operation under a flow's
    lock changes the four counters of the budget by exactly the change of what it
    holds, whatever else is charged ([keeps]). *)

From Stdlib Require Import ZArith Lia.
From S2P Require Import Prelude Bytes Wire AnalysisConfig AnalysisData Collector Analysis.

Open Scope Z_scope.

Definition MEMORY_CAP : Z := 64 * 1024 * 1024.
Definition PENDING_CAP : Z := 16 * 1024 * 1024.

(** What a part is charged: memory, targets, pending targets, pending memory. *)
Record Load : Type := mkLoad { mem : Z; tgt : Z; ptg : Z; pmem : Z }.
Definition ladd (a b : Load) : Load := mkLoad (mem a + mem b) (tgt a + tgt b) (ptg a + ptg b) (pmem a + pmem b).
Definition load_zero : Load := mkLoad 0 0 0 0.

Definition target_load : Load := mkLoad TARGET_COST 1 0 0.
Definition pending_load : Load := mkLoad TARGET_COST 0 1 TARGET_COST.
Definition times (n : nat) (l : Load) : Load :=
  mkLoad (Z.of_nat n * mem l) (Z.of_nat n * tgt l) (Z.of_nat n * ptg l) (Z.of_nat n * pmem l).

Definition load_nonneg (l : Load) : Prop := 0 <= mem l /\ 0 <= tgt l /\ 0 <= ptg l /\ 0 <= pmem l.

(** The counters of [c] are exactly the charges of a part and of the rest. *)
Record covers (c : Collector) (l r : Load) : Prop := {
  cv_memory : Budget.memory (budget c) = mem l + mem r;
  cv_targets : Budget.targets (budget c) = tgt l + tgt r;
  cv_pending_targets : Budget.pending_targets (budget c) = ptg l + ptg r;
  cv_pending_memory : Budget.pending_memory (budget c) = pmem l + pmem r;
  cv_rest : load_nonneg r;
  cv_memory_cap : Budget.memory (budget c) <= MEMORY_CAP;
  cv_targets_cap : Budget.targets (budget c) <= 40000;
  cv_pending_targets_cap : Budget.pending_targets (budget c) <= MAX_PENDING_TARGETS;
  cv_pending_cap : Budget.pending_memory (budget c) <= PENDING_CAP;
  cv_limits : bounded (limits c)
}.

(** The parts of a load are not negative. *)
Ltac load_pos := unfold load_nonneg, times, target_load, pending_load, TARGET_COST in *; cbn in *; lia.

(** Everything but the budget and the statistics. *)
Record same_core (c c' : Collector) : Prop := {
  sc_instance : instance c' = instance c;
  sc_inner : inner c' = inner c;
  sc_registrations : registrations c' = registrations c;
  sc_active : active c' = active c;
  sc_limits : limits c' = limits c;
  sc_log : log c' = log c
}.

#[export] Instance same_core_preorder : PreOrder same_core.
Proof. split; [by intros c|]. intros a b c [] []. constructor; congruence. Qed.

(** ** Movements of the budget *)

Definition pay (m t p q : Z) (c : Collector) : Collector :=
  set_budget (fun b => Budget.mk (Budget.memory b + m) (Budget.targets b + t) (Budget.pending_targets b + p)
                         (Budget.pending_memory b + q)) c.

Lemma same_core_pay m t p q c : same_core c (pay m t p q c).
Proof. done. Qed.
Lemma same_core_stats g c : same_core c (set_stats g c).
Proof. done. Qed.

Lemma covers_stats g c l r : covers (set_stats g c) l r <-> covers c l r.
Proof. split; intros []; by constructor. Qed.

Lemma covers_eq c c' l l' r :
  covers c l r -> budget c' = budget c -> limits c' = limits c -> l' = l -> covers c' l' r.
Proof. intros [] E1 E2 ->. constructor; rewrite ?E1, ?E2; done. Qed.

Lemma covers_pay c l l' r m t p q :
  covers c l r ->
  l' = ladd l (mkLoad m t p q) ->
  Budget.memory (budget c) + m <= MEMORY_CAP -> Budget.targets (budget c) + t <= 40000 ->
  Budget.pending_targets (budget c) + p <= MAX_PENDING_TARGETS -> Budget.pending_memory (budget c) + q <= PENDING_CAP ->
  covers (pay m t p q c) l' r.
Proof. intros [] ->; intros. constructor; cbn; try done; lia. Qed.

(** Giving back what one has. *)
Lemma covers_refund c l l' r m t p q :
  covers c l r -> l' = ladd l (mkLoad (- m) (- t) (- p) (- q)) -> 0 <= m -> 0 <= t -> 0 <= p -> 0 <= q ->
  covers (pay (- m) (- t) (- p) (- q) c) l' r.
Proof. intros H E; intros. eapply covers_pay; [done..| | | |]; destruct H; lia. Qed.

Lemma charge_Some limit bytes current next :
  charge limit bytes current = Some next -> next = current + bytes /\ next <= limit /\ next <= u64_max.
Proof.
  unfold charge. destruct (Z.leb_spec (current + bytes) u64_max), (Z.leb_spec (current + bytes) limit); naive_solver.
Qed.

Lemma reserve_true bytes c c' :
  reserve bytes c = (c', true) ->
  c' = pay bytes 0 0 0 c /\ Budget.memory (budget c) + bytes <= Pb.TrafficAnalysisConfig.memory_max_bytes (limits c).
Proof.
  unfold reserve. destruct (charge _ _ _) as [next|] eqn:E; [|done]. intros [= <-].
  apply charge_Some in E as (-> & ? & ?). split; [|done]. unfold pay, set_budget, Budget.set_memory. cbn. f_equal.
  f_equal; lia.
Qed.

Lemma reserve_false bytes c c' : reserve bytes c = (c', false) -> c' = c.
Proof. unfold reserve. destruct (charge _ _ _); [done|]. by intros [= <-]. Qed.

Lemma release_pay bytes c :
  0 <= bytes <= Budget.memory (budget c) -> Budget.memory (budget c) <= u64_max -> release bytes c = pay (- bytes) 0 0 0 c.
Proof.
  intros. unfold release, pay, set_budget, Budget.set_memory. cbn. rewrite wrapping_sub64_small by lia. f_equal. f_equal; lia.
Qed.

Lemma uncharge_pay bytes c :
  0 <= bytes <= Budget.pending_memory (budget c) -> Budget.pending_memory (budget c) <= u64_max ->
  uncharge_pending bytes c = pay 0 0 0 (- bytes) c.
Proof.
  intros. unfold uncharge_pending, pay, set_budget, Budget.set_pending_memory. cbn.
  rewrite wrapping_sub64_small by lia. f_equal. f_equal; lia.
Qed.

Lemma pay_pay m t p q m' t' p' q' c : pay m t p q (pay m' t' p' q' c) = pay (m' + m) (t' + t) (p' + p) (q' + q) c.
Proof. unfold pay, set_budget. cbn. do 2 f_equal; lia. Qed.

Lemma pay_zero c : pay 0 0 0 0 c = c.
Proof. destruct c as [? ? ? ? ? [] ? ?]. unfold pay, set_budget. cbn. do 2 f_equal; lia. Qed.

Lemma budget_small c l r : covers c l r ->
  load_nonneg l ->
  0 <= Budget.memory (budget c) <= u64_max /\ 0 <= Budget.targets (budget c) <= u64_max /\
  0 <= Budget.pending_targets (budget c) <= u64_max /\ 0 <= Budget.pending_memory (budget c) <= u64_max.
Proof.
  intros [] (? & ? & ? & ?). destruct cv_rest0 as (? & ? & ? & ?).
  unfold MEMORY_CAP, PENDING_CAP, MAX_PENDING_TARGETS, u64_max in *. lia.
Qed.

Lemma memory_limit c l r : covers c l r ->
  Pb.TrafficAnalysisConfig.memory_max_bytes (limits c) <= MEMORY_CAP /\ pending_limit c <= PENDING_CAP.
Proof. intros []. destruct cv_limits0. unfold MEMORY_CAP, PENDING_CAP, pending_limit. lia. Qed.

(** ** The operations of the budget *)

Lemma reserve_covers bytes c c' ok l r :
  covers c l r -> 0 <= bytes -> reserve bytes c = (c', ok) ->
  same_core c c' /\ (if ok : bool then c' = pay bytes 0 0 0 c /\ covers c' (ladd l (mkLoad bytes 0 0 0)) r else c' = c).
Proof.
  intros H Hb E. destruct ok.
  - apply reserve_true in E as [-> Hl]. split; [done|]. split; [done|]. pose proof (memory_limit _ _ _ H).
    eapply covers_pay; [done..| | | |]; destruct H; lia.
  - apply reserve_false in E as ->. done.
Qed.

Lemma reserve_core bytes c : same_core c (reserve bytes c).1.
Proof. unfold reserve. by destruct (charge _ _ _). Qed.

Lemma reserve_pending_core bytes c : same_core c (reserve_pending bytes c).1.
Proof.
  unfold reserve_pending. destruct (charge _ _ _) as [next|]; [|done]. set (c1 := set_budget _ c).
  pose proof (reserve_core bytes c1) as H. destruct (reserve bytes c1) as [c2 []]; cbn in *;
    (transitivity c2; [transitivity c1; [done|exact H]|done]).
Qed.

Lemma reserve_target_core config c : same_core c (reserve_target config c).1.
Proof.
  unfold reserve_target. destruct (_ <? _); [|done]. set (c1 := set_budget _ c).
  pose proof (reserve_core TARGET_COST c1) as H. destruct (reserve TARGET_COST c1) as [c2 []]; cbn in *;
    (transitivity c2; [transitivity c1; [done|exact H]|done]).
Qed.

Lemma reserve_pending_target_core config c : same_core c (reserve_pending_target config c).1.
Proof.
  unfold reserve_pending_target. destruct (_ <? _); [|done]. set (c1 := set_budget _ c).
  pose proof (reserve_pending_core TARGET_COST c1) as H.
  destruct (reserve_pending TARGET_COST c1) as [c2 []]; cbn in *;
    (transitivity c2; [transitivity c1; [done|exact H]|done]).
Qed.

Lemma release_covers bytes c l r :
  covers c (ladd l (mkLoad bytes 0 0 0)) r -> 0 <= bytes -> load_nonneg l -> covers (release bytes c) l r.
Proof.
  intros H Hb Hl. assert (load_nonneg (ladd l (mkLoad bytes 0 0 0))) as Hn by load_pos.
  pose proof (budget_small _ _ _ H Hn). pose proof (cv_memory _ _ _ H) as E. pose proof (cv_rest _ _ _ H) as [? _].
  destruct Hl as (? & ? & ? & ?). cbn in E. rewrite release_pay by lia.
  eapply (covers_refund c _ l r bytes 0 0 0); [done| |lia..]. destruct l; unfold ladd; cbn. f_equal; lia.
Qed.

Lemma release_core bytes c : same_core c (release bytes c).
Proof. done. Qed.

Lemma uncharge_covers bytes c l r :
  covers c (ladd l (mkLoad 0 0 0 bytes)) r -> 0 <= bytes -> load_nonneg l -> covers (uncharge_pending bytes c) l r.
Proof.
  intros H Hb Hl. assert (load_nonneg (ladd l (mkLoad 0 0 0 bytes))) as Hn by load_pos.
  pose proof (budget_small _ _ _ H Hn). pose proof (cv_pending_memory _ _ _ H) as E. pose proof (cv_rest _ _ _ H) as (_ & _ & _ & ?).
  destruct Hl as (? & ? & ? & ?). cbn in E. rewrite uncharge_pay by lia.
  eapply (covers_refund c _ l r 0 0 0 bytes); [done| |lia..]. destruct l; unfold ladd; cbn. f_equal; lia.
Qed.

Lemma release_pending_covers bytes c l r :
  covers c (ladd l (mkLoad bytes 0 0 bytes)) r -> 0 <= bytes -> load_nonneg l -> covers (release_pending bytes c) l r.
Proof.
  intros H Hb Hl. unfold release_pending. apply release_covers; [|done..]. apply uncharge_covers; [|done|].
  - eapply covers_eq; [exact H|done..|]. unfold ladd; cbn. f_equal; lia.
  - load_pos.
Qed.

Lemma reserve_pending_covers bytes c c' ok l r :
  covers c l r -> load_nonneg l -> 0 <= bytes -> reserve_pending bytes c = (c', ok) ->
  same_core c c' /\ covers c' (if ok : bool then ladd l (mkLoad bytes 0 0 bytes) else l) r.
Proof.
  intros H Hl Hb. unfold reserve_pending. destruct (charge _ _ _) as [next|] eqn:Hc; [|by intros [= <- <-]].
  apply charge_Some in Hc as (-> & Hc & _).
  set (c1 := set_budget _ c). assert (c1 = pay 0 0 0 bytes c) as E1.
  { unfold c1, pay, set_budget, Budget.set_pending_memory. cbn. f_equal. f_equal; lia. }
  assert (covers c1 (ladd l (mkLoad 0 0 0 bytes)) r) as H1.
  { rewrite E1. pose proof (memory_limit _ _ _ H). eapply covers_pay; [done..| | | |]; destruct H; lia. }
  destruct (reserve bytes c1) as [c2 ok2] eqn:E2. destruct (reserve_covers _ _ _ _ _ _ H1 Hb E2) as [S2 R2].
  assert (same_core c c2) as S by (etransitivity; [|exact S2]; by rewrite E1). destruct ok2; intros [= <- <-].
  - split; [done|]. destruct R2 as [_ R2]. eapply covers_eq; [exact R2|done..|]. unfold ladd; cbn. f_equal; lia.
  - subst c2. split; [etransitivity; [exact S|done]|]. by apply uncharge_covers.
Qed.

(** Loads are equal when their components are. *)
Ltac load_eq := repeat match goal with |- context [ladd ?l _] => is_var l; destruct l end;
  unfold ladd, times, target_load, pending_load, load_zero, TARGET_COST; cbn; f_equal; try lia.

Lemma reserve_target_covers c c' ok l r :
  covers c l r -> load_nonneg l -> reserve_target (limits c) c = (c', ok) ->
  same_core c c' /\ covers c' (if ok : bool then ladd l target_load else l) r.
Proof.
  intros H Hl. unfold reserve_target.
  destruct (Z.ltb_spec (Budget.targets (budget c)) (Pb.TrafficAnalysisConfig.max_udp_targets (limits c))) as [Ht|];
    [|intros [= <- <-]; by rewrite covers_stats].
  set (c1 := set_budget _ c). assert (c1 = pay 0 1 0 0 c) as E1.
  { unfold c1, pay, set_budget, Budget.set_targets. cbn. f_equal. f_equal; lia. }
  assert (covers c1 (ladd l (mkLoad 0 1 0 0)) r) as H1.
  { rewrite E1. eapply covers_pay; [done..| | | |]; destruct H; destruct cv_limits0; lia. }
  destruct (reserve TARGET_COST c1) as [c2 ok2] eqn:E2.
  destruct (reserve_covers TARGET_COST _ _ _ _ _ H1 ltac:(done) E2) as [S2 R2].
  assert (same_core c c2) as S by (etransitivity; [|exact S2]; by rewrite E1). destruct ok2; intros [= <- <-].
  - split; [done|]. destruct R2 as [_ R2]. eapply covers_eq; [exact R2|done..|]. load_eq.
  - subst c2. split; [etransitivity; [exact S|done]|]. rewrite covers_stats. eapply covers_eq; [exact H| |by rewrite E1|done].
    rewrite E1. unfold pay, set_budget, Budget.set_targets. cbn.
    assert (load_nonneg (ladd l (mkLoad 0 1 0 0))) as Hl1 by load_pos.
    pose proof (budget_small _ _ _ H Hl). rewrite wrapping_sub64_small by lia. destruct (budget c); cbn. f_equal; lia.
Qed.

Lemma reserve_pending_target_covers c c' ok l r :
  covers c l r -> load_nonneg l -> reserve_pending_target (limits c) c = (c', ok) ->
  same_core c c' /\ covers c' (if ok : bool then ladd l pending_load else l) r.
Proof.
  intros H Hl. unfold reserve_pending_target.
  match goal with |- context [?a <? ?b] => destruct (Z.ltb_spec a b) as [Ht|] end;
    [|intros [= <- <-]; by rewrite covers_stats].
  set (c1 := set_budget _ c). assert (c1 = pay 0 0 1 0 c) as E1.
  { unfold c1, pay, set_budget, Budget.set_pending_targets. cbn. f_equal. f_equal; lia. }
  assert (load_nonneg (ladd l (mkLoad 0 0 1 0))) as Hl1 by load_pos.
  assert (covers c1 (ladd l (mkLoad 0 0 1 0)) r) as H1.
  { rewrite E1. eapply covers_pay; [done..| | | |]; destruct H; lia. }
  destruct (reserve_pending TARGET_COST c1) as [c2 ok2] eqn:E2.
  destruct (reserve_pending_covers TARGET_COST _ _ _ _ _ H1 Hl1 ltac:(done) E2) as [S2 R2].
  assert (same_core c c2) as S by (etransitivity; [|exact S2]; by rewrite E1). destruct ok2; intros [= <- <-].
  - split; [done|]. eapply covers_eq; [exact R2|done..|]. load_eq.
  - split; [etransitivity; [exact S|done]|]. rewrite covers_stats. pose proof (budget_small _ _ _ R2 Hl1) as Hs.
    destruct Hl as (? & ? & ? & ?), (cv_rest _ _ _ R2) as (? & ? & ? & ?).
    destruct R2 as [M T P Q]. unfold target_load, pending_load, TARGET_COST in *. cbn in *. constructor; cbn; rewrite ?wrapping_sub64_small by lia; try done; lia.
Qed.

Lemma drop_target_covers c l r : covers c (ladd l target_load) r -> load_nonneg l -> covers (drop_target c) l r.
Proof.
  intros H Hl. unfold drop_target. apply release_covers; [|done..].
  assert (load_nonneg (ladd l target_load)) as Hl1 by load_pos.
  pose proof (budget_small _ _ _ H Hl1). destruct Hl as (? & ? & ? & ?), (cv_rest _ _ _ H) as (? & ? & ? & ?).
  destruct H as [M T P Q]. unfold target_load, pending_load, TARGET_COST in *. cbn in *. constructor; cbn; rewrite ?wrapping_sub64_small by lia; try done; lia.
Qed.

Lemma drop_pending_target_covers c l r :
  covers c (ladd l pending_load) r -> load_nonneg l -> covers (drop_pending_target c) l r.
Proof.
  intros H Hl. unfold drop_pending_target. apply release_pending_covers; [|done..].
  assert (load_nonneg (ladd l pending_load)) as Hl1 by load_pos.
  pose proof (budget_small _ _ _ H Hl1). destruct Hl as (? & ? & ? & ?), (cv_rest _ _ _ H) as (? & ? & ? & ?).
  destruct H as [M T P Q]. unfold target_load, pending_load, TARGET_COST in *. cbn in *. constructor; cbn; rewrite ?wrapping_sub64_small by lia; try done; lia.
Qed.

Lemma drop_pending_targets_core n c : same_core c (drop_pending_targets n c).
Proof. induction n as [|n IH]; [done|]. etransitivity; [exact IH|]. done. Qed.
Lemma drop_targets_core n c : same_core c (drop_targets n c).
Proof. induction n as [|n IH]; [done|]. etransitivity; [exact IH|]. done. Qed.

Lemma drop_pending_targets_covers n c l r :
  covers c (ladd l (times n pending_load)) r -> load_nonneg l -> covers (drop_pending_targets n c) l r.
Proof.
  revert l. induction n as [|n IH]; intros l H Hl; cbn.
  - eapply covers_eq; [exact H|done..|]. load_eq.
  - apply drop_pending_target_covers; [|done]. apply IH; [|load_pos].
    eapply covers_eq; [exact H|done..|]. load_eq.
Qed.

Lemma drop_targets_covers n c l r :
  covers c (ladd l (times n target_load)) r -> load_nonneg l -> covers (drop_targets n c) l r.
Proof.
  revert l. induction n as [|n IH]; intros l H Hl; cbn.
  - eapply covers_eq; [exact H|done..|]. load_eq.
  - apply drop_target_covers; [|done]. apply IH; [|load_pos].
    eapply covers_eq; [exact H|done..|]. load_eq.
Qed.

(** ** Sections under a flow's lock *)

Definition flow_load (f : Flow.t) : Load :=
  mkLoad (Flow.cost f + Flow.pending_held f + Flow.storage_held f) 0 0
    ((if Flow.unseen f then Flow.cost f else 0) + Flow.pending_held f).

Definition state_load (s : FlowState.t) : Load :=
  ladd (times (size (PacketState.targets (FlowState.packets s))) target_load)
    (times (size (PacketState.pending (FlowState.packets s))) pending_load).

Record flow_ok (f : Flow.t) : Prop := {
  fo_cost : 0 <= Flow.cost f;
  fo_pending : 0 <= Flow.pending_held f;
  fo_storage : 0 <= Flow.storage_held f;
  fo_tcp : is_udp (Flow.meta f) = false -> Flow.web_seen f = true
}.

Definition charged (v : view) (r : Load) : Prop :=
  flow_ok v.1.2 /\ covers v.1.1 (ladd (flow_load v.1.2) (state_load v.2)) r.

(** What such a section leaves alone. *)
Record framed (v v' : view) : Prop := {
  fr_core : same_core v.1.1 v'.1.1;
  fr_meta : Flow.meta v'.1.2 = Flow.meta v.1.2;
  fr_state : Flow.state v'.1.2 = Flow.state v.1.2;
  fr_closed : Flow.closed v'.1.2 = Flow.closed v.1.2;
  fr_inflight : Flow.inflight v'.1.2 = Flow.inflight v.1.2;
  fr_owners : Flow.owners v'.1.2 = Flow.owners v.1.2;
  fr_epoch : FlowState.epoch v'.2 = FlowState.epoch v.2;
  fr_owner : FlowState.owner v'.2 = FlowState.owner v.2;
  fr_retired : PacketState.retired (packets_of v') = PacketState.retired (packets_of v)
}.

Definition keeps (v v' : view) : Prop := framed v v' /\ forall r, charged v r -> charged v' r.

#[export] Instance keeps_preorder : PreOrder keeps.
Proof.
  split; [split; [|done]; by constructor|].
  intros x y z [Fxy Kxy] [Fyz Kyz]. split; [|eauto].
  destruct Fxy, Fyz. constructor; try congruence. by etransitivity.
Qed.

Lemma flow_load_nonneg f : flow_ok f -> load_nonneg (flow_load f).
Proof. intros []. unfold load_nonneg. cbn. destruct (Flow.unseen f); lia. Qed.

Lemma state_load_nonneg s : load_nonneg (state_load s).
Proof. unfold load_nonneg, state_load, times, target_load, pending_load, TARGET_COST. cbn. lia. Qed.

Lemma ladd_nonneg a b : load_nonneg a -> load_nonneg b -> load_nonneg (ladd a b).
Proof. unfold load_nonneg. cbn. lia. Qed.

Lemma view_nonneg v r : charged v r -> load_nonneg (ladd (flow_load v.1.2) (state_load v.2)).
Proof. intros [Hf _]. apply ladd_nonneg; [by apply flow_load_nonneg|apply state_load_nonneg]. Qed.
#[export] Hint Resolve view_nonneg flow_load_nonneg state_load_nonneg ladd_nonneg : node.

(** A change of the state that keeps the number of its targets. *)
Lemma keeps_state c f s s' :
  FlowState.epoch s' = FlowState.epoch s -> FlowState.owner s' = FlowState.owner s ->
  PacketState.retired (FlowState.packets s') = PacketState.retired (FlowState.packets s) ->
  size (PacketState.targets (FlowState.packets s')) = size (PacketState.targets (FlowState.packets s)) ->
  size (PacketState.pending (FlowState.packets s')) = size (PacketState.pending (FlowState.packets s)) ->
  keeps (c, f, s) (c, f, s').
Proof.
  intros E1 E2 E3 E4 E5. split; [by constructor|]. intros r [Hf H]. split; [done|].
  eapply covers_eq; [exact H|done..|]. unfold state_load. cbn. by rewrite E4, E5.
Qed.

Lemma keeps_stats g v : keeps v (on_collector (set_stats g) v).
Proof.
  destruct v as [[c f] s]. split; [by constructor|]. intros r [Hf H]. split; [done|]. cbn in *. by rewrite covers_stats.
Qed.

Lemma mark_web_seen_keeps v : keeps v (mark_web_seen v).
Proof.
  destruct v as [[c f] s]. unfold mark_web_seen. destruct (Flow.web_seen f) eqn:Hw; [done|].
  split; [by constructor|]. intros r [Hf H]. cbn in *.
  assert (Flow.unseen f = true) as Hu.
  { unfold Flow.unseen. rewrite Hw. destruct (is_udp (Flow.meta f)) eqn:E; [done|]. destruct Hf as [_ _ _ Ht]. specialize (Ht E). congruence. }
  assert (Flow.unseen (Flow.see_web f) = false) as Hu' by (unfold Flow.unseen; cbn; apply andb_false_r).
  split; [by destruct Hf|]. cbn. pose proof (flow_load_nonneg f Hf) as Hn. apply uncharge_covers; [|by destruct Hf|].
  - eapply covers_eq; [exact H|done..|]. unfold flow_load, state_load. rewrite Hu, Hu'. cbn. unfold ladd. cbn. f_equal; lia.
  - apply ladd_nonneg; [|apply (state_load_nonneg (FlowState.set_started true s))]. apply flow_load_nonneg.
    destruct Hf. by constructor.
Qed.

Lemma keeps_packets g v :
  PacketState.retired (g (packets_of v)) = PacketState.retired (packets_of v) ->
  size (PacketState.targets (g (packets_of v))) = size (PacketState.targets (packets_of v)) ->
  size (PacketState.pending (g (packets_of v))) = size (PacketState.pending (packets_of v)) ->
  keeps v (on_packets g v).
Proof. destruct v as [[c f] s]. intros. by apply keeps_state. Qed.

Lemma record_web_packet_keeps up down t v : keeps v (record_web_packet up down t v).1.
Proof.
  unfold record_web_packet. destruct (_ && _); [done|]. destruct v as [[c f] s]. cbn -[mark_web_seen].
  etransitivity; [|apply mark_web_seen_keeps]. by apply keeps_state.
Qed.

Lemma record_unknown_web_keeps up down identified v : keeps v (record_unknown_web up down identified v).
Proof.
  unfold record_unknown_web. destruct (_ && _); [done|]. destruct v as [[c f] s].
  etransitivity; [|etransitivity; [apply mark_web_seen_keeps|by apply keeps_packets]]. by apply keeps_state.
Qed.

Lemma size_alter `{Countable K} {A} (g : A -> A) k (m : gmap K A) : size (alter g k m) = size m.
Proof.
  destruct (m !! k) as [x|] eqn:Hx.
  - assert (alter g k m = <[k := g x]> m) as ->; [|by rewrite map_size_insert_Some].
    apply map_eq. intros j. destruct (decide (j = k)) as [->|Hj].
    + by rewrite lookup_alter_eq, Hx, lookup_insert_eq.
    + by rewrite lookup_alter_ne, lookup_insert_ne.
  - f_equal. apply map_eq. intros j. destruct (decide (j = k)) as [->|Hj].
    + by rewrite lookup_alter_eq, Hx.
    + by rewrite lookup_alter_ne.
Qed.

Lemma size_filter_le `{Countable K} {A} (P : K * A -> Prop) `{forall x, Decision (P x)} (m : gmap K A) :
  (size (filter P m) <= size m)%nat.
Proof. rewrite <- !size_dom. apply subseteq_size, dom_filter_subseteq. Qed.

(** The packets change and so does what they are charged. *)
Lemma keeps_move c c' f s p' :
  same_core c c' -> PacketState.retired p' = PacketState.retired (FlowState.packets s) ->
  (forall l r, load_nonneg l ->
    covers c (ladd l (state_load s)) r -> covers c' (ladd l (state_load (FlowState.set_packets p' s))) r) ->
  keeps (c, f, s) (c', f, FlowState.set_packets p' s).
Proof.
  intros Sc Hr Hm. split; [by constructor|]. intros r [Hf H]. split; [done|]. apply Hm; [by apply flow_load_nonneg|done].
Qed.

Lemma expire_pending_keeps now v : keeps v (expire_pending now v).
Proof.
  destruct v as [[c f] s]. unfold expire_pending, packets_of. cbn -[drop_pending_targets].
  set (p := FlowState.packets s). set (kept := filter _ _).
  assert (size kept <= size (PacketState.pending p))%nat as Hle by apply size_filter_le.
  apply keeps_move; [apply drop_pending_targets_core|done|]. intros l r Hl H.
  apply drop_pending_targets_covers; [|auto using state_load_nonneg with node].
  eapply covers_eq; [exact H|done..|]. unfold state_load. cbn. fold p. load_eq.
Qed.

Lemma admit_initial_keeps target v : keeps v (admit_initial target v).
Proof.
  destruct v as [[c f] s]. unfold admit_initial. destruct (_ && _) eqn:Hc; [|done].
  apply andb_prop in Hc as [_ Hc]. apply negb_true_iff, bool_decide_eq_false, eq_None_not_Some in Hc.
  destruct (_ <=? _); [apply keeps_stats|]. destruct (reserve_target (limits c) c) as [c' ok] eqn:E.
  pose proof (reserve_target_core (limits c) c) as Sc. rewrite E in Sc.
  destruct ok.
  - apply keeps_move; [done..|]. intros l r Hl H.
    destruct (reserve_target_covers _ _ _ _ _ H ltac:(auto with node) E) as [_ H'].
    eapply covers_eq; [exact H'|done..|]. unfold state_load. cbn. rewrite map_size_insert_None by done. load_eq.
  - split; [by constructor|]. intros r [Hf H]. split; [done|].
    by destruct (reserve_target_covers _ _ _ _ _ H ltac:(auto with node) E).
Qed.

Lemma record_pending_keeps now target up down v : keeps v (record_pending now target up down v).
Proof.
  unfold record_pending. etransitivity; [apply (expire_pending_keeps now)|].
  destruct (expire_pending now v) as [[c f] s] eqn:Ev. clear Ev v.
  case_bool_decide as Hc; [apply keeps_packets; [done..|]; apply size_alter|]. apply eq_None_not_Some in Hc.
  destruct (_ <=? _); [apply keeps_stats|]. destruct (reserve_pending_target (limits c) c) as [c' ok] eqn:E.
  pose proof (reserve_pending_target_core (limits c) c) as Sc. rewrite E in Sc. destruct ok.
  - etransitivity; [|apply keeps_packets; [done..|]; apply size_alter]. apply keeps_move; [done..|]. intros l r Hl H.
    destruct (reserve_pending_target_covers _ _ _ _ _ H ltac:(auto with node) E) as [_ H'].
    eapply covers_eq; [exact H'|done..|]. unfold state_load. cbn. rewrite map_size_insert_None by done. load_eq.
  - split; [by constructor|]. intros r [Hf H]. split; [done|].
    by destruct (reserve_pending_target_covers _ _ _ _ _ H ltac:(auto with node) E).
Qed.

Lemma record_packet_keeps now target up down known_web v : keeps v (record_packet now target up down known_web v).
Proof.
  unfold record_packet. destruct (_ && _); [done|]. destruct (fenced v); [done|]. destruct target as [t|]; [|done].
  destruct (negb (valid_target t)); [destruct (valid_observation_string _); [done|apply keeps_stats]|].
  etransitivity; [apply (admit_initial_keeps t)|]. set (v1 := admit_initial t v).
  destruct (PacketState.targets (packets_of v1) !! t) as [state|] eqn:Ht.
  - pose proof (record_web_packet_keeps up down state v1) as K. destruct (record_web_packet up down state v1) as [v2 state'] eqn:E.
    etransitivity; [exact K|]. apply keeps_packets; [done| |done]. cbn. apply map_size_insert_Some.
    unfold record_web_packet in E. destruct (_ && _); [injection E as <- _; by exists state|].
    destruct v1 as [[c f] s]. injection E as <- _. exists state. unfold mark_web_seen. by destruct (Flow.web_seen f).
  - destruct (initial_web _ t), known_web; apply record_unknown_web_keeps || apply record_pending_keeps.
Qed.

Lemma promote_pending_unknown_keeps now pending identified v : keeps v (promote_pending_unknown now pending identified v).
Proof.
  unfold promote_pending_unknown. destruct pending as [p|]; [|done]. destruct (PendingCounters.recent now p); [|done].
  apply record_unknown_web_keeps.
Qed.

(** The reservation of a taken entry is charged to the caller. *)
Definition taken_load (pending : option PendingCounters.t) : Load :=
  match pending with Some _ => pending_load | None => load_zero end.

Lemma view_framed_trans v1 v2 v3 : framed v1 v2 -> framed v2 v3 -> framed v1 v3.
Proof. intros [] []. constructor; try congruence. by etransitivity. Qed.

Lemma take_pending_charged target v :
  framed v (take_pending target v).1 /\
  forall r, charged v r -> charged (take_pending target v).1 (ladd (taken_load (take_pending target v).2) r).
Proof.
  destruct v as [[c f] s]. unfold take_pending, packets_of. cbn. split; [by constructor|].
  intros r [Hf H]. split; [done|]. cbn in *. set (p := FlowState.packets s) in *.
  assert (size (delete target (PacketState.pending p)) =
          size (PacketState.pending p) - match PacketState.pending p !! target with Some _ => 1 | None => 0 end)%nat as Hs.
  { rewrite map_size_delete. destruct (PacketState.pending p !! target); cbn; lia. }
  assert (match PacketState.pending p !! target with Some _ => 1 | None => 0 end <= size (PacketState.pending p))%nat as Hle.
  { destruct (PacketState.pending p !! target) as [q|] eqn:Hq; [|lia]. destruct (size (PacketState.pending p)) eqn:Hz; [|lia]. apply map_size_empty_inv in Hz. rewrite Hz in Hq. by rewrite lookup_empty in Hq. }
  destruct H as [M T P Q R]. unfold state_load in *. cbn in *. fold p in M, T, P, Q. rewrite Hs.
  unfold taken_load. destruct (PacketState.pending p !! target); cbn in *; unfold TARGET_COST in *;
    (constructor; cbn; try done; first [lia|load_pos]).
Qed.

Lemma drop_taken_charged pending v r :
  charged v (ladd (taken_load pending) r) -> load_nonneg r -> charged (drop_taken pending v) r.
Proof.
  destruct v as [[c f] s]. unfold drop_taken. intros [Hf H] Hr. destruct pending as [q|]; cbn in *.
  - split; [done|]. cbn. apply drop_pending_target_covers; [|auto with node].
    destruct H as [M T P Q]. unfold load_nonneg in *. cbn in *. constructor; cbn; try done; lia.
  - split; [done|]. destruct H as [M T P Q]. cbn in *. constructor; cbn; try done; lia.
Qed.

Lemma framed_drop_taken pending v : framed v (drop_taken pending v).
Proof. destruct v as [[c f] s], pending; by constructor. Qed.

(** Inserting a target for the reservation just made. *)
Lemma insert_target_keeps c c' f s target state :
  reserve_target (limits c) c = (c', true) -> PacketState.targets (FlowState.packets s) !! target = None ->
  keeps (c, f, s) (on_packets (fun p => PacketState.set_targets (<[target := state]> (PacketState.targets p)) p) (c', f, s)).
Proof.
  intros E Hn. pose proof (reserve_target_core (limits c) c) as Sc. rewrite E in Sc.
  apply keeps_move; [done..|]. intros l r Hl H.
  destruct (reserve_target_covers _ _ _ _ _ H ltac:(auto with node) E) as [_ H'].
  eapply covers_eq; [exact H'|done..|]. unfold state_load. cbn. rewrite map_size_insert_None by done. load_eq.
Qed.

Lemma reserve_target_false_keeps c c' f s : reserve_target (limits c) c = (c', false) -> keeps (c, f, s) (c', f, s).
Proof.
  intros E. pose proof (reserve_target_core (limits c) c) as Sc. rewrite E in Sc. split; [by constructor|].
  intros r [Hf H]. split; [done|]. by destruct (reserve_target_covers _ _ _ _ _ H ltac:(auto with node) E).
Qed.

Lemma on_packets_swap g h v : (forall p, g (h p) = h (g p)) -> on_packets g (on_packets h v) = on_packets h (on_packets g v).
Proof. intros E. destruct v as [[c f] s]. unfold on_packets. cbn. by rewrite E. Qed.

(** Recording a packet does not depend on the targets of the state. *)
Lemma record_web_packet_targets up down t v g :
  on_packets (fun p => PacketState.set_targets (g (PacketState.targets p)) p) (record_web_packet up down t v).1 =
  (record_web_packet up down t (on_packets (fun p => PacketState.set_targets (g (PacketState.targets p)) p) v)).1.
Proof.
  destruct v as [[c f] s]. unfold record_web_packet. destruct (_ && _); [done|]. cbn. unfold mark_web_seen.
  by destruct (Flow.web_seen f).
Qed.

Lemma classify_web_keeps now target domain web ech_present pending v :
  PacketState.targets (packets_of v) !! target = None ->
  keeps v (classify_web now target domain web ech_present pending v).
Proof.
  intros Hn. destruct v as [[c f] s]. unfold classify_web.
  destruct (_ <=? _); [etransitivity; [apply (keeps_stats (Stats.limited "target_limit"))|apply promote_pending_unknown_keeps]|].
  destruct (reserve_target (limits c) c) as [c' ok] eqn:E. destruct ok; cbn [negb].
  - pose proof (fun state => insert_target_keeps c c' f s target state E Hn) as K.
    destruct pending as [q|]; [destruct (PendingCounters.recent now q)|]; try apply K.
    match goal with |- context [record_web_packet ?u ?d ?t ?v] =>
      pose proof (fun g => record_web_packet_targets u d t v g) as Hg; destruct (record_web_packet u d t v) as [v' t'] eqn:Ew end.
    etransitivity; [apply (K t')|]. specialize (Hg (<[target := t']>)). cbn in Hg. cbn. rewrite Hg. apply record_web_packet_keeps.
  - etransitivity; [by apply reserve_target_false_keeps|apply promote_pending_unknown_keeps].
Qed.

Lemma classify_locked_keeps now target domain app ech_present v : keeps v (classify_locked now target domain app ech_present v).
Proof.
  unfold classify_locked. destruct (fenced v); [done|]. destruct (_ || _) eqn:Hc; [done|].
  apply orb_false_iff in Hc as [Hc _]. apply bool_decide_eq_false, eq_None_not_Some in Hc.
  destruct (take_pending_charged target v) as [F1 K1]. destruct (take_pending target v) as [v1 pending] eqn:E1. cbn in F1, K1.
  assert (PacketState.targets (packets_of v1) !! target = None) as Hn.
  { destruct v as [[c f] s]. by injection E1 as <- <-. }
  set (v2 := match web_protocol app with None => v1 | Some web => classify_web now target domain web ech_present pending v1 end).
  assert (keeps v1 v2) as [F2 K2] by (unfold v2; destruct (web_protocol app); [by apply classify_web_keeps|done]).
  split; [eapply view_framed_trans; [exact F1|eapply view_framed_trans; [exact F2|apply framed_drop_taken]]|].
  intros r H. apply drop_taken_charged; [by apply K2, K1|]. destruct H as [_ []]. done.
Qed.

Lemma discard_locked_keeps target v : keeps v (discard_locked target v).
Proof.
  unfold discard_locked. destruct (take_pending_charged target v) as [F1 K1].
  destruct (take_pending target v) as [v1 pending]. cbn in *.
  split; [eapply view_framed_trans; [exact F1|apply framed_drop_taken]|]. intros r H. apply drop_taken_charged; [by apply K1|].
  destruct H as [_ []]. done.
Qed.
