(* ===== verification/AnalysisQueue.v ===== *)
(** * Traffic analysis: the budget of the minute being filled

    Aggregating a flow charges exactly the rows it adds ([fills]), and the bucket
    never holds more domain rows than the limit. *)

From Stdlib Require Import ZArith Lia.
From S2P Require Import Prelude Bytes Wire AnalysisConfig AnalysisData Collector Analysis AnalysisBudget.

Open Scope Z_scope.

Definition bucket_load (b : MinuteBucket.t) : Load := mkLoad (MinuteBucket.cost b) 0 0 0.

(** The cost of a bucket is that of its rows; its rows are filed under their keys. *)
Record bucket_ok (b : MinuteBucket.t) : Prop := {
  bo_cost : MinuteBucket.cost b =
    USER_COST * Z.of_nat (size (MinuteBucket.users b)) + DOMAIN_COST * Z.of_nat (size (MinuteBucket.domains b));
  bo_domains : Z.of_nat (size (MinuteBucket.domains b)) <= 20000;
  bo_users k row : MinuteBucket.users b !! k = Some row ->
    UserMinute.key row = k /\ UserMinute.minute_at_unix row = MinuteBucket.minute b
}.

Lemma bucket_load_nonneg b : bucket_ok b -> load_nonneg (bucket_load b).
Proof. intros [E _ _]. unfold load_nonneg, USER_COST, DOMAIN_COST in *. cbn. lia. Qed.
#[export] Hint Resolve bucket_load_nonneg : node.

Lemma bucket_new_ok minute : bucket_ok (MinuteBucket.new minute).
Proof. constructor; cbn; [done|done|]. intros k row. by rewrite lookup_empty. Qed.

(** What filling the minute keeps. *)
Record fills (x y : Collector * MinuteBucket.t) : Prop := {
  fi_core : same_core x.1 y.1;
  fi_minute : MinuteBucket.minute y.2 = MinuteBucket.minute x.2;
  fi_ok : bounded (limits x.1) -> bucket_ok x.2 -> bucket_ok y.2;
  fi_covers l r : load_nonneg l -> bucket_ok x.2 ->
    covers x.1 (ladd l (bucket_load x.2)) r -> covers y.1 (ladd l (bucket_load y.2)) r
}.

#[export] Instance fills_preorder : PreOrder fills.
Proof.
  split; [intros x; by constructor|]. intros x y z [S1 M1 O1 C1] [S2 M2 O2 C2].
  assert (bounded (limits x.1) -> bounded (limits y.1)) as Hb by (intros; by rewrite (sc_limits _ _ S1)).
  constructor; [by etransitivity|congruence|auto|]. intros l r Hl Ho H.
  apply C2; [done| |by apply C1]. apply O1; [|done]. by destruct H.
Qed.

Lemma fills_stats g c b : fills (c, b) (set_stats g c, b).
Proof. constructor; cbn; [done..|]. intros. by rewrite covers_stats. Qed.

(** Changing rows in place. *)
Lemma fills_rows c b b' :
  MinuteBucket.minute b' = MinuteBucket.minute b -> MinuteBucket.cost b' = MinuteBucket.cost b ->
  size (MinuteBucket.users b') = size (MinuteBucket.users b) ->
  size (MinuteBucket.domains b') = size (MinuteBucket.domains b) ->
  (bucket_ok b -> forall k row, MinuteBucket.users b' !! k = Some row ->
    UserMinute.key row = k /\ UserMinute.minute_at_unix row = MinuteBucket.minute b') ->
  fills (c, b) (c, b').
Proof.
  intros E1 E2 E3 E4 E5. constructor; cbn; [done..| |].
  - intros _ Ho. pose proof (E5 Ho). destruct Ho. constructor; [by rewrite E2, E3, E4|by rewrite E4|done].
  - intros l r _ _ H. unfold bucket_load. by rewrite E2.
Qed.

Lemma evict_spec key known b b' ok :
  evict key known b = (b', ok) -> MinuteBucket.domains b !! key = None ->
  MinuteBucket.minute b' = MinuteBucket.minute b /\ MinuteBucket.users b' = MinuteBucket.users b /\
  MinuteBucket.cost b' = MinuteBucket.cost b /\
  size (MinuteBucket.domains b') = size (MinuteBucket.domains b) /\
  (ok = true -> is_Some (MinuteBucket.domains b' !! key)).
Proof.
  intros E Hn. revert E. induction known as [|old known IH]; cbn; [by intros [= <- <-]|].
  destruct (MinuteBucket.domains b !! old) as [row|] eqn:Ho; [|done]. intros [= <- <-]. cbn.
  assert (old <> key) as Hne by congruence.
  split_and!; [done|done|lia| |intros _; rewrite lookup_insert_eq; eauto].
  rewrite map_size_insert_None.
  - rewrite size_alter, map_size_delete, Ho. cbn. destruct (size (MinuteBucket.domains b)) eqn:Hz; [|done].
    apply map_size_empty_inv in Hz. rewrite Hz in Ho. by rewrite lookup_empty in Ho.
  - destruct (decide (DomainKey.unknown (DomainKey.user old) = key)) as [->|Hk].
    + by rewrite lookup_alter_eq, lookup_delete_ne, Hn.
    + by rewrite lookup_alter_ne, lookup_delete_ne.
Qed.

(** A new domain row for the reservation just made. *)
Lemma new_domain_fills c c' key b :
  reserve DOMAIN_COST c = (c', true) -> domains_full c b = false -> MinuteBucket.domains b !! key = None ->
  fills (c, b) (c', new_domain key b).
Proof.
  intros E Hf Hn. pose proof (reserve_core DOMAIN_COST c) as Sc. rewrite E in Sc. constructor; cbn; [done|done| |].
  - intros [] []. unfold domains_full in Hf. apply Z.leb_gt in Hf.
    constructor; cbn; [|rewrite map_size_insert_None by done; lia|done].
    rewrite map_size_insert_None by done. unfold DOMAIN_COST in *. lia.
  - intros l r Hl Ho H. destruct (reserve_covers DOMAIN_COST _ _ _ _ _ H ltac:(done) E) as (_ & _ & H').
    eapply covers_eq; [exact H'|done..|]. unfold bucket_load. destruct l; unfold ladd; cbn. f_equal; lia.
Qed.

Lemma evict_fills reason key c b b' ok :
  evict key (MinuteBucket.known b) b = (b', ok) -> MinuteBucket.domains b !! key = None ->
  let c1 := set_stats (Stats.reason reason) c in fills (c, b) (if ok then set_stats Stats.add_limited c1 else c1, b').
Proof.
  intros Ev Hn c1. destruct (evict_spec _ _ _ _ _ Ev Hn) as (M & U & C & D & _).
  transitivity (c1, b); [apply fills_stats|]. transitivity (c1, b'); [|destruct ok; [apply fills_stats|done]].
  apply fills_rows; [done..|by rewrite U|done|]. intros [_ _ H] k row. rewrite U, M. apply H.
Qed.

Lemma ensure_unknown_fills user c b : fills (c, b) (ensure_unknown user (c, b)).1.
Proof.
  unfold ensure_unknown. case_bool_decide as Hc; [done|]. apply eq_None_not_Some in Hc.
  set (key := DomainKey.unknown user) in *. destruct (domains_full c b) eqn:Hf.
  - destruct (evict key (MinuteBucket.known b) b) as [b' ok] eqn:Ev. by apply (evict_fills _ key).
  - destruct (reserve DOMAIN_COST c) as [c' ok] eqn:Er. destruct ok; cbn; [by apply new_domain_fills|].
    apply reserve_false in Er as ->. destruct (evict key (MinuteBucket.known b) b) as [b' ok] eqn:Ev.
    by apply (evict_fills _ key).
Qed.

Lemma add_to_row_fills key up down started c b : fills (c, b) (c, add_to_row key up down started b).
Proof. apply fills_rows; cbn; [done..|by rewrite size_alter|]. intros [_ _ H]. done. Qed.

Lemma push_known_fills l c b : fills (c, b) (c, MinuteBucket.set_known l b).
Proof. apply fills_rows; cbn; [done..|]. intros [_ _ H]. done. Qed.

(** The first half of [add_domain]: the row the bytes go to. *)
Lemma add_domain_fills key up down started c b : fills (c, b) (add_domain key up down started (c, b)).
Proof.
  unfold add_domain. destruct (_ && _ && _); [done|].
  set (choice := if negb _ && _ then _ else (c, b, key)).
  assert (fills (c, b) choice.1) as F.
  { unfold choice. destruct (_ && _) eqn:Hc; [|done]. apply andb_prop in Hc as [Hc _].
    apply negb_true_iff, bool_decide_eq_false, eq_None_not_Some in Hc. destruct (domains_full c b) eqn:Hf; [apply fills_stats|].
    destruct (reserve DOMAIN_COST c) as [c' ok] eqn:Er. destruct ok; cbn.
    - etransitivity; [by apply new_domain_fills|apply push_known_fills].
    - apply reserve_false in Er as ->. apply fills_stats. }
  destruct choice as [[c1 b1] k1]. cbn in F. etransitivity; [exact F|].
  case_bool_decide; [apply add_to_row_fills|]. pose proof (ensure_unknown_fills (DomainKey.user k1) c1 b1) as F2.
  destruct (ensure_unknown (DomainKey.user k1) (c1, b1)) as [[c2 b2] found]. cbn in F2. etransitivity; [exact F2|].
  destruct found; [apply add_to_row_fills|apply fills_stats].
Qed.

Lemma on_user_fills user g c b :
  (forall row, UserMinute.key (g row) = UserMinute.key row /\ UserMinute.minute_at_unix (g row) = UserMinute.minute_at_unix row) ->
  fills (c, b) (c, on_user user g b).
Proof.
  intros Hg. apply fills_rows; cbn; [done|done|by rewrite size_alter|done|]. intros [_ _ H] k row. rewrite lookup_alter.
  destruct (decide (user = k)) as [->|]; [|by rewrite ?decide_False by done; apply H]. rewrite ?decide_True by done.
  destruct (MinuteBucket.users b !! k) as [old|] eqn:Ho; cbn; [|done]. intros [= <-].
  destruct (Hg old) as [-> ->]. by apply H.
Qed.

Lemma ensure_user_fills user nonzero c b : fills (c, b) (ensure_user user nonzero (c, b)).
Proof.
  unfold ensure_user. destruct (_ || _) eqn:Hc; [done|]. apply orb_false_iff in Hc as [Hc _].
  apply bool_decide_eq_false, eq_None_not_Some in Hc. destruct (reserve USER_COST c) as [c' ok] eqn:Er.
  pose proof (reserve_core USER_COST c) as Sc. rewrite Er in Sc. destruct ok; [|apply reserve_false in Er as ->; done].
  etransitivity; [|apply ensure_unknown_fills]. constructor; cbn; [done|done| |].
  - intros _ [E D U]. constructor; cbn; [rewrite map_size_insert_None by done; unfold USER_COST in *; lia|done|].
    intros k row. destruct (decide (user = k)) as [->|Hk]; [|rewrite lookup_insert_ne by done; apply U].
    rewrite lookup_insert_eq. intros [= <-]. by destruct k.
  - intros l r Hl Ho H. destruct (reserve_covers USER_COST _ _ _ _ _ H ltac:(done) Er) as (_ & _ & H').
    eapply covers_eq; [exact H'|done..|]. unfold bucket_load. destruct l; unfold ladd; cbn. f_equal; lia.
Qed.

Section aggregation.
Context {Env : AnalysisEnv}.

Lemma place_sample_fills meta retained acc s : fills acc.1 (place_sample meta retained acc s).1.
Proof.
  destruct acc as [[c b] i]. unfold place_sample. destruct retained; [|done].
  pose proof (add_domain_fills (sample_key meta s) (Sample.up s) (Sample.down s) (Sample.started s) c b) as F.
  by destruct (add_domain _ _ _ _ _).
Qed.

Lemma place_samples_fills meta retained samples acc : fills acc.1 (foldl (place_sample meta retained) acc samples).1.
Proof.
  revert acc. induction samples as [|s samples IH]; intros acc; [done|]. etransitivity; [apply place_sample_fills|apply IH].
Qed.

Lemma place_domains_fills meta d retained cb : fills cb (place_domains meta d retained cb).1.
Proof.
  unfold place_domains. destruct (is_udp meta).
  - pose proof (place_samples_fills meta retained (Drained.samples d) (cb, Counters.zero)) as F.
    destruct (foldl _ _ _) as [[c b] i]. cbn in F. etransitivity; [exact F|]. destruct retained; [|done].
    match goal with |- context [add_domain ?k ?u ?v ?z (c, b)] => pose proof (add_domain_fills k u v z c b) as F2;
      by destruct (add_domain k u v z (c, b)) end.
  - destruct (Drained.nonzero d); [|done]. destruct retained, cb as [c b]; [|done].
    match goal with |- context [add_domain ?k ?u ?v ?z (c, b)] => pose proof (add_domain_fills k u v z c b) as F2;
      by destruct (add_domain k u v z (c, b)) end.
Qed.

Lemma aggregate_fills meta d cb : fills cb (aggregate meta d cb).
Proof.
  destruct cb as [c b]. unfold aggregate. set (user := UserKey.from meta).
  pose proof (ensure_user_fills user (Drained.nonzero d) c b) as F1. destruct (ensure_user _ _ _) as [c1 b1].
  etransitivity; [exact F1|]. set (retained := bool_decide _).
  set (cb2 := if retained then _ else _). assert (fills (c1, b1) cb2) as F2.
  { unfold cb2. destruct retained; [by apply on_user_fills|]. destruct (Drained.nonzero d); [apply fills_stats|done]. }
  etransitivity; [exact F2|]. destruct cb2 as [c2 b2]. pose proof (place_domains_fills meta d retained (c2, b2)) as F3.
  destruct (place_domains _ _ _ _) as [[c3 b3] i]. etransitivity; [exact F3|]. by apply on_user_fills.
Qed.
End aggregation.

(** ** Traffic analysis: the queue of batches

    Sealing a minute and enqueueing, discarding and handing out batches charge
    exactly what the queue holds; a queued batch is within the limits and belongs
    to the current session. *)

Open Scope Z_scope.

Local Abbreviation batch_max_entries := Pb.TrafficAnalysisConfig.batch_max_entries.
Local Abbreviation batch_max_bytes := Pb.TrafficAnalysisConfig.batch_max_bytes.
Local Abbreviation queue_max_bytes := Pb.TrafficAnalysisConfig.queue_max_bytes.

Section queue.
Context {Env : AnalysisEnv}.

(** A batch that waits to be sent. *)
Record batch_ok (c : Collector) (b : QueuedBatch.t) : Prop := {
  ba_entries : 1 <= entries (QueuedBatch.message b) <= batch_max_entries (limits c);
  ba_bytes : encoded_len (QueuedBatch.message b) <= batch_max_bytes (limits c);
  ba_epoch : Batch.epoch (QueuedBatch.message b) = Inner.epoch (inner c);
  ba_instance : Batch.agent_instance_id (QueuedBatch.message b) = instance c;
  ba_cost : QueuedBatch.cost b = batch_cost (QueuedBatch.message b);
  ba_window : QueuedBatch.ready_at b <= QueuedBatch.expires_at b;
  ba_open : QueuedBatch.completed b = false
}.

Definition queue_cost (q : list QueuedBatch.t) : Z := total QueuedBatch.cost q.
Definition queue_load (c : Collector) : Load := mkLoad (queue_cost (Inner.queue (inner c))) 0 0 0.

Record queue_ok (c : Collector) : Prop := {
  qo_bytes : Inner.queue_bytes (inner c) = queue_cost (Inner.queue (inner c));
  qo_cap : Inner.queue_bytes (inner c) <= queue_max_bytes (limits c);
  qo_batches : Forall (batch_ok c) (Inner.queue (inner c))
}.

(** Everything but the queue, the sequence, the budget, the statistics and the log. *)
Record same_session (c c' : Collector) : Prop := {
  ss_instance : instance c' = instance c;
  ss_registrations : registrations c' = registrations c;
  ss_active : active c' = active c;
  ss_limits : limits c' = limits c;
  ss_epoch : Inner.epoch (inner c') = Inner.epoch (inner c);
  ss_open : Inner.session_open (inner c') = Inner.session_open (inner c);
  ss_configured : Inner.configured (inner c') = Inner.configured (inner c);
  ss_flows : Inner.flows (inner c') = Inner.flows (inner c);
  ss_bucket : Inner.bucket (inner c') = Inner.bucket (inner c)
}.

#[local] Instance same_session_preorder : PreOrder same_session.
Proof. split; [by intros c|]. intros a b c [] []. constructor; congruence. Qed.

Lemma same_core_session c c' : same_core c c' -> same_session c c'.
Proof. intros [? E ? ? ? ?]. constructor; rewrite ?E; congruence. Qed.

Lemma batch_ok_session c c' b : same_session c c' -> batch_ok c b -> batch_ok c' b.
Proof. intros [] []. constructor; congruence. Qed.

(** What a batch's correctness depends on. *)
Lemma batch_ok_session' c c' b :
  instance c' = instance c -> limits c' = limits c -> Inner.epoch (inner c') = Inner.epoch (inner c) ->
  batch_ok c b -> batch_ok c' b.
Proof. intros ? ? ? []. constructor; congruence. Qed.

Lemma entries_nonneg m : 0 <= entries m.
Proof. unfold entries. lia. Qed.

Lemma batch_cost_nonneg m : 0 <= batch_cost m.
Proof. unfold batch_cost. pose proof (encoded_len_nonneg m). pose proof (entries_nonneg m). lia. Qed.

Lemma queue_cost_nonneg c : Forall (batch_ok c) (Inner.queue (inner c)) -> 0 <= queue_cost (Inner.queue (inner c)).
Proof.
  intros H. apply total_nonneg. intros b Hb. rewrite Forall_forall in H. rewrite (ba_cost _ _ (H b Hb)). apply batch_cost_nonneg.
Qed.

(** What the operations on the queue keep. *)
Record queues (c c' : Collector) : Prop := {
  qs_session : same_session c c';
  qs_ok : bounded (limits c) -> queue_ok c -> queue_ok c';
  qs_covers l r : queue_ok c -> load_nonneg l -> covers c (ladd l (queue_load c)) r -> covers c' (ladd l (queue_load c')) r
}.

#[local] Instance queues_preorder : PreOrder queues.
Proof.
  split; [by intros c; constructor|]. intros x y z [S1 O1 C1] [S2 O2 C2].
  constructor; [by etransitivity| |].
  - intros Hb Hq. apply O2; [by rewrite (ss_limits _ _ S1)|auto].
  - intros l r Hq Hl H. apply C2; [|done|by apply C1]. apply O1; [|done]. by destruct H.
Qed.

Lemma queues_core c c' :
  same_core c c' -> (forall l r, load_nonneg l -> covers c l r -> covers c' l r) -> queues c c'.
Proof.
  intros Sc H. destruct Sc as [I N R A L G]. constructor.
  - apply same_core_session. by constructor.
  - intros _ []. constructor; rewrite ?N, ?L; try done. eapply Forall_impl; [done|]. intros b Hb.
    eapply batch_ok_session; [|exact Hb]. apply same_core_session. by constructor.
  - intros l r [_ _ Hb] Hl Hc. unfold queue_load. rewrite N. apply H; [|done].
    pose proof (queue_cost_nonneg _ Hb). load_pos.
Qed.

Lemma queues_stats g c : queues c (set_stats g c).
Proof. apply queues_core; [done|]. intros l r _ H. by rewrite covers_stats. Qed.

Lemma set_sequence_queues z c : queues c (set_inner (Inner.set_sequence z) c).
Proof.
  constructor; [done| |].
  - intros _ []. constructor; cbn; [done..|]. eapply Forall_impl; [done|]. intros b.
    by apply batch_ok_session.
  - intros l r _ _ []. by constructor.
Qed.

Lemma new_message_queues now c : queues c (new_message now c).1.
Proof. apply set_sequence_queues. Qed.

(** ** Enqueueing *)

(** A message under construction. *)
Record message_ok (c : Collector) (m : Batch.t) : Prop := {
  me_epoch : Batch.epoch m = Inner.epoch (inner c);
  me_instance : Batch.agent_instance_id m = instance c;
  me_entries : entries m <= batch_max_entries (limits c)
}.

Lemma message_ok_session c c' m : same_session c c' -> message_ok c m -> message_ok c' m.
Proof. intros [] []. constructor; congruence. Qed.

Lemma new_message_ok now c : bounded (limits c) -> message_ok (new_message now c).1 (new_message now c).2.
Proof. intros []. constructor; cbn; [done..|]. unfold entries. cbn. lia. Qed.

Lemma enqueue_queues now m c : message_ok c m -> queues c (enqueue now m c).
Proof.
  intros Hm. unfold enqueue. destruct (Z.eqb_spec (entries m) 0) as [|He]; [done|].
  destruct (Z.ltb_spec (batch_max_bytes (limits c)) (encoded_len m)) as [|Hl]; [apply queues_stats|].
  destruct (Z.ltb_spec (queue_max_bytes (limits c)) (sat u64_max (Inner.queue_bytes (inner c) + batch_cost m))) as [|Hq];
    [apply queues_stats|].
  destruct (reserve (batch_cost m) c) as [c' ok] eqn:Er. destruct ok; [|apply reserve_false in Er as ->; apply queues_stats].
  destruct (reserve_true _ _ _ Er) as [-> _]. pose proof (batch_cost_nonneg m) as Hb. constructor; [done| |].
  - intros Hlim [E C B]. assert (Inner.queue_bytes (inner c) + batch_cost m <= queue_max_bytes (limits c)) as Hle.
    { unfold sat, u64_max in Hq. destruct Hlim. lia. }
    constructor; cbn -[queue_cost]; [rewrite E; unfold queue_cost; rewrite total_app; cbn; lia|done|].
    apply Forall_app. split; [eapply Forall_impl; [exact B|]; intros b; by apply batch_ok_session|].
    apply Forall_singleton. destruct Hm. pose proof (entries_nonneg m). constructor; cbn; [lia|done..|lia|done].
  - intros l r Hok Hl' H. destruct (reserve_covers (batch_cost m) _ _ _ _ _ H Hb Er) as (_ & _ & H').
    eapply covers_eq; [exact H'|done..|]. unfold queue_load, queue_cost. cbn -[total]. rewrite total_app. cbn.
    destruct l; unfold ladd; cbn; f_equal; lia.
Qed.

(** ** Sealing *)

Lemma place_queues now row_len push c m size :
  (forall m, Batch.epoch (push m) = Batch.epoch m /\ Batch.agent_instance_id (push m) = Batch.agent_instance_id m /\
    entries (push m) = entries m + 1) ->
  bounded (limits c) -> message_ok c m ->
  let st := place now row_len push (c, m, size) in queues c st.1.1 /\ message_ok st.1.1 st.1.2.
Proof.
  intros Hp Hb Hm. unfold place. destruct (_ || _) eqn:Hc.
  - pose proof (enqueue_queues now m c Hm) as H1. set (c1 := enqueue now m c) in *.
    assert (bounded (limits c1)) as Hb1 by (rewrite (ss_limits _ _ (qs_session _ _ H1)); done).
    pose proof (new_message_queues now c1) as H2. pose proof (new_message_ok now c1 Hb1) as M2. cbn in *.
    split; [by etransitivity|]. destruct M2 as [E I _]. destruct (Hp (new_message now c1).2) as (P1 & P2 & P3). cbn in *.
    constructor; cbn; [exact P1|exact P2|]. rewrite P3. unfold entries. cbn. destruct Hb1. lia.
  - apply orb_false_iff in Hc as [Hc _]. apply Z.leb_gt in Hc. destruct (Hp m) as (P1 & P2 & P3). destruct Hm.
    split; [done|]. constructor; cbn; [congruence..|lia].
Qed.

Lemma place_user_queues now c m size row : bounded (limits c) -> message_ok c m ->
  let st := place_user now (c, m, size) row in queues c st.1.1 /\ message_ok st.1.1 st.1.2.
Proof.
  intros. apply place_queues; [|done..]. intros m'. split_and!; [done..|]. unfold entries. cbn. rewrite length_app. cbn. lia.
Qed.

Lemma place_domain_queues now c m size row : bounded (limits c) -> message_ok c m ->
  let st := place_domain now (c, m, size) row in queues c st.1.1 /\ message_ok st.1.1 st.1.2.
Proof.
  intros Hb Hm. unfold place_domain. destruct (idle_row row); [done|].
  apply place_queues; [|done..]. intros m'. split_and!; [done..|]. unfold entries. cbn. rewrite length_app. cbn. lia.
Qed.

Lemma places_queues {A} (f : Collector * Batch.t * Z -> A -> Collector * Batch.t * Z) rows :
  (forall c m size row, bounded (limits c) -> message_ok c m ->
    let st := f (c, m, size) row in queues c st.1.1 /\ message_ok st.1.1 st.1.2) ->
  forall st, bounded (limits st.1.1) -> message_ok st.1.1 st.1.2 ->
  queues st.1.1 (foldl f st rows).1.1 /\ message_ok (foldl f st rows).1.1 (foldl f st rows).1.2.
Proof.
  intros Hf. induction rows as [|row rows IH]; intros [[c m] size] Hb Hm; [done|]. cbn in *.
  destruct (Hf c m size row Hb Hm) as [Q M].
  destruct (IH (f (c, m, size) row)) as [Q' M']; [by rewrite (ss_limits _ _ (qs_session _ _ Q))|done|].
  split; [by etransitivity|done].
Qed.

(** The messages of a minute, all rows placed, before the last one is queued. *)
Definition placed (now : Z) (b : MinuteBucket.t) (c : Collector) : Collector * Batch.t * Z :=
  let st := new_message now c in
  foldl (place_domain now)
    (foldl (place_user now) (st.1, st.2, encoded_len st.2) (hash_users (MinuteBucket.users b)).*2)
    (hash_domains (MinuteBucket.domains b)).*2.

Lemma seal_placed now b c :
  seal now b c = release (MinuteBucket.cost b) (enqueue now (placed now b c).1.2 (placed now b c).1.1).
Proof. unfold seal, placed. cbn. by destruct (foldl (place_domain now) _ _) as [[c' m'] z]. Qed.

Lemma placed_queues now b c : bounded (limits c) ->
  queues c (placed now b c).1.1 /\ message_ok (placed now b c).1.1 (placed now b c).1.2.
Proof.
  intros Hb. unfold placed. pose proof (new_message_queues now c) as Q0. pose proof (new_message_ok now c Hb) as M0.
  assert (bounded (limits (new_message now c).1)) as Hb0 by done.
  set (st0 := ((new_message now c).1, (new_message now c).2, encoded_len (new_message now c).2)).
  destruct (places_queues (place_user now) (hash_users (MinuteBucket.users b)).*2
    (place_user_queues now) st0 Hb0 M0) as [Q1 M1].
  set (st1 := foldl (place_user now) st0 _) in *.
  assert (bounded (limits st1.1.1)) as Hb1 by (rewrite (ss_limits _ _ (qs_session _ _ Q1)); done).
  destruct (places_queues (place_domain now) (hash_domains (MinuteBucket.domains b)).*2
    (place_domain_queues now) st1 Hb1 M1) as [Q2 M2].
  split; [|done]. etransitivity; [exact Q0|]. etransitivity; [exact Q1|exact Q2].
Qed.

Lemma seal_session now b c : bounded (limits c) -> same_session c (seal now b c) /\ (queue_ok c -> queue_ok (seal now b c)).
Proof.
  intros Hb. rewrite seal_placed. destruct (placed_queues now b c Hb) as [Q M].
  pose proof (enqueue_queues now _ _ M) as Q'. assert (queues c (enqueue now (placed now b c).1.2 (placed now b c).1.1)) as Q2
    by (by etransitivity). split; [etransitivity; [apply Q2|done]|]. intros Hq. destruct (qs_ok _ _ Q2 Hb Hq) as [E C B].
  constructor; cbn; [done..|]. eapply Forall_impl; [exact B|]. intros x. by apply batch_ok_session.
Qed.

(** Sealing gives back the cost of the bucket. *)
Lemma seal_covers now b c l r :
  queue_ok c -> bucket_ok b -> load_nonneg l ->
  covers c (ladd (ladd l (bucket_load b)) (queue_load c)) r ->
  covers (seal now b c) (ladd l (queue_load (seal now b c))) r.
Proof.
  intros Hq Hbk Hl H. assert (bounded (limits c)) as Hb by by destruct H. rewrite seal_placed.
  destruct (placed_queues now b c Hb) as [Q M]. pose proof (enqueue_queues now _ _ M) as Q'.
  set (c1 := enqueue now _ _) in *. assert (queues c c1) as Q2 by (by etransitivity).
  apply (qs_covers _ _ Q2) in H; [|done|auto with node]. pose proof (qs_ok _ _ Q2 Hb Hq) as [_ _ B1].
  pose proof (queue_cost_nonneg _ B1). pose proof (bucket_load_nonneg b Hbk) as Hbl.
  assert (queue_load (release (MinuteBucket.cost b) c1) = queue_load c1) as -> by done.
  apply release_covers; [|load_pos|unfold queue_load; load_pos].
  eapply covers_eq; [exact H|done..|]. unfold bucket_load, queue_load, ladd. cbn. f_equal; lia.
Qed.

(** ** Batches that leave the queue *)

Lemma queue_costs c : queue_ok c -> Forall (fun b => 0 <= QueuedBatch.cost b) (Inner.queue (inner c)).
Proof.
  intros [_ _ B]. eapply Forall_impl; [exact B|]. intros b Hb. rewrite (ba_cost _ _ Hb). apply batch_cost_nonneg.
Qed.

Lemma drop_batch_core reason b c : same_core c (drop_batch reason b c).
Proof. unfold drop_batch. by destruct (QueuedBatch.completed b). Qed.

Lemma drop_batch_covers reason b c l r : covers (drop_batch reason b c) l r <-> covers c l r.
Proof. unfold drop_batch. destruct (QueuedBatch.completed b); [done|]. apply covers_stats. Qed.

Lemma complete_core sent unix b c : same_core c (complete sent unix b c).
Proof.
  unfold complete. destruct sent; cbn; [|apply drop_batch_core]. by destruct (QueuedBatch.completed b).
Qed.

Lemma complete_covers sent unix b c l r : covers (complete sent unix b c) l r <-> covers c l r.
Proof.
  unfold complete. destruct sent; cbn; [|apply drop_batch_covers]. destruct (QueuedBatch.completed b); [done|]. apply covers_stats.
Qed.

Lemma free_batch_core b c : same_core c (free_batch b c).
Proof. unfold free_batch. etransitivity; [apply (drop_batch_core "session_reset" b)|apply release_core]. Qed.

Lemma free_batch_covers b c l r :
  covers c (ladd l (mkLoad (QueuedBatch.cost b) 0 0 0)) r -> 0 <= QueuedBatch.cost b -> load_nonneg l ->
  covers (free_batch b c) l r.
Proof. intros H ? ?. unfold free_batch. apply release_covers; [|done..]. by rewrite drop_batch_covers. Qed.

Lemma free_batches_core q c : same_core c (foldl (fun c b => free_batch b c) c q).
Proof. revert c. induction q as [|b q IH]; intros c; [done|]. etransitivity; [apply (free_batch_core b)|apply IH]. Qed.

Lemma free_batches_covers q c l r :
  covers c (ladd l (mkLoad (queue_cost q) 0 0 0)) r -> Forall (fun b => 0 <= QueuedBatch.cost b) q -> load_nonneg l ->
  covers (foldl (fun c b => free_batch b c) c q) l r.
Proof.
  revert c l. induction q as [|b q IH]; intros c l H Hq Hl; cbn -[queue_cost] in *.
  - eapply covers_eq; [exact H|done..|]. destruct l; unfold ladd; cbn. f_equal; lia.
  - apply Forall_cons in Hq as [Hb Hq]. apply IH; [|done..].
    assert (0 <= queue_cost q) by (apply total_nonneg; intros x; by rewrite Forall_forall in Hq; apply Hq).
    apply free_batch_covers; [|done|load_pos]. eapply covers_eq; [exact H|done..|].
    change (queue_cost (b :: q)) with (QueuedBatch.cost b + queue_cost q). unfold ladd. cbn -[queue_cost]. f_equal; lia.
Qed.

(** Everything but the bucket, the queue, the budget and the statistics. *)
Definition bucket_part (c : Collector) : Load :=
  match Inner.bucket (inner c) with Some b => bucket_load b | None => load_zero end.

Record discards (c c' : Collector) : Prop := {
  ds_instance : instance c' = instance c;
  ds_inner : inner c' = Inner.set_queue [] 0 (Inner.set_bucket None (inner c));
  ds_registrations : registrations c' = registrations c;
  ds_active : active c' = active c;
  ds_limits : limits c' = limits c;
  ds_log : log c' = log c
}.

Lemma discard_buffered_discards c : discards c (discard_buffered c).
Proof.
  unfold discard_buffered. destruct (Inner.bucket (inner c)) as [b|] eqn:Hb.
  - set (c1 := release _ _).
    assert (same_core (set_inner (Inner.set_bucket None) c) c1) as [I N R A L G].
    { unfold c1. etransitivity; [|apply release_core]. destruct (0 <? _); done. }
    destruct (free_batches_core (Inner.queue (inner c1)) c1) as [I' N' R' A' L' G'].
    constructor; cbn; try rewrite N'; try rewrite N; cbn in *; congruence.
  - destruct (free_batches_core (Inner.queue (inner c)) c) as [I' N' R' A' L' G'].
    constructor; cbn; try rewrite N'; try congruence. destruct (inner c); cbn in *. by subst.
Qed.

Lemma discard_buffered_covers c l r :
  Forall (fun b => 0 <= QueuedBatch.cost b) (Inner.queue (inner c)) -> (forall b, Inner.bucket (inner c) = Some b -> bucket_ok b) -> load_nonneg l ->
  covers c (ladd (ladd l (bucket_part c)) (queue_load c)) r -> covers (discard_buffered c) l r.
Proof.
  intros Hn Hbk Hl H. assert (load_nonneg (queue_load c)) as Hql.
  { assert (0 <= queue_cost (Inner.queue (inner c))) by (apply total_nonneg; intros x; by rewrite Forall_forall in Hn; apply Hn).
    unfold queue_load. load_pos. }
  unfold discard_buffered, bucket_part in *. destruct (Inner.bucket (inner c)) as [b|] eqn:Hb.
  - set (c1 := release _ _). assert (covers c1 (ladd l (queue_load c)) r /\ inner c1 = Inner.set_bucket None (inner c)) as [H1 N1].
    { unfold c1. split; [|by destruct (0 <? _)]. apply release_covers; [|apply (bucket_load_nonneg b), Hbk; done|by apply ladd_nonneg].
      eapply (covers_eq c (set_inner (Inner.set_bucket None) c)) in H; [|done..].
      assert (ladd (ladd l (bucket_load b)) (queue_load c) =
              ladd (ladd l (queue_load c)) (mkLoad (MinuteBucket.cost b) 0 0 0)) as E
        by (unfold ladd, bucket_load, queue_load; cbn; f_equal; lia).
      rewrite E in H. destruct (0 <? _); rewrite ?covers_stats; exact H. }
    pose proof (free_batches_covers (Inner.queue (inner c1)) c1 l r) as K. rewrite N1 in K. cbn in K. specialize (K H1 Hn Hl).
    rewrite N1. cbn. by destruct K.
  - pose proof (free_batches_covers (Inner.queue (inner c)) c l r) as K.
    assert (covers (foldl (fun c b => free_batch b c) c (Inner.queue (inner c))) l r) as H1.
    { apply K; [|done..]. eapply covers_eq; [exact H|done..|]. unfold ladd, queue_load, load_zero. cbn. f_equal; lia. }
    by destruct H1.
Qed.

(** ** Handing out a batch *)

Definition popped_load (b : option QueuedBatch.t) : Load :=
  match b with Some b => mkLoad (QueuedBatch.cost b) 0 0 0 | None => load_zero end.

Lemma next_ready_spec now q c c' ob :
  next_ready now q c = (c', ob) -> Inner.queue (inner c) = q -> queue_ok c -> bounded (limits c) ->
  same_session c c' /\ queue_ok c' /\ log c' = log c /\ (forall b, ob = Some b -> batch_ok c b /\ b ∈ q) /\
  Inner.queue (inner c') ⊆ q /\
  forall l r, load_nonneg l -> covers c (ladd l (queue_load c)) r ->
    covers c' (ladd (ladd l (popped_load ob)) (queue_load c')) r.
Proof.
  revert c. induction q as [|b q IH]; intros c E Hq Hok Hlim; cbn -[Z.leb Z.ltb] in E.
  - injection E as <- <-. split_and!; [done| |done|done|done|].
    + destruct Hok as [E C B]. constructor; cbn; [by rewrite E, Hq|done|constructor].
    + intros l r Hl H. destruct H. unfold queue_load in *. rewrite Hq in *. cbn in *. constructor; cbn; try done; lia.
  - destruct Hok as [Eb C B]. rewrite Hq in B. apply Forall_cons in B as [Hb B].
    assert (0 <= queue_cost q) as Hqc.
    { apply total_nonneg. intros x Hx. rewrite Forall_forall in B. rewrite (ba_cost _ _ (B x Hx)). apply batch_cost_nonneg. }
    pose proof (batch_cost_nonneg (QueuedBatch.message b)) as Hbc. rewrite <- (ba_cost _ _ Hb) in Hbc.
    assert (Inner.queue_bytes (inner c) = QueuedBatch.cost b + queue_cost q) as Eb' by (rewrite Eb, Hq; done).
    assert (wrapping_sub64 (Inner.queue_bytes (inner c)) (QueuedBatch.cost b) = queue_cost q) as Ew.
    { rewrite wrapping_sub64_small; [lia|]. destruct Hlim. unfold u64_max. lia. }
    set (pop := set_inner (fun i => Inner.set_queue q (wrapping_sub64 (Inner.queue_bytes i) (QueuedBatch.cost b)) i)) in *.
    assert (queue_ok (pop c)) as Hpop.
    { constructor; cbn; rewrite ?Ew; [done|lia|]. eapply Forall_impl; [exact B|]. intros x. by apply batch_ok_session. }
    assert (forall l r, covers c (ladd l (queue_load c)) r ->
      covers (pop c) (ladd (ladd l (queue_load (pop c))) (mkLoad (QueuedBatch.cost b) 0 0 0)) r) as Hcv.
    { intros l r H. eapply covers_eq; [exact H|done..|]. unfold queue_load. rewrite Hq.
      change (queue_cost (b :: q)) with (QueuedBatch.cost b + queue_cost q). unfold ladd. cbn -[queue_cost]. f_equal; lia. }
    destruct (QueuedBatch.expires_at b <=? now (S (length q))).
    + set (c1 := release _ _) in *.
      assert (same_core (pop c) c1) as Sc by (etransitivity; [apply (drop_batch_core "expired" b)|apply release_core]).
      assert (queue_ok c1) as Hok1.
      { destruct Sc as [I N R A L G]. destruct Hpop as [E' C' B']. constructor; rewrite ?N, ?L; [done..|].
        eapply Forall_impl; [exact B'|]. intros x. apply batch_ok_session, same_core_session. by constructor. }
      destruct (IH c1 E (f_equal Inner.queue (sc_inner _ _ Sc)) Hok1) as (S1 & Q1 & G1 & P1 & U1 & V1);
        [by rewrite (sc_limits _ _ Sc)|]. split_and!; [|done| | |set_solver|].
      * etransitivity; [|exact S1]. transitivity (pop c); [done|by apply same_core_session].
      * by rewrite G1, (sc_log _ _ Sc).
      * intros x Hx. destruct (P1 x Hx) as [O M]. split; [|set_solver]. rewrite Forall_forall in B. by apply B.
      * intros l r Hl H. apply V1; [done|]. unfold queue_load at 1. rewrite (sc_inner _ _ Sc).
        unfold c1. apply release_covers; [rewrite drop_batch_covers; by apply Hcv|done|].
        apply ladd_nonneg; [done|]. unfold load_nonneg, queue_load. cbn -[queue_cost]. lia.
    + destruct (now (S (length q)) <? QueuedBatch.ready_at b); injection E as <- <-.
      * split_and!; [done| |done|done|done|].
        -- constructor; cbn; [by rewrite Eb, Hq|done|]. apply Forall_cons. split; [eapply batch_ok_session; [|exact Hb]; done|].
           eapply Forall_impl; [exact B|]. intros x. by apply batch_ok_session.
        -- intros l r Hl H. eapply covers_eq; [exact H|done..|]. unfold queue_load. rewrite Hq. unfold ladd. cbn. f_equal; lia.
      * split_and!; [done|done|done| |set_solver|].
        -- intros x [= <-]. split; [done|set_solver].
        -- intros l r Hl H. eapply covers_eq; [by apply Hcv|done..|]. unfold ladd. cbn. f_equal; lia.
Qed.

(** ** Adopting the registrations *)

Lemma adopt_inner l i :
  Inner.epoch (foldl adopt_one i l) = Inner.epoch i /\ Inner.sequence (foldl adopt_one i l) = Inner.sequence i /\
  Inner.session_open (foldl adopt_one i l) = Inner.session_open i /\
  Inner.configured (foldl adopt_one i l) = Inner.configured i /\ Inner.bucket (foldl adopt_one i l) = Inner.bucket i /\
  Inner.queue (foldl adopt_one i l) = Inner.queue i /\ Inner.queue_bytes (foldl adopt_one i l) = Inner.queue_bytes i.
Proof. revert i. induction l as [|f l IH]; intros i; [done|]. apply (IH (adopt_one i f)). Qed.
End queue.
