(* ===== verification/AnalysisWorld.v ===== *)
(** * Traffic analysis: the budget of the whole

    The invariant of the system: at every point of every schedule the four
    counters of the budget are exactly the charges of what is alive, within the
    caps ([world_ok]). *)

From Stdlib Require Import ZArith Lia.
From S2P Require Import Prelude Bytes Wire AnalysisConfig AnalysisData Collector Analysis AnalysisBudget AnalysisQueue.

Open Scope Z_scope.

(** ** Loads of heaps *)

Section load_total.
Context `{Countable K} {A : Type} (f : A -> Load).

Definition load_total (m : gmap K A) : Load :=
  mkLoad (map_total (fun x => mem (f x)) m) (map_total (fun x => tgt (f x)) m)
    (map_total (fun x => ptg (f x)) m) (map_total (fun x => pmem (f x)) m).

Lemma load_total_nonneg m : (forall k x, m !! k = Some x -> load_nonneg (f x)) -> load_nonneg (load_total m).
Proof.
  intros Hn. unfold load_nonneg, load_total. cbn. split_and!; apply map_total_nonneg; intros k x Hx; apply (Hn k x Hx).
Qed.

Lemma load_total_insert m k x : m !! k = None -> load_total (<[k := x]> m) = ladd (f x) (load_total m).
Proof.
  intros Hk. unfold load_total, ladd. rewrite !map_total_insert, Hk. cbn. f_equal; lia.
Qed.

(** One entry and the others. *)
Lemma load_total_split m k x :
  (forall j y, m !! j = Some y -> load_nonneg (f y)) -> m !! k = Some x ->
  exists rest, load_nonneg rest /\ load_total m = ladd (f x) rest /\ load_total (delete k m) = rest /\
    forall y, load_total (<[k := y]> m) = ladd (f y) rest.
Proof.
  intros Hn Hx. exists (load_total (delete k m)). split_and!; [| |done|].
  - apply load_total_nonneg. intros j y [_ Hj]%lookup_delete_Some. by apply (Hn j).
  - rewrite <- (load_total_insert (delete k m) k x) by apply lookup_delete_eq. by rewrite insert_delete_id.
  - intros y. rewrite <- (load_total_insert (delete k m) k y) by apply lookup_delete_eq. by rewrite insert_delete_eq.
Qed.
End load_total.

Lemma covers_shift c l r l' r' : covers c l r -> ladd l r = ladd l' r' -> load_nonneg r' -> covers c l' r'.
Proof.
  intros [M T P Q] E Hr. assert (mem l + mem r = mem l' + mem r' /\ tgt l + tgt r = tgt l' + tgt r' /\
    ptg l + ptg r = ptg l' + ptg r' /\ pmem l + pmem r = pmem l' + pmem r') as (? & ? & ? & ?).
  { split_and!; [apply (f_equal mem E)|apply (f_equal tgt E)|apply (f_equal ptg E)|apply (f_equal pmem E)]. }
  constructor; try done; lia.
Qed.

(** Equations between sums of loads. *)
Ltac load_ring := unfold ladd; cbn [mem tgt ptg pmem load_zero]; f_equal; lia.

(** ** The invariant *)

Section world.
Context {Env : AnalysisEnv}.

Definition thread_load (t : thread) : Load :=
  match t with
  | TReserved _ bytes _ pending => mkLoad bytes 0 0 (if pending then bytes else 0)
  | _ => load_zero
  end.

Definition batch_load (b : QueuedBatch.t) : Load := mkLoad (QueuedBatch.cost b) 0 0 0.

Definition work_load (k : worker) : Load :=
  match k with WSample _ _ b _ _ => bucket_load b | _ => load_zero end.

Definition heap_load (w : World) : Load :=
  ladd (load_total flow_load (flow_heap w)) (load_total state_load (states w)).

Definition rest_load (w : World) : Load :=
  ladd (load_total thread_load (threads w)) (load_total batch_load (popped w)).

Definition col_load (w : World) : Load :=
  ladd (work_load (work w)) (ladd (bucket_part (col w)) (queue_load (col w))).

(** Everything that is charged. *)
Definition world_load (w : World) : Load := ladd (heap_load w) (ladd (rest_load w) (col_load w)).

Definition thread_ok (t : thread) : Prop :=
  match t with
  | TReserve _ bytes _ _ | TReserved _ bytes _ _ => 0 <= bytes
  | _ => True
  end.

Definition work_ok (w : World) : Prop :=
  let c := col w in
  match work w with
  | WIdle => True
  | WConfigure epoch _ => active c = 0 /\ epoch = Inner.epoch (inner c) /\ epoch <> 0 /\
      Inner.configured (inner c) = true /\ Inner.session_open (inner c) = true
  | WSample epoch _ b _ _ => epoch = active c /\ epoch <> 0 /\ bucket_ok b /\ Inner.bucket (inner c) = None
  end.

(** The session: what is buffered belongs to the active epoch. *)
Record session_ok (c : Collector) : Prop := {
  se_active : active c = 0 \/
    active c = Inner.epoch (inner c) /\ Inner.configured (inner c) = true /\ Inner.session_open (inner c) = true;
  se_idle : active c = 0 -> Inner.bucket (inner c) = None /\ Inner.queue (inner c) = [];
  se_epoch : Inner.session_open (inner c) = true -> 1 <= Inner.epoch (inner c)
}.

Record ids_ok (w : World) : Prop := {
  id_flow i : (next_id w <= i)%N -> flow_heap w !! i = None;
  id_state i : (next_id w <= i)%N -> states w !! i = None;
  id_thread i : (next_id w <= i)%N -> threads w !! i = None;
  id_popped i : (next_id w <= i)%N -> popped w !! i = None
}.

Record world_ok (w : World) : Prop := {
  wo_covers : covers (col w) (world_load w) load_zero;
  wo_flows f flow : flow_heap w !! f = Some flow -> flow_ok flow;
  wo_threads i t : threads w !! i = Some t -> thread_ok t;
  wo_popped i b : popped w !! i = Some b -> QueuedBatch.cost b = batch_cost (QueuedBatch.message b);
  wo_queue : queue_ok (col w);
  wo_bucket b : Inner.bucket (inner (col w)) = Some b -> bucket_ok b;
  wo_session : session_ok (col w);
  wo_work : work_ok w;
  wo_ids : ids_ok w
}.

Lemma flows_nonneg w : world_ok w -> load_nonneg (load_total flow_load (flow_heap w)).
Proof. intros H. apply load_total_nonneg. intros k x Hx. apply flow_load_nonneg, (wo_flows _ H k x Hx). Qed.

Lemma states_nonneg w : load_nonneg (load_total state_load (states w)).
Proof. apply load_total_nonneg. intros. apply state_load_nonneg. Qed.

Lemma thread_load_nonneg t : thread_ok t -> load_nonneg (thread_load t).
Proof. destruct t; cbn; try done. destruct pending; load_pos. Qed.

Lemma batch_load_nonneg b : QueuedBatch.cost b = batch_cost (QueuedBatch.message b) -> load_nonneg (batch_load b).
Proof. intros E. unfold batch_load. rewrite E. pose proof (batch_cost_nonneg (QueuedBatch.message b)). load_pos. Qed.

Lemma rest_nonneg w : world_ok w -> load_nonneg (rest_load w).
Proof.
  intros H. apply ladd_nonneg; apply load_total_nonneg; intros k x Hx.
  - apply thread_load_nonneg, (wo_threads _ H k x Hx).
  - apply batch_load_nonneg, (wo_popped _ H k x Hx).
Qed.

Lemma queue_load_nonneg c : queue_ok c -> load_nonneg (queue_load c).
Proof. intros [_ _ B]. pose proof (queue_cost_nonneg _ B). unfold queue_load. load_pos. Qed.

Lemma bucket_part_nonneg c : (forall b, Inner.bucket (inner c) = Some b -> bucket_ok b) -> load_nonneg (bucket_part c).
Proof. unfold bucket_part. intros H. destruct (Inner.bucket (inner c)); [by apply bucket_load_nonneg, H|done]. Qed.

Lemma work_load_nonneg w : work_ok w -> load_nonneg (work_load (work w)).
Proof. unfold work_ok. destruct (work w); cbn; [done..|]. intros (_ & _ & Hb & _). by apply bucket_load_nonneg. Qed.

Lemma col_nonneg w : world_ok w -> load_nonneg (col_load w).
Proof.
  intros H. apply ladd_nonneg; [apply work_load_nonneg, H|].
  apply ladd_nonneg; [apply bucket_part_nonneg, H|apply queue_load_nonneg, H].
Qed.

Lemma heap_nonneg w : world_ok w -> load_nonneg (heap_load w).
Proof. intros H. apply ladd_nonneg; [by apply flows_nonneg|apply states_nonneg]. Qed.

Hint Resolve flows_nonneg states_nonneg rest_nonneg col_nonneg heap_nonneg : node.

(** What only depends on the untouched part of the collector. *)
Lemma queue_ok_core c c' : same_core c c' -> queue_ok c -> queue_ok c'.
Proof.
  intros Sc [E C B]. pose proof Sc as [I N R A L G]. constructor; rewrite ?N, ?L; [done..|].
  eapply Forall_impl; [exact B|]. intros b. by apply batch_ok_session, same_core_session.
Qed.

Lemma session_ok_core c c' : same_core c c' -> session_ok c -> session_ok c'.
Proof. intros [I N R A L G] []. constructor; rewrite ?N, ?A; done. Qed.

Lemma work_ok_core w w' : same_core (col w) (col w') -> work w' = work w -> work_ok w -> work_ok w'.
Proof. intros [I N R A L G] E. unfold work_ok. by rewrite E, N, A. Qed.

Lemma col_load_core w w' : same_core (col w) (col w') -> work w' = work w -> col_load w' = col_load w.
Proof. intros [I N R A L G] E. unfold col_load, bucket_part, queue_load. by rewrite E, N. Qed.

(** A step that leaves the collector's own state alone. *)
Lemma world_ok_core w w' :
  world_ok w -> same_core (col w) (col w') -> work w' = work w ->
  covers (col w') (ladd (heap_load w') (rest_load w')) (col_load w) ->
  (forall f flow, flow_heap w' !! f = Some flow -> flow_ok flow) ->
  (forall i t, threads w' !! i = Some t -> thread_ok t) ->
  (forall i b, popped w' !! i = Some b -> QueuedBatch.cost b = batch_cost (QueuedBatch.message b)) ->
  ids_ok w' -> world_ok w'.
Proof.
  intros H Sc Ew Hc Hf Ht Hp Hi. constructor; try done.
  - unfold world_load. rewrite (col_load_core w w' Sc Ew). eapply covers_shift; [exact Hc|load_ring|done].
  - eapply queue_ok_core; [exact Sc|apply H].
  - rewrite (sc_inner _ _ Sc). apply H.
  - eapply session_ok_core; [exact Sc|apply H].
  - eapply work_ok_core; [exact Sc|done|apply H].
Qed.

(** ** Steps on the heaps

    [heap_step w w' l l'] changes the flows, their states and the counters only,
    from holding [l] besides the heaps to holding [l']. *)
Definition flows_ok (w : World) : Prop := forall f flow, flow_heap w !! f = Some flow -> flow_ok flow.

Record heap_step (w w' : World) (l l' : Load) : Prop := {
  hs_core : same_core (col w) (col w');
  hs_work : work w' = work w;
  hs_threads : threads w' = threads w;
  hs_popped : popped w' = popped w;
  hs_next : (next_id w <= next_id w')%N;
  hs_flow_dom f : (next_id w' <= f)%N -> flow_heap w !! f = None -> flow_heap w' !! f = None;
  hs_state_dom s : (next_id w' <= s)%N -> states w !! s = None -> states w' !! s = None;
  hs_covers r : flows_ok w -> load_nonneg l -> covers (col w) (ladd (heap_load w) l) r ->
    flows_ok w' /\ covers (col w') (ladd (heap_load w') l') r;
  hs_nonneg : load_nonneg l -> load_nonneg l'
}.

Lemma heap_step_refl w l : heap_step w w l l.
Proof. by constructor. Qed.

Lemma heap_step_trans w1 w2 w3 l1 l2 l3 : heap_step w1 w2 l1 l2 -> heap_step w2 w3 l2 l3 -> heap_step w1 w3 l1 l3.
Proof.
  intros [] []. constructor; try (congruence || lia); [by etransitivity|..|eauto].
  { intros f Hf ?. apply hs_flow_dom1, hs_flow_dom0; [done|lia|done]. }
  { intros f Hf ?. apply hs_state_dom1, hs_state_dom0; [done|lia|done]. }
  intros r Hf Hl H. destruct (hs_covers0 r Hf Hl H) as [Hf2 H2]. eauto.
Qed.

Lemma heap_step_ids w w' l l' : heap_step w w' l l' -> ids_ok w -> ids_ok w'.
Proof.
  intros [] []. constructor; rewrite ?hs_threads0, ?hs_popped0; intros i Hi.
  - apply hs_flow_dom0, id_flow0; [done|lia].
  - apply hs_state_dom0, id_state0; [done|lia].
  - apply id_thread0. lia.
  - apply id_popped0. lia.
Qed.

Lemma heap_step_ok w w' : world_ok w -> heap_step w w' load_zero load_zero -> world_ok w'.
Proof.
  intros H Hs. pose proof Hs as []. destruct (hs_covers0 (ladd (rest_load w) (col_load w))) as [Hf Hc];
    [exact (wo_flows _ H)|done|eapply covers_shift; [apply H|unfold world_load; load_ring|auto with node]|].
  apply (world_ok_core w); [done..| | | | |].
  - eapply covers_shift; [exact Hc| |auto with node]. unfold rest_load. rewrite hs_threads0, hs_popped0. load_ring.
  - apply Hf.
  - rewrite hs_threads0. apply H.
  - rewrite hs_popped0. apply H.
  - eapply heap_step_ids; [exact Hs|apply H].
Qed.

(** A step of a call: the thread goes on as [rest]. *)
Lemma thread_step_ok w w' i t rest :
  world_ok w -> threads w !! i = Some t ->
  heap_step w w' (thread_load t) (from_option thread_load load_zero rest) ->
  (forall t', rest = Some t' -> thread_ok t') ->
  world_ok (set_threads (partial_alter (fun _ => rest) i (threads w')) w').
Proof.
  intros H Ht Hs Hr. pose proof Hs as [].
  destruct (load_total_split thread_load (threads w) i t) as (others & No & E & Ed & Ei);
    [intros j y Hy; apply thread_load_nonneg, (wo_threads _ H j y Hy)|done|].
  assert (load_total thread_load (partial_alter (fun _ => rest) i (threads w)) =
          ladd (from_option thread_load load_zero rest) others) as Er.
  { destruct rest as [t'|]; [apply Ei|]. change (partial_alter (fun _ => None) i (threads w)) with (delete i (threads w)).
    rewrite Ed. cbn. destruct others; load_ring. }
  assert (load_nonneg (load_total batch_load (popped w))) as Nb
    by (apply load_total_nonneg; intros k x Hx; apply batch_load_nonneg, (wo_popped _ H k x Hx)).
  destruct (hs_covers0 (ladd others (ladd (load_total batch_load (popped w)) (col_load w)))) as [Hf Hc];
    [exact (wo_flows _ H)|apply thread_load_nonneg, (wo_threads _ H i t Ht)| |].
  { eapply covers_shift; [apply H|unfold world_load, rest_load; rewrite E; load_ring|auto 6 with node]. }
  apply (world_ok_core w); [done..| | | | |]; cbn; rewrite ?hs_threads0.
  - eapply covers_shift; [exact Hc| |auto with node]. unfold rest_load, heap_load. cbn. rewrite Er, hs_popped0. load_ring.
  - apply Hf.
  - intros j t'. rewrite lookup_partial_alter. case_decide as Hj; [by intros ->; apply Hr|apply H].
  - rewrite hs_popped0. apply H.
  - destruct (heap_step_ids _ _ _ _ Hs (wo_ids _ H)) as [F S T P]. constructor; cbn; try done.
    intros j Hj. rewrite lookup_partial_alter. pose proof (T j Hj) as Tj. rewrite hs_threads0 in Tj.
    case_decide as Hij; [|done]. subst j. congruence.
Qed.

(** A new call that holds nothing. *)
Lemma world_spawn_ok t w : world_ok w -> thread_ok t -> thread_load t = load_zero -> world_ok (spawn t w).
Proof.
  intros H Ht E. unfold spawn. cbn. pose proof (wo_ids _ H) as [F S T P].
  apply (world_ok_core w); [done..| | | | |]; cbn.
  - eapply covers_shift; [apply H| |auto with node]. unfold world_load, rest_load, heap_load. cbn.
    rewrite load_total_insert by (apply T; lia). rewrite E. load_ring.
  - apply H.
  - intros j t'. rewrite lookup_insert_Some. intros [[<- <-]|[_ Hj]]; [done|by apply (wo_threads _ H j)].
  - apply H.
  - constructor; cbn; intros j Hj; [apply F|apply S| |apply P]; try lia.
    rewrite lookup_insert_ne by lia. apply T. lia.
Qed.

(** ** The elementary steps *)

(** One flow changes, with what it is charged. *)
Lemma flow_heap_step w f flow flow' c' l l' :
  flow_heap w !! f = Some flow -> same_core (col w) c' -> (flow_ok flow -> flow_ok flow') ->
  (forall r, flow_ok flow -> load_nonneg l -> covers (col w) (ladd (flow_load flow) l) r -> covers c' (ladd (flow_load flow') l') r) ->
  (load_nonneg l -> load_nonneg l') ->
  heap_step w (set_col c' (set_flow_heap (<[f := flow']> (flow_heap w)) w)) l l'.
Proof.
  intros Hf Sc Ho Hc Hn. constructor; cbn; try done.
  - intros g _ Hg. rewrite lookup_insert_ne; [done|congruence].
  - intros r Hall Hl H. split.
    { intros g x. cbn. rewrite lookup_insert_Some. intros [[<- <-]|[_ Hg]]; [by apply Ho, (Hall f)|by apply (Hall g)]. }
    destruct (load_total_split flow_load (flow_heap w) f flow) as (others & No & E & _ & Ei);
      [intros k x Hx; apply flow_load_nonneg, (Hall k x Hx)|done|].
    unfold heap_load in *. cbn. rewrite Ei. rewrite E in H.
    assert (covers c' (ladd (flow_load flow') l') (ladd others (ladd (load_total state_load (states w)) r))) as H'.
    { apply Hc; [by apply (Hall f)|done|]. eapply covers_shift; [exact H|load_ring|].
      repeat apply ladd_nonneg; auto with node; by destruct H. }
    eapply covers_shift; [exact H'|load_ring|by destruct H].
Qed.

Lemma alter_insert `{Countable K} {A} (g : A -> A) k (m : gmap K A) x : m !! k = Some x -> alter g k m = <[k := g x]> m.
Proof.
  intros Hx. apply map_eq. intros j. destruct (decide (j = k)) as [->|Hj].
  - by rewrite lookup_alter_eq, Hx, lookup_insert_eq.
  - by rewrite lookup_alter_ne, lookup_insert_ne.
Qed.

(** A change of a flow that is charged nothing. *)
Lemma update_flow_step w f g l :
  (forall flow, flow_load (g flow) = flow_load flow) -> (forall flow, flow_ok flow -> flow_ok (g flow)) ->
  heap_step w (update_flow f g w) l l.
Proof.
  intros El Ho. unfold update_flow. destruct (flow_heap w !! f) as [flow|] eqn:Hf.
  - rewrite (alter_insert _ _ _ _ Hf).
    pose proof (flow_heap_step w f flow (g flow) (col w) l l Hf ltac:(done) (Ho flow)) as Hs. rewrite El in Hs.
    specialize (Hs ltac:(done) ltac:(done)). destruct w; exact Hs.
  - assert (alter g f (flow_heap w) = flow_heap w) as ->.
    { apply map_eq. intros j. destruct (decide (j = f)) as [->|Hj]; [by rewrite lookup_alter_eq, Hf|by rewrite lookup_alter_ne]. }
    destruct w; apply heap_step_refl.
Qed.

(** A section under a flow's lock. *)
Lemma view_step w f s flow st c flow' st' l :
  flow_heap w !! f = Some flow -> states w !! s = Some st -> keeps (col w, flow, st) (c, flow', st') ->
  heap_step w (set_col c (set_flow_heap (<[f := flow']> (flow_heap w)) (set_states (<[s := st']> (states w)) w))) l l.
Proof.
  intros Hf Hst [F K]. pose proof F as []. constructor; cbn in *; try done.
  - intros x _ Hx. rewrite lookup_insert_ne; [done|congruence].
  - intros x _ Hx. rewrite lookup_insert_ne; [done|congruence].
  - intros r Hall Hl H.
    destruct (load_total_split flow_load (flow_heap w) f flow) as (fs & Nf & Ef & _ & Fi);
      [intros k x Hx; apply flow_load_nonneg, (Hall k x Hx)|done|].
    destruct (load_total_split state_load (states w) s st) as (ss & Ns & Es & _ & Si);
      [intros; apply state_load_nonneg|done|].
    destruct (K (ladd fs (ladd ss (ladd l r)))) as [Hf' Hc'].
    { split; [by apply (Hall f)|]. cbn. unfold heap_load in H. rewrite Ef, Es in H.
      eapply covers_shift; [exact H|load_ring|]. repeat apply ladd_nonneg; try done. by destruct H. }
    cbn in Hf', Hc'. split.
    + intros x y. cbn. rewrite lookup_insert_Some. intros [[<- <-]|[_ Hx]]; [done|by apply (Hall x)].
    + unfold heap_load. cbn. rewrite Fi, Si. eapply covers_shift; [exact Hc'|load_ring|by destruct H].
Qed.

Lemma in_view_step f s g w w' l :
  in_view f s g w = Some w' -> (forall v, keeps v (g v)) -> heap_step w w' l l.
Proof.
  unfold in_view. intros E Hk. apply bind_Some in E as (flow & Hf & E). apply bind_Some in E as (st & Hst & E).
  specialize (Hk (col w, flow, st)). destruct (g (col w, flow, st)) as [[c flow'] st']. injection E as <-. by apply (view_step w f s flow st).
Qed.

(** Only the counters change. *)
Lemma col_step w c' l l' :
  same_core (col w) c' -> (forall r, load_nonneg l -> covers (col w) l r -> covers c' l' r) ->
  (load_nonneg l -> load_nonneg l') -> heap_step w (set_col c' w) l l'.
Proof.
  intros Sc Hc Hn. constructor; cbn; try done. intros r Hf Hl H. split; [done|].
  assert (load_nonneg (heap_load w)) as Nh
    by (apply ladd_nonneg; [apply load_total_nonneg; intros k x Hx; apply flow_load_nonneg, (Hf k x Hx)|apply states_nonneg]).
  assert (covers c' l' (ladd (heap_load w) r)) as H'.
  { apply Hc; [done|]. eapply covers_shift; [exact H|load_ring|]. apply ladd_nonneg; [done|by destruct H]. }
  eapply covers_shift; [exact H'|unfold heap_load; cbn; load_ring|by destruct H].
Qed.

Lemma stats_step w g l : heap_step w (set_col (set_stats g (col w)) w) l l.
Proof. apply col_step; [done| |done]. intros r _ H. by rewrite covers_stats. Qed.

Definition held_load (bytes : Z) (pending : bool) : Load := mkLoad bytes 0 0 (if pending then bytes else 0).

Lemma reserve_step w bytes (pending : bool) c ok :
  0 <= bytes -> (if pending then reserve_pending bytes (col w) else reserve bytes (col w)) = (c, ok) ->
  heap_step w (set_col c w) load_zero (if ok : bool then held_load bytes pending else load_zero).
Proof.
  intros Hb E. apply col_step.
  - destruct pending; [pose proof (reserve_pending_core bytes (col w)) as S|pose proof (reserve_core bytes (col w)) as S];
      by rewrite E in S.
  - intros r Hl H. destruct pending.
    + destruct (reserve_pending_covers bytes _ _ _ _ _ H Hl Hb E) as [_ H']. destruct ok; [|done].
      eapply covers_eq; [exact H'|done..|]. unfold held_load. load_ring.
    + destruct (reserve_covers bytes _ _ _ _ _ H Hb E) as [_ H']. destruct ok; [|by subst].
      destruct H' as [_ H']. eapply covers_eq; [exact H'|done..|]. unfold held_load. load_ring.
  - intros _. destruct ok; [|done]. unfold held_load. destruct pending; load_pos.
Qed.

Lemma unhold_step w bytes (pending : bool) :
  0 <= bytes ->
  heap_step w (set_col ((if pending then release_pending bytes else release bytes) (col w)) w)
    (held_load bytes pending) load_zero.
Proof.
  intros Hb. apply col_step; [by destruct pending| |done]. intros r Hl H. destruct pending.
  - apply release_pending_covers; [|done..]. eapply covers_eq; [exact H|done..|]. unfold held_load. load_ring.
  - apply release_covers; [|done..]. eapply covers_eq; [exact H|done..|]. unfold held_load. load_ring.
Qed.

Lemma hold_step w f (pending : bool) bytes :
  0 <= bytes -> is_Some (flow_heap w !! f) ->
  heap_step w (update_flow f (if pending then Flow.hold bytes 0 else Flow.hold 0 bytes) w)
    (held_load bytes pending) load_zero.
Proof.
  intros Hb [flow Hf]. unfold update_flow. rewrite (alter_insert _ _ _ _ Hf).
  set (flow' := (if pending then Flow.hold bytes 0 else Flow.hold 0 bytes) flow).
  assert (flow_load flow' = ladd (flow_load flow) (held_load bytes pending)) as El.
  { unfold flow', held_load, flow_load, ladd. destruct pending; cbn; unfold Flow.unseen; cbn; f_equal; lia. }
  pose proof (flow_heap_step w f flow flow' (col w) (held_load bytes pending) load_zero Hf ltac:(done)) as Hs.
  destruct w; apply Hs; [| |done].
  - intros []. unfold flow'. destruct pending; constructor; cbn; (lia || done).
  - intros r _ _ H. eapply covers_eq; [exact H|done..|]. rewrite El. load_ring.
Qed.

Lemma eligible_flow ra f w : eligible ra f w = true -> is_Some (flow_heap w !! f).
Proof. unfold eligible. destruct (flow_heap w !! f); [eauto|done]. Qed.

Lemma classify_check_stats epoch meta target domain app c :
  exists g, (classify_check epoch meta target domain app c).1 = set_stats g c \/
            (classify_check epoch meta target domain app c).1 = c.
Proof.
  unfold classify_check. exists (Stats.limited "invalid_metadata").
  destruct (_ || _); [by right|]. destruct (_ || _ || _); [by left|]. destruct (_ || _); by right.
Qed.

(** A call charges what it records, and holds what it has reserved. *)
Lemma thread_step_heap now t w w' rest :
  thread_step now t w = Some (w', rest) -> thread_ok t ->
  heap_step w w' (thread_load t) (from_option thread_load load_zero rest) /\ (forall t', rest = Some t' -> thread_ok t').
Proof.
  destruct t; cbn -[admits load_state classify_check]; intros E Ht.
  - destruct (admits f w); injection E as <- <-; (split; [|done]); [by constructor|apply update_flow_step; [done|by intros ? []]].
  - apply bind_Some in E as (flow & Hf & E). injection E as <- <-.
    destruct (load_state f epoch w); [repeat case_match|]; (split; [apply heap_step_refl|by intros ? [= <-]]).
  - injection E as <- <-. destruct (load_state f epoch w); (split; [apply heap_step_refl|by intros ? [= <-]]).
  - apply bind_Some in E as (w1 & E1 & [= <- <-]). split; [|by intros ? [= <-]]. eapply in_view_step; [exact E1|].
    intros [[c flow] st]. by apply keeps_state.
  - destruct packets as [|[[target up] down] packets]; [injection E as <- <-; split; [apply heap_step_refl|by intros ? [= <-]]|].
    apply bind_Some in E as (w1 & E1 & [= <- <-]). split; [|by intros ? [= <-]]. eapply in_view_step; [exact E1|].
    intros v. apply record_packet_keeps.
  - injection E as <- <-. split; [apply update_flow_step; [done|by intros ? []]|done].
  - apply bind_Some in E as (flow & Hf & E). destruct (classify_check _ _ _ _ _ _) as [c app] eqn:Ec. injection E as <- <-.
    split.
    + destruct (classify_check_stats epoch (Flow.meta flow) target domain app_protocol (col w)) as [g Hg]. rewrite Ec in Hg. cbn in Hg.
      assert (forall o : option thread, (forall t', o = Some t' -> thread_load t' = load_zero) -> from_option thread_load load_zero o = load_zero) as Hz
        by (intros [o|] Ho; [by apply Ho|done]).
      rewrite Hz.
      * destruct Hg as [->| ->]; [apply stats_step|destruct w; apply heap_step_refl].
      * intros t' (a & -> & (s & _ & [= <-])%bind_Some)%bind_Some. done.
    + intros t' (a & -> & (s & _ & [= <-])%bind_Some)%bind_Some. done.
  - apply bind_Some in E as (w1 & E1 & [= <- <-]). split; [|done]. eapply in_view_step; [exact E1|].
    intros v. apply classify_locked_keeps.
  - injection E as <- <-. split; [|intros t'; by destruct (load_state f epoch w); intros [= <-]].
    destruct (load_state f epoch w); apply heap_step_refl.
  - apply bind_Some in E as (w1 & E1 & [= <- <-]). split; [|done]. eapply in_view_step; [exact E1|].
    intros v. apply discard_locked_keeps.
  - destruct (eligible require_active f w); [|injection E as <- <-; split; [apply heap_step_refl|done]].
    destruct (if pending then _ else _) as [c ok] eqn:Er. pose proof (reserve_step w bytes pending c ok Ht Er) as Hs.
    destruct ok; injection E as <- <-; (split; [|by intros ? [= <-]]); cbn; [exact Hs|].
    eapply heap_step_trans; [exact Hs|apply (stats_step (set_col c w))].
  - destruct (eligible require_active f w) eqn:Ee; injection E as <- <-; (split; [|done]).
    + apply hold_step; [done|by eapply eligible_flow].
    + by apply unhold_step.
Qed.
End world.

(** The changes of a flow that do not touch its charges. *)
Ltac plain_update := apply update_flow_step; [done|by intros ? []].
