(* ===== verification/AnalysisSteps.v ===== *)
(** * Traffic analysis: every step keeps the budget

    The session owner's, the sampler's and the stream's steps preserve [world_ok];
    so it holds of every reachable world ([world_reachable_ok]). *)

From Stdlib Require Import ZArith Lia.
From S2P Require Import Prelude Bytes Wire AnalysisConfig AnalysisData Collector Analysis AnalysisBudget.
From S2P Require Import AnalysisQueue AnalysisWorld.

Open Scope Z_scope.

Section steps.
Context {Env : AnalysisEnv}.

#[local] Hint Resolve flows_nonneg states_nonneg rest_nonneg col_nonneg heap_nonneg : node.

(** One state changes, with what it is charged. *)
Lemma state_heap_step w s st st' c' l l' :
  states w !! s = Some st -> same_core (col w) c' ->
  (forall r, load_nonneg l -> covers (col w) (ladd (state_load st) l) r -> covers c' (ladd (state_load st') l') r) ->
  (load_nonneg l -> load_nonneg l') ->
  heap_step w (set_col c' (set_states (<[s := st']> (states w)) w)) l l'.
Proof.
  intros Hs Sc Hc Hn. constructor; cbn; try done.
  - intros g _ Hg. rewrite lookup_insert_ne; [done|congruence].
  - intros r Hall Hl H. split; [done|].
    destruct (load_total_split state_load (states w) s st) as (others & No & E & _ & Ei);
      [intros; apply state_load_nonneg|done|].
    assert (load_nonneg (load_total flow_load (flow_heap w))) as Nf
      by (apply load_total_nonneg; intros k x Hx; apply flow_load_nonneg, (Hall k x Hx)).
    unfold heap_load in *. cbn. rewrite Ei. rewrite E in H.
    assert (covers c' (ladd (state_load st') l') (ladd others (ladd (load_total flow_load (flow_heap w)) r))) as H'.
    { apply Hc; [done|]. eapply covers_shift; [exact H|load_ring|]. repeat apply ladd_nonneg; try done. by destruct H. }
    eapply covers_shift; [exact H'|load_ring|by destruct H].
Qed.

(** Detaching a state leaves its targets to the caller. *)
Lemma retire_covers c s r l :
  covers c (ladd (state_load s) l) r -> load_nonneg l ->
  let '(c', s', targets) := retire c s in
  same_core c c' /\ covers c' (ladd (state_load s') (ladd l (times (size targets) target_load))) r /\
  state_load s' = load_zero.
Proof.
  intros H Hl. unfold retire. cbn. split; [apply drop_pending_targets_core|].
  assert (state_load (FlowState.set_packets (PacketState.retire (FlowState.packets s)) s) = load_zero) as E
    by (unfold state_load; cbn; rewrite !map_size_empty; unfold ladd, times, load_zero; cbn; done).
  split; [|done]. rewrite E. apply drop_pending_targets_covers.
  - eapply covers_eq; [exact H|done..|]. unfold state_load. unfold times. load_ring.
  - repeat apply ladd_nonneg; try done. load_pos.
Qed.

Definition targets_load (m : gmap Target.t TargetState.t) : Load := times (size m) target_load.

Lemma targets_load_nonneg m : load_nonneg (targets_load m).
Proof. unfold targets_load. load_pos. Qed.

Lemma targets_empty l : ladd l (targets_load ∅) = l.
Proof. unfold targets_load. rewrite map_size_empty. destruct l. unfold times. load_ring. Qed.

Lemma drop_targets_step w m : heap_step w (set_col (drop_targets (size m) (col w)) w) (targets_load m) load_zero.
Proof.
  apply col_step; [apply drop_targets_core| |done]. intros r Hl H. apply drop_targets_covers; [|done].
  eapply covers_eq; [exact H|done..|]. unfold targets_load. load_ring.
Qed.

Lemma retire_state_step w s st l :
  states w !! s = Some st ->
  let '(c, st', targets) := retire (col w) st in
  heap_step w (set_col c (set_states (<[s := st']> (states w)) w)) l (ladd l (targets_load targets)).
Proof.
  intros Hs. destruct (retire (col w) st) as [[c st'] targets] eqn:Er. apply (state_heap_step w s st); [done| | |].
  - assert (c = (retire (col w) st).1.1) as -> by by rewrite Er. apply drop_pending_targets_core.
  - intros r Hl H. pose proof (retire_covers (col w) st r l H Hl) as K. rewrite Er in K. by destruct K as (_ & K & _).
  - intros Hl. apply ladd_nonneg; [done|apply targets_load_nonneg].
Qed.

Lemma state_of_Some (o : option N) (m : gmap N FlowState.t) s st :
  o ≫= (fun s => (s,.) <$> m !! s) = Some (s, st) -> o = Some s /\ m !! s = Some st.
Proof. intros (s' & -> & (st' & Hs & [= -> ->])%fmap_Some)%bind_Some. done. Qed.

Lemma retire_flow_step f w l : heap_step w (retire_flow f w).1 l (ladd l (targets_load (retire_flow f w).2)).
Proof.
  unfold retire_flow. destruct (flow_heap w !! f) as [flow|]; [|cbn [fst snd]; rewrite targets_empty; apply heap_step_refl].
  assert (heap_step w (update_flow f (Flow.set_state None) w) l l) as H1 by plain_update.
  set (w1 := update_flow f (Flow.set_state None) w) in *.
  destruct (Flow.state flow ≫= _) as [[s st]|] eqn:E; [|cbn [fst snd]; rewrite targets_empty; exact H1].
  apply state_of_Some in E as [_ Hs]. pose proof (retire_state_step w1 s st l Hs) as H2. destruct (retire (col w1) st) as [[c st'] targets].
  cbn in *. by eapply heap_step_trans.
Qed.

(** Detaching a flow and dropping its targets. *)
Lemma retire_drop_step f w :
  heap_step w (set_col (drop_targets (size (retire_flow f w).2) (col (retire_flow f w).1)) (retire_flow f w).1)
    load_zero load_zero.
Proof.
  eapply heap_step_trans; [apply (retire_flow_step f w load_zero)|].
  replace (ladd load_zero (targets_load (retire_flow f w).2)) with (targets_load (retire_flow f w).2) by (unfold targets_load, times; load_ring).
  apply drop_targets_step.
Qed.

Lemma clear_pending_step w f : heap_step w (clear_pending w f) load_zero load_zero.
Proof.
  unfold clear_pending. destruct (flow_heap w !! f) as [flow|] eqn:Hf; [|apply heap_step_refl].
  destruct (is_udp _); [|apply heap_step_refl].
  destruct (Flow.state flow ≫= _) as [[s st]|] eqn:E; [|apply heap_step_refl]. apply state_of_Some in E as [_ Hs].
  apply (state_heap_step w s st); [done|apply drop_pending_targets_core| |done].
  intros r Hl H. apply drop_pending_targets_covers.
  - eapply covers_eq; [exact H|done..|]. unfold state_load. cbn. rewrite map_size_empty. unfold times. load_ring.
  - apply ladd_nonneg; [apply state_load_nonneg|done].
Qed.

(** ** Steps on the collector's own state *)

Lemma world_ok_new w c' k' :
  world_ok w ->
  (forall r, covers (col w) (col_load w) r -> covers c' (col_load (set_work k' (set_col c' w))) r) ->
  queue_ok c' -> (forall b, Inner.bucket (inner c') = Some b -> bucket_ok b) -> session_ok c' ->
  work_ok (set_work k' (set_col c' w)) -> world_ok (set_work k' (set_col c' w)).
Proof.
  intros H Hc Hq Hb Hs Hk. constructor; try done; try apply H.
  - assert (covers c' (col_load (set_work k' (set_col c' w))) (ladd (heap_load w) (rest_load w))) as H'.
    { apply Hc. eapply covers_shift; [apply H|unfold world_load; load_ring|eauto with node]. }
    eapply covers_shift; [exact H'| |done]. unfold world_load, heap_load, rest_load. cbn. load_ring.
  - pose proof (wo_ids _ H) as []. by constructor.
Qed.

Lemma set_work_id w c : set_work (work w) (set_col c w) = set_col c w.
Proof. by destruct w. Qed.

Lemma idle_work w u : idle w = Some u -> work w = WIdle.
Proof. unfold idle. by destruct (work w). Qed.

Lemma unregister_ok key w : world_ok w -> world_ok (unregister key w).
Proof.
  intros H. unfold unregister. set (c' := set_inner _ _). rewrite <- (set_work_id w c').
  pose proof (wo_queue _ H) as [E C B]. apply world_ok_new; [done| | |apply H| |].
  - intros r []. unfold col_load, bucket_part, queue_load in *. cbn in *. by constructor.
  - constructor; cbn; [done..|]. eapply Forall_impl; [exact B|]. intros b. by apply batch_ok_session'.
  - pose proof (wo_session _ H) as []. by constructor.
  - pose proof (wo_work _ H) as K. unfold work_ok in *. cbn. by destruct (work w).
Qed.

(** After a discard nothing is buffered. *)
Lemma discarded_queue_ok c c' : discards c c' -> bounded (limits c) -> queue_ok c'.
Proof.
  intros [I N R A L G] Hb. constructor; rewrite ?N, ?L; cbn; [done| |constructor].
  destruct Hb. lia.
Qed.

Lemma discard_ok w c0 :
  world_ok w -> work w = WIdle ->
  instance c0 = instance (col w) -> Inner.bucket (inner c0) = Inner.bucket (inner (col w)) ->
  Inner.queue (inner c0) = Inner.queue (inner (col w)) -> budget c0 = budget (col w) -> limits c0 = limits (col w) ->
  active c0 = 0 -> (Inner.session_open (inner c0) = true -> 1 <= Inner.epoch (inner c0)) ->
  world_ok (set_col (discard_buffered c0) w).
Proof.
  intros H Hw Ei Eb Eq Ebu El Ea Ee. pose proof (discard_buffered_discards c0) as D. pose proof D as [I N R A L G].
  assert (bounded (limits c0)) as Hb by (rewrite El; by destruct (wo_covers _ H)).
  rewrite <- (set_work_id w). apply world_ok_new; [done| | | | |].
  - intros r Hc. unfold col_load in *. cbn. rewrite Hw in *. unfold bucket_part at 1, queue_load at 1. rewrite N. cbn.
    assert (covers (discard_buffered c0) load_zero r) as Hd.
    { apply discard_buffered_covers; [rewrite Eq; apply queue_costs, H|rewrite Eb; apply H|done|].
      eapply covers_eq; [exact Hc|done..|]. unfold bucket_part, queue_load. rewrite Eb, Eq. load_ring. }
    by eapply covers_eq; [exact Hd|..].
  - by eapply discarded_queue_ok.
  - intros b. rewrite N. done.
  - constructor; rewrite ?N, ?A; cbn; [by left|done|done].
  - unfold work_ok. cbn. by rewrite Hw.
Qed.

Lemma begin_session_ok w : world_ok w -> work w = WIdle -> world_ok (set_col (begin_session (col w)) w).
Proof. intros H Hw. unfold begin_session. apply discard_ok; try done. cbn. lia. Qed.

Lemma clear_pendings_ok l w : world_ok w -> world_ok (foldl clear_pending w l).
Proof.
  revert w. induction l as [|f l IH]; intros w H; [done|]. apply IH. eapply heap_step_ok; [done|apply clear_pending_step].
Qed.

Lemma pause_ok epoch w : world_ok w -> work w = WIdle -> world_ok (pause epoch w).
Proof.
  intros H Hw. unfold pause. destruct (negb _); [done|]. apply clear_pendings_ok.
  set (c0 := adopt_registrations _).
  destruct (adopt_inner (registrations (col w)) (Inner.set_session (Inner.epoch (inner (col w))) false
    (Inner.configured (inner (col w))) (inner (col w)))) as (E1 & _ & E3 & _ & E5 & E6 & _).
  apply discard_ok; try done. cbn. by rewrite E3.
Qed.

Lemma configure_start_ok epoch config w : world_ok w -> work w = WIdle -> world_ok (configure_start epoch config w).
Proof.
  intros H Hw. unfold configure_start. destruct (_ || _) eqn:Hg; [done|].
  apply orb_false_iff in Hg as [Hg Hcf]. apply orb_false_iff in Hg as [He Ho].
  apply negb_false_iff, Z.eqb_eq in He. apply negb_false_iff in Ho.
  set (c0 := set_limits _ _).
  destruct (adopt_inner (registrations (col w)) (Inner.set_session (Inner.epoch (inner (col w)))
    (Inner.session_open (inner (col w))) true (inner (col w)))) as (E1 & _ & E3 & E4 & E5 & E6 & E7).
  pose proof (wo_session _ H) as [Sa Si Se].
  assert (active (col w) = 0) as Ha by (destruct Sa as [|(_ & Hc & _)]; congruence).
  destruct (Si Ha) as [Bn Qn]. pose proof (normalize_bounded config) as Hb.
  assert (Inner.bucket (inner c0) = None) as Bn' by (unfold c0; cbn; by rewrite E5).
  assert (Inner.queue (inner c0) = []) as Qn' by (unfold c0; cbn; by rewrite E6).
  apply world_ok_new; [done| | | | |].
  - intros r Hc. unfold col_load in *. cbn -[c0]. rewrite Hw in Hc. unfold bucket_part, queue_load in *. rewrite Bn', Qn'. rewrite Bn, Qn in Hc.
    destruct Hc as [M T P Q R ? ? ? ? _]. by constructor.
  - pose proof (wo_queue _ H) as [E C B]. assert (Inner.queue_bytes (inner c0) = 0) as Eb by (unfold c0; cbn; rewrite E7; cbn; by rewrite E, Qn).
    constructor; rewrite ?Eb, ?Qn'; [done| |constructor]. change (limits c0) with (normalize_config config). destruct Hb. lia.
  - intros b. by rewrite Bn'.
  - constructor; unfold c0; cbn; rewrite ?E1, ?E5, ?E6; [by left|done|]. intros _. by apply Se.
  - unfold work_ok. cbn. rewrite E1, E3, E4. pose proof (Se Ho). split_and!; cbn; (done || lia).
Qed.

(** ** Moving the targets to the new state *)

Lemma keep_target_core acc kv : same_core acc.1 (keep_target acc kv).1.
Proof.
  destruct acc as [c kept]. unfold keep_target. destruct (_ || _); [|done]. cbn. done.
Qed.

Lemma keep_targets_covers ts c kept l r :
  NoDup ts.*1 -> (forall t, t ∈ ts.*1 -> kept !! t = None) -> load_nonneg l ->
  covers c (ladd l (times (size kept + length ts) target_load)) r ->
  let acc := foldl keep_target (c, kept) ts in
  same_core c acc.1 /\ covers acc.1 (ladd l (targets_load acc.2)) r.
Proof.
  revert c kept. induction ts as [|[t st] ts IH]; intros c kept Hnd Hk Hl H; cbn -[keep_target].
  - split; [done|]. unfold targets_load. by rewrite Nat.add_0_r in H.
  - apply NoDup_cons in Hnd as [Ht Hnd]. cbn in H.
    assert (exists c1 kept1, keep_target (c, kept) (t, st) = (c1, kept1) /\ same_core c c1 /\
      (forall x, x ∈ ts.*1 -> kept1 !! x = None) /\
      covers c1 (ladd l (times (size kept1 + length ts) target_load)) r) as (c1 & kept1 & E & S1 & K1 & H1).
    { unfold keep_target. destruct (_ || _).
      - exists (drop_target (set_stats (Stats.limited "target_limit") c)), kept. split_and!; [done|done|set_solver|].
        apply drop_target_covers; [|apply ladd_nonneg; [done|load_pos]]. rewrite covers_stats.
        eapply covers_eq; [exact H|done..|]. unfold times. load_ring.
      - exists c, (<[t := TargetState.drain st]> kept). split_and!; [done|done| |].
        + intros x Hx. rewrite lookup_insert_ne by (intros ->; done). apply Hk. set_solver.
        + rewrite map_size_insert_None by (apply Hk; set_solver). eapply covers_eq; [exact H|done..|]. unfold times. load_ring. }
    rewrite E. destruct (IH c1 kept1 Hnd K1 Hl H1) as [S2 H2]. split; [by etransitivity|done].
Qed.

(** A new state takes what the caller holds. *)
Lemma alloc_state_step w st :
  ids_ok w ->
  heap_step w (set_states (<[next_id w := st]> (states w)) (fresh_id w).2) (state_load st) load_zero.
Proof.
  intros [F S T P]. constructor; cbn; try done.
  - lia.
  - intros s Hs Hn. rewrite lookup_insert_ne by lia. done.
  - intros r Hf Hl H. split; [done|]. eapply covers_shift; [exact H| |by destruct H].
    unfold heap_load. cbn. rewrite load_total_insert by (apply S; lia). load_ring.
Qed.

Lemma alloc_flow_step w flow :
  ids_ok w -> flow_ok flow ->
  heap_step w (set_flow_heap (<[next_id w := flow]> (flow_heap w)) (fresh_id w).2) (flow_load flow) load_zero.
Proof.
  intros [F S T P] Ho. constructor; cbn; try done.
  - lia.
  - intros s Hs Hn. rewrite lookup_insert_ne by lia. done.
  - intros r Hf Hl H. split.
    + intros x y. cbn. rewrite lookup_insert_Some. intros [[_ <-]|[_ Hx]]; [done|by apply (Hf x)].
    + eapply covers_shift; [exact H| |by destruct H].
      unfold heap_load. cbn. rewrite load_total_insert by (apply F; lia). load_ring.
Qed.

Lemma set_work_ok k w : world_ok w -> work_load k = work_load (work w) -> work_ok (set_work k w) -> world_ok (set_work k w).
Proof.
  intros H El Hk. assert (set_work k w = set_work k (set_col (col w) w)) as -> by by destruct w.
  apply world_ok_new; [done| |apply H|apply H|apply H|by destruct w].
  intros r Hc. unfold col_load in *. cbn. by rewrite El.
Qed.

Lemma configure_flow_ok key epoch w w' :
  world_ok w -> configure_flow key epoch w = Some w' -> world_ok w'.
Proof.
  intros H E. unfold configure_flow in E. apply bind_Some in E as (f & Hf & E). apply bind_Some in E as (flow & Hflow & E).
  pose proof (retire_flow_step f w load_zero) as H1. destruct (retire_flow f w) as [w1 old] eqn:Er. cbn [fst snd] in H1.
  assert (ladd load_zero (targets_load old) = targets_load old) as El by (unfold targets_load, times; load_ring).
  rewrite El in H1. destruct (_ || _ || _); injection E as <-.
  - apply unregister_ok. eapply heap_step_ok; [exact H|]. eapply heap_step_trans; [exact H1|].
    match goal with |- context [if ?b then _ else _] => destruct b end.
    + eapply heap_step_trans; [apply (stats_step w1 (Stats.limited "budget"))|]. apply (drop_targets_step (set_col _ w1)).
    + apply drop_targets_step.
  - pose proof (hash_targets_perm old) as Hp.
    destruct (foldl keep_target (col w1, ∅) (hash_targets old)) as [c kept] eqn:Ek.
    assert (forall l r, load_nonneg l -> covers (col w1) (ladd l (targets_load old)) r ->
      same_core (col w1) c /\ covers c (ladd l (targets_load kept)) r) as Hkeep.
    { intros l r Hl Hc. pose proof (keep_targets_covers (hash_targets old) (col w1) ∅ l r) as K. rewrite Ek in K. apply K.
      - rewrite Hp. apply NoDup_fst_map_to_list.
      - intros t _. apply lookup_empty.
      - done.
      - rewrite map_size_empty. cbn. rewrite Hp, length_map_to_list. done. }
    set (st := FlowState.set_packets _ _).
    assert (state_load st = targets_load kept) as Est
      by (unfold st, state_load, targets_load; cbn; rewrite map_size_empty; unfold times; load_ring).
    assert (same_core (col w1) c) as Sc.
    { clear Hkeep. assert (forall ts acc, same_core acc.1 (foldl keep_target acc ts).1) as Hc.
      { induction ts as [|x ts IH]; intros acc; [done|]. etransitivity; [apply (keep_target_core acc x)|apply IH]. }
      specialize (Hc (hash_targets old) (col w1, ∅)). by rewrite Ek in Hc. }
    assert (heap_step w1 (set_col c w1) (targets_load old) (targets_load kept)) as H2.
    { apply col_step; [done| |intros; apply targets_load_nonneg]. intros r Hl Hc.
      destruct (Hkeep load_zero r) as [_ Hc']; [done|eapply covers_eq; [exact Hc|done..|unfold targets_load, times; load_ring]|].
      eapply covers_eq; [exact Hc'|done..|unfold targets_load, times; load_ring]. }
    pose proof (heap_step_trans _ _ _ _ _ _ H1 H2) as H3. pose proof (heap_step_ids _ _ _ _ H3 (wo_ids _ H)) as Hids.
    pose proof (alloc_state_step (set_col c w1) st Hids) as H4. rewrite Est in H4.
    eapply heap_step_ok; [exact H|]. eapply heap_step_trans; [exact H3|]. eapply heap_step_trans; [exact H4|]. plain_update.
Qed.

Lemma configure_end_ok epoch todo w :
  world_ok w -> work w = WConfigure epoch todo -> world_ok (configure_end epoch w).
Proof.
  intros H Hw. unfold configure_end. pose proof (wo_work _ H) as K. unfold work_ok in K. rewrite Hw in K.
  destruct K as (Ha & He & Hz & Hcf & Ho). pose proof (wo_session _ H) as [Sa Si Se]. destruct (Si Ha) as [Bn Qn].
  apply world_ok_new; [done| | |apply H| |done].
  - intros r Hc. unfold col_load in *. rewrite Hw in Hc. by eapply covers_eq; [exact Hc|..].
  - pose proof (wo_queue _ H) as [E C B]. constructor; cbn; [done..|]. by rewrite Qn.
  - constructor; cbn; [|done|done]. destruct (Pb.TrafficAnalysisConfig.enabled _); [right|by left].
    by rewrite <- He.
Qed.

(** ** The sampler *)

(** Adopting registrations moves nothing that is charged. *)
Lemma adopt_ok w g : world_ok w -> work w = WIdle -> world_ok (set_col (set_stats g (adopt_registrations (col w))) w).
Proof.
  intros H Hw. set (c' := set_stats _ _).
  destruct (adopt_inner (registrations (col w)) (inner (col w))) as (E1 & _ & E3 & E4 & E5 & E6 & E7).
  rewrite <- (set_work_id w). apply world_ok_new; [done| | | | |].
  - intros r Hc. unfold col_load, bucket_part, queue_load in *. cbn. rewrite E5, E6. rewrite Hw in *.
    unfold c'. by eapply covers_eq; [exact Hc|..].
  - pose proof (wo_queue _ H) as [E C B]. constructor; unfold c'; cbn; rewrite ?E6, ?E7; [done..|].
    eapply Forall_impl; [exact B|]. intros b. by apply batch_ok_session'.
  - intros b. unfold c'. cbn. rewrite E5. apply H.
  - pose proof (wo_session _ H) as [Sa Si Se]. constructor; unfold c'; cbn; rewrite ?E1, ?E3, ?E4, ?E5, ?E6; done.
  - unfold work_ok. cbn. by rewrite Hw.
Qed.

Lemma forget_finished_ok w kf : world_ok w -> world_ok (forget_finished w kf).
Proof.
  intros H. unfold forget_finished. destruct (flow_heap w !! kf.2) as [flow|]; [|done]. destruct (Flow.finished flow); [|done].
  pose proof (retire_drop_step kf.2 w) as Hs. destruct (retire_flow kf.2 w) as [w1 targets]. cbn in Hs.
  apply unregister_ok. by eapply heap_step_ok.
Qed.

Lemma forget_all_ok l w : world_ok w -> world_ok (foldl forget_finished w l).
Proof. revert w. induction l as [|kf l IH]; intros w H; [done|]. by apply IH, forget_finished_ok. Qed.

Lemma sample_start_ok now w : world_ok w -> work w = WIdle -> world_ok (sample_start now w).
Proof.
  intros H0 Hw. unfold sample_start. set (c := set_stats _ _). pose proof (adopt_ok w (Stats.set_last_sample now) H0 Hw) as H. fold c in H.
  destruct (Z.eqb_spec (active c) 0) as [|Ha]; [by apply forget_all_ok|].
  set (c1 := set_inner (Inner.set_bucket None) c). set (w1 := set_col c w) in *.
  set (cb := match Inner.bucket (inner c) with None => _ | Some b => _ end).
  assert (same_session c1 cb.1 /\ queue_ok cb.1 /\ bucket_ok cb.2 /\
    forall r, covers c (ladd (bucket_part c) (queue_load c)) r -> covers cb.1 (ladd (bucket_load cb.2) (queue_load cb.1)) r)
    as (Ss & Hq & Hb & Hc).
  { assert (queue_ok c1) as Hq1.
    { pose proof (wo_queue _ H) as [E C B]. constructor; cbn; [done..|]. eapply Forall_impl; [exact B|]. intros b. by apply batch_ok_session'. }
    assert (bounded (limits c1)) as Hlim by by destruct (wo_covers _ H).
    assert (forall b, Inner.bucket (inner c) = Some b -> bucket_ok b) as Hbk by exact (wo_bucket _ H).
    unfold cb, bucket_part. destruct (Inner.bucket (inner c)) as [b|] eqn:Eb.
    - specialize (Hbk b eq_refl). destruct (MinuteBucket.minute b <? minute_of now); cbn [fst snd].
      + destruct (seal_session now b c1 Hlim) as [S1 Q1]. split_and!; [done|by apply Q1|apply bucket_new_ok|].
        intros r Hr. pose proof (seal_covers now b c1 load_zero r Hq1 Hbk ltac:(done)) as K.
        eapply covers_eq; [apply K; eapply covers_eq; [exact Hr|done..|]|done..|]; unfold queue_load, bucket_load; load_ring.
      + split_and!; [done..|]. intros r Hr. by eapply covers_eq; [exact Hr|..].
    - split_and!; [done..|apply bucket_new_ok|]. intros r Hr. by eapply covers_eq; [exact Hr|..]. }
  destruct cb as [c2 bucket]. cbn [fst snd] in *. destruct Ss as [I R A L E O C F B].
  change (world_ok (set_work (WSample (active c) now bucket (dom (Inner.flows (inner c2))) None) (set_col c2 w1))).
  apply world_ok_new; [done| |done| | |].
  - intros r Hr. unfold col_load in *. cbn in *. rewrite Hw in Hr. unfold bucket_part at 1. rewrite B. cbn.
    eapply covers_eq; [apply Hc; eapply covers_eq; [exact Hr|done..|]|done..|]; load_ring.
  - intros b. by rewrite B.
  - pose proof (wo_session _ H) as [Sa Si Se]. cbn in *. constructor; rewrite ?A, ?E, ?O, ?C; done.
  - unfold work_ok. cbn. by rewrite A, B.
Qed.

Lemma sample_flow_ok key epoch now bucket todo w w' :
  world_ok w -> work w = WSample epoch now bucket todo None -> sample_flow key epoch now bucket todo w = Some w' -> world_ok w'.
Proof.
  intros H Hw E. unfold sample_flow in E. apply bind_Some in E as (f & _ & E). apply bind_Some in E as (flow & _ & E).
  injection E as <-. pose proof (wo_work _ H) as K. unfold work_ok in K. rewrite Hw in K.
  destruct (load_state f epoch w); (apply set_work_ok; [done|by rewrite Hw|exact K]).
Qed.

Lemma drain_flow_keeps now v : keeps v (drain_flow now v).1 /\ (drain_flow now v).1.1.2 = v.1.2.
Proof.
  destruct v as [[c f] s]. unfold drain_flow. cbn -[expire_pending].
  set (v1 := (c, f, FlowState.set_started false (FlowState.set_counters Counters.zero s))).
  assert (keeps (c, f, s) v1) as H1 by by apply keeps_state.
  destruct (is_udp (Flow.meta f)); cbn -[expire_pending]; [|done]. split.
  - etransitivity; [exact H1|]. etransitivity; [apply (expire_pending_keeps now)|]. apply keeps_packets; [done| |done].
    cbn. by rewrite map_size_fmap.
  - done.
Qed.

Lemma sample_drain_ok now epoch now_unix bucket todo key s finished w w' :
  world_ok w -> work w = WSample epoch now_unix bucket todo (Some (key, s, finished)) ->
  sample_drain now epoch now_unix bucket todo key s finished w = Some w' -> world_ok w'.
Proof.
  intros H Hw E. unfold sample_drain in E. apply bind_Some in E as (f & Hf & E). apply bind_Some in E as (flow & Hflow & E).
  apply bind_Some in E as (st & Hst & E).
  destruct (drain_flow_keeps now (col w, flow, st)) as [K Kf].
  destruct (drain_flow now (col w, flow, st)) as [[[c1 flow1] st1] drained] eqn:Ed. cbn [fst snd] in K, Kf. subst flow1.
  destruct (aggregate (Flow.meta flow) drained (c1, bucket)) as [c2 bucket2] eqn:Ea. injection E as <-.
  pose proof (aggregate_fills (Flow.meta flow) drained (c1, bucket)) as F. rewrite Ea in F. destruct F as [Fc Fm Fo Fcv]. cbn [fst snd] in *.
  assert (world_ok (set_col c1 (set_states (<[s := st1]> (states w)) w))) as H1.
  { pose proof (view_step w f s flow st c1 flow st1 load_zero Hflow Hst K) as Hs. rewrite insert_id in Hs by done.
    destruct w; by eapply heap_step_ok. }
  set (w1 := set_col c1 (set_states (<[s := st1]> (states w)) w)) in *.
  set (w2 := set_work _ _). assert (world_ok w2) as H2.
  { change w2 with (set_work (WSample epoch now_unix bucket2 todo None) (set_col c2 w1)).
    pose proof (wo_work _ H1) as Kw. unfold work_ok in Kw. cbn in Kw. rewrite Hw in Kw. destruct Kw as (Ke & Kz & Kb & Kn).
    apply world_ok_new; [done| | | | |].
    - intros r Hr. unfold col_load in *. cbn in *. rewrite Hw in Hr. cbn in Hr.
      unfold bucket_part, queue_load in *. rewrite (sc_inner _ _ Fc), Kn in *.
      assert (load_nonneg (ladd load_zero (queue_load c1))) as Hn.
      { apply ladd_nonneg; [done|]. apply queue_load_nonneg. exact (wo_queue _ H1). }
      eapply covers_eq; [apply (Fcv (ladd load_zero (queue_load c1)) r Hn Kb); eapply covers_eq; [exact Hr|done..|]|done..|];
        unfold queue_load; load_ring.
    - eapply queue_ok_core; [exact Fc|exact (wo_queue _ H1)].
    - rewrite (sc_inner _ _ Fc). exact (wo_bucket _ H1).
    - eapply session_ok_core; [exact Fc|exact (wo_session _ H1)].
    - unfold work_ok. cbn. rewrite (sc_inner _ _ Fc), (sc_active _ _ Fc). split_and!; try done.
      apply Fo; [by destruct (wo_covers _ H1)|done]. }
  destruct finished; [|done]. pose proof (retire_drop_step f w2) as Hs. destruct (retire_flow f w2) as [w3 targets]. cbn in Hs.
  apply unregister_ok. by eapply heap_step_ok.
Qed.

Lemma sample_end_ok epoch now bucket todo w :
  world_ok w -> work w = WSample epoch now bucket todo None -> world_ok (sample_end bucket w).
Proof.
  intros H Hw. unfold sample_end. pose proof (wo_work _ H) as K. unfold work_ok in K. rewrite Hw in K. destruct K as (Ke & Kz & Kb & Kn).
  pose proof (wo_queue _ H) as [E C B]. apply world_ok_new; [done| | | | |done].
  - intros r Hr. unfold col_load in *. cbn. rewrite Hw in Hr. unfold bucket_part, queue_load in *. rewrite Kn in Hr. cbn in *.
    eapply covers_eq; [exact Hr|done..|]. load_ring.
  - constructor; cbn; [done..|]. eapply Forall_impl; [exact B|]. intros b. by apply batch_ok_session'.
  - intros b. cbn. by intros [= <-].
  - pose proof (wo_session _ H) as [Sa Si Se]. constructor; cbn; [done| |done]. intros. congruence.
Qed.

(** ** Registration and release *)

Lemma foldr_len_nonneg (l : list (string * Z)) : 0 <= foldr (fun kv z => str_len kv.1 + z) 0 l.
Proof. induction l as [|kv l IH]; cbn; [done|]. unfold str_len in *. lia. Qed.

Lemma flow_cost_nonneg m : 0 <= flow_cost m.
Proof.
  unfold flow_cost, FLOW_COST. pose proof (foldr_len_nonneg (bounded_fields m)).
  assert (forall o, 0 <= host_len o) as Hh by (intros [o|]; cbn; unfold str_len; lia).
  pose proof (Hh (Metadata.destination m)). pose proof (Hh (Metadata.sniff_destination m)). lia.
Qed.

(** What a registration charges, by the kind of the flow. *)
Definition registered_load (meta : Metadata.t) : Load :=
  mkLoad (flow_cost meta) 0 0 (if is_udp meta then flow_cost meta else 0).

Lemma is_udp_app p m : is_udp (Metadata.set_app_protocol p m) = is_udp m.
Proof. done. Qed.

Lemma register_at_epoch_step expected metadata w c o :
  register_at_epoch expected metadata (col w) = (c, o) ->
  heap_step w (set_col c w) load_zero (match o with Some meta => registered_load meta | None => load_zero end).
Proof.
  unfold register_at_epoch. intros E. destruct (_ && _); [injection E as <- <-; destruct w; apply heap_step_refl|].
  set (meta := match web_protocol _ with Some web => _ | None => metadata end) in E.
  assert (is_udp meta = is_udp metadata) as Eu by (unfold meta; by destruct (web_protocol _)).
  destruct (_ || _ || _ || _); [injection E as <- <-; destruct w; apply heap_step_refl|].
  destruct (_ || _ || _ || _); [injection E as <- <-; apply stats_step|].
  destruct (if is_udp meta then _ else _) as [c1 ok] eqn:Er.
  pose proof (reserve_step w (flow_cost meta) (is_udp meta) c1 ok (flow_cost_nonneg meta) Er) as Hs.
  destruct ok; injection E as <- <-; [exact Hs|]. eapply heap_step_trans; [exact Hs|apply (stats_step (set_col c1 w))].
Qed.

Lemma registrations_ok l w : world_ok w -> world_ok (set_col (set_registrations l (col w)) w).
Proof.
  intros H. rewrite <- (set_work_id w). pose proof (wo_queue _ H) as [E C B]. apply world_ok_new; [done| | |apply H| |].
  - intros r []. by constructor.
  - constructor; cbn; [done..|]. eapply Forall_impl; [exact B|]. intros b. by apply batch_ok_session'.
  - pose proof (wo_session _ H) as []. by constructor.
  - pose proof (wo_work _ H) as K. unfold work_ok in *. cbn. by destruct (work w).
Qed.

Lemma register_ok expected metadata w : world_ok w -> world_ok (register expected metadata w).
Proof.
  intros H. unfold register. destruct (register_at_epoch expected metadata (col w)) as [c o] eqn:E.
  pose proof (register_at_epoch_step _ _ _ _ _ E) as H1. destruct o as [meta|]; [|by eapply heap_step_ok]. cbn.
  set (st := FlowState.new _ _ _). set (flow := Flow.mk _ _ _ _ _ _ _ _ _).
  assert (flow_load flow = registered_load meta) as Ef.
  { unfold flow_load, registered_load, Flow.unseen, flow. cbn. destruct (is_udp meta); cbn; f_equal; lia. }
  assert (flow_ok flow) as Hfo.
  { pose proof (flow_cost_nonneg meta). constructor; cbn; [done..|]. intros ->. done. }
  pose proof (heap_step_ids _ _ _ _ H1 (wo_ids _ H)) as I1.
  pose proof (alloc_flow_step (set_col c w) flow I1 Hfo) as H2. rewrite Ef in H2.
  pose proof (heap_step_trans _ _ _ _ _ _ H1 H2) as H3. pose proof (heap_step_ids _ _ _ _ H3 (wo_ids _ H)) as I3.
  set (w2 := set_flow_heap _ _) in *.
  assert (state_load st = load_zero) as Es by (unfold state_load; cbn; rewrite !map_size_empty; unfold times; load_ring).
  pose proof (alloc_state_step w2 st I3) as H4. rewrite Es in H4.
  assert (world_ok (set_states (<[next_id w2 := st]> (states w2)) (fresh_id w2).2)) as H5
    by (eapply heap_step_ok; [exact H|by eapply heap_step_trans]).
  exact (registrations_ok (registrations c ++ [next_id w]) _ H5).
Qed.

Lemma free_flow_ok f flow w :
  world_ok w -> flow_heap w !! f = Some flow -> unreferenced f flow w = true -> world_ok (free_flow f flow w).
Proof.
  intros H Hf Hu. unfold unreferenced in Hu. rewrite !andb_true_iff, !Z.eqb_eq in Hu.
  destruct Hu as [[[[[[_ Hp] Hst] _] _] _] _].
  unfold free_flow. set (c := if Flow.unseen flow then _ else _). pose proof (wo_flows _ H f flow Hf) as Hfo.
  assert (forall r, covers (col w) (ladd (flow_load flow) load_zero) r -> covers c load_zero r) as Hc.
  { intros r Hr. unfold c. assert (flow_load flow = held_load (Flow.cost flow) (Flow.unseen flow)) as Ef.
    { unfold flow_load, held_load. rewrite Hp, Hst. destruct (Flow.unseen flow); f_equal; lia. }
    rewrite Ef in Hr. destruct Hfo. destruct (Flow.unseen flow).
    - apply release_pending_covers; [|done|done]. eapply covers_eq; [exact Hr|done..|]. unfold held_load. load_ring.
    - apply release_covers; [|done|done]. eapply covers_eq; [exact Hr|done..|]. unfold held_load. load_ring. }
  assert (heap_step w (set_col c (set_flow_heap (delete f (flow_heap w)) w)) load_zero load_zero) as H1.
  { constructor; cbn; try done.
    - unfold c. by destruct (Flow.unseen flow).
    - intros g _ Hg. rewrite lookup_delete_None. by right.
    - intros r Hall _ Hr. split; [intros g x; cbn; intros [_ Hx]%lookup_delete_Some; by apply (Hall g)|].
      destruct (load_total_split flow_load (flow_heap w) f flow) as (others & No & E & Ed & _);
        [intros k x Hx; apply flow_load_nonneg, (Hall k x Hx)|done|].
      unfold heap_load in *. cbn. rewrite Ed. rewrite E in Hr.
      assert (covers c load_zero (ladd others (ladd (load_total state_load (states w)) r))) as Hr'.
      { apply Hc. eapply covers_shift; [exact Hr|load_ring|]. repeat apply ladd_nonneg; [done|apply states_nonneg|by destruct Hr]. }
      eapply covers_shift; [exact Hr'|load_ring|by destruct Hr]. }
  set (w1 := set_flow_heap (delete f (flow_heap w)) w) in *.
  destruct (Flow.state flow ≫= _) as [[s st]|] eqn:E; [|by eapply heap_step_ok].
  apply state_of_Some in E as [_ Hs]. pose proof (retire_state_step (set_col c w1) s st load_zero Hs) as H2. cbn [col set_col] in H2.
  destruct (retire c st) as [[c2 st2] targets].
  assert (ladd load_zero (targets_load targets) = targets_load targets) as El by (unfold targets_load, times; load_ring).
  rewrite El in H2. eapply heap_step_ok; [exact H|]. eapply heap_step_trans; [exact H1|]. eapply heap_step_trans; [exact H2|].
  apply (drop_targets_step (set_col c2 (set_states (<[s := st2]> (states w1)) w1))).
Qed.

(** ** The stream *)

Lemma next_ok epoch now w w' :
  world_ok w -> work w = WIdle -> step (LNext epoch now) w = Some w' -> world_ok w'.
Proof.
  intros H Hw E. cbn in E. unfold idle in E. rewrite Hw in E. cbn in E. unfold next in E.
  destruct (_ || _); [injection E as <-; destruct w; done|].
  destruct (next_ready now (Inner.queue (inner (col w))) (col w)) as [c ob] eqn:En.
  destruct (next_ready_spec now _ _ _ _ En eq_refl (wo_queue _ H) ltac:(by destruct (wo_covers _ H)))
    as (Ss & Hq & Hl & Hb & Hsub & Hc). pose proof Ss as [I R A L Ep O C F B].
  assert (forall b, Inner.bucket (inner c) = Some b -> bucket_ok b) as Hbk by (rewrite B; apply H).
  assert (session_ok c) as Hse.
  { pose proof (wo_session _ H) as [Sa Si Se]. constructor; rewrite ?A, ?Ep, ?O, ?C, ?B; [done| |done].
    intros Ha. destruct (Si Ha) as [? Qn]. split; [done|]. rewrite Qn in Hsub. destruct (Inner.queue (inner c)); [done|]. set_solver. }
  destruct ob as [b|]; injection E as <-.
  - destruct (Hb b eq_refl) as [Hbo _]. destruct w as [c0 fh st ni th tk po wk fi]. cbn in *. subst wk.
    pose proof (wo_ids _ H) as [Fi Si Ti Pi]. cbn in *. constructor; cbn; try apply H; try done.
    + assert (load_nonneg (ladd (heap_load (mkWorld c0 fh st ni th tk po WIdle fi)) (rest_load (mkWorld c0 fh st ni th tk po WIdle fi)))) as Hn
        by eauto with node.
      assert (covers c (ladd (ladd (bucket_part c0) (popped_load (Some b))) (queue_load c))
                (ladd (heap_load (mkWorld c0 fh st ni th tk po WIdle fi)) (rest_load (mkWorld c0 fh st ni th tk po WIdle fi)))) as Hc'.
      { apply Hc; [by apply bucket_part_nonneg, H|]. eapply covers_shift; [apply H| |done].
        unfold world_load, col_load. cbn. load_ring. }
      eapply covers_shift; [exact Hc'| |done]. unfold world_load, heap_load, rest_load, col_load, bucket_part. cbn.
      rewrite (load_total_insert batch_load po) by (apply Pi; lia). rewrite B. unfold batch_load. load_ring.
    + intros i b'. rewrite lookup_insert_Some. intros [[_ <-]|[_ Hi]]; [apply Hbo|by apply (wo_popped _ H i)].
    + constructor; cbn; intros i Hi; [apply Fi|apply Si|apply Ti|rewrite lookup_insert_ne by lia; apply Pi]; lia.
  - rewrite <- (set_work_id w). apply world_ok_new; try done; [|unfold work_ok; cbn; by rewrite Hw].
    intros r Hr. unfold col_load in *. rewrite Hw in *. cbn in *. unfold bucket_part at 1. rewrite B.
    eapply covers_eq; [apply Hc; [by apply bucket_part_nonneg, H|]; eapply covers_eq; [exact Hr|done..|]|done..|];
      unfold bucket_part; cbn; load_ring.
Qed.

(** A popped batch is completed or freed. *)
Lemma with_popped_ok i g after w w' :
  world_ok w -> with_popped i g after w = Some w' ->
  (forall b c, same_core c (g b c)) ->
  (forall b c l r, 0 <= QueuedBatch.cost b -> load_nonneg l -> covers c (ladd l (batch_load b)) r ->
    covers (g b c) (ladd l (from_option batch_load load_zero (after b))) r) ->
  (forall b b', after b = Some b' -> QueuedBatch.cost b' = QueuedBatch.cost b /\ QueuedBatch.message b' = QueuedBatch.message b) ->
  world_ok w'.
Proof.
  intros H E Hg Hc Ha. unfold with_popped in E. apply bind_Some in E as (b & Hb & [= <-]).
  pose proof (wo_popped _ H i b Hb) as Hcost. pose proof (batch_cost_nonneg (QueuedBatch.message b)) as Hn. rewrite <- Hcost in Hn.
  destruct (load_total_split batch_load (popped w) i b) as (others & No & E & Ed & Ei);
    [intros k x Hx; apply batch_load_nonneg, (wo_popped _ H k x Hx)|done|].
  apply (world_ok_core w); try apply H; try done; [apply Hg| | |]; cbn.
  - assert (load_nonneg (load_total thread_load (threads w))) as Nt
      by (apply load_total_nonneg; intros k x Hx; apply thread_load_nonneg, (wo_threads _ H k x Hx)).
    assert (covers (g b (col w)) (ladd (ladd (ladd (heap_load w) (load_total thread_load (threads w))) others)
      (from_option batch_load load_zero (after b))) (col_load w)) as Hc'.
    { apply Hc; [done|eauto 6 with node|]. eapply covers_shift; [apply H| |eauto with node].
      unfold world_load, rest_load. rewrite E. load_ring. }
    eapply covers_shift; [exact Hc'| |eauto with node]. unfold rest_load, heap_load. cbn.
    assert (load_total batch_load (partial_alter (fun _ => after b) i (popped w)) =
            ladd (from_option batch_load load_zero (after b)) others) as ->; [|load_ring].
    destruct (after b) as [b'|]; [apply Ei|]. change (partial_alter (fun _ => None) i (popped w)) with (delete i (popped w)).
    rewrite Ed. cbn. destruct others; load_ring.
  - intros j b'. rewrite lookup_partial_alter. case_decide as Hj; [|apply H]. intros Hb'. destruct (Ha b b' Hb') as [-> ->]. done.
  - pose proof (wo_ids _ H) as [F S T P]. constructor; cbn; try done. intros j Hj. rewrite lookup_partial_alter.
    case_decide as Hij; [|by apply P]. subst j. rewrite (P i Hj) in Hb. done.
Qed.

(** ** Every step *)

Lemma owned_Some f w flow : owned f w = Some flow -> flow_heap w !! f = Some flow.
Proof. unfold owned. intros (x & Hx & E)%bind_Some. destruct (_ <? _)%nat; [|done]. by injection E as <-. Qed.

Lemma update_ok f g w :
  world_ok w -> (forall flow, flow_load (g flow) = flow_load flow) -> (forall flow, flow_ok flow -> flow_ok (g flow)) ->
  world_ok (update_flow f g w).
Proof. intros H E Ho. eapply heap_step_ok; [exact H|by apply update_flow_step]. Qed.

(** The core gives back or promotes part of what it holds. *)
Lemma unhold_ok w f flow p s c :
  world_ok w -> flow_heap w !! f = Some flow -> 0 <= Flow.pending_held flow + p -> 0 <= Flow.storage_held flow + s ->
  same_core (col w) c ->
  (forall l r, load_nonneg l -> covers (col w) (ladd l (mkLoad (- (p + s)) 0 0 (- p))) r -> covers c l r) ->
  world_ok (set_col c (update_flow f (Flow.hold p s) w)).
Proof.
  intros H Hf Hp Hs Sc Hc. unfold update_flow. rewrite (alter_insert _ _ _ _ Hf). eapply heap_step_ok; [exact H|].
  pose proof (wo_flows _ H f flow Hf) as [].
  assert (flow_ok (Flow.hold p s flow)) as Ho by by constructor.
  apply (flow_heap_step w f flow (Flow.hold p s flow) c load_zero load_zero Hf Sc); [done| |done].
  intros r _ _ Hr. apply Hc; [apply ladd_nonneg; [by apply flow_load_nonneg|done]|].
  eapply covers_eq; [exact Hr|done..|]. unfold flow_load, Flow.unseen. cbn. load_ring.
Qed.

Lemma tokens_ok l w : world_ok w -> world_ok (set_tokens l w).
Proof. intros H. pose proof (wo_ids _ H) as []. destruct H. by constructor. Qed.

Lemma finished_ok l w : world_ok w -> world_ok (set_finished l w).
Proof. intros H. pose proof (wo_ids _ H) as []. destruct H. by constructor. Qed.

Lemma world_step_ok l w w' : world_ok w -> step l w = Some w' -> world_ok w'.
Proof.
  intros H E. destruct l; cbn -[with_popped spawn] in E;
    repeat (match type of E with
            | owned _ _ ≫= _ = Some _ => apply bind_Some in E as (flow & Ho & E)
            | flow_heap _ !! _ ≫= _ = Some _ => apply bind_Some in E as (flow & Hf & E)
            | guard _ ≫= _ = Some _ => apply bind_Some in E as (? & Hg & E)
            | take_token _ _ _ ≫= _ = Some _ => apply bind_Some in E as (rest & Ht & E)
            | idle _ ≫= _ = Some _ => apply bind_Some in E as (? & Hi & E); apply idle_work in Hi
            end).
  - injection E as <-. by apply register_ok.
  - injection E as <-. by apply update_ok; [|done|intros ? []].
  - injection E as <-. by apply update_ok; [|done|intros ? []].
  - injection E as <-. apply free_flow_ok; [done..|]. by destruct (unreferenced f flow w).
  - injection E as <-. by apply update_ok; [|done|intros ? []].
  - injection E as <-. apply world_spawn_ok; [|done..]. by apply update_ok; [|done|intros ? []].
  - injection E as <-. apply world_spawn_ok; [|done..]. by apply finished_ok, tokens_ok.
  - injection E as <-. apply world_spawn_ok; [|done..]. by apply finished_ok, tokens_ok.
  - injection E as <-. apply update_ok; [by apply tokens_ok|done|by intros ? []].
  - injection E as <-. by apply world_spawn_ok.
  - injection E as <-. by apply world_spawn_ok.
  - injection E as <-. apply world_spawn_ok; [done| |done]. cbn. destruct (u64 bytes) eqn:Eb; [|done].
    unfold u64 in Eb. apply andb_prop in Eb as [Eb _]. by apply Z.leb_le in Eb.
  - injection E as <-. destruct (_ && _) eqn:Eb; [|done]. rewrite andb_true_iff, !Z.leb_le in Eb.
    apply (unhold_ok w f flow); [done|done|lia|rewrite Z.add_0_r; apply (wo_flows _ H f flow Hf)|done|].
    intros l r Hl Hc. apply release_pending_covers; [|lia|done]. eapply covers_eq; [exact Hc|done..|]. load_ring.
  - injection E as <-. destruct (_ && _) eqn:Eb; [|done]. rewrite andb_true_iff, !Z.leb_le in Eb.
    pose proof (wo_flows _ H f flow Hf) as [].
    apply (unhold_ok w f flow); [done|done|lia|lia|done|].
    intros l r Hl Hc. apply uncharge_covers; [|lia|done]. eapply covers_eq; [exact Hc|done..|]. load_ring.
  - injection E as <-. destruct (_ && _) eqn:Eb; [|done]. rewrite andb_true_iff, !Z.leb_le in Eb.
    apply (unhold_ok w f flow); [done|done|rewrite Z.add_0_r; apply (wo_flows _ H f flow Hf)|lia|done|].
    intros l r Hl Hc. apply release_covers; [|lia|done]. eapply covers_eq; [exact Hc|done..|]. load_ring.
  - apply bind_Some in E as (t & Ht & E). apply bind_Some in E as ([w1 rest] & Es & [= <-]).
    destruct (thread_step_heap _ _ _ _ _ Es (wo_threads _ H i t Ht)) as [Hs Hr]. by apply (thread_step_ok w w1 i t rest).
  - injection E as <-. by apply begin_session_ok.
  - injection E as <-. by apply pause_ok.
  - injection E as <-. by apply configure_start_ok.
  - destruct (work w) as [|epoch todo|] eqn:Hw; try done. apply bind_Some in E as (? & _ & E).
    eapply configure_flow_ok; [|exact E]. pose proof (wo_work _ H) as K. unfold work_ok in K. rewrite Hw in K.
    apply set_work_ok; [done|by rewrite Hw|exact K].
  - destruct (work w) as [|epoch todo|] eqn:Hw; try done. apply bind_Some in E as (? & _ & [= <-]).
    by eapply configure_end_ok.
  - injection E as <-. by apply sample_start_ok.
  - destruct (work w) as [| |epoch now_unix bucket todo [|]] eqn:Hw; try done. apply bind_Some in E as (? & _ & E).
    by eapply sample_flow_ok.
  - destruct (work w) as [| |epoch now_unix bucket todo [[[key s] fin]|]] eqn:Hw; try done. by eapply sample_drain_ok.
  - destruct (work w) as [| |epoch now_unix bucket todo [|]] eqn:Hw; try done. apply bind_Some in E as (? & _ & [= <-]).
    by eapply sample_end_ok.
  - apply (next_ok epoch now w w' H Hi). unfold step, idle. rewrite Hi. exact E.
  - eapply with_popped_ok; [exact H|exact E|intros; apply complete_core| |].
    + intros b c l r Hb Hl Hc. by apply complete_covers.
    + by intros b b' [= <-].
  - eapply with_popped_ok; [exact H|exact E|intros; apply drop_batch_core| |].
    + intros b c l r Hb Hl Hc. by apply drop_batch_covers.
    + by intros b b' [= <-].
  - eapply with_popped_ok; [exact H|exact E|intros; apply free_batch_core| |by intros b b' ?].
    intros b c l r Hb Hl Hc. cbn. apply free_batch_covers; [|done|by apply ladd_nonneg].
    eapply covers_eq; [exact Hc|done..|]. unfold batch_load. load_ring.
Qed.

Lemma world_new_ok instance : world_ok (world_new instance).
Proof.
  split; try done. split; cbn; [by left|done..].
Qed.

Lemma world_run_ok ls w w' : world_ok w -> run ls w = Some w' -> world_ok w'.
Proof.
  revert w. induction ls as [|l ls IH]; intros w H E; cbn in E; [by injection E as <-|].
  apply bind_Some in E as (w1 & E1 & E). eapply IH; [|exact E]. by eapply world_step_ok.
Qed.

Lemma world_reachable_ok w : reachable w -> world_ok w.
Proof. intros (instance & ls & E). eapply world_run_ok; [apply world_new_ok|exact E]. Qed.
End steps.
