(* ===== verification/AnalysisLedger.v ===== *)
(** * Traffic analysis: the bytes of a user

    The bytes one direction of one user's traffic in one epoch has in each part of
    the system: what the flows' states still count, what calls in progress are
    about to record, the rows of the minute being filled, and the rows of every
    batch that was ever queued ([ledger]).  Recording and draining move bytes
    between these parts or lose them; no section under a flow's lock makes any. *)

From Stdlib Require Import ZArith Lia.
From S2P Require Import Prelude Bytes Wire AnalysisConfig AnalysisData Collector Analysis AnalysisBudget AnalysisQueue.

Open Scope Z_scope.

(** ** Counters are not negative *)

Definition count_ok (c : Counters.t) : Prop := 0 <= Counters.up c /\ 0 <= Counters.down c.

Record state_nonneg (st : FlowState.t) : Prop := {
  sn_counters : count_ok (FlowState.counters st);
  sn_unknown : count_ok (PacketState.unknown (FlowState.packets st));
  sn_targets t ts : PacketState.targets (FlowState.packets st) !! t = Some ts -> count_ok (TargetState.counters ts);
  sn_pending t q : PacketState.pending (FlowState.packets st) !! t = Some q ->
    0 <= PendingCounters.up q /\ 0 <= PendingCounters.down q
}.

Record rows_ok (b : MinuteBucket.t) : Prop := {
  ro_users k r : MinuteBucket.users b !! k = Some r ->
    UserMinute.key r = k /\ 0 <= UserMinute.uplink_bytes r /\ 0 <= UserMinute.downlink_bytes r;
  ro_domains k r : MinuteBucket.domains b !! k = Some r ->
    DomainMinute.user r = DomainKey.user k /\ 0 <= DomainMinute.uplink_bytes r /\ 0 <= DomainMinute.downlink_bytes r
}.

Lemma count_ok_add u d c : 0 <= u -> 0 <= d -> count_ok c -> count_ok (Counters.add u d c).
Proof. intros ? ? [? ?]. split; cbn; apply wrapping_add64_le; lia. Qed.

(** ** One direction, by user rows or by domain rows *)

Section ledger.
Context {Env : AnalysisEnv}.
Context (by_domain downlink : bool) (epoch : Z) (user : UserKey.t).

Definition side (up down : Z) : Z := if downlink then down else up.
Definition count (c : Counters.t) : Z := side (Counters.up c) (Counters.down c).
Definition pending_count (q : PendingCounters.t) : Z := side (PendingCounters.up q) (PendingCounters.down q).

Definition is_udp_user (k : UserKey.t) : bool := bool_decide (UserKey.network k = "udp").

(** What a state still counts. *)
Definition amount (st : FlowState.t) : Z :=
  map_total pending_count (PacketState.pending (FlowState.packets st))
  + (if by_domain && is_udp_user (FlowState.owner st)
     then map_total (fun ts => count (TargetState.counters ts)) (PacketState.targets (FlowState.packets st))
          + count (PacketState.unknown (FlowState.packets st))
     else count (FlowState.counters st)).

Definition mine (e : Z) (k : UserKey.t) : bool := (e =? epoch) && bool_decide (k = user).

Definition state_bytes (st : FlowState.t) : Z :=
  if mine (FlowState.epoch st) (FlowState.owner st) then amount st else 0.

Definition user_row_bytes (r : UserMinute.t) : Z :=
  if bool_decide (UserMinute.key r = user) then side (UserMinute.uplink_bytes r) (UserMinute.downlink_bytes r) else 0.
Definition domain_row_bytes (r : DomainMinute.t) : Z :=
  if bool_decide (DomainMinute.user r = user) then side (DomainMinute.uplink_bytes r) (DomainMinute.downlink_bytes r)
  else 0.

Definition rows_bytes (m : Batch.t) : Z :=
  if by_domain then total domain_row_bytes (Batch.domain_minutes m) else total user_row_bytes (Batch.user_minutes m).
Definition batch_bytes (m : Batch.t) : Z := if Batch.epoch m =? epoch then rows_bytes m else 0.
Definition bucket_bytes (b : MinuteBucket.t) : Z :=
  if by_domain then map_total domain_row_bytes (MinuteBucket.domains b)
  else map_total user_row_bytes (MinuteBucket.users b).

(** The minute being filled belongs to the collector's epoch. *)
Definition open_bytes (w : World) : Z :=
  if Inner.epoch (inner (col w)) =? epoch
  then from_option bucket_bytes 0 (Inner.bucket (inner (col w)))
       + match work w with WSample _ _ b _ _ => bucket_bytes b | _ => 0 end
  else 0.

Definition packet_bytes {A} (p : A * Z * Z) : Z := side p.1.2 p.2.

(** What a call in progress may still record. *)
Definition thread_bytes (w : World) (t : thread) : Z :=
  let of_flow f e z :=
    match flow_heap w !! f with
    | Some flow => if mine e (UserKey.from (Flow.meta flow)) then z else 0
    | None => 0
    end in
  let of_state s z :=
    match states w !! s with
    | Some st => if mine (FlowState.epoch st) (FlowState.owner st) then z else 0
    | None => 0
    end in
  match t with
  | TFinish f e up down _ _ => of_flow f e (side up down)
  | TBatch f e packets => of_flow f e (total packet_bytes packets)
  | TAdd _ s up down => of_state s (side up down)
  | TRecord _ s packets _ => of_state s (total packet_bytes packets)
  | _ => 0
  end.

Definition account (x : Z * UserKey.t * Z * Z) : Z :=
  let '(e, k, up, down) := x in if mine e k then side up down else 0.
Definition finished_bytes (w : World) : Z := total account (finished w).

Definition queued_bytes (w : World) : Z := total batch_bytes (log (col w)).

Definition ledger (w : World) : Z :=
  queued_bytes w + open_bytes w + map_total state_bytes (states w) + map_total (thread_bytes w) (threads w).

Lemma side_nonneg u d : 0 <= u -> 0 <= d -> 0 <= side u d.
Proof. unfold side. by destruct downlink. Qed.

Lemma count_nonneg c : count_ok c -> 0 <= count c.
Proof. intros [? ?]. by apply side_nonneg. Qed.

Lemma count_add u d c : 0 <= u -> 0 <= d -> count_ok c -> count (Counters.add u d c) <= count c + side u d.
Proof.
  intros ? ? [? ?]. unfold count, side. cbn.
  pose proof (wrapping_add64_le (Counters.up c) u). pose proof (wrapping_add64_le (Counters.down c) d). destruct downlink; lia.
Qed.

Lemma amount_nonneg st : state_nonneg st -> 0 <= amount st.
Proof.
  intros [C U T P]. unfold amount.
  assert (0 <= map_total pending_count (PacketState.pending (FlowState.packets st))) by (apply map_total_nonneg; intros j q Hq; by apply side_nonneg; apply (P j q)).
  destruct (_ && _); [|pose proof (count_nonneg _ C); lia].
  assert (0 <= map_total (fun ts => count (TargetState.counters ts)) (PacketState.targets (FlowState.packets st))) by (apply map_total_nonneg; intros j q Hq; apply count_nonneg; by apply (T j q)).
  pose proof (count_nonneg _ U). lia.
Qed.

(** ** Sections under a flow's lock

    [pays p v v']: from [v] to [v'] the state gains at most [p]. *)
Definition pays (p : Z) (v v' : view) : Prop :=
  state_nonneg v.2 -> state_nonneg v'.2 /\ amount v'.2 <= amount v.2 + p.

Lemma pays_refl v : pays 0 v v.
Proof. intros H. split; [done|lia]. Qed.

Lemma pays_trans p q v1 v2 v3 : pays p v1 v2 -> pays q v2 v3 -> pays (p + q) v1 v3.
Proof. intros H12 H23 H. destruct (H12 H) as [H2 ?]. destruct (H23 H2) as [H3 ?]. split; [done|lia]. Qed.

Lemma pays_le p q v v' : pays p v v' -> p <= q -> pays q v v'.
Proof. intros Hp Hq H. destruct (Hp H). split; [done|lia]. Qed.

(** The state is the same, or differs in what is not counted. *)
Lemma pays_state v v' : v'.2 = v.2 -> pays 0 v v'.
Proof. intros E. unfold pays. rewrite E. apply pays_refl. Qed.

(** Packets with the same amounts. *)
Lemma pays_packets g v p :
  (state_nonneg v.2 -> state_nonneg (on_packets g v).2) ->
  (state_nonneg v.2 -> amount (on_packets g v).2 <= amount v.2 + p) -> pays p v (on_packets g v).
Proof. intros H1 H2 H. auto. Qed.

Lemma mark_web_seen_state v : exists b, (mark_web_seen v).2 = FlowState.set_started b v.2.
Proof.
  destruct v as [[c f] s]. unfold mark_web_seen. destruct (Flow.web_seen f); [|by exists true].
  exists (FlowState.started s). by destruct s.
Qed.

Lemma started_nonneg b st : state_nonneg st -> state_nonneg (FlowState.set_started b st).
Proof. by intros []. Qed.

(** Bytes recorded for a target, as the caller puts the target back. *)
Lemma record_web_pays up down t state v :
  0 <= up -> 0 <= down ->
  from_option (fun ts => ts = state) (count_ok (TargetState.counters state) /\ count (TargetState.counters state) = 0)
    (PacketState.targets (packets_of v) !! t) ->
  pays (side up down) v
    (on_packets (fun p => PacketState.set_targets (<[t := (record_web_packet up down state v).2]> (PacketState.targets p)) p)
       (record_web_packet up down state v).1).
Proof.
  intros Hu Hd Ht H. pose proof (side_nonneg up down Hu Hd) as Hs.
  assert (count_ok (TargetState.counters state) /\
    from_option (fun ts => count (TargetState.counters ts)) 0 (PacketState.targets (packets_of v) !! t) = count (TargetState.counters state))
    as [Hc Ho].
  { destruct (PacketState.targets (packets_of v) !! t) as [ts|] eqn:E; cbn in *; [subst ts|by destruct Ht].
    split; [|done]. apply H in E. done. }
  pose proof H as [C U T P]. unfold record_web_packet. destruct (_ && _); cbn [fst snd].
  - destruct v as [[c f] s]. cbn. split.
    + constructor; cbn; try done. intros t' ts. rewrite lookup_insert_Some. intros [[_ <-]|[_ Hx]]; [done|by apply (T t')].
    + unfold amount. cbn. destruct (_ && _); [|lia]. rewrite map_total_insert. unfold packets_of in Ho. cbn in Ho. lia.
  - destruct v as [[c f] s]. cbn [fst snd]. unfold mark_web_seen. set (s' := FlowState.set_counters _ s).
    assert (forall c' f' b, let v' := on_packets (fun p => PacketState.set_targets (<[t := TargetState.mk (Counters.add up down (TargetState.counters state))
       (TargetState.started state || negb (TargetState.observed state)) true (TargetState.classification state)]> (PacketState.targets p)) p)
       (c', f', FlowState.set_started b s') in state_nonneg v'.2 /\ amount v'.2 <= amount s + side up down) as K.
    { intros c' f' b. cbn. split.
      - constructor; cbn; try done; [by apply count_ok_add|].
        intros t' ts. rewrite lookup_insert_Some. intros [[_ <-]|[_ Hx]]; [by apply count_ok_add|by apply (T t')].
      - unfold amount. cbn. destruct (_ && _); [|pose proof (count_add up down (FlowState.counters s)); unfold s'; cbn; naive_solver lia].
        rewrite map_total_insert. unfold packets_of in Ho. cbn in Ho. pose proof (count_add up down _ Hu Hd Hc). cbn. lia. }
    destruct (Flow.web_seen f); [|apply K]. specialize (K c f (FlowState.started s')). by destruct s.
Qed.

Lemma record_unknown_pays up down identified v :
  0 <= up -> 0 <= down -> pays (side up down) v (record_unknown_web up down identified v).
Proof.
  intros Hu Hd H. pose proof (side_nonneg up down Hu Hd) as Hs. unfold record_unknown_web. destruct (_ && _); [split; [done|lia]|].
  destruct v as [[c f] s]. set (s' := FlowState.set_counters _ s). pose proof H as [C U T P]. cbn [fst snd] in *.
  assert (forall c' f' b, let v' := on_packets (fun p =>
      PacketState.set_unknown (Counters.add up down (PacketState.unknown p))
        (if identified then Counters.add up down (PacketState.unknown_identified p) else PacketState.unknown_identified p) p)
      (c', f', FlowState.set_started b s') in state_nonneg v'.2 /\ amount v'.2 <= amount s + side up down) as K.
  { intros c' f' b. cbn. split; [constructor; cbn; try done; by apply count_ok_add|]. unfold amount. cbn.
    pose proof (count_add up down _ Hu Hd C). pose proof (count_add up down _ Hu Hd U). destruct (_ && _); cbn; lia. }
  unfold mark_web_seen. destruct (Flow.web_seen f); [|apply K]. specialize (K c f (FlowState.started s')). by destruct s.
Qed.

Lemma map_total_filter_le `{Countable K} {A} (f : A -> Z) (P : K * A -> Prop) `{forall x, Decision (P x)} (m : gmap K A) :
  (forall k x, m !! k = Some x -> 0 <= f x) -> map_total f (filter P m) <= map_total f m.
Proof.
  induction m as [|k x m Hk IH] using map_ind; intros Hn; [by rewrite map_filter_empty|].
  assert (forall j y, m !! j = Some y -> 0 <= f y) as Hm.
  { intros j y Hy. apply (Hn j). rewrite lookup_insert_ne; [done|congruence]. }
  specialize (IH Hm). pose proof (Hn k x (lookup_insert_eq _ _ _)). rewrite map_total_insert, Hk. cbn.
  destruct (decide (P (k, x))).
  - rewrite map_filter_insert_True by done. rewrite map_total_insert.
    assert (filter P m !! k = None) as -> by (apply map_lookup_filter_None; by left). cbn. lia.
  - rewrite map_filter_insert_False by done. rewrite delete_id by done. lia.
Qed.

Lemma expire_pending_pays now v : pays 0 v (expire_pending now v).
Proof.
  destruct v as [[c f] s]. intros H. pose proof H as [C U T P]. cbn in *. split.
  - constructor; cbn; try done. intros t q [Hq _]%map_lookup_filter_Some. by apply (P t).
  - unfold amount. cbn. assert (forall t q, PacketState.pending (FlowState.packets s) !! t = Some q -> 0 <= pending_count q) as Hn
      by (intros t q Hq; apply side_nonneg; by apply (P t q)).
    pose proof (map_total_filter_le pending_count (fun kv => PendingCounters.recent now kv.2 = true) _ Hn). unfold packets_of. cbn. lia.
Qed.

Lemma admit_initial_pays target v : pays 0 v (admit_initial target v).
Proof.
  destruct v as [[c f] s]. unfold admit_initial. destruct (_ && _) eqn:Hc; [|apply pays_refl].
  apply andb_prop in Hc as [_ Hc]. apply negb_true_iff, bool_decide_eq_false, eq_None_not_Some in Hc.
  destruct (_ <=? _); [by apply pays_state|]. destruct (reserve_target (limits c) c) as [c' ok]. destruct ok; [|by apply pays_state].
  intros H. pose proof H as [C U T P]. cbn in *. split.
  - constructor; cbn; try done. intros t ts. rewrite lookup_insert_Some. intros [[_ <-]|[_ Hx]]; [done|by apply (T t)].
  - unfold amount. cbn. destruct (_ && _); [|lia]. rewrite map_total_insert, Hc. unfold count, side. cbn. destruct downlink; lia.
Qed.

Lemma record_bounds now up down q :
  0 <= up -> 0 <= down -> 0 <= PendingCounters.up q -> 0 <= PendingCounters.down q ->
  let q' := PendingCounters.record now up down q in
  0 <= PendingCounters.up q' /\ 0 <= PendingCounters.down q' /\ pending_count q' <= pending_count q + side up down.
Proof.
  intros Hu Hd Hq1 Hq2. unfold PendingCounters.record. pose proof (side_nonneg up down Hu Hd). destruct (_ || _); cbn; [lia|].
  unfold pending_count, side. cbn. destruct downlink; lia.
Qed.

(** Counting a packet of a pending target. *)
Lemma count_pending_pays now target up down v :
  0 <= up -> 0 <= down ->
  pays (side up down) v
    (on_packets (fun p => PacketState.set_pending (alter (PendingCounters.record now up down) target (PacketState.pending p)) p) v).
Proof.
  intros Hu Hd. destruct v as [[c f] s]. intros H. pose proof H as [C U T P]. cbn in *. split.
  - constructor; cbn; try done. intros t q. rewrite lookup_alter_Some. intros [[_ (q0 & Hq & ->)]|[_ Hq]]; [|by apply (P t)].
    destruct (P _ _ Hq). pose proof (record_bounds now up down q0). naive_solver lia.
  - pose proof (side_nonneg up down Hu Hd). unfold amount. cbn.
    destruct (PacketState.pending (FlowState.packets s) !! target) as [q|] eqn:Hq.
    + destruct (P _ _ Hq). pose proof (record_bounds now up down q). rewrite (map_total_alter _ _ _ _ q Hq). naive_solver lia.
    + assert (alter (PendingCounters.record now up down) target (PacketState.pending (FlowState.packets s)) =
              PacketState.pending (FlowState.packets s)) as ->; [|lia].
      apply map_eq. intros j. destruct (decide (j = target)) as [->|Hj]; [by rewrite lookup_alter_eq, Hq|by rewrite lookup_alter_ne].
Qed.

Lemma record_pending_pays now target up down v :
  0 <= up -> 0 <= down -> pays (side up down) v (record_pending now target up down v).
Proof.
  intros Hu Hd. unfold record_pending. pose proof (side_nonneg up down Hu Hd) as Hs.
  apply (pays_trans 0 _ v (expire_pending now v)); [apply expire_pending_pays|].
  destruct (expire_pending now v) as [[c f] s]. case_bool_decide as Hc; [by apply count_pending_pays|]. apply eq_None_not_Some in Hc.
  destruct (_ <=? _); [by eapply pays_le; [apply pays_state|]|].
  destruct (reserve_pending_target (limits c) c) as [c' ok]. destruct ok; [|by eapply pays_le; [apply pays_state|]].
  apply (pays_trans 0 _ _ (on_packets (fun p => PacketState.set_pending (<[target := PendingCounters.fresh now]> (PacketState.pending p)) p) (c', f, s)));
    [|by apply count_pending_pays].
  intros H. pose proof H as [C U T P]. cbn in *. split.
  - constructor; cbn; try done. intros t q. rewrite lookup_insert_Some. intros [[_ <-]|[_ Hx]]; [done|by apply (P t)].
  - unfold amount. cbn. rewrite map_total_insert, Hc. unfold pending_count, side. cbn. destruct downlink; lia.
Qed.

Lemma record_packet_pays now target up down known_web v :
  0 <= up -> 0 <= down -> pays (side up down) v (record_packet now target up down known_web v).
Proof.
  intros Hu Hd. pose proof (side_nonneg up down Hu Hd) as Hs. unfold record_packet.
  assert (forall v', v'.2 = v.2 -> pays (side up down) v v') as Hid by (intros; by eapply pays_le; [apply pays_state|]).
  destruct (_ && _); [by apply Hid|]. destruct (fenced v); [by apply Hid|]. destruct target as [t|]; [|by apply Hid].
  destruct (negb (valid_target t)); [destruct (valid_observation_string _); [|destruct v as [[c f] s]]; by apply Hid|].
  apply (pays_trans 0 _ v (admit_initial t v)); [apply admit_initial_pays|]. set (v1 := admit_initial t v).
  destruct (PacketState.targets (packets_of v1) !! t) as [state|] eqn:Ht.
  - pose proof (record_web_pays up down t state v1 Hu Hd) as K. rewrite Ht in K. specialize (K eq_refl).
    by destruct (record_web_packet up down state v1) as [v2 state'].
  - destruct (initial_web _ t), known_web; (by apply record_unknown_pays) || by apply record_pending_pays.
Qed.

(** ** Classification and discarding: a pending entry is taken out and recorded, or lost *)

Definition taken_bytes (pending : option PendingCounters.t) : Z := from_option pending_count 0 pending.
Definition taken_ok (pending : option PendingCounters.t) : Prop :=
  from_option (fun q => 0 <= PendingCounters.up q /\ 0 <= PendingCounters.down q) True pending.

Lemma taken_nonneg pending : taken_ok pending -> 0 <= taken_bytes pending.
Proof. destruct pending as [q|]; [|done]. intros [? ?]. by apply side_nonneg. Qed.

Lemma take_pending_pays target v :
  pays (- taken_bytes (take_pending target v).2) v (take_pending target v).1 /\
  (state_nonneg v.2 -> taken_ok (take_pending target v).2).
Proof.
  destruct v as [[c f] s]. unfold take_pending, packets_of, taken_bytes, taken_ok. cbn. split.
  - intros H. pose proof H as [C U T P]. cbn in *. split.
    + constructor; cbn; try done. intros t q [_ Hq]%lookup_delete_Some. by apply (P t).
    + unfold amount. cbn. rewrite map_total_delete. lia.
  - intros [C U T P]. cbn in *. destruct (PacketState.pending (FlowState.packets s) !! target) as [q|] eqn:Hq; [|done]. by apply (P target).
Qed.

Lemma promote_pays now pending identified v :
  taken_ok pending -> pays (taken_bytes pending) v (promote_pending_unknown now pending identified v).
Proof.
  intros Hp. pose proof (taken_nonneg _ Hp) as Hn. unfold promote_pending_unknown. destruct pending as [q|]; [|apply pays_refl].
  destruct Hp. destruct (PendingCounters.recent now q); [by apply record_unknown_pays|by eapply pays_le; [apply pays_refl|]].
Qed.

Lemma classify_web_pays now target domain web ech_present pending v :
  PacketState.targets (packets_of v) !! target = None -> taken_ok pending ->
  pays (taken_bytes pending) v (classify_web now target domain web ech_present pending v).
Proof.
  intros Hn Hp. pose proof (taken_nonneg _ Hp) as Hb. destruct v as [[c f] s]. unfold classify_web.
  destruct (_ <=? _); [apply (pays_trans 0 _ _ (on_collector (set_stats (Stats.limited "target_limit")) (c, f, s))); [by apply pays_state|by apply promote_pays]|].
  destruct (reserve_target (limits c) c) as [c' ok]. destruct ok; cbn [negb].
  2: { apply (pays_trans 0 _ _ (c', f, s)); [by apply pays_state|by apply promote_pays]. }
  set (state := TargetState.fresh _).
  assert (count_ok (TargetState.counters state) /\ count (TargetState.counters state) = 0) as Hz
    by (split; [done|unfold count, side; by destruct downlink]).
  assert (forall u d, 0 <= u -> 0 <= d -> pays (side u d) (c', f, s) (on_packets (fun p => PacketState.set_targets
      (<[target := (record_web_packet u d state (c', f, s)).2]> (PacketState.targets p)) p) (record_web_packet u d state (c', f, s)).1)) as K.
  { intros u d Hu Hd. apply record_web_pays; [done..|]. unfold packets_of in *. cbn in *. by rewrite Hn. }
  apply (pays_trans 0 _ _ (c', f, s)); [by apply pays_state|].
  assert (pays 0 (c', f, s) (on_packets (fun p => PacketState.set_targets (<[target := state]> (PacketState.targets p)) p) (c', f, s))) as K0.
  { specialize (K 0 0 ltac:(done) ltac:(done)). eapply pays_le; [exact K|]. unfold side. by destruct downlink. }
  destruct pending as [q|]; [|exact K0]. destruct Hp as [Hu Hd]. destruct (PendingCounters.recent now q).
  - specialize (K _ _ Hu Hd). by destruct (record_web_packet (PendingCounters.up q) (PendingCounters.down q) state (c', f, s)).
  - by eapply pays_le; [exact K0|].
Qed.

Lemma drop_taken_pays pending v : pays 0 v (drop_taken pending v).
Proof. apply pays_state. by destruct v as [[c f] s], pending. Qed.

Lemma classify_locked_pays now target domain app ech_present v :
  pays 0 v (classify_locked now target domain app ech_present v).
Proof.
  unfold classify_locked. destruct (fenced v); [apply pays_refl|]. destruct (_ || _) eqn:Hc; [apply pays_refl|].
  apply orb_false_iff in Hc as [Hc _]. apply bool_decide_eq_false, eq_None_not_Some in Hc.
  destruct (take_pending_pays target v) as [K1 K2]. intros H. specialize (K2 H). revert H. fold (pays 0 v).
  change (pays 0 v (let '(v, pending) := take_pending target v in drop_taken pending
    match web_protocol app with None => v | Some web => classify_web now target domain web ech_present pending v end)).
  assert (PacketState.targets (packets_of (take_pending target v).1) !! target = None) as Hn by by destruct v as [[c f] s].
  destruct (take_pending target v) as [v1 pending]. cbn [fst snd] in *. pose proof (taken_nonneg _ K2) as Hb.
  eapply pays_le; [eapply pays_trans; [exact K1|eapply pays_trans; [|apply drop_taken_pays]]|].
  - destruct (web_protocol app); [by apply classify_web_pays|]. by eapply pays_le; [apply pays_refl|exact Hb].
  - lia.
Qed.

Lemma discard_locked_pays target v : pays 0 v (discard_locked target v).
Proof.
  unfold discard_locked. destruct (take_pending_pays target v) as [K1 K2]. intros H. specialize (K2 H). revert H.
  change (pays 0 v (let '(v, pending) := take_pending target v in drop_taken pending v)).
  destruct (take_pending target v) as [v1 pending]. cbn [fst snd] in *. pose proof (taken_nonneg _ K2) as Hb.
  eapply pays_le; [eapply pays_trans; [exact K1|apply drop_taken_pays]|]. lia.
Qed.

(** ** Draining a state *)

Definition drained_bytes (udp : bool) (dr : Drained.t) : Z :=
  if by_domain && udp
  then total (fun s => side (Sample.up s) (Sample.down s)) (Drained.samples dr) + count (Drained.unknown dr)
  else side (Drained.up dr) (Drained.down dr).

Record drained_nonneg (dr : Drained.t) : Prop := {
  dn_up : 0 <= Drained.up dr;
  dn_down : 0 <= Drained.down dr;
  dn_samples s : s ∈ Drained.samples dr -> 0 <= Sample.up s /\ 0 <= Sample.down s;
  dn_unknown : count_ok (Drained.unknown dr)
}.

Lemma samples_total l :
  total (fun s => side (Sample.up s) (Sample.down s)) (omap sample_of l) =
  total (fun kv => count (TargetState.counters kv.2)) l.
Proof.
  induction l as [|[t ts] l IH]; [done|]. rewrite total_cons, <- IH. cbn -[total sample_of].
  destruct (sample_of (t, ts)) as [smp|] eqn:E; unfold sample_of in E.
  - destruct (_ && _); [done|]. injection E as <-. done.
  - destruct (_ && _) eqn:Hz; [|done]. rewrite !andb_true_iff, !Z.eqb_eq in Hz. destruct Hz as [[Hu Hd] _].
    unfold count, side. rewrite Hu, Hd. by destruct downlink.
Qed.

Lemma sample_of_ok t ts smp :
  sample_of (t, ts) = Some smp -> count_ok (TargetState.counters ts) -> 0 <= Sample.up smp /\ 0 <= Sample.down smp.
Proof. unfold sample_of. destruct (_ && _); [done|]. by intros [= <-] [? ?]. Qed.

Lemma drain_flow_spec now v :
  state_nonneg v.2 -> is_udp_user (FlowState.owner v.2) = is_udp (Flow.meta v.1.2) ->
  let '(v', dr) := drain_flow now v in
  state_nonneg v'.2 /\ drained_nonneg dr /\ amount v'.2 + drained_bytes (is_udp (Flow.meta v.1.2)) dr <= amount v.2.
Proof.
  intros H Eu. destruct v as [[c f] s]. unfold drain_flow. cbn [fst snd] in *.
  pose proof H as [[C1 C2] U T P]. destruct (is_udp (Flow.meta f)) eqn:Hu.
  - set (v1 := (c, f, FlowState.set_started false (FlowState.set_counters Counters.zero s))).
    assert (state_nonneg v1.2) as H1 by by constructor.
    destruct (expire_pending_pays now v1 H1) as [H2 A2].
    assert (packets_of (expire_pending now v1) = PacketState.set_pending (PacketState.pending (packets_of (expire_pending now v1))) (packets_of v1)) as Ep
      by done.
    assert (FlowState.owner (expire_pending now v1).2 = FlowState.owner s /\ FlowState.counters (expire_pending now v1).2 = Counters.zero) as [Eo Ec] by done.
    set (v2 := expire_pending now v1) in *. clearbody v2. destruct v2 as [[c2 f2] s2]. unfold packets_of in *. cbn [fst snd] in *.
    pose proof H2 as [C' U' T' P']. rewrite Ep. cbn. split_and!.
    + constructor; cbn; try done. intros t ts. rewrite lookup_fmap_Some. by intros (ts0 & <- & _).
    + constructor; cbn; try done. intros smp ([t ts] & Hin & Hs)%list_elem_of_omap. eapply sample_of_ok; [exact Hs|].
      rewrite hash_targets_perm in Hin. apply elem_of_map_to_list in Hin. by apply (T t).
    + unfold amount, drained_bytes in *. cbn -[total map_total hash_targets] in *. rewrite Eo in *. rewrite Eu in *. rewrite Ec in *.
      assert (count Counters.zero = 0) as Hz by (unfold count, side; by destruct downlink).
      assert (map_total (fun ts => count (TargetState.counters ts)) (TargetState.drain <$> PacketState.targets (FlowState.packets s)) = 0) as Hd.
      { rewrite (map_total_ext _ (fun _ => 0)); [by rewrite map_total_const|]. intros k x. rewrite lookup_fmap_Some. by intros (x0 & <- & _). }
      rewrite samples_total, hash_targets_perm. fold (map_total (fun ts => count (TargetState.counters ts)) (PacketState.targets (FlowState.packets s))).
      assert (PacketState.targets (FlowState.packets s2) = PacketState.targets (FlowState.packets s)) as Et by by rewrite Ep.
      rewrite Ep in A2. cbn -[total map_total] in A2.
      destruct by_domain; cbn [andb] in *; rewrite ?Ec, ?Hz in *; [rewrite Et, Hd; lia|unfold count in *; lia].
  - split_and!; [by constructor|constructor; cbn; try done; set_solver|].
    unfold amount, drained_bytes. cbn. rewrite Eu, andb_false_r. unfold count, side. cbn. destruct downlink; lia.
Qed.

Lemma retire_spec c s :
  state_nonneg s -> let '(_, s', targets) := retire c s in
  state_nonneg s' /\ amount s' <= amount s /\ FlowState.epoch s' = FlowState.epoch s /\ FlowState.owner s' = FlowState.owner s /\
  forall t ts, targets !! t = Some ts -> count_ok (TargetState.counters ts).
Proof.
  intros H. pose proof H as [C U T P]. cbn. split_and!; try done.
  unfold amount. cbn. rewrite !map_total_empty.
  assert (0 <= map_total pending_count (PacketState.pending (FlowState.packets s))) by (apply map_total_nonneg; intros j q Hq; by apply side_nonneg; apply (P j q)).
  destruct (_ && _); [|lia].
  assert (0 <= map_total (fun ts => count (TargetState.counters ts)) (PacketState.targets (FlowState.packets s))) by (apply map_total_nonneg; intros j q Hq; apply count_nonneg; by apply (T j q)).
  lia.
Qed.
End ledger.

(** ** Traffic analysis: the bytes of a user in the minute being filled

    Filling the minute from one flow adds at most what was drained from it, to
    the rows of its own user ([aggregate_adds]); sealing the minute queues at most
    what its rows hold ([seal_queues]). *)

Open Scope Z_scope.

Section rows.
Context {Env : AnalysisEnv}.
Context (by_domain downlink : bool) (epoch : Z) (user : UserKey.t).

Local Abbreviation side := (side downlink).
Local Abbreviation count := (count downlink).
Local Abbreviation bucket_bytes := (bucket_bytes by_domain downlink user).
Local Abbreviation user_row_bytes := (user_row_bytes downlink user).
Local Abbreviation domain_row_bytes := (domain_row_bytes downlink user).
Local Abbreviation drained_bytes := (drained_bytes by_domain downlink).

(** [z] if the row is the user's own. *)
Definition own (k : UserKey.t) (z : Z) : Z := if bool_decide (k = user) then z else 0.
Definition domain_part (z : Z) : Z := if by_domain then z else 0.
Definition user_part (z : Z) : Z := if by_domain then 0 else z.

Lemma own_nonneg k z : 0 <= z -> 0 <= own k z.
Proof. unfold own. by case_bool_decide. Qed.

(** From [x] to [y] the minute gains at most [p]. *)
Definition adds (p : Z) (x y : Collector * MinuteBucket.t) : Prop :=
  rows_ok x.2 -> rows_ok y.2 /\ bucket_bytes y.2 <= bucket_bytes x.2 + p.

Lemma adds_refl x : adds 0 x x.
Proof. intros H. split; [done|lia]. Qed.

Lemma adds_trans p q x y z : adds p x y -> adds q y z -> adds (p + q) x z.
Proof. intros H12 H23 H. destruct (H12 H) as [H2 ?]. destruct (H23 H2) as [H3 ?]. split; [done|lia]. Qed.

Lemma adds_le p q x y : adds p x y -> p <= q -> adds q x y.
Proof. intros Hp Hq H. destruct (Hp H). split; [done|lia]. Qed.

(** Only the counters of the collector, the stack or the cost change. *)
Lemma adds_same x y :
  MinuteBucket.users y.2 = MinuteBucket.users x.2 -> MinuteBucket.domains y.2 = MinuteBucket.domains x.2 -> adds 0 x y.
Proof.
  intros Eu Ed [U D]. split; [constructor; [by rewrite Eu|by rewrite Ed]|].
  unfold AnalysisLedger.bucket_bytes. rewrite Eu, Ed. destruct by_domain; lia.
Qed.

(** The domain rows change. *)
Lemma adds_domains c c' b b' p :
  MinuteBucket.users b' = MinuteBucket.users b ->
  (rows_ok b -> (forall k r, MinuteBucket.domains b' !! k = Some r ->
     DomainMinute.user r = DomainKey.user k /\ 0 <= DomainMinute.uplink_bytes r /\ 0 <= DomainMinute.downlink_bytes r) /\
   map_total domain_row_bytes (MinuteBucket.domains b') <= map_total domain_row_bytes (MinuteBucket.domains b) + p) ->
  adds (domain_part p) (c, b) (c', b').
Proof.
  intros Eu Hd H. destruct (Hd H) as [D Hp]. pose proof H as [U _]. split.
  - constructor; [cbn; by rewrite Eu|done].
  - unfold AnalysisLedger.bucket_bytes, domain_part. cbn [snd]. rewrite Eu. destruct by_domain; lia.
Qed.

Lemma domain_row_nonneg b k r : rows_ok b -> MinuteBucket.domains b !! k = Some r -> 0 <= domain_row_bytes r.
Proof.
  intros [_ D] Hr. destruct (D k r Hr) as (_ & Hu & Hd). unfold AnalysisLedger.domain_row_bytes. case_bool_decide; [|done].
  by apply side_nonneg.
Qed.

Lemma empty_domain_bytes minute key : domain_row_bytes (DomainKey.row minute key) = 0.
Proof. unfold AnalysisLedger.domain_row_bytes, AnalysisLedger.side. cbn. case_bool_decide; by destruct downlink. Qed.

Lemma new_domain_adds c c' key b : adds (domain_part 0) (c, b) (c', new_domain key b).
Proof.
  apply adds_domains; [done|]. intros H. pose proof H as [U D]. cbn. split.
  - intros k r. rewrite lookup_insert_Some. intros [[<- <-]|[_ Hr]]; [|by apply D]. by destruct key as [[] ? ? ? ?].
  - rewrite map_total_insert, empty_domain_bytes.
    destruct (MinuteBucket.domains b !! key) as [r|] eqn:Hr; cbn; [pose proof (domain_row_nonneg b key r H Hr)|]; lia.
Qed.

Lemma domain_part_zero : domain_part 0 = 0.
Proof. unfold domain_part. by destruct by_domain. Qed.

(** Adding to a row of a map of domain rows. *)
Lemma add_row_bytes u d s r :
  0 <= u -> 0 <= d -> 0 <= DomainMinute.uplink_bytes r -> 0 <= DomainMinute.downlink_bytes r ->
  let r' := DomainMinute.add u d s r in
  DomainMinute.user r' = DomainMinute.user r /\ 0 <= DomainMinute.uplink_bytes r' /\ 0 <= DomainMinute.downlink_bytes r' /\
  domain_row_bytes r' <= domain_row_bytes r + own (DomainMinute.user r) (side u d).
Proof.
  intros Hu Hd Hru Hrd. cbn. pose proof (wrapping_add64_le (DomainMinute.uplink_bytes r) u ltac:(lia)).
  pose proof (wrapping_add64_le (DomainMinute.downlink_bytes r) d ltac:(lia)). split_and!; [done|lia|lia|].
  unfold AnalysisLedger.domain_row_bytes, own, AnalysisLedger.side, DomainMinute.user in *. cbn.
  case_bool_decide; [|done]. destruct downlink; lia.
Qed.

Lemma alter_row_bytes key u d s (m : gmap DomainKey.t DomainMinute.t) :
  0 <= u -> 0 <= d ->
  (forall k r, m !! k = Some r ->
     DomainMinute.user r = DomainKey.user k /\ 0 <= DomainMinute.uplink_bytes r /\ 0 <= DomainMinute.downlink_bytes r) ->
  (forall k r, alter (DomainMinute.add u d s) key m !! k = Some r ->
     DomainMinute.user r = DomainKey.user k /\ 0 <= DomainMinute.uplink_bytes r /\ 0 <= DomainMinute.downlink_bytes r) /\
  map_total domain_row_bytes (alter (DomainMinute.add u d s) key m) <=
    map_total domain_row_bytes m + own (DomainKey.user key) (side u d).
Proof.
  intros Hu Hd D. pose proof (own_nonneg (DomainKey.user key) (side u d) (side_nonneg downlink u d Hu Hd)) as Hn. split.
  - intros k r. rewrite lookup_alter_Some. intros [[<- (r0 & Hr & ->)]|[_ Hr]]; [|by apply D].
    destruct (D _ _ Hr) as (E & ? & ?). destruct (add_row_bytes u d s r0) as (E' & ? & ? & _); [done..|]. by rewrite E', E.
  - destruct (m !! key) as [r|] eqn:Hr.
    + rewrite (map_total_alter _ _ _ _ r Hr). destruct (D _ _ Hr) as (E & ? & ?).
      destruct (add_row_bytes u d s r) as (_ & _ & _ & Hb); [done..|]. rewrite E in Hb. lia.
    + assert (alter (DomainMinute.add u d s) key m = m) as ->; [|lia].
      apply map_eq. intros j. destruct (decide (j = key)) as [->|Hj]; [by rewrite lookup_alter_eq, Hr|by rewrite lookup_alter_ne].
Qed.

Lemma evict_adds key c known b : adds (domain_part 0) (c, b) (c, (evict key known b).1).
Proof.
  revert b. induction known as [|old known IH]; intros b; cbn [evict]; [rewrite domain_part_zero; by apply adds_same|].
  destruct (MinuteBucket.domains b !! old) as [row|] eqn:Hr; [|apply IH]. cbn [fst].
  match goal with |- adds _ _ (c, new_domain key ?b1) => assert (adds (domain_part 0) (c, b) (c, b1)) as H1 end.
  - apply adds_domains; [done|]. intros H. pose proof H as [U D]. cbn. destruct (D _ _ Hr) as (E & Hu & Hd).
    assert (forall k r, delete old (MinuteBucket.domains b) !! k = Some r ->
      DomainMinute.user r = DomainKey.user k /\ 0 <= DomainMinute.uplink_bytes r /\ 0 <= DomainMinute.downlink_bytes r) as D'
      by (intros k r [_ Hk]%lookup_delete_Some; by apply D).
    destruct (alter_row_bytes (DomainKey.unknown (DomainKey.user old)) _ _ (DomainMinute.target_sessions row) _ Hu Hd D') as [D2 T2].
    split; [exact D2|]. rewrite map_total_delete, Hr in T2. cbn in T2.
    assert (domain_row_bytes row = own (DomainKey.user old) (side (DomainMinute.uplink_bytes row) (DomainMinute.downlink_bytes row))) as Er
      by (unfold AnalysisLedger.domain_row_bytes, own; by rewrite E). lia.
  - pose proof (adds_trans _ _ _ _ _ H1 (new_domain_adds c c key _)) as K. rewrite domain_part_zero in *. exact K.
Qed.

Lemma ensure_unknown_adds k cb : adds 0 cb (ensure_unknown k cb).1.
Proof.
  destruct cb as [c b]. unfold ensure_unknown. case_bool_decide; [apply adds_refl|].
  destruct (if domains_full c b then _ else _) as [c' ok]. destruct ok; [rewrite <- domain_part_zero; apply new_domain_adds|].
  pose proof (evict_adds (DomainKey.unknown k) c (MinuteBucket.known b) b) as K.
  destruct (evict (DomainKey.unknown k) (MinuteBucket.known b) b) as [b' ok]. rewrite domain_part_zero in K. exact K.
Qed.

Lemma add_domain_adds key u d s cb :
  0 <= u -> 0 <= d -> adds (domain_part (own (DomainKey.user key) (side u d))) cb (add_domain key u d s cb).
Proof.
  intros Hu Hd. destruct cb as [c b]. unfold add_domain. set (p := domain_part _).
  assert (0 <= p) as Hp by (unfold p, domain_part; destruct by_domain; [apply own_nonneg, (side_nonneg downlink u d Hu Hd)|done]).
  destruct (_ && _); [eapply adds_le; [apply adds_refl|done]|].
  set (cbk := if negb _ && _ then _ else _).
  assert (adds 0 (c, b) cbk.1 /\ DomainKey.user cbk.2 = DomainKey.user key) as [H1 Ek].
  { unfold cbk. destruct (_ && _); [|split; [apply adds_refl|done]].
    destruct (if domains_full c b then _ else _) as [c' ok]. destruct ok; (split; [|done]); [|by apply adds_same].
    cbn. eapply adds_le; [eapply adds_trans; [apply (new_domain_adds c c' key b)|by apply adds_same]|by rewrite domain_part_zero]. }
  destruct cbk as [[c1 b1] key']. cbn [fst snd] in H1, Ek.
  set (r := if bool_decide _ then _ else _).
  assert (adds 0 (c1, b1) r.1) as H2.
  { unfold r. case_bool_decide; [apply adds_refl|apply ensure_unknown_adds]. }
  destruct r as [[c2 b2] found]. cbn [fst snd] in H2. pose proof (adds_trans _ _ _ _ _ H1 H2) as H12.
  destruct found; [|eapply adds_le; [eapply adds_trans; [exact H12|by apply adds_same]|done]].
  pose proof (fun K => adds_trans _ p _ _ (c2, add_to_row key' u d s b2) H12 K) as K. apply K. clear K. unfold p. rewrite <- Ek.
  apply adds_domains; [done|]. intros [_ D]. by apply alter_row_bytes.
Qed.

(** ** One flow *)

Lemma on_user_adds k u d s c b :
  0 <= u -> 0 <= d -> adds (user_part (own k (side u d))) (c, b) (c, on_user k (UserMinute.add u d s) b).
Proof.
  intros Hu Hd H. pose proof H as [U D]. pose proof (own_nonneg k (side u d) (side_nonneg downlink u d Hu Hd)) as Hn.
  assert (forall r, 0 <= UserMinute.uplink_bytes r -> 0 <= UserMinute.downlink_bytes r ->
    0 <= UserMinute.uplink_bytes (UserMinute.add u d s r) /\ 0 <= UserMinute.downlink_bytes (UserMinute.add u d s r) /\
    user_row_bytes (UserMinute.add u d s r) <= user_row_bytes r + own (UserMinute.key r) (side u d)) as Hadd.
  { intros r Hru Hrd. pose proof (wrapping_add64_le (UserMinute.uplink_bytes r) u ltac:(lia)).
    pose proof (wrapping_add64_le (UserMinute.downlink_bytes r) d ltac:(lia)). cbn. split_and!; [lia|lia|].
    clear Hn. unfold AnalysisLedger.user_row_bytes, own, AnalysisLedger.side, UserMinute.key. cbn. case_bool_decide; [|done].
    destruct downlink; lia. }
  split.
  - constructor; cbn; [|done]. intros k' r. rewrite lookup_alter_Some. intros [[<- (r0 & Hr & ->)]|[_ Hr]]; [|by apply U].
    destruct (U _ _ Hr) as (E & ? & ?). split; [done|]. by destruct (Hadd r0) as (? & ? & _).
  - unfold AnalysisLedger.bucket_bytes, user_part. cbn. destruct by_domain; [lia|].
    destruct (MinuteBucket.users b !! k) as [r|] eqn:Hr.
    + rewrite (map_total_alter _ _ _ _ r Hr). destruct (U _ _ Hr) as (E & ? & ?). destruct (Hadd r) as (_ & _ & Hb); [done..|].
      rewrite E in Hb. lia.
    + assert (alter (UserMinute.add u d s) k (MinuteBucket.users b) = MinuteBucket.users b) as ->; [|lia].
      apply map_eq. intros j. destruct (decide (j = k)) as [->|Hj]; [by rewrite lookup_alter_eq, Hr|by rewrite lookup_alter_ne].
Qed.

Lemma identified_adds k u d c b : adds 0 (c, b) (c, on_user k (UserMinute.add_identified u d) b).
Proof.
  intros H. pose proof H as [U D]. split.
  - constructor; cbn; [|done]. intros k' r. rewrite lookup_alter_Some. intros [[<- (r0 & Hr & ->)]|[_ Hr]]; [|by apply U]. by apply U in Hr.
  - unfold AnalysisLedger.bucket_bytes. cbn. destruct by_domain; [lia|].
    destruct (MinuteBucket.users b !! k) as [r|] eqn:Hr.
    + rewrite (map_total_alter _ _ _ _ r Hr). unfold AnalysisLedger.user_row_bytes, UserMinute.key. cbn. lia.
    + assert (alter (UserMinute.add_identified u d) k (MinuteBucket.users b) = MinuteBucket.users b) as ->; [|lia].
      apply map_eq. intros j. destruct (decide (j = k)) as [->|Hj]; [by rewrite lookup_alter_eq, Hr|by rewrite lookup_alter_ne].
Qed.

Lemma ensure_user_adds k nonzero cb : adds 0 cb (ensure_user k nonzero cb).
Proof.
  destruct cb as [c b]. unfold ensure_user. destruct (_ || _) eqn:Hg; [apply adds_refl|].
  apply orb_false_iff in Hg as [Hg _]. apply bool_decide_eq_false, eq_None_not_Some in Hg.
  destruct (reserve USER_COST c) as [c' ok]. destruct ok; [|by apply adds_same].
  set (b' := MinuteBucket.set_cost _ _). apply (adds_trans 0 0 _ (c', b')); [|apply ensure_unknown_adds].
  intros H. pose proof H as [U D]. split.
  - constructor; cbn; [|done]. intros k' r. rewrite lookup_insert_Some. intros [[<- <-]|[_ Hr]]; [by destruct k|by apply U].
  - unfold AnalysisLedger.bucket_bytes. cbn. destruct by_domain; [lia|]. rewrite map_total_insert, Hg. cbn.
    unfold AnalysisLedger.user_row_bytes, AnalysisLedger.side. cbn. case_bool_decide; destruct downlink; lia.
Qed.

Lemma identity_user meta target packet : DomainKey.user (identity meta target packet) = UserKey.from meta.
Proof. unfold identity. by destruct (_ || _). Qed.

Lemma sample_key_user meta s : DomainKey.user (sample_key meta s) = UserKey.from meta.
Proof. unfold sample_key. destruct (Sample.classification s); cbn; apply identity_user. Qed.

Lemma place_samples_adds meta (retained : bool) l c b z :
  (forall s, s ∈ l -> 0 <= Sample.up s /\ 0 <= Sample.down s) ->
  adds (domain_part (own (UserKey.from meta) (total (fun s => side (Sample.up s) (Sample.down s)) l))) (c, b)
    (foldl (place_sample meta retained) (c, b, z) l).1.
Proof.
  revert c b z. induction l as [|smp l IH]; intros c b z Hl.
  - cbn. eapply adds_le; [apply adds_refl|]. unfold domain_part, own. destruct by_domain; [by case_bool_decide|done].
  - cbn [foldl]. destruct (Hl smp ltac:(by left)) as [Hu Hd]. pose proof (side_nonneg downlink _ _ Hu Hd) as Hs.
    unfold place_sample at 2. set (z' := if DomainKey.has_domain _ then _ else z).
    set (cb := if retained then _ else (c, b)).
    assert (adds (domain_part (own (UserKey.from meta) (side (Sample.up smp) (Sample.down smp)))) (c, b) cb) as H1.
    { unfold cb. destruct retained; [rewrite <- (sample_key_user meta smp); by apply add_domain_adds|].
      eapply adds_le; [apply adds_refl|]. unfold domain_part. destruct by_domain; [by apply own_nonneg|done]. }
    destruct cb as [c1 b1]. eapply adds_le; [eapply adds_trans; [exact H1|apply IH; intros s' Hs'; apply Hl; by right]|].
    rewrite total_cons. unfold domain_part, own. destruct by_domain; [|done]. case_bool_decide; lia.
Qed.

Lemma place_domains_adds meta dr (retained : bool) cb :
  drained_nonneg dr ->
  adds (domain_part (own (UserKey.from meta) (drained_bytes (is_udp meta) dr))) cb (place_domains meta dr retained cb).1.
Proof.
  intros [Hu Hd Hs Hk]. unfold place_domains, AnalysisLedger.drained_bytes, AnalysisLedger.count in *.
  assert (forall p, 0 <= p -> adds (domain_part (own (UserKey.from meta) p)) cb cb) as Hid.
  { intros p Hp. eapply adds_le; [apply adds_refl|]. unfold domain_part. destruct by_domain; [by apply own_nonneg|done]. }
  pose proof (side_nonneg downlink _ _ Hu Hd) as Hn.
  destruct (is_udp meta).
  - destruct cb as [c b]. pose proof (place_samples_adds meta retained (Drained.samples dr) c b Counters.zero Hs) as H1.
    destruct (foldl _ _ _) as [[c1 b1] z]. cbn [fst] in H1. set (cb := if retained then _ else _).
    destruct Hk as [Hku Hkd]. pose proof (side_nonneg downlink _ _ Hku Hkd) as Hkn.
    assert (adds (domain_part (own (UserKey.from meta) (side (Counters.up (Drained.unknown dr)) (Counters.down (Drained.unknown dr))))) (c1, b1) cb) as H2.
    { unfold cb. destruct retained; [by apply (add_domain_adds (DomainKey.unknown (UserKey.from meta)))|].
      eapply adds_le; [apply adds_refl|]. unfold domain_part. destruct by_domain; [by apply own_nonneg|done]. }
    destruct cb as [c2 b2]. cbn [fst]. eapply adds_le; [eapply adds_trans; [exact H1|exact H2]|].
    unfold domain_part, own. destruct by_domain; cbn [andb]; [|done]. case_bool_decide; lia.
  - rewrite andb_false_r. destruct (Drained.nonzero dr); [|by apply Hid]. set (key := identity _ _ _).
    pose proof (add_domain_adds key (Drained.up dr) (Drained.down dr) (Drained.started dr) cb Hu Hd) as H1.
    unfold key in H1 at 1. rewrite identity_user in H1. destruct retained; [|destruct cb; by apply Hid].
    by destruct (add_domain key _ _ _ cb) as [c1 b1].
Qed.

Lemma aggregate_adds meta dr cb :
  drained_nonneg dr -> adds (own (UserKey.from meta) (drained_bytes (is_udp meta) dr)) cb (aggregate meta dr cb).
Proof.
  intros Hd. pose proof Hd as [Hdu Hdd _ _]. unfold aggregate. pose proof (ensure_user_adds (UserKey.from meta) (Drained.nonzero dr) cb) as H1.
  destruct (ensure_user _ _ cb) as [c1 b1]. set (retained := bool_decide _). set (cb2 := if retained then _ else _).
  assert (adds (user_part (own (UserKey.from meta) (side (Drained.up dr) (Drained.down dr)))) (c1, b1) cb2) as H2.
  { unfold cb2. destruct retained; [by apply on_user_adds|]. eapply adds_le.
    - destruct (Drained.nonzero dr); by apply adds_same.
    - unfold user_part. destruct by_domain; [done|]. by apply own_nonneg, side_nonneg. }
  destruct cb2 as [c2 b2]. pose proof (place_domains_adds meta dr retained (c2, b2) Hd) as H3.
  destruct (place_domains meta dr retained (c2, b2)) as [[c3 b3] identified]. cbn [fst] in H3.
  eapply adds_le; [eapply adds_trans; [exact H1|eapply adds_trans; [exact H2|eapply adds_trans; [exact H3|apply identified_adds]]]|].
  unfold user_part, domain_part, own, AnalysisLedger.drained_bytes. destruct by_domain; cbn [andb]; case_bool_decide; lia.
Qed.

(** ** Sealing *)

Local Abbreviation batch_bytes := (batch_bytes by_domain downlink epoch user).
Local Abbreviation queued := (total batch_bytes).

(** [z] if the epoch is the one that is counted. *)
Definition now_in (e z : Z) : Z := if e =? epoch then z else 0.

(** A message under construction, in the collector's epoch [e]. *)
Record drafting (e : Z) (c : Collector) (m : Batch.t) : Prop := {
  dr_inner : Inner.epoch (inner c) = e;
  dr_epoch : Batch.epoch m = e;
  dr_nonneg : 0 <= batch_bytes m
}.

Lemma enqueue_queued now m c : 0 <= batch_bytes m -> queued (log (enqueue now m c)) <= queued (log c) + batch_bytes m.
Proof.
  intros Hm. unfold enqueue, reserve. repeat case_match; simplify_eq; cbn -[total]; rewrite ?total_app; cbn; lia.
Qed.

Lemma enqueue_epoch now m c : Inner.epoch (inner (enqueue now m c)) = Inner.epoch (inner c).
Proof. unfold enqueue, reserve. by repeat case_match; simplify_eq. Qed.

Lemma fresh_message_drafting now c :
  drafting (Inner.epoch (inner c)) (new_message now c).1 (new_message now c).2 /\
  queued (log (new_message now c).1) + batch_bytes (new_message now c).2 = queued (log c).
Proof.
  assert (batch_bytes (new_message now c).2 = 0) as E
    by (unfold AnalysisLedger.batch_bytes, rows_bytes; cbn; destruct (_ =? _), by_domain; done).
  split; [constructor; rewrite ?E; done|rewrite E; cbn -[total]; lia].
Qed.

Lemma place_drafting now row_len push c m size e z :
  drafting e c m -> 0 <= z ->
  (forall x, Batch.epoch x = e -> Batch.epoch (push x) = e /\ batch_bytes (push x) = batch_bytes x + z) ->
  let '(c', m', _) := place now row_len push (c, m, size) in
  drafting e c' m' /\ queued (log c') + batch_bytes m' <= queued (log c) + batch_bytes m + z.
Proof.
  intros [Ei Em Hn] Hz Hp. unfold place. destruct (_ || _).
  - destruct (fresh_message_drafting now (enqueue now m c)) as [[Fi Fm Fn] Fq]. rewrite enqueue_epoch, Ei in Fi, Fm.
    pose proof (enqueue_queued now m c Hn). destruct (new_message now (enqueue now m c)) as [c1 m1]. cbn [fst snd] in *.
    destruct (Hp m1 Fm) as [E1 E2]. split; [constructor; [done..|lia]|lia].
  - destruct (Hp m Em) as [E1 E2]. split; [constructor; [done..|lia]|lia].
Qed.

Lemma places_drafting {A} (f : Collector * Batch.t * Z -> A -> Collector * Batch.t * Z) (g : A -> Z) e l c m size :
  (forall x c m size, x ∈ l -> drafting e c m ->
     let '(c', m', _) := f (c, m, size) x in
     drafting e c' m' /\ queued (log c') + batch_bytes m' <= queued (log c) + batch_bytes m + g x) ->
  drafting e c m ->
  let '(c', m', _) := foldl f (c, m, size) l in
  drafting e c' m' /\ queued (log c') + batch_bytes m' <= queued (log c) + batch_bytes m + total g l.
Proof.
  revert c m size. induction l as [|x l IH]; intros c m size Hf Hd; [cbn; split; [done|lia]|]. cbn [foldl].
  pose proof (Hf x c m size ltac:(by left) Hd) as H1. destruct (f (c, m, size) x) as [[c1 m1] size1]. destruct H1 as [D1 Q1].
  specialize (IH c1 m1 size1 ltac:(intros; apply Hf; [by right|done]) D1). destruct (foldl f (c1, m1, size1) l) as [[c2 m2] size2].
  destruct IH as [D2 Q2]. split; [done|]. rewrite total_cons. lia.
Qed.

Lemma user_row_nonneg b k r : rows_ok b -> MinuteBucket.users b !! k = Some r -> 0 <= user_row_bytes r.
Proof.
  intros [U _] Hr. destruct (U k r Hr) as (_ & Hu & Hd). unfold AnalysisLedger.user_row_bytes. case_bool_decide; [|done].
  by apply side_nonneg.
Qed.

Lemma now_in_nonneg e z : 0 <= z -> 0 <= now_in e z.
Proof. unfold now_in. by destruct (e =? epoch). Qed.

Lemma values_total `{Countable K} {A} (f : A -> Z) (m : gmap K A) (l : list (K * A)) :
  l ≡ₚ map_to_list m -> total f l.*2 = map_total f m.
Proof. intros Hp. unfold map_total. rewrite total_fmap. by apply total_perm. Qed.

Lemma now_in_total {A} (f : A -> Z) e l : total (fun x => now_in e (f x)) l = now_in e (total f l).
Proof. unfold now_in. destruct (e =? epoch); [done|]. rewrite total_const. lia. Qed.

Lemma seal_queued now b c :
  rows_ok b -> queued (log (seal now b c)) <= queued (log c) + now_in (Inner.epoch (inner c)) (bucket_bytes b).
Proof.
  intros Hb. unfold seal. set (e := Inner.epoch (inner c)).
  destruct (fresh_message_drafting now c) as [D0 Q0]. destruct (new_message now c) as [c0 m0]. cbn [fst snd] in *. fold e in D0.
  set (us := (hash_users (MinuteBucket.users b)).*2). set (ds := (hash_domains (MinuteBucket.domains b)).*2).
  pose proof (places_drafting (place_user now) (fun r => now_in e (user_part (user_row_bytes r))) e us c0 m0 (encoded_len m0)) as H1.
  destruct (foldl (place_user now) _ us) as [[c1 m1] size1]. edestruct H1 as [D1 Q1]; [|done|].
  { intros r c' m' size Hr Hd. assert (0 <= user_row_bytes r) as Hn.
    { apply list_elem_of_fmap in Hr as ([k r'] & -> & Hin). rewrite hash_users_perm in Hin. apply elem_of_map_to_list in Hin. by eapply user_row_nonneg. }
    apply place_drafting; [done|apply now_in_nonneg; unfold user_part; by destruct by_domain|].
    intros x Hx. split; [done|]. unfold AnalysisLedger.batch_bytes, now_in, rows_bytes, user_part. cbn -[total].
    rewrite Hx. destruct (e =? epoch), by_domain; rewrite ?total_app; cbn; lia. }
  pose proof (places_drafting (place_domain now) (fun r => now_in e (domain_part (domain_row_bytes r))) e ds c1 m1 size1) as H2.
  destruct (foldl (place_domain now) _ ds) as [[c2 m2] size2]. edestruct H2 as [D2 Q2]; [|done|].
  { intros r c' m' size Hr Hd. assert (0 <= domain_row_bytes r) as Hn.
    { apply list_elem_of_fmap in Hr as ([k r'] & -> & Hin). rewrite hash_domains_perm in Hin. apply elem_of_map_to_list in Hin. by eapply domain_row_nonneg. }
    assert (0 <= now_in e (domain_part (domain_row_bytes r))) as Hz by (apply now_in_nonneg; unfold domain_part; by destruct by_domain).
    unfold place_domain. destruct (idle_row r); [split; [done|lia]|]. apply place_drafting; [done..|].
    intros x Hx. split; [done|]. unfold AnalysisLedger.batch_bytes, now_in, rows_bytes, domain_part. cbn -[total].
    rewrite Hx. destruct (e =? epoch), by_domain; rewrite ?total_app; cbn; lia. }
  pose proof (enqueue_queued now m2 c2 (dr_nonneg _ _ _ D2)) as Q3. cbn [release log set_budget].
  rewrite now_in_total in Q1. rewrite now_in_total in Q2.
  assert (total (fun r => user_part (user_row_bytes r)) us + total (fun r => domain_part (domain_row_bytes r)) ds = bucket_bytes b) as Et.
  { unfold user_part, domain_part, AnalysisLedger.bucket_bytes. destruct by_domain; rewrite total_const, ?Z.mul_0_l, ?Z.add_0_l, ?Z.add_0_r;
      by apply values_total; auto using hash_users_perm, hash_domains_perm. }
  unfold now_in in *. destruct (e =? epoch); lia.
Qed.
End rows.
