(* ===== verification/AnalysisLedgerSteps.v ===== *)
(** * Traffic analysis: no step makes bytes

    Every step moves the bytes of a user between the parts of the system, loses
    them, or takes them from a call that was completed under a token of the same
    epoch: of every reachable world, [ledger] is at most [finished_bytes]
    ([reachable_ledger]). *)

From Stdlib Require Import ZArith Lia.
From S2P Require Import Prelude Bytes Wire AnalysisConfig AnalysisData Collector Analysis AnalysisBudget.
From S2P Require Import AnalysisQueue AnalysisWorld AnalysisSteps AnalysisLedger.

Open Scope Z_scope.

Section ledger_steps.
Context {Env : AnalysisEnv}.
Context (by_domain downlink : bool) (epoch : Z) (user : UserKey.t).

Local Abbreviation side := (side downlink).
Local Abbreviation amount := (amount by_domain downlink).
Local Abbreviation mine := (mine epoch user).
Local Abbreviation state_bytes := (state_bytes by_domain downlink epoch user).
Local Abbreviation thread_bytes := (thread_bytes downlink epoch user).
Local Abbreviation bucket_bytes := (bucket_bytes by_domain downlink user).
Local Abbreviation batch_bytes := (batch_bytes by_domain downlink epoch user).
Local Abbreviation open_bytes := (open_bytes by_domain downlink epoch user).
Local Abbreviation queued := (total batch_bytes).
Local Abbreviation ledger := (ledger by_domain downlink epoch user).
Local Abbreviation finished_bytes := (finished_bytes downlink epoch user).
Local Abbreviation pays := (pays by_domain downlink).

(** ** The heaps *)

(** A flow's state is one of its own user. *)
Record heap_ok (w : World) : Prop := {
  ho_states s st : states w !! s = Some st -> state_nonneg st;
  ho_owner f flow s : flow_heap w !! f = Some flow -> Flow.state flow = Some s ->
    exists st, states w !! s = Some st /\ FlowState.owner st = UserKey.from (Flow.meta flow)
}.

(** Flows keep their metadata, states their epoch and user. *)
Record evolves (w w' : World) : Prop := {
  ev_next : (next_id w <= next_id w')%N;
  ev_flow f flow' : (f < next_id w)%N -> flow_heap w' !! f = Some flow' ->
    exists flow, flow_heap w !! f = Some flow /\ Flow.meta flow' = Flow.meta flow;
  ev_state s st : states w !! s = Some st ->
    exists st', states w' !! s = Some st' /\ FlowState.epoch st' = FlowState.epoch st /\ FlowState.owner st' = FlowState.owner st;
  ev_old s st' : (s < next_id w)%N -> states w' !! s = Some st' -> is_Some (states w !! s)
}.

#[local] Instance evolves_preorder : PreOrder evolves.
Proof.
  split.
  - intros w. constructor; [lia|eauto|eauto|eauto].
  - intros w1 w2 w3 [N1 F1 S1 O1] [N2 F2 S2 O2]. constructor.
    + lia.
    + intros f flow3 Hf H3. destruct (F2 f flow3) as (flow2 & H2 & E2); [lia|done|].
      destruct (F1 f flow2) as (flow1 & H1 & E1); [done..|]. exists flow1. split; [done|congruence].
    + intros s st H1. destruct (S1 s st H1) as (st2 & H2 & E2 & E2'). destruct (S2 s st2 H2) as (st3 & H3 & E3 & E3').
      exists st3. split_and!; [done|congruence..].
    + intros s st3 Hs H3. destruct (O2 s st3) as [st2 H2]; [lia|done|]. by apply (O1 s st2).
Qed.

Lemma evolves_heaps w w' :
  next_id w' = next_id w -> flow_heap w' = flow_heap w -> states w' = states w -> evolves w w'.
Proof. intros En Ef Es. constructor; rewrite ?En, ?Ef, ?Es; eauto. Qed.

(** A step on the heaps with [x] bytes in hand that leaves [x'] in hand. *)
Record moves (x x' : Z) (w w' : World) : Prop := {
  mv_evolves : evolves w w';
  mv_core : same_core (col w) (col w');
  mv_work : work w' = work w;
  mv_threads : threads w' = threads w;
  mv_finished : finished w' = finished w;
  mv_keeps : heap_ok w ->
    heap_ok w' /\ map_total state_bytes (states w') + x' <= map_total state_bytes (states w) + x
}.

Lemma moves_refl x w : moves x x w w.
Proof. by constructor. Qed.

Lemma moves_trans x y z w1 w2 w3 : moves x y w1 w2 -> moves y z w2 w3 -> moves x z w1 w3.
Proof.
  intros [] []. constructor; try congruence; [by etransitivity..|]. intros H. destruct (mv_keeps0 H) as [H2 ?].
  destruct (mv_keeps1 H2) as [H3 ?]. split; [done|lia].
Qed.

Lemma moves_frame y x x' w w' : moves x x' w w' -> moves (x + y) (x' + y) w w'.
Proof. intros []. constructor; try done. intros H. destruct (mv_keeps0 H). split; [done|lia]. Qed.

Lemma moves_col x w c : same_core (col w) c -> moves x x w (set_col c w).
Proof.
  intros Sc. constructor; try done; [by apply evolves_heaps|]. intros []. split; [by constructor|done].
Qed.

(** A change of a flow. *)
Lemma moves_flow x w f g :
  (forall flow, flow_heap w !! f = Some flow -> Flow.meta (g flow) = Flow.meta flow /\
    forall s, Flow.state (g flow) = Some s -> Flow.state flow = Some s \/
      exists st, states w !! s = Some st /\ FlowState.owner st = UserKey.from (Flow.meta flow)) ->
  moves x x w (update_flow f g w).
Proof.
  intros Hg. constructor; try done.
  - constructor; cbn; [done| |eauto|eauto]. intros f' flow' _. rewrite lookup_alter_Some.
    intros [[<- (flow & Hf & ->)]|[_ Hf]]; [|eauto]. exists flow. split; [done|]. by apply Hg.
  - intros [S O]. split; [|done]. constructor; cbn; [done|]. intros f' flow' s. rewrite lookup_alter_Some.
    intros [[<- (flow & Hf & ->)]|[_ Hf]]; [|exact (O f' flow' s Hf)]. intros Hs. destruct (Hg flow Hf) as [-> Hst].
    destruct (Hst s Hs) as [Hs'|?]; [by apply (O f)|done].
Qed.

(** What goes to a state of this epoch and user. *)
Definition weight (st : FlowState.t) (z : Z) : Z :=
  if mine (FlowState.epoch st) (FlowState.owner st) then z else 0.

Lemma states_update w s st st' :
  states w !! s = Some st -> FlowState.epoch st' = FlowState.epoch st -> FlowState.owner st' = FlowState.owner st ->
  map_total state_bytes (<[s := st']> (states w)) = map_total state_bytes (states w) + weight st (amount st' - amount st).
Proof.
  intros Hs Ee Eo. rewrite (map_total_update _ _ _ _ _ Hs). unfold AnalysisLedger.state_bytes, weight. rewrite Ee, Eo.
  destruct (mine _ _); lia.
Qed.

Lemma weight_le st a b : a <= b -> weight st a <= weight st b.
Proof. unfold weight. by destruct (mine _ _). Qed.

(** A change of a state, with what it takes or gives. *)
Lemma moves_state w s st st' p c :
  states w !! s = Some st -> FlowState.epoch st' = FlowState.epoch st -> FlowState.owner st' = FlowState.owner st ->
  same_core (col w) c -> (state_nonneg st -> state_nonneg st' /\ amount st' <= amount st + p) ->
  moves (weight st p) 0 w (set_col c (set_states (<[s := st']> (states w)) w)).
Proof.
  intros Hs Ee Eo Sc Hp. constructor; try done.
  - constructor; cbn; [done|eauto| |].
    + intros s' st0 Hs'. destruct (decide (s' = s)) as [->|Hne].
      * exists st'. rewrite lookup_insert_eq. split_and!; [done|congruence..].
      * exists st0. by rewrite lookup_insert_ne.
    + intros s' st0 _. rewrite lookup_insert_Some. intros [[<- _]|[_ ?]]; eauto.
  - intros [S O]. destruct (Hp (S _ _ Hs)) as [Hn Ha]. split.
    + constructor; cbn.
      * intros s' st0. rewrite lookup_insert_Some. intros [[_ <-]|[_ H]]; [done|by apply (S s')].
      * intros f flow s' Hf Hfs. destruct (O f flow s' Hf Hfs) as (st0 & Hst & Eo').
        destruct (decide (s' = s)) as [->|Hne]; [|exists st0; by rewrite lookup_insert_ne].
        exists st'. rewrite lookup_insert_eq. split; [done|congruence].
    + cbn [states set_col set_states]. rewrite (states_update w s st st' Hs Ee Eo).
      pose proof (weight_le st _ p (ltac:(lia) : amount st' - amount st <= p)). lia.
Qed.

(** A section under a flow's lock. *)
Lemma moves_view w w' f s g p :
  in_view f s g w = Some w' -> (forall v, framed v (g v)) -> (forall v, pays p v (g v)) ->
  exists st, states w !! s = Some st /\ moves (weight st p) 0 w w'.
Proof.
  unfold in_view. intros E Hf Hp. apply bind_Some in E as (flow & Hflow & E). apply bind_Some in E as (st & Hst & E).
  exists st. split; [done|]. specialize (Hf (col w, flow, st)). specialize (Hp (col w, flow, st)).
  destruct (g (col w, flow, st)) as [[c flow'] st']. injection E as <-. destruct Hf. cbn in *.
  pose proof (moves_state w s st st' p c Hst fr_epoch fr_owner fr_core Hp) as M1.
  eapply moves_trans; [exact M1|]. set (w1 := set_col _ _) in *.
  pose proof (moves_flow 0 w1 f (fun _ => flow')) as M2. unfold update_flow in M2.
  assert (alter (fun _ => flow') f (flow_heap w1) = <[f := flow']> (flow_heap w)) as Ea by apply (alter_insert (fun _ => flow') f (flow_heap w) flow Hflow).
  rewrite Ea in M2. apply M2. intros fl Hfl. cbn in Hfl. replace fl with flow by congruence. split; [done|]. intros s0. rewrite fr_state. by left.
Qed.

(** New flows and states. *)
Lemma moves_alloc_state x w st :
  ids_ok w -> state_nonneg st -> amount st = 0 ->
  moves x x w (set_states (<[next_id w := st]> (states w)) (fresh_id w).2).
Proof.
  intros [F S T P] Hn Ha. constructor; try done.
  - constructor; cbn; [lia|eauto| |].
    + intros s' st0 Hs. exists st0. rewrite lookup_insert_ne; [done|]. intros <-. by rewrite S in Hs.
    + intros s' st0 Hlt. rewrite lookup_insert_ne by lia. eauto.
  - intros [Sn O]. split.
    + constructor; cbn.
      * intros s' st0. rewrite lookup_insert_Some. intros [[_ <-]|[_ H]]; [done|by apply (Sn s')].
      * intros f flow s' Hf Hfs. destruct (O f flow s' Hf Hfs) as (st0 & Hst & Eo'). exists st0. rewrite lookup_insert_ne; [done|].
        intros <-. by rewrite S in Hst.
    + cbn [states set_states]. rewrite map_total_insert, S by lia. cbn. unfold AnalysisLedger.state_bytes at 1. rewrite Ha. destruct (mine _ _); lia.
Qed.

(** ** The invariant *)

Definition packets_nonneg {A} (packets : list (A * Z * Z)) : Prop := Forall (fun p => 0 <= p.1.2 /\ 0 <= p.2) packets.

(** A call refers to what exists and records what is not negative. *)
Definition thread_nonneg (w : World) (t : thread) : Prop :=
  match t with
  | TFinish f _ up down _ _ => (f < next_id w)%N /\ 0 <= up /\ 0 <= down
  | TBatch f _ packets => (f < next_id w)%N /\ packets_nonneg packets
  | TAdd _ s up down => (s < next_id w)%N /\ 0 <= up /\ 0 <= down
  | TRecord _ s packets _ => (s < next_id w)%N /\ packets_nonneg packets
  | _ => True
  end.

(** The state the sampler is about to drain is the flow's. *)
Definition sampling_ok (w : World) (e key : Z) (s : N) : Prop :=
  exists f st, Inner.flows (inner (col w)) !! key = Some f /\ (f < next_id w)%N /\
    (forall flow, flow_heap w !! f = Some flow -> FlowState.owner st = UserKey.from (Flow.meta flow)) /\
    states w !! s = Some st /\ FlowState.epoch st = e.

Definition work_rows_ok (w : World) : Prop :=
  match work w with
  | WSample e _ b _ at' => rows_ok b /\ match at' with Some (key, s, _) => sampling_ok w e key s | None => True end
  | _ => True
  end.

(** With [x] bytes in hand. *)
Record ledger_ok (x : Z) (w : World) : Prop := {
  lk_heap : heap_ok w;
  lk_threads i t : threads w !! i = Some t -> thread_nonneg w t;
  lk_bucket b : Inner.bucket (inner (col w)) = Some b -> rows_ok b;
  lk_work : work_rows_ok w;
  lk_ledger : ledger w + x <= finished_bytes w
}.

Lemma packets_total {A} (packets : list (A * Z * Z)) : packets_nonneg packets -> 0 <= total (packet_bytes downlink) packets.
Proof.
  intros H. apply total_nonneg. intros [[a u] d] Hin. unfold packets_nonneg in H. rewrite Forall_forall in H. by apply side_nonneg; apply (H _ Hin).
Qed.

Lemma thread_bytes_nonneg w t : thread_nonneg w t -> 0 <= thread_bytes w t.
Proof.
  destruct t; cbn; try done; intros H; destruct (_ !! _); try done; destruct (mine _ _); try done;
    first [apply side_nonneg; tauto|apply packets_total; tauto].
Qed.

Lemma thread_evolves w w' t :
  evolves w w' -> thread_nonneg w t -> thread_nonneg w' t /\ thread_bytes w' t <= thread_bytes w t.
Proof.
  intros [En Ef Es Eo] H. split; [destruct t; cbn in *; (done || (destruct H; split; [lia|done]))|].
  assert (forall f e z, (f < next_id w)%N -> 0 <= z ->
    match flow_heap w' !! f with Some flow => if mine e (UserKey.from (Flow.meta flow)) then z else 0 | None => 0 end <=
    match flow_heap w !! f with Some flow => if mine e (UserKey.from (Flow.meta flow)) then z else 0 | None => 0 end) as Hf.
  { intros f e z Hf Hz. destruct (flow_heap w' !! f) as [flow'|] eqn:E'.
    - destruct (Ef f flow' Hf E') as (flow & -> & ->). done.
    - destruct (flow_heap w !! f) as [flow|]; [destruct (mine _ _)|]; lia. }
  assert (forall s z, (s < next_id w)%N -> 0 <= z ->
    match states w' !! s with Some st => if mine (FlowState.epoch st) (FlowState.owner st) then z else 0 | None => 0 end <=
    match states w !! s with Some st => if mine (FlowState.epoch st) (FlowState.owner st) then z else 0 | None => 0 end) as Hs.
  { intros s z Hs Hz. destruct (states w !! s) as [st|] eqn:E.
    - destruct (Es s st E) as (st' & -> & -> & ->). done.
    - destruct (states w' !! s) as [st'|] eqn:E'; [|done]. destruct (Eo s st' Hs E') as [st Hst]. congruence. }
  destruct t; cbn in *; try done; destruct H; first [apply Hf|apply Hs]; try done;
    first [apply side_nonneg; tauto|by apply packets_total].
Qed.

Lemma map_total_le `{Countable K} {A} (f g : A -> Z) (m : gmap K A) :
  (forall k x, m !! k = Some x -> f x <= g x) -> map_total f m <= map_total g m.
Proof.
  intros Hfg. assert (map_total g m = map_total f m + map_total (fun x => g x - f x) m) as ->.
  { unfold map_total. rewrite <- total_plus. apply total_ext. intros x _. lia. }
  assert (0 <= map_total (fun x => g x - f x) m); [|lia]. apply map_total_nonneg. intros k x Hx. specialize (Hfg k x Hx). lia.
Qed.

Lemma open_core w w' : same_core (col w) (col w') -> work w' = work w -> open_bytes w' = open_bytes w.
Proof. intros [I N R A L G] Ew. unfold AnalysisLedger.open_bytes. by rewrite N, Ew. Qed.

Lemma sampling_evolves w w' e key s :
  evolves w w' -> Inner.flows (inner (col w')) = Inner.flows (inner (col w)) -> sampling_ok w e key s -> sampling_ok w' e key s.
Proof.
  intros [En Ef Es Eo] Eflows (f & st & Hk & Hf & Ho & Hst & He). destruct (Es s st Hst) as (st' & Hst' & Ee & Eow).
  exists f, st'. rewrite Eflows, Ee, Eow. split_and!; try done; [lia|]. intros flow' Hfl.
  destruct (Ef f flow' Hf Hfl) as (flow & Hfl0 & ->). by apply Ho.
Qed.

Lemma work_rows_evolves w w' :
  evolves w w' -> Inner.flows (inner (col w')) = Inner.flows (inner (col w)) -> work w' = work w ->
  work_rows_ok w -> work_rows_ok w'.
Proof.
  intros Ev Ef Ew. unfold work_rows_ok. rewrite Ew. destruct (work w) as [| |e now b todo [[[key s] fin]|]]; try done.
  intros [Hr Hs]. split; [done|by eapply sampling_evolves].
Qed.

Lemma finished_same w w' : finished w' = finished w -> finished_bytes w' = finished_bytes w.
Proof. unfold AnalysisLedger.finished_bytes. by intros ->. Qed.

(** A step on the heaps, and a step of one call. *)
Lemma moves_ok x x' w w' : ledger_ok x w -> moves x x' w w' -> ledger_ok x' w'.
Proof.
  intros [H T B K L] [Ev Sc Ew Et Ef M]. destruct (M H) as [H' M']. constructor.
  - done.
  - rewrite Et. intros i t Ht. by apply (thread_evolves w w' t Ev), (T i).
  - by rewrite (sc_inner _ _ Sc).
  - eapply work_rows_evolves; [exact Ev|by rewrite (sc_inner _ _ Sc)|done|done].
  - unfold AnalysisLedger.ledger, queued_bytes in *. rewrite (open_core w w' Sc Ew), (sc_log _ _ Sc), Et.
    unfold AnalysisLedger.finished_bytes in *. rewrite Ef.
    assert (map_total (thread_bytes w') (threads w) <= map_total (thread_bytes w) (threads w)); [|lia].
    apply map_total_le. intros i t Ht. by apply thread_evolves, (T i).
Qed.

Lemma thread_ok_step x w w' i t rest :
  ledger_ok x w -> threads w !! i = Some t -> moves (x + thread_bytes w t) (x + from_option (thread_bytes w') 0 rest) w w' ->
  (forall t', rest = Some t' -> thread_nonneg w' t') ->
  ledger_ok x (set_threads (partial_alter (fun _ => rest) i (threads w')) w').
Proof.
  intros [H T B K L] Ht [Ev Sc Ew Et Ef M] Hr. destruct (M H) as [H' M']. constructor; [cbn..|].
  - destruct H'. by constructor.
  - rewrite Et. intros j t'. rewrite lookup_partial_alter. case_decide; [by intros ->; apply Hr|].
    intros Hj. by apply (thread_evolves w w' t' Ev), (T j).
  - by rewrite (sc_inner _ _ Sc).
  - assert (work_rows_ok w') as K' by (eapply work_rows_evolves; [exact Ev|by rewrite (sc_inner _ _ Sc)|done|done]).
    unfold work_rows_ok in *. cbn. destruct (work w') as [| |e now b todo [[[key s] fin]|]]; done.
  - set (m := partial_alter (fun _ => rest) i (threads w')).
    change (ledger (set_threads m w')) with (queued (log (col w')) + open_bytes w' + map_total state_bytes (states w')
      + map_total (thread_bytes w') m).
    change (finished_bytes (set_threads m w')) with (finished_bytes w'). rewrite (finished_same w w' Ef), (open_core w w' Sc Ew), (sc_log _ _ Sc).
    unfold AnalysisLedger.ledger, queued_bytes in L. unfold m. rewrite Et.
    assert (map_total (thread_bytes w') (partial_alter (fun _ => rest) i (threads w)) + thread_bytes w t <=
            map_total (thread_bytes w) (threads w) + from_option (thread_bytes w') 0 rest); [|lia].
    assert (map_total (thread_bytes w') (delete i (threads w)) <= map_total (thread_bytes w) (delete i (threads w))) as Hd.
    { apply map_total_le. intros j t' [_ Hj]%lookup_delete_Some. by apply thread_evolves, (T j). }
    rewrite (map_total_delete (thread_bytes w)), Ht in Hd. cbn in Hd. destruct rest as [t'|].
    + change (partial_alter (fun _ => Some t') i (threads w)) with (<[i := t']> (threads w)).
      rewrite <- insert_delete_eq, map_total_insert, lookup_delete_eq. cbn. lia.
    + change (partial_alter (fun _ => None) i (threads w)) with (delete i (threads w)). cbn. lia.
Qed.

(** A new call, with what its completion is accounted. *)
Lemma spawn_ledger x x' t w :
  ledger_ok x w -> ids_ok w -> thread_nonneg w t -> x' + thread_bytes w t <= x -> ledger_ok x' (spawn t w).
Proof.
  intros [H T B K L] [F S Ti P] Ht Hx. unfold spawn. cbn.
  set (w' := set_threads _ _). assert (evolves w w') as Ev by (constructor; cbn; eauto; lia).
  constructor; [cbn..|].
  - destruct H. by constructor.
  - intros j t'. rewrite lookup_insert_Some. intros [[_ <-]|[_ Hj]]; apply (thread_evolves w w'); try done. by apply (T j).
  - done.
  - by eapply (work_rows_evolves w w').
  - change (finished_bytes w') with (finished_bytes w).
    change (ledger w') with (queued (log (col w)) + open_bytes w + map_total state_bytes (states w)
      + map_total (thread_bytes w) (<[next_id w := t]> (threads w))).
    unfold AnalysisLedger.ledger, queued_bytes in L. rewrite map_total_insert, Ti by lia. cbn [from_option]. lia.
Qed.

(** A step on the collector's own state. *)
Lemma col_ledger x x' k' c' w :
  ledger_ok x w -> (forall b, Inner.bucket (inner c') = Some b -> rows_ok b) -> work_rows_ok (set_work k' (set_col c' w)) ->
  queued (log c') + open_bytes (set_work k' (set_col c' w)) + x' <= queued (log (col w)) + open_bytes w + x ->
  ledger_ok x' (set_work k' (set_col c' w)).
Proof.
  intros [H T B K L] Hb Hk Hl. constructor; try done; [by destruct H|].
  change (finished_bytes (set_work k' (set_col c' w))) with (finished_bytes w).
  change (ledger (set_work k' (set_col c' w))) with (queued (log c') + open_bytes (set_work k' (set_col c' w))
    + map_total state_bytes (states w) + map_total (thread_bytes w) (threads w)).
  unfold AnalysisLedger.ledger, queued_bytes in L. lia.
Qed.

Lemma bucket_bytes_nonneg b : rows_ok b -> 0 <= bucket_bytes b.
Proof.
  intros H. unfold AnalysisLedger.bucket_bytes. destruct by_domain; apply map_total_nonneg; intros k r Hr;
    [by eapply domain_row_nonneg|by eapply user_row_nonneg].
Qed.

(** ** A step of a call *)

Lemma moves_weaken x x' y w w' : moves x x' w w' -> y <= x' -> moves x y w w'.
Proof. intros [] Hy. constructor; try done. intros H. destruct (mv_keeps0 H). split; [done|lia]. Qed.

Lemma moves_same x w w' :
  col w' = col w -> flow_heap w' = flow_heap w -> states w' = states w -> next_id w' = next_id w ->
  work w' = work w -> threads w' = threads w -> finished w' = finished w -> moves x x w w'.
Proof.
  intros Ec Ef Es En Ew Et Efi. constructor; try done; [by apply evolves_heaps|by rewrite Ec|].
  intros []. split; [|by rewrite Es]. constructor; rewrite ?Es, ?Ef; done.
Qed.

Lemma moves_plain x w f g :
  (forall flow, Flow.meta (g flow) = Flow.meta flow /\ Flow.state (g flow) = Flow.state flow) ->
  moves x x w (update_flow f g w).
Proof. intros Hg. apply moves_flow. intros flow _. destruct (Hg flow) as [-> ->]. split; [done|]. by left. Qed.

Lemma load_state_spec f e w s :
  load_state f e w = Some s ->
  exists flow st, flow_heap w !! f = Some flow /\ Flow.state flow = Some s /\ states w !! s = Some st /\ FlowState.epoch st = e.
Proof.
  unfold load_state. intros (flow & Hf & E)%bind_Some. apply bind_Some in E as (s' & Hs & E). apply bind_Some in E as (st & Hst & E).
  destruct (Z.eqb_spec (FlowState.epoch st) e); [|done]. injection E as ->. eauto 6.
Qed.

(** The bytes of a call that goes on with the state of its flow. *)
Definition of_state (w : World) (s : N) (z : Z) : Z :=
  match states w !! s with
  | Some st => if mine (FlowState.epoch st) (FlowState.owner st) then z else 0
  | None => 0
  end.
Definition of_flow (w : World) (f : N) (e z : Z) : Z :=
  match flow_heap w !! f with
  | Some flow => if mine e (UserKey.from (Flow.meta flow)) then z else 0
  | None => 0
  end.

Lemma load_state_bytes f e w s z : heap_ok w -> load_state f e w = Some s -> of_state w s z = of_flow w f e z.
Proof.
  intros H (flow & st & Hf & Hs & Hst & He)%load_state_spec. unfold of_state, of_flow.
  destruct (ho_owner _ H f flow s Hf Hs) as (st' & Hst' & Eo). rewrite Hf, Hst. assert (st' = st) as -> by congruence.
  by rewrite He, Eo.
Qed.

Lemma of_flow_nonneg w f e z : 0 <= z -> 0 <= of_flow w f e z.
Proof. unfold of_flow. destruct (_ !! _); [|done]. by destruct (mine _ _). Qed.

Lemma state_id w s st : ids_ok w -> states w !! s = Some st -> (s < next_id w)%N.
Proof. intros [_ S _ _] Hs. apply N.lt_nge. intros Hle. by rewrite S in Hs. Qed.
Lemma flow_id w f flow : ids_ok w -> flow_heap w !! f = Some flow -> (f < next_id w)%N.
Proof. intros [F _ _ _] Hf. apply N.lt_nge. intros Hle. by rewrite F in Hf. Qed.

Lemma load_state_id f e w s : ids_ok w -> load_state f e w = Some s -> (s < next_id w)%N.
Proof. intros H (flow & st & _ & _ & Hst & _)%load_state_spec. by eapply state_id. Qed.

(** A section that records [p], with [z] more to come. *)
Lemma moves_record w w' f s g p z :
  in_view f s g w = Some w' -> (forall v, framed v (g v)) -> (forall v, pays p v (g v)) ->
  moves (of_state w s (p + z)) (of_state w' s z) w w'.
Proof.
  intros E Hf Hp. destruct (moves_view w w' f s g p E Hf Hp) as (st & Hst & M).
  pose proof (moves_frame (weight st z) _ _ _ _ M) as M2. destruct (ev_state _ _ (mv_evolves _ _ _ _ M) s st Hst) as (st' & Hst' & Ee & Eo).
  assert (of_state w s (p + z) = weight st p + weight st z) as -> by (unfold of_state, weight; rewrite Hst; destruct (mine _ _); lia).
  assert (of_state w' s z = 0 + weight st z) as -> by (unfold of_state, weight; rewrite Hst', Ee, Eo; destruct (mine _ _); lia).
  done.
Qed.

Lemma keeps_framed v v' : keeps v v' -> framed v v'.
Proof. by intros []. Qed.

(** A section that records nothing new. *)
Lemma moves_section w w' f s g :
  in_view f s g w = Some w' -> (forall v, keeps v (g v)) -> (forall v, pays 0 v (g v)) -> moves 0 0 w w'.
Proof.
  intros E Hf Hp. pose proof (moves_record w w' f s g 0 0 E (fun v => keeps_framed _ _ (Hf v)) Hp) as M.
  assert (forall w s, of_state w s 0 = 0) as Ez by (intros w0 s0; unfold of_state; destruct (_ !! _); [by destruct (mine _ _)|done]).
  change (0 + 0) with 0 in M. by rewrite !Ez in M.
Qed.

Lemma framed_counters v c : framed v (v.1, FlowState.set_counters c v.2).
Proof. destruct v as [[co f] s]. by constructor. Qed.

Lemma add_counters_pays up down v :
  0 <= up -> 0 <= down -> pays (side up down) v (v.1, FlowState.set_counters (Counters.add up down (FlowState.counters v.2)) v.2).
Proof.
  intros Hu Hd H. pose proof H as [C U T P]. cbn. split; [constructor; cbn; try done; by apply count_ok_add|].
  pose proof (count_add downlink up down _ Hu Hd C). pose proof (side_nonneg downlink up down Hu Hd).
  unfold AnalysisLedger.amount. cbn. destruct (_ && _); lia.
Qed.

Lemma packets_map (packets : list (Target.t * Z * Z)) :
  total (packet_bytes downlink) ((fun '(t, u, d) => (Some t, u, d)) <$> packets) = total (packet_bytes downlink) packets.
Proof. rewrite total_fmap. apply total_ext. by intros [[t u] d] _. Qed.

Lemma packets_nonneg_map (packets : list (Target.t * Z * Z)) :
  packets_nonneg packets -> packets_nonneg ((fun '(t, u, d) => (Some t, u, d)) <$> packets).
Proof. unfold packets_nonneg. rewrite Forall_fmap. intros H. eapply Forall_impl; [exact H|]. by intros [[t u] d]. Qed.

(** Going on with the state of the flow, with the same bytes. *)
Lemma moves_load w f e s z : heap_ok w -> load_state f e w = Some s -> moves (of_flow w f e z) (of_state w s z) w w.
Proof. intros H E. rewrite (load_state_bytes f e w s z H E). apply moves_refl. Qed.

Lemma thread_step_moves now t w w' rest :
  thread_step now t w = Some (w', rest) -> heap_ok w -> ids_ok w -> thread_nonneg w t ->
  moves (thread_bytes w t) (from_option (thread_bytes w') 0 rest) w w' /\ (forall t', rest = Some t' -> thread_nonneg w' t').
Proof.
  intros E H Hids Ht. destruct t; cbn -[admits load_state classify_check] in E.
  - destruct (admits f w); injection E as <- <-; (split; [|done]); [by apply moves_same|by apply moves_plain].
  - apply bind_Some in E as (flow & Hf & E). injection E as <- <-. destruct Ht as (Hlt & Hu & Hd).
    pose proof (side_nonneg downlink up down Hu Hd) as Hs.
    destruct (load_state f epoch0 w) as [s|] eqn:El.
    + pose proof (load_state_id _ _ _ _ Hids El). pose proof (moves_load w f epoch0 s (side up down) H El) as M.
      destruct (negb _); [|destruct (is_udp _)].
      * split; [|by intros ? [= <-]]. eapply moves_weaken; [apply moves_refl|]. cbn. fold (of_flow w f epoch0 (side up down)). by apply of_flow_nonneg.
      * split; [|intros ? [= <-]; cbn; split; [done|by apply Forall_singleton]]. cbn -[total].
        assert (total (packet_bytes downlink) [(target, up, down)] = side up down) as -> by (cbn; unfold packet_bytes; cbn; lia). exact M.
      * split; [exact M|by intros ? [= <-]].
    + split; [|by intros ? [= <-]]. eapply moves_weaken; [apply moves_refl|]. cbn. fold (of_flow w f epoch0 (side up down)). by apply of_flow_nonneg.
  - injection E as <- <-. destruct Ht as (Hlt & Hp). pose proof (packets_total packets Hp) as Hs.
    destruct (load_state f epoch0 w) as [s|] eqn:El.
    + pose proof (load_state_id _ _ _ _ Hids El). split; [|intros ? [= <-]; cbn; split; [done|by apply packets_nonneg_map]].
      cbn -[total]. rewrite packets_map. by apply moves_load.
    + split; [|by intros ? [= <-]]. eapply moves_weaken; [apply moves_refl|]. cbn -[total]. by apply (of_flow_nonneg w f epoch0).
  - apply bind_Some in E as (w1 & E1 & [= <- <-]). destruct Ht as (Hlt & Hu & Hd). split; [|by intros ? [= <-]].
    pose proof (moves_record w w1 f s _ (side up down) 0 E1 (fun v => framed_counters v _) (fun v => add_counters_pays up down v Hu Hd)) as M.
    rewrite Z.add_0_r in M. eapply moves_weaken; [exact M|]. cbn. unfold of_state. destruct (_ !! _); [|done]. by destruct (mine _ _).
  - destruct packets as [|[[target up] down] packets]; [injection E as <- <-; split; [|by intros ? [= <-]]|].
    + eapply moves_weaken; [apply moves_refl|]. by apply (thread_bytes_nonneg w (TRecord f s [] known_web)).
    + apply bind_Some in E as (w1 & E1 & [= <- <-]). destruct Ht as (Hlt & [[Hu Hd] Hp]%Forall_cons). cbn in Hu, Hd.
      pose proof (moves_record w w1 f s _ (side up down) (total (packet_bytes downlink) packets) E1
        (fun v => keeps_framed _ _ (record_packet_keeps now target up down known_web v))
        (fun v => record_packet_pays by_domain downlink now target up down known_web v Hu Hd)) as M.
      split; [exact M|]. intros ? [= <-]. cbn. split; [|done]. pose proof (ev_next _ _ (mv_evolves _ _ _ _ M)); lia.
  - injection E as <- <-. split; [by apply moves_plain|done].
  - apply bind_Some in E as (flow & Hf & E). destruct (classify_check _ _ _ _ _ _) as [c app] eqn:Ec. injection E as <- <-.
    assert (same_core (col w) c) as Sc.
    { destruct (classify_check_stats epoch0 (Flow.meta flow) target domain app_protocol (col w)) as [g Hg]. rewrite Ec in Hg. cbn in Hg. by destruct Hg as [->| ->]. }
    split; [|by intros t' (a & -> & (s & _ & [= <-])%bind_Some)%bind_Some].
    eapply moves_weaken; [by apply moves_col|]. destruct app as [a|]; [|done]. cbn -[load_state]. by destruct (load_state _ _ _).
  - apply bind_Some in E as (w1 & E1 & [= <- <-]). split; [|done]. eapply moves_section; [exact E1|..]; intros v;
      [apply classify_locked_keeps|apply classify_locked_pays].
  - injection E as <- <-. split; [|intros t'; by destruct (load_state f epoch0 w); intros [= <-]].
    eapply moves_weaken; [apply moves_refl|]. by destruct (load_state _ _ _).
  - apply bind_Some in E as (w1 & E1 & [= <- <-]). split; [|done]. eapply moves_section; [exact E1|..]; intros v;
      [apply discard_locked_keeps|apply discard_locked_pays].
  - destruct (eligible require_active f w); [|injection E as <- <-; split; [apply moves_refl|done]].
    destruct (if pending then _ else _) as [c ok] eqn:Er.
    assert (same_core (col w) c) as Sc
      by (destruct pending; [pose proof (reserve_pending_core bytes (col w)) as S|pose proof (reserve_core bytes (col w)) as S]; by rewrite Er in S).
    destruct ok; injection E as <- <-; (split; [|by intros ? [= <-]]); apply moves_col; (exact Sc || (etransitivity; [exact Sc|done])).
  - destruct (eligible require_active f w); injection E as <- <-; (split; [|done]).
    + destruct pending; by apply moves_plain.
    + apply moves_col. by destruct pending.
Qed.
End ledger_steps.
