(* ===== verification/AnalysisLedgerWorld.v ===== *)
(** * Traffic analysis: the bytes of a user in every reachable world

    The session owner's, the sampler's and the stream's steps; so every step of
    the system keeps [ledger] at most [finished_bytes]. *)

From Stdlib Require Import ZArith Lia.
From S2P Require Import Prelude Bytes Wire AnalysisConfig AnalysisData Collector Analysis AnalysisBudget.
From S2P Require Import AnalysisQueue AnalysisWorld AnalysisSteps AnalysisLedger AnalysisLedgerSteps.

Open Scope Z_scope.

Section ledger_world.
Context {Env : AnalysisEnv}.
Context (by_domain downlink : bool) (epoch : Z) (user : UserKey.t).

Local Abbreviation amount := (amount by_domain downlink).
Local Abbreviation bucket_bytes := (bucket_bytes by_domain downlink user).
Local Abbreviation batch_bytes := (batch_bytes by_domain downlink epoch user).
Local Abbreviation open_bytes := (open_bytes by_domain downlink epoch user).
Local Abbreviation queued := (total batch_bytes).
Local Abbreviation moves := (moves by_domain downlink epoch user).
Local Abbreviation ledger_ok := (ledger_ok by_domain downlink epoch user).
Local Abbreviation finished_bytes := (finished_bytes downlink epoch user).

(** ** Detaching states *)

Lemma retire_flow_moves f w : moves 0 0 w (retire_flow f w).1.
Proof.
  unfold retire_flow. destruct (flow_heap w !! f) as [flow|]; [|apply moves_refl].
  assert (moves 0 0 w (update_flow f (Flow.set_state None) w)) as H1 by (apply moves_flow; intros fl _; by split).
  set (w1 := update_flow f (Flow.set_state None) w) in *. destruct (Flow.state flow ≫= _) as [[s st]|] eqn:E; [|exact H1].
  apply state_of_Some in E as [_ Hs]. eapply moves_trans; [exact H1|].
  pose proof (moves_state by_domain downlink epoch user w1 s st (FlowState.set_packets (PacketState.retire (FlowState.packets st)) st) 0
    (drop_pending_targets (size (PacketState.pending (FlowState.packets st))) (col w1)) Hs eq_refl eq_refl (drop_pending_targets_core _ _)) as M.
  eapply moves_trans; [eapply moves_weaken; [apply moves_refl|]|apply M].
  - unfold weight. by destruct (mine _ _ _ _).
  - intros Hn. destruct (retire_spec by_domain downlink (col w1) st Hn) as (? & ? & _). split; [done|]. cbn. lia.
Qed.

Lemma drop_moves n x w : moves x x w (set_col (drop_targets n (col w)) w).
Proof. apply moves_col, drop_targets_core. Qed.

Lemma clear_pending_moves w f : moves 0 0 w (clear_pending w f).
Proof.
  unfold clear_pending. destruct (flow_heap w !! f) as [flow|]; [|apply moves_refl]. destruct (is_udp _); [|apply moves_refl].
  destruct (Flow.state flow ≫= _) as [[s st]|] eqn:E; [|apply moves_refl]. apply state_of_Some in E as [_ Hs].
  pose proof (moves_state by_domain downlink epoch user w s st (FlowState.set_packets (PacketState.set_pending ∅ (FlowState.packets st)) st) 0
    (drop_pending_targets (size (PacketState.pending (FlowState.packets st))) (col w)) Hs eq_refl eq_refl (drop_pending_targets_core _ _)) as M.
  eapply moves_trans; [eapply moves_weaken; [apply moves_refl|]|apply M].
  - unfold weight. by destruct (mine _ _ _ _).
  - intros Hn. pose proof Hn as [C U T P]. split; [by constructor|]. unfold AnalysisLedger.amount. cbn. rewrite map_total_empty.
    assert (0 <= map_total (pending_count downlink) (PacketState.pending (FlowState.packets st)))
      by (apply map_total_nonneg; intros j q Hq; by apply side_nonneg; apply (P j q)).
    destruct (_ && _); lia.
Qed.

(** ** The collector's own state *)

(** Nothing counted changes, and the sampler is not between two steps on a flow. *)
Lemma col_same_ledger c' w :
  ledger_ok 0 w -> log c' = log (col w) -> Inner.epoch (inner c') = Inner.epoch (inner (col w)) ->
  Inner.bucket (inner c') = Inner.bucket (inner (col w)) -> work w = WIdle -> ledger_ok 0 (set_col c' w).
Proof.
  intros H El Ee Eb Ew. rewrite <- (set_work_id w c'). apply (col_ledger _ _ _ _ 0).
  - done.
  - rewrite Eb. apply H.
  - unfold work_rows_ok. cbn. by rewrite Ew.
  - rewrite El. unfold AnalysisLedger.open_bytes. cbn. rewrite Ee, Eb. lia.
Qed.

Lemma unregister_ledger key w :
  ledger_ok 0 w -> (match work w with WSample _ _ _ _ (Some _) => False | _ => True end) -> ledger_ok 0 (unregister key w).
Proof.
  intros H Hw. unfold unregister. set (c' := set_inner _ _). rewrite <- (set_work_id w c'). apply (col_ledger _ _ _ _ 0); [done|apply H| |done].
  pose proof (lk_work _ _ _ _ _ _ H) as K. unfold work_rows_ok in *. cbn. by destruct (work w) as [| |e now b todo [|]].
Qed.

(** Dropping what is buffered. *)
Lemma discard_ledger c w :
  ledger_ok 0 w -> work w = WIdle -> log c = log (col w) -> ledger_ok 0 (set_col (discard_buffered c) w).
Proof.
  intros H Hw El. pose proof (discard_buffered_discards c) as [I N R A L G].
  set (c' := discard_buffered c) in *. assert (Inner.bucket (inner c') = None) as Eb by by rewrite N.
  clearbody c'. rewrite <- (set_work_id w). apply (col_ledger _ _ _ _ 0).
  - done.
  - by rewrite Eb.
  - unfold work_rows_ok. cbn. by rewrite Hw.
  - rewrite G, El. unfold AnalysisLedger.open_bytes. cbn. rewrite Eb, Hw. cbn.
    assert (0 <= from_option bucket_bytes 0 (Inner.bucket (inner (col w)))); [|repeat destruct (_ =? epoch); lia].
    pose proof (lk_bucket _ _ _ _ _ _ H) as B. destruct (Inner.bucket (inner (col w))) as [b|]; [|done]. by apply bucket_bytes_nonneg, B.
Qed.

Lemma clear_pendings_ledger l w : ledger_ok 0 w -> ledger_ok 0 (foldl clear_pending w l).
Proof. revert w. induction l as [|f l IH]; intros w H; [done|]. apply IH. eapply moves_ok; [exact H|apply clear_pending_moves]. Qed.

Lemma pause_ledger e w : ledger_ok 0 w -> work w = WIdle -> ledger_ok 0 (pause e w).
Proof. intros H Hw. unfold pause. destruct (negb _); [done|]. by apply clear_pendings_ledger, discard_ledger. Qed.

Lemma configure_start_ledger e config w : ledger_ok 0 w -> work w = WIdle -> ledger_ok 0 (configure_start e config w).
Proof.
  intros H Hw. unfold configure_start. destruct (_ || _); [done|].
  destruct (adopt_inner (registrations (col w)) (Inner.set_session (Inner.epoch (inner (col w)))
    (Inner.session_open (inner (col w))) true (inner (col w)))) as (E1 & _ & E3 & E4 & E5 & E6 & E7).
  set (c0 := set_limits _ _).
  assert (Inner.epoch (inner c0) = Inner.epoch (inner (col w)) /\ Inner.bucket (inner c0) = Inner.bucket (inner (col w)) /\ log c0 = log (col w))
    as (Ee & Eb & El) by by unfold c0; cbn; rewrite E1, E5.
  clearbody c0. apply (col_ledger _ _ _ _ 0); [done|rewrite Eb; apply H|done|].
  unfold AnalysisLedger.open_bytes. cbn. rewrite Ee, Eb, El, Hw. cbn. lia.
Qed.

(** The targets a new state keeps are drained. *)
Lemma keep_targets_drained ts acc :
  same_core acc.1 (foldl keep_target acc ts).1 /\
  ((forall t x, acc.2 !! t = Some x -> TargetState.counters x = Counters.zero) ->
   forall t x, (foldl keep_target acc ts).2 !! t = Some x -> TargetState.counters x = Counters.zero).
Proof.
  revert acc. induction ts as [|kv ts IH]; intros acc; [done|]. cbn [foldl]. destruct (IH (keep_target acc kv)) as [S1 K1].
  split; [etransitivity; [apply (keep_target_core acc kv)|exact S1]|]. intros Ha. apply K1. destruct acc as [c kept]. unfold keep_target.
  destruct (_ || _); [exact Ha|]. cbn in *. intros t x. rewrite lookup_insert_Some. intros [[_ <-]|[_ Hx]]; [done|by apply (Ha t)].
Qed.

Lemma configure_flow_ledger key e w w' :
  world_ok w -> ledger_ok 0 w -> (match work w with WConfigure _ _ => True | _ => False end) ->
  configure_flow key e w = Some w' -> ledger_ok 0 w'.
Proof.
  intros Hok H Hw E. unfold configure_flow in E. apply bind_Some in E as (f & Hf & E). apply bind_Some in E as (flow & Hflow & E).
  pose proof (retire_flow_moves f w) as M1. pose proof (heap_step_ids _ _ _ _ (retire_flow_step f w load_zero) (wo_ids _ Hok)) as Hids.
  assert (forall f0 fl', flow_heap (retire_flow f w).1 !! f0 = Some fl' -> exists fl, flow_heap w !! f0 = Some fl /\ Flow.meta fl' = Flow.meta fl) as Hmeta.
  { intros f0 fl' Hfl. unfold retire_flow in Hfl. rewrite Hflow in Hfl.
    assert (flow_heap (update_flow f (Flow.set_state None) w) !! f0 = Some fl') as Hfl'
      by (destruct (Flow.state flow ≫= _) as [[s st]|]; exact Hfl).
    cbn in Hfl'. apply lookup_alter_Some in Hfl' as [[<- (fl & Hfl0 & ->)]|[_ Hfl0]]; eauto. }
  destruct (retire_flow f w) as [w1 old]. cbn [fst] in M1, Hids, Hmeta. destruct (_ || _ || _); injection E as <-.
  - apply unregister_ledger.
    + eapply moves_ok; [exact H|]. eapply moves_trans; [exact M1|].
      match goal with |- context [if ?b then _ else _] => destruct b end; [|apply drop_moves].
      eapply moves_trans; [by apply (moves_col _ _ _ _ 0 w1 (set_stats (Stats.limited "budget") (col w1)))|].
      apply (drop_moves _ 0 (set_col (set_stats (Stats.limited "budget") (col w1)) w1)).
    + cbn. rewrite (mv_work _ _ _ _ _ _ _ _ M1). by destruct (work w).
  - destruct (keep_targets_drained (hash_targets old) (col w1, ∅)) as [Sc Kz].
    destruct (foldl keep_target (col w1, ∅) (hash_targets old)) as [c kept]. cbn [fst snd] in Sc, Kz.
    specialize (Kz ltac:(intros t x; by rewrite lookup_empty)). set (st := FlowState.set_packets _ _).
    assert (state_nonneg st) as Hn by (constructor; cbn; try done; intros t x Hx; by rewrite (Kz t x Hx)).
    assert (amount st = 0) as Ha.
    { unfold AnalysisLedger.amount. cbn. rewrite map_total_empty. assert (count downlink Counters.zero = 0) as Hz by (unfold count, side; by destruct downlink).
      rewrite Hz. destruct (_ && _); [|done]. rewrite (map_total_ext _ (fun _ => 0)); [by rewrite map_total_const|]. intros t x Hx. by rewrite (Kz t x Hx). }
    assert (ids_ok (set_col c w1)) as Hids' by (destruct Hids; by constructor).
    eapply moves_ok; [exact H|]. eapply moves_trans; [exact M1|]. eapply moves_trans; [by apply (moves_col _ _ _ _ 0 w1 c)|].
    eapply moves_trans; [exact (moves_alloc_state _ _ _ _ 0 (set_col c w1) st Hids' Hn Ha)|].
    apply moves_flow. intros fl Hfl. cbn in Hfl. split; [done|]. intros s [= <-]. right. exists st. cbn.
    rewrite lookup_insert_eq. split; [done|]. cbn. destruct (Hmeta f fl Hfl) as (fl0 & Hfl0 & ->). by replace fl0 with flow by congruence.
Qed.

(** ** The sampler *)

Lemma forget_finished_ledger w kf : work w = WIdle -> ledger_ok 0 w ->
  work (forget_finished w kf) = WIdle /\ ledger_ok 0 (forget_finished w kf).
Proof.
  intros Hw H. unfold forget_finished. destruct (flow_heap w !! kf.2) as [flow|]; [|done]. destruct (Flow.finished flow); [|done].
  pose proof (retire_flow_moves kf.2 w) as M. destruct (retire_flow kf.2 w) as [w1 targets]. cbn [fst] in M.
  pose proof (moves_trans _ _ _ _ _ _ _ _ _ _ M (drop_moves (size targets) 0 w1)) as M2.
  assert (work w1 = WIdle) as Hw1 by by rewrite (mv_work _ _ _ _ _ _ _ _ M). split; [done|].
  apply unregister_ledger; [by eapply moves_ok|]. cbn. by rewrite Hw1.
Qed.

Lemma forget_all_ledger l w : work w = WIdle -> ledger_ok 0 w -> ledger_ok 0 (foldl forget_finished w l).
Proof.
  revert w. induction l as [|kf l IH]; intros w Hw H; [done|]. destruct (forget_finished_ledger w kf Hw H). by apply IH.
Qed.

Lemma empty_rows_ok minute : rows_ok (MinuteBucket.new minute) /\ bucket_bytes (MinuteBucket.new minute) = 0.
Proof.
  split; [constructor; cbn; intros k r; by rewrite lookup_empty|]. unfold AnalysisLedger.bucket_bytes. cbn. by destruct by_domain.
Qed.

Lemma sample_start_ledger now w : world_ok w -> ledger_ok 0 w -> work w = WIdle -> ledger_ok 0 (sample_start now w).
Proof.
  intros Hok H Hw. unfold sample_start. set (c := set_stats _ _).
  destruct (adopt_inner (registrations (col w)) (inner (col w))) as (E1 & _ & E3 & E4 & E5 & E6 & E7).
  assert (Inner.epoch (inner c) = Inner.epoch (inner (col w)) /\ Inner.bucket (inner c) = Inner.bucket (inner (col w)) /\ log c = log (col w)
    /\ limits c = limits (col w))
    as (Ee & Eb & El & Eli) by by unfold c; cbn; rewrite E1, E5.
  clearbody c. assert (ledger_ok 0 (set_col c w)) as H1 by by apply col_same_ledger.
  destruct (active c =? 0); [by apply forget_all_ledger|].
  set (c1 := set_inner (Inner.set_bucket None) c).
  set (cb := match Inner.bucket (inner c) with None => _ | Some b => _ end).
  assert (rows_ok cb.2 /\ Inner.epoch (inner cb.1) = Inner.epoch (inner c) /\ Inner.bucket (inner cb.1) = None /\
    queued (log cb.1) + now_in epoch (Inner.epoch (inner c)) (bucket_bytes cb.2) <=
    queued (log c) + now_in epoch (Inner.epoch (inner c)) (from_option bucket_bytes 0 (Inner.bucket (inner c)))) as (Hr & Hep & Hn & Hq).
  { unfold cb. destruct (empty_rows_ok (minute_of now)) as [Hr0 Hz]. pose proof (lk_bucket _ _ _ _ _ _ H1) as B. cbn in B.
    destruct (Inner.bucket (inner c)) as [b|].
    - specialize (B b eq_refl). destruct (_ <? _); cbn [fst snd]; [|split_and!; done].
      assert (bounded (limits c1)) as Hlim by (cbn; rewrite Eli; by destruct (wo_covers _ Hok)).
      destruct (seal_session now b c1 Hlim) as [[I R A L E O C F Bk] _]. split_and!; [done|by rewrite E|by rewrite Bk|].
      pose proof (seal_queued by_domain downlink epoch user now b c1 B) as K. rewrite Hz.
      change (Inner.epoch (inner c1)) with (Inner.epoch (inner c)) in K. change (log c1) with (log c) in K.
      unfold now_in in *. cbn [from_option]. destruct (_ =? epoch); lia.
    - cbn [fst snd]. split_and!; try done. change (log c1) with (log c). rewrite Hz. unfold now_in. cbn [from_option]. destruct (_ =? epoch); lia. }
  destruct cb as [c2 bucket]. cbn [fst snd] in *.
  change (ledger_ok 0 (set_work (WSample (active c) now bucket (dom (Inner.flows (inner c2))) None) (set_col c2 (set_col c w)))).
  apply (col_ledger _ _ _ _ 0); [done|by rewrite Hn|by split|].
  unfold AnalysisLedger.open_bytes, now_in in *. cbn -[total]. rewrite Hn, Hep, Hw. cbn -[total]. destruct (_ =? epoch); lia.
Qed.

Lemma sample_flow_ledger key e now bucket todo w w' :
  world_ok w -> ledger_ok 0 w -> work w = WSample e now bucket todo None -> sample_flow key e now bucket todo w = Some w' ->
  ledger_ok 0 w'.
Proof.
  intros Hok H Hw E. unfold sample_flow in E. apply bind_Some in E as (f & Hf & E). apply bind_Some in E as (flow & Hflow & E).
  injection E as <-. pose proof (lk_work _ _ _ _ _ _ H) as K. unfold work_rows_ok in K. rewrite Hw in K. destruct K as [Hr _].
  assert (forall at', match at' with Some (k, s, _) => sampling_ok w e k s | None => True end ->
    ledger_ok 0 (set_work (WSample e now bucket (todo ∖ {[key]}) at') w)) as Hset.
  { intros at' Hs. assert (set_work (WSample e now bucket (todo ∖ {[key]}) at') w = set_work (WSample e now bucket (todo ∖ {[key]}) at') (set_col (col w) w)) as ->
      by by destruct w.
    apply (col_ledger _ _ _ _ 0); [done|apply H|by split|]. unfold AnalysisLedger.open_bytes. cbn. rewrite Hw. lia. }
  destruct (load_state f e w) as [s|] eqn:El; apply Hset; [|done].
  apply load_state_spec in El as (fl & st & Hfl & Hs & Hst & He). destruct (ho_owner _ (lk_heap _ _ _ _ _ _ H) f fl s Hfl Hs) as (st' & Hst' & Ho).
  exists f, st. split_and!; try done; [by eapply flow_id; [apply Hok|]|]. intros fl' Hfl'. congruence.
Qed.

Lemma udp_user meta : is_udp_user (UserKey.from meta) = is_udp meta.
Proof. done. Qed.

Lemma sample_drain_ledger now e now_unix bucket todo key s fin w w' :
  world_ok w -> ledger_ok 0 w -> work w = WSample e now_unix bucket todo (Some (key, s, fin)) ->
  sample_drain now e now_unix bucket todo key s fin w = Some w' -> ledger_ok 0 w'.
Proof.
  intros Hok H Hw E. unfold sample_drain in E. apply bind_Some in E as (f & Hf & E). apply bind_Some in E as (flow & Hflow & E).
  apply bind_Some in E as (st & Hst & E).
  pose proof (lk_work _ _ _ _ _ _ H) as K. unfold work_rows_ok in K. rewrite Hw in K. destruct K as [Hr (f' & st' & Hf' & Hlt & Ho & Hst' & He)].
  assert (st' = st) as -> by congruence. assert (f' = f) as -> by congruence. specialize (Ho flow Hflow).
  pose proof (wo_work _ Hok) as K. unfold work_ok in K. rewrite Hw in K. destruct K as (Ke & Kz & Kb & Kn).
  assert (e = Inner.epoch (inner (col w))) as Ee by (destruct (se_active _ (wo_session _ Hok)) as [|[? _]]; congruence).
  destruct (drain_flow_keeps now (col w, flow, st)) as [[Kf _] Kfl].
  pose proof (ho_states _ (lk_heap _ _ _ _ _ _ H) s st Hst) as Hn.
  pose proof (drain_flow_spec by_domain downlink now (col w, flow, st) Hn ltac:(cbn; by rewrite Ho)) as Kd.
  destruct (drain_flow now (col w, flow, st)) as [[[c1 flow1] st1] drained]. cbn [fst snd] in Kf, Kfl, Kd. subst flow1. destruct Kf. cbn in fr_core, fr_epoch, fr_owner.
  destruct Kd as (Hn1 & Hdn & Ha).
  pose proof (aggregate_adds by_domain downlink user (Flow.meta flow) drained (c1, bucket) Hdn Hr) as [Hr2 Hb2].
  pose proof (aggregate_fills (Flow.meta flow) drained (c1, bucket)) as F. destruct (aggregate (Flow.meta flow) drained (c1, bucket)) as [c2 bucket2].
  injection E as <-. destruct F as [Fc _ _ _]. cbn [fst snd] in *. set (z := drained_bytes by_domain downlink (is_udp (Flow.meta flow)) drained) in *.
  pose proof (moves_state by_domain downlink epoch user w s st st1 (- z) c1 Hst fr_epoch fr_owner fr_core ltac:(intros _; split; [done|lia])) as M.
  pose proof (moves_frame _ _ _ _ (weight epoch user st z) _ _ _ _ M) as M2.
  assert (weight epoch user st (- z) + weight epoch user st z = 0) as Ez by (unfold weight; destruct (mine _ _ _ _); lia). rewrite Ez in M2. cbn [Z.add] in M2.
  set (w1 := set_col c1 (set_states (<[s := st1]> (states w)) w)) in *.
  pose proof (moves_ok _ _ _ _ _ _ _ _ H M2) as H1.
  set (w2 := set_work _ _). assert (ledger_ok 0 w2) as H2.
  { change w2 with (set_work (WSample e now_unix bucket2 todo None) (set_col c2 w1)). apply (col_ledger _ _ _ _ _ _ _ _ _ H1).
    - rewrite (sc_inner _ _ Fc), (sc_inner _ _ fr_core). intros b. by rewrite Kn.
    - by split.
    - rewrite (sc_log _ _ Fc). unfold AnalysisLedger.open_bytes. cbn -[total].
      rewrite (sc_inner _ _ Fc), (sc_inner _ _ fr_core), Kn, Hw. cbn -[total].
      unfold weight, AnalysisLedger.mine. unfold own in Hb2. rewrite He, Ho, Ee.
      destruct (Inner.epoch (inner (col w)) =? epoch); cbn [andb]; lia. }
  destruct fin; [|done]. pose proof (retire_flow_moves f w2) as M3. destruct (retire_flow f w2) as [w3 targets]. cbn [fst] in M3.
  apply unregister_ledger; [eapply moves_ok; [exact H2|]; eapply moves_trans; [exact M3|apply drop_moves]|].
  cbn. by rewrite (mv_work _ _ _ _ _ _ _ _ M3).
Qed.

Lemma sample_end_ledger e now bucket todo w :
  world_ok w -> ledger_ok 0 w -> work w = WSample e now bucket todo None -> ledger_ok 0 (sample_end bucket w).
Proof.
  intros Hok H Hw. unfold sample_end. pose proof (wo_work _ Hok) as K. unfold work_ok in K. rewrite Hw in K. destruct K as (Ke & Kz & Kb & Kn).
  pose proof (lk_work _ _ _ _ _ _ H) as K. unfold work_rows_ok in K. rewrite Hw in K. destruct K as [Hr _].
  apply (col_ledger _ _ _ _ 0); [done| |done|].
  - intros b. cbn. by intros [= <-].
  - unfold AnalysisLedger.open_bytes. cbn -[total]. rewrite Kn, Hw. cbn -[total].
    destruct (Inner.epoch (inner (col w)) =? epoch); lia.
Qed.

(** ** Registration and release *)

Lemma alloc_pair_moves w flow st :
  ids_ok w -> state_nonneg st -> amount st = 0 -> Flow.state flow = Some (next_id w + 1)%N ->
  FlowState.owner st = UserKey.from (Flow.meta flow) ->
  moves 0 0 w (set_states (<[(next_id w + 1)%N := st]> (states w))
                 (set_flow_heap (<[next_id w := flow]> (flow_heap w)) (fresh_id (fresh_id w).2).2)).
Proof.
  intros [F S T P] Hn Ha Hs Ho. constructor; try done.
  - constructor; cbn; [lia| | |].
    + intros f' fl Hf. rewrite lookup_insert_ne by lia. eauto.
    + intros s' st0 Hst. exists st0. rewrite lookup_insert_ne; [done|]. intros <-. rewrite S in Hst by lia. done.
    + intros s' st0 Hlt. rewrite lookup_insert_ne by lia. eauto.
  - intros [Sn O]. split.
    + constructor; cbn.
      * intros s' st0. rewrite lookup_insert_Some. intros [[_ <-]|[_ H]]; [done|by apply (Sn s')].
      * intros f' fl s'. rewrite lookup_insert_Some. intros [[<- <-]|[_ Hf]] Hfs.
        -- rewrite Hs in Hfs. injection Hfs as <-. exists st. by rewrite lookup_insert_eq.
        -- destruct (O f' fl s' Hf Hfs) as (st0 & Hst & Eo). exists st0. rewrite lookup_insert_ne; [done|].
           intros <-. rewrite S in Hst by lia. done.
    + cbn [states set_states set_flow_heap]. rewrite map_total_insert, S by lia. cbn [from_option]. unfold AnalysisLedger.state_bytes at 1.
      rewrite Ha. destruct (mine _ _ _ _); lia.
Qed.

Lemma registrations_ledger l w : ledger_ok 0 w -> ledger_ok 0 (set_col (set_registrations l (col w)) w).
Proof.
  intros H. rewrite <- (set_work_id w). apply (col_ledger _ _ _ _ 0); [done|apply H| |].
  - pose proof (lk_work _ _ _ _ _ _ H) as K. unfold work_rows_ok in *. cbn. by destruct (work w) as [| |e now b todo [|]].
  - unfold AnalysisLedger.open_bytes. cbn -[total]. lia.
Qed.

Lemma register_ledger expected metadata w : world_ok w -> ledger_ok 0 w -> ledger_ok 0 (register expected metadata w).
Proof.
  intros Hok H. unfold register. destruct (register_at_epoch expected metadata (col w)) as [c o] eqn:E.
  pose proof (hs_core _ _ _ _ (register_at_epoch_step _ _ _ _ _ E)) as Sc. cbn in Sc.
  pose proof (moves_col by_domain downlink epoch user 0 w c Sc) as M1. destruct o as [meta|]; [|by eapply moves_ok]. cbn.
  set (st := FlowState.new _ _ _). set (flow := Flow.mk _ _ _ _ _ _ _ _ _).
  assert (state_nonneg st) as Hn by (constructor; cbn; try done; intros t x; by rewrite lookup_empty).
  assert (amount st = 0) as Ha by (unfold AnalysisLedger.amount, count, side; cbn; by destruct (_ && _), downlink).
  assert (ids_ok (set_col c w)) as Hids by (destruct (wo_ids _ Hok); by constructor).
  pose proof (alloc_pair_moves (set_col c w) flow st Hids Hn Ha eq_refl eq_refl) as M2.
  exact (registrations_ledger (registrations c ++ [next_id w]) _ (moves_ok _ _ _ _ _ _ _ _ H (moves_trans _ _ _ _ _ _ _ _ _ _ M1 M2))).
Qed.

Lemma free_flow_moves f flow w : moves 0 0 w (free_flow f flow w).
Proof.
  unfold free_flow. set (c := if Flow.unseen flow then _ else _).
  assert (same_core (col w) c) as Sc by (unfold c; by destruct (Flow.unseen flow)).
  set (w1 := set_flow_heap (delete f (flow_heap w)) w). assert (moves 0 0 w (set_col c w1)) as M1.
  { constructor; try done.
    - constructor; cbn; [done| |eauto|eauto]. intros f' fl _ [_ Hf]%lookup_delete_Some. eauto.
    - intros [S O]. split; [|done]. constructor; cbn; [done|]. intros f' fl s [_ Hf]%lookup_delete_Some. by apply (O f'). }
  destruct (Flow.state flow ≫= _) as [[s st]|] eqn:E; [|exact M1]. apply state_of_Some in E as [_ Hs]. cbn [retire].
  pose proof (moves_state by_domain downlink epoch user (set_col c w1) s st (FlowState.set_packets (PacketState.retire (FlowState.packets st)) st) 0
    (drop_targets (size (PacketState.targets (FlowState.packets st)))
      (drop_pending_targets (size (PacketState.pending (FlowState.packets st))) c)) Hs eq_refl eq_refl) as M.
  eapply moves_trans; [exact M1|]. eapply moves_trans; [eapply moves_weaken; [apply moves_refl|]|apply M].
  - unfold weight. by destruct (mine _ _ _ _).
  - etransitivity; [apply drop_pending_targets_core|apply drop_targets_core].
  - intros Hn. destruct (retire_spec by_domain downlink c st Hn) as (? & ? & _). split; [done|]. cbn. lia.
Qed.

(** ** The stream *)

Lemma next_ledger e now w w' :
  world_ok w -> ledger_ok 0 w -> work w = WIdle -> step (LNext e now) w = Some w' -> ledger_ok 0 w'.
Proof.
  intros Hok H Hw E. cbn in E. unfold idle in E. rewrite Hw in E. cbn in E. unfold next in E.
  destruct (_ || _); [injection E as <-; destruct w; done|].
  destruct (next_ready now (Inner.queue (inner (col w))) (col w)) as [c ob] eqn:En.
  destruct (next_ready_spec now _ _ _ _ En eq_refl (wo_queue _ Hok) ltac:(by destruct (wo_covers _ Hok)))
    as (Ss & _ & El & _). pose proof Ss as [I R A L Ep O C F B].
  assert (ledger_ok 0 (set_col c w)) as H1 by by apply col_same_ledger.
  destruct ob as [b|]; injection E as <-; [|done]. eapply (moves_ok _ _ _ _ 0); [exact H1|]. constructor; try done.
  - by constructor; cbn; [lia|eauto..].
  - intros []. split; [by constructor|done].
Qed.

Lemma popped_ledger i g after w w' :
  ledger_ok 0 w -> with_popped i g after w = Some w' -> (forall b c, same_core c (g b c)) -> ledger_ok 0 w'.
Proof.
  intros H E Hg. unfold with_popped in E. apply bind_Some in E as (b & Hb & [= <-]).
  eapply (moves_ok _ _ _ _ 0); [exact H|]. eapply moves_trans; [apply (moves_col _ _ _ _ 0 w (g b (col w))), Hg|]. by apply moves_same.
Qed.

(** ** Every step *)

Lemma accounted_ledger l w :
  ledger_ok 0 w ->
  ledger_ok (total (account downlink epoch user) l) (set_finished (l ++ finished w) w).
Proof.
  intros [H T B K L]. constructor; try done; [by destruct H|]. unfold AnalysisLedger.finished_bytes in *.
  cbn [finished set_finished]. rewrite total_app. change (AnalysisLedger.ledger by_domain downlink epoch user (set_finished (l ++ finished w) w))
    with (AnalysisLedger.ledger by_domain downlink epoch user w). lia.
Qed.

Lemma plain_ledger f g w :
  ledger_ok 0 w -> (forall flow, Flow.meta (g flow) = Flow.meta flow /\ Flow.state (g flow) = Flow.state flow) ->
  ledger_ok 0 (update_flow f g w).
Proof. intros H Hg. eapply moves_ok; [exact H|by apply moves_plain]. Qed.

Lemma unhold_ledger f p s c w :
  ledger_ok 0 w -> same_core (col w) c -> ledger_ok 0 (set_col c (update_flow f (Flow.hold p s) w)).
Proof.
  intros H Sc. eapply moves_ok; [by apply (plain_ledger f (Flow.hold p s))|]. by apply moves_col.
Qed.

Lemma tokens_ledger l w x : ledger_ok x w -> ledger_ok x (set_tokens l w).
Proof. intros H. eapply moves_ok; [exact H|by apply moves_same]. Qed.

Local Abbreviation accounted := (total (account downlink epoch user)).

(** A completed call is accounted before it records anything. *)
Lemma complete_ledger t done_ tokens w :
  world_ok w -> ledger_ok 0 w -> thread_nonneg w t -> thread_bytes downlink epoch user w t <= accounted done_ ->
  ledger_ok 0 (spawn t (set_finished (done_ ++ finished w) (set_tokens tokens w))).
Proof.
  intros Hok H Ht Hb.
  pose proof (accounted_ledger done_ _ (tokens_ledger tokens w 0 H)) as H1.
  apply (spawn_ledger _ _ _ _ _ _ _ _ H1); [destruct (wo_ids _ Hok); by constructor|exact Ht|].
  exact Hb.
Qed.

Lemma idle_spawn t w :
  world_ok w -> ledger_ok 0 w -> thread_nonneg w t -> thread_bytes downlink epoch user w t = 0 -> ledger_ok 0 (spawn t w).
Proof. intros Hok H Ht Hb. apply (spawn_ledger _ _ _ _ 0 0); [done|apply Hok|done|lia]. Qed.

Lemma batch_accounted e k (packets : list (Target.t * Z * Z)) :
  accounted ((fun '(_, up, down) => (e, k, up, down)) <$> packets) = if mine epoch user e k then total (packet_bytes downlink) packets else 0.
Proof.
  rewrite total_fmap. destruct (mine epoch user e k) eqn:Em.
  - apply total_ext. intros [[t u] d] _. unfold account. by rewrite Em.
  - rewrite (total_ext _ (fun _ => 0)); [by rewrite total_const|]. intros [[t u] d] _. unfold account. by rewrite Em.
Qed.

Lemma u64_nonneg z : u64 z = true -> 0 <= z.
Proof. unfold u64. rewrite andb_true_iff, Z.leb_le. tauto. Qed.

Lemma guard_true b u : guard b = Some u -> b = true.
Proof. by destruct b. Qed.

Lemma step_ledger l w w' : world_ok w -> ledger_ok 0 w -> step l w = Some w' -> ledger_ok 0 w'.
Proof.
  intros Hok H E. pose proof (wo_ids _ Hok) as Hids. destruct l; cbn -[with_popped spawn u64 forallb] in E;
    repeat (match type of E with
            | owned _ _ ≫= _ = Some _ => apply bind_Some in E as (flow & Ho & E); apply owned_Some in Ho
            | flow_heap _ !! _ ≫= _ = Some _ => apply bind_Some in E as (flow & Hf & E)
            | guard _ ≫= _ = Some _ => apply bind_Some in E as (? & Hg & E); apply guard_true in Hg
            | take_token _ _ _ ≫= _ = Some _ => apply bind_Some in E as (rest & Ht & E)
            | idle _ ≫= _ = Some _ => apply bind_Some in E as (? & Hi & E); apply idle_work in Hi
            end).
  - injection E as <-. by apply register_ledger.
  - injection E as <-. by apply plain_ledger.
  - injection E as <-. by apply plain_ledger.
  - injection E as <-. eapply moves_ok; [exact H|apply free_flow_moves].
  - injection E as <-. by apply plain_ledger.
  - injection E as <-. apply idle_spawn; [|by apply plain_ledger|done|done]. by apply update_ok; [|done|intros ? []].
  - injection E as <-. apply andb_prop in Hg as [Hu Hd]. apply u64_nonneg in Hu, Hd.
    apply (complete_ledger (TFinish f epoch0 up down target known_web) [(epoch0, UserKey.from (Flow.meta flow), up, down)]); [done..| |].
    + cbn. split; [by eapply flow_id|done].
    + cbn. rewrite Hf. lia.
  - injection E as <-. apply (complete_ledger (TBatch f epoch0 packets)); [done..| |].
    + cbn. split; [by eapply flow_id|]. unfold packets_nonneg. rewrite Forall_forall. intros [[t u] d] Hin.
      rewrite forallb_forall in Hg. apply list_elem_of_In in Hin. specialize (Hg _ Hin). apply andb_prop in Hg as [Hu Hd]. by apply u64_nonneg in Hu, Hd.
    + rewrite batch_accounted. cbn -[total]. rewrite Hf. lia.
  - injection E as <-. by apply plain_ledger; [apply tokens_ledger|].
  - injection E as <-. by apply idle_spawn.
  - injection E as <-. by apply idle_spawn.
  - injection E as <-. by apply idle_spawn.
  - injection E as <-. by apply unhold_ledger.
  - injection E as <-. by apply unhold_ledger.
  - injection E as <-. by apply unhold_ledger.
  - apply bind_Some in E as (t & Ht & E). apply bind_Some in E as ([w1 rest] & Es & [= <-]).
    pose proof (lk_threads _ _ _ _ _ _ H i t Ht) as Hn.
    destruct (thread_step_moves by_domain downlink epoch user now t w w1 rest Es (lk_heap _ _ _ _ _ _ H) Hids Hn) as [M Hr].
    by apply (thread_ok_step _ _ _ _ 0 w w1 i t rest).
  - injection E as <-. unfold begin_session. by apply discard_ledger.
  - injection E as <-. by apply pause_ledger.
  - injection E as <-. by apply configure_start_ledger.
  - destruct (work w) as [|e todo|] eqn:Hw; try done. apply bind_Some in E as (? & _ & E).
    apply (configure_flow_ledger key e (set_work (WConfigure e (todo ∖ {[key]})) w)); [| |done|exact E].
    + pose proof (wo_work _ Hok) as K. unfold work_ok in K. rewrite Hw in K. apply set_work_ok; [done|by rewrite Hw|exact K].
    + assert (set_work (WConfigure e (todo ∖ {[key]})) w = set_work (WConfigure e (todo ∖ {[key]})) (set_col (col w) w)) as -> by by destruct w.
      apply (col_ledger _ _ _ _ 0); [done|apply H|done|]. unfold AnalysisLedger.open_bytes. cbn -[total]. rewrite Hw. lia.
  - destruct (work w) as [|e todo|] eqn:Hw; try done. apply bind_Some in E as (? & _ & [= <-]). unfold configure_end.
    apply (col_ledger _ _ _ _ 0); [done|apply H|done|]. unfold AnalysisLedger.open_bytes. cbn -[total]. rewrite Hw. lia.
  - injection E as <-. by apply sample_start_ledger.
  - destruct (work w) as [| |e now_unix bucket todo [|]] eqn:Hw; try done. apply bind_Some in E as (? & _ & E). by eapply sample_flow_ledger.
  - destruct (work w) as [| |e now_unix bucket todo [[[key s] fin]|]] eqn:Hw; try done. by eapply sample_drain_ledger.
  - destruct (work w) as [| |e now_unix bucket todo [|]] eqn:Hw; try done. apply bind_Some in E as (? & _ & [= <-]). by eapply sample_end_ledger.
  - apply (next_ledger epoch0 now w w' Hok H Hi). unfold step, idle. rewrite Hi. exact E.
  - eapply popped_ledger; [exact H|exact E|intros; apply complete_core].
  - eapply popped_ledger; [exact H|exact E|intros; apply drop_batch_core].
  - eapply popped_ledger; [exact H|exact E|intros; apply free_batch_core].
Qed.

Lemma world_new_ledger instance : ledger_ok 0 (world_new instance).
Proof.
  split; try done. unfold AnalysisLedger.ledger, AnalysisLedger.open_bytes. cbn -[Z.eqb]. by destruct (_ =? epoch).
Qed.

Lemma run_ledger ls w w' : world_ok w -> ledger_ok 0 w -> run ls w = Some w' -> ledger_ok 0 w'.
Proof.
  revert w. induction ls as [|l ls IH]; intros w Hok H E; cbn in E; [by injection E as <-|].
  apply bind_Some in E as (w1 & E1 & E). eapply IH; [by eapply world_step_ok|by eapply step_ledger|exact E].
Qed.

Lemma reachable_ledger w : reachable w -> ledger_ok 0 w.
Proof. intros (instance & ls & E). eapply run_ledger; [apply world_new_ok|apply world_new_ledger|exact E]. Qed.

(** The parts are not negative. *)
Lemma parts_nonneg w : ledger_ok 0 w ->
  0 <= open_bytes w /\ 0 <= map_total (state_bytes by_domain downlink epoch user) (states w) /\
  0 <= map_total (thread_bytes downlink epoch user w) (threads w).
Proof.
  intros [H T B K L]. split_and!.
  - unfold AnalysisLedger.open_bytes. destruct (_ =? epoch); [|done].
    assert (0 <= from_option bucket_bytes 0 (Inner.bucket (inner (col w)))) by (destruct (Inner.bucket _); [by apply bucket_bytes_nonneg, B|done]).
    unfold work_rows_ok in K. destruct (work w); [lia..|]. destruct K as [Hr _]. pose proof (bucket_bytes_nonneg by_domain downlink user _ Hr). lia.
  - apply map_total_nonneg. intros s st Hs. unfold AnalysisLedger.state_bytes. destruct (mine _ _ _ _); [|done]. by apply amount_nonneg, (ho_states _ H s).
  - apply map_total_nonneg. intros i t Ht. by apply thread_bytes_nonneg, (T i).
Qed.
End ledger_world.
