(* ===== verification/AnalysisTail.v ===== *)
(** * Traffic analysis: the last bytes of a flow

    The sampler forgets a flow once it has read that the flow is closed and has no
    operation in flight, and drains it after that.  A flow's counter of operations
    in flight counts exactly the tokens and the calls that hold one
    ([tail_ok]); so from the moment it is read as zero on a closed flow, nothing is
    recorded for that flow any more, whatever else runs ([shut]). *)

From Stdlib Require Import ZArith Lia.
From S2P Require Import Prelude Bytes Wire AnalysisConfig AnalysisData Collector Analysis AnalysisBudget.
From S2P Require Import AnalysisQueue AnalysisWorld AnalysisSteps.

Open Scope Z_scope.

(** A call that has been counted in and not out yet, and one that may record. *)
Definition counting (t : thread) : bool :=
  match t with TBegin _ | TFinish _ _ _ _ _ _ | TBatch _ _ _ | TAdd _ _ _ _ | TRecord _ _ _ _ | TLeave _ => true | _ => false end.
Definition recording (t : thread) : bool :=
  match t with TFinish _ _ _ _ _ _ | TBatch _ _ _ | TAdd _ _ _ _ | TRecord _ _ _ _ => true | _ => false end.

Definition one (b : bool) : Z := if b then 1 else 0.
Definition token_of (f : N) (k : N * Z) : Z := one (k.1 =? f)%N.
Definition call_of (f : N) (t : thread) : Z := one (counting t && (thread_flow t =? f)%N).

(** How many operations of [f] are in flight. *)
Definition in_flight (f : N) (w : World) : Z := total (token_of f) (tokens w) + map_total (call_of f) (threads w).

(** ** Steps that leave the counters of operations alone *)

(** Flows keep their counters and stay closed; new ones count nothing. *)
Record still (w w' : World) : Prop := {
  st_next : (next_id w <= next_id w')%N;
  st_tokens : tokens w' = tokens w;
  st_threads : threads w' = threads w;
  st_flow f flow' : flow_heap w' !! f = Some flow' ->
    (exists flow, flow_heap w !! f = Some flow /\ Flow.inflight flow' = Flow.inflight flow /\
      (Flow.closed flow = true -> Flow.closed flow' = true)) \/
    (next_id w <= f)%N /\ Flow.inflight flow' = 0
}.

Lemma still_heaps w w' :
  next_id w' = next_id w -> tokens w' = tokens w -> threads w' = threads w -> flow_heap w' = flow_heap w -> still w w'.
Proof. intros En Et Eth Ef. constructor; rewrite ?En, ?Et, ?Eth, ?Ef; eauto 6. Qed.

#[export] Instance still_preorder : PreOrder still.
Proof.
  split; [intros w; by apply still_heaps|]. intros w1 w2 w3 [N1 T1 H1 F1] [N2 T2 H2 F2].
  constructor; [lia|congruence|congruence|]. intros f flow3 H3.
  destruct (F2 f flow3 H3) as [(flow2 & Hf2 & I2 & C2)|[Hge I2]]; [|right; split; [lia|done]].
  destruct (F1 f flow2 Hf2) as [(flow1 & Hf1 & I1 & C1)|[Hge I1]]; [|right; split; [done|congruence]].
  left. exists flow1. split_and!; [done|congruence|auto].
Qed.

Lemma still_update f g w :
  (forall flow, Flow.inflight (g flow) = Flow.inflight flow /\ (Flow.closed flow = true -> Flow.closed (g flow) = true)) ->
  still w (update_flow f g w).
Proof.
  intros Hg. constructor; cbn; try done. intros f' flow'. rewrite lookup_alter_Some.
  intros [[<- (flow & Hf & ->)]|[_ Hf]]; left; [|eauto]. exists flow. destruct (Hg flow). done.
Qed.

Lemma still_view f s g w w' : in_view f s g w = Some w' -> (forall v, framed v (g v)) -> still w w'.
Proof.
  unfold in_view. intros E Hf. apply bind_Some in E as (flow & Hflow & E). apply bind_Some in E as (st & Hst & E).
  specialize (Hf (col w, flow, st)). destruct (g (col w, flow, st)) as [[c flow'] st']. injection E as <-. destruct Hf. cbn in *.
  constructor; cbn; try done. intros f' fl. rewrite lookup_insert_Some. intros [[<- <-]|[_ ?]]; left; [|eauto].
  exists flow. split_and!; congruence.
Qed.

(** ** The invariant *)

Record tail_ok (w : World) : Prop := {
  ta_count f flow : flow_heap w !! f = Some flow -> Flow.inflight flow = in_flight f w mod 2 ^ 64;
  ta_tokens k : k ∈ tokens w -> (k.1 < next_id w)%N;
  ta_threads i t : threads w !! i = Some t -> (thread_flow t < next_id w)%N
}.

(** Nothing is in flight on [f], and nothing can begin. *)
Record shut (f : N) (w : World) : Prop := {
  sh_id : (f < next_id w)%N;
  sh_closed flow : flow_heap w !! f = Some flow -> Flow.closed flow = true;
  sh_tokens k : k ∈ tokens w -> k.1 <> f;
  sh_threads i t : threads w !! i = Some t -> recording t = true -> thread_flow t <> f
}.

Lemma one_nonneg b : 0 <= one b.
Proof. by destruct b. Qed.

Lemma in_flight_nonneg f w : 0 <= in_flight f w.
Proof.
  unfold in_flight. assert (0 <= total (token_of f) (tokens w)) by (apply total_nonneg; intros; apply one_nonneg).
  assert (0 <= map_total (call_of f) (threads w)) by (apply map_total_nonneg; intros; apply one_nonneg). lia.
Qed.

Lemma in_flight_le f w : in_flight f w <= Z.of_nat (length (tokens w)) + Z.of_nat (size (threads w)).
Proof.
  unfold in_flight. assert (total (token_of f) (tokens w) <= total (fun _ => 1) (tokens w)) as H1.
  { induction (tokens w) as [|k l IH]; [done|]. rewrite !total_cons. unfold token_of, one in *. destruct (_ =? _)%N; lia. }
  assert (map_total (call_of f) (threads w) <= map_total (fun _ => 1) (threads w)) as H2.
  { unfold map_total. induction (map_to_list (threads w)) as [|k l IH]; [done|]. rewrite !total_cons.
    unfold call_of, one in *. destruct (_ && _); lia. }
  rewrite total_const in H1. rewrite map_total_const in H2. lia.
Qed.

(** Nothing in flight means no token and no call that holds one. *)
Lemma in_flight_zero f w :
  in_flight f w = 0 -> (forall k, k ∈ tokens w -> k.1 <> f) /\
    (forall i t, threads w !! i = Some t -> counting t = true -> thread_flow t <> f).
Proof.
  intros Hz. unfold in_flight in Hz.
  assert (0 <= total (token_of f) (tokens w)) by (apply total_nonneg; intros; apply one_nonneg).
  assert (0 <= map_total (call_of f) (threads w)) by (apply map_total_nonneg; intros; apply one_nonneg). split.
  - intros k Hk <-. apply list_elem_of_lookup in Hk as [i Hi].
    pose proof (total_lookup (token_of k.1) (tokens w) i k ltac:(intros; apply one_nonneg) Hi) as Hle.
    unfold token_of at 1 in Hle. rewrite N.eqb_refl in Hle. cbn in Hle. lia.
  - intros i t Ht Hc <-. pose proof (map_total_lookup (call_of (thread_flow t)) (threads w) i t ltac:(intros; apply one_nonneg) Ht) as Hle.
    unfold call_of at 1 in Hle. rewrite Hc, N.eqb_refl in Hle. cbn in Hle. lia.
Qed.

(** A flow read as finished is shut. *)
Lemma finished_shut f flow w :
  tail_ok w -> ids_ok w -> flow_heap w !! f = Some flow -> Flow.finished flow = true ->
  Z.of_nat (length (tokens w)) + Z.of_nat (size (threads w)) <= u64_max -> shut f w.
Proof.
  intros [C T H] Hi Hf Hfin Hle. unfold Flow.finished in Hfin. rewrite andb_true_iff, Z.eqb_eq in Hfin. destruct Hfin as [Hc Hz].
  rewrite (C f flow Hf) in Hz. pose proof (in_flight_le f w) as Hl. pose proof (in_flight_nonneg f w) as Hn.
  unfold u64_max in Hle. rewrite Z.mod_small in Hz by lia. destruct (in_flight_zero f w Hz) as [H1 H2]. constructor.
  - apply N.lt_nge. intros Hge. by rewrite (id_flow _ Hi f) in Hf.
  - intros fl Hfl. congruence.
  - done.
  - intros i t Ht Hr. apply (H2 i t Ht). by destruct t.
Qed.

Lemma in_flight_same f w w' : tokens w' = tokens w -> threads w' = threads w -> in_flight f w' = in_flight f w.
Proof. unfold in_flight. by intros -> ->. Qed.

(** Nobody holds a token of a flow that does not exist yet. *)
Lemma in_flight_fresh f w : tail_ok w -> (next_id w <= f)%N -> in_flight f w = 0.
Proof.
  intros [_ T H] Hf. unfold in_flight. rewrite (total_ext _ (fun _ => 0)), (map_total_ext _ (fun _ => 0)).
  - by rewrite total_const, map_total_const.
  - intros i t Ht. unfold call_of. specialize (H i t Ht). destruct (N.eqb_spec (thread_flow t) f); [lia|by rewrite andb_false_r].
  - intros k Hk. unfold token_of. specialize (T k Hk). destruct (N.eqb_spec k.1 f); [lia|done].
Qed.

Lemma still_ok w w' : still w w' -> tail_ok w -> tail_ok w'.
Proof.
  intros [N T H F] Hok. pose proof Hok as [C Tk Th]. constructor.
  - intros f flow' Hf. rewrite (in_flight_same f w w') by done.
    destruct (F f flow' Hf) as [(flow & Hf0 & -> & _)|[Hge ->]]; [by apply C|by rewrite (in_flight_fresh f w Hok Hge)].
  - rewrite T. intros k Hk. specialize (Tk k Hk). lia.
  - rewrite H. intros i t Ht. specialize (Th i t Ht). lia.
Qed.

Lemma still_shut f w w' : still w w' -> shut f w -> shut f w'.
Proof.
  intros [N T H F] [Hid Hc Ht Hth]. constructor; rewrite ?T, ?H; [lia| |done|done].
  intros flow' Hf. destruct (F f flow' Hf) as [(flow & Hf0 & _ & Hcl)|[Hge _]]; [by apply Hcl, Hc|lia].
Qed.

(** ** The composite operations *)

Section steps.
Context {Env : AnalysisEnv}.

Lemma still_col c w : still w (set_col c w).
Proof. by apply still_heaps. Qed.
Lemma still_work k w : still w (set_work k w).
Proof. by apply still_heaps. Qed.

Lemma retire_flow_still f w : still w (retire_flow f w).1.
Proof.
  unfold retire_flow. destruct (flow_heap w !! f) as [flow|]; [|done].
  assert (still w (update_flow f (Flow.set_state None) w)) as H1 by by apply still_update.
  destruct (Flow.state flow ≫= _) as [[s st]|]; [|exact H1]. etransitivity; [exact H1|]. by apply still_heaps.
Qed.

Lemma forget_finished_still w kf : still w (forget_finished w kf).
Proof.
  unfold forget_finished. destruct (flow_heap w !! kf.2); [|done]. destruct (Flow.finished _); [|done].
  pose proof (retire_flow_still kf.2 w) as H. destruct (retire_flow kf.2 w). etransitivity; [exact H|]. by apply still_heaps.
Qed.

Lemma clear_pending_still w f : still w (clear_pending w f).
Proof.
  unfold clear_pending. destruct (flow_heap w !! f); [|done]. destruct (is_udp _); [|done].
  destruct (_ ≫= _) as [[s st]|]; [|done]. by apply still_heaps.
Qed.

Lemma foldl_still {A} (g : World -> A -> World) l w : (forall w x, still w (g w x)) -> still w (foldl g w l).
Proof. intros Hg. revert w. induction l as [|x l IH]; intros w; [done|]. etransitivity; [apply (Hg w x)|apply IH]. Qed.

Lemma pause_still e w : still w (pause e w).
Proof.
  unfold pause. destruct (negb _); [done|]. etransitivity; [|apply foldl_still, clear_pending_still]. apply still_col.
Qed.

Lemma configure_start_still e config w : still w (configure_start e config w).
Proof. unfold configure_start. destruct (_ || _); [done|]. by apply still_heaps. Qed.

Lemma configure_flow_still key e w w' : configure_flow key e w = Some w' -> still w w'.
Proof.
  unfold configure_flow. intros E. apply bind_Some in E as (f & Hf & E). apply bind_Some in E as (flow & Hflow & E).
  pose proof (retire_flow_still f w) as H. destruct (retire_flow f w) as [w1 old]. cbn [fst] in H.
  destruct (_ || _ || _); injection E as <-; [etransitivity; [exact H|]; by apply still_heaps|].
  destruct (foldl keep_target _ _) as [c kept]. etransitivity; [exact H|].
  set (w2 := set_states _ _). assert (still w1 w2) as H2.
  { constructor; cbn; [lia|done|done|]. intros f' fl Hfl. left. eauto. }
  etransitivity; [exact H2|]. by apply still_update.
Qed.

Lemma sample_start_still now w : still w (sample_start now w).
Proof.
  unfold sample_start. set (c := set_stats _ _).
  destruct (active c =? 0); [etransitivity; [apply (still_col c)|apply foldl_still, forget_finished_still]|].
  match goal with |- still w (let '(c, b) := ?cb in _) => destruct cb end. by apply still_heaps.
Qed.

Lemma sample_flow_still key e now b todo w w' : sample_flow key e now b todo w = Some w' -> still w w'.
Proof.
  unfold sample_flow. intros (f & _ & E)%bind_Some. apply bind_Some in E as (flow & _ & [= <-]).
  destruct (load_state f e w); by apply still_heaps.
Qed.

Lemma sample_drain_still now e now_unix b todo key s fin w w' :
  sample_drain now e now_unix b todo key s fin w = Some w' -> still w w'.
Proof.
  unfold sample_drain. intros (f & _ & E)%bind_Some. apply bind_Some in E as (flow & _ & E). apply bind_Some in E as (st & _ & E).
  destruct (drain_flow now (col w, flow, st)) as [[[c fl] st1] drained]. destruct (aggregate _ _ _) as [c2 b2]. injection E as <-.
  set (w2 := set_work _ _). assert (still w w2) as H2 by by apply still_heaps. destruct fin; [|done].
  pose proof (retire_flow_still f w2) as H. destruct (retire_flow f w2). etransitivity; [exact H2|]. etransitivity; [exact H|]. by apply still_heaps.
Qed.

Lemma register_still expected metadata w : still w (register expected metadata w).
Proof.
  unfold register. destruct (register_at_epoch _ _ _) as [c [meta|]]; [|apply still_col]. constructor; cbn; [lia|done|done|].
  intros f fl. rewrite lookup_insert_Some. intros [[<- <-]|[_ Hf]]; [right; split; [lia|done]|left; eauto].
Qed.

Lemma free_flow_still f flow w : still w (free_flow f flow w).
Proof.
  unfold free_flow. set (w1 := set_flow_heap _ _). assert (still w w1) as H1.
  { constructor; cbn; try done. intros f' fl [_ Hf]%lookup_delete_Some. left. eauto. }
  destruct (_ ≫= _) as [[s st]|]; (etransitivity; [exact H1|]); by apply still_heaps.
Qed.
End steps.

(** ** A step of a call *)

Section calls.
Context {Env : AnalysisEnv}.

(** It goes on for the same flow; or it ends, with a token if the flow is open. *)
Definition goes_on (t : thread) (rest : option thread) : Prop :=
  match rest with
  | Some t' => thread_flow t' = thread_flow t /\ counting t' = counting t /\ (recording t' = true -> recording t = true)
  | None => counting t = false
  end.

Definition takes_token (t : thread) (w w' : World) : Prop :=
  exists e flow, w' = set_tokens ((thread_flow t, e) :: tokens w) w /\
    flow_heap w !! thread_flow t = Some flow /\ Flow.closed flow = false.

Lemma admits_open f w e : admits f w = Some e -> exists flow, flow_heap w !! f = Some flow /\ Flow.closed flow = false.
Proof.
  unfold admits. intros (flow & Hf & E)%bind_Some. exists flow. split; [done|]. by destruct (Flow.closed flow).
Qed.

Lemma thread_step_tail now t w w' rest :
  thread_step now t w = Some (w', rest) ->
  still w w' /\ goes_on t rest \/
  rest = None /\ counting t = true /\ (takes_token t w w' \/ w' = update_flow (thread_flow t) Flow.leave w).
Proof.
  destruct t; cbn -[admits load_state classify_check]; intros E.
  - destruct (admits f w) as [e|] eqn:Ha; injection E as <- <-; right; (split_and!; [done..|]); [left|by right].
    destruct (admits_open f w e Ha) as (flow & Hf & Hc). by exists e, flow.
  - apply bind_Some in E as (flow & Hf & E). injection E as <- <-. left. split; [done|].
    destruct (load_state f epoch w); [destruct (negb _); [|destruct (is_udp _)]|]; done.
  - injection E as <- <-. left. split; [done|]. by destruct (load_state f epoch w).
  - apply bind_Some in E as (w1 & E1 & [= <- <-]). left. split; [|done]. eapply still_view; [exact E1|].
    intros [[c fl] st]. by constructor.
  - destruct packets as [|[[target up] down] packets]; [injection E as <- <-; by left|].
    apply bind_Some in E as (w1 & E1 & [= <- <-]). left. split; [|done]. eapply still_view; [exact E1|].
    intros v. apply record_packet_keeps.
  - injection E as <- <-. by right; split_and!; [..|right].
  - apply bind_Some in E as (flow & Hf & E). destruct (classify_check _ _ _ _ _ _) as [c app]. injection E as <- <-. left.
    split; [apply still_col|]. destruct app as [a|]; [|done]. cbn -[load_state]. by destruct (load_state _ _ _).
  - apply bind_Some in E as (w1 & E1 & [= <- <-]). left. split; [|done]. eapply still_view; [exact E1|].
    intros v. apply classify_locked_keeps.
  - injection E as <- <-. left. split; [done|]. by destruct (load_state f epoch w).
  - apply bind_Some in E as (w1 & E1 & [= <- <-]). left. split; [|done]. eapply still_view; [exact E1|].
    intros v. apply discard_locked_keeps.
  - left. destruct (eligible require_active f w); [|by injection E as <- <-].
    destruct (if pending then _ else _) as [c ok]. destruct ok; injection E as <- <-; (split; [apply still_col|done]).
  - left. destruct (eligible require_active f w); injection E as <- <-; (split; [|done]); [|apply still_col].
    destruct pending; by apply still_update.
Qed.

Lemma map_total_replace `{Countable K} {A} (g : A -> Z) (m : gmap K A) i x rest :
  m !! i = Some x -> map_total g (partial_alter (fun _ => rest) i m) = map_total g m - g x + from_option g 0 rest.
Proof.
  intros Hx. destruct rest as [y|].
  - change (partial_alter (fun _ => Some y) i m) with (<[i := y]> m). rewrite map_total_insert, Hx. cbn. lia.
  - change (partial_alter (fun _ => None) i m) with (delete i m). rewrite map_total_delete, Hx. cbn. lia.
Qed.

Lemma call_of_goes_on f t rest : goes_on t rest -> from_option (call_of f) 0 rest = call_of f t.
Proof. unfold call_of. destruct rest as [t'|]; cbn; [intros (-> & -> & _)|intros ->]; done. Qed.

Lemma mod_shift64 x k : wrapping_add64 (x mod 2 ^ 64) k = (x + k) mod 2 ^ 64 /\ wrapping_sub64 (x mod 2 ^ 64) k = (x - k) mod 2 ^ 64.
Proof. unfold wrapping_add64, wrapping_sub64. split; [by rewrite Zplus_mod_idemp_l|by rewrite Zminus_mod_idemp_l]. Qed.

(** Counting the operation out, as its call or its token goes. *)
Lemma leave_ok f w w' :
  tail_ok w -> flow_heap w' = alter Flow.leave f (flow_heap w) -> next_id w' = next_id w ->
  (forall g, in_flight g w' = in_flight g w - one (f =? g)%N) ->
  (forall k, k ∈ tokens w' -> k ∈ tokens w) -> (forall i t, threads w' !! i = Some t -> threads w !! i = Some t) -> tail_ok w'.
Proof.
  intros [C T H] Eh En Ein Et Eth. constructor; rewrite ?En.
  - intros g flow'. rewrite Eh, Ein, lookup_alter_Some. intros [[<- (flow & Hf & ->)]|[Hne Hf]].
    + rewrite N.eqb_refl. cbn. rewrite (C f flow Hf). apply mod_shift64.
    + destruct (N.eqb_spec f g); [done|]. cbn. rewrite Z.sub_0_r. by apply C.
  - intros k Hk. by apply T, Et.
  - intros i t Ht. by apply (H i), Eth.
Qed.

(** Counting one in. *)
Lemma enter_ok f t w :
  tail_ok w -> (f < next_id w)%N -> ids_ok w -> thread_flow t = f -> counting t = true ->
  tail_ok (spawn t (update_flow f Flow.enter w)).
Proof.
  intros [C T H] Hf Hi Et Ec. constructor; [|cbn..].
  - intros g flow'. assert (in_flight g (spawn t (update_flow f Flow.enter w)) = in_flight g w + one (f =? g)%N) as ->.
    { unfold in_flight. cbn -[total]. rewrite map_total_insert, (id_thread _ Hi) by lia. unfold call_of at 1. rewrite Et, Ec. cbn. lia. }
    cbn. rewrite lookup_alter_Some. intros [[<- (flow & Hf' & ->)]|[Hne Hf']].
    + rewrite N.eqb_refl. cbn. rewrite (C f flow Hf'). apply mod_shift64.
    + destruct (N.eqb_spec f g); [done|]. cbn. rewrite Z.add_0_r. by apply C.
  - intros k Hk. specialize (T k Hk). lia.
  - intros i t'. rewrite lookup_insert_Some. intros [[_ <-]|[_ Ht]]; [lia|]. specialize (H i t' Ht). lia.
Qed.

Lemma thread_label_tail now i t w w' rest f :
  tail_ok w -> threads w !! i = Some t -> thread_step now t w = Some (w', rest) ->
  let w2 := set_threads (partial_alter (fun _ => rest) i (threads w')) w' in
  tail_ok w2 /\ (shut f w -> shut f w2).
Proof.
  intros Hok Ht E. pose proof (thread_step_tail now t w w' rest E) as [[Hs Hg]|(-> & Hc & Hend)]; cbn.
  - pose proof (still_ok w w' Hs Hok) as Hok'. pose proof Hs as [N Tk Th F]. split.
    + destruct Hok' as [C T H]. constructor; cbn.
      * intros g flow Hf. rewrite (C g flow Hf). f_equal. unfold in_flight. cbn -[total]. rewrite Th, (map_total_replace _ _ _ t) by done.
        rewrite (call_of_goes_on g t rest Hg). lia.
      * done.
      * intros j t'. rewrite lookup_partial_alter. case_decide as Hj; [|apply H]. intros ->. destruct Hg as (-> & _). apply (H i). by rewrite Th.
    + intros Hsh. pose proof (still_shut f w w' Hs Hsh) as Hsh'. pose proof (sh_threads _ _ Hsh i t Ht) as Hti. destruct Hsh' as [I C T H].
      constructor; cbn; try done. intros j t'. rewrite lookup_partial_alter. case_decide as Hj; [|apply H]. intros ->.
      destruct Hg as (-> & _ & Hr). intros Hrec. by apply Hti, Hr.
  - destruct Hend as [(e & flow & -> & Hf & Hcl)| ->]; cbn.
    + pose proof Hok as [C T H]. split.
      * constructor; cbn.
        -- intros g fl Hfl. rewrite (C g fl Hfl). f_equal. unfold in_flight. cbn -[total]. rewrite total_cons, (map_total_replace _ _ _ t) by done.
           unfold token_of at 2, call_of at 3. rewrite Hc. cbn. lia.
        -- intros k [->|Hk]%elem_of_cons; [by apply (H i)|by apply T].
        -- intros j t'. change (partial_alter (fun _ => None) i (threads w)) with (delete i (threads w)).
           intros [_ Hj]%lookup_delete_Some. by apply (H j).
      * intros [I Cl Tk Th]. constructor; cbn; try done.
        -- intros k [->|Hk]%elem_of_cons; [|by apply Tk]. cbn. intros Heq. rewrite Heq in Hf. specialize (Cl flow Hf). congruence.
        -- intros j t'. change (partial_alter (fun _ => None) i (threads w)) with (delete i (threads w)).
           intros [_ Hj]%lookup_delete_Some. by apply (Th j).
    + split.
      * apply (leave_ok (thread_flow t) w); try done.
        -- intros g. unfold in_flight. cbn -[total]. rewrite (map_total_replace _ _ _ t) by done.
           unfold call_of at 2. rewrite Hc. cbn. lia.
        -- intros j t'. cbn. change (partial_alter (fun _ => None) i (threads w)) with (delete i (threads w)). by intros [_ Hj]%lookup_delete_Some.
      * intros [I Cl Tk Th]. constructor; cbn; try done.
        -- intros fl. rewrite lookup_alter_Some. intros [[<- (fl0 & Hf0 & ->)]|[_ Hf]]; [by apply (Cl fl0)|by apply Cl].
        -- intros j t'. change (partial_alter (fun _ => None) i (threads w)) with (delete i (threads w)).
           intros [_ Hj]%lookup_delete_Some. by apply (Th j).
Qed.
End calls.

(** ** Every step *)

Section system.
Context {Env : AnalysisEnv}.

Definition preserves (w w' : World) : Prop := tail_ok w' /\ forall f, shut f w -> shut f w'.

Lemma still_preserves w w' : tail_ok w -> still w w' -> preserves w w'.
Proof. intros H Hs. split; [by eapply still_ok|]. intros f. by apply still_shut. Qed.

Lemma preserves_trans w1 w2 w3 : preserves w1 w2 -> preserves w2 w3 -> preserves w1 w3.
Proof. intros [_ S1] [T2 S2]. split; [done|auto]. Qed.

Lemma take_token_spec f e l rest :
  take_token f e l = Some rest ->
  (f, e) ∈ l /\ (forall k, k ∈ rest -> k ∈ l) /\ forall g, total (token_of g) rest = total (token_of g) l - one (f =? g)%N.
Proof.
  revert rest. induction l as [|k l IH]; intros rest; cbn [take_token]; [done|]. case_bool_decide as Hk.
  - intros [= <-]. subst k. split_and!; [by left|by right|]. intros g. rewrite total_cons. unfold token_of at 2. cbn. lia.
  - intros (rest' & E & ->)%fmap_Some. destruct (IH rest' E) as (Hin & Hsub & Ht). split_and!.
    + by right.
    + intros k' [->|Hk']%elem_of_cons; [by left|right; by apply Hsub].
    + intros g. rewrite !total_cons, Ht. lia.
Qed.

(** A new call that is not counted. *)
Lemma spawn_preserves t w :
  tail_ok w -> ids_ok w -> counting t = false -> (thread_flow t < next_id w)%N -> preserves w (spawn t w).
Proof.
  intros [C T H] Hi Hc Hf. assert (recording t = false) as Hr by by destruct t. split.
  - constructor; [|cbn..].
    + intros g flow Hg. assert (in_flight g (spawn t w) = in_flight g w) as ->; [|by apply C].
      unfold in_flight. cbn -[total]. rewrite map_total_insert, (id_thread _ Hi) by lia. unfold call_of at 1. rewrite Hc. cbn. lia.
    + intros k Hk. specialize (T k Hk). lia.
    + intros i t'. rewrite lookup_insert_Some. intros [[_ <-]|[_ Ht]]; [lia|]. specialize (H i t' Ht). lia.
  - intros f [I Cl Tk Th]. constructor; cbn; [lia|done|done|]. intros i t'. rewrite lookup_insert_Some.
    intros [[_ <-]|[_ Ht]]; [congruence|by apply (Th i)].
Qed.

(** A token becomes the call it was taken for. *)
Lemma complete_preserves t e rest l w :
  tail_ok w -> ids_ok w -> recording t = true -> take_token (thread_flow t) e (tokens w) = Some rest ->
  preserves w (spawn t (set_finished l (set_tokens rest w))).
Proof.
  intros [C T H] Hi Hr Ht. destruct (take_token_spec _ _ _ _ Ht) as (Hin & Hsub & Htot).
  assert (counting t = true) as Hc by by destruct t. pose proof (T _ Hin) as Hlt. cbn in Hlt. split.
  - constructor; [|cbn..].
    + intros g flow Hg. assert (in_flight g (spawn t (set_finished l (set_tokens rest w))) = in_flight g w) as ->; [|by apply C].
      unfold in_flight. cbn -[total]. rewrite map_total_insert, (id_thread _ Hi), Htot by lia. unfold call_of at 1. rewrite Hc. cbn. lia.
    + intros k Hk. specialize (T k (Hsub k Hk)). lia.
    + intros i t'. rewrite lookup_insert_Some. intros [[_ <-]|[_ Hj]]; [lia|]. specialize (H i t' Hj). lia.
  - intros f [I Cl Tk Th]. constructor; cbn; [lia|done|by intros k Hk; apply Tk, Hsub|]. intros i t'. rewrite lookup_insert_Some.
    intros [[_ <-]|[_ Hj]]; [intros _; exact (Tk _ Hin)|by apply (Th i)].
Qed.

Lemma cancel_preserves f e rest w :
  tail_ok w -> take_token f e (tokens w) = Some rest -> preserves w (update_flow f Flow.leave (set_tokens rest w)).
Proof.
  intros Hok Ht. destruct (take_token_spec _ _ _ _ Ht) as (Hin & Hsub & Htot). split.
  - apply (leave_ok f w); try done. intros g. unfold in_flight. cbn -[total]. rewrite Htot. lia.
  - intros g [I Cl Tk Th]. constructor; cbn; try done.
    + intros fl. rewrite lookup_alter_Some. intros [[<- (fl0 & Hf0 & ->)]|[_ Hf]]; [by apply (Cl fl0)|by apply Cl].
    + intros k Hk. by apply Tk, Hsub.
Qed.

Lemma begin_preserves f w : tail_ok w -> ids_ok w -> (f < next_id w)%N -> preserves w (spawn (TBegin f) (update_flow f Flow.enter w)).
Proof.
  intros Hok Hi Hf. split; [by apply enter_ok|]. intros g [I Cl Tk Th]. constructor; cbn; [lia| |done|].
  - intros fl. rewrite lookup_alter_Some. intros [[<- (fl0 & Hf0 & ->)]|[_ Hfl]]; [by apply (Cl fl0)|by apply Cl].
  - intros i t'. rewrite lookup_insert_Some. intros [[_ <-]|[_ Ht]]; [done|by apply (Th i)].
Qed.

Lemma owned_id f w flow : ids_ok w -> flow_heap w !! f = Some flow -> (f < next_id w)%N.
Proof. intros [F _ _ _] Hf. apply N.lt_nge. intros Hle. by rewrite F in Hf. Qed.

Lemma step_tail l w w' : ids_ok w -> tail_ok w -> step l w = Some w' -> preserves w w'.
Proof.
  intros Hi H E. destruct l; cbn -[with_popped spawn u64 forallb] in E;
    repeat (match type of E with
            | owned _ _ ≫= _ = Some _ => apply bind_Some in E as (flow & Ho & E); apply owned_Some in Ho
            | flow_heap _ !! _ ≫= _ = Some _ => apply bind_Some in E as (flow & Hf & E)
            | guard _ ≫= _ = Some _ => apply bind_Some in E as (? & _ & E)
            | take_token _ _ _ ≫= _ = Some _ => apply bind_Some in E as (rest & Ht & E)
            | idle _ ≫= _ = Some _ => apply bind_Some in E as (? & _ & E)
            end).
  - injection E as <-. apply still_preserves, register_still; done.
  - injection E as <-. by apply still_preserves, still_update.
  - injection E as <-. by apply still_preserves, still_update.
  - injection E as <-. by apply still_preserves, free_flow_still.
  - injection E as <-. by apply still_preserves, still_update.
  - injection E as <-. apply begin_preserves; [done..|]. by eapply owned_id.
  - injection E as <-. by eapply complete_preserves.
  - injection E as <-. by eapply complete_preserves.
  - injection E as <-. by eapply cancel_preserves.
  - injection E as <-. apply spawn_preserves; [done..|]. by eapply owned_id.
  - injection E as <-. apply spawn_preserves; [done..|]. by eapply owned_id.
  - injection E as <-. apply spawn_preserves; [done..|]. by eapply owned_id.
  - injection E as <-. apply still_preserves; [done|]. etransitivity; [by apply (still_update f (Flow.hold (- bytes) 0))|apply still_col].
  - injection E as <-. apply still_preserves; [done|]. etransitivity; [by apply (still_update f (Flow.hold (- bytes) bytes))|apply still_col].
  - injection E as <-. apply still_preserves; [done|]. etransitivity; [by apply (still_update f (Flow.hold 0 (- bytes)))|apply still_col].
  - apply bind_Some in E as (t & Ht & E). apply bind_Some in E as ([w1 rest] & Es & [= <-]).
    split; [by apply (thread_label_tail now i t w w1 rest 0)|]. intros f. by apply (thread_label_tail now i t w w1 rest f).
  - injection E as <-. apply still_preserves, still_col; done.
  - injection E as <-. apply still_preserves, pause_still; done.
  - injection E as <-. apply still_preserves, configure_start_still; done.
  - destruct (work w) as [|e todo|]; try done. apply bind_Some in E as (? & _ & E). apply still_preserves; [done|].
    etransitivity; [apply (still_work (WConfigure e (todo ∖ {[key]})))|by eapply configure_flow_still].
  - destruct (work w) as [|e todo|]; try done. apply bind_Some in E as (? & _ & [= <-]). by apply still_preserves, still_heaps.
  - injection E as <-. apply still_preserves, sample_start_still; done.
  - destruct (work w) as [| |e now_unix bucket todo [|]]; try done. apply bind_Some in E as (? & _ & E).
    apply still_preserves; [done|]. by eapply sample_flow_still.
  - destruct (work w) as [| |e now_unix bucket todo [[[key s] fin]|]]; try done. apply still_preserves; [done|]. by eapply sample_drain_still.
  - destruct (work w) as [| |e now_unix bucket todo [|]]; try done. apply bind_Some in E as (? & _ & [= <-]). by apply still_preserves, still_heaps.
  - destruct (next now epoch (col w)) as [c [b|]]; injection E as <-; apply still_preserves; try done; [|apply still_col].
    constructor; cbn; [lia|done|done|]. intros f fl Hf. left. eauto.
  - apply bind_Some in E as (b & _ & [= <-]). by apply still_preserves, still_heaps.
  - apply bind_Some in E as (b & _ & [= <-]). by apply still_preserves, still_heaps.
  - apply bind_Some in E as (b & _ & [= <-]). by apply still_preserves, still_heaps.
Qed.

Lemma run_tail ls w w' : world_ok w -> tail_ok w -> run ls w = Some w' -> preserves w w'.
Proof.
  revert w. induction ls as [|l ls IH]; intros w Hok H E; cbn in E; [injection E as <-; by split|].
  apply bind_Some in E as (w1 & E1 & E). pose proof (step_tail l w w1 (wo_ids _ Hok) H E1) as P1.
  eapply preserves_trans; [exact P1|]. apply IH; [by eapply world_step_ok|apply P1|exact E].
Qed.

Lemma reachable_tail w : reachable w -> tail_ok w.
Proof.
  intros (instance & ls & E). apply (run_tail ls (world_new instance)); [apply world_new_ok| |exact E].
  constructor; cbn; [done|set_solver|done].
Qed.
End system.
