(* ===== verification/AnalysisSpec.v ===== *)
(** * Traffic analysis: what it guarantees

    Of every reachable state of the system of [Analysis.v]: the budget's counters
    are exactly the charges of what is alive, within the caps; what is buffered
    belongs to the active session and is within the limits; nothing is reported to
    the panel that no completed operation accounts for.  Sealing a minute puts
    every row in at most one batch and counts the others as dropped. *)

From Stdlib Require Import ZArith Lia.
From S2P Require Import Prelude Bytes Wire AnalysisConfig AnalysisData Collector Analysis AnalysisBudget.
From S2P Require Import AnalysisQueue AnalysisWorld AnalysisSteps AnalysisLedger AnalysisLedgerSteps AnalysisLedgerWorld.
From S2P Require Import AnalysisTail.

Open Scope Z_scope.

Section spec.
Context {Env : AnalysisEnv}.

(** C22. The collector's memory budget is exact: whatever the forwarding tasks, the
    session owner, the sampler and the stream do and however their steps interleave,
    the four counters equal the charges of what is alive (flows, their reserved
    storage, targets, pending targets, rows, queued and unfinished batches), so
    nothing leaks and nothing is given back twice, and they stay within 64 MiB,
    16 MiB, 40,000 and 1,024. *)
Theorem budget_exact w :
  reachable w ->
  let b := budget (col w) in
  b = Budget.mk (mem (world_load w)) (tgt (world_load w)) (ptg (world_load w)) (pmem (world_load w)) /\
  0 <= Budget.memory b <= MEMORY_CAP /\ 0 <= Budget.pending_memory b <= PENDING_CAP /\
  0 <= Budget.targets b <= 40000 /\ 0 <= Budget.pending_targets b <= MAX_PENDING_TARGETS.
Proof.
  intros Hr. pose proof (world_reachable_ok w Hr) as H. pose proof (wo_covers _ H) as Hc.
  assert (load_nonneg (world_load w)) as Hn
    by (apply ladd_nonneg; [by apply heap_nonneg|apply ladd_nonneg; [by apply rest_nonneg|by apply col_nonneg]]).
  pose proof (budget_small _ _ _ Hc Hn) as Hb. destruct Hc as [M T P Q]. cbn in M, T, P, Q |- *.
  destruct (budget (col w)) as [m t p q] eqn:Eb. cbn in *. split; [f_equal; lia|lia].
Qed.

(** C24. What waits to be sent is within the limits and belongs to the session: every
    queued batch has between one and [batch_max_entries] rows and at most
    [batch_max_bytes] bytes, carries the current epoch, opens before it expires and is
    not completed; the queue's byte count is the cost of its batches and at most
    [queue_max_bytes]; and anything buffered means that the session is open, configured
    and active. *)
Theorem queue_within_limits w :
  reachable w ->
  let c := col w in
  Forall (batch_ok c) (Inner.queue (inner c)) /\
  Inner.queue_bytes (inner c) = queue_cost (Inner.queue (inner c)) /\
  Inner.queue_bytes (inner c) <= Pb.TrafficAnalysisConfig.queue_max_bytes (limits c) /\
  (Inner.queue (inner c) <> [] \/ is_Some (Inner.bucket (inner c)) ->
   active c <> 0 /\ active c = Inner.epoch (inner c) /\ Inner.session_open (inner c) = true /\ Inner.configured (inner c) = true).
Proof.
  intros Hr. pose proof (world_reachable_ok w Hr) as H. pose proof (wo_queue _ H) as [E C B]. pose proof (wo_session _ H) as [Sa Si Se].
  split_and!; try done; intros Hn;
    (assert (active (col w) <> 0) as Ha by (intros [Hb Hq]%Si; rewrite Hb, Hq in Hn; by destruct Hn as [|[? ?]])); naive_solver.
Qed.

(** C21. Nothing is made up: for every epoch and user, in either direction, by user rows or
    by domain rows, the bytes in all batches ever queued, in the minute being filled, in
    the flows' states and in calls in progress are together at most the bytes of the
    operations that were completed under a token of that epoch for a flow of that user.
    So no byte is reported twice, under another session's epoch or for another user. *)
Theorem never_overreports w by_domain downlink epoch user :
  reachable w ->
  ledger by_domain downlink epoch user w <= finished_bytes downlink epoch user w /\
  queued_bytes by_domain downlink epoch user w <= finished_bytes downlink epoch user w.
Proof.
  intros Hr. pose proof (reachable_ledger by_domain downlink epoch user w Hr) as H.
  pose proof (parts_nonneg by_domain downlink epoch user w H) as (Ho & Hs & Ht).
  pose proof (lk_ledger _ _ _ _ _ _ H) as L. unfold ledger in *. lia.
Qed.


(** The sampler never sleeps over a minute: whatever the normalised interval, it sleeps
    for at least a millisecond and at most ten seconds, and not past the next full
    minute, so every minute is sampled at its end. *)
Theorem sampling_meets_minutes w now_millis :
  reachable w -> 0 <= now_millis ->
  let delay := sampling_delay now_millis (col w) in
  1 <= delay <= 10000 /\ now_millis + delay <= (now_millis / 60000 + 1) * 60000.
Proof.
  intros Hr Hn. pose proof (wo_covers _ (world_reachable_ok w Hr)) as [_ _ _ _ _ _ _ _ _ B]. destruct B.
  unfold sampling_delay. cbn. pose proof (Z.mod_pos_bound now_millis 60000 ltac:(lia)).
  pose proof (Z.div_mod now_millis 60000 ltac:(lia)). lia.
Qed.

(** ** Sealing *)

Local Abbreviation dropped c := (Stats.dropped_entries (stats c)).

Definition rows_of {A} (rows : Batch.t -> list A) (bs : list Batch.t) : list A := concat (rows <$> bs).

(** Between [c0] and [c] the rows [us] and [ds] were placed: in the batches [bs], in the
    message [m] under construction, or they are counted as dropped. *)
Record placing (c0 c : Collector) (m : Batch.t) (bs : list Batch.t) (us : list UserMinute.t) (ds : list DomainMinute.t) : Prop := {
  pl_log : log c = log c0 ++ bs;
  pl_users : sublist (rows_of Batch.user_minutes bs ++ Batch.user_minutes m) us;
  pl_domains : sublist (rows_of Batch.domain_minutes bs ++ Batch.domain_minutes m) ds;
  pl_dropped : (dropped c + entries m) mod 2 ^ 64 =
    (dropped c0 + (Z.of_nat (length us) + Z.of_nat (length ds) - total entries bs)) mod 2 ^ 64
}.

Lemma mod_shift a b k M : a mod M = b mod M -> (a + k) mod M = (b + k) mod M.
Proof. intros E. by rewrite <- (Zplus_mod_idemp_l a), E, Zplus_mod_idemp_l. Qed.

Lemma rows_of_snoc {A} (rows : Batch.t -> list A) bs m : rows_of rows (bs ++ [m]) = rows_of rows bs ++ rows m.
Proof. unfold rows_of. rewrite fmap_app, concat_app. cbn. by rewrite app_nil_r. Qed.

(** The message is queued, or its rows are counted. *)
Lemma enqueue_cases now m c :
  log (enqueue now m c) = log c ++ [m] /\ dropped (enqueue now m c) = dropped c \/
  log (enqueue now m c) = log c /\ dropped (enqueue now m c) mod 2 ^ 64 = (dropped c + entries m) mod 2 ^ 64.
Proof.
  assert (forall r, dropped (set_stats (fun s => Stats.reason r (Stats.add_dropped 1 (entries m) s)) c) mod 2 ^ 64 =
    (dropped c + entries m) mod 2 ^ 64) as Hr.
  { intros r. cbn [stats set_stats]. unfold Stats.reason. destruct (position _ _); cbn [Stats.dropped_entries Stats.add_dropped];
      unfold wrapping_add64; by rewrite Z.mod_mod. }
  unfold enqueue. destruct (Z.eqb_spec (entries m) 0) as [He|]; [right; rewrite He, Z.add_0_r; done|].
  destruct (_ <? encoded_len m); [right; split; [done|apply Hr]|].
  destruct (_ <? sat _ _); [right; split; [done|apply Hr]|].
  destruct (reserve (batch_cost m) c) as [c' ok] eqn:E. destruct ok.
  - apply reserve_true in E as [-> _]. by left.
  - apply reserve_false in E as ->. right. split; [done|apply Hr].
Qed.

Lemma enqueue_placing now c0 c m bs us ds m' :
  placing c0 c m bs us ds -> Batch.user_minutes m' = [] -> Batch.domain_minutes m' = [] ->
  exists bs', placing c0 (enqueue now m c) m' bs' us ds.
Proof.
  intros [L U D Q] Eu Ed. assert (entries m' = 0) as Ez by (unfold entries; by rewrite Eu, Ed).
  destruct (enqueue_cases now m c) as [[El Eq]|[El Eq]].
  - exists (bs ++ [m]). constructor; rewrite ?Eu, ?Ed, ?app_nil_r, ?rows_of_snoc; [by rewrite El, L, app_assoc|done..|].
    rewrite Eq, Ez, Z.add_0_r, total_app. cbn [total foldr]. apply (mod_shift _ _ (- entries m)) in Q.
    replace (dropped c + entries m + - entries m) with (dropped c) in Q by lia. rewrite Q. f_equal. lia.
  - exists bs. constructor; rewrite ?Eu, ?Ed, ?app_nil_r; [by rewrite El| | |].
    + etransitivity; [|exact U]. by apply sublist_inserts_r.
    + etransitivity; [|exact D]. by apply sublist_inserts_r.
    + by rewrite Ez, Z.add_0_r, Eq.
Qed.

Lemma place_placing now row_len push c0 c m size bs us ds us' ds' :
  placing c0 c m bs us ds ->
  (forall x, Batch.user_minutes (push x) = Batch.user_minutes x ++ us' /\
    Batch.domain_minutes (push x) = Batch.domain_minutes x ++ ds') ->
  let '(c', m', _) := place now row_len push (c, m, size) in exists bs', placing c0 c' m' bs' (us ++ us') (ds ++ ds').
Proof.
  intros H Hp. assert (forall c1 m1 bs1, placing c0 c1 m1 bs1 us ds -> placing c0 c1 (push m1) bs1 (us ++ us') (ds ++ ds')) as Hpush.
  { intros c1 m1 bs1 [L U D Q]. destruct (Hp m1) as [Eu Ed]. constructor; [done| | |].
    - rewrite Eu, app_assoc. by apply sublist_app.
    - rewrite Ed, app_assoc. by apply sublist_app.
    - assert (entries (push m1) = entries m1 + (Z.of_nat (length us') + Z.of_nat (length ds'))) as ->
        by (unfold entries; rewrite Eu, Ed, !length_app; lia).
      apply (mod_shift _ _ (Z.of_nat (length us') + Z.of_nat (length ds'))) in Q. rewrite Z.add_assoc, Q, !length_app. f_equal. lia. }
  unfold place. destruct (_ || _); [|by eexists; apply Hpush].
  cbn. destruct (enqueue_placing now c0 c m bs us ds
    (Batch.mk (instance (enqueue now m c)) (Inner.epoch (inner (enqueue now m c)))
      (wrapping_add64 (Inner.sequence (inner (enqueue now m c))) 1) now [] []) H eq_refl eq_refl) as [bs' [L U D Q]].
  exists bs'. apply Hpush. by constructor.
Qed.

(** What is not placed at all: domain rows without traffic. *)
Definition busy (ds : list DomainMinute.t) : list DomainMinute.t := filter (fun r => idle_row r = false) ds.

Lemma busy_cons r ds : busy (r :: ds) = if idle_row r then busy ds else r :: busy ds.
Proof. unfold busy. rewrite filter_cons. by destruct (idle_row r). Qed.

Lemma place_users_placing now us c0 c m size bs us0 ds :
  placing c0 c m bs us0 ds ->
  let '(c', m', _) := foldl (place_user now) (c, m, size) us in exists bs', placing c0 c' m' bs' (us0 ++ us) ds.
Proof.
  revert c m size bs us0. induction us as [|r us IH]; intros c m size bs us0 H; cbn [foldl].
  - exists bs. by rewrite app_nil_r.
  - pose proof (place_placing now (user_row_len r) (Batch.push_user r) c0 c m size bs us0 ds [r] [] H ltac:(intros; by rewrite app_nil_r)) as K.
    unfold place_user at 2. destruct (place now (user_row_len r) (Batch.push_user r) (c, m, size)) as [[c1 m1] size1].
    destruct K as [bs1 K]. rewrite app_nil_r in K. specialize (IH c1 m1 size1 bs1 (us0 ++ [r]) K). by rewrite <- app_assoc in IH.
Qed.

Lemma place_domains_placing now ds c0 c m size bs us ds0 :
  placing c0 c m bs us ds0 ->
  let '(c', m', _) := foldl (place_domain now) (c, m, size) ds in exists bs', placing c0 c' m' bs' us (ds0 ++ busy ds).
Proof.
  revert c m size bs ds0. induction ds as [|r ds IH]; intros c m size bs ds0 H; cbn [foldl].
  - exists bs. by rewrite app_nil_r.
  - rewrite busy_cons. unfold place_domain at 2. destruct (idle_row r); [by apply (IH _ _ _ bs)|].
    pose proof (place_placing now (domain_row_len r) (Batch.push_domain r) c0 c m size bs us ds0 [] [r] H ltac:(intros; by rewrite app_nil_r)) as K.
    destruct (place now (domain_row_len r) (Batch.push_domain r) (c, m, size)) as [[c1 m1] size1].
    destruct K as [bs1 K]. rewrite app_nil_r in K. specialize (IH c1 m1 size1 bs1 (ds0 ++ [r]) K). by rewrite <- app_assoc in IH.
Qed.

(** Sealing a minute loses no row silently and sends none twice: the user rows and the
    domain rows with traffic are placed in order, each in at most one of the batches
    that are queued, and the counter of dropped entries grows by exactly the number
    of rows that are in none of them. *)
Theorem seal_accounts now b c :
  exists bs,
    log (seal now b c) = log c ++ bs /\
    sublist (rows_of Batch.user_minutes bs) (hash_users (MinuteBucket.users b)).*2 /\
    sublist (rows_of Batch.domain_minutes bs) (busy (hash_domains (MinuteBucket.domains b)).*2) /\
    wrapping_add64 (dropped (seal now b c)) 0 =
      wrapping_add64 (dropped c)
        (Z.of_nat (length (hash_users (MinuteBucket.users b))) + Z.of_nat (length (busy (hash_domains (MinuteBucket.domains b)).*2))
         - total entries bs).
Proof.
  unfold seal. set (us := (hash_users _).*2). set (ds := (hash_domains _).*2).
  set (m0 := (new_message now c).2). assert (placing c (new_message now c).1 m0 [] [] []) as H0 by (constructor; cbn; [by rewrite app_nil_r|constructor..|done]).
  replace (new_message now c) with ((new_message now c).1, m0) by by destruct (new_message now c).
  pose proof (place_users_placing now us _ _ _ (encoded_len m0) _ _ _ H0) as H1.
  destruct (foldl (place_user now) ((new_message now c).1, m0, encoded_len m0) us) as [[c1 m1] size1]. destruct H1 as [bs1 H1].
  pose proof (place_domains_placing now ds _ _ _ size1 _ _ _ H1) as H2.
  destruct (foldl (place_domain now) (c1, m1, size1) ds) as [[c2 m2] size2]. destruct H2 as [bs2 H2].
  destruct (enqueue_placing now _ _ _ _ _ _ m0 H2 eq_refl eq_refl) as [bs [L U D Q]]. exists bs.
  cbn in U, D. rewrite app_nil_r in U, D. split_and!; [exact L|exact U|exact D|].
  assert (length us = length (hash_users (MinuteBucket.users b))) as El by apply length_fmap. cbn [app] in Q.
  unfold wrapping_add64. rewrite <- El. exact Q.
Qed.
End spec.

(** ** Traffic analysis: a small run

    One session with a TCP flow and a UDP flow, sampled over two minutes; the
    theorems are applied to the world it reaches. *)

Open Scope Z_scope.

Module AnalysisExample.

Definition message_len (m : Batch.t) : Z := 40 + 100 * Z.of_nat (length (Batch.user_minutes m) + length (Batch.domain_minutes m)).

Lemma message_len_nonneg m : 0 <= message_len m.
Proof. unfold message_len. lia. Qed.

#[export] Instance env : AnalysisEnv := {
  hash_users := map_to_list;
  hash_users_perm m := reflexivity _;
  hash_domains := map_to_list;
  hash_domains_perm m := reflexivity _;
  hash_targets := map_to_list;
  hash_targets_perm m := reflexivity _;
  user_row_len _ := 90;
  domain_row_len _ := 90;
  encoded_len := message_len;
  encoded_len_nonneg := message_len_nonneg;
  instant_now _ := 0;
  unix_now n := 130;
  random _ := 0
}.

Definition target : Target.t := Target.mk "203.0.113.7" 443.

Definition tcp : Metadata.t :=
  Metadata.mk "node-1" "alice" "vless" "tcp" "example.org" "TLS" false (Some (Target.mk "example.org" 443)) None.
Definition udp : Metadata.t := Metadata.mk "node-1" "alice" "hysteria2" "udp" "" "" false None None.

Definition tcp_user : UserKey.t := UserKey.from tcp.
Definition udp_user : UserKey.t := UserKey.from udp.

(** The two flows are 0 and 2, their states 1 and 3. *)
Definition connect : list label :=
  [LBeginSession; LConfigure 1 (Some (default_config true)); LConfigureEnd; LRegister 1 tcp; LRegister 1 udp].

(** Bytes on the TCP flow, and a datagram before its target is classified. *)
Definition traffic : list label :=
  [LBegin 0; LThread 4 0; LFinish 0 1 100 2000 None None; LThread 5 0; LThread 5 0; LThread 5 0;
   LBegin 2; LThread 6 0; LFinish 2 1 30 40 (Some target) None; LThread 7 0; LThread 7 0; LThread 7 0; LThread 7 0;
   LClassify 2 1 target (Some "cdn.example.org") "quic" false; LThread 8 1000; LThread 8 1000].

Definition sampling (now : Z) : list label :=
  [LSample now; LSampleFlow 1; LSampleDrain 1000; LSampleFlow 2; LSampleDrain 1000; LSampleEnd].

Definition script : list label :=
  connect ++ traffic ++ sampling 65 ++ [LBegin 0; LThread 9 0] ++ sampling 125
  ++ [LFinish 0 1 7 8 None None; LThread 10 0; LThread 10 0].

Definition after (ls : list label) (w : World) : World := default w (run ls w).

Lemma run_after ls w : (if run ls w then true else false) = true -> run ls w = Some (after ls w).
Proof. unfold after. by destruct (run ls w). Qed.

Definition busy_world : World := after script (world_new "agent").

Lemma busy_world_reachable : reachable busy_world.
Proof. exists "agent", script. apply run_after. vm_compute. reflexivity. Qed.

(** One batch is queued, with a row per user and one per domain. *)
Example busy_world_reports :
  ((fun m => (Batch.sequence m, UserMinute.uplink_bytes <$> Batch.user_minutes m,
              (fun r => (DomainMinute.domain r, DomainMinute.app_protocol r, DomainMinute.uplink_bytes r)) <$> Batch.domain_minutes m))
     <$> log (col busy_world)) =
  [(1, [30; 100], [("cdn.example.org", "quic", 30); ("example.org", "tls", 100)])].
Proof. vm_compute. reflexivity. Qed.





Lemma budget_exact_witness :
  Budget.targets (budget (col busy_world)) = 1 /\
  Budget.memory (budget (col busy_world)) = mem (world_load busy_world) /\
  Budget.memory (budget (col busy_world)) <= MEMORY_CAP.
Proof.
  destruct (budget_exact busy_world) as (E & Hm & _).
  - exact busy_world_reachable.
  - split; [vm_compute; reflexivity|]. split; [exact (f_equal Budget.memory E)|exact (proj2 Hm)].
Defined.

Lemma queue_within_limits_witness :
  length (Inner.queue (inner (col busy_world))) = 1%nat /\
  Inner.queue_bytes (inner (col busy_world)) = queue_cost (Inner.queue (inner (col busy_world))) /\
  active (col busy_world) = Inner.epoch (inner (col busy_world)).
Proof.
  destruct (queue_within_limits busy_world) as (_ & E & _ & Hs).
  - exact busy_world_reachable.
  - split; [vm_compute; reflexivity|]. split; [exact E|]. apply Hs. left. vm_compute. discriminate.
Defined.

Lemma never_overreports_witness :
  queued_bytes false false 1 tcp_user busy_world = 100 /\
  ledger false false 1 tcp_user busy_world <= finished_bytes false 1 tcp_user busy_world /\
  finished_bytes false 1 tcp_user busy_world = 107.
Proof.
  destruct (never_overreports busy_world false false 1 tcp_user) as [L _].
  - exact busy_world_reachable.
  - split; [vm_compute; reflexivity|]. split; [exact L|vm_compute; reflexivity].
Defined.


Lemma sampling_meets_minutes_witness :
  sampling_delay 119000 (col busy_world) = 1000 /\ 119000 + sampling_delay 119000 (col busy_world) <= (119000 / 60000 + 1) * 60000.
Proof.
  split; [vm_compute; reflexivity|]. apply (sampling_meets_minutes busy_world 119000); [|lia].
  exact busy_world_reachable.
Defined.
End AnalysisExample.
