(* ===== verification/OutboundAdapter.v ===== *)
(** * Outbound adapter: [crates/node-agent/src/outbound_adapter.rs]

    The strict projection of a panel outbound to a client chain of shoes: a list of
    hops, the farthest detour first.  A field is projected, or the outbound is
    refused.

    [Adapter] is a section: the catalog and [follow_references] are its variables;
    [active_ids], which every method restores before it returns, is an argument; the
    selector cache is the state.  [{:?}] of a string is the argument [debug]. *)

From Stdlib Require Import ZArith Lia Ascii.
From S2P Require Import Prelude Bytes IpAddr Json.

Open Scope Z_scope.

Definition MAX_OUTBOUND_REFERENCE_DEPTH : nat := 128.

(** [&Value]: [std::ptr::eq] compares the addresses. *)
Module Ref.
Record t : Type := mk { addr : Z; value : Value.t }.
Definition ptr_eq (a b : t) : bool := addr a =? addr b.
End Ref.

Module OutboundRef.
Record t : Type := mk {
  id : Z;
  kind : string;
  tag : string;
  options : Ref.t;
  dns_resolver : option string
}.
End OutboundRef.

Class OutboundCatalog (C : Type) : Type := {
  resolve : C -> string -> option OutboundRef.t;
  catalog_dns_resolver : C -> string -> option string
}.

(** [SelectorProjectionCache] *)
Abbreviation SelectorProjectionCache := (gmap Z OutboundRef.t).

(** [ActiveOutboundIdentity] *)
Inductive ActiveOutboundIdentity : Type :=
  | Root
  | Catalog (id : Z).
#[export] Instance ActiveOutboundIdentity_eq_dec : EqDecision ActiveOutboundIdentity.
Proof. solve_decision. Defined.

(** [NetworkMode] *)
Inductive NetworkMode : Type := Both | TcpOnly | UdpOnly.
#[export] Instance NetworkMode_eq_dec : EqDecision NetworkMode.
Proof. solve_decision. Defined.

Module DialerProjection.
Record t : Type := mk {
  bind_interface : option string;
  inet4_bind_address : option string;
  inet6_bind_address : option string;
  routing_mark : option Z;
  connect_timeout : option string;
  bind_address_no_port : bool
}.

Definition when (b : bool) (name : string) : list string := if b then [name] else [].
Definition is_some {A} (o : option A) : bool := match o with Some _ => true | None => false end.

Definition effective_field_names (self : t) : list string :=
  when (is_some (bind_interface self)) "bind_interface"
  ++ when (is_some (inet4_bind_address self)) "inet4_bind_address"
  ++ when (is_some (inet6_bind_address self)) "inet6_bind_address"
  ++ when (is_some (routing_mark self)) "routing_mark"
  ++ when (is_some (connect_timeout self)) "connect_timeout"
  ++ when (bind_address_no_port self) "bind_address_no_port".

Definition has_effective_fields (self : t) : bool :=
  match effective_field_names self with [] => false | _ => true end.
End DialerProjection.

(** ** Reading fields *)

Section fields.
Context (debug : string -> string).
Implicit Types (tag name : string) (fields : Value.fields).

Local Abbreviation result := (result string).

Definition reject_unknown_fields tag (kind : string) fields (allowed : list string) : result unit :=
  match find_first (fun field => negb (bool_decide (field ∈ allowed))) (Map.keys fields) with
  | Some field =>
      Err (fmt ["outbound "; debug tag; " "; kind; " field "; debug field; " is not expressible by shoes"])
  | None => Ok tt
  end.

Definition required_nonempty_string tag fields name : result string :=
  match Map.get name fields with
  | Some (Value.String value) =>
      if negb (is_empty value) then Ok value
      else Err (fmt ["outbound "; debug tag; " field "; debug name; " must be a non-empty string"])
  | _ => Err (fmt ["outbound "; debug tag; " field "; debug name; " must be a non-empty string"])
  end.

Definition optional_string tag fields name : result (option string) :=
  match Map.get name fields with
  | None | Some Value.Null => Ok None
  | Some (Value.String value) => Ok (Some value)
  | Some _ => Err (fmt ["outbound "; debug tag; " field "; debug name; " must be a string"])
  end.

(** [Option::filter(|value| !value.is_empty())] *)
Definition nonempty (o : option string) : option string :=
  match o with Some value => if is_empty value then None else Some value | None => None end.

Definition optional_nonempty_string tag fields name : result (option string) :=
  nonempty <$> optional_string tag fields name.

Definition optional_bool tag fields name : result (option bool) :=
  match Map.get name fields with
  | None | Some Value.Null => Ok None
  | Some (Value.Bool value) => Ok (Some value)
  | Some _ => Err (fmt ["outbound "; debug tag; " field "; debug name; " must be a boolean"])
  end.

Definition required_string_array tag fields name : result (list string) :=
  match Map.get name fields with
  | Some (Value.Array values) =>
      mapM (fun value =>
              match value with
              | Value.String value =>
                  if negb (is_empty value) then Ok value
                  else Err (fmt ["outbound "; debug tag; " field "; debug name; " must contain non-empty strings"])
              | _ => Err (fmt ["outbound "; debug tag; " field "; debug name; " must contain non-empty strings"])
              end) values
  | _ => Err (fmt ["outbound "; debug tag; " field "; debug name; " must be a string array"])
  end.

Definition optional_u32 tag fields name : result (option Z) :=
  match Map.get name fields with
  | None | Some Value.Null => Ok None
  | Some (Value.Number value) =>
      match Number.as_u64 value with
      | Some value =>
          if value <=? u32_max then Ok (Some value)
          else Err (fmt ["outbound "; debug tag; " field "; debug name; " must be an unsigned 32-bit integer"])
      | None => Err (fmt ["outbound "; debug tag; " field "; debug name; " must be an unsigned 32-bit integer"])
      end
  | Some _ => Err (fmt ["outbound "; debug tag; " field "; debug name; " must be an unsigned 32-bit integer"])
  end.

Definition optional_ip_address tag fields name (require_ipv6 : bool) : result (option string) :=
  let family := if require_ipv6 then "IPv6" else "IPv4" in
  value ← optional_nonempty_string tag fields name;
  match value with
  | None => Ok None
  | Some value =>
      address ← ok_or (fmt ["outbound "; debug tag; " field "; debug name; " must be a valid "; family; " address"])
                  (parse_ip_addr value);
      if negb (Bool.eqb (IpAddr.is_ipv6 address) require_ipv6)
      then Err (fmt ["outbound "; debug tag; " field "; debug name; " must be an "; family; " address"])
      else Ok (Some value)
  end.

Definition optional_hysteria2_mbps tag fields name : result Z :=
  let MAX_SAFE_MBPS := u64_max / 125000 in
  match Map.get name fields with
  | None | Some Value.Null => Ok 0
  | Some value =>
      value ← ok_or (fmt ["hysteria2 outbound "; debug tag; " field "; debug name; " must be a non-negative integer"])
                match value with
                | Value.Number value =>
                    match Number.as_i64 value with Some value => if 0 <=? value then Some value else None | None => None end
                | _ => None
                end;
      if MAX_SAFE_MBPS <? value
      then Err (fmt ["hysteria2 outbound "; debug tag; " field "; debug name;
                     " exceeds the largest Mbps value whose Go bytes-per-second conversion does not overflow (";
                     to_dec MAX_SAFE_MBPS; ")"])
      else Ok value
  end.

Definition server_address tag fields : result string :=
  server ← required_nonempty_string tag fields "server";
  if negb (String.eqb (trim server) server) || has_whitespace server
  then Err (fmt ["outbound "; debug tag; " server contains whitespace"])
  else
    port ← ok_or (fmt ["outbound "; debug tag; " field "; quoted "server_port"; " must be an integer from 1 to 65535"])
             match Map.get "server_port" fields with
             | Some (Value.Number port) =>
                 match Number.as_u64 port with
                 | Some port => if (1 <=? port) && (port <=? 65535) then Some port else None
                 | None => None
                 end
             | _ => None
             end;
    match parse_ip_addr server with
    | Some (IpAddr.V6 address) => Ok (fmt ["["; show_ipv6 address; "]:"; to_dec port])
    | Some (IpAddr.V4 address) => Ok (fmt [show_ipv4 address; ":"; to_dec port])
    | None =>
        if contains_char ":" server
        then Err (fmt ["outbound "; debug tag; " server "; debug server; " is not a valid hostname or IP address"])
        else Ok (fmt [server; ":"; to_dec port])
    end.

(** [DialerProjection::parse] *)
Definition dialer_parse tag fields : result DialerProjection.t :=
  inet4_bind_address ← optional_ip_address tag fields "inet4_bind_address" false;
  inet6_bind_address ← optional_ip_address tag fields "inet6_bind_address" true;
  routing_mark ← optional_u32 tag fields "routing_mark";
  let routing_mark := match routing_mark with Some value => if value =? 0 then None else Some value | None => None end in
  connect_timeout ← optional_string tag fields "connect_timeout";
  if bool_decide (connect_timeout = Some "")
  then Err (fmt ["outbound "; debug tag; " field "; quoted "connect_timeout"; " must be a non-empty Go duration string"])
  else
    bind_interface ← optional_nonempty_string tag fields "bind_interface";
    bind_address_no_port ← optional_bool tag fields "bind_address_no_port";
    Ok (DialerProjection.mk bind_interface inet4_bind_address inet6_bind_address routing_mark connect_timeout
          (default false bind_address_no_port)).

(** The entries of [values], each a string. *)
Definition network_entries tag (values : list Value.t) : result (list string) :=
  mapM (fun value => ok_or (fmt ["outbound "; debug tag; " network entries must be strings"]) (Value.as_str value)) values.

(** The loop over the networks. *)
Fixpoint network_flags tag (networks : list string) (tcp udp : bool) : result (bool * bool) :=
  match networks with
  | [] => Ok (tcp, udp)
  | network :: networks =>
      if String.eqb network "tcp" then network_flags tag networks true udp
      else if String.eqb network "udp" then network_flags tag networks tcp true
      else Err (fmt ["outbound "; debug tag; " has unsupported network "; debug network])
  end.

Definition parse_network tag fields : result NetworkMode :=
  match Map.get "network" fields with
  | None | Some Value.Null => Ok Both
  | Some value =>
      values ← match value with
               | Value.String value => Ok [value]
               | Value.Array values => network_entries tag values
               | _ => Err (fmt ["outbound "; debug tag; " field "; quoted "network"; " must be a string or string array"])
               end;
      match values with
      | [] => Ok Both
      | _ =>
          flags ← network_flags tag values false false;
          Ok match flags with
             | (true, true) => Both
             | (true, false) => TcpOnly
             | (false, true) => UdpOnly
             | (false, false) => Both
             end
      end
  end.

Definition parse_uot tag (value : option Value.t) : result bool :=
  match value with
  | None | Some Value.Null => Ok false
  | Some (Value.Bool enabled) => Ok enabled
  | Some (Value.Object fields) =>
      _ ← reject_unknown_fields tag "udp_over_tcp" fields ["enabled"; "version"];
      enabled ← match Map.get "enabled" fields with
                | None => Ok false
                | Some (Value.Bool enabled) => Ok enabled
                | Some _ => Err (fmt ["outbound "; debug tag; " udp_over_tcp.enabled must be a boolean"])
                end;
      version ← match Map.get "version" fields with
                | None => Ok 0
                | Some (Value.Number version) =>
                    ok_or (fmt ["outbound "; debug tag; " udp_over_tcp.version must be an unsigned integer"])
                      (Number.as_u64 version)
                | Some _ => Err (fmt ["outbound "; debug tag; " udp_over_tcp.version must be an unsigned integer"])
                end;
      if enabled && negb ((version =? 0) || (version =? 2))
      then Err (fmt ["outbound "; debug tag; " requests UoT version "; to_dec version; "; shoes implements UoT v2 only"])
      else Ok enabled
  | Some _ => Err (fmt ["outbound "; debug tag; " field "; quoted "udp_over_tcp"; " must be a boolean or object"])
  end.

Definition set_opt (k : string) (v : option string) fields : Value.fields :=
  match v with Some v => Map.insert k (Value.String v) fields | None => fields end.

Definition wrap_tls tag (value : option Value.t) (vision : bool) (inner : Value.t) : result Value.t :=
  match value with
  | None =>
      if vision then Err (fmt ["vless outbound "; debug tag; " enables Vision flow without TLS"]) else Ok inner
  | Some value =>
      fields ← ok_or (fmt ["outbound "; debug tag; " field "; quoted "tls"; " must be an object"]) (Value.as_object value);
      _ ← reject_unknown_fields tag "tls" fields ["enabled"; "server_name"; "insecure"];
      enabled ← optional_bool tag fields "enabled";
      server_name ← optional_nonempty_string tag fields "server_name";
      insecure ← optional_bool tag fields "insecure";
      let enabled := default false enabled in
      let insecure := default false insecure in
      if negb enabled then
        if vision then Err (fmt ["vless outbound "; debug tag; " enables Vision flow while tls.enabled is false"])
        else if DialerProjection.is_some server_name || insecure
        then Err (fmt ["outbound "; debug tag; " configures TLS fields while tls.enabled is false"])
        else Ok inner
      else
        let tls := Map.from_iter [("type", Value.String "tls"); ("verify", Value.Bool (negb insecure));
                                  ("use_native_roots", Value.Bool true); ("protocol", inner)] in
        let tls := set_opt "sni_hostname" server_name tls in
        let tls := if vision then Map.insert "vision" (Value.Bool true) tls else tls in
        Ok (Value.Object tls)
  end.

Definition compile_hysteria2_tls tag (value : option Value.t) : result Value.t :=
  match value with
  | Some (Value.Object fields) =>
      _ ← reject_unknown_fields tag "hysteria2 tls" fields ["enabled"; "server_name"; "insecure"];
      enabled ← optional_bool tag fields "enabled";
      if negb (default false enabled)
      then Err (fmt ["hysteria2 outbound "; debug tag; " requires tls.enabled=true"])
      else
        server_name ← optional_nonempty_string tag fields "server_name";
        insecure ← optional_bool tag fields "insecure";
        let tls := Map.from_iter [("verify", Value.Bool (negb (default false insecure)));
                                  ("use_native_roots", Value.Bool true)] in
        Ok (Value.Object (set_opt "sni_hostname" server_name tls))
  | _ => Err (fmt ["hysteria2 outbound "; debug tag; " requires tls.enabled=true"])
  end.

Definition compile_hysteria2_obfs tag (value : option Value.t) : result (option Value.t) :=
  match value with
  | None | Some Value.Null => Ok None
  | Some value =>
      fields ← ok_or (fmt ["hysteria2 outbound "; debug tag; " field "; quoted "obfs"; " must be an object"])
                 (Value.as_object value);
      _ ← reject_unknown_fields tag "hysteria2 obfs" fields ["type"; "password"];
      kind ← required_nonempty_string tag fields "type";
      if negb (String.eqb kind "salamander")
      then Err (fmt ["hysteria2 outbound "; debug tag; " has unsupported obfs type "; debug kind])
      else
        password ← required_nonempty_string tag fields "password";
        Ok (Some (Value.obj [("type", Value.String "salamander"); ("password", Value.String password)]))
  end.

Definition reject_hysteria2_port_hopping tag fields : result unit :=
  let server_ports_enabled :=
    match Map.get "server_ports" fields with
    | None | Some Value.Null => false
    | Some (Value.Array values) => match values with [] => false | _ => true end
    | Some _ => true
    end in
  let hop_interval_enabled :=
    match Map.get "hop_interval" fields with None | Some Value.Null => false | Some _ => true end in
  if server_ports_enabled || hop_interval_enabled
  then Err (fmt ["hysteria2 outbound "; debug tag;
                 " uses server_ports/hop_interval port hopping, which shoes does not implement"])
  else Ok tt.

Definition client_config (address : option string) (protocol : Value.t) (dialer : DialerProjection.t)
    (dns_resolver : option string) : Value.t :=
  let config := set_opt "address" address [] in
  let config := set_opt "bind_interface" (DialerProjection.bind_interface dialer) config in
  let config := set_opt "inet4_bind_address" (DialerProjection.inet4_bind_address dialer) config in
  let config := set_opt "inet6_bind_address" (DialerProjection.inet6_bind_address dialer) config in
  let config := match DialerProjection.routing_mark dialer with
                | Some routing_mark => Map.insert "routing_mark" (Value.num routing_mark) config
                | None => config
                end in
  let config := set_opt "connect_timeout" (DialerProjection.connect_timeout dialer) config in
  let config := if DialerProjection.bind_address_no_port dialer
                then Map.insert "bind_address_no_port" (Value.Bool true) config else config in
  let config := set_opt "dns_resolver" dns_resolver config in
  Value.Object (Map.insert "protocol" protocol config).
End fields.

Definition DIALER_FIELD_NAMES : list string :=
  ["bind_interface"; "inet4_bind_address"; "inet6_bind_address"; "routing_mark"; "connect_timeout";
   "bind_address_no_port"].

(** ** The adapter *)

(** The hops of a chain. *)
Definition Chain : Type := list Value.t.

Section adapter.
Context (debug : string -> string) {C : Type} `{!OutboundCatalog C} (catalog : C) (follow_references : bool).
Implicit Types (tag : string) (fields : Value.fields) (dns_resolver : option string).

Local Abbreviation method := (stm SelectorProjectionCache string).
Local Abbreviation reject := (reject_unknown_fields debug).

(** [self.selector_cache.remember(id, selected)] *)
Definition remember (id : Z) (selected : OutboundRef.t) : method unit := modify <[id := selected]>.

Section protocols.
Context (compile_outbound_ref : OutboundRef.t -> method Chain).

Definition compile_proxy_chain tag fields (address : string) (protocol : Value.t) dns_resolver : method Chain :=
  detour ← lift (optional_nonempty_string debug tag fields "detour");
  dialer ← lift (dialer_parse debug tag fields);
  if DialerProjection.is_some detour && DialerProjection.has_effective_fields dialer
  then raise (fmt ["outbound "; debug tag; " combines detour with local dialer field(s) ";
                   join ", " (DialerProjection.effective_field_names dialer);
                   "; sing-box bypasses the current outbound's local dialer on detour, so applying them to shoes hop zero would change behavior"])
  else
    let current := client_config (Some address) protocol dialer dns_resolver in
    match detour with
    | None => mret [current]
    | Some detour =>
        match resolve catalog detour with
        | None => raise (fmt ["outbound "; debug tag; " references unknown detour "; debug detour])
        | Some outbound =>
            if negb (String.eqb (OutboundRef.tag outbound) detour)
            then raise (fmt ["outbound catalog resolved detour "; debug detour; " as mismatched tag ";
                             debug (OutboundRef.tag outbound)])
            else if negb follow_references then mret [current]
            else chain ← compile_outbound_ref outbound; mret (chain ++ [current])
        end
    end.

Definition compile_direct tag fields dns_resolver : method Chain :=
  _ ← lift (reject tag "direct" fields DIALER_FIELD_NAMES);
  dialer ← lift (dialer_parse debug tag fields);
  mret [client_config None (Value.obj [("type", Value.String "direct")]) dialer dns_resolver].

Definition udp_only (kind tag : string) : string :=
  fmt [kind; " outbound "; debug tag; " is UDP-only; shoes client chains cannot disable TCP on a proxy hop"].

Definition compile_shadowsocks tag fields dns_resolver : method Chain :=
  _ ← lift (reject tag "shadowsocks" fields
              ["server"; "server_port"; "method"; "password"; "network"; "udp_over_tcp"; "detour"; "bind_interface";
               "inet4_bind_address"; "inet6_bind_address"; "routing_mark"; "connect_timeout"; "bind_address_no_port"]);
  address ← lift (server_address debug tag fields);
  method ← lift (required_nonempty_string debug tag fields "method");
  password ← lift (required_nonempty_string debug tag fields "password");
  network ← lift (parse_network debug tag fields);
  if bool_decide (network = UdpOnly) then raise (udp_only "shadowsocks" tag)
  else
    uot ← lift (parse_uot debug tag (Map.get "udp_over_tcp" fields));
    let udp_enabled := bool_decide (network = Both) in
    let native_udp := udp_enabled && negb uot in
    detour ← (if native_udp then lift (optional_nonempty_string debug tag fields "detour") else mret None);
    if native_udp && DialerProjection.is_some detour
    then raise (fmt ["shadowsocks outbound "; debug tag;
                     " combines native UDP with detour; shoes native datagram proxying currently requires Shadowsocks to be the first and final hop (use UoT v2 or remove detour)"])
    else
      let protocol := Map.from_iter [("type", Value.String "shadowsocks"); ("cipher", Value.String method);
                                     ("password", Value.String password); ("udp_enabled", Value.Bool udp_enabled)] in
      let protocol := if native_udp then Map.insert "udp_mode" (Value.String "native") protocol else protocol in
      compile_proxy_chain tag fields address (Value.Object protocol) dns_resolver.

Definition compile_trojan tag fields dns_resolver : method Chain :=
  _ ← lift (reject tag "trojan" fields
              ["server"; "server_port"; "password"; "network"; "tls"; "detour"; "bind_interface"; "inet4_bind_address";
               "inet6_bind_address"; "routing_mark"; "connect_timeout"; "bind_address_no_port"]);
  network ← lift (parse_network debug tag fields);
  if bool_decide (network = UdpOnly) then raise (udp_only "trojan" tag)
  else
    address ← lift (server_address debug tag fields);
    password ← lift (required_nonempty_string debug tag fields "password");
    let inner := Value.obj [("type", Value.String "trojan"); ("password", Value.String password);
                            ("udp_enabled", Value.Bool (bool_decide (network = Both)))] in
    protocol ← lift (wrap_tls debug tag (Map.get "tls" fields) false inner);
    compile_proxy_chain tag fields address protocol dns_resolver.

(** An omitted encoding is XUDP; the explicit empty one is the historical framing. *)
Definition packet_encoding_value (packet_encoding : option string) : option string :=
  match packet_encoding with
  | None => Some "xudp"
  | Some value => if is_empty value then None else Some value
  end.

Definition compile_vless tag fields dns_resolver : method Chain :=
  _ ← lift (reject tag "vless" fields
              ["server"; "server_port"; "uuid"; "flow"; "network"; "packet_encoding"; "tls"; "detour"; "bind_interface";
               "inet4_bind_address"; "inet6_bind_address"; "routing_mark"; "connect_timeout"; "bind_address_no_port"]);
  network ← lift (parse_network debug tag fields);
  if bool_decide (network = UdpOnly) then raise (udp_only "vless" tag)
  else
    packet_encoding ← lift (optional_string debug tag fields "packet_encoding");
    if match packet_encoding with Some value => negb (bool_decide (value ∈ [""; "xudp"; "packetaddr"])) | None => false end
    then raise (fmt ["vless outbound "; debug tag; " has unsupported packet_encoding "; debug (default "" packet_encoding)])
    else
      flow ← lift (optional_string debug tag fields "flow");
      let flow := default "" flow in
      vision ← (if is_empty flow then mret false
                else if String.eqb flow "xtls-rprx-vision" then mret true
                else raise (fmt ["vless outbound "; debug tag; " has unsupported flow "; debug flow]));
      address ← lift (server_address debug tag fields);
      uuid ← lift (required_nonempty_string debug tag fields "uuid");
      let udp_enabled := bool_decide (network = Both) in
      let inner := Map.from_iter [("type", Value.String "vless"); ("user_id", Value.String uuid);
                                  ("udp_enabled", Value.Bool udp_enabled)] in
      let inner := if udp_enabled then set_opt "packet_encoding" (packet_encoding_value packet_encoding) inner else inner in
      protocol ← lift (wrap_tls debug tag (Map.get "tls" fields) vision (Value.Object inner));
      compile_proxy_chain tag fields address protocol dns_resolver.

Definition compile_hysteria2 tag fields dns_resolver : method Chain :=
  _ ← lift (reject tag "hysteria2" fields
              ["server"; "server_port"; "server_ports"; "hop_interval"; "up_mbps"; "down_mbps"; "obfs"; "password";
               "network"; "tls"; "brutal_debug"; "detour"; "bind_interface"; "inet4_bind_address"; "inet6_bind_address";
               "routing_mark"; "connect_timeout"; "bind_address_no_port"]);
  detour ← lift (optional_nonempty_string debug tag fields "detour");
  if DialerProjection.is_some detour
  then raise (fmt ["hysteria2 outbound "; debug tag;
                   " uses detour; shoes Hysteria2 owns its UDP/QUIC socket and must be the first client-chain hop"])
  else
    _ ← lift (reject_hysteria2_port_hopping debug tag fields);
    brutal_debug ← lift (optional_bool debug tag fields "brutal_debug");
    if default false brutal_debug
    then raise (fmt ["hysteria2 outbound "; debug tag; " enables brutal_debug, which shoes does not expose"])
    else
      connect_timeout ← lift (optional_nonempty_string debug tag fields "connect_timeout");
      if DialerProjection.is_some connect_timeout
      then raise (fmt ["hysteria2 outbound "; debug tag;
                       " configures connect_timeout; shoes does not yet apply that timeout to the underlying UDP dial without changing Hysteria2's separate 15-second QUIC/authentication budget"])
      else
        network ← lift (parse_network debug tag fields);
        if bool_decide (network = UdpOnly) then raise (udp_only "hysteria2" tag)
        else
          address ← lift (server_address debug tag fields);
          password ← lift (optional_string debug tag fields "password");
          up_mbps ← lift (optional_hysteria2_mbps debug tag fields "up_mbps");
          down_mbps ← lift (optional_hysteria2_mbps debug tag fields "down_mbps");
          obfs ← lift (compile_hysteria2_obfs debug tag (Map.get "obfs" fields));
          quic_settings ← lift (compile_hysteria2_tls debug tag (Map.get "tls" fields));
          dialer ← lift (dialer_parse debug tag fields);
          if DialerProjection.bind_address_no_port dialer
          then raise (fmt ["hysteria2 outbound "; debug tag;
                           " enables bind_address_no_port, which shoes has not implemented on the Hysteria2 UDP socket"])
          else
            let protocol := Map.from_iter [("type", Value.String "hysteria2"); ("password", Value.String (default "" password));
                                           ("udp_enabled", Value.Bool (bool_decide (network = Both)));
                                           ("up_mbps", Value.num up_mbps); ("down_mbps", Value.num down_mbps)] in
            let protocol := match obfs with Some obfs => Map.insert "obfs" obfs protocol | None => protocol end in
            let config := client_config (Some address) (Value.Object protocol) dialer dns_resolver in
            let config := Value.set "transport" (Value.String "quic") config in
            mret [Value.set "quic_settings" quic_settings config].

Definition compile_selector_target (identity : ActiveOutboundIdentity) tag (selected : string) : method Chain :=
  match resolve catalog selected with
  | None => raise (fmt ["selector outbound "; debug tag; " references unknown member "; debug selected])
  | Some outbound =>
      if negb (String.eqb (OutboundRef.tag outbound) selected)
      then raise (fmt ["outbound catalog resolved "; debug selected; " as mismatched tag "; debug (OutboundRef.tag outbound)])
      else
        chain ← compile_outbound_ref outbound;
        _ ← match identity with Catalog id => remember id outbound | Root => mret tt end;
        mret chain
  end.

(** The loop over the members. *)
Definition check_member tag (member : string) : result string unit :=
  match resolve catalog member with
  | None => Err (fmt ["selector outbound "; debug tag; " references unknown member "; debug member])
  | Some outbound =>
      if negb (String.eqb (OutboundRef.tag outbound) member)
      then Err (fmt ["outbound catalog resolved "; debug member; " as mismatched tag "; debug (OutboundRef.tag outbound)])
      else Ok tt
  end.

Definition compile_selector (identity : ActiveOutboundIdentity) tag fields : method Chain :=
  _ ← lift (reject tag "selector" fields ["outbounds"; "default"; "interrupt_exist_connections"]);
  _ ← lift (optional_bool debug tag fields "interrupt_exist_connections");
  members ← lift (required_string_array debug tag fields "outbounds");
  match members with
  | [] => raise (fmt ["selector outbound "; debug tag; " requires at least one member"])
  | first :: _ =>
      chosen ← lift (optional_nonempty_string debug tag fields "default");
      if match chosen with Some chosen => negb (bool_decide (chosen ∈ members)) | None => false end
      then raise (fmt ["selector outbound "; debug tag; " default "; debug (default "" chosen); " is not a member"])
      else
        _ ← for_in members (fun member => lift (check_member tag member));
        let selected := default first chosen in
        if negb follow_references then mret [] else compile_selector_target identity tag selected
  end.

(** The match on [kind]. *)
Definition compile_kind (identity : ActiveOutboundIdentity) (kind tag : string) fields dns_resolver : method Chain :=
  if String.eqb kind "direct" then compile_direct tag fields dns_resolver
  else if String.eqb kind "shadowsocks" then compile_shadowsocks tag fields dns_resolver
  else if String.eqb kind "trojan" then compile_trojan tag fields dns_resolver
  else if String.eqb kind "vless" then compile_vless tag fields dns_resolver
  else if String.eqb kind "selector" then compile_selector identity tag fields
  else if String.eqb kind "urltest"
  then raise (fmt ["outbound "; debug tag;
                   " uses urltest; shoes has no equivalent active health-check and latency-selection client"])
  else if String.eqb kind "hysteria2" then compile_hysteria2 tag fields dns_resolver
  else raise (fmt ["outbound "; debug tag; " has unsupported type "; debug kind]).
End protocols.

(** The remembered choice of a selector. *)
Definition cached_selection (identity : ActiveOutboundIdentity) (kind : string) (cache : SelectorProjectionCache)
    : option OutboundRef.t :=
  if follow_references && String.eqb kind "selector"
  then match identity with Catalog id => cache !! id | Root => None end
  else None.

(** [compile_with_dns]; [compile_outbound_ref] and [compile_cached_outbound_ref] are
    its calls with [validate_tag] true and false.  Every nested call has one more
    active outbound, so the depth check comes before the fuel runs out
    ([compile_validated] in [OutboundChains.v]). *)
Fixpoint compile_with_dns (fuel : nat) (active_ids : list ActiveOutboundIdentity) (identity : ActiveOutboundIdentity)
    (kind tag : string) (options : Value.t) dns_resolver (validate_tag : bool) {struct fuel} : method Chain :=
  let kind := trim kind in
  if is_empty kind then raise "outbound type is required"
  else if validate_tag && is_empty (trim tag) then raise (fmt ["outbound "; debug kind; " tag is required"])
  else if bool_decide (identity ∈ active_ids) then raise (fmt ["outbound reference cycle at outbound "; debug tag])
  else if (MAX_OUTBOUND_REFERENCE_DEPTH <=? length active_ids)%nat
  then raise (fmt ["outbound reference depth exceeds maximum "; to_dec (Z.of_nat MAX_OUTBOUND_REFERENCE_DEPTH);
                   " at outbound "; debug tag])
  else
    match fuel with
    | O => raise "out of fuel"
    | S fuel =>
        let compile_ref (validate_tag : bool) (outbound : OutboundRef.t) :=
          compile_with_dns fuel (active_ids ++ [identity]) (Catalog (OutboundRef.id outbound)) (OutboundRef.kind outbound)
            (OutboundRef.tag outbound) (Ref.value (OutboundRef.options outbound)) (OutboundRef.dns_resolver outbound)
            validate_tag in
        cache ← get;
        match cached_selection identity kind cache with
        | Some selected => compile_ref false selected
        | None =>
            match Value.as_object options with
            | None => raise (fmt ["outbound "; debug tag; " ("; kind; ") options must be a JSON object"])
            | Some fields => compile_kind (compile_ref true) identity kind tag fields dns_resolver
            end
        end
    end.

(** [Adapter::compile] *)
Definition adapter_compile (kind tag : string) (options : Ref.t) : method Chain :=
  let identity :=
    match resolve catalog tag with
    | Some outbound =>
        if String.eqb (OutboundRef.tag outbound) tag && String.eqb (OutboundRef.kind outbound) kind
           && Ref.ptr_eq (OutboundRef.options outbound) options
        then Catalog (OutboundRef.id outbound) else Root
    | None => Root
    end in
  compile_with_dns MAX_OUTBOUND_REFERENCE_DEPTH [] identity kind tag (Ref.value options)
    (catalog_dns_resolver catalog tag) true.
End adapter.

Section entry.
Context (debug : string -> string) {C : Type} `{!OutboundCatalog C}.

(** [Value::Array(vec![json!({ "chain": hops })])] *)
Definition chain_value (hops : Chain) : Value.t := Value.Array [Value.obj [("chain", Value.Array hops)]].

Definition compile_client_chains_cached (kind tag : string) (options : Ref.t) (catalog : C)
    : stm SelectorProjectionCache string Value.t :=
  hops ← adapter_compile debug catalog true kind tag options; mret (chain_value hops).

Definition compile_client_chains (kind tag : string) (options : Ref.t) (catalog : C) : result string Value.t :=
  (compile_client_chains_cached kind tag options catalog ∅).2.

Definition validate_client_outbound (kind tag : string) (options : Ref.t) (catalog : C) : result string unit :=
  (fun _ => tt) <$> (adapter_compile debug catalog false kind tag options ∅).2.
End entry.
