(* ===== verification/OutboundGraph.v ===== *)
(** * The outbound catalog: [crates/node-agent/src/compile.rs], lines 309 to 1095

    The validated outbounds of a topology and the passes over their references:
    selector and URL test definitions, the reference graph (unknown references,
    cycles, depth) and the shape of the action an outbound stands for.

    [{:?}] of a string is the argument [debug]; the duration parser of shoes is
    [parse_go_duration], in nanoseconds.  A Rust panic is the error [Panic]. *)

From Stdlib Require Import ZArith Lia Ascii.
From S2P Require Import Prelude Bytes Json Runtime OutboundAdapter.

Open Scope Z_scope.

(** [Result<A, CompileError>] of code that may panic. *)
Abbreviation fallible := (result (exn string)).

Definition error {A} (pieces : list string) : fallible A := Err (Fail (fmt pieces)).

(** [expect] on an option *)
Definition expected {A} (message : string) (o : option A) : fallible A := ok_or (Panic message) o.

(** ** Data *)

Module DnsServerQueryProfile.
Record t : Type := mk {
  disable_cache : bool;
  rewrite_ttl : option Z;
  client_subnet : option string
}.
#[global] Instance eq_dec : EqDecision t.
Proof. solve_decision. Defined.

(** [DnsServerQueryProfile::default()] *)
Definition zero : t := mk false None None.

Definition is_default (self : t) : bool :=
  negb (disable_cache self) && negb (DialerProjection.is_some (rewrite_ttl self))
  && negb (DialerProjection.is_some (client_subnet self)).
End DnsServerQueryProfile.

Module OutboundDomainResolver.
Record t : Type := mk {
  server : string;
  strategy : string;
  query : DnsServerQueryProfile.t
}.
#[global] Instance eq_dec : EqDecision t.
Proof. solve_decision. Defined.
End OutboundDomainResolver.

Module ValidatedOutbound.
Record t : Type := mk {
  id : Z;
  kind : string;
  tag : string;
  options : Value.t;
  requested_options : Value.t;
  domain_resolver : option OutboundDomainResolver.t;
  shoes_dns_resolver : option string
}.

(** An entry of a catalog is one allocation: its identity is its address. *)
Definition options_ref (self : t) : Ref.t := Ref.mk (id self) (options self).

Definition as_outbound_ref (self : t) : OutboundRef.t :=
  OutboundRef.mk (id self) (kind self) (tag self) (options_ref self) (shoes_dns_resolver self).

Definition set_shoes_dns_resolver (resolver : option string) (self : t) : t :=
  mk (id self) (kind self) (tag self) (options self) (requested_options self) (domain_resolver self) resolver.
End ValidatedOutbound.

(** [BTreeMap<String, ValidatedOutbound>] *)
Abbreviation catalog_t := (gmap string ValidatedOutbound.t).

#[export] Instance validated_catalog : OutboundCatalog catalog_t := {|
  resolve catalog tag := ValidatedOutbound.as_outbound_ref <$> catalog !! tag;
  catalog_dns_resolver catalog tag := outbound ← catalog !! tag; ValidatedOutbound.shoes_dns_resolver outbound
|}.

Module SelectorDefinition.
Record t : Type := mk { members : list string; selected : string }.
End SelectorDefinition.

Module UrltestDefinition.
Record t : Type := mk { members : list string; selection : Value.fields }.
End UrltestDefinition.

Module OutboundReference.
Inductive t : Type :=
  | SelectorMember (target : string)
  | UrltestMember (target : string)
  | Detour (target : string).
Definition target (self : t) : string :=
  match self with SelectorMember target | UrltestMember target | Detour target => target end.
End OutboundReference.

(** [ReferenceVisitState] *)
Inductive ReferenceVisitState : Type :=
  | Visiting
  | Complete (depth : nat).

(** [OutboundActionShape] *)
Inductive OutboundActionShape : Type := Plain | Urltest.
#[export] Instance OutboundActionShape_eq_dec : EqDecision OutboundActionShape.
Proof. solve_decision. Defined.

(** [SUPPORTED_OUTBOUND_TYPES] *)
Definition SUPPORTED_OUTBOUND_TYPES : list string :=
  ["direct"; "selector"; "urltest"; "shadowsocks"; "trojan"; "vless"; "hysteria2"].

Section graph.
Context (debug : string -> string) (parse_go_duration : string -> result string Z).
Implicit Types outbound : ValidatedOutbound.t.

Local Abbreviation tag_of := ValidatedOutbound.tag.

(** ** Definitions of groups *)

(** [values.iter().enumerate()]: every member is a non-empty string. *)
Fixpoint parse_members (kind tag : string) (index : nat) (values : list Value.t) : fallible (list string) :=
  match values with
  | [] => Ok []
  | value :: values =>
      match nonempty (Value.as_str value) with
      | Some member => members ← parse_members kind tag (S index) values; Ok (member :: members)
      | None => error [kind; " outbound "; debug tag; " outbounds["; to_dec (Z.of_nat index);
                       "] must be a non-empty string"]
      end
  end.

Definition parse_selector_definition outbound : fallible SelectorDefinition.t :=
  let tag := debug (tag_of outbound) in
  match Value.as_object (ValidatedOutbound.options outbound) with
  | None => error ["selector outbound "; tag; " options must be an object"]
  | Some fields =>
      match Map.get "outbounds" fields ≫= Value.as_array with
      | None => error ["selector outbound "; tag; " requires an outbounds string array"]
      | Some values =>
          members ← parse_members "selector" (tag_of outbound) 0 values;
          match members with
          | [] => error ["selector outbound "; tag; " requires at least one member"]
          | first :: _ =>
              chosen ← match Map.get "default" fields with
                       | None | Some Value.Null => Ok None
                       | Some (Value.String value) => Ok (if is_empty value then None else Some value)
                       | Some _ => error ["selector outbound "; tag; " default must be a string"]
                       end;
              match chosen with
              | Some chosen =>
                  if bool_decide (chosen ∈ members) then Ok (SelectorDefinition.mk members chosen)
                  else error ["selector outbound "; tag; " default "; debug chosen; " is not a member"]
              | None => Ok (SelectorDefinition.mk members first)
              end
          end
      end
  end.

Definition parse_urltest_duration (tag : string) (value : option Value.t) (field : string) (default_millis : Z)
    : fallible Z :=
  match value with
  | None => Ok default_millis
  | Some (Value.String value) =>
      match parse_go_duration value with
      | Err e => error ["urltest outbound "; debug tag; " has invalid "; field; " "; debug value; ": "; e]
      | Ok duration =>
          if duration =? 0 then Ok default_millis
          else if negb (duration mod 1000000000 mod 1000000 =? 0)
          then error ["urltest outbound "; debug tag; " "; field; " "; debug value;
                      " has sub-millisecond precision that shoes cannot preserve"]
          else if duration / 1000000 <=? u64_max then Ok (duration / 1000000)
          else error ["urltest outbound "; debug tag; " "; field; " "; debug value; " is too large"]
      end
  | Some _ => error ["urltest outbound "; debug tag; " "; field; " must be a Go duration string"]
  end.

Definition DEFAULT_INTERVAL_MILLIS : Z := 3 * 60 * 1000.
Definition DEFAULT_IDLE_TIMEOUT_MILLIS : Z := 30 * 60 * 1000.

Definition URLTEST_FIELDS : list string :=
  ["outbounds"; "url"; "interval"; "tolerance"; "idle_timeout"; "interrupt_exist_connections"].

Definition parse_tolerance (tag : string) (value : option Value.t) : fallible Z :=
  match value with
  | None | Some Value.Null => Ok 50
  | Some (Value.Number value) =>
      match Number.as_u64 value with
      | Some value =>
          if value <=? u16_max then Ok (if value =? 0 then 50 else value)
          else error ["urltest outbound "; debug tag; " tolerance must be an unsigned 16-bit integer"]
      | None => error ["urltest outbound "; debug tag; " tolerance must be an unsigned 16-bit integer"]
      end
  | Some _ => error ["urltest outbound "; debug tag; " tolerance must be an unsigned 16-bit integer"]
  end.

(** The digits of [shared_id] are replaced once the chains are known. *)
Definition placeholder_id : string :=
  "node-agent-urltest-v1:0000000000000000000000000000000000000000000000000000000000000000".

Definition parse_urltest_definition outbound : fallible UrltestDefinition.t :=
  let tag := tag_of outbound in
  match Value.as_object (ValidatedOutbound.options outbound) with
  | None => error ["urltest outbound "; debug tag; " options must be an object"]
  | Some fields =>
      match find_first (fun field => negb (bool_decide (field ∈ URLTEST_FIELDS))) (Map.keys fields) with
      | Some field => error ["urltest outbound "; debug tag; " field "; debug field; " cannot be represented by shoes"]
      | None =>
          match Map.get "outbounds" fields ≫= Value.as_array with
          | None => error ["urltest outbound "; debug tag; " requires an outbounds string array"]
          | Some [] => error ["urltest outbound "; debug tag; " requires at least one member"]
          | Some values =>
              members ← parse_members "urltest" tag 0 values;
              requested_url ← match Map.get "url" fields with
                              | None | Some Value.Null => Ok ""
                              | Some (Value.String url) => Ok url
                              | Some _ => error ["urltest outbound "; debug tag; " url must be a string"]
                              end;
              interval_millis ← parse_urltest_duration tag (Map.get "interval" fields) "interval" DEFAULT_INTERVAL_MILLIS;
              idle_timeout_millis ← parse_urltest_duration tag (Map.get "idle_timeout" fields) "idle_timeout"
                                      DEFAULT_IDLE_TIMEOUT_MILLIS;
              if idle_timeout_millis <? interval_millis
              then error ["urltest outbound "; debug tag; " interval must be less than or equal to idle_timeout"]
              else
                tolerance ← parse_tolerance tag (Map.get "tolerance" fields);
                _ ← match Map.get "interrupt_exist_connections" fields with
                    | None | Some Value.Null | Some (Value.Bool false) => Ok tt
                    | Some (Value.Bool true) =>
                        error ["urltest outbound "; debug tag; " requests interrupt_exist_connections; shoes cannot revoke already-established connections when the selected chain changes"]
                    | Some _ => error ["urltest outbound "; debug tag; " interrupt_exist_connections must be a boolean"]
                    end;
                Ok (UrltestDefinition.mk members
                      (Map.from_iter
                         [("type", Value.String "urltest"); ("shared_id", Value.String placeholder_id);
                          ("url", Value.String requested_url); ("use_native_roots", Value.Bool true);
                          ("reselect_on_connection_failure", Value.Bool false);
                          ("interval_millis", Value.num interval_millis);
                          ("idle_timeout_millis", Value.num idle_timeout_millis);
                          ("tolerance_millis", Value.num tolerance)]))
          end
      end
  end.

(** ** References *)

Definition effective_detour outbound : option string :=
  nonempty (Value.get "detour" (ValidatedOutbound.options outbound) ≫= Value.as_str).

Definition outbound_references outbound : fallible (list OutboundReference.t) :=
  if String.eqb (ValidatedOutbound.kind outbound) "selector" then
    definition ← parse_selector_definition outbound;
    Ok (OutboundReference.SelectorMember <$> SelectorDefinition.members definition)
  else if String.eqb (ValidatedOutbound.kind outbound) "urltest" then
    definition ← parse_urltest_definition outbound;
    Ok (OutboundReference.UrltestMember <$> UrltestDefinition.members definition)
  else
    Ok match effective_detour outbound with Some detour => [OutboundReference.Detour detour] | None => [] end.

Section validators.
Context (catalog : catalog_t).

(** ** [ReferenceGraphValidator] *)

Record ReferenceGraphValidator : Type := mkGraph {
  states : gmap string ReferenceVisitState;
  stack : list string
}.

Definition new_graph : ReferenceGraphValidator := mkGraph ∅ [].

Definition set_state (tag : string) (state : ReferenceVisitState) (self : ReferenceGraphValidator) :=
  mkGraph (<[tag := state]> (states self)) (stack self).
Definition push (tag : string) (self : ReferenceGraphValidator) := mkGraph (states self) (stack self ++ [tag]).
Definition pop (self : ReferenceGraphValidator) := mkGraph (states self) (take (length (stack self) - 1) (stack self)).

Local Abbreviation method := (stm ReferenceGraphValidator (exn string)).

Definition unknown_reference (tag : string) (reference : OutboundReference.t) : exn string :=
  Fail (fmt match reference with
            | OutboundReference.SelectorMember member =>
                ["selector outbound "; debug tag; " references unknown member "; debug member]
            | OutboundReference.UrltestMember member =>
                ["urltest outbound "; debug tag; " references unknown member "; debug member]
            | OutboundReference.Detour detour =>
                ["outbound "; debug tag; " references unknown detour "; debug detour]
            end).

(** [for reference in references] *)
Fixpoint visit_references (visit : string -> method nat) (tag : string) (references : list OutboundReference.t)
    (max_child_depth : nat) : method nat :=
  match references with
  | [] => mret max_child_depth
  | reference :: references =>
      let target := OutboundReference.target reference in
      match catalog !! target with
      | None => raise (unknown_reference tag reference)
      | Some _ =>
          depth ← visit target;
          visit_references visit tag references (Nat.max max_child_depth depth)
      end
  end.

Definition show_max : string := to_dec (Z.of_nat MAX_OUTBOUND_REFERENCE_DEPTH).

(** The stack grows with every nested call, so the depth check comes before the
    fuel runs out. *)
Fixpoint visit (fuel : nat) (tag : string) {struct fuel} : method nat :=
  self ← get;
  match states self !! tag with
  | Some (Complete depth) => mret depth
  | Some Visiting =>
      match position (String.eqb tag) (stack self) with
      | None => raise (Panic "a visiting outbound is present on the DFS stack")
      | Some cycle_start =>
          raise (Fail (fmt ["outbound reference cycle: "; join " -> " (drop cycle_start (stack self) ++ [tag])]))
      end
  | None =>
      if (MAX_OUTBOUND_REFERENCE_DEPTH <=? length (stack self))%nat
      then raise (Fail (fmt ["outbound reference depth exceeds maximum "; show_max; ": ";
                             join " -> " (stack self ++ [tag])]))
      else
        match fuel with
        | O => raise (Panic "out of fuel")
        | S fuel =>
            outbound ← lift (expected "graph traversal only starts from catalog tags" (catalog !! tag));
            references ← lift (outbound_references outbound);
            _ ← modify (set_state tag Visiting);
            _ ← modify (push tag);
            max_child_depth ← visit_references (visit fuel) tag references 0;
            _ ← modify pop;
            let depth := (max_child_depth + 1)%nat in
            if (MAX_OUTBOUND_REFERENCE_DEPTH <? depth)%nat
            then raise (Fail (fmt ["outbound reference depth from "; debug tag; " is "; to_dec (Z.of_nat depth);
                                   ", exceeding maximum "; show_max]))
            else _ ← modify (set_state tag (Complete depth)); mret depth
        end
  end.

(** [ReferenceGraphValidator::validate] *)
Definition validate_graph : fallible unit :=
  (for_in (btree_iter catalog).*1 (fun tag => _ ← visit MAX_OUTBOUND_REFERENCE_DEPTH tag; mret tt) new_graph).2.

(** ** [OutboundActionShapeValidator] *)

Local Abbreviation shapes := (gmap string OutboundActionShape).

(** [for member in members] *)
Fixpoint urltest_shape (shape : string -> stm shapes (exn string) OutboundActionShape) (tag : string)
    (members : list string) : stm shapes (exn string) OutboundActionShape :=
  match members with
  | [] => mret Urltest
  | member :: members =>
      s ← shape member;
      if bool_decide (s = Urltest)
      then raise (Fail (fmt ["urltest outbound "; debug tag; " contains nested active urltest through member "; debug member]))
      else urltest_shape shape tag members
  end.

(** [shape]; the recursion follows the references, which the graph validator has
    bounded ([validate_shapes_spec]). *)
Fixpoint shape (fuel : nat) (tag : string) {struct fuel} : stm shapes (exn string) OutboundActionShape :=
  completed ← get;
  match completed !! tag with
  | Some shape => mret shape
  | None =>
      match fuel with
      | O => raise (Panic "out of fuel")
      | S fuel =>
          outbound ← lift (expected "action-shape validation follows a validated reference graph" (catalog !! tag));
          let kind := ValidatedOutbound.kind outbound in
          s ← (if String.eqb kind "selector" then
                 definition ← lift (parse_selector_definition outbound);
                 shape fuel (SelectorDefinition.selected definition)
               else if String.eqb kind "urltest" then
                 definition ← lift (parse_urltest_definition outbound);
                 urltest_shape (shape fuel) tag (UrltestDefinition.members definition)
               else
                 match effective_detour outbound with
                 | None => mret Plain
                 | Some detour =>
                     s ← shape fuel detour;
                     if bool_decide (s = Urltest)
                     then raise (Fail (fmt ["outbound "; debug tag; " detour "; debug detour;
                            " selects urltest; shoes cannot embed active client-chain selection inside one proxy chain"]))
                     else mret Plain
                 end);
          _ ← modify <[tag := s]>;
          mret s
      end
  end.

(** [OutboundActionShapeValidator::validate] *)
Definition validate_shapes : fallible unit :=
  (for_in (btree_iter catalog).*1 (fun tag => _ ← shape MAX_OUTBOUND_REFERENCE_DEPTH tag; mret tt) ∅).2.

(** ** [validate_outbound_catalog] *)

Definition validate_outbound outbound : fallible unit :=
  if String.eqb (ValidatedOutbound.kind outbound) "urltest"
  then _ ← parse_urltest_definition outbound; Ok tt
  else
    match validate_client_outbound debug (ValidatedOutbound.kind outbound) (tag_of outbound)
            (ValidatedOutbound.options_ref outbound) catalog with
    | Ok _ => Ok tt
    | Err e => error ["compile outbound "; debug (tag_of outbound); ": "; e]
    end.

Definition validate_outbound_catalog : fallible unit :=
  _ ← mapM validate_outbound (btree_iter catalog).*2;
  _ ← validate_graph;
  validate_shapes.
End validators.
End graph.
