(* ===== verification/OutboundGraphSpec.v ===== *)
(** * The outbound catalog: what its validation establishes

    The depth-first search of [OutboundGraph.v] accepts exactly the catalogs whose
    references resolve and whose reference paths have at most 128 outbounds: in
    particular there is no cycle.  On such a catalog the shape pass terminates and
    accepts exactly the catalogs in which no group or proxy hop has an active URL test
    below it. *)

From Stdlib Require Import ZArith Lia.
From S2P Require Import Prelude Bytes Json Runtime OutboundAdapter OutboundGraph.

Open Scope Z_scope.

(** ** Code that does not panic *)

Definition no_panic {A} (r : fallible A) : Prop := forall e, r = Err e -> exists message, e = Fail message.

Lemma no_panic_ok {A} (a : A) : no_panic (Ok a).
Proof. done. Qed.
Lemma no_panic_ret {A} (a : A) : no_panic (mret a).
Proof. done. Qed.
Lemma no_panic_error {A} pieces : no_panic (A := A) (error pieces).
Proof. intros e [= <-]. by eexists. Qed.
Lemma no_panic_bind {A B} (r : fallible A) (f : A -> fallible B) :
  no_panic r -> (forall a, no_panic (f a)) -> no_panic (r ≫= f).
Proof. intros Hr Hf e. destruct r as [a|e']; cbn; [apply Hf|intros [= ->]; by apply Hr]. Qed.
#[export] Hint Resolve no_panic_ok no_panic_ret no_panic_error no_panic_bind : node.

Lemma no_panic_map_err {E A} (f : E -> string) (r : result E A) : no_panic (map_err (fun e => Fail (f e)) r).
Proof. destruct r as [a|e]; [done|]. intros e' [= <-]. by eexists. Qed.
Lemma no_panic_fail {A} message : no_panic (A := A) (Err (Fail message)).
Proof. intros e [= <-]. by eexists. Qed.
#[export] Hint Resolve no_panic_map_err no_panic_fail : node.

(** Every branch of the code returns, reports an error or is a call that does not panic. *)
Ltac no_panic :=
  repeat first
    [ solve [auto with node]
    | apply no_panic_bind; [|intros ?]
    | progress case_match ].

Section spec.
Context (debug : string -> string) (parse_go_duration : string -> result string Z) (catalog : catalog_t).

Local Abbreviation outbound_references := (outbound_references debug parse_go_duration).
Local Abbreviation visit := (visit debug parse_go_duration catalog).
Local Abbreviation visit_references := (visit_references debug catalog).
Local Abbreviation validate_graph := (validate_graph debug parse_go_duration catalog).

Lemma parse_members_no_panic kind tag index values : no_panic (parse_members debug kind tag index values).
Proof. revert index. induction values as [|v values IH]; intros index; cbn; no_panic. Qed.
#[local] Hint Resolve parse_members_no_panic : node.

Lemma parse_selector_no_panic outbound : no_panic (parse_selector_definition debug outbound).
Proof. unfold parse_selector_definition. no_panic. Qed.

Lemma parse_duration_no_panic tag value field d : no_panic (parse_urltest_duration debug parse_go_duration tag value field d).
Proof. unfold parse_urltest_duration. no_panic. Qed.
#[local] Hint Resolve parse_duration_no_panic : node.

Lemma parse_urltest_no_panic outbound : no_panic (parse_urltest_definition debug parse_go_duration outbound).
Proof. unfold parse_urltest_definition, parse_tolerance. no_panic. Qed.
#[local] Hint Resolve parse_selector_no_panic parse_urltest_no_panic : node.

Lemma outbound_references_no_panic outbound : no_panic (outbound_references outbound).
Proof. unfold OutboundGraph.outbound_references. no_panic. Qed.

(** ** Reference paths *)

Definition refers (a b : string) : Prop := exists outbound references reference,
  catalog !! a = Some outbound /\ outbound_references outbound = Ok references /\
  reference ∈ references /\ OutboundReference.target reference = b.

(** The references of an outbound can be read and resolve. *)
Definition resolved (tag : string) : Prop := exists outbound references,
  catalog !! tag = Some outbound /\ outbound_references outbound = Ok references /\
  forall reference, reference ∈ references -> is_Some (catalog !! OutboundReference.target reference).

Inductive path : list string -> Prop :=
  | path_one tag : path [tag]
  | path_cons a b l : refers a b -> path (b :: l) -> path (a :: b :: l).

(** What the validator is to accept. *)
Definition acceptable : Prop :=
  (forall tag, is_Some (catalog !! tag) -> resolved tag) /\
  (forall l, path l -> (length l <= MAX_OUTBOUND_REFERENCE_DEPTH)%nat).

Lemma path_join l1 tag l2 : path (l1 ++ [tag]) -> path (tag :: l2) -> path (l1 ++ tag :: l2).
Proof.
  intros H1 H2. induction l1 as [|a l1 IH]; [done|]. destruct l1 as [|b l1].
  - cbn in *. inv H1. by constructor.
  - cbn in H1. inv H1. cbn. constructor; [done|]. by apply IH.
Qed.

Lemma path_snoc l a b : path (l ++ [a]) -> refers a b -> path ((l ++ [a]) ++ [b]).
Proof. intros H Hr. rewrite <- app_assoc. apply path_join; [done|]. constructor; [done|constructor]. Qed.

Lemma path_drop l1 tag l2 : path (l1 ++ tag :: l2) -> path (tag :: l2).
Proof.
  induction l1 as [|a l1 IH]; [done|]. destruct l1 as [|b l1]; cbn; intros H; inv H; [done|]. by apply IH.
Qed.

(** A cycle gives paths of every length. *)
Lemma cycle_unbounded tag l : path (tag :: l ++ [tag]) -> ~ acceptable.
Proof.
  intros Hc [_ Hb].
  assert (forall n, exists l', path (l' ++ [tag]) /\ (n <= length l')%nat) as H.
  { induction n as [|n (l' & Hp & Hl)]; [exists []; split; [constructor|cbn; lia]|].
    exists (l' ++ tag :: l). split.
    - rewrite <- app_assoc. by apply path_join.
    - rewrite length_app. cbn. lia. }
  destruct (H (S MAX_OUTBOUND_REFERENCE_DEPTH)) as (l' & Hp & Hl).
  specialize (Hb _ Hp). rewrite length_app in Hb. cbn in Hb, Hl. lia.
Qed.

Lemma resolved_refers tag reference outbound references :
  catalog !! tag = Some outbound -> outbound_references outbound = Ok references -> reference ∈ references ->
  refers tag (OutboundReference.target reference).
Proof. intros. by exists outbound, references, reference. Qed.

(** The longest path from an outbound. *)
Definition height (tag : string) (depth : nat) : Prop :=
  resolved tag /\ (exists l, path (tag :: l) /\ S (length l) = depth) /\
  forall l, path (tag :: l) -> (S (length l) <= depth)%nat.

(** ** The search *)

Record search_inv (s : ReferenceGraphValidator) : Prop := {
  si_complete tag depth : states s !! tag = Some (Complete depth) -> height tag depth;
  si_bounded tag depth : states s !! tag = Some (Complete depth) -> (depth <= MAX_OUTBOUND_REFERENCE_DEPTH)%nat;
  si_visiting tag : states s !! tag = Some Visiting <-> tag ∈ stack s
}.

Definition keeps_complete (s s' : ReferenceGraphValidator) : Prop := forall tag depth,
  states s !! tag = Some (Complete depth) -> states s' !! tag = Some (Complete depth).

Definition refused (e : exn string) : Prop := (exists message, e = Fail message) /\ ~ acceptable.

Definition visit_post (tag : string) (s : ReferenceGraphValidator) (r : ReferenceGraphValidator * fallible nat) : Prop :=
  match r with
  | (s', Ok depth) =>
      search_inv s' /\ stack s' = stack s /\ keeps_complete s s' /\ states s' !! tag = Some (Complete depth)
  | (_, Err e) => refused e
  end.

Lemma visit_references_spec go tag st references s max :
  (forall target s, search_inv s -> stack s = st ++ [tag] -> path (stack s ++ [target]) -> is_Some (catalog !! target) ->
     visit_post target s (go target s)) ->
  search_inv s -> stack s = st ++ [tag] -> path (st ++ [tag]) ->
  (forall reference, reference ∈ references -> refers tag (OutboundReference.target reference)) ->
  match visit_references go tag references max s with
  | (s', Ok depth) =>
      search_inv s' /\ stack s' = stack s /\ keeps_complete s s' /\ (max <= depth)%nat /\
      (depth = max \/ exists r, r ∈ references /\ states s' !! OutboundReference.target r = Some (Complete depth)) /\
      (forall r, r ∈ references -> exists d, states s' !! OutboundReference.target r = Some (Complete d) /\ (d <= depth)%nat)
  | (_, Err e) => refused e
  end.
Proof.
  intros Hgo. revert s max. induction references as [|r references IH]; intros s max Hi Hl Hp Hr.
  { cbn. split_and!; [done|done|by intros ??|lia|by left|set_solver]. }
  cbn [OutboundGraph.visit_references]. destruct (catalog !! _) as [o|] eqn:Hc.
  2:{ split; [by eexists|]. intros [Ha _].
      destruct (Hr r) as (o & rs & r' & Ho & Hrs & Hin & Ht); [by left|].
      destruct (Ha tag ltac:(by eexists)) as (o' & rs' & Ho' & Hrs' & Hall). same_ok.
      destruct (Hall _ Hin) as [? E]. rewrite Ht in E. congruence. }
  unfold mbind, stm_bind.
  specialize (Hgo (OutboundReference.target r) s Hi Hl) as H.
  assert (path (stack s ++ [OutboundReference.target r])) as Hp' by (rewrite Hl; apply path_snoc; [done|apply Hr; by left]).
  specialize (H Hp' ltac:(by eexists)).
  destruct (go _ s) as [s1 [d|e]]; [|done]. destruct H as (Hi1 & Hst & Hk & Hd).
  specialize (IH s1 (Nat.max max d) Hi1 ltac:(congruence) Hp ltac:(intros; apply Hr; by right)).
  destruct (visit_references _ _ _ _ s1) as [s2 [m|e]]; [|done].
  destruct IH as (Hi2 & Hst2 & Hk2 & Hle & Hm & Hall).
  split_and!; [done|congruence|unfold keeps_complete in *; eauto|lia| |].
  - destruct Hm as [->|(r' & Hin & Hm)]; [|right; exists r'; split; [by right|done]].
    destruct (Nat.max_spec max d) as [[? ->]|[? ->]]; [right; exists r; split; [by left|]; by apply Hk2|by left].
  - intros r' [->|Hin]%elem_of_cons; [|by apply Hall]. exists d. split; [by apply Hk2|lia].
Qed.

Lemma pop_snoc s st tag : stack s = st ++ [tag] -> pop s = mkGraph (states s) st.
Proof.
  intros H. unfold pop. rewrite H, length_app. cbn.
  replace (length st + 1 - 1)%nat with (length st) by lia. by rewrite take_app_length.
Qed.

Lemma height_of tag outbound references m :
  catalog !! tag = Some outbound -> outbound_references outbound = Ok references ->
  (forall r, r ∈ references -> exists d, height (OutboundReference.target r) d /\ (d <= m)%nat) ->
  (m = 0%nat \/ exists r, r ∈ references /\ height (OutboundReference.target r) m) ->
  height tag (m + 1).
Proof.
  intros Ho Hrs Hall Hm. split_and!.
  - exists outbound, references. split_and!; [done..|]. intros r Hr. destruct (Hall r Hr) as (d & [[o' (? & -> & _)] _] & _). by eexists.
  - destruct Hm as [->|(r & Hr & _ & (l & Hp & Hl) & _)]; [exists []; split; [constructor|done]|].
    exists (OutboundReference.target r :: l). split; [|cbn; lia]. constructor; [|done]. by eapply resolved_refers.
  - intros l Hp. inv Hp as [|? b l' (o' & rs' & r & Ho' & Hrs' & Hr & <-) Hp']; [cbn; lia|]. same_ok.
    destruct (Hall r Hr) as (d & (_ & _ & Hle) & Hd). specialize (Hle _ Hp'). cbn. lia.
Qed.

Lemma keeps_complete_refl s : keeps_complete s s.
Proof. by intros ??. Qed.

Lemma keeps_complete_trans s1 s2 s3 : keeps_complete s1 s2 -> keeps_complete s2 s3 -> keeps_complete s1 s3.
Proof. unfold keeps_complete. eauto. Qed.

Lemma visiting_refused tag s :
  search_inv s -> path (stack s ++ [tag]) -> states s !! tag = Some Visiting ->
  exists cycle_start, position (String.eqb tag) (stack s) = Some cycle_start /\ ~ acceptable.
Proof.
  intros Hi Hp Hs. apply (si_visiting _ Hi), list_elem_of_split in Hs as (l1 & l2 & Hl).
  destruct (position (String.eqb tag) (stack s)) eqn:Hpos.
  - eexists. split; [done|]. rewrite Hl, <- app_assoc in Hp. cbn in Hp. by eapply cycle_unbounded, path_drop.
  - apply find_first_position in Hpos. rewrite find_first_None in Hpos. specialize (Hpos tag).
    rewrite String.eqb_refl, Hl in Hpos. set_solver.
Qed.

(** Entering an outbound: it becomes [Visiting] and the last of the stack. *)
Lemma enter_inv tag s :
  search_inv s -> states s !! tag = None -> search_inv (push tag (set_state tag Visiting s)).
Proof.
  intros Hi Hs. split; cbn; intros t.
  - intros depth. destruct (decide (t = tag)) as [->|]; [by rewrite lookup_insert_eq|].
    rewrite lookup_insert_ne by done. apply (si_complete _ Hi).
  - intros depth. destruct (decide (t = tag)) as [->|]; [by rewrite lookup_insert_eq|].
    rewrite lookup_insert_ne by done. apply (si_bounded _ Hi).
  - destruct (decide (t = tag)) as [->|].
    + rewrite lookup_insert_eq. set_solver.
    + rewrite lookup_insert_ne by done. rewrite (si_visiting _ Hi). set_solver.
Qed.

Lemma leave_inv tag depth s st :
  search_inv (mkGraph s (st ++ [tag])) -> tag ∉ st -> height tag depth ->
  (depth <= MAX_OUTBOUND_REFERENCE_DEPTH)%nat ->
  search_inv (set_state tag (Complete depth) (mkGraph s st)).
Proof.
  intros Hi Hst Hh Hle. split; cbn; intros t.
  - intros d. destruct (decide (t = tag)) as [->|]; [rewrite lookup_insert_eq; by intros [= <-]|].
    rewrite lookup_insert_ne by done. apply (si_complete _ Hi).
  - intros d. destruct (decide (t = tag)) as [->|]; [rewrite lookup_insert_eq; by intros [= <-]|].
    rewrite lookup_insert_ne by done. apply (si_bounded _ Hi).
  - destruct (decide (t = tag)) as [->|]; [rewrite lookup_insert_eq; split; [done|set_solver]|].
    rewrite lookup_insert_ne by done. rewrite (si_visiting _ Hi t). cbn. set_solver.
Qed.

Lemma visit_unfold fuel tag : visit fuel tag =
  (self ← get;
   match states self !! tag with
   | Some (Complete depth) => mret depth
   | Some Visiting =>
       match position (String.eqb tag) (stack self) with
       | None => raise (Panic "a visiting outbound is present on the DFS stack")
       | Some cycle_start =>
           raise (Fail (fmt ["outbound reference cycle: "; join " -> " (drop cycle_start (stack self) ++ [tag])]))
       end
   | None =>
       if (MAX_OUTBOUND_REFERENCE_DEPTH <=? length (stack self))%nat
       then raise (Fail (fmt ["outbound reference depth exceeds maximum "; show_max; ": "; join " -> " (stack self ++ [tag])]))
       else
         match fuel with
         | O => raise (Panic "out of fuel")
         | S fuel =>
             outbound ← lift (expected "graph traversal only starts from catalog tags" (catalog !! tag));
             references ← lift (outbound_references outbound);
             _ ← modify (set_state tag Visiting);
             _ ← modify (push tag);
             max_child_depth ← visit_references (visit fuel) tag references 0;
             _ ← modify pop;
             let depth := (max_child_depth + 1)%nat in
             if (MAX_OUTBOUND_REFERENCE_DEPTH <? depth)%nat
             then raise (Fail (fmt ["outbound reference depth from "; debug tag; " is "; to_dec (Z.of_nat depth);
                                    ", exceeding maximum "; show_max]))
             else _ ← modify (set_state tag (Complete depth)); mret depth
         end
   end).
Proof. by destruct fuel. Qed.

Lemma visit_spec fuel tag s :
  search_inv s -> path (stack s ++ [tag]) -> is_Some (catalog !! tag) ->
  (MAX_OUTBOUND_REFERENCE_DEPTH <= fuel + length (stack s))%nat -> visit_post tag s (visit fuel tag s).
Proof.
  revert tag s. induction fuel as [fuel IH] using lt_wf_ind. intros tag s Hi Hp [outbound Ho] Hf.
  rewrite visit_unfold. unfold mbind at 1, stm_bind at 1, get.
  destruct (states s !! tag) as [[|depth]|] eqn:Hs.
  { destruct (visiting_refused _ _ Hi Hp Hs) as (i & -> & Hna). split; [by eexists|done]. }
  { cbn. split_and!; [done|done|apply keeps_complete_refl|done]. }
  destruct (_ <=? _)%nat eqn:Hd.
  { split; [by eexists|]. intros [_ Hb]. specialize (Hb _ Hp). rewrite length_app in Hb. cbn in Hb.
    apply Nat.leb_le in Hd. lia. }
  apply Nat.leb_gt in Hd. destruct fuel as [|fuel]; [lia|].
  rewrite Ho. unfold lift, expected, ok_or, modify. unfold mbind at 1, stm_bind at 1. unfold mbind at 1, stm_bind at 1.
  destruct (outbound_references outbound) as [references|e] eqn:Hrs.
  2:{ split; [by apply (outbound_references_no_panic outbound)|]. intros [Ha _].
      destruct (Ha tag ltac:(by eexists)) as (? & ? & ? & ? & _). same_ok. }
  unfold mbind at 1, stm_bind at 1. unfold mbind at 1, stm_bind at 1.
  set (s1 := push tag (set_state tag Visiting s)).
  assert (tag ∉ stack s) as Hn by (rewrite <- (si_visiting _ Hi); congruence).
  opose proof* (visit_references_spec (visit fuel) tag (stack s) references s1 0) as H;
    [|by apply enter_inv|done|done|intros; by eapply resolved_refers|].
  { intros target s' Hi' Hst' Hp' Hc'. apply IH; [lia|done..|]. rewrite Hst', length_app. cbn. lia. }
  unfold mbind at 1, stm_bind at 1. unfold mbind at 1, stm_bind at 1. cbv beta.
  destruct (visit_references (visit fuel) tag references 0 s1) as [s2 [m|e]]; [|done].
  destruct H as (Hi2 & Hst2 & Hk2 & _ & Hm & Hall).
  assert (height tag (m + 1)) as Hh.
  { eapply height_of; [done|done| |].
    - intros r Hr. destruct (Hall r Hr) as (d & Hc & ?). exists d. split; [by apply (si_complete _ Hi2)|done].
    - destruct Hm as [->|(r & Hr & Hc)]; [by left|right]. exists r. split; [done|]. by apply (si_complete _ Hi2). }
  change (stack s1) with (stack s ++ [tag]) in Hst2.
  rewrite (pop_snoc _ _ _ Hst2).
  cbv zeta. destruct (_ <? _)%nat eqn:Hdep.
  { split; [by eexists|]. intros [_ Hb]. destruct Hh as (_ & (l & Hl & Hlen) & _). specialize (Hb _ Hl).
    apply Nat.ltb_lt in Hdep. cbn [length] in Hb. lia. }
  unfold mbind, stm_bind, mret, stm_ret, visit_post. cbn. split_and!; [|done| |by rewrite lookup_insert_eq].
  - apply Nat.ltb_ge in Hdep. apply leave_inv; [|done..]. by destruct s2; cbn in *; subst.
  - intros t d Ht. cbn. destruct (decide (t = tag)) as [->|]; [congruence|].
    rewrite lookup_insert_ne by done. apply Hk2. cbn. by rewrite lookup_insert_ne.
Qed.

(** *** The whole catalog *)

Lemma new_graph_inv : search_inv new_graph.
Proof.
  split; cbn; [intros ?? H|intros ?? H|intros ?]; [by rewrite lookup_empty in H..|].
  rewrite lookup_empty. set_solver.
Qed.

Lemma validate_loop tags s :
  (forall tag, tag ∈ tags -> is_Some (catalog !! tag)) -> search_inv s -> stack s = [] ->
  match for_in tags (fun tag => _ ← visit MAX_OUTBOUND_REFERENCE_DEPTH tag; mret tt) s with
  | (s', Ok _) => search_inv s' /\ keeps_complete s s' /\ forall tag, tag ∈ tags -> exists d, states s' !! tag = Some (Complete d)
  | (_, Err e) => refused e
  end.
Proof.
  revert s. induction tags as [|tag tags IH]; intros s Hc Hi Hst.
  { cbn. split_and!; [done|apply keeps_complete_refl|set_solver]. }
  cbn [for_in]. unfold mbind at 1, stm_bind at 1. unfold mbind, stm_bind, mret, stm_ret. cbv beta.
  pose proof (visit_spec MAX_OUTBOUND_REFERENCE_DEPTH tag s Hi) as H. unfold visit_post in H.
  rewrite Hst in H. specialize (H (path_one _) ltac:(apply Hc; by left) ltac:(cbn [length]; lia)).
  destruct (visit MAX_OUTBOUND_REFERENCE_DEPTH tag s) as [s1 [d|e]]; [|done].
  destruct H as (Hi1 & Hst1 & Hk1 & Hd).
  specialize (IH s1 ltac:(intros; apply Hc; by right) Hi1 Hst1).
  destruct (for_in tags _ s1) as [s2 [[]|e]]; [|done]. destruct IH as (Hi2 & Hk2 & Hall).
  split_and!; [done|by eapply keeps_complete_trans|].
  intros t [->|Ht]%elem_of_cons; [|by apply Hall]. exists d. by apply Hk2.
Qed.

Lemma validate_graph_spec :
  (validate_graph = Ok tt <-> acceptable) /\ no_panic validate_graph.
Proof.
  unfold OutboundGraph.validate_graph.
  opose proof* (validate_loop (btree_iter catalog).*1 new_graph) as H; [|apply new_graph_inv|done|].
  { intros tag ([t o] & -> & Hin)%list_elem_of_fmap. apply elem_of_btree_iter in Hin. by eexists. }
  destruct (for_in _ _ new_graph) as [s [[]|e]]; cbn.
  - split; [|done]. split; [|done]. intros _. destruct H as (Hi & _ & Hall).
    assert (forall tag, is_Some (catalog !! tag) -> exists d, height tag d /\ (d <= MAX_OUTBOUND_REFERENCE_DEPTH)%nat) as Hh.
    { intros tag [o Ho]. destruct (Hall tag) as [d Hd]; [|exists d; split; [by apply (si_complete _ Hi)|by eapply (si_bounded _ Hi)]].
      apply (list_elem_of_fmap_2 fst _ (tag, o)). by apply elem_of_btree_iter. }
    split; [intros tag Hc; destruct (Hh tag Hc) as (d & [Hr _] & _); done|].
    intros l Hl. destruct Hl as [|a b l (o & rs & r & Ho & Hrs) Hl]; [cbn; unfold MAX_OUTBOUND_REFERENCE_DEPTH; lia|].
    destruct (Hh a) as (d & (_ & _ & Hle) & Hd); [by eexists|].
    specialize (Hle (b :: l)). cbn [length] in Hle |- *. specialize (Hle ltac:(constructor; [by exists o, rs, r|done])). lia.
  - destruct H as [Hm Hna]. split; [split; [done|by intros ?%Hna]|]. by intros e' [= <-].
Qed.

(** ** What an outbound stands for *)

(** The outbound reached by following the selected members. *)
Inductive selects : string -> ValidatedOutbound.t -> Prop :=
  | selects_here tag outbound :
      catalog !! tag = Some outbound -> ValidatedOutbound.kind outbound <> "selector" -> selects tag outbound
  | selects_via tag outbound definition terminal :
      catalog !! tag = Some outbound -> ValidatedOutbound.kind outbound = "selector" ->
      parse_selector_definition debug outbound = Ok definition ->
      selects (SelectorDefinition.selected definition) terminal -> selects tag terminal.

Lemma selects_fun tag t1 t2 : selects tag t1 -> selects tag t2 -> t1 = t2.
Proof. intros H. revert t2. induction H; inversion 1; same_ok; eauto; congruence. Qed.

Lemma selects_kind tag t : selects tag t -> ValidatedOutbound.kind t <> "selector".
Proof. by induction 1. Qed.

Definition shape_of (terminal : ValidatedOutbound.t) : OutboundActionShape :=
  if String.eqb (ValidatedOutbound.kind terminal) "urltest" then Urltest else Plain.

(** An outbound has no active URL test where one cannot run: among the members of a
    URL test, or behind a proxy hop. *)
Definition allowed (tag : string) : Prop := forall outbound, catalog !! tag = Some outbound ->
  (ValidatedOutbound.kind outbound = "urltest" -> forall definition member terminal,
     parse_urltest_definition debug parse_go_duration outbound = Ok definition ->
     member ∈ UrltestDefinition.members definition -> selects member terminal -> shape_of terminal = Plain) /\
  (ValidatedOutbound.kind outbound <> "selector" -> ValidatedOutbound.kind outbound <> "urltest" -> forall detour terminal,
     effective_detour outbound = Some detour -> selects detour terminal -> shape_of terminal = Plain).

Definition acceptable_shapes : Prop := forall tag, allowed tag.

Lemma parse_selector_selected outbound definition :
  parse_selector_definition debug outbound = Ok definition ->
  SelectorDefinition.selected definition ∈ SelectorDefinition.members definition.
Proof.
  unfold parse_selector_definition. destruct (Value.as_object _) as [fields|]; [|done].
  destruct (Map.get "outbounds" fields ≫= _) as [values|]; [|done].
  intros (members & _ & H)%bind_Ok. destruct members as [|m ms]; [done|].
  apply bind_Ok in H as ([c|] & _ & H); [case_bool_decide; [|done]|]; injection H as <-; cbn; set_solver.
Qed.

Lemma refers_selected tag outbound definition member :
  catalog !! tag = Some outbound -> ValidatedOutbound.kind outbound = "selector" ->
  parse_selector_definition debug outbound = Ok definition ->
  member ∈ SelectorDefinition.members definition -> refers tag member.
Proof.
  intros Ho Hk Hd Hm. exists outbound, (OutboundReference.SelectorMember <$> SelectorDefinition.members definition),
    (OutboundReference.SelectorMember member).
  split_and!; [done| |by apply list_elem_of_fmap_2|done].
  unfold OutboundGraph.outbound_references. by rewrite Hk, Hd.
Qed.

Lemma refers_member tag outbound definition member :
  catalog !! tag = Some outbound -> ValidatedOutbound.kind outbound = "urltest" ->
  parse_urltest_definition debug parse_go_duration outbound = Ok definition ->
  member ∈ UrltestDefinition.members definition -> refers tag member.
Proof.
  intros Ho Hk Hd Hm. exists outbound, (OutboundReference.UrltestMember <$> UrltestDefinition.members definition),
    (OutboundReference.UrltestMember member).
  split_and!; [done| |by apply list_elem_of_fmap_2|done].
  unfold OutboundGraph.outbound_references. by rewrite Hk, Hd.
Qed.

Lemma refers_detour tag outbound detour :
  catalog !! tag = Some outbound -> ValidatedOutbound.kind outbound <> "selector" ->
  ValidatedOutbound.kind outbound <> "urltest" -> effective_detour outbound = Some detour -> refers tag detour.
Proof.
  intros Ho Hs Hu Hd. exists outbound, [OutboundReference.Detour detour], (OutboundReference.Detour detour).
  split_and!; [done| |set_solver|done]. unfold OutboundGraph.outbound_references.
  by rewrite (proj2 (String.eqb_neq _ _) Hs), (proj2 (String.eqb_neq _ _) Hu), Hd.
Qed.

(** Every reference path from [tag] has at most [n] outbounds. *)
Definition within (n : nat) (tag : string) : Prop := forall l, path (tag :: l) -> (S (length l) <= n)%nat.

Lemma within_refers n a b : within (S n) a -> refers a b -> within n b.
Proof. intros Hw Hr l Hl. specialize (Hw (b :: l) ltac:(by constructor)). cbn in Hw. lia. Qed.

Lemma within_pos n a : within n a -> (0 < n)%nat.
Proof. intros Hw. specialize (Hw [] (path_one _)). cbn in Hw. lia. Qed.

Section acceptable.
Hypothesis Hacc : acceptable.

Lemma acceptable_within tag : within MAX_OUTBOUND_REFERENCE_DEPTH tag.
Proof. intros l Hl. by apply (proj2 Hacc) in Hl. Qed.

Lemma refers_known a b : refers a b -> is_Some (catalog !! b).
Proof.
  intros (o & rs & r & Ho & Hrs & Hin & <-). destruct (proj1 Hacc a ltac:(by eexists)) as (o' & rs' & Ho' & Hrs' & Hall).
  same_ok. by apply Hall.
Qed.

Lemma acceptable_selector tag outbound :
  catalog !! tag = Some outbound -> ValidatedOutbound.kind outbound = "selector" ->
  exists definition, parse_selector_definition debug outbound = Ok definition.
Proof.
  intros Ho Hk. destruct (proj1 Hacc tag ltac:(by eexists)) as (o & rs & Ho' & Hrs & _). same_ok.
  unfold OutboundGraph.outbound_references in Hrs. rewrite Hk in Hrs. cbn in Hrs.
  apply bind_Ok in Hrs as (d & Hd & _). by exists d.
Qed.

Lemma acceptable_urltest tag outbound :
  catalog !! tag = Some outbound -> ValidatedOutbound.kind outbound = "urltest" ->
  exists definition, parse_urltest_definition debug parse_go_duration outbound = Ok definition.
Proof.
  intros Ho Hk. destruct (proj1 Hacc tag ltac:(by eexists)) as (o & rs & Ho' & Hrs & _). same_ok.
  unfold OutboundGraph.outbound_references in Hrs. rewrite Hk in Hrs. cbn in Hrs.
  apply bind_Ok in Hrs as (d & Hd & _). by exists d.
Qed.

(** In an acceptable catalog every tag stands for one outbound. *)
Lemma selects_total tag : is_Some (catalog !! tag) -> exists terminal, selects tag terminal.
Proof.
  pose proof (acceptable_within tag) as Hw. revert tag Hw.
  induction MAX_OUTBOUND_REFERENCE_DEPTH as [|n IH]; intros tag Hw [o Ho]; [apply within_pos in Hw; lia|].
  destruct (decide (ValidatedOutbound.kind o = "selector")) as [Hk|Hk]; [|exists o; by constructor].
  destruct (acceptable_selector tag o Ho Hk) as [d Hd].
  assert (refers tag (SelectorDefinition.selected d)) as Hr by (eapply refers_selected; eauto using parse_selector_selected).
  destruct (IH (SelectorDefinition.selected d)) as [t Ht]; [by eapply within_refers|by eapply refers_known|].
  exists t. by eapply selects_via.
Qed.

(** *** The shape pass *)

Local Abbreviation shape := (shape debug parse_go_duration catalog).

Definition shapes_inv (completed : gmap string OutboundActionShape) : Prop := forall tag s,
  completed !! tag = Some s -> allowed tag /\ exists terminal, selects tag terminal /\ shape_of terminal = s.

Definition shape_post (tag : string) (completed : gmap string OutboundActionShape)
    (r : gmap string OutboundActionShape * fallible OutboundActionShape) : Prop :=
  match r with
  | (completed', Ok s) => shapes_inv completed' /\ completed ⊆ completed' /\ completed' !! tag = Some s
  | (_, Err e) => (exists message, e = Fail message) /\ ~ acceptable_shapes
  end.

Lemma shape_post_selects tag completed completed' s terminal :
  shape_post tag completed (completed', Ok s) -> selects tag terminal -> shape_of terminal = s.
Proof. intros (Hi & _ & Hs) Ht. destruct (Hi _ _ Hs) as (_ & t & Ht' & <-). by rewrite (selects_fun _ _ _ Ht Ht'). Qed.

Lemma urltest_shape_spec go tag outbound definition members completed :
  (forall member completed, member ∈ members -> shapes_inv completed -> shape_post member completed (go member completed)) ->
  catalog !! tag = Some outbound -> ValidatedOutbound.kind outbound = "urltest" ->
  parse_urltest_definition debug parse_go_duration outbound = Ok definition ->
  members ⊆ UrltestDefinition.members definition -> shapes_inv completed ->
  match urltest_shape debug go tag members completed with
  | (completed', Ok s) =>
      s = Urltest /\ shapes_inv completed' /\ completed ⊆ completed' /\
      forall member terminal, member ∈ members -> selects member terminal -> shape_of terminal = Plain
  | (_, Err e) => (exists message, e = Fail message) /\ ~ acceptable_shapes
  end.
Proof.
  intros Hgo Ho Hk Hd. revert completed. induction members as [|m members IH]; intros completed Hsub Hi.
  { cbn. split_and!; [done|done|done|set_solver]. }
  cbn [urltest_shape]. unfold mbind, stm_bind. pose proof (Hgo m completed ltac:(by left) Hi) as Hm.
  destruct (go m completed) as [c1 [s|e]]; [|done]. cbv beta.
  assert (refers tag m) as Hr by (eapply refers_member; eauto; set_solver).
  destruct (selects_total m (refers_known _ _ Hr)) as [t Ht].
  pose proof (shape_post_selects _ _ _ _ _ Hm Ht) as Hs. destruct Hm as (Hi1 & Hsub1 & _).
  case_bool_decide as Hu.
  { split; [by eexists|]. intros Ha. destruct (Ha tag _ Ho) as [Hm _].
    specialize (Hm Hk _ m t Hd ltac:(set_solver) Ht). congruence. }
  specialize (IH ltac:(intros; apply Hgo; [by right|done]) c1 ltac:(set_solver) Hi1).
  destruct (urltest_shape debug go tag members c1) as [c2 [s2|e]]; [|done].
  destruct IH as (-> & Hi2 & Hsub2 & Hall). split_and!; [done|done|by etrans|].
  intros m' t' [->|Hin]%elem_of_cons Ht'; [|by eapply Hall]. rewrite (selects_fun _ _ _ Ht' Ht).
  rewrite Hs. by destruct s.
Qed.

Lemma shape_record tag completed terminal :
  shapes_inv completed -> allowed tag -> selects tag terminal -> completed !! tag = None ->
  shape_post tag completed (<[tag := shape_of terminal]> completed, Ok (shape_of terminal)).
Proof.
  intros Hi Ha Ht Hn. split_and!; [|by apply insert_subseteq|by rewrite lookup_insert_eq].
  intros t s. destruct (decide (t = tag)) as [->|]; [rewrite lookup_insert_eq; intros [= <-]; eauto|].
  rewrite lookup_insert_ne by done. apply Hi.
Qed.

(** Recording after nested calls have extended the map: the tag may have been
    recorded only with the same shape. *)
Lemma shape_record_after tag completed completed' terminal :
  shapes_inv completed' -> completed ⊆ completed' -> allowed tag -> selects tag terminal ->
  completed !! tag = None ->
  shape_post tag completed (<[tag := shape_of terminal]> completed', Ok (shape_of terminal)).
Proof.
  intros Hi Hsub Ha Ht Hn. split_and!; [| |by rewrite lookup_insert_eq].
  - intros t s. destruct (decide (t = tag)) as [->|]; [rewrite lookup_insert_eq; intros [= <-]; eauto|].
    rewrite lookup_insert_ne by done. apply Hi.
  - apply map_subseteq_spec. intros t s Hs. rewrite lookup_insert_ne; [by eapply lookup_weaken|congruence].
Qed.

Lemma shape_spec fuel tag completed :
  is_Some (catalog !! tag) -> within fuel tag -> shapes_inv completed ->
  shape_post tag completed (shape fuel tag completed).
Proof.
  revert tag completed. induction fuel as [|fuel IH]; intros tag completed [o Ho] Hw Hi;
    [by apply within_pos in Hw; lia|].
  cbn [OutboundGraph.shape]. unfold mbind at 1, stm_bind at 1, get.
  destruct (completed !! tag) as [s|] eqn:Hs; [split_and!; [done..|apply Hs]|].
  assert (Hgo : forall b completed, refers tag b -> shapes_inv completed -> shape_post b completed (shape fuel b completed)).
  { intros b c Hr Hc. apply IH; [by eapply refers_known|by eapply within_refers|done]. }
  rewrite Ho. unfold lift, expected, ok_or. unfold mbind at 1, stm_bind at 1.
  destruct (selects_total tag (ex_intro _ o Ho)) as [terminal Ht].
  destruct (String.eqb_spec (ValidatedOutbound.kind o) "selector") as [Hk|Hk].
  { destruct (acceptable_selector tag o Ho Hk) as [d Hd]. rewrite Hd.
    assert (refers tag (SelectorDefinition.selected d)) as Hr by (eapply refers_selected; eauto using parse_selector_selected).
    assert (selects (SelectorDefinition.selected d) terminal) as Ht'.
    { inversion Ht as [? o' Ho'|? o' d' ? Ho' ? Hd']; subst; same_ok; done. }
    specialize (Hgo _ completed Hr Hi). unfold mbind, stm_bind, modify, mret, stm_ret.
    destruct (shape fuel _ completed) as [c1 [s|e]]; [|done].
    pose proof (shape_post_selects _ _ _ _ _ Hgo Ht') as <-. destruct Hgo as (Hi1 & Hsub & _).
    apply shape_record_after; try done. intros o' Ho'. simplify_eq. split; congruence. }
  destruct (String.eqb_spec (ValidatedOutbound.kind o) "urltest") as [Hu|Hu].
  { destruct (acceptable_urltest tag o Ho Hu) as [d Hd]. rewrite Hd.
    pose proof (urltest_shape_spec (shape fuel) tag o d (UrltestDefinition.members d) completed) as H.
    specialize (H ltac:(intros; apply Hgo; [by eapply refers_member|done]) Ho Hu Hd ltac:(done) Hi).
    unfold mbind, stm_bind, modify, mret, stm_ret.
    destruct (urltest_shape debug _ tag _ completed) as [c1 [s|e]]; [|done]. destruct H as (-> & Hi1 & Hsub & Hall).
    assert (shape_of o = Urltest) as <- by (unfold shape_of; by rewrite Hu).
    apply shape_record_after; try done; [|by constructor].
    intros o' Ho'. simplify_eq. split; [|done]. intros _ d' m t Hd'. same_ok. apply Hall. }
  assert (shape_of o = Plain) as Hp by (unfold shape_of; by rewrite (proj2 (String.eqb_neq _ _) Hu)).
  destruct (effective_detour o) as [detour|] eqn:Hd.
  2:{ unfold mbind, stm_bind, modify, mret, stm_ret. rewrite <- Hp. apply shape_record; try done; [|by constructor].
      intros o' Ho'. simplify_eq. split; [done|]. intros _ _ d t Hd'. congruence. }
  assert (refers tag detour) as Hr by (by eapply refers_detour).
  destruct (selects_total detour (refers_known _ _ Hr)) as [t Ht'].
  specialize (Hgo detour completed Hr Hi). unfold mbind, stm_bind, modify, mret, stm_ret.
  destruct (shape fuel detour completed) as [c1 [s|e]]; [|done].
  pose proof (shape_post_selects _ _ _ _ _ Hgo Ht') as Hs'. destruct Hgo as (Hi1 & Hsub & _).
  case_bool_decide as Hx.
  - split; [by eexists|]. intros Ha. destruct (Ha tag o Ho) as [_ H]. specialize (H Hk Hu detour t Hd Ht'). congruence.
  - rewrite <- Hp. apply shape_record_after; try done; [|by constructor].
    intros o' Ho'. simplify_eq. split; [done|]. intros _ _ d t' Hd' Hsel. simplify_eq.
    rewrite (selects_fun _ _ _ Hsel Ht'). by destruct (shape_of t).
Qed.

Lemma shapes_loop fuel tags completed :
  (forall tag, within fuel tag) ->
  (forall tag, tag ∈ tags -> is_Some (catalog !! tag)) -> shapes_inv completed ->
  match for_in tags (fun tag => _ ← shape fuel tag; mret tt) completed with
  | (completed', Ok _) => completed ⊆ completed' /\ forall tag, tag ∈ tags -> allowed tag
  | (_, Err e) => (exists message, e = Fail message) /\ ~ acceptable_shapes
  end.
Proof.
  intros Hw. revert completed. induction tags as [|tag tags IH]; intros completed Hc Hi; [cbn; split; [done|set_solver]|].
  cbn [for_in]. unfold mbind, stm_bind, mret, stm_ret. cbv beta.
  pose proof (shape_spec fuel tag completed ltac:(apply Hc; by left) (Hw tag) Hi) as H.
  destruct (shape fuel tag completed) as [c1 [s|e]]; [|done].
  destruct H as (Hi1 & Hsub & Hs).
  specialize (IH c1 ltac:(intros; apply Hc; by right) Hi1).
  destruct (for_in tags _ c1) as [c2 [[]|e]]; [|done]. destruct IH as (Hsub2 & Hall).
  split; [by etrans|]. intros t [->|Ht]%elem_of_cons; [by apply (Hi1 _ s)|by apply Hall].
Qed.

Lemma validate_shapes_spec :
  (validate_shapes debug parse_go_duration catalog = Ok tt <-> acceptable_shapes) /\
  no_panic (validate_shapes debug parse_go_duration catalog).
Proof.
  unfold validate_shapes. opose proof* (shapes_loop MAX_OUTBOUND_REFERENCE_DEPTH (btree_iter catalog).*1 ∅) as H; [apply acceptable_within| | |].
  { intros tag ([t o] & -> & Hin)%list_elem_of_fmap. apply elem_of_btree_iter in Hin. by eexists. }
  { intros t s Hs. by rewrite lookup_empty in Hs. }
  destruct (for_in _ _ ∅) as [s [[]|e]]; cbn.
  - split; [|done]. split; [|done]. intros _ tag o Ho. refine (proj2 H tag _ o Ho).
    apply (list_elem_of_fmap_2 fst _ (tag, o)). by apply elem_of_btree_iter.
  - destruct H as [Hm Hna]. split; [split; [done|by intros ?%Hna]|]. by intros e' [= <-].
Qed.

(** C14. On a catalog whose reference graph is valid the shape pass terminates, and accepts
    exactly the catalogs in which no active URL test is a member of another or behind a
    proxy hop. *)
Theorem shape_pass_exact :
  (validate_shapes debug parse_go_duration catalog = Ok tt <-> acceptable_shapes) /\
  no_panic (validate_shapes debug parse_go_duration catalog).
Proof. apply validate_shapes_spec. Qed.
End acceptable.

(** C13. The reference validator accepts exactly the catalogs whose references resolve and
    whose reference paths have at most 128 outbounds (so there is no cycle); it refuses
    the others with an error, and neither panics nor runs out of its recursion bound. *)
Theorem reference_graph_exact :
  (validate_graph = Ok tt <-> acceptable) /\ no_panic validate_graph.
Proof. apply validate_graph_spec. Qed.
End spec.
