(* ===== verification/OutboundChains.v ===== *)
(** * Compiling the outbounds of a validated catalog

    The validation pass runs the adapter on every outbound without following its
    references.  In a catalog that it, the graph pass and the shape pass accept, the
    adapter compiles every outbound that does not stand for a URL test, whatever is in
    the selector cache: the chain is the outbound's own hop behind the chain of its
    detour, and selectors stand for their selected member. *)

From Stdlib Require Import ZArith Lia.
From S2P Require Import Prelude Bytes Json Runtime OutboundAdapter OutboundGraph OutboundGraphSpec.

Open Scope Z_scope.

Local Abbreviation method A := (stm SelectorProjectionCache string A).

(** ** The adapter with and without references *)

(** A run that succeeds without following references: the same run with any DNS
    resolver gives one hop, and following references puts the chain of the detour
    before it. *)
Section tracks.
Context (compile_ref : OutboundRef.t -> method Chain) (detour : option OutboundRef.t).

Definition behind (hop : Value.t) : method Chain :=
  match detour with
  | None => mret [hop]
  | Some outbound => chain ← compile_ref outbound; mret (chain ++ [hop])
  end.

Definition tracks (m0 m mt : method Chain) : Prop := forall s0 hops,
  (m0 s0).2 = Ok hops -> exists hop, (forall s, m s = (s, Ok [hop])) /\ (forall s, mt s = behind hop s).

Lemma tracks_lift {A} (r : result string A) f0 f ft :
  (forall a, r = Ok a -> tracks (f0 a) (f a) (ft a)) ->
  tracks (lift r ≫= f0) (lift r ≫= f) (lift r ≫= ft).
Proof. intros H s0 hops. destruct r as [a|e]; [apply (H a eq_refl)|done]. Qed.

Lemma tracks_raise e m mt : tracks (raise e) m mt.
Proof. by intros s0 hops. Qed.

Lemma tracks_ret hop0 hop : detour = None -> tracks (mret [hop0]) (mret [hop]) (mret [hop]).
Proof. intros Hd s0 hops _. exists hop. unfold behind. by rewrite Hd. Qed.
End tracks.

Section chains.
Context (debug : string -> string).

(** The detour the adapter follows. *)
Definition detour_field (fields : Value.fields) : option string :=
  nonempty (Map.get "detour" fields ≫= Value.as_str).

Lemma optional_string_field tag fields name v :
  optional_string debug tag fields name = Ok v -> v = (Map.get name fields ≫= Value.as_str).
Proof. unfold optional_string. destruct (Map.get name fields) as [[]|]; by intros [= <-]. Qed.

Lemma optional_nonempty_field tag fields name v :
  optional_nonempty_string debug tag fields name = Ok v -> v = nonempty (Map.get name fields ≫= Value.as_str).
Proof.
  unfold optional_nonempty_string. destruct (optional_string _ _ _ _) as [o|] eqn:E; [|done].
  apply optional_string_field in E as ->. by intros [= <-].
Qed.

Lemma reject_unknown_get tag kind fields allowed name :
  reject_unknown_fields debug tag kind fields allowed = Ok tt -> name ∉ allowed -> Map.get name fields = None.
Proof.
  unfold reject_unknown_fields. destruct (find_first _ _) as [f|] eqn:E; [done|]. intros _ Hn.
  rewrite find_first_None in E. apply Map.get_None. intros Hin.
  specialize (E name). rewrite list_elem_of_In in E. specialize (E Hin).
  rewrite bool_decide_eq_false_2 in E by done. done.
Qed.

Section two_catalogs.
Context (c0 c : catalog_t) (compile_ref0 compile_ref : OutboundRef.t -> method Chain).
Hypothesis Hsame : forall tag o0, c0 !! tag = Some o0 ->
  exists o, c !! tag = Some o /\ ValidatedOutbound.tag o = ValidatedOutbound.tag o0.

(** The outbound a detour names. *)
Definition detour_ref (fields : Value.fields) : option OutboundRef.t :=
  detour ← detour_field fields; resolve c detour.

Lemma tracks_proxy_chain tag fields address protocol d0 d :
  tracks compile_ref (detour_ref fields)
    (compile_proxy_chain debug c0 false compile_ref0 tag fields address protocol d0)
    (compile_proxy_chain debug c false compile_ref tag fields address protocol d)
    (compile_proxy_chain debug c true compile_ref tag fields address protocol d).
Proof.
  unfold compile_proxy_chain. apply tracks_lift. intros detour Hd. apply optional_nonempty_field in Hd.
  fold (detour_field fields) in Hd. apply tracks_lift. intros dialer _.
  destruct (_ && _); [apply tracks_raise|]. cbv zeta. destruct detour as [detour|].
  2:{ apply tracks_ret. unfold detour_ref. by rewrite <- Hd. }
  cbn [resolve validated_catalog]. destruct (c0 !! detour) as [o0|] eqn:Ho0; cbn; [|apply tracks_raise].
  destruct (Hsame _ _ Ho0) as (o & Ho & Ht). rewrite Ho. cbn. rewrite Ht.
  destruct (String.eqb _ _); cbn; [|apply tracks_raise].
  intros s0 hops _. eexists. split; [by intros|]. intros s. unfold behind, detour_ref.
  rewrite <- Hd. cbn. by rewrite Ho.
Qed.

Lemma tracks_direct tag fields d0 d :
  tracks compile_ref (detour_ref fields) (compile_direct debug tag fields d0) (compile_direct debug tag fields d)
    (compile_direct debug tag fields d).
Proof.
  unfold compile_direct. apply tracks_lift. intros [] Hr. apply tracks_lift. intros dialer _. apply tracks_ret.
  unfold detour_ref, detour_field. rewrite (reject_unknown_get _ _ _ _ "detour" Hr); [done|].
  by apply (bool_decide_unpack _).
Qed.

(** Peels the checks in front of a chain. *)
Ltac tracks :=
  repeat first
    [ apply tracks_proxy_chain
    | apply tracks_raise
    | apply tracks_lift; intros ? ?
    | progress cbv zeta
    | match goal with |- tracks _ _ (if ?b then _ else _) _ _ => destruct b end ].

Lemma tracks_shadowsocks tag fields d0 d :
  tracks compile_ref (detour_ref fields)
    (compile_shadowsocks debug c0 false compile_ref0 tag fields d0)
    (compile_shadowsocks debug c false compile_ref tag fields d)
    (compile_shadowsocks debug c true compile_ref tag fields d).
Proof.
  unfold compile_shadowsocks. tracks. destruct (bool_decide _ && negb _).
  - tracks.
  - cbn [andb]. apply tracks_proxy_chain.
Qed.

Lemma tracks_trojan tag fields d0 d :
  tracks compile_ref (detour_ref fields)
    (compile_trojan debug c0 false compile_ref0 tag fields d0)
    (compile_trojan debug c false compile_ref tag fields d)
    (compile_trojan debug c true compile_ref tag fields d).
Proof. unfold compile_trojan. tracks. Qed.

Lemma tracks_vless tag fields d0 d :
  tracks compile_ref (detour_ref fields)
    (compile_vless debug c0 false compile_ref0 tag fields d0)
    (compile_vless debug c false compile_ref tag fields d)
    (compile_vless debug c true compile_ref tag fields d).
Proof.
  unfold compile_vless. tracks.
  match goal with |- context [is_empty ?x] => destruct (is_empty x) end;
    [|match goal with |- context [String.eqb ?x ?y] => destruct (String.eqb x y) end; [|apply tracks_raise]];
    match goal with |- tracks _ _ (mret ?b ≫= _) _ _ => apply (tracks_lift _ _ (Ok b)); intros ? ? end; tracks.
Qed.

Lemma tracks_hysteria2 tag fields d0 d :
  tracks compile_ref (detour_ref fields) (compile_hysteria2 debug tag fields d0) (compile_hysteria2 debug tag fields d)
    (compile_hysteria2 debug tag fields d).
Proof.
  unfold compile_hysteria2. apply tracks_lift. intros [] _. apply tracks_lift. intros detour Hd.
  apply optional_nonempty_field in Hd. fold (detour_field fields) in Hd.
  destruct (DialerProjection.is_some detour) eqn:Hn; [apply tracks_raise|].
  tracks. apply tracks_ret. unfold detour_ref. rewrite <- Hd. by destruct detour.
Qed.

Lemma tracks_kind identity0 identity kind tag fields d0 d :
  kind <> "selector" ->
  tracks compile_ref (detour_ref fields)
    (compile_kind debug c0 false compile_ref0 identity0 kind tag fields d0)
    (compile_kind debug c false compile_ref identity kind tag fields d)
    (compile_kind debug c true compile_ref identity kind tag fields d).
Proof.
  intros Hk. unfold compile_kind. rewrite (proj2 (String.eqb_neq _ _) Hk).
  repeat match goal with |- tracks _ _ (if ?b then _ else _) _ _ => destruct b end;
    auto using tracks_direct, tracks_shadowsocks, tracks_trojan, tracks_vless, tracks_hysteria2, tracks_raise.
Qed.
End two_catalogs.

(** ** Selectors *)

Lemma string_array_members tag fields name members kind index values :
  required_string_array debug tag fields name = Ok members -> Map.get name fields = Some (Value.Array values) ->
  parse_members debug kind tag index values = Ok members.
Proof.
  unfold required_string_array. intros H Hg. rewrite Hg in H. clear Hg. revert index members H.
  induction values as [|v values IH]; intros index members; cbn; [by intros [= <-]|].
  intros H. apply bind_Ok in H as (m & Hm & H). apply bind_Ok in H as (ms & Hms & H). injection H as <-.
  destruct v; try done. cbn. destruct (is_empty _) eqn:E; cbn in *; [done|]. injection Hm as <-.
  by rewrite (IH _ _ Hms).
Qed.

Lemma string_array_values tag fields name members :
  required_string_array debug tag fields name = Ok members -> exists values, Map.get name fields = Some (Value.Array values).
Proof. unfold required_string_array. destruct (Map.get name fields) as [[]|]; naive_solver. Qed.

Lemma check_members_Ok (c : catalog_t) tag members (s : SelectorProjectionCache) :
  (for_in members (fun member => lift (check_member debug c tag member)) s).2 = Ok tt ->
  (forall member, member ∈ members -> check_member debug c tag member = Ok tt) /\
  for_in members (fun member => lift (check_member debug c tag member)) s = (s, Ok tt).
Proof.
  revert s. induction members as [|m members IH]; intros s; cbn; [split; [set_solver|done]|].
  unfold mbind, stm_bind, lift. destruct (check_member debug c tag m) as [[]|e] eqn:E; [|done]. cbv beta.
  intros H. destruct (IH s H) as [Hall Heq]. split; [|done]. intros m' [->|Hin]%elem_of_cons; auto.
Qed.

Lemma check_members_all (c : catalog_t) tag members (s : SelectorProjectionCache) :
  (forall member, member ∈ members -> check_member debug c tag member = Ok tt) ->
  for_in members (fun member => lift (check_member debug c tag member)) s = (s, Ok tt).
Proof.
  induction members as [|m members IH]; cbn; intros H; [done|]. unfold mbind, stm_bind, lift.
  rewrite H by by left. apply IH. intros. apply H. by right.
Qed.

Lemma lift_bind_Ok {A B} (r : result string A) (f : A -> method B) s b :
  ((lift r ≫= f) s).2 = Ok b -> exists a, r = Ok a /\ (f a s).2 = Ok b.
Proof. destruct r as [a|e]; [|done]. intros H. by exists a. Qed.

Section selector.
Context (c0 c : catalog_t) (outbound : ValidatedOutbound.t) (fields : Value.fields).
Hypothesis Hsame : forall tag o0, c0 !! tag = Some o0 ->
  exists o, c !! tag = Some o /\ ValidatedOutbound.tag o = ValidatedOutbound.tag o0.
Hypothesis Hfields : Value.as_object (ValidatedOutbound.options outbound) = Some fields.
Local Abbreviation tag := (ValidatedOutbound.tag outbound).

(** The adapter and the compiler read a selector alike; following the references is
    compiling the selected member. *)
Lemma selector_follows compile_ref0 identity0 s0 hops :
  (compile_selector debug c0 false compile_ref0 identity0 tag fields s0).2 = Ok hops ->
  exists definition, parse_selector_definition debug outbound = Ok definition /\
    forall compile_ref identity s,
      compile_selector debug c true compile_ref identity tag fields s
      = compile_selector_target debug c compile_ref identity tag (SelectorDefinition.selected definition) s.
Proof.
  unfold compile_selector. intros H.
  apply lift_bind_Ok in H as ([] & Hr & H). apply lift_bind_Ok in H as (b & Hb & H).
  apply lift_bind_Ok in H as (members & Hm & H). destruct members as [|first members]; [done|].
  apply lift_bind_Ok in H as (chosen & Hc & H). destruct (match chosen with Some _ => _ | None => false end) eqn:Hin; [done|].
  unfold mbind, stm_bind in H.
  destruct (for_in (first :: members) _ s0) as [s1 [[]|e]] eqn:Hf; [|done].
  destruct (check_members_Ok c0 tag (first :: members) s0) as [Hall _]; [by rewrite Hf|].
  destruct (string_array_values _ _ _ _ Hm) as [values Hv].
  pose proof (string_array_members tag fields "outbounds" (first :: members) "selector" 0 values Hm Hv) as Hp.
  pose proof (optional_nonempty_field _ _ _ _ Hc) as Hcv.
  exists (SelectorDefinition.mk (first :: members) (default first chosen)). split.
  - unfold parse_selector_definition. rewrite Hfields, Hv. cbn. rewrite Hp. cbn.
    unfold optional_nonempty_string, optional_string in Hc.
    destruct (Map.get "default" fields) as [[]|]; cbn in *; try done; injection Hc as <-; cbn in *; try done.
    destruct (is_empty _); cbn in *; [done|]. by case_bool_decide.
  - intros rec identity s. rewrite Hr, Hb, Hm, Hc.
    assert (for_in (first :: members) (fun member => lift (check_member debug c tag member)) s = (s, Ok tt)) as Hchk.
    { apply check_members_all. intros m Hin'. specialize (Hall m Hin'). unfold check_member in *.
      cbn [resolve validated_catalog] in *. destruct (c0 !! m) as [o0|] eqn:Ho0; [|done]. cbn in Hall.
      destruct (Hsame _ _ Ho0) as (o & -> & Ht). cbn. by rewrite Ht. }
    unfold lift, mbind, stm_bind in Hchk |- *. by rewrite Hin, Hchk.
Qed.
End selector.

(** ** The whole catalog *)

Section compiled.
Context (parse_go_duration : string -> result string Z) (c0 c : catalog_t).

Local Abbreviation acceptable := (acceptable debug parse_go_duration c0).
Local Abbreviation path := (path debug parse_go_duration c0).
Local Abbreviation refers := (refers debug parse_go_duration c0).
Local Abbreviation set_resolver := ValidatedOutbound.set_shoes_dns_resolver.

(** [compile_outbound_ref] and [compile_cached_outbound_ref] *)
Definition nested (cat : catalog_t) follow fuel active identity (validate_tag : bool) (outbound : OutboundRef.t) : method Chain :=
  compile_with_dns debug cat follow fuel (active ++ [identity]) (Catalog (OutboundRef.id outbound))
    (OutboundRef.kind outbound) (OutboundRef.tag outbound) (Ref.value (OutboundRef.options outbound))
    (OutboundRef.dns_resolver outbound) validate_tag.

Lemma compile_unfold (cat : catalog_t) follow fuel active identity kind tag options dns validate_tag :
  compile_with_dns debug cat follow fuel active identity kind tag options dns validate_tag =
  (let kind := trim kind in
   if is_empty kind then raise "outbound type is required"
   else if validate_tag && is_empty (trim tag) then raise (fmt ["outbound "; debug kind; " tag is required"])
   else if bool_decide (identity ∈ active) then raise (fmt ["outbound reference cycle at outbound "; debug tag])
   else if (MAX_OUTBOUND_REFERENCE_DEPTH <=? length active)%nat
   then raise (fmt ["outbound reference depth exceeds maximum "; to_dec (Z.of_nat MAX_OUTBOUND_REFERENCE_DEPTH);
                    " at outbound "; debug tag])
   else
     match fuel with
     | O => raise "out of fuel"
     | S fuel =>
         let compile_ref := nested cat follow fuel active identity in
         cache ← get;
         match cached_selection follow identity kind cache with
         | Some selected => compile_ref false selected
         | None =>
             match Value.as_object options with
             | None => raise (fmt ["outbound "; debug tag; " ("; kind; ") options must be a JSON object"])
             | Some fields => compile_kind debug cat follow (compile_ref true) identity kind tag fields dns
             end
         end
     end).
Proof. by destruct fuel. Qed.

(** The catalogs the compiler builds: keyed by tag, one identity per outbound,
    supported types. *)
Record wf_catalog : Prop := {
  wf_keyed tag o : c0 !! tag = Some o -> ValidatedOutbound.tag o = tag;
  wf_ids tag o tag' o' : c0 !! tag = Some o -> c0 !! tag' = Some o' ->
    ValidatedOutbound.id o = ValidatedOutbound.id o' -> tag = tag';
  wf_kinds tag o : c0 !! tag = Some o -> ValidatedOutbound.kind o ∈ SUPPORTED_OUTBOUND_TYPES
}.

(** The catalog after DNS resolvers are assigned. *)
Definition with_resolvers : Prop := forall tag,
  match c0 !! tag with
  | Some o0 => exists resolver, c !! tag = Some (set_resolver resolver o0)
  | None => c !! tag = None
  end.

Hypothesis Hwf : wf_catalog.
Hypothesis Hres : with_resolvers.
Hypothesis Hval : validate_outbound_catalog debug parse_go_duration c0 = Ok tt.

Lemma validated_acceptable : acceptable.
Proof.
  pose proof Hval as Hv. unfold validate_outbound_catalog in Hv. apply bind_Ok in Hv as (? & _ & H). apply bind_Ok in H as ([] & H & _).
  by apply validate_graph_spec.
Qed.

Lemma validated_shapes : acceptable_shapes debug parse_go_duration c0.
Proof.
  pose proof Hval as Hv. unfold validate_outbound_catalog in Hv. apply bind_Ok in Hv as (? & _ & H). apply bind_Ok in H as (? & _ & H).
  apply validate_shapes_spec; [apply validated_acceptable|]. done.
Qed.

Lemma validated_each tag o0 : c0 !! tag = Some o0 -> validate_outbound debug parse_go_duration c0 o0 = Ok tt.
Proof.
  intros Ho. pose proof Hval as Hv. unfold validate_outbound_catalog in Hv. apply bind_Ok in Hv as (us & H & _).
  assert (o0 ∈ (btree_iter c0).*2) as Hin.
  { apply (list_elem_of_fmap_2 snd _ (tag, o0)). by apply elem_of_btree_iter. }
  clear -H Hin. revert us H. induction (btree_iter c0).*2 as [|x l IH]; intros us; [set_solver|]. cbn.
  intros (u & Hx & H)%bind_Ok. apply bind_Ok in H as (us' & Hus & _).
  apply elem_of_cons in Hin as [->|Hin]; [by destruct u|by eapply IH].
Qed.

Lemma supported_trim kind : kind ∈ SUPPORTED_OUTBOUND_TYPES -> trim kind = kind /\ is_empty kind = false.
Proof.
  unfold SUPPORTED_OUTBOUND_TYPES. rewrite !elem_of_cons, elem_of_nil.
  intros [->|[->|[->|[->|[->|[->|[->|[]]]]]]]]; by vm_compute.
Qed.

Lemma same_tags tag o0 : c0 !! tag = Some o0 ->
  exists o, c !! tag = Some o /\ ValidatedOutbound.tag o = ValidatedOutbound.tag o0.
Proof. intros Ho. specialize (Hres tag). rewrite Ho in Hres. destruct Hres as [r Hr]. by eexists. Qed.

(** A successful run without references has run the branch of its type. *)
Lemma run_once fuel identity kind tag options dns s hops :
  trim kind = kind ->
  (compile_with_dns debug c0 false fuel [] identity kind tag options dns true s).2 = Ok hops ->
  is_empty (trim tag) = false /\
  exists fields compile_ref0, Value.as_object options = Some fields /\
    (compile_kind debug c0 false compile_ref0 identity kind tag fields dns s).2 = Ok hops.
Proof.
  intros Ht. rewrite compile_unfold. cbv zeta. rewrite Ht. destruct (is_empty kind); [done|].
  destruct (is_empty (trim tag)); cbn [andb]; [done|].
  destruct (bool_decide _); [done|]. destruct (_ <=? _)%nat; [done|]. destruct fuel as [|fuel]; [done|].
  unfold get, mbind, stm_bind, cached_selection. cbn [andb].
  destruct (Value.as_object options) as [fields|]; [|done]. intros H. split; [done|]. by eexists _, _.
Qed.

(** From here on the recursion is opened by its equation. *)
#[local] Opaque compile_with_dns.

(** What the validation of one outbound has run. *)
Lemma local_run tag o0 :
  c0 !! tag = Some o0 -> ValidatedOutbound.kind o0 <> "urltest" ->
  is_empty (trim (ValidatedOutbound.tag o0)) = false /\
  exists fields compile_ref0 identity0 d0 s0 hops, Value.as_object (ValidatedOutbound.options o0) = Some fields /\
    (compile_kind debug c0 false compile_ref0 identity0 (ValidatedOutbound.kind o0) (ValidatedOutbound.tag o0) fields
       d0 s0).2 = Ok hops.
Proof.
  intros Ho Hk. pose proof (validated_each _ _ Ho) as H. unfold validate_outbound in H.
  rewrite (proj2 (String.eqb_neq _ _) Hk) in H.
  destruct (validate_client_outbound _ _ _ _ _) as [[]|] eqn:E; [|done]. clear H.
  unfold validate_client_outbound, adapter_compile in E.
  match type of E with context [compile_with_dns _ _ _ ?fuel ?a ?id ?k ?t ?opt ?d ?v ?s] =>
    destruct (compile_with_dns debug c0 false fuel a id k t opt d v s).2 as [hops|] eqn:Er; [|done];
    apply run_once in Er as (Ht & fields & rec0 & Hf & Hr); [|by apply supported_trim, (wf_kinds Hwf tag)]
  end.
  split; [done|]. by eexists fields, rec0, _, _, _, hops.
Qed.

(** *** Chains *)

(** The hop an outbound contributes. *)
Definition own_hop (o : ValidatedOutbound.t) (hop : Value.t) : Prop := exists fields,
  Value.as_object (ValidatedOutbound.options o) = Some fields /\
  forall compile_ref identity s,
    compile_kind debug c false compile_ref identity (ValidatedOutbound.kind o) (ValidatedOutbound.tag o) fields
      (ValidatedOutbound.shoes_dns_resolver o) s = (s, Ok [hop]).

(** What the chain of an outbound is to be: a selector stands for its selected
    member; the chain of a detour comes before the outbound's own hop. *)
Inductive chain_of : ValidatedOutbound.t -> Chain -> Prop :=
  | chain_selector o definition target chain :
      ValidatedOutbound.kind o = "selector" -> parse_selector_definition debug o = Ok definition ->
      c !! SelectorDefinition.selected definition = Some target -> chain_of target chain -> chain_of o chain
  | chain_hop o hop :
      ValidatedOutbound.kind o <> "selector" -> effective_detour o = None -> own_hop o hop -> chain_of o [hop]
  | chain_detour o detour target chain hop :
      ValidatedOutbound.kind o <> "selector" -> effective_detour o = Some detour ->
      c !! detour = Some target -> chain_of target chain -> own_hop o hop -> chain_of o (chain ++ [hop]).

(** A remembered selection is the selector's. *)
Definition cache_ok (cache : SelectorProjectionCache) : Prop := forall id selected, cache !! id = Some selected ->
  forall tag o, c !! tag = Some o -> ValidatedOutbound.id o = id ->
  exists definition target, parse_selector_definition debug o = Ok definition /\
    c !! SelectorDefinition.selected definition = Some target /\
    selected = ValidatedOutbound.as_outbound_ref target.

Lemma lookup_origin tag o : c !! tag = Some o -> exists o0 r, c0 !! tag = Some o0 /\ o = set_resolver r o0.
Proof.
  intros Ho. specialize (Hres tag). destruct (c0 !! tag) as [o0|]; [|congruence].
  destruct Hres as [r Hr]. exists o0, r. split; [done|congruence].
Qed.

Lemma lookup_image tag o0 : c0 !! tag = Some o0 -> exists r, c !! tag = Some (set_resolver r o0).
Proof. intros Ho. specialize (Hres tag). by rewrite Ho in Hres. Qed.

(** Active outbounds are those of a reference path. *)
Definition active (p : list string) (ids : list ActiveOutboundIdentity) : Prop :=
  Forall2 (fun tag identity => exists o, c0 !! tag = Some o /\ identity = Catalog (ValidatedOutbound.id o)) p ids.

Lemma active_fresh p ids tag o0 :
  active p ids -> path (p ++ [tag]) -> c0 !! tag = Some o0 -> Catalog (ValidatedOutbound.id o0) ∉ ids.
Proof.
  intros Ha Hp Ho Hin. apply list_elem_of_lookup in Hin as [i Hi].
  destruct (Forall2_lookup_r _ _ _ _ _ Ha Hi) as (t & Ht & o & Hto & [= Hid]).
  assert (t = tag) as -> by (by eapply (wf_ids Hwf)).
  apply list_elem_of_lookup_2, list_elem_of_split in Ht as (l1 & l2 & ->).
  rewrite <- app_assoc in Hp. cbn in Hp. apply path_drop in Hp.
  exact (cycle_unbounded _ _ _ _ _ Hp validated_acceptable).
Qed.

Lemma active_bound p ids tag : active p ids -> path (p ++ [tag]) -> (length ids < MAX_OUTBOUND_REFERENCE_DEPTH)%nat.
Proof.
  intros Ha Hp. apply Forall2_length in Ha as <-. pose proof (proj2 validated_acceptable _ Hp) as H.
  rewrite length_app in H. cbn [length] in H. lia.
Qed.

Lemma active_snoc p ids tag o0 :
  active p ids -> c0 !! tag = Some o0 -> active (p ++ [tag]) (ids ++ [Catalog (ValidatedOutbound.id o0)]).
Proof. intros Ha Ho. apply Forall2_app; [done|]. constructor; [by exists o0|constructor]. Qed.

(** The outbound does not stand for a URL test. *)
Definition plain (tag : string) : Prop := forall terminal,
  selects debug c0 tag terminal -> ValidatedOutbound.kind terminal <> "urltest".

Lemma plain_selected tag o0 definition :
  c0 !! tag = Some o0 -> ValidatedOutbound.kind o0 = "selector" -> parse_selector_definition debug o0 = Ok definition ->
  plain tag -> plain (SelectorDefinition.selected definition).
Proof. intros Ho Hk Hd Hp t Ht. apply Hp. by eapply selects_via. Qed.

Lemma plain_detour tag o0 detour :
  c0 !! tag = Some o0 -> ValidatedOutbound.kind o0 <> "selector" -> ValidatedOutbound.kind o0 <> "urltest" ->
  effective_detour o0 = Some detour -> plain detour.
Proof.
  intros Ho Hs Hu Hd t Ht Hk. destruct (validated_shapes tag o0 Ho) as [_ H].
  specialize (H Hs Hu detour t Hd Ht). unfold shape_of in H. by rewrite Hk in H.
Qed.

Lemma plain_kind tag o0 : c0 !! tag = Some o0 -> plain tag -> ValidatedOutbound.kind o0 <> "urltest".
Proof.
  intros Ho Hp Hk. destruct (decide (ValidatedOutbound.kind o0 = "selector")) as [Hs|Hs]; [congruence|].
  by apply (Hp o0); [constructor|].
Qed.

Definition compiled (tag : string) (o : ValidatedOutbound.t) (m : method Chain) (cache : SelectorProjectionCache) : Prop :=
  exists cache' chain, m cache = (cache', Ok chain) /\ chain_of o chain /\ cache_ok cache'.

(** Without references nothing depends on the nested calls. *)
Lemma kind_independent rec rec' identity identity' kind tag fields d :
  kind <> "selector" ->
  compile_kind debug c false rec identity kind tag fields d = compile_kind debug c false rec' identity' kind tag fields d.
Proof. intros Hk. unfold compile_kind. by rewrite (proj2 (String.eqb_neq _ _) Hk). Qed.

(** One level: the nested calls compile what the outbound refers to. *)
Section level.
Context (rec : bool -> OutboundRef.t -> method Chain) (tag : string) (o0 o : ValidatedOutbound.t) (r : option string).
Hypothesis Ho0 : c0 !! tag = Some o0.
Hypothesis Ho : c !! tag = Some o.
Hypothesis Heq : o = set_resolver r o0.
Hypothesis Hpl : plain tag.
Hypothesis Hrec : forall tag' o' cache' v, refers tag tag' -> c !! tag' = Some o' -> plain tag' -> cache_ok cache' ->
  compiled tag' o' (rec v (ValidatedOutbound.as_outbound_ref o')) cache'.

Lemma known_in tag' : refers tag tag' -> exists o', c !! tag' = Some o' /\ ValidatedOutbound.tag o' = tag'.
Proof.
  intros Hr. apply (refers_known _ _ _ validated_acceptable) in Hr as [o' Ho'].
  destruct (lookup_image _ _ Ho') as [r' Hr']. eexists. split; [done|]. exact (wf_keyed Hwf _ _ Ho').
Qed.

Lemma remember_ok cache definition target :
  cache_ok cache -> parse_selector_definition debug o = Ok definition ->
  c !! SelectorDefinition.selected definition = Some target ->
  cache_ok (<[ValidatedOutbound.id o := ValidatedOutbound.as_outbound_ref target]> cache).
Proof.
  intros Hc Hd Ht id sel. destruct (decide (id = ValidatedOutbound.id o)) as [->|Hne].
  - rewrite lookup_insert_eq. intros [= <-] t o' Ho' Hid.
    destruct (lookup_origin _ _ Ho') as (o0' & r' & Ho0' & Heq').
    assert (t = tag) as -> by (eapply (wf_ids Hwf); [done..|]; by subst).
    simplify_eq. eauto.
  - rewrite lookup_insert_ne by done. apply Hc.
Qed.

Lemma compile_selector_level fields cache :
  ValidatedOutbound.kind o0 = "selector" -> cache_ok cache ->
  (exists definition, parse_selector_definition debug o = Ok definition /\
     forall compile_ref identity s,
       compile_selector debug c true compile_ref identity (ValidatedOutbound.tag o) fields s
       = compile_selector_target debug c compile_ref identity (ValidatedOutbound.tag o) (SelectorDefinition.selected definition) s) ->
  compiled tag o
    match cached_selection true (Catalog (ValidatedOutbound.id o)) "selector" cache with
    | Some selected => rec false selected
    | None => compile_kind debug c true (rec true) (Catalog (ValidatedOutbound.id o)) "selector" (ValidatedOutbound.tag o)
                fields (ValidatedOutbound.shoes_dns_resolver o)
    end cache.
Proof.
  intros Hk Hc (definition & Hd & Hsel). unfold compiled, cached_selection.
  assert (Hd0 : parse_selector_definition debug o0 = Ok definition) by (by subst).
  assert (Hr : refers tag (SelectorDefinition.selected definition)) by (eapply refers_selected; eauto using parse_selector_selected).
  destruct (known_in _ Hr) as (target & Htarget & Htag).
  assert (Hplt : plain (SelectorDefinition.selected definition)) by (by eapply plain_selected).
  assert (Hk' : ValidatedOutbound.kind o = "selector") by (by subst).
  rewrite String.eqb_refl. cbn [andb].
  destruct (cache !! ValidatedOutbound.id o) as [selected|] eqn:Hsc.
  - destruct (Hc _ _ Hsc _ _ Ho eq_refl) as (d' & t' & Hd' & Ht' & ->). same_ok.
    destruct (Hrec _ _ cache false Hr Htarget Hplt Hc) as (cache' & chain & -> & Hch & Hc').
    exists cache', chain. split; [done|]. split; [by eapply chain_selector|done].
  - change (compile_kind debug c true (rec true) (Catalog (ValidatedOutbound.id o)) "selector" (ValidatedOutbound.tag o)
      fields (ValidatedOutbound.shoes_dns_resolver o) cache)
      with (compile_selector debug c true (rec true) (Catalog (ValidatedOutbound.id o)) (ValidatedOutbound.tag o) fields cache).
    rewrite Hsel. unfold compile_selector_target. cbn [resolve validated_catalog]. rewrite Htarget. cbn.
    rewrite Htag, String.eqb_refl. cbn [negb].
    destruct (Hrec _ _ cache true Hr Htarget Hplt Hc) as (cache' & chain & Hrun & Hch & Hc').
    rewrite (stm_bind_eq _ _ _ _ _ Hrun).
    exists (<[ValidatedOutbound.id o := ValidatedOutbound.as_outbound_ref target]> cache'), chain.
    split; [done|]. split; [by eapply chain_selector|by apply (remember_ok _ definition)].
Qed.

Lemma compile_hop_level fields rec0 id0 d0 s0 hops cache :
  ValidatedOutbound.kind o0 <> "selector" -> cache_ok cache ->
  Value.as_object (ValidatedOutbound.options o0) = Some fields ->
  (compile_kind debug c0 false rec0 id0 (ValidatedOutbound.kind o0) (ValidatedOutbound.tag o0) fields d0 s0).2 = Ok hops ->
  compiled tag o
    (compile_kind debug c true (rec true) (Catalog (ValidatedOutbound.id o)) (ValidatedOutbound.kind o0)
       (ValidatedOutbound.tag o) fields (ValidatedOutbound.shoes_dns_resolver o)) cache.
Proof.
  intros Hk Hc Hf Hrun. assert (Ht : ValidatedOutbound.tag o = ValidatedOutbound.tag o0) by (by subst).
  assert (Hown : exists hop, own_hop o hop /\ forall s,
            compile_kind debug c true (rec true) (Catalog (ValidatedOutbound.id o)) (ValidatedOutbound.kind o0)
              (ValidatedOutbound.tag o) fields (ValidatedOutbound.shoes_dns_resolver o) s
            = behind (rec true) (detour_ref c fields) hop s).
  { rewrite Ht.
    destruct (tracks_kind c0 c rec0 (rec true) same_tags id0 (Catalog (ValidatedOutbound.id o)) _ _ fields d0
                (ValidatedOutbound.shoes_dns_resolver o) Hk s0 hops Hrun) as (hop & Hfalse & Htrue).
    exists hop. split; [|done]. exists fields. split; [by subst|]. intros rec' identity s.
    assert (ValidatedOutbound.kind o = ValidatedOutbound.kind o0) as -> by (by subst). rewrite Ht.
    by rewrite (kind_independent rec' (rec true) identity (Catalog (ValidatedOutbound.id o)) _ _ _ _ Hk). }
  destruct Hown as (hop & Hown & Hrun'). unfold compiled. rewrite Hrun'.
  assert (Hk' : ValidatedOutbound.kind o <> "selector") by (by subst).
  assert (Hd : effective_detour o = detour_field fields).
  { unfold effective_detour, detour_field. f_equal.
    assert (Value.as_object (ValidatedOutbound.options o) = Some fields) as Hf' by (by subst).
    by destruct (ValidatedOutbound.options o); simplify_eq/=. }
  unfold behind, detour_ref. destruct (detour_field fields) as [detour|] eqn:Hdet; cbn.
  2:{ exists cache, [hop]. split; [done|]. split; [by apply chain_hop|done]. }
  assert (Hd0 : effective_detour o0 = Some detour) by (by subst).
  assert (Hu : ValidatedOutbound.kind o0 <> "urltest") by (by eapply plain_kind).
  assert (Hr : refers tag detour) by (by eapply refers_detour).
  destruct (known_in _ Hr) as (target & Htarget & _). rewrite Htarget. cbn.
  destruct (Hrec _ _ cache true Hr Htarget (plain_detour _ _ _ Ho0 Hk Hu Hd0) Hc) as (cache' & chain & Hrun2 & Hch & Hc').
  rewrite (stm_bind_eq _ _ _ _ _ Hrun2). exists cache', (chain ++ [hop]).
  split; [done|]. split; [by eapply chain_detour|done].
Qed.
End level.

Lemma compile_validated fuel p ids tag o cache validate_tag :
  active p ids -> path (p ++ [tag]) -> c !! tag = Some o -> plain tag ->
  (MAX_OUTBOUND_REFERENCE_DEPTH <= fuel + length ids)%nat -> cache_ok cache ->
  compiled tag o
    (compile_with_dns debug c true fuel ids (Catalog (ValidatedOutbound.id o)) (ValidatedOutbound.kind o)
       (ValidatedOutbound.tag o) (ValidatedOutbound.options o) (ValidatedOutbound.shoes_dns_resolver o) validate_tag) cache.
Proof.
  revert p ids tag o cache validate_tag. induction fuel as [|fuel IH]; intros p ids tag o cache validate_tag Ha Hp Ho Hpl Hf Hc;
    [pose proof (active_bound _ _ _ Ha Hp); lia|].
  destruct (lookup_origin tag o Ho) as (o0 & r & Ho0 & Heq).
  assert (Hkind : ValidatedOutbound.kind o = ValidatedOutbound.kind o0) by (by subst).
  assert (Hid : ValidatedOutbound.id o = ValidatedOutbound.id o0) by (by subst).
  assert (Hopt : ValidatedOutbound.options o = ValidatedOutbound.options o0) by (by subst).
  destruct (local_run tag o0 Ho0 (plain_kind _ _ Ho0 Hpl)) as (Htrim & fields & rec0 & id0 & d0 & s0 & hops & Hfields & Hrun).
  destruct (supported_trim _ (wf_kinds Hwf _ _ Ho0)) as [Ht Hne].
  unfold compiled. rewrite compile_unfold. cbv zeta. rewrite Hkind, Ht, Hne.
  assert (is_empty (trim (ValidatedOutbound.tag o)) = false) as -> by (by subst).
  rewrite andb_false_r.
  rewrite bool_decide_eq_false_2 by (rewrite Hid; by eapply active_fresh).
  rewrite (proj2 (Nat.leb_gt _ _) (active_bound _ _ _ Ha Hp)).
  unfold get, mbind at 1, stm_bind at 1. rewrite Hopt, Hfields.
  set (rec := nested c true fuel ids (Catalog (ValidatedOutbound.id o))).
  assert (Hrec : forall tag' o' cache' v, refers tag tag' -> c !! tag' = Some o' -> plain tag' -> cache_ok cache' ->
            compiled tag' o' (rec v (ValidatedOutbound.as_outbound_ref o')) cache').
  { intros tag' o' cache' v Hr Ho' Hpl' Hc'. unfold rec, nested. cbn.
    apply (IH (p ++ [tag])); [rewrite Hid; by apply active_snoc|by eapply path_snoc|done|done| |done].
    rewrite length_app. cbn. lia. }
  destruct (decide (ValidatedOutbound.kind o0 = "selector")) as [Hs|Hs].
  - rewrite Hs in Hrun |- *. refine (compile_selector_level rec tag o0 o r Ho0 Ho Heq Hpl Hrec fields cache Hs Hc _).
    apply (selector_follows c0 c o fields same_tags) with rec0 id0 s0 hops; [by rewrite Hopt|].
    assert (ValidatedOutbound.tag o = ValidatedOutbound.tag o0) as -> by (by subst). exact Hrun.
  - unfold cached_selection. rewrite (proj2 (String.eqb_neq _ _) Hs), andb_false_r.
    exact (compile_hop_level rec tag o0 o r Ho0 Ho Heq Hpl Hrec fields rec0 id0 d0 s0 hops cache Hs Hc Hfields Hrun).
Qed.

(** *** Properties of chains *)

Lemma own_hop_fun o h1 h2 : own_hop o h1 -> own_hop o h2 -> h1 = h2.
Proof.
  intros (f1 & Hf1 & H1) (f2 & Hf2 & H2). simplify_eq.
  specialize (H1 (fun _ => raise "") Root ∅). specialize (H2 (fun _ => raise "") Root ∅). congruence.
Qed.

Lemma chain_of_fun o c1 c2 : chain_of o c1 -> chain_of o c2 -> c1 = c2.
Proof.
  intros H. revert c2. induction H; inversion 1; same_ok; try congruence; eauto.
  - f_equal. by eapply own_hop_fun.
  - f_equal; [eauto|]. f_equal. by eapply own_hop_fun.
Qed.

Lemma chain_of_path o chain tag :
  chain_of o chain -> c !! tag = Some o -> ValidatedOutbound.kind o <> "urltest" -> plain tag ->
  chain <> [] /\ exists l, path (tag :: l) /\ (length chain <= S (length l))%nat.
Proof.
  intros H. revert tag. induction H as [o d target chain Hk Hd Ht _ IH|o hop Hk Hd Hh|o detour target chain hop Hk Hd Ht _ IH Hh];
    intros tag Ho Hu Hpl; destruct (lookup_origin _ _ Ho) as (o0 & r & Ho0 & ->).
  - assert (refers tag (SelectorDefinition.selected d)) as Hr by (eapply refers_selected; eauto using parse_selector_selected).
    assert (plain (SelectorDefinition.selected d)) as Hpl' by (by eapply plain_selected).
    destruct (lookup_origin _ _ Ht) as (t0 & r' & Ht0 & ->).
    destruct (IH _ Ht (plain_kind _ _ Ht0 Hpl') Hpl') as (Hne & l & Hl & Hlen). split; [done|].
    exists (SelectorDefinition.selected d :: l). split; [by constructor|]. cbn. lia.
  - split; [done|]. exists []. split; [constructor|cbn; lia].
  - assert (refers tag detour) as Hr by (by eapply refers_detour).
    assert (plain detour) as Hpl' by (by eapply plain_detour).
    destruct (lookup_origin _ _ Ht) as (t0 & r' & Ht0 & ->).
    destruct (IH _ Ht (plain_kind _ _ Ht0 Hpl') Hpl') as (Hne & l & Hl & Hlen). split; [by destruct chain|].
    exists (detour :: l). split; [by constructor|]. rewrite length_app. cbn. lia.
Qed.

Lemma chain_of_bounded o chain tag :
  chain_of o chain -> c !! tag = Some o -> plain tag ->
  (1 <= length chain <= MAX_OUTBOUND_REFERENCE_DEPTH)%nat.
Proof.
  intros Hch Ho Hpl. destruct (lookup_origin _ _ Ho) as (o0 & r & Ho0 & Heq).
  assert (ValidatedOutbound.kind o <> "urltest") as Hu by (subst; exact (plain_kind _ _ Ho0 Hpl)).
  destruct (chain_of_path _ _ _ Hch Ho Hu Hpl) as (Hne & l & Hl & Hlen).
  pose proof (proj2 validated_acceptable _ Hl) as Hb. cbn [length] in Hb. destruct chain; [done|]. cbn in *. lia.
Qed.

Lemma compile_cached_validated tag o cache :
  c !! tag = Some o -> plain tag -> cache_ok cache ->
  exists cache' chain,
    compile_client_chains_cached debug (ValidatedOutbound.kind o) (ValidatedOutbound.tag o)
      (ValidatedOutbound.options_ref o) c cache = (cache', Ok (chain_value chain)) /\
    chain_of o chain /\ cache_ok cache'.
Proof.
  intros Ho Hpl Hc. unfold compile_client_chains_cached, adapter_compile.
  destruct (lookup_origin _ _ Ho) as (o0 & r & Ho0 & Heq).
  assert (ValidatedOutbound.tag o = tag) as Htag by (subst; exact (wf_keyed Hwf _ _ Ho0)).
  cbn [resolve catalog_dns_resolver validated_catalog]. rewrite Htag, Ho. cbn.
  rewrite Htag, !String.eqb_refl. unfold Ref.ptr_eq. cbn. rewrite Z.eqb_refl. cbn.
  destruct (compile_validated MAX_OUTBOUND_REFERENCE_DEPTH [] [] tag o cache true) as (cache' & chain & Hrun & Hch & Hc');
    [by constructor|constructor|done|done|cbn [length]; lia|done|].
  rewrite Htag in Hrun. rewrite (stm_bind_eq _ _ _ _ _ Hrun). by exists cache', chain.
Qed.

Lemma cache_ok_empty : cache_ok ∅.
Proof. intros id sel H. by rewrite lookup_empty in H. Qed.

(** C15. Every outbound of a validated catalog that does not stand for a URL test compiles,
    whatever consistent selections are remembered: to the same chain as with none, one
    to 128 hops long, its detours' hops before its own.  So no outbound that passed
    validation fails when it is first used. *)
Theorem validated_outbound_compiles tag o cache :
  c !! tag = Some o -> plain tag -> cache_ok cache ->
  exists cache' chain,
    compile_client_chains_cached debug (ValidatedOutbound.kind o) (ValidatedOutbound.tag o)
      (ValidatedOutbound.options_ref o) c cache = (cache', Ok (chain_value chain)) /\
    compile_client_chains debug (ValidatedOutbound.kind o) (ValidatedOutbound.tag o)
      (ValidatedOutbound.options_ref o) c = Ok (chain_value chain) /\
    chain_of o chain /\ cache_ok cache' /\ (1 <= length chain <= MAX_OUTBOUND_REFERENCE_DEPTH)%nat.
Proof.
  intros Ho Hpl Hc. destruct (compile_cached_validated tag o cache Ho Hpl Hc) as (cache' & chain & Hrun & Hch & Hc').
  destruct (compile_cached_validated tag o ∅ Ho Hpl cache_ok_empty) as (cache2 & chain2 & Hrun2 & Hch2 & _).
  exists cache', chain. split_and!; [done| |done|done| |]; [|by eapply chain_of_bounded..].
  unfold compile_client_chains. by rewrite Hrun2, (chain_of_fun _ _ _ Hch Hch2).
Qed.
End compiled.
End chains.
