(* ===== verification/OutboundProjection.v ===== *)
(** * Projecting outbounds into a configuration: [crates/node-agent/src/compile.rs],
    lines 48 to 63, 371 to 623 and 1097 to 1404

    Rules and DNS servers embed the client chains of the outbounds they name.  A budget
    bounds what one configuration embeds; selector choices, compiled chains and URL test
    actions are remembered per outbound.

    The bytes a value serialises to are [json_chunks], in the order they are written;
    SHA-256 is [sha256]. *)

From Stdlib Require Import ZArith Lia.
From S2P Require Import Prelude Bytes Json Hex Runtime OutboundAdapter OutboundGraph.

Open Scope Z_scope.

Definition MAX_PROJECTED_CLIENT_CHAIN_HOPS : Z := 65536.
Definition MAX_PROJECTED_CLIENT_CHAIN_BYTES : Z := 64 * 1024 * 1024.
Definition MAX_PROJECTED_URLTEST_GROUPS : nat := 256.
Definition MAX_PROJECTED_URLTEST_CANDIDATES : Z := 8192.

Module ClientChainProjectionCost.
Record t : Type := mk { hops : Z; bytes : Z }.
Definition zero : t := mk 0 0.
Definition add (a b : t) : t := mk (hops a + hops b) (bytes a + bytes b).
End ClientChainProjectionCost.

Module ClientChainsProjection.
Record t : Type := mk { hops : Z; chain_count : Z; chain_element_bytes : Z }.
Definition zero : t := mk 0 0 0.
End ClientChainsProjection.

Module CompiledOutboundAction.
Record t : Type := mk { client_chains : Value.t; client_chain_selection : option Value.t }.
End CompiledOutboundAction.

Module CompiledClientChainSample.
Record t : Type := mk { value : Value.t; projection : ClientChainsProjection.t }.
End CompiledClientChainSample.

Module CachedUrltestAction.
Record t : Type := mk { action : CompiledOutboundAction.t; cost : ClientChainProjectionCost.t }.
End CachedUrltestAction.

(** [ClientChainProjectionBudget] *)
Module Budget.
Record t : Type := mk {
  used : ClientChainProjectionCost.t;
  selector_immediate : gmap Z ValidatedOutbound.t;
  selector_terminals : gmap Z ValidatedOutbound.t;
  compiled_samples : gmap Z CompiledClientChainSample.t;
  urltest_samples : gmap Z CachedUrltestAction.t;
  urltest_candidates : Z;
  adapter_cache : SelectorProjectionCache
}.
Definition zero : t := mk ClientChainProjectionCost.zero ∅ ∅ ∅ ∅ 0 ∅.

Definition set_used x (b : t) : t :=
  mk x (selector_immediate b) (selector_terminals b) (compiled_samples b) (urltest_samples b) (urltest_candidates b) (adapter_cache b).
Definition set_immediate x (b : t) : t :=
  mk (used b) x (selector_terminals b) (compiled_samples b) (urltest_samples b) (urltest_candidates b) (adapter_cache b).
Definition set_terminals x (b : t) : t :=
  mk (used b) (selector_immediate b) x (compiled_samples b) (urltest_samples b) (urltest_candidates b) (adapter_cache b).
Definition set_samples x (b : t) : t :=
  mk (used b) (selector_immediate b) (selector_terminals b) x (urltest_samples b) (urltest_candidates b) (adapter_cache b).
Definition set_urltest x (b : t) : t :=
  mk (used b) (selector_immediate b) (selector_terminals b) (compiled_samples b) x (urltest_candidates b) (adapter_cache b).
Definition set_candidates x (b : t) : t :=
  mk (used b) (selector_immediate b) (selector_terminals b) (compiled_samples b) (urltest_samples b) x (adapter_cache b).
Definition set_adapter_cache x (b : t) : t :=
  mk (used b) (selector_immediate b) (selector_terminals b) (compiled_samples b) (urltest_samples b) (urltest_candidates b) x.
End Budget.

Section projection.
Context (debug : string -> string) (parse_go_duration : string -> result string Z).
Context (json_chunks : Value.t -> list string) (sha256 : string -> string).

Local Abbreviation tag_of := ValidatedOutbound.tag.
Local Abbreviation id_of := ValidatedOutbound.id.
Implicit Types outbound : ValidatedOutbound.t.

(** ** Measuring *)

(** [a.checked_add(b).ok_or_else(..)] *)
Definition checked_add (what : string) (a b : Z) : fallible Z :=
  if a + b <=? usize_max then Ok (a + b) else error ["projected client-chain "; what; " overflowed usize"].

Definition add_hops := checked_add "hop count".
Definition add_count := checked_add "count".
Definition add_bytes := checked_add "byte count".

(** [JsonByteCounter::write] *)
Definition counter_write (bytes : result string Z) (buffer : string) : result string Z :=
  bytes ← bytes;
  if bytes + str_len buffer <=? usize_max then Ok (bytes + str_len buffer) else Err "serialized JSON byte count overflow".

Definition serialized_json_len (value : Value.t) : fallible Z :=
  match foldl counter_write (Ok 0) (json_chunks value) with
  | Ok bytes => Ok bytes
  | Err e => error ["measure projected client-chain JSON: "; e]
  end.

(** [json_fingerprint]: the digest of the bytes written to [JsonHashWriter]. *)
Definition json_fingerprint (value : Value.t) : string := sha256 (fmt (json_chunks value)).

(** One round of the loop of [inspect]. *)
Definition inspect_chain (projection : ClientChainsProjection.t) (chain : Value.t) : fallible ClientChainsProjection.t :=
  match Value.get "chain" chain ≫= Value.as_array with
  | None => error ["compiled outbound produced an invalid client-chain entry"]
  | Some hops =>
      hops ← add_hops (ClientChainsProjection.hops projection) (Z.of_nat (length hops));
      chain_count ← add_count (ClientChainsProjection.chain_count projection) 1;
      len ← serialized_json_len chain;
      chain_element_bytes ← add_bytes (ClientChainsProjection.chain_element_bytes projection) len;
      Ok (ClientChainsProjection.mk hops chain_count chain_element_bytes)
  end.

Fixpoint inspect_chains (projection : ClientChainsProjection.t) (chains : list Value.t) : fallible ClientChainsProjection.t :=
  match chains with
  | [] => Ok projection
  | chain :: chains => projection ← inspect_chain projection chain; inspect_chains projection chains
  end.

Definition inspect (value : Value.t) : fallible ClientChainsProjection.t :=
  match Value.as_array value with
  | None => error ["compiled outbound did not produce a client-chain array"]
  | Some chains => inspect_chains ClientChainsProjection.zero chains
  end.

(** [ClientChainsProjection::append] *)
Definition append (self other : ClientChainsProjection.t) : fallible ClientChainsProjection.t :=
  hops ← add_hops (ClientChainsProjection.hops self) (ClientChainsProjection.hops other);
  chain_count ← add_count (ClientChainsProjection.chain_count self) (ClientChainsProjection.chain_count other);
  chain_element_bytes ← add_bytes (ClientChainsProjection.chain_element_bytes self)
                          (ClientChainsProjection.chain_element_bytes other);
  Ok (ClientChainsProjection.mk hops chain_count chain_element_bytes).

(** The brackets of the array and the commas between the chains. *)
Definition cost_with_selection_bytes (self : ClientChainsProjection.t) (selection_bytes : Z)
    : fallible ClientChainProjectionCost.t :=
  bytes ← add_bytes (ClientChainsProjection.chain_element_bytes self) 2;
  bytes ← add_bytes bytes (Z.max 0 (ClientChainsProjection.chain_count self - 1));
  bytes ← add_bytes bytes selection_bytes;
  Ok (ClientChainProjectionCost.mk (ClientChainsProjection.hops self) bytes).

Definition cost (self : ClientChainsProjection.t) (selection : option Value.t) : fallible ClientChainProjectionCost.t :=
  selection_bytes ← match selection with Some selection => serialized_json_len selection | None => Ok 0 end;
  cost_with_selection_bytes self selection_bytes.

(** ** The budget *)

Local Abbreviation method := (stm Budget.t (exn string)).

Definition can_reserve (used additional : ClientChainProjectionCost.t) (context : string) : fallible unit :=
  hops ← add_hops (ClientChainProjectionCost.hops used) (ClientChainProjectionCost.hops additional);
  bytes ← add_bytes (ClientChainProjectionCost.bytes used) (ClientChainProjectionCost.bytes additional);
  if (MAX_PROJECTED_CLIENT_CHAIN_HOPS <? hops) || (MAX_PROJECTED_CLIENT_CHAIN_BYTES <? bytes)
  then error ["client-chain projection budget exceeded while compiling "; context; ": RuntimeConfig would contain ";
              to_dec hops; " projected hops and "; to_dec bytes; " projected JSON bytes; maximums are ";
              to_dec MAX_PROJECTED_CLIENT_CHAIN_HOPS; " hops and "; to_dec MAX_PROJECTED_CLIENT_CHAIN_BYTES; " bytes"]
  else Ok tt.

Definition ensure_can_reserve (additional : ClientChainProjectionCost.t) (context : string) : method unit := fun self =>
  (self, can_reserve (Budget.used self) additional context).

Definition reserve (additional : ClientChainProjectionCost.t) (context : string) : method unit :=
  _ ← ensure_can_reserve additional context;
  modify (fun self => Budget.set_used (ClientChainProjectionCost.add (Budget.used self) additional) self).

(** ** Compiled chains *)

Section catalog.
Context (catalog : catalog_t).

Definition compile_with_cache outbound : method Value.t := fun self =>
  let '(cache, compiled) :=
    compile_client_chains_cached debug (ValidatedOutbound.kind outbound) (tag_of outbound)
      (ValidatedOutbound.options_ref outbound) catalog (Budget.adapter_cache self) in
  (Budget.set_adapter_cache cache self,
   map_err (fun e => Fail (fmt ["compile outbound "; debug (tag_of outbound); ": "; e])) compiled).

Definition prepare_outbound_client_chains outbound : method unit :=
  self ← get;
  match Budget.compiled_samples self !! id_of outbound with
  | Some _ => mret tt
  | None =>
      compiled ← compile_with_cache outbound;
      projection ← lift (inspect compiled);
      modify (fun self => Budget.set_samples
                (<[id_of outbound := CompiledClientChainSample.mk compiled projection]> (Budget.compiled_samples self)) self)
  end.

(** The sample that was just prepared. *)
Definition prepared_sample outbound (message : string) : method CompiledClientChainSample.t :=
  self ← get; lift (expected message (Budget.compiled_samples self !! id_of outbound)).

(** ** Selectors *)

(** [cached_selector_outbound] over [selector_immediate]: the selection, and whether
    it was computed now. *)
Definition cached_selector_outbound (id : Z) (resolve : fallible ValidatedOutbound.t)
    : method (ValidatedOutbound.t * bool) :=
  self ← get;
  match Budget.selector_immediate self !! id with
  | Some selected => mret (selected, false)
  | None =>
      selected ← lift resolve;
      _ ← modify (fun self => Budget.set_immediate (<[id := selected]> (Budget.selector_immediate self)) self);
      mret (selected, true)
  end.

Definition resolve_immediate outbound : fallible ValidatedOutbound.t :=
  definition ← parse_selector_definition debug outbound;
  let selected_tag := SelectorDefinition.selected definition in
  match catalog !! selected_tag with
  | Some selected => Ok selected
  | None => error ["selector outbound "; debug (tag_of outbound); " references unknown member "; debug selected_tag]
  end.

Definition immediate_selector_outbound outbound : method ValidatedOutbound.t :=
  '(selected, inserted) ← cached_selector_outbound (id_of outbound) (resolve_immediate outbound);
  _ ← (if inserted : bool
       then modify (fun self => Budget.set_adapter_cache
                      (<[id_of outbound := ValidatedOutbound.as_outbound_ref selected]> (Budget.adapter_cache self)) self)
       else mret tt);
  mret selected.

(** [completed.insert(outbound.id, terminal)] *)
Definition complete_terminals (path : list ValidatedOutbound.t) (terminal : ValidatedOutbound.t) : method unit :=
  modify (fun self => Budget.set_terminals
            (foldl (fun completed outbound => <[id_of outbound := terminal]> completed) (Budget.selector_terminals self) path)
            self).

(** The loop of [resolve_static_selector_outbound]; the path grows with every round,
    so the depth check comes before the fuel runs out. *)
Fixpoint resolve_selector (fuel : nat) (current : ValidatedOutbound.t) (path : list ValidatedOutbound.t) {struct fuel}
    : method ValidatedOutbound.t :=
  self ← get;
  match Budget.selector_terminals self !! id_of current with
  | Some terminal => _ ← complete_terminals path terminal; mret terminal
  | None =>
      match position (fun active => id_of active =? id_of current) path with
      | Some cycle_start =>
          raise (Fail (fmt ["outbound reference cycle: "; join " -> " ((tag_of <$> drop cycle_start path) ++ [tag_of current])]))
      | None =>
          if (MAX_OUTBOUND_REFERENCE_DEPTH <=? length path)%nat
          then raise (Fail (fmt ["outbound reference depth exceeds maximum "; show_max; ": ";
                                 join " -> " (tag_of <$> path ++ [current])]))
          else if negb (String.eqb (ValidatedOutbound.kind current) "selector")
          then _ ← complete_terminals (current :: path) current; mret current
          else
            match fuel with
            | O => raise (Panic "out of fuel")
            | S fuel =>
                next ← immediate_selector_outbound current;
                resolve_selector fuel next (path ++ [current])
            end
      end
  end.

Definition resolve_static_selector_outbound outbound : method ValidatedOutbound.t :=
  resolve_selector MAX_OUTBOUND_REFERENCE_DEPTH outbound [].

(** ** URL tests *)

(** The members of a group after removing repeated RealTags. *)
Record resolved_members_t : Type := mkMembers {
  selected_ids : gset Z;
  history_keys : list string;
  failure_history_keys : list string;
  resolved_members : list ValidatedOutbound.t
}.

(** The first loop: RealTags are resolved and counted. *)
Fixpoint urltest_members outbound (tags : list string) (acc : resolved_members_t) : method resolved_members_t :=
  match tags with
  | [] => mret acc
  | member_tag :: tags =>
      match catalog !! member_tag with
      | None => raise (Fail (fmt ["urltest outbound "; debug (tag_of outbound); " references unknown member "; debug member_tag]))
      | Some member =>
          real_outbound ← (if String.eqb (ValidatedOutbound.kind member) "selector"
                           then immediate_selector_outbound member else mret member);
          if bool_decide (id_of real_outbound ∈ selected_ids acc) then urltest_members outbound tags acc
          else
            let ids := {[ id_of real_outbound ]} ∪ selected_ids acc in
            self ← get;
            let projected_candidates := Budget.urltest_candidates self + Z.of_nat (size ids) in
            if usize_max <? projected_candidates then raise (Fail "active URLTest candidate count overflowed usize")
            else if MAX_PROJECTED_URLTEST_CANDIDATES <? projected_candidates
            then raise (Fail (fmt ["active URLTest candidate budget exceeded while compiling "; debug (tag_of outbound);
                                   ": RuntimeConfig would schedule "; to_dec projected_candidates;
                                   " candidates; maximum is "; to_dec MAX_PROJECTED_URLTEST_CANDIDATES]))
            else
              urltest_members outbound tags
                (mkMembers ids (history_keys acc ++ [tag_of real_outbound]) (failure_history_keys acc ++ [tag_of member])
                   (resolved_members acc ++ [member]))
      end
  end.

Definition urltest_context outbound : string := fmt ["urltest outbound "; debug (tag_of outbound)].

(** The second loop: the chains of the members are compiled and measured. *)
Fixpoint urltest_chains outbound (selection_bytes : Z) (members : list ValidatedOutbound.t)
    (projection : ClientChainsProjection.t) (compiled : list Value.t)
    : method (ClientChainsProjection.t * list Value.t) :=
  match members with
  | [] => mret (projection, compiled)
  | member :: members =>
      selected ← resolve_static_selector_outbound member;
      if String.eqb (ValidatedOutbound.kind selected) "urltest"
      then raise (Fail (fmt ["urltest outbound "; debug (tag_of outbound); " contains nested active urltest through member ";
                             debug (tag_of member)]))
      else
        _ ← prepare_outbound_client_chains selected;
        sample ← prepared_sample selected "prepared URLTest chain sample is cached";
        projection ← lift (append projection (CompiledClientChainSample.projection sample));
        cost ← lift (cost_with_selection_bytes projection selection_bytes);
        _ ← ensure_can_reserve cost (urltest_context outbound);
        urltest_chains outbound selection_bytes members projection (compiled ++ [CompiledClientChainSample.value sample])
  end.

(** [chains.extend(member_chains)] *)
Fixpoint extend_chains (compiled : list Value.t) : fallible (list Value.t) :=
  match compiled with
  | [] => Ok []
  | value :: compiled =>
      match value with
      | Value.Array member_chains => chains ← extend_chains compiled; Ok (member_chains ++ chains)
      | _ => Err (Panic "compiled URLTest member chains were inspected above")
      end
  end.

Definition compile_urltest_action outbound : method CompiledOutboundAction.t :=
  self ← get;
  match Budget.urltest_samples self !! id_of outbound with
  | Some sample =>
      _ ← reserve (CachedUrltestAction.cost sample) (urltest_context outbound);
      mret (CachedUrltestAction.action sample)
  | None =>
      if (MAX_PROJECTED_URLTEST_GROUPS <=? size (Budget.urltest_samples self))%nat
      then raise (Fail (fmt ["active URLTest group budget exceeded while compiling "; debug (tag_of outbound);
                             ": maximum is "; to_dec (Z.of_nat MAX_PROJECTED_URLTEST_GROUPS);
                             " distinct groups per RuntimeConfig"]))
      else
        definition ← lift (parse_urltest_definition debug parse_go_duration outbound);
        acc ← urltest_members outbound (UrltestDefinition.members definition) (mkMembers ∅ [] [] []);
        let selection := Map.insert "history_keys" (Value.strings (history_keys acc)) (UrltestDefinition.selection definition) in
        let selection := Map.insert "failure_history_keys" (Value.strings (failure_history_keys acc)) selection in
        selection_bytes ← lift (serialized_json_len (Value.Object selection));
        '(projection, compiled_members) ← urltest_chains outbound selection_bytes (resolved_members acc) ClientChainsProjection.zero [];
        cost ← lift (cost_with_selection_bytes projection selection_bytes);
        _ ← reserve cost (urltest_context outbound);
        chains ← lift (extend_chains compiled_members);
        let identity_fingerprint :=
          json_fingerprint (Value.Array [Value.String (tag_of outbound); Value.Array chains; Value.Object selection]) in
        let shared_id := "node-agent-urltest-v1:" +:+ Hex.encode identity_fingerprint in
        let selection := Map.insert "shared_id" (Value.String shared_id) selection in
        let action := CompiledOutboundAction.mk (Value.Array chains) (Some (Value.Object selection)) in
        _ ← modify (fun self => Budget.set_urltest
                     (<[id_of outbound := CachedUrltestAction.mk action cost]> (Budget.urltest_samples self)) self);
        self ← get;
        let candidates := Budget.urltest_candidates self + Z.of_nat (size (selected_ids acc)) in
        candidates ← lift (expected "URLTest candidate capacity was checked above"
                             (if candidates <=? usize_max then Some candidates else None));
        _ ← modify (Budget.set_candidates candidates);
        mret action
  end.

(** ** The action of an outbound *)

Definition outbound_client_action outbound : method CompiledOutboundAction.t :=
  selected ← resolve_static_selector_outbound outbound;
  if String.eqb (ValidatedOutbound.kind selected) "urltest" then compile_urltest_action selected
  else
    _ ← prepare_outbound_client_chains selected;
    sample ← prepared_sample selected "prepared outbound chain sample is cached";
    cost ← lift (cost (CompiledClientChainSample.projection sample) None);
    _ ← reserve cost (fmt ["outbound "; debug (tag_of outbound)]);
    sample ← prepared_sample selected "reserved outbound chain sample is cached";
    mret (CompiledOutboundAction.mk (CompiledClientChainSample.value sample) None).
End catalog.

(** [apply_outbound_action] on the fields of an object *)
Definition apply_outbound_action (target : Value.fields) (chain_field : string) (action : CompiledOutboundAction.t)
    : Value.fields :=
  let target := Map.insert chain_field (CompiledOutboundAction.client_chains action) target in
  match CompiledOutboundAction.client_chain_selection action with
  | Some selection => Map.insert "client_chain_selection" selection target
  | None => target
  end.

Definition reserve_embedded_outbound_action (source : Value.fields) (chain_field : string) (context : string)
    : method unit :=
  match Map.get chain_field source with
  | None => mret tt
  | Some client_chains =>
      projection ← lift (inspect client_chains);
      cost ← lift (cost projection (Map.get "client_chain_selection" source));
      reserve cost context
  end.
End projection.
