(* ===== verification/BudgetSpec.v ===== *)
(** * What a projection embeds and what the budget counts

    Measures of JSON values ([json_len]) and of what an action embeds ([measure]); the
    invariant of the budget over a validated catalog ([budget_ok]); and the theorem that
    an outbound's action is its reference meaning, at exactly the cost that is counted. *)

From Stdlib Require Import ZArith Lia.
From S2P Require Import Prelude Bytes Json Hex Runtime OutboundAdapter OutboundGraph OutboundGraphSpec.
From S2P Require Import OutboundChains OutboundProjection.

Open Scope Z_scope.

(** ** Serialised sizes *)

Section sizes.
Context (json_chunks : Value.t -> list string).

Fixpoint chunks_len (chunks : list string) : Z :=
  match chunks with [] => 0 | chunk :: chunks => str_len chunk + chunks_len chunks end.

Definition json_len (value : Value.t) : Z := chunks_len (json_chunks value).

(** A character JSON writes as it is. *)
Definition unescaped (c : Ascii.ascii) : bool :=
  is_plain c && negb (code c =? 34) && negb (code c =? 92).

Fixpoint sum_len (l : list Value.t) : Z :=
  match l with [] => 0 | v :: l => json_len v + sum_len l end.
Fixpoint sum_fields (m : Value.fields) : Z :=
  match m with [] => 0 | (k, v) :: m => json_len (Value.String k) + 1 + json_len v + sum_fields m end.

(** The format of compact JSON. *)
Class JsonLaws : Prop := {
  json_array l : json_len (Value.Array l) = 2 + sum_len l + Z.max 0 (Z.of_nat (length l) - 1);
  json_object m : json_len (Value.Object m) = 2 + sum_fields m + Z.max 0 (Z.of_nat (length m) - 1);
  json_string s : forallb unescaped (chars s) = true -> json_len (Value.String s) = 2 + str_len s
}.

Lemma str_len_nonneg s : 0 <= str_len s.
Proof. unfold str_len. lia. Qed.

Lemma json_len_nonneg v : 0 <= json_len v.
Proof. unfold json_len. induction (json_chunks v) as [|c l IH]; cbn -[str_len]; [lia|]. pose proof (str_len_nonneg c). lia. Qed.

Lemma sum_len_nonneg l : 0 <= sum_len l.
Proof. induction l as [|v l IH]; cbn -[json_len]; [lia|]. pose proof (json_len_nonneg v). lia. Qed.

Lemma sum_len_app a b : sum_len (a ++ b) = sum_len a + sum_len b.
Proof. induction a as [|v a IH]; cbn -[json_len]; [done|]. rewrite IH. lia. Qed.

Lemma counter_foldl chunks n m :
  foldl counter_write (Ok n) chunks = Ok m -> m = n + chunks_len chunks.
Proof.
  revert n. induction chunks as [|c l IH]; intros n; cbn -[Z.leb str_len]; [intros [= <-]; lia|].
  destruct (_ <=? _).
  - intros ->%IH. lia.
  - intros H. exfalso. clear IH. induction l as [|c' l IH]; cbn in H; [done|auto].
Qed.

(** The counter counts the bytes that are written. *)
Lemma serialized_json_len_Ok v n : serialized_json_len json_chunks v = Ok n -> n = json_len v.
Proof.
  unfold serialized_json_len. destruct (foldl _ _ _) as [m|] eqn:E; [|done]. intros [= <-].
  apply counter_foldl in E. unfold json_len. lia.
Qed.

Lemma serialized_json_len_no_panic v : no_panic (serialized_json_len json_chunks v).
Proof. unfold serialized_json_len. destruct (foldl _ _ _); [done|apply no_panic_error]. Qed.

(** ** Chains *)

Definition chain_hops (chain : Value.t) : Z :=
  match Value.get "chain" chain ≫= Value.as_array with Some hops => Z.of_nat (length hops) | None => 0 end.

Fixpoint sum_hops (chains : list Value.t) : Z :=
  match chains with [] => 0 | chain :: chains => chain_hops chain + sum_hops chains end.

Lemma sum_hops_app a b : sum_hops (a ++ b) = sum_hops a + sum_hops b.
Proof. induction a as [|v a IH]; cbn -[chain_hops]; [done|]. rewrite IH. lia. Qed.

Lemma sum_hops_nonneg l : 0 <= sum_hops l.
Proof.
  induction l as [|v l IH]; cbn -[chain_hops]; [lia|]. unfold chain_hops. destruct (_ ≫= _); lia.
Qed.

(** What a list of chains amounts to. *)
Definition projection_of (chains : list Value.t) : ClientChainsProjection.t :=
  ClientChainsProjection.mk (sum_hops chains) (Z.of_nat (length chains)) (sum_len chains).

Lemma checked_add_Ok what a b c : checked_add what a b = Ok c -> c = a + b /\ a + b <= usize_max.
Proof. unfold checked_add. destruct (Z.leb_spec (a + b) usize_max); [|done]. by intros [= <-]. Qed.

Lemma checked_add_no_panic what a b : no_panic (checked_add what a b).
Proof. unfold checked_add. destruct (_ <=? _); [done|apply no_panic_error]. Qed.

Lemma inspect_chains_Ok chains p q :
  inspect_chains json_chunks p chains = Ok q ->
  q = ClientChainsProjection.mk (ClientChainsProjection.hops p + sum_hops chains)
        (ClientChainsProjection.chain_count p + Z.of_nat (length chains))
        (ClientChainsProjection.chain_element_bytes p + sum_len chains).
Proof.
  revert p. induction chains as [|v chains IH]; intros p; cbn -[inspect_chain chain_hops json_len].
  { intros [= <-]. destruct p; cbn. f_equal; lia. }
  intros (p' & H & Hq)%bind_Ok. apply IH in Hq as ->. unfold inspect_chain in H. unfold chain_hops at 1.
  destruct (Value.get "chain" v ≫= Value.as_array) as [hops|]; [|done].
  apply bind_Ok in H as (h & [-> _]%checked_add_Ok & H). apply bind_Ok in H as (n & [-> _]%checked_add_Ok & H).
  apply bind_Ok in H as (l & ->%serialized_json_len_Ok & H). apply bind_Ok in H as (e & [-> _]%checked_add_Ok & H).
  injection H as <-. cbn [ClientChainsProjection.hops ClientChainsProjection.chain_count ClientChainsProjection.chain_element_bytes].
  f_equal; cbn -[chain_hops json_len]; lia.
Qed.

Lemma inspect_Ok v q : inspect json_chunks v = Ok q -> exists chains, v = Value.Array chains /\ q = projection_of chains.
Proof.
  unfold inspect. destruct v; try done. cbn. intros ->%inspect_chains_Ok. eexists. split; [done|].
  unfold projection_of. cbn. f_equal; lia.
Qed.

Lemma append_Ok a b q :
  append (projection_of a) (projection_of b) = Ok q -> q = projection_of (a ++ b).
Proof.
  unfold append. cbn [ClientChainsProjection.hops ClientChainsProjection.chain_count ClientChainsProjection.chain_element_bytes projection_of].
  intros H. apply bind_Ok in H as (h & [-> _]%checked_add_Ok & H). apply bind_Ok in H as (n & [-> _]%checked_add_Ok & H).
  apply bind_Ok in H as (e & [-> _]%checked_add_Ok & H). injection H as <-.
  unfold projection_of. rewrite sum_hops_app, sum_len_app, length_app. f_equal; lia.
Qed.

Context {laws : JsonLaws}.

(** The cost is the hops and the bytes of the array, and of the selection. *)
Lemma cost_Ok chains n q :
  cost_with_selection_bytes (projection_of chains) n = Ok q ->
  q = ClientChainProjectionCost.mk (sum_hops chains) (json_len (Value.Array chains) + n).
Proof.
  unfold cost_with_selection_bytes. cbn [ClientChainsProjection.hops ClientChainsProjection.chain_count ClientChainsProjection.chain_element_bytes projection_of].
  intros H. apply bind_Ok in H as (h & [-> _]%checked_add_Ok & H). apply bind_Ok in H as (m & [-> _]%checked_add_Ok & H).
  apply bind_Ok in H as (e & [-> _]%checked_add_Ok & H). injection H as <-. rewrite json_array. f_equal. lia.
Qed.

(** ** What an action embeds *)

Definition measure_parts (client_chains : Value.t) (selection : option Value.t) : ClientChainProjectionCost.t :=
  ClientChainProjectionCost.mk
    (match client_chains with Value.Array chains => sum_hops chains | _ => 0 end)
    (json_len client_chains + match selection with Some selection => json_len selection | None => 0 end).

Definition measure (action : CompiledOutboundAction.t) : ClientChainProjectionCost.t :=
  measure_parts (CompiledOutboundAction.client_chains action) (CompiledOutboundAction.client_chain_selection action).

Lemma cost_measure v selection p q :
  inspect json_chunks v = Ok p -> cost json_chunks p selection = Ok q -> q = measure_parts v selection.
Proof.
  intros (chains & -> & ->)%inspect_Ok. unfold cost. intros (n & Hn & ->%cost_Ok)%bind_Ok.
  unfold measure_parts. f_equal. destruct selection as [s|]; [|by injection Hn as <-].
  by apply serialized_json_len_Ok in Hn as ->.
Qed.

Lemma measure_nonneg v selection :
  0 <= ClientChainProjectionCost.hops (measure_parts v selection) /\ 0 <= ClientChainProjectionCost.bytes (measure_parts v selection).
Proof.
  unfold measure_parts. cbn. split.
  - destruct v; try lia. apply sum_hops_nonneg.
  - pose proof (json_len_nonneg v). destruct selection as [s|]; [pose proof (json_len_nonneg s)|]; lia.
Qed.

(** *** The identity of a URL test *)

Definition selection_fields (url : string) (interval idle tolerance : Z) : Value.fields :=
  Map.from_iter
    [("type", Value.String "urltest"); ("shared_id", Value.String placeholder_id);
     ("url", Value.String url); ("use_native_roots", Value.Bool true);
     ("reselect_on_connection_failure", Value.Bool false);
     ("interval_millis", Value.num interval); ("idle_timeout_millis", Value.num idle);
     ("tolerance_millis", Value.num tolerance)].

Definition with_history (history failures : list string) (fields : Value.fields) : Value.fields :=
  Map.insert "failure_history_keys" (Value.strings failures) (Map.insert "history_keys" (Value.strings history) fields).

Lemma unescaped_hex bytes : forallb unescaped (Hex.encode_chars bytes) = true.
Proof.
  induction bytes as [|b bytes IH]; [done|]. cbn -[Hex.digit_at unescaped].
  assert (H : forall z, unescaped (Hex.digit_at z) = true).
  { intros z. unfold Hex.digit_at. destruct (String.get _ _) eqn:E; [|done].
    assert (Forall (fun c => unescaped c = true) (chars Hex.DIGITS)) as Hall by (repeat constructor).
    rewrite List.Forall_forall in Hall. apply Hall.
    clear -E. revert E. generalize Hex.DIGITS (Z.to_nat z). induction s as [|c s IH]; intros [|n]; cbn; try done.
    - intros [= ->]. by left.
    - intros H%IH. by right. }
  by rewrite !H, IH.
Qed.

Lemma json_len_shared_id digest :
  str_len digest = 32 ->
  json_len (Value.String ("node-agent-urltest-v1:" +:+ Hex.encode digest)) = json_len (Value.String placeholder_id).
Proof.
  intros Hd. assert (Hc : chars ("node-agent-urltest-v1:" +:+ Hex.encode digest)
                          = chars "node-agent-urltest-v1:" ++ Hex.encode_chars (chars digest)).
  { rewrite chars_app. f_equal. unfold Hex.encode. apply chars_of_chars. }
  assert (Hlen : forall s, String.length s = length (chars s)).
  { clear. unfold chars. induction s as [|c s IH]; cbn; [done|]. by f_equal. }
  rewrite !json_string; [|by vm_compute|].
  - unfold str_len in *. rewrite (Hlen digest) in Hd.
    rewrite (Hlen (_ +:+ _)), Hc, length_app, Hex.length_encode_chars.
    change (length (chars "node-agent-urltest-v1:")) with 22%nat.
    change (String.length placeholder_id) with 86%nat. lia.
  - rewrite Hc, forallb_app. apply andb_true_intro. split; [by vm_compute|apply unescaped_hex].
Qed.

Lemma json_len_identity digest history failures url interval idle tolerance :
  str_len digest = 32 ->
  let fields := with_history history failures (selection_fields url interval idle tolerance) in
  json_len (Value.Object (Map.insert "shared_id" (Value.String ("node-agent-urltest-v1:" +:+ Hex.encode digest)) fields))
  = json_len (Value.Object fields).
Proof.
  intros Hd. pose proof (json_len_shared_id digest Hd) as H. revert H.
  generalize (Value.String ("node-agent-urltest-v1:" +:+ Hex.encode digest)) as final.
  unfold with_history, selection_fields, Map.from_iter. generalize placeholder_id as initial.
  generalize (Value.String url) (Value.num interval) (Value.num idle) (Value.num tolerance) (Value.strings history)
    (Value.strings failures).
  intros v1 v2 v3 v4 v5 v6 initial final H.
  match goal with
  | |- _ (Value.Object ?a) = _ (Value.Object ?b) =>
      let a' := eval vm_compute in a in let b' := eval vm_compute in b in change a with a'; change b with b'
  end.
  rewrite !json_object. cbn [sum_fields length]. lia.
Qed.
End sizes.

(** ** The projection budget over a validated catalog

    [budget_ok] is the invariant of [ClientChainProjectionBudget]: the limits hold and
    everything that is remembered is what would be computed again.  [outbound_action_exact]
    gives the meaning of an outbound's action and its exact cost. *)

Open Scope Z_scope.

Section budget.
Context (debug : string -> string) (parse_go_duration : string -> result string Z).
Context (json_chunks : Value.t -> list string) (sha256 : string -> string).
Context (c0 c : catalog_t).

Local Abbreviation method := (stm Budget.t (exn string)).
Local Abbreviation tag_of := ValidatedOutbound.tag.
Local Abbreviation id_of := ValidatedOutbound.id.
Local Abbreviation kind_of := ValidatedOutbound.kind.
Local Abbreviation chain_of := (chain_of debug c).
Local Abbreviation selects := (selects debug c).
Local Abbreviation path := (path debug parse_go_duration c0).
Local Abbreviation plain := (plain debug c0).

Hypothesis Hwf : wf_catalog c0.
Hypothesis Hres : with_resolvers c0 c.
Hypothesis Hval : validate_outbound_catalog debug parse_go_duration c0 = Ok tt.
Context {laws : JsonLaws json_chunks}.
Hypothesis Hsha : forall bytes, str_len (sha256 bytes) = 32.

(** ** Meaning of an action *)

Definition chain_obj (hops : Chain) : Value.t := Value.obj [("chain", Value.Array hops)].

(** The RealTag of a member: a selector counts as its immediate selection. *)
Definition real_tag (member real : ValidatedOutbound.t) : Prop :=
  if String.eqb (kind_of member) "selector"
  then exists definition, parse_selector_definition debug member = Ok definition /\
                          c !! SelectorDefinition.selected definition = Some real
  else real = member.

(** The first member of each RealTag. *)
Fixpoint first_members (seen : gset Z) (l : list (ValidatedOutbound.t * ValidatedOutbound.t))
    : list (ValidatedOutbound.t * ValidatedOutbound.t) :=
  match l with
  | [] => []
  | (member, real) :: l =>
      if bool_decide (id_of real ∈ seen) then first_members seen l
      else (member, real) :: first_members ({[ id_of real ]} ∪ seen) l
  end.

Definition urltest_action (o : ValidatedOutbound.t) (action : CompiledOutboundAction.t) : Prop :=
  exists definition pairs chains,
    parse_urltest_definition debug parse_go_duration o = Ok definition /\
    Forall2 (fun tag p => c !! tag = Some p.1 /\ real_tag p.1 p.2) (UrltestDefinition.members definition) pairs /\
    let kept := first_members ∅ pairs in
    Forall2 (fun p chain => exists terminal, selects (tag_of p.1) terminal /\ chain_of terminal chain) kept chains /\
    let fields := with_history ((fun p => tag_of p.2) <$> kept) ((fun p => tag_of p.1) <$> kept)
                    (UrltestDefinition.selection definition) in
    let client_chains := Value.Array (chain_obj <$> chains) in
    let identity := json_fingerprint json_chunks sha256
                      (Value.Array [Value.String (tag_of o); client_chains; Value.Object fields]) in
    action = CompiledOutboundAction.mk client_chains
               (Some (Value.Object (Map.insert "shared_id" (Value.String ("node-agent-urltest-v1:" +:+ Hex.encode identity)) fields))).

(** What the action of an outbound is to be. *)
Definition represents (tag : string) (action : CompiledOutboundAction.t) : Prop := exists terminal,
  selects tag terminal /\
  if String.eqb (kind_of terminal) "urltest" then urltest_action terminal action
  else exists chain, chain_of terminal chain /\ action = CompiledOutboundAction.mk (chain_value chain) None.

(** ** The invariant *)

Definition of_outbound (P : ValidatedOutbound.t -> Prop) (id : Z) : Prop := forall tag o,
  c !! tag = Some o -> id_of o = id -> P o.

Record budget_ok (b : Budget.t) : Prop := {
  bo_hops : 0 <= ClientChainProjectionCost.hops (Budget.used b) <= MAX_PROJECTED_CLIENT_CHAIN_HOPS;
  bo_bytes : 0 <= ClientChainProjectionCost.bytes (Budget.used b) <= MAX_PROJECTED_CLIENT_CHAIN_BYTES;
  bo_groups : (size (Budget.urltest_samples b) <= MAX_PROJECTED_URLTEST_GROUPS)%nat;
  bo_candidates : 0 <= Budget.urltest_candidates b <= MAX_PROJECTED_URLTEST_CANDIDATES;
  bo_immediate id selected : Budget.selector_immediate b !! id = Some selected ->
    of_outbound (fun o => exists d, parse_selector_definition debug o = Ok d /\
                                    c !! SelectorDefinition.selected d = Some selected) id;
  bo_terminals id terminal : Budget.selector_terminals b !! id = Some terminal ->
    of_outbound (fun o => selects (tag_of o) terminal) id;
  bo_samples id sample : Budget.compiled_samples b !! id = Some sample ->
    of_outbound (fun o => exists chain, chain_of o chain /\ CompiledClientChainSample.value sample = chain_value chain /\
                   CompiledClientChainSample.projection sample = projection_of json_chunks [chain_obj chain]) id;
  bo_urltest id sample : Budget.urltest_samples b !! id = Some sample ->
    of_outbound (fun o => urltest_action o (CachedUrltestAction.action sample) /\
                          CachedUrltestAction.cost sample = measure json_chunks (CachedUrltestAction.action sample)) id;
  bo_cache : cache_ok debug c (Budget.adapter_cache b)
}.

Lemma budget_ok_zero : budget_ok Budget.zero.
Proof.
  split; cbn; try (by intros ?? H; rewrite lookup_empty in H); try (by vm_compute).
  rewrite map_size_empty. lia.
Qed.

(** What the loops leave alone. *)
Definition same (b b' : Budget.t) : Prop :=
  Budget.used b' = Budget.used b /\ Budget.urltest_samples b' = Budget.urltest_samples b /\
  Budget.urltest_candidates b' = Budget.urltest_candidates b.

Lemma same_refl b : same b b.
Proof. done. Qed.
Lemma same_trans b1 b2 b3 : same b1 b2 -> same b2 b3 -> same b1 b3.
Proof. unfold same. intros (? & ? & ?) (? & ? & ?). split_and!; congruence. Qed.

(** A computation that spends nothing: on success [Q], and errors are reported. *)
Definition runs {A} (m : method A) (b : Budget.t) (Q : A -> Budget.t -> Prop) : Prop :=
  match m b with
  | (b', Ok a) => budget_ok b' /\ same b b' /\ Q a b'
  | (b', Err e) => budget_ok b' /\ same b b' /\ exists message, e = Fail message
  end.

Lemma runs_done {A} (a : A) b (Q : A -> Budget.t -> Prop) : budget_ok b -> Q a b -> runs (mret a) b Q.
Proof. by intros ??. Qed.

Lemma runs_then {A B} (m : method A) (f : A -> method B) b Q R :
  runs m b Q -> (forall a b', budget_ok b' -> same b b' -> Q a b' -> runs (f a) b' R) -> runs (m ≫= f) b R.
Proof.
  unfold runs, mbind, stm_bind. destruct (m b) as [b1 [a|e]]; [|done]. intros (Hb & Hs & HQ) Hf.
  specialize (Hf a b1 Hb Hs HQ). destruct (f a b1) as [b2 [a2|e]];
    destruct Hf as (Hb2 & Hs2 & H2); split_and!; try done; by eapply same_trans.
Qed.

Lemma runs_impl {A} (m : method A) b (Q R : A -> Budget.t -> Prop) :
  runs m b Q -> (forall a b', Q a b' -> R a b') -> runs m b R.
Proof. unfold runs. destruct (m b) as [b1 [a|e]]; naive_solver. Qed.

Lemma runs_lift {A} (r : fallible A) b : budget_ok b -> no_panic r -> runs (lift r) b (fun a b' => r = Ok a /\ b' = b).
Proof. intros Hb Hr. unfold runs, lift. destruct r as [a|e]; [done|]. split_and!; [done|done|]. by apply Hr. Qed.

Lemma runs_error {A} message b (Q : A -> Budget.t -> Prop) : budget_ok b -> runs (raise (Fail message)) b Q.
Proof. intros Hb. unfold runs, raise. split_and!; [done|done|by eexists]. Qed.

(** ** The two catalogs *)

Lemma in_origin tag o : c !! tag = Some o -> exists o0 r, c0 !! tag = Some o0 /\ o = ValidatedOutbound.set_shoes_dns_resolver r o0.
Proof. by apply lookup_origin. Qed.

Lemma tag_key tag o : c !! tag = Some o -> tag_of o = tag.
Proof. intros (o0 & r & Ho & ->)%in_origin. exact (wf_keyed _ Hwf _ _ Ho). Qed.

Lemma id_key tag o tag' o' : c !! tag = Some o -> c !! tag' = Some o' -> id_of o = id_of o' -> tag = tag' /\ o = o'.
Proof.
  intros Ho Ho' Hid. destruct (in_origin _ _ Ho) as (o0 & r & Ho0 & Heq), (in_origin _ _ Ho') as (o0' & r' & Ho0' & Heq').
  assert (tag = tag') as <- by (eapply (wf_ids _ Hwf); [done..|]; by subst). split; [done|congruence].
Qed.

Lemma of_outbound_intro (P : ValidatedOutbound.t -> Prop) tag o : c !! tag = Some o -> P o -> of_outbound P (id_of o).
Proof. intros Ho HP tag' o' Ho' Hid. by destruct (id_key _ _ _ _ Ho' Ho Hid) as [-> ->]. Qed.

Lemma selects_origin tag t : selects tag t ->
  exists t0 r, OutboundGraphSpec.selects debug c0 tag t0 /\ t = ValidatedOutbound.set_shoes_dns_resolver r t0.
Proof.
  induction 1 as [tag o Ho Hk|tag o d t Ho Hk Hd _ (t0 & r & Ht & ->)]; destruct (in_origin _ _ Ho) as (o0 & r' & Ho0 & ->).
  - exists o0, r'. split; [by constructor|done].
  - exists t0, r. split; [by eapply selects_via|done].
Qed.

Lemma selects_image tag t0 : OutboundGraphSpec.selects debug c0 tag t0 ->
  exists r, selects tag (ValidatedOutbound.set_shoes_dns_resolver r t0).
Proof.
  induction 1 as [tag o Ho Hk|tag o d t Ho Hk Hd _ (r & IH)]; destruct (lookup_image _ _ Hres _ _ Ho) as [r' Ho'].
  - exists r'. by constructor.
  - exists r. by eapply selects_via.
Qed.

Lemma selects_in tag : is_Some (c !! tag) -> exists t, selects tag t.
Proof.
  intros [o Ho]. destruct (in_origin _ _ Ho) as (o0 & r & Ho0 & _).
  destruct (selects_total _ _ _ (validated_acceptable _ _ _ Hval) tag ltac:(by eexists)) as [t Ht].
  apply selects_image in Ht as [r' Ht]. by eexists.
Qed.

Lemma selects_lookup tag t : selects tag t -> exists tag', c !! tag' = Some t.
Proof. induction 1; eauto. Qed.

Lemma plain_terminal tag t : selects tag t -> kind_of t <> "urltest" -> plain (tag_of t).
Proof.
  intros Ht Hk. destruct (selects_lookup _ _ Ht) as [tag' Ho].
  rewrite (tag_key _ _ Ho). intros t0 Ht0. destruct (in_origin _ _ Ho) as (o0 & r & Ho0 & Heq).
  assert (kind_of o0 <> "selector") as Hs.
  { apply selects_kind in Ht. by subst. }
  assert (OutboundGraphSpec.selects debug c0 tag' o0) as H by (by constructor).
  rewrite (selects_fun _ _ _ _ _ Ht0 H). by subst.
Qed.

(** ** Updates of what is remembered *)

Lemma ok_set_immediate b tag o d selected :
  budget_ok b -> c !! tag = Some o -> parse_selector_definition debug o = Ok d ->
  c !! SelectorDefinition.selected d = Some selected ->
  budget_ok (Budget.set_immediate (<[id_of o := selected]> (Budget.selector_immediate b)) b).
Proof.
  intros Hb Ho Hd Hs. destruct Hb. split; cbn; try done.
  intros id s. destruct (decide (id = id_of o)) as [->|]; [rewrite lookup_insert_eq|rewrite lookup_insert_ne by done; auto].
  intros [= <-]. eapply of_outbound_intro; [done|]. eauto.
Qed.

Lemma ok_set_cache b cache : budget_ok b -> cache_ok debug c cache -> budget_ok (Budget.set_adapter_cache cache b).
Proof. intros [] Hc. by split. Qed.

Lemma cache_ok_insert cache tag o d target :
  cache_ok debug c cache -> c !! tag = Some o -> parse_selector_definition debug o = Ok d ->
  c !! SelectorDefinition.selected d = Some target ->
  cache_ok debug c (<[id_of o := ValidatedOutbound.as_outbound_ref target]> cache).
Proof.
  intros Hc Ho Hd Ht id s. destruct (decide (id = id_of o)) as [->|]; [rewrite lookup_insert_eq|rewrite lookup_insert_ne by done; apply Hc].
  intros [= <-] tag' o' Ho' Hid. destruct (id_key _ _ _ _ Ho' Ho Hid) as [-> ->]. eauto.
Qed.

Lemma ok_complete b outbounds terminal :
  budget_ok b ->
  (forall o, o ∈ outbounds -> exists tag, c !! tag = Some o /\ selects tag terminal) ->
  budget_ok (Budget.set_terminals
    (foldl (fun completed o => <[id_of o := terminal]> completed) (Budget.selector_terminals b) outbounds) b).
Proof.
  intros Hb Hall. destruct Hb. split; cbn; try done. clear -bo_terminals0 Hall Hwf Hres.
  revert bo_terminals0 Hall. generalize (Budget.selector_terminals b) as m.
  induction outbounds as [|o outbounds IH]; intros m Hm Hall; [done|]. cbn.
  apply IH; [|intros; apply Hall; by right].
  intros id t. destruct (decide (id = id_of o)) as [->|]; [rewrite lookup_insert_eq|rewrite lookup_insert_ne by done; apply Hm].
  intros [= <-]. destruct (Hall o) as (tag & Ho & Hs); [by left|].
  eapply of_outbound_intro; [done|]. by rewrite (tag_key _ _ Ho).
Qed.

(** ** Selectors *)

Lemma selector_parsed tag o :
  c !! tag = Some o -> kind_of o = "selector" ->
  exists d selected, parse_selector_definition debug o = Ok d /\ c !! SelectorDefinition.selected d = Some selected /\
    refers debug parse_go_duration c0 tag (SelectorDefinition.selected d).
Proof.
  intros Ho Hk. destruct (in_origin _ _ Ho) as (o0 & r & Ho0 & ->).
  destruct (acceptable_selector _ _ _ (validated_acceptable _ _ _ Hval) tag o0 Ho0 Hk) as [d Hd].
  assert (refers debug parse_go_duration c0 tag (SelectorDefinition.selected d)) as Hr
    by (eapply refers_selected; eauto using parse_selector_selected).
  destruct (refers_known _ _ _ (validated_acceptable _ _ _ Hval) _ _ Hr) as [s0 Hs0].
  destruct (lookup_image _ _ Hres _ _ Hs0) as [r' Hs']. by exists d, (ValidatedOutbound.set_shoes_dns_resolver r' s0).
Qed.

Lemma immediate_spec b tag o :
  budget_ok b -> c !! tag = Some o -> kind_of o = "selector" ->
  exists b' d selected, immediate_selector_outbound debug c o b = (b', Ok selected) /\ budget_ok b' /\ same b b' /\
    parse_selector_definition debug o = Ok d /\ c !! SelectorDefinition.selected d = Some selected /\
    refers debug parse_go_duration c0 tag (SelectorDefinition.selected d).
Proof.
  intros Hb Ho Hk. destruct (selector_parsed _ _ Ho Hk) as (d & selected & Hd & Hs & Hr).
  unfold immediate_selector_outbound, cached_selector_outbound, get, mbind, stm_bind, modify, mret, stm_ret, lift.
  destruct (Budget.selector_immediate b !! id_of o) as [s|] eqn:Hi.
  - destruct (bo_immediate _ Hb _ _ Hi _ _ Ho eq_refl) as (d' & Hd' & Hs'). same_ok.
    exists b, d, selected. split_and!; try done.
  - unfold resolve_immediate. rewrite Hd. cbn. rewrite Hs.
    eexists _, d, selected. split; [reflexivity|]. split; [|done].
    apply (ok_set_cache (Budget.set_immediate _ b)); [by eapply ok_set_immediate|]. cbn.
    eapply cache_ok_insert; [apply (bo_cache _ Hb)|done..].
Qed.

(** The outbounds on the way lead to the current one, along a reference path. *)
Definition leads (names : list string) (outbounds : list ValidatedOutbound.t) (tag : string) : Prop :=
  path (names ++ [tag]) /\
  Forall2 (fun name o => c !! name = Some o /\ forall t, selects tag t -> selects name t) names outbounds.

Lemma leads_fresh names outbounds tag o :
  leads names outbounds tag -> c !! tag = Some o -> position (fun active => id_of active =? id_of o) outbounds = None.
Proof.
  intros [Hp Hall] Ho. apply find_first_position, find_first_None. intros a Ha.
  destruct (Z.eqb_spec (id_of a) (id_of o)) as [Hid|]; [|done]. exfalso.
  apply list_elem_of_lookup in Ha as [i Hi]. destruct (Forall2_lookup_r _ _ _ _ _ Hall Hi) as (name & Hn & Hna & _).
  destruct (id_key _ _ _ _ Hna Ho Hid) as [-> _].
  apply list_elem_of_lookup_2, list_elem_of_split in Hn as (l1 & l2 & ->).
  rewrite <- app_assoc in Hp. cbn in Hp. apply path_drop in Hp.
  exact (cycle_unbounded _ _ _ _ _ Hp (validated_acceptable _ _ _ Hval)).
Qed.

Lemma leads_short names outbounds tag : leads names outbounds tag -> (length outbounds < MAX_OUTBOUND_REFERENCE_DEPTH)%nat.
Proof.
  intros [Hp Hall]. apply Forall2_length in Hall as <-.
  pose proof (proj2 (validated_acceptable _ _ _ Hval) _ Hp) as H. rewrite length_app in H. cbn [length] in H. lia.
Qed.

Lemma leads_all names outbounds tag o terminal :
  leads names outbounds tag -> selects tag terminal -> o ∈ outbounds -> exists name, c !! name = Some o /\ selects name terminal.
Proof.
  intros [_ Hall] Ht Ho. apply list_elem_of_lookup in Ho as [i Hi].
  destruct (Forall2_lookup_r _ _ _ _ _ Hall Hi) as (name & _ & Hn & Hs). exists name. auto.
Qed.

Lemma resolve_spec fuel names outbounds tag o b :
  budget_ok b -> leads names outbounds tag -> c !! tag = Some o ->
  (MAX_OUTBOUND_REFERENCE_DEPTH <= fuel + length outbounds)%nat ->
  exists b' terminal, resolve_selector debug c fuel o outbounds b = (b', Ok terminal) /\ budget_ok b' /\ same b b' /\
    selects tag terminal.
Proof.
  revert names outbounds tag o b. induction fuel as [fuel IH] using lt_wf_ind. intros names outbounds tag o b Hb Hl Ho Hf.
  pose proof (leads_short _ _ _ Hl) as Hlen.
  assert (Hunfold : resolve_selector debug c fuel o outbounds b =
    match Budget.selector_terminals b !! id_of o with
    | Some terminal => (complete_terminals outbounds terminal ≫= fun _ => mret terminal) b
    | None =>
        if negb (String.eqb (kind_of o) "selector")
        then (complete_terminals (o :: outbounds) o ≫= fun _ => mret o) b
        else match fuel with
             | O => (b, Err (Panic "out of fuel"))
             | S fuel => (next ← immediate_selector_outbound debug c o;
                          resolve_selector debug c fuel next (outbounds ++ [o])) b
             end
    end).
  { destruct fuel; cbn [resolve_selector]; unfold get, mbind at 1, stm_bind at 1;
      rewrite (leads_fresh _ _ _ _ Hl Ho), (proj2 (Nat.leb_gt _ _) Hlen);
      by destruct (Budget.selector_terminals b !! id_of o), (String.eqb (kind_of o) "selector"). }
  rewrite Hunfold. clear Hunfold.
  destruct (Budget.selector_terminals b !! id_of o) as [terminal|] eqn:Hi.
  { pose proof (bo_terminals _ Hb _ _ Hi _ _ Ho eq_refl) as Ht. cbv beta in Ht. rewrite (tag_key _ _ Ho) in Ht.
    eexists _, terminal. split; [reflexivity|]. split; [|done].
    apply ok_complete; [done|]. intros a Ha. by eapply leads_all. }
  destruct (String.eqb_spec (kind_of o) "selector") as [Hk|Hk]; cbn [negb].
  2:{ assert (selects tag o) as Ht by (by constructor). eexists _, o. split; [reflexivity|]. split; [|done].
      apply (ok_complete b (o :: outbounds)); [done|]. intros a [->|Ha]%elem_of_cons; [eauto|by eapply leads_all]. }
  destruct fuel as [|fuel]; [lia|].
  destruct (immediate_spec b tag o Hb Ho Hk) as (b1 & d & next & Hrun & Hb1 & Hs1 & Hd & Hnext & Hr).
  rewrite (stm_bind_eq _ _ _ _ _ Hrun).
  destruct (IH fuel ltac:(lia) (names ++ [tag]) (outbounds ++ [o]) (SelectorDefinition.selected d) next b1 Hb1)
    as (b2 & t & Hrun2 & Hb2 & Hs2 & Ht); [|done|rewrite length_app; cbn; lia|].
  { destruct Hl as [Hp Hall]. split; [by apply path_snoc|].
    assert (forall t, selects (SelectorDefinition.selected d) t -> selects tag t) as Hvia
      by (intros t Ht; exact (selects_via _ _ _ _ _ _ Ho Hk Hd Ht)).
    apply Forall2_app; [|constructor; [done|constructor]].
    eapply Forall2_impl; [exact Hall|]. cbn. intros name a [Ha Hn]. split; [done|]. auto. }
  exists b2, t. split_and!; [done|done|by eapply same_trans|exact (selects_via _ _ _ _ _ _ Ho Hk Hd Ht)].
Qed.

Lemma static_selector_spec b tag o :
  budget_ok b -> c !! tag = Some o ->
  exists b' terminal, resolve_static_selector_outbound debug c o b = (b', Ok terminal) /\ budget_ok b' /\ same b b' /\
    selects tag terminal.
Proof.
  intros Hb Ho. apply (resolve_spec _ []); [done| |done|].
  - split; [constructor|constructor].
  - cbn [length]. lia.
Qed.

(** ** Compiled chains *)

Definition sample_of (o : ValidatedOutbound.t) (sample : CompiledClientChainSample.t) : Prop := exists chain,
  chain_of o chain /\ CompiledClientChainSample.value sample = chain_value chain /\
  CompiledClientChainSample.projection sample = projection_of json_chunks [chain_obj chain].

Lemma ok_set_sample b tag o sample :
  budget_ok b -> c !! tag = Some o -> sample_of o sample ->
  budget_ok (Budget.set_samples (<[id_of o := sample]> (Budget.compiled_samples b)) b).
Proof.
  intros [] Ho Hs. split; cbn; try done.
  intros id s. destruct (decide (id = id_of o)) as [->|]; [rewrite lookup_insert_eq|rewrite lookup_insert_ne by done; auto].
  intros [= <-]. by eapply of_outbound_intro.
Qed.

Lemma inspect_no_panic v : no_panic (inspect json_chunks v).
Proof.
  unfold inspect. destruct (Value.as_array v) as [chains|]; [|apply no_panic_error].
  generalize ClientChainsProjection.zero as p. induction chains as [|x chains IH]; intros p; [done|]. cbn.
  apply no_panic_bind; [|auto]. unfold inspect_chain. destruct (_ ≫= _); [|apply no_panic_error].
  repeat first [apply checked_add_no_panic | apply serialized_json_len_no_panic | apply no_panic_ok | apply no_panic_bind; [|intros ?]].
Qed.

Lemma prepare_chains_spec b tag t :
  budget_ok b -> selects tag t -> kind_of t <> "urltest" ->
  runs (prepare_outbound_client_chains debug json_chunks c t) b
    (fun _ b' => exists sample, Budget.compiled_samples b' !! id_of t = Some sample /\ sample_of t sample).
Proof.
  intros Hb Ht Hk. destruct (selects_lookup _ _ Ht) as [tag' Ho].
  unfold prepare_outbound_client_chains. eapply (runs_then get _ _ (fun a b' => a = b /\ b' = b)); [done|].
  intros ? ? _ _ [-> ->]. destruct (Budget.compiled_samples b !! id_of t) as [sample|] eqn:Hs.
  { apply runs_done; [done|]. exists sample. split; [done|]. exact (bo_samples _ Hb _ _ Hs _ _ Ho eq_refl). }
  eapply (runs_then _ _ _ (fun v _ => exists chain, v = chain_value chain /\ chain_of t chain)).
  { pose proof (plain_terminal _ _ Ht Hk) as Hp. rewrite (tag_key _ _ Ho) in Hp.
    destruct (compile_cached_validated debug parse_go_duration c0 c Hwf Hres Hval tag' t (Budget.adapter_cache b) Ho Hp
                (bo_cache _ Hb)) as (cache' & chain & Hrun & Hch & Hc').
    unfold runs, compile_with_cache. rewrite Hrun. cbn. split_and!; [by apply ok_set_cache|done|eauto]. }
  intros v b1 Hb1 Hs1 (chain & -> & Hch).
  eapply runs_then; [apply runs_lift; [done|apply inspect_no_panic]|].
  intros p b2 _ _ [Hp ->]. apply inspect_Ok in Hp as (chains & [= <-] & ->).
  assert (sample_of t (CompiledClientChainSample.mk (chain_value chain) (projection_of json_chunks [chain_obj chain]))) as Hsam
    by (by exists chain).
  unfold runs, modify. split_and!; [by eapply ok_set_sample|done|]. eexists. cbn. by rewrite lookup_insert_eq.
Qed.

Lemma prepared_sample_spec b o message sample :
  budget_ok b -> Budget.compiled_samples b !! id_of o = Some sample ->
  runs (prepared_sample o message) b (fun s b' => s = sample /\ b' = b).
Proof. intros Hb Hs. unfold runs, prepared_sample, get, mbind, stm_bind, lift. cbv beta. by rewrite Hs. Qed.

(** ** URL tests *)

(** The members that have been read, with their RealTags. *)
Definition members_read (acc : resolved_members_t) (kept : list (ValidatedOutbound.t * ValidatedOutbound.t)) : Prop :=
  history_keys acc = (fun p => tag_of p.2) <$> kept /\
  failure_history_keys acc = (fun p => tag_of p.1) <$> kept /\
  resolved_members acc = kept.*1.

Lemma real_tag_spec b tag member :
  budget_ok b -> c !! tag = Some member ->
  runs (if String.eqb (kind_of member) "selector" then immediate_selector_outbound debug c member else mret member) b
    (fun real _ => real_tag member real).
Proof.
  intros Hb Hm. unfold real_tag. destruct (String.eqb_spec (kind_of member) "selector") as [Hk|]; [|by apply runs_done].
  destruct (immediate_spec b tag member Hb Hm Hk) as (b' & d & s & Hrun & Hb' & Hs & Hd & Hsel & _).
  unfold runs. rewrite Hrun. eauto 10.
Qed.

Lemma urltest_members_spec b o tags acc kept :
  budget_ok b -> members_read acc kept ->
  Budget.urltest_candidates b + Z.of_nat (size (selected_ids acc)) <= MAX_PROJECTED_URLTEST_CANDIDATES ->
  runs (urltest_members debug c o tags acc) b (fun acc' _ => exists pairs,
    Forall2 (fun tag p => c !! tag = Some p.1 /\ real_tag p.1 p.2) tags pairs /\
    members_read acc' (kept ++ first_members (selected_ids acc) pairs) /\
    Budget.urltest_candidates b + Z.of_nat (size (selected_ids acc')) <= MAX_PROJECTED_URLTEST_CANDIDATES).
Proof.
  revert b acc kept. induction tags as [|tag tags IH]; intros b acc kept Hb Hk Hc.
  { apply runs_done; [done|]. exists []. cbn. rewrite app_nil_r. done. }
  cbn [urltest_members]. destruct (c !! tag) as [member|] eqn:Hm; [|by apply runs_error].
  eapply runs_then; [by eapply real_tag_spec|]. intros real b1 Hb1 Hs1 Hreal.
  assert (Hcand : Budget.urltest_candidates b1 = Budget.urltest_candidates b) by apply Hs1.
  case_bool_decide as Hin.
  { eapply runs_impl; [apply (IH b1 acc kept); [done..|by rewrite Hcand]|].
    intros acc' b2 (pairs & Hall & Hread & Hle). exists ((member, real) :: pairs). cbn.
    rewrite bool_decide_eq_true_2 by done. rewrite Hcand in Hle. split_and!; [by constructor|done|done]. }
  eapply (runs_then get _ _ (fun a b' => a = b1 /\ b' = b1)); [done|]. intros ? ? _ _ [-> ->].
  destruct (_ <? _) eqn:H1; [by apply runs_error|]. destruct (_ <? _) eqn:H2 in |- *; [by apply runs_error|].
  eapply runs_impl; [apply (IH b1 _ (kept ++ [(member, real)])); [done| |]|].
  - destruct Hk as (-> & -> & Hr). unfold members_read. cbn. rewrite !fmap_app. cbn. by rewrite Hr.
  - cbn. apply Z.ltb_ge in H2. exact H2.
  - intros acc' b2 (pairs & Hall & Hread & Hle). exists ((member, real) :: pairs). cbn -[Z.add].
    rewrite bool_decide_eq_false_2 by done. rewrite Hcand in Hle. cbn in Hread. rewrite <- app_assoc in Hread.
    split_and!; [by constructor|done|done].
Qed.

Lemma can_reserve_no_panic used additional context : no_panic (can_reserve used additional context).
Proof.
  unfold can_reserve. apply no_panic_bind; [apply checked_add_no_panic|intros]. apply no_panic_bind; [apply checked_add_no_panic|intros].
  destruct (_ || _); [apply no_panic_error|done].
Qed.

Lemma runs_ensure additional context b : budget_ok b -> runs (ensure_can_reserve additional context) b (fun _ b' => b' = b).
Proof. intros Hb. eapply runs_impl; [apply runs_lift; [done|apply can_reserve_no_panic]|]. by intros ?? [_ ->]. Qed.

Lemma no_panic_append p q : no_panic (append p q).
Proof. unfold append. repeat first [apply checked_add_no_panic | apply no_panic_ok | apply no_panic_bind; [|intros ?]]. Qed.

Lemma no_panic_cost p n : no_panic (cost_with_selection_bytes p n).
Proof.
  unfold cost_with_selection_bytes. repeat first [apply checked_add_no_panic | apply no_panic_ok | apply no_panic_bind; [|intros ?]].
Qed.

(** The chains of the members in order, and what they amount to. *)
Lemma urltest_chains_spec b o n members done :
  budget_ok b -> (forall m, m ∈ members -> c !! tag_of m = Some m) ->
  runs (urltest_chains debug json_chunks c o n members (projection_of json_chunks (chain_obj <$> done)) (chain_value <$> done)) b
    (fun r _ => exists chains,
       Forall2 (fun m chain => exists terminal, selects (tag_of m) terminal /\ chain_of terminal chain) members chains /\
       r = (projection_of json_chunks (chain_obj <$> done ++ chains), chain_value <$> done ++ chains)).
Proof.
  revert b done. induction members as [|m members IH]; intros b done Hb Hin.
  { apply runs_done; [by apply Hb|]. exists []. by rewrite app_nil_r. }
  cbn [urltest_chains].
  eapply (runs_then _ _ _ (fun t _ => selects (tag_of m) t)).
  { destruct (static_selector_spec b (tag_of m) m Hb) as (b' & t & Hrun & ? & ? & ?); [apply Hin; by left|].
    unfold runs. by rewrite Hrun. }
  intros t b1 Hb1 _ Ht. destruct (String.eqb_spec (kind_of t) "urltest") as [Hu|Hu]; [by apply runs_error|].
  eapply runs_then; [by eapply prepare_chains_spec|]. intros _ b2 Hb2 _ (sample & Hl & chain & Hch & Hv & Hp).
  eapply runs_then; [by apply prepared_sample_spec|]. intros s b3 Hb3 _ [-> ->].
  eapply runs_then; [apply runs_lift; [done|apply no_panic_append]|]. intros p b4 _ _ [Ha ->].
  rewrite Hp in Ha. apply append_Ok in Ha as ->.
  eapply runs_then; [apply runs_lift; [done|apply no_panic_cost]|]. intros k b5 _ _ [_ ->].
  eapply runs_then; [by apply runs_ensure|]. intros _ b6 _ _ ->.
  rewrite Hv. change [chain_obj chain] with (chain_obj <$> [chain]). change [chain_value chain] with (chain_value <$> [chain]).
  rewrite <- !fmap_app. eapply runs_impl; [apply IH; [done|intros; apply Hin; by right]|].
  intros r _ (chains & Hall & ->). exists (chain :: chains). rewrite <- app_assoc. split; [|done].
  constructor; [by exists t|done].
Qed.

Lemma extend_chains_spec chains : extend_chains (chain_value <$> chains) = Ok (chain_obj <$> chains).
Proof. induction chains as [|chain chains IH]; [done|]. cbn -[chain_obj]. fold (fmap (M := list) chain_value). by setoid_rewrite IH. Qed.

(** ** Spending *)

(** A computation that spends [cost] when it succeeds with [a] such that [Q a cost],
    and nothing when it reports an error. *)
Definition spends {A} (m : method A) (b : Budget.t) (Q : A -> ClientChainProjectionCost.t -> Prop) : Prop :=
  match m b with
  | (b', Ok a) => budget_ok b' /\ exists cost, Q a cost /\
                  Budget.used b' = ClientChainProjectionCost.add (Budget.used b) cost
  | (b', Err e) => budget_ok b' /\ Budget.used b' = Budget.used b /\ exists message, e = Fail message
  end.

Lemma spends_bind {A B} (m : method A) (f : A -> method B) b Q R :
  runs m b Q -> (forall a b', budget_ok b' -> same b b' -> Q a b' -> spends (f a) b' R) -> spends (m ≫= f) b R.
Proof.
  unfold runs, spends, mbind, stm_bind. destruct (m b) as [b1 [a|e]].
  - intros (Hb & Hs & HQ) Hf. specialize (Hf a b1 Hb Hs HQ). destruct Hs as [Hu _].
    destruct (f a b1) as [b2 [a2|e]]; rewrite Hu in Hf; exact Hf.
  - intros (Hb & [Hu _] & He) _. done.
Qed.

Lemma spends_error {A} message b (Q : A -> ClientChainProjectionCost.t -> Prop) : budget_ok b -> spends (raise (Fail message)) b Q.
Proof. intros Hb. unfold spends, raise. split_and!; [done|done|by eexists]. Qed.

Lemma reserve_spec b cost context :
  budget_ok b -> 0 <= ClientChainProjectionCost.hops cost -> 0 <= ClientChainProjectionCost.bytes cost ->
  (exists message, reserve cost context b = (b, Err (Fail message))) \/
  let b' := Budget.set_used (ClientChainProjectionCost.add (Budget.used b) cost) b in
  reserve cost context b = (b', Ok tt) /\ budget_ok b'.
Proof.
  intros Hb Hh Hn. unfold reserve, ensure_can_reserve, mbind, stm_bind, modify.
  destruct (can_reserve (Budget.used b) cost context) as [[]|e] eqn:E.
  - right. split; [done|]. unfold can_reserve in E.
    apply bind_Ok in E as (h & [-> _]%checked_add_Ok & E). apply bind_Ok in E as (n & [-> _]%checked_add_Ok & E).
    destruct (Z.ltb_spec MAX_PROJECTED_CLIENT_CHAIN_HOPS
                (ClientChainProjectionCost.hops (Budget.used b) + ClientChainProjectionCost.hops cost)); [done|].
    destruct (Z.ltb_spec MAX_PROJECTED_CLIENT_CHAIN_BYTES
                (ClientChainProjectionCost.bytes (Budget.used b) + ClientChainProjectionCost.bytes cost)); [done|].
    destruct Hb. by split; cbn -[MAX_PROJECTED_CLIENT_CHAIN_HOPS MAX_PROJECTED_CLIENT_CHAIN_BYTES]; try lia.
  - left. destruct (can_reserve_no_panic _ _ _ _ E) as [m ->]. by exists m.
Qed.

(** ** The action of a URL test *)

Lemma definition_selection o d :
  parse_urltest_definition debug parse_go_duration o = Ok d ->
  exists url interval idle tolerance, UrltestDefinition.selection d = selection_fields url interval idle tolerance.
Proof.
  unfold parse_urltest_definition. destruct (Value.as_object _) as [fields|]; [|done]. destruct (find_first _ _); [done|].
  destruct (_ ≫= _) as [[|v vs]|]; [done| |done]. intros H.
  apply bind_Ok in H as (members & _ & H). apply bind_Ok in H as (url & _ & H). apply bind_Ok in H as (interval & _ & H).
  apply bind_Ok in H as (idle & _ & H). destruct (_ <? _) in H; [done|]. apply bind_Ok in H as (tolerance & _ & H).
  apply bind_Ok in H as (u & _ & H). injection H as <-. eauto.
Qed.

Lemma first_members_in seen pairs p : p ∈ first_members seen pairs -> p ∈ pairs.
Proof.
  revert seen. induction pairs as [|[m r] pairs IH]; intros seen; cbn; [done|].
  case_bool_decide; rewrite ?elem_of_cons; [intros ?; right; eauto|]. intros [->|?]; [by left|right; eauto].
Qed.

Lemma kept_in_catalog (tags : list string) pairs seen m :
  Forall2 (fun tag p => c !! tag = Some p.1 /\ real_tag p.1 p.2) tags pairs ->
  m ∈ (first_members seen pairs).*1 -> c !! tag_of m = Some m.
Proof.
  intros Hall. intros (p & -> & Hp)%list_elem_of_fmap. apply first_members_in, list_elem_of_lookup in Hp as [i Hi].
  destruct (Forall2_lookup_r _ _ _ _ _ Hall Hi) as (tag & _ & Ht & _). by rewrite (tag_key _ _ Ht).
Qed.

Lemma ok_set_urltest b tag o sample :
  budget_ok b -> c !! tag = Some o -> (size (Budget.urltest_samples b) < MAX_PROJECTED_URLTEST_GROUPS)%nat ->
  urltest_action o (CachedUrltestAction.action sample) ->
  CachedUrltestAction.cost sample = measure json_chunks (CachedUrltestAction.action sample) ->
  budget_ok (Budget.set_urltest (<[id_of o := sample]> (Budget.urltest_samples b)) b).
Proof.
  intros Hb Ho Hn Ha Hc. destruct Hb.
  assert (Hsize : (size (<[id_of o := sample]> (Budget.urltest_samples b)) <= MAX_PROJECTED_URLTEST_GROUPS)%nat).
  { rewrite map_size_insert. destruct (Budget.urltest_samples b !! id_of o); unfold id in *; cbn beta iota; lia. }
  split; cbn; try done.
  intros id s. destruct (decide (id = id_of o)) as [->|]; [rewrite lookup_insert_eq|rewrite lookup_insert_ne by done; auto].
  intros [= <-]. by eapply of_outbound_intro.
Qed.

Lemma ok_set_candidates n b :
  budget_ok b -> 0 <= n <= MAX_PROJECTED_URLTEST_CANDIDATES -> budget_ok (Budget.set_candidates n b).
Proof. intros [] Hn. by split. Qed.

Lemma compile_urltest_spec b tag o :
  budget_ok b -> c !! tag = Some o ->
  spends (compile_urltest_action debug parse_go_duration json_chunks sha256 c o) b
    (fun action cost => urltest_action o action /\ cost = measure json_chunks action).
Proof.
  intros Hb Ho. unfold compile_urltest_action.
  eapply (spends_bind get _ _ (fun a b' => a = b /\ b' = b)); [done|]. intros ? ? _ _ [-> ->].
  destruct (Budget.urltest_samples b !! id_of o) as [sample|] eqn:Hs.
  { destruct (bo_urltest _ Hb _ _ Hs _ _ Ho eq_refl) as [Ha Hc].
    pose proof (measure_nonneg json_chunks (CompiledOutboundAction.client_chains (CachedUrltestAction.action sample))
                  (CompiledOutboundAction.client_chain_selection (CachedUrltestAction.action sample))) as [Hh Hn].
    fold (measure json_chunks (CachedUrltestAction.action sample)) in Hh, Hn. rewrite <- Hc in Hh, Hn.
    unfold spends, mbind, stm_bind.
    destruct (reserve_spec b _ (urltest_context debug o) Hb Hh Hn) as [[m ->]|[-> Hb']]; [eauto|]. cbn. eauto. }
  destruct (Nat.leb_spec MAX_PROJECTED_URLTEST_GROUPS (size (Budget.urltest_samples b))) as [|Hsize]; [by apply spends_error|].
  eapply spends_bind; [apply runs_lift; [done|apply parse_urltest_no_panic]|]. intros d ? _ _ [Hd ->].
  eapply spends_bind.
  { apply (urltest_members_spec b o _ (mkMembers ∅ [] [] []) []); [done|done|]. cbn -[MAX_PROJECTED_URLTEST_CANDIDATES].
    rewrite size_empty. pose proof (bo_candidates _ Hb). lia. }
  intros acc b1 Hb1 Hs1 (pairs & Hpairs & (Hh & Hf & Hm) & Hcand). cbn [app selected_ids] in Hh, Hf, Hm.
  rewrite Hh, Hf. fold (with_history ((fun p => tag_of p.2) <$> first_members ∅ pairs)
                          ((fun p => tag_of p.1) <$> first_members ∅ pairs) (UrltestDefinition.selection d)).
  set (fields := with_history _ _ _).
  eapply spends_bind; [apply runs_lift; [done|apply serialized_json_len_no_panic]|]. intros n ? _ _ [Hn ->].
  apply serialized_json_len_Ok in Hn as ->.
  eapply spends_bind.
  { apply (urltest_chains_spec b1 o _ _ []); [done|]. rewrite Hm. intros m. by eapply kept_in_catalog. }
  intros [projection compiled] b2 Hb2 Hs2 (chains & Hchains & [= -> ->]).
  eapply spends_bind; [apply runs_lift; [done|apply no_panic_cost]|]. intros k ? _ _ [Hk ->]. cbn [app] in *.
  apply cost_Ok in Hk as ->; [|done].
  set (client_chains := Value.Array (chain_obj <$> chains)) in *.
  set (identity := json_fingerprint json_chunks sha256
                     (Value.Array [Value.String (tag_of o); client_chains; Value.Object fields])).
  set (action := CompiledOutboundAction.mk client_chains
         (Some (Value.Object (Map.insert "shared_id" (Value.String ("node-agent-urltest-v1:" +:+ Hex.encode identity)) fields)))).
  assert (Ha : urltest_action o action).
  { exists d, pairs, chains. split; [done|]. split; [done|]. split; [|done].
    rewrite Hm in Hchains. by apply Forall2_fmap_l in Hchains. }
  assert (Hcost : ClientChainProjectionCost.mk (sum_hops (chain_obj <$> chains))
                    (json_len json_chunks client_chains + json_len json_chunks (Value.Object fields)) = measure json_chunks action).
  { unfold measure, measure_parts, action. cbn. f_equal. f_equal.
    destruct (definition_selection _ _ Hd) as (url & i & t & tol & Hsel). subst fields. rewrite Hsel.
    symmetry. apply (json_len_identity json_chunks). apply Hsha. }
  rewrite Hcost.
  destruct (measure_nonneg json_chunks client_chains (CompiledOutboundAction.client_chain_selection action)) as [Hh0 Hn0].
  change (measure_parts _ _ _) with (measure json_chunks action) in Hh0, Hn0. unfold spends.
  destruct (reserve_spec b2 _ (urltest_context debug o) Hb2 Hh0 Hn0) as [[m Hr]|[Hr Hb3]];
    unfold mbind, stm_bind; rewrite Hr; [eauto|].
  unfold lift. rewrite extend_chains_spec. cbn [result_bind]. unfold modify, get, mret, stm_ret.
  fold client_chains. fold identity. fold action. cbn [Budget.urltest_candidates Budget.set_urltest Budget.set_used].
  set (candidates := Budget.urltest_candidates b2 + Z.of_nat (size (selected_ids acc))).
  assert (Hrange : 0 <= candidates <= MAX_PROJECTED_URLTEST_CANDIDATES).
  { subst candidates. destruct Hs1 as (_ & _ & H1), Hs2 as (_ & _ & H2). rewrite H2, H1. pose proof (bo_candidates _ Hb). lia. }
  assert ((candidates <=? usize_max) = true) as ->
    by (apply Z.leb_le; transitivity MAX_PROJECTED_URLTEST_CANDIDATES; [apply Hrange|by vm_compute]).
  cbn [expected]. split; [|exists (measure json_chunks action); by split_and!].
  apply ok_set_candidates; [|done]. eapply (ok_set_urltest (Budget.set_used _ b2)); [done|exact Ho| |exact Ha|done].
  destruct Hs1 as (_ & H1 & _), Hs2 as (_ & H2 & _). cbn. rewrite H2, H1. exact Hsize.
Qed.

(** ** The action of an outbound *)

Lemma client_action_spec b tag o :
  budget_ok b -> c !! tag = Some o ->
  spends (outbound_client_action debug parse_go_duration json_chunks sha256 c o) b
    (fun action cost => represents tag action /\ cost = measure json_chunks action).
Proof.
  intros Hb Ho. unfold outbound_client_action.
  eapply (spends_bind _ _ _ (fun t _ => selects tag t)).
  { destruct (static_selector_spec b tag o Hb Ho) as (b' & t & Hrun & ? & ? & ?). unfold runs. by rewrite Hrun. }
  intros t b1 Hb1 _ Ht. unfold represents.
  destruct (String.eqb_spec (kind_of t) "urltest") as [Hu|Hu].
  { destruct (selects_lookup _ _ Ht) as [tag' Ho']. pose proof (compile_urltest_spec b1 tag' t Hb1 Ho') as H.
    unfold spends in *. destruct (compile_urltest_action _ _ _ _ _ _ _) as [b2 [action|e]]; [|exact H].
    destruct H as (Hb2 & k & [Ha Hk] & Hused). split; [done|]. exists k. split_and!; [|done..].
    exists t. split; [done|]. by rewrite (proj2 (String.eqb_eq _ _) Hu). }
  eapply spends_bind; [by eapply prepare_chains_spec|]. intros _ b2 Hb2 _ (sample & Hl & chain & Hch & Hv & Hp).
  eapply spends_bind; [by apply prepared_sample_spec|]. intros s ? _ _ [-> ->].
  eapply spends_bind.
  { apply runs_lift; [done|]. unfold cost. apply no_panic_bind; [done|intros]. apply no_panic_cost. }
  intros k ? _ _ [Hk ->]. rewrite Hp in Hk.
  set (action := CompiledOutboundAction.mk (chain_value chain) None).
  assert (k = measure json_chunks action) as ->.
  { unfold cost in Hk. cbn in Hk. apply cost_Ok in Hk as ->; [|done]. unfold measure, measure_parts, action. cbn. f_equal; lia. }
  destruct (measure_nonneg json_chunks (chain_value chain) None) as [Hh Hn].
  change (measure_parts _ _ _) with (measure json_chunks action) in Hh, Hn. unfold spends, mbind, stm_bind.
  destruct (reserve_spec b2 _ (fmt ["outbound "; debug (tag_of o)]) Hb2 Hh Hn) as [[m ->]|[-> Hb3]]; [eauto|].
  unfold prepared_sample, get, mbind, stm_bind, lift. cbn [Budget.compiled_samples Budget.set_used]. rewrite Hl.
  cbv beta iota delta [expected ok_or mret stm_ret]. rewrite Hv. split; [done|]. exists (measure json_chunks action). split_and!; [|done..].
  exists t. split; [done|]. rewrite (proj2 (String.eqb_neq _ _) Hu). by exists chain.
Qed.

(** C4. Resolving and embedding the action of an outbound of a validated catalog never
    panics.  It gives exactly what the outbound means - the chain of its selected
    terminal, or the URL test over the chains of its distinct members - and spends
    exactly the hops and the JSON bytes of what it gives; an error spends nothing, and
    the limits on hops, bytes, groups and candidates hold throughout. *)
Theorem outbound_action_exact b tag o :
  budget_ok b -> c !! tag = Some o ->
  match outbound_client_action debug parse_go_duration json_chunks sha256 c o b with
  | (b', Ok action) =>
      budget_ok b' /\ represents tag action /\
      Budget.used b' = ClientChainProjectionCost.add (Budget.used b) (measure json_chunks action)
  | (b', Err e) => budget_ok b' /\ Budget.used b' = Budget.used b /\ exists message, e = Fail message
  end.
Proof.
  intros Hb Ho. pose proof (client_action_spec b tag o Hb Ho) as H. unfold spends in H.
  destruct (outbound_client_action _ _ _ _ _ _ _) as [b' [action|e]]; [|exact H].
  destruct H as (Hb' & k & [Ha ->] & Hu). done.
Qed.
End budget.
