(* ===== verification/OutboundExample.v ===== *)
(** * A catalog of outbounds, and what the theorems say of it

    Two hops, a selector and a URL test, with a serializer of compact JSON and a
    stand-in for SHA-256 of the right length.  Every witness applies its theorem here. *)

From Stdlib Require Import ZArith Lia.
From Stdlib Require Import Ascii.
From S2P Require Import Prelude Bytes Json Hex Runtime OutboundAdapter OutboundGraph OutboundGraphSpec.
From S2P Require Import OutboundChains OutboundProjection BudgetSpec.

Open Scope Z_scope.

(** ** Compact JSON *)

Definition escaped (c : ascii) : string :=
  if unescaped c then String c "" else "\u00" +:+ Hex.encode (String c "").

Fixpoint write_chars (l : list ascii) : string :=
  match l with [] => "" | c :: l => escaped c +:+ write_chars l end.

Definition dquote : string := String (ascii_of_nat 34) "".

Definition write_string (s : string) : string := dquote +:+ write_chars (chars s) +:+ dquote.

(** Numbers with a fraction do not occur in the example. *)
Definition write_number (n : Number.t) : string :=
  match n with Number.PosInt z | Number.NegInt z => to_dec z | Number.Float _ => "0.0" end.

Definition write_field (field : string * string) : string := write_string field.1 +:+ ":" +:+ field.2.

Fixpoint write (v : Value.t) : string :=
  match v with
  | Value.Null => "null"
  | Value.Bool b => if b then "true" else "false"
  | Value.Number n => write_number n
  | Value.String s => write_string s
  | Value.Array l => "[" +:+ join "," (List.map write l) +:+ "]"
  | Value.Object m => "{" +:+ join "," (List.map write_field (List.map (fun kv => (kv.1, write kv.2)) m)) +:+ "}"
  end.

Definition written (v : Value.t) : list string := [write v].

Lemma str_len_app a b : str_len (a +:+ b) = str_len a + str_len b.
Proof.
  unfold str_len. rewrite <- Nat2Z.inj_add. f_equal. induction a as [|x a IH]; [done|]. cbn. by rewrite <- IH.
Qed.

Lemma written_len v : json_len written v = str_len (write v).
Proof. unfold json_len, written. cbn -[str_len]. lia. Qed.

Lemma write_chars_plain l : forallb unescaped l = true -> str_len (write_chars l) = Z.of_nat (length l).
Proof.
  induction l as [|c l IH]; [done|]. cbn [forallb]. intros [Hc Hl]%andb_true_iff.
  cbn [write_chars]. unfold escaped. rewrite Hc, str_len_app, (IH Hl). change (str_len (String c "")) with 1. cbn [length]. lia.
Qed.

Lemma chars_count s : length (chars s) = String.length s.
Proof. unfold chars. induction s as [|c s IH]; cbn; [done|]. by f_equal. Qed.

Fixpoint sum_str (l : list string) : Z := match l with [] => 0 | s :: l => str_len s + sum_str l end.

Lemma join_len l : str_len (join "," l) = sum_str l + Z.max 0 (Z.of_nat (length l) - 1).
Proof.
  induction l as [|s l IH]; [done|]. destruct l as [|s' l].
  - cbn -[str_len]. lia.
  - change (join "," (s :: s' :: l)) with (s +:+ "," +:+ join "," (s' :: l)).
    rewrite !str_len_app, IH. change (str_len ",") with 1. cbn [sum_str length]. lia.
Qed.

#[export] Instance written_laws : JsonLaws written.
Proof.
  split.
  - intros l. rewrite written_len. cbn [write]. rewrite !str_len_app, join_len, List.length_map.
    change (str_len "[") with 1. change (str_len "]") with 1.
    assert (sum_str (List.map write l) = sum_len written l) as ->; [|lia].
    induction l as [|v l IH]; [done|]. cbn [List.map sum_str sum_len]. by rewrite IH, written_len.
  - intros m. rewrite written_len. cbn [write]. rewrite !str_len_app, join_len, !List.length_map.
    change (str_len "{") with 1. change (str_len "}") with 1.
    assert (sum_str (List.map write_field (List.map (fun kv => (kv.1, write kv.2)) m)) = sum_fields written m) as ->; [|lia].
    induction m as [|[k v] m IH]; [done|]. cbn [List.map sum_str sum_fields fst snd]. rewrite IH, !written_len.
    unfold write_field. cbn [fst snd write]. rewrite !str_len_app. change (str_len ":") with 1. lia.
  - intros s Hs. rewrite written_len. cbn [write]. unfold write_string.
    rewrite !str_len_app, (write_chars_plain _ Hs). change (str_len dquote) with 1.
    rewrite chars_count. unfold str_len. lia.
Qed.

Definition sha256 (_ : string) : string := of_chars (repeat (ascii_of_nat 7) 32).

Lemma sha256_len bytes : str_len (sha256 bytes) = 32.
Proof. reflexivity. Qed.

(** ** The catalog *)

Definition no_duration (_ : string) : result string Z := Err "time: invalid duration".

Definition outbound id kind tag options : ValidatedOutbound.t :=
  ValidatedOutbound.mk id kind tag (Value.obj options) (Value.obj options) None None.

Definition near : ValidatedOutbound.t := outbound 0 "direct" "near" [].
Definition far : ValidatedOutbound.t :=
  outbound 1 "trojan" "far"
    [("server", Value.String "far.example"); ("server_port", Value.num 443); ("password", Value.String "secret");
     ("tls", Value.obj [("enabled", Value.Bool true)]); ("detour", Value.String "near")].
Definition pick : ValidatedOutbound.t :=
  outbound 2 "selector" "pick" [("outbounds", Value.strings ["near"; "far"]); ("default", Value.String "far")].
Definition auto : ValidatedOutbound.t :=
  outbound 3 "urltest" "auto" [("outbounds", Value.strings ["near"; "pick"; "far"])].

Definition catalog : catalog_t := list_to_map ((fun o => (ValidatedOutbound.tag o, o)) <$> [near; far; pick; auto]).

Definition catalog_tags : list string := (btree_iter catalog).*1.

Lemma catalog_valid : validate_outbound_catalog quoted no_duration catalog = Ok tt.
Proof. vm_compute. reflexivity. Qed.

Lemma catalog_lookup tag o : catalog !! tag = Some o -> o ∈ [near; far; pick; auto] /\ ValidatedOutbound.tag o = tag.
Proof.
  intros H%elem_of_list_to_map_2. apply list_elem_of_fmap in H as (o' & [= -> ->] & H). done.
Qed.

Lemma catalog_wf : wf_catalog catalog.
Proof.
  split.
  - intros tag o [_ H]%catalog_lookup. exact H.
  - intros tag o tag' o' [H <-]%catalog_lookup [H' <-]%catalog_lookup. revert H H'.
    rewrite !elem_of_cons, !elem_of_nil. intros [->|[->|[->|[->|[]]]]] [->|[->|[->|[->|[]]]]]; vm_compute; congruence.
  - intros tag o [H _]%catalog_lookup. revert H. rewrite !elem_of_cons, !elem_of_nil.
    intros [->|[->|[->|[->|[]]]]]; apply list_elem_of_In; vm_compute; tauto.
Qed.

Lemma catalog_resolvers : with_resolvers catalog catalog.
Proof. intros tag. destruct (catalog !! tag) as [[]|] eqn:E; [|done]. eexists. reflexivity. Qed.

Lemma near_plain : plain quoted catalog "near".
Proof. intros terminal Ht. assert (ValidatedOutbound.kind terminal = "direct") as ->; [|done].
  inversion Ht as [? o Ho Hk|? o d t Ho Hk Hd Hs]; subst; vm_compute in Ho; injection Ho as <-; [done|discriminate Hk].
Qed.

Lemma far_plain : plain quoted catalog "far".
Proof. intros terminal Ht. assert (ValidatedOutbound.kind terminal = "trojan") as ->; [|done].
  inversion Ht as [? o Ho Hk|? o d t Ho Hk Hd Hs]; subst; vm_compute in Ho; injection Ho as <-; [done|discriminate Hk].
Qed.

Lemma pick_plain : plain quoted catalog "pick".
Proof.
  intros terminal Ht. inversion Ht as [? o Ho Hk|? o d t Ho Hk Hd Hs]; subst; vm_compute in Ho; injection Ho as <-.
  - done.
  - vm_compute in Hd. injection Hd as <-. exact (far_plain _ Hs).
Qed.

(** ** Witnesses *)

Lemma shape_pass_exact_witness :
  acceptable quoted no_duration catalog /\ acceptable_shapes quoted no_duration catalog.
Proof.
  assert (Ha : acceptable quoted no_duration catalog) by exact (validated_acceptable _ _ _ catalog_valid).
  split; [exact Ha|]. apply (shape_pass_exact quoted no_duration catalog Ha). vm_compute. reflexivity.
Defined.

(** The chain of a selector is that of its choice, behind the detour. *)
Lemma validated_outbound_compiles_witness :
  (exists chain, compile_client_chains quoted "selector" "pick" (ValidatedOutbound.options_ref pick) catalog = Ok (chain_value chain)) /\
  match compile_client_chains quoted "selector" "pick" (ValidatedOutbound.options_ref pick) catalog with
  | Ok (Value.Array [chain]) => chain_hops chain = 2
  | _ => False
  end.
Proof.
  split; [|vm_compute; reflexivity].
  destruct (validated_outbound_compiles quoted no_duration catalog catalog catalog_wf catalog_resolvers catalog_valid
              "pick" pick ∅ eq_refl pick_plain (cache_ok_empty quoted catalog)) as (cache' & chain & _ & H & _).
  exists chain. exact H.
Defined.

Definition auto_run := outbound_client_action quoted no_duration written sha256 catalog auto Budget.zero.

(** The URL test has three members and two RealTags, so two chains, three hops. *)
Lemma outbound_action_exact_witness :
  match auto_run with
  | (b', Ok action) =>
      represents quoted no_duration written sha256 catalog "auto" action /\
      Budget.used b' = measure written action /\ ClientChainProjectionCost.hops (Budget.used b') = 3
  | _ => False
  end.
Proof.
  pose proof (outbound_action_exact quoted no_duration written sha256 catalog catalog catalog_wf catalog_resolvers
                catalog_valid sha256_len Budget.zero "auto" auto
                (budget_ok_zero quoted no_duration written sha256 catalog) eq_refl) as H.
  fold auto_run in H. assert (Hh : match auto_run with (b', Ok _) => ClientChainProjectionCost.hops (Budget.used b') = 3 | _ => False end)
    by (vm_compute; reflexivity).
  destruct auto_run as [b' [action|e]]; [|destruct Hh].
  destruct H as (_ & Hr & Hu). split; [exact Hr|]. split; [|exact Hh]. rewrite Hu. reflexivity.
Defined.
