(* ===== verification/RuleSet.v ===== *)
(** * Rule-set resources: [crates/node-agent/src/rule_set.rs], the pure part

    A route's rule set is planned as a resource at a stable path; the loader, which is
    not modelled, replaces the path by that of a content-addressed snapshot.
    Paths are Unix paths.

    The URL parser gives a scheme and the normalised text; [from_slice] decodes JSON and
    [validate_route_rule_set] is the engine's own validation. *)

From Stdlib Require Import ZArith Lia Ascii.
From S2P Require Import Prelude Bytes Json Hex.

Open Scope Z_scope.

(** In seconds. *)
Definition DEFAULT_UPDATE_INTERVAL : Z := 24 * 60 * 60.
Definition MAX_RULE_SET_BYTES : Z := 64 * 1024 * 1024.

Module RuleSetReference.
Record t : Type := mk { format : string; path : string }.
End RuleSetReference.

Module RuleSetSource.
Inductive t : Type :=
  | Local
  | Remote (url : string)
  | Inline (bytes : string).
End RuleSetSource.

Module RuleSetResource.
Record t : Type := mk {
  tag : string;
  format : string;
  path : string;
  source : RuleSetSource.t;
  update_interval : Z
}.
Definition reference (self : t) : RuleSetReference.t := RuleSetReference.mk (format self) (path self).
End RuleSetResource.

(** ** Paths *)

Definition is_absolute (path : string) : bool := starts_with "/" path.

(** [Path::join] *)
Definition path_join (base path : string) : string :=
  if is_absolute path || is_empty base then path
  else if ends_with "/" base then base +:+ path
  else base +:+ "/" +:+ path.

(** ** Tags *)

(** [char::is_ascii_alphanumeric] *)
Definition is_alphanumeric (c : ascii) : bool :=
  is_digit c || ((65 <=? code c) && (code c <=? 90)) || ((97 <=? code c) && (code c <=? 122)).

(** A byte that begins a character in UTF-8. *)
Definition begins_char (c : ascii) : bool := negb ((128 <=? code c) && (code c <=? 191)).

Definition safe_char (c : ascii) : ascii :=
  if is_alphanumeric c || Ascii.eqb c "-" || Ascii.eqb c "_" || Ascii.eqb c "." then c else "_"%char.

Definition safe_rule_set_tag (tag : string) : string :=
  let safe_tag := of_chars (take 48 (safe_char <$> retain begins_char (chars tag))) in
  if is_empty safe_tag then "rules" else safe_tag.

(** ** Durations *)

(** [raw.find(|c| !c.is_ascii_digit())]: what precedes, and the rest if any. *)
Fixpoint split_digits (s : string) : string * option string :=
  match s with
  | "" => ("", None)
  | String c s' => if is_digit c then let '(digits, rest) := split_digits s' in (String c digits, rest) else ("", Some s)
  end.

Definition unit_seconds (unit : string) : option Z :=
  if String.eqb unit "s" then Some 1
  else if String.eqb unit "m" then Some 60
  else if String.eqb unit "h" then Some (60 * 60)
  else if String.eqb unit "d" then Some (24 * 60 * 60)
  else None.

Definition parse_duration (raw : string) : result string Z :=
  let raw := trim raw in
  if is_empty raw then Ok DEFAULT_UPDATE_INTERVAL
  else
    match split_digits raw with
    | (_, None) => Err "duration unit is required"
    | (digits, Some unit) =>
        match parse_uint u64_max digits with
        | Err _ => Err "duration value is invalid"
        | Ok value =>
            if value =? 0 then Err "duration must be greater than zero"
            else
              match unit_seconds unit with
              | None => Err "supported units are s, m, h, and d"
              | Some multiplier =>
                  if value * multiplier <=? u64_max then Ok (value * multiplier) else Err "duration is too large"
              end
        end
    end.

Section plans.
Context (debug : string -> string) (sha256 : string -> string).
Context (from_slice : string -> result string Value.t) (validate_route_rule_set : string -> string -> result string unit).
Context (url_parse : string -> result string (string * string)) (fixed_state_root : result string string).

(** The first [n] bytes of a digest in hexadecimal. *)
Definition short_digest (n : nat) (digest : string) : string := Hex.encode (String.substring 0 n digest).

(** The byte 0 *)
Definition nul : string := String (chr 0) "".

Definition cache_path (base tag format url : string) : string :=
  let digest := sha256 (fmt [format; nul; url]) in
  let extension := if String.eqb format "binary" then "srs" else "json" in
  path_join (path_join (path_join base "runtime") "rule-sets")
    (fmt [safe_rule_set_tag tag; "-"; short_digest 8 digest; "."; extension]).

(** ** Validation *)

Definition validate_envelope (format bytes : string) : result string unit :=
  if String.eqb format "binary" then
    if starts_with "SRS" bytes && (5 <=? str_len bytes) then Ok tt else Err "invalid binary SRS header"
  else if String.eqb format "source" then
    match from_slice bytes with
    | Err _ => Err "invalid source JSON"
    | Ok value => if Value.is_object value then Ok tt else Err "source rule-set must be a JSON object"
    end
  else Err "unsupported rule-set format".

Definition validate_for_runtime (format bytes : string) : result string unit :=
  map_err (fun e => "cannot be used by shoes: " +:+ e) (validate_route_rule_set format bytes).

(** ** Plans *)

Definition plan_format (tag format : string) : result string string :=
  let format := trim format in
  if String.eqb format "source" then Ok "source"
  else if String.eqb format "binary" || is_empty format then Ok "binary"
  else Err (fmt ["route rule-set "; debug tag; " has unsupported format "; debug format]).

Definition plan_resource (tag kind format path url download_detour update_interval : string)
    : result string RuleSetResource.t :=
  let tag := trim tag in
  if is_empty tag then Err "route rule-set tag is required"
  else
    format ← plan_format tag format;
    if negb (is_empty (trim download_detour))
    then Err (fmt ["route rule-set "; debug tag; " download_detour is not supported until its outbound is executable"])
    else
      interval ← map_err (fun e => fmt ["route rule-set "; debug tag; " update_interval "; debug update_interval; ": "; e])
                   (parse_duration update_interval);
      current_dir ← fixed_state_root;
      let kind := trim kind in
      if String.eqb kind "local" then
        if is_empty (trim path) then Err (fmt ["local route rule-set "; debug tag; " path is required"])
        else
          let path := trim path in
          Ok (RuleSetResource.mk tag format (if is_absolute path then path else path_join current_dir path)
                RuleSetSource.Local interval)
      else if String.eqb kind "remote" then
        '(scheme, text) ← map_err (fun e => fmt ["remote route rule-set "; debug tag; " URL: "; e]) (url_parse (trim url));
        if negb (String.eqb scheme "http" || String.eqb scheme "https")
        then Err (fmt ["remote route rule-set "; debug tag; " URL must use http or https"])
        else Ok (RuleSetResource.mk tag format (cache_path current_dir tag format text) (RuleSetSource.Remote text) interval)
      else if String.eqb kind "inline"
      then Err (fmt ["inline route rule-set "; debug tag; " does not require a resource plan"])
      else Err (fmt ["route rule-set "; debug tag; " has unsupported type "; debug kind]).

Definition plan_inline_resource (tag bytes : string) : result string RuleSetResource.t :=
  let tag := trim tag in
  if is_empty tag then Err "route rule-set tag is required"
  else if MAX_RULE_SET_BYTES <? str_len bytes
  then Err (fmt ["inline route rule-set "; debug tag; " exceeds "; to_dec MAX_RULE_SET_BYTES; " bytes"])
  else
    _ ← map_err (fun e => fmt ["inline route rule-set "; debug tag; ": "; e]) (validate_envelope "source" bytes);
    _ ← map_err (fun e => fmt ["inline route rule-set "; debug tag; ": "; e]) (validate_for_runtime "source" bytes);
    root ← fixed_state_root;
    let path :=
      path_join (path_join (path_join (path_join root "runtime") "rule-sets") "inline")
        (fmt [safe_rule_set_tag tag; "-"; short_digest 8 (sha256 bytes); ".json"]) in
    Ok (RuleSetResource.mk tag "source" path (RuleSetSource.Inline bytes) DEFAULT_UPDATE_INTERVAL).
End plans.

(** ** Rewriting references *)

Definition is_reference (fields : Value.fields) : bool :=
  match Map.get "format" fields ≫= Value.as_str with
  | Some format => String.eqb format "source" || String.eqb format "binary"
  | None => false
  end.

(** [rewrite_rule_set_paths]: the path of a reference object is replaced, then every
    field is visited. *)
Fixpoint rewrite_rule_set_paths (replacements : gmap string string) (value : Value.t) : Value.t :=
  match value with
  | Value.Array values => Value.Array (List.map (rewrite_rule_set_paths replacements) values)
  | Value.Object fields =>
      let visited := List.map (fun kv => (kv.1, rewrite_rule_set_paths replacements kv.2)) fields in
      let replacement :=
        if is_reference fields
        then path ← Map.get "path" fields; path ← Value.as_str path; replacements !! path
        else None in
      Value.Object
        match replacement with
        | Some replacement => Map.insert "path" (Value.String replacement) visited
        | None => visited
        end
  | _ => value
  end.

Example durations :
  (parse_duration <$> [""; " "; "30"; "30s"; " 5m "; "2h"; "1d"; "0s"; "h"; "1w"; "1 h"; "300000000000000d"])
  = [Ok 86400; Ok 86400; Err "duration unit is required"; Ok 30; Ok 300; Ok 7200; Ok 86400;
     Err "duration must be greater than zero"; Err "duration value is invalid"; Err "supported units are s, m, h, and d";
     Err "supported units are s, m, h, and d"; Err "duration is too large"].
Proof. vm_compute. reflexivity. Qed.
