(* ===== verification/CompileInbound.v ===== *)
(** * Compiling inbounds: [crates/node-agent/src/compile.rs], lines 2172 to 2534

    A node and its provider payload become the listener configuration of the engine and
    its user specifications.  Decoding of the payloads is [parse_vless] and
    [parse_hysteria2]; [base64_len] is the number of bytes a text decodes to with the
    URL-safe alphabet and no padding, when it does and they fit. *)

From Stdlib Require Import ZArith Lia Ascii.
From S2P Require Import Prelude Bytes Json Topology Provider Credentials EngineApi Runtime OutboundGraph.

Open Scope Z_scope.

Definition VLESS_FLOW_REALITY_VISION : string := "xtls-rprx-vision".
Definition DEFAULT_INBOUND_LISTEN : string := "::".

Definition defaulted (value fallback : string) : string := if is_empty value then fallback else value.

Definition socket_address (host : string) (port : Z) : string :=
  if starts_with "[" host || (count_char ":" host <=? 1)
  then fmt [host; ":"; to_dec port]
  else fmt ["["; host; "]:"; to_dec port].

(** [value as u64] *)
Definition as_u64 (value : Z) : Z := value mod 2 ^ 64.

Definition show_bool (b : bool) : string := if b then "true" else "false".

(** ** Users *)

Definition is_active (user : UserCredential.t) : bool := negb (String.eqb (UserCredential.status user) "disabled").

Definition active_users (users : list UserCredential.t) : list UserCredential.t := retain is_active users.

Definition reported_id (user : UserCredential.t) : string :=
  if is_empty (UserCredential.user_id user) then UserCredential.name user else UserCredential.user_id user.

Definition identity_of (protocol : string) (user : UserCredential.t) : string :=
  if is_empty (reported_id user) && String.eqb protocol "vless" then UserCredential.credential user else reported_id user.

(** [condition.then(|| value)] *)
Definition when {A} (condition : bool) (value : A) : option A := if condition then Some value else None.

Definition user_spec (protocol : string) (user : UserCredential.t) : UserSpec.t :=
  UserSpec.mk
    (when (negb (is_empty (reported_id user))) (reported_id user))
    (when (String.eqb protocol "vless") (UserCredential.credential user))
    (when (String.eqb protocol "hysteria2") (UserCredential.credential user))
    true None
    (when (negb (UserCredential.upload_speed_limit_bps user =? 0)) (UserCredential.upload_speed_limit_bps user))
    (when (negb (UserCredential.download_speed_limit_bps user =? 0)) (UserCredential.download_speed_limit_bps user)).

Section inbound.
Context (debug : string -> string).
Context (parse_vless : string -> result string VlessRealityVisionConfig.t).
Context (parse_hysteria2 : string -> result string Hysteria2SalamanderConfig.t).
Context (base64_len : string -> option Z).
Implicit Types node : NodeInstance.t.

Local Abbreviation node_id := NodeInstance.node_id.

(** The loop of [compile_users]. *)
Fixpoint compile_active node (protocol : string) (users : list UserCredential.t) (identities : gset string)
    : fallible (list UserSpec.t) :=
  match users with
  | [] => Ok []
  | user :: users =>
      if is_empty (UserCredential.credential user)
      then error ["node "; node_id node; " user "; UserCredential.user_id user; " credential is required"]
      else
        let identity := identity_of protocol user in
        if is_empty identity then error ["node "; node_id node; " hysteria2 user identity is required"]
        else if bool_decide (identity ∈ identities)
        then error ["node "; node_id node; " lists user "; debug identity; " twice"]
        else
          specs ← compile_active node protocol users ({[ identity ]} ∪ identities);
          Ok (user_spec protocol user :: specs)
  end.

Definition compile_users node (protocol : string) : fallible (list UserSpec.t) :=
  compile_active node protocol (active_users (NodeInstance.users node)) ∅.

(** ** Vless *)

Definition decode_vless node : fallible VlessRealityVisionConfig.t :=
  map_err (fun e => Fail (fmt ["node "; node_id node; " decode vless provider config: "; e]))
    (parse_vless (NodeInstance.provider_config node)).

(** [short_id.iter().enumerate()] *)
Fixpoint check_short_ids node (index : nat) (short_ids : list string) : fallible unit :=
  match short_ids with
  | [] => Ok tt
  | short_id :: short_ids =>
      if 16 <? str_len short_id
      then error ["node "; node_id node; " vless reality short_id["; to_dec (Z.of_nat index);
                  "] must contain at most 16 hex characters"]
      else if negb (str_len short_id mod 2 =? 0) || negb (forallb is_hexdigit (chars short_id))
      then error ["node "; node_id node; " vless reality short_id["; to_dec (Z.of_nat index);
                  "] must contain an even number of hex characters"]
      else check_short_ids node (S index) short_ids
  end.

Definition compile_vless node : fallible (CompiledInbound Value.t) :=
  cfg ← decode_vless node;
  let tls := VlessRealityVisionConfig.tls cfg in
  let reality := VlessRealityVisionTlsConfig.reality tls in
  let handshake := VlessRealityConfig.handshake reality in
  let private_key := VlessRealityConfig.private_key reality in
  let short_ids := VlessRealityConfig.short_id reality in
  let flow := VlessRealityVisionConfig.flow cfg in
  if (VlessRealityVisionConfig.listen_port cfg =? 0) || is_empty private_key || match short_ids with [] => true | _ => false end
  then error ["node "; node_id node; " vless provider config is incomplete"]
  else if negb (VlessRealityVisionTlsConfig.enabled tls) || negb (VlessRealityConfig.enabled reality)
  then error ["node "; node_id node; " vless provider requires tls.enabled and tls.reality.enabled: tls=";
              show_bool (VlessRealityVisionTlsConfig.enabled tls); " reality="; show_bool (VlessRealityConfig.enabled reality)]
  else if is_empty (RealityHandshake.server handshake) || (RealityHandshake.server_port handshake =? 0)
  then error ["node "; node_id node; " vless provider requires a reality handshake server and port"]
  else if is_empty (trim (VlessRealityVisionTlsConfig.server_name tls))
  then error ["node "; node_id node; " vless provider requires tls.server_name"]
  else if negb (str_len private_key =? 43) || negb (bool_decide (base64_len private_key = Some 32))
  then error ["node "; node_id node; " vless reality private_key must be a base64url-encoded 32-byte key"]
  else
    _ ← check_short_ids node 0 short_ids;
    if negb (is_empty flow) && negb (String.eqb flow VLESS_FLOW_REALITY_VISION)
    then error ["node "; node_id node; " vless provider has unsupported flow "; debug flow]
    else
      let tag := defaulted (VlessRealityVisionConfig.tag cfg) (node_id node) in
      let listen := defaulted (VlessRealityVisionConfig.listen cfg) DEFAULT_INBOUND_LISTEN in
      let sni := VlessRealityVisionTlsConfig.server_name tls in
      users ← compile_users node "vless";
      if VlessRealityVisionConfig.tcp_fast_open cfg
      then error ["node "; node_id node; " enables tcp_fast_open, which is not configurable on a shoes inbound"]
      else
        let dest := socket_address (RealityHandshake.server handshake) (RealityHandshake.server_port handshake) in
        let config := Value.obj
          [("address", Value.String (socket_address listen (VlessRealityVisionConfig.listen_port cfg)));
           ("sniff", Value.Bool (VlessRealityVisionConfig.sniff cfg));
           ("protocol", Value.obj
              [("type", Value.String "tls");
               ("reality_targets", Value.obj
                  [(sni, Value.obj
                      [("private_key", Value.String private_key);
                       ("short_ids", Value.strings short_ids);
                       ("dest", Value.String dest);
                       ("vision", Value.Bool (String.eqb flow VLESS_FLOW_REALITY_VISION));
                       ("protocol", Value.obj [("type", Value.String "vless"); ("udp_enabled", Value.Bool true)])])])])] in
        Ok (mkCompiled (node_id node) "vless" (InboundSpec.mk tag config (Some users))).

(** ** Hysteria2 *)

Definition decode_hysteria2 node : fallible Hysteria2SalamanderConfig.t :=
  map_err (fun e => Fail (fmt ["node "; node_id node; " decode hysteria2 provider config: "; e]))
    (parse_hysteria2 (NodeInstance.provider_config node)).

Definition check_obfs node (cfg : Hysteria2SalamanderConfig.t) : fallible unit :=
  let kind := Hysteria2ObfsConfig.kind (Hysteria2SalamanderConfig.obfs cfg) in
  let password := Hysteria2ObfsConfig.password (Hysteria2SalamanderConfig.obfs cfg) in
  if String.eqb kind "salamander" then
    if is_empty password then error ["node "; node_id node; " hysteria2 salamander password is required"]
    else
      match Hysteria2SalamanderConfig.masquerade cfg with
      | Some _ => error ["node "; node_id node; " hysteria2 masquerade requires obfs to be disabled"]
      | None => Ok tt
      end
  else if String.eqb kind "" || String.eqb kind "none" then
    if is_empty password then Ok tt else error ["node "; node_id node; " hysteria2 obfs password requires salamander"]
  else error ["node "; node_id node; " has unsupported hysteria2 obfs type "; debug kind].

Definition check_masquerade node (masquerade : Hysteria2MasqueradeConfig.t) : fallible unit :=
  let kind := Hysteria2MasqueradeConfig.kind masquerade in
  if String.eqb kind "proxy" && is_empty (Hysteria2MasqueradeConfig.url masquerade)
  then error ["node "; node_id node; " hysteria2 proxy masquerade config is incomplete"]
  else if String.eqb kind "string" && is_empty (Hysteria2MasqueradeConfig.content masquerade)
  then error ["node "; node_id node; " hysteria2 fixed response masquerade content is required"]
  else if String.eqb kind "proxy" || String.eqb kind "string" then Ok tt
  else error ["node "; node_id node; " has unsupported hysteria2 masquerade type "; debug kind].

Definition masquerade_value (masquerade : Hysteria2MasqueradeConfig.t) : fallible Value.t :=
  let kind := Hysteria2MasqueradeConfig.kind masquerade in
  if String.eqb kind "proxy" then
    Ok (Value.obj
          [("type", Value.String "proxy"); ("url", Value.String (Hysteria2MasqueradeConfig.url masquerade));
           ("rewrite_host", Value.Bool (Hysteria2MasqueradeConfig.rewrite_host masquerade));
           ("use_native_roots", Value.Bool true)])
  else if String.eqb kind "string" then
    Ok (Value.obj
          [("type", Value.String "string"); ("content", Value.String (Hysteria2MasqueradeConfig.content masquerade));
           ("content_type", Value.String "text/html; charset=utf-8")])
  else Err (Panic "validated above").

Local Abbreviation method := (stm (gset string) (exn string)).

Definition compile_hysteria2 node : method (CompiledInbound Value.t) :=
  cfg ← lift (decode_hysteria2 node);
  let tls := Hysteria2SalamanderConfig.tls cfg in
  let obfs := Hysteria2SalamanderConfig.obfs cfg in
  let up_mbps := Hysteria2SalamanderConfig.up_mbps cfg in
  let down_mbps := Hysteria2SalamanderConfig.down_mbps cfg in
  let port_hopping := Hysteria2SalamanderConfig.port_hopping cfg in
  if (Hysteria2SalamanderConfig.listen_port cfg =? 0) || is_empty (Hysteria2TlsConfig.certificate_pem tls)
     || is_empty (Hysteria2TlsConfig.private_key_pem tls)
  then raise (Fail (fmt ["node "; node_id node; " hysteria2 provider config is incomplete"]))
  else if (up_mbps <? 0) || (down_mbps <? 0)
  then raise (Fail (fmt ["node "; node_id node; " hysteria2 bandwidth must not be negative: up_mbps="; to_dec_signed up_mbps;
                         " down_mbps="; to_dec_signed down_mbps]))
  else
    _ ← lift (check_obfs node cfg);
    _ ← lift match Hysteria2SalamanderConfig.masquerade cfg with
             | Some masquerade => check_masquerade node masquerade
             | None => Ok tt
             end;
    let tag := defaulted (Hysteria2SalamanderConfig.tag cfg) (node_id node) in
    let listen := defaulted (Hysteria2SalamanderConfig.listen cfg) DEFAULT_INBOUND_LISTEN in
    users ← lift (compile_users node "hysteria2");
    _ ← (if is_empty port_hopping then mret tt
         else modify (fun warnings =>
                {[ fmt ["node "; node_id node; " port_hopping "; debug port_hopping;
                        " is retained for the nftables phase and is not represented by the shoes listener"] ]} ∪ warnings));
    let protocol := Map.from_iter
      [("type", Value.String "hysteria2"); ("udp_enabled", Value.Bool true);
       ("up_mbps", Value.num (as_u64 up_mbps)); ("down_mbps", Value.num (as_u64 down_mbps));
       ("ignore_client_bandwidth", Value.Bool (Hysteria2SalamanderConfig.ignore_client_bandwidth cfg))] in
    let protocol :=
      if String.eqb (Hysteria2ObfsConfig.kind obfs) "salamander"
      then Map.insert "obfs" (Value.obj [("type", Value.String "salamander");
                                         ("password", Value.String (Hysteria2ObfsConfig.password obfs))]) protocol
      else protocol in
    protocol ← lift match Hysteria2SalamanderConfig.masquerade cfg with
                    | Some masquerade => value ← masquerade_value masquerade; Ok (Map.insert "masquerade" value protocol)
                    | None => Ok protocol
                    end;
    let config := Value.obj
      [("address", Value.String (socket_address listen (Hysteria2SalamanderConfig.listen_port cfg)));
       ("transport", Value.String "quic");
       ("quic_settings", Value.obj
          [("cert", Value.String (Hysteria2TlsConfig.certificate_pem tls));
           ("key", Value.String (Hysteria2TlsConfig.private_key_pem tls));
           ("alpn_protocols", Value.String "h3")]);
       ("protocol", Value.Object protocol); ("sniff", Value.Bool true)] in
    mret (mkCompiled (node_id node) "hysteria2" (InboundSpec.mk tag config (Some users))).

(** ** Nodes *)

Definition compile_inbound node : method (CompiledInbound Value.t) :=
  let provider := NodeInstance.provider_id node in
  let known := String.eqb provider VLESS_REALITY_VISION_ID || String.eqb provider HYSTERIA2_SALAMANDER_ID in
  if is_empty (trim (node_id node)) then raise (Fail "node_id is required")
  else if known && negb (NodeInstance.provider_config_version node =? CURRENT_CONFIG_VERSION)
  then raise (Fail (fmt ["node "; node_id node; " provider "; provider; " config version ";
                         to_dec (NodeInstance.provider_config_version node); " is unsupported"]))
  else if String.eqb provider VLESS_REALITY_VISION_ID then lift (compile_vless node)
  else if String.eqb provider HYSTERIA2_SALAMANDER_ID then compile_hysteria2 node
  else raise (Fail (fmt ["node "; node_id node; " has unsupported provider "; debug provider])).

Definition inbound_protocol_sniff_enabled node : fallible bool :=
  if String.eqb (NodeInstance.provider_id node) VLESS_REALITY_VISION_ID
  then config ← decode_vless node; Ok (VlessRealityVisionConfig.sniff config)
  else Ok (String.eqb (NodeInstance.provider_id node) HYSTERIA2_SALAMANDER_ID).
End inbound.
