(* ===== verification/CompileRoute.v ===== *)
(** * Compiling routes: [crates/node-agent/src/compile.rs], lines 1405 to 1472 and
    2536 to 3010

    The catalog of rule sets, the checks over a route and the rules of one inbound.
    [headless_rules] is the JSON value the derived serializer gives the inline rules of
    a rule set. *)

From Stdlib Require Import ZArith Lia Ascii.
From S2P Require Import Prelude Bytes Json Topology Runtime OutboundAdapter OutboundGraph OutboundProjection RuleSet.

Open Scope Z_scope.

Definition DEFAULT_DIRECT_OUTBOUND : string := "direct".

(** [CompiledRuleSet] *)
Abbreviation rule_sets_t := (gmap string RuleSetReference.t).

(** ** Unsupported fields *)

(** The names whose flag is set, in order. *)
Definition flagged (fields : list (string * bool)) : list string :=
  omap (fun field => if field.2 : bool then Some field.1 else None) fields.

Definition nonempty_list {A} (l : list A) : bool := match l with [] => false | _ => true end.
Local Abbreviation is_some := DialerProjection.is_some.

Definition unsupported_route_top_level_fields (route : Route.t) : list string :=
  flagged
    [("auto_detect_interface", Route.auto_detect_interface route);
     ("default_interface", negb (is_empty (Route.default_interface route)));
     ("default_mark", negb (Route.default_mark route =? 0));
     ("find_process", Route.find_process route);
     ("geoip", is_some (Route.geoip route));
     ("geosite", is_some (Route.geosite route));
     ("override_android_vpn", Route.override_android_vpn route);
     ("default_network_strategy", negb (is_empty (Route.default_network_strategy route)));
     ("default_network_type", nonempty_list (Route.default_network_type route));
     ("default_fallback_network_type", nonempty_list (Route.default_fallback_network_type route));
     ("default_fallback_delay", negb (is_empty (Route.default_fallback_delay route)))].

Definition unsupported_route_rule_fields (rule : RouteRule.t) : list string :=
  flagged
    [("type", negb (is_empty (RouteRule.kind rule) || String.eqb (RouteRule.kind rule) "default"));
     ("source_ip_cidr", nonempty_list (RouteRule.source_ip_cidr rule));
     ("source_ip_is_private", is_some (RouteRule.source_ip_is_private rule));
     ("ip_is_private", is_some (RouteRule.ip_is_private rule));
     ("source_port", nonempty_list (RouteRule.source_port rule));
     ("source_port_range", nonempty_list (RouteRule.source_port_range rule));
     ("method", negb (is_empty (RouteRule.method rule)));
     ("no_drop", RouteRule.no_drop rule);
     ("mode", negb (is_empty (RouteRule.mode rule)));
     ("rules", nonempty_list (RouteRule.rules rule));
     ("auth_user", nonempty_list (RouteRule.auth_user rule));
     ("client", nonempty_list (RouteRule.client rule));
     ("geosite", nonempty_list (RouteRule.geosite rule));
     ("source_geoip", nonempty_list (RouteRule.source_geoip rule));
     ("geoip", nonempty_list (RouteRule.geoip rule));
     ("process_name", nonempty_list (RouteRule.process_name rule));
     ("process_path", nonempty_list (RouteRule.process_path rule));
     ("process_path_regex", nonempty_list (RouteRule.process_path_regex rule));
     ("package_name", nonempty_list (RouteRule.package_name rule));
     ("user", nonempty_list (RouteRule.user rule));
     ("user_id", nonempty_list (RouteRule.user_id rule));
     ("clash_mode", negb (is_empty (RouteRule.clash_mode rule)));
     ("network_type", nonempty_list (RouteRule.network_type rule));
     ("network_is_expensive", is_some (RouteRule.network_is_expensive rule));
     ("network_is_constrained", is_some (RouteRule.network_is_constrained rule));
     ("wifi_ssid", nonempty_list (RouteRule.wifi_ssid rule));
     ("wifi_bssid", nonempty_list (RouteRule.wifi_bssid rule));
     ("default_interface_address", nonempty_list (RouteRule.default_interface_address rule));
     ("preferred_by", nonempty_list (RouteRule.preferred_by rule));
     ("rule_set_ip_cidr_match_source", RouteRule.rule_set_ip_cidr_match_source rule);
     ("route_options", is_some (RouteRule.route_options rule));
     ("direct_options", is_some (RouteRule.direct_options rule));
     ("sniff_options", is_some (RouteRule.sniff_options rule));
     ("resolve_options", is_some (RouteRule.resolve_options rule))].

Section route.
Context (debug : string -> string) (parse_go_duration : string -> result string Z).
Context (json_chunks : Value.t -> list string) (sha256 : string -> string).
Context (from_slice : string -> result string Value.t) (validate_route_rule_set : string -> string -> result string unit).
Context (url_parse : string -> result string (string * string)) (fixed_state_root : result string string).
Context (headless_rules : list HeadlessRule.t -> Value.t).

(** ** The catalog of rule sets *)

(** One round of [compile_rule_set_catalog]; encoding a JSON value does not fail. *)
Definition plan_rule_set (rule_set : RouteRuleSet.t) : fallible RuleSetResource.t :=
  let tag := RouteRuleSet.tag rule_set in
  if is_empty (trim tag) then error ["route rule_set tag is required"]
  else
    let kind := trim (RouteRuleSet.kind rule_set) in
    if is_empty kind || String.eqb kind "inline" then
      if negb (nonempty_list (RouteRuleSet.rules rule_set))
      then error ["inline route rule-set "; debug tag; " rules are required"]
      else
        let bytes := fmt (json_chunks (Value.obj [("version", Value.num 4); ("rules", headless_rules (RouteRuleSet.rules rule_set))])) in
        map_err Fail (plan_inline_resource debug sha256 from_slice validate_route_rule_set fixed_state_root tag bytes)
    else if String.eqb kind "local" || String.eqb kind "remote" then
      map_err Fail
        (plan_resource debug sha256 url_parse fixed_state_root tag (RouteRuleSet.kind rule_set) (RouteRuleSet.format rule_set)
           (RouteRuleSet.path rule_set) (RouteRuleSet.url rule_set) (RouteRuleSet.download_detour rule_set)
           (RouteRuleSet.update_interval rule_set))
    else error ["route rule-set "; debug tag; " has unsupported type "; debug kind].

Fixpoint compile_rule_sets (rule_sets : list RouteRuleSet.t) (catalog : rule_sets_t) (resources : list RuleSetResource.t)
    : fallible (rule_sets_t * list RuleSetResource.t) :=
  match rule_sets with
  | [] => Ok (catalog, resources)
  | rule_set :: rule_sets =>
      resource ← plan_rule_set rule_set;
      let tag := RouteRuleSet.tag rule_set in
      match catalog !! tag with
      | Some _ => error ["duplicate route rule-set tag "; debug tag]
      | None =>
          compile_rule_sets rule_sets (<[tag := RuleSetResource.reference resource]> catalog) (resources ++ [resource])
      end
  end.

Definition compile_rule_set_catalog (route : option Route.t) : fallible (rule_sets_t * list RuleSetResource.t) :=
  match route with
  | None => Ok (∅, [])
  | Some route =>
      '(catalog, resources) ← compile_rule_sets (Route.rule_sets route) ∅ [];
      Ok (catalog, sort_by_key RuleSetResource.tag resources)
  end.

(** ** Checks *)

Section references.
Context (outbounds : catalog_t) (rule_sets : rule_sets_t).

Fixpoint known_rule_sets (message : string) (tags : list string) : fallible unit :=
  match tags with
  | [] => Ok tt
  | tag :: tags =>
      match rule_sets !! tag with
      | None => error [message; debug tag]
      | Some _ => known_rule_sets message tags
      end
  end.

Fixpoint validate_route_rule_references (rule : RouteRule.t) : fallible unit :=
  let outbound := RouteRule.outbound rule in
  if negb (is_empty outbound) && negb (is_some (outbounds !! outbound))
  then error ["route rule references unknown outbound "; debug outbound]
  else
    _ ← known_rule_sets "route rule references unknown rule-set " (RouteRule.rule_set rule);
    (fix nested (rules : list RouteRule.t) : fallible unit :=
       match rules with
       | [] => Ok tt
       | rule :: rules => _ ← validate_route_rule_references rule; nested rules
       end) (RouteRule.rules rule).

Fixpoint validate_rules (rules : list RouteRule.t) : fallible unit :=
  match rules with
  | [] => Ok tt
  | rule :: rules => _ ← validate_route_rule_references rule; validate_rules rules
  end.

Definition validate_route (route : option Route.t) : fallible unit :=
  match route with
  | None => Ok tt
  | Some route =>
      let unsupported := unsupported_route_top_level_fields route in
      if nonempty_list unsupported
      then error ["route contains unsupported top-level fields: "; join ", " unsupported]
      else if negb (is_empty (Route.final_ route)) && negb (is_some (outbounds !! Route.final_ route))
      then error ["route final references unknown outbound "; debug (Route.final_ route)]
      else validate_rules (Route.rules route)
  end.
End references.

(** ** Matchers *)

Definition insert_non_empty (name : string) (values : list Value.t) (matcher : Value.fields) : Value.fields :=
  if nonempty_list values then Map.insert name (Value.Array values) matcher else matcher.

Definition insert_strings (name : string) (values : list string) : Value.fields -> Value.fields :=
  insert_non_empty name (Value.String <$> values).

Fixpoint check_ports (ports : list Z) : fallible unit :=
  match ports with
  | [] => Ok tt
  | port :: ports =>
      if u16_max <? port then error ["route port "; to_dec port; " must be in 1..=65535"]
      else if port =? 0 then error ["route port 0 must be in 1..=65535"]
      else check_ports ports
  end.

Definition insert_ports (name : string) (ports : list Z) (matcher : Value.fields) : fallible Value.fields :=
  _ ← check_ports ports; Ok (insert_non_empty name (Value.num <$> ports) matcher).

Definition validate_port_range (value : string) : fallible unit :=
  let separator := if contains_char ":" value then ":"%char else "-"%char in
  match split_once separator value with
  | None => error ["route port_range "; debug value; " must be START:END"]
  | Some (start, end_) =>
      start ← map_err (fun e => Fail (fmt ["invalid route port_range "; debug value; ": "; e])) (parse_uint u16_max (trim start));
      end_ ← map_err (fun e => Fail (fmt ["invalid route port_range "; debug value; ": "; e])) (parse_uint u16_max (trim end_));
      if end_ <? start then error ["route port_range "; debug value; " has descending bounds"]
      else if start =? 0 then error ["route port_range "; debug value; " must start at 1 or greater"]
      else Ok tt
  end.

Fixpoint check_port_ranges (ranges : list string) : fallible unit :=
  match ranges with
  | [] => Ok tt
  | range :: ranges => _ ← validate_port_range range; check_port_ranges ranges
  end.

Definition insert_port_ranges (name : string) (ranges : list string) (matcher : Value.fields) : fallible Value.fields :=
  _ ← check_port_ranges ranges; Ok (insert_strings name ranges matcher).

Definition insert_networks (networks : list string) (matcher : Value.fields) : fallible Value.fields :=
  match find_first (fun network => negb (String.eqb network "tcp" || String.eqb network "udp")) networks with
  | Some network => error ["route network "; debug network; " must be tcp or udp"]
  | None => Ok (insert_strings "network" networks matcher)
  end.

Definition insert_protocols (protocols : list string) (matcher : Value.fields) : fallible Value.fields :=
  match find_first (fun protocol => negb (String.eqb protocol "http" || String.eqb protocol "tls")) protocols with
  | Some protocol => error ["route protocol "; debug protocol;
                            " is not supported; panel-compatible TCP sniffing currently supports http and tls"]
  | None => Ok (insert_strings "protocol" protocols matcher)
  end.

Definition reference_value (rule_set : RuleSetReference.t) : Value.t :=
  Value.obj [("format", Value.String (RuleSetReference.format rule_set)); ("path", Value.String (RuleSetReference.path rule_set))].

Fixpoint reference_values (rule_sets : rule_sets_t) (message : string) (tags : list string) : fallible (list Value.t) :=
  match tags with
  | [] => Ok []
  | tag :: tags =>
      match rule_sets !! tag with
      | None => error [message; debug tag]
      | Some rule_set => values ← reference_values rule_sets message tags; Ok (reference_value rule_set :: values)
      end
  end.

Definition has_direct_match (rule : RouteRule.t) : bool :=
  nonempty_list (RouteRule.domain rule) || nonempty_list (RouteRule.domain_suffix rule)
  || nonempty_list (RouteRule.domain_keyword rule) || nonempty_list (RouteRule.domain_regex rule)
  || nonempty_list (RouteRule.ip_cidr rule) || negb (RouteRule.ip_version rule =? 0)
  || nonempty_list (RouteRule.port rule) || nonempty_list (RouteRule.port_range rule)
  || nonempty_list (RouteRule.network rule) || nonempty_list (RouteRule.protocol rule).

Definition compile_route_match (rule : RouteRule.t) (rule_sets : rule_sets_t) : fallible Value.fields :=
  if negb (nonempty_list (RouteRule.inbound rule)) && negb (has_direct_match rule) && negb (nonempty_list (RouteRule.rule_set rule))
  then error ["route rule has no match conditions"]
  else
    let matcher := insert_strings "domain" (RouteRule.domain rule) [] in
    let matcher := insert_strings "domain_suffix" (RouteRule.domain_suffix rule) matcher in
    let matcher := insert_strings "domain_keyword" (RouteRule.domain_keyword rule) matcher in
    let matcher := insert_strings "domain_regex" (RouteRule.domain_regex rule) matcher in
    let matcher := insert_strings "ip_cidr" (RouteRule.ip_cidr rule) matcher in
    let ip_version := RouteRule.ip_version rule in
    matcher ← (if ip_version =? 0 then Ok matcher
               else if negb ((ip_version =? 4) || (ip_version =? 6))
               then error ["route ip_version "; to_dec ip_version; " must be 4 or 6"]
               else Ok (Map.insert "ip_version" (Value.Array [Value.num ip_version]) matcher));
    matcher ← insert_ports "port" (RouteRule.port rule) matcher;
    matcher ← insert_port_ranges "port_range" (RouteRule.port_range rule) matcher;
    matcher ← insert_networks (RouteRule.network rule) matcher;
    matcher ← insert_protocols (RouteRule.protocol rule) matcher;
    matcher ← (if nonempty_list (RouteRule.rule_set rule)
               then referenced ← reference_values rule_sets "route rule references unknown rule-set " (RouteRule.rule_set rule);
                    Ok (Map.insert "rule_set" (Value.Array referenced) matcher)
               else Ok matcher);
    Ok (if RouteRule.invert rule then Map.insert "invert" (Value.Bool true) matcher else matcher).

(** ** Rules *)

Local Abbreviation method := (stm Budget.t (exn string)).

Definition rule_name (index : nat) : string := fmt ["route.rules["; to_dec (Z.of_nat index); "]"].

(** The action of a rule, with the outbound it names. *)
Definition rule_action (outbounds : catalog_t) (rule : RouteRule.t) (index : nat)
    : fallible (string * option ValidatedOutbound.t) :=
  let action := RouteRule.action rule in
  let outbound := RouteRule.outbound rule in
  if String.eqb action "reject" || String.eqb action "reject-drop" then
    if is_empty outbound then Ok ("block", None) else error [rule_name index; " reject action must not contain outbound"]
  else if is_empty action || String.eqb action "route" then
    if String.eqb action "route" && is_empty outbound then error [rule_name index; " route action requires outbound"]
    else if is_empty outbound then Ok ("allow", None)
    else
      match outbounds !! outbound with
      | None => error ["route rule references unknown outbound "; debug outbound]
      | Some outbound => Ok ("allow", Some outbound)
      end
  else error [rule_name index; " action "; debug action; " is not supported by shoes"].

Definition base_rule (action : string) : Value.fields :=
  Map.from_iter [("masks", Value.String "0.0.0.0/0"); ("action", Value.String action)].

Definition compile_route_rule (outbounds : catalog_t) (rule_sets : rule_sets_t) (rule : RouteRule.t) (index : nat)
    : method Value.t :=
  let unsupported := unsupported_route_rule_fields rule in
  if nonempty_list unsupported
  then raise (Fail (fmt [rule_name index; " contains unsupported fields: "; join ", " unsupported]))
  else
    '(action, outbound) ← lift (rule_action outbounds rule index);
    match_config ← lift (compile_route_match rule rule_sets);
    let compiled := base_rule action in
    compiled ← match outbound with
               | Some outbound =>
                   action ← outbound_client_action debug parse_go_duration json_chunks sha256 outbounds outbound;
                   mret (apply_outbound_action compiled "client_chains" action)
               | None => mret compiled
               end;
    mret (Value.Object
            (if nonempty_list match_config then Map.insert "match" (Value.Object match_config) compiled else compiled)).

(** Whether the rule concerns the inbound. *)
Definition applies_to (inbound_tag : string) (rule : RouteRule.t) : bool :=
  negb (nonempty_list (RouteRule.inbound rule)) || existsb (fun tag => String.eqb tag inbound_tag) (RouteRule.inbound rule).

(** [route.rules.iter().enumerate()] *)
Fixpoint compile_rules (outbounds : catalog_t) (rule_sets : rule_sets_t) (inbound_tag : string) (sniff_enabled : bool)
    (index : nat) (rules : list RouteRule.t) : method (list Value.t) :=
  match rules with
  | [] => mret []
  | rule :: rules =>
      if negb (applies_to inbound_tag rule)
      then compile_rules outbounds rule_sets inbound_tag sniff_enabled (S index) rules
      else if nonempty_list (RouteRule.protocol rule) && negb sniff_enabled
      then raise (Fail (fmt [rule_name index; " uses protocol matching on inbound "; debug inbound_tag;
                             ", but that provider does not enable sniff; enable sniff on the VLESS inbound"]))
      else
        compiled ← compile_route_rule outbounds rule_sets rule index;
        compiled_rules ← compile_rules outbounds rule_sets inbound_tag sniff_enabled (S index) rules;
        mret (compiled :: compiled_rules)
  end.

Definition final_outbound (outbounds : catalog_t) (route : option Route.t) : fallible ValidatedOutbound.t :=
  let final_tag := match route with Some route => Route.final_ route | None => "" end in
  if is_empty final_tag then
    match outbounds !! DEFAULT_DIRECT_OUTBOUND with
    | Some outbound => Ok outbound
    | None => error ["route has no final outbound and no direct outbound named "; quoted "direct"]
    end
  else
    match outbounds !! final_tag with
    | Some outbound => Ok outbound
    | None => error ["route final references unknown outbound "; debug final_tag]
    end.

Definition compile_rules_for_inbound (route : option Route.t) (outbounds : catalog_t) (rule_sets : rule_sets_t)
    (inbound_tag : string) (sniff_enabled : bool) : method (list Value.t) :=
  rules ← compile_rules outbounds rule_sets inbound_tag sniff_enabled 0
            match route with Some route => Route.rules route | None => [] end;
  outbound ← lift (final_outbound outbounds route);
  action ← outbound_client_action debug parse_go_duration json_chunks sha256 outbounds outbound;
  mret (rules ++ [Value.Object (apply_outbound_action (base_rule "allow") "client_chains" action)]).
End route.
