(* ===== verification/CompileOutbounds.v ===== *)
(** * Validating outbounds: [crates/node-agent/src/compile.rs], lines 274 to 307,
    334 to 346, 1474 to 1806 and 3415 to 3469

    The outbounds of a topology become the catalog of [OutboundGraph.v].  [from_slice]
    decodes JSON. *)

From Stdlib Require Import ZArith Lia Ascii.
From S2P Require Import Prelude Bytes Json IpAddr Topology Runtime OutboundAdapter OutboundGraph CompileRoute.

Open Scope Z_scope.

(** ** Client subnets *)

Definition address_bits (address : IpAddr.t) : Z := if IpAddr.is_ipv4 address then 32 else 128.

(** [(u32::from(address) & mask).into()], and the same for version 6. *)
Definition mask_address (address : IpAddr.t) (prefix_len : Z) : IpAddr.t :=
  let mask max width := if prefix_len =? 0 then 0 else Z.land (Z.shiftl max (width - prefix_len)) max in
  match address with
  | IpAddr.V4 bits => IpAddr.V4 (Z.land bits (mask u32_max 32))
  | IpAddr.V6 bits => IpAddr.V6 (Z.land bits (mask (2 ^ 128 - 1) 128))
  end.

Section outbounds.
Context (debug : string -> string).
Context (from_slice : string -> result string Value.t).

(** [AddrParseError] *)
Definition parse_address (text : string) : result string IpAddr.t :=
  ok_or "invalid IP address syntax" (parse_ip_addr text).

Definition subnet_parts (value : string) : result string (IpAddr.t * Z) :=
  match split_once "/" value with
  | Some (address, prefix) =>
      if is_empty address || is_empty prefix || contains_char "/" prefix
      then Err "must be an IP address or CIDR prefix"
      else
        address ← map_err (fun e => fmt ["has invalid address "; debug address; ": "; e]) (parse_address address);
        if negb (forallb is_digit (chars prefix)) || ((1 <? str_len prefix) && starts_with "0" prefix)
        then Err (fmt ["has invalid prefix "; debug prefix])
        else
          prefix_len ← map_err (fun e => fmt ["has invalid prefix "; debug prefix; ": "; e]) (parse_uint 255 prefix);
          Ok (address, prefix_len)
  | None =>
      address ← map_err (fun e => "has invalid address: " +:+ e) (parse_address value);
      Ok (address, address_bits address)
  end.

Definition show_subnet (network : IpAddr.t) (prefix_len : Z) : string := fmt [show_ip_addr network; "/"; to_dec prefix_len].

Definition normalize_dns_client_subnet_value (value : string) : result string (option string) :=
  if is_empty value then Ok None
  else
    '(address, prefix_len) ← subnet_parts value;
    if address_bits address <? prefix_len
    then Err (fmt ["has prefix length "; to_dec prefix_len; ", which exceeds "; to_dec (address_bits address); " for ";
                   show_ip_addr address])
    else Ok (Some (show_subnet (mask_address address prefix_len) prefix_len)).

(** ** Resolver options *)

Definition outbound_dns_ip_strategy (strategy : string) : fallible (option string) :=
  if is_empty strategy then Ok None
  else if String.eqb strategy "prefer_ipv4" then Ok (Some "ipv4_and_ipv6")
  else if String.eqb strategy "prefer_ipv6" then Ok (Some "ipv6_and_ipv4")
  else if String.eqb strategy "ipv4_only" then Ok (Some "ipv4_only")
  else if String.eqb strategy "ipv6_only" then Ok (Some "ipv6_only")
  else error ["unsupported outbound domain_resolver strategy "; debug strategy].

Definition RESOLVER_FIELDS : list string := ["server"; "strategy"; "disable_cache"; "rewrite_ttl"; "client_subnet"].
Definition STRATEGIES : list string := [""; "prefer_ipv4"; "prefer_ipv6"; "ipv4_only"; "ipv6_only"].

Section resolver.
Context (kind tag : string).

Definition resolver_error {A} (pieces : list string) : fallible A :=
  error (["outbound "; debug tag; " ("; kind; ") "] ++ pieces).

Definition resolver_server (resolver : Value.fields) : fallible string :=
  match Map.get "server" resolver with
  | Some (Value.String server) =>
      if negb (is_empty (trim server)) && String.eqb (trim server) server then Ok server
      else resolver_error ["domain_resolver.server must be a non-empty trimmed string"]
  | _ => resolver_error ["domain_resolver.server must be a non-empty trimmed string"]
  end.

Definition resolver_strategy (resolver : Value.fields) : fallible string :=
  strategy ← match Map.get "strategy" resolver with
             | None | Some Value.Null => Ok ""
             | Some (Value.String strategy) =>
                 if String.eqb (trim strategy) strategy then Ok (if String.eqb strategy "as_is" then "" else strategy)
                 else resolver_error ["domain_resolver.strategy must be a string"]
             | Some _ => resolver_error ["domain_resolver.strategy must be a string"]
             end;
  if bool_decide (strategy ∈ STRATEGIES) then Ok strategy
  else resolver_error ["domain_resolver strategy "; debug strategy; " is unsupported"].

Definition resolver_disable_cache (resolver : Value.fields) : fallible bool :=
  match Map.get "disable_cache" resolver with
  | None | Some Value.Null => Ok false
  | Some (Value.Bool value) => Ok value
  | Some _ => resolver_error ["domain_resolver.disable_cache must be a boolean"]
  end.

Definition resolver_rewrite_ttl (resolver : Value.fields) : fallible (option Z) :=
  match Map.get "rewrite_ttl" resolver with
  | None | Some Value.Null => Ok None
  | Some (Value.Number value) =>
      match Number.as_u64 value with
      | Some value => if value <=? u32_max then Ok (Some value) else resolver_error ["domain_resolver.rewrite_ttl must be a uint32"]
      | None => resolver_error ["domain_resolver.rewrite_ttl must be a uint32"]
      end
  | Some _ => resolver_error ["domain_resolver.rewrite_ttl must be a uint32"]
  end.

Definition resolver_client_subnet (resolver : Value.fields) : fallible (option string) :=
  match Map.get "client_subnet" resolver with
  | None | Some Value.Null => Ok None
  | Some (Value.String value) =>
      map_err (fun reason => Fail (fmt ["outbound "; debug tag; " ("; kind; ") domain_resolver.client_subnet "; debug value; " "; reason]))
        (normalize_dns_client_subnet_value value)
  | Some _ => resolver_error ["domain_resolver.client_subnet must be a string"]
  end.

Definition parse_resolver (resolver : Value.fields) : fallible OutboundDomainResolver.t :=
  match find_first (fun field => negb (bool_decide (field ∈ RESOLVER_FIELDS))) (Map.keys resolver) with
  | Some field => resolver_error ["domain_resolver field "; debug field; " cannot be represented by shoes"]
  | None =>
      server ← resolver_server resolver;
      strategy ← resolver_strategy resolver;
      disable_cache ← resolver_disable_cache resolver;
      rewrite_ttl ← resolver_rewrite_ttl resolver;
      client_subnet ← resolver_client_subnet resolver;
      Ok (OutboundDomainResolver.mk server strategy (DnsServerQueryProfile.mk disable_cache rewrite_ttl client_subnet))
  end.

(** [extract_outbound_domain_resolver]: what is left of the fields, and the resolver. *)
Definition extract_outbound_domain_resolver (fields : Value.fields) : fallible (Value.fields * option OutboundDomainResolver.t) :=
  match Map.get "domain_resolver" fields with
  | None => Ok (fields, None)
  | Some value =>
      let fields := Map.remove "domain_resolver" fields in
      if String.eqb kind "selector" || String.eqb kind "urltest"
      then resolver_error ["does not have sing-box dialer options and cannot declare domain_resolver"]
      else
        match value with
        | Value.Null => Ok (fields, None)
        | Value.String server =>
            if is_empty server then Ok (fields, None)
            else if negb (String.eqb (trim server) server)
            then resolver_error ["domain_resolver must be a non-empty trimmed DNS server tag"]
            else Ok (fields, Some (OutboundDomainResolver.mk server "" DnsServerQueryProfile.zero))
        | Value.Object resolver => resolver ← parse_resolver resolver; Ok (fields, Some resolver)
        | _ => resolver_error ["domain_resolver must be a string, object, or null"]
        end
  end.
End resolver.

Definition compile_domain_resolve_options (resolver : DomainResolveOptions.t) (context : string)
    : fallible OutboundDomainResolver.t :=
  let server := DomainResolveOptions.server resolver in
  let strategy := DomainResolveOptions.strategy resolver in
  if is_empty server || negb (String.eqb (trim server) server)
  then error [context; ".server must be a non-empty trimmed string"]
  else if negb (String.eqb (trim strategy) strategy) then error [context; ".strategy must be a trimmed string"]
  else
    let effective := if String.eqb strategy "as_is" then "" else strategy in
    match outbound_dns_ip_strategy effective with
    | Err _ => error [context; " strategy "; debug strategy; " is unsupported"]
    | Ok _ =>
        client_subnet ← map_err (fun reason => Fail (fmt [context; ".client_subnet ";
                                                          debug (DomainResolveOptions.client_subnet resolver); " "; reason]))
                          (normalize_dns_client_subnet_value (DomainResolveOptions.client_subnet resolver));
        Ok (OutboundDomainResolver.mk server effective
              (DnsServerQueryProfile.mk (DomainResolveOptions.disable_cache resolver) (DomainResolveOptions.rewrite_ttl resolver)
                 client_subnet))
    end.

Definition outbound_inherits_default_domain_resolver (outbound : ValidatedOutbound.t) : bool :=
  let kind := ValidatedOutbound.kind outbound in
  if String.eqb kind "selector" || String.eqb kind "urltest" then false
  else
    match Value.get "detour" (ValidatedOutbound.options outbound) ≫= Value.as_str with
    | None => true
    | Some detour => is_empty detour
    end.

(** ** Outbounds *)

Definition DIRECT_FIELDS : list string :=
  ["detour"; "bind_interface"; "inet4_bind_address"; "inet6_bind_address"; "routing_mark"; "reuse_addr"; "connect_timeout";
   "tcp_fast_open"; "tcp_multi_path"; "udp_fragment"; "udp_timeout"; "domain_strategy"; "bind_address_no_port"; "protect_path";
   "netns"; "disable_tcp_keep_alive"; "tcp_keep_alive"; "tcp_keep_alive_interval"; "domain_resolver"; "network_strategy";
   "network_type"; "fallback_network_type"; "fallback_delay"; "override_address"; "override_port"].

Definition validate_outbound_options (kind tag : string) (fields : Value.fields) : fallible unit :=
  if String.eqb kind "direct" then
    match find_first (fun field => negb (bool_decide (field ∈ DIRECT_FIELDS))) (Map.keys fields) with
    | Some field => error ["invalid direct outbound "; debug tag; " options: unknown field "; debug field]
    | None => Ok tt
    end
  else Ok tt.

Definition default_outbound : ValidatedOutbound.t :=
  ValidatedOutbound.mk 0 "direct" DEFAULT_DIRECT_OUTBOUND (Value.Object []) (Value.Object []) None None.

(** One round of the loop of [validate_outbounds]. *)
Definition validate_one (id : nat) (outbound : Outbound.t) : fallible ValidatedOutbound.t :=
  let kind := Outbound.kind outbound in
  let tag := Outbound.tag outbound in
  if is_empty kind then error ["outbound type is required"]
  else if is_empty tag then error ["outbound "; kind; " tag is required"]
  else if negb (bool_decide (kind ∈ SUPPORTED_OUTBOUND_TYPES)) then error ["unknown outbound type "; debug kind]
  else
    options ← (if is_empty (Outbound.options outbound) then Ok (Value.Object [])
               else map_err (fun e => Fail (fmt ["outbound "; debug tag; " options must be a JSON object: "; e]))
                      (from_slice (Outbound.options outbound)));
    match Value.as_object options with
    | None => error ["outbound "; debug tag; " options must be a JSON object"]
    | Some fields =>
        match find_first (fun field => eq_ignore_case field "type" || eq_ignore_case field "tag") (Map.keys fields) with
        | Some field => error ["outbound "; debug tag; " options must not contain managed field "; debug field]
        | None =>
            _ ← validate_outbound_options kind tag fields;
            '(remaining, domain_resolver) ← extract_outbound_domain_resolver kind tag fields;
            Ok (ValidatedOutbound.mk (Z.of_nat id) kind tag (Value.Object remaining) options domain_resolver None)
        end
    end.

(** [values.iter().enumerate()] *)
Fixpoint validate_all (id : nat) (values : list Outbound.t) (catalog : catalog_t) : fallible catalog_t :=
  match values with
  | [] => Ok catalog
  | outbound :: values =>
      validated ← validate_one id outbound;
      match catalog !! Outbound.tag outbound with
      | Some _ => error ["duplicate outbound tag "; debug (Outbound.tag outbound)]
      | None => validate_all (S id) values (<[Outbound.tag outbound := validated]> catalog)
      end
  end.

Definition validate_outbounds (values : list Outbound.t) : fallible catalog_t :=
  match values with
  | [] => Ok {[ DEFAULT_DIRECT_OUTBOUND := default_outbound ]}
  | _ => validate_all 0 values ∅
  end.

(** ** [direct_outbound_is_empty] *)

Fixpoint json_value_is_effective (value : Value.t) : bool :=
  match value with
  | Value.Null => false
  | Value.Bool value => value
  | Value.Number value => Number.nonzero value
  | Value.String value => negb (is_empty value)
  | Value.Array values => nonempty_list values
  | Value.Object fields => existsb (fun kv => json_value_is_effective kv.2) fields
  end.

Definition direct_outbound_is_empty (options : string) : fallible bool :=
  value ← (if is_empty options then Ok (Value.Object [])
           else map_err (fun e => Fail (fmt ["invalid Direct outbound options: "; e])) (from_slice options));
  match Value.as_object value with
  | None => error ["invalid Direct outbound options: expected a JSON object"]
  | Some fields =>
      _ ← validate_outbound_options "direct" "direct" fields;
      Ok (negb (existsb (fun kv => String.eqb kv.1 "udp_fragment" || json_value_is_effective kv.2) fields))
  end.
End outbounds.

Example subnets :
  ((fun s => normalize_dns_client_subnet_value quoted s) <$> ["1.2.3.4/20"; "1.2.3.4"; "2001:db8::1/33"; "::/0"; "1.2.3.4/0"; ""])
  = [Ok (Some "1.2.0.0/20"); Ok (Some "1.2.3.4/32"); Ok (Some "2001:db8::/33"); Ok (Some "::/0"); Ok (Some "0.0.0.0/0"); Ok None].
Proof. vm_compute. reflexivity. Qed.

Example bad_subnets :
  ((fun s => is_ok (normalize_dns_client_subnet_value quoted s)) <$>
     ["1.2.3.4/33"; "::/129"; "1.2.3.4/08"; "1.2.3.4/"; "/8"; "1.2.3.4/8/9"; "a"; "1.2.3.4/256"; "1.2.3.4/+8"])
  = repeat false 9.
Proof. vm_compute. reflexivity. Qed.
