(* ===== verification/CompileDns.v ===== *)
(** * Compiling DNS: [crates/node-agent/src/compile.rs], lines 1808 to 2170 and
    3012 to 3546

    Which DNS transport every outbound resolves through, and the DNS configuration of a
    consumer.  A resolver whose lookups differ from its server's gets a private variant
    of the server.

    [dns_rule_chunks] is what the derived serializer writes for a rule; of the DNS
    module of shoes the compiler uses the reject methods ([M], [parse_reject_method]),
    the response codes ([is_rcode]) and the parser of predefined answers. *)

From Stdlib Require Import ZArith Lia Ascii.
From S2P Require Import Prelude Bytes Json IpAddr Hex Topology Runtime OutboundAdapter OutboundGraph OutboundProjection.
From S2P Require Import RuleSet CompileRoute CompileOutbounds.

Open Scope Z_scope.

Definition DEFAULT_DNS_TAG : string := "default-dns".

(** ** Data *)

Module DnsServerVariantKey.
Record t : Type := mk {
  source_tag : string;
  ip_strategy : string;
  query : DnsServerQueryProfile.t
}.
#[global] Instance eq_dec : EqDecision t.
Proof. solve_decision. Defined.

#[global] Instance countable : Countable t.
Proof.
  refine (inj_countable'
    (fun k => (source_tag k, ip_strategy k, DnsServerQueryProfile.disable_cache (query k),
               DnsServerQueryProfile.rewrite_ttl (query k), DnsServerQueryProfile.client_subnet (query k)))
    (fun '(s, i, d, r, c) => mk s i (DnsServerQueryProfile.mk d r c)) _).
  by intros [?? []].
Defined.

(** The derived [Ord]: fields in order, [None] first. *)
Definition compare (a b : t) : comparison :=
  let ttl k := match DnsServerQueryProfile.rewrite_ttl (query k) with Some ttl => ttl | None => -1 end in
  let subnet k := DnsServerQueryProfile.client_subnet (query k) in
  then_with (String.compare (source_tag a) (source_tag b))
    (then_with (String.compare (ip_strategy a) (ip_strategy b))
      (then_with (Z.compare (Z.b2z (DnsServerQueryProfile.disable_cache (query a))) (Z.b2z (DnsServerQueryProfile.disable_cache (query b))))
        (then_with (Z.compare (ttl a) (ttl b))
          (then_with (Z.compare (Z.b2z (DialerProjection.is_some (subnet a))) (Z.b2z (DialerProjection.is_some (subnet b))))
            (String.compare (default "" (subnet a)) (default "" (subnet b))))))).
End DnsServerVariantKey.

Module DnsServerVariant.
Record t : Type := mk {
  tag : string;
  source_tag : string;
  ip_strategy : string;
  query : DnsServerQueryProfile.t
}.
Definition key (self : t) : DnsServerVariantKey.t := DnsServerVariantKey.mk (source_tag self) (ip_strategy self) (query self).
End DnsServerVariant.

(** [BTreeMap::into_values] *)
Definition variants_in_order (variants : gmap DnsServerVariantKey.t DnsServerVariant.t) : list DnsServerVariant.t :=
  (sort_by (cmp_leb (fun a b => DnsServerVariantKey.compare a.1 b.1)) (map_to_list variants)).*2.

Section dns.
Context (debug : string -> string) (parse_go_duration : string -> result string Z).
Context (json_chunks : Value.t -> list string) (sha256 : string -> string).
Context (dns_rule_chunks : DnsRule.t -> list string).
Context {M : Type} `{!EqDecision M} (reject_default reject_drop : M) (parse_reject_method : string -> option M) (reject_method_str : M -> string).
Context (is_rcode : string -> bool) (parse_predefined : list string -> list string -> list string -> result string unit).

Local Abbreviation tag_of := ValidatedOutbound.tag.
Local Abbreviation strategies_t := (gmap string string).

(** ** Same-egress clones *)

Definition same_egress_dns_ip_strategy (strategy : string) : result string string :=
  if is_empty strategy then Ok "ipv4_and_ipv6"
  else if String.eqb strategy "ipv4_only" then Ok "ipv4_only"
  else if String.eqb strategy "ipv6_only" then Ok "ipv6_only"
  else Err "is not emitted for a panel same-egress runtime Direct clone".

Definition same_egress_route_match_supported (rule : RouteRule.t) : bool :=
  let network := RouteRule.network rule in
  let full_network := (Z.of_nat (length network) =? 2) && existsb (String.eqb "tcp") network && existsb (String.eqb "udp") network in
  let hostname_scope :=
    nonempty_list (RouteRule.domain rule) || nonempty_list (RouteRule.domain_suffix rule)
    || nonempty_list (RouteRule.domain_keyword rule) || nonempty_list (RouteRule.domain_regex rule)
    || nonempty_list (RouteRule.rule_set rule) || nonempty_list (RouteRule.inbound rule) in
  String.eqb (RouteRule.action rule) "route" && negb (RouteRule.invert rule)
  && negb (nonempty_list (unsupported_route_rule_fields rule))
  && (negb (nonempty_list network) || full_network) && (hostname_scope || full_network)
  && (RouteRule.ip_version rule =? 0) && negb (nonempty_list (RouteRule.ip_cidr rule))
  && negb (nonempty_list (RouteRule.port rule)) && negb (nonempty_list (RouteRule.port_range rule))
  && negb (nonempty_list (RouteRule.protocol rule)).

Definition same_egress_rule_matches_dns (route : RouteRule.t) (dns : DnsRule.t) : bool :=
  bool_decide (RouteRule.inbound route = DnsRule.inbound dns) && bool_decide (RouteRule.domain route = DnsRule.domain dns)
  && bool_decide (RouteRule.domain_suffix route = DnsRule.domain_suffix dns)
  && bool_decide (RouteRule.domain_keyword route = DnsRule.domain_keyword dns)
  && bool_decide (RouteRule.domain_regex route = DnsRule.domain_regex dns)
  && bool_decide (RouteRule.rule_set route = DnsRule.rule_set dns).

(** ** Resolvers *)

Definition servers_of (dns : option Dns.t) : list DnsServer.t := match dns with Some dns => Dns.servers dns | None => [] end.
Definition dns_rules_of (dns : option Dns.t) : list DnsRule.t := match dns with Some dns => Dns.rules dns | None => [] end.
Definition requested_final (dns : option Dns.t) : string := match dns with Some dns => Dns.final_ dns | None => "" end.
Definition route_rules_of (route : option Route.t) : list RouteRule.t := match route with Some route => Route.rules route | None => [] end.

Fixpoint collect_servers (servers : list DnsServer.t) (collected : gmap string (option DnsServer.t))
    : fallible (gmap string (option DnsServer.t)) :=
  match servers with
  | [] => Ok collected
  | server :: servers =>
      match collected !! DnsServer.tag server with
      | Some _ => error ["duplicate dns server tag "; debug (DnsServer.tag server)]
      | None => collect_servers servers (<[DnsServer.tag server := Some server]> collected)
      end
  end.

(** The implicit server has no entry of its own. *)
Definition dns_servers (dns : option Dns.t) : fallible (gmap string (option DnsServer.t)) :=
  match servers_of dns with
  | [] => Ok {[ DEFAULT_DNS_TAG := None ]}
  | servers => collect_servers servers ∅
  end.

Definition default_domain_resolver (route : option Route.t) : fallible (option OutboundDomainResolver.t) :=
  match route ≫= Route.default_domain_resolver with
  | None => Ok None
  | Some resolver => resolver ← compile_domain_resolve_options debug resolver "route.default_domain_resolver"; Ok (Some resolver)
  end.

(** The resolver of an outbound, its own or the inherited one. *)
Definition effective_resolver (default_resolver : option OutboundDomainResolver.t) (outbound : ValidatedOutbound.t)
    : option OutboundDomainResolver.t :=
  match ValidatedOutbound.domain_resolver outbound with
  | Some resolver => Some resolver
  | None => if outbound_inherits_default_domain_resolver outbound then default_resolver else None
  end.

Section projection.
Context (route : option Route.t) (dns : option Dns.t).

Section same_egress.
Context (outbounds : catalog_t) (servers : gmap string (option DnsServer.t)).

Definition is_same_egress (tag : string) : bool := starts_with "__acp_direct_" tag && ends_with "_same_egress" tag.

(** The checks over the rules that pair a clone with its synthetic server. *)
Definition check_rule_pairs (outbound : ValidatedOutbound.t) (server_tag : string) : fallible unit :=
  let linked_route_rules := retain (fun rule => String.eqb (RouteRule.outbound rule) (tag_of outbound)) (route_rules_of route) in
  let dns_rules := dns_rules_of dns in
  if negb (nonempty_list linked_route_rules)
     || existsb (fun rule =>
          negb (same_egress_route_match_supported rule)
          || negb (existsb (fun dns_rule =>
                     String.eqb (DnsRule.action dns_rule) "route" && String.eqb (DnsRule.server dns_rule) server_tag
                     && same_egress_rule_matches_dns rule dns_rule) dns_rules)) linked_route_rules
  then error ["same-egress runtime Direct "; debug (tag_of outbound);
              " requires a matching panel-generated route and DNS rule pair"]
  else if existsb (fun dns_rule =>
            negb (String.eqb (DnsRule.action dns_rule) "route")
            || negb (existsb (fun route_rule => same_egress_rule_matches_dns route_rule dns_rule) linked_route_rules))
          (retain (fun rule => String.eqb (DnsRule.server rule) server_tag) dns_rules)
  then error ["synthetic DNS server "; debug server_tag; " is referenced outside its same-egress rule pair"]
  else Ok tt.

(** A clone must keep the egress of the outbound it stands for. *)
Definition check_same_egress (outbound : ValidatedOutbound.t) (resolver : OutboundDomainResolver.t) : fallible string :=
  let tag := debug (tag_of outbound) in
  let server_tag := OutboundDomainResolver.server resolver in
  if negb (starts_with "__acp_dns_" server_tag)
  then error ["same-egress runtime Direct "; tag; " must resolve through a reserved synthetic DNS server"]
  else
    match servers !! server_tag ≫= id with
    | None => error ["same-egress runtime Direct "; tag; " references missing synthetic DNS server "; debug server_tag]
    | Some server =>
        if is_empty (DnsServer.detour server)
        then error ["synthetic DNS server "; debug server_tag; " must detour through the original Direct outbound"]
        else
          match outbounds !! DnsServer.detour server with
          | None => error ["synthetic DNS server "; debug server_tag; " references unknown original Direct ";
                           debug (DnsServer.detour server)]
          | Some original =>
              if negb (String.eqb (ValidatedOutbound.kind original) "direct")
                 || negb (Value.eqb (ValidatedOutbound.options original) (ValidatedOutbound.options outbound))
              then error ["same-egress runtime Direct "; tag; " does not preserve the original Direct ";
                          debug (tag_of original); " local dialer options"]
              else if negb (is_ip_addr (DnsServer.server server))
              then error ["synthetic DNS server "; debug server_tag;
                          " must use a literal IP address so stripping the original Direct resolver is lossless"]
              else if match route with Some route => String.eqb (Route.final_ route) (tag_of outbound) | None => false end
              then error ["same-egress runtime Direct "; tag; " cannot be route.final"]
              else
                _ ← check_rule_pairs outbound server_tag;
                map_err (fun reason => Fail (fmt ["same-egress runtime Direct "; tag; " domain_resolver strategy ";
                                                  debug (OutboundDomainResolver.strategy resolver); " "; reason]))
                  (same_egress_dns_ip_strategy (OutboundDomainResolver.strategy resolver))
          end
    end.

(** One round of the loop over the outbounds. *)
Definition check_resolver (default_resolver : option OutboundDomainResolver.t) (outbound : ValidatedOutbound.t)
    (strategies : strategies_t) : fallible strategies_t :=
  match effective_resolver default_resolver outbound with
  | None => Ok strategies
  | Some resolver =>
      let server := OutboundDomainResolver.server resolver in
      match servers !! server with
      | None => error ["outbound "; debug (tag_of outbound); " domain_resolver references unknown DNS server "; debug server]
      | Some _ =>
          if negb (is_same_egress (tag_of outbound)) then Ok strategies
          else
            strategy ← check_same_egress outbound resolver;
            match strategies !! server with
            | Some existing =>
                if String.eqb existing strategy then Ok (<[server := strategy]> strategies)
                else error ["DNS server "; debug server; " is required with conflicting IP strategies "; debug existing; " and ";
                            debug strategy]
            | None => Ok (<[server := strategy]> strategies)
            end
      end
  end.

Fixpoint check_resolvers (default_resolver : option OutboundDomainResolver.t) (values : list ValidatedOutbound.t)
    (strategies : strategies_t) : fallible strategies_t :=
  match values with
  | [] => Ok strategies
  | outbound :: values =>
      strategies ← check_resolver default_resolver outbound strategies; check_resolvers default_resolver values strategies
  end.
End same_egress.

Definition validate_dns_resolution_projection (outbounds : catalog_t) : fallible strategies_t :=
  servers ← dns_servers dns;
  let final_tag := if is_empty (requested_final dns) then DEFAULT_DNS_TAG else requested_final dns in
  match servers !! final_tag with
  | None => error ["dns final references unknown server "; debug final_tag]
  | Some _ =>
      default_resolver ← default_domain_resolver route;
      _ ← match default_resolver with
          | Some resolver =>
              match servers !! OutboundDomainResolver.server resolver with
              | None => error ["route.default_domain_resolver references unknown DNS server ";
                               debug (OutboundDomainResolver.server resolver)]
              | Some _ => Ok tt
              end
          | None => Ok tt
          end;
      check_resolvers outbounds servers default_resolver (btree_iter outbounds).*2 ∅
  end.

(** ** Variants *)

Definition dns_profile_variant_tag (source_tag ip_strategy : string) (query : DnsServerQueryProfile.t) : string :=
  "__acp_dns_profile_" +:+
  Hex.encode (sha256 (fmt
    [source_tag; nul; ip_strategy; nul; (if DnsServerQueryProfile.disable_cache query then "true" else "false"); nul;
     match DnsServerQueryProfile.rewrite_ttl query with Some ttl => to_dec ttl | None => "" end; nul;
     default "" (DnsServerQueryProfile.client_subnet query)])).

Definition configured_tags (dns : option Dns.t) : gset string :=
  match servers_of dns with
  | [] => {[ DEFAULT_DNS_TAG ]}
  | servers => list_to_set (DnsServer.tag <$> servers)
  end.

(** The transport an outbound resolves through, with its variant if it needs one. *)
Definition select_transport (base_strategies : strategies_t) (resolver : OutboundDomainResolver.t)
    : fallible (string * option DnsServerVariant.t) :=
  let server := OutboundDomainResolver.server resolver in
  let query := OutboundDomainResolver.query resolver in
  desired ← outbound_dns_ip_strategy debug (OutboundDomainResolver.strategy resolver);
  let source_strategy := default "ipv4_and_ipv6" (base_strategies !! server) in
  let effective_strategy := default source_strategy desired in
  if String.eqb effective_strategy source_strategy && DnsServerQueryProfile.is_default query then Ok (server, None)
  else
    let tag := dns_profile_variant_tag server effective_strategy query in
    if bool_decide (tag ∈ configured_tags dns)
    then error ["configured DNS server tag "; debug tag; " collides with a reserved DNS profile tag"]
    else Ok (tag, Some (DnsServerVariant.mk tag server effective_strategy query)).

(** One round of the loop over [outbounds.values_mut()]: the resolver that is assigned. *)
Definition project_one (base_strategies : strategies_t) (default_resolver : option OutboundDomainResolver.t)
    (outbound : ValidatedOutbound.t) (variants : gmap DnsServerVariantKey.t DnsServerVariant.t)
    : fallible (option string * gmap DnsServerVariantKey.t DnsServerVariant.t) :=
  match effective_resolver default_resolver outbound with
  | None => Ok (None, variants)
  | Some resolver =>
      let server := OutboundDomainResolver.server resolver in
      if negb (bool_decide (server ∈ configured_tags dns))
      then error ["outbound "; debug (tag_of outbound); " domain_resolver references unknown DNS server "; debug server]
      else
        '(tag, variant) ← select_transport base_strategies resolver;
        Ok (Some tag,
            match variant with
            | Some variant =>
                match variants !! DnsServerVariant.key variant with
                | Some _ => variants
                | None => <[DnsServerVariant.key variant := variant]> variants
                end
            | None => variants
            end)
  end.

Fixpoint project_all (base_strategies : strategies_t) (default_resolver : option OutboundDomainResolver.t)
    (entries : list (string * ValidatedOutbound.t)) (outbounds : catalog_t)
    (variants : gmap DnsServerVariantKey.t DnsServerVariant.t)
    : fallible (catalog_t * gmap DnsServerVariantKey.t DnsServerVariant.t) :=
  match entries with
  | [] => Ok (outbounds, variants)
  | (key, outbound) :: entries =>
      '(selected, variants) ← project_one base_strategies default_resolver outbound variants;
      let outbounds :=
        match selected with
        | Some tag => <[key := ValidatedOutbound.set_shoes_dns_resolver (Some tag) outbound]> outbounds
        | None => outbounds
        end in
      project_all base_strategies default_resolver entries outbounds variants
  end.

(** [project_outbound_dns_resolvers]: the catalog with its resolvers, and the variants. *)
Definition project_outbound_dns_resolvers (outbounds : catalog_t) (base_strategies : strategies_t)
    : fallible (catalog_t * list DnsServerVariant.t) :=
  default_resolver ← default_domain_resolver route;
  '(outbounds, variants) ← project_all base_strategies default_resolver (btree_iter outbounds) outbounds ∅;
  Ok (outbounds, variants_in_order variants).
End projection.

(** ** Servers *)

Definition validate_dns_server (server : DnsServer.t) : fallible unit :=
  if is_empty (DnsServer.kind server) then error ["dns server type is required"]
  else if is_empty (DnsServer.tag server) then error ["dns server tag is required"]
  else if is_empty (DnsServer.server server) then error ["dns server address is required"]
  else Ok tt.

(** The URL of a server that speaks DNS over HTTP. *)
Definition http_url (scheme address authority : string) : string :=
  if starts_with (scheme +:+ "://") address then address
  else if contains_char "/" address then fmt [scheme; "://"; address]
  else fmt [scheme; "://"; authority; "/dns-query"].

Definition dns_server_url (server : DnsServer.t) : fallible string :=
  let address := trim (DnsServer.server server) in
  let authority := if DialerProjection.is_some (parse_ipv6_addr address) then fmt ["["; address; "]"] else address in
  let kind := DnsServer.kind server in
  if bool_decide (kind ∈ ["local"; "system"]) then Ok "system"
  else if bool_decide (kind ∈ ["udp"; "tcp"; "tls"; "quic"]) then Ok (fmt [kind; "://"; authority])
  else if String.eqb kind "https" then Ok (http_url "https" address authority)
  else if String.eqb kind "h3" then Ok (http_url "h3" address authority)
  else error ["dns server "; DnsServer.tag server; " has unsupported type "; debug kind].

Definition apply_dns_server_query_profile (query : DnsServerQueryProfile.t) (server : Value.fields) : Value.fields :=
  let server := if DnsServerQueryProfile.disable_cache query then Map.insert "disable_cache" (Value.Bool true) server else server in
  let server :=
    match DnsServerQueryProfile.rewrite_ttl query with
    | Some rewrite_ttl => Map.insert "rewrite_ttl" (Value.num rewrite_ttl) server
    | None => server
    end in
  match DnsServerQueryProfile.client_subnet query with
  | Some client_subnet => Map.insert "client_subnet" (Value.String client_subnet) server
  | None => server
  end.

Definition default_server : DnsServer.t := DnsServer.mk "https" DEFAULT_DNS_TAG "1.1.1.1" "".

Definition server_list (dns : option Dns.t) : list DnsServer.t :=
  match servers_of dns with [] => [default_server] | servers => servers end.

(** ** Rules *)

Definition dns_rule_name (index : nat) : string := fmt ["dns.rules["; to_dec (Z.of_nat index); "]"].

(** [u64::to_be_bytes] *)
Definition be_bytes (z : Z) : string :=
  of_chars ((fun i => chr (z / 2 ^ (8 * (7 - Z.of_nat i)) mod 256)) <$> seq 0 8).

Definition dns_reject_flood_state_key (rule : DnsRule.t) (index : nat) : string :=
  "__acp_dns_reject_v1_" +:+
  Hex.encode (sha256 (fmt (["node-agent/acp-dns-reject-flood/v1"; nul; be_bytes (Z.of_nat index)] ++ dns_rule_chunks rule))).

Definition normalize_dns_client_subnet (value : string) (index : nat) : fallible (option string) :=
  map_err (fun reason => Fail (fmt [dns_rule_name index; " client_subnet "; debug value; " "; reason]))
    (normalize_dns_client_subnet_value debug value).

Definition parse_dns_server_query_profile (rule : DnsRule.t) (index : nat) : fallible DnsServerQueryProfile.t :=
  let value := trim (DnsRule.rewrite_ttl rule) in
  rewrite_ttl ← (if is_empty value then Ok None
                 else
                   ttl ← map_err (fun e => Fail (fmt [dns_rule_name index; " rewrite_ttl "; debug (DnsRule.rewrite_ttl rule);
                                                      " must be a uint32: "; e])) (parse_uint u32_max value);
                   Ok (Some ttl));
  client_subnet ← normalize_dns_client_subnet (DnsRule.client_subnet rule) index;
  Ok (DnsServerQueryProfile.mk (DnsRule.disable_cache rule) rewrite_ttl client_subnet).

Definition parse_dns_timeout_millis (value : string) (index : nat) : fallible Z :=
  match parse_go_duration value with
  | Err e => error [dns_rule_name index; " timeout "; debug value; " is not a valid Go duration: "; e]
  | Ok nanos =>
      if nanos =? 0 then error [dns_rule_name index; " timeout must be greater than zero"]
      else if negb (nanos mod 1000000 =? 0)
      then error [dns_rule_name index; " timeout "; debug value; " cannot be represented exactly in milliseconds"]
      else if nanos / 1000000 <=? u64_max then Ok (nanos / 1000000)
      else error [dns_rule_name index; " timeout "; debug value; " exceeds the millisecond representation"]
  end.

Definition has_query_fields (rule : DnsRule.t) : bool :=
  DnsRule.disable_cache rule || negb (is_empty (trim (DnsRule.rewrite_ttl rule))) || negb (is_empty (trim (DnsRule.client_subnet rule))).

Definition has_answers (rule : DnsRule.t) : bool :=
  nonempty_list (DnsRule.answer rule) || nonempty_list (DnsRule.ns rule) || nonempty_list (DnsRule.extra rule).

Definition route_action (servers : gset string) (rule : DnsRule.t) (index : nat) (compiled : Value.fields)
    : fallible (Value.fields * option DnsServerQueryProfile.t) :=
  if DnsRule.no_drop rule then error [dns_rule_name index; " route action must not contain no_drop"]
  else
    query ← parse_dns_server_query_profile rule index;
    if is_empty (DnsRule.server rule) then error [dns_rule_name index; " route action requires server"]
    else if negb (bool_decide (DnsRule.server rule ∈ servers))
    then error [dns_rule_name index; " route references unknown server "; debug (DnsRule.server rule)]
    else if negb (is_empty (DnsRule.rcode rule)) || negb (is_empty (DnsRule.method rule)) || has_answers rule
    then error [dns_rule_name index; " route action must not contain rcode, method, answer, ns, or extra"]
    else
      let compiled := Map.insert "action" (Value.String "route") compiled in
      let compiled := Map.insert "server" (Value.String (DnsRule.server rule)) compiled in
      compiled ← (if is_empty (DnsRule.timeout rule) then Ok compiled
                  else millis ← parse_dns_timeout_millis (DnsRule.timeout rule) index;
                       Ok (Map.insert "timeout_millis" (Value.num millis) compiled));
      Ok (compiled, if DnsServerQueryProfile.is_default query then None else Some query).

Definition reject_action (rule : DnsRule.t) (index : nat) (compiled : Value.fields) : fallible Value.fields :=
  if negb (is_empty (DnsRule.server rule)) || negb (is_empty (DnsRule.rcode rule)) || has_answers rule
     || negb (is_empty (DnsRule.timeout rule)) || has_query_fields rule
  then error [dns_rule_name index; " reject action must not contain server, rcode, answer, ns, extra, timeout, disable_cache, rewrite_ttl, or client_subnet"]
  else
    match parse_reject_method (DnsRule.method rule) with
    | None => error [dns_rule_name index; " reject method must be default or drop, got "; debug (DnsRule.method rule)]
    | Some method =>
        if DnsRule.no_drop rule && bool_decide (method = reject_drop)
        then error [dns_rule_name index; " reject method drop conflicts with no_drop"]
        else
          let compiled := Map.insert "action" (Value.String "reject") compiled in
          let compiled :=
            if is_empty (DnsRule.method rule) then compiled
            else Map.insert "method" (Value.String (reject_method_str method)) compiled in
          let compiled := if DnsRule.no_drop rule then Map.insert "no_drop" (Value.Bool true) compiled else compiled in
          Ok (if bool_decide (method = reject_default) && negb (DnsRule.no_drop rule)
              then Map.insert "__acp_reject_flood_key" (Value.String (dns_reject_flood_state_key rule index)) compiled
              else compiled)
    end.

Definition predefined_action (rule : DnsRule.t) (index : nat) (compiled : Value.fields) : fallible Value.fields :=
  if negb (is_empty (DnsRule.server rule)) || negb (is_empty (DnsRule.method rule)) || negb (is_empty (DnsRule.timeout rule))
     || DnsRule.no_drop rule || has_query_fields rule
  then error [dns_rule_name index; " predefined action must not contain server, method, timeout, no_drop, disable_cache, rewrite_ttl, or client_subnet"]
  else if negb (is_rcode (DnsRule.rcode rule))
  then error [dns_rule_name index; " predefined rcode must be an exact miekg/dns response-code name, got "; debug (DnsRule.rcode rule)]
  else
    _ ← map_err (fun e => Fail (fmt [dns_rule_name index; " "; e]))
          (parse_predefined (DnsRule.answer rule) (DnsRule.ns rule) (DnsRule.extra rule));
    let compiled := Map.insert "action" (Value.String "predefined") compiled in
    let compiled :=
      if is_empty (DnsRule.rcode rule) then compiled else Map.insert "rcode" (Value.String (DnsRule.rcode rule)) compiled in
    let compiled := Map.insert "answer" (Value.strings (DnsRule.answer rule)) compiled in
    let compiled := insert_strings "ns" (DnsRule.ns rule) compiled in
    Ok (insert_strings "extra" (DnsRule.extra rule) compiled).

Definition compile_dns_rule (servers : gset string) (rule_sets : rule_sets_t) (rule : DnsRule.t) (index : nat)
    : fallible (Value.fields * option DnsServerQueryProfile.t) :=
  let action := DnsRule.action rule in
  if is_empty action then error [dns_rule_name index; " action is required"]
  else
    let compiled := insert_strings "domain" (DnsRule.domain rule) [] in
    let compiled := insert_strings "domain_suffix" (DnsRule.domain_suffix rule) compiled in
    let compiled := insert_strings "domain_keyword" (DnsRule.domain_keyword rule) compiled in
    let compiled := insert_strings "domain_regex" (DnsRule.domain_regex rule) compiled in
    compiled ← (if nonempty_list (DnsRule.rule_set rule)
                then references ← reference_values debug rule_sets (dns_rule_name index +:+ " references unknown rule-set ")
                                    (DnsRule.rule_set rule);
                     Ok (Map.insert "rule_set" (Value.Array references) compiled)
                else Ok compiled);
    if String.eqb action "route" then route_action servers rule index compiled
    else if String.eqb action "reject" then compiled ← reject_action rule index compiled; Ok (compiled, None)
    else if String.eqb action "predefined" then compiled ← predefined_action rule index compiled; Ok (compiled, None)
    else error [dns_rule_name index; " action "; debug action; " is not supported by shoes"].

(** ** The configuration of a consumer *)

Local Abbreviation method := (stm Budget.t (exn string)).

(** What has been emitted so far. *)
Record emission : Type := mkEmission {
  compiled_servers : list Value.fields;
  compiled_by_tag : gmap string Value.fields;
  profile_variants : gmap DnsServerVariantKey.t string
}.

Section compile.
Context (outbounds : catalog_t) (rule_sets : rule_sets_t) (ip_strategies : strategies_t) (inbound_tag : option string).

Definition strategy_of (server_tag : string) : string := default "ipv4_and_ipv6" (ip_strategies !! server_tag).

Definition server_fields (server : DnsServer.t) (url : string) : Value.fields :=
  Map.insert "ip_strategy" (Value.String (strategy_of (DnsServer.tag server)))
    (Map.from_iter [("tag", Value.String (DnsServer.tag server)); ("url", Value.String url);
                    ("use_native_roots", Value.Bool (bool_decide (DnsServer.kind server ∈ ["tls"; "quic"; "https"; "h3"])))]).

Definition compile_server (server : DnsServer.t) (url : string) : method Value.fields :=
  let compiled := server_fields server url in
  let detour := DnsServer.detour server in
  if is_empty detour then mret compiled
  else if bool_decide (DnsServer.kind server ∈ ["local"; "system"])
  then raise (Fail (fmt ["dns server "; DnsServer.tag server; " cannot apply detour "; debug detour; " to the system resolver"]))
  else
    match outbounds !! detour with
    | None => raise (Fail (fmt ["dns server "; DnsServer.tag server; " references unknown detour outbound "; debug detour]))
    | Some outbound =>
        action ← outbound_client_action debug parse_go_duration json_chunks sha256 outbounds outbound;
        mret (apply_outbound_action compiled "client_chain" action)
    end.

Fixpoint compile_servers (servers : list DnsServer.t) (acc : emission) : method emission :=
  match servers with
  | [] => mret acc
  | server :: servers =>
      _ ← lift (validate_dns_server server);
      if DialerProjection.is_some (compiled_by_tag acc !! DnsServer.tag server)
      then raise (Fail (fmt ["duplicate dns server tag "; debug (DnsServer.tag server)]))
      else
        url ← lift (dns_server_url server);
        compiled ← compile_server server url;
        compile_servers servers
          (mkEmission (compiled_servers acc ++ [compiled]) (<[DnsServer.tag server := compiled]> (compiled_by_tag acc))
             (profile_variants acc))
  end.

(** A private copy of a server with the lookups of a variant. *)
Definition variant_server (source : Value.fields) (variant : DnsServerVariant.t) : Value.fields :=
  let server := Map.insert "tag" (Value.String (DnsServerVariant.tag variant)) source in
  let server := Map.insert "__acp_source_tag" (Value.String (DnsServerVariant.source_tag variant)) server in
  let server := Map.insert "ip_strategy" (Value.String (DnsServerVariant.ip_strategy variant)) server in
  apply_dns_server_query_profile (DnsServerVariant.query variant) server.

(** The copy is paid for and emitted. *)
Definition emit_variant (variant : DnsServerVariant.t) (unknown context : string) (acc : emission) : method emission :=
  match compiled_by_tag acc !! DnsServerVariant.source_tag variant with
  | None => raise (Fail unknown)
  | Some source =>
      _ ← reserve_embedded_outbound_action json_chunks source "client_chain" context;
      mret (mkEmission (compiled_servers acc ++ [variant_server source variant]) (compiled_by_tag acc)
              (<[DnsServerVariant.key variant := DnsServerVariant.tag variant]> (profile_variants acc)))
  end.

Fixpoint emit_variants (variants : list DnsServerVariant.t) (acc : emission) : method emission :=
  match variants with
  | [] => mret acc
  | variant :: variants =>
      let tag := debug (DnsServerVariant.tag variant) in
      let existing := profile_variants acc !! DnsServerVariant.key variant in
      acc ← emit_variant variant
              (fmt ["DNS profile variant "; tag; " references unknown source server "; debug (DnsServerVariant.source_tag variant)])
              (fmt ["DNS profile variant "; tag]) acc;
      match existing with
      | Some existing =>
          if String.eqb existing (DnsServerVariant.tag variant) then emit_variants variants acc
          else raise (Fail (fmt ["DNS profile variant "; tag; " conflicts with existing tag "; debug existing]))
      | None => emit_variants variants acc
      end
  end.

Definition select_final (servers : gset string) (dns : option Dns.t) : fallible string :=
  let requested := requested_final dns in
  if is_empty requested then
    if bool_decide (DEFAULT_DNS_TAG ∈ servers) then Ok DEFAULT_DNS_TAG
    else error ["dns final is empty but no server is tagged "; debug DEFAULT_DNS_TAG]
  else if bool_decide (requested ∈ servers) then Ok requested
  else error ["dns final references unknown server "; debug requested].

(** The server of a rule with its own lookups: the tag, and what was emitted for it. *)
Definition rule_server (index : nat) (source_tag : string) (query : DnsServerQueryProfile.t) (emitted : gset string) (acc : emission)
    : method (string * gset string * emission) :=
  let strategy := strategy_of source_tag in
  let key := DnsServerVariantKey.mk source_tag strategy query in
  match profile_variants acc !! key with
  | Some tag => mret (tag, emitted, acc)
  | None =>
      let tag := dns_profile_variant_tag source_tag strategy query in
      if bool_decide (tag ∈ emitted)
      then raise (Fail (fmt [dns_rule_name index; " private DNS server tag "; debug tag; " collides with another DNS server"]))
      else
        acc ← emit_variant (DnsServerVariant.mk tag source_tag strategy query)
                (fmt [dns_rule_name index; " private DNS variant references unknown source server "; debug source_tag])
                (fmt [dns_rule_name index; " private DNS profile variant"]) acc;
        mret (tag, {[ tag ]} ∪ emitted, acc)
  end.

(** Whether a rule concerns the consumer. *)
Definition concerns (rule : DnsRule.t) : bool :=
  negb (nonempty_list (DnsRule.inbound rule))
  || match inbound_tag with
     | Some inbound_tag => existsb (fun tag => String.eqb tag inbound_tag) (DnsRule.inbound rule)
     | None => false
     end.

(** [dns.rules.iter().enumerate()] *)
Fixpoint compile_dns_rules (servers : gset string) (index : nat) (rules : list DnsRule.t) (emitted : gset string) (acc : emission)
    : method (list Value.t * emission) :=
  match rules with
  | [] => mret ([], acc)
  | rule :: rules =>
      '(compiled, route_query) ← lift (compile_dns_rule servers rule_sets rule index);
      if negb (concerns rule) then compile_dns_rules servers (S index) rules emitted acc
      else
        '(compiled, emitted, acc) ←
          match route_query with
          | Some query =>
              '(tag, emitted, acc) ← rule_server index (DnsRule.server rule) query emitted acc;
              mret (Map.insert "server" (Value.String tag) compiled, emitted, acc)
          | None => mret (compiled, emitted, acc)
          end;
        '(compiled_rules, acc) ← compile_dns_rules servers (S index) rules emitted acc;
        mret (Value.Object compiled :: compiled_rules, acc)
  end.

Definition compile_dns (dns : option Dns.t) (variants : list DnsServerVariant.t) : method (option Value.t) :=
  acc ← compile_servers (server_list dns) (mkEmission [] ∅ ∅);
  let servers : gset string := dom (compiled_by_tag acc) in
  acc ← emit_variants variants acc;
  final_tag ← lift (select_final servers dns);
  let emitted := servers ∪ list_to_set (DnsServerVariant.tag <$> variants) in
  '(compiled_rules, acc) ← compile_dns_rules servers 0 (dns_rules_of dns) emitted acc;
  let compiled := Map.from_iter [("servers", Value.Array (Value.Object <$> compiled_servers acc)); ("final", Value.String final_tag)] in
  mret (Some (Value.Object
          (if nonempty_list compiled_rules then Map.insert "rules" (Value.Array compiled_rules) compiled else compiled))).
End compile.
End dns.
