(* ===== verification/Compile.v ===== *)
(** * The topology compiler: [crates/node-agent/src/compile.rs], lines 64 to 272 and
    3548 to 3682

    A topology becomes the runtime configuration of the engine, with its warnings and a
    redacted diagnostic document.

    Besides the parameters of the parts: [headless_rules], [route_value], [dns_value]
    are the JSON values of the derived serializers, [global_chunks] what they write for
    the fingerprint of the global configuration, [yaml_to_string] the YAML encoder. *)

From Stdlib Require Import ZArith Lia Ascii.
From S2P Require Import Prelude Bytes Json Topology Provider Credentials PortErrors Manager Adapter EngineApi Runtime.
From S2P Require Import OutboundAdapter OutboundGraph OutboundProjection RuleSet CompileInbound CompileRoute CompileOutbounds CompileDns.

Open Scope Z_scope.

(** ** JSON values as the runtime uses them *)

#[export] Instance json_value_ops : ValueOps Value.t := {|
  value_bool := Value.Bool;
  as_object value := match value with Value.Object fields => Some (list_to_map fields) | _ => None end;
  of_object fields := Value.Object (btree_iter fields)
|}.

(** A compile error is shown as its text. *)
#[export] Instance compile_error_display : Display (exn string) := fun error =>
  match error with Fail message | Panic message => message end.

(** ** Redaction *)

Definition SECRET_KEYS : list string :=
  ["password"; "credential"; "uuid"; "private_key"; "private_key_pem"; "key"; "secret"; "token"].

Definition is_secret (key : string) : bool := bool_decide (lower key ∈ SECRET_KEYS).

Definition redacted : Value.t := Value.String "<redacted>".

(** [redact_in_place]; the fields are in key order already. *)
Fixpoint redact (value : Value.t) : Value.t :=
  match value with
  | Value.Object fields => Value.Object (List.map (fun kv => (kv.1, if is_secret kv.1 then redacted else redact kv.2)) fields)
  | Value.Array values => Value.Array (List.map redact values)
  | _ => value
  end.

(** ** Diagnostics *)

Module DiagnosticUser.
Record t : Type := mk { id : string; enabled : bool; upload_limit_bps : Z; download_limit_bps : Z }.
End DiagnosticUser.

Module DiagnosticInbound.
Record t : Type := mk { node_id : string; protocol : string; tag : string; config : Value.t; users : list DiagnosticUser.t }.
End DiagnosticInbound.

Module Diagnostic.
Record t : Type := mk {
  format : string;
  machine_id : string;
  revision : Z;
  inbounds : list DiagnosticInbound.t;
  requested_outbounds : Value.t;
  requested_route : Value.t;
  requested_dns : Value.t;
  warnings : list string
}.
End Diagnostic.

Definition diagnostic_user (user : UserSpec.t) : DiagnosticUser.t :=
  DiagnosticUser.mk (default "" (UserSpec.resolved_id user)) (UserSpec.enabled user)
    (default 0 (UserSpec.upload_limit_bps user)) (default 0 (UserSpec.download_limit_bps user)).

Definition diagnostic_inbound (inbound : CompiledInbound Value.t) : DiagnosticInbound.t :=
  DiagnosticInbound.mk (node_id inbound) (protocol inbound) (InboundSpec.tag (spec inbound))
    (redact (InboundSpec.config (spec inbound)))
    (sort_by_key DiagnosticUser.id (diagnostic_user <$> default [] (InboundSpec.users (spec inbound)))).

Definition diagnostic_outbound (outbound : ValidatedOutbound.t) : Value.t :=
  redact (Value.obj [("type", Value.String (ValidatedOutbound.kind outbound)); ("tag", Value.String (ValidatedOutbound.tag outbound));
                     ("options", ValidatedOutbound.requested_options outbound)]).

(** Warnings in order. *)
Definition sorted_strings (s : gset string) : list string := sort_by String.leb (elements s).

Section compile.
Context (debug : string -> string) (parse_go_duration : string -> result string Z).
Context (json_chunks : Value.t -> list string) (sha256 : string -> string) (from_slice : string -> result string Value.t).
Context (parse_vless : string -> result string VlessRealityVisionConfig.t).
Context (parse_hysteria2 : string -> result string Hysteria2SalamanderConfig.t) (base64_len : string -> option Z).
Context (validate_route_rule_set : string -> string -> result string unit).
Context (url_parse : string -> result string (string * string)) (fixed_state_root : result string string).
Context (headless_rules : list HeadlessRule.t -> Value.t) (dns_rule_chunks : DnsRule.t -> list string).
Context {M : Type} `{!EqDecision M} (reject_default reject_drop : M) (parse_reject_method : string -> option M) (reject_method_str : M -> string).
Context (is_rcode : string -> bool) (parse_predefined : list string -> list string -> list string -> result string unit).
Context (route_value : Route.t -> Value.t) (dns_value : Dns.t -> Value.t).
Context (global_chunks : option Dns.t -> option Route.t -> list (string * string * option Value.t) -> list string).
Context (yaml_to_string : Diagnostic.t -> result string string).

Local Abbreviation CompiledInbound := (CompiledInbound Value.t).
Local Abbreviation RuntimeConfig := (RuntimeConfig Value.t RuleSetResource.t).

Definition diagnostic_yaml (topology : MachineTopology.t) (route : option Route.t) (inbounds : list CompiledInbound)
    (outbounds : catalog_t) (warnings : list string) : fallible string :=
  map_err (fun e => Fail (fmt ["encode diagnostic YAML: "; e]))
    (yaml_to_string
       (Diagnostic.mk "shoes-equivalent-v1" (MachineTopology.machine_id topology) (MachineTopology.revision topology)
          (diagnostic_inbound <$> inbounds) (Value.Array (diagnostic_outbound <$> (btree_iter outbounds).*2))
          match route with Some route => route_value route | None => Value.Null end
          match MachineTopology.dns topology with Some dns => dns_value dns | None => Value.Null end
          warnings)).

(** ** Nodes *)

Record nodes_acc : Type := mkNodes {
  node_ids : gset string;
  tags : gset string;
  sniff_enabled : gmap string bool;
  compiled_inbounds : list CompiledInbound
}.

(** One round of the loop over the nodes; the state is the set of warnings. *)
Definition compile_node (node : NodeInstance.t) (acc : nodes_acc) : stm (gset string) (exn string) nodes_acc :=
  let id := NodeInstance.node_id node in
  if bool_decide (id ∈ node_ids acc) then raise (Fail (fmt ["duplicate node_id "; debug id]))
  else
    inbound ← compile_inbound debug parse_vless parse_hysteria2 base64_len node;
    let effective_tag := trim (InboundSpec.tag (spec inbound)) in
    if is_empty effective_tag then raise (Fail (fmt ["node "; id; " inbound tag is required"]))
    else if bool_decide (effective_tag ∈ tags acc) then raise (Fail (fmt ["duplicate inbound tag "; debug effective_tag]))
    else
      sniff ← lift (inbound_protocol_sniff_enabled parse_vless node);
      mret (mkNodes ({[ id ]} ∪ node_ids acc) ({[ effective_tag ]} ∪ tags acc) (<[effective_tag := sniff]> (sniff_enabled acc))
              (compiled_inbounds acc ++ [inbound])).

Fixpoint compile_nodes (nodes : list NodeInstance.t) (acc : nodes_acc) : stm (gset string) (exn string) nodes_acc :=
  match nodes with
  | [] => mret acc
  | node :: nodes => acc ← compile_node node acc; compile_nodes nodes acc
  end.

(** ** Projection into the inbounds *)

Section projection.
Context (route : option Route.t) (dns : option Dns.t) (outbounds : catalog_t) (rule_sets : rule_sets_t).
Context (strategies : gmap string string) (variants : list DnsServerVariant.t).

Definition dns_for (inbound_tag : option string) : stm Budget.t (exn string) (option Value.t) :=
  compile_dns debug parse_go_duration json_chunks sha256 dns_rule_chunks reject_default reject_drop parse_reject_method
    reject_method_str is_rcode parse_predefined outbounds rule_sets strategies inbound_tag dns variants.

Definition project_inbound (sniff_enabled : gmap string bool) (inbound : CompiledInbound)
    : stm Budget.t (exn string) CompiledInbound :=
  let tag := InboundSpec.tag (spec inbound) in
  rules ← compile_rules_for_inbound debug parse_go_duration json_chunks sha256 route outbounds rule_sets tag
            (default false (sniff_enabled !! tag));
  let inbound := set_inbound_config (Value.set "rules" (Value.Array rules)) inbound in
  dns ← dns_for (Some tag);
  mret match dns with Some dns => set_inbound_config (Value.set "dns" dns) inbound | None => inbound end.

Fixpoint project_inbounds (sniff_enabled : gmap string bool) (inbounds : list CompiledInbound)
    : stm Budget.t (exn string) (list CompiledInbound) :=
  match inbounds with
  | [] => mret []
  | inbound :: inbounds =>
      inbound ← project_inbound sniff_enabled inbound;
      inbounds ← project_inbounds sniff_enabled inbounds;
      mret (inbound :: inbounds)
  end.

(** The global DNS comes first, then the inbounds, out of one budget. *)
Definition project_all_inbounds (sniff_enabled : gmap string bool) (inbounds : list CompiledInbound)
    : stm Budget.t (exn string) (option Value.t * list CompiledInbound) :=
  urltest_probe_dns ← dns_for None;
  inbounds ← project_inbounds sniff_enabled inbounds;
  mret (urltest_probe_dns, inbounds).
End projection.

(** ** The compiler *)

(** [Serialize for Outbound]: options that are left out are not decoded. *)
Definition serialize_outbound (outbound : Outbound.t) : result string (string * string * option Value.t) :=
  if is_empty (Outbound.options outbound) then Ok (Outbound.kind outbound, Outbound.tag outbound, None)
  else value ← from_slice (Outbound.options outbound); Ok (Outbound.kind outbound, Outbound.tag outbound, Some value).

Fixpoint serialize_outbounds (outbounds : list Outbound.t) : result string (list (string * string * option Value.t)) :=
  match outbounds with
  | [] => Ok []
  | outbound :: outbounds => o ← serialize_outbound outbound; l ← serialize_outbounds outbounds; Ok (o :: l)
  end.

Definition global_fingerprint (topology : MachineTopology.t) (route : option Route.t) : fallible string :=
  match serialize_outbounds (MachineTopology.outbounds topology) with
  | Ok outbounds => Ok (sha256 (fmt (global_chunks (MachineTopology.dns topology) route outbounds)))
  | Err _ => Err (Panic "typed global topology always serializes to JSON")
  end.

Definition compile_with_route (topology : MachineTopology.t) (route : option Route.t) : fallible (CompileOutput.t RuntimeConfig) :=
  if is_empty (MachineTopology.machine_id topology) then error ["machine_id is required"]
  else
    let nodes := sort_by_key NodeInstance.node_id (MachineTopology.nodes topology) in
    let '(warnings, compiled) := compile_nodes nodes (mkNodes ∅ ∅ ∅ []) ∅ in
    acc ← compiled;
    let dns := MachineTopology.dns topology in
    outbounds ← validate_outbounds debug from_slice (MachineTopology.outbounds topology);
    _ ← validate_outbound_catalog debug parse_go_duration outbounds;
    '(rule_sets, resources) ← compile_rule_set_catalog debug json_chunks sha256 from_slice validate_route_rule_set url_parse
                                fixed_state_root headless_rules route;
    _ ← validate_route debug outbounds rule_sets route;
    strategies ← validate_dns_resolution_projection debug route dns outbounds;
    '(outbounds, variants) ← project_outbound_dns_resolvers debug sha256 route dns outbounds strategies;
    '(urltest_probe_dns, inbounds) ←
      (project_all_inbounds route dns outbounds rule_sets strategies variants (sniff_enabled acc) (compiled_inbounds acc) Budget.zero).2;
    let warnings := sorted_strings warnings in
    diagnostic ← diagnostic_yaml topology route inbounds outbounds warnings;
    fingerprint ← global_fingerprint topology route;
    Ok (CompileOutput.mk (mkConfig inbounds resources diagnostic fingerprint urltest_probe_dns) warnings).

Definition compile_with_warnings (topology : MachineTopology.t) : fallible (CompileOutput.t RuntimeConfig) :=
  compile_with_route topology (MachineTopology.route topology).

Definition compile (topology : MachineTopology.t) : fallible RuntimeConfig :=
  output ← compile_with_warnings topology; Ok (CompileOutput.runtime output).

(** *** Preflight against an engine *)

Section preflight.
Context {L Prep E Lease : Type} `{!RuleSetOps L RuleSetResource.t Prep Value.t} `{!EngineOps E Lease Value.t}.
Context (new_loader : result string L).

(** [map_err] over a call into the engine. *)
Definition preflight {A} (context : list string) (call : stm E EngineError.t A) : stm E (exn string) A := fun engine =>
  let '(engine, r) := call engine in
  (engine, map_err (fun e => Fail (fmt (context ++ [EngineError.to_string e]))) r).

Definition preflight_inbound (prepared : Prep) (inbound : CompiledInbound) : stm E (exn string) unit :=
  let spec := InboundSpec.set_config (rs_rewrite prepared (InboundSpec.config (spec inbound))) (spec inbound) in
  preflight ["node "; node_id inbound; " ("; InboundSpec.tag spec; ") failed shoes preflight: "] (eng_validate_inbound spec).

Definition compile_and_preflight (topology : MachineTopology.t) : stm E (exn string) (CompileOutput.t RuntimeConfig) :=
  output ← lift (compile_with_warnings topology);
  let runtime := CompileOutput.runtime output in
  loader ← lift (map_err (fun e => Fail (fmt ["build rule-set loader: "; e])) new_loader);
  prepared ← lift (map_err (fun e => Fail (fmt ["prepare route rule-sets: "; e])) (rs_prepare (rule_sets runtime) false loader).2);
  _ ← for_in (inbounds runtime) (preflight_inbound prepared);
  _ ← preflight ["generation-global URLTest probe DNS failed shoes preflight: "]
        (eng_validate_urltest_probe_dns (rs_rewrite prepared <$> urltest_probe_dns runtime));
  mret output.
End preflight.
End compile.
