(* ===== verification/CompileSpec.v ===== *)
(** * The parts of the compiler that do not project: catalogs, users and checks

    Code that does not panic; the catalog [validate_outbounds] builds is well formed
    ([wf_catalog]); the resolvers that are assigned change nothing else
    ([with_resolvers]). *)

From Stdlib Require Import ZArith Lia.
From S2P Require Import Prelude Bytes Json IpAddr Topology Provider Credentials EngineApi Runtime OutboundAdapter OutboundGraph.
From S2P Require Import OutboundGraphSpec OutboundChains OutboundProjection RuleSet CompileInbound CompileRoute CompileOutbounds CompileDns Compile.

Open Scope Z_scope.

(** [bind] equations in a hypothesis. *)
Ltac inv_ok H :=
  repeat match type of H with
         | _ ≫= _ = Ok _ => let a := fresh "a" in let Ha := fresh "Ha" in apply bind_Ok in H as (a & Ha & H)
         | (if ?b then _ else _) = Ok _ => let E := fresh "E" in destruct b eqn:E; [try discriminate H|try discriminate H]
         | error _ = Ok _ => discriminate H
         end.

Section spec.
Context (debug : string -> string) (parse_go_duration : string -> result string Z).
Context (from_slice : string -> result string Value.t).

(** ** No panics *)

Lemma resolver_error_no_panic {A} kind tag pieces : no_panic (A := A) (resolver_error debug kind tag pieces).
Proof. apply no_panic_error. Qed.
#[local] Hint Resolve resolver_error_no_panic : node.

Lemma parse_resolver_no_panic kind tag resolver : no_panic (parse_resolver debug kind tag resolver).
Proof.
  unfold parse_resolver, resolver_server, resolver_strategy, resolver_disable_cache, resolver_rewrite_ttl, resolver_client_subnet.
  no_panic.
Qed.
#[local] Hint Resolve parse_resolver_no_panic : node.

Lemma extract_no_panic kind tag fields : no_panic (extract_outbound_domain_resolver debug kind tag fields).
Proof. unfold extract_outbound_domain_resolver. no_panic. Qed.

Lemma validate_options_no_panic kind tag fields : no_panic (validate_outbound_options debug kind tag fields).
Proof. unfold validate_outbound_options. no_panic. Qed.
#[local] Hint Resolve extract_no_panic validate_options_no_panic : node.

Lemma validate_one_no_panic id outbound : no_panic (validate_one debug from_slice id outbound).
Proof. unfold validate_one. no_panic. Qed.

Lemma validate_outbounds_no_panic values : no_panic (validate_outbounds debug from_slice values).
Proof.
  unfold validate_outbounds. destruct values as [|v values]; [done|]. generalize 0%nat. generalize (∅ : catalog_t).
  generalize (v :: values) as l. clear v values. induction l as [|o l IH]; intros c n; cbn; [done|].
  apply no_panic_bind; [apply validate_one_no_panic|intros]. destruct (c !! _); [apply no_panic_error|auto].
Qed.

Lemma validate_outbound_no_panic catalog o : no_panic (validate_outbound debug parse_go_duration catalog o).
Proof.
  unfold validate_outbound. destruct (String.eqb _ _).
  - apply no_panic_bind; [apply parse_urltest_no_panic|done].
  - destruct (validate_client_outbound _ _ _ _ _); [done|apply no_panic_error].
Qed.

Lemma validate_catalog_no_panic catalog : no_panic (validate_outbound_catalog debug parse_go_duration catalog).
Proof.
  unfold validate_outbound_catalog. apply no_panic_bind.
  { generalize (btree_iter catalog).*2 as outbounds. induction outbounds as [|o outbounds IH]; [done|]. cbn.
    apply no_panic_bind; [apply validate_outbound_no_panic|intros ?]. apply no_panic_bind; [apply IH|intros; apply no_panic_ret]. }
  intros _. pose proof (validate_graph_spec debug parse_go_duration catalog) as [Hg Hp].
  destruct (validate_graph debug parse_go_duration catalog) as [[]|e] eqn:E.
  - apply validate_shapes_spec. by apply Hg.
  - intros e' [= <-]. by apply Hp.
Qed.

Lemma known_rule_sets_no_panic rule_sets message tags : no_panic (known_rule_sets debug rule_sets message tags).
Proof. induction tags as [|tag tags IH]; cbn; no_panic. Qed.
#[local] Hint Resolve known_rule_sets_no_panic : node.

Lemma rule_references_no_panic outbounds rule_sets rule : no_panic (validate_route_rule_references debug outbounds rule_sets rule).
Proof.
  revert rule. fix IH 1. intros rule. destruct rule. cbn.
  destruct (_ && _); [apply no_panic_error|]. apply no_panic_bind; [apply known_rule_sets_no_panic|intros _].
  induction rules as [|rule rules IHl]; [done|]. apply no_panic_bind; [apply IH|intros _; exact IHl].
Qed.

Lemma validate_route_no_panic outbounds rule_sets route : no_panic (validate_route debug outbounds rule_sets route).
Proof.
  unfold validate_route. destruct route as [route|]; [|done]. destruct (nonempty_list _); [apply no_panic_error|].
  destruct (_ && _); [apply no_panic_error|].
  induction (Route.rules route) as [|rule rules IH]; [done|]. cbn. apply no_panic_bind; [apply rule_references_no_panic|done].
Qed.

Lemma check_short_ids_no_panic node index ids : no_panic (check_short_ids node index ids).
Proof. revert index. induction ids as [|i ids IH]; intros index; cbn; no_panic. Qed.

Lemma compile_users_no_panic node protocol : no_panic (compile_users debug node protocol).
Proof.
  unfold compile_users. generalize (∅ : gset string). induction (active_users (NodeInstance.users node)) as [|u l IH]; intros s; cbn; [done|].
  destruct (is_empty _); [apply no_panic_error|]. destruct (is_empty _); [apply no_panic_error|].
  case_bool_decide; [apply no_panic_error|]. by apply no_panic_bind.
Qed.

(** Stateful code that does not panic, from any state. *)
Definition never_panics {S A} (m : stm S (exn string) A) : Prop := forall s, no_panic (m s).2.

Lemma never_panics_ret {S A} (a : A) : never_panics (S := S) (mret a).
Proof. by intros s. Qed.
Lemma never_panics_modify {S} (f : S -> S) : never_panics (modify f).
Proof. by intros s. Qed.
Lemma never_panics_raise {S A} message : never_panics (S := S) (A := A) (raise (Fail message)).
Proof. intros s e [= <-]. by eexists. Qed.
Lemma never_panics_lift {S A} (r : fallible A) : no_panic r -> never_panics (S := S) (lift r).
Proof. by intros H s. Qed.
Lemma never_panics_bind {S A B} (m : stm S (exn string) A) (f : A -> stm S (exn string) B) :
  never_panics m -> (forall a, never_panics (f a)) -> never_panics (m ≫= f).
Proof.
  intros Hm Hf s. unfold mbind, stm_bind. specialize (Hm s). destruct (m s) as [s1 [a|e]]; [apply Hf|].
  intros e' [= <-]. by apply Hm.
Qed.

(** ** Inbounds *)

Section inbound.
Context (parse_vless : string -> result string VlessRealityVisionConfig.t).
Context (parse_hysteria2 : string -> result string Hysteria2SalamanderConfig.t) (base64_len : string -> option Z).

Lemma compile_vless_no_panic node : no_panic (compile_vless debug parse_vless base64_len node).
Proof.
  unfold compile_vless. apply no_panic_bind; [apply no_panic_map_err|intros cfg].
  repeat (destruct (_ || _); [apply no_panic_error|]). destruct (is_empty _); [apply no_panic_error|].
  destruct (_ || _); [apply no_panic_error|]. apply no_panic_bind; [apply check_short_ids_no_panic|intros _].
  destruct (_ && _); [apply no_panic_error|]. apply no_panic_bind; [apply compile_users_no_panic|intros users].
  destruct (VlessRealityVisionConfig.tcp_fast_open cfg); [apply no_panic_error|done].
Qed.

Lemma masquerade_checked node m : check_masquerade debug node m = Ok tt -> no_panic (masquerade_value m).
Proof.
  unfold check_masquerade, masquerade_value. destruct (String.eqb _ "proxy"); [done|]. by destruct (String.eqb _ "string").
Qed.

Lemma compile_hysteria2_no_panic node : never_panics (compile_hysteria2 debug parse_hysteria2 node).
Proof.
  unfold compile_hysteria2. apply never_panics_bind; [apply never_panics_lift, no_panic_map_err|intros cfg].
  repeat (destruct (_ || _); [apply never_panics_raise|]).
  apply never_panics_bind.
  { apply never_panics_lift. unfold check_obfs. no_panic. }
  intros _ s. destruct (Hysteria2SalamanderConfig.masquerade cfg) as [m|] eqn:Em.
  - unfold mbind at 1, stm_bind at 1, lift at 1. destruct (check_masquerade debug node m) as [[]|e] eqn:Ec.
    2:{ intros e' [= <-]. revert Ec. unfold check_masquerade. intros Ec.
        assert (no_panic (check_masquerade debug node m)) as H by (unfold check_masquerade; no_panic). by apply H. }
    revert s. apply never_panics_bind; [apply never_panics_lift, compile_users_no_panic|intros users].
    apply never_panics_bind; [destruct (is_empty _); [apply never_panics_ret|apply never_panics_modify]|intros _].
    apply never_panics_bind; [|intros; apply never_panics_ret]. apply never_panics_lift.
    apply no_panic_bind; [by eapply masquerade_checked|done].
  - revert s. apply never_panics_bind; [by apply never_panics_lift|intros _].
    apply never_panics_bind; [apply never_panics_lift, compile_users_no_panic|intros users].
    apply never_panics_bind; [destruct (is_empty _); [apply never_panics_ret|apply never_panics_modify]|intros _].
    apply never_panics_bind; [by apply never_panics_lift|intros; apply never_panics_ret].
Qed.

Lemma compile_inbound_no_panic node : never_panics (compile_inbound debug parse_vless parse_hysteria2 base64_len node).
Proof.
  unfold compile_inbound. destruct (is_empty _); [apply never_panics_raise|]. destruct (_ && _); [apply never_panics_raise|].
  destruct (String.eqb _ _); [apply never_panics_lift, compile_vless_no_panic|].
  destruct (String.eqb _ _); [apply compile_hysteria2_no_panic|apply never_panics_raise].
Qed.

Lemma compile_nodes_no_panic nodes acc : never_panics (compile_nodes debug parse_vless parse_hysteria2 base64_len nodes acc).
Proof.
  revert acc. induction nodes as [|node nodes IH]; intros acc; cbn; [apply never_panics_ret|].
  apply never_panics_bind; [|done]. unfold compile_node. case_bool_decide; [apply never_panics_raise|].
  apply never_panics_bind; [apply compile_inbound_no_panic|intros inbound].
  destruct (is_empty _); [apply never_panics_raise|]. case_bool_decide; [apply never_panics_raise|].
  apply never_panics_bind; [|intros; apply never_panics_ret]. apply never_panics_lift.
  unfold inbound_protocol_sniff_enabled. destruct (String.eqb _ _); [|done].
  apply no_panic_bind; [apply no_panic_map_err|done].
Qed.
End inbound.

(** ** Rule sets and resolvers *)

Section rule_sets.
Context (json_chunks : Value.t -> list string) (sha256 : string -> string).
Context (validate_route_rule_set : string -> string -> result string unit).
Context (url_parse : string -> result string (string * string)) (fixed_state_root : result string string).
Context (headless_rules : list HeadlessRule.t -> Value.t).

Lemma plan_rule_set_no_panic rule_set :
  no_panic (plan_rule_set debug json_chunks sha256 from_slice validate_route_rule_set url_parse fixed_state_root headless_rules rule_set).
Proof.
  unfold plan_rule_set. destruct (is_empty _); [apply no_panic_error|].
  destruct (_ || _); [destruct (negb _); [apply no_panic_error|]|].
  - destruct (plan_inline_resource _ _ _ _ _ _ _); [done|]. intros ? [= <-]. by eexists.
  - destruct (_ || _); [|apply no_panic_error].
    destruct (plan_resource _ _ _ _ _ _ _ _ _ _ _); [done|]. intros ? [= <-]. by eexists.
Qed.

Lemma compile_rule_set_catalog_no_panic route :
  no_panic (compile_rule_set_catalog debug json_chunks sha256 from_slice validate_route_rule_set url_parse fixed_state_root
              headless_rules route).
Proof.
  unfold compile_rule_set_catalog. destruct route as [route|]; [|done]. apply no_panic_bind; [|by intros []].
  generalize (∅ : rule_sets_t) ([] : list RuleSetResource.t). induction (Route.rule_sets route) as [|r l IH]; intros c rs; cbn; [done|].
  apply no_panic_bind; [apply plan_rule_set_no_panic|intros]. destruct (c !! _); [apply no_panic_error|auto].
Qed.
End rule_sets.

Section resolvers.
Context (sha256 : string -> string).
Implicit Types (route : option Route.t) (dns : option Dns.t).

Lemma dns_servers_no_panic dns : no_panic (dns_servers debug dns).
Proof.
  unfold dns_servers. destruct (servers_of dns) as [|s l]; [done|]. generalize (∅ : gmap string (option DnsServer.t)).
  generalize (s :: l) as servers. clear s l. induction servers as [|s l IH]; intros m; cbn; [done|].
  destruct (m !! _); [apply no_panic_error|auto].
Qed.

Lemma default_resolver_no_panic route : no_panic (default_domain_resolver debug route).
Proof.
  unfold default_domain_resolver. destruct (route ≫= _); [|done]. apply no_panic_bind; [|done].
  unfold compile_domain_resolve_options. no_panic.
Qed.

Lemma check_same_egress_no_panic route dns outbounds servers o resolver :
  no_panic (check_same_egress debug route dns outbounds servers o resolver).
Proof. unfold check_same_egress, check_rule_pairs. no_panic. Qed.

Lemma check_resolver_no_panic route dns outbounds servers d o strategies :
  no_panic (check_resolver debug route dns outbounds servers d o strategies).
Proof.
  unfold check_resolver. destruct (effective_resolver d o); [|done]. destruct (servers !! _); [|apply no_panic_error].
  destruct (negb _); [done|]. apply no_panic_bind; [apply check_same_egress_no_panic|intros]. no_panic.
Qed.

Lemma validate_resolution_no_panic route dns outbounds :
  no_panic (validate_dns_resolution_projection debug route dns outbounds).
Proof.
  unfold validate_dns_resolution_projection. apply no_panic_bind; [apply dns_servers_no_panic|intros servers].
  destruct (servers !! _); [|apply no_panic_error]. apply no_panic_bind; [apply default_resolver_no_panic|intros d].
  apply no_panic_bind; [destruct d as [r|]; [destruct (servers !! _); [done|apply no_panic_error]|done]|intros _].
  generalize (∅ : gmap string string). generalize (btree_iter outbounds).*2 as values.
  induction values as [|v l IH]; intros m; cbn; [done|]. apply no_panic_bind; [apply check_resolver_no_panic|auto].
Qed.

Lemma select_transport_no_panic dns base resolver : no_panic (select_transport debug sha256 dns base resolver).
Proof. unfold select_transport, outbound_dns_ip_strategy. no_panic. Qed.

Lemma project_resolvers_no_panic route dns outbounds base :
  no_panic (project_outbound_dns_resolvers debug sha256 route dns outbounds base).
Proof.
  unfold project_outbound_dns_resolvers. apply no_panic_bind; [apply default_resolver_no_panic|intros d].
  apply no_panic_bind; [|by intros []]. generalize (∅ : gmap DnsServerVariantKey.t DnsServerVariant.t).
  generalize outbounds at 2. generalize (btree_iter outbounds) as entries.
  induction entries as [|[k o] l IH]; intros c v; cbn; [done|]. apply no_panic_bind; [|intros []; auto].
  unfold project_one. destruct (effective_resolver d o); [|done]. destruct (negb _); [apply no_panic_error|].
  apply no_panic_bind; [apply select_transport_no_panic|by intros []].
Qed.

(** *** The resolvers that are assigned *)

Lemma project_all_resolvers dns base d entries outbounds variants outbounds' variants' :
  project_all debug sha256 dns base d entries outbounds variants = Ok (outbounds', variants') ->
  (forall key o, (key, o) ∈ entries -> exists r, outbounds !! key = Some (ValidatedOutbound.set_shoes_dns_resolver r o)) ->
  forall c0, with_resolvers c0 outbounds -> with_resolvers c0 outbounds'.
Proof.
  revert outbounds variants. induction entries as [|[key o] entries IH]; intros outbounds variants; cbn.
  { by intros [= <- <-]. }
  intros ([selected v] & _ & H)%bind_Ok Hin c0 Hc. revert H. set (updated := match selected with Some _ => _ | None => _ end).
  assert (Hup : forall k o', outbounds !! k = Some o' -> exists r, updated !! k = Some (ValidatedOutbound.set_shoes_dns_resolver r o')).
  { intros k o' Hk. unfold updated. destruct selected as [tag|]; [|exists (ValidatedOutbound.shoes_dns_resolver o'); by destruct o'].
    destruct (decide (k = key)) as [->|]; [|rewrite lookup_insert_ne by done; exists (ValidatedOutbound.shoes_dns_resolver o'); by destruct o'].
    rewrite lookup_insert_eq. destruct (Hin key o) as [r Hr]; [by left|]. rewrite Hk in Hr. injection Hr as ->. exists (Some tag). by destruct o. }
  intros H. apply (IH updated v H).
  - intros k o' Ho'. destruct (Hin k o') as [r Hr]; [by right|]. destruct (Hup _ _ Hr) as [r' Hr']. exists r'. rewrite Hr'. by destruct o'.
  - intros tag. specialize (Hc tag). destruct (c0 !! tag) as [o0|].
    + destruct Hc as [r Hr]. destruct (Hup _ _ Hr) as [r' Hr']. exists r'. rewrite Hr'. by destruct o0.
    + unfold updated. destruct selected as [t|]; [|done]. destruct (decide (tag = key)) as [->|]; [|by rewrite lookup_insert_ne].
      destruct (Hin key o) as [r Hr]; [by left|]. congruence.
Qed.

Lemma project_resolvers_with route dns outbounds base outbounds' variants :
  project_outbound_dns_resolvers debug sha256 route dns outbounds base = Ok (outbounds', variants) -> with_resolvers outbounds outbounds'.
Proof.
  unfold project_outbound_dns_resolvers. intros (d & _ & H)%bind_Ok. apply bind_Ok in H as ([c v] & H & [= <- <-]).
  eapply project_all_resolvers; [exact H| |].
  - intros key o Ho%elem_of_btree_iter. exists (ValidatedOutbound.shoes_dns_resolver o). rewrite Ho. by destruct o.
  - intros tag. destruct (outbounds !! tag) as [o|]; [|done]. exists (ValidatedOutbound.shoes_dns_resolver o). by destruct o.
Qed.

(** *** What an outbound resolves through *)

(** The lookups of the server [tag] as [resolver] asks for them. *)
Definition resolves_with (base : gmap string string) (variants : list DnsServerVariant.t) (resolver : OutboundDomainResolver.t)
    (tag : string) : Prop := exists desired,
  let server := OutboundDomainResolver.server resolver in
  let source := default "ipv4_and_ipv6" (base !! server) in
  outbound_dns_ip_strategy debug (OutboundDomainResolver.strategy resolver) = Ok desired /\
  if String.eqb (default source desired) source && DnsServerQueryProfile.is_default (OutboundDomainResolver.query resolver)
  then tag = server
  else DnsServerVariant.mk tag server (default source desired) (OutboundDomainResolver.query resolver) ∈ variants.

Record variants_ok (dns : option Dns.t) (variants : gmap DnsServerVariantKey.t DnsServerVariant.t) : Prop := {
  vo_keys key variant : variants !! key = Some variant -> DnsServerVariant.key variant = key;
  vo_tags key variant : variants !! key = Some variant ->
    DnsServerVariant.tag variant =
      dns_profile_variant_tag sha256 (DnsServerVariant.source_tag variant) (DnsServerVariant.ip_strategy variant) (DnsServerVariant.query variant) /\
    DnsServerVariant.tag variant ∉ configured_tags dns
}.

Lemma select_transport_Ok dns base resolver tag variant :
  select_transport debug sha256 dns base resolver = Ok (tag, variant) ->
  exists desired,
    let server := OutboundDomainResolver.server resolver in
    let source := default "ipv4_and_ipv6" (base !! server) in
    outbound_dns_ip_strategy debug (OutboundDomainResolver.strategy resolver) = Ok desired /\
    if String.eqb (default source desired) source && DnsServerQueryProfile.is_default (OutboundDomainResolver.query resolver)
    then tag = server /\ variant = None
    else variant = Some (DnsServerVariant.mk tag server (default source desired) (OutboundDomainResolver.query resolver)) /\
         tag = dns_profile_variant_tag sha256 server (default source desired) (OutboundDomainResolver.query resolver) /\
         tag ∉ configured_tags dns.
Proof.
  unfold select_transport. intros (desired & Hd & H)%bind_Ok. exists desired. cbv zeta. split; [done|]. revert H.
  destruct (_ && _); [by intros [= <- <-]|]. case_bool_decide as Hin; [done|]. by intros [= <- <-].
Qed.

Lemma project_one_Ok dns base d o variants selected variants' :
  project_one debug sha256 dns base d o variants = Ok (selected, variants') -> variants_ok dns variants ->
  variants_ok dns variants' /\ (forall key v, variants !! key = Some v -> variants' !! key = Some v) /\
  match effective_resolver d o with
  | None => selected = None
  | Some resolver => exists tag, selected = Some tag /\ resolves_with base (map_to_list variants').*2 resolver tag
  end.
Proof.
  unfold project_one. destruct (effective_resolver d o) as [resolver|]; [|by intros [= <- <-]]. destruct (negb _); [done|].
  intros ([tag variant] & Ht & H)%bind_Ok Hv. injection H as <- <-. apply select_transport_Ok in Ht as (desired & Hd & Ht).
  unfold resolves_with. cbv zeta in *. destruct (_ && _) eqn:E.
  - destruct Ht as [-> ->]. split_and!; [done|done|]. eexists. split; [done|]. exists desired. rewrite E. done.
  - destruct Ht as (-> & Htag & Hnew). set (v := DnsServerVariant.mk _ _ _ _).
    assert (Hfound : forall v', variants !! DnsServerVariant.key v = Some v' -> v' = v).
    { intros v' H'. pose proof (vo_keys _ _ Hv _ _ H') as Hk. destruct (vo_tags _ _ Hv _ _ H') as [Htag' _].
      destruct v' as [t s i q]. unfold v, DnsServerVariant.key in *. cbn in *. injection Hk as -> -> ->. by rewrite Htag', Htag. }
    destruct (variants !! DnsServerVariant.key v) as [v'|] eqn:El.
    + pose proof (Hfound v' eq_refl) as ->. split_and!; [done|done|]. eexists. split; [done|]. exists desired. rewrite E. split; [done|].
      apply (list_elem_of_fmap_2 snd _ (DnsServerVariant.key v, v)). by apply elem_of_map_to_list.
    + split_and!.
      * split.
        -- intros key v' [[<- <-]|[_ H]]%lookup_insert_Some; [done|by eapply vo_keys].
        -- intros key v' [[<- <-]|[_ H]]%lookup_insert_Some; [done|by eapply vo_tags].
      * intros key v' H. rewrite lookup_insert_ne; [done|]. intros <-. congruence.
      * eexists. split; [done|]. exists desired. rewrite E. split; [done|].
        apply (list_elem_of_fmap_2 snd _ (DnsServerVariant.key v, v)). apply elem_of_map_to_list, lookup_insert_eq.
Qed.

Lemma resolves_weaken base variants variants' resolver tag :
  (forall v, v ∈ variants -> v ∈ variants') -> resolves_with base variants resolver tag -> resolves_with base variants' resolver tag.
Proof. intros Hsub (desired & Hd & H). exists desired. split; [done|]. destruct (_ && _); auto. Qed.

Lemma values_weaken (variants variants' : gmap DnsServerVariantKey.t DnsServerVariant.t) v :
  (forall key v, variants !! key = Some v -> variants' !! key = Some v) -> v ∈ (map_to_list variants).*2 -> v ∈ (map_to_list variants').*2.
Proof.
  intros Hsub ([key v'] & -> & H%elem_of_map_to_list)%list_elem_of_fmap.
  apply (list_elem_of_fmap_2 snd _ (key, v')), elem_of_map_to_list. by apply Hsub.
Qed.

(** The resolver of every outbound of the list. *)
Definition assigned (base : gmap string string) (d : option OutboundDomainResolver.t) (variants : list DnsServerVariant.t)
    (o : ValidatedOutbound.t) (o' : ValidatedOutbound.t) : Prop :=
  match effective_resolver d o with
  | None => o' = o
  | Some resolver => exists tag, o' = ValidatedOutbound.set_shoes_dns_resolver (Some tag) o /\ resolves_with base variants resolver tag
  end.

Lemma project_all_assigned dns base d entries outbounds variants outbounds' variants' :
  project_all debug sha256 dns base d entries outbounds variants = Ok (outbounds', variants') ->
  NoDup entries.*1 -> (forall key o, (key, o) ∈ entries -> outbounds !! key = Some o) -> variants_ok dns variants ->
  variants_ok dns variants' /\ (forall key v, variants !! key = Some v -> variants' !! key = Some v) /\
  (forall key, key ∉ entries.*1 -> outbounds' !! key = outbounds !! key) /\
  (forall key o, (key, o) ∈ entries -> exists o', outbounds' !! key = Some o' /\ assigned base d (map_to_list variants').*2 o o').
Proof.
  revert outbounds variants. induction entries as [|[key o] entries IH]; intros outbounds variants; cbn.
  { intros [= <- <-] _ _ Hv. split_and!; try done. by intros ?? ?%not_elem_of_nil. }
  intros ([selected v1] & H1 & H)%bind_Ok [Hn Hns]%NoDup_cons Hin Hv.
  destruct (project_one_Ok _ _ _ _ _ _ _ H1 Hv) as (Hv1 & Hsub1 & Hsel).
  set (updated := match selected with Some _ => _ | None => _ end) in H.
  assert (Hother : forall k, k <> key -> updated !! k = outbounds !! k).
  { intros k Hk. unfold updated. destruct selected; [by rewrite lookup_insert_ne|done]. }
  destruct (IH _ _ H Hns) as (Hv2 & Hsub2 & Hrest & Hass); [|done|].
  { intros k o' Ho'. rewrite Hother; [apply Hin; by right|]. intros ->. apply Hn. by apply (list_elem_of_fmap_2 fst _ (key, o')). }
  split_and!; [done|auto| |].
  - intros k [Hk Hks]%not_elem_of_cons. by rewrite Hrest, Hother.
  - intros k o' [[= -> ->]|Ho']%elem_of_cons; [|by apply Hass]. rewrite Hrest by done. unfold updated, assigned.
    destruct (effective_resolver d o) as [resolver|].
    + destruct Hsel as (tag & -> & Hr). rewrite lookup_insert_eq. eexists. split; [done|]. exists tag. split; [done|].
      eapply resolves_weaken; [|exact Hr]. intros v. by apply values_weaken.
    + subst selected. exists o. split; [|done]. apply Hin. by left.
Qed.

Lemma configured_tags_list dns tag : tag ∈ configured_tags dns <-> tag ∈ DnsServer.tag <$> server_list dns.
Proof.
  unfold configured_tags, server_list. destruct (servers_of dns) as [|s l].
  - rewrite elem_of_singleton. cbn. by rewrite list_elem_of_singleton.
  - by rewrite elem_of_list_to_set.
Qed.

Lemma variants_in_order_perm variants : variants_in_order variants ≡ₚ (map_to_list variants).*2.
Proof. unfold variants_in_order. apply fmap_Permutation, sort_by_perm. Qed.

(** Variants are filed under their key, and their tags are new. *)
Definition distinct_variants (dns : option Dns.t) (variants : list DnsServerVariant.t) : Prop :=
  NoDup (DnsServerVariant.key <$> variants) /\
  forall v, v ∈ variants ->
    DnsServerVariant.tag v =
      dns_profile_variant_tag sha256 (DnsServerVariant.source_tag v) (DnsServerVariant.ip_strategy v) (DnsServerVariant.query v) /\
    DnsServerVariant.tag v ∉ DnsServer.tag <$> server_list dns.

Lemma resolvers_spec route dns outbounds base outbounds' variants :
  project_outbound_dns_resolvers debug sha256 route dns outbounds base = Ok (outbounds', variants) ->
  distinct_variants dns variants /\ exists d, default_domain_resolver debug route = Ok d /\
  forall tag, match outbounds !! tag with
              | Some o => exists o', outbounds' !! tag = Some o' /\ assigned base d variants o o'
              | None => outbounds' !! tag = None
              end.
Proof.
  unfold project_outbound_dns_resolvers. intros (d & Hd & H)%bind_Ok. apply bind_Ok in H as ([c v] & H & [= <- <-]).
  destruct (project_all_assigned _ _ _ _ _ _ _ _ H) as (Hv & _ & Hrest & Hass).
  { rewrite btree_iter_perm. apply NoDup_fst_map_to_list. }
  { intros key o Ho. by apply elem_of_btree_iter. }
  { split; intros *; by rewrite lookup_empty. }
  split.
  - split.
    + rewrite variants_in_order_perm. assert (DnsServerVariant.key <$> (map_to_list v).*2 = (map_to_list v).*1) as ->.
      { rewrite <- list_fmap_compose. apply list_fmap_ext. intros i [k x] Hi. cbn. apply list_elem_of_lookup_2, elem_of_map_to_list in Hi.
        by apply (vo_keys _ _ Hv). }
      apply NoDup_fst_map_to_list.
    + intros x. rewrite variants_in_order_perm. intros ([k y] & -> & Hi%elem_of_map_to_list)%list_elem_of_fmap.
      destruct (vo_tags _ _ Hv _ _ Hi) as [Ht Hn]. split; [done|]. by rewrite <- configured_tags_list.
  - exists d. split; [done|]. intros tag. destruct (outbounds !! tag) as [o|] eqn:Ho.
    + destruct (Hass tag o) as (o' & Ho' & Ha); [by apply elem_of_btree_iter|]. exists o'. split; [done|].
      unfold assigned in *. destruct (effective_resolver d o) as [resolver|]; [|done]. destruct Ha as (t & -> & Hr). exists t. split; [done|].
      eapply resolves_weaken; [|exact Hr]. intros x Hx. by rewrite variants_in_order_perm.
    + rewrite Hrest; [done|]. intros ([k o'] & -> & Hi%elem_of_btree_iter)%list_elem_of_fmap. cbn in Ho. congruence.
Qed.
End resolvers.

(** ** The catalog *)

Lemma validate_one_Ok id outbound o :
  validate_one debug from_slice id outbound = Ok o ->
  ValidatedOutbound.id o = Z.of_nat id /\ ValidatedOutbound.tag o = Outbound.tag outbound /\
  ValidatedOutbound.kind o = Outbound.kind outbound /\ Outbound.kind outbound ∈ SUPPORTED_OUTBOUND_TYPES /\
  is_ok (serialize_outbound from_slice outbound) = true.
Proof.
  unfold validate_one. destruct (is_empty _); [done|]. destruct (is_empty _); [done|]. case_bool_decide as Hk; cbn; [|done].
  intros (options & Hopt & H)%bind_Ok. destruct (Value.as_object options); [|done]. destruct (find_first _ _); [done|].
  apply bind_Ok in H as (u & _ & H). apply bind_Ok in H as ([remaining r] & _ & [= <-]). split_and!; [done..|].
  unfold serialize_outbound. destruct (is_empty (Outbound.options outbound)); [done|]. by destruct (from_slice _).
Qed.

Record built (id : nat) (c : catalog_t) : Prop := {
  built_wf : wf_catalog c;
  built_ids tag o : c !! tag = Some o -> ValidatedOutbound.id o < Z.of_nat id
}.

Lemma built_insert id c outbound o :
  built id c -> validate_one debug from_slice id outbound = Ok o -> c !! Outbound.tag outbound = None ->
  built (S id) (<[Outbound.tag outbound := o]> c).
Proof.
  intros [Hwf Hids] (Hid & Htag & Hkind & Hsup & _)%validate_one_Ok Hc. split.
  - split.
    + intros tag o' [[<- <-]|[_ H]]%lookup_insert_Some; [done|]. by eapply wf_keyed.
    + intros tag o1 tag' o2 [[<- <-]|[_ H1]]%lookup_insert_Some [[<- <-]|[_ H2]]%lookup_insert_Some Heq; [done| | |].
      * apply Hids in H2. lia.
      * apply Hids in H1. lia.
      * by eapply wf_ids.
    + intros tag o' [[<- <-]|[_ H]]%lookup_insert_Some; [by rewrite Hkind|]. by eapply wf_kinds.
  - intros tag o' [[<- <-]|[_ H]]%lookup_insert_Some; [lia|]. apply Hids in H. lia.
Qed.

Lemma validate_all_built id values c c' :
  validate_all debug from_slice id values c = Ok c' -> built id c ->
  wf_catalog c' /\ Forall (fun o => is_ok (serialize_outbound from_slice o) = true) values.
Proof.
  revert id c. induction values as [|v values IH]; intros id c; cbn.
  { intros [= <-] Hb. split; [apply Hb|done]. }
  intros (o & Ho & H)%bind_Ok Hb. destruct (c !! Outbound.tag v) eqn:E; [done|].
  destruct (IH _ _ H (built_insert _ _ _ _ Hb Ho E)) as [Hwf Hs]. split; [done|]. constructor; [|done].
  by apply validate_one_Ok in Ho as (_ & _ & _ & _ & Hok).
Qed.

Lemma validate_outbounds_built values c :
  validate_outbounds debug from_slice values = Ok c ->
  wf_catalog c /\ Forall (fun o => is_ok (serialize_outbound from_slice o) = true) values.
Proof.
  unfold validate_outbounds. destruct values as [|v values].
  - intros [= <-]. split; [|done]. split.
    + intros tag o [<- <-]%lookup_singleton_Some. done.
    + intros tag o tag' o' [<- <-]%lookup_singleton_Some [<- <-]%lookup_singleton_Some. done.
    + intros tag o [<- <-]%lookup_singleton_Some. left.
  - intros H. eapply validate_all_built; [exact H|]. split; [split|]; intros *; rewrite lookup_empty; done.
Qed.

(** What was validated serialises again. *)
Lemma serialize_validated values :
  Forall (fun o => is_ok (serialize_outbound from_slice o) = true) values -> is_ok (serialize_outbounds from_slice values) = true.
Proof.
  induction 1 as [|o values Ho _ IH]; [done|]. cbn. destruct (serialize_outbound from_slice o); [|done]. cbn.
  by destruct (serialize_outbounds from_slice values).
Qed.
End spec.
