(* ===== verification/CompileProjection.v ===== *)
(** * What is embedded in a compiled configuration

    [embedded] measures the client chains an object carries.  The rules of an inbound
    and the DNS configuration of a consumer spend exactly what they embed, and every
    rule carries the meaning of the outbound it names. *)

From Stdlib Require Import ZArith Lia.
From S2P Require Import Prelude Bytes Json Topology Runtime OutboundAdapter OutboundGraph OutboundGraphSpec.
From S2P Require Import OutboundChains OutboundProjection BudgetSpec.
From S2P Require Import RuleSet CompileRoute CompileOutbounds CompileDns Compile.

Open Scope Z_scope.

(** ** Whom a rule concerns *)

(** A rule without inbounds, or that lists the inbound, concerns it. *)
Lemma inbound_listed {A} (o1 o2 : A) (tag : string) (tags : list string) :
  (if negb (negb (nonempty_list tags) || existsb (fun t => String.eqb t tag) tags) then o1 else o2)
  = (if decide (tags = [] \/ tag ∈ tags) then o2 else o1).
Proof.
  destruct tags as [|t tags]; [by rewrite decide_True by auto|]. cbn [nonempty_list negb orb].
  destruct (existsb _ _) eqn:E; cbn [negb].
  - rewrite decide_True; [done|]. right. apply existsb_exists in E as (x & Hx & ->%String.eqb_eq). by apply list_elem_of_In.
  - rewrite decide_False; [done|]. intros [|Hin]; [done|]. rewrite <- not_true_iff_false in E. apply E, existsb_exists.
    exists tag. rewrite String.eqb_refl. split; [by apply list_elem_of_In|done].
Qed.

(** Likewise for the consumer of a DNS configuration, which may have no inbound. *)
#[local] Instance consumer_listed_dec (consumer : option string) (tags : list string) :
  Decision (exists tag, consumer = Some tag /\ tag ∈ tags).
Proof.
  destruct consumer as [tag|].
  - destruct (decide (tag ∈ tags)) as [Hin|Hn]; [left; by exists tag|right; by intros (? & [= ->] & Hin)].
  - right. by intros (? & ? & _).
Defined.

Lemma consumer_listed {A} (o1 o2 : A) (consumer : option string) (rule : DnsRule.t) :
  (if negb (concerns consumer rule) then o1 else o2)
  = (if decide (DnsRule.inbound rule = [] \/ exists tag, consumer = Some tag /\ tag ∈ DnsRule.inbound rule) then o2 else o1).
Proof.
  unfold concerns. destruct consumer as [tag|].
  - rewrite inbound_listed. destruct (decide (_ \/ tag ∈ _)) as [H|H].
    + rewrite decide_True; [done|]. destruct H as [|H]; [by left|right; by exists tag].
    + rewrite decide_False; [done|]. intros [|(? & [= <-] & ?)]; apply H; auto.
  - destruct (DnsRule.inbound rule); [by rewrite decide_True by auto|].
    rewrite decide_False; [done|]. by intros [|(? & ? & _)].
Qed.

Local Abbreviation cost_t := ClientChainProjectionCost.t.
Local Abbreviation zero := ClientChainProjectionCost.zero.
Local Abbreviation plus := ClientChainProjectionCost.add.

Lemma plus_zero k : plus k zero = k.
Proof. destruct k. unfold plus, zero. cbn. f_equal; lia. Qed.
Lemma zero_plus k : plus zero k = k.
Proof. by destruct k. Qed.
Lemma plus_assoc a b k : plus (plus a b) k = plus a (plus b k).
Proof. unfold plus. cbn. f_equal; lia. Qed.

(** ** Measures of configurations *)

Section measures.
Context (json_chunks : Value.t -> list string).

Definition embedded (chain_field : string) (fields : Value.fields) : cost_t :=
  match Map.get chain_field fields with
  | Some chains => measure_parts json_chunks chains (Map.get "client_chain_selection" fields)
  | None => zero
  end.

Definition embedded_in (chain_field : string) (value : Value.t) : cost_t :=
  match value with Value.Object fields => embedded chain_field fields | _ => zero end.

Fixpoint total {A} (f : A -> cost_t) (l : list A) : cost_t :=
  match l with [] => zero | a :: l => plus (f a) (total f l) end.

Lemma total_cost_app {A} (f : A -> cost_t) l1 l2 : total f (l1 ++ l2) = plus (total f l1) (total f l2).
Proof. induction l1 as [|a l1 IH]; cbn; [by rewrite zero_plus|]. by rewrite IH, plus_assoc. Qed.

Definition rules_cost (rules : list Value.t) : cost_t := total (embedded_in "client_chains") rules.
Definition servers_cost (servers : list Value.fields) : cost_t := total (embedded "client_chain") servers.

(** The values under a field that is an array. *)
Definition elements_of (field : string) (value : Value.t) : list Value.t := default [] (Value.get field value ≫= Value.as_array).

Definition dns_cost (dns : Value.t) : cost_t := total (embedded_in "client_chain") (elements_of "servers" dns).

(** Everything the configuration of an inbound embeds. *)
Definition config_cost (config : Value.t) : cost_t :=
  plus (rules_cost (elements_of "rules" config)) (match Value.get "dns" config with Some dns => dns_cost dns | None => zero end).

Lemma embedded_insert chain_field key value fields :
  key <> chain_field -> key <> "client_chain_selection" -> embedded chain_field (Map.insert key value fields) = embedded chain_field fields.
Proof. intros H1 H2. unfold embedded. by rewrite !Map.get_insert_ne by done. Qed.

(** An object that carried nothing carries the action that is put into it. *)
Lemma embedded_action chain_field fields action :
  chain_field <> "client_chain_selection" -> Map.get "client_chain_selection" fields = None ->
  embedded chain_field (apply_outbound_action fields chain_field action) = measure json_chunks action.
Proof.
  intros Hne Hs. unfold apply_outbound_action, embedded, measure.
  destruct (CompiledOutboundAction.client_chain_selection action) as [s|].
  - rewrite Map.get_insert_ne by done. rewrite Map.get_insert_eq. by rewrite Map.get_insert_eq.
  - rewrite Map.get_insert_eq. by rewrite Map.get_insert_ne, Hs by done.
Qed.

Lemma embedded_variant source variant : embedded "client_chain" (variant_server source variant) = embedded "client_chain" source.
Proof.
  unfold variant_server, apply_dns_server_query_profile. destruct (DnsServerVariant.query variant) as [cache ttl subnet]. cbn.
  destruct subnet, ttl, cache; rewrite !embedded_insert by done; done.
Qed.
End measures.

(** ** Computations that spend *)

Section costs.
Context (debug : string -> string) (parse_go_duration : string -> result string Z).
Context (json_chunks : Value.t -> list string) (sha256 : string -> string).
Context (c0 c : catalog_t).

Local Abbreviation method := (stm Budget.t (exn string)).
Local Abbreviation budget_ok := (budget_ok debug parse_go_duration json_chunks sha256 c).
Local Abbreviation represents := (represents debug parse_go_duration json_chunks sha256 c).
Local Abbreviation embedded := (embedded json_chunks).
Local Abbreviation rules_cost := (rules_cost json_chunks).
Local Abbreviation servers_cost := (servers_cost json_chunks).

Hypothesis Hwf : wf_catalog c0.
Hypothesis Hres : with_resolvers c0 c.
Hypothesis Hval : validate_outbound_catalog debug parse_go_duration c0 = Ok tt.
Context {laws : JsonLaws json_chunks}.
Hypothesis Hsha : forall bytes, str_len (sha256 bytes) = 32.

(** On success [Q] holds of the result and of what has been spent; errors are reported. *)
Definition costs {A} (m : method A) (b : Budget.t) (Q : A -> cost_t -> Prop) : Prop :=
  match m b with
  | (b', Ok a) => budget_ok b' /\ exists cost, Q a cost /\ Budget.used b' = plus (Budget.used b) cost
  | (b', Err e) => budget_ok b' /\ exists message, e = Fail message
  end.

Lemma costs_ret {A} (a : A) b (Q : A -> cost_t -> Prop) : budget_ok b -> Q a zero -> costs (mret a) b Q.
Proof. intros Hb HQ. split; [done|]. exists zero. by rewrite plus_zero. Qed.

Lemma costs_lift {A} (r : fallible A) b (Q : A -> cost_t -> Prop) :
  budget_ok b -> no_panic r -> (forall a, r = Ok a -> Q a zero) -> costs (lift r) b Q.
Proof.
  intros Hb Hr HQ. unfold costs, lift. destruct r as [a|e]; [|by eauto]. split; [done|]. exists zero. rewrite plus_zero. auto.
Qed.

Lemma costs_raise {A} message b (Q : A -> cost_t -> Prop) : budget_ok b -> costs (raise (Fail message)) b Q.
Proof. intros Hb. split; [done|by eexists]. Qed.

Lemma costs_bind {A B} (m : method A) (f : A -> method B) b Q R :
  costs m b Q -> (forall a k b', budget_ok b' -> Q a k -> costs (f a) b' (fun r k' => R r (plus k k'))) -> costs (m ≫= f) b R.
Proof.
  unfold costs, mbind, stm_bind. destruct (m b) as [b1 [a|e]]; [|done]. intros (Hb & k & HQ & Hu) Hf.
  specialize (Hf a k b1 Hb HQ). destruct (f a b1) as [b2 [r|e]]; [|done].
  destruct Hf as (Hb2 & k' & HR & Hu2). split; [done|]. exists (plus k k'). split; [done|]. by rewrite Hu2, Hu, plus_assoc.
Qed.

(** A first step that spends nothing. *)
Lemma costs_lift_bind {A B} (r : fallible A) (f : A -> method B) b R :
  budget_ok b -> no_panic r -> (forall a, r = Ok a -> costs (f a) b R) -> costs (lift r ≫= f) b R.
Proof.
  intros Hb Hr Hf. unfold costs, mbind, stm_bind, lift. destruct r as [a|e]; [by apply Hf|]. split; [done|by apply Hr].
Qed.

Lemma costs_weaken {A} (m : method A) b (Q R : A -> cost_t -> Prop) : costs m b Q -> (forall a k, Q a k -> R a k) -> costs m b R.
Proof. unfold costs. destruct (m b) as [b' [a|e]]; naive_solver. Qed.

Lemma costs_action b tag o :
  budget_ok b -> c !! tag = Some o ->
  costs (outbound_client_action debug parse_go_duration json_chunks sha256 c o) b
    (fun action cost => represents tag action /\ cost = measure json_chunks action).
Proof.
  intros Hb Ho. pose proof (client_action_spec _ _ _ _ _ _ Hwf Hres Hval Hsha b tag o Hb Ho) as H. unfold spends in H. unfold costs.
  destruct (outbound_client_action _ _ _ _ _ _ _) as [b' [a|e]]; [exact H|]. by destruct H as (? & _ & ?).
Qed.

Lemma costs_embedded b source chain_field context :
  budget_ok b ->
  costs (reserve_embedded_outbound_action json_chunks source chain_field context) b (fun _ cost => cost = embedded chain_field source).
Proof.
  intros Hb. unfold reserve_embedded_outbound_action, embedded.
  destruct (Map.get chain_field source) as [chains|]; [|by apply costs_ret].
  apply costs_lift_bind; [done|apply inspect_no_panic|]. intros p Hp.
  apply costs_lift_bind; [done| |].
  { unfold cost. apply no_panic_bind; [|intros; apply no_panic_cost].
    destruct (Map.get "client_chain_selection" source); [apply serialized_json_len_no_panic|done]. }
  intros k Hk. rewrite (cost_measure _ _ _ _ _ Hp Hk).
  destruct (measure_nonneg json_chunks chains (Map.get "client_chain_selection" source)) as [Hh Hn].
  unfold costs. destruct (reserve_spec debug parse_go_duration json_chunks sha256 c b _ context Hb Hh Hn) as [[m ->]|[-> Hb']]; [eauto|].
  split; [done|]. by eexists.
Qed.

(** ** Rules *)

Section rules.
Context (rule_sets : rule_sets_t).

Definition with_match (matcher fields : Value.fields) : Value.t :=
  Value.Object (if nonempty_list matcher then Map.insert "match" (Value.Object matcher) fields else fields).

(** What a rule of a route becomes. *)
Definition compiled_rule (index : nat) (rule : RouteRule.t) (value : Value.t) : Prop := exists action outbound matcher,
  unsupported_route_rule_fields rule = [] /\
  rule_action debug c rule index = Ok (action, outbound) /\ compile_route_match debug rule rule_sets = Ok matcher /\
  match outbound with
  | None => value = with_match matcher (base_rule action)
  | Some _ => exists embeds, represents (RouteRule.outbound rule) embeds /\
                value = with_match matcher (apply_outbound_action (base_rule action) "client_chains" embeds)
  end.

Lemma embedded_match matcher fields :
  embedded_in json_chunks "client_chains" (with_match matcher fields) = embedded "client_chains" fields.
Proof. unfold with_match. cbn. destruct (nonempty_list matcher); [by rewrite embedded_insert|done]. Qed.

Lemma rule_action_no_panic rule index : no_panic (rule_action debug c rule index).
Proof. unfold rule_action. no_panic. Qed.

Lemma rule_action_outbound rule index action o :
  rule_action debug c rule index = Ok (action, Some o) -> c !! RouteRule.outbound rule = Some o.
Proof.
  unfold rule_action. destruct (_ || _); [by destruct (is_empty _)|]. destruct (_ || _); [|done]. destruct (_ && _); [done|].
  destruct (is_empty _); [done|]. destruct (c !! RouteRule.outbound rule); [by intros [= _ ->]|done].
Qed.

Lemma check_ports_no_panic ports : no_panic (check_ports ports).
Proof. induction ports as [|p ports IH]; cbn; no_panic. Qed.
Lemma check_ranges_no_panic ranges : no_panic (check_port_ranges debug ranges).
Proof.
  induction ranges as [|r ranges IH]; [done|]. cbn. apply no_panic_bind; [|done]. unfold validate_port_range.
  destruct (split_once _ _) as [[s e]|]; [|apply no_panic_error]. apply no_panic_bind; [apply no_panic_map_err|intros].
  apply no_panic_bind; [apply no_panic_map_err|intros]. no_panic.
Qed.
Lemma reference_values_no_panic message tags : no_panic (reference_values debug rule_sets message tags).
Proof. induction tags as [|tag tags IH]; cbn; [done|]. destruct (rule_sets !! tag); [by apply no_panic_bind|apply no_panic_error]. Qed.

Lemma route_match_no_panic rule : no_panic (compile_route_match debug rule rule_sets).
Proof.
  unfold compile_route_match. destruct (_ && _); [apply no_panic_error|]. apply no_panic_bind; [no_panic|intros m1].
  apply no_panic_bind; [apply no_panic_bind; [apply check_ports_no_panic|done]|intros m2].
  apply no_panic_bind; [apply no_panic_bind; [apply check_ranges_no_panic|done]|intros m3].
  apply no_panic_bind; [unfold insert_networks; no_panic|intros m4].
  apply no_panic_bind; [unfold insert_protocols; no_panic|intros m5].
  apply no_panic_bind; [|done]. destruct (nonempty_list _); [|done]. apply no_panic_bind; [apply reference_values_no_panic|done].
Qed.

Lemma base_rule_plain action : Map.get "client_chain_selection" (base_rule action) = None /\ embedded "client_chains" (base_rule action) = zero.
Proof. split; reflexivity. Qed.

Lemma costs_rule b index rule :
  budget_ok b ->
  costs (compile_route_rule debug parse_go_duration json_chunks sha256 c rule_sets rule index) b
    (fun value cost => compiled_rule index rule value /\ cost = embedded_in json_chunks "client_chains" value).
Proof.
  intros Hb. unfold compile_route_rule.
  destruct (unsupported_route_rule_fields rule) as [|f fs] eqn:Hu; cbn [nonempty_list]; [|by apply costs_raise].
  apply costs_lift_bind; [done|apply rule_action_no_panic|]. intros [action outbound] Ha.
  apply costs_lift_bind; [done|apply route_match_no_panic|]. intros matcher Hm.
  destruct outbound as [o|].
  - pose proof (rule_action_outbound _ _ _ _ Ha) as Ho.
    eapply (costs_bind _ _ _ (fun fields k => exists embeds, represents (RouteRule.outbound rule) embeds /\
                                k = measure json_chunks embeds /\
                                fields = apply_outbound_action (base_rule action) "client_chains" embeds)).
    { eapply costs_bind; [by apply costs_action|]. intros embeds k b' Hb' [Hr ->].
      apply costs_ret; [done|]. rewrite plus_zero. by exists embeds. }
    intros fields k b' Hb' (embeds & Hr & -> & ->). apply costs_ret; [done|]. rewrite plus_zero.
    fold (with_match matcher (apply_outbound_action (base_rule action) "client_chains" embeds)).
    rewrite embedded_match. destruct (base_rule_plain action) as [Hs _]. rewrite embedded_action by done. split; [|done].
    exists action, (Some o), matcher. eauto 10.
  - eapply costs_bind; [apply (costs_ret _ _ (fun fields k => fields = base_rule action /\ k = zero)); done|].
    intros fields k b' Hb' [-> ->]. apply costs_ret; [done|]. fold (with_match matcher (base_rule action)).
    rewrite embedded_match. split; [|done]. exists action, None, matcher. eauto.
Qed.

(** The rules that concern an inbound, with their positions in the route. *)
Fixpoint applicable (inbound_tag : string) (index : nat) (rules : list RouteRule.t) : list (nat * RouteRule.t) :=
  match rules with
  | [] => []
  | rule :: rules =>
      if decide (RouteRule.inbound rule = [] \/ inbound_tag ∈ RouteRule.inbound rule)
      then (index, rule) :: applicable inbound_tag (S index) rules
      else applicable inbound_tag (S index) rules
  end.

Lemma costs_rules inbound_tag sniff_enabled index rules b :
  budget_ok b ->
  costs (compile_rules debug parse_go_duration json_chunks sha256 c rule_sets inbound_tag sniff_enabled index rules) b
    (fun values cost => Forall2 (fun p value => compiled_rule p.1 p.2 value) (applicable inbound_tag index rules) values /\
                        cost = rules_cost values).
Proof.
  revert index b. induction rules as [|rule rules IH]; intros index b Hb; cbn [compile_rules applicable]; [by apply costs_ret|].
  unfold applies_to. rewrite inbound_listed. destruct (decide _); [|by apply IH].
  destruct (_ && _); [by apply costs_raise|].
  eapply costs_bind; [by apply costs_rule|]. intros value k b1 Hb1 [Hv ->].
  eapply costs_bind; [by apply IH|]. intros values k b2 Hb2 [Hvs ->].
  apply costs_ret; [done|]. rewrite plus_zero. split; [by constructor|done].
Qed.

Definition final_tag (route : option Route.t) : string :=
  let tag := match route with Some route => Route.final_ route | None => "" end in
  if is_empty tag then DEFAULT_DIRECT_OUTBOUND else tag.

Lemma final_outbound_tag route o : final_outbound debug c route = Ok o -> c !! final_tag route = Some o.
Proof.
  unfold final_outbound, final_tag. destruct (is_empty _).
  - destruct (c !! DEFAULT_DIRECT_OUTBOUND); [by intros [= ->]|done].
  - destruct (c !! _) eqn:E; [by intros [= ->]|done].
Qed.

Lemma final_outbound_no_panic route : no_panic (final_outbound debug c route).
Proof. unfold final_outbound. no_panic. Qed.

(** The rules of an inbound, whose last is the final one. *)
Definition inbound_rules (route : option Route.t) (inbound_tag : string) (values : list Value.t) : Prop := exists rules embeds,
  values = rules ++ [Value.Object (apply_outbound_action (base_rule "allow") "client_chains" embeds)] /\
  Forall2 (fun p value => compiled_rule p.1 p.2 value) (applicable inbound_tag 0 (route_rules_of route)) rules /\
  represents (final_tag route) embeds.

Lemma costs_inbound_rules route inbound_tag sniff_enabled b :
  budget_ok b ->
  costs (compile_rules_for_inbound debug parse_go_duration json_chunks sha256 route c rule_sets inbound_tag sniff_enabled) b
    (fun values cost => inbound_rules route inbound_tag values /\ cost = rules_cost values).
Proof.
  intros Hb. unfold compile_rules_for_inbound.
  eapply costs_bind; [by apply costs_rules|]. intros rules k b1 Hb1 [Hr ->].
  apply costs_lift_bind; [done|apply final_outbound_no_panic|]. intros o Ho%final_outbound_tag.
  eapply costs_bind; [by apply costs_action|]. intros embeds k b2 Hb2 [He ->].
  apply costs_ret; [done|]. rewrite plus_zero. split; [by exists rules, embeds|].
  unfold CompileProjection.rules_cost. rewrite total_cost_app. f_equal. cbn. rewrite plus_zero.
  symmetry. by apply embedded_action.
Qed.
End rules.

(** ** DNS *)

Section dns.
Context (dns_rule_chunks : DnsRule.t -> list string).
Context {M : Type} `{!EqDecision M} (reject_default reject_drop : M) (parse_reject_method : string -> option M) (reject_method_str : M -> string).
Context (is_rcode : string -> bool) (parse_predefined : list string -> list string -> list string -> result string unit).
Context (rule_sets : rule_sets_t) (strategies : gmap string string) (inbound_tag : option string).

Local Abbreviation compile_dns_rule :=
  (compile_dns_rule debug parse_go_duration sha256 dns_rule_chunks reject_default reject_drop parse_reject_method
     reject_method_str is_rcode parse_predefined).
Local Abbreviation strategy_of := (strategy_of strategies).

Definition tag_field (fields : Value.fields) : option string := Map.get "tag" fields ≫= Value.as_str.

(** What a configured server becomes. *)
Definition compiled_server (server : DnsServer.t) (fields : Value.fields) : Prop := exists url,
  dns_server_url debug server = Ok url /\
  if is_empty (DnsServer.detour server) then fields = server_fields strategies server url
  else exists embeds, represents (DnsServer.detour server) embeds /\
         fields = apply_outbound_action (server_fields strategies server url) "client_chain" embeds.

(** The servers that are emitted: those of the configuration by tag, and a copy for every
    variant. *)
Record emitted (acc : emission) : Prop := {
  em_by_tag tag fields : compiled_by_tag acc !! tag = Some fields -> fields ∈ compiled_servers acc /\ tag_field fields = Some tag;
  em_variants key tag : profile_variants acc !! key = Some tag -> exists source,
    compiled_by_tag acc !! DnsServerVariantKey.source_tag key = Some source /\
    variant_server source (DnsServerVariant.mk tag (DnsServerVariantKey.source_tag key) (DnsServerVariantKey.ip_strategy key)
                             (DnsServerVariantKey.query key)) ∈ compiled_servers acc
}.

Definition tags_of (acc : emission) : list string := omap tag_field (compiled_servers acc).

Lemma tag_field_server server url : tag_field (server_fields strategies server url) = Some (DnsServer.tag server).
Proof. reflexivity. Qed.

Lemma tag_field_action fields action : tag_field (apply_outbound_action fields "client_chain" action) = tag_field fields.
Proof.
  unfold tag_field, apply_outbound_action. destruct (CompiledOutboundAction.client_chain_selection action); by rewrite !Map.get_insert_ne by done.
Qed.

Lemma tag_field_variant source variant : tag_field (variant_server source variant) = Some (DnsServerVariant.tag variant).
Proof.
  unfold tag_field, variant_server, apply_dns_server_query_profile. destruct (DnsServerVariant.query variant) as [cache ttl subnet]. cbn.
  destruct subnet, ttl, cache; repeat first [rewrite Map.get_insert_eq; reflexivity | rewrite Map.get_insert_ne by discriminate].
Qed.

Lemma compiled_server_tag server fields : compiled_server server fields -> tag_field fields = Some (DnsServer.tag server).
Proof.
  intros (url & _ & H). destruct (is_empty _); [by subst|]. destruct H as (embeds & _ & ->). by rewrite tag_field_action.
Qed.

Lemma dns_server_url_no_panic server : no_panic (dns_server_url debug server).
Proof. unfold dns_server_url. no_panic. Qed.

Lemma costs_server b server url :
  budget_ok b -> dns_server_url debug server = Ok url ->
  costs (compile_server debug parse_go_duration json_chunks sha256 c strategies server url) b
    (fun fields cost => compiled_server server fields /\ cost = embedded "client_chain" fields).
Proof.
  intros Hb Hu. unfold compile_server, compiled_server. destruct (is_empty (DnsServer.detour server)) eqn:Hd.
  { apply costs_ret; [done|]. split; [by exists url|]. reflexivity. }
  case_bool_decide; [by apply costs_raise|]. destruct (c !! DnsServer.detour server) as [o|] eqn:Ho; [|by apply costs_raise].
  eapply costs_bind; [by apply costs_action|]. intros embeds k b1 Hb1 [Hr ->].
  apply costs_ret; [done|]. rewrite plus_zero. split; [exists url; eauto|]. symmetry. by apply embedded_action.
Qed.

Lemma costs_servers servers acc b :
  budget_ok b -> emitted acc -> profile_variants acc = ∅ -> NoDup (tags_of acc) ->
  (forall tag, tag ∈ tags_of acc <-> is_Some (compiled_by_tag acc !! tag)) ->
  costs (compile_servers debug parse_go_duration json_chunks sha256 c strategies servers acc) b
    (fun acc' cost => exists added, compiled_servers acc' = compiled_servers acc ++ added /\ cost = servers_cost added /\
       Forall2 compiled_server servers added /\ emitted acc' /\ profile_variants acc' = ∅ /\ NoDup (tags_of acc') /\
       (forall tag, tag ∈ tags_of acc' <-> is_Some (compiled_by_tag acc' !! tag))).
Proof.
  revert acc b. induction servers as [|server servers IH]; intros acc b Hb He Hp Hn Ht; cbn [compile_servers].
  { apply costs_ret; [done|]. exists []. rewrite app_nil_r. done. }
  apply costs_lift_bind; [done|unfold validate_dns_server; no_panic|]. intros _ _.
  destruct (compiled_by_tag acc !! DnsServer.tag server) eqn:Hd; cbn [DialerProjection.is_some]; [by apply costs_raise|].
  apply costs_lift_bind; [done|apply dns_server_url_no_panic|]. intros url Hu.
  eapply costs_bind; [by apply costs_server|]. intros fields k b1 Hb1 [Hs ->].
  pose proof (compiled_server_tag _ _ Hs) as Htag.
  set (acc1 := mkEmission _ _ _).
  assert (Htags : tags_of acc1 = tags_of acc ++ [DnsServer.tag server]).
  { unfold tags_of. cbn. rewrite omap_app. cbn. by rewrite Htag. }
  eapply costs_weaken; [apply (IH acc1 b1)|].
  - done.
  - split.
    + intros tag f. cbn. intros [[<- <-]|[_ H]]%lookup_insert_Some; [split; [apply elem_of_app; right; by left|done]|].
      apply (em_by_tag _ He) in H as [? ?]. split; [apply elem_of_app; by left|done].
    + intros key tag. cbn. by rewrite Hp, lookup_empty.
  - done.
  - rewrite Htags. apply NoDup_app. split_and!; [done| |apply NoDup_singleton].
    intros tag [f Hf]%Ht ->%list_elem_of_singleton. congruence.
  - intros tag. rewrite Htags. cbn. rewrite elem_of_app, Ht, list_elem_of_singleton.
    destruct (decide (tag = DnsServer.tag server)) as [->|].
    + rewrite lookup_insert_eq. split; [by eexists|by right].
    + rewrite lookup_insert_ne by done. split; [by intros [?|?]|by left].
  - cbn. intros acc' k (added & -> & -> & Hall & Hrest). exists (fields :: added). rewrite <- app_assoc.
    split_and!; [done|done|by constructor|apply Hrest..].
Qed.

(** *** Variants *)

Lemma emitted_variant acc source variant :
  emitted acc -> compiled_by_tag acc !! DnsServerVariant.source_tag variant = Some source ->
  emitted (mkEmission (compiled_servers acc ++ [variant_server source variant]) (compiled_by_tag acc)
             (<[DnsServerVariant.key variant := DnsServerVariant.tag variant]> (profile_variants acc))).
Proof.
  intros He Hs. split; cbn.
  - intros tag fields H. apply (em_by_tag _ He) in H as [? ?]. split; [apply elem_of_app; by left|done].
  - intros key tag [[<- <-]|[_ H]]%lookup_insert_Some.
    + exists source. destruct variant. cbn. split; [done|apply elem_of_app; right; by left].
    + apply (em_variants _ He) in H as (s & ? & ?). exists s. split; [done|apply elem_of_app; by left].
Qed.

Lemma costs_variant variant unknown context acc b :
  budget_ok b -> emitted acc ->
  costs (emit_variant json_chunks variant unknown context acc) b
    (fun acc' cost => exists source, compiled_by_tag acc !! DnsServerVariant.source_tag variant = Some source /\
       acc' = mkEmission (compiled_servers acc ++ [variant_server source variant]) (compiled_by_tag acc)
                (<[DnsServerVariant.key variant := DnsServerVariant.tag variant]> (profile_variants acc)) /\
       cost = servers_cost [variant_server source variant]).
Proof.
  intros Hb He. unfold emit_variant. destruct (compiled_by_tag acc !! _) as [source|] eqn:Hs; [|by apply costs_raise].
  eapply costs_bind; [by apply costs_embedded|]. intros _ k b1 Hb1 ->. apply costs_ret; [done|]. rewrite plus_zero.
  exists source. split_and!; [done..|]. cbn. by rewrite plus_zero, embedded_variant.
Qed.

Lemma costs_variants variants acc b :
  budget_ok b -> emitted acc ->
  costs (emit_variants debug json_chunks variants acc) b
    (fun acc' cost => exists added, compiled_servers acc' = compiled_servers acc ++ added /\ cost = servers_cost added /\
       omap tag_field added = DnsServerVariant.tag <$> variants /\
       emitted acc' /\ compiled_by_tag acc' = compiled_by_tag acc).
Proof.
  revert acc b. induction variants as [|variant variants IH]; intros acc b Hb He; cbn [emit_variants].
  { apply costs_ret; [done|]. exists []. by rewrite app_nil_r. }
  eapply costs_bind; [by apply costs_variant|]. intros acc1 k b1 Hb1 (source & Hs & -> & ->).
  pose proof (emitted_variant _ _ _ He Hs) as He1.
  assert (Hgo : costs (emit_variants debug json_chunks variants
                  (mkEmission (compiled_servers acc ++ [variant_server source variant]) (compiled_by_tag acc)
                     (<[DnsServerVariant.key variant := DnsServerVariant.tag variant]> (profile_variants acc)))) b1
    (fun acc' cost => exists added, compiled_servers acc' = compiled_servers acc ++ added /\
       plus (servers_cost [variant_server source variant]) cost = servers_cost added /\
       omap tag_field added = DnsServerVariant.tag <$> variant :: variants /\
       emitted acc' /\ compiled_by_tag acc' = compiled_by_tag acc)).
  { eapply costs_weaken; [by apply IH|]. cbn. intros acc' k (added & -> & -> & Htags & He' & Hby).
    exists (variant_server source variant :: added). rewrite <- app_assoc. split_and!; [done| | |done|done].
    - cbn. by rewrite plus_zero.
    - cbn. rewrite tag_field_variant. cbn. by f_equal. }
  destruct (profile_variants acc !! DnsServerVariant.key variant) as [existing|]; [|exact Hgo].
  destruct (String.eqb _ _); [exact Hgo|by apply costs_raise].
Qed.

(** *** Rules *)

(** More servers have been emitted, at their cost. *)
Definition grows (acc acc' : emission) (cost : cost_t) : Prop := exists added,
  compiled_servers acc' = compiled_servers acc ++ added /\ cost = servers_cost added /\
  emitted acc' /\ compiled_by_tag acc' = compiled_by_tag acc.

Lemma grows_refl acc : emitted acc -> grows acc acc zero.
Proof. intros He. exists []. by rewrite app_nil_r. Qed.

Lemma grows_trans a1 a2 a3 k k' : grows a1 a2 k -> grows a2 a3 k' -> grows a1 a3 (plus k k').
Proof.
  intros (l1 & H1 & -> & _ & Hb1) (l2 & H2 & -> & He & Hb2). exists (l1 ++ l2).
  rewrite H2, H1, <- app_assoc, Hb2. unfold CompileProjection.servers_cost. by rewrite total_cost_app.
Qed.

Lemma grows_in acc acc' k fields : grows acc acc' k -> fields ∈ compiled_servers acc -> fields ∈ compiled_servers acc'.
Proof. intros (added & -> & _) H. apply elem_of_app. by left. Qed.

(** A variant of a configured server, under [tag]. *)
Definition has_variant (acc : emission) (tag source_tag : string) (query : DnsServerQueryProfile.t) : Prop := exists source,
  compiled_by_tag acc !! source_tag = Some source /\
  variant_server source (DnsServerVariant.mk tag source_tag (strategy_of source_tag) query) ∈ compiled_servers acc.

Lemma grows_variant acc acc' k tag source_tag query : grows acc acc' k -> has_variant acc tag source_tag query -> has_variant acc' tag source_tag query.
Proof.
  intros Hg (source & Hs & Hin). exists source. split; [|by eapply grows_in]. destruct Hg as (_ & _ & _ & _ & ->). done.
Qed.

(** What a rule becomes: with lookups of its own it names a variant of its server. *)
Definition compiled_dns_rule (acc : emission) (index : nat) (rule : DnsRule.t) (value : Value.t) : Prop := exists compiled query,
  compile_dns_rule (dom (compiled_by_tag acc)) rule_sets rule index = Ok (compiled, query) /\
  match query with
  | None => value = Value.Object compiled
  | Some query => exists tag, has_variant acc tag (DnsRule.server rule) query /\
                    value = Value.Object (Map.insert "server" (Value.String tag) compiled)
  end.

Lemma grows_rule acc acc' k index rule value :
  grows acc acc' k -> compiled_dns_rule acc index rule value -> compiled_dns_rule acc' index rule value.
Proof.
  intros Hg (compiled & query & Hc & Hq). exists compiled, query. split; [by destruct Hg as (_ & _ & _ & _ & ->)|].
  destruct query as [query|]; [|done]. destruct Hq as (tag & Hv & ->). exists tag. split; [by eapply grows_variant|done].
Qed.

(** The tags in use are pairwise distinct and known. *)
Definition distinct_tags (acc : emission) (tags : gset string) : Prop :=
  NoDup (tags_of acc) /\ forall tag, tag ∈ tags_of acc -> tag ∈ tags.

Lemma costs_rule_server index source_tag query tags acc b :
  budget_ok b -> emitted acc ->
  costs (rule_server debug json_chunks sha256 strategies index source_tag query tags acc) b
    (fun r cost => grows acc r.2 cost /\ has_variant r.2 r.1.1 source_tag query /\
                   (distinct_tags acc tags -> distinct_tags r.2 r.1.2)).
Proof.
  intros Hb He. unfold rule_server. destruct (profile_variants acc !! _) as [tag|] eqn:Hp.
  { apply costs_ret; [done|]. split_and!; [by apply grows_refl| |done].
    apply (em_variants _ He) in Hp as (source & ? & ?). by exists source. }
  case_bool_decide as Hin; [by apply costs_raise|].
  set (tag := dns_profile_variant_tag _ _ _ _) in *.
  eapply costs_bind; [by apply costs_variant|]. intros acc1 k b1 Hb1 (source & Hs & -> & ->).
  apply costs_ret; [done|]. rewrite plus_zero. cbn [fst snd]. split_and!.
  - exists [variant_server source (DnsServerVariant.mk tag source_tag (strategy_of source_tag) query)].
    split_and!; [done|done| |done]. by apply (emitted_variant _ source (DnsServerVariant.mk tag source_tag (strategy_of source_tag) query)).
  - exists source. split; [done|]. apply elem_of_app. right. by left.
  - intros [Hn Ht]. assert (Htags : forall acc', compiled_servers acc' = compiled_servers acc ++
        [variant_server source (DnsServerVariant.mk tag source_tag (strategy_of source_tag) query)] -> tags_of acc' = tags_of acc ++ [tag]).
    { intros acc' Hacc. unfold tags_of. rewrite Hacc, omap_app. cbn. by rewrite tag_field_variant. }
    split; rewrite Htags by done.
    + apply NoDup_app. split_and!; [done| |apply NoDup_singleton]. intros t Hti ->%list_elem_of_singleton. by apply Hin, Ht.
    + intros t [Hti| ->%list_elem_of_singleton]%elem_of_app; [apply elem_of_union; right; by apply Ht|].
      apply elem_of_union. left. by apply elem_of_singleton.
Qed.

(** The rules that concern the consumer, with their positions: those without inbounds,
    and those that list its inbound. *)
Fixpoint concerned (index : nat) (rules : list DnsRule.t) : list (nat * DnsRule.t) :=
  match rules with
  | [] => []
  | rule :: rules =>
      if decide (DnsRule.inbound rule = [] \/ exists tag, inbound_tag = Some tag /\ tag ∈ DnsRule.inbound rule)
      then (index, rule) :: concerned (S index) rules else concerned (S index) rules
  end.

Lemma route_action_no_panic servers rule index compiled :
  no_panic (route_action debug parse_go_duration servers rule index compiled).
Proof.
  unfold route_action. destruct (DnsRule.no_drop rule); [apply no_panic_error|]. apply no_panic_bind.
  { unfold parse_dns_server_query_profile. apply no_panic_bind; [|intros].
    - destruct (is_empty _); [done|]. apply no_panic_bind; [apply no_panic_map_err|done].
    - apply no_panic_bind; [apply no_panic_map_err|done]. }
  intros q. destruct (is_empty _); [apply no_panic_error|]. destruct (negb _); [apply no_panic_error|].
  destruct (_ || _); [apply no_panic_error|]. apply no_panic_bind; [|done]. destruct (is_empty _); [done|].
  apply no_panic_bind; [unfold parse_dns_timeout_millis; no_panic|done].
Qed.

Lemma compile_dns_rule_no_panic servers rule index : no_panic (compile_dns_rule servers rule_sets rule index).
Proof.
  unfold CompileDns.compile_dns_rule. destruct (is_empty _); [apply no_panic_error|]. apply no_panic_bind; [|intros compiled].
  { destruct (nonempty_list _); [|done]. apply no_panic_bind; [apply reference_values_no_panic|done]. }
  destruct (String.eqb _ _); [apply route_action_no_panic|].
  destruct (String.eqb _ _); [apply no_panic_bind; [|done]; unfold reject_action; no_panic|].
  destruct (String.eqb _ _); [|apply no_panic_error]. apply no_panic_bind; [|done].
  unfold predefined_action. destruct (_ || _); [apply no_panic_error|]. destruct (negb _); [apply no_panic_error|].
  apply no_panic_bind; [apply no_panic_map_err|done].
Qed.

Lemma costs_dns_rules index rules tags acc b :
  budget_ok b -> emitted acc ->
  costs (compile_dns_rules debug parse_go_duration json_chunks sha256 dns_rule_chunks reject_default reject_drop parse_reject_method
           reject_method_str is_rcode parse_predefined rule_sets strategies inbound_tag (dom (compiled_by_tag acc)) index rules tags acc) b
    (fun r cost => grows acc r.2 cost /\
       Forall2 (fun p value => compiled_dns_rule r.2 p.1 p.2 value) (concerned index rules) r.1 /\
       (distinct_tags acc tags -> NoDup (tags_of r.2))).
Proof.
  revert index tags acc b. induction rules as [|rule rules IH]; intros index tags acc b Hb He; cbn [compile_dns_rules concerned].
  { apply costs_ret; [done|]. split_and!; [by apply grows_refl|constructor|by intros []]. }
  apply costs_lift_bind; [done|apply compile_dns_rule_no_panic|]. intros [compiled query] Hc.
  rewrite consumer_listed. destruct (decide _); [|by apply IH].
  eapply (costs_bind _ _ _ (fun r cost => grows acc r.2 cost /\ compiled_dns_rule r.2 index rule (Value.Object r.1.1) /\
                                           (distinct_tags acc tags -> distinct_tags r.2 r.1.2))).
  { destruct query as [query|].
    - eapply costs_bind; [by apply costs_rule_server|]. intros [[tag tags1] acc1] k b1 Hb1 (Hg & Hv & Hd).
      apply costs_ret; [done|]. rewrite plus_zero. split_and!; [done| |done].
      destruct Hg as (_ & _ & _ & _ & Hby). cbn [fst snd] in *. exists compiled, (Some query). rewrite Hby. split; [done|]. by exists tag.
    - apply costs_ret; [done|]. split_and!; [by apply grows_refl| |done]. by exists compiled, None. }
  intros [[compiled1 tags1] acc1] k b1 Hb1 (Hg & Hr & Hd). cbn [fst snd] in *.
  pose proof Hg as (_ & _ & _ & He1 & Hby). rewrite <- Hby.
  eapply costs_bind; [by apply IH|]. intros [values acc2] k2 b2 Hb2 (Hg2 & Hall & Hn). cbn [fst snd] in *.
  apply costs_ret; [done|]. rewrite plus_zero. cbn [fst snd]. split_and!; [by eapply grows_trans| |by auto].
  constructor; [by eapply grows_rule|done].
Qed.

(** ** The configuration of a consumer *)

(** The servers and the rules of a DNS configuration; [final] names a configured server. *)
Definition dns_config (dns : option Dns.t) (variants : list DnsServerVariant.t) (value : Value.t) : Prop := exists acc rules final configured,
  value = Value.Object
    (let fields := Map.from_iter [("servers", Value.Array (Value.Object <$> compiled_servers acc)); ("final", Value.String final)] in
     if nonempty_list rules then Map.insert "rules" (Value.Array rules) fields else fields) /\
  emitted acc /\ Forall2 compiled_server (server_list dns) configured /\
  take (length configured) (compiled_servers acc) = configured /\
  final ∈ DnsServer.tag <$> server_list dns /\
  Forall2 (fun p value => compiled_dns_rule acc p.1 p.2 value) (concerned 0 (dns_rules_of dns)) rules /\
  (NoDup (DnsServerVariant.tag <$> variants) ->
   (forall tag, tag ∈ DnsServerVariant.tag <$> variants -> tag ∉ DnsServer.tag <$> server_list dns) -> NoDup (tags_of acc)).

Lemma configured_tags servers fields : Forall2 compiled_server servers fields -> omap tag_field fields = DnsServer.tag <$> servers.
Proof.
  induction 1 as [|server f servers fields Hs _ IH]; [done|]. cbn. rewrite (compiled_server_tag _ _ Hs). cbn. by f_equal.
Qed.

Lemma select_final_tag servers dns final : select_final debug servers dns = Ok final -> final ∈ servers.
Proof.
  unfold select_final. destruct (is_empty _).
  - case_bool_decide; [by intros [= <-]|done].
  - case_bool_decide; [by intros [= <-]|done].
Qed.

Lemma select_final_no_panic servers dns : no_panic (select_final debug servers dns).
Proof. unfold select_final. no_panic. Qed.

Lemma dns_cost_of servers rules final :
  dns_cost json_chunks (Value.Object
    (let fields := Map.from_iter [("servers", Value.Array (Value.Object <$> servers)); ("final", Value.String final)] in
     if nonempty_list rules then Map.insert "rules" (Value.Array rules) fields else fields)) = servers_cost servers.
Proof.
  assert (H : forall fields, Map.get "servers" fields = Some (Value.Array (Value.Object <$> servers)) ->
    dns_cost json_chunks (Value.Object fields) = servers_cost servers).
  { intros fields Hf. unfold dns_cost, elements_of. cbn. rewrite Hf. cbn. clear.
    induction servers as [|s l IH]; [done|]. cbn. by rewrite IH. }
  apply H. destruct (nonempty_list rules); reflexivity.
Qed.

Lemma costs_dns dns variants b :
  budget_ok b ->
  costs (compile_dns debug parse_go_duration json_chunks sha256 dns_rule_chunks reject_default reject_drop parse_reject_method
           reject_method_str is_rcode parse_predefined c rule_sets strategies inbound_tag dns variants) b
    (fun r cost => exists value, r = Some value /\ dns_config dns variants value /\ cost = dns_cost json_chunks value).
Proof.
  intros Hb. unfold compile_dns.
  eapply costs_bind.
  { apply costs_servers; [done| |done|constructor|].
    - split; cbn; intros *; by rewrite lookup_empty.
    - intros tag. cbn. rewrite lookup_empty. split; [by intros ?%not_elem_of_nil|by intros [? ?]]. }
  intros acc1 k1 b1 Hb1 (configured & H1 & -> & Hall & He1 & _ & Hn1 & Ht1). cbn [compiled_servers app] in H1.
  eapply costs_bind; [by apply costs_variants|]. intros acc2 k2 b2 Hb2 (added2 & H2 & -> & Htags2 & He2 & Hby2).
  apply costs_lift_bind; [done|apply select_final_no_panic|]. intros final Hf%select_final_tag.
  rewrite <- Hby2 at 1. eapply costs_bind; [by apply costs_dns_rules|].
  intros [rules acc3] k3 b3 Hb3 (Hg & Hrules & Hn3). cbn [fst snd] in *. destruct Hg as (added3 & H3 & -> & He3 & Hby3).
  apply costs_ret; [done|]. rewrite plus_zero. eexists. split; [done|]. split.
  - exists acc3, rules, final, configured. split_and!; [done|done|done| | |done|].
    + by rewrite H3, H2, H1, <- app_assoc, take_app_length.
    + rewrite <- (configured_tags _ _ Hall), <- H1. apply Ht1. by apply elem_of_dom.
    + intros Hn Hdis. apply Hn3. assert (tags_of acc2 = (DnsServer.tag <$> server_list dns) ++ (DnsServerVariant.tag <$> variants)) as Htags.
      { unfold tags_of. by rewrite H2, H1, omap_app, Htags2, (configured_tags _ _ Hall). }
      assert (Hn0 : NoDup (DnsServer.tag <$> server_list dns)) by (rewrite <- (configured_tags _ _ Hall), <- H1; exact Hn1).
      split; rewrite Htags.
      { apply NoDup_app. split_and!; [done| |done]. intros tag Ht1' Ht2'. by eapply Hdis. }
      intros tag [Ht|Ht]%elem_of_app; apply elem_of_union.
      * left. apply elem_of_dom, Ht1. unfold tags_of. by rewrite H1, (configured_tags _ _ Hall).
      * right. by apply elem_of_list_to_set.
  - rewrite dns_cost_of, H3, H2, H1. unfold CompileProjection.servers_cost. by rewrite !total_cost_app, plus_assoc.
Qed.
End dns.
End costs.
