(* ===== verification/CompileTheorems.v ===== *)
(** * The topology compiler does what it promises

    Over every topology: the compiler does not panic, what it embeds stays within its
    limits, every inbound carries the rules and the DNS configuration its route asks
    for, and the runtime accepts what was compiled. *)

From Stdlib Require Import ZArith Lia.
From S2P Require Import Prelude Bytes Json Topology Provider Credentials Adapter EngineApi Runtime OutboundAdapter OutboundGraph.
From S2P Require Import OutboundGraphSpec OutboundChains OutboundProjection BudgetSpec.
From S2P Require Import RuleSet CompileInbound CompileRoute CompileOutbounds CompileDns Compile CompileSpec CompileProjection.

Open Scope Z_scope.

Section theorems.
Context (debug : string -> string) (parse_go_duration : string -> result string Z).
Context (json_chunks : Value.t -> list string) (sha256 : string -> string) (from_slice : string -> result string Value.t).
Context (parse_vless : string -> result string VlessRealityVisionConfig.t).
Context (parse_hysteria2 : string -> result string Hysteria2SalamanderConfig.t) (base64_len : string -> option Z).
Context (validate_route_rule_set : string -> string -> result string unit).
Context (url_parse : string -> result string (string * string)) (fixed_state_root : result string string).
Context (headless_rules : list HeadlessRule.t -> Value.t) (dns_rule_chunks : DnsRule.t -> list string).
Context {M : Type} `{!EqDecision M} (reject_default reject_drop : M) (parse_reject_method : string -> option M) (reject_method_str : M -> string).
Context (is_rcode : string -> bool) (parse_predefined : list string -> list string -> list string -> result string unit).
Context (route_value : Route.t -> Value.t) (dns_value : Dns.t -> Value.t).
Context (global_chunks : option Dns.t -> option Route.t -> list (string * string * option Value.t) -> list string).
Context (yaml_to_string : Diagnostic.t -> result string string).

Local Abbreviation CompiledInbound := (CompiledInbound Value.t).
Local Abbreviation compile_with_route :=
  (compile_with_route debug parse_go_duration json_chunks sha256 from_slice parse_vless parse_hysteria2 base64_len
     validate_route_rule_set url_parse fixed_state_root headless_rules dns_rule_chunks reject_default reject_drop
     parse_reject_method reject_method_str is_rcode parse_predefined route_value dns_value global_chunks yaml_to_string).
Local Abbreviation compile_node := (compile_node debug parse_vless parse_hysteria2 base64_len).
Local Abbreviation compile_nodes := (compile_nodes debug parse_vless parse_hysteria2 base64_len).

Context {laws : JsonLaws json_chunks}.
Hypothesis Hsha : forall bytes, str_len (sha256 bytes) = 32.

(** ** Nodes *)

Definition node_protocol (node : NodeInstance.t) : string :=
  if String.eqb (NodeInstance.provider_id node) VLESS_REALITY_VISION_ID then "vless" else "hysteria2".

Definition inbound_tag (inbound : CompiledInbound) : string := InboundSpec.tag (spec inbound).

(** What the compiler keeps of a node. *)
Record inbound_of (node : NodeInstance.t) (inbound : CompiledInbound) : Prop := {
  io_node : node_id inbound = NodeInstance.node_id node;
  io_named : trim (NodeInstance.node_id node) <> "";
  io_protocol : protocol inbound = node_protocol node;
  io_users : exists users, InboundSpec.users (spec inbound) = Some users /\ compile_users debug node (node_protocol node) = Ok users;
  io_object : Value.is_object (InboundSpec.config (spec inbound)) = true
}.

Lemma compile_vless_of node inbound :
  trim (NodeInstance.node_id node) <> "" -> NodeInstance.provider_id node = VLESS_REALITY_VISION_ID ->
  compile_vless debug parse_vless base64_len node = Ok inbound -> inbound_of node inbound.
Proof.
  intros Hn Hp. unfold compile_vless. intros (cfg & _ & H)%bind_Ok. cbv zeta in H.
  repeat (destruct (_ || _) in H; [discriminate H|]). destruct (is_empty _) in H; [discriminate H|].
  destruct (_ || _) in H; [discriminate H|]. apply bind_Ok in H as (u & _ & H). destruct (_ && _) in H; [discriminate H|].
  apply bind_Ok in H as (users & Hu & H). destruct (VlessRealityVisionConfig.tcp_fast_open cfg); [done|]. injection H as <-.
  assert (node_protocol node = "vless") as Hv by (unfold node_protocol; by rewrite Hp).
  split; cbn; [done|done|done|by exists users; rewrite Hv|done].
Qed.

Lemma compile_hysteria2_of node w w' inbound :
  trim (NodeInstance.node_id node) <> "" -> NodeInstance.provider_id node <> VLESS_REALITY_VISION_ID ->
  compile_hysteria2 debug parse_hysteria2 node w = (w', Ok inbound) -> inbound_of node inbound.
Proof.
  intros Hn Hp. unfold compile_hysteria2. intros (cfg & w1 & _ & H)%stm_bind_Ok. cbv zeta in H.
  repeat (destruct (_ || _) in H; [discriminate H|]).
  apply stm_bind_Ok in H as (w2 & ? & _ & H). apply stm_bind_Ok in H as (w3 & ? & _ & H).
  apply stm_bind_Ok in H as (w4 & users & Hu & H). apply stm_bind_Ok in H as (w5 & ? & _ & H).
  apply stm_bind_Ok in H as (w6 & p & _ & H). injection H as _ <-. injection Hu as _ Hu.
  assert (node_protocol node = "hysteria2") as Hv by (unfold node_protocol; by rewrite (proj2 (String.eqb_neq _ _) Hp)).
  split; cbn; [done|done|done|by exists users; rewrite Hv|done].
Qed.

Lemma compile_inbound_of node w w' inbound :
  compile_inbound debug parse_vless parse_hysteria2 base64_len node w = (w', Ok inbound) -> inbound_of node inbound.
Proof.
  unfold compile_inbound. destruct (is_empty _) eqn:Hn; [done|]. apply is_empty_false in Hn. destruct (_ && _); [done|].
  destruct (String.eqb_spec (NodeInstance.provider_id node) VLESS_REALITY_VISION_ID) as [Hv|Hv].
  - intros [= _ H]. by eapply compile_vless_of.
  - destruct (String.eqb _ _); [|done]. by eapply compile_hysteria2_of.
Qed.

(** What the loop over the nodes has established. *)
Record nodes_ok (nodes : list NodeInstance.t) (acc : nodes_acc) : Prop := {
  no_inbounds : Forall2 inbound_of nodes (compiled_inbounds acc);
  no_tags : NoDup (trim ∘ inbound_tag <$> compiled_inbounds acc);
  no_blank inbound : inbound ∈ compiled_inbounds acc -> trim (inbound_tag inbound) <> "";
  no_known tag : tag ∈ tags acc <-> tag ∈ (trim ∘ inbound_tag <$> compiled_inbounds acc);
  no_ids : NoDup (NodeInstance.node_id <$> nodes);
  no_ids_known id : id ∈ node_ids acc <-> id ∈ NodeInstance.node_id <$> nodes
}.

Lemma compile_node_ok node done acc w w' acc' :
  compile_node node acc w = (w', Ok acc') -> nodes_ok done acc -> nodes_ok (done ++ [node]) acc'.
Proof.
  unfold Compile.compile_node. case_bool_decide as Hid; [done|]. intros (w1 & inbound & Hin & H)%stm_bind_Ok.
  destruct (is_empty _) eqn:Ht; [done|]. apply is_empty_false in Ht. case_bool_decide as Htag; [done|].
  apply stm_bind_Ok in H as (w2 & sniff & _ & H). injection H as _ <-. apply compile_inbound_of in Hin.
  intros [Hi Hn Hb Hk Hni Hki]. split; cbn [compiled_inbounds tags node_ids].
  - apply Forall2_app; [done|]. by constructor.
  - rewrite fmap_app. apply NoDup_app. split_and!; [done| |apply NoDup_singleton].
    intros tag Hin' ->%list_elem_of_singleton. by apply Htag, Hk.
  - intros i [Hi'| ->%list_elem_of_singleton]%elem_of_app; [by apply Hb|done].
  - intros tag. rewrite fmap_app, elem_of_app, <- Hk, elem_of_union, elem_of_singleton. cbn. rewrite list_elem_of_singleton. tauto.
  - rewrite fmap_app. apply NoDup_app. split_and!; [done| |apply NoDup_singleton].
    intros id Hin' ->%list_elem_of_singleton. by apply Hid, Hki.
  - intros id. rewrite fmap_app, elem_of_app, <- Hki, elem_of_union, elem_of_singleton. cbn. rewrite list_elem_of_singleton. tauto.
Qed.

Lemma compile_nodes_ok nodes done acc w w' acc' :
  compile_nodes nodes acc w = (w', Ok acc') -> nodes_ok done acc -> nodes_ok (done ++ nodes) acc'.
Proof.
  revert done acc w. induction nodes as [|node nodes IH]; intros done acc w; cbn.
  { intros [= _ <-]. by rewrite app_nil_r. }
  intros (w1 & acc1 & Hc & H)%stm_bind_Ok Hok. replace (done ++ node :: nodes) with ((done ++ [node]) ++ nodes) by (by rewrite <- app_assoc). eapply IH; [exact H|]. by eapply compile_node_ok.
Qed.

Lemma nodes_ok_empty : nodes_ok [] (mkNodes ∅ ∅ ∅ []).
Proof. split; cbn; try constructor; try set_solver. Qed.

(** ** Projection *)

Local Abbreviation project_inbound :=
  (project_inbound debug parse_go_duration json_chunks sha256 dns_rule_chunks reject_default reject_drop parse_reject_method
     reject_method_str is_rcode parse_predefined).
Local Abbreviation project_inbounds :=
  (project_inbounds debug parse_go_duration json_chunks sha256 dns_rule_chunks reject_default reject_drop parse_reject_method
     reject_method_str is_rcode parse_predefined).
Local Abbreviation project_all_inbounds :=
  (project_all_inbounds debug parse_go_duration json_chunks sha256 dns_rule_chunks reject_default reject_drop parse_reject_method
     reject_method_str is_rcode parse_predefined).
Local Abbreviation dns_config :=
  (dns_config debug parse_go_duration json_chunks sha256).

(** Everything a configuration embeds: the probes' DNS and the inbounds. *)
Definition runtime_cost (probe : option Value.t) (inbounds : list CompiledInbound) : ClientChainProjectionCost.t :=
  ClientChainProjectionCost.add (match probe with Some dns => dns_cost json_chunks dns | None => ClientChainProjectionCost.zero end)
    (total (fun inbound => config_cost json_chunks (InboundSpec.config (spec inbound))) inbounds).

Section project.
Context (c0 c : catalog_t) (rule_sets : rule_sets_t) (strategies : gmap string string).
Context (route : option Route.t) (dns : option Dns.t) (variants : list DnsServerVariant.t).
Hypothesis Hwf : wf_catalog c0.
Hypothesis Hres : with_resolvers c0 c.
Hypothesis Hval : validate_outbound_catalog debug parse_go_duration c0 = Ok tt.

Local Abbreviation costs := (costs debug parse_go_duration json_chunks sha256 c).
Local Abbreviation budget_ok := (budget_ok debug parse_go_duration json_chunks sha256 c).

Definition dns_for_consumer (consumer : option string) (value : Value.t) : Prop :=
  dns_config c dns_rule_chunks reject_default reject_drop parse_reject_method reject_method_str is_rcode parse_predefined rule_sets
    strategies consumer dns variants value.

(** An inbound with its rules and its DNS. *)
Definition projected (inbound inbound' : CompiledInbound) : Prop := exists rules embedded_dns,
  inbound' = set_inbound_config (fun config => Value.set "dns" embedded_dns (Value.set "rules" (Value.Array rules) config)) inbound /\
  inbound_rules debug parse_go_duration json_chunks sha256 c rule_sets route (inbound_tag inbound) rules /\
  dns_for_consumer (Some (inbound_tag inbound)) embedded_dns.

Lemma config_cost_projected config rules embedded_dns :
  Value.is_object config = true ->
  config_cost json_chunks (Value.set "dns" embedded_dns (Value.set "rules" (Value.Array rules) config))
  = ClientChainProjectionCost.add (rules_cost json_chunks rules) (dns_cost json_chunks embedded_dns).
Proof.
  intros Ho. pose proof (is_object_set "rules" (Value.Array rules) config Ho) as Ho'. unfold config_cost, elements_of.
  rewrite get_set_ne by done. rewrite !get_set by done. done.
Qed.

Lemma costs_inbound b sniff_enabled inbound :
  budget_ok b -> Value.is_object (InboundSpec.config (spec inbound)) = true ->
  costs (project_inbound route dns c rule_sets strategies variants sniff_enabled inbound) b
    (fun inbound' cost => projected inbound inbound' /\ cost = config_cost json_chunks (InboundSpec.config (spec inbound'))).
Proof.
  intros Hb Ho. unfold Compile.project_inbound.
  eapply costs_bind; [by eapply costs_inbound_rules|]. intros rules k1 b1 Hb1 [Hr ->].
  eapply costs_bind; [unfold dns_for; by eapply costs_dns|]. intros r k2 b2 Hb2 (value & -> & Hd & ->).
  apply costs_ret; [done|]. rewrite plus_zero. split; [by exists rules, value|].
  cbn [set_inbound_config spec InboundSpec.set_config InboundSpec.config]. by rewrite config_cost_projected.
Qed.

Lemma costs_inbounds b sniff_enabled inbounds :
  budget_ok b -> (forall inbound, inbound ∈ inbounds -> Value.is_object (InboundSpec.config (spec inbound)) = true) ->
  costs (project_inbounds route dns c rule_sets strategies variants sniff_enabled inbounds) b
    (fun inbounds' cost => Forall2 projected inbounds inbounds' /\
       cost = total (fun inbound => config_cost json_chunks (InboundSpec.config (spec inbound))) inbounds').
Proof.
  revert b. induction inbounds as [|inbound inbounds IH]; intros b Hb Ho; cbn [Compile.project_inbounds].
  { apply costs_ret; [done|]. split; [constructor|done]. }
  eapply costs_bind; [apply costs_inbound; [done|apply Ho; by left]|]. intros inbound' k1 b1 Hb1 [Hp ->].
  eapply costs_bind; [apply IH; [done|intros; apply Ho; by right]|]. intros inbounds' k2 b2 Hb2 [Hps ->].
  apply costs_ret; [done|]. rewrite plus_zero. split; [by constructor|done].
Qed.

Lemma costs_all b sniff_enabled inbounds :
  budget_ok b -> (forall inbound, inbound ∈ inbounds -> Value.is_object (InboundSpec.config (spec inbound)) = true) ->
  costs (project_all_inbounds route dns c rule_sets strategies variants sniff_enabled inbounds) b
    (fun r cost => (exists value, r.1 = Some value /\ dns_for_consumer None value) /\ Forall2 projected inbounds r.2 /\
                   cost = runtime_cost r.1 r.2).
Proof.
  intros Hb Ho. unfold Compile.project_all_inbounds.
  eapply costs_bind; [unfold dns_for; by eapply costs_dns|]. intros r k1 b1 Hb1 (value & -> & Hd & ->).
  eapply costs_bind; [by apply costs_inbounds|]. intros inbounds' k2 b2 Hb2 [Hps ->].
  apply costs_ret; [done|]. rewrite plus_zero. split_and!; [by exists value|done|done].
Qed.
End project.

(** ** The whole compiler *)

(** [P] of the result, or a reported error. *)
Definition outcome {A} (P : A -> Prop) (r : fallible A) : Prop :=
  match r with Ok a => P a | Err e => exists message, e = Fail message end.

Lemma outcome_bind {A B} (r : fallible A) (f : A -> fallible B) (P : B -> Prop) :
  no_panic r -> (forall a, r = Ok a -> outcome P (f a)) -> outcome P (r ≫= f).
Proof. intros Hr Hf. destruct r as [a|e]; [by apply Hf|by apply Hr]. Qed.

(** How a successful compilation went. *)
Record compiled (topology : MachineTopology.t) (route : option Route.t)
    (output : CompileOutput.t (Runtime.RuntimeConfig Value.t RuleSetResource.t)) : Prop := {
  co_nodes : exists inbounds c0 c rule_sets strategies variants,
    nodes_ok (sort_by_key NodeInstance.node_id (MachineTopology.nodes topology)) inbounds /\
    validate_outbounds debug from_slice (MachineTopology.outbounds topology) = Ok c0 /\
    validate_outbound_catalog debug parse_go_duration c0 = Ok tt /\
    project_outbound_dns_resolvers debug sha256 route (MachineTopology.dns topology) c0 strategies = Ok (c, variants) /\
    (exists value, urltest_probe_dns (CompileOutput.runtime output) = Some value /\
       dns_for_consumer c rule_sets strategies (MachineTopology.dns topology) variants None value) /\
    Forall2 (projected c rule_sets strategies route (MachineTopology.dns topology) variants) (compiled_inbounds inbounds)
      (Runtime.inbounds (CompileOutput.runtime output));
  co_cost : let cost := runtime_cost (urltest_probe_dns (CompileOutput.runtime output)) (Runtime.inbounds (CompileOutput.runtime output)) in
    0 <= ClientChainProjectionCost.hops cost <= MAX_PROJECTED_CLIENT_CHAIN_HOPS /\
    0 <= ClientChainProjectionCost.bytes cost <= MAX_PROJECTED_CLIENT_CHAIN_BYTES
}.

Lemma global_fingerprint_no_panic topology route c0 :
  validate_outbounds debug from_slice (MachineTopology.outbounds topology) = Ok c0 ->
  no_panic (global_fingerprint sha256 from_slice global_chunks topology route).
Proof.
  intros [_ Hs]%validate_outbounds_built. apply serialize_validated in Hs. unfold global_fingerprint.
  by destruct (serialize_outbounds from_slice _).
Qed.

Lemma compile_spec topology route : outcome (compiled topology route) (compile_with_route topology route).
Proof.
  unfold Compile.compile_with_route. destruct (is_empty _); [by eexists|].
  set (nodes := sort_by_key _ _).
  pose proof (compile_nodes_no_panic debug parse_vless parse_hysteria2 base64_len nodes (mkNodes ∅ ∅ ∅ []) ∅) as Hnp.
  destruct (compile_nodes nodes (mkNodes ∅ ∅ ∅ []) ∅) as [warnings r] eqn:En.
  apply outcome_bind; [exact Hnp|]. intros acc ->.
  pose proof (compile_nodes_ok _ [] _ _ _ _ En nodes_ok_empty) as Hnodes. cbn [app] in Hnodes.
  apply outcome_bind; [apply validate_outbounds_no_panic|]. intros c0 Hc0.
  apply outcome_bind; [apply validate_catalog_no_panic|]. intros [] Hval.
  apply outcome_bind; [apply compile_rule_set_catalog_no_panic|]. intros [rule_sets resources] _.
  apply outcome_bind; [apply validate_route_no_panic|]. intros _ _.
  apply outcome_bind; [apply validate_resolution_no_panic|]. intros strategies _.
  apply outcome_bind; [apply project_resolvers_no_panic|]. intros [c variants] Hp.
  destruct (validate_outbounds_built _ _ _ _ Hc0) as [Hwf _]. pose proof (project_resolvers_with _ _ _ _ _ _ _ _ Hp) as Hres.
  pose proof (costs_all c0 c rule_sets strategies route (MachineTopology.dns topology) variants Hwf Hres Hval Budget.zero
                (sniff_enabled acc) (compiled_inbounds acc) (budget_ok_zero _ _ _ _ _)) as Hcost.
  specialize (Hcost ltac:(intros inbound [i Hi]%list_elem_of_lookup;
    destruct (Forall2_lookup_r _ _ _ _ _ (no_inbounds _ _ Hnodes) Hi) as (node & _ & Hof); apply (io_object _ _ Hof))).
  unfold costs in Hcost.
  destruct (project_all_inbounds route (MachineTopology.dns topology) c rule_sets strategies variants (sniff_enabled acc)
              (compiled_inbounds acc) Budget.zero) as [b r].
  apply outcome_bind; [cbn [snd]; destruct r as [?|e]; [done|]; intros ? [= <-]; apply Hcost|]. intros [probe inbounds]. cbn [snd]. intros ->.
  destruct Hcost as (Hb & cost & (Hprobe & Hproj & ->) & Hused). cbn [fst snd] in *.
  apply outcome_bind; [unfold diagnostic_yaml; apply no_panic_map_err|]. intros diagnostic _.
  apply outcome_bind; [by eapply global_fingerprint_no_panic|]. intros fingerprint _.
  split; cbn [CompileOutput.runtime urltest_probe_dns Runtime.inbounds].
  - by exists acc, c0, c, rule_sets, strategies, variants.
  - change (Budget.used Budget.zero) with ClientChainProjectionCost.zero in Hused. rewrite zero_plus in Hused.
    pose proof (bo_hops _ _ _ _ _ _ Hb) as Hh. pose proof (bo_bytes _ _ _ _ _ _ Hb) as Hn. rewrite Hused in Hh, Hn. done.
Qed.

(** ** Users *)

Lemma compile_active_spec node protocol users seen specs :
  compile_active debug node protocol users seen = Ok specs <->
  specs = user_spec protocol <$> users /\ Forall (fun u => UserCredential.credential u <> "") users /\
  Forall (fun u => identity_of protocol u <> "") users /\ NoDup (identity_of protocol <$> users) /\
  Forall (fun u => identity_of protocol u ∉ seen) users.
Proof.
  revert seen specs. induction users as [|u users IH]; intros seen specs; cbn.
  { split; [intros [= <-]; split_and!; constructor|by intros (-> & _)]. }
  rewrite NoDup_cons, !Forall_cons.
  destruct (is_empty (UserCredential.credential u)) eqn:Hc.
  { apply is_empty_spec in Hc. split; [done|tauto]. }
  apply is_empty_false in Hc. destruct (is_empty (identity_of protocol u)) eqn:Hi.
  { apply is_empty_spec in Hi. split; [done|tauto]. }
  apply is_empty_false in Hi. case_bool_decide as Hs; [split; [done|tauto]|].
  assert (Hseen : Forall (fun v => identity_of protocol v ∉ ({[identity_of protocol u]} ∪ seen)) users <->
                  (identity_of protocol u ∉ (identity_of protocol <$> users)) /\ Forall (fun v => identity_of protocol v ∉ seen) users).
  { rewrite !Forall_forall. setoid_rewrite not_elem_of_union. setoid_rewrite not_elem_of_singleton. split.
    - intros H. split; [|intros v Hv; by apply H]. intros (v & Heq & Hv)%list_elem_of_fmap. by destruct (H v Hv).
    - intros [Hn H] v Hv. split; [|by apply H]. intros Heq. apply Hn. rewrite <- Heq. by apply list_elem_of_fmap_2. }
  destruct (compile_active debug node protocol users _) as [rest|e] eqn:E; cbn.
  - apply IH in E as (-> & ? & ? & ? & [? ?]%Hseen). split; [intros [= <-]; split_and!; done|by intros (-> & _)].
  - split; [done|]. intros (_ & [_ ?] & [_ ?] & [? ?] & [_ ?]).
    assert (Err e = Ok (user_spec protocol <$> users)) as [=]. rewrite <- E. apply IH. split_and!; try done. by apply Hseen.
Qed.

Lemma compile_users_spec node protocol specs :
  compile_users debug node protocol = Ok specs <->
  let users := active_users (NodeInstance.users node) in
  specs = user_spec protocol <$> users /\ Forall (fun u => UserCredential.credential u <> "") users /\
  Forall (fun u => identity_of protocol u <> "") users /\ NoDup (identity_of protocol <$> users).
Proof.
  unfold compile_users. rewrite compile_active_spec. cbv zeta.
  assert (forall users, Forall (fun u => identity_of protocol u ∉ (∅ : gset string)) users) as He.
  { intros users. apply Forall_forall. intros u _. apply not_elem_of_empty. }
  split; [tauto|]. intros (? & ? & ? & ?). split_and!; auto.
Qed.

Definition known_protocol (protocol : string) : Prop := protocol = "vless" \/ protocol = "hysteria2".

Lemma node_protocol_known node : known_protocol (node_protocol node).
Proof. unfold node_protocol. destruct (String.eqb _ _); [by left|by right]. Qed.

Lemma resolved_user protocol u :
  known_protocol protocol -> identity_of protocol u <> "" -> UserSpec.resolved_id (user_spec protocol u) = Some (identity_of protocol u).
Proof.
  intros Hp. unfold identity_of, user_spec, UserSpec.resolved_id. cbn. destruct (is_empty (reported_id u)) eqn:Hr; cbn; [|done].
  apply is_empty_spec in Hr. destruct Hp as [->| ->]; cbn; [done|]. by rewrite Hr.
Qed.

(** ** Acceptance by the runtime *)

Lemma fold_err {A B} (f : result string A -> B -> result string A) (l : list B) e :
  (forall b, f (Err e) b = Err e) -> foldl f (Err e) l = Err e.
Proof. intros H. induction l as [|b l IH]; cbn; [done|]. by rewrite H. Qed.

Lemma normalize_users_iff tag protocol users us :
  known_protocol protocol -> Forall (fun u => identity_of protocol u <> "") users -> NoDup (identity_of protocol <$> users) ->
  Forall (fun u => us !! identity_of protocol u = None) users ->
  is_ok (foldl (normalize_user tag) (Ok us) (user_spec protocol <$> users)) = true <->
  Forall (fun u => trim (identity_of protocol u) <> "") users.
Proof.
  intros Hp. revert us. induction users as [|u users IH]; intros us; [done|]. cbn [fmap list_fmap foldl].
  rewrite NoDup_cons, !Forall_cons. intros [Hi His] [Hn Hns] [Hu Hus].
  unfold normalize_user at 2. cbn [mbind result_bind]. rewrite (resolved_user _ _ Hp Hi).
  destruct (is_empty (trim (identity_of protocol u))) eqn:Ht.
  { apply is_empty_spec in Ht. rewrite fold_err by done. split; [done|tauto]. }
  apply is_empty_false in Ht. rewrite Hu. rewrite IH; [tauto|done|done|].
  apply Forall_forall. intros v Hv. rewrite lookup_insert_ne; [by eapply Forall_forall in Hus|].
  intros Heq. apply Hn. rewrite Heq. by apply list_elem_of_fmap_2.
Qed.

(** The users of a node whose identity is not blank. *)
Definition named_users (node : NodeInstance.t) : Prop :=
  Forall (fun u => trim (identity_of (node_protocol node) u) <> "") (active_users (NodeInstance.users node)).

Lemma normalize_inbound_iff node inbound inbound' :
  inbound_of node inbound -> trim (inbound_tag inbound) <> "" -> (exists f, inbound' = set_inbound_config f inbound) ->
  match normalize_inbound inbound' with
  | Ok i => named_users node /\ Runtime.inbound_tag i = trim (inbound_tag inbound)
  | Err _ => ~ named_users node
  end.
Proof.
  intros [Hn Hnb Hp (users & Hu & Hc) _] Ht [f ->]. unfold normalize_inbound, spec_tag. cbn -[is_empty trim].
  change (InboundSpec.tag (spec inbound)) with (inbound_tag inbound).
  rewrite (proj2 (is_empty_false _) Ht), Hn, (proj2 (is_empty_false _) Hnb), Hp.
  assert (is_empty (trim (node_protocol node)) = false) as ->.
  { destruct (node_protocol_known node) as [-> | ->]; reflexivity. }
  apply compile_users_spec in Hc as (-> & _ & Hids & Hnd). rewrite Hu. cbn [default from_option].
  pose proof (normalize_users_iff (trim (inbound_tag inbound)) (node_protocol node) (active_users (NodeInstance.users node)) ∅
    (node_protocol_known node) Hids Hnd ltac:(apply Forall_forall; intros; apply lookup_empty)) as H.
  fold (named_users node) in H. unfold id. destruct (foldl _ _ _) as [us|e]; cbn in *; [split; [by apply H|done]|].
  intros Hnamed. by apply H in Hnamed.
Qed.

Lemma normalize_all_iff nodes inbounds inbounds' (m : gmap string (NormalizedInbound Value.t)) :
  Forall2 inbound_of nodes inbounds -> (forall i, i ∈ inbounds -> trim (inbound_tag i) <> "") ->
  NoDup (trim ∘ inbound_tag <$> inbounds) -> Forall (fun i => m !! trim (inbound_tag i) = None) inbounds ->
  Forall2 (fun i i' => exists f, i' = set_inbound_config f i) inbounds inbounds' ->
  is_ok (foldl normalize_one (Ok m) inbounds') = true <-> Forall named_users nodes.
Proof.
  intros Hof. revert m inbounds'. induction Hof as [|node inbound nodes inbounds Hi _ IH]; intros m inbounds' Hb Hn Hm Hf.
  { inversion Hf; subst. done. }
  inversion Hf as [|? i' ? rest' Hfi Hfs]; subst. cbn [foldl fmap list_fmap] in *. apply NoDup_cons in Hn as [Hn Hns].
  apply Forall_cons in Hm as [Hmi Hms]. rewrite Forall_cons.
  pose proof (normalize_inbound_iff _ _ _ Hi (Hb _ (list_elem_of_here _ _)) Hfi) as H.
  unfold normalize_one at 2. cbn [mbind result_bind]. destruct (normalize_inbound i') as [i|e]; cbn [mbind result_bind].
  - destruct H as [Hnamed Htag]. rewrite Htag, Hmi. rewrite IH; [tauto| |done| |done].
    + intros. apply Hb. by right.
    + apply Forall_forall. intros j Hj. rewrite lookup_insert_ne; [by eapply Forall_forall in Hms|].
      intros Heq. apply Hn. rewrite list_elem_of_fmap. exists j. split; [|done]. cbn. congruence.
  - rewrite fold_err by done. split; [done|tauto].
Qed.

(** ** Theorems *)

Local Abbreviation RuntimeConfig := (Runtime.RuntimeConfig Value.t RuleSetResource.t).
Implicit Types output : CompileOutput.t RuntimeConfig.

Lemma compile_Ok topology route output : compile_with_route topology route = Ok output -> compiled topology route output.
Proof. intros H. pose proof (compile_spec topology route) as Hs. by rewrite H in Hs. Qed.

Lemma projected_config c rule_sets strategies route dns variants inbound inbound' :
  projected c rule_sets strategies route dns variants inbound inbound' -> exists f, inbound' = set_inbound_config f inbound.
Proof. intros (rules & value & -> & _). by eexists. Qed.



(** C3. Everything a configuration embeds - the rules and the DNS servers of every inbound
    and the probes' DNS, every repetition counted - is within 65536 hops and 64 MiB of
    JSON. *)
Theorem compile_within_limits topology route output :
  compile_with_route topology route = Ok output ->
  let runtime := CompileOutput.runtime output in
  let cost := runtime_cost (urltest_probe_dns runtime) (Runtime.inbounds runtime) in
  0 <= ClientChainProjectionCost.hops cost <= MAX_PROJECTED_CLIENT_CHAIN_HOPS /\
  0 <= ClientChainProjectionCost.bytes cost <= MAX_PROJECTED_CLIENT_CHAIN_BYTES.
Proof. intros H%compile_Ok. exact (co_cost _ _ _ H). Qed.


(** C17. The runtime accepts a compiled configuration exactly when no active user has a
    blank identity: tags, node ids, protocols and user ids never clash. *)
Theorem compiled_normalizes topology route output :
  compile_with_route topology route = Ok output ->
  is_ok (normalize (CompileOutput.runtime output)) = true <->
  forall node user, node ∈ MachineTopology.nodes topology -> user ∈ active_users (NodeInstance.users node) ->
    trim (identity_of (node_protocol node) user) <> "".
Proof.
  intros H%compile_Ok. destruct (co_nodes _ _ _ H) as (acc & c0 & c & rule_sets & strategies & variants & Hn & _ & _ & _ & _ & Hi).
  pose proof (normalize_all_iff _ _ (Runtime.inbounds (CompileOutput.runtime output)) ∅ (no_inbounds _ _ Hn) (no_blank _ _ Hn) (no_tags _ _ Hn)) as Hiff.
  assert (is_ok (normalize (CompileOutput.runtime output))
          = is_ok (foldl normalize_one (Ok ∅) (Runtime.inbounds (CompileOutput.runtime output)))) as ->.
  { unfold normalize. by destruct (foldl _ _ _). }
  rewrite Hiff; [|apply Forall_forall; intros; apply lookup_empty|].
  - unfold named_users. rewrite Forall_forall. setoid_rewrite Forall_forall. unfold sort_by_key. setoid_rewrite elem_of_sort_by.
    split; [intros Ha node user Hnode Hu; exact (Ha node Hnode user Hu)|intros Ha node Hnode user Hu; exact (Ha node user Hnode Hu)].
  - eapply Forall2_impl; [exact Hi|]. intros. by eapply projected_config.
Qed.

(** A node's users compile exactly when every active user has a credential and an
    identity of its own; then they are its active users, in order. *)
Theorem compile_users_exact node protocol specs :
  compile_users debug node protocol = Ok specs <->
  let users := active_users (NodeInstance.users node) in
  specs = user_spec protocol <$> users /\ Forall (fun u => UserCredential.credential u <> "") users /\
  Forall (fun u => identity_of protocol u <> "") users /\ NoDup (identity_of protocol <$> users).
Proof. apply compile_users_spec. Qed.

(** C16. Every outbound with a resolver - its own or the route's default - is assigned a DNS
    transport with exactly the lookups its resolver asks for: the named server when
    they are the server's own, and otherwise a variant of it; the others are left
    alone.  Variants are never shared between different lookups nor with a configured
    server. *)
Theorem resolvers_exact route dns outbounds base outbounds' variants :
  project_outbound_dns_resolvers debug sha256 route dns outbounds base = Ok (outbounds', variants) ->
  distinct_variants sha256 dns variants /\ exists d, default_domain_resolver debug route = Ok d /\
  forall tag, match outbounds !! tag with
              | Some o => exists o', outbounds' !! tag = Some o' /\ assigned debug base d variants o o'
              | None => outbounds' !! tag = None
              end.
Proof. apply resolvers_spec. Qed.
End theorems.

(** ** Redaction: what the diagnostic document can tell

    [redact] hides what is under a secret key and nothing else: two values are redacted
    to the same document exactly when they agree outside secret keys. *)

Open Scope Z_scope.

(** Agreement of two lists position by position. *)
Fixpoint pointwise {A} (R : A -> A -> Prop) (l l' : list A) : Prop :=
  match l, l' with
  | [], [] => True
  | a :: l, a' :: l' => R a a' /\ pointwise R l l'
  | _, _ => False
  end.

(** Agreement outside secret keys. *)
Fixpoint same_public (v w : Value.t) : Prop :=
  match v, w with
  | Value.Array l, Value.Array l' =>
      (fix go l l' := match l, l' with
                      | [], [] => True
                      | v :: l, w :: l' => same_public v w /\ go l l'
                      | _, _ => False
                      end) l l'
  | Value.Object m, Value.Object m' =>
      (fix go m m' := match m, m' with
                      | [], [] => True
                      | (k, v) :: m, (k', w) :: m' => (k = k' /\ (is_secret k = true \/ same_public v w)) /\ go m m'
                      | _, _ => False
                      end) m m'
  | _, _ => v = w
  end.

Lemma same_public_array l l' : same_public (Value.Array l) (Value.Array l') <-> pointwise same_public l l'.
Proof. cbn. revert l'. induction l as [|v l IH]; intros [|w l']; cbn; try done. by rewrite IH. Qed.

Definition same_field (kv kv' : string * Value.t) : Prop := kv.1 = kv'.1 /\ (is_secret kv.1 = true \/ same_public kv.2 kv'.2).

Lemma same_public_object m m' : same_public (Value.Object m) (Value.Object m') <-> pointwise same_field m m'.
Proof. cbn. revert m'. induction m as [|[k v] m IH]; intros [|[k' w] m']; cbn; try done. by rewrite IH. Qed.

Lemma map_pointwise {A B} (f : A -> B) (R : A -> A -> Prop) l l' :
  Forall (fun a => forall a', f a = f a' <-> R a a') l -> (List.map f l = List.map f l' <-> pointwise R l l').
Proof.
  intros Hl. revert l'. induction Hl as [|a l Ha _ IH]; intros [|a' l']; cbn; try done.
  rewrite <- IH, <- Ha. split; [by intros [= -> ->]|by intros [-> ->]].
Qed.

(** C18. The redacted document depends on exactly what is outside secret keys: whatever a
    password, credential, uuid, private key, key, secret or token holds, in any
    letter case of the name and at any depth, it does not show. *)
Theorem redact_hides_exactly v w : redact v = redact w <-> same_public v w.
Proof.
  revert w. induction v as [|b|n|s|l IH|m IH] using Value.t_ind; intros w; destruct w as [|b'|n'|s'|l'|m']; try (cbn; intuition congruence).
  - rewrite same_public_array, <- (map_pointwise redact same_public l l' IH). cbn. split; [by intros [= ?]|by intros ->].
  - rewrite same_public_object, <- (map_pointwise (fun kv => (kv.1, if is_secret kv.1 then redacted else redact kv.2)) same_field m m').
    + cbn. split; [by intros [= ?]|by intros ->].
    + eapply Forall_impl; [exact IH|]. intros [k x] Hx [k' y]. unfold same_field. cbn in *. rewrite <- Hx. split.
      * intros [= -> H]. destruct (is_secret k'); auto.
      * intros [-> [Hs|Hr]]; [by rewrite Hs|by rewrite Hr].
Qed.

(** The user whose credential is its only name is shown by it. *)
Example credential_is_shown :
  DiagnosticUser.id (diagnostic_user (UserSpec.mk None (Some "5783a3e7-e373-51cd-8642-c83782b807c5") None true None None None))
  = "5783a3e7-e373-51cd-8642-c83782b807c5".
Proof. reflexivity. Qed.
