(* ===== verification/CompileExample.v ===== *)
(** * A topology, compiled

    Two nodes over the outbounds of [OutboundExample.v], a route with a rule and a URL
    test as its final outbound, and a DNS rule with lookups of its own.  Every witness
    applies its theorem here. *)

From Stdlib Require Import ZArith Lia Ascii.
From S2P Require Import Prelude Bytes Json Topology Provider Credentials Adapter EngineApi Runtime OutboundAdapter OutboundGraph.
From S2P Require Import OutboundGraphSpec OutboundChains OutboundProjection BudgetSpec OutboundExample.
From S2P Require Import RuleSet CompileInbound CompileRoute CompileOutbounds CompileDns Compile CompileSpec CompileProjection CompileTheorems.

Open Scope Z_scope.

(** ** Providers *)

Definition vless_config : VlessRealityVisionConfig.t :=
  VlessRealityVisionConfig.mk "vless" "edge" "" 443 VLESS_FLOW_REALITY_VISION false true
    (VlessRealityVisionTlsConfig.mk true "www.example"
       (VlessRealityConfig.mk true (RealityHandshake.mk "www.example" 443) "" "0123456789012345678901234567890123456789012" ["0a1b"])) [].

Definition hysteria2_config : Hysteria2SalamanderConfig.t :=
  Hysteria2SalamanderConfig.mk "hysteria2" "" "" 8443 "20000-20100" 100 200 false (Hysteria2ObfsConfig.mk "salamander" "obfs") None
    (Hysteria2TlsConfig.mk true "" false "cert" "key" "" "") [].

Definition parse_vless (_ : string) : result string VlessRealityVisionConfig.t := Ok vless_config.
Definition parse_hysteria2 (_ : string) : result string Hysteria2SalamanderConfig.t := Ok hysteria2_config.
Definition base64_len (s : string) : option Z := Some (str_len s * 3 / 4).

(** The options of the example are named by their outbound; the near one resolves
    through a server with a lookup of its own. *)
Definition from_slice (s : string) : result string Value.t :=
  if String.eqb s "near" then
    Ok (Value.obj [("domain_resolver", Value.obj [("server", Value.String "default-dns"); ("disable_cache", Value.Bool true)])])
  else match catalog !! s with Some o => Ok (ValidatedOutbound.options o) | None => Err "expected value" end.

(** ** The topology *)

Definition user (id credential status : string) : UserCredential.t := UserCredential.mk id "" credential status 0 1000.

Definition nodes : list NodeInstance.t :=
  [NodeInstance.mk "n2" HYSTERIA2_SALAMANDER_ID 1 "h" [user "alice" "pw" ""; user "bob" "pw2" "disabled"];
   NodeInstance.mk "n1" VLESS_REALITY_VISION_ID 1 "v" [user "alice" "u1" ""; user "carol" "u2" ""]].

Definition outbounds : list Outbound.t :=
  (fun o => Outbound.mk (ValidatedOutbound.kind o) (ValidatedOutbound.tag o) (ValidatedOutbound.tag o)) <$> [near; far; pick; auto].

Definition rule (inbound domain protocol : list string) (action outbound : string) : RouteRule.t :=
  RouteRule.mk "" inbound [] 0 domain [] [] [] [] [] None None [] [] [] [] protocol [] false action outbound "" false "" []
    [] [] [] [] [] [] [] [] [] [] [] "" [] None None [] [] [] [] false None None None None.

Definition route : Route.t :=
  Route.mk [rule [] ["ads.example"] [] "reject" ""; rule ["edge"] [] ["tls"] "route" "far"] [] "auto"
    false "" 0 false None None false None "" [] [] "".

Definition dns : Dns.t :=
  Dns.mk [DnsRule.mk [] ["cdn.example"] [] [] [] [] "route" "" "default-dns" "" false [] [] [] false "60" "" "1.2.3.4/24"]
    [DnsServer.mk "tls" "default-dns" "1.1.1.1" "far"] "".

Definition topology : MachineTopology.t := MachineTopology.mk "machine" 3 nodes outbounds (Some route) (Some dns) None.

(** ** The compiler *)

Definition no_rules (_ : list HeadlessRule.t) : Value.t := Value.Null.
Definition no_rule_set (_ _ : string) : result string unit := Err "no rule sets".
Definition no_url (_ : string) : result string (string * string) := Err "no URLs".
Definition no_chunks (_ : DnsRule.t) : list string := [].
Definition no_method (_ : string) : option bool := None.
Definition method_str (m : bool) : string := if m then "drop" else "default".
Definition no_rcode (_ : string) : bool := false.
Definition no_answers (_ _ _ : list string) : result string unit := Err "no answers".
Definition no_global (_ : option Dns.t) (_ : option Route.t) (_ : list (string * string * option Value.t)) : list string := [].
Definition as_yaml (d : Diagnostic.t) : result string string := Ok (Diagnostic.format d).
(** Digests that tell the texts of the example apart. *)
Definition digest (s : string) : string :=
  of_chars (take 32 ((fun i => chr (foldl (fun acc c => (acc * (31 + Z.of_nat i) + code c) mod 65521) 7 (chars s) mod 256)) <$> seq 0 32)).

Lemma digest_len bytes : str_len (digest bytes) = 32.
Proof. unfold digest, str_len, of_chars. generalize (chars bytes). intros l. reflexivity. Qed.

Definition example_run :=
  compile_with_route quoted no_duration written digest from_slice parse_vless parse_hysteria2 base64_len no_rule_set no_url
    (Ok "/var/lib/agent") no_rules no_chunks false true no_method method_str no_rcode no_answers (fun _ => Value.Null)
    (fun _ => Value.Null) no_global as_yaml topology (Some route).

Lemma example_compiles : is_ok example_run = true.
Proof. vm_compute. reflexivity. Qed.

(** The tags of the inbounds, their rules and the servers of their DNS. *)
Definition summary (output : CompileOutput.t (RuntimeConfig Value.t RuleSetResource.t)) : list (string * nat * nat) :=
  (fun inbound =>
     let config := InboundSpec.config (spec inbound) in
     (inbound_tag inbound, length (elements_of "rules" config),
      length (default [] (dns ← Value.get "dns" config; Some (elements_of "servers" dns)))))
    <$> Runtime.inbounds (CompileOutput.runtime output).

(** The rule for TLS concerns one inbound; the near outbound and the DNS rule need a
    variant each. *)
Example example_summary : (summary <$> example_run) = Ok [("edge", 3%nat, 3%nat); ("n2", 2%nat, 3%nat)].
Proof. vm_compute. reflexivity. Qed.

(** ** Witnesses *)


Lemma compile_within_limits_witness :
  match example_run with
  | Ok output =>
      let runtime := CompileOutput.runtime output in
      let cost := runtime_cost written (urltest_probe_dns runtime) (Runtime.inbounds runtime) in
      ClientChainProjectionCost.hops cost <= MAX_PROJECTED_CLIENT_CHAIN_HOPS /\
      ClientChainProjectionCost.bytes cost <= MAX_PROJECTED_CLIENT_CHAIN_BYTES
  | Err _ => False
  end.
Proof.
  pose proof example_compiles as Hok. destruct example_run as [output|] eqn:E; [|discriminate Hok]. unfold example_run in E.
  destruct (compile_within_limits quoted no_duration written digest from_slice parse_vless parse_hysteria2 base64_len no_rule_set no_url
    (Ok "/var/lib/agent") no_rules no_chunks false true no_method method_str no_rcode no_answers (fun _ => Value.Null)
    (fun _ => Value.Null) no_global as_yaml digest_len topology (Some route) output E) as [[_ Hh] [_ Hb]].
  split; assumption.
Defined.


Lemma compiled_normalizes_witness :
  match example_run with Ok output => is_ok (normalize (CompileOutput.runtime output)) = true | Err _ => False end.
Proof.
  pose proof example_compiles as Hok. destruct example_run as [output|] eqn:E; [|discriminate Hok]. unfold example_run in E.
  apply (compiled_normalizes quoted no_duration written digest from_slice parse_vless parse_hysteria2 base64_len no_rule_set no_url
    (Ok "/var/lib/agent") no_rules no_chunks false true no_method method_str no_rcode no_answers (fun _ => Value.Null)
    (fun _ => Value.Null) no_global as_yaml digest_len topology (Some route) output E).
  intros node user Hnode Huser.
  assert (Hall : Forall (fun n => Forall (fun u => trim (identity_of (node_protocol n) u) <> "") (active_users (NodeInstance.users n))) nodes).
  { repeat constructor; vm_compute; discriminate. }
  rewrite Forall_forall in Hall. specialize (Hall node Hnode). rewrite Forall_forall in Hall. exact (Hall user Huser).
Defined.

(** The near outbound resolves through a variant that does not cache. *)
Definition example_catalog : catalog_t :=
  match validate_outbounds quoted from_slice outbounds with Ok c => c | Err _ => ∅ end.
Definition example_resolvers := project_outbound_dns_resolvers quoted digest (Some route) (Some dns) example_catalog ∅.

Lemma example_resolve : is_ok example_resolvers = true.
Proof. vm_compute. reflexivity. Qed.

Lemma resolvers_exact_witness :
  match example_resolvers with
  | Ok (c, variants) => length variants = 1%nat /\ distinct_variants digest (Some dns) variants
  | Err _ => False
  end.
Proof.
  assert (Hlen : match example_resolvers with Ok (_, variants) => length variants = 1%nat | Err _ => False end) by (vm_compute; reflexivity).
  destruct example_resolvers as [[c variants]|] eqn:E; [|destruct Hlen]. unfold example_resolvers in E.
  destruct (resolvers_exact quoted digest (Some route) (Some dns) example_catalog ∅ c variants E) as [Hd _].
  split; assumption.
Defined.
