(* ===== verification/Nft.v ===== *)
(** * The nftables backend: [crates/node-agent/src/porthopping/backend_linux.rs], lines
    37 to 1458

    The forwarding rules of a machine live in one table per family, named after the
    machine.  Ownership is proved by markers in the user data of the table, its chain
    and every rule; a batch deletes the tables that were proved owned and creates the
    desired ones.

    The data types of the netlink crates are given with the constructors the source
    names, and one more for the others; a register and an operator are their numbers.
    [NetlinkFormat] holds the conversions of those crates, [NftConnection] the
    connection that [NftNetlink.v] implements over a socket.  Bytes are strings. *)

From Stdlib Require Import ZArith Lia Ascii.
From S2P Require Import Prelude Bytes Hex PortRanges PortHopping PortErrors.

Open Scope Z_scope.

Definition TABLE_PREFIX : string := "acp_hy2_".
Definition CHAIN_NAME : string := "prerouting".
Definition RULE_MARKER_MAGIC : string := "ACPHY2" +:+ String (chr 1) "".
Definition TABLE_MARKER_MAGIC : string := "ACPHY2T" +:+ String (chr 1) "".
Definition CHAIN_MARKER_MAGIC : string := "ACPHY2C" +:+ String (chr 1) "".
Definition MARKER_PROTOCOL : Z := 1.
Definition MAX_NODE_ID_BYTES : Z := 128.
Definition NF_ACCEPT : Z := 1.
Definition NF_IP_PRI_NAT_DST : Z := -100.
Definition IPPROTO_UDP : Z := 17.
Definition PAYLOAD_BASE_TRANSPORT_HEADER : Z := 2.
Definition NF_NAT_RANGE_PROTO_SPECIFIED : Z := 2.
Definition NLA_TYPE_MASK : Z := 0x3fff.

(** [NLA_F_NESTED] and [InetHookNumber::PreRouting] of the crates. *)
Definition NLA_F_NESTED : Z := 0x8000.
Definition PRE_ROUTING : Z := 0.

(** ** Families *)

Inductive Family : Type := Inet | Ipv4 | Ipv6.

#[export] Instance Family_eq_dec : EqDecision Family.
Proof. solve_decision. Defined.

#[export] Instance Family_countable : Countable Family.
Proof.
  refine (inj_countable' (fun f => match f with Inet => 0%nat | Ipv4 => 1%nat | Ipv6 => 2%nat end)
            (fun n => match n with 0%nat => Inet | 1%nat => Ipv4 | _ => Ipv6 end) _).
  by intros [].
Defined.

(** [Family::ALL] *)
Definition all_families : list Family := [Inet; Ipv4; Ipv6].

(** The derived order. *)
Definition family_rank (f : Family) : Z := match f with Inet => 0 | Ipv4 => 1 | Ipv6 => 2 end.

Inductive NetfilterProtoFamily : Type := ProtoUnspec | ProtoInet | ProtoIPv4 | ProtoIPv6 | ProtoOther (number : Z).

Definition protocol (self : Family) : NetfilterProtoFamily :=
  match self with Inet => ProtoInet | Ipv4 => ProtoIPv4 | Ipv6 => ProtoIPv6 end.

Definition from_protocol (family : NetfilterProtoFamily) : option Family :=
  match family with ProtoInet => Some Inet | ProtoIPv4 => Some Ipv4 | ProtoIPv6 => Some Ipv6 | _ => None end.

Definition show_family (self : Family) : string := match self with Inet => "inet" | Ipv4 => "ip" | Ipv6 => "ip6" end.

Module FamilyMode.
Inductive t : Type := Unknown | Inet | Split.

#[global] Instance eq_dec : EqDecision t.
Proof. solve_decision. Defined.

Definition families (self : t) : list Family :=
  match self with Unknown => [] | Inet => [Nft.Inet] | Split => [Ipv4; Ipv6] end.

Definition to_string (self : t) : string := match self with Unknown => "unknown" | Inet => "inet" | Split => "ip+ip6" end.
End FamilyMode.

(** ** Expressions of the netlink crates *)

Module Register.
Definition Verdict : Z := 0.
Definition Reg1 : Z := 1.
Definition Reg2 : Z := 2.
End Register.

Module Operator.
Definition Equal : Z := 0.
End Operator.

Module MetaKey.
Inductive t : Type := L4Proto | Other (key : Z).
End MetaKey.

Module Meta.
Inductive t : Type := Key (key : MetaKey.t) | DestinationRegister (register : Z) | Other.
End Meta.

Module Verdict.
Inductive t : Type := Jump | Goto | Other (code : Z).
End Verdict.

Module VerdictAttribute.
Inductive t : Type := Code (verdict : Verdict.t) | Chain (name : string) | Other.
End VerdictAttribute.

Module DataAttribute.
Inductive t : Type := Value (value : string) | Verdict (verdicts : list VerdictAttribute.t) | Other.
End DataAttribute.

Module Cmp.
Inductive t : Type := SourceRegister (register : Z) | Op (operator : Z) | Data (data : DataAttribute.t) | Other.
End Cmp.

Module Payload.
Inductive t : Type := DestinationRegister (register : Z) | Base (base : Z) | Offset (offset : Z) | Len (len : Z) | Other.
End Payload.

Module Immediate.
Inductive t : Type := DestinationRegister (register : Z) | Data (data : DataAttribute.t) | Other.
End Immediate.

Module DefaultNla.
Record t : Type := mk { kind : Z; value : string }.
End DefaultNla.

Module Expressions.
Inductive t : Type :=
  | Meta (attributes : list Meta.t)
  | Cmp (attributes : list Cmp.t)
  | Payload (attributes : list Payload.t)
  | Immediate (attributes : list Immediate.t)
  | Other (expression_type : string) (attributes : list DefaultNla.t).
End Expressions.

Module ExpressionAttribute.
Inductive t : Type := Data (data : Expressions.t) | Other.
End ExpressionAttribute.

Module ListAttribute.
Inductive t : Type := Element (attributes : list ExpressionAttribute.t) | Other.
End ListAttribute.

(** What the crates provide: an expression as an element of a list, the attribute of a
    data value, and the attributes of a buffer (with the errors of the iterator). *)
Class NetlinkFormat : Type := {
  element : Expressions.t -> ListAttribute.t;
  emit_value : string -> string;
  nlas : string -> list (result unit (Z * string))
}.

(** ** Kernel state *)

Module TableState.
Record t : Type := mk { family : Family; name : string; handle : Z; user_data : string }.
End TableState.

Module ChainState.
Record t : Type := mk {
  family : Family; table : string; name : string; chain_type : option string; hook : option Z;
  priority : option Z; policy : option Z; user_data : string
}.
End ChainState.

Module RuleState.
Record t : Type := mk { family : Family; table : string; chain : string; expressions : list ListAttribute.t; user_data : string }.
End RuleState.

Module KernelSnapshot.
Record t : Type := mk {
  tables : list TableState.t; chains : list ChainState.t; rules : list RuleState.t; unavailable : gmap Family Z
}.
Definition default : t := mk [] [] [] ∅.
End KernelSnapshot.

Module DeleteTable.
Record t : Type := mk { family : Family; name : string; handle : Z }.
End DeleteTable.

Module DesiredRule.
Record t : Type := mk { expressions : list ListAttribute.t; marker : string }.
End DesiredRule.

Module DesiredTable.
Record t : Type := mk { family : Family; name : string; table_marker : string; chain_marker : string; rules : list DesiredRule.t }.
End DesiredTable.

Module Batch.
Record t : Type := mk { delete : list DeleteTable.t; create : list DesiredTable.t }.
End Batch.

(** What [inspect_snapshot] finds. *)
Module InspectedState.
Record t : Type := mk {
  raw : KernelSnapshot.t; tables : list TableState.t; exists_ : bool; mode : FamilyMode.t; complete : bool;
  digest : string; rule_count : nat
}.

Definition family_unavailable (self : t) (family : Family) : bool :=
  match KernelSnapshot.unavailable (raw self) !! family with Some _ => true | None => false end.

Definition unavailable_for (self : t) (mode : FamilyMode.t) : bool :=
  let families := if bool_decide (mode = FamilyMode.Unknown) then all_families else FamilyMode.families mode in
  existsb (family_unavailable self) families.

Definition matches (self : t) (mode' : FamilyMode.t) (digest' : string) (rule_count' : nat) : bool :=
  if (rule_count' =? 0)%nat then negb (exists_ self)
  else exists_ self && complete self && bool_decide (mode self = mode') && String.eqb (digest self) digest'
       && (rule_count self =? rule_count')%nat.
End InspectedState.

(** [io::Error] *)
Module IoError.
Record t : Type := mk { raw_os_error : option Z; text : string }.
End IoError.

(** ** Bytes *)

Definition be16 (z : Z) : string := String (chr (z / 256)) (String (chr (z mod 256)) "").

(** [u16::from_be_bytes] *)
Definition read_be16 (bytes : string) : option Z :=
  match bytes with
  | String a (String b EmptyString) => Some (code a * 256 + code b)
  | _ => None
  end.

Definition be32 (z : Z) : string := be16 (z / 65536) +:+ be16 (z mod 65536).

Definition read_be_u32 (bytes : string) : option Z :=
  match bytes with
  | String a (String b (String c (String d EmptyString))) =>
      Some (((code a * 256 + code b) * 256 + code c) * 256 + code d)
  | _ => None
  end.

Definition is_cont (c : ascii) : bool := (128 <=? code c) && (code c <=? 191).

Definition three_bytes (a b : ascii) : bool :=
  if code a =? 224 then (160 <=? code b) && (code b <=? 191)
  else if code a =? 237 then (128 <=? code b) && (code b <=? 159)
  else (225 <=? code a) && (code a <=? 239) && is_cont b.

Definition four_bytes (a b : ascii) : bool :=
  if code a =? 240 then (144 <=? code b) && (code b <=? 191)
  else if code a =? 244 then (128 <=? code b) && (code b <=? 143)
  else (241 <=? code a) && (code a <=? 243) && is_cont b.

(** [std::str::from_utf8] *)
Fixpoint is_utf8 (l : list ascii) : bool :=
  match l with
  | [] => true
  | a :: l =>
      if code a <? 128 then is_utf8 l
      else
        match l with
        | [] => false
        | b :: l2 =>
            if (194 <=? code a) && (code a <=? 223) && is_cont b then is_utf8 l2
            else
              match l2 with
              | [] => false
              | c :: l3 =>
                  if three_bytes a b && is_cont c then is_utf8 l3
                  else
                    match l3 with
                    | [] => false
                    | d :: l4 => four_bytes a b && is_cont c && is_cont d && is_utf8 l4
                    end
              end
        end
  end.

(** ** Ownership markers *)

Definition boxed_operation (message : list string) : BoxError := OperationError (fmt message) None.

Definition io_error (error : IoError.t) : BoxError := OtherError (IoError.text error) None.

Definition wrap_io (message : string) (error : IoError.t) : BoxError := OperationError message (Some (io_error error)).

Definition hex_nibble (byte : ascii) : option Z :=
  let b := code byte in
  if (48 <=? b) && (b <=? 57) then Some (b - 48)
  else if (97 <=? b) && (b <=? 102) then Some (b - 97 + 10)
  else if (65 <=? b) && (b <=? 70) then Some (b - 65 + 10)
  else None.

(** [digest.as_bytes().chunks_exact(2)] *)
Fixpoint decode_pairs (l : list ascii) : option (list ascii) :=
  match l with
  | a :: b :: l =>
      match hex_nibble a, hex_nibble b with
      | Some high, Some low => bytes ← decode_pairs l; Some (chr (Z.lor (Z.shiftl high 4) low) :: bytes)
      | _, _ => None
      end
  | _ => Some []
  end.

(** The first [n] bytes of a text and the rest; [slice data offset n] is
    [data[offset..offset + n]]. *)
Definition slice (data : string) (offset n : nat) : string := of_chars (take n (drop offset (chars data))).
Definition from (data : string) (offset : nat) : string := of_chars (drop offset (chars data)).

Module ContainerMarker.
Record t : Type := mk { owner : string; digest : string }.
End ContainerMarker.

Module RuleMarker.
Record t : Type := mk { owner : string; digest : string; node_id : string; listen_port : Z; ports : PortRange.t }.
End RuleMarker.

Section markers.
Context (debug : string -> string).

Definition decode_digest (digest : string) : result BoxError string :=
  if negb (str_len digest =? 64) then Err (boxed_operation ["invalid plan digest "; debug digest])
  else
    match decode_pairs (chars digest) with
    | Some bytes => Ok (of_chars bytes)
    | None => Err (boxed_operation ["invalid plan digest "; debug digest])
    end.

Definition encode_container_marker (magic owner digest : string) : result BoxError string :=
  digest ← decode_digest digest;
  Ok (magic +:+ owner +:+ digest).

(** The length check makes the slices exist. *)
Definition decode_optional_container_marker (data magic : string) : result string (option ContainerMarker.t) :=
  if is_empty data then Ok None
  else if negb (str_len data =? str_len magic + 6 + 32) || negb (starts_with magic data)
  then Err "container ownership marker is missing or invalid"
  else
    let n := String.length magic in
    Ok (Some (ContainerMarker.mk (slice data n 6) (Hex.encode (from data (n + 6))))).

Definition encode_rule_marker (owner digest : string) (redirect : Redirect.t) (ports : PortRange.t)
    : result BoxError string :=
  let node := Redirect.node_id redirect in
  let listen_port := Redirect.listen_port redirect in
  if is_empty node then Err (boxed_operation ["encode nftables marker: node_id is empty"])
  else if MAX_NODE_ID_BYTES <? str_len node
  then Err (boxed_operation ["encode nftables marker: node_id is "; to_dec (str_len node); " bytes, maximum is ";
                             to_dec MAX_NODE_ID_BYTES])
  else if (listen_port =? 0) || (PortRange.start ports =? 0) || (PortRange.end_ ports <? PortRange.start ports)
  then Err (boxed_operation ["encode nftables marker: invalid redirect metadata"])
  else
    digest ← decode_digest digest;
    Ok (RULE_MARKER_MAGIC +:+ owner +:+ digest +:+ String (chr MARKER_PROTOCOL) "" +:+ be16 listen_port
        +:+ be16 (PortRange.start ports) +:+ be16 (PortRange.end_ ports)
        +:+ String (chr (str_len node)) "" +:+ node).

(** The lengths of the fixed part: the magic, owner, digest, protocol, three ports and
    the length of the node id. *)
Definition FIXED : nat := 7 + 6 + 32 + 1 + 2 + 2 + 2 + 1.

Definition decode_rule_marker (data : string) : result string RuleMarker.t :=
  if (String.length data <? FIXED)%nat || negb (starts_with RULE_MARKER_MAGIC data)
  then Err "ownership marker is missing or invalid"
  else
    let owner := slice data 7 6 in
    let digest := Hex.encode (slice data 13 32) in
    if negb (String.eqb (slice data 45 1) (String (chr MARKER_PROTOCOL) "")) then Err "unknown protocol marker"
    else
      match read_be16 (slice data 46 2), read_be16 (slice data 48 2), read_be16 (slice data 50 2), chars (slice data 52 1) with
      | Some listen_port, Some start, Some end_, [len] =>
          let node_len := code len in
          if (node_len =? 0) || (MAX_NODE_ID_BYTES <? node_len) || negb (str_len data =? 53 + node_len)
          then Err "invalid node_id length in ownership marker"
          else
            let node_id := from data 53 in
            if negb (is_utf8 (chars node_id)) then Err "invalid UTF-8 node_id in ownership marker"
            else if (listen_port =? 0) || (start =? 0) || (end_ <? start)
            then Err "invalid redirect values in ownership marker"
            else Ok (RuleMarker.mk owner digest node_id listen_port (PortRange.mk start end_))
      | _, _, _, _ => Err "slice out of range"
      end.
End markers.

(** [owner_hash] *)
Definition owner_hash (sha256 : string -> string) (machine_id : string) : string := slice (sha256 machine_id) 0 6.

(** ** Rule expressions *)

Definition be_u32_attr (kind value : Z) : DefaultNla.t := DefaultNla.mk kind (be32 value).

Definition nla_kind (attribute : DefaultNla.t) : Z := Z.land (DefaultNla.kind attribute) NLA_TYPE_MASK.
Definition nla_value (attribute : DefaultNla.t) : string := DefaultNla.value attribute.

(** The first [ExpressionAttribute::Data]. *)
Fixpoint find_data (attributes : list ExpressionAttribute.t) : option Expressions.t :=
  match attributes with
  | [] => None
  | ExpressionAttribute.Data data :: _ => Some data
  | _ :: attributes => find_data attributes
  end.

Definition expression_data (expression : ListAttribute.t) : option Expressions.t :=
  match expression with ListAttribute.Element attributes => find_data attributes | _ => None end.

(** [value == Some(expected)] for a [Copy] type. *)
Definition equals (o : option Z) (z : Z) : bool := bool_decide (o = Some z).

Definition udp_bytes : string := String (chr IPPROTO_UDP) "".

Section expressions.
Context `{!NetlinkFormat}.

Definition raw_expression (expression_type : string) (attributes : list DefaultNla.t) : ListAttribute.t :=
  element (Expressions.Other expression_type attributes).

Definition nested_data_attr (kind : Z) (value : string) : DefaultNla.t :=
  DefaultNla.mk (Z.lor kind NLA_F_NESTED) (emit_value value).

Definition redirect_expressions (ports : PortRange.t) (target : Z) : list ListAttribute.t :=
  [element (Expressions.Meta [Meta.Key MetaKey.L4Proto; Meta.DestinationRegister Register.Reg1]);
   element (Expressions.Cmp [Cmp.SourceRegister Register.Reg1; Cmp.Op Operator.Equal; Cmp.Data (DataAttribute.Value udp_bytes)]);
   element (Expressions.Payload [Payload.DestinationRegister Register.Reg1; Payload.Base PAYLOAD_BASE_TRANSPORT_HEADER;
                                 Payload.Offset 2; Payload.Len 2])]
  ++ (if PortRange.start ports =? PortRange.end_ ports
      then [element (Expressions.Cmp [Cmp.SourceRegister Register.Reg1; Cmp.Op Operator.Equal;
                                      Cmp.Data (DataAttribute.Value (be16 (PortRange.start ports)))])]
      else [raw_expression "range"
              [be_u32_attr 1 Register.Reg1; be_u32_attr 2 Operator.Equal;
               nested_data_attr 3 (be16 (PortRange.start ports)); nested_data_attr 4 (be16 (PortRange.end_ ports))]])
  ++ [element (Expressions.Immediate [Immediate.DestinationRegister Register.Reg2; Immediate.Data (DataAttribute.Value (be16 target))]);
      raw_expression "redir" [be_u32_attr 1 Register.Reg2]].

Definition meta_loads_l4proto (expression : Expressions.t) (register : Z) : bool :=
  match expression with
  | Expressions.Meta attributes =>
      (fix go (attributes : list Meta.t) (key destination : bool) : bool :=
         match attributes with
         | [] => key && destination
         | Meta.Key MetaKey.L4Proto :: attributes => go attributes true destination
         | Meta.DestinationRegister found :: attributes => if found =? register then go attributes key true else false
         | _ => false
         end) attributes false false
  | _ => false
  end.

Definition cmp_equals (expression : Expressions.t) (register : Z) (expected : string) : bool :=
  match expression with
  | Expressions.Cmp attributes =>
      (fix go (attributes : list Cmp.t) (source equal : bool) (data : option string) : bool :=
         match attributes with
         | [] => source && equal && bool_decide (data = Some expected)
         | Cmp.SourceRegister found :: attributes => if found =? register then go attributes true equal data else false
         | Cmp.Op op :: attributes => if op =? Operator.Equal then go attributes source true data else false
         | Cmp.Data (DataAttribute.Value value) :: attributes => go attributes source equal (Some value)
         | _ => false
         end) attributes false false None
  | _ => false
  end.

Definition payload_loads_dport (expression : Expressions.t) (register : Z) : bool :=
  match expression with
  | Expressions.Payload attributes =>
      (fix go (attributes : list Payload.t) (destination base offset length : bool) : bool :=
         match attributes with
         | [] => destination && base && offset && length
         | Payload.DestinationRegister found :: attributes =>
             if found =? register then go attributes true base offset length else false
         | Payload.Base found :: attributes =>
             if found =? PAYLOAD_BASE_TRANSPORT_HEADER then go attributes destination true offset length else false
         | Payload.Offset found :: attributes => if found =? 2 then go attributes destination base true length else false
         | Payload.Len found :: attributes => if found =? 2 then go attributes destination base offset true else false
         | Payload.Other :: _ => false
         end) attributes false false false false
  | _ => false
  end.

(** The first attribute of kind 1, unless the iterator fails before. *)
Fixpoint find_value (l : list (result unit (Z * string))) : option string :=
  match l with
  | [] => None
  | Err _ :: _ => None
  | Ok (kind, value) :: l => if kind =? 1 then Some value else find_value l
  end.

Definition nested_data_value (value : string) : option string := find_value (nlas value).

Definition parse_range_attributes (attributes : list DefaultNla.t) : option (Z * Z * string * string) :=
  (fix go (attributes : list DefaultNla.t) (source operator : option Z) (from to : option string) :=
     match attributes with
     | [] =>
         source ← source; operator ← operator; from ← from; to ← to; Some (source, operator, from, to)
     | attribute :: attributes =>
         let value := nla_value attribute in
         let kind := nla_kind attribute in
         if kind =? 1 then go attributes (read_be_u32 value) operator from to
         else if kind =? 2 then go attributes source (read_be_u32 value) from to
         else if kind =? 3 then go attributes source operator (nested_data_value value) to
         else if kind =? 4 then go attributes source operator from (nested_data_value value)
         else None
     end) attributes None None None None.

Definition cmp_equal_data (expression : Expressions.t) (register : Z) : option string :=
  match expression with
  | Expressions.Cmp attributes =>
      (fix go (attributes : list Cmp.t) (source op : option Z) (data : option string) : option string :=
         match attributes with
         | [] => if equals source register && equals op Operator.Equal then data else None
         | Cmp.SourceRegister value :: attributes => go attributes (Some value) op data
         | Cmp.Op value :: attributes => go attributes source (Some value) data
         | Cmp.Data (DataAttribute.Value value) :: attributes => go attributes source op (Some value)
         | _ => None
         end) attributes None None None
  | _ => None
  end.

(** [(start != 0 && start <= end).then_some(PortRange::new(start, end))] *)
Definition port_range (start end_ : Z) : option PortRange.t :=
  if negb (start =? 0) && (start <=? end_) then Some (PortRange.mk start end_) else None.

Definition port_match (expression : Expressions.t) (register : Z) : option PortRange.t :=
  match expression with
  | Expressions.Cmp _ =>
      data ← cmp_equal_data expression register;
      port ← read_be16 data;
      port_range port port
  | Expressions.Other expression_type attributes =>
      if String.eqb expression_type "range" then
        '(source, op, from, to) ← parse_range_attributes attributes;
        if negb (source =? register) || negb (op =? Operator.Equal) then None
        else start ← read_be16 from; end_ ← read_be16 to; port_range start end_
      else None
  | _ => None
  end.

Definition immediate_port (expression : Expressions.t) (register : Z) : option Z :=
  match expression with
  | Expressions.Immediate attributes =>
      (fix go (attributes : list Immediate.t) (destination : option Z) (data : option string) : option Z :=
         match attributes with
         | [] =>
             bytes ← data;
             if equals destination register then read_be16 bytes else None
         | Immediate.DestinationRegister value :: attributes => go attributes (Some value) data
         | Immediate.Data (DataAttribute.Value value) :: attributes => go attributes destination (Some value)
         | _ => None
         end) attributes None None
  | _ => None
  end.

Definition redir_uses (expression : Expressions.t) (register : Z) : bool :=
  match expression with
  | Expressions.Other expression_type attributes =>
      String.eqb expression_type "redir" &&
      (fix go (attributes : list DefaultNla.t) (minimum maximum flags : option Z) : bool :=
         match attributes with
         | [] =>
             equals minimum register
             && match maximum with None => true | Some maximum => maximum =? register end
             && match flags with None => true | Some flags => (flags =? 0) || (flags =? NF_NAT_RANGE_PROTO_SPECIFIED) end
         | attribute :: attributes =>
             let value := read_be_u32 (nla_value attribute) in
             let kind := nla_kind attribute in
             if kind =? 1 then go attributes value maximum flags
             else if kind =? 2 then go attributes minimum value flags
             else if kind =? 3 then go attributes minimum maximum value
             else false
         end) attributes None None None
  | _ => false
  end.

Definition managed_redirect_rule (expressions : list ListAttribute.t) : option (PortRange.t * Z) :=
  match expressions with
  | [e0; e1; e2; e3; e4; e5] =>
      meta ← expression_data e0;
      if negb (meta_loads_l4proto meta Register.Reg1) then None
      else
        udp ← expression_data e1;
        if negb (cmp_equals udp Register.Reg1 udp_bytes) then None
        else
          dport ← expression_data e2;
          if negb (payload_loads_dport dport Register.Reg1) then None
          else
            matcher ← expression_data e3;
            ports ← port_match matcher Register.Reg1;
            load ← expression_data e4;
            target ← immediate_port load Register.Reg2;
            if target =? 0 then None
            else
              redir ← expression_data e5;
              if redir_uses redir Register.Reg2 then Some (ports, target) else None
  | _ => None
  end.

(** ** Redirects of other tables *)

(** The first loop of [direct_udp_redirect_range]: the registers that hold the protocol
    and the destination port, and whether the rule redirects. *)
Record loads : Type := mkLoads { l4_registers : gset Z; port_registers : gset Z; has_redirect : bool }.

Definition meta_load (attributes : list Meta.t) : bool * option Z :=
  foldl (fun acc attribute =>
           match attribute with
           | Meta.Key MetaKey.L4Proto => (true, acc.2)
           | Meta.DestinationRegister value => (acc.1, Some value)
           | _ => acc
           end) (false, None) attributes.

Definition payload_load (attributes : list Payload.t) : option Z * option Z * option Z * option Z :=
  foldl (fun acc attribute =>
           let '(register, base, offset, len) := acc in
           match attribute with
           | Payload.DestinationRegister value => (Some value, base, offset, len)
           | Payload.Base value => (register, Some value, offset, len)
           | Payload.Offset value => (register, base, Some value, len)
           | Payload.Len value => (register, base, offset, Some value)
           | Payload.Other => acc
           end) (None, None, None, None) attributes.

Definition load_step (acc : loads) (expression : Expressions.t) : loads :=
  match expression with
  | Expressions.Meta attributes =>
      match meta_load attributes with
      | (true, Some register) => mkLoads ({[ register ]} ∪ l4_registers acc) (port_registers acc) (has_redirect acc)
      | _ => acc
      end
  | Expressions.Payload attributes =>
      match payload_load attributes with
      | (Some register, base, offset, len) =>
          if equals base PAYLOAD_BASE_TRANSPORT_HEADER && equals offset 2 && equals len 2
          then mkLoads (l4_registers acc) ({[ register ]} ∪ port_registers acc) (has_redirect acc)
          else acc
      | _ => acc
      end
  | Expressions.Other expression_type attributes =>
      if String.eqb expression_type "redir" then mkLoads (l4_registers acc) (port_registers acc) true
      else if String.eqb expression_type "nat"
      then mkLoads (l4_registers acc) (port_registers acc)
             (existsb (fun attribute => (nla_kind attribute =? 1) && equals (read_be_u32 (nla_value attribute)) 1) attributes)
      else acc
  | _ => acc
  end.

(** The second loop: whether a rule is for UDP and the last ports it compares with. *)
Definition match_step (l : loads) (acc : bool * option PortRange.t) (expression : Expressions.t) : bool * option PortRange.t :=
  match expression with
  | Expressions.Cmp _ =>
      let udp := existsb (fun register => bool_decide (cmp_equal_data expression register = Some udp_bytes)) (elements (l4_registers l)) in
      let ports :=
        foldl (fun ports register =>
                 match cmp_equal_data expression register with
                 | None => ports
                 | Some data =>
                     match read_be16 data with
                     | Some port => if negb (port =? 0) then Some (PortRange.mk port port) else ports
                     | None => ports
                     end
                 end) acc.2 (elements (port_registers l)) in
      (acc.1 || udp, ports)
  | Expressions.Other expression_type attributes =>
      if String.eqb expression_type "range" then
        match parse_range_attributes attributes with
        | None => acc
        | Some (register, op, from, to) =>
            if (op =? Operator.Equal) && bool_decide (register ∈ port_registers l) then
              match read_be16 from, read_be16 to with
              | Some start, Some end_ =>
                  match port_range start end_ with Some range => (acc.1, Some range) | None => acc end
              | _, _ => acc
              end
            else acc
        end
      else acc
  | _ => acc
  end.

Definition direct_udp_redirect_range (expressions : list ListAttribute.t) : option PortRange.t :=
  let expressions := omap expression_data expressions in
  let l := foldl load_step (mkLoads ∅ ∅ false) expressions in
  if negb (has_redirect l) then None
  else
    let '(udp, ports) := foldl (match_step l) (false, None) expressions in
    if udp : bool then ports else None.

(** The verdicts of [jump_target]. *)
Definition verdict_step (acc : bool * option string) (item : VerdictAttribute.t) : bool * option string :=
  match item with
  | VerdictAttribute.Code (Verdict.Jump | Verdict.Goto) => (true, acc.2)
  | VerdictAttribute.Chain value => (acc.1, Some value)
  | _ => acc
  end.

Definition jump_target (expression : option Expressions.t) : option string :=
  match expression with
  | Some (Expressions.Immediate attributes) =>
      let '(verdict_register, verdict, chain) :=
        foldl (fun acc attribute =>
                 let '(verdict_register, verdict, chain) := acc in
                 match attribute with
                 | Immediate.DestinationRegister register =>
                     if register =? Register.Verdict then (true, verdict, chain) else acc
                 | Immediate.Data (DataAttribute.Verdict verdicts) =>
                     let '(verdict, chain) := foldl verdict_step (verdict, chain) verdicts in (verdict_register, verdict, chain)
                 | _ => acc
                 end) (false, false, None) attributes in
      if verdict_register && verdict : bool then chain else None
  | _ => None
  end.

(** The rules of a chain of a table, in order. *)
Definition rules_of (snapshot : KernelSnapshot.t) (family : Family) (table chain : string) : list RuleState.t :=
  retain (fun rule => bool_decide (RuleState.family rule = family) && String.eqb (RuleState.table rule) table
                      && String.eqb (RuleState.chain rule) chain) (KernelSnapshot.rules snapshot).

Definition chains_of (snapshot : KernelSnapshot.t) (family : Family) (table : string) : list ChainState.t :=
  retain (fun chain => bool_decide (ChainState.family chain = family) && String.eqb (ChainState.table chain) table)
    (KernelSnapshot.chains snapshot).

(** [for redirect in &desired.redirects] *)
Fixpoint check_redirects (chain : string) (index : nat) (existing : PortRange.t) (redirects : list Redirect.t) : result BoxError unit :=
  match redirects with
  | [] => Ok tt
  | redirect :: redirects =>
      match first_overlap (Redirect.ports redirect) [existing] with
      | Some overlap =>
          Err (boxed_operation ["node "; Redirect.node_id redirect; " hysteria2 port_hopping "; PortRange.to_string overlap;
                 " conflicts with existing UDP NAT rule at chain "; chain; " rule "; to_dec (Z.of_nat index); " on ";
                 PortRange.to_string existing])
      | None => check_redirects chain index existing redirects
      end
  end.

Section scan.
Context (snapshot : KernelSnapshot.t) (family : Family) (table : string) (chains : gmap string ChainState.t) (desired : Plan).

(** [for expression in &rule.expressions] *)
Fixpoint scan_jumps (scan : ChainState.t -> stm (gset string) BoxError unit) (expressions : list ListAttribute.t)
    : stm (gset string) BoxError unit :=
  match expressions with
  | [] => mret tt
  | expression :: expressions =>
      _ ← match jump_target (expression_data expression) with
          | None => mret tt
          | Some target => match chains !! target with None => mret tt | Some next => scan next end
          end;
      scan_jumps scan expressions
  end.

(** [rules.iter().enumerate()] *)
Fixpoint scan_rules (scan : ChainState.t -> stm (gset string) BoxError unit) (chain : string) (index : nat) (rules : list RuleState.t)
    : stm (gset string) BoxError unit :=
  match rules with
  | [] => mret tt
  | rule :: rules =>
      _ ← match direct_udp_redirect_range (RuleState.expressions rule) with
          | None => mret tt
          | Some existing => lift (check_redirects chain index existing (redirects desired))
          end;
      _ ← scan_jumps scan (RuleState.expressions rule);
      scan_rules scan chain (S index) rules
  end.

(** Every nested call has visited one more chain of the table. *)
Fixpoint scan_external_chain (fuel : nat) (chain : ChainState.t) {struct fuel} : stm (gset string) BoxError unit :=
  visited ← get;
  if bool_decide (ChainState.name chain ∈ visited) then mret tt
  else
    match fuel with
    | O => raise (boxed_operation ["out of fuel"])
    | S fuel =>
        _ ← modify (fun visited => {[ ChainState.name chain ]} ∪ visited);
        scan_rules (scan_external_chain fuel) (ChainState.name chain) 0 (rules_of snapshot family table (ChainState.name chain))
    end.
End scan.

Definition is_nat_base (chain : ChainState.t) : bool :=
  bool_decide (ChainState.chain_type chain = Some "nat") && equals (ChainState.hook chain) PRE_ROUTING.

Definition scan_table (snapshot : KernelSnapshot.t) (desired : Plan) (table : TableState.t) : result BoxError unit :=
  let family := TableState.family table in
  let name := TableState.name table in
  let chains := collect_map ((fun chain => (ChainState.name chain, chain)) <$> chains_of snapshot family name) in
  let bases := sort_by_key ChainState.name (retain is_nat_base (btree_iter chains).*2) in
  (for_in bases (scan_external_chain snapshot family name chains desired (S (size chains))) ∅).2.

Definition table_leb (a b : TableState.t) : bool :=
  cmp_leb (fun a b => then_with (family_rank (TableState.family a) ?= family_rank (TableState.family b))
                        (String.compare (TableState.name a) (TableState.name b))) a b.

Definition reject_external_conflicts (snapshot : KernelSnapshot.t) (managed_table : string) (desired : Plan) : result BoxError unit :=
  let tables := sort_by table_leb (retain (fun table => negb (String.eqb (TableState.name table) managed_table)) (KernelSnapshot.tables snapshot)) in
  (for_in tables (fun table => lift (scan_table snapshot desired table)) tt).2.
(** ** Inspection *)

Definition is_managed_chain (chain : ChainState.t) : bool :=
  String.eqb (ChainState.name chain) CHAIN_NAME
  && bool_decide (ChainState.chain_type chain = Some "nat")
  && equals (ChainState.hook chain) PRE_ROUTING
  && equals (ChainState.priority chain) NF_IP_PRI_NAT_DST
  && equals (ChainState.policy chain) NF_ACCEPT.

Section inspect.
Context (debug sha256 : string -> string).

(** The loop of [inspect_owned_rules]. *)
Fixpoint owned_rules (table_label owner : string) (rules : list RuleState.t) (digest : option string) (found : gmap string Redirect.t)
    : result BoxError (option string * gmap string Redirect.t) :=
  match rules with
  | [] => Ok (digest, found)
  | rule :: rules =>
      marker ← map_err (fun error => boxed_operation ["nftables table "; table_label; " is not owned by this node-agent: "; error])
                 (decode_rule_marker (RuleState.user_data rule));
      if negb (String.eqb (RuleMarker.owner marker) owner)
      then Err (boxed_operation ["nftables table "; table_label; " is not owned by this node-agent"])
      else if match digest with Some expected => negb (String.eqb expected (RuleMarker.digest marker)) | None => false end
      then Err (boxed_operation ["nftables table "; table_label; " contains inconsistent ownership markers"])
      else
        let digest := match digest with Some digest => Some digest | None => Some (RuleMarker.digest marker) end in
        match managed_redirect_rule (RuleState.expressions rule) with
        | None => Err (boxed_operation ["nftables table "; table_label;
                         " contains a managed rule that does not match its ownership metadata"])
        | Some (source, target) =>
            if negb (bool_decide (source = RuleMarker.ports marker)) || negb (target =? RuleMarker.listen_port marker)
            then Err (boxed_operation ["nftables table "; table_label;
                        " contains a managed rule that does not match its ownership metadata"])
            else
              let node_id := RuleMarker.node_id marker in
              let redirect := default (Redirect.mk node_id (RuleMarker.listen_port marker) []) (found !! node_id) in
              if negb (Redirect.listen_port redirect =? RuleMarker.listen_port marker)
              then Err (boxed_operation ["nftables table "; table_label; " contains inconsistent listen ports for node "; node_id])
              else
                let redirect := Redirect.mk (Redirect.node_id redirect) (Redirect.listen_port redirect)
                                  (Redirect.ports redirect ++ [RuleMarker.ports marker]) in
                owned_rules table_label owner rules digest (<[node_id := redirect]> found)
        end
  end.

(** [redirect.ports.sort_unstable()] *)
Definition sort_ports (redirect : Redirect.t) : Redirect.t :=
  Redirect.mk (Redirect.node_id redirect) (Redirect.listen_port redirect) (sort_by PortRange.leb (Redirect.ports redirect)).

Definition plan_of (found : gmap string Redirect.t) : Plan := mkPlan (sort_ports <$> (btree_iter found).*2).

Definition inspect_owned_rules (table_label owner : string) (rules : list RuleState.t) : result BoxError string :=
  '(digest, found) ← owned_rules table_label owner rules None ∅;
  let digest := default "" digest in
  if negb (String.eqb (plan_digest sha256 (plan_of found)) digest)
  then Err (boxed_operation ["nftables table "; table_label; " ownership metadata does not match its plan digest"])
  else Ok digest.

(** [marker.as_ref().is_some_and(...)] *)
Definition marker_is_some_and (marker : option ContainerMarker.t) (p : ContainerMarker.t -> bool) : bool :=
  match marker with Some marker => p marker | None => false end.

Definition inspect_managed_table (table_name owner : string) (table : TableState.t) (raw : KernelSnapshot.t)
    : result BoxError (string * nat) :=
  let family := TableState.family table in
  let label := fmt [show_family family; "/"; table_name] in
  let not_owned {A} (rest : list string) : result BoxError A := Err (boxed_operation (["nftables table "; label] ++ rest)) in
  let foreign (marker : option ContainerMarker.t) :=
    marker_is_some_and marker (fun marker => negb (String.eqb (ContainerMarker.owner marker) owner)) in
  table_marker ← map_err (fun error => boxed_operation ["nftables table "; label; " is not owned by this node-agent: "; error])
                   (decode_optional_container_marker (TableState.user_data table) TABLE_MARKER_MAGIC);
  if foreign table_marker then not_owned [" is not owned by this node-agent"]
  else
    let chains := chains_of raw family table_name in
    match chains with
    | [chain] =>
        if negb (String.eqb (ChainState.name chain) CHAIN_NAME)
        then not_owned [" is not owned by node-agent: unexpected chain "; ChainState.name chain]
        else if negb (is_managed_chain chain)
        then not_owned [" is not owned by node-agent: managed chain shape is invalid"]
        else
          chain_marker ← map_err (fun error => boxed_operation ["nftables table "; label; " is not owned by this node-agent: "; error])
                           (decode_optional_container_marker (ChainState.user_data chain) CHAIN_MARKER_MAGIC);
          if foreign chain_marker then not_owned [" is not owned by this node-agent"]
          else
            let rules := rules_of raw family table_name CHAIN_NAME in
            match rules with
            | [] => not_owned [" is not owned by node-agent: ownership marker is missing"]
            | _ =>
                digest ← inspect_owned_rules label owner rules;
                let other (marker : option ContainerMarker.t) :=
                  marker_is_some_and marker (fun marker => negb (String.eqb (ContainerMarker.digest marker) digest)) in
                if other table_marker || other chain_marker
                then not_owned [" ownership metadata contains an inconsistent container marker"]
                else Ok (digest, length rules)
            end
    | _ => not_owned [" is not owned by node-agent: expected one managed chain, found "; to_dec (Z.of_nat (length chains))]
    end.

(** [for family in Family::ALL] *)
Fixpoint find_tables (table_name : string) (raw : KernelSnapshot.t) (families : list Family) : result BoxError (list TableState.t) :=
  match families with
  | [] => Ok []
  | family :: families =>
      match retain (fun table => bool_decide (TableState.family table = family) && String.eqb (TableState.name table) table_name)
              (KernelSnapshot.tables raw) with
      | [] => find_tables table_name raw families
      | [first] => tables ← find_tables table_name raw families; Ok (first :: tables)
      | _ => Err (boxed_operation ["nftables table "; table_name; " is ambiguous: duplicate "; show_family family; " tables"])
      end
  end.

(** [for table in &tables]: the first digest and count, and whether the others agree. *)
Fixpoint inspect_tables (table_name owner : string) (raw : KernelSnapshot.t) (tables : list TableState.t)
    (first : option (string * nat)) (consistent : bool) : result BoxError (option (string * nat) * bool) :=
  match tables with
  | [] => Ok (first, consistent)
  | table :: tables =>
      found ← inspect_managed_table table_name owner table raw;
      match first with
      | Some expected => inspect_tables table_name owner raw tables first (consistent && bool_decide (expected = found))
      | None => inspect_tables table_name owner raw tables (Some found) consistent
      end
  end.

Definition mode_of (tables : list TableState.t) (consistent : bool) : FamilyMode.t * bool :=
  let has family := existsb (fun table => bool_decide (TableState.family table = family)) tables in
  match has Inet, has Ipv4, has Ipv6 with
  | true, false, false => (FamilyMode.Inet, consistent)
  | false, true, true => (FamilyMode.Split, consistent)
  | false, true, false | false, false, true => (FamilyMode.Split, false)
  | _, _, _ => (FamilyMode.Unknown, false)
  end.

Definition inspect_snapshot (table_name owner : string) (raw : KernelSnapshot.t) : result BoxError InspectedState.t :=
  tables ← find_tables table_name raw all_families;
  match tables with
  | [] => Ok (InspectedState.mk raw tables false FamilyMode.Unknown false "" 0)
  | _ =>
      '(first, consistent) ← inspect_tables table_name owner raw tables None true;
      let '(mode, complete) := mode_of tables consistent in
      let '(digest, count) := default ("", 0%nat) first in
      Ok (InspectedState.mk raw tables true mode complete (if consistent : bool then digest else "") (if consistent then count else 0%nat))
  end.

(** ** Batches *)

Definition desired_rules (owner digest : string) (redirect : Redirect.t) : result BoxError (list DesiredRule.t) :=
  mapM (fun ports =>
          marker ← encode_rule_marker debug owner digest redirect ports;
          Ok (DesiredRule.mk (redirect_expressions ports (Redirect.listen_port redirect)) marker)) (Redirect.ports redirect).

Definition build_batch (table_name owner : string) (current : InspectedState.t) (desired : Plan) (digest : string) (mode : FamilyMode.t)
    : result BoxError Batch.t :=
  let delete := (fun table => DeleteTable.mk (TableState.family table) (TableState.name table) (TableState.handle table))
                <$> InspectedState.tables current in
  if plan_is_empty desired then Ok (Batch.mk delete [])
  else
    match FamilyMode.families mode with
    | [] => Err (boxed_operation ["select nftables family for port hopping: mode is "; FamilyMode.to_string mode])
    | families =>
        table_marker ← encode_container_marker debug TABLE_MARKER_MAGIC owner digest;
        chain_marker ← encode_container_marker debug CHAIN_MARKER_MAGIC owner digest;
        create ← mapM (fun family =>
                         rules ← mapM (desired_rules owner digest) (redirects desired);
                         Ok (DesiredTable.mk family table_name table_marker chain_marker (mjoin rules))) families;
        Ok (Batch.mk delete create)
    end.
End inspect.
End expressions.

(** ** The backend *)

(** A connection to the kernel: opening one, dumping the tables, submitting a batch. *)
Class NftConnection (W C : Type) : Type := {
  open : W -> W * result IoError.t C;
  snapshot : C -> W -> W * result IoError.t KernelSnapshot.t;
  execute : C -> Batch.t -> W -> W * result IoError.t unit
}.

Module NftBackend.
Record t : Type := mk { table_name : string; owner : string; managed : bool; mode : FamilyMode.t }.

(** [NftBackend::new] *)
Definition new (sha256 : string -> string) (machine_id : string) : t :=
  let owner := owner_hash sha256 machine_id in
  mk (TABLE_PREFIX +:+ Hex.encode owner) owner false FamilyMode.Unknown.

Definition select_mode (self : t) (current : InspectedState.t) : FamilyMode.t :=
  if InspectedState.complete current then InspectedState.mode current
  else if negb (bool_decide (mode self = FamilyMode.Unknown)) then mode self
  else if negb (bool_decide (InspectedState.mode current = FamilyMode.Unknown)) then InspectedState.mode current
  else if negb (InspectedState.exists_ current) && InspectedState.family_unavailable current Inet then FamilyMode.Split
  else FamilyMode.Inet.
End NftBackend.

Inductive ApplyStateError : Type :=
  | Certain (error : BoxError)
  | Unsupported (mode : FamilyMode.t) (source : IoError.t)
  | Uncertain (error : BoxError).

Definition capability_error (mode : FamilyMode.t) (source : IoError.t) : BoxError :=
  CapabilityError "linux" "nftables UDP destination-port redirect"
    (fmt ["kernel rejected the "; FamilyMode.to_string mode; " NAT representation: "; IoError.text source;
          "; enable nf_tables, nft_nat and nft_redir support or use a supported kernel"])
    (Some (io_error source)).

(** The error numbers of Linux. *)
Definition EPERM : Z := 1.
Definition ENOENT : Z := 2.
Definition EACCES : Z := 13.
Definition ENODEV : Z := 19.
Definition ENOSYS : Z := 38.
Definition EPROTONOSUPPORT : Z := 93.
Definition EOPNOTSUPP : Z := 95.
Definition EAFNOSUPPORT : Z := 97.

Definition is_capability_errno (error : IoError.t) : bool :=
  match IoError.raw_os_error error with
  | Some errno => bool_decide (errno ∈ [EOPNOTSUPP; EAFNOSUPPORT; EPROTONOSUPPORT; ENOSYS; ENOENT; ENODEV])
  | None => false
  end.

Definition is_permission_errno (error : IoError.t) : bool :=
  match IoError.raw_os_error error with Some errno => bool_decide (errno ∈ [EPERM; EACCES]) | None => false end.

Section backend.
Context (debug sha256 : string -> string) `{!NetlinkFormat} {W C : Type} `{!NftConnection W C}.

(** A method of the backend; it also changes the world. *)
Local Abbreviation method E := (stm (NftBackend.t * W) E).

Definition call {E A} (f : W -> W * result E A) : method E A := fun s => let '(w, r) := f s.2 in ((s.1, w), r).

Definition this {E} : method E NftBackend.t := gets fst.

Definition set_managed {E} (managed : bool) : method E unit :=
  modify (fun s => (NftBackend.mk (NftBackend.table_name s.1) (NftBackend.owner s.1) managed (NftBackend.mode s.1), s.2)).

Definition set_mode {E} (mode : FamilyMode.t) : method E unit :=
  modify (fun s => (NftBackend.mk (NftBackend.table_name s.1) (NftBackend.owner s.1) (NftBackend.managed s.1) mode, s.2)).

(** The result of a call as a value, and a call with its error mapped. *)
Definition attempt {E E' A} (m : method E A) : method E' (result E A) := fun s => let '(s, r) := m s in (s, Ok r).
Definition mapped {E E' A} (f : E -> E') (m : method E A) : method E' A := fun s => let '(s, r) := m s in (s, map_err f r).

Definition inspect (raw : KernelSnapshot.t) : method BoxError InspectedState.t :=
  self ← this;
  lift (inspect_snapshot sha256 (NftBackend.table_name self) (NftBackend.owner self) raw).

Definition inspect_fresh : method BoxError InspectedState.t :=
  connection ← mapped (wrap_io "open nftables netlink connection for verification") (call open);
  raw ← mapped (wrap_io "inspect nftables state for verification") (call (snapshot connection));
  inspect raw.

(** What a successful batch leaves in the backend. *)
Definition remember {E} (desired : Plan) (mode : FamilyMode.t) : method E unit :=
  _ ← set_managed (negb (plan_is_empty desired));
  if plan_is_empty desired then mret tt else set_mode mode.

Definition ok_and {E A} (r : result E A) (p : A -> bool) : bool := match r with Ok a => p a | Err _ => false end.

Definition apply_state (connection : C) (current : InspectedState.t) (desired : Plan) (desired_digest : string) (mode : FamilyMode.t)
    : method ApplyStateError unit :=
  self ← this;
  batch ← lift (map_err Certain (build_batch debug (NftBackend.table_name self) (NftBackend.owner self) current desired desired_digest mode));
  _ ← set_managed (InspectedState.exists_ current || negb (plan_is_empty desired));
  submitted ← attempt (call (execute connection batch));
  match submitted with
  | Ok _ => remember desired mode
  | Err submit_error =>
      verification ← attempt inspect_fresh;
      if ok_and verification (fun fresh => InspectedState.matches fresh mode desired_digest (rule_count desired))
      then remember desired mode
      else if negb (InspectedState.exists_ current) && is_capability_errno submit_error
              && ok_and verification (fun fresh => negb (InspectedState.exists_ fresh))
      then _ ← set_managed false; raise (Unsupported mode submit_error)
      else
        let message := ["apply nftables port hopping state: "; IoError.text submit_error]
          ++ match verification with
             | Err verify_error => ["; verify state after failed acknowledgement: "; show verify_error]
             | Ok _ => []
             end in
        raise (Uncertain (StateUncertainError (Some (OperationError (fmt message) None))))
  end.

(** [Err(ApplyStateError::Certain(error) | ApplyStateError::Uncertain(error)) => Err(error)] *)
Definition apply_error (error : ApplyStateError) : BoxError :=
  match error with
  | Unsupported mode source => capability_error mode source
  | Certain error | Uncertain error => error
  end.

Definition retry_split (desired : Plan) (desired_digest : string) (inet_error : IoError.t) : method BoxError unit :=
  let context (rest : list string) := boxed_operation (["apply nftables inet port hopping state: "; IoError.text inet_error] ++ rest) in
  connection ← mapped (fun error => context ["; reopen before ip+ip6 fallback: "; IoError.text error]) (call open);
  raw ← mapped (fun error => context ["; inspect before ip+ip6 fallback: "; IoError.text error]) (call (snapshot connection));
  current ← inspect raw;
  if InspectedState.matches current FamilyMode.Inet desired_digest (rule_count desired)
  then _ ← set_managed true; set_mode FamilyMode.Inet
  else if InspectedState.exists_ current
  then raise (context ["; cannot safely retry with ip+ip6 because nftables state changed after the rejected inet batch"])
  else
    self ← this;
    _ ← lift (reject_external_conflicts (InspectedState.raw current) (NftBackend.table_name self) desired);
    mapped apply_error (apply_state connection current desired desired_digest FamilyMode.Split).

(** [apply], from the inspected state on. *)
Definition reconcile (connection : C) (current : InspectedState.t) (desired : Plan) : method BoxError unit :=
  self ← this;
  let digest := plan_digest sha256 desired in
  let mode := NftBackend.select_mode self current in
  if InspectedState.matches current mode digest (rule_count desired) then mret tt
  else if plan_is_empty desired && negb (InspectedState.exists_ current) then set_managed false
  else
    let can_fallback := negb (InspectedState.exists_ current) && bool_decide (NftBackend.mode self = FamilyMode.Unknown)
                        && bool_decide (mode = FamilyMode.Inet) in
    applied ← attempt (apply_state connection current desired digest mode);
    match applied with
    | Ok _ => mret tt
    | Err (Unsupported mode source) =>
        if can_fallback then retry_split desired digest source else raise (capability_error mode source)
    | Err error => raise (apply_error error)
    end.

Definition apply_current (connection : C) (raw : KernelSnapshot.t) (desired : Plan) : method BoxError unit :=
  current ← inspect raw;
  _ ← (if InspectedState.exists_ current then set_managed true else mret tt);
  _ ← (if InspectedState.complete current then set_mode (InspectedState.mode current) else mret tt);
  self ← this;
  if plan_is_empty desired && NftBackend.managed self && InspectedState.unavailable_for current (NftBackend.mode self)
  then raise (boxed_operation ["cannot verify cleanup of previously managed nftables "; FamilyMode.to_string (NftBackend.mode self);
                               " state because its kernel family is unavailable"])
  else
    _ ← (if plan_is_empty desired then mret tt
         else lift (reject_external_conflicts (InspectedState.raw current) (NftBackend.table_name self) desired));
    reconcile connection current desired.

(** [Backend::apply] *)
Definition apply (desired : Plan) : method BoxError unit :=
  self ← this;
  let lenient := plan_is_empty desired && negb (NftBackend.managed self) in
  opened ← attempt (call open);
  match opened with
  | Err error =>
      if lenient && (is_permission_errno error || is_capability_errno error) then mret tt
      else if is_capability_errno error then raise (capability_error (NftBackend.mode self) error)
      else raise (wrap_io "open nftables netlink connection" error)
  | Ok connection =>
      dumped ← attempt (call (snapshot connection));
      match dumped with
      | Err error => if lenient && is_permission_errno error then mret tt else raise (wrap_io "inspect nftables state" error)
      | Ok raw => apply_current connection raw desired
      end
  end.
End backend.
