(* ===== verification/NftCodec.v ===== *)
(** * What the nftables backend writes, it reads back

    Markers are a bijection between their fields and their bytes, a rule is recognised
    with its ports and target, and the tables a batch creates are recognised as the
    machine's own, holding the plan. *)

From Stdlib Require Import ZArith Lia Ascii.
From S2P Require Import Prelude Bytes Hex PortRanges PortHopping PortErrors Nft.

Open Scope Z_scope.

(** ** Bytes *)

Lemma length_chars s : length (chars s) = String.length s.
Proof. unfold chars. induction s as [|c s IH]; cbn; [done|]. by rewrite IH. Qed.

Lemma length_of_chars l : String.length (of_chars l) = length l.
Proof. by rewrite <- length_chars, chars_of_chars. Qed.

Lemma of_chars_app a b : of_chars (a ++ b) = of_chars a +:+ of_chars b.
Proof. apply chars_inj. by rewrite chars_app, !chars_of_chars. Qed.

Lemma length_append a b : String.length (a +:+ b) = (String.length a + String.length b)%nat.
Proof. by rewrite <- !length_chars, chars_app, length_app. Qed.

Lemma str_app_assoc a b c : (a +:+ b) +:+ c = a +:+ (b +:+ c).
Proof. apply chars_inj. by rewrite !chars_app, app_assoc. Qed.

Lemma str_app_nil a : a +:+ "" = a.
Proof. apply chars_inj. by rewrite chars_app, app_nil_r. Qed.

(** *** Slices *)

Lemma slice_app a b c n k : String.length a = n -> String.length b = k -> slice (a +:+ b +:+ c) n k = b.
Proof.
  intros <- <-. unfold slice. rewrite !chars_app, <- !length_chars, drop_app_length, take_app_length. apply of_chars_chars.
Qed.

Lemma from_app a b n : String.length a = n -> from (a +:+ b) n = b.
Proof. intros <-. unfold from. rewrite chars_app, <- length_chars, drop_app_length. apply of_chars_chars. Qed.

Lemma slice_from data n k : slice data n k +:+ from data (n + k) = from data n.
Proof. unfold slice, from. by rewrite <- of_chars_app, <- drop_drop, take_drop. Qed.

Lemma length_slice data n k : (n + k <= String.length data)%nat -> String.length (slice data n k) = k.
Proof. unfold slice. rewrite length_of_chars, length_take, length_drop, length_chars. lia. Qed.

Lemma length_from data n : String.length (from data n) = (String.length data - n)%nat.
Proof. unfold from. by rewrite length_of_chars, length_drop, length_chars. Qed.

Lemma starts_with_app a b : starts_with a (a +:+ b) = true.
Proof.
  unfold starts_with. induction a as [|c a IH]; [by destruct b|].
  change (String c a +:+ b) with (String c (a +:+ b)). cbn. by destruct (ascii_dec c c).
Qed.

Lemma starts_with_slice a s : starts_with a s = true -> slice s 0 (String.length a) = a.
Proof.
  unfold starts_with. revert s. induction a as [|c a IH]; intros [|d s]; cbn; try done.
  destruct (ascii_dec c d) as [->|]; [|done]. intros H. specialize (IH s H).
  unfold slice in *. cbn. unfold of_chars in *. cbn. f_equal. exact IH.
Qed.

Lemma code_inj c d : code c = code d -> c = d.
Proof. intros H. by rewrite <- (chr_code c), H, chr_code. Qed.

Lemma read_be16_be16 z : is_u16 z -> read_be16 (be16 z) = Some z.
Proof.
  unfold is_u16, u16_max. intros Hz. unfold be16, read_be16. rewrite !code_chr; [f_equal|..].
  - rewrite (Z.div_mod z 256) at 3 by lia. lia.
  - apply Z.mod_pos_bound. lia.
  - split; [apply Z.div_pos; lia|apply Z.div_lt_upper_bound; lia].
Qed.

Lemma be16_read_be16 s z : read_be16 s = Some z -> be16 z = s /\ is_u16 z.
Proof.
  destruct s as [|a [|b [|]]]; try done. cbn. intros [= <-].
  pose proof (code_range a). pose proof (code_range b). split; [|unfold is_u16, u16_max; lia].
  unfold be16. rewrite Z.div_add_l, (Z.div_small (code b)), Z.add_0_r by lia.
  rewrite (Z.add_comm (_ * _)), Z.mod_add, Z.mod_small by lia. by rewrite !chr_code.
Qed.

Lemma length_be16 z : String.length (be16 z) = 2%nat.
Proof. done. Qed.

Lemma read_be_u32_be32 z : is_u32 z -> read_be_u32 (be32 z) = Some z.
Proof.
  unfold is_u32, u32_max. intros Hz. unfold be32, be16.
  change (String ?a (String ?b "") +:+ ?c) with (String a (String b c)). unfold read_be_u32.
  assert (0 <= z / 65536 < 65536) by (split; [apply Z.div_pos; lia|apply Z.div_lt_upper_bound; lia]).
  pose proof (Z.mod_pos_bound z 65536 ltac:(lia)).
  rewrite !code_chr; try (apply Z.mod_pos_bound; lia); try (split; [apply Z.div_pos; lia|apply Z.div_lt_upper_bound; lia]).
  f_equal. pose proof (Z.div_mod z 65536 ltac:(lia)). pose proof (Z.div_mod (z / 65536) 256 ltac:(lia)).
  pose proof (Z.div_mod (z mod 65536) 256 ltac:(lia)). lia.
Qed.

(** ** Digests *)

Lemma hex_nibble_digit_at z : 0 <= z < 16 -> hex_nibble (Hex.digit_at z) = Some z.
Proof.
  intros Hz. assert (z = 0 \/ z = 1 \/ z = 2 \/ z = 3 \/ z = 4 \/ z = 5 \/ z = 6 \/ z = 7 \/ z = 8 \/ z = 9 \/ z = 10 \/
    z = 11 \/ z = 12 \/ z = 13 \/ z = 14 \/ z = 15) as H by lia.
  destruct_or! H; subst; done.
Qed.

Lemma digest_pairs_encode l : decode_pairs (Hex.encode_chars l) = Some l.
Proof.
  induction l as [|c l IH]; [done|]. cbn [Hex.encode_chars decode_pairs].
  rewrite !hex_nibble_digit_at by (apply Hex.high_nibble || apply Hex.low_nibble). rewrite IH. cbn. by rewrite Hex.nibbles_byte.
Qed.

Lemma length_encode bytes : String.length (Hex.encode bytes) = (2 * String.length bytes)%nat.
Proof. unfold Hex.encode. by rewrite length_of_chars, Hex.length_encode_chars, length_chars. Qed.

Lemma decode_digest_encode debug bytes : String.length bytes = 32%nat -> decode_digest debug (Hex.encode bytes) = Ok bytes.
Proof.
  intros Hl. unfold decode_digest, str_len. rewrite length_encode, Hl. change (negb (Z.of_nat (2 * 32) =? 64)) with false. cbv iota.
  unfold Hex.encode. by rewrite chars_of_chars, digest_pairs_encode, of_chars_chars.
Qed.

(** ** Markers *)

(** What a marker holds: an owner, a digest of 32 bytes in hexadecimal, a node id of at
    most 128 bytes and proper ports. *)
Record wf_marker (m : RuleMarker.t) : Prop := {
  wm_owner : String.length (RuleMarker.owner m) = 6%nat;
  wm_digest : exists d, String.length d = 32%nat /\ RuleMarker.digest m = Hex.encode d;
  wm_node : is_utf8 (chars (RuleMarker.node_id m)) = true;
  wm_listen : is_u16 (RuleMarker.listen_port m);
  wm_start : is_u16 (PortRange.start (RuleMarker.ports m));
  wm_end : is_u16 (PortRange.end_ (RuleMarker.ports m))
}.

Definition encode_marker (debug : string -> string) (m : RuleMarker.t) : result BoxError string :=
  encode_rule_marker debug (RuleMarker.owner m) (RuleMarker.digest m)
    (Redirect.mk (RuleMarker.node_id m) (RuleMarker.listen_port m) []) (RuleMarker.ports m).

(** The bytes of a marker. *)
Definition marker_bytes (owner d node : string) (listen_port start end_ : Z) : string :=
  RULE_MARKER_MAGIC +:+ owner +:+ d +:+ String (chr MARKER_PROTOCOL) "" +:+ be16 listen_port
  +:+ be16 start +:+ be16 end_ +:+ String (chr (str_len node)) "" +:+ node.

Definition valid_fields (node : string) (listen_port start end_ : Z) : Prop :=
  node <> "" /\ str_len node <= MAX_NODE_ID_BYTES /\ listen_port <> 0 /\ start <> 0 /\ start <= end_.

Lemma encode_rule_marker_Ok debug owner d redirect ports data :
  String.length d = 32%nat ->
  encode_rule_marker debug owner (Hex.encode d) redirect ports = Ok data <->
  valid_fields (Redirect.node_id redirect) (Redirect.listen_port redirect) (PortRange.start ports) (PortRange.end_ ports) /\
  data = marker_bytes owner d (Redirect.node_id redirect) (Redirect.listen_port redirect) (PortRange.start ports) (PortRange.end_ ports).
Proof.
  intros Hd. unfold encode_rule_marker, valid_fields. rewrite decode_digest_encode by done.
  destruct (is_empty _) eqn:E1; [apply is_empty_spec in E1; naive_solver|]. apply is_empty_false in E1.
  destruct (MAX_NODE_ID_BYTES <? _) eqn:E2; [split; [done|lia]|].
  destruct (_ || _) eqn:E3; [split; [done|lia]|]. cbn. unfold marker_bytes.
  split; [intros [= <-]; split; [|done]; split_and!; [done|lia..]|by intros [_ ->]].
Qed.

Lemma str_len_ge s : 0 <= str_len s.
Proof. unfold str_len. lia. Qed.

Lemma decode_marker_bytes owner d node listen_port start end_ :
  String.length owner = 6%nat -> String.length d = 32%nat -> is_utf8 (chars node) = true ->
  is_u16 listen_port -> is_u16 start -> is_u16 end_ -> valid_fields node listen_port start end_ ->
  decode_rule_marker (marker_bytes owner d node listen_port start end_)
  = Ok (RuleMarker.mk owner (Hex.encode d) node listen_port (PortRange.mk start end_)).
Proof.
  intros Ho Hd Hu Hl Hs He (Hne & Hlen & Hlp & Hst & Hse).
  assert (Hlb : String.length (marker_bytes owner d node listen_port start end_) = (53 + String.length node)%nat).
  { unfold marker_bytes. rewrite !length_append, Ho, Hd, !length_be16. cbn [String.length].
    change (String.length RULE_MARKER_MAGIC) with 7%nat. lia. }
  unfold decode_rule_marker. rewrite Hlb. replace (53 + _ <? FIXED)%nat with false by (symmetry; apply Nat.ltb_ge; unfold FIXED; lia).
  unfold marker_bytes at 1. rewrite starts_with_app. cbn [negb orb].
  assert (slice (marker_bytes owner d node listen_port start end_) 7 6 = owner) as -> by (unfold marker_bytes; by apply slice_app).
  set (rest := String (chr (str_len node)) "" +:+ node).
  assert (slice (marker_bytes owner d node listen_port start end_) 13 32 = d) as ->.
  { unfold marker_bytes. rewrite <- (str_app_assoc RULE_MARKER_MAGIC). apply slice_app; [|done]. rewrite length_append, Ho. done. }
  assert (slice (marker_bytes owner d node listen_port start end_) 45 1 = String (chr MARKER_PROTOCOL) "") as ->.
  { unfold marker_bytes. rewrite <- (str_app_assoc RULE_MARKER_MAGIC), <- (str_app_assoc _ d). apply slice_app; [|done].
    rewrite !length_append, Ho, Hd. done. }
  rewrite String.eqb_refl. cbn [negb].
  set (head := ((RULE_MARKER_MAGIC +:+ owner) +:+ d) +:+ String (chr MARKER_PROTOCOL) "").
  assert (Hhead : String.length head = 46%nat) by (unfold head; rewrite !length_append, Ho, Hd; done).
  assert (Hm : marker_bytes owner d node listen_port start end_ = head +:+ be16 listen_port +:+ be16 start +:+ be16 end_ +:+ rest).
  { unfold marker_bytes, head. by rewrite !str_app_assoc. }
  assert (slice (marker_bytes owner d node listen_port start end_) 46 2 = be16 listen_port) as -> by (rewrite Hm; by apply slice_app).
  assert (slice (marker_bytes owner d node listen_port start end_) 48 2 = be16 start) as ->.
  { rewrite Hm, <- (str_app_assoc head). apply slice_app; [rewrite length_append, Hhead; done|done]. }
  assert (slice (marker_bytes owner d node listen_port start end_) 50 2 = be16 end_) as ->.
  { rewrite Hm, <- (str_app_assoc head), <- (str_app_assoc (head +:+ _)). apply slice_app; [rewrite !length_append, Hhead; done|done]. }
  assert (slice (marker_bytes owner d node listen_port start end_) 52 1 = String (chr (str_len node)) "") as ->.
  { rewrite Hm, <- (str_app_assoc head), <- (str_app_assoc (head +:+ _)), <- (str_app_assoc ((head +:+ _) +:+ _)). unfold rest.
    apply slice_app; [rewrite !length_append, Hhead; done|done]. }
  assert (from (marker_bytes owner d node listen_port start end_) 53 = node) as ->.
  { rewrite Hm. unfold rest. rewrite <- !(str_app_assoc head), <- !str_app_assoc. apply from_app. rewrite !length_append, Hhead. done. }
  rewrite !read_be16_be16 by done. cbn [chars String.list_ascii_of_string].
  pose proof (str_len_ge node). unfold MAX_NODE_ID_BYTES in *. rewrite code_chr by lia.
  assert (str_len node <> 0) by (unfold str_len; destruct node; [done|cbn; lia]).
  replace (str_len (marker_bytes owner d node listen_port start end_)) with (53 + str_len node) by (unfold str_len; rewrite Hlb; lia).
  replace (_ || _ || _) with false by lia. rewrite Hu. cbn [negb]. by replace (_ || _ || _) with false by lia.
Qed.

Lemma slice_split data n k : (n + k <= String.length data)%nat ->
  from data n = slice data n k +:+ from data (n + k) /\ String.length (slice data n k) = k.
Proof. intros. split; [by rewrite slice_from|by apply length_slice]. Qed.

Lemma decode_rule_marker_Ok data m :
  decode_rule_marker data = Ok m ->
  exists d, String.length d = 32%nat /\ RuleMarker.digest m = Hex.encode d /\ wf_marker m /\
    valid_fields (RuleMarker.node_id m) (RuleMarker.listen_port m) (PortRange.start (RuleMarker.ports m)) (PortRange.end_ (RuleMarker.ports m)) /\
    data = marker_bytes (RuleMarker.owner m) d (RuleMarker.node_id m) (RuleMarker.listen_port m)
             (PortRange.start (RuleMarker.ports m)) (PortRange.end_ (RuleMarker.ports m)).
Proof.
  unfold decode_rule_marker. destruct (_ <? FIXED)%nat eqn:Hlen; [done|]. apply Nat.ltb_ge in Hlen. unfold FIXED in Hlen.
  destruct (starts_with _ _) eqn:Hmagic; [|done]. apply starts_with_slice in Hmagic. change (String.length RULE_MARKER_MAGIC) with 7%nat in Hmagic.
  destruct (String.eqb_spec (slice data 45 1) (String (chr MARKER_PROTOCOL) "")) as [Hp|]; [|done]. cbn [negb orb].
  destruct (read_be16 (slice data 46 2)) as [lp|] eqn:Hlp; [|done]. destruct (read_be16 (slice data 48 2)) as [st|] eqn:Hst; [|done].
  destruct (read_be16 (slice data 50 2)) as [en|] eqn:Hen; [|done].
  destruct (chars (slice data 52 1)) as [|len [|]] eqn:Hn; [done| |done].
  destruct (_ || _ || _) eqn:E1; [done|]. destruct (is_utf8 _) eqn:Hu; [|done]. cbn [negb].
  destruct ((lp =? 0) || _ || _) eqn:E2; [done|]. intros [= <-]. cbn.
  apply be16_read_be16 in Hlp as [Hlp Blp], Hst as [Hst Bst], Hen as [Hen Ben].
  assert (Hnode : String.length (from data 53) = Z.to_nat (code len)).
  { rewrite length_from. unfold str_len in *. pose proof (code_range len). lia. }
  assert (Hone : slice data 52 1 = String (chr (str_len (from data 53))) "").
  { apply chars_inj. rewrite Hn. unfold str_len. rewrite Hnode. pose proof (code_range len).
    rewrite Z2Nat.id by lia. by rewrite chr_code. }
  destruct (slice_split data 0 7) as [H0 _]; [lia|]. destruct (slice_split data 7 6) as [H1 L1]; [lia|].
  destruct (slice_split data 13 32) as [H2 L2]; [lia|]. destruct (slice_split data 45 1) as [H3 _]; [lia|].
  destruct (slice_split data 46 2) as [H4 _]; [lia|]. destruct (slice_split data 48 2) as [H5 _]; [lia|].
  destruct (slice_split data 50 2) as [H6 _]; [lia|]. destruct (slice_split data 52 1) as [H7 _]; [lia|].
  cbn [Nat.add] in *. exists (slice data 13 32). split; [done|]. split; [done|]. split; [|split].
  - split; [done|by exists (slice data 13 32)|done..].
  - unfold valid_fields. pose proof (code_range len). split_and!; [|unfold str_len, MAX_NODE_ID_BYTES in *; lia|lia..].
    intros He. rewrite He in Hnode. cbn in Hnode. lia.
  - unfold marker_bytes. rewrite Hlp, Hst, Hen, <- Hone, <- Hp.
    transitivity (from data 0); [unfold from; by rewrite drop_0, of_chars_chars|].
    rewrite H0, H1, H2, H3, H4, H5, H6, H7, Hmagic. done.
Qed.

Lemma marker_iff debug data m :
  decode_rule_marker data = Ok m <-> wf_marker m /\ encode_marker debug m = Ok data.
Proof.
  unfold encode_marker. split.
  - intros (d & Hd & Hdig & Hwf & Hv & ->)%decode_rule_marker_Ok. split; [done|]. rewrite Hdig.
    by apply encode_rule_marker_Ok.
  - intros [[Ho (d & Hd & Hdig) Hu Hl Hs He] Henc]. rewrite Hdig in Henc. apply encode_rule_marker_Ok in Henc as [Hv ->]; [|done].
    cbn in *. rewrite decode_marker_bytes by done. destruct m as [? ? ? ? []]. cbn in *. by subst.
Qed.

(** C11. Markers are read back exactly: a byte string decodes to a marker when, and only
    when, it is the encoding of that marker. *)
Theorem marker_exact debug data m :
  decode_rule_marker data = Ok m <-> wf_marker m /\ encode_marker debug m = Ok data.
Proof. apply marker_iff. Qed.

(** ** Rules *)

(** The conversions of the netlink crates: an expression is the data of its element,
    and the attribute of a port holds it. *)
Class NetlinkLaws `{!NetlinkFormat} : Prop := {
  element_data e : expression_data (element e) = Some e;
  emitted_value v : String.length v = 2%nat -> nlas (emit_value v) = [Ok (1, v)]
}.

Lemma range_kinds z : 3 <= z <= 4 -> Z.land (Z.lor z NLA_F_NESTED) NLA_TYPE_MASK = z.
Proof. intros Hz. assert (z = 3 \/ z = 4) as [-> | ->] by lia; reflexivity. Qed.

Definition valid_target (target : Z) : Prop := is_u16 target /\ target <> 0.

Lemma equals_refl z : equals (Some z) z = true.
Proof. by apply bool_decide_eq_true. Qed.

Lemma port_range_ok start end_ : valid (PortRange.mk start end_) -> port_range start end_ = Some (PortRange.mk start end_).
Proof. unfold valid, port_range. cbn. intros Hv. by replace (negb (start =? 0) && (start <=? end_)) with true by lia. Qed.

Section recognised.
Context `{!NetlinkFormat, !NetlinkLaws}.

Lemma single_port_match port :
  is_u16 port -> port_match (Expressions.Cmp [Cmp.SourceRegister Register.Reg1; Cmp.Op Operator.Equal; Cmp.Data (DataAttribute.Value (be16 port))])
                   Register.Reg1 = port_range port port.
Proof.
  intros Hp. cbn -[be16 read_be16 port_range]. rewrite !equals_refl. cbn -[be16 read_be16 port_range].
  by rewrite read_be16_be16.
Qed.

Lemma range_port_match start end_ :
  is_u16 start -> is_u16 end_ ->
  port_match (Expressions.Other "range" [be_u32_attr 1 Register.Reg1; be_u32_attr 2 Operator.Equal;
                                         nested_data_attr 3 (be16 start); nested_data_attr 4 (be16 end_)]) Register.Reg1
  = port_range start end_.
Proof.
  intros Hs He. unfold port_match, parse_range_attributes. rewrite String.eqb_refl. unfold be_u32_attr, nested_data_attr, nla_kind, nla_value.
  cbn [DefaultNla.kind DefaultNla.value]. rewrite !range_kinds by lia.
  change (Z.land 1 NLA_TYPE_MASK) with 1. change (Z.land 2 NLA_TYPE_MASK) with 2. cbn [Z.eqb Pos.eqb].
  rewrite !read_be_u32_be32 by (unfold is_u32, u32_max, Register.Reg1, Operator.Equal; lia).
  unfold nested_data_value. rewrite !emitted_value by done. cbn -[be16 read_be16 port_range]. by rewrite !read_be16_be16.
Qed.

Lemma redir_written : redir_uses (Expressions.Other "redir" [be_u32_attr 1 Register.Reg2]) Register.Reg2 = true.
Proof.
  unfold redir_uses. rewrite String.eqb_refl. unfold be_u32_attr, nla_kind, nla_value. cbn [DefaultNla.kind DefaultNla.value].
  change (Z.land 1 NLA_TYPE_MASK) with 1. cbn [Z.eqb Pos.eqb].
  rewrite read_be_u32_be32 by (unfold is_u32, u32_max, Register.Reg2; lia). by rewrite equals_refl.
Qed.

(** A rule that the backend writes is recognised with its ports and its target. *)
Lemma redirect_recognised ports target :
  valid ports -> valid_target target ->
  managed_redirect_rule (redirect_expressions ports target) = Some (ports, target).
Proof.
  intros Hv [Ht Hne]. destruct ports as [start end_]. pose proof (port_range_ok _ _ Hv) as Hr.
  assert (is_u16 start /\ is_u16 end_) as [Hs He] by (unfold valid, is_u16 in *; cbn in *; lia).
  assert (Hload : immediate_port (Expressions.Immediate [Immediate.DestinationRegister Register.Reg2;
                    Immediate.Data (DataAttribute.Value (be16 target))]) Register.Reg2 = Some target).
  { cbn -[be16 read_be16]. rewrite equals_refl. by apply read_be16_be16. }
  assert (Hudp : cmp_equals (Expressions.Cmp [Cmp.SourceRegister Register.Reg1; Cmp.Op Operator.Equal;
                   Cmp.Data (DataAttribute.Value udp_bytes)]) Register.Reg1 udp_bytes = true) by reflexivity.
  unfold redirect_expressions, raw_expression. cbn [PortRange.start PortRange.end_].
  destruct (start =? end_) eqn:E; unfold managed_redirect_rule; cbn [app]; rewrite !element_data.
  - apply Z.eqb_eq in E as <-. cbn [mbind option_bind]. rewrite Hudp, single_port_match, Hr, Hload by done.
    cbn -[redir_uses]. replace (target =? 0) with false by lia. rewrite redir_written. done.
  - cbn [mbind option_bind]. rewrite Hudp, range_port_match, Hr, Hload by done.
    cbn -[redir_uses]. replace (target =? 0) with false by lia. rewrite redir_written. done.
Qed.
End recognised.

(** ** Plans *)

(** The rules of a plan. *)
Definition plan_rules (plan : Plan) : list (Redirect.t * PortRange.t) :=
  redirects plan ≫= (fun redirect => (fun ports => (redirect, ports)) <$> Redirect.ports redirect).

(** What [build_plan] makes: redirects by distinct node ids in order, with at least one
    range each, the ranges proper and in order, and real ports. *)
Record canonical (plan : Plan) : Prop := {
  cn_ids : NoDup (Redirect.node_id <$> redirects plan);
  cn_sorted : sort_by_key Redirect.node_id (redirects plan) = redirects plan;
  cn_ports : Forall (fun r => Redirect.ports r <> [] /\ Forall valid (Redirect.ports r) /\
                              sort_by PortRange.leb (Redirect.ports r) = Redirect.ports r) (redirects plan);
  cn_target : Forall (fun r => valid_target (Redirect.listen_port r)) (redirects plan);
  cn_utf8 : Forall (fun r => is_utf8 (chars (Redirect.node_id r)) = true) (redirects plan)
}.

Lemma rule_count_plan plan : rule_count plan = length (plan_rules plan).
Proof.
  unfold rule_count, plan_rules. induction (redirects plan) as [|r l IH]; [done|]. cbn. by rewrite length_app, length_fmap, IH.
Qed.

Section owned.
Context `{!NetlinkFormat} (debug : string -> string) (label owner d : string).
Context (Howner : String.length owner = 6%nat) (Hd : String.length d = 32%nat).

(** A rule of the kernel that carries a redirect of a plan. *)
Definition carries (p : Redirect.t * PortRange.t) (rule : RuleState.t) : Prop :=
  encode_rule_marker debug owner (Hex.encode d) p.1 p.2 = Ok (RuleState.user_data rule) /\
  managed_redirect_rule (RuleState.expressions rule) = Some (p.2, Redirect.listen_port p.1).

Definition good_pair (p : Redirect.t * PortRange.t) : Prop :=
  valid p.2 /\ valid_target (Redirect.listen_port p.1) /\ is_utf8 (chars (Redirect.node_id p.1)) = true.

Lemma carried_marker p rule :
  good_pair p -> carries p rule ->
  decode_rule_marker (RuleState.user_data rule)
  = Ok (RuleMarker.mk owner (Hex.encode d) (Redirect.node_id p.1) (Redirect.listen_port p.1) p.2).
Proof.
  destruct p as [redirect ports]. intros (Hv & [Ht _] & Hu) [Henc _]. cbn in *. apply (marker_iff debug). split; [|exact Henc].
  unfold valid in Hv. split; cbn; [done|by exists d|done|done|unfold is_u16; lia|unfold is_u16; lia].
Qed.

(** Reading one rule adds its ports to those of its node. *)
Lemma owned_rules_cons p rule rules digest found prefix :
  good_pair p -> carries p rule -> default (Hex.encode d) digest = Hex.encode d ->
  default (Redirect.mk (Redirect.node_id p.1) (Redirect.listen_port p.1) []) (found !! Redirect.node_id p.1)
    = Redirect.mk (Redirect.node_id p.1) (Redirect.listen_port p.1) prefix ->
  owned_rules label owner (rule :: rules) digest found
  = owned_rules label owner rules (Some (Hex.encode d))
      (<[Redirect.node_id p.1 := Redirect.mk (Redirect.node_id p.1) (Redirect.listen_port p.1) (prefix ++ [p.2])]> found).
Proof.
  intros Hg Hc Hdig Hf. cbn [owned_rules]. rewrite (carried_marker p) by done. destruct Hc as [_ Hm]. rewrite Hm.
  cbn [map_err mbind result_bind RuleMarker.owner RuleMarker.digest RuleMarker.node_id RuleMarker.listen_port RuleMarker.ports].
  rewrite String.eqb_refl. cbn [negb].
  assert (match digest with Some expected => negb (String.eqb expected (Hex.encode d)) | None => false end = false) as ->.
  { destruct digest; [|done]. cbn in Hdig. subst. by rewrite String.eqb_refl. }
  rewrite bool_decide_eq_true_2, Z.eqb_refl by done. cbn [negb orb]. rewrite Hf. cbn [Redirect.listen_port Redirect.node_id Redirect.ports].
  rewrite Z.eqb_refl. cbn [negb]. destruct digest; [cbn in Hdig; by subst|done].
Qed.

Lemma owned_rules_redirect redirect ports rules rest digest found prefix :
  Forall2 carries ((fun p => (redirect, p)) <$> ports) rules -> Forall (fun p => good_pair (redirect, p)) ports ->
  ports <> [] -> default (Hex.encode d) digest = Hex.encode d ->
  default (Redirect.mk (Redirect.node_id redirect) (Redirect.listen_port redirect) []) (found !! Redirect.node_id redirect)
    = Redirect.mk (Redirect.node_id redirect) (Redirect.listen_port redirect) prefix ->
  owned_rules label owner (rules ++ rest) digest found
  = owned_rules label owner rest (Some (Hex.encode d))
      (<[Redirect.node_id redirect := Redirect.mk (Redirect.node_id redirect) (Redirect.listen_port redirect) (prefix ++ ports)]> found).
Proof.
  revert rules digest found prefix. induction ports as [|p ports IH]; intros rules digest found prefix Hc Hg Hne Hdig Hf; [done|].
  cbn in Hc. inversion Hc as [|? rule ? rules' Hr Hrs]; subst. inversion Hg as [|? ? Hg1 Hg2]; subst. cbn [app].
  rewrite (owned_rules_cons (redirect, p) rule _ _ _ prefix) by done. cbn [fst snd].
  destruct ports as [|p' ports]; [by inversion Hrs|].
  rewrite (IH rules' (Some (Hex.encode d)) _ (prefix ++ [p])); [|done..|by rewrite lookup_insert_eq].
  by rewrite insert_insert_eq, <- app_assoc.
Qed.

Lemma owned_rules_plan l rules digest found :
  Forall2 carries (l ≫= (fun redirect => (fun p => (redirect, p)) <$> Redirect.ports redirect)) rules ->
  Forall (fun r => Redirect.ports r <> [] /\ Forall (fun p => good_pair (r, p)) (Redirect.ports r)) l ->
  NoDup (Redirect.node_id <$> l) -> (forall r, r ∈ l -> found !! Redirect.node_id r = None) ->
  default (Hex.encode d) digest = Hex.encode d ->
  owned_rules label owner rules digest found
  = Ok (match l with [] => digest | _ => Some (Hex.encode d) end,
        foldl (fun found r => <[Redirect.node_id r := r]> found) found l).
Proof.
  revert rules digest found. induction l as [|r l IH]; intros rules digest found Hc Hg Hn Hf Hdig.
  { inversion Hc. done. }
  cbn in Hc. apply Forall2_app_inv_l in Hc as (rs1 & rs2 & H1 & H2 & ->). inversion Hg as [|? ? [Hne Hg1] Hg2]; subst.
  cbn in Hn. inversion Hn as [|? ? Hni Hn2]; subst.
  rewrite (owned_rules_redirect r (Redirect.ports r) rs1 rs2 _ _ []); [|done..|by rewrite Hf by left].
  rewrite (IH rs2); [|done..| |done].
  - cbn [foldl app]. destruct r; cbn. by destruct l.
  - intros r' Hr'. rewrite lookup_insert_ne; [apply Hf; by right|].
    intros Heq. apply Hni. rewrite Heq. by apply list_elem_of_fmap_2.
Qed.
End owned.

Lemma foldl_insert_map (l : list Redirect.t) (found : gmap string Redirect.t) :
  NoDup (Redirect.node_id <$> l) -> (forall r, r ∈ l -> found !! Redirect.node_id r = None) ->
  map_to_list (foldl (fun found r => <[Redirect.node_id r := r]> found) found l)
  ≡ₚ ((fun r => (Redirect.node_id r, r)) <$> l) ++ map_to_list found.
Proof.
  revert found. induction l as [|r l IH]; intros found Hn Hf; [done|]. cbn in Hn. inversion Hn as [|? ? Hni Hn2]; subst. cbn [foldl].
  rewrite IH; [|done|].
  - rewrite map_to_list_insert by (apply Hf; by left). cbn. by rewrite Permutation_middle.
  - intros r' Hr'. rewrite lookup_insert_ne; [apply Hf; by right|]. intros Heq. apply Hni. rewrite Heq. by apply list_elem_of_fmap_2.
Qed.

Lemma plan_of_canonical plan :
  canonical plan -> plan_of (foldl (fun found r => <[Redirect.node_id r := r]> found) ∅ (redirects plan)) = plan.
Proof.
  intros Hc. unfold plan_of. destruct plan as [l]. cbn [redirects].
  assert (btree_iter (foldl (fun found r => <[Redirect.node_id r := r]> found) ∅ l) = (fun r => (Redirect.node_id r, r)) <$> l) as ->.
  { unfold btree_iter. pose proof (cn_sorted _ Hc) as Hs. cbn in Hs. transitivity (sort_by_key fst ((fun r => (Redirect.node_id r, r)) <$> l)).
    - apply sort_by_key_unique.
      + rewrite foldl_insert_map by (apply (cn_ids _ Hc) || (intros; apply lookup_empty)).
        rewrite map_to_list_empty, app_nil_r, <- list_fmap_compose. apply (cn_ids _ Hc).
      + rewrite foldl_insert_map by (apply (cn_ids _ Hc) || (intros; apply lookup_empty)). by rewrite map_to_list_empty, app_nil_r.
    - rewrite <- Hs at 2. unfold sort_by_key. symmetry. by apply sort_by_map. }
  rewrite <- !list_fmap_compose. f_equal. pose proof (cn_ports _ Hc) as Hp. cbn in Hp. clear Hc.
  induction Hp as [|r l (_ & _ & Hs) _ IH]; [done|]. cbn. rewrite IH. unfold sort_ports. rewrite Hs. by destruct r.
Qed.

Section table.
Context `{!NetlinkFormat} (debug sha256 : string -> string).
Context (sha_length : forall bytes, String.length (sha256 bytes) = 32%nat).
Context (table_name owner : string) (Howner : String.length owner = 6%nat).
Implicit Types (plan : Plan) (raw : KernelSnapshot.t).

Lemma inspect_carried label plan rules :
  canonical plan -> redirects plan <> [] ->
  Forall2 (carries debug owner (sha256 (digest_bytes plan))) (plan_rules plan) rules ->
  inspect_owned_rules sha256 label owner rules = Ok (plan_digest sha256 plan).
Proof.
  intros Hc Hne Hr. unfold inspect_owned_rules.
  rewrite (owned_rules_plan debug label owner (sha256 (digest_bytes plan)) Howner (sha_length _) (redirects plan)); [|done| |apply (cn_ids _ Hc)| |done].
  - cbn. rewrite plan_of_canonical by done. destruct (redirects plan); [done|]. cbn.
    unfold plan_digest. rewrite String.eqb_refl. done.
  - pose proof (cn_ports _ Hc) as H1. pose proof (cn_target _ Hc) as H2. pose proof (cn_utf8 _ Hc) as H3.
    rewrite Forall_forall in *. intros r Hin. destruct (H1 r Hin) as (Hn & Hv & _). split; [done|].
    eapply Forall_impl; [exact Hv|]. intros p Hp. split_and!; cbn; [done|by apply H2|by apply H3].
  - intros. apply lookup_empty.
Qed.

Lemma container_marker_read magic d :
  String.length d = 32%nat ->
  decode_optional_container_marker (magic +:+ owner +:+ d) magic
  = Ok (Some (ContainerMarker.mk owner (Hex.encode d))).
Proof.
  intros Hd. unfold decode_optional_container_marker.
  assert (Hl : String.length (magic +:+ owner +:+ d) = (String.length magic + 38)%nat) by (rewrite !length_append, Howner, Hd; lia).
  destruct (is_empty _) eqn:E; [apply is_empty_spec in E; rewrite E in Hl; cbn in Hl; lia|].
  unfold str_len. rewrite Hl. assert (forall n : nat, (Z.of_nat (n + 38) =? Z.of_nat n + 6 + 32) = true) as -> by (intros n; apply Z.eqb_eq; lia). rewrite starts_with_app. cbn [negb orb].
  rewrite (slice_app magic owner d) by done. rewrite <- str_app_assoc, from_app; [done|]. by rewrite length_append, Howner.
Qed.

Lemma encode_container_Ok magic d : String.length d = 32%nat ->
  encode_container_marker debug magic owner (Hex.encode d) = Ok (magic +:+ owner +:+ d).
Proof. intros Hd. unfold encode_container_marker. by rewrite decode_digest_encode. Qed.

(** A table as a batch for the plan creates it. *)
Record holds (raw : KernelSnapshot.t) (table : TableState.t) (plan : Plan) : Prop := {
  hd_data : TableState.user_data table = TABLE_MARKER_MAGIC +:+ owner +:+ sha256 (digest_bytes plan);
  hd_chain : exists chain, chains_of raw (TableState.family table) table_name = [chain] /\ is_managed_chain chain = true /\
               ChainState.user_data chain = CHAIN_MARKER_MAGIC +:+ owner +:+ sha256 (digest_bytes plan);
  hd_rules : Forall2 (carries debug owner (sha256 (digest_bytes plan))) (plan_rules plan)
               (rules_of raw (TableState.family table) table_name CHAIN_NAME)
}.

Lemma inspect_holds raw table plan :
  canonical plan -> redirects plan <> [] -> holds raw table plan ->
  inspect_managed_table sha256 table_name owner table raw = Ok (plan_digest sha256 plan, rule_count plan).
Proof.
  intros Hc Hne [Hdata (chain & Hch & Hm & Hcd) Hr]. unfold inspect_managed_table. rewrite Hdata, container_marker_read by done.
  cbn [map_err mbind result_bind marker_is_some_and ContainerMarker.owner ContainerMarker.digest]. rewrite String.eqb_refl. cbn [negb].
  rewrite Hch, Hm. assert (String.eqb (ChainState.name chain) CHAIN_NAME = true) as ->.
  { unfold is_managed_chain in Hm. by apply andb_prop in Hm as [[[[? _]%andb_prop _]%andb_prop _]%andb_prop _]. }
  cbn [negb]. rewrite Hcd, container_marker_read by done.
  cbn [map_err mbind result_bind marker_is_some_and ContainerMarker.owner ContainerMarker.digest]. rewrite String.eqb_refl. cbn [negb].
  pose proof (Forall2_length _ _ _ Hr) as Hlen.
  rewrite (inspect_carried _ plan _ Hc Hne Hr). rewrite rule_count_plan, Hlen.
  destruct (rules_of _ _ _ _) as [|r rs] eqn:E.
  - exfalso. destruct Hc as [_ _ Hp _ _]. unfold plan_rules in Hlen. destruct (redirects plan) as [|r l]; [done|].
    inversion Hp as [|? ? (Hn & _) _]; subst. cbn in Hlen. rewrite length_app, length_fmap in Hlen. by destruct (Redirect.ports r).
  - cbn [mbind result_bind]. unfold plan_digest. rewrite String.eqb_refl. done.
Qed.
End table.
