(* ===== verification/NftSpec.v ===== *)
(** * The conflicts the nftables backend finds

    A foreign redirect is a conflict exactly when a chain that a NAT hook reaches holds
    it, through jumps and gotos of any depth: the scan visits exactly the
    reachable chains. *)

From Stdlib Require Import ZArith Lia Ascii.
From S2P Require Import Prelude Bytes Hex PortRanges PortHopping PortErrors Nft NftCodec.

Open Scope Z_scope.

(** ** Conflicts with other tables *)

Section conflicts.
Context {format : NetlinkFormat} (snapshot : KernelSnapshot.t) (family : Family) (table : string).
Context (chains : gmap string ChainState.t) (desired : Plan).
Context (Hnamed : forall k c, chains !! k = Some c -> ChainState.name c = k).
Implicit Types (c next : ChainState.t) (V : gset string).

Local Abbreviation rules c := (rules_of snapshot family table (ChainState.name c)).
Local Abbreviation known c := (chains !! ChainState.name c = Some c).

(** A rule of the chain jumps to the other. *)
Definition jump_of (expressions : list ListAttribute.t) next : Prop :=
  exists expression target, expression ∈ expressions /\ jump_target (expression_data expression) = Some target /\ chains !! target = Some next.

Definition jumps c next : Prop := exists rule, rule ∈ rules c /\ jump_of (RuleState.expressions rule) next.

Inductive reaches : ChainState.t -> ChainState.t -> Prop :=
  | reaches_refl c : reaches c c
  | reaches_step c next c' : jumps c next -> reaches next c' -> reaches c c'.

(** A rule whose redirect takes no port of the plan. *)
Definition clean_rule (rule : RuleState.t) : Prop :=
  forall existing redirect, direct_udp_redirect_range (RuleState.expressions rule) = Some existing -> redirect ∈ redirects desired ->
  first_overlap (Redirect.ports redirect) [existing] = None.

Definition clean c : Prop := forall rule, rule ∈ rules c -> clean_rule rule.

Definition dirty_from c : Prop := exists c', reaches c c' /\ ~ clean c'.

(** What a scan that found nothing has visited: new chains are clean and their jumps
    are visited as well. *)
Definition explored V V' : Prop :=
  V ⊆ V' /\ forall c, known c -> ChainState.name c ∈ V' -> ChainState.name c ∉ V ->
            clean c /\ forall next, jumps c next -> ChainState.name next ∈ V'.

Lemma explored_refl V : explored V V.
Proof. split; [done|]. by intros c _ H1 H2. Qed.

Lemma explored_trans V1 V2 V3 : explored V1 V2 -> explored V2 V3 -> explored V1 V3.
Proof.
  intros [Hs1 H1] [Hs2 H2]. split; [by etrans|]. intros c Hk H3 Hn. destruct (decide (ChainState.name c ∈ V2)) as [Hin|Hni].
  - destruct (H1 c Hk Hin Hn) as [Hc Hj]. split; [done|]. intros next Hjn. by apply Hs2, Hj.
  - by apply H2.
Qed.

(** What a scan of a chain answers. *)
Definition scanned c V (out : gset string * result BoxError unit) : Prop :=
  match out with
  | (V', Ok _) => explored V V' /\ ChainState.name c ∈ V'
  | (V', Err _) => dirty_from c
  end.

Lemma check_redirects_spec chain index existing l :
  match check_redirects chain index existing l with
  | Ok _ => forall redirect, redirect ∈ l -> first_overlap (Redirect.ports redirect) [existing] = None
  | Err _ => exists redirect, redirect ∈ l /\ first_overlap (Redirect.ports redirect) [existing] <> None
  end.
Proof.
  induction l as [|r l IH]; cbn; [by intros ? ?%elem_of_nil|]. destruct (first_overlap (Redirect.ports r) [existing]) eqn:E.
  - exists r. split; [by left|by rewrite E].
  - destruct (check_redirects _ _ _ _); [intros r' [->|Hin]%elem_of_cons; auto|].
    destruct IH as (r' & Hin & Hr). exists r'. split; [by right|done].
Qed.

Section loops.
Context (scan : ChainState.t -> stm (gset string) BoxError unit) (V0 : gset string).
Context (Hscan : forall c V, V0 ⊆ V -> known c -> scanned c V (scan c V)).

Lemma scan_jumps_spec expressions V :
  V0 ⊆ V ->
  match scan_jumps chains scan expressions V with
  | (V', Ok _) => explored V V' /\ forall next, jump_of expressions next -> ChainState.name next ∈ V'
  | (V', Err _) => exists next, jump_of expressions next /\ dirty_from next
  end.
Proof.
  revert V. induction expressions as [|e l IH]; intros V HV; cbn [scan_jumps].
  { split; [apply explored_refl|]. by intros next (? & ? & ?%elem_of_nil & _). }
  assert (Hrest : forall next, jump_of l next -> jump_of (e :: l) next).
  { intros next (e' & t & Hin & Ht). exists e', t. split; [by right|done]. }
  destruct (match jump_target (expression_data e) with Some t => chains !! t | None => None end) as [next|] eqn:Hj.
  - destruct (jump_target (expression_data e)) as [t|] eqn:Ht; [|done]. rewrite Hj.
    assert (Hk : known next) by (by rewrite (Hnamed t next Hj)).
    pose proof (Hscan next V HV Hk) as Hs. unfold mbind, stm_bind. destruct (scan next V) as [V1 [u|err]]; cbn in Hs.
    + destruct Hs as [He Hin]. specialize (IH V1 ltac:(destruct He; by etrans)). destruct (scan_jumps _ _ _ _) as [V2 [u2|err]].
      * destruct IH as [He2 Hall]. split; [by eapply explored_trans|]. intros next' (e' & t' & [->|Hin']%elem_of_cons & Ht' & Hc').
        -- destruct He2 as [Hsub _]. rewrite Ht in Ht'. injection Ht' as <-. rewrite Hj in Hc'. injection Hc' as <-. by apply Hsub.
        -- apply Hall. by exists e', t'.
      * destruct IH as (n' & Hn & Hd). exists n'. auto.
    + exists next. split; [|done]. exists e, t. split; [by left|done].
  - assert (Hnone : forall next, jump_of (e :: l) next -> jump_of l next).
    { intros next (e' & t & [->|Hin]%elem_of_cons & Ht & Hc); [|by exists e', t]. by rewrite Ht, Hc in Hj. }
    assert ((match jump_target (expression_data e) with
             | None => mret tt
             | Some target => match chains !! target with None => mret tt | Some next => scan next end
             end ≫= λ _, scan_jumps chains scan l) V = scan_jumps chains scan l V) as Heq.
    { destruct (jump_target _); [by rewrite Hj|done]. }
    rewrite Heq. specialize (IH V HV). destruct (scan_jumps _ _ _ _) as [V1 [u|err]].
    + destruct IH as [He Hall]. split; [done|]. auto.
    + destruct IH as (n & Hn & Hd). exists n. auto.
Qed.

Lemma clean_head rule index chain :
  match (match direct_udp_redirect_range (RuleState.expressions rule) with
         | None => mret tt
         | Some existing => lift (check_redirects chain index existing (redirects desired))
         end : stm (gset string) BoxError unit) V0 with
  | (V, Ok _) => V = V0 /\ clean_rule rule
  | (V, Err _) => ~ clean_rule rule
  end.
Proof.
  unfold clean_rule. destruct (direct_udp_redirect_range _) as [existing|]; cbn.
  - pose proof (check_redirects_spec chain index existing (redirects desired)) as Hc.
    destruct (check_redirects _ _ _ _); cbn.
    + split; [done|]. intros ? redirect [= <-]. apply Hc.
    + intros H. destruct Hc as (r & Hin & Hr). by apply Hr, H.
  - by split.
Qed.
End loops.

Lemma scan_rules_spec scan V0 chain index l V :
  (forall c V, V0 ⊆ V -> known c -> scanned c V (scan c V)) -> V0 ⊆ V ->
  match scan_rules chains desired scan chain index l V with
  | (V', Ok _) => explored V V' /\ forall rule, rule ∈ l -> clean_rule rule /\
                    forall next, jump_of (RuleState.expressions rule) next -> ChainState.name next ∈ V'
  | (V', Err _) => exists rule, rule ∈ l /\
                    (~ clean_rule rule \/ exists next, jump_of (RuleState.expressions rule) next /\ dirty_from next)
  end.
Proof.
  intros Hscan. revert index V. induction l as [|rule l IH]; intros index V HV; cbn [scan_rules].
  { split; [apply explored_refl|]. by intros rule ?%elem_of_nil. }
  pose proof (clean_head V rule index chain) as Hh. unfold mbind, stm_bind.
  match type of Hh with match ?x with _ => _ end => destruct x as [V1 [u|err]] end.
  2: { exists rule. split; [by left|by left]. }
  destruct Hh as [-> Hclean]. pose proof (scan_jumps_spec scan V0 Hscan (RuleState.expressions rule) V HV) as Hj.
  destruct (scan_jumps _ _ _ _) as [V2 [u2|err]].
  2: { exists rule. split; [by left|by right]. }
  destruct Hj as [He Hall]. specialize (IH (S index) V2 ltac:(destruct He; by etrans)).
  destruct (scan_rules _ _ _ _ _ _ _) as [V3 [u3|err]].
  - destruct IH as [He3 Hl]. split; [by eapply explored_trans|]. intros r [->|Hin]%elem_of_cons; [|by apply Hl].
    split; [done|]. intros next Hn. destruct He3 as [Hsub _]. by apply Hsub, Hall.
  - destruct IH as (r & Hin & Hr). exists r. split; [by right|done].
Qed.

Lemma dirty_here c : (exists rule, rule ∈ rules c /\ ~ clean_rule rule) -> dirty_from c.
Proof. intros (rule & Hin & Hd). exists c. split; [constructor|]. intros Hc. by apply Hd, Hc. Qed.

Lemma scan_external_chain_spec fuel c V :
  known c -> (size (dom chains ∖ V) < fuel)%nat ->
  scanned c V (scan_external_chain snapshot family table chains desired fuel c V).
Proof.
  revert c V. induction fuel as [|fuel IH]; intros c V Hk Hf; [lia|]. cbn [scan_external_chain].
  unfold get, modify, mbind, stm_bind. case_bool_decide as Hv; [by split; [apply explored_refl|]|].
  set (V0 := {[ ChainState.name c ]} ∪ V). assert (Hin : ChainState.name c ∈ V0) by (apply elem_of_union; left; by apply elem_of_singleton).
  assert (Hsub : V ⊆ V0) by (intros x Hx; apply elem_of_union; by right).
  assert (Hsize : (size (dom chains ∖ V0) < fuel)%nat).
  { assert (size (dom chains ∖ V0) < size (dom chains ∖ V))%nat; [|lia]. apply subset_size. split.
    - intros x [Hx Hn]%elem_of_difference. apply elem_of_difference. split; [done|]. intros Hv'. by apply Hn, Hsub.
    - intros Hs. assert (ChainState.name c ∈ dom chains ∖ V0) as [_ Hn]%elem_of_difference; [|done].
      apply Hs, elem_of_difference. split; [by apply elem_of_dom|done]. }
  pose proof (scan_rules_spec (scan_external_chain snapshot family table chains desired fuel) V0 (ChainState.name c) 0 (rules c) V0) as Hr.
  destruct (scan_rules _ _ _ _ _ _ _) as [V' [u|err]]; cbn.
  - destruct Hr as [[Hs He] Hall]; [|done|].
    { intros c' V'' HV Hk'. apply IH; [done|]. eapply Nat.le_lt_trans; [|exact Hsize]. apply subseteq_size.
      intros x [Hx Hn]%elem_of_difference. apply elem_of_difference. split; [done|]. intros Hv'. by apply Hn, HV. }
    split; [|by apply Hs]. split; [by etrans|]. intros c' Hk' Hin' Hni. destruct (decide (ChainState.name c' = ChainState.name c)) as [Heq|Hne].
    + rewrite Heq in Hk'. rewrite Hk in Hk'. injection Hk' as <-. split.
      * intros rule Hrule. by apply Hall.
      * intros next (rule & Hrule & Hj). by eapply Hall.
    + apply He; [done|done|]. intros [?%elem_of_singleton|?]%elem_of_union; done.
  - destruct Hr as (rule & Hrule & [Hd|(next & Hj & (c' & Hreach & Hd))]); [|done| |].
    { intros c' V'' HV Hk'. apply IH; [done|]. eapply Nat.le_lt_trans; [|exact Hsize]. apply subseteq_size.
      intros x [Hx Hn]%elem_of_difference. apply elem_of_difference. split; [done|]. intros Hv'. by apply Hn, HV. }
    + apply dirty_here. by exists rule.
    + exists c'. split; [|done]. eapply reaches_step; [|exact Hreach]. by exists rule.
Qed.
End conflicts.

(** A scan that found nothing has seen every chain that a base reaches. *)
Lemma explored_clean {format : NetlinkFormat} snapshot family table chains desired V c c' :
  (forall k c, chains !! k = Some c -> ChainState.name c = k) ->
  explored snapshot family table chains desired ∅ V -> chains !! ChainState.name c = Some c -> ChainState.name c ∈ V ->
  reaches snapshot family table chains c c' -> clean snapshot family table desired c'.
Proof.
  intros Hnamed [_ He] Hk Hin Hr. induction Hr as [c|c next c' Hj Hr IH].
  - apply He; [done|done|apply not_elem_of_empty].
  - destruct (He c Hk Hin (not_elem_of_empty _)) as [_ Hall]. apply IH; [|by apply Hall].
    destruct Hj as (rule & _ & e & t & _ & _ & Hc). by rewrite (Hnamed t next Hc).
Qed.

Lemma scan_bases_spec {format : NetlinkFormat} snapshot family table chains desired bases V :
  (forall k c, chains !! k = Some c -> ChainState.name c = k) ->
  (forall c, c ∈ bases -> chains !! ChainState.name c = Some c) ->
  match for_in bases (scan_external_chain snapshot family table chains desired (S (size chains))) V with
  | (V', Ok _) => explored snapshot family table chains desired V V' /\ forall c, c ∈ bases -> ChainState.name c ∈ V'
  | (_, Err _) => exists c, c ∈ bases /\ dirty_from snapshot family table chains desired c
  end.
Proof.
  intros Hnamed. revert V. induction bases as [|c bases IH]; intros V Hk; cbn [for_in].
  { split; [apply explored_refl|]. by intros c ?%elem_of_nil. }
  assert (Hs : scanned snapshot family table chains desired c V
                 (scan_external_chain snapshot family table chains desired (S (size chains)) c V)).
  { apply scan_external_chain_spec; [done|apply Hk; by left|]. rewrite <- size_dom. apply Nat.lt_succ_r, subseteq_size.
    intros x Hx. by apply elem_of_difference in Hx as [? _]. }
  unfold mbind, stm_bind. destruct (scan_external_chain _ _ _ _ _ _ c V) as [V1 [u|e]]; cbn in Hs.
  - destruct Hs as [He Hin]. specialize (IH V1 (fun c' H => Hk c' (list_elem_of_further _ _ _ H))).
    destruct (for_in bases _ V1) as [V2 [u2|e]].
    + destruct IH as [He2 Hall]. split; [by eapply explored_trans|]. intros c' [->|H]%elem_of_cons; [|by apply Hall].
      destruct He2 as [Hsub _]. by apply Hsub.
    + destruct IH as (c' & H & Hd). exists c'. split; [by right|done].
  - exists c. split; [by left|done].
Qed.

Section conflict_free.
Context {format : NetlinkFormat} (snapshot : KernelSnapshot.t) (desired : Plan).

(** The chains of a table by name. *)
Definition chain_map (table : TableState.t) : gmap string ChainState.t :=
  collect_map ((fun chain => (ChainState.name chain, chain)) <$> chains_of snapshot (TableState.family table) (TableState.name table)).

(** No rule of a chain that a NAT hook reaches redirects a port of the plan. *)
Definition conflict_free (table : TableState.t) : Prop :=
  forall base c rule existing port redirect,
    chain_map table !! ChainState.name base = Some base -> is_nat_base base = true ->
    reaches snapshot (TableState.family table) (TableState.name table) (chain_map table) base c ->
    rule ∈ rules_of snapshot (TableState.family table) (TableState.name table) (ChainState.name c) ->
    direct_udp_redirect_range (RuleState.expressions rule) = Some existing ->
    redirect ∈ redirects desired -> PortRange.contains existing port = true -> covers (Redirect.ports redirect) port = false.

Lemma chain_map_named table k c : chain_map table !! k = Some c -> ChainState.name c = k.
Proof.
  unfold chain_map. induction (chains_of _ _ _) as [|x l IH] using rev_ind; [cbn; by rewrite lookup_empty|].
  rewrite fmap_app. cbn [fmap list_fmap]. rewrite collect_map_snoc. intros [[Hk Hx]|[_ H]]%lookup_insert_Some; [by subst|by apply IH].
Qed.

Lemma clean_covers family table c :
  clean snapshot family table desired c <->
  forall rule existing port redirect, rule ∈ rules_of snapshot family table (ChainState.name c) ->
    direct_udp_redirect_range (RuleState.expressions rule) = Some existing ->
    redirect ∈ redirects desired -> PortRange.contains existing port = true -> covers (Redirect.ports redirect) port = false.
Proof.
  assert (Hone : forall r p, covers [r] p = PortRange.contains r p) by (intros; unfold covers; cbn; apply orb_false_r).
  unfold clean, clean_rule. setoid_rewrite first_overlap_None. setoid_rewrite Hone. split.
  - intros H rule existing port redirect Hr He Hd Hp. destruct (covers _ _) eqn:E; [|done]. exfalso. by eapply (H rule Hr existing redirect He Hd port).
  - intros H rule Hr existing redirect He Hd p Hc Hp. by rewrite (H rule existing p redirect) in Hc.
Qed.

Lemma scan_table_spec table :
  match scan_table snapshot desired table with Ok _ => conflict_free table | Err _ => ~ conflict_free table end.
Proof.
  unfold scan_table. fold (chain_map table). set (bases := sort_by_key _ _).
  assert (Hb : forall c, c ∈ bases <-> is_nat_base c = true /\ chain_map table !! ChainState.name c = Some c).
  { intros c. unfold bases, sort_by_key. rewrite elem_of_sort_by, elem_of_retain, list_elem_of_fmap. split.
    - intros [Hn ([k c'] & Heq & Hin%elem_of_btree_iter)]. cbn in Heq. subst c'. split; [done|]. by rewrite (chain_map_named table k c Hin).
    - intros [Hn Hc]. split; [done|]. exists (ChainState.name c, c). split; [done|]. by apply elem_of_btree_iter. }
  pose proof (scan_bases_spec snapshot (TableState.family table) (TableState.name table) (chain_map table) desired bases ∅
                (chain_map_named table) (fun c H => proj2 (proj1 (Hb c) H))) as Hs.
  destruct (for_in bases _ ∅) as [V [u|e]]; cbn [snd].
  - destruct Hs as [He Hall]. intros base c rule existing port redirect Hbase Hn Hr. apply clean_covers.
    eapply explored_clean; [apply chain_map_named|exact He|exact Hbase| |exact Hr]. by apply Hall, Hb.
  - destruct Hs as (base & [Hn Hbase]%Hb & c & Hr & Hd). intros Hfree. apply Hd, clean_covers. intros. by eapply Hfree.
Qed.

(** C10. Conflicts with the rules of others are found exactly: applying a plan is refused
    when, and only when, some rule of another table redirects one of the plan's UDP ports
    on a chain that a prerouting NAT hook reaches by jumps.  The scan visits every chain
    at most once, so it ends on cyclic jumps as well. *)
Theorem conflicts_exact managed_table :
  reject_external_conflicts snapshot managed_table desired = Ok tt <->
  forall table, table ∈ KernelSnapshot.tables snapshot -> TableState.name table <> managed_table -> conflict_free table.
Proof.
  unfold reject_external_conflicts. set (tables := sort_by _ _).
  assert (Hloop : forall l, (for_in l (fun table => lift (scan_table snapshot desired table)) tt).2 = Ok tt <-> Forall conflict_free l).
  { induction l as [|table l IH]; [done|]. cbn [for_in]. unfold mbind, stm_bind, lift. rewrite Forall_cons, <- IH.
    pose proof (scan_table_spec table) as Hs. destruct (scan_table _ _ _) as [[]|]; cbn; [tauto|]. split; [done|]. by intros [? _]. }
  rewrite Hloop, Forall_forall. unfold tables. setoid_rewrite elem_of_sort_by. setoid_rewrite elem_of_retain.
  split; intros H table.
  - intros Hin Hne. apply H. split; [|done]. by apply negb_true_iff, String.eqb_neq.
  - intros [Hne Hin]. apply H; [done|]. by apply String.eqb_neq, negb_true_iff.
Qed.
End conflict_free.
