(* ===== verification/NftContract.v ===== *)
(** * The nftables backend keeps the contract of a port hopping backend

    [inspect_snapshot] accepts the tables of the machine's name only when they are its
    own, and then knows what they forward.  Against a kernel that applies a batch as a
    whole or not at all, [apply] installs the desired plan or leaves the forwarding state
    as it was unless it says that the state is uncertain, keeps the tables of others, and
    does nothing when the plan is installed already. *)

From Stdlib Require Import ZArith Lia Ascii.
From S2P Require Import Prelude Bytes Hex PortRanges PortHopping PortErrors Nft NftCodec.

Open Scope Z_scope.

(** ** What a plan forwards: source ports to a target port *)

Definition forwards_of (redirect : Redirect.t) : list (PortRange.t * Z) :=
  (fun ports => (ports, Redirect.listen_port redirect)) <$> Redirect.ports redirect.

Definition forwards (plan : Plan) : list (PortRange.t * Z) := redirects plan ≫= forwards_of.

Definition found_forwards (found : gmap string Redirect.t) : list (PortRange.t * Z) :=
  map_to_list found ≫= (fun p => forwards_of p.2).

Lemma found_insert found k r :
  found_forwards (<[k := r]> found) ≡ₚ forwards_of r ++ found_forwards (delete k found).
Proof.
  unfold found_forwards. rewrite <- insert_delete_eq, map_to_list_insert by apply lookup_delete_eq. done.
Qed.

Lemma found_lookup found k : found_forwards found ≡ₚ default [] (forwards_of <$> found !! k) ++ found_forwards (delete k found).
Proof.
  destruct (found !! k) as [r|] eqn:E; cbn.
  - rewrite <- found_insert, insert_id by done. done.
  - by rewrite delete_id.
Qed.

Lemma forwards_perm l (f : Redirect.t -> Redirect.t) :
  (forall r, forwards_of (f r) ≡ₚ forwards_of r) -> (f <$> l) ≫= forwards_of ≡ₚ l ≫= forwards_of.
Proof. intros H. induction l as [|r l IH]; [done|]. cbn. by rewrite H, IH. Qed.

Lemma plan_of_forwards found : forwards (plan_of found) ≡ₚ found_forwards found.
Proof.
  unfold forwards, plan_of, found_forwards. cbn [redirects]. rewrite forwards_perm.
  - rewrite btree_iter_perm. induction (map_to_list found) as [|p l IH]; [done|]. cbn. by rewrite IH.
  - intros r. unfold forwards_of, sort_ports. cbn. by rewrite sort_by_perm.
Qed.

(** ** The tables of the machine *)

Section own_tables.
Context (table_name : string).
Implicit Types (raw : KernelSnapshot.t) (table : TableState.t).

(** The tables of a family with the name of the machine. *)
Definition own raw (family : Family) : list TableState.t :=
  retain (fun table => bool_decide (TableState.family table = family) && String.eqb (TableState.name table) table_name)
    (KernelSnapshot.tables raw).

Lemma elem_of_own raw family table :
  table ∈ own raw family <-> TableState.family table = family /\ TableState.name table = table_name /\ table ∈ KernelSnapshot.tables raw.
Proof. unfold own. rewrite elem_of_retain, andb_true_iff, bool_decide_eq_true, String.eqb_eq. tauto. Qed.

Lemma find_tables_Ok raw families tables :
  find_tables table_name raw families = Ok tables <->
  tables = families ≫= own raw /\ Forall (fun family => (length (own raw family) <= 1)%nat) families.
Proof.
  revert tables. induction families as [|family families IH]; intros tables; cbn [find_tables]; [split; [by intros [= <-]|by intros [-> _]]|].
  fold (own raw family). rewrite Forall_cons. cbn [mbind list_bind]. destruct (own raw family) as [|t [|]] eqn:E; cbn [length].
  - rewrite IH. naive_solver lia.
  - split.
    + intros H. apply bind_Ok in H as (ts & Hts & H). injection H as <-. apply IH in Hts as [-> Hf]. done.
    + intros (-> & _ & Hf). rewrite (proj2 (IH (families ≫= own raw))) by done. done.
  - split; [done|]. intros (_ & ? & _). lia.
Qed.

Lemma all_own raw table : table ∈ all_families ≫= own raw <-> TableState.name table = table_name /\ table ∈ KernelSnapshot.tables raw.
Proof.
  rewrite list_elem_of_bind. setoid_rewrite elem_of_own. split; [naive_solver|]. intros [Hn Hin].
  exists (TableState.family table). split; [done|]. destruct (TableState.family table); unfold all_families; set_solver.
Qed.

Lemma has_family raw family families :
  Forall (fun family => (length (own raw family) <= 1)%nat) families -> family ∈ families ->
  existsb (fun table => bool_decide (TableState.family table = family)) (families ≫= own raw)
  = negb (bool_decide (own raw family = [])).
Proof.
  intros _ Hin. apply eq_true_iff_eq. rewrite negb_true_iff, bool_decide_eq_false, existsb_exists. setoid_rewrite <- list_elem_of_In.
  setoid_rewrite list_elem_of_bind. split.
  - intros (t & (f & Hf & _) & Ht%bool_decide_eq_true) He. apply elem_of_own in Hf as (? & ? & ?).
    assert (t ∈ own raw family) as Hx by (by apply elem_of_own). rewrite He in Hx. by apply elem_of_nil in Hx.
  - intros Hne. destruct (own raw family) as [|t l] eqn:E; [done|].
    assert (t ∈ own raw family) as Hx by (rewrite E; by left). exists t. split; [by exists family|].
    apply bool_decide_eq_true. by apply elem_of_own in Hx as (? & _).
Qed.

End own_tables.

(** ** Inspection *)

Section inspection.
Context {format : NetlinkFormat} (sha256 : string -> string) (table_name owner : string).
Implicit Types (raw k : KernelSnapshot.t) (table : TableState.t) (plan : Plan).

(** A rule that carries a marker of the machine. *)
Definition owned_rule (rule : RuleState.t) : Prop :=
  exists m, decode_rule_marker (RuleState.user_data rule) = Ok m /\ RuleMarker.owner m = owner.

(** The rules are redirects, in this order. *)
Definition reads (rules : list RuleState.t) (pairs : list (PortRange.t * Z)) : Prop :=
  Forall2 (fun rule p => managed_redirect_rule (RuleState.expressions rule) = Some p) rules pairs.

Lemma owned_rules_sound label rules digest found digest' found' :
  owned_rules label owner rules digest found = Ok (digest', found') ->
  Forall owned_rule rules /\ exists pairs, reads rules pairs /\ found_forwards found' ≡ₚ found_forwards found ++ pairs.
Proof.
  revert digest found. induction rules as [|rule rules IH]; intros digest found; cbn [owned_rules].
  { intros [= <- <-]. split; [done|]. exists []. split; [constructor|by rewrite app_nil_r]. }
  intros H. apply bind_Ok in H as (m & Hm & H).
  destruct (decode_rule_marker _) as [m'|] eqn:Hdec; [|done]. injection Hm as ->.
  destruct (String.eqb_spec (RuleMarker.owner m) owner) as [Ho|]; [|done]. cbn [negb] in H.
  destruct (match digest with Some _ => _ | None => _ end); [done|].
  destruct (managed_redirect_rule _) as [[ports target]|] eqn:Hr; [|done].
  case_bool_decide as Hp; [|done]. destruct (Z.eqb_spec target (RuleMarker.listen_port m)) as [Ht|]; [|done]. cbn [negb orb] in H.
  destruct (Z.eqb_spec (Redirect.listen_port (default (Redirect.mk (RuleMarker.node_id m) (RuleMarker.listen_port m) [])
                          (found !! RuleMarker.node_id m))) (RuleMarker.listen_port m)) as [Hl|]; [|done]. cbn [negb] in H.
  apply IH in H as (Hown & pairs & Hreads & Hperm). split; [constructor; [by exists m|done]|].
  exists ((ports, target) :: pairs). split; [by constructor|]. rewrite Hperm, found_insert, (found_lookup found (RuleMarker.node_id m)).
  subst ports target. unfold forwards_of at 1. cbn [Redirect.ports Redirect.listen_port]. rewrite fmap_app, Hl. cbn [fmap list_fmap].
  assert (forwards_of (default (Redirect.mk (RuleMarker.node_id m) (RuleMarker.listen_port m) []) (found !! RuleMarker.node_id m))
          = default [] (forwards_of <$> found !! RuleMarker.node_id m)) as <- by (by destruct (found !! _)).
  unfold forwards_of. rewrite Hl, <- !app_assoc. apply Permutation_app_head. by rewrite <- Permutation_middle.
Qed.

(** A table of the machine: one NAT chain, and in it a marked rule for every range of a
    plan with this digest. *)
Record own_table raw table (digest : string) (count : nat) : Prop := {
  ot_chain : exists chain, chains_of raw (TableState.family table) table_name = [chain] /\ is_managed_chain chain = true;
  ot_rules : Forall owned_rule (rules_of raw (TableState.family table) table_name CHAIN_NAME);
  ot_plan : exists plan pairs, plan_digest sha256 plan = digest /\ pairs ≡ₚ forwards plan /\ length pairs = count /\
              reads (rules_of raw (TableState.family table) table_name CHAIN_NAME) pairs
}.

Lemma inspect_table_sound raw table digest count :
  inspect_managed_table sha256 table_name owner table raw = Ok (digest, count) -> own_table raw table digest count.
Proof.
  unfold inspect_managed_table. intros H. apply bind_Ok in H as (tm & _ & H).
  destruct (marker_is_some_and tm _); [done|]. destruct (chains_of _ _ _) as [|chain [|]] eqn:Hch; [done| |done].
  destruct (String.eqb _ _); [|done]. cbn [negb] in H. destruct (is_managed_chain chain) eqn:Hm; [|done]. cbn [negb] in H.
  apply bind_Ok in H as (cm & _ & H). destruct (marker_is_some_and cm _); [done|].
  destruct (rules_of _ _ _ _) as [|rule rules] eqn:Hrules; [done|]. rewrite <- Hrules in *. clear Hrules rule rules.
  apply bind_Ok in H as (d & Hd & H). destruct (_ || _); [done|]. injection H as <- <-.
  unfold inspect_owned_rules in Hd. apply bind_Ok in Hd as ([digest' found] & Hown & Hd).
  apply owned_rules_sound in Hown as (Hall & pairs & Hreads & Hperm).
  destruct (String.eqb_spec (plan_digest sha256 (plan_of found)) (default "" digest')) as [He|]; [|done]. cbn [negb] in Hd. injection Hd as <-.
  split; [by exists chain|done|]. exists (plan_of found), pairs. split_and!; [done| |symmetry; by apply (Forall2_length _ _ _ Hreads)|done].
  by rewrite plan_of_forwards, Hperm.
Qed.

Lemma inspect_tables_sound raw tables first consistent first' consistent' :
  inspect_tables sha256 table_name owner raw tables first consistent = Ok (first', consistent') ->
  Forall (fun table => exists digest count, own_table raw table digest count /\
                         (consistent' = true -> first' = Some (digest, count))) tables /\
  (consistent' = true -> consistent = true /\ forall f, first = Some f -> first' = Some f).
Proof.
  revert first consistent. induction tables as [|table tables IH]; intros first consistent; cbn [inspect_tables].
  { intros [= <- <-]. split; [constructor|done]. }
  intros H. apply bind_Ok in H as ([digest count] & Hfound & H). apply inspect_table_sound in Hfound.
  destruct first as [expected|].
  - apply IH in H as [Hall Hfirst]. split; [constructor; [|done]|].
    + exists digest, count. split; [done|]. intros Hc. destruct (Hfirst Hc) as [[_ He%bool_decide_eq_true]%andb_prop Hf]. subst. by apply Hf.
    + intros Hc. destruct (Hfirst Hc) as [[? _]%andb_prop Hf]. done.
  - apply IH in H as [Hall Hfirst]. split; [constructor; [|done]|].
    + exists digest, count. split; [done|]. intros Hc. destruct (Hfirst Hc) as [_ Hf]. by apply Hf.
    + intros Hc. destruct (Hfirst Hc) as [? _]. by split.
Qed.

(** The plan is installed: nothing for an empty one, else one table per family of the
    representation, each forwarding a plan of that digest. *)
Definition installed raw (mode : FamilyMode.t) (digest : string) (count : nat) : Prop :=
  if (count =? 0)%nat then forall table, table ∈ KernelSnapshot.tables raw -> TableState.name table <> table_name
  else (forall family, length (own table_name raw family) = if bool_decide (family ∈ FamilyMode.families mode) then 1%nat else 0%nat) /\
       forall table, table ∈ KernelSnapshot.tables raw -> TableState.name table = table_name -> own_table raw table digest count.

Lemma mode_of_complete tables consistent mode : mode_of tables consistent = (mode, true) -> consistent = true.
Proof.
  unfold mode_of. repeat match goal with |- context [match existsb ?p ?l with _ => _ end] => destruct (existsb p l) end; by intros [=].
Qed.

(** What an accepted snapshot shows. *)
Lemma inspect_snapshot_sound raw current :
  inspect_snapshot sha256 table_name owner raw = Ok current ->
  InspectedState.raw current = raw /\
  (forall table, table ∈ InspectedState.tables current <-> TableState.name table = table_name /\ table ∈ KernelSnapshot.tables raw) /\
  InspectedState.exists_ current = negb (bool_decide (InspectedState.tables current = [])) /\
  (forall table, table ∈ InspectedState.tables current -> exists digest count, own_table raw table digest count) /\
  forall mode digest count, InspectedState.matches current mode digest count = true -> installed raw mode digest count.
Proof.
  unfold inspect_snapshot. intros H. apply bind_Ok in H as (tables & Hfind & H).
  apply find_tables_Ok in Hfind as [Htables Hone]. assert (Hall : forall table, table ∈ tables <-> _) by (intros table; rewrite Htables; apply (all_own table_name raw table)).
  destruct tables as [|table0 tables0] eqn:Ht.
  - injection H as <-. cbn. split_and!; [done|done|done|by intros t ?%elem_of_nil|]. intros mode digest count. unfold InspectedState.matches, installed.
    cbn. destruct (count =? 0)%nat; [|done]. intros _ t Hin Hn. by assert (t ∈ []) as ?%elem_of_nil by (by apply Hall).
  - rewrite <- Ht in *. apply bind_Ok in H as ([first consistent] & Hloop & H).
    apply inspect_tables_sound in Hloop as [Hown _]. destruct (mode_of tables consistent) as [mode complete] eqn:Hmode.
    destruct (default ("", 0%nat) first) as [digest count] eqn:Hdef. injection H as <-. cbn.
    assert (Hex : negb (bool_decide (tables = [])) = true) by (by rewrite Ht). rewrite Hex. split_and!; [done|done|done| |].
    + intros t Hin. rewrite Forall_forall in Hown. destruct (Hown t Hin) as (d & c & Ho & _). by exists d, c.
    + intros mode' digest' count'. unfold InspectedState.matches, installed. cbn. destruct (count' =? 0)%nat; [done|].
      rewrite !andb_true_iff, bool_decide_eq_true, String.eqb_eq, Nat.eqb_eq. intros [[[Hc ->] Hd] Hn].
      assert (consistent = true) as ->.
      { subst complete. by apply mode_of_complete in Hmode. }
      cbn in Hd, Hn. subst digest' count'. split.
      * intros family. subst complete. rewrite Forall_forall in Hone.
        assert (Hin : forall f, f ∈ all_families) by (intros []; unfold all_families; set_solver).
        unfold mode_of in Hmode. rewrite Htables, !has_family in Hmode by (auto; by apply Forall_forall).
        pose proof (Hone Inet (Hin _)) as H1. pose proof (Hone Ipv4 (Hin _)) as H2. pose proof (Hone Ipv6 (Hin _)) as H3.
        destruct family, (own table_name raw Inet) as [|? [|]], (own table_name raw Ipv4) as [|? [|]], (own table_name raw Ipv6) as [|? [|]]; cbn in *; try lia; (discriminate Hmode || (injection Hmode as <-; reflexivity)).
      * intros t Hin Hn'. assert (t ∈ tables) as Hx by (by apply Hall). rewrite Forall_forall in Hown.
        destruct (Hown t Hx) as (d & c & Ho & Hf). rewrite Hf in Hdef by done. by injection Hdef as <- <-.
Qed.
End inspection.

(** ** What a batch does to the kernel *)

(** The kernel shows a rule of a batch with its user data and the same redirect. *)
Definition dumps `{!NetlinkFormat} (rule : RuleState.t) (desired : DesiredRule.t) : Prop :=
  RuleState.user_data rule = DesiredRule.marker desired /\
  managed_redirect_rule (RuleState.expressions rule) = managed_redirect_rule (DesiredRule.expressions desired).

Definition deletes (batch : Batch.t) (family : Family) (name : string) : bool :=
  existsb (fun d => bool_decide (DeleteTable.family d = family) && String.eqb (DeleteTable.name d) name) (Batch.delete batch).

Definition creates (batch : Batch.t) (family : Family) (name : string) : option DesiredTable.t :=
  find_first (fun d => bool_decide (DesiredTable.family d = family) && String.eqb (DesiredTable.name d) name) (Batch.create batch).

(** The kernel before and after a batch: tables are replaced with their chains and
    rules, and the others stay. *)
Record submitted `{!NetlinkFormat} (batch : Batch.t) (k k' : KernelSnapshot.t) : Prop := {
  sb_tables family name :
    match creates batch family name with
    | Some desired => exists table, own name k' family = [table] /\ TableState.user_data table = DesiredTable.table_marker desired
    | None => own name k' family = if deletes batch family name then [] else own name k family
    end;
  sb_chains family name :
    match creates batch family name with
    | Some desired => exists chain, chains_of k' family name = [chain] /\ is_managed_chain chain = true /\
                                    ChainState.user_data chain = DesiredTable.chain_marker desired
    | None => chains_of k' family name = if deletes batch family name then [] else chains_of k family name
    end;
  sb_rules family name :
    match creates batch family name with
    | Some desired => Forall2 dumps (rules_of k' family name CHAIN_NAME) (DesiredTable.rules desired)
    | None => forall chain, rules_of k' family name chain = if deletes batch family name then [] else rules_of k family name chain
    end
}.

(** The tables of other names, with their chains and rules. *)
Definition foreign_kept (table_name : string) (k k' : KernelSnapshot.t) : Prop :=
  forall family name, name <> table_name ->
    own name k' family = own name k family /\ chains_of k' family name = chains_of k family name /\
    forall chain, rules_of k' family name chain = rules_of k family name chain.

Lemma foreign_kept_refl table_name k : foreign_kept table_name k k.
Proof. by intros family name _. Qed.

Lemma foreign_kept_trans table_name k1 k2 k3 : foreign_kept table_name k1 k2 -> foreign_kept table_name k2 k3 -> foreign_kept table_name k1 k3.
Proof.
  intros H1 H2 family name Hn. destruct (H1 family name Hn) as (? & ? & Hr1), (H2 family name Hn) as (? & ? & Hr2).
  split_and!; [congruence..|]. intros chain. by rewrite Hr2, Hr1.
Qed.

(** The same tables, chains and rules. *)
Definition same_tables (raw k : KernelSnapshot.t) : Prop :=
  KernelSnapshot.tables raw = KernelSnapshot.tables k /\ KernelSnapshot.chains raw = KernelSnapshot.chains k /\
  KernelSnapshot.rules raw = KernelSnapshot.rules k.

Section batch.
Context {format : NetlinkFormat} {laws : NetlinkLaws} (debug sha256 : string -> string).
Context (sha_length : forall bytes, String.length (sha256 bytes) = 32%nat).
Context (table_name owner : string) (Howner : String.length owner = 6%nat).
Implicit Types (plan : Plan) (k : KernelSnapshot.t) (current : InspectedState.t).

(** A batch for a plan. *)
Lemma build_batch_Ok current plan digest mode batch :
  build_batch debug table_name owner current plan digest mode = Ok batch ->
  (forall family name, deletes batch family name = true <->
     exists table, table ∈ InspectedState.tables current /\ TableState.family table = family /\ TableState.name table = name) /\
  (forall family name desired, creates batch family name = Some desired ->
     plan_is_empty plan = false /\ name = table_name /\ family ∈ FamilyMode.families mode /\
     encode_container_marker debug TABLE_MARKER_MAGIC owner digest = Ok (DesiredTable.table_marker desired) /\
     encode_container_marker debug CHAIN_MARKER_MAGIC owner digest = Ok (DesiredTable.chain_marker desired) /\
     exists rules, mapM (desired_rules debug owner digest) (redirects plan) = Ok rules /\ DesiredTable.rules desired = mjoin rules) /\
  (forall family name, creates batch family name = None -> plan_is_empty plan = false -> name = table_name ->
     family ∉ FamilyMode.families mode).
Proof.
  unfold build_batch. set (del := _ <$> InspectedState.tables current).
  assert (Hdel : forall create family name, deletes (Batch.mk del create) family name = true <->
     exists table, table ∈ InspectedState.tables current /\ TableState.family table = family /\ TableState.name table = name).
  { intros create family name. unfold deletes, del. cbn. rewrite existsb_exists. setoid_rewrite <- list_elem_of_In. split.
    - intros (d & (t & -> & Hin)%list_elem_of_fmap & [H1%bool_decide_eq_true H2%String.eqb_eq]%andb_prop). cbn in *. by exists t.
    - intros (t & Hin & <- & <-). eexists. split; [by apply list_elem_of_fmap_2|]. cbn. by rewrite bool_decide_eq_true_2, String.eqb_refl. }
  destruct (plan_is_empty plan); [intros [= <-]; split_and!; [apply Hdel|done|done]|].
  destruct (FamilyMode.families mode) as [|f0 fs] eqn:Hf; [done|]. rewrite <- Hf in *. clear Hf. intros H.
  apply bind_Ok in H as (tm & Htm & H). apply bind_Ok in H as (cm & Hcm & H). apply bind_Ok in H as (create & Hcreate & H).
  injection H as <-. apply mapM_result_Ok in Hcreate. split; [apply Hdel|]. unfold creates. cbn. split.
  - intros family name desired [[H1%bool_decide_eq_true H2%String.eqb_eq]%andb_prop Hin]%find_first_Some.
    apply list_elem_of_lookup in Hin as [i Hi]. destruct (Forall2_lookup_r _ _ _ _ _ Hcreate Hi) as (f & Hfi & Hd).
    apply bind_Ok in Hd as (rules & Hrules & Hd). injection Hd as <-. cbn in *. subst.
    split_and!; [done|done|by eapply list_elem_of_lookup_2|done|done|by exists rules].
  - intros family name Hnone _ -> Hin. apply list_elem_of_lookup in Hin as [i Hi].
    destruct (Forall2_lookup_l _ _ _ _ _ Hcreate Hi) as (d & Hdi & Hd). apply bind_Ok in Hd as (rules & _ & Hd). injection Hd as <-.
    rewrite find_first_None in Hnone. specialize (Hnone _ (list_elem_of_lookup_2 _ _ _ Hdi)). cbn in Hnone.
    by rewrite bool_decide_eq_true_2, String.eqb_refl in Hnone.
Qed.

(** Only tables of the machine are replaced. *)
Lemma batch_foreign current plan digest mode batch k k' :
  (forall table, table ∈ InspectedState.tables current -> TableState.name table = table_name) ->
  build_batch debug table_name owner current plan digest mode = Ok batch -> submitted batch k k' -> foreign_kept table_name k k'.
Proof.
  intros Hnamed (Hdel & Hcreate & _)%build_batch_Ok Hs family name Hn.
  assert (Hc : creates batch family name = None).
  { destruct (creates batch family name) eqn:E; [|done]. by apply Hcreate in E as (_ & ? & _). }
  assert (Hd : deletes batch family name = false).
  { destruct (deletes batch family name) eqn:E; [|done]. apply Hdel in E as (t & Hin & _ & Ht). by rewrite (Hnamed t Hin) in Ht. }
  destruct Hs as [Ht Hch Hr]. specialize (Ht family name). specialize (Hch family name). specialize (Hr family name).
  rewrite Hc, Hd in *. done.
Qed.

(** The rules of a batch carry the plan. *)
Lemma desired_rules_carry plan d rules :
  mapM (desired_rules debug owner (Hex.encode d)) (redirects plan) = Ok rules ->
  Forall2 (fun p r => encode_rule_marker debug owner (Hex.encode d) p.1 p.2 = Ok (DesiredRule.marker r) /\
                      DesiredRule.expressions r = redirect_expressions p.2 (Redirect.listen_port p.1)) (plan_rules plan) (mjoin rules).
Proof.
  intros H%mapM_result_Ok. unfold plan_rules. induction H as [|r rs l ls Hr _ IH]; [constructor|]. cbn. apply Forall2_app; [|done].
  unfold desired_rules in Hr. apply mapM_result_Ok in Hr. apply Forall2_fmap_l. eapply Forall2_impl; [exact Hr|].
  intros ports x H. apply bind_Ok in H as (m & Hm & H). by injection H as <-.
Qed.

Lemma canonical_pairs plan : canonical plan -> Forall good_pair (plan_rules plan).
Proof.
  intros [_ _ Hp Ht Hu]. rewrite Forall_forall in Hp, Ht, Hu. apply Forall_forall. unfold plan_rules. intros [r ports] (r' & Hin & Hr)%list_elem_of_bind.
  apply list_elem_of_fmap in Hin as (p & [= -> ->] & Hp'). destruct (Hp _ Hr) as (_ & Hv & _).
  split_and!; cbn; [by eapply Forall_forall in Hv|by apply Ht|by apply Hu].
Qed.

Lemma created_holds current plan mode batch k k' family desired table :
  canonical plan -> build_batch debug table_name owner current plan (plan_digest sha256 plan) mode = Ok batch -> submitted batch k k' ->
  creates batch family table_name = Some desired -> own table_name k' family = [table] ->
  holds debug sha256 table_name owner k' table plan.
Proof.
  intros Hc Hb Hs Hcr Htab. apply build_batch_Ok in Hb as (_ & Hcreate & _).
  destruct (Hcreate _ _ _ Hcr) as (_ & _ & _ & Htm & Hcm & rules & Hrules & Hjoin). unfold plan_digest in Htm, Hcm, Hrules.
  rewrite encode_container_Ok in Htm, Hcm by done. injection Htm as Htm. injection Hcm as Hcm.
  destruct Hs as [Ht Hch Hr]. specialize (Ht family table_name). specialize (Hch family table_name). specialize (Hr family table_name).
  rewrite Hcr in Ht, Hch, Hr. destruct Ht as (t & Heq & Hd). rewrite Htab in Heq. injection Heq as <-.
  assert (TableState.family table = family) as Hfam.
  { assert (table ∈ own table_name k' family) as H by (rewrite Htab; by left). by apply elem_of_own in H as (? & _). }
  split; [by rewrite Hd, <- Htm| |].
  - destruct Hch as (chain & H1 & H2 & H3). exists chain. rewrite Hfam. split_and!; [done|done|by rewrite H3, <- Hcm].
  - rewrite Hfam. apply desired_rules_carry in Hrules. rewrite <- Hjoin in Hrules. pose proof (canonical_pairs plan Hc) as Hgood.
    clear -Hrules Hr Hgood laws. revert Hr. generalize (rules_of k' family table_name CHAIN_NAME). revert Hgood.
    induction Hrules as [|p r ps rs [He Hx] _ IH]; intros Hgood l Hl; inversion Hl as [|rule ? l' ? [Hm1 Hm2] Hl']; subst; [constructor|].
    inversion Hgood as [|? ? (Hv & Ht & _) Hg]; subst. constructor; [|by apply IH].
    split; [by rewrite Hm1|]. by rewrite Hm2, Hx, redirect_recognised.
Qed.

Lemma inspect_tables_holds k tables plan first :
  canonical plan -> redirects plan <> [] -> Forall (fun table => holds debug sha256 table_name owner k table plan) tables ->
  default (plan_digest sha256 plan, rule_count plan) first = (plan_digest sha256 plan, rule_count plan) ->
  inspect_tables sha256 table_name owner k tables first true
  = Ok (match tables with [] => first | _ => Some (plan_digest sha256 plan, rule_count plan) end, true).
Proof.
  intros Hc Hne Hall. revert first. induction Hall as [|table tables Ht _ IH]; intros first Hf; [done|]. cbn [inspect_tables].
  rewrite (inspect_holds debug sha256 sha_length table_name owner Howner) with (plan := plan) by done. cbn [mbind result_bind].
  destruct first as [expected|]; cbn in Hf; [subst expected; rewrite bool_decide_eq_true_2 by done; cbn [andb]|]; rewrite IH by done; by destruct tables.
Qed.

Lemma inspect_installed k plan mode :
  canonical plan -> redirects plan <> [] ->
  (forall family, if bool_decide (family ∈ FamilyMode.families mode)
                  then exists table, own table_name k family = [table] /\ holds debug sha256 table_name owner k table plan
                  else own table_name k family = []) ->
  mode <> FamilyMode.Unknown ->
  exists current, inspect_snapshot sha256 table_name owner k = Ok current /\
    InspectedState.matches current mode (plan_digest sha256 plan) (rule_count plan) = true.
Proof.
  intros Hc Hne Hown Hmode. unfold inspect_snapshot.
  assert (Hone : Forall (fun family => (length (own table_name k family) <= 1)%nat) all_families).
  { apply Forall_forall. intros family _. specialize (Hown family). case_bool_decide; [destruct Hown as (t & -> & _)|rewrite Hown]; cbn; lia. }
  rewrite (proj2 (find_tables_Ok table_name k all_families (all_families ≫= own table_name k))) by done.
  assert (Hall : Forall (fun table => holds debug sha256 table_name owner k table plan) (all_families ≫= own table_name k)).
  { apply Forall_forall. intros t (family & Hin & _)%list_elem_of_bind. specialize (Hown family). case_bool_decide; [|rewrite Hown in Hin; by apply elem_of_nil in Hin].
    destruct Hown as (t' & Heq & Hh). rewrite Heq in Hin. by apply list_elem_of_singleton in Hin as ->. }
  assert (Hcount : (rule_count plan =? 0)%nat = false).
  { apply Nat.eqb_neq. rewrite rule_count_plan. destruct Hc as [_ _ Hp _ _]. unfold plan_rules. destruct (redirects plan) as [|r l]; [done|].
    inversion Hp as [|? ? (Hn & _) _]; subst. cbn. rewrite length_app, length_fmap. destruct (Redirect.ports r); [done|cbn; lia]. }
  assert (Hm : mode_of (all_families ≫= own table_name k) true = (mode, true)).
  { unfold mode_of. rewrite !has_family by (done || (unfold all_families; set_solver)).
    pose proof (Hown Inet) as H1. pose proof (Hown Ipv4) as H2. pose proof (Hown Ipv6) as H3.
    destruct mode; [done| |];
      repeat match goal with
      | H : context [bool_decide ?P] |- _ => first [change (bool_decide P) with true in H | change (bool_decide P) with false in H]; cbv iota in H
      end; repeat match goal with H : exists _, _ |- _ => destruct H as [? [H _]] end;
      repeat match goal with H : own _ _ _ = _ |- _ => rewrite H; clear H end; done. }
  cbn [mbind result_bind]. destruct (all_families ≫= own table_name k) as [|t ts] eqn:Htabs.
  { exfalso. destruct mode; cbn in Hm; congruence. }
  rewrite inspect_tables_holds with (plan := plan) by done. cbn [mbind result_bind]. rewrite Hm. cbn. eexists. split; [done|].
  unfold InspectedState.matches. cbn. rewrite Hcount, bool_decide_eq_true_2, String.eqb_refl, Nat.eqb_refl by done. done.
Qed.
End batch.

(** ** Plans of a topology *)

Lemma remove_self_normal lo ranges listen_port : normal_from lo ranges -> normal_from lo (remove_self_redirects ranges listen_port).
Proof.
  revert lo. induction ranges as [|r rs IH]; intros lo; [done|]. cbn [normal_from]. intros (H1 & H2 & H3).
  change (remove_self_redirects (r :: rs) listen_port) with
    (if negb (PortRange.contains r listen_port) then r :: remove_self_redirects rs listen_port
     else (if PortRange.start r <? listen_port then [PortRange.mk (PortRange.start r) (listen_port - 1)] else [])
      ++ (if listen_port <? PortRange.end_ r then [PortRange.mk (listen_port + 1) (PortRange.end_ r)] else [])
      ++ remove_self_redirects rs listen_port).
  specialize (IH _ H3). destruct (PortRange.contains r listen_port) eqn:E; cbn [negb].
  - apply contains_iff in E. destruct (Z.ltb_spec (PortRange.start r) listen_port), (Z.ltb_spec listen_port (PortRange.end_ r)); cbn;
      repeat split; try lia; try done; (eapply normal_from_weaken; [|exact IH]); lia.
  - cbn [normal_from]. split; [exact H1|]. split; [exact H2|exact IH].
Qed.

Lemma normal_sorted lo ranges : normal_from lo ranges -> sort_by PortRange.leb ranges = ranges.
Proof.
  revert lo. induction ranges as [|r rs IH]; intros lo; [done|]. cbn [normal_from]. intros (H1 & _ & H2).
  change (sort_by PortRange.leb (r :: rs)) with (insert_by PortRange.leb r (sort_by PortRange.leb rs)). rewrite (IH _ H2).
  destruct rs as [|r' rs]; [done|]. cbn [insert_by]. cbn [normal_from] in H2. assert (PortRange.leb r r' = true) as ->; [|done].
  destruct (leb_total r r') as [|Hle%leb_start]; [done|]. lia.
Qed.

(** The plan of an accepted topology is canonical; node ids are texts, and listen ports
    fit their type. *)
Lemma built_canonical {JsonError} (from_slice : string -> result JsonError Provider.Hysteria2SalamanderConfig.t) topology plan :
  (forall bytes config, from_slice bytes = Ok config -> is_u16 (Provider.Hysteria2SalamanderConfig.listen_port config)) ->
  (forall node, node ∈ Topology.MachineTopology.nodes topology -> is_utf8 (chars (Topology.NodeInstance.node_id node)) = true) ->
  build_plan from_slice topology = Ok plan -> canonical plan.
Proof.
  intros Hu16 Hutf Hb. pose proof Hb as (Hnd & Hfine & -> & _ & _)%build_plan_Ok.
  assert (Hof : forall r, r ∈ redirects (mkPlan (sort_by_key Redirect.node_id (omap (redirect_of from_slice) (Topology.MachineTopology.nodes topology)))) ->
    exists n lp original, n ∈ Topology.MachineTopology.nodes topology /\ node_hopping from_slice n = Some (lp, original) /\ Redirect.ports r <> [] /\
      r = Redirect.mk (Topology.NodeInstance.node_id n) lp (remove_self_redirects original lp)).
  { intros r (n & Hn & (lp & o & ? & ? & ?)%redirect_of_Some)%(elem_of_plan _ _ _ _ Hb). by exists n, lp, o. }
  assert (Hhop : forall n lp original, node_hopping from_slice n = Some (lp, original) -> is_u16 lp /\ normal original).
  { intros n lp original. unfold node_hopping, decode_hysteria_config. case_bool_decide; [|done]. case_bool_decide.
    - destruct (parse_port_ranges _) eqn:E; [|done]. intros [= <- <-]. split; [unfold is_u16, u16_max; cbn; lia|]. by apply parse_normal in E.
    - destruct (from_slice _) as [config|] eqn:Hf; [|done]. destruct (parse_port_ranges _) eqn:E; [|done]. intros [= <- <-].
      split; [by eapply Hu16|]. by apply parse_normal in E. }
  assert (Hids : NoDup (Redirect.node_id <$> omap (redirect_of from_slice) (Topology.MachineTopology.nodes topology))) by (by apply redirects_NoDup).
  split.
  - cbn. by rewrite sort_by_key_perm.
  - cbn. apply sort_by_key_unique; [by rewrite sort_by_key_perm|by rewrite sort_by_key_perm].
  - apply Forall_forall. intros r Hin. destruct (Hof r Hin) as (n & lp & o & _ & Hh & Hne & ->). destruct (Hhop _ _ _ Hh) as [_ Hnorm].
    split; [done|]. apply (remove_self_normal _ _ lp) in Hnorm. cbn. split; [by eapply normal_from_valid|by eapply normal_sorted].
  - apply Forall_forall. intros r Hin. destruct (Hof r Hin) as (n & lp & o & Hn & Hh & Hne & ->). destruct (Hhop _ _ _ Hh) as [Hu _].
    split; [done|]. cbn in *. rewrite Forall_forall in Hfine. destruct (Hfine n Hn) as (lp' & o' & Hh' & Hlp).
    { unfold node_hopping in Hh. by case_bool_decide. }
    rewrite Hh in Hh'. injection Hh' as <- <-. by apply Hlp.
  - apply Forall_forall. intros r Hin. destruct (Hof r Hin) as (n & lp & o & Hn & _ & _ & ->). by apply Hutf.
Qed.

(** ** The kernel *)

(** What the nf_tables subsystem promises: opening a connection and dumping change
    nothing, a dump shows the tables, an acknowledged batch is applied as a whole, and a
    batch that failed is applied as a whole or not at all (its acknowledgement may be
    lost). *)
Class NftKernel (W C : Type) `{!NetlinkFormat, !NftConnection W C} : Type := {
  kernel : W -> KernelSnapshot.t;
  open_keeps w w' r : open w = (w', r) -> kernel w' = kernel w;
  snapshot_keeps connection w w' r : snapshot connection w = (w', r) -> kernel w' = kernel w;
  snapshot_shows connection w w' raw : snapshot connection w = (w', Ok raw) -> same_tables raw (kernel w);
  execute_applies connection batch w w' : execute connection batch w = (w', Ok tt) -> submitted batch (kernel w) (kernel w');
  execute_fails connection batch w w' e :
    execute connection batch w = (w', Err e) -> kernel w' = kernel w \/ submitted batch (kernel w) (kernel w')
}.

Section contract.
Context {format : NetlinkFormat} {laws : NetlinkLaws} (debug sha256 : string -> string).
Context (sha_length : forall bytes, String.length (sha256 bytes) = 32%nat).
Context {W C : Type} {connections : NftConnection W C} {nft : NftKernel W C}.
Implicit Types (plan desired : Plan) (k raw : KernelSnapshot.t) (current : InspectedState.t) (s : NftBackend.t * W).

Local Abbreviation name s := (NftBackend.table_name s.1).
Local Abbreviation own_id s := (NftBackend.owner s.1).
Local Abbreviation content s := (kernel s.2).

(** The identity of a backend does not change. *)
Definition same_identity s s' : Prop := name s' = name s /\ own_id s' = own_id s.

Lemma same_identity_refl s : same_identity s s.
Proof. done. Qed.

Lemma same_identity_trans s1 s2 s3 : same_identity s1 s2 -> same_identity s2 s3 -> same_identity s1 s3.
Proof. intros [H1 H2] [H3 H4]. split; congruence. Qed.

(** What a snapshot of the kernel is found to hold. *)
Definition inspected s current : Prop :=
  exists raw, same_tables raw (content s) /\ inspect_snapshot sha256 (name s) (own_id s) raw = Ok current.

(** The backend recognises the plan in the kernel. *)
Definition recognised s desired : Prop :=
  exists current mode, inspected s current /\ InspectedState.matches current mode (plan_digest sha256 desired) (rule_count desired) = true.

Lemma inspected_same s s' current : same_identity s s' -> content s' = content s -> inspected s current -> inspected s' current.
Proof. intros [H1 H2] Hk (raw & Hsame & Hi). exists raw. by rewrite Hk, H1, H2. Qed.

Lemma inspected_own s current family table :
  inspected s current -> table ∈ InspectedState.tables current /\ TableState.family table = family <-> table ∈ own (name s) (content s) family.
Proof.
  intros (raw & (Ht & _) & Hi). apply inspect_snapshot_sound in Hi as (_ & Hall & _). rewrite elem_of_own, Hall, <- Ht. tauto.
Qed.

Lemma inspected_named s current table : inspected s current -> table ∈ InspectedState.tables current -> TableState.name table = name s.
Proof.
  intros H Hin. assert (table ∈ own (name s) (content s) (TableState.family table)) as Hx by (by apply (inspected_own s current)).
  by apply elem_of_own in Hx as (_ & ? & _).
Qed.

Lemma inspected_none s current : inspected s current -> InspectedState.exists_ current = false <-> forall family, own (name s) (content s) family = [].
Proof.
  intros H. assert (InspectedState.exists_ current = negb (bool_decide (InspectedState.tables current = []))) as ->.
  { destruct H as (raw & _ & Hi). by apply inspect_snapshot_sound in Hi as (_ & _ & ? & _). }
  rewrite negb_false_iff, bool_decide_eq_true. split.
  - intros He family. apply elem_of_nil_inv. intros t Hin. apply (inspected_own s current family t H) in Hin as [Hin _].
    rewrite He in Hin. by apply elem_of_nil in Hin.
  - intros Hall. apply elem_of_nil_inv. intros t Hin.
    assert (t ∈ own (name s) (content s) (TableState.family t)) as Hx by (by apply (inspected_own s current)). rewrite Hall in Hx. by apply elem_of_nil in Hx.
Qed.

Lemma inspect_none table_name owner k :
  (forall family, own table_name k family = []) ->
  exists current, inspect_snapshot sha256 table_name owner k = Ok current /\ InspectedState.exists_ current = false.
Proof.
  intros Hall. unfold inspect_snapshot. rewrite (proj2 (find_tables_Ok table_name k all_families [])).
  - cbn. by eexists.
  - split; [unfold all_families; cbn; by rewrite !Hall|]. apply Forall_forall. intros f _. rewrite Hall. cbn. lia.
Qed.

Lemma rule_count_empty plan : plan_is_empty plan = true -> rule_count plan = 0%nat.
Proof. unfold plan_is_empty, rule_count. by destruct (redirects plan). Qed.

(** A batch that was applied is recognised. *)
Lemma submitted_recognised s s' current desired mode batch :
  canonical desired -> String.length (own_id s) = 6%nat -> same_identity s s' -> inspected s current ->
  build_batch debug (name s) (own_id s) current desired (plan_digest sha256 desired) mode = Ok batch ->
  submitted batch (content s) (content s') ->
  recognised s' desired /\ (plan_is_empty desired = false -> exists family, own (name s') (content s') family <> []).
Proof.
  intros Hc Howner [Hname Hid] Hins Hb Hs.
  assert (Hgone : forall family, creates batch family (name s) = None -> own (name s) (content s') family = []).
  { intros family Hnone. destruct Hs as [Ht _ _]. specialize (Ht family (name s)). rewrite Hnone in Ht. rewrite Ht.
    destruct (deletes batch family (name s)) eqn:Hd; [done|]. apply elem_of_nil_inv. intros t Hin.
    apply (inspected_own s current family t Hins) in Hin as [Hin Hf]. apply build_batch_Ok in Hb as (Hdel & _).
    assert (deletes batch family (name s) = true) as Hx; [|by rewrite Hd in Hx].
    apply Hdel. exists t. split_and!; [done|done|by eapply inspected_named]. }
  destruct (plan_is_empty desired) eqn:He.
  - split; [|done]. destruct (inspect_none (name s') (own_id s') (content s')) as (fresh & Hf & Hex).
    { intros family. rewrite Hname. apply Hgone. destruct (creates batch family (name s)) eqn:E; [|done].
      apply build_batch_Ok in Hb as (_ & Hcr & _). apply Hcr in E as (? & _). congruence. }
    exists fresh, mode. split; [by exists (content s')|]. unfold InspectedState.matches. by rewrite rule_count_empty, Hex.
  - assert (Hfam : forall family, if bool_decide (family ∈ FamilyMode.families mode)
             then exists table, own (name s) (content s') family = [table] /\ holds debug sha256 (name s) (own_id s) (content s') table desired
             else own (name s) (content s') family = []).
    { intros family. destruct (creates batch family (name s)) as [d|] eqn:E.
      - rewrite bool_decide_eq_true_2 by (apply build_batch_Ok in Hb as (_ & Hcr & _); by apply Hcr in E as (_ & _ & ? & _)).
        destruct Hs as [Ht Hch Hr] eqn:HS. pose proof (Ht family (name s)) as Htab. rewrite E in Htab. destruct Htab as (t & Htab & _).
        exists t. split; [done|]. by eapply created_holds.
      - rewrite bool_decide_eq_false_2 by (apply build_batch_Ok in Hb as (_ & _ & Hnone); by eapply Hnone). by apply Hgone. }
    assert (Hne : redirects desired <> []) by (unfold plan_is_empty in He; by destruct (redirects desired)).
    assert (Hmode : mode <> FamilyMode.Unknown).
    { intros ->. unfold build_batch in Hb. rewrite He in Hb. done. }
    destruct (inspect_installed debug sha256 sha_length (name s) (own_id s) Howner (content s') desired mode Hc Hne Hfam Hmode) as (fresh & Hf & Hm).
    split.
    + exists fresh, mode. split; [|done]. exists (content s'). by rewrite Hname, Hid.
    + intros _. rewrite Hname. destruct mode; [done|exists Inet|exists Ipv4].
      * specialize (Hfam Inet). change (bool_decide _) with true in Hfam. destruct Hfam as (t & -> & _). done.
      * specialize (Hfam Ipv4). change (bool_decide _) with true in Hfam. destruct Hfam as (t & -> & _). done.
Qed.

(** A step that changes nothing in the kernel. *)
Definition still s s' : Prop := same_identity s s' /\ content s' = content s.

Lemma still_refl s : still s s.
Proof. done. Qed.

Lemma still_trans s1 s2 s3 : still s1 s2 -> still s2 s3 -> still s1 s3.
Proof. intros [H1 E1] [H2 E2]. split; [by eapply same_identity_trans|congruence]. Qed.

Lemma still_inspected s s' current : still s s' -> inspected s current -> inspected s' current.
Proof. intros [Hi Hk]. by apply inspected_same. Qed.

Lemma call_open_still {E} (f : IoError.t -> E) s s' r : mapped f (call open) s = (s', r) -> still s s'.
Proof. unfold mapped, call. destruct (open s.2) as [w' r'] eqn:Ho. intros [= <- <-]. split; [done|]. cbn. by eapply open_keeps. Qed.

Lemma call_snapshot_still {E} (f : IoError.t -> E) connection s s' r :
  mapped f (call (snapshot connection)) s = (s', r) ->
  still s s' /\ forall raw, r = Ok raw -> same_tables raw (content s').
Proof.
  unfold mapped, call. destruct (snapshot connection s.2) as [w' r'] eqn:Hs. intros [= <- <-]. cbn.
  pose proof (snapshot_keeps _ _ _ _ Hs) as Hk. split; [by split|]. intros raw H. rewrite Hk. destruct r'; [|done]. injection H as ->.
  by eapply snapshot_shows.
Qed.

Lemma inspect_still raw s s' r :
  inspect sha256 raw s = (s', r) -> s' = s /\ forall current, r = Ok current -> same_tables raw (content s) -> inspected s current.
Proof. unfold inspect, this, gets, lift. cbn. intros [= <- <-]. split; [done|]. intros current H Hsame. by exists raw. Qed.

Lemma inspect_fresh_still s s' r : inspect_fresh sha256 s = (s', r) -> still s s' /\ forall fresh, r = Ok fresh -> inspected s' fresh.
Proof.
  unfold inspect_fresh, mbind at 1, stm_bind at 1. destruct (mapped _ (call open) s) as [s1 [connection|e]] eqn:Ho; apply call_open_still in Ho; [|by intros [= <- <-]].
  unfold mbind at 1, stm_bind at 1. destruct (mapped _ _ s1) as [s2 [raw|e]] eqn:Hs; apply call_snapshot_still in Hs as [Hs Hraw].
  - intros [-> Hi]%inspect_still. split; [by eapply still_trans|]. intros fresh H. apply Hi; [done|by apply Hraw].
  - intros [= <- <-]. split; [by eapply still_trans|done].
Qed.

(** What a change of the forwarding state leaves. *)
Definition changed s s' (desired : Plan) (r : result BoxError unit) : Prop :=
  same_identity s s' /\ foreign_kept (name s) (content s) (content s') /\
  match r with
  | Ok _ => recognised s' desired
  | Err e => content s' = content s \/ is_state_uncertain e = true
  end.

Lemma still_changed s s1 s' desired r : still s s1 -> changed s1 s' desired r -> changed s s' desired r.
Proof.
  intros [[Hn Ho] Hk] ([Hn' Ho'] & Hf & Hr). split; [split; congruence|]. rewrite Hn, Hk in Hf. split; [done|]. destruct r; [done|]. by rewrite <- Hk.
Qed.

Lemma still_failure s s' desired e : still s s' -> changed s s' desired (Err e).
Proof. intros [Hi Hk]. split; [done|]. rewrite Hk. split; [apply foreign_kept_refl|by left]. Qed.

Lemma still_success s s' desired : still s s' -> recognised s' desired -> changed s s' desired (Ok tt).
Proof. intros [Hi Hk]. split; [done|]. rewrite Hk. split; [apply foreign_kept_refl|done]. Qed.

(** The same of [apply_state], whose errors are classified. *)
Definition applied s s' (desired : Plan) (r : result ApplyStateError unit) : Prop :=
  same_identity s s' /\ foreign_kept (name s) (content s) (content s') /\
  match r with
  | Ok _ => recognised s' desired
  | Err (Uncertain e) => is_state_uncertain e = true
  | Err _ => content s' = content s
  end.

Lemma remember_still {E} desired mode s s' (r : result E unit) : remember desired mode s = (s', r) -> still s s' /\ r = Ok tt.
Proof. unfold remember. destruct (plan_is_empty desired); cbn; by intros [= <- <-]. Qed.

Lemma recognised_still s s' desired : still s s' -> recognised s desired -> recognised s' desired.
Proof. intros Hs (current & mode & Hi & Hm). exists current, mode. split; [by eapply still_inspected|done]. Qed.

Lemma apply_state_applied connection current desired mode s s' r :
  canonical desired -> String.length (own_id s) = 6%nat -> inspected s current ->
  plan_is_empty desired = false \/ InspectedState.exists_ current = true ->
  apply_state debug sha256 connection current desired (plan_digest sha256 desired) mode s = (s', r) -> applied s s' desired r.
Proof.
  intros Hc Howner Hins Hdo. unfold apply_state, this, gets, lift, mbind, stm_bind.
  destruct (build_batch _ _ _ _ _ _ _) as [batch|e] eqn:Hb; cbn [map_err].
  2: { intros [= <- <-]. split; [done|]. split; [apply foreign_kept_refl|done]. }
  destruct (set_managed _ s) as [s1 r1] eqn:H1. assert (still s s1 /\ r1 = Ok tt) as [H01 ->] by (unfold set_managed, modify in H1; by injection H1 as <- <-).
  unfold attempt, call. destruct (execute connection batch s1.2) as [w2 r2] eqn:He.
  assert (Hsub : forall w, submitted batch (kernel s1.2) (kernel w) -> submitted batch (content s) (content (s1.1, w))) by (destruct H01 as [_ <-]; done).
  assert (Hfor : forall w, submitted batch (kernel s1.2) (kernel w) -> foreign_kept (name s) (content s) (kernel w)).
  { intros w Hw. eapply (batch_foreign debug (name s) (own_id s)); [|exact Hb|by apply (Hsub w)]. intros t. by apply inspected_named. }
  assert (Hid : forall w, same_identity s (s1.1, w)) by (destruct H01 as [? _]; done).
  destruct r2 as [[]|e].
  - intros [Hs3 ->]%remember_still. apply execute_applies in He as Hw. destruct Hs3 as [Hi3 Hk3].
    assert (recognised (s1.1, w2) desired) as Hrec by (eapply submitted_recognised; eauto).
    split; [by eapply same_identity_trans|]. rewrite Hk3. split; [by apply Hfor|]. by eapply recognised_still.
  - apply execute_fails in He as Hw. destruct (inspect_fresh sha256 (s1.1, w2)) as [s3 verification] eqn:Hv.
    apply inspect_fresh_still in Hv as [H23 Hfresh].
    assert (Hfor3 : foreign_kept (name s) (content s) (content s3)).
    { destruct H23 as [_ ->]. destruct Hw as [Hw|Hw]; [|by apply Hfor]. cbn. rewrite Hw. destruct H01 as [_ ->]. apply foreign_kept_refl. }
    assert (Hid3 : same_identity s s3) by (destruct H23; by eapply same_identity_trans).
    destruct (ok_and verification _) eqn:Hok.
    + intros [[Hi4 Hk4] ->]%remember_still. destruct verification as [fresh|]; [|done].
      split; [by eapply same_identity_trans|]. rewrite Hk4. split; [done|]. eapply recognised_still; [by split|].
      exists fresh, mode. split; [by apply Hfresh|done].
    + destruct (negb _ && _ && _) eqn:Huns.
      * apply andb_prop in Huns as [[Hex%negb_true_iff _]%andb_prop Hnone]. destruct verification as [fresh|]; [|done]. cbn in Hnone.
        apply negb_true_iff in Hnone. unfold set_managed, modify, raise. intros [= <- <-].
        split; [done|]. split; [done|]. cbn. destruct H23 as [Hi23 Hk23]. rewrite Hk23. cbn. destruct Hw as [Hw|Hw].
        { rewrite Hw. by destruct H01. }
        exfalso. destruct Hdo as [Hne|Hne]; [|congruence].
        destruct (submitted_recognised s (s1.1, w2) current desired mode batch Hc Howner (Hid w2) Hins Hb (Hsub _ Hw)) as [_ Hsome].
        destruct (Hsome Hne) as (family & Hfam). apply Hfam.
        assert (inspected (s1.1, w2) fresh) as Hi2.
        { eapply inspected_same; [| |by apply Hfresh]; [destruct Hi23; split; congruence|by rewrite Hk23]. }
        by apply (inspected_none _ _ Hi2).
      * unfold raise. intros [= <- <-]. done.
Qed.

Lemma applied_changed s s' desired r : applied s s' desired r -> changed s s' desired (map_err apply_error r).
Proof.
  intros (Hi & Hf & Hr). split; [done|]. split; [done|]. destruct r as [|[e|m io|e]]; cbn; [done|by left|by left|by right].
Qed.

Lemma matches_recognised s current mode desired :
  inspected s current -> InspectedState.matches current mode (plan_digest sha256 desired) (rule_count desired) = true -> recognised s desired.
Proof. intros. by exists current, mode. Qed.

Lemma retry_split_changed desired source s s' r :
  canonical desired -> String.length (own_id s) = 6%nat -> plan_is_empty desired = false ->
  retry_split debug sha256 desired (plan_digest sha256 desired) source s = (s', r) -> changed s s' desired r.
Proof.
  intros Hc Howner Hne. unfold retry_split. unfold mbind at 1, stm_bind at 1.
  destruct (mapped _ (call open) s) as [s1 [connection|e]] eqn:Ho; apply call_open_still in Ho; [|intros [= <- <-]; by apply still_failure].
  unfold mbind at 1, stm_bind at 1. destruct (mapped _ _ s1) as [s2 [raw|e]] eqn:Hs; apply call_snapshot_still in Hs as [Hs Hraw].
  2: { intros [= <- <-]. apply still_failure. by eapply still_trans. }
  assert (Hstill : still s s2) by (by eapply still_trans). intros H. eapply still_changed; [exact Hstill|]. revert H.
  unfold mbind at 1, stm_bind at 1. destruct (inspect sha256 raw s2) as [s3 [current|e]] eqn:Hi; apply inspect_still in Hi as [-> Hi].
  2: { intros [= <- <-]. by apply still_failure. }
  specialize (Hi current eq_refl (Hraw raw eq_refl)). destruct (InspectedState.matches _ _ _ _) eqn:Hm.
  { intros [= <- <-]. apply still_success; [done|]. eapply recognised_still; [|by eapply matches_recognised]. done. }
  destruct (InspectedState.exists_ current) eqn:Hex; [intros [= <- <-]; by apply still_failure|].
  unfold this, gets, lift, mbind, stm_bind. destruct (reject_external_conflicts _ _ _) as [u|e]; [|intros [= <- <-]; by apply still_failure].
  unfold mapped. destruct (apply_state _ _ _ _ _ _ _ s2) as [s3 r3] eqn:Ha. intros [= <- <-].
  apply applied_changed. eapply apply_state_applied; [done| |exact Hi|by left|exact Ha]. destruct Hstill as [[_ ->] _]. done.
Qed.

Lemma reconcile_changed connection current desired s s' r :
  canonical desired -> String.length (own_id s) = 6%nat -> inspected s current ->
  reconcile debug sha256 connection current desired s = (s', r) -> changed s s' desired r.
Proof.
  intros Hc Howner Hins. unfold reconcile, this, gets. unfold mbind at 1, stm_bind at 1.
  destruct (InspectedState.matches _ _ _ _) eqn:Hm; [intros [= <- <-]; apply still_success; [done|by eapply matches_recognised]|].
  destruct (plan_is_empty desired && _) eqn:Hempty.
  { apply andb_prop in Hempty as [Hp Hex%negb_true_iff]. intros [= <- <-]. apply still_success; [done|].
    eapply recognised_still; [done|]. exists current, FamilyMode.Unknown. split; [done|]. unfold InspectedState.matches.
    by rewrite rule_count_empty, Hex. }
  assert (Hdo : plan_is_empty desired = false \/ InspectedState.exists_ current = true).
  { apply andb_false_iff in Hempty as [?|?%negb_false_iff]; auto. }
  unfold mbind, stm_bind, attempt.
  destruct (apply_state _ _ _ _ _ _ _ s) as [s1 r1] eqn:Ha. eapply apply_state_applied in Ha as Happ; [|done..].
  pose proof (applied_changed _ _ _ _ Happ) as Hch. destruct r1 as [[]|[e|m io|e]]; [by intros [= <- <-]|by intros [= <- <-]| |by intros [= <- <-]].
  destruct (negb _ && _ && _) eqn:Hfall; [|by intros [= <- <-]]. apply andb_prop in Hfall as [[Hex%negb_true_iff _]%andb_prop _].
  destruct Happ as (Hid & _ & Hk). intros Hretry. eapply still_changed; [split; [done|exact Hk]|].
  eapply retry_split_changed; [done| |by destruct Hdo; [|congruence]|exact Hretry]. destruct Hid as [_ ->]. done.
Qed.

(** Every table of the machine's name is its own. *)
Definition all_owned s : Prop :=
  forall table, table ∈ KernelSnapshot.tables (content s) -> TableState.name table = name s ->
    exists digest count, own_table sha256 (name s) (own_id s) (content s) table digest count.

Lemma own_table_same raw k table_name owner table digest count :
  same_tables raw k -> own_table sha256 table_name owner raw table digest count -> own_table sha256 table_name owner k table digest count.
Proof.
  intros (_ & Hc & Hr) [H1 H2 H3].
  assert (rules_of raw (TableState.family table) table_name CHAIN_NAME = rules_of k (TableState.family table) table_name CHAIN_NAME) as Hrules
    by (unfold rules_of; by rewrite Hr).
  assert (chains_of raw (TableState.family table) table_name = chains_of k (TableState.family table) table_name) as Hchains
    by (unfold chains_of; by rewrite Hc).
  split; [by rewrite <- Hchains|by rewrite <- Hrules|by rewrite <- Hrules].
Qed.

Lemma inspected_owned s current : inspected s current -> all_owned s.
Proof.
  intros (raw & Hsame & Hi). apply inspect_snapshot_sound in Hi as (_ & Hall & _ & Hown & _). intros table Hin Hn.
  destruct (Hown table) as (digest & count & Ht). { apply Hall. split; [done|]. by destruct Hsame as [-> _]. }
  exists digest, count. by eapply own_table_same.
Qed.

Lemma apply_current_changed connection raw desired s s' r :
  canonical desired -> String.length (own_id s) = 6%nat -> same_tables raw (content s) ->
  apply_current debug sha256 connection raw desired s = (s', r) ->
  changed s s' desired r /\ (content s' = content s \/ all_owned s).
Proof.
  intros Hc Howner Hsame. unfold apply_current. unfold mbind at 1, stm_bind at 1.
  destruct (inspect sha256 raw s) as [s1 [current|e]] eqn:Hi; apply inspect_still in Hi as [-> Hi].
  2: { intros [= <- <-]. split; [by apply still_failure|by left]. }
  specialize (Hi current eq_refl Hsame). intros H. split; [|right; by eapply inspected_owned]. revert H.
  unfold mbind at 1, stm_bind at 1. match goal with |- match ?m with _ => _ end = _ -> _ => destruct m as [s1 r1] eqn:H1 end.
  assert (still s s1 /\ r1 = Ok tt) as [H01 ->] by (destruct (InspectedState.exists_ current); by injection H1 as <- <-).
  unfold mbind at 1, stm_bind at 1. match goal with |- match ?m with _ => _ end = _ -> _ => destruct m as [s2 r2] eqn:H2 end.
  assert (still s1 s2 /\ r2 = Ok tt) as [H12 ->] by (destruct (InspectedState.complete current); by injection H2 as <- <-).
  assert (Hstill : still s s2) by (by eapply still_trans). intros H. eapply still_changed; [exact Hstill|]. revert H.
  unfold this, gets. unfold mbind at 1, stm_bind at 1. destruct (_ && _ && _); [intros [= <- <-]; by apply still_failure|].
  unfold mbind at 1, stm_bind at 1. match goal with |- match ?m with _ => _ end = _ -> _ => destruct m as [s3 r3] eqn:H3 end.
  assert (s3 = s2) as -> by (destruct (plan_is_empty desired); by injection H3 as <- <-).
  destruct r3 as [u|e]; [|intros [= <- <-]; by apply still_failure]. apply reconcile_changed; [done| |by eapply still_inspected].
  destruct Hstill as [[_ ->] _]. done.
Qed.

(** What [apply] answers when it cannot look, for an empty plan and a backend that
    manages nothing. *)
Definition nothing_to_do s desired : Prop := plan_is_empty desired = true /\ NftBackend.managed s.1 = false.

Lemma apply_changed desired s s' r :
  canonical desired -> String.length (own_id s) = 6%nat -> apply debug sha256 desired s = (s', r) ->
  (changed s s' desired r \/ nothing_to_do s desired /\ still s s') /\ (content s' = content s \/ all_owned s).
Proof.
  intros Hc Howner. unfold apply, this, gets. unfold mbind at 1, stm_bind at 1. unfold mbind at 1, stm_bind at 1, attempt at 1.
  destruct (call open s) as [s1 opened] eqn:Ho.
  assert (still s s1) as H01 by (eapply (call_open_still (fun e => e)); unfold mapped; rewrite Ho; done).
  assert (Herr : forall e (s2 : NftBackend.t * W), still s s2 -> (changed s s2 desired (Err e) \/ nothing_to_do s desired /\ still s s2) /\ (content s2 = content s \/ all_owned s)).
  { intros e s2 Hs2. split; [left; by apply still_failure|left; by destruct Hs2]. }
  assert (Hlen : forall s2, still s s2 -> plan_is_empty desired && negb (NftBackend.managed s.1) = true ->
                   (changed s s2 desired (Ok tt) \/ nothing_to_do s desired /\ still s s2) /\ (content s2 = content s \/ all_owned s)).
  { intros s2 Hs2 [Hp Hm%negb_true_iff]%andb_prop. split; [right; by split|left; by destruct Hs2]. }
  destruct opened as [connection|e].
  - unfold mbind at 1, stm_bind at 1, attempt at 1. destruct (call (snapshot connection) s1) as [s2 dumped] eqn:Hd.
    destruct (call_snapshot_still (fun e => e) connection s1 s2 (map_err (fun e => e) dumped)) as [H12 Hraw]; [unfold mapped; by rewrite Hd|].
    assert (H02 : still s s2) by (by eapply still_trans). destruct dumped as [raw|e].
    + intros H. eapply apply_current_changed in H as [Hch Hown]; [|done| |by apply Hraw].
      * split; [left; by eapply still_changed|]. destruct H02 as [[Hn Hid] Hk]. rewrite <- Hk. destruct Hown as [->|Hown]; [by left|]. right.
        unfold all_owned in *. by rewrite Hn, Hid, Hk in Hown.
      * destruct H02 as [[_ ->] _]. done.
    + destruct (_ && is_permission_errno e) eqn:El; intros [= <- <-]; [|by apply Herr]. apply andb_prop in El as [El _]. by apply Hlen.
  - destruct (_ && (_ || _)) eqn:El; [intros [= <- <-]; apply andb_prop in El as [El _]; by apply Hlen|].
    destruct (is_capability_errno e); intros [= <- <-]; by apply Herr.
Qed.

Lemma installed_same raw k table_name owner mode digest count :
  same_tables raw k -> installed sha256 table_name owner raw mode digest count -> installed sha256 table_name owner k mode digest count.
Proof.
  intros Hsame. pose proof Hsame as (Ht & _). unfold installed. destruct (count =? 0)%nat; [by rewrite Ht|].
  intros [Hone Hown]. split; [intros family; rewrite <- Hone; unfold own; by rewrite Ht|].
  intros table Hin Hn. rewrite <- Ht in Hin. eapply own_table_same; [done|by apply Hown].
Qed.

Lemma recognised_installed s desired :
  recognised s desired -> exists mode, installed sha256 (name s) (own_id s) (content s) mode (plan_digest sha256 desired) (rule_count desired).
Proof.
  intros (current & mode & (raw & Hsame & Hi) & Hm). exists mode. apply inspect_snapshot_sound in Hi as (_ & _ & _ & _ & Hins).
  eapply installed_same; [exact Hsame|by apply Hins].
Qed.

(** C5. [apply] keeps the contract of a port hopping backend: a success means that the plan
    is installed (an empty plan: that no table of the machine is left, or that the
    backend never managed one and may not look), and an error that is not marked
    uncertain means that the kernel is as it was, on every path: lost acknowledgements,
    the retry with separate IPv4 and IPv6 tables, and failures while reading. *)
Theorem apply_contract self w desired self' w' r :
  canonical desired -> String.length (NftBackend.owner self) = 6%nat ->
  apply debug sha256 desired (self, w) = ((self', w'), r) ->
  match r with
  | Ok _ =>
      (exists mode, installed sha256 (NftBackend.table_name self) (NftBackend.owner self) (kernel w') mode
                      (plan_digest sha256 desired) (rule_count desired)) \/
      (plan_is_empty desired = true /\ NftBackend.managed self = false /\ kernel w' = kernel w)
  | Err e => is_state_uncertain e = false -> kernel w' = kernel w
  end.
Proof.
  intros Hc Howner [[Hch|[[Hp Hm] [_ Hk]]] _]%apply_changed; [| |done|done].
  - destruct Hch as ([Hn Ho] & _ & Hr). cbn in *. destruct r as [u|e].
    + left. rewrite <- Hn, <- Ho. apply (recognised_installed _ _ Hr).
    + intros Hu. destruct Hr as [?|Hx]; [done|congruence].
  - destruct r; [by right|done].
Qed.

(** C6. Whatever [apply] answers, tables of other names keep their chains and rules, and
    a table of the machine's name is replaced only after every such table proved to be
    the machine's own: one NAT chain whose rules all carry its markers. *)
Theorem apply_keeps_foreign self w desired self' w' r :
  canonical desired -> String.length (NftBackend.owner self) = 6%nat ->
  apply debug sha256 desired (self, w) = ((self', w'), r) ->
  foreign_kept (NftBackend.table_name self) (kernel w) (kernel w') /\
  (kernel w' = kernel w \/
   forall table, table ∈ KernelSnapshot.tables (kernel w) -> TableState.name table = NftBackend.table_name self ->
     exists digest count, own_table sha256 (NftBackend.table_name self) (NftBackend.owner self) (kernel w) table digest count).
Proof.
  intros Hc Howner [Hch Hown]%apply_changed; [|done|done]. split; [|exact Hown].
  destruct Hch as [(_ & Hf & _)|[_ [_ Hk]]]; [exact Hf|]. cbn in Hk. rewrite Hk. apply foreign_kept_refl.
Qed.

(** *** Applying an installed plan *)

Lemma inspect_tables_same tables0 chains rules u1 u2 table_name owner tables first consistent :
  inspect_tables sha256 table_name owner (KernelSnapshot.mk tables0 chains rules u1) tables first consistent
  = inspect_tables sha256 table_name owner (KernelSnapshot.mk tables0 chains rules u2) tables first consistent.
Proof.
  revert first consistent. induction tables as [|table tables IH]; intros first consistent; [done|]. cbn [inspect_tables].
  change (inspect_managed_table sha256 table_name owner table (KernelSnapshot.mk tables0 chains rules u2))
    with (inspect_managed_table sha256 table_name owner table (KernelSnapshot.mk tables0 chains rules u1)).
  destruct (inspect_managed_table _ _ _ _ _) as [found|]; [|done]. cbn [mbind result_bind]. destruct first; by rewrite IH.
Qed.

Lemma inspect_same raw1 raw2 table_name owner current :
  same_tables raw1 raw2 -> inspect_snapshot sha256 table_name owner raw1 = Ok current ->
  exists current', inspect_snapshot sha256 table_name owner raw2 = Ok current' /\
    InspectedState.complete current' = InspectedState.complete current /\ InspectedState.mode current' = InspectedState.mode current /\
    forall mode digest count, InspectedState.matches current' mode digest count = InspectedState.matches current mode digest count.
Proof.
  destruct raw1 as [t c r u1], raw2 as [t2 c2 r2 u2]. intros (Ht & Hc & Hr) H. cbn in Ht, Hc, Hr. subst t2 c2 r2.
  unfold inspect_snapshot in *. apply bind_Ok in H as (tables & Hf & H).
  assert (find_tables table_name (KernelSnapshot.mk t c r u2) all_families = Ok tables) as -> by exact Hf. cbn [mbind result_bind].
  destruct tables as [|t0 ts]; [injection H as <-; by eexists|]. apply bind_Ok in H as ([first consistent] & Hl & H).
  rewrite (inspect_tables_same t c r u1 u2) in Hl. rewrite Hl.
  cbn [mbind result_bind]. destruct (mode_of _ _). destruct (default _ first). injection H as <-. by eexists.
Qed.

(** Only a connection was opened and the tables dumped. *)
Definition only_looked w w' : Prop :=
  exists w1 opened, open w = (w1, opened) /\ (w' = w1 \/ exists connection dumped, snapshot connection w1 = (w', dumped)).

Lemma matches_mode current mode mode' digest count :
  InspectedState.matches current mode digest count = true ->
  (InspectedState.complete current = true -> mode' = InspectedState.mode current) ->
  InspectedState.matches current mode' digest count = true.
Proof.
  unfold InspectedState.matches. destruct (count =? 0)%nat; [done|]. intros H Hm.
  repeat match goal with H : _ && _ = true |- _ => apply andb_prop in H as [? ?] end.
  rewrite Hm by done. rewrite bool_decide_eq_true_2 by done. by repeat (apply andb_true_intro; split).
Qed.

Lemma apply_current_looks connection raw desired s s' r :
  same_tables raw (content s) -> recognised s desired ->
  apply_current debug sha256 connection raw desired s = (s', r) -> s'.2 = s.2.
Proof.
  intros Hsame (current0 & mode & (raw0 & (Ht0 & Hc0 & Hr0) & Hi0) & Hm). destruct (inspect_same raw0 raw _ _ _ ltac:(destruct Hsame as (? & ? & ?); split_and!; congruence) Hi0)
    as (current & Hi & _ & _ & Hmatch). unfold apply_current, inspect, this, gets, lift. unfold mbind at 1, stm_bind at 1.
  unfold mbind at 1, stm_bind at 1. rewrite Hi.
  unfold mbind at 1, stm_bind at 1. match goal with |- match ?m with _ => _ end = _ -> _ => destruct m as [s1 r1] eqn:H1 end.
  assert (s1.2 = s.2 /\ r1 = Ok tt) as [E1 ->] by (destruct (InspectedState.exists_ current); by injection H1 as <- <-).
  unfold mbind at 1, stm_bind at 1. match goal with |- match ?m with _ => _ end = _ -> _ => destruct m as [s2 r2] eqn:H2 end.
  assert (s2.2 = s.2 /\ r2 = Ok tt) as [E2 ->] by (destruct (InspectedState.complete current); by injection H2 as <- <-).
  unfold mbind at 1, stm_bind at 1. destruct (_ && _ && _); [by intros [= <- <-]|].
  unfold mbind at 1, stm_bind at 1. match goal with |- match ?m with _ => _ end = _ -> _ => destruct m as [s3 r3] eqn:H3 end.
  assert (s3 = s2) as -> by (destruct (plan_is_empty desired); by injection H3 as <- <-). destruct r3 as [u|e]; [|by intros [= <- <-]].
  unfold reconcile, this, gets, mbind, stm_bind. rewrite (matches_mode current mode); [by intros [= <- <-]|by rewrite Hmatch|].
  intros Hcomplete. unfold NftBackend.select_mode. by rewrite Hcomplete.
Qed.

(** C9. Applying a plan again after a success only looks at the kernel: the backend
    recognises the tables it made, whatever the encoding in which the kernel shows
    their rules, and submits no batch. *)
Theorem apply_again_looks self w desired self1 w1 self2 w2 r :
  canonical desired -> String.length (NftBackend.owner self) = 6%nat ->
  ~ (plan_is_empty desired = true /\ NftBackend.managed self = false) ->
  apply debug sha256 desired (self, w) = ((self1, w1), Ok tt) ->
  apply debug sha256 desired (self1, w1) = ((self2, w2), r) -> only_looked w1 w2.
Proof.
  intros Hc Howner Hnot [[(_ & _ & Hrec)|[Hno _]] _]%apply_changed; [|by destruct Hnot|done|done].
  unfold apply, this, gets. unfold mbind at 1, stm_bind at 1. unfold mbind at 1, stm_bind at 1, attempt at 1.
  destruct (call open (self1, w1)) as [s1 opened] eqn:Ho.
  assert (still (self1, w1) s1) as H01 by (eapply (call_open_still (fun e => e)); unfold mapped; rewrite Ho; done).
  unfold call in Ho. cbn in Ho. destruct (open w1) as [wo ro] eqn:Hopen. injection Ho as <- <-.
  assert (Hlook : forall wx, wx = wo \/ (exists connection dumped, snapshot connection wo = (wx, dumped)) -> only_looked w1 wx).
  { intros wx Hx. by exists wo, ro. }
  destruct ro as [connection|e].
  - unfold mbind at 1, stm_bind at 1, attempt at 1. unfold call. cbn. destruct (snapshot connection wo) as [ws rs] eqn:Hsnap.
    destruct rs as [raw|e].
    + intros H. apply apply_current_looks in H; cbn in H.
      * subst w2. apply Hlook. right. by exists connection, (Ok raw).
      * cbn. rewrite (snapshot_keeps _ _ _ _ Hsnap). by eapply snapshot_shows.
      * eapply recognised_still; [|exact Hrec]. eapply still_trans; [exact H01|]. split; [done|]. cbn. by eapply snapshot_keeps.
    + destruct (_ && is_permission_errno e); intros [= <- <- <-]; apply Hlook; right; by eexists _, _.
  - destruct (_ && (_ || _)); [intros [= <- <- <-]; apply Hlook; by left|].
    destruct (is_capability_errno e); intros [= <- <- <-]; apply Hlook; by left.
Qed.
End contract.
