(* ===== verification/NftNetlink.v ===== *)
(** * The netlink connection: [crates/node-agent/src/porthopping/backend_linux.rs],
    lines 1460 to 1916

    [NetlinkConnection] speaks to nf_tables over a netlink socket: it dumps tables, chains
    and rules, and sends a batch as one datagram and waits for the acknowledgement of
    every message.  It implements the [NftConnection] of [Nft.v].

    [Socket] is the socket of the netlink crates, [NetlinkWire] their encoding of messages;
    a batch reads what is in the inbox of its socket until a receive times out.  Integers
    are little-endian in memory. *)

From Stdlib Require Import ZArith Lia Ascii.
From S2P Require Import Prelude Bytes Hex PortRanges PortHopping PortErrors Nft NftCodec.

Open Scope Z_scope.

(** ** Messages *)

Definition NFNL_SUBSYS_NFTABLES : Z := 10.

(** The flags of a message header. *)
Definition NLM_F_REQUEST : Z := 1.
Definition NLM_F_ACK : Z := 4.
Definition NLM_F_EXCL : Z := 0x200.
Definition NLM_F_DUMP : Z := 0x300.
Definition NLM_F_CREATE : Z := 0x400.
Definition NLM_F_APPEND : Z := 0x800.

Module TableAttribute.
Inductive t : Type := Name (name : string) | Handle (handle : Z) | UserData (data : string) | Other (kind : Z).
End TableAttribute.

Module Hook.
Inductive t : Type := Number (number : Z) | Priority (priority : Z) | Other (kind : Z).
End Hook.

Module ChainAttribute.
Inductive t : Type :=
  | Table (name : string) | Name (name : string) | Type_ (name : string) | Hook (values : list Hook.t) | Policy (policy : Z)
  | UserData (data : string) | Other (kind : Z).
End ChainAttribute.

Module RuleAttribute.
Inductive t : Type :=
  | Table (name : string) | Chain (name : string) | Expressions (expressions : list ListAttribute.t) | UserData (data : string)
  | Other (kind : Z).
End RuleAttribute.

Module NfTablesMessage.
Inductive t : Type :=
  | NewTable (attributes : list TableAttribute.t) | GetTable (attributes : list TableAttribute.t) | DeleteTable (attributes : list TableAttribute.t)
  | NewChain (attributes : list ChainAttribute.t) | GetChain (attributes : list ChainAttribute.t)
  | NewRule (attributes : list RuleAttribute.t) | GetRule (attributes : list RuleAttribute.t)
  | Other (kind : Z).
End NfTablesMessage.

Module NetfilterMessageInner.
Inductive t : Type := NfTables (message : NfTablesMessage.t) | BatchBegin | BatchEnd | Other (kind : Z).
End NetfilterMessageInner.

Module NetfilterMessage.
Record t : Type := mk { family : NetfilterProtoFamily; resource_id : Z; inner : NetfilterMessageInner.t }.
End NetfilterMessage.

(** An error without a code is an acknowledgement. *)
Module NetlinkPayload.
Inductive t : Type :=
  | InnerMessage (message : NetfilterMessage.t) | Done (code : Z) | Error (code : option Z) | Overrun | Noop | Other.
End NetlinkPayload.

Module NetlinkMessage.
Record t : Type := mk { flags : Z; sequence_number : Z; port_number : Z; payload : NetlinkPayload.t }.
End NetlinkMessage.

(** What the netlink crates provide: [finalize] and [serialize], [deserialize] with the
    text of its error, and the error of the kernel. *)
Class NetlinkWire : Type := {
  serialize : NetlinkMessage.t -> string;
  deserialize : string -> result string NetlinkMessage.t;
  to_io : option Z -> IoError.t
}.

(** Netlink sockets in the world, named by their descriptor: the steps of opening one,
    sending and receiving a datagram (with the port of its sender).  [inbox] is what still
    arrives before a receive times out. *)
Class Socket (W : Type) : Type := {
  socket_new : W -> W * result IoError.t Z;
  bind_auto : Z -> W -> W * result IoError.t Z;
  connect : Z -> W -> W * result IoError.t unit;
  set_timeout : Z -> Z -> W -> W * result IoError.t unit;
  send : Z -> string -> W -> W * result IoError.t Z;
  recv_from_full : Z -> W -> W * result IoError.t (string * Z);
  inbox : Z -> W -> list (string * Z)
}.

(** ** Datagrams *)

Definition align4 (value : Z) : Z := Z.land (value + 3) (Z.lnot 3).

Definition le32 (z : Z) : string :=
  String (chr (z mod 256)) (String (chr (z / 256 mod 256)) (String (chr (z / 65536 mod 256)) (String (chr (z / 16777216)) ""))).

(** [u32::from_ne_bytes] *)
Definition read_le32 (bytes : string) : Z :=
  match bytes with
  | String a (String b (String c (String d EmptyString))) => ((code d * 256 + code c) * 256 + code b) * 256 + code a
  | _ => 0
  end.

(** [io::Error::new] and [io::Error::other]; the kinds are never read. *)
Definition io_error_new (text : string) : IoError.t := IoError.mk None text.

Section wire.
Context {wire : NetlinkWire}.

(** [bytes.resize(align4(bytes.len()), 0)] *)
Definition serialize_message (message : NetlinkMessage.t) : string :=
  let bytes := serialize message in
  bytes +:+ of_chars (replicate (Z.to_nat (align4 (str_len bytes) - str_len bytes)) (chr 0)).

(** [while offset < datagram.len()]; every round passes sixteen bytes. *)
Fixpoint parse_from (fuel : nat) (datagram : string) (offset : nat) : result IoError.t (list NetlinkMessage.t) :=
  let len := String.length datagram in
  if (len <=? offset)%nat then Ok []
  else
    match fuel with
    | O => Err (io_error_new "out of fuel")
    | S fuel =>
        if (len - offset <? 16)%nat then
          if forallb (fun byte => bool_decide (byte = chr 0)) (chars (from datagram offset)) then Ok []
          else Err (io_error_new "truncated netlink header")
        else
          let length := read_le32 (slice datagram offset 4) in
          if (length <? 16) || (Z.of_nat len <? Z.of_nat offset + length) then Err (io_error_new "invalid netlink message length")
          else
            message ← map_err io_error_new (deserialize (slice datagram offset (Z.to_nat length)));
            messages ← parse_from fuel datagram (offset + Z.to_nat (align4 length));
            Ok (message :: messages)
    end.

Definition parse_datagram (datagram : string) : result IoError.t (list NetlinkMessage.t) :=
  parse_from (String.length datagram) datagram 0.

(** ** Records of a dump *)

Definition required {A} (value : option A) (text : string) : result IoError.t A :=
  match value with Some value => Ok value | None => Err (io_error_new text) end.

Definition table_from_message (message : NetfilterMessage.t) : result IoError.t (option TableState.t) :=
  match from_protocol (NetfilterMessage.family message), NetfilterMessage.inner message with
  | Some family, NetfilterMessageInner.NfTables (NfTablesMessage.NewTable attributes | NfTablesMessage.GetTable attributes) =>
      let '(name, handle, user_data) :=
        foldl (fun acc attribute =>
                 let '(name, handle, user_data) := acc in
                 match attribute with
                 | TableAttribute.Name value => (Some value, handle, user_data)
                 | TableAttribute.Handle value => (name, Some value, user_data)
                 | TableAttribute.UserData value => (name, handle, value)
                 | TableAttribute.Other _ => acc
                 end) (None, None, "") attributes in
      name ← required name "nftables table dump omitted name";
      handle ← required handle "nftables table dump omitted handle";
      Ok (Some (TableState.mk family name handle user_data))
  | _, _ => Ok None
  end.

(** [value as i32] *)
Definition as_i32 (value : Z) : Z := if value <? 2147483648 then value else value - 4294967296.

(** [value as u32] *)
Definition as_u32 (value : Z) : Z := value mod 4294967296.

Definition hook_step (acc : option Z * option Z) (value : Hook.t) : option Z * option Z :=
  match value with
  | Hook.Number number => (Some number, acc.2)
  | Hook.Priority value => (acc.1, Some (as_i32 value))
  | Hook.Other _ => acc
  end.

(** The variables of [chain_from_message]. *)
Record chain_fields : Type := mkChainFields {
  cf_table : option string; cf_name : option string; cf_type : option string; cf_hook : option Z * option Z; cf_policy : option Z; cf_data : string
}.

Definition chain_step (acc : chain_fields) (attribute : ChainAttribute.t) : chain_fields :=
  let 'mkChainFields table name type_ hook policy data := acc in
  match attribute with
  | ChainAttribute.Table value => mkChainFields (Some value) name type_ hook policy data
  | ChainAttribute.Name value => mkChainFields table (Some value) type_ hook policy data
  | ChainAttribute.Type_ value => mkChainFields table name (Some value) hook policy data
  | ChainAttribute.Hook values => mkChainFields table name type_ (foldl hook_step hook values) policy data
  | ChainAttribute.Policy value => mkChainFields table name type_ hook (Some value) data
  | ChainAttribute.UserData value => mkChainFields table name type_ hook policy value
  | ChainAttribute.Other _ => acc
  end.

Definition chain_from_message (message : NetfilterMessage.t) : result IoError.t (option ChainState.t) :=
  match from_protocol (NetfilterMessage.family message), NetfilterMessage.inner message with
  | Some family, NetfilterMessageInner.NfTables (NfTablesMessage.NewChain attributes | NfTablesMessage.GetChain attributes) =>
      let fields := foldl chain_step (mkChainFields None None None (None, None) None "") attributes in
      table ← required (cf_table fields) "nftables chain dump omitted table";
      name ← required (cf_name fields) "nftables chain dump omitted name";
      Ok (Some (ChainState.mk family table name (cf_type fields) (cf_hook fields).1 (cf_hook fields).2 (cf_policy fields) (cf_data fields)))
  | _, _ => Ok None
  end.

Definition rule_from_message (message : NetfilterMessage.t) : result IoError.t (option RuleState.t) :=
  match from_protocol (NetfilterMessage.family message), NetfilterMessage.inner message with
  | Some family, NetfilterMessageInner.NfTables (NfTablesMessage.NewRule attributes | NfTablesMessage.GetRule attributes) =>
      let '(table, chain, expressions, user_data) :=
        foldl (fun acc attribute =>
                 let '(table, chain, expressions, user_data) := acc in
                 match attribute with
                 | RuleAttribute.Table value => (Some value, chain, expressions, user_data)
                 | RuleAttribute.Chain value => (table, Some value, expressions, user_data)
                 | RuleAttribute.Expressions value => (table, chain, value, user_data)
                 | RuleAttribute.UserData value => (table, chain, expressions, value)
                 | RuleAttribute.Other _ => acc
                 end) (None, None, [], "") attributes in
      table ← required table "nftables rule dump omitted table";
      chain ← required chain "nftables rule dump omitted chain";
      Ok (Some (RuleState.mk family table chain expressions user_data))
  | _, _ => Ok None
  end.

(** [for message in messages { if let Some(record) = from(message)? { push } }] *)
Fixpoint collect_records {A} (from : NetfilterMessage.t -> result IoError.t (option A)) (messages : list NetfilterMessage.t) : result IoError.t (list A) :=
  match messages with
  | [] => Ok []
  | message :: messages =>
      record ← from message;
      records ← collect_records from messages;
      Ok (option_list record ++ records)
  end.
End wire.

(** ** The connection *)

(** [struct NetlinkConnection] without its socket. *)
Module NetlinkConnection.
Record t : Type := mk { port_id : Z; sequence : Z }.
End NetlinkConnection.

(** The sockets and the connections that own them. *)
Record net (W : Type) : Type := mkNet { world : W; connections : gmap Z NetlinkConnection.t }.
Arguments mkNet {W} world connections.
Arguments world {W} n.
Arguments connections {W} n.

Definition SO_RCVTIMEO : Z := 20.
Definition SO_SNDTIMEO : Z := 21.

Section connection.
Context {wire : NetlinkWire} {W : Type} {sockets : Socket W} (strerror : Z -> string).

Local Abbreviation method := (stm (net W) IoError.t).

(** [io::Error::from_raw_os_error] *)
Definition from_raw_os_error (errno : Z) : IoError.t := IoError.mk (Some errno) (strerror errno).

Definition on_world {A} (f : W -> W * result IoError.t A) : method A :=
  fun n => let '(w, r) := f (world n) in (mkNet w (connections n), r).

(** [NetlinkConnection::open] *)
Definition open_connection : method Z :=
  socket ← on_world socket_new;
  local ← on_world (bind_auto socket);
  _ ← on_world (connect socket);
  _ ← on_world (set_timeout socket SO_RCVTIMEO);
  _ ← on_world (set_timeout socket SO_SNDTIMEO);
  _ ← modify (fun n => mkNet (world n) (<[socket := NetlinkConnection.mk local 0]> (connections n)));
  mret socket.

Definition this_connection (self : Z) : method NetlinkConnection.t :=
  gets (fun n => default (NetlinkConnection.mk 0 0) (connections n !! self)).

Definition next_sequence (self : Z) : method Z :=
  connection ← this_connection self;
  let sequence := Z.max ((NetlinkConnection.sequence connection + 1) mod 4294967296) 1 in
  _ ← modify (fun n => mkNet (world n) (<[self := NetlinkConnection.mk (NetlinkConnection.port_id connection) sequence]> (connections n)));
  mret sequence.

Definition nft_message (family : NetfilterProtoFamily) (message : NfTablesMessage.t) (flags sequence port_id : Z) : NetlinkMessage.t :=
  NetlinkMessage.mk flags sequence port_id
    (NetlinkPayload.InnerMessage (NetfilterMessage.mk family 0 (NetfilterMessageInner.NfTables message))).

(** *** Dumps *)

(** [for response in parse_datagram(&datagram)?]: the messages so far, and whether the
    dump is over. *)
Fixpoint dump_responses (sequence : Z) (responses : list NetlinkMessage.t) (output : list NetfilterMessage.t)
    : result IoError.t (list NetfilterMessage.t * bool) :=
  match responses with
  | [] => Ok (output, false)
  | response :: responses =>
      if negb (NetlinkMessage.sequence_number response =? sequence) then dump_responses sequence responses output
      else
        match NetlinkMessage.payload response with
        | NetlinkPayload.InnerMessage message => dump_responses sequence responses (output ++ [message])
        | NetlinkPayload.Done code => if negb (code =? 0) then Err (from_raw_os_error (Z.abs code)) else Ok (output, true)
        | NetlinkPayload.Error code => match code with Some _ => Err (to_io code) | None => Ok (output, true) end
        | NetlinkPayload.Overrun => Err (io_error_new "NETLINK_NETFILTER dump overrun")
        | NetlinkPayload.Noop | NetlinkPayload.Other => dump_responses sequence responses output
        end
  end.

Fixpoint dump_loop (fuel : nat) (self sequence : Z) (output : list NetfilterMessage.t) : method (list NetfilterMessage.t) :=
  '(datagram, sender) ← on_world (recv_from_full self);
  match fuel with
  | O => raise (io_error_new "out of fuel")
  | S fuel =>
      if negb (sender =? 0) then dump_loop fuel self sequence output
      else
        responses ← lift (parse_datagram datagram);
        '(output, finished) ← lift (dump_responses sequence responses output);
        if finished : bool then mret output else dump_loop fuel self sequence output
  end.

Definition dump (self : Z) (family : NetfilterProtoFamily) (message : NfTablesMessage.t) : method (list NetfilterMessage.t) :=
  sequence ← next_sequence self;
  connection ← this_connection self;
  let bytes := serialize_message (nft_message family message (Z.lor NLM_F_REQUEST NLM_F_DUMP) sequence (NetlinkConnection.port_id connection)) in
  written ← on_world (send self bytes);
  if negb (written =? str_len bytes) then raise (io_error_new "short NETLINK_NETFILTER dump request")
  else
    n ← get;
    dump_loop (length (inbox self (world n))) self sequence [].

(** [for family in Family::ALL] *)
Fixpoint dump_tables (self : Z) (families : list Family) (tables : list TableState.t) (unavailable : gmap Family Z)
    : method (list TableState.t * gmap Family Z) :=
  match families with
  | [] => mret (tables, unavailable)
  | family :: families =>
      dumped ← (fun n => let '(n, r) := dump self (protocol family) (NfTablesMessage.GetTable []) n in (n, Ok r));
      match dumped with
      | Ok messages =>
          records ← lift (collect_records table_from_message messages);
          dump_tables self families (tables ++ records) unavailable
      | Err error =>
          if is_capability_errno error
          then dump_tables self families tables (<[family := default EOPNOTSUPP (IoError.raw_os_error error)]> unavailable)
          else raise error
      end
  end.

Definition snapshot_connection (self : Z) : method KernelSnapshot.t :=
  '(tables, unavailable) ← dump_tables self all_families [] ∅;
  match tables with
  | [] => mret (KernelSnapshot.mk [] [] [] unavailable)
  | _ =>
      messages ← dump self ProtoUnspec (NfTablesMessage.GetChain []);
      chains ← lift (collect_records chain_from_message messages);
      messages ← dump self ProtoUnspec (NfTablesMessage.GetRule []);
      rules ← lift (collect_records rule_from_message messages);
      mret (KernelSnapshot.mk tables chains rules unavailable)
  end.

(** *** Batches *)

(** [matches!(&inner, None(BatchBegin | BatchEnd))] *)
Definition is_control (inner : NetfilterMessageInner.t) : bool :=
  match inner with NetfilterMessageInner.BatchBegin | NetfilterMessageInner.BatchEnd => true | _ => false end.

Definition batch_message (family : NetfilterProtoFamily) (inner : NetfilterMessageInner.t) (flags sequence port_id : Z) : NetlinkMessage.t :=
  NetlinkMessage.mk flags sequence port_id
    (NetlinkPayload.InnerMessage (NetfilterMessage.mk family (if is_control inner then NFNL_SUBSYS_NFTABLES else 0) inner)).

(** The datagram and the expected acknowledgements. *)
Definition push_message (self : Z) (family : NetfilterProtoFamily) (inner : NetfilterMessageInner.t) (flags : Z)
    (acc : string * gset Z) : method (string * gset Z) :=
  sequence ← next_sequence self;
  connection ← this_connection self;
  let message := batch_message family inner flags sequence (NetlinkConnection.port_id connection) in
  mret (acc.1 +:+ serialize_message message, if negb (Z.land flags NLM_F_ACK =? 0) then {[ sequence ]} ∪ acc.2 else acc.2).

(** The messages of a batch: family, content and flags, in the order they are pushed. *)
Definition delete_message (table : DeleteTable.t) : NetfilterProtoFamily * NetfilterMessageInner.t * Z :=
  (protocol (DeleteTable.family table),
   NetfilterMessageInner.NfTables (NfTablesMessage.DeleteTable [TableAttribute.Name (DeleteTable.name table); TableAttribute.Handle (DeleteTable.handle table)]),
   Z.lor NLM_F_REQUEST NLM_F_ACK).

Definition table_attributes (table : DesiredTable.t) : list TableAttribute.t :=
  [TableAttribute.Name (DesiredTable.name table); TableAttribute.UserData (DesiredTable.table_marker table)].

Definition chain_attributes (table : DesiredTable.t) : list ChainAttribute.t :=
  [ChainAttribute.Table (DesiredTable.name table); ChainAttribute.Name CHAIN_NAME; ChainAttribute.Policy NF_ACCEPT; ChainAttribute.Type_ "nat";
   ChainAttribute.Hook [Hook.Number PRE_ROUTING; Hook.Priority (as_u32 NF_IP_PRI_NAT_DST)]; ChainAttribute.UserData (DesiredTable.chain_marker table)].

Definition rule_attributes (table : DesiredTable.t) (rule : DesiredRule.t) : list RuleAttribute.t :=
  [RuleAttribute.Table (DesiredTable.name table); RuleAttribute.Chain CHAIN_NAME; RuleAttribute.Expressions (DesiredRule.expressions rule);
   RuleAttribute.UserData (DesiredRule.marker rule)].

Definition create_messages (table : DesiredTable.t) : list (NetfilterProtoFamily * NetfilterMessageInner.t * Z) :=
  let family := protocol (DesiredTable.family table) in
  let create := Z.lor (Z.lor NLM_F_REQUEST NLM_F_ACK) NLM_F_CREATE in
  (family, NetfilterMessageInner.NfTables (NfTablesMessage.NewTable (table_attributes table)), Z.lor create NLM_F_EXCL)
  :: (family, NetfilterMessageInner.NfTables (NfTablesMessage.NewChain (chain_attributes table)), Z.lor create NLM_F_EXCL)
  :: ((fun rule => (family, NetfilterMessageInner.NfTables (NfTablesMessage.NewRule (rule_attributes table rule)), Z.lor create NLM_F_APPEND))
      <$> DesiredTable.rules table).

Definition batch_messages (batch : Batch.t) : list (NetfilterProtoFamily * NetfilterMessageInner.t * Z) :=
  [(ProtoUnspec, NetfilterMessageInner.BatchBegin, NLM_F_REQUEST)]
  ++ (delete_message <$> Batch.delete batch) ++ (Batch.create batch ≫= create_messages)
  ++ [(ProtoUnspec, NetfilterMessageInner.BatchEnd, NLM_F_REQUEST)].

Fixpoint push_messages (self : Z) (messages : list (NetfilterProtoFamily * NetfilterMessageInner.t * Z)) (acc : string * gset Z)
    : method (string * gset Z) :=
  match messages with
  | [] => mret acc
  | (family, inner, flags) :: messages =>
      acc ← push_message self family inner flags acc;
      push_messages self messages acc
  end.

(** [for message in parse_datagram(&response)?] *)
Fixpoint ack_messages (messages : list NetlinkMessage.t) (expected_acks : gset Z) : result IoError.t (gset Z) :=
  match messages with
  | [] => Ok expected_acks
  | message :: messages =>
      if negb (bool_decide (NetlinkMessage.sequence_number message ∈ expected_acks)) then ack_messages messages expected_acks
      else
        match NetlinkMessage.payload message with
        | NetlinkPayload.Error None => ack_messages messages (expected_acks ∖ {[ NetlinkMessage.sequence_number message ]})
        | NetlinkPayload.Error code => Err (to_io code)
        | NetlinkPayload.Overrun => Err (io_error_new "NETLINK_NETFILTER batch overrun")
        | _ => ack_messages messages expected_acks
        end
  end.

(** [while !expected_acks.is_empty()] *)
Fixpoint ack_loop (fuel : nat) (self : Z) (expected_acks : gset Z) : method unit :=
  if bool_decide (expected_acks = ∅) then mret tt
  else
    '(response, sender) ← on_world (recv_from_full self);
    match fuel with
    | O => raise (io_error_new "out of fuel")
    | S fuel =>
        if negb (sender =? 0) then ack_loop fuel self expected_acks
        else
          messages ← lift (parse_datagram response);
          expected_acks ← lift (ack_messages messages expected_acks);
          ack_loop fuel self expected_acks
    end.

Definition execute_batch (self : Z) (batch : Batch.t) : method unit :=
  '(datagram, expected_acks) ← push_messages self (batch_messages batch) ("", ∅);
  written ← on_world (send self datagram);
  if negb (written =? str_len datagram) then raise (io_error_new "short NETLINK_NETFILTER atomic batch")
  else
    n ← get;
    ack_loop (length (inbox self (world n))) self expected_acks.

(** [impl NftConnection for NetlinkConnection] *)
Definition netlink_connection : NftConnection (net W) Z := {|
  Nft.open := open_connection;
  Nft.snapshot := snapshot_connection;
  Nft.execute := execute_batch
|}.
End connection.

(** ** Datagrams are read back *)

(** The encoding of a message is read back, and starts with its length. *)
Record encodes `{!NetlinkWire} (m : NetlinkMessage.t) : Prop := {
  deserialize_serialize : deserialize (serialize m) = Ok m;
  serialize_length : slice (serialize m) 0 4 = le32 (str_len (serialize m));
  serialize_bounds : 16 <= str_len (serialize m) < 4294967292
}.

Lemma align4_spec v : 0 <= v -> align4 v = 4 * ((v + 3) / 4).
Proof.
  intros Hv. unfold align4. rewrite <- Z.ldiff_land. change 3 with (Z.ones 2) at 2. rewrite Z.ldiff_ones_r by lia.
  rewrite Z.shiftr_div_pow2, Z.shiftl_mul_pow2 by lia. change (2 ^ 2) with 4. lia.
Qed.

Lemma align4_bounds v : 0 <= v -> v <= align4 v < v + 4.
Proof. intros Hv. rewrite align4_spec by done. pose proof (Z.div_mod (v + 3) 4 ltac:(lia)). pose proof (Z.mod_pos_bound (v + 3) 4 ltac:(lia)). lia. Qed.

Lemma read_le32_le32 z : is_u32 z -> read_le32 (le32 z) = z.
Proof.
  unfold is_u32, u32_max. intros Hz. unfold le32, read_le32.
  pose proof (Z.mod_pos_bound z 256 ltac:(lia)). pose proof (Z.mod_pos_bound (z / 256) 256 ltac:(lia)).
  pose proof (Z.mod_pos_bound (z / 65536) 256 ltac:(lia)).
  assert (0 <= z / 16777216 < 256) by (split; [apply Z.div_pos; lia|apply Z.div_lt_upper_bound; lia]).
  rewrite !code_chr by done. pose proof (Z.div_mod z 256 ltac:(lia)). pose proof (Z.div_mod (z / 256) 256 ltac:(lia)).
  pose proof (Z.div_mod (z / 65536) 256 ltac:(lia)).
  assert (z / 256 / 256 = z / 65536) by (rewrite Z.div_div by lia; done).
  assert (z / 65536 / 256 = z / 16777216) by (rewrite Z.div_div by lia; done). lia.
Qed.

Definition concat_messages `{!NetlinkWire} (messages : list NetlinkMessage.t) : string :=
  foldr (fun m acc => serialize_message m +:+ acc) "" messages.

Section datagrams.
Context {wire : NetlinkWire}.

Lemma serialize_nonneg m : 0 <= str_len (serialize m).
Proof. unfold str_len. lia. Qed.

Lemma length_serialize_message m : Z.of_nat (String.length (serialize_message m)) = align4 (str_len (serialize m)).
Proof.
  unfold serialize_message. rewrite length_append, length_of_chars, length_replicate.
  pose proof (align4_bounds _ (serialize_nonneg m)). unfold str_len in *. lia.
Qed.

Lemma parse_from_serialized messages fuel before :
  Forall encodes messages -> (length messages <= fuel)%nat ->
  parse_from fuel (before +:+ concat_messages messages) (String.length before) = Ok messages.
Proof.
  intros Henc. revert fuel before. induction Henc as [|m ms [Hd Hsl Hb] _ IH]; intros fuel before Hfuel.
  { cbn [concat_messages foldr]. destruct fuel; cbn [parse_from]; rewrite str_app_nil, Nat.leb_refl; done. }
  destruct fuel as [|fuel]; [cbn in Hfuel; lia|]. cbn [concat_messages foldr]. fold (concat_messages ms).
  set (rest := concat_messages ms) in *. pose proof (length_serialize_message m) as Hlm.
  pose proof (align4_bounds _ (serialize_nonneg m)) as Ha.
  assert (Hlen : String.length (before +:+ serialize_message m +:+ rest) = (String.length before + String.length (serialize_message m) + String.length rest)%nat)
    by (rewrite !length_append; lia).
  cbn [parse_from]. rewrite Hlen. replace (_ <=? String.length before)%nat with false by (symmetry; apply Nat.leb_gt; lia).
  replace (_ - String.length before <? 16)%nat with false by (symmetry; apply Nat.ltb_ge; lia).
  assert (Hs4 : slice (before +:+ serialize_message m +:+ rest) (String.length before) 4 = le32 (str_len (serialize m))).
  { rewrite <- Hsl. unfold serialize_message.
    assert (serialize m = slice (serialize m) 0 4 +:+ from (serialize m) 4) as Hsp.
    { pose proof (slice_from (serialize m) 0 4) as H. cbn [Nat.add] in H. rewrite H. unfold from. by rewrite drop_0, of_chars_chars. }
    rewrite Hsp at 1. rewrite !str_app_assoc. apply slice_app; [done|]. apply length_slice. unfold str_len in Hb. lia. }
  rewrite Hs4, read_le32_le32 by (unfold is_u32, u32_max; lia).
  replace (_ || _) with false by (symmetry; apply orb_false_iff; split; apply Z.ltb_ge; lia).
  assert (slice (before +:+ serialize_message m +:+ rest) (String.length before) (Z.to_nat (str_len (serialize m))) = serialize m) as ->.
  { unfold serialize_message. rewrite !str_app_assoc. apply slice_app; [done|]. unfold str_len. lia. }
  rewrite Hd. cbn [map_err mbind result_bind].
  assert (before +:+ serialize_message m +:+ rest = (before +:+ serialize_message m) +:+ rest) as -> by (by rewrite str_app_assoc).
  assert ((String.length before + Z.to_nat (align4 (str_len (serialize m))))%nat = String.length (before +:+ serialize_message m)) as ->
    by (rewrite length_append; lia).
  unfold rest. rewrite IH by (cbn in Hfuel; lia). done.
Qed.

(** The length of a datagram is fuel enough for any of them. *)
Lemma parse_from_fuel fuel extra datagram offset :
  (String.length datagram - offset <= fuel)%nat -> parse_from (fuel + extra) datagram offset = parse_from fuel datagram offset.
Proof.
  revert offset. induction fuel as [|fuel IH]; intros offset Hf.
  - assert ((String.length datagram <=? offset)%nat = true) as He by (apply Nat.leb_le; lia). destruct extra; cbn [Nat.add parse_from]; by rewrite He.
  - cbn [Nat.add parse_from]. destruct (_ <=? offset)%nat; [done|]. destruct (_ <? 16)%nat; [done|].
    destruct (_ || _) eqn:Hl; [done|]. destruct (map_err _ _) as [m|]; [|done]. cbn [mbind result_bind]. rewrite IH; [done|].
    apply orb_false_iff in Hl as [Hl%Z.ltb_ge _]. pose proof (align4_bounds (read_le32 (slice datagram offset 4)) ltac:(lia)). lia.
Qed.

Lemma concat_length messages : Forall encodes messages -> (length messages <= String.length (concat_messages messages))%nat.
Proof.
  induction 1 as [|m ms [_ _ Hb] _ IH]; [done|]. cbn [concat_messages foldr length]. fold (concat_messages ms). rewrite length_append.
  pose proof (length_serialize_message m). pose proof (align4_bounds _ (serialize_nonneg m)). lia.
Qed.

(** A datagram holds its messages: concatenated and padded to four bytes, they are
    read back in order. *)
Theorem datagram_read_back messages : Forall encodes messages -> parse_datagram (concat_messages messages) = Ok messages.
Proof. intros H. unfold parse_datagram. apply (parse_from_serialized messages _ ""); [done|]. by apply concat_length. Qed.
End datagrams.

(** ** What a batch writes, a dump reads *)

(** A variable that the attributes of one kind set, and that one of them sets. *)
Lemma fold_single {A B S} (step : S -> A -> S) (field : S -> B) (set : A -> option (B -> B)) (b : B) l1 a l2 s f :
  (forall s x, field (step s x) = match set x with Some f => f (field s) | None => field s end) ->
  set a = Some f -> Forall (fun x => set x = None) (l1 ++ l2) -> f (field s) = b -> field (foldl step s (l1 ++ a :: l2)) = b.
Proof.
  intros Hstep Ha [H1 H2]%Forall_app Hf. rewrite foldl_app. cbn [foldl].
  assert (Hkeep : forall l s, Forall (fun x => set x = None) l -> field (foldl step s l) = field s).
  { induction l as [|x l IH]; intros s' Hl; [done|]. inversion Hl as [|? ? Hx Hl']; subst. cbn [foldl]. rewrite IH by done. by rewrite Hstep, Hx. }
  rewrite Hkeep, Hstep, Ha, Hkeep by done. done.
Qed.

(** The same for a list in any order in which only one element sets the variable. *)
Lemma fold_permuted {A B S} (step : S -> A -> S) (field : S -> B) (set : A -> option (B -> B)) (b : B) l a rest s f :
  (forall s x, field (step s x) = match set x with Some f => f (field s) | None => field s end) ->
  l ≡ₚ a :: rest -> set a = Some f -> Forall (fun x => set x = None) rest -> f (field s) = b -> field (foldl step s l) = b.
Proof.
  intros Hstep Hp Ha Hrest Hf. assert (Hin : a ∈ l) by (rewrite Hp; by left). apply list_elem_of_split in Hin as (l1 & l2 & ->).
  eapply fold_single; [done..| |done]. assert (l1 ++ l2 ≡ₚ rest) as Hperm.
  { apply (Permutation_cons_inv (a := a)). by rewrite <- Hp, Permutation_middle. }
  by rewrite Hperm.
Qed.

(** Attributes that the backend does not know. *)
Definition unknown_chain (x : ChainAttribute.t) : Prop := match x with ChainAttribute.Other _ => True | _ => False end.

Section shown.
Context (table : DesiredTable.t) (extra : list ChainAttribute.t) (Hextra : Forall unknown_chain extra).

Lemma chain_field {B} (i : nat) (field : chain_fields -> B) set b l a f s :
  (forall s x, field (chain_step s x) = match set x with Some f => f (field s) | None => field s end) ->
  (forall k, set (ChainAttribute.Other k) = None) ->
  l ≡ₚ chain_attributes table ++ extra -> chain_attributes table !! i = Some a -> set a = Some f ->
  Forall (fun x => set x = None) (delete i (chain_attributes table)) ->
  f (field s) = b -> field (foldl chain_step s l) = b.
Proof.
  intros Hstep Hother Hl Hc Ha Hrest Hf. eapply (fold_permuted _ _ _ _ _ a (delete i (chain_attributes table) ++ extra)); [done| |done| |done].
  - rewrite Hl, (delete_Permutation _ _ _ Hc) at 1. done.
  - apply Forall_app. split; [done|]. eapply Forall_impl; [exact Hextra|]. by intros [] Hx.
Qed.

Ltac chain_attribute i field set Hl :=
  eapply (chain_field i field set); [by intros [] []|done|exact Hl|reflexivity|reflexivity|by repeat constructor|done].

(** A chain as [execute] creates it is shown as a managed chain, in whatever order and
    among whatever other attributes the kernel gives its own. *)
Lemma chain_shown l :
  l ≡ₚ chain_attributes table ++ extra ->
  exists chain, chain_from_message (NetfilterMessage.mk (protocol (DesiredTable.family table)) 0
                                      (NetfilterMessageInner.NfTables (NfTablesMessage.NewChain l))) = Ok (Some chain) /\
    ChainState.family chain = DesiredTable.family table /\ ChainState.table chain = DesiredTable.name table /\
    is_managed_chain chain = true /\ ChainState.user_data chain = DesiredTable.chain_marker table.
Proof.
  intros Hl. unfold chain_from_message. cbn [NetfilterMessage.family NetfilterMessage.inner].
  assert (from_protocol (protocol (DesiredTable.family table)) = Some (DesiredTable.family table)) as -> by (by destruct (DesiredTable.family table)).
  set (start := mkChainFields None None None (None, None) None "").
  assert (H1 : cf_table (foldl chain_step start l) = Some (DesiredTable.name table))
    by (chain_attribute 0%nat cf_table (fun x => match x with ChainAttribute.Table v => Some (fun _ : option string => Some v) | _ => None end) Hl).
  assert (H2 : cf_name (foldl chain_step start l) = Some CHAIN_NAME)
    by (chain_attribute 1%nat cf_name (fun x => match x with ChainAttribute.Name v => Some (fun _ : option string => Some v) | _ => None end) Hl).
  assert (H3 : cf_type (foldl chain_step start l) = Some "nat")
    by (chain_attribute 3%nat cf_type (fun x => match x with ChainAttribute.Type_ v => Some (fun _ : option string => Some v) | _ => None end) Hl).
  assert (H4 : cf_policy (foldl chain_step start l) = Some NF_ACCEPT)
    by (chain_attribute 2%nat cf_policy (fun x => match x with ChainAttribute.Policy v => Some (fun _ : option Z => Some v) | _ => None end) Hl).
  assert (H5 : cf_hook (foldl chain_step start l) = (Some PRE_ROUTING, Some NF_IP_PRI_NAT_DST))
    by (chain_attribute 4%nat cf_hook (fun x => match x with ChainAttribute.Hook v => Some (fun hook => foldl hook_step hook v) | _ => None end) Hl).
  assert (H6 : cf_data (foldl chain_step start l) = DesiredTable.chain_marker table)
    by (chain_attribute 5%nat cf_data (fun x => match x with ChainAttribute.UserData v => Some (fun _ : string => v) | _ => None end) Hl).
  rewrite H1, H2, H3, H4, H5, H6. eexists. split; [reflexivity|]. done.
Qed.
End shown.

Section shown_tables.
Context (table : DesiredTable.t).

Lemma family_shown family : from_protocol (protocol family) = Some family.
Proof. by destruct family. Qed.

Definition unknown_table (x : TableAttribute.t) : Prop := match x with TableAttribute.Other _ => True | _ => False end.
Definition unknown_rule (x : RuleAttribute.t) : Prop := match x with RuleAttribute.Other _ => True | _ => False end.

(** One variable of a loop over attributes, the [i]-th of which sets it. *)
Ltac attribute i field set known Hl Hextra :=
  eapply (fold_permuted _ field set _ _ _ (delete i known ++ _));
    [by intros [[[? ?] ?] ?] [] || by intros [[? ?] ?] []
    |rewrite Hl, (delete_Permutation known i _ eq_refl) at 1; rewrite <- app_comm_cons; reflexivity|reflexivity
    |apply Forall_app; split; [by repeat constructor|eapply Forall_impl; [exact Hextra|by intros [] Hx]]|done].

(** A table is shown with the handle that the kernel gave it. *)
Lemma table_shown handle l extra :
  Forall unknown_table extra -> l ≡ₚ (TableAttribute.Handle handle :: table_attributes table) ++ extra ->
  table_from_message (NetfilterMessage.mk (protocol (DesiredTable.family table)) 0 (NetfilterMessageInner.NfTables (NfTablesMessage.NewTable l)))
  = Ok (Some (TableState.mk (DesiredTable.family table) (DesiredTable.name table) handle (DesiredTable.table_marker table))).
Proof.
  intros Hextra Hl. unfold table_from_message. cbn [NetfilterMessage.family NetfilterMessage.inner]. rewrite family_shown.
  match goal with |- context [foldl ?f ?s l] => set (step := f); set (start := s) end.
  set (known := TableAttribute.Handle handle :: table_attributes table) in *.
  assert (H1 : (foldl step start l).1.1 = Some (DesiredTable.name table))
    by (attribute 1%nat (fun s : option string * option Z * string => s.1.1)
          (fun x => match x with TableAttribute.Name v => Some (fun _ : option string => Some v) | _ => None end) known Hl Hextra).
  assert (H2 : (foldl step start l).1.2 = Some handle)
    by (attribute 0%nat (fun s : option string * option Z * string => s.1.2)
          (fun x => match x with TableAttribute.Handle v => Some (fun _ : option Z => Some v) | _ => None end) known Hl Hextra).
  assert (H3 : (foldl step start l).2 = DesiredTable.table_marker table)
    by (attribute 2%nat (fun s : option string * option Z * string => s.2)
          (fun x => match x with TableAttribute.UserData v => Some (fun _ : string => v) | _ => None end) known Hl Hextra).
  destruct (foldl step start l) as [[name h] data]. cbn in H1, H2, H3. by subst.
Qed.

Lemma rule_shown rule l extra :
  Forall unknown_rule extra -> l ≡ₚ rule_attributes table rule ++ extra ->
  rule_from_message (NetfilterMessage.mk (protocol (DesiredTable.family table)) 0 (NetfilterMessageInner.NfTables (NfTablesMessage.NewRule l)))
  = Ok (Some (RuleState.mk (DesiredTable.family table) (DesiredTable.name table) CHAIN_NAME (DesiredRule.expressions rule) (DesiredRule.marker rule))).
Proof.
  intros Hextra Hl. unfold rule_from_message. cbn [NetfilterMessage.family NetfilterMessage.inner]. rewrite family_shown.
  match goal with |- context [foldl ?f ?s l] => set (step := f); set (start := s) end.
  set (known := rule_attributes table rule) in *.
  assert (H1 : (foldl step start l).1.1.1 = Some (DesiredTable.name table))
    by (attribute 0%nat (fun s : option string * option string * list ListAttribute.t * string => s.1.1.1)
          (fun x => match x with RuleAttribute.Table v => Some (fun _ : option string => Some v) | _ => None end) known Hl Hextra).
  assert (H2 : (foldl step start l).1.1.2 = Some CHAIN_NAME)
    by (attribute 1%nat (fun s : option string * option string * list ListAttribute.t * string => s.1.1.2)
          (fun x => match x with RuleAttribute.Chain v => Some (fun _ : option string => Some v) | _ => None end) known Hl Hextra).
  assert (H3 : (foldl step start l).1.2 = DesiredRule.expressions rule)
    by (attribute 2%nat (fun s : option string * option string * list ListAttribute.t * string => s.1.2)
          (fun x => match x with RuleAttribute.Expressions v => Some (fun _ : list ListAttribute.t => v) | _ => None end) known Hl Hextra).
  assert (H4 : (foldl step start l).2 = DesiredRule.marker rule)
    by (attribute 3%nat (fun s : option string * option string * list ListAttribute.t * string => s.2)
          (fun x => match x with RuleAttribute.UserData v => Some (fun _ : string => v) | _ => None end) known Hl Hextra).
  destruct (foldl step start l) as [[[tab chain] expressions] data]. cbn in H1, H2, H3, H4. by subst.
Qed.
End shown_tables.

(** *** Snapshots of what a batch created *)

(** The messages with which a dump shows the objects of a created table: the written
    attributes in any order, a handle, and attributes that the backend does not know. *)
Definition shows_table (table : DesiredTable.t) (handle : Z) (m : NetfilterMessage.t) : Prop :=
  exists l extra, Forall unknown_table extra /\ l ≡ₚ (TableAttribute.Handle handle :: table_attributes table) ++ extra /\
    m = NetfilterMessage.mk (protocol (DesiredTable.family table)) 0 (NetfilterMessageInner.NfTables (NfTablesMessage.NewTable l)).

Definition shows_chain (table : DesiredTable.t) (m : NetfilterMessage.t) : Prop :=
  exists l extra, Forall unknown_chain extra /\ l ≡ₚ chain_attributes table ++ extra /\
    m = NetfilterMessage.mk (protocol (DesiredTable.family table)) 0 (NetfilterMessageInner.NfTables (NfTablesMessage.NewChain l)).

Definition shows_rule (table : DesiredTable.t) (rule : DesiredRule.t) (m : NetfilterMessage.t) : Prop :=
  exists l extra, Forall unknown_rule extra /\ l ≡ₚ rule_attributes table rule ++ extra /\
    m = NetfilterMessage.mk (protocol (DesiredTable.family table)) 0 (NetfilterMessageInner.NfTables (NfTablesMessage.NewRule l)).

(** C8. A table that [execute] created is read back by a dump as the snapshot of a managed
    table: the table with its marker, one chain of the managed shape, and its rules in
    order, in whatever order the kernel gives the attributes. *)
Theorem created_shown table handle tm cm rms :
  shows_table table handle tm -> shows_chain table cm -> Forall2 (shows_rule table) (DesiredTable.rules table) rms ->
  collect_records table_from_message [tm]
    = Ok [TableState.mk (DesiredTable.family table) (DesiredTable.name table) handle (DesiredTable.table_marker table)] /\
  (exists chain, collect_records chain_from_message [cm] = Ok [chain] /\ is_managed_chain chain = true /\
     ChainState.family chain = DesiredTable.family table /\ ChainState.table chain = DesiredTable.name table /\
     ChainState.user_data chain = DesiredTable.chain_marker table) /\
  collect_records rule_from_message rms
    = Ok ((fun rule => RuleState.mk (DesiredTable.family table) (DesiredTable.name table) CHAIN_NAME (DesiredRule.expressions rule)
                         (DesiredRule.marker rule)) <$> DesiredTable.rules table).
Proof.
  intros (l & extra & He & Hl & ->) (lc & ec & Hec & Hlc & ->) Hrules. split; [|split].
  - cbn [collect_records]. by rewrite (table_shown table handle l extra).
  - destruct (chain_shown table ec Hec lc Hlc) as (chain & Hc & Hf & Ht & Hm & Hd). exists chain. cbn [collect_records]. by rewrite Hc.
  - induction Hrules as [|rule m rules ms (lr & er & Her & Hlr & ->) _ IH]; [done|]. cbn [collect_records].
    rewrite (rule_shown table rule lr er) by done. cbn [mbind result_bind]. by rewrite IH.
Qed.

(** ** A batch is acknowledged *)

(** A receive takes the first datagram of the inbox. *)
Class SocketLaws (W : Type) `{!Socket W} : Prop := {
  recv_takes self w w' datagram : recv_from_full self w = (w', Ok datagram) -> inbox self w = datagram :: inbox self w'
}.

Definition advance (sequence : Z) : Z := Z.max ((sequence + 1) mod 4294967296) 1.

(** The messages of a batch with their sequence numbers. *)
Fixpoint numbered (port_id sequence : Z) (messages : list (NetfilterProtoFamily * NetfilterMessageInner.t * Z)) : list NetlinkMessage.t :=
  match messages with
  | [] => []
  | (family, inner, flags) :: messages =>
      batch_message family inner flags (advance sequence) port_id :: numbered port_id (advance sequence) messages
  end.

(** The messages that open and close a batch. *)
Definition control (m : NetlinkMessage.t) : Prop :=
  match NetlinkMessage.payload m with NetlinkPayload.InnerMessage m => is_control (NetfilterMessage.inner m) = true | _ => False end.

Definition wants_ack (m : NetlinkMessage.t) : Prop := Z.land (NetlinkMessage.flags m) NLM_F_ACK <> 0.

Section acknowledged.
Context {wire : NetlinkWire} {W : Type} {sockets : Socket W} {laws : SocketLaws W} (strerror : Z -> string).
Implicit Types (n : net W) (self : Z).

(** A datagram of the kernel acknowledges the message. *)
Definition acknowledged (read : list (string * Z)) (sequence : Z) : Prop :=
  exists datagram messages m, (datagram, 0) ∈ read /\ parse_datagram datagram = Ok messages /\ m ∈ messages /\
    NetlinkMessage.sequence_number m = sequence /\ NetlinkMessage.payload m = NetlinkPayload.Error None.

Definition owner_of n self : NetlinkConnection.t := default (NetlinkConnection.mk 0 0) (connections n !! self).

Lemma push_messages_spec self messages acc n :
  exists n' expected,
    push_messages self messages acc n
    = (n', Ok (acc.1 +:+ concat_messages (numbered (NetlinkConnection.port_id (owner_of n self)) (NetlinkConnection.sequence (owner_of n self)) messages), expected)) /\
    world n' = world n /\
    forall x, x ∈ expected <-> x ∈ acc.2 \/
      exists m, m ∈ numbered (NetlinkConnection.port_id (owner_of n self)) (NetlinkConnection.sequence (owner_of n self)) messages /\
                wants_ack m /\ NetlinkMessage.sequence_number m = x.
Proof.
  revert acc n. induction messages as [|[[family inner] flags] messages IH]; intros acc n; cbn [push_messages numbered].
  { exists n, acc.2. cbn. rewrite str_app_nil. split; [by destruct acc|]. split; [done|]. intros x. split; [by left|].
    intros [H|(m & H%elem_of_nil & _)]; done. }
  set (connection := owner_of n self).
  set (n1 := mkNet (world n) (<[self := NetlinkConnection.mk (NetlinkConnection.port_id connection) (advance (NetlinkConnection.sequence connection))]> (connections n))).
  set (message := batch_message family inner flags (advance (NetlinkConnection.sequence connection)) (NetlinkConnection.port_id connection)).
  set (acc1 := (acc.1 +:+ serialize_message message,
                if negb (Z.land flags NLM_F_ACK =? 0) then {[ advance (NetlinkConnection.sequence connection) ]} ∪ acc.2 else acc.2)).
  assert (Hown : owner_of n1 self = NetlinkConnection.mk (NetlinkConnection.port_id connection) (advance (NetlinkConnection.sequence connection))).
  { unfold owner_of, n1. cbn. by rewrite lookup_insert_eq. }
  assert (Hpush : push_message self family inner flags acc n = (n1, Ok acc1)).
  { unfold push_message, next_sequence, this_connection, gets, modify, mret, stm_ret, mbind, stm_bind. cbn [world connections].
    fold (owner_of n self). fold connection. fold (advance (NetlinkConnection.sequence connection)). rewrite lookup_insert_eq. done. }
  rewrite (stm_bind_eq _ _ _ _ _ Hpush). destruct (IH acc1 n1) as (n' & expected & Heq & Hw & Hx). rewrite Hown in Heq, Hx. cbn in Heq, Hx.
  exists n', expected. split; [|split].
  - rewrite Heq. unfold acc1. cbn [fst snd]. cbn [concat_messages foldr]. by rewrite str_app_assoc.
  - by rewrite Hw.
  - intros x. rewrite Hx. unfold acc1. cbn [snd]. setoid_rewrite elem_of_cons. unfold wants_ack.
    destruct (Z.eqb_spec (Z.land flags NLM_F_ACK) 0) as [Hz|Hz]; cbn [negb].
    + split; [intros [?|(m & ? & ?)]; [by left|right; exists m; auto]|]. intros [?|(m & [->|?] & Ha & ?)]; [by left|by cbn in Ha|right; by exists m].
    + rewrite elem_of_union, elem_of_singleton. split.
      * intros [[->|?]|(m & ? & ?)]; [right; exists message; split; [by left|done]|by left|right; exists m; auto].
      * intros [?|(m & [->|?] & Ha & Hs)]; [left; by right|left; left; by cbn in Hs|right; by exists m].
Qed.

Lemma ack_messages_spec messages expected expected' :
  ack_messages messages expected = Ok expected' ->
  forall x, x ∈ expected -> x ∈ expected' \/
    exists m, m ∈ messages /\ NetlinkMessage.sequence_number m = x /\ NetlinkMessage.payload m = NetlinkPayload.Error None.
Proof.
  revert expected. induction messages as [|m ms IH]; intros expected; cbn [ack_messages]; [intros [= <-]; by left|].
  assert (Hskip : ack_messages ms expected = Ok expected' -> forall x, x ∈ expected -> x ∈ expected' \/
    exists m', m' ∈ m :: ms /\ NetlinkMessage.sequence_number m' = x /\ NetlinkMessage.payload m' = NetlinkPayload.Error None).
  { intros H x Hx. destruct (IH _ H x Hx) as [?|(m' & ? & ?)]; [by left|right; exists m'; split; [by right|done]]. }
  case_bool_decide as Hm; cbn [negb]; [|done]. destruct (NetlinkMessage.payload m) as [| |[code|]| | |] eqn:Hp; try done.
  intros H x Hx. destruct (decide (x = NetlinkMessage.sequence_number m)) as [->|Hne].
  - right. exists m. split; [by left|done].
  - destruct (IH _ H x) as [?|(m' & ? & ?)]; [|by left|right; exists m'; split; [by right|done]].
    apply elem_of_difference. split; [done|]. by rewrite elem_of_singleton.
Qed.

Lemma acknowledged_app read1 read2 x : acknowledged read1 x \/ acknowledged read2 x -> acknowledged (read1 ++ read2) x.
Proof. intros [(d & ms & m & Hd & H)|(d & ms & m & Hd & H)]; exists d, ms, m; (split; [apply elem_of_app; auto|exact H]). Qed.

Lemma ack_loop_spec fuel self expected n n' :
  ack_loop fuel self expected n = (n', Ok tt) ->
  exists read, inbox self (world n) = read ++ inbox self (world n') /\ forall x, x ∈ expected -> acknowledged read x.
Proof.
  revert expected n. induction fuel as [|fuel IH]; intros expected n; cbn [ack_loop]; (case_bool_decide as He; [intros [= <-]; subst expected;
    exists []; split; [done|by intros x ?%elem_of_empty]|]).
  { intros ([? ?] & [? ?] & _ & H)%stm_bind_Ok. done. }
  unfold mbind at 1, stm_bind at 1, on_world. destruct (recv_from_full self (world n)) as [w1 [[datagram sender]|e]] eqn:Hr; [|done].
  apply recv_takes in Hr. destruct (Z.eqb_spec sender 0) as [->|Hne]; cbn [negb].
  - unfold lift. unfold mbind at 1, stm_bind at 1. destruct (parse_datagram datagram) as [messages|e] eqn:Hp; [|done].
    unfold mbind at 1, stm_bind at 1. destruct (ack_messages messages expected) as [expected'|e] eqn:Ha; [|done].
    intros H. apply IH in H as (read & Hread & Hall). cbn in Hread. exists ((datagram, 0) :: read). split; [by rewrite Hr, Hread|].
    intros x Hx. apply (acknowledged_app [(datagram, 0)] read). destruct (ack_messages_spec _ _ _ Ha x Hx) as [?|(m & Hm & Hs & Hp')]; [right; by apply Hall|left].
    exists datagram, messages, m. split; [by left|done].
  - intros H. apply IH in H as (read & Hread & Hall). cbn in Hread. exists ((datagram, sender) :: read). split; [by rewrite Hr, Hread|].
    intros x Hx. apply (acknowledged_app [(datagram, sender)] read). right. by apply Hall.
Qed.

Lemma numbered_elem port_id sequence l m :
  m ∈ numbered port_id sequence l -> exists family inner flags number, (family, inner, flags) ∈ l /\ m = batch_message family inner flags number port_id.
Proof.
  revert sequence. induction l as [|[[family inner] flags] l IH]; intros sequence; cbn [numbered]; [by intros ?%elem_of_nil|].
  intros [->|(f & i & fl & k & Hin & ->)%IH]%elem_of_cons; [by exists family, inner, flags, (advance sequence); split; [left|]|].
  exists f, i, fl, k. split; [by right|done].
Qed.

Lemma batch_wants_ack port_id sequence batch m : m ∈ numbered port_id sequence (batch_messages batch) -> control m \/ wants_ack m.
Proof.
  intros (family & inner & flags & k & Hin & ->)%numbered_elem. unfold batch_messages in Hin.
  repeat (apply elem_of_app in Hin as [Hin|Hin]).
  - apply list_elem_of_singleton in Hin as [= -> -> ->]. by left.
  - apply list_elem_of_fmap in Hin as (t & [= -> -> ->] & _). by right.
  - apply list_elem_of_bind in Hin as (t & Hin & _). apply elem_of_cons in Hin as [[= -> -> ->]|Hin]; [by right|].
    apply elem_of_cons in Hin as [[= -> -> ->]|Hin]; [by right|]. apply list_elem_of_fmap in Hin as (r & [= -> -> ->] & _). by right.
  - apply list_elem_of_singleton in Hin as [= -> -> ->]. by left.
Qed.

(** C7. [execute] succeeds only when every message of the batch was acknowledged: the batch
    is sent as one datagram between its begin and end messages, numbered in order, and
    for each deletion, table, chain and rule the kernel sent an acknowledgement with its
    number, in a datagram of its own port, after the batch was sent. *)
Theorem execute_acknowledged self batch n n' :
  execute_batch self batch n = (n', Ok tt) ->
  let messages := numbered (NetlinkConnection.port_id (owner_of n self)) (NetlinkConnection.sequence (owner_of n self)) (batch_messages batch) in
  exists w1 read, send self (concat_messages messages) (world n) = (w1, Ok (str_len (concat_messages messages))) /\
    inbox self w1 = read ++ inbox self (world n') /\
    forall m, m ∈ messages -> control m \/ acknowledged read (NetlinkMessage.sequence_number m).
Proof.
  unfold execute_batch. destruct (push_messages_spec self (batch_messages batch) ("", ∅) n) as (n1 & expected & Hpush & Hw & Hx).
  rewrite (stm_bind_eq _ _ _ _ _ Hpush). cbn [fst]. change ("" +:+ ?s) with s. set (messages := numbered _ _ _) in *.
  unfold mbind at 1, stm_bind at 1, on_world. rewrite Hw. destruct (send self (concat_messages messages) (world n)) as [w1 [written|e]] eqn:Hs; [|done].
  destruct (Z.eqb_spec written (str_len (concat_messages messages))) as [->|]; [|done]. cbn [negb].
  unfold mbind at 1, stm_bind at 1, get. intros (read & Hread & Hall)%ack_loop_spec. cbn in Hread.
  exists w1, read. split; [done|]. split; [done|]. intros m Hm. destruct (batch_wants_ack _ _ _ _ Hm) as [?|Ha]; [by left|right].
  apply Hall, Hx. right. by exists m.
Qed.

(** More fuel than the inbox holds changes nothing: the loop ends by itself. *)
Lemma ack_loop_fuel fuel extra self expected n :
  (length (inbox self (world n)) <= fuel)%nat -> ack_loop (fuel + extra) self expected n = ack_loop fuel self expected n.
Proof.
  revert expected n. induction fuel as [|fuel IH]; intros expected n Hf; cbn [Nat.add].
  - destruct extra as [|extra]; [done|]. cbn [ack_loop]. case_bool_decide; [done|]. unfold mbind, stm_bind, on_world.
    destruct (recv_from_full self (world n)) as [w1 [[datagram sender]|e]] eqn:Hr; [|done]. apply recv_takes in Hr. rewrite Hr in Hf. cbn in Hf. lia.
  - cbn [ack_loop]. case_bool_decide; [done|]. unfold mbind, stm_bind, on_world.
    destruct (recv_from_full self (world n)) as [w1 [[datagram sender]|e]] eqn:Hr; [|done]. apply recv_takes in Hr. rewrite Hr in Hf. cbn in Hf.
    destruct (negb _); [apply IH; cbn; lia|]. unfold lift. destruct (parse_datagram datagram) as [messages|]; [|done].
    destruct (ack_messages messages expected); [|done]. apply IH. cbn. lia.
Qed.

Lemma dump_loop_fuel fuel extra self sequence output n :
  (length (inbox self (world n)) <= fuel)%nat ->
  dump_loop strerror (fuel + extra) self sequence output n = dump_loop strerror fuel self sequence output n.
Proof.
  revert output n. induction fuel as [|fuel IH]; intros output n Hf; cbn [Nat.add].
  - destruct extra as [|extra]; [done|]. cbn [dump_loop]. unfold mbind, stm_bind, on_world.
    destruct (recv_from_full self (world n)) as [w1 [[datagram sender]|e]] eqn:Hr; [|done]. apply recv_takes in Hr. rewrite Hr in Hf. cbn in Hf. lia.
  - cbn [dump_loop]. unfold mbind, stm_bind, on_world.
    destruct (recv_from_full self (world n)) as [w1 [[datagram sender]|e]] eqn:Hr; [|done]. apply recv_takes in Hr. rewrite Hr in Hf. cbn in Hf.
    destruct (negb _); [apply IH; cbn; lia|]. unfold lift. destruct (parse_datagram datagram) as [messages|]; [|done].
    destruct (dump_responses _ _ _ _) as [[output' finished]|]; [|done]. destruct finished; [done|]. apply IH. cbn. lia.
Qed.
End acknowledged.
