(* ===== verification/NftExample.v ===== *)
(** * The nftables backend at work

    A kernel that keeps its tables in memory implements [NftKernel], and the first plan of
    a machine is applied to it next to the table of another program. *)

From Stdlib Require Import ZArith Lia Ascii.
From S2P Require Import Prelude Bytes Hex PortRanges PortHopping PortErrors Nft NftCodec NftSpec NftContract NftNetlink.

Open Scope Z_scope.

(** ** Attributes *)

(** An element holds its expression as its only attribute; a nested value is written
    with its length and kind in front. *)
Definition example_element (e : Expressions.t) : ListAttribute.t := ListAttribute.Element [ExpressionAttribute.Data e].

Definition example_header : string := String (chr 6) (String (chr 0) (String (chr 1) (String (chr 0) ""))).

Definition example_nlas (buffer : string) : list (result unit (Z * string)) :=
  if starts_with example_header buffer then [Ok (1, from buffer 4)] else [Err tt].

#[export] Instance example_format : NetlinkFormat := {
  element := example_element;
  emit_value v := example_header +:+ v;
  nlas := example_nlas
}.

#[export] Instance example_format_laws : NetlinkLaws.
Proof.
  split; [done|]. intros v _. unfold nlas, emit_value. cbn -[example_header]. unfold example_nlas.
  rewrite starts_with_app. by rewrite from_app.
Qed.

(** A digest of 32 bytes. *)
Definition example_sha256 (bytes : string) : string := slice (bytes +:+ of_chars (replicate 32 (chr 0))) 0 32.

Lemma example_sha256_length bytes : String.length (example_sha256 bytes) = 32%nat.
Proof. unfold example_sha256. apply length_slice. rewrite length_append, length_of_chars, length_replicate. lia. Qed.

(** ** The kernel *)

Definition key (d : DesiredTable.t) : Family * string := (DesiredTable.family d, DesiredTable.name d).

Definition replaced (batch : Batch.t) (family : Family) (name : string) : bool :=
  deletes batch family name || match creates batch family name with Some _ => true | None => false end.

Definition new_table (d : DesiredTable.t) : TableState.t := TableState.mk (DesiredTable.family d) (DesiredTable.name d) 7 (DesiredTable.table_marker d).

Definition new_chain (d : DesiredTable.t) : ChainState.t :=
  ChainState.mk (DesiredTable.family d) (DesiredTable.name d) CHAIN_NAME (Some "nat") (Some PRE_ROUTING) (Some NF_IP_PRI_NAT_DST)
    (Some NF_ACCEPT) (DesiredTable.chain_marker d).

Definition new_rules (d : DesiredTable.t) : list RuleState.t :=
  (fun r => RuleState.mk (DesiredTable.family d) (DesiredTable.name d) CHAIN_NAME (DesiredRule.expressions r) (DesiredRule.marker r))
  <$> DesiredTable.rules d.

Definition run_batch (batch : Batch.t) (k : KernelSnapshot.t) : KernelSnapshot.t :=
  KernelSnapshot.mk
    (retain (fun t => negb (replaced batch (TableState.family t) (TableState.name t))) (KernelSnapshot.tables k)
     ++ (new_table <$> Batch.create batch))
    (retain (fun c => negb (replaced batch (ChainState.family c) (ChainState.table c))) (KernelSnapshot.chains k)
     ++ (new_chain <$> Batch.create batch))
    (retain (fun r => negb (replaced batch (RuleState.family r) (RuleState.table r))) (KernelSnapshot.rules k)
     ++ (Batch.create batch ≫= new_rules))
    (KernelSnapshot.unavailable k).

(** A batch that creates a table twice is rejected. *)
#[export] Instance memory_connection : NftConnection KernelSnapshot.t unit := {
  open k := (k, Ok tt);
  snapshot _ k := (k, Ok k);
  execute _ batch k :=
    if bool_decide (NoDup (key <$> Batch.create batch)) then (run_batch batch k, Ok tt) else (k, Err (IoError.mk (Some 17) "File exists"))
}.

Section memory.
Context {A : Type} (key_of : A -> Family * string) (p : A -> bool) (family : Family) (name : string).
Context (Hp : forall x, p x = true -> key_of x = (family, name)).

Lemma retain_replaced batch l :
  retain p (retain (fun x => negb (replaced batch (key_of x).1 (key_of x).2)) l) = if replaced batch family name then [] else retain p l.
Proof.
  unfold retain. induction l as [|x l IH]; [by destruct (replaced _ _ _)|]. rewrite (filter_cons _ x l).
  destruct (p x) eqn:E.
  - rewrite (Hp x E). cbn [fst snd]. destruct (replaced batch family name) eqn:Er; cbn [negb].
    + by rewrite decide_False.
    + rewrite decide_True by done. rewrite !filter_cons, !decide_True, IH by done. done.
  - assert (Hx : filter (fun y => p y = true) (x :: l) = filter (fun y => p y = true) l)
      by (rewrite filter_cons, decide_False by (by rewrite E); done).
    rewrite Hx, <- IH. case_decide; [|done]. rewrite filter_cons, decide_False by (by rewrite E). done.
Qed.
End memory.

Lemma replaced_none batch family name : creates batch family name = None -> replaced batch family name = deletes batch family name.
Proof. unfold replaced. intros ->. apply orb_false_r. Qed.

Lemma replaced_some batch family name d : creates batch family name = Some d -> replaced batch family name = true.
Proof. unfold replaced. intros ->. apply orb_true_r. Qed.

(** What is shown of the created tables. *)
Lemma created_items {A} (items : DesiredTable.t -> list A) (p : A -> bool) batch family name :
  NoDup (key <$> Batch.create batch) ->
  (forall d x, x ∈ items d -> p x = true -> key d = (family, name)) ->
  retain p (Batch.create batch ≫= items) = match creates batch family name with Some d => retain p (items d) | None => [] end.
Proof.
  unfold creates. intros Hn Hp. induction (Batch.create batch) as [|d l IH]; [done|]. cbn in Hn. apply NoDup_cons in Hn as [Hni Hn].
  cbn [mbind list_bind find_first]. unfold retain in *. rewrite filter_app, IH by done. clear IH.
  assert (Hnone : forall d', key d' <> (family, name) -> filter (fun x => p x = true) (items d') = []).
  { intros d' Hne. apply elem_of_nil_inv. intros x [Hx Hin]%list_elem_of_filter. by apply Hne, (Hp d' x). }
  destruct (bool_decide _ && _) eqn:E.
  - apply andb_prop in E as [E1%bool_decide_eq_true E2%String.eqb_eq].
    destruct (find_first _ l) as [d'|] eqn:Hf; [|by rewrite app_nil_r]. exfalso.
    apply find_first_Some in Hf as [[F1%bool_decide_eq_true F2%String.eqb_eq]%andb_prop Hin].
    apply Hni. apply list_elem_of_fmap. exists d'. split; [|done]. unfold key. congruence.
  - rewrite Hnone; [done|]. unfold key. intros [= E1 E2]. by rewrite bool_decide_eq_true_2, (proj2 (String.eqb_eq _ _)) in E.
Qed.

Lemma fmap_as_bind {A B} (f : A -> B) l : f <$> l = l ≫= (fun x => [f x]).
Proof. induction l as [|x l IH]; [done|]. cbn. by rewrite <- IH. Qed.

Lemma retain_app {A} (p : A -> bool) l1 l2 : retain p (l1 ++ l2) = retain p l1 ++ retain p l2.
Proof. apply filter_app. Qed.

Ltac split_key := repeat match goal with H : _ && _ = true |- _ => apply andb_prop in H as [? ?] end;
  repeat match goal with H : bool_decide _ = true |- _ => apply bool_decide_eq_true in H
                       | H : String.eqb _ _ = true |- _ => apply String.eqb_eq in H end.

Lemma creates_key batch family name d : creates batch family name = Some d -> DesiredTable.family d = family /\ DesiredTable.name d = name.
Proof. intros [H _]%find_first_Some. by split_key. Qed.

Lemma run_batch_submitted batch k : NoDup (key <$> Batch.create batch) -> submitted batch k (run_batch batch k).
Proof.
  intros Hn. split; intros family name.
  - unfold own, run_batch. cbn [KernelSnapshot.tables]. rewrite retain_app, fmap_as_bind.
    rewrite (retain_replaced (fun t => (TableState.family t, TableState.name t)) _ family name) by (intros; split_key; congruence).
    rewrite (created_items _ _ batch family name Hn) by (intros d x ->%list_elem_of_singleton ?; split_key; unfold key; cbn in *; congruence).
    destruct (creates batch family name) as [d|] eqn:Hc; [|by rewrite app_nil_r, replaced_none].
    rewrite (replaced_some _ _ _ d Hc). destruct (creates_key _ _ _ _ Hc) as [Hf Hnm]. exists (new_table d). split; [|done].
    unfold retain. rewrite filter_cons. cbn. rewrite Hf, Hnm, bool_decide_eq_true_2, String.eqb_refl by done. done.
  - unfold chains_of, run_batch. cbn [KernelSnapshot.chains]. rewrite retain_app, fmap_as_bind.
    rewrite (retain_replaced (fun c => (ChainState.family c, ChainState.table c)) _ family name) by (intros; split_key; congruence).
    rewrite (created_items _ _ batch family name Hn) by (intros d x ->%list_elem_of_singleton ?; split_key; unfold key; cbn in *; congruence).
    destruct (creates batch family name) as [d|] eqn:Hc; [|by rewrite app_nil_r, replaced_none].
    rewrite (replaced_some _ _ _ d Hc). destruct (creates_key _ _ _ _ Hc) as [Hf Hnm]. exists (new_chain d). split_and!; [|done|done].
    unfold retain. rewrite filter_cons. cbn. rewrite Hf, Hnm, bool_decide_eq_true_2, String.eqb_refl by done. done.
  - assert (Hrules : forall chain, rules_of (run_batch batch k) family name chain
              = (if replaced batch family name then [] else rules_of k family name chain)
                ++ match creates batch family name with
                   | Some d => retain (fun rule => bool_decide (RuleState.family rule = family) && String.eqb (RuleState.table rule) name
                                                   && String.eqb (RuleState.chain rule) chain) (new_rules d)
                   | None => [] end).
    { intros chain. unfold rules_of, run_batch. cbn [KernelSnapshot.rules]. rewrite retain_app.
      rewrite (retain_replaced (fun r => (RuleState.family r, RuleState.table r)) _ family name) by (intros; split_key; congruence).
      f_equal. apply created_items; [done|]. intros d x (r & -> & _)%list_elem_of_fmap ?. split_key. unfold key. cbn in *. congruence. }
    destruct (creates batch family name) as [d|] eqn:Hc.
    + rewrite Hrules, (replaced_some _ _ _ d Hc). destruct (creates_key _ _ _ _ Hc) as [Hf Hnm]. cbn [app]. unfold new_rules.
      rewrite Hf, Hnm. induction (DesiredTable.rules d) as [|r l IH]; [constructor|]. unfold retain in *. cbn [fmap list_fmap]. rewrite filter_cons.
      cbn. rewrite bool_decide_eq_true_2, String.eqb_refl by done. cbn. by constructor.
    + intros chain. by rewrite Hrules, app_nil_r, replaced_none.
Qed.

#[export] Instance memory_kernel : NftKernel KernelSnapshot.t unit.
Proof.
  refine {| kernel := fun k => k |}.
  - by intros w w' r [= <- <-].
  - by intros c w w' r [= <- <-].
  - by intros c w w' raw [= <- <-].
  - intros c batch w w'. cbn. case_bool_decide as Hn; intros [= <-]. by apply run_batch_submitted.
  - intros c batch w w' e. cbn. case_bool_decide; intros [= <- <-]. by left.
Defined.

(** ** The first plan of a machine *)

Definition example_debug (s : string) : string := s.

Definition machine : NftBackend.t := NftBackend.new example_sha256 "machine-1".

Definition example_plan : Plan :=
  mkPlan [Redirect.mk "n1" 8443 [PortRange.mk 20000 20100; PortRange.mk 20200 20200]; Redirect.mk "n2" 9443 [PortRange.mk 30000 30001]].

(** A firewall with a rule that redirects another port. *)
Definition firewall : KernelSnapshot.t :=
  KernelSnapshot.mk [TableState.mk Inet "firewall" 1 ""]
    [ChainState.mk Inet "firewall" "nat" (Some "nat") (Some PRE_ROUTING) (Some 0) (Some NF_ACCEPT) ""]
    [RuleState.mk Inet "firewall" "nat" (redirect_expressions (PortRange.mk 500 500) 4500) ""] ∅.

Lemma example_canonical : canonical example_plan.
Proof.
  split; [repeat constructor; set_solver|reflexivity| | |repeat constructor]; cbn.
  - repeat constructor; done.
  - repeat constructor; done.
Qed.

Definition after (desired : Plan) (self : NftBackend.t) (w : KernelSnapshot.t) : (NftBackend.t * KernelSnapshot.t) * result BoxError unit :=
  apply example_debug example_sha256 desired (self, w).

Definition first_apply := after example_plan machine firewall.

(** Three rules join the one of the firewall, in one table. *)
Example first_apply_rules :
  first_apply.2 = Ok tt /\ length (KernelSnapshot.rules first_apply.1.2) = 4%nat /\
  TableState.name <$> KernelSnapshot.tables first_apply.1.2 = ["firewall"; NftBackend.table_name machine].
Proof. by vm_compute. Qed.

(** An empty plan removes them again. *)
Example cleared : (after plan_default first_apply.1.1 first_apply.1.2).1.2 = firewall.
Proof. by vm_compute. Qed.

(** A plan with the firewall's port is refused. *)
Example conflicting :
  match after (mkPlan [Redirect.mk "n1" 8443 [PortRange.mk 400 600]]) machine firewall with
  | (s, Err _) => s = (machine, firewall)
  | _ => False
  end.
Proof. by vm_compute. Qed.

Lemma apply_contract_witness :
  exists mode, installed example_sha256 (NftBackend.table_name machine) (NftBackend.owner machine) first_apply.1.2 mode
                 (plan_digest example_sha256 example_plan) (rule_count example_plan).
Proof.
  destruct first_apply as [[self' w'] r] eqn:E. assert (Hr : r = Ok tt) by (change r with ((self', w'), r).2; rewrite <- E; by vm_compute). subst r.
  destruct (apply_contract example_debug example_sha256 example_sha256_length machine firewall example_plan self' w' (Ok tt)
              example_canonical ltac:(by vm_compute) E) as [H|(H & _)]; [exact H|by vm_compute in H].
Defined.

Lemma apply_keeps_foreign_witness : foreign_kept (NftBackend.table_name machine) firewall first_apply.1.2.
Proof.
  destruct first_apply as [[self' w'] r] eqn:E.
  exact (proj1 (apply_keeps_foreign example_debug example_sha256 example_sha256_length machine firewall example_plan self' w' r
                  example_canonical ltac:(by vm_compute) E)).
Defined.

Lemma apply_again_looks_witness : only_looked first_apply.1.2 (after example_plan first_apply.1.1 first_apply.1.2).1.2.
Proof.
  destruct first_apply as [[self1 w1] r] eqn:E. assert (Hr : r = Ok tt) by (change r with ((self1, w1), r).2; rewrite <- E; by vm_compute). subst r.
  cbn [fst snd]. destruct (after example_plan self1 w1) as [[self2 w2] r2] eqn:E2.
  refine (apply_again_looks example_debug example_sha256 example_sha256_length machine firewall example_plan self1 w1 self2 w2 r2
            example_canonical ltac:(by vm_compute) _ E E2).
  by intros [H _].
Defined.

(** ** A batch over a socket *)

(** Acknowledgements of sixteen bytes: the length and the sequence number. *)
Definition example_ack (sequence : Z) : string := le32 16 +:+ le32 0 +:+ le32 sequence +:+ le32 0.

Definition example_deserialize (bytes : string) : result string NetlinkMessage.t :=
  Ok (NetlinkMessage.mk 0 (read_le32 (slice bytes 8 4)) 0 (NetlinkPayload.Error None)).

#[local] Instance example_wire : NetlinkWire := {
  serialize m := example_ack (NetlinkMessage.sequence_number m);
  deserialize := example_deserialize;
  to_io := fun _ => IoError.mk (Some 22) "Invalid argument"
}.

(** A kernel that acknowledges the messages of a datagram in two datagrams, after one
    that another process sent. *)
Definition example_acks (count : nat) : string := foldr (fun k acc => example_ack (Z.of_nat k) +:+ acc) "" (seq 1 count).

#[local] Instance example_socket : Socket (list (string * Z)) := {
  socket_new w := (w, Ok 3);
  bind_auto _ w := (w, Ok 4711);
  connect _ w := (w, Ok tt);
  set_timeout _ _ w := (w, Ok tt);
  send _ bytes w := (w ++ [("", 99); (example_acks 2, 0); (example_acks (String.length bytes / 16)%nat, 0)], Ok (str_len bytes));
  recv_from_full _ w := match w with d :: w => (w, Ok d) | [] => ([], Err (IoError.mk (Some 11) "Resource temporarily unavailable")) end;
  inbox _ w := w
}.

#[local] Instance example_socket_laws : SocketLaws (list (string * Z)).
Proof. split. intros self [|d w] w' datagram; cbn; [done|]. by intros [= <- <-]. Qed.

Definition example_table : DesiredTable.t :=
  DesiredTable.mk Inet "acp_hy2_0" "t" "c" [DesiredRule.mk (redirect_expressions (PortRange.mk 20000 20100) 8443) "m"].

Definition example_batch : Batch.t := Batch.mk [DeleteTable.mk Inet "acp_hy2_0" 7] [example_table].

Definition example_open := open_connection (mkNet [] ∅ : net (list (string * Z))).

Lemma execute_acknowledged_witness :
  (execute_batch 3 example_batch example_open.1).2 = Ok tt /\
  exists read, forall m, m ∈ numbered 4711 0 (batch_messages example_batch) -> control m \/ acknowledged read (NetlinkMessage.sequence_number m).
Proof.
  split; [by vm_compute|]. destruct (execute_batch 3 example_batch example_open.1) as [n' r] eqn:E.
  assert (Hr : r = Ok tt) by (change r with (n', r).2; rewrite <- E; by vm_compute). subst r.
  destruct (execute_acknowledged 3 example_batch example_open.1 n' E) as (w1 & read & _ & _ & Hall). exists read. exact Hall.
Defined.

Definition example_chain_message : NetfilterMessage.t :=
  NetfilterMessage.mk ProtoInet 0 (NetfilterMessageInner.NfTables (NfTablesMessage.NewChain (chain_attributes example_table ++ [ChainAttribute.Other 9]))).

Definition example_table_message : NetfilterMessage.t :=
  NetfilterMessage.mk ProtoInet 0 (NetfilterMessageInner.NfTables (NfTablesMessage.NewTable
    ((TableAttribute.Handle 7 :: table_attributes example_table) ++ [TableAttribute.Other 2]))).

Definition example_rule_messages : list NetfilterMessage.t :=
  (fun rule => NetfilterMessage.mk ProtoInet 0 (NetfilterMessageInner.NfTables (NfTablesMessage.NewRule (rule_attributes example_table rule ++ [RuleAttribute.Other 3]))))
  <$> DesiredTable.rules example_table.

Lemma created_shown_witness :
  collect_records table_from_message [example_table_message] = Ok [TableState.mk Inet "acp_hy2_0" 7 "t"] /\
  exists chain, collect_records chain_from_message [example_chain_message] = Ok [chain] /\ is_managed_chain chain = true.
Proof.
  destruct (created_shown example_table 7 example_table_message example_chain_message example_rule_messages) as (Ht & (chain & Hc & Hm & _) & _).
  - exists ((TableAttribute.Handle 7 :: table_attributes example_table) ++ [TableAttribute.Other 2]), [TableAttribute.Other 2].
    by split; [repeat constructor|].
  - exists (chain_attributes example_table ++ [ChainAttribute.Other 9]), [ChainAttribute.Other 9]. by split; [repeat constructor|].
  - constructor; [|constructor]. eexists _, [RuleAttribute.Other 3]. split; [by repeat constructor|]. split; reflexivity.
  - split; [exact Ht|]. by exists chain.
Defined.

(** Acknowledgements are read back from their datagram. *)
Lemma datagram_read_back_witness :
  parse_datagram (concat_messages [NetlinkMessage.mk 0 5 0 (NetlinkPayload.Error None); NetlinkMessage.mk 0 6 0 (NetlinkPayload.Error None)])
  = Ok [NetlinkMessage.mk 0 5 0 (NetlinkPayload.Error None); NetlinkMessage.mk 0 6 0 (NetlinkPayload.Error None)].
Proof.
  apply datagram_read_back. assert (H : forall k, k = 5 \/ k = 6 -> encodes (NetlinkMessage.mk 0 k 0 (NetlinkPayload.Error None))).
  { intros k [-> | ->]; split; [by vm_compute|by vm_compute|split; [by vm_compute|by vm_compute]|by vm_compute|by vm_compute|split; [by vm_compute|by vm_compute]]. }
  repeat constructor; apply H; [by left|by right].
Defined.
